(* ===== verification/_CoqProject ===== *)
-Q . S2P
Prelude.v
Buddy.v
BuddyInv.v
BuddyOps.v
BuddySpec.v
FrameMeta.v
Holds.v
BootInfo.v
FrameAlloc.v
FrameAllocSpec.v
FrameContract.v
MappingModel.v
Errno.v
Vma.v
VmaSpec.v
Sched.v
SchedOps.v
SchedLife.v
SchedSpec.v
MapInterface.v
Maps.v
OpenAddress.v
Collections.v
KlogRing.v
SoundRing.v
Text.v
Elf.v
Cpio.v
FileTable.v
Inode.v
FsTree.v
Ramfs.v
RamfsInv.v
RamfsSpec.v
Vfs.v
VfsSpec.v
PseudoFs.v
World.v
FsClaims.v
Tty.v
Keyboard.v
Heap.v
HeapInv.v
KernelHeap.v
PageHeapSpec.v
KernelHeapSpec.v
HeapClaims.v
ExecStack.v
Process.v
ProcessSpec.v
Paging.v
UserMemory.v
PagingTree.v
PagingOps.v
PagingSpaces.v
PagingCow.v
PagingSteps.v
UserMemorySpec.v
PagingFork.v
UserSystem.v
UserClaims.v
Abi.v
Uaccess.v
Syscall.v
SyscallSpec.v
UserLib.v
SyscallClaims.v
Exec.v
ExecClaims.v
ShellParse.v
Shell.v
UserHeap.v
SoundFormat.v
Unpack.v
Cmdline.v
SoundCard.v
Clock.v
Pci.v
HdaCodec.v
Lock.v
