(* ===== verification/Prelude.v ===== *)
(** * SaeOS: a verification library for the kernel's core

    SaeOS is a small x86-64 operating system in Rust: a kernel under
    [src/kernel/src], user programs under [src/userspace] and host tools under
    [src/tools].  This library models the parts of it that carry its logic
    (memory, processes' memory maps, scheduling, filesystems, program loading,
    the containers and rings they use) as Rocq functions translated from the
    source, and proves what makes each of them correct.

    ** How the parts fit together

    At boot the loader hands the kernel a map of physical memory
    ([boot/boot_info.rs]).  The frame allocator ([mm/frame.rs]) carves out what
    must never be handed out ([mm/holds.rs]), builds buddy free lists over the
    rest ([mm/buddy.rs]) and serves page frames; the boot page tables follow
    the plan of [mm/mapping_model.rs].  A process has a memory map
    ([mm/vma.rs]) filled from its ELF image ([exec/elf.rs]), a table of file
    descriptors ([fs/file.rs]), an initial stack with its arguments
    ([exec/stack.rs]) and tasks the scheduler runs ([task/scheduler.rs]); the
    process table ([process.rs]) keeps the family tree and the exit statuses.
    The kernel's own data lives on a heap ([mm/heap.rs]): free lists in a
    static array, and pages mapped from the frame allocator for large blocks.
    The memory map is realised by page tables of the process's own
    ([mm/paging.rs], [mm/user_memory.rs]), shared copy on write after a fork;
    [mm/address_space.rs] says which are in use.  Descriptors lead to open files of the VFS
    ([fs/vfs.rs]), which walks paths over mounted filesystems: an in-memory
    one ([fs/ramfs.rs]) filled from a cpio archive ([fs/initramfs.rs]) that a
    host tool writes ([tools/mkinitramfs]), devices ([fs/devfs.rs]) and kernel
    data ([fs/procfs.rs]).  Programs reach all of this by system calls
    ([syscall]), whose arguments the kernel reads from user memory
    ([mm/uaccess.rs]) and whose results the user library takes apart
    ([userspace/libsaeos]); [exec/mod.rs] puts a new program in the place of
    the running one.  The library's own heap ([libsaeos/src/heap.rs]) grows by
    these calls, the shell ([userspace/sh]) parses lines and runs programs, and
    what programs write to the sound device is converted to the card's format
    ([sound/format.rs], [sound/resample.rs]) on its way to the playback ring
    of the card ([sound/mod.rs]), whose codec is found and wired by
    [drivers/hda/codec.rs] on a controller found by [drivers/pci].  Keys
    arrive as interrupts ([drivers/keyboard.rs]) for the terminal; clocks are
    read in [time]; shared data is behind the locks of [sync/spinlock.rs].

    ** Conventions

    Integers are [Z]; where the source can overflow, wrap or saturate, the
    model writes it out (remainders, checked and saturating operations, casts).
    [Result] is [result], [Option] is [option]; a panic (failed assertion,
    index out of range, [expect]) is an outcome of its own wherever it can be
    observed: either a constructor of the operation's outcome type or [None]
    of an outer [option], and the theorems show it is not reached or say when
    it is.  Loops are structural where the source walks a list and carry fuel
    otherwise; running out of fuel is a distinct value and the theorems show
    that the fuel given suffices.  [&mut self] is state passing.  A trait is a
    class: [Buddy.FrameStore], [MapInterface.Map], [Inode.Inodes]; clients are
    proved against the class and its laws and each implementation discharges
    them.  A global behind a lock is the state an operation is applied to, one
    critical section being one step; interleavings are sequences of steps.

    ** Files

    - [Prelude]: results, notations, tactics, lemmas on lists and integers.
      [Text]: bytes, strings, path components, UTF-8.  [Errno]: [fs/errno.rs].
    - Physical memory.  [Buddy] ([mm/buddy.rs]) over the class [FrameStore];
      [BuddyInv] the invariant relating the lists to a set of disjoint
      aligned free blocks, [BuddyOps] and [BuddySpec] its preservation and the
      specification of each operation;
      [FrameMeta] the metadata array that implements [FrameStore]
      ([mm/frame.rs]); [Holds] ([mm/holds.rs]); [BootInfo]
      ([boot/boot_info.rs]); [FrameAlloc] the allocator of [mm/frame.rs], with
      [FrameAllocSpec], [FrameContract].
    - The kernel heap ([mm/heap.rs]).  [Heap] memory as words, tilings by blocks
      and the static allocator with its lists in memory, [HeapInv] the free
      list and the tiling invariant; [KernelHeap] the
      page heap over the class [Pages] and the allocator interface,
      [PageHeapSpec], [KernelHeapSpec]; [HeapClaims] the theorems, with a
      concrete memory as the instance of [Pages].
    - Virtual memory.  [MappingModel] ([mm/mapping_model.rs]); [Vma]
      ([mm/vma.rs]), [VmaSpec].
    - User address spaces.  [Paging] ([AddressSpace] of [mm/paging.rs]) over
      the class [Frames] of counted frames with contents; [UserMemory]
      ([mm/user_memory.rs], [mm/address_space.rs], the memory part of [fork]).
      [PagingTree] the laws of [Frames] and page tables as a tree with a flat
      view, [PagingOps] mapping, unmapping and freeing in it;
      [PagingSpaces] several spaces over one memory with exact counts,
      [PagingCow], [PagingSteps], [PagingFork] the operations
      there; [UserMemorySpec] the calls; [UserSystem] all processes and the
      machine of separate memories; [UserClaims] two instances of [Frames],
      a small memory and the allocator of [FrameAlloc], and the theorems.
    - Tasks.  [Sched] ([task/{entity,types,record,wait_queue,scheduler}.rs]),
      [SchedOps], [SchedLife], [SchedSpec];
      [Process] the process table ([process.rs]) and the life cycle
      ([scheduler/lifecycle.rs]), [ProcessSpec] the family tree.
    - Containers ([collections]).  [MapInterface] the traits and their laws;
      [Maps] (static and chained) and [OpenAddress] the implementations;
      [Collections] hashers, hash set and the refinement theorems.
    - Rings and the terminal.  [KlogRing] ([klog_ring.rs]), [SoundRing]
      ([sound/ring.rs]), [Tty] ([drivers/tty.rs]).
    - Programs and archives.  [Elf] ([exec/elf.rs]); [ExecStack]
      ([exec/stack.rs] and [libsaeos/src/startinfo.rs]); [Cpio]
      ([fs/initramfs.rs], [tools/mkinitramfs/src/cpio.rs]).
    - Filesystems.  [FileTable] ([fs/file.rs]); [Inode] the trait of
      [fs/inode.rs]; [FsTree] an abstract directory tree and its moves;
      [Ramfs] ([fs/ramfs.rs]), [RamfsInv], [RamfsSpec]; [Vfs] ([fs/vfs.rs],
      [fs/path.rs]), [VfsSpec] generic in the inodes; [PseudoFs]
      ([fs/devfs.rs], [fs/procfs.rs], [fs/block.rs]); [World] the inodes of
      all filesystems together with their laws, [FsClaims] the
      theorems about the composition.
    - System calls and the user library.  [Abi] the encodings of
      [syscall/{abi,numbers,time}.rs] and the decoders of
      [libsaeos/src/{fs,raw,time,errno}.rs] with the proof that they fit;
      [Uaccess] the class [UserMemory] and [read_cstr] ([mm/uaccess.rs]);
      [Syscall] dispatch and every handler ([syscall/{mod,memory,time}.rs])
      over the VFS, [UserMemory] and the class [ProcessOps]; [SyscallSpec]
      that no call on files panics, for any processes; [UserLib] line reading and the loops of the
      library, and directory listing and reading from the program
      down to the filesystem; [SyscallClaims] concrete instances and the
      theorems.
    - Program loading.  [Exec] ([exec/mod.rs]) with the pages and the map;
      [ExecClaims] the bytes, the failures and the theorem.
    - User programs.  [UserHeap] ([libsaeos/src/{heap,allocator}.rs]) over the
      class [Source], which the system calls of the class [Raw] implement;
      [ShellParse] ([sh/src/parse.rs]); [Shell] ([sh/src/main.rs], standard
      output of [libsaeos/src/io.rs]) over the class [Os].
    - Start-up and sound.  [Unpack] ([unpack] of [fs/initramfs.rs]) over the
      inode interface and the in-memory filesystem; [Cmdline] the command line
      ([cmdline.rs], its copy in [boot/boot_info.rs], the choice of
      [init.rs]); [SoundFormat]
      ([sound/{format,resample}.rs]); [SoundCard] the card over the class of
      audio devices ([sound/mod.rs]).
    - Devices, each a class of accesses with a class of its documented
      behaviour.  [Pci] ([drivers/pci/{config,device,scan,msi}.rs]);
      [HdaCodec] ([drivers/hda/codec.rs]); [Keyboard] ([drivers/keyboard.rs]
      and the blocking read of [drivers/tty.rs]); [Clock]
      ([time/{mod,tsc}.rs] and the clocks of [syscall/mod.rs]).
    - [Lock] ([sync/spinlock.rs]) with threads, handlers and interrupts.

    ** What the theorems show

    - Physical memory: allocation returns an aligned block that was free and
      is now owned, release returns it and merges buddies, and nothing else
      changes; the metadata array implements the store; the bounds of every
      zone's counters are exact; held or reserved frames are never allocated,
      from boot on and whatever the sequence of calls; the one known gap is a
      forged tag in a frame's content ([forged_tag_mistaken_for_head]).
    - Kernel heap: live allocations never overlap, are aligned and in range,
      and every operation ends, for alignments of at most [2 ^ 46]
      ([page_heap_misaligns] shows a larger one).
    - Virtual memory: the boot plan covers exactly the requested range with
      pages that satisfy the policy, and the checker agrees with the planner;
      a memory map stays sorted, disjoint, aligned and below its limits under
      every operation, and the pages present are those of the map with its
      permissions while [brk] finds the heap in one piece.
    - User address spaces: every run of memory calls, forks, faults, stores
      and switches refines a machine in which each process has pages of its
      own; a process is untouched by the others; a page is mapped only in a
      region of the map, no page is writable and executable, shared memory is
      never writable; ended processes give every frame back, unless a fork
      failed half way ([failed_fork_leaks]).  The tables follow the map exactly
      in runs where [brk] finds the heap in one piece; after [munmap] or
      [mprotect] of a part the heap lacks pages or rights
      ([brk_after_munmap]).  All this is over the interface of frames
      ([FramesLaws]), which the allocator implements
      ([KernelFrames.kernel_laws]) with its list nodes apart from the contents
      of frames: the forged tag above is where the code differs.
    - Scheduling: the invariant of tasks, queues and virtual time; the choice
      is the eligible task with the earliest deadline; the processor idles
      only when nothing can run; sleepers resume with bounded lag; in an
      operation a task keeps its state or takes one edge of the life cycle.
    - Processes: parent and child links agree in every reachable table, every
      zombie has a living parent that collects it exactly once, an address
      space has one owner, and repeated waiting drains the zombies.
    - Containers: each map refines a finite map, with its capacity errors.
    - Rings and terminal: the log keeps the newest bytes; the playback ring
      never overwrites what is being played; the echo on the screen is the
      line being edited.
    - Programs and archives: an accepted image yields a plan within the
      user's range, without overlap or writable code, and the pages hold the
      file's bytes and zeros; the archive parser finishes on all inputs and
      accepts only contained, relative entries; it reads back what the tool
      writes; a program reads from its stack what the kernel laid out.
    - Filesystems: descriptors are the smallest free ones; a ramfs is a tree
      with exact space accounting after any operations; rename moves a whole
      subtree and never into itself; reads return what was written; path
      walking equals walking the normalised path; reference counts are exact,
      so an unlinked file lives exactly as long as it is open.
    - System calls: whatever programs pass, no call on files panics, the files
      stay sound and the program learns exactly the result; the calls for
      memory, processes and time are translated, but what they do is up to
      [ProcessOps]; a directory is listed
      exactly however many buffers it takes; a read moves the position by what
      arrived; strings are read as if byte by byte; every structure the
      kernel encodes is what the library decodes; days are counted right.
    - Program loading: a program starts with the bytes of its file and its
      arguments in its memory and nothing else, and a failure to load leaves
      no trace.
    - User programs: live blocks of the heap are apart, aligned and keep their
      contents; a quoted line means exactly its words, no value of a variable
      is read as syntax, and a program gets its words, the variables and the
      redirected descriptors and no others.  Two divergences of the shell are
      proved ([line_expands_first], [buffered_text_misplaced]).
    - Start-up and sound: the root filesystem holds what replaying the archive
      gives; the parameters on the boot line reach the kernel and name the
      program that runs first; the frames played are those the bytes define,
      however they are written, and what is heard is what was written.
    - Devices: a PCI scan lists exactly the functions that can be reached, with
      their exact address ranges (it clears error bits), and an MSI message is
      never enabled half written; planned audio outputs play; a line typed on
      a US keyboard is read; the time of day is right to the second, but for
      noon and midnight, which are exchanged in 12-hour mode
      ([twelve_hour_noon_is_midnight]).
    - Locks: among threads and handlers that follow the rules in [Lock] (guards
      go in reverse order, no lock twice, no [SpinMutex] in a handler, no switch
      while an [IrqSpinMutex] is held) a lock has one holder, an interrupt-safe
      one is taken at the first attempt, and while it is held nothing else
      runs.

    ** Bounds and fuel

    Buddy merging recurses at most [MAX_ORDER] times and a free list has at
    most as many blocks as there are frames; the fuel of each loop is stated
    beside it and the specification lemmas prove that it is never exhausted
    under the invariant.  The archive parser's fuel is the archive's length:
    each member advances by at least its header.  A walk of the heap's free
    list has one unit more than the words written so far, a refill six rounds.  Walking up a directory tree
    takes at most as many steps as there are nodes.  Page tables have four
    levels and 512 entries each; spans are walked page by page.  A PCI scan
    visits 256 buses at most and each adds at most 256 to the list; the search
    of a codec extends a path only to a widget not seen before.

    ** Not modelled

    Hardware effects: cached translations (the model of a user store walks the
    tables), the boot page tables and the kernel half of [mm/paging.rs] (an
    address space copies its entries), context switches, interrupt
    controllers, programming of timers and of device controllers ([arch], the
    rest of [drivers]), firmware start-up.  Locks: a locked operation is one
    step of the models; [Lock] shows that on one processor it is, for code that
    follows its rules.
    Memory exhaustion of the kernel heap, except where the code reports it
    ([try_reserve] in the ramfs).  Console output, self tests, host tests.
    The kernel's implementation of [ProcessOps] is glue to the scheduler and
    the process table; its memory calls, its fork and its exec are modelled
    with the address spaces.  Of the user programs only the shell, and of the
    build tools only the archive writer, are modelled; what the shell asks of
    the kernel is a class with the laws of descriptors.
*)

From Stdlib Require Import ZArith Lia Permutation.
From stdpp Require Import base gmap sorting numbers list.

#[export] Set Default Goal Selector "!".
#[export] Set Warnings "-clear-no-such-hyp".
#[global] Open Scope Z_scope.

(** ** Results

    [Result<T, E>] of the source, with the [?] operator as a notation. *)

Inductive result (E A : Type) : Type :=
| Ok (a : A)
| Err (e : E).
Arguments Ok {E A} a.
Arguments Err {E A} e.

Declare Scope saeos_scope.
Delimit Scope saeos_scope with saeos.
#[global] Open Scope saeos_scope.

Notation "'let?' x := e 'in' k" :=
  (match e with Ok x => k | Err err => Err err end)
  (at level 10, x name, e at level 100, k at level 200) : saeos_scope.
Notation "'let?' ' p := e 'in' k" :=
  (match e with Ok p => k | Err err => Err err end)
  (at level 10, p pattern, e at level 100, k at level 200) : saeos_scope.

Lemma Ok_inj {E A} (a b : A) : @Ok E A a = Ok b -> a = b.
Proof. by intros [=]. Qed.

Definition ok_or {E A} (o : option A) (e : E) : result E A :=
  match o with Some a => Ok a | None => Err e end.

Definition is_ok {E A} (r : result E A) : bool :=
  match r with Ok _ => true | Err _ => false end.

Definition result_map {E A B} (f : A -> B) (r : result E A) : result E B :=
  match r with Ok a => Ok (f a) | Err e => Err e end.

(** ** Machine integers

    [u64] and [usize] values (64 bits on x86_64) are [Z]s in [0, 2^64). The
    checked, saturating and rounding operations of [core] are written out; an
    addition the source writes with a plain [+] is [Z] addition. *)

Definition U64_MAX : Z := 2 ^ 64 - 1.
Definition U64_MOD : Z := 2 ^ 64.

Definition is_u64 (x : Z) : Prop := 0 <= x <= U64_MAX.

Definition checked_add (a b : Z) : option Z :=
  if a + b <=? U64_MAX then Some (a + b) else None.
Definition checked_sub (a b : Z) : option Z :=
  if b <=? a then Some (a - b) else None.
Definition saturating_add (a b : Z) : Z := Z.min (a + b) U64_MAX.
Definition saturating_sub (a b : Z) : Z := Z.max (a - b) 0.
Definition wrapping_mul (a b : Z) : Z := (a * b) mod U64_MOD.

Definition is_multiple_of (a m : Z) : bool := a mod m =? 0.
(** Smallest multiple of [m] that is at least [a]. *)
Definition next_multiple_of (a m : Z) : Z := (a + m - 1) / m * m.
Definition checked_next_multiple_of (a m : Z) : option Z :=
  if next_multiple_of a m <=? U64_MAX then Some (next_multiple_of a m) else None.

(** [usize::trailing_zeros]: 64 on zero. *)
Fixpoint pos_trailing_zeros (p : positive) : Z :=
  match p with
  | xO q => 1 + pos_trailing_zeros q
  | _ => 0
  end.
Definition trailing_zeros (z : Z) : Z :=
  match z with Zpos p => pos_trailing_zeros p | _ => 64 end.

(** [to_le_bytes] and [from_le_bytes] of an integer of [n] bytes. *)
Fixpoint le_bytes (n : nat) (x : Z) : list Z :=
  match n with O => [] | S n => x mod 256 :: le_bytes n (x / 256) end.
Fixpoint from_le (bytes : list Z) : Z :=
  match bytes with [] => 0 | b :: bytes => b + 256 * from_le bytes end.

(** ** Proof automation *)

(** Turn boolean tests into propositions, then into hypotheses. *)
Ltac bool_to_prop :=
  repeat match goal with
  | H : (_ && _)%bool = true |- _ => apply andb_prop in H as [? ?]
  | H : (_ && _)%bool = false |- _ => apply andb_false_iff in H
  | H : (_ || _)%bool = true |- _ => apply orb_prop in H
  | H : (_ || _)%bool = false |- _ => apply orb_false_iff in H as [? ?]
  | H : negb _ = true |- _ => apply negb_true_iff in H
  | H : negb _ = false |- _ => apply negb_false_iff in H
  | H : (_ <? _) = true |- _ => apply Z.ltb_lt in H
  | H : (_ <? _) = false |- _ => apply Z.ltb_ge in H
  | H : (_ <=? _) = true |- _ => apply Z.leb_le in H
  | H : (_ <=? _) = false |- _ => apply Z.leb_gt in H
  | H : (_ >? _) = true |- _ => rewrite Z.gtb_ltb in H; apply Z.ltb_lt in H
  | H : (_ >? _) = false |- _ => rewrite Z.gtb_ltb in H; apply Z.ltb_ge in H
  | H : (_ >=? _) = true |- _ => rewrite Z.geb_leb in H; apply Z.leb_le in H
  | H : (_ >=? _) = false |- _ => rewrite Z.geb_leb in H; apply Z.leb_gt in H
  | H : (_ =? _) = true |- _ => apply Z.eqb_eq in H
  | H : (_ =? _) = false |- _ => apply Z.eqb_neq in H
  | H : bool_decide _ = true |- _ => apply bool_decide_eq_true in H
  | H : bool_decide _ = false |- _ => apply bool_decide_eq_false in H
  end.

(** Case on the test of the first [if] or [match] that blocks the goal. *)
Ltac case_if :=
  match goal with
  | |- context [if ?b then _ else _] =>
      lazymatch type of b with
      | bool => let H := fresh "Hif" in destruct b eqn:H; bool_to_prop
      end
  end.
Ltac case_if_in H :=
  match type of H with
  | context [if ?b then _ else _] =>
      lazymatch type of b with
      | bool => let H' := fresh "Hif" in destruct b eqn:H'; bool_to_prop
      end
  end.

Create HintDb saeos.
#[export] Hint Unfold is_u64 U64_MAX U64_MOD : saeos.

(** ** Lemmas on integers *)

Lemma is_multiple_of_iff a m : is_multiple_of a m = true <-> a mod m = 0.
Proof. unfold is_multiple_of. apply Z.eqb_eq. Qed.

Lemma is_multiple_of_divide a m : 0 < m -> is_multiple_of a m = true <-> (m | a).
Proof. intros Hm. rewrite is_multiple_of_iff. apply Z.mod_divide. lia. Qed.

Lemma next_multiple_of_ge a m : 0 < m -> a <= next_multiple_of a m.
Proof.
  intros Hm. unfold next_multiple_of.
  pose proof (Z.div_mod (a + m - 1) m ltac:(lia)).
  pose proof (Z.mod_pos_bound (a + m - 1) m ltac:(lia)). nia.
Qed.

Lemma next_multiple_of_lt a m : 0 < m -> next_multiple_of a m < a + m.
Proof.
  intros Hm. unfold next_multiple_of.
  pose proof (Z.div_mod (a + m - 1) m ltac:(lia)).
  pose proof (Z.mod_pos_bound (a + m - 1) m ltac:(lia)). nia.
Qed.

Lemma next_multiple_of_divide a m : (m | next_multiple_of a m).
Proof. unfold next_multiple_of. apply Z.divide_factor_r. Qed.

Lemma divide_lt_add_le m a b : 0 < m -> (m | a) -> (m | b) -> a < b -> a + m <= b.
Proof.
  intros Hm [x ->] [y ->] Hlt. assert (x < y) by nia.
  assert (x + 1 <= y) by lia. nia.
Qed.

Lemma next_multiple_of_le a m b : 0 < m -> (m | b) -> a <= b -> next_multiple_of a m <= b.
Proof.
  intros Hm Hb Hle. pose proof (next_multiple_of_lt a m Hm).
  destruct (Z.le_gt_cases (next_multiple_of a m) b) as [|Hgt]; [done|].
  pose proof (divide_lt_add_le m b _ Hm Hb (next_multiple_of_divide a m) Hgt). lia.
Qed.

Lemma next_multiple_of_id a m : 0 < m -> (m | a) -> next_multiple_of a m = a.
Proof.
  intros Hm Ha. pose proof (next_multiple_of_ge a m Hm).
  pose proof (next_multiple_of_le a m a Hm Ha ltac:(lia)). lia.
Qed.

Lemma next_multiple_of_add a b m : 0 < m -> (m | a) -> next_multiple_of (a + b) m = a + next_multiple_of b m.
Proof.
  intros Hm [k ->]. unfold next_multiple_of. replace (k * m + b + m - 1) with (b + m - 1 + k * m) by lia.
  rewrite Z.div_add by lia. lia.
Qed.

Lemma checked_add_Some a b c : checked_add a b = Some c <-> c = a + b /\ a + b <= U64_MAX.
Proof.
  unfold checked_add. case_if; split.
  - intros [= <-]. lia.
  - intros [-> _]. done.
  - done.
  - lia.
Qed.

Lemma checked_next_multiple_of_Some a m c :
  checked_next_multiple_of a m = Some c ->
  c = next_multiple_of a m /\ next_multiple_of a m <= U64_MAX.
Proof. unfold checked_next_multiple_of. case_if; intros; naive_solver. Qed.

Lemma trailing_zeros_nonneg z : 0 <= trailing_zeros z.
Proof. destruct z as [|p|p]; simpl; try lia. induction p; simpl; lia. Qed.

Lemma trailing_zeros_divide z k :
  0 < z -> 0 <= k <= trailing_zeros z -> (2 ^ k | z).
Proof.
  intros Hz. destruct z as [|p|p]; try lia. clear Hz. simpl. revert k.
  induction p as [p IH|p IH|]; simpl; intros k Hk.
  - assert (k = 0) as -> by lia. exists (Z.pos p~1). lia.
  - destruct (decide (k = 0)) as [->|Hne]; [exists (Z.pos p~0); lia|].
    destruct (IH (k - 1) ltac:(lia)) as [q Hq].
    exists q. replace k with (Z.succ (k - 1)) by lia.
    rewrite Z.pow_succ_r by lia. rewrite Pos2Z.inj_xO. lia.
  - assert (k = 0) as -> by lia. exists 1. lia.
Qed.

Lemma trailing_zeros_max z k : 0 < z -> 0 <= k -> (2 ^ k | z) -> k <= trailing_zeros z.
Proof.
  intros Hz. destruct z as [|p|p]; try lia. clear Hz. simpl. revert k.
  assert (Hodd : forall k n, 0 < k -> (2 ^ k | 2 * n + 1) -> False).
  { intros k n Hk [q Hq]. replace k with (Z.succ (k - 1)) in Hq by lia.
    rewrite Z.pow_succ_r in Hq by lia.
    assert (Z.even (2 * n + 1) = Z.even (2 * (q * 2 ^ (k - 1)))) as He by (f_equal; lia).
    rewrite Z.even_mul, Z.add_comm, Z.even_add_mul_2 in He. discriminate He. }
  induction p as [p IH|p IH|]; simpl; intros k Hk Hd.
  - destruct (decide (k = 0)); [lia|]. destruct (Hodd k (Zpos p)); [lia|].
    by rewrite <- Pos2Z.inj_xI.
  - destruct (decide (k = 0)) as [->|Hne]; [pose proof (trailing_zeros_nonneg (Zpos p)); simpl in *; lia|].
    enough (k - 1 <= pos_trailing_zeros p) by lia. apply IH; [lia|].
    destruct Hd as [q Hq]. exists q. replace k with (Z.succ (k - 1)) in Hq by lia.
    rewrite Z.pow_succ_r, Pos2Z.inj_xO in Hq by lia. lia.
  - destruct (decide (k = 0)); [lia|]. by destruct (Hodd k 0); [lia|].
Qed.

Lemma pow2_pos k : 0 <= k -> 0 < 2 ^ k.
Proof. intros. apply Z.pow_pos_nonneg; lia. Qed.

Lemma pow2_divide j k : 0 <= j <= k -> (2 ^ j | 2 ^ k).
Proof.
  intros. exists (2 ^ (k - j)). rewrite <- Z.pow_add_r by lia. f_equal. lia.
Qed.

#[export] Hint Resolve pow2_pos trailing_zeros_nonneg : saeos.

Lemma land_mask x k : 0 <= k -> Z.land x (Z.lnot (2 ^ k - 1)) = x - x mod 2 ^ k.
Proof.
  intros Hk. pose proof (pow2_pos k Hk).
  replace (2 ^ k - 1) with (Z.ones k) by (rewrite Z.ones_equiv; lia).
  rewrite <- Z.ldiff_land, Z.ldiff_ones_r, Z.shiftr_div_pow2, Z.shiftl_mul_pow2 by done.
  pose proof (Z.div_mod x (2 ^ k)). lia.
Qed.

(** Rounding up with a mask. *)
Lemma mask_next_multiple x k : 0 <= k -> Z.land (x + (2 ^ k - 1)) (Z.lnot (2 ^ k - 1)) = next_multiple_of x (2 ^ k).
Proof.
  intros Hk. pose proof (pow2_pos k Hk). rewrite land_mask by done. unfold next_multiple_of.
  replace (x + 2 ^ k - 1) with (x + (2 ^ k - 1)) by lia. pose proof (Z.div_mod (x + (2 ^ k - 1)) (2 ^ k)). lia.
Qed.

(** ** Lemmas on little-endian bytes *)

Lemma length_le_bytes n x : length (le_bytes n x) = n.
Proof. revert x. induction n as [|n IH]; intros x; simpl; [done|]. by rewrite IH. Qed.

Lemma from_le_le_bytes n x : from_le (le_bytes n x) = x mod 256 ^ Z.of_nat n.
Proof.
  revert x. induction n as [|n IH]; intros x; cbn [le_bytes from_le]; [by rewrite Z.mod_1_r|].
  rewrite IH, Nat2Z.inj_succ, Z.pow_succ_r by lia. rewrite Z.rem_mul_r by lia. lia.
Qed.

Lemma from_le_u64 x : is_u64 x -> from_le (le_bytes 8 x) = x.
Proof. intros Hx. rewrite from_le_le_bytes. apply Z.mod_small. unfold is_u64, U64_MAX in Hx. lia. Qed.

Lemma le_bytes_bytes n x : Forall (fun b => 0 <= b <= 255) (le_bytes n x).
Proof.
  revert x. induction n as [|n IH]; intros x; simpl; constructor; [|done]. pose proof (Z.mod_pos_bound x 256 ltac:(lia)). lia.
Qed.

(** ** Lemmas on lists *)

Lemma Forall_removelast {A} (P : A -> Prop) l : Forall P l -> Forall P (removelast l).
Proof. destruct l as [|x l] using rev_ind; [done|]. rewrite removelast_last. by intros [? _]%Forall_app. Qed.

(** [Vec::swap_remove]: the last element fills the hole. *)
Definition swap_remove {A} (l : list A) (i : nat) : list A :=
  match last l with
  | None => l
  | Some x => take (length l - 1) (<[i := x]> l)
  end.

Lemma swap_remove_split {A} (l : list A) i x : l !! i = Some x -> x :: swap_remove l i ≡ₚ l.
Proof.
  intros Hi. unfold swap_remove. destruct (last l) as [y|] eqn:Hl.
  2: { apply last_None in Hl as ->. done. }
  apply last_Some in Hl as [k ->]. rewrite length_app. cbn [length].
  replace (length k + 1 - 1)%nat with (length k) by lia.
  destruct (decide (i = length k)) as [->|Hne].
  - rewrite lookup_app_r, Nat.sub_diag in Hi by lia. injection Hi as <-.
    rewrite insert_app_r_alt, take_app_length by lia. solve_Permutation.
  - assert (i < length k)%nat by (apply lookup_lt_Some in Hi; rewrite length_app in Hi; cbn in Hi; lia).
    rewrite lookup_app_l in Hi by done. rewrite insert_app_l, take_app_length' by (by rewrite ?length_insert).
    apply list_elem_of_split_length in Hi as (a & b & -> & ->).
    rewrite insert_app_r_alt, Nat.sub_diag by lia. cbn. solve_Permutation.
Qed.

Section Lists.
Context {A : Type}.
Implicit Types (l k : list A) (P : A -> Prop).

Lemma existsb_false_forall (f : A -> bool) l :
  existsb f l = false <-> forall x, x ∈ l -> f x = false.
Proof.
  split.
  - intros H x Hx. destruct (f x) eqn:E; [|done].
    assert (existsb f l = true) by (apply existsb_exists; exists x; split; [by apply list_elem_of_In|done]).
    congruence.
  - intros H. destruct (existsb f l) eqn:E; [|done].
    apply existsb_exists in E as (x & Hx%list_elem_of_In & Hf). rewrite H in Hf; done.
Qed.

Lemma existsb_true_exists (f : A -> bool) l :
  existsb f l = true <-> exists x, x ∈ l /\ f x = true.
Proof. rewrite existsb_exists. by setoid_rewrite list_elem_of_In. Qed.

Lemma filter_all P `{!forall x, Decision (P x)} l : (forall x, x ∈ l -> P x) -> filter P l = l.
Proof.
  induction l as [|x l IH]; intros Hall; [done|].
  rewrite filter_cons_True by (apply Hall; left). f_equal. apply IH.
  intros y Hy. apply Hall. by right.
Qed.

Lemma forallb_true_forall (f : A -> bool) l :
  forallb f l = true <-> forall x, x ∈ l -> f x = true.
Proof. rewrite forallb_forall. by setoid_rewrite list_elem_of_In. Qed.
End Lists.
