(* ===== verification/Buddy.v ===== *)
(** * Buddy: the free lists of the physical frame allocator

    Models [kernel/src/mm/buddy.rs]: per-zone, per-order doubly linked free
    lists whose nodes live in the first bytes of the free blocks, over an
    authoritative per-frame ownership bitmap. The bitmap and the frame memory
    are reached through the [FrameStore] interface (the trait of the source),
    so everything here holds for every store that satisfies its laws; the
    kernel's store is the instance of [FrameMeta.v]. The invariant and the
    theorems are in [BuddyInv.v], [BuddyOps.v] and [BuddySpec.v]. *)

From S2P Require Import Prelude.
From stdpp Require Import base list numbers.
Local Open Scope Z_scope.

Definition MAX_ORDER : nat := 18.
Definition DMA32_FRAMES : Z := 2 ^ 20.
Definition ZONE_COUNT : nat := 2.
Definition NONE : Z := U64_MAX.
Definition FREE_MAGIC : Z := 0x5341454f42554459.

(** Head tag of [frame]. *)
Definition head_tag (frame : Z) : Z := Z.lxor FREE_MAGIC frame.

Inductive State : Type := Reserved | Free | Allocated.
Inductive Zone : Type := Dma32 | Normal.
Inductive ReleaseError : Type :=
| OutOfRange | Unaligned | DuplicateRelease | DoubleFree | InvalidRange.

#[export] Instance State_eq_dec : EqDecision State.
Proof. solve_decision. Defined.
#[export] Instance Zone_eq_dec : EqDecision Zone.
Proof. solve_decision. Defined.
#[export] Instance ReleaseError_eq_dec : EqDecision ReleaseError.
Proof. solve_decision. Defined.

Definition state_eqb (a b : State) : bool := bool_decide (a = b).

(** [Zone::of], and [zone as usize]. *)
Definition zone_of (frame : Z) : Zone := if frame <? DMA32_FRAMES then Dma32 else Normal.
Definition zone_index (z : Zone) : nat := match z with Dma32 => 0%nat | Normal => 1%nat end.

(** Node stored in the first bytes of a free block. *)
Record FreeNode : Type := mkNode {
  magic : Z;
  node_order : Z;
  reserved : Z;
  prev : Z;
  next : Z;
}.
Definition with_magic (n : FreeNode) m := mkNode m (node_order n) (reserved n) (prev n) (next n).
Definition with_prev (n : FreeNode) p := mkNode (magic n) (node_order n) (reserved n) p (next n).
Definition with_next (n : FreeNode) x := mkNode (magic n) (node_order n) (reserved n) (prev n) x.

(** The storage the lists operate on. [node]/[write_node] read and write
    through the raw pointer that the trait's [node] returns. *)
Class FrameStore (St : Type) : Type := {
  frame_count : St -> Z;
  state : St -> Z -> State;
  set_state : St -> Z -> State -> St;
  node : St -> Z -> FreeNode;
  write_node : St -> Z -> FreeNode -> St;
}.

(** What the lists rely on: the bitmap and the frames' first bytes are
    independent arrays indexed by the frame number. *)
Class FrameStoreLaws (St : Type) `{FrameStore St} : Prop := {
  frame_count_set_state s f x : frame_count (set_state s f x) = frame_count s;
  frame_count_write_node s f n : frame_count (write_node s f n) = frame_count s;
  state_set_state_eq s f x :
    0 <= f < frame_count s -> state (set_state s f x) f = x;
  state_set_state_ne s f g x :
    0 <= f < frame_count s -> 0 <= g < frame_count s -> f <> g ->
    state (set_state s f x) g = state s g;
  state_write_node s f g n :
    0 <= f < frame_count s -> state (write_node s f n) g = state s g;
  node_set_state s f g x :
    0 <= f < frame_count s -> node (set_state s f x) g = node s g;
  node_write_node_eq s f n :
    0 <= f < frame_count s -> node (write_node s f n) f = n;
  node_write_node_ne s f g n :
    0 <= f < frame_count s -> 0 <= g < frame_count s -> f <> g ->
    node (write_node s f n) g = node s g;
}.

(** [[[usize; MAX_ORDER + 1]; ZONE_COUNT]] tables. *)
Record BuddyLists : Type := mkLists {
  heads : list (list Z);
  counts : list (list Z);
}.

Definition tbl_get (t : list (list Z)) (z : Zone) (o : nat) : Z :=
  match t !! zone_index z with
  | Some row => default 0 (row !! o)
  | None => 0
  end.
Definition tbl_set (t : list (list Z)) (z : Zone) (o : nat) (v : Z) : list (list Z) :=
  match t !! zone_index z with
  | Some row => <[zone_index z := <[o := v]> row]> t
  | None => t
  end.

Definition head_at (b : BuddyLists) z o : Z := tbl_get (heads b) z o.
(** [BuddyLists::count]. *)
Definition count (b : BuddyLists) (z : Zone) (o : nat) : Z := tbl_get (counts b) z o.
Definition set_head (b : BuddyLists) z o v := mkLists (tbl_set (heads b) z o v) (counts b).
Definition set_count (b : BuddyLists) z o v := mkLists (heads b) (tbl_set (counts b) z o v).

Definition new : BuddyLists :=
  mkLists (replicate ZONE_COUNT (replicate (S MAX_ORDER) NONE))
          (replicate ZONE_COUNT (replicate (S MAX_ORDER) 0)).

Definition zones : list Zone := [Dma32; Normal].
Definition orders : list nat := seq 0 (S MAX_ORDER).

(** Frames in a block of order [o]: [1 << order]. *)
Definition block_len (o : nat) : Z := 2 ^ Z.of_nat o.
(** The frames [frame..frame + n]. *)
Definition frames (frame n : Z) : list Z := seqZ frame n.

Definition free_frames (b : BuddyLists) : Z :=
  foldr Z.add 0
    (z ← zones; o ← orders; [Z.shiftl (count b z o) (Z.of_nat o)]).

Definition largest_order (b : BuddyLists) : option nat :=
  List.find (fun o => existsb (fun z => negb (count b z o =? 0)) zones) (rev orders).

(** Largest order whose aligned block starting at [frame] fits before [fin]. *)
Fixpoint block_order_shrink (frame fin : Z) (order : nat) : nat :=
  if frame + block_len order >? fin then
    match order with O => O | S o => block_order_shrink frame fin o end
  else order.
Definition block_order (frame fin : Z) : nat :=
  block_order_shrink frame fin
    (if frame =? 0 then MAX_ORDER
     else Nat.min MAX_ORDER (Z.to_nat (trailing_zeros frame))).

Section Operations.
Context {St : Type} `{FrameStore St}.
Implicit Types (b : BuddyLists) (s : St) (frame : Z) (order : nat).

Definition range_is s frame (n : Z) (x : State) : bool :=
  forallb (fun i => state_eqb (state s i) x) (frames frame n).

(** [for index in frame..frame + n { store.set_state(index, x) }]. *)
Definition set_range s frame (n : Z) (x : State) : St :=
  foldl (fun s i => set_state s i x) s (frames frame n).

Definition push b s frame order : BuddyLists * St :=
  let zone := zone_of frame in
  let head := head_at b zone order in
  let s := write_node s frame (mkNode (head_tag frame) (Z.of_nat order) 0 NONE head) in
  let s := if head =? NONE then s else write_node s head (with_prev (node s head) frame) in
  let b := set_head b zone order frame in
  (set_count b zone order (count b zone order + 1), s).

Definition unlink b s frame (zone : Zone) order : BuddyLists * St :=
  let p := prev (node s frame) in
  let n := next (node s frame) in
  let '(b, s) :=
    if p =? NONE then (set_head b zone order n, s)
    else (b, write_node s p (with_next (node s p) n)) in
  let s := if n =? NONE then s else write_node s n (with_prev (node s n) p) in
  let s := write_node s frame (with_magic (node s frame) 0) in
  (set_count b zone order (count b zone order - 1), s).

Definition is_free_head s frame order : bool :=
  match checked_add frame (block_len order) with
  | None => false
  | Some fin =>
      if (fin >? frame_count s) || negb (state_eqb (state s frame) Free) then false
      else (magic (node s frame) =? head_tag frame)
           && (node_order (node s frame) =? Z.of_nat order)
  end.

(** [n] is [MAX_ORDER - order], the iterations that can remain. *)
Fixpoint coalesce_loop (n : nat) b s frame order : BuddyLists * St :=
  match n with
  | O => push b s frame order
  | S n =>
      let buddy := Z.lxor frame (block_len order) in
      if is_free_head s buddy order then
        let '(b, s) := unlink b s buddy (zone_of buddy) order in
        coalesce_loop n b s (Z.min frame buddy) (S order)
      else push b s frame order
  end.
Definition coalesce_and_push b s frame order : BuddyLists * St :=
  coalesce_loop (MAX_ORDER - order) b s frame order.

(** [while frame < end]; every iteration advances by at least one frame. *)
Fixpoint insert_run_loop (fuel : nat) b s frame fin : BuddyLists * St :=
  match fuel with
  | O => (b, s)
  | S fuel =>
      if frame <? fin then
        let order := block_order frame fin in
        let '(b, s) := push b s frame order in
        insert_run_loop fuel b s (frame + block_len order) fin
      else (b, s)
  end.
Definition insert_run b s frame fin := insert_run_loop (Z.to_nat (fin - frame)) b s frame fin.

(** [while end < count && state(end) == x { end += 1 }]. *)
Fixpoint run_end (fuel : nat) s (fin limit : Z) (x : State) : Z :=
  match fuel with
  | O => fin
  | S fuel =>
      if (fin <? limit) && state_eqb (state s fin) x then run_end fuel s (fin + 1) limit x
      else fin
  end.

Fixpoint build_loop (fuel : nat) b s frame : BuddyLists * St :=
  match fuel with
  | O => (b, s)
  | S fuel =>
      if frame <? frame_count s then
        if negb (state_eqb (state s frame) Free) then build_loop fuel b s (frame + 1)
        else
          let fin := run_end (Z.to_nat (frame_count s - frame)) s frame (frame_count s) Free in
          let '(b, s) := insert_run b s frame fin in
          build_loop fuel b s fin
      else (b, s)
  end.
Definition build s : BuddyLists * St := build_loop (Z.to_nat (frame_count s)) new s 0.

(** [while current > order { current -= 1; push(head + (1 << current)) }];
    [n] is [current - order]. *)
Fixpoint split_loop (n : nat) b s head (order : nat) : BuddyLists * St :=
  match n with
  | O => (b, s)
  | S n =>
      let current := (order + n)%nat in
      let '(b, s) := push b s (head + block_len current) current in
      split_loop n b s head order
  end.

(** First non-empty list at [source = order, order + 1, ..]; [n] lists left. *)
Fixpoint find_source (n : nat) b (zone : Zone) (source : nat) : option nat :=
  match n with
  | O => None
  | S n => if head_at b zone source =? NONE then find_source n b zone (S source)
           else Some source
  end.

Fixpoint allocate_zones b s order (zs : list Zone) : option Z * (BuddyLists * St) :=
  match zs with
  | [] => (None, (b, s))
  | zone :: zs =>
      match find_source (S MAX_ORDER - order) b zone order with
      | None => allocate_zones b s order zs
      | Some source =>
          let head := head_at b zone source in
          let '(b, s) := unlink b s head zone source in
          let '(b, s) := split_loop (source - order) b s head order in
          let s := set_range s head (block_len order) Allocated in
          (Some head, (b, s))
      end
  end.

Definition allocate b s order (zs : list Zone) : option Z * (BuddyLists * St) :=
  if (MAX_ORDER <? order)%nat then (None, (b, s)) else allocate_zones b s order zs.

Definition release b s frame order : result ReleaseError (BuddyLists * St) :=
  if (MAX_ORDER <? order)%nat then Err InvalidRange else
  let n := block_len order in
  match checked_add frame n with
  | None => Err OutOfRange
  | Some fin =>
      if fin >? frame_count s then Err OutOfRange
      else if negb (is_multiple_of frame n) then Err Unaligned
      else if range_is s frame n Reserved then Err DuplicateRelease
      else if range_is s frame n Free then Err DoubleFree
      else if negb (range_is s frame n Allocated) then Err InvalidRange
      else Ok (coalesce_and_push b (set_range s frame n Free) frame order)
  end.

(** The inner loop of [insert_reserved_range]: free and merge one aligned
    piece of the reserved run [cursor..index] at a time. *)
Fixpoint free_pieces (fuel : nat) b s (cursor index : Z) : BuddyLists * St :=
  match fuel with
  | O => (b, s)
  | S fuel =>
      if cursor <? index then
        let order := block_order cursor index in
        let s := set_range s cursor (block_len order) Free in
        let '(b, s) := coalesce_and_push b s cursor order in
        free_pieces fuel b s (cursor + block_len order) index
      else (b, s)
  end.
Fixpoint insert_reserved_loop (fuel : nat) b s (index fin : Z) : BuddyLists * St :=
  match fuel with
  | O => (b, s)
  | S fuel =>
      if index <? fin then
        if state_eqb (state s index) Reserved then
          let stop := run_end (Z.to_nat (fin - index)) s index fin Reserved in
          let '(b, s) := free_pieces (Z.to_nat (stop - index)) b s index stop in
          insert_reserved_loop fuel b s stop fin
        else insert_reserved_loop fuel b s (index + 1) fin
      else (b, s)
  end.
Definition insert_reserved_range b s frame (fin : Z) : BuddyLists * St :=
  let fin := Z.min fin (frame_count s) in
  insert_reserved_loop (Z.to_nat (fin - frame)) b s frame fin.

(** [while current > 0]: split [head]'s block down to [frame], [n] = current. *)
Fixpoint isolate_split (n : nat) b s head frame : BuddyLists * St :=
  match n with
  | O => (b, s)
  | S n =>
      let upper := head + block_len n in
      if frame >=? upper then
        let '(b, s) := push b s head n in isolate_split n b s upper frame
      else
        let '(b, s) := push b s upper n in isolate_split n b s head frame
  end.
(** [frame & !((1 << order) - 1)]. *)
Definition block_base frame order : Z := Z.ldiff frame (block_len order - 1).
(** [None] is the panic "free frame is not covered by any free block". *)
Definition isolate b s frame : option (bool * (BuddyLists * St)) :=
  if (frame >=? frame_count s) || negb (state_eqb (state s frame) Free) then
    Some (false, (b, s))
  else
    match List.find (fun o => is_free_head s (block_base frame o) o) orders with
    | None => None
    | Some o =>
        let head := block_base frame o in
        let '(b, s) := unlink b s head (zone_of head) o in
        Some (true, isolate_split o b s head frame)
    end.

(** [validate]: walk every list, checking each node. *)
Inductive ValidateError : Type :=
| Cyclic | MisalignedOrWrongZone | NotFree | HeaderCorrupted | BackLinkBroken
| CountMismatch | DoNotCover.

Fixpoint walk_list (fuel : nat) s (zone : Zone) order (previous current seen : Z)
  : result ValidateError Z :=
  if current =? NONE then Ok seen else
  let seen := seen + 1 in
  if seen >? frame_count s then Err Cyclic else
  match fuel with
  | O => Err Cyclic
  | S fuel =>
      if negb (is_multiple_of current (block_len order))
         || negb (bool_decide (zone_of current = zone)) then Err MisalignedOrWrongZone
      else if negb (range_is s current (block_len order) Free) then Err NotFree
      else
        let n := node s current in
        if negb (magic n =? head_tag current) || negb (node_order n =? Z.of_nat order)
        then Err HeaderCorrupted
        else if negb (prev n =? previous) then Err BackLinkBroken
        else walk_list fuel s zone order current (next n) seen
  end.

Fixpoint walk_lists b s (todo : list (Zone * nat)) (listed : Z) : result ValidateError Z :=
  match todo with
  | [] => Ok listed
  | (zone, order) :: todo =>
      let? seen := walk_list (Z.to_nat (frame_count s)) s zone order NONE
                     (head_at b zone order) 0 in
      if negb (seen =? count b zone order) then Err CountMismatch
      else walk_lists b s todo (listed + Z.shiftl seen (Z.of_nat order))
  end.

Definition validate b s : result ValidateError unit :=
  let? listed := walk_lists b s (z ← zones; o ← orders; [(z, o)]) 0 in
  let free_in_bitmap :=
    Z.of_nat (length (List.filter (fun f => state_eqb (state s f) Free)
                        (frames 0 (frame_count s)))) in
  if negb (listed =? free_in_bitmap) then Err DoNotCover else Ok tt.
End Operations.
