(* ===== verification/BuddyInv.v ===== *)
(** * BuddyInv: the invariant of the free lists

    What the comment at the top of [kernel/src/mm/buddy.rs] promises, made
    precise: the lists are well linked, every listed block is aligned, in
    range and free in the bitmap, listed blocks are disjoint and cover every
    free frame, a free frame carries its head tag exactly when it heads a
    listed block, and no two buddies are both listed. Inside an operation the
    cover may miss some free frames; [Inv] carries that set as its [hole].
    The two primitives [push] and [unlink] are shown to preserve it here. *)

From S2P Require Import Prelude Buddy.
From stdpp Require Import base list numbers sets.
Local Open Scope Z_scope.

(** ** Block arithmetic *)

Lemma block_len_pos o : 0 < block_len o.
Proof. unfold block_len. apply pow2_pos. lia. Qed.
#[export] Hint Resolve block_len_pos : saeos.

Lemma block_len_S o : block_len (S o) = 2 * block_len o.
Proof. unfold block_len. rewrite Nat2Z.inj_succ, Z.pow_succ_r; lia. Qed.

Lemma block_len_le o p : (o <= p)%nat -> block_len o <= block_len p.
Proof. intros. unfold block_len. apply Z.pow_le_mono_r; lia. Qed.

Lemma block_len_divide o p : (o <= p)%nat -> (block_len o | block_len p).
Proof. intros. apply pow2_divide. lia. Qed.

Lemma block_len_MAX o : (o <= MAX_ORDER)%nat -> block_len o <= 2 ^ 18.
Proof. intros. change (2 ^ 18) with (block_len MAX_ORDER). by apply block_len_le. Qed.

Definition in_block (f x : Z) (o : nat) : Prop := x <= f < x + block_len o.

Lemma in_block_head x o : in_block x x o.
Proof. unfold in_block. pose proof (block_len_pos o). lia. Qed.

(** Aligned blocks that share a frame are nested. *)
Lemma block_nested x o y p f :
  (o <= p)%nat -> (block_len o | x) -> (block_len p | y) ->
  in_block f x o -> in_block f y p -> y <= x /\ x + block_len o <= y + block_len p.
Proof.
  unfold in_block. intros Hop Hx Hy Hfx Hfy.
  pose proof (block_len_pos o). pose proof (block_len_pos p).
  assert (block_len o | y) as Hy' by (etransitivity; [by apply block_len_divide|done]).
  assert (block_len o | y + block_len p) as Hyp
    by (apply Z.divide_add_r; [done|by apply block_len_divide]).
  destruct (Z.lt_ge_cases x y) as [Hlt|Hge].
  { pose proof (divide_lt_add_le _ _ _ (block_len_pos o) Hx Hy' Hlt). lia. }
  split; [done|]. apply (divide_lt_add_le _ _ _ (block_len_pos o) Hx Hyp). lia.
Qed.

Lemma land_even_1 k : Z.land (2 * k) 1 = 0.
Proof.
  change 1 with (Z.ones 1). rewrite Z.land_ones by lia.
  rewrite Z.mul_comm. by apply Z.mod_mul.
Qed.

Lemma lxor_1 q : Z.lxor q 1 = if Z.odd q then q - 1 else q + 1.
Proof.
  destruct (Z.odd q) eqn:Hq.
  - apply Z.odd_spec in Hq as [k ->].
    replace (2 * k + 1 - 1) with (2 * k) by lia.
    rewrite (Z.add_nocarry_lxor (2 * k) 1 (land_even_1 k)).
    by rewrite Z.lxor_assoc, Z.lxor_nilpotent, Z.lxor_0_r.
  - rewrite <- Z.negb_even in Hq. apply negb_false_iff, Z.even_spec in Hq as [k ->].
    symmetry. apply Z.add_nocarry_lxor, land_even_1.
Qed.

(** The buddy [frame ^ (1 << order)] of an aligned block. *)
Lemma buddy_cases q o :
  Z.lxor (q * block_len o) (block_len o)
  = if Z.odd q then q * block_len o - block_len o else q * block_len o + block_len o.
Proof.
  unfold block_len. rewrite <- (Z.shiftl_mul_pow2 q) by lia.
  replace (Z.lxor (Z.shiftl q (Z.of_nat o)) (2 ^ Z.of_nat o))
    with (Z.shiftl (Z.lxor q 1) (Z.of_nat o)).
  - rewrite lxor_1. rewrite !Z.shiftl_mul_pow2 by lia. case_if; lia.
  - rewrite Z.shiftl_lxor. f_equal. rewrite Z.shiftl_1_l. done.
Qed.

Record buddies (x y : Z) (o : nat) : Prop := {
  buddies_xor : y = Z.lxor x (block_len o);
  buddies_align : (block_len o | y);
  buddies_min : (block_len (S o) | Z.min x y);
  buddies_adj : y = x + block_len o \/ x = y + block_len o;
}.

Lemma buddies_of x o : (block_len o | x) -> buddies x (Z.lxor x (block_len o)) o.
Proof.
  intros [q Hq]. pose proof (block_len_pos o) as Hp.
  assert (Hb := buddy_cases q o). rewrite <- Hq in Hb. rewrite Hb. clear Hb.
  assert (Hx : Z.lxor x (block_len o) = if Z.odd q then x - block_len o else x + block_len o)
    by (rewrite Hq at 1; rewrite buddy_cases, <- Hq; done).
  destruct (Z.odd q) eqn:Hodd.
  - apply Z.odd_spec in Hodd as [k Hk]. constructor; [done| | |lia].
    + exists (q - 1). lia.
    + rewrite Z.min_r by lia. exists k. rewrite block_len_S. subst. lia.
  - rewrite <- Z.negb_even in Hodd. apply negb_false_iff, Z.even_spec in Hodd as [k Hk].
    constructor; [done| | |lia].
    + exists (q + 1). lia.
    + rewrite Z.min_l by lia. exists k. rewrite block_len_S. subst. lia.
Qed.

(** A block aligned to the next order is the lower of its pair. *)
Lemma buddy_upper x o : (block_len (S o) | x) -> Z.lxor x (block_len o) = x + block_len o.
Proof.
  intros [q ->]. rewrite block_len_S. replace (q * (2 * block_len o)) with (2 * q * block_len o) by lia.
  rewrite buddy_cases, Z.odd_mul. done.
Qed.

Lemma lxor_involutive x m : Z.lxor (Z.lxor x m) m = x.
Proof. by rewrite Z.lxor_assoc, Z.lxor_nilpotent, Z.lxor_0_r. Qed.

Lemma head_tag_nonzero f : f <> FREE_MAGIC -> head_tag f <> 0.
Proof. unfold head_tag. intros Hne H0%Z.lxor_eq. congruence. Qed.

(** [frame & !((1 << order) - 1)] is the aligned block that contains the frame. *)
Lemma block_base_spec f o :
  (block_len o | block_base f o) /\ in_block f (block_base f o) o.
Proof.
  unfold block_base, in_block, block_len.
  replace (2 ^ Z.of_nat o - 1) with (Z.ones (Z.of_nat o)) by (rewrite Z.ones_equiv; lia).
  rewrite Z.ldiff_ones_r, Z.shiftl_mul_pow2, Z.shiftr_div_pow2 by lia.
  assert (0 < 2 ^ Z.of_nat o) by (apply pow2_pos; lia).
  split; [apply Z.divide_factor_r|].
  pose proof (Z.div_mod f (2 ^ Z.of_nat o) ltac:(lia)).
  pose proof (Z.mod_pos_bound f (2 ^ Z.of_nat o) ltac:(lia)). lia.
Qed.

Lemma block_base_nonneg f o : 0 <= f -> 0 <= block_base f o.
Proof. intros Hf. unfold block_base. apply Z.ldiff_nonneg. by left. Qed.

(** ** Tables *)

Definition shape (t : list (list Z)) : Prop :=
  length t = ZONE_COUNT /\ Forall (fun row : list Z => length row = S MAX_ORDER) t.

Lemma shape_row t z : shape t -> exists row, t !! zone_index z = Some row /\ length row = S MAX_ORDER.
Proof.
  intros [Hl Hr]. destruct (lookup_lt_is_Some_2 t (zone_index z)) as [row Hrow].
  { rewrite Hl. destruct z; simpl; unfold ZONE_COUNT; lia. }
  exists row. split; [done|]. exact (Forall_lookup_1 _ _ _ _ Hr Hrow).
Qed.

Lemma shape_set t z o v : shape t -> shape (tbl_set t z o v).
Proof.
  intros Hs. unfold tbl_set. destruct (shape_row t z Hs) as (row & -> & Hlen).
  destruct Hs as [Hl Hr]. split; [by rewrite length_insert|].
  apply Forall_insert; [done|]. by rewrite length_insert.
Qed.

Lemma tbl_get_set t z o z' o' v :
  shape t -> (o <= MAX_ORDER)%nat ->
  tbl_get (tbl_set t z o v) z' o' = if decide (z = z' /\ o = o') then v else tbl_get t z' o'.
Proof.
  intros Hs Ho. unfold tbl_set, tbl_get.
  destruct (shape_row t z Hs) as (row & Hrow & Hlen). rewrite Hrow.
  destruct (decide (z = z')) as [<-|Hz].
  - rewrite list_lookup_insert_eq by (eapply lookup_lt_Some; done). rewrite Hrow.
    destruct (decide (o = o')) as [<-|Hne].
    + rewrite decide_True by done. by rewrite list_lookup_insert_eq by lia.
    + rewrite decide_False by (intros [? ?]; congruence). by rewrite list_lookup_insert_ne.
  - rewrite decide_False by (intros [? ?]; congruence).
    rewrite list_lookup_insert_ne by (destruct z, z'; simpl; done). done.
Qed.

Lemma shape_new : shape (heads new) /\ shape (counts new).
Proof. unfold shape; repeat split; first [reflexivity | repeat constructor]. Qed.

Lemma tbl_get_new z o : (o <= MAX_ORDER)%nat -> head_at new z o = NONE /\ count new z o = 0.
Proof.
  intros Ho. unfold head_at, count, tbl_get, new, ZONE_COUNT. cbn [heads counts].
  by rewrite !lookup_replicate_2 by (destruct z; simpl; lia).
Qed.

(** ** Linked segments *)

(** The last pointer of a segment entered from [pp]. *)
Fixpoint lastp (pp : Z) (xs : list Z) : Z :=
  match xs with [] => pp | x :: xs => lastp x xs end.

Lemma lastp_snoc pp xs y : lastp pp (xs ++ [y]) = y.
Proof. revert pp. induction xs as [|x xs IH]; intros pp; simpl; auto. Qed.

Section Inv.
Context {St : Type} `{FrameStoreLaws St}.
Implicit Types (b : BuddyLists) (s : St).

Definition valid s (f : Z) : Prop := 0 <= f < frame_count s.

Lemma state_set s f g x :
  valid s f -> valid s g ->
  state (set_state s f x) g = if decide (f = g) then x else state s g.
Proof.
  intros. destruct (decide (f = g)) as [<-|].
  - by apply state_set_state_eq.
  - by apply state_set_state_ne.
Qed.
Lemma node_write s f g n :
  valid s f -> valid s g ->
  node (write_node s f n) g = if decide (f = g) then n else node s g.
Proof.
  intros. destruct (decide (f = g)) as [<-|].
  - by apply node_write_node_eq.
  - by apply node_write_node_ne.
Qed.

(** [xs] as a doubly linked segment: entered at [p] from [pp], left to [q]. *)
Fixpoint dseg s (o : nat) (pp p q : Z) (xs : list Z) : Prop :=
  match xs with
  | [] => p = q
  | x :: xs =>
      p = x /\ magic (node s x) = head_tag x /\ node_order (node s x) = Z.of_nat o /\
      prev (node s x) = pp /\ dseg s o x (next (node s x)) q xs
  end.

Lemma dseg_ext s s' o pp p q xs :
  (forall x, x ∈ xs -> node s' x = node s x) -> dseg s o pp p q xs -> dseg s' o pp p q xs.
Proof.
  revert pp p. induction xs as [|x xs IH]; intros pp p Heq; simpl; [done|].
  rewrite Heq by set_solver. intros (? & ? & ? & ? & ?).
  repeat split; try done. apply IH; [|done]. intros. apply Heq. set_solver.
Qed.

Lemma dseg_app s o pp p q xs ys :
  dseg s o pp p q (xs ++ ys) <->
  exists m, dseg s o pp p m xs /\ dseg s o (lastp pp xs) m q ys.
Proof.
  revert pp p. induction xs as [|x xs IH]; intros pp p; simpl.
  - split; [eauto|]. by intros (m & -> & ?).
  - rewrite IH. naive_solver.
Qed.

Lemma dseg_set_next s s' o pp p q q' xs y :
  dseg s o pp p q (xs ++ [y]) -> node s' y = with_next (node s y) q' ->
  (forall x, x ∈ xs -> node s' x = node s x) -> dseg s' o pp p q' (xs ++ [y]).
Proof.
  rewrite !dseg_app. intros (m & Hxs & -> & Hm & Ho & Hp & _) Hy Heq.
  exists y. split; [by eapply dseg_ext|]. simpl. by rewrite Hy.
Qed.

Lemma dseg_set_prev s s' o pp pp' p q y ys :
  dseg s o pp p q (y :: ys) -> node s' y = with_prev (node s y) pp' ->
  (forall x, x ∈ ys -> node s' x = node s x) -> dseg s' o pp' p q (y :: ys).
Proof.
  simpl. intros (-> & Hm & Ho & Hp & Hys) Hy Heq. rewrite Hy. simpl.
  repeat split; try done. by eapply dseg_ext.
Qed.

Lemma dseg_tag s o pp p q xs x :
  dseg s o pp p q xs -> x ∈ xs ->
  magic (node s x) = head_tag x /\ node_order (node s x) = Z.of_nat o.
Proof.
  revert pp p. induction xs as [|y xs IH]; intros pp p; simpl; [set_solver|].
  intros (-> & ? & ? & _ & Hd) [->|Hx]%elem_of_cons; eauto.
Qed.

(** ** The invariant *)

(** Ghost state: the abstract content of every list. *)
Abbreviation Lists := (Zone -> nat -> list Z).

Definition L_push (L : Lists) (x : Z) (o : nat) : Lists :=
  fun z p => if decide (z = zone_of x /\ p = o) then x :: L z p else L z p.
Definition L_drop (L : Lists) (x : Z) (o : nat) : Lists :=
  fun z p => if decide (z = zone_of x /\ p = o) then filter (fun y => y <> x) (L z p) else L z p.

Lemma elem_of_L_push L x o y z p :
  y ∈ L_push L x o z p <-> (y = x /\ z = zone_of x /\ p = o) \/ y ∈ L z p.
Proof. unfold L_push. case_decide; rewrite ?elem_of_cons; naive_solver. Qed.
Lemma elem_of_L_drop L x o y z p :
  y ∈ L_drop L x o z p <-> y ∈ L z p /\ ~ (y = x /\ z = zone_of x /\ p = o).
Proof. unfold L_drop. case_decide; rewrite ?list_elem_of_filter; naive_solver. Qed.

(** The lists are well linked and counted. *)
Record Links b s (L : Lists) : Prop := {
  links_range : 0 <= frame_count s < FREE_MAGIC;
  links_shape : shape (heads b) /\ shape (counts b);
  links_list z o : (o <= MAX_ORDER)%nat -> dseg s o NONE (head_at b z o) NONE (L z o);
  links_len z o : (o <= MAX_ORDER)%nat -> count b z o = Z.of_nat (length (L z o));
  links_nodup z o : NoDup (L z o);
}.

(** The listed blocks and the hole partition the free frames; no two
    buddies are both listed. *)
Record Blocks s (L : Lists) (hole : Z -> Prop) : Prop := {
  blocks_elem z o x : x ∈ L z o ->
    (o <= MAX_ORDER)%nat /\ zone_of x = z /\ 0 <= x /\ (block_len o | x) /\
    x + block_len o <= frame_count s;
  blocks_free z o x f : x ∈ L z o -> in_block f x o -> state s f = Free /\ ~ hole f;
  blocks_disj z o x z' o' y f : x ∈ L z o -> y ∈ L z' o' ->
    in_block f x o -> in_block f y o' -> x = y /\ o = o';
  blocks_hole f : hole f -> valid s f /\ state s f = Free;
  blocks_cover f : valid s f -> state s f = Free ->
    hole f \/ exists z o x, x ∈ L z o /\ in_block f x o;
  blocks_max z o x z' : (o < MAX_ORDER)%nat -> x ∈ L z o ->
    Z.lxor x (block_len o) ∉ L z' o;
}.

(** A free frame that carries its head tag heads a listed block. *)
Definition Tags s (L : Lists) : Prop :=
  forall f, valid s f -> state s f = Free -> magic (node s f) = head_tag f ->
  exists z o, f ∈ L z o.

Record Inv b s (L : Lists) (hole : Z -> Prop) : Prop := {
  inv_links : Links b s L;
  inv_blocks : Blocks s L hole;
  inv_tag : Tags s L;
}.

Section Accessors.
Context b s L hole (I : Inv b s L hole).
Definition inv_range := links_range _ _ _ (inv_links _ _ _ _ I).
Definition inv_shape := links_shape _ _ _ (inv_links _ _ _ _ I).
Definition inv_list := links_list _ _ _ (inv_links _ _ _ _ I).
Definition inv_len := links_len _ _ _ (inv_links _ _ _ _ I).
Definition inv_nodup := links_nodup _ _ _ (inv_links _ _ _ _ I).
Definition inv_elem := blocks_elem _ _ _ (inv_blocks _ _ _ _ I).
Definition inv_free := blocks_free _ _ _ (inv_blocks _ _ _ _ I).
Definition inv_disj := blocks_disj _ _ _ (inv_blocks _ _ _ _ I).
Definition inv_hole := blocks_hole _ _ _ (inv_blocks _ _ _ _ I).
Definition inv_cover := blocks_cover _ _ _ (inv_blocks _ _ _ _ I).
Definition inv_max := blocks_max _ _ _ (inv_blocks _ _ _ _ I).
End Accessors.

(** Between two states of one operation: same bitmap, and the memory of
    frames that are not free is untouched. *)
Record same_bitmap (s s' : St) : Prop := {
  same_count : frame_count s' = frame_count s;
  same_state f : valid s f -> state s' f = state s f;
  same_owned f : valid s f -> state s f <> Free -> node s' f = node s f;
}.

#[export] Instance same_bitmap_preorder : PreOrder same_bitmap.
Proof.
  split; [by constructor|]. intros s1 s2 s3 [C1 S1 O1] [C2 S2 O2].
  unfold valid in *. constructor; unfold valid; [congruence| |].
  - intros f Hf. rewrite S2 by (rewrite C1; done). auto.
  - intros f Hf Hn. rewrite O2; [auto|by rewrite C1|]. rewrite S1 by done. done.
Qed.

Section Facts.
Context {b s L hole} (I : Inv b s L hole).

Lemma valid_not_NONE f : valid s f -> f <> NONE.
Proof.
  destruct (inv_range _ _ _ _ I) as [_ Hr]. unfold valid, NONE, U64_MAX, FREE_MAGIC in *. lia.
Qed.
Lemma valid_not_magic f : valid s f -> f <> FREE_MAGIC.
Proof. destruct (inv_range _ _ _ _ I) as [_ Hr]. unfold valid. lia. Qed.

Lemma listed_valid z o x : x ∈ L z o -> valid s x.
Proof.
  intros (_ & _ & ? & _ & ?)%(inv_elem _ _ _ _ I). pose proof (block_len_pos o).
  unfold valid. lia.
Qed.
Lemma listed_free z o x : x ∈ L z o -> state s x = Free.
Proof. intros Hx. by eapply (inv_free _ _ _ _ I); [|apply in_block_head]. Qed.
Lemma listed_not_hole z o x f : x ∈ L z o -> in_block f x o -> ~ hole f.
Proof. intros Hx Hf. by eapply (inv_free _ _ _ _ I). Qed.

(** A frame heads at most one listed block. *)
Lemma listed_unique z o z' o' x : x ∈ L z o -> x ∈ L z' o' -> z = z' /\ o = o'.
Proof.
  intros Hx Hx'.
  destruct (inv_disj _ _ _ _ I _ _ _ _ _ _ x Hx Hx' (in_block_head _ _) (in_block_head _ _)).
  apply (inv_elem _ _ _ _ I) in Hx, Hx'. naive_solver.
Qed.

Lemma head_cases z o : (o <= MAX_ORDER)%nat ->
  (L z o = [] /\ head_at b z o = NONE) \/
  (exists ys, L z o = head_at b z o :: ys /\ head_at b z o <> NONE).
Proof.
  intros Ho. pose proof (inv_list _ _ _ _ I z o Ho) as Hd.
  destruct (L z o) as [|y ys] eqn:HL; simpl in Hd; [by left|right].
  destruct Hd as [Hy _]. exists ys. rewrite Hy. split; [done|].
  eapply valid_not_NONE, (listed_valid z o). rewrite HL. set_solver.
Qed.

(** [is_free_head] decides membership in the lists. *)
Lemma is_free_head_spec x o :
  0 <= x -> (o <= MAX_ORDER)%nat ->
  is_free_head s x o = true <-> x ∈ L (zone_of x) o.
Proof.
  intros Hx0 Ho. unfold is_free_head. pose proof (block_len_pos o) as Hp. split.
  - destruct (checked_add x (block_len o)) as [fin|] eqn:Hfin; [|done].
    apply checked_add_Some in Hfin as [-> _].
    case_if; [done|]. intros Ht. bool_to_prop. unfold state_eqb in *. bool_to_prop.
    assert (Hv : valid s x) by (unfold valid; lia).
    destruct (inv_tag _ _ _ _ I x Hv ltac:(done) ltac:(done)) as (z & o' & Hin).
    destruct (inv_elem _ _ _ _ I _ _ _ Hin) as (Ho' & <- & _).
    destruct (dseg_tag _ _ _ _ _ _ _ (inv_list _ _ _ _ I _ _ Ho') Hin) as [_ Hord].
    assert (o = o') as -> by lia. done.
  - intros Hin. destruct (inv_elem _ _ _ _ I _ _ _ Hin) as (_ & _ & _ & _ & Hle).
    destruct (inv_range _ _ _ _ I) as [_ Hr].
    destruct (checked_add x (block_len o)) as [fin|] eqn:Hfin.
    + apply checked_add_Some in Hfin as [-> _].
      destruct (dseg_tag _ _ _ _ _ _ _ (inv_list _ _ _ _ I _ _ Ho) Hin) as [Hm Hord].
      rewrite (listed_free _ _ _ Hin), Hm, Hord, !Z.eqb_refl.
      replace (x + block_len o >? frame_count s) with false by lia. done.
    + exfalso. revert Hfin. unfold checked_add, U64_MAX, FREE_MAGIC in *. case_if; [done|lia].
Qed.
End Facts.

(** The hole is only used up to equivalence. *)
Lemma Inv_hole b s L (h h' : Z -> Prop) : (forall f, h f <-> h' f) -> Inv b s L h -> Inv b s L h'.
Proof.
  intros Hh [Hl [? Hfree ? Hhole Hcov ?] Ht]. constructor; [done| |done]. constructor; try done.
  - intros z o x f Hx Hf. rewrite <- Hh. eauto.
  - intros f. rewrite <- Hh. auto.
  - intros f. rewrite <- Hh. auto.
Qed.
End Inv.
