(* ===== verification/BuddyOps.v ===== *)
(** * BuddyOps: [push] and [unlink] preserve the invariant

    The two list primitives of [kernel/src/mm/buddy.rs], each as a move of one
    block between the hole and the lists. *)

From stdpp Require Import base numbers sets list.
From S2P Require Import Prelude Buddy BuddyInv.
Local Open Scope Z_scope.

Section Prim.
Context {St : Type} `{FrameStoreLaws St}.
Implicit Types (b : BuddyLists) (s : St).

(** A write to the first bytes of a free frame leaves the bitmap and the
    memory of every other owner alone. *)
Lemma same_bitmap_write s f n : valid s f -> state s f = Free -> same_bitmap s (write_node s f n).
Proof.
  intros Hv Hf. constructor.
  - apply frame_count_write_node.
  - intros g _. by apply state_write_node.
  - intros g Hg Hn. apply node_write_node_ne; try done. congruence.
Qed.

Lemma valid_same s s' f : same_bitmap s s' -> valid s' f <-> valid s f.
Proof. intros [C _ _]. unfold valid. by rewrite C. Qed.

Lemma push_tables b s x o :
  shape (heads b) -> shape (counts b) -> (o <= MAX_ORDER)%nat ->
  shape (heads (push b s x o).1) /\ shape (counts (push b s x o).1) /\
  forall z p,
    head_at (push b s x o).1 z p = (if decide (zone_of x = z /\ o = p) then x else head_at b z p) /\
    count (push b s x o).1 z p =
      (if decide (zone_of x = z /\ o = p) then count b z p + 1 else count b z p).
Proof.
  intros Hh Hc Ho. cbn. split_and!; try by apply shape_set. intros z p.
  unfold head_at, count, set_count, set_head. cbn. rewrite !tbl_get_set by done.
  split; [done|]. case_decide; [|done]. by destruct_and!; subst.
Qed.

(** The nodes after a push: the new head, and the old head's back link. *)
Lemma push_nodes b s L hole x o :
  Inv b s L hole -> (o <= MAX_ORDER)%nat -> hole x ->
  same_bitmap s (push b s x o).2 /\
  forall g, valid s g -> node (push b s x o).2 g =
    let h := head_at b (zone_of x) o in
    if decide (x = g) then mkNode (head_tag x) (Z.of_nat o) 0 NONE h
    else if decide (h = g) then with_prev (node s g) x else node s g.
Proof.
  intros I Ho Hx. destruct (inv_hole _ _ _ _ I x Hx) as [Hv Hf]. cbn.
  set (nd := mkNode _ _ _ _ _). set (s1 := write_node s x nd).
  assert (B1 : same_bitmap s s1) by (by apply same_bitmap_write).
  destruct (head_cases I (zone_of x) o Ho) as [[_ Hh]|(ys & HL & Hh)].
  - rewrite Hh, Z.eqb_refl. split; [done|]. intros g Hg. unfold s1. rewrite node_write by done.
    case_decide; [done|]. case_decide as Hd; [|done].
    subst g. by destruct (valid_not_NONE I NONE Hg).
  - set (h := head_at b (zone_of x) o) in *.
    replace (h =? NONE) with false by lia.
    assert (Hin : h ∈ L (zone_of x) o) by (rewrite HL; set_solver).
    assert (Hvh : valid s h) by (by eapply listed_valid).
    assert (Hfh : state s h = Free) by (by eapply listed_free).
    assert (Hne : x <> h).
    { intros Heq. apply (listed_not_hole I _ _ _ _ Hin (in_block_head _ _)). by rewrite <- Heq. }
    assert (Hvh1 : valid s1 h) by (by apply (valid_same s s1)).
    split.
    + etransitivity; [done|]. apply same_bitmap_write; [done|].
      by rewrite (same_state _ _ B1).
    + intros g Hg. rewrite node_write by (try apply (valid_same s s1); done).
      unfold s1. rewrite !node_write by done.
      repeat case_decide; congruence.
Qed.

(** *** [push] *)

Section Push.
Context {b s L hole x o} (I : Inv b s L hole) (Ho : (o <= MAX_ORDER)%nat)
  (Hal : (block_len o | x)) (Hhole : forall f, in_block f x o -> hole f)
  (Hbud : (o < MAX_ORDER)%nat -> forall z, Z.lxor x (block_len o) ∉ L z o).
Let b' := (push b s x o).1.
Let s' := (push b s x o).2.

Lemma push_hole_head : hole x.
Proof. apply Hhole, in_block_head. Qed.
Lemma push_same : same_bitmap s s'.
Proof. apply (push_nodes _ _ _ _ _ _ I Ho push_hole_head). Qed.
Lemma push_fresh z p y : y ∈ L z p -> x <> y.
Proof.
  intros Hy <-. by apply (listed_not_hole I _ _ _ _ Hy (in_block_head _ _)), push_hole_head.
Qed.

(** Nodes on other lists, and past the old head of this one, are untouched. *)
Lemma push_node_other z p y :
  y ∈ L z p -> head_at b (zone_of x) o <> y -> node s' y = node s y.
Proof.
  intros Hy Hh. unfold s'. rewrite (proj2 (push_nodes _ _ _ _ _ _ I Ho push_hole_head))
    by (by eapply listed_valid). cbv zeta.
  rewrite !decide_False; [done..|]. by eapply push_fresh.
Qed.
Lemma push_head_other z p y :
  y ∈ L z p -> ~ (z = zone_of x /\ p = o) -> head_at b (zone_of x) o <> y.
Proof.
  intros Hy Hne Heq. destruct (head_cases I (zone_of x) o Ho) as [[_ Hh]|(ys & HL & _)].
  - apply (valid_not_NONE I y (listed_valid I _ _ _ Hy)). by rewrite <- Heq.
  - assert (y ∈ L (zone_of x) o) as Hh by (rewrite HL, <- Heq; set_solver).
    destruct (listed_unique I _ _ _ _ _ Hy Hh). by apply Hne.
Qed.

Lemma push_dseg : dseg s' o NONE x NONE (x :: L (zone_of x) o).
Proof.
  pose proof (proj2 (push_nodes _ _ _ _ _ _ I Ho push_hole_head)) as Hnode.
  cbv zeta in Hnode. fold s' in Hnode. set (h := head_at b (zone_of x) o) in *.
  simpl. rewrite Hnode by (apply (inv_hole _ _ _ _ I), push_hole_head).
  rewrite decide_True by done. simpl. split_and!; try done.
  pose proof (inv_list _ _ _ _ I (zone_of x) o Ho) as Hd. fold h in Hd.
  destruct (L (zone_of x) o) as [|y ys] eqn:HL; [done|].
  assert (Hhy : h = y) by (by destruct Hd).
  assert (Hin : forall w, w ∈ y :: ys -> w ∈ L (zone_of x) o) by (by rewrite HL).
  pose proof (inv_nodup _ _ _ _ I (zone_of x) o) as Hnd. rewrite HL in Hnd.
  apply NoDup_cons in Hnd as [Hny _].
  assert (Hy : y ∈ L (zone_of x) o) by (apply Hin; set_solver).
  eapply dseg_set_prev; [exact Hd| |].
  - rewrite Hnode by (by eapply listed_valid).
    rewrite decide_False by (by eapply push_fresh). by rewrite decide_True.
  - intros w Hw. eapply push_node_other; [apply Hin; set_solver|]. fold h. congruence.
Qed.

Lemma push_links : Links b' s' (L_push L x o).
Proof.
  destruct (inv_shape _ _ _ _ I) as [Hh Hc].
  destruct (push_tables b s x o Hh Hc Ho) as (Sh & Sc & Htbl).
  fold b' in Sh, Sc, Htbl. constructor; [|done|..].
  - rewrite (same_count _ _ push_same). by apply (inv_range _ _ _ _ I).
  - intros z p Hp. destruct (Htbl z p) as [-> _]. unfold L_push.
    destruct (decide (z = zone_of x /\ p = o)) as [[-> ->]|Hne].
    + rewrite decide_True by done. apply push_dseg.
    + rewrite decide_False by (intros [? ?]; by apply Hne).
      eapply dseg_ext; [|by apply (inv_list _ _ _ _ I)].
      intros y Hy. by eapply push_node_other; [|eapply push_head_other].
  - intros z p Hp. destruct (Htbl z p) as [_ ->]. rewrite (inv_len _ _ _ _ I) by done.
    unfold L_push. repeat case_decide; destruct_and?; subst; simpl; try lia; exfalso; auto.
  - intros z p. unfold L_push. pose proof (inv_nodup _ _ _ _ I z p).
    case_decide; [|done]. apply NoDup_cons. split; [|done]. intros Hin. by eapply push_fresh.
Qed.

Lemma push_blocks : Blocks s' (L_push L x o) (fun f => hole f /\ ~ in_block f x o).
Proof.
  pose proof push_same as B.
  assert (Hvf : forall f, valid s' f <-> valid s f) by (intros f; by apply valid_same).
  constructor.
  - intros z p y [(-> & -> & ->)|Hy]%elem_of_L_push; rewrite (same_count _ _ B);
      [|by apply (inv_elem _ _ _ _ I)].
    pose proof (block_len_pos o). destruct (inv_hole _ _ _ _ I x push_hole_head) as [[? ?] _].
    destruct (inv_hole _ _ _ _ I (x + block_len o - 1)) as [[? ?] _].
    { apply Hhole. unfold in_block. lia. }
    split_and!; try done; lia.
  - intros z p y f [(-> & -> & ->)|Hy]%elem_of_L_push Hf.
    + apply Hhole in Hf as Hh. destruct (inv_hole _ _ _ _ I f Hh) as [? ?].
      rewrite (same_state _ _ B) by done. split; [done|]. by intros [_ []].
    + destruct (inv_free _ _ _ _ I _ _ _ _ Hy Hf) as [? ?].
      rewrite (same_state _ _ B); [split; [done|by intros [? _]]|].
      apply (inv_elem _ _ _ _ I) in Hy. unfold valid, in_block in *. lia.
  - intros z p y z' p' y' f Hy Hy' Hf Hf'.
    apply elem_of_L_push in Hy as [(-> & -> & ->)|Hy];
      apply elem_of_L_push in Hy' as [(-> & -> & ->)|Hy']; try done.
    + exfalso. by apply (listed_not_hole I _ _ _ _ Hy' Hf'), Hhole.
    + exfalso. by apply (listed_not_hole I _ _ _ _ Hy Hf), Hhole.
    + by eapply (inv_disj _ _ _ _ I).
  - intros f [Hf _]. rewrite Hvf. destruct (inv_hole _ _ _ _ I f Hf).
    by rewrite (same_state _ _ B).
  - intros f Hv Hs. rewrite Hvf in Hv. rewrite (same_state _ _ B) in Hs by done.
    destruct (inv_cover _ _ _ _ I f Hv Hs) as [Hf|(z & p & y & Hy & Hf)].
    + destruct (decide (x <= f /\ f < x + block_len o)) as [Hin|Hout]; [|by left].
      right. exists (zone_of x), o, x. rewrite elem_of_L_push. split; [by left|done].
    + right. exists z, p, y. rewrite elem_of_L_push. split; [by right|done].
  - intros z p y z' Hp Hy Hb.
    apply elem_of_L_push in Hy as [(-> & -> & ->)|Hy];
      apply elem_of_L_push in Hb as [(Hxb & -> & Hpo)|Hb].
    + destruct (buddies_of x o Hal) as [_ _ _ Hadj]. pose proof (block_len_pos o). lia.
    + by apply (Hbud Hp z').
    + subst p. apply (Hbud Hp z). rewrite <- Hxb, lxor_involutive. done.
    + by apply (inv_max _ _ _ _ I z p y z' Hp Hy).
Qed.

Lemma push_tags : Tags s' (L_push L x o).
Proof.
  intros f Hv Hs Hm. apply (valid_same s s' f push_same) in Hv.
  rewrite (same_state _ _ push_same) in Hs by done.
  unfold s' in Hm. rewrite (proj2 (push_nodes _ _ _ _ _ _ I Ho push_hole_head)) in Hm by done.
  cbv zeta in Hm. setoid_rewrite elem_of_L_push.
  destruct (decide (x = f)) as [<-|Hxf].
  { exists (zone_of x), o. by left. }
  destruct (inv_tag _ _ _ _ I f Hv Hs) as (z & p & Hin); [by case_decide|].
  exists z, p. by right.
Qed.

Lemma push_inv : Inv b' s' (L_push L x o) (fun f => hole f /\ ~ in_block f x o).
Proof. constructor; [apply push_links|apply push_blocks|apply push_tags]. Qed.
End Push.

(** *** [unlink] *)

(** A link is absent or points to another free frame. *)
Definition link_ok s (x p : Z) : Prop := p = NONE \/ (valid s p /\ state s p = Free /\ p <> x).

Lemma write_link s x p n :
  0 <= frame_count s < FREE_MAGIC -> link_ok s x p ->
  let s' := if p =? NONE then s else write_node s p n in
  same_bitmap s s' /\
  forall g, valid s g -> node s' g = if decide (p = g) then n else node s g.
Proof.
  intros Hr [->|(Hv & Hf & Hne)]; cbv zeta.
  - rewrite Z.eqb_refl. split; [done|]. intros g Hg. case_decide; [|done].
    subst g. unfold valid, NONE, U64_MAX, FREE_MAGIC in *. lia.
  - replace (p =? NONE) with false
      by (unfold valid, NONE, U64_MAX, FREE_MAGIC in *; lia).
    split; [by apply same_bitmap_write|]. intros g Hg. by rewrite node_write.
Qed.

Lemma unlink_eq b s x z o :
  unlink b s x z o =
  let p := prev (node s x) in let n := next (node s x) in
  let b1 := if p =? NONE then set_head b z o n else b in
  let s1 := if p =? NONE then s else write_node s p (with_next (node s p) n) in
  let s2 := if n =? NONE then s1 else write_node s1 n (with_prev (node s1 n) p) in
  (set_count b1 z o (count b1 z o - 1), write_node s2 x (with_magic (node s2 x) 0)).
Proof. unfold unlink. by destruct (prev (node s x) =? NONE). Qed.

Lemma unlink_nodes b s x z o :
  let p := prev (node s x) in let n := next (node s x) in
  0 <= frame_count s < FREE_MAGIC -> valid s x -> state s x = Free ->
  link_ok s x p -> link_ok s x n -> (n = NONE \/ p <> n) ->
  same_bitmap s (unlink b s x z o).2 /\
  forall g, valid s g -> node (unlink b s x z o).2 g =
    if decide (x = g) then with_magic (node s x) 0
    else if decide (p = g) then with_next (node s g) n
    else if decide (n = g) then with_prev (node s g) p else node s g.
Proof.
  intros p n Hr Hvx Hfx Hp Hn Hpn. rewrite unlink_eq. cbv zeta. cbn [snd].
  fold p. fold n.
  destruct (write_link s x p (with_next (node s p) n) Hr Hp) as [B1 N1]. cbv zeta in B1, N1.
  set (s1 := if p =? NONE then s else _) in *.
  assert (Hr1 : 0 <= frame_count s1 < FREE_MAGIC) by (by rewrite (same_count _ _ B1)).
  assert (Hn1 : link_ok s1 x n).
  { destruct Hn as [?|(? & ? & ?)]; [by left|right].
    rewrite (valid_same s s1) by done. by rewrite (same_state _ _ B1). }
  destruct (write_link s1 x n (with_prev (node s1 n) p) Hr1 Hn1) as [B2 N2]. cbv zeta in B2, N2.
  set (s2 := if n =? NONE then s1 else _) in *.
  assert (B12 : same_bitmap s s2) by (by transitivity s1).
  assert (Hv2 : forall g, valid s2 g <-> valid s g) by (intros g; by apply valid_same).
  assert (Hv1 : forall g, valid s1 g <-> valid s g) by (intros g; by apply valid_same).
  assert (Hnode : forall g, valid s g -> node s2 g =
    if decide (n = g) then with_prev (node s1 n) p else node s1 g).
  { intros g Hg. apply N2. by apply Hv1. }
  split.
  { etransitivity; [exact B12|]. apply same_bitmap_write; [by apply Hv2|].
    by rewrite (same_state _ _ B12). }
  assert (Hpx : p <> x) by (destruct Hp as [->|(_ & _ & ?)]; [|done];
    unfold valid, NONE, U64_MAX, FREE_MAGIC in *; lia).
  assert (Hnx : n <> x) by (destruct Hn as [->|(_ & _ & ?)]; [|done];
    unfold valid, NONE, U64_MAX, FREE_MAGIC in *; lia).
  intros g Hg. rewrite node_write by (by apply Hv2).
  rewrite (Hnode x), (Hnode g), (N1 x) by done.
  rewrite (decide_False (P := n = x)), (decide_False (P := p = x)) by done.
  destruct (decide (x = g)) as [<-|Hxg]; [done|].
  destruct (decide (n = g)) as [<-|Hng].
  - rewrite N1 by done. destruct (decide (p = n)) as [Heq|]; [|done]. exfalso.
    destruct Hpn as [Hpn|Hpn]; [|done].
    rewrite Hpn in Hg. unfold valid, NONE, U64_MAX, FREE_MAGIC in *. lia.
  - rewrite N1 by done. by destruct (decide (p = g)) as [->|].
Qed.

Section Unlink.
Context {b s L hole x o} (I : Inv b s L hole) (Hx : x ∈ L (zone_of x) o).
Let z := zone_of x.
Let b' := (unlink b s x z o).1.
Let s' := (unlink b s x z o).2.
Let p := prev (node s x).
Let n := next (node s x).

Lemma unlink_order : (o <= MAX_ORDER)%nat.
Proof. apply (inv_elem _ _ _ _ I _ _ _ Hx). Qed.

(** The block between its neighbours. *)
Lemma unlink_split : exists l1 l2,
  L z o = l1 ++ x :: l2 /\ NoDup (l1 ++ x :: l2) /\
  dseg s o NONE (head_at b z o) x l1 /\ p = lastp NONE l1 /\ dseg s o x n NONE l2.
Proof.
  destruct (list_elem_of_split _ _ Hx) as (l1 & l2 & HL). fold z in HL.
  exists l1, l2. rewrite <- HL. pose proof (inv_nodup _ _ _ _ I z o).
  pose proof (inv_list _ _ _ _ I z o unlink_order) as Hd. rewrite HL in Hd.
  apply dseg_app in Hd as (m & Hd1 & -> & _ & _ & Hp & Hd2). done.
Qed.

Lemma listed_link y : y ∈ L z o -> y <> x -> link_ok s x y.
Proof.
  intros Hy Hne. right. split_and!; [by eapply listed_valid|by eapply listed_free|done].
Qed.

Lemma lastp_cases (l : list Z) : l = [] \/ exists l', l = l' ++ [lastp NONE l].
Proof.
  destruct (last l) as [y|] eqn:Hl.
  - apply last_Some in Hl as [l' ->]. right. exists l'. by rewrite lastp_snoc.
  - left. by apply last_None.
Qed.

Lemma unlink_spec :
  same_bitmap s s' /\
  forall g, valid s g -> node s' g =
    if decide (x = g) then with_magic (node s x) 0
    else if decide (p = g) then with_next (node s g) n
    else if decide (n = g) then with_prev (node s g) p else node s g.
Proof.
  destruct unlink_split as (l1 & l2 & HL & Hnd & _ & Hp & Hd2).
  apply NoDup_app in Hnd as (_ & Hdis & [Hx2 _]%NoDup_cons).
  apply unlink_nodes.
  - apply (inv_range _ _ _ _ I).
  - by eapply listed_valid.
  - by eapply listed_free.
  - fold p. rewrite Hp. destruct (lastp_cases l1) as [->|[l' Hl']]; [by left|].
    assert (Hin : lastp NONE l1 ∈ l1) by (rewrite Hl' at 2; set_solver).
    apply listed_link; [rewrite HL; set_solver|].
    intros Heq. rewrite Heq in Hin. specialize (Hdis _ Hin). set_solver.
  - fold n. destruct l2 as [|y l2]; [by left|]. destruct Hd2 as [-> _].
    apply listed_link; [rewrite HL; set_solver|]. set_solver.
  - fold p n. destruct l2 as [|y l2]; [by left|right]. destruct Hd2 as [-> _]. rewrite Hp.
    destruct (lastp_cases l1) as [->|[l' Hl']].
    + intros Heq. symmetry in Heq. revert Heq. apply (valid_not_NONE I).
      eapply listed_valid; [exact I|]. rewrite HL. set_solver.
    + assert (Hin : lastp NONE l1 ∈ l1) by (rewrite Hl' at 2; set_solver).
      specialize (Hdis _ Hin). set_solver.
Qed.

Lemma unlink_filter l1 l2 :
  NoDup (l1 ++ x :: l2) -> filter (fun y => y <> x) (l1 ++ x :: l2) = l1 ++ l2.
Proof.
  intros (_ & Hdis & [Hx2 _]%NoDup_cons)%NoDup_app.
  rewrite filter_app, filter_cons_False by (intros Hn; by apply Hn).
  f_equal; apply filter_all; [|by intros y Hy ->].
  intros y Hy ->. specialize (Hdis _ Hy). set_solver.
Qed.

Lemma unlink_tables :
  shape (heads b') /\ shape (counts b') /\
  forall z' q,
    head_at b' z' q =
      (if decide (p = NONE /\ z = z' /\ o = q) then n else head_at b z' q) /\
    count b' z' q = (if decide (z = z' /\ o = q) then count b z' q - 1 else count b z' q).
Proof.
  destruct (inv_shape _ _ _ _ I) as [Hh Hc]. pose proof unlink_order as Ho.
  unfold b'. rewrite unlink_eq. cbv zeta. cbn [fst]. fold p n.
  assert (Hcc : forall c, counts (if c : bool then set_head b z o n else b) = counts b)
    by (by intros []).
  unfold count, set_count. cbn [heads counts]. rewrite Hcc.
  split_and!; [destruct (p =? NONE); cbn; [by apply shape_set|done]|by apply shape_set|].
  intros z' q. unfold head_at. cbn [heads counts]. rewrite tbl_get_set by done. split.
  - destruct (Z.eqb_spec p NONE) as [Hp|Hp]; cbn.
    + rewrite tbl_get_set by done. repeat case_decide; naive_solver.
    + rewrite decide_False; [done|]. naive_solver.
  - case_decide; [|done]. by destruct_and!; subst.
Qed.

Lemma unlink_dseg l1 l2 :
  L z o = l1 ++ x :: l2 -> NoDup (l1 ++ x :: l2) ->
  dseg s o NONE (head_at b z o) x l1 -> p = lastp NONE l1 -> dseg s o x n NONE l2 ->
  dseg s' o NONE (if decide (p = NONE) then n else head_at b z o) NONE (l1 ++ l2).
Proof.
  intros HL Hnd Hd1 Hp Hd2. destruct unlink_spec as [_ Hnode].
  apply NoDup_app in Hnd as (Hnd1 & Hdis & [Hx2 Hnd2]%NoDup_cons).
  assert (Hval : forall y, y ∈ l1 \/ y ∈ l2 -> valid s y).
  { intros y Hy. eapply listed_valid; [exact I|]. rewrite HL. set_solver. }
  assert (Hne : forall y, y ∈ l1 \/ y ∈ l2 -> x <> y) by set_solver.
  assert (Hpl : forall y, y ∈ l2 -> p <> y).
  { intros y Hy. rewrite Hp. destruct (lastp_cases l1) as [->|[l' Hl']].
    - intros <-. by apply (valid_not_NONE I NONE); [apply Hval; right|].
    - assert (lastp NONE l1 ∈ l1) by (rewrite Hl' at 2; set_solver). set_solver. }
  apply dseg_app. exists n. split.
  - destruct (lastp_cases l1) as [->|[l' Hl']].
    + simpl. by rewrite decide_True by done.
    + rewrite <- Hp in Hl'. assert (Hpl1 : p ∈ l1) by (rewrite Hl'; set_solver).
      assert (p <> NONE) by (apply (valid_not_NONE I), Hval; by left).
      rewrite decide_False by done. rewrite Hl' in Hd1 |- *.
      eapply dseg_set_next; [exact Hd1| |].
      * rewrite Hnode by (apply Hval; by left).
        by rewrite decide_False, decide_True by (try done; apply Hne; by left).
      * intros y Hy. rewrite Hl' in Hnd1. apply NoDup_app in Hnd1 as (_ & Hd' & _).
        rewrite Hnode by (apply Hval; left; rewrite Hl'; set_solver).
        rewrite !decide_False; [done| | |].
        -- intros Hny. destruct l2 as [|w l2]; simpl in Hd2.
           ++ apply (valid_not_NONE I y); [apply Hval; left; rewrite Hl'; set_solver|congruence].
           ++ destruct Hd2 as [-> _]. subst w. specialize (Hdis y). rewrite Hl' in Hdis. set_solver.
        -- specialize (Hd' y Hy). set_solver.
        -- apply Hne. left. rewrite Hl'. set_solver.
  - rewrite <- Hp. destruct l2 as [|y l2]; [done|]. assert (Hny : n = y) by (by destruct Hd2).
    apply NoDup_cons in Hnd2 as [Hy2 _]. eapply dseg_set_prev; [exact Hd2| |].
    + rewrite Hnode by (apply Hval; set_solver).
      rewrite decide_False by (apply Hne; set_solver).
      rewrite decide_False by (apply Hpl; set_solver). by rewrite decide_True.
    + intros w Hw. rewrite Hnode by (apply Hval; set_solver).
      rewrite !decide_False; [done| | |]; [congruence|apply Hpl; set_solver|apply Hne; set_solver].
Qed.

Lemma unlink_node_other z' q y :
  y ∈ L z' q -> ~ (z' = z /\ q = o) -> node s' y = node s y.
Proof.
  intros Hy Hne. destruct unlink_split as (l1 & l2 & HL & Hnd & _ & Hp & Hd2).
  assert (Hoff : forall w, w ∈ L z o -> w <> y).
  { intros w Hw ->. destruct (listed_unique I _ _ _ _ _ Hy Hw). by apply Hne. }
  assert (Hv : valid s y) by (by eapply listed_valid).
  rewrite (proj2 unlink_spec) by done. rewrite !decide_False; [done| | |by apply Hoff].
  - destruct l2 as [|w l2]; simpl in Hd2.
    + intros Heq. apply (valid_not_NONE I y Hv). congruence.
    + destruct Hd2 as [-> _]. apply Hoff. rewrite HL. set_solver.
  - rewrite Hp. destruct (lastp_cases l1) as [->|[l' Hl']].
    + intros Heq. by apply (valid_not_NONE I y Hv).
    + apply Hoff. rewrite HL. assert (lastp NONE l1 ∈ l1) by (rewrite Hl' at 2; set_solver).
      set_solver.
Qed.

Lemma unlink_links : Links b' s' (L_drop L x o).
Proof.
  destruct unlink_tables as (Sh & Sc & Htbl).
  destruct unlink_split as (l1 & l2 & HL & Hnd & Hd1 & Hp & Hd2).
  constructor; [|done|..].
  - rewrite (same_count _ _ (proj1 unlink_spec)). apply (inv_range _ _ _ _ I).
  - intros z' q Hq. destruct (Htbl z' q) as [-> _]. unfold L_drop.
    destruct (decide (z' = zone_of x /\ q = o)) as [[-> ->]|Hne].
    + fold z. rewrite HL, unlink_filter by done.
      pose proof (unlink_dseg l1 l2 HL Hnd Hd1 Hp Hd2) as Hd.
      destruct (decide (p = NONE)); [rewrite decide_True by done; done|].
      rewrite decide_False; [done|]. naive_solver.
    + rewrite decide_False by (intros (_ & ? & ?); by apply Hne).
      eapply dseg_ext; [|by apply (inv_list _ _ _ _ I)].
      intros y Hy. by eapply unlink_node_other.
  - intros z' q Hq. destruct (Htbl z' q) as [_ ->]. rewrite (inv_len _ _ _ _ I) by done.
    unfold L_drop. destruct (decide (z' = zone_of x /\ q = o)) as [[-> ->]|Hne].
    + rewrite decide_True by done. fold z. rewrite HL, unlink_filter by done.
      rewrite !length_app. simpl. lia.
    + rewrite decide_False; [done|]. intros [? ?]. by apply Hne.
  - intros z' q. unfold L_drop. pose proof (inv_nodup _ _ _ _ I z' q).
    destruct (decide (z' = zone_of x /\ q = o)); [by apply NoDup_filter|done].
Qed.

Lemma unlink_blocks : Blocks s' (L_drop L x o) (fun f => hole f \/ in_block f x o).
Proof.
  destruct unlink_spec as [B _].
  assert (Hvf : forall f, valid s' f <-> valid s f) by (intros f; by apply valid_same).
  assert (Hvb : forall z' q y f, y ∈ L z' q -> in_block f y q -> valid s f).
  { intros z' q y f Hy Hf. apply (inv_elem _ _ _ _ I) in Hy. unfold valid, in_block in *. lia. }
  constructor.
  - intros z' q y [Hy _]%elem_of_L_drop. rewrite (same_count _ _ B).
    by apply (inv_elem _ _ _ _ I).
  - intros z' q y f [Hy Hne]%elem_of_L_drop Hf.
    destruct (inv_free _ _ _ _ I _ _ _ _ Hy Hf) as [? ?].
    rewrite (same_state _ _ B) by (by eapply Hvb). split; [done|].
    intros [?|Hf']; [done|]. apply Hne.
    destruct (inv_disj _ _ _ _ I _ _ _ _ _ _ f Hy Hx Hf Hf') as [-> ->].
    by destruct (inv_elem _ _ _ _ I _ _ _ Hy) as (_ & <- & _).
  - intros z1 q1 y1 z2 q2 y2 f [Hy1 _]%elem_of_L_drop [Hy2 _]%elem_of_L_drop.
    by eapply (inv_disj _ _ _ _ I).
  - intros f Hf. rewrite Hvf.
    assert (valid s f /\ state s f = Free) as [Hv Hs].
    { destruct Hf as [Hf|Hf]; [by apply (inv_hole _ _ _ _ I)|].
      split; [by eapply Hvb|]. by eapply (inv_free _ _ _ _ I). }
    by rewrite (same_state _ _ B).
  - intros f Hv Hs. rewrite Hvf in Hv. rewrite (same_state _ _ B) in Hs by done.
    destruct (inv_cover _ _ _ _ I f Hv Hs) as [Hf|(z' & q & y & Hy & Hf)]; [by left; left|].
    destruct (decide (y = x /\ z' = zone_of x /\ q = o)) as [(-> & -> & ->)|Hne].
    + left. by right.
    + right. exists z', q, y. by rewrite elem_of_L_drop.
  - intros z' q y z'' Hq [Hy _]%elem_of_L_drop [Hb _]%elem_of_L_drop.
    by apply (inv_max _ _ _ _ I z' q y z'' Hq Hy).
Qed.

Lemma unlink_tags : Tags s' (L_drop L x o).
Proof.
  destruct unlink_spec as [B Hnode]. intros f Hv Hs Hm.
  apply (valid_same s s' f B) in Hv. rewrite (same_state _ _ B) in Hs by done.
  rewrite Hnode in Hm by done. setoid_rewrite elem_of_L_drop.
  destruct (decide (x = f)) as [<-|Hxf].
  { exfalso. symmetry in Hm. revert Hm. apply head_tag_nonzero. by apply (valid_not_magic I). }
  destruct (inv_tag _ _ _ _ I f Hv Hs) as (z' & q & Hin); [by repeat case_decide|].
  exists z', q. split; [done|]. by intros (-> & _).
Qed.

Lemma unlink_inv : Inv b' s' (L_drop L x o) (fun f => hole f \/ in_block f x o).
Proof. constructor; [apply unlink_links|apply unlink_blocks|apply unlink_tags]. Qed.
End Unlink.
End Prim.

(** * Every list operation preserves the invariant

    [set_range], [coalesce_and_push], [split_loop], [isolate_split],
    [insert_run], [build] and [insert_reserved_range] of
    [kernel/src/mm/buddy.rs], by induction on their loops. *)

Lemma elem_of_frames f n g : g ∈ frames f n <-> f <= g < f + n.
Proof. unfold frames. apply elem_of_seqZ. Qed.

Section Ops.
Context {St : Type} `{FrameStoreLaws St}.
Implicit Types (b : BuddyLists) (s : St) (hole : Z -> Prop).

(** ** Changing the bitmap *)

Lemma foldl_set_state (l : list Z) s x :
  (forall f, f ∈ l -> valid s f) ->
  let s' := foldl (fun s i => set_state s i x) s l in
  frame_count s' = frame_count s /\
  (forall g, valid s g -> state s' g = if decide (g ∈ l) then x else state s g) /\
  (forall g, node s' g = node s g).
Proof.
  revert s. induction l as [|f l IH]; intros s Hv; cbn [foldl].
  - by split_and!.
  - assert (Hf : valid s f) by (apply Hv; set_solver).
    assert (Hc : frame_count (set_state s f x) = frame_count s) by apply frame_count_set_state.
    destruct (IH (set_state s f x)) as (C & S & N).
    { intros g Hg. unfold valid. rewrite Hc. apply Hv. set_solver. }
    split_and!; [congruence| |].
    + intros g Hg. rewrite S by (unfold valid; rewrite Hc; done). rewrite state_set by done.
      destruct (decide (g ∈ l)); [rewrite decide_True by set_solver; done|].
      destruct (decide (f = g)) as [->|]; [by rewrite decide_True by set_solver|].
      rewrite decide_False; [done|set_solver].
    + intros g. rewrite N. by apply node_set_state.
Qed.

Record sets_range (s s' : St) (f n : Z) (x : State) : Prop := {
  sets_count : frame_count s' = frame_count s;
  sets_in g : valid s g -> f <= g < f + n -> state s' g = x;
  sets_out g : valid s g -> ~ (f <= g < f + n) -> state s' g = state s g;
  sets_node g : node s' g = node s g;
}.

Lemma set_range_spec s f n x :
  (forall g, f <= g < f + n -> valid s g) -> sets_range s (set_range s f n x) f n x.
Proof.
  intros Hv. destruct (foldl_set_state (frames f n) s x) as (C & S & N).
  { intros g Hg%elem_of_frames. auto. }
  constructor; [done| | |done]; intros g Hg Hr.
  - unfold set_range. rewrite S by done. rewrite decide_True; [done|]. by apply elem_of_frames.
  - unfold set_range. rewrite S by done. rewrite decide_False; [done|]. by rewrite elem_of_frames.
Qed.

Lemma Links_nodes b s s' L :
  frame_count s' = frame_count s -> (forall g, node s' g = node s g) -> Links b s L -> Links b s' L.
Proof.
  intros C N [? ? Hl ? ?]. constructor; try done; [by rewrite C|].
  intros z o Ho. eapply dseg_ext; [|by apply Hl]. auto.
Qed.

(** Frames of the hole stop being free. *)
Lemma Inv_take b s s' L hole f n x :
  Inv b s L hole -> (forall g, f <= g < f + n -> hole g) -> x <> Free ->
  sets_range s s' f n x -> Inv b s' L (fun g => hole g /\ ~ (f <= g < f + n)).
Proof.
  intros I Hh Hx [C Sin Sout N].
  assert (Hlist : forall z o y g, y ∈ L z o -> in_block g y o ->
    valid s g /\ ~ (f <= g < f + n)).
  { intros z o y g Hy Hg. split; [|by intros ?%Hh; eapply (listed_not_hole I)].
    apply (inv_elem _ _ _ _ I) in Hy. unfold valid, in_block in *. lia. }
  assert (Hfree : forall g, valid s g -> state s' g = Free -> state s g = Free /\ ~ (f <= g < f + n)).
  { intros g Hg Hs. destruct (decide (f <= g /\ g < f + n)) as [Hr|Hr].
    - exfalso. apply Hx. rewrite <- Hs. symmetry. by apply Sin.
    - rewrite Sout in Hs by done. done. }
  destruct I as [IL [Hel Hfr Hdis Hho Hcov Hmax] IT]. constructor.
  - by apply (Links_nodes b s).
  - constructor; unfold valid; rewrite ?C; try done.
    + intros z o y g Hy Hg. destruct (Hlist z o y g Hy Hg). rewrite Sout by done.
      destruct (Hfr _ _ _ _ Hy Hg). split; [done|]. by intros [? _].
    + intros g [Hg Hr]. destruct (Hho g Hg). by rewrite Sout.
    + intros g Hg Hs. destruct (Hfree g Hg Hs) as [Hs' Hr].
      destruct (Hcov g Hg Hs'); [by left|by right].
  - intros g Hg Hs Hm. unfold valid in Hg. rewrite C in Hg. rewrite N in Hm.
    apply IT; [done| |done]. by apply Hfree.
Qed.

(** Frames that were not free join the hole, if they carry no stale tag. *)
Lemma Inv_give b s s' L hole f n :
  Inv b s L hole -> (forall g, f <= g < f + n -> valid s g /\ state s g <> Free) ->
  (forall g, f <= g < f + n -> magic (node s g) <> head_tag g) ->
  sets_range s s' f n Free -> Inv b s' L (fun g => hole g \/ f <= g < f + n).
Proof.
  intros I Hv Htag [C Sin Sout N].
  assert (Hst : forall g, valid s g -> state s g = Free -> state s' g = Free).
  { intros g Hg Hs. rewrite Sout; [done|done|]. intros Hr. by destruct (Hv g Hr). }
  assert (Hlist : forall z o y g, y ∈ L z o -> in_block g y o -> valid s g).
  { intros z o y g Hy Hg. apply (inv_elem _ _ _ _ I) in Hy. unfold valid, in_block in *. lia. }
  destruct I as [IL [Hel Hfr Hdis Hho Hcov Hmax] IT]. constructor.
  - by apply (Links_nodes b s).
  - constructor; unfold valid; rewrite ?C; try done.
    + intros z o y g Hy Hg. destruct (Hfr _ _ _ _ Hy Hg) as [Hs Hh].
      split; [by eapply Hst; eauto|]. intros [?|Hr]; [done|]. by destruct (Hv g Hr).
    + intros g [Hg|Hr].
      * destruct (Hho g Hg). eauto.
      * destruct (Hv g Hr). auto.
    + intros g Hg Hs. destruct (decide (f <= g /\ g < f + n)) as [Hr|Hr]; [by left; right|].
      rewrite Sout in Hs by done. destruct (Hcov g Hg Hs); [by left; left|by right].
  - intros g Hg Hs Hm. unfold valid in Hg. rewrite C in Hg. rewrite N in Hm.
    destruct (decide (f <= g /\ g < f + n)) as [Hr|Hr]; [by destruct (Htag g Hr)|].
    rewrite Sout in Hs by done. by apply IT.
Qed.

(** ** Coalescing *)

Lemma coalesce_loop_inv n b s L hole x o :
  (n + o = MAX_ORDER)%nat -> Inv b s L hole -> (block_len o | x) ->
  (forall f, in_block f x o -> hole f) ->
  exists L', Inv (coalesce_loop n b s x o).1 (coalesce_loop n b s x o).2 L'
               (fun f => hole f /\ ~ in_block f x o) /\
             same_bitmap s (coalesce_loop n b s x o).2.
Proof.
  revert b s L hole x o. induction n as [|n IH]; intros b s L hole x o Hn I Hal Hh; cbn [coalesce_loop].
  { eexists. split; [apply (push_inv I); [lia|done|done|lia]|apply (push_same I); [lia|done]]. }
  assert (Hx0 : 0 <= x).
  { destruct (inv_hole _ _ _ _ I x (Hh x (in_block_head _ _))) as [[? ?] _]. done. }
  pose proof (block_len_pos o) as Hp.
  destruct (buddies_of x o Hal) as [_ Hbal Hmin Hadj]. set (y := Z.lxor x (block_len o)) in *.
  assert (Hy0 : 0 <= y) by (apply Z.lxor_nonneg; lia).
  destruct (is_free_head s y o) eqn:Hfh.
  - apply (is_free_head_spec I) in Hfh; [|done|lia].
    pose proof (unlink_inv I Hfh) as I1. destruct (unlink_spec I Hfh) as [B1 _].
    destruct (unlink b s y (zone_of y) o) as [b1 s1]. cbn [fst snd] in *.
    assert (Hsplit : forall f, in_block f (Z.min x y) (S o) <-> in_block f x o \/ in_block f y o).
    { intros f. unfold in_block. rewrite block_len_S. lia. }
    destruct (IH b1 s1 _ _ (Z.min x y) (S o) ltac:(lia) I1 Hmin) as (L' & I2 & B2).
    { intros f [Hf|Hf]%Hsplit; [left; auto|by right]. }
    exists L'. split; [|by etransitivity].
    eapply Inv_hole; [|exact I2]. intros f. cbv beta. rewrite Hsplit. split.
    + intros [[Hf|Hf] Hn']; [|by destruct Hn'; right]. split; [done|]. intros ?. apply Hn'. by left.
    + intros [Hf Hn']. split; [by left|]. intros [?|Hfy]; [done|].
      by apply (listed_not_hole I _ _ _ _ Hfh Hfy).
  - eexists. split; [apply (push_inv I); [lia|done|done|]|apply (push_same I); [lia|done]].
    intros Ho z Hin. destruct (inv_elem _ _ _ _ I _ _ _ Hin) as (_ & <- & _).
    fold y in Hin. assert (is_free_head s y o = true); [|congruence].
    apply (is_free_head_spec I); [done|lia|done].
Qed.

Lemma coalesce_inv b s L hole x o :
  (o <= MAX_ORDER)%nat -> Inv b s L hole -> (block_len o | x) ->
  (forall f, in_block f x o -> hole f) ->
  exists L', Inv (coalesce_and_push b s x o).1 (coalesce_and_push b s x o).2 L'
               (fun f => hole f /\ ~ in_block f x o) /\
             same_bitmap s (coalesce_and_push b s x o).2.
Proof. intros Ho. apply coalesce_loop_inv. lia. Qed.

(** ** Splitting *)

Lemma split_loop_inv n b s L hole x o :
  (n + o <= MAX_ORDER)%nat -> Inv b s L hole -> (block_len (o + n) | x) ->
  (forall f, in_block f x (o + n) -> hole f) ->
  exists L', Inv (split_loop n b s x o).1 (split_loop n b s x o).2 L'
               (fun f => hole f /\ (in_block f x (o + n) -> in_block f x o)) /\
             same_bitmap s (split_loop n b s x o).2.
Proof.
  revert b s L hole. induction n as [|n IH]; intros b s L hole Hn I Hal Hh; cbn [split_loop].
  { exists L. split; [|done]. eapply Inv_hole; [|exact I]. intros f.
    rewrite Nat.add_0_r. tauto. }
  set (cur := (o + n)%nat) in *. replace (o + S n)%nat with (S cur) in * by lia.
  assert (Hlen : block_len (S cur) = 2 * block_len cur) by apply block_len_S.
  pose proof (block_len_pos cur) as Hp. set (u := x + block_len cur).
  assert (Halx : (block_len cur | x)) by (etransitivity; [apply (block_len_divide cur (S cur)); lia|done]).
  assert (Halu : (block_len cur | u)) by (by apply Z.divide_add_r; [|apply Z.divide_refl]).
  assert (Hhu : forall f, in_block f u cur -> hole f).
  { intros f Hf. apply Hh. unfold in_block, u in *. lia. }
  assert (Hbud : (cur < MAX_ORDER)%nat -> forall z, Z.lxor u (block_len cur) ∉ L z cur).
  { intros _ z. unfold u. rewrite <- (buddy_upper x cur Hal), lxor_involutive.
    intros Hin. apply (listed_not_hole I _ _ _ _ Hin (in_block_head _ _)), Hh.
    unfold in_block. lia. }
  assert (Hcur : (cur <= MAX_ORDER)%nat) by (unfold cur; lia).
  pose proof (push_inv I Hcur Halu Hhu Hbud) as I1.
  pose proof (push_same I Hcur Hhu) as B1.
  destruct (push b s u cur) as [b1 s1]. cbn [fst snd] in *.
  destruct (IH b1 s1 _ _ ltac:(lia) I1 Halx) as (L' & I2 & B2).
  { intros f Hf. split; [apply Hh|]; unfold in_block, u in *; lia. }
  exists L'. split; [|by etransitivity].
  eapply Inv_hole; [|exact I2]. intros f. unfold in_block, u in *. rewrite Hlen.
  pose proof (block_len_le o cur ltac:(lia)). split.
  - intros [[? ?] Hf]. split; [done|]. intros ?. apply Hf. lia.
  - intros [? Hf]. assert (~ (x + block_len cur <= f < x + block_len cur + block_len cur)).
    { intros ?. pose proof (Hf ltac:(lia)). lia. }
    split; [done|]. intros ?. apply Hf. lia.
Qed.

Lemma isolate_split_inv n b s L hole x f :
  (n <= MAX_ORDER)%nat -> Inv b s L hole -> (block_len n | x) ->
  (forall g, in_block g x n -> hole g) -> in_block f x n ->
  exists L', Inv (isolate_split n b s x f).1 (isolate_split n b s x f).2 L'
               (fun g => hole g /\ (in_block g x n -> g = f)) /\
             same_bitmap s (isolate_split n b s x f).2.
Proof.
  revert b s L hole x. induction n as [|n IH]; intros b s L hole x Hn I Hal Hh Hf; cbn [isolate_split].
  { exists L. split; [|done]. eapply Inv_hole; [|exact I]. intros g.
    unfold in_block, block_len in *. simpl in *. split; [|tauto]. intros; split; [done|lia]. }
  assert (Hlen : block_len (S n) = 2 * block_len n) by apply block_len_S.
  pose proof (block_len_pos n) as Hp. set (u := x + block_len n).
  assert (Halx : (block_len n | x)) by (etransitivity; [apply (block_len_divide n (S n)); lia|done]).
  assert (Halu : (block_len n | u)) by (by apply Z.divide_add_r; [|apply Z.divide_refl]).
  assert (Hxu : Z.lxor x (block_len n) = u) by (by apply buddy_upper).
  assert (Hux : Z.lxor u (block_len n) = x) by (rewrite <- Hxu; apply lxor_involutive).
  assert (Hhole : forall y z, in_block y x (S n) -> y ∉ L z n).
  { intros y z Hy Hin. by apply (listed_not_hole I _ _ _ _ Hin (in_block_head _ _)), Hh. }
  assert (Hstep : forall p q, (p = x /\ q = u) \/ (p = u /\ q = x) -> in_block f q n ->
    exists L', Inv (let '(b, s) := push b s p n in isolate_split n b s q f).1
                   (let '(b, s) := push b s p n in isolate_split n b s q f).2 L'
                   (fun g => hole g /\ (in_block g x (S n) -> g = f)) /\
               same_bitmap s (let '(b, s) := push b s p n in isolate_split n b s q f).2).
  { intros p q Hpq Hfq.
    assert (Hhp : forall g, in_block g p n -> hole g).
    { intros g Hg. apply Hh. unfold in_block in *. lia. }
    assert (Hb : (n < MAX_ORDER)%nat -> forall z, Z.lxor p (block_len n) ∉ L z n).
    { intros _ z. apply Hhole. unfold in_block. destruct Hpq as [[-> ->]|[-> ->]]; lia. }
    assert (Hap : (block_len n | p)) by (by destruct Hpq as [[-> ->]|[-> ->]]).
    assert (Hn' : (n <= MAX_ORDER)%nat) by lia.
    pose proof (push_inv I Hn' Hap Hhp Hb) as I1.
    pose proof (push_same I Hn' Hhp) as B1.
    destruct (push b s p n) as [b1 s1]. cbn [fst snd] in *.
    destruct (IH b1 s1 _ _ q ltac:(lia) I1) as (L' & I2 & B2); [| |done|].
    { by destruct Hpq as [[-> ->]|[-> ->]]. }
    { intros g Hg. split; [apply Hh|]; unfold in_block in *; lia. }
    exists L'. split; [|by etransitivity]. eapply Inv_hole; [|exact I2].
    intros g. unfold in_block in *. rewrite Hlen. split.
    - intros [[? ?] Hg]. split; [done|]. intros ?. apply Hg. lia.
    - intros [? Hg]. assert (~ (p <= g < p + block_len n)).
      { intros ?. pose proof (Hg ltac:(lia)). lia. }
      split; [done|]. intros ?. apply Hg. lia. }
  fold u. unfold in_block in Hf. destruct (f >=? u) eqn:Hfu; bool_to_prop.
  - apply Hstep; [by left|]. unfold in_block, u in *. lia.
  - apply Hstep; [by right|]. unfold in_block, u in *. lia.
Qed.

(** ** Carving a run into blocks *)

Lemma block_order_shrink_spec x fin o :
  x < fin ->
  (block_order_shrink x fin o <= o)%nat /\
  x + block_len (block_order_shrink x fin o) <= fin /\
  ((block_order_shrink x fin o < o)%nat -> fin < x + block_len (S (block_order_shrink x fin o))).
Proof.
  intros Hx. induction o as [|o IH]; cbn [block_order_shrink].
  - destruct (x + block_len 0 >? fin) eqn:Hc; bool_to_prop; [|lia].
    exfalso. change (block_len 0) with 1 in Hc. lia.
  - destruct (x + block_len (S o) >? fin) eqn:Hc; bool_to_prop; [|lia].
    destruct IH as (Hr1 & Hr2 & Hr3). split_and!; [lia|done|]. intros _.
    destruct (decide (block_order_shrink x fin o < o)%nat); [by apply Hr3|].
    replace (block_order_shrink x fin o) with o by lia. done.
Qed.

(** The order chosen for a piece: it fits, it is aligned, and it is the
    largest such order. *)
Lemma block_order_spec x fin :
  0 <= x < fin ->
  (block_order x fin <= MAX_ORDER)%nat /\ (block_len (block_order x fin) | x) /\
  x + block_len (block_order x fin) <= fin /\
  forall o, (o <= MAX_ORDER)%nat -> (block_len o | x) -> x + block_len o <= fin ->
    (o <= block_order x fin)%nat.
Proof.
  intros [Hx0 Hx]. unfold block_order.
  set (start := if x =? 0 then MAX_ORDER else Nat.min MAX_ORDER (Z.to_nat (trailing_zeros x))).
  destruct (block_order_shrink_spec x fin start Hx) as (Hle & Hfit & Hmax).
  set (r := block_order_shrink x fin start) in *.
  pose proof (trailing_zeros_nonneg x) as Htz.
  assert (Hstart : (start <= MAX_ORDER)%nat /\
    forall o, (o <= MAX_ORDER)%nat -> (block_len o | x) <-> (o <= start)%nat).
  { unfold start. destruct (Z.eqb_spec x 0) as [->|Hne].
    - split; [done|]. intros o Ho. split; [lia|]. intros _. apply Z.divide_0_r.
    - split; [lia|]. intros o Ho. unfold block_len. split.
      + intros Hd. apply trailing_zeros_max in Hd; lia.
      + intros Hs. apply trailing_zeros_divide; lia. }
  destruct Hstart as [Hs1 Hs2].
  split_and!; [lia|apply Hs2; lia|done|]. intros o Ho Hal Hof. apply Hs2 in Hal; [|done].
  destruct (decide (o <= r)%nat) as [|Hgt]; [done|exfalso].
  pose proof (Hmax ltac:(lia)). pose proof (block_len_le (S r) o ltac:(lia)). lia.
Qed.

(** Every listed block ends at or before [x]. *)
Definition below (L : Zone -> nat -> list Z) (x : Z) : Prop :=
  forall z o y, y ∈ L z o -> y + block_len o <= x.

Lemma insert_run_loop_inv fuel b s L hole x fin :
  Inv b s L hole -> 0 <= x <= fin -> (Z.to_nat (fin - x) <= fuel)%nat ->
  (forall f, x <= f < fin -> hole f) -> below L x ->
  (forall z o y, y ∈ L z o -> (o < MAX_ORDER)%nat -> y + block_len o = x ->
     (block_len (S o) | y) -> fin < x + block_len o) ->
  exists L', Inv (insert_run_loop fuel b s x fin).1 (insert_run_loop fuel b s x fin).2 L'
               (fun f => hole f /\ ~ (x <= f < fin)) /\
             same_bitmap s (insert_run_loop fuel b s x fin).2 /\ below L' fin.
Proof.
  revert b s L hole x. induction fuel as [|fuel IH]; intros b s L hole x I Hx Hfuel Hh Hb He;
    cbn [insert_run_loop].
  { assert (x = fin) as -> by lia. exists L. split_and!; [|done|done].
    eapply Inv_hole; [|exact I]. intros f. cbv beta. intuition lia. }
  destruct (x <? fin) eqn:Hlt; bool_to_prop; last first.
  { assert (x = fin) as -> by lia. exists L. split_and!; [|done|done].
    eapply Inv_hole; [|exact I]. intros f. cbv beta. intuition lia. }
  destruct (block_order_spec x fin ltac:(lia)) as (Ho & Hal & Hfit & Hmax).
  set (o := block_order x fin) in *. pose proof (block_len_pos o) as Hp.
  assert (Hhx : forall f, in_block f x o -> hole f).
  { intros f Hf. apply Hh. unfold in_block in Hf. lia. }
  assert (Hbud : (o < MAX_ORDER)%nat -> forall z, Z.lxor x (block_len o) ∉ L z o).
  { intros Hlo z Hin. destruct (buddies_of x o Hal) as [_ _ Hmin Hadj].
    specialize (Hb _ _ _ Hin). destruct Hadj as [Hadj|Hadj]; [lia|].
    rewrite Z.min_r in Hmin by lia. specialize (He _ _ _ Hin Hlo ltac:(lia) Hmin). lia. }
  pose proof (push_inv I Ho Hal Hhx Hbud) as I1. pose proof (push_same I Ho Hhx) as B1.
  destruct (push b s x o) as [b1 s1]. cbn [fst snd] in *.
  destruct (IH b1 s1 _ _ (x + block_len o) I1) as (L' & I2 & B2 & Hb2); [lia|lia| | | |].
  - intros f Hf. split; [apply Hh; lia|]. unfold in_block. lia.
  - intros z p y [(-> & -> & ->)|Hy]%elem_of_L_push; [lia|]. specialize (Hb _ _ _ Hy). lia.
  - intros z p y [(-> & -> & ->)|Hy]%elem_of_L_push Hp' Hend Hal'.
    + destruct (Z.lt_ge_cases fin (x + block_len o + block_len o)) as [|Hge]; [done|exfalso].
      pose proof (Hmax (S o) ltac:(lia) Hal' ltac:(rewrite block_len_S; lia)). lia.
    + specialize (Hb _ _ _ Hy). lia.
  - exists L'. split_and!; [|by etransitivity|done].
    eapply Inv_hole; [|exact I2]. intros f. unfold in_block. intuition lia.
Qed.

Lemma run_end_spec fuel s fin limit x :
  fin <= limit -> (Z.to_nat (limit - fin) <= fuel)%nat ->
  let r := run_end fuel s fin limit x in
  fin <= r <= limit /\ (forall g, fin <= g < r -> state s g = x) /\
  (r < limit -> state s r <> x).
Proof.
  revert fin. induction fuel as [|fuel IH]; intros fin Hle Hfuel; cbn [run_end]; cbv zeta.
  { split_and!; lia. }
  unfold state_eqb. destruct ((fin <? limit) && bool_decide (state s fin = x)) eqn:Hc; bool_to_prop.
  - destruct (IH (fin + 1) ltac:(lia) ltac:(lia)) as (Hr1 & Hr2 & Hr3). split_and!; [lia|lia| |done].
    intros g Hg. destruct (decide (g = fin)) as [->|]; [done|]. apply Hr2. lia.
  - split_and!; [lia|lia|lia|]. intros Hlt. destruct Hc as [Hc|Hc]; bool_to_prop; [lia|done].
Qed.

Lemma run_end_progress s fin limit x :
  fin < limit -> state s fin = x ->
  fin < run_end (Z.to_nat (limit - fin)) s fin limit x.
Proof.
  intros Hlt Hx.
  destruct (run_end_spec (Z.to_nat (limit - fin)) s fin limit x) as ([Hle _] & _ & Hstop); [lia..|].
  cbv zeta in *. destruct (Z.eq_dec (run_end (Z.to_nat (limit - fin)) s fin limit x) fin) as [He|]; [|lia].
  rewrite He in Hstop. by destruct (Hstop Hlt).
Qed.

(** The part of the free frames that [build] has not listed yet. *)
Definition pending s (x : Z) (f : Z) : Prop := x <= f /\ valid s f /\ state s f = Free.

Lemma pending_same s s' x f : same_bitmap s s' -> pending s' x f <-> pending s x f.
Proof.
  intros B. unfold pending. rewrite (valid_same s s' f B). split.
  - intros (? & Hv & Hs). rewrite (same_state _ _ B) in Hs by done. done.
  - intros (? & Hv & Hs). by rewrite (same_state _ _ B).
Qed.

Lemma build_loop_inv fuel b s L x :
  0 <= x <= frame_count s -> (Z.to_nat (frame_count s - x) <= fuel)%nat ->
  Inv b s L (pending s x) -> below L x ->
  (forall z o y, y ∈ L z o -> y + block_len o = x -> x < frame_count s -> state s x <> Free) ->
  exists L', Inv (build_loop fuel b s x).1 (build_loop fuel b s x).2 L' (fun _ => False) /\
             same_bitmap s (build_loop fuel b s x).2.
Proof.
  revert b s L x. induction fuel as [|fuel IH]; intros b s L x Hx Hfuel I Hb Hedge; cbn [build_loop].
  { exists L. split; [|done]. eapply Inv_hole; [|exact I]. intros f. unfold pending, valid. intuition lia. }
  destruct (x <? frame_count s) eqn:Hlt; bool_to_prop; last first.
  { exists L. split; [|done]. eapply Inv_hole; [|exact I]. intros f. unfold pending, valid. intuition lia. }
  unfold state_eqb. destruct (bool_decide (state s x = Free)) eqn:Hs; bool_to_prop; cbn [negb].
  - destruct (run_end_spec (Z.to_nat (frame_count s - x)) s x (frame_count s) Free)
      as (Hr & Hfree & Hstop); [lia|lia|].
    pose proof (run_end_progress s x (frame_count s) Free Hlt Hs) as Hprog. cbv zeta in *.
    set (fin := run_end _ s x _ Free) in *. unfold insert_run.
    destruct (insert_run_loop_inv (Z.to_nat (fin - x)) b s L _ x fin I) as (L1 & I1 & B1 & Hb1);
      [lia|lia| |done| |].
    { intros f Hf. unfold pending, valid. split_and!; try lia. by apply Hfree. }
    { intros z o y Hy _ Hend _. by destruct (Hedge z o y Hy Hend Hlt). }
    destruct (insert_run_loop (Z.to_nat (fin - x)) b s x fin) as [b1 s1]. cbn [fst snd] in *.
    pose proof (same_count _ _ B1) as C1.
    destruct (IH b1 s1 L1 fin) as (L2 & I2 & B2); [lia|lia| |done| |].
    + eapply Inv_hole; [|exact I1]. intros f. cbv beta. rewrite (pending_same s s1 fin f B1).
      unfold pending. intuition lia.
    + intros z o y Hy Hend Hlf. rewrite (same_state _ _ B1) by (unfold valid; lia).
      apply Hstop. lia.
    + exists L2. split; [done|by etransitivity].
  - destruct (IH b s L (x + 1)) as (L2 & I2 & B2); [lia|lia| | | |].
    + eapply Inv_hole; [|exact I]. intros f. unfold pending. split.
      * intros (? & ? & ?). split_and!; try done. destruct (decide (f = x)) as [->|]; [done|lia].
      * intros (? & ? & ?). split_and!; try done. lia.
    + intros z o y Hy. specialize (Hb z o y Hy). lia.
    + intros z o y Hy Hend _ _. pose proof (block_len_pos o).
      destruct (inv_free _ _ _ _ I z o y x Hy) as [? _]; [unfold in_block; lia|done].
    + exists L2. done.
Qed.

Lemma Inv_new s :
  0 <= frame_count s < FREE_MAGIC ->
  (forall f, valid s f -> state s f = Free -> magic (node s f) <> head_tag f) ->
  Inv new s (fun _ _ => []) (pending s 0).
Proof.
  intros Hr Htag. constructor.
  - constructor; try done.
    + apply shape_new.
    + intros z o Ho. apply (tbl_get_new z o Ho).
    + intros z o Ho. apply (tbl_get_new z o Ho).
    + intros. constructor.
  - constructor; try (intros; set_solver).
    + intros f (_ & ? & ?). done.
    + intros f Hv Hs. left. unfold pending, valid in *. naive_solver lia.
  - intros f Hv Hs Hm. by destruct (Htag f Hv Hs).
Qed.
End Ops.
