(* ===== verification/BuddySpec.v ===== *)
(** * BuddySpec: what the frame lists promise their callers

    The specification of [allocate], [release], [isolate], [build] and
    [insert_reserved_range] of [kernel/src/mm/buddy.rs] in terms of the
    ownership bitmap alone: [Wf] says that some list contents satisfy the
    invariant, and each theorem says which frames change owner. *)

From stdpp Require Import base numbers sets list.
From S2P Require Import Prelude Buddy BuddyInv BuddyOps.
Local Open Scope Z_scope.

Section Spec.
Context {St : Type} `{FrameStoreLaws St}.
Implicit Types (b : BuddyLists) (s : St).

Definition Wf b s : Prop := exists L, Inv b s L (fun _ => False).

(** The frames in [P] become free, the bitmap keeps every other owner, and
    the memory of frames that are not free afterwards is untouched. *)
Record freed (s s' : St) (P : Z -> Prop) : Prop := {
  freed_count : frame_count s' = frame_count s;
  freed_in g : valid s g -> P g -> state s' g = Free;
  freed_out g : valid s g -> ~ P g -> state s' g = state s g;
  freed_mono g : valid s g -> state s g = Free -> state s' g = Free;
  freed_owned g : valid s g -> state s' g <> Free -> node s' g = node s g;
}.

Lemma freed_refl s (P : Z -> Prop) : (forall g, valid s g -> ~ P g) -> freed s s P.
Proof. intros HP. constructor; try done. intros g Hg Hp. by destruct (HP g Hg). Qed.

Lemma freed_trans s1 s2 s3 (P Q R : Z -> Prop) :
  freed s1 s2 P -> freed s2 s3 Q -> (forall g, valid s1 g -> R g <-> P g \/ Q g) -> freed s1 s3 R.
Proof.
  intros [C1 I1 O1 M1 N1] [C2 I2 O2 M2 N2] HR.
  assert (Hv : forall g, valid s2 g <-> valid s1 g) by (intros; unfold valid; by rewrite C1).
  constructor; [congruence| | | |].
  - intros g Hg [Hp|Hq]%HR; [|by apply I2; [apply Hv|]|done].
    apply M2; [by apply Hv|]. by apply I1.
  - intros g Hg Hn. rewrite HR in Hn by done. rewrite O2 by (try apply Hv; tauto). apply O1; tauto.
  - intros g Hg Hs. apply M2; [by apply Hv|]. by apply M1.
  - intros g Hg Hs. rewrite N2 by (try apply Hv; done). apply N1; [done|].
    intros Hf. apply Hs, M2; [by apply Hv|done].
Qed.

(** Free the aligned block [x] of order [o] and list it. *)
Lemma free_block_inv b s L hole x o :
  (o <= MAX_ORDER)%nat -> Inv b s L hole -> (block_len o | x) ->
  (forall g, in_block g x o -> valid s g /\ state s g <> Free) ->
  (forall g, in_block g x o -> magic (node s g) <> head_tag g) ->
  let r := coalesce_and_push b (set_range s x (block_len o) Free) x o in
  exists L', Inv r.1 r.2 L' hole /\ freed s r.2 (fun g => in_block g x o).
Proof.
  intros Ho I Hal Hv Htag r.
  pose proof (set_range_spec s x (block_len o) Free (fun g Hg => proj1 (Hv g Hg))) as R.
  pose proof (Inv_give _ _ _ _ _ _ _ I Hv Htag R) as I1.
  destruct (coalesce_inv _ _ _ _ x o Ho I1 Hal) as (L' & I2 & B2).
  { intros f Hf. by right. }
  fold r in I2, B2. destruct R as [C Sin Sout N]. exists L'. split.
  - eapply Inv_hole; [|exact I2]. intros f. cbv beta. unfold in_block. split.
    + tauto.
    + intros Hf. split; [by left|]. intros Hb. destruct (Hv f Hb) as [_ Hnf].
      by destruct (inv_hole _ _ _ _ I f Hf).
  - set (s1 := set_range s x (block_len o) Free) in *.
    assert (Hv1 : forall g, valid s1 g <-> valid s g) by (intros; unfold valid; by rewrite C).
    constructor.
    + by rewrite (same_count _ _ B2).
    + intros g Hg Hb. rewrite (same_state _ _ B2) by (by apply Hv1). by apply Sin.
    + intros g Hg Hb. rewrite (same_state _ _ B2) by (by apply Hv1). by apply Sout.
    + intros g Hg Hs. rewrite (same_state _ _ B2) by (by apply Hv1). rewrite Sout; [done..|].
      intros Hb. by destruct (Hv g Hb).
    + intros g Hg Hs. rewrite (same_state _ _ B2) in Hs by (by apply Hv1).
      rewrite (same_owned _ _ B2) by (try apply Hv1; done). apply N.
Qed.

Lemma range_is_spec s f n x :
  range_is s f n x = true <-> forall g, f <= g < f + n -> state s g = x.
Proof.
  unfold range_is. rewrite forallb_true_forall. setoid_rewrite elem_of_frames.
  unfold state_eqb. setoid_rewrite bool_decide_eq_true. done.
Qed.

(** [release] as a decision: which error, or the block goes back. *)
Lemma release_ok_iff b s x o :
  0 <= frame_count s < FREE_MAGIC -> 0 <= x ->
  (exists r, release b s x o = Ok r) <->
  (o <= MAX_ORDER)%nat /\ x + block_len o <= frame_count s /\ (block_len o | x) /\
  (forall g, in_block g x o -> state s g = Allocated).
Proof.
  intros Hr Hx. unfold release. pose proof (block_len_pos o) as Hp. split.
  - intros [r Hrel]. destruct (MAX_ORDER <? o)%nat eqn:Ho; [done|]. apply Nat.ltb_ge in Ho.
    destruct (checked_add x (block_len o)) as [fin|] eqn:Hfin; [|done].
    apply checked_add_Some in Hfin as [-> _].
    case_if_in Hrel; [done|]. case_if_in Hrel; [done|]. case_if_in Hrel; [done|].
    case_if_in Hrel; [done|]. case_if_in Hrel; [done|].
    split_and!; [done|lia|by apply is_multiple_of_divide|]. by apply range_is_spec.
  - intros (Ho & Hle & Hal & Hall). apply Nat.ltb_ge in Ho. rewrite Ho.
    unfold checked_add. replace (x + block_len o <=? U64_MAX) with true
      by (unfold U64_MAX, FREE_MAGIC in *; lia).
    replace (x + block_len o >? frame_count s) with false by lia.
    rewrite (proj2 (is_multiple_of_divide x _ Hp) Hal). cbn [negb].
    assert (Hno : forall y, y <> Allocated -> range_is s x (block_len o) y = false).
    { intros y Hy. apply not_true_is_false. rewrite range_is_spec. intros Hc.
      apply Hy. rewrite <- (Hc x), <- (Hall x); [done|apply in_block_head|lia]. }
    rewrite !Hno by done. rewrite (proj2 (range_is_spec _ _ _ _) Hall). cbn. eauto.
Qed.

Lemma release_ok_eq b s x o r :
  release b s x o = Ok r -> r = coalesce_and_push b (set_range s x (block_len o) Free) x o.
Proof.
  unfold release. destruct (MAX_ORDER <? o)%nat; [done|].
  destruct (checked_add x (block_len o)); [|done]. repeat case_if; intros [= <-]; done.
Qed.

(** Blocks of any order lie in one zone. *)
Lemma zone_block x o f :
  (o <= MAX_ORDER)%nat -> (block_len o | x) -> in_block f x o -> zone_of f = zone_of x.
Proof.
  intros Ho Hal Hf. unfold zone_of, in_block in *.
  assert (Hd : (block_len o | DMA32_FRAMES)).
  { unfold block_len, DMA32_FRAMES. apply pow2_divide. unfold MAX_ORDER in Ho. lia. }
  pose proof (block_len_pos o) as Hp.
  destruct (x <? DMA32_FRAMES) eqn:Hx; bool_to_prop.
  - pose proof (divide_lt_add_le _ _ _ Hp Hal Hd Hx). replace (f <? DMA32_FRAMES) with true by lia. done.
  - replace (f <? DMA32_FRAMES) with false by lia. done.
Qed.

(** Since buddies are never both listed, an aligned run of free frames lies
    inside one listed block. *)
Lemma free_block_listed b s L x o :
  Inv b s L (fun _ => False) -> (o <= MAX_ORDER)%nat -> 0 <= x -> (block_len o | x) ->
  x + block_len o <= frame_count s -> (forall f, in_block f x o -> state s f = Free) ->
  exists z p y, y ∈ L z p /\ (o <= p)%nat /\ y <= x /\ x + block_len o <= y + block_len p.
Proof.
  intros I. revert x. induction o as [|o IH]; intros x Ho Hx Hal Hle Hfree.
  { destruct (inv_cover _ _ _ _ I x) as [[]|(z & p & y & Hy & Hb)].
    - unfold valid. change (block_len 0) with 1 in Hle. lia.
    - apply Hfree, in_block_head.
    - exists z, p, y. unfold in_block in Hb. change (block_len 0) with 1. split_and!; [done|lia..]. }
  pose proof (block_len_S o) as HS. pose proof (block_len_pos o) as Hp.
  assert (Halx : (block_len o | x)) by (etransitivity; [apply (block_len_divide o (S o)); lia|done]).
  assert (Halu : (block_len o | x + block_len o)) by (by apply Z.divide_add_r; [|apply Z.divide_refl]).
  destruct (IH x) as (z1 & p1 & y1 & Hy1 & Hp1 & Hl1 & Hr1); [lia|done|done|lia| |].
  { intros f Hf. apply Hfree. unfold in_block in *. lia. }
  destruct (IH (x + block_len o)) as (z2 & p2 & y2 & Hy2 & Hp2 & Hl2 & Hr2); [lia|lia|done|lia| |].
  { intros f Hf. apply Hfree. unfold in_block in *. lia. }
  destruct (inv_elem _ _ _ _ I _ _ _ Hy1) as (_ & _ & _ & Ha1 & _).
  destruct (inv_elem _ _ _ _ I _ _ _ Hy2) as (_ & _ & _ & Ha2 & _).
  destruct (decide (p1 = o)) as [->|Hne1]; [destruct (decide (p2 = o)) as [->|Hne2]|].
  - exfalso. assert (y1 = x) as -> by lia. assert (y2 = x + block_len o) as -> by lia.
    apply (inv_max _ _ _ _ I z1 o x z2); [lia|done|]. by rewrite buddy_upper.
  - exists z2, p2, y2. destruct (block_nested x (S o) y2 p2 (x + block_len o)); unfold in_block;
      [lia|done|done|lia|lia|]. split_and!; [done|lia..].
  - exists z1, p1, y1. destruct (block_nested x (S o) y1 p1 x); unfold in_block;
      [lia|done|done|lia|lia|]. split_and!; [done|lia..].
Qed.

(** ** Allocation *)

Lemma find_source_spec n b z src :
  match find_source n b z src with
  | Some p => (src <= p < src + n)%nat /\ head_at b z p <> NONE
  | None => forall p, (src <= p < src + n)%nat -> head_at b z p = NONE
  end.
Proof.
  revert src. induction n as [|n IH]; intros src; cbn [find_source]; [lia|].
  destruct (head_at b z src =? NONE) eqn:Hh; bool_to_prop; [|lia].
  specialize (IH (S src)). destruct (find_source n b z (S src)) as [p|].
  - destruct IH. split; [lia|done].
  - intros p Hp. destruct (decide (p = src)) as [->|]; [done|]. apply IH. lia.
Qed.

(** What a successful allocation hands out. *)
Record hands_out (s : St) (order : nat) (zs : list Zone) (x : Z) (s' : St) : Prop := {
  out_range : 0 <= x /\ x + block_len order <= frame_count s;
  out_align : (block_len order | x);
  out_zone : zone_of x ∈ zs;
  out_was_free g : in_block g x order -> state s g = Free;
  out_count : frame_count s' = frame_count s;
  out_in g : in_block g x order -> state s' g = Allocated;
  out_other g : valid s g -> ~ in_block g x order -> state s' g = state s g;
  out_clean g : in_block g x order -> magic (node s' g) <> head_tag g;
  out_owned g : valid s g -> state s g <> Free -> node s' g = node s g;
}.

Lemma take_source_spec b s order z zs src :
  Wf b s -> (order <= src <= MAX_ORDER)%nat -> head_at b z src <> NONE -> z ∈ zs ->
  let x := head_at b z src in
  let '(b1, s1) := unlink b s x z src in
  let '(b2, s2) := split_loop (src - order) b1 s1 x order in
  let s3 := set_range s2 x (block_len order) Allocated in
  Wf b2 s3 /\ hands_out s order zs x s3.
Proof.
  intros [L I] Hsrc Hhd Hz x.
  assert (Hx : x ∈ L z src).
  { destruct (head_cases I z src ltac:(lia)) as [[_ ?]|(ys & HL & _)]; [done|].
    rewrite HL. set_solver. }
  clearbody x. clear Hhd. destruct (inv_elem _ _ _ _ I _ _ _ Hx) as (_ & <- & Hx0 & Hal & Hle).
  pose proof (unlink_inv I Hx) as I1. destruct (unlink_spec I Hx) as [B1 _].
  destruct (unlink b s x (zone_of x) src) as [b1 s1]. cbn [fst snd] in *.
  pose proof (split_loop_inv (src - order) b1 s1 _ _ x order ltac:(lia) I1) as Hs.
  replace (order + (src - order))%nat with src in Hs by lia.
  destruct (Hs Hal) as (L2 & I2 & B2); [intros f Hf; by right|]. clear Hs.
  destruct (split_loop (src - order) b1 s1 x order) as [b2 s2]. cbn [fst snd] in *.
  assert (B : same_bitmap s s2) by (by etransitivity).
  assert (Hsub : forall g, in_block g x order -> in_block g x src).
  { intros g. unfold in_block. pose proof (block_len_le order src ltac:(lia)). lia. }
  assert (I3 : Inv b2 s2 L2 (fun g => in_block g x order)).
  { eapply Inv_hole; [|exact I2]. intros g. cbv beta. pose proof (Hsub g). tauto. }
  assert (Hval : forall g, in_block g x order -> valid s g).
  { intros g Hg%Hsub. unfold valid, in_block in *. lia. }
  assert (R := set_range_spec s2 x (block_len order) Allocated
    (fun g Hg => proj2 (valid_same s s2 g B) (Hval g Hg))).
  split.
  - exists L2. eapply Inv_hole; [|apply (Inv_take _ _ _ _ _ _ _ _ I3 (fun g Hg => Hg)
      (ltac:(done) : Allocated <> Free) R)].
    intros g. unfold in_block. tauto.
  - destruct R as [C Sin Sout N]. constructor.
    + split; [done|]. pose proof (block_len_le order src ltac:(lia)). lia.
    + etransitivity; [apply (block_len_divide order src); lia|done].
    + done.
    + intros g Hg%Hsub. by eapply (inv_free _ _ _ _ I).
    + rewrite C. by apply same_count.
    + intros g Hg. apply Sin; [by apply (valid_same s s2), Hval|done].
    + intros g Hg Hn. rewrite Sout; [by apply same_state|by apply (valid_same s s2)|done].
    + intros g Hg Hm. rewrite N in Hm. destruct (inv_hole _ _ _ _ I3 g Hg) as [Hv Hf].
      destruct (inv_tag _ _ _ _ I3 g Hv Hf Hm) as (z' & p & Hin).
      by apply (listed_not_hole I3 _ _ _ _ Hin (in_block_head _ _)).
    + intros g Hg Hn. rewrite N. by apply same_owned.
Qed.

Lemma allocate_zones_spec b s order zs0 zs :
  Wf b s -> (order <= MAX_ORDER)%nat -> (forall z, z ∈ zs -> z ∈ zs0) ->
  match allocate_zones b s order zs with
  | (Some x, (b', s')) => Wf b' s' /\ hands_out s order zs0 x s'
  | (None, r) => r = (b, s) /\
      forall z p, z ∈ zs -> (order <= p <= MAX_ORDER)%nat -> head_at b z p = NONE
  end.
Proof.
  intros W Ho. induction zs as [|z zs IH]; intros Hsub; cbn [allocate_zones].
  { split; [done|]. set_solver. }
  pose proof (find_source_spec (S MAX_ORDER - order) b z order) as Hsrc.
  destruct (find_source (S MAX_ORDER - order) b z order) as [src|].
  - destruct Hsrc as [Hr Hh].
    pose proof (take_source_spec b s order z zs0 src W ltac:(lia) Hh) as Ht. cbv zeta in Ht.
    destruct (unlink b s (head_at b z src) z src) as [b1 s1].
    destruct (split_loop (src - order) b1 s1 (head_at b z src) order) as [b2 s2].
    apply Ht, Hsub. set_solver.
  - assert (Hs' : forall z, z ∈ zs -> z ∈ zs0) by set_solver. specialize (IH Hs').
    destruct (allocate_zones b s order zs) as [[x|] [b' s']]; [done|].
    destruct IH as [-> IH]. split; [done|]. intros z' p [->|Hz]%elem_of_cons Hp; [|by apply IH].
    apply Hsrc. lia.
Qed.

(** ** Building *)

Lemma build_wf s :
  0 <= frame_count s < FREE_MAGIC ->
  (forall f, valid s f -> state s f = Free -> magic (node s f) <> head_tag f) ->
  Wf (build s).1 (build s).2 /\ same_bitmap s (build s).2.
Proof.
  intros Hr Htag. unfold build.
  destruct (build_loop_inv (Z.to_nat (frame_count s)) new s (fun _ _ => []) 0) as (L & I & B).
  - lia.
  - lia.
  - by apply Inv_new.
  - intros z o y Hy. set_solver.
  - intros z o y Hy. set_solver.
  - split; [by exists L|done].
Qed.

(** ** Isolation *)

Lemma isolate_spec b s f :
  Wf b s -> valid s f -> state s f = Free ->
  exists b' s' L', isolate b s f = Some (true, (b', s')) /\
    Inv b' s' L' (fun g => g = f) /\ same_bitmap s s'.
Proof.
  intros [L I] Hv Hf. unfold isolate. replace (f >=? frame_count s) with false by (unfold valid in Hv; lia).
  rewrite Hf. cbn [state_eqb orb negb].
  destruct (inv_cover _ _ _ _ I f Hv Hf) as [[]|(z & o & x & Hx & Hb)].
  destruct (inv_elem _ _ _ _ I _ _ _ Hx) as (Ho & Hz & Hx0 & Hal & Hle).
  assert (Hbase : forall p, 0 <= block_base f p).
  { intros p. apply block_base_nonneg. unfold valid in Hv. lia. }
  destruct (List.find (fun o => is_free_head s (block_base f o) o) orders) as [p|] eqn:Hfind.
  - apply find_some in Hfind as [Hp Hh]. apply in_seq in Hp.
    apply (is_free_head_spec I) in Hh; [|done|lia].
    destruct (block_base_spec f p) as [Halp Hin].
    pose proof (unlink_inv I Hh) as I1. destruct (unlink_spec I Hh) as [B1 _].
    destruct (unlink b s (block_base f p) (zone_of (block_base f p)) p) as [b1 s1].
    cbn [fst snd] in *.
    destruct (isolate_split_inv p b1 s1 _ _ (block_base f p) f ltac:(lia) I1 Halp) as (L2 & I2 & B2);
      [intros g Hg; by right|done|].
    destruct (isolate_split p b1 s1 (block_base f p) f) as [b2 s2]. cbn [fst snd] in *.
    exists b2, s2, L2. split_and!; [done| |by etransitivity].
    eapply Inv_hole; [|exact I2]. intros g. cbv beta. split; [tauto|].
    intros ->. split; [by right|done].
  - exfalso. assert (Hno : is_free_head s (block_base f o) o = false).
    { apply (find_none _ _ Hfind o). apply in_seq. lia. }
    assert (block_base f o = x) as Hbx.
    { destruct (block_base_spec f o) as [Halp Hin].
      destruct (block_nested x o (block_base f o) o f); try done.
      destruct (block_nested (block_base f o) o x o f); try done. lia. }
    rewrite Hbx in Hno.
    assert (is_free_head s x o = true); [|congruence].
    apply (is_free_head_spec I); [done|done|]. by rewrite Hz.
Qed.

(** ** Handing back reserved memory *)

Lemma free_pieces_inv fuel b s L x fin :
  Inv b s L (fun _ => False) -> 0 <= x <= fin -> fin <= frame_count s ->
  (Z.to_nat (fin - x) <= fuel)%nat ->
  (forall g, x <= g < fin -> state s g = Reserved /\ magic (node s g) <> head_tag g) ->
  let r := free_pieces fuel b s x fin in
  Wf r.1 r.2 /\ freed s r.2 (fun g => x <= g < fin).
Proof.
  revert b s L x. induction fuel as [|fuel IH]; intros b s L x I Hx Hfin Hfuel Hres; cbn [free_pieces].
  { split; [by exists L|]. apply freed_refl. lia. }
  destruct (x <? fin) eqn:Hlt; bool_to_prop; [|split; [by exists L|apply freed_refl; lia]].
  destruct (block_order_spec x fin ltac:(lia)) as (Ho & Hal & Hfit & _).
  set (o := block_order x fin) in *. pose proof (block_len_pos o) as Hp.
  destruct (free_block_inv b s L _ x o Ho I Hal) as (L1 & I1 & F1).
  { intros g Hg. unfold valid, in_block in *. destruct (Hres g ltac:(lia)) as [-> _]. split; [lia|done]. }
  { intros g Hg. apply Hres. unfold in_block in *. lia. }
  destruct (coalesce_and_push b (set_range s x (block_len o) Free) x o) as [b1 s1]. cbn [fst snd] in *.
  destruct (IH b1 s1 L1 (x + block_len o) I1) as [W2 F2];
    [lia|by rewrite (freed_count _ _ _ F1)|lia| |].
  - intros g Hg. assert (Hs : state s1 g = Reserved).
    { rewrite (freed_out _ _ _ F1); [apply Hres; lia|unfold valid; lia|unfold in_block; lia]. }
    split; [done|]. rewrite (freed_owned _ _ _ F1) by (try (unfold valid; lia); congruence).
    apply Hres. lia.
  - cbv zeta. split; [done|]. eapply freed_trans; [exact F1|exact F2|].
    intros g _. unfold in_block. lia.
Qed.

(** The reserved frames of [x..fin]. *)
Definition reserved_in s (x fin : Z) (g : Z) : Prop := x <= g < fin /\ state s g = Reserved.

Lemma insert_reserved_loop_inv fuel b s x fin :
  Wf b s -> 0 <= x -> fin <= frame_count s -> (Z.to_nat (fin - x) <= fuel)%nat ->
  (forall g, reserved_in s x fin g -> magic (node s g) <> head_tag g) ->
  let r := insert_reserved_loop fuel b s x fin in
  Wf r.1 r.2 /\ freed s r.2 (reserved_in s x fin).
Proof.
  revert b s x. induction fuel as [|fuel IH]; intros b s x W Hx Hfin Hfuel Htag; cbn [insert_reserved_loop].
  { split; [done|]. apply freed_refl. unfold reserved_in. lia. }
  destruct (x <? fin) eqn:Hlt; bool_to_prop; [|split; [done|apply freed_refl; unfold reserved_in; lia]].
  unfold state_eqb. destruct (bool_decide (state s x = Reserved)) eqn:Hs; bool_to_prop.
  - destruct (run_end_spec (Z.to_nat (fin - x)) s x fin Reserved) as (Hr & Hres & _); [lia|lia|].
    pose proof (run_end_progress s x fin Reserved Hlt Hs) as Hprog. cbv zeta in *.
    set (stop := run_end _ s x fin Reserved) in *. destruct W as [L I].
    destruct (free_pieces_inv (Z.to_nat (stop - x)) b s L x stop I) as [W1 F1]; [lia|lia|lia| |].
    { intros g Hg. split; [by apply Hres|]. apply Htag. split; [lia|]. by apply Hres. }
    destruct (free_pieces (Z.to_nat (stop - x)) b s x stop) as [b1 s1]. cbn [fst snd] in *.
    assert (Hst : forall g, stop <= g < fin -> state s1 g = state s g).
    { intros g Hg. apply (freed_out _ _ _ F1); [unfold valid|]; lia. }
    destruct (IH b1 s1 stop W1) as [W2 F2]; [lia|by rewrite (freed_count _ _ _ F1)|lia| |].
    { intros g [Hg Hgs]. rewrite (freed_owned _ _ _ F1); [|unfold valid; lia|congruence].
      apply Htag. split; [lia|]. rewrite <- Hst by lia. done. }
    cbv zeta. split; [done|]. eapply freed_trans; [exact F1|exact F2|]. intros g Hg.
    unfold reserved_in. split.
    + intros [? Hgs]. destruct (Z.lt_ge_cases g stop); [left; lia|right].
      rewrite Hst by lia. split; [lia|done].
    + intros [?|[? Hgs]]; [split; [lia|apply Hres; lia]|].
      rewrite Hst in Hgs by lia. split; [lia|done].
  - destruct (IH b s (x + 1) W) as [W2 F2]; [lia|lia|lia| |].
    { intros g [? ?]. apply Htag. split; [lia|done]. }
    split; [done|]. destruct F2 as [C Fin Fout Fm Fo].
    assert (HP : forall g, reserved_in s x fin g <-> reserved_in s (x + 1) fin g).
    { intros g. unfold reserved_in. split; [|intuition lia].
      intros [? ?]. destruct (decide (g = x)) as [->|]; [done|]. split; [lia|done]. }
    constructor; try done; intros g; rewrite HP; auto.
Qed.
(** ** What each operation does to the bitmap *)

Lemma allocate_spec b s order zs :
  Wf b s ->
  match allocate b s order zs with
  | (Some x, (b', s')) => Wf b' s' /\ hands_out s order zs x s'
  | (None, r) => r = (b, s) /\
      ((order <= MAX_ORDER)%nat -> forall x, 0 <= x -> (block_len order | x) ->
        x + block_len order <= frame_count s -> zone_of x ∈ zs ->
        exists g, in_block g x order /\ state s g <> Free)
  end.
Proof.
  intros W. unfold allocate. destruct (MAX_ORDER <? order)%nat eqn:Ho.
  { apply Nat.ltb_lt in Ho. split; [done|]. lia. }
  apply Nat.ltb_ge in Ho.
  pose proof (allocate_zones_spec b s order zs zs W Ho (fun _ Hz => Hz)) as Ha.
  destruct (allocate_zones b s order zs) as [[x|] r]; [done|]. destruct Ha as [-> Hnone].
  split; [done|]. intros _ x Hx Hal Hle Hz.
  destruct (range_is s x (block_len order) Free) eqn:Hr.
  - exfalso. destruct W as [L I]. pose proof (proj1 (range_is_spec _ _ _ _) Hr) as Hfree.
    destruct (free_block_listed _ _ _ _ _ I Ho Hx Hal Hle Hfree) as (z & p & y & Hy & Hp & Hl & Hu).
    destruct (inv_elem _ _ _ _ I _ _ _ Hy) as (Hpm & <- & _ & Hay & _).
    destruct (head_cases I (zone_of y) p Hpm) as [[HL _]|(ys & _ & Hh)]; [rewrite HL in Hy; set_solver|].
    apply Hh, Hnone; [|lia]. rewrite <- (zone_block y p x Hpm Hay); [done|].
    unfold in_block. pose proof (block_len_pos order). lia.
  - destruct (decide (Exists (fun g => state s g <> Free) (frames x (block_len order)))) as [He|He].
    + apply Exists_exists in He as (g & Hg%elem_of_frames & Hs). by exists g.
    + exfalso. revert Hr. apply not_false_iff_true, range_is_spec. intros g Hg.
      destruct (decide (state s g = Free)); [done|]. destruct He. apply Exists_exists.
      exists g. by rewrite elem_of_frames.
Qed.

Lemma release_spec b s x o :
  Wf b s -> 0 <= x -> (forall g, in_block g x o -> magic (node s g) <> head_tag g) ->
  match release b s x o with
  | Ok (b', s') => Wf b' s' /\ freed s s' (fun g => in_block g x o) /\
      (o <= MAX_ORDER)%nat /\ (forall g, in_block g x o -> state s g = Allocated)
  | Err _ => ~ ((o <= MAX_ORDER)%nat /\ x + block_len o <= frame_count s /\
                (block_len o | x) /\ (forall g, in_block g x o -> state s g = Allocated))
  end.
Proof.
  intros [L I] Hx Htag. pose proof (inv_range _ _ _ _ I) as Hr.
  pose proof (release_ok_iff b s x o Hr Hx) as Hiff.
  destruct (release b s x o) as [[b' s']|e] eqn:Hrel.
  - destruct (proj1 Hiff ltac:(eauto)) as (Ho & Hle & Hal & Hall).
    assert (Hv : forall g, in_block g x o -> valid s g /\ state s g <> Free).
    { intros g Hg. rewrite Hall by done. unfold valid, in_block in *. split; [lia|done]. }
    destruct (free_block_inv b s L _ x o Ho I Hal Hv Htag) as (L' & I' & F).
    cbv zeta in I', F. rewrite <- (release_ok_eq _ _ _ _ _ Hrel) in I', F.
    split_and!; try done. by exists L'.
  - intros Hc. apply Hiff in Hc as [r Hr']. done.
Qed.

Lemma isolate_take b s f x :
  Wf b s -> valid s f -> state s f = Free -> x <> Free ->
  exists b' s', isolate b s f = Some (true, (b', s')) /\ same_bitmap s s' /\
    Wf b' (set_state s' f x).
Proof.
  intros W Hv Hf Hx. destruct (isolate_spec b s f W Hv Hf) as (b' & s' & L' & Heq & I & B).
  exists b', s'. split_and!; [done|done|]. exists L'.
  assert (Hv' : valid s' f) by (by apply (valid_same s s')).
  eapply Inv_hole; [|apply (Inv_take _ _ (set_state s' f x) _ _ f 1 x I); [lia|done|]].
  - intros g. cbv beta. intuition lia.
  - constructor.
    + apply frame_count_set_state.
    + intros g Hg Hr. assert (g = f) as -> by lia. by apply state_set_state_eq.
    + intros g Hg Hr. apply state_set_state_ne; [done..|lia].
    + intros g. by apply node_set_state.
Qed.

Lemma insert_reserved_spec b s x fin :
  Wf b s -> 0 <= x ->
  (forall g, reserved_in s x (Z.min fin (frame_count s)) g -> magic (node s g) <> head_tag g) ->
  let r := insert_reserved_range b s x fin in
  Wf r.1 r.2 /\ freed s r.2 (reserved_in s x (Z.min fin (frame_count s))).
Proof.
  intros W Hx Htag. unfold insert_reserved_range.
  apply insert_reserved_loop_inv; [done|done|lia|lia|done].
Qed.

Lemma roundtrip_spec b s order zs x b' s' :
  Wf b s -> allocate b s order zs = (Some x, (b', s')) ->
  exists b'' s'', release b' s' x order = Ok (b'', s'') /\ Wf b'' s'' /\
    frame_count s'' = frame_count s /\ (forall g, valid s g -> state s'' g = state s g).
Proof.
  intros W Ha. pose proof (allocate_zones_spec b s order zs zs W) as Hspec.
  unfold allocate in Ha. destruct (MAX_ORDER <? order)%nat eqn:Ho; [done|]. apply Nat.ltb_ge in Ho.
  specialize (Hspec Ho (fun _ Hz => Hz)). rewrite Ha in Hspec.
  destruct Hspec as [[L' I'] [[Hx Hle] Hal _ Hfree Hc Hin Hout Hclean _]].
  assert (Hv : forall g, in_block g x order -> valid s' g /\ state s' g <> Free).
  { intros g Hg. rewrite Hin by done. unfold valid, in_block in *. split; [lia|done]. }
  destruct (proj2 (release_ok_iff b' s' x order (inv_range _ _ _ _ I') Hx)) as [[b'' s''] Hr].
  { split_and!; [done|lia|done|done]. }
  destruct (free_block_inv b' s' L' _ x order Ho I' Hal Hv Hclean) as (L2 & I2 & F).
  cbv zeta in I2, F. rewrite <- (release_ok_eq _ _ _ _ _ Hr) in I2, F. exists b'', s''. cbn [fst snd] in *. split_and!; [done|by exists L2| |].
  - by rewrite (freed_count _ _ _ F).
  - intros g Hg. assert (Hg' : valid s' g) by (unfold valid; by rewrite Hc).
    destruct (decide (x <= g /\ g < x + block_len order)) as [Hb|Hb].
    + rewrite (freed_in _ _ _ F) by done. symmetry. by apply Hfree.
    + rewrite (freed_out _ _ _ F) by done. by apply Hout.
Qed.

(** A frame taken out of the lists carries no head tag. *)
Lemma isolate_untagged b s f b' s' ok :
  Wf b s -> valid s f -> state s f = Free -> isolate b s f = Some (ok, (b', s')) ->
  magic (node s' f) <> head_tag f.
Proof.
  intros W Hv Hf Hi Hm. destruct (isolate_spec b s f W Hv Hf) as (b1 & s1 & L' & Heq & I & B).
  rewrite Heq in Hi. simplify_eq.
  destruct (inv_tag _ _ _ _ I f) as (z & p & Hin); [by apply (valid_same s s')|by rewrite (same_state _ _ B)|done|].
  by apply (listed_not_hole I _ _ _ _ Hin (in_block_head _ _)).
Qed.

(** The owner of a frame may store anything in it. *)
Lemma Wf_write b s f n : Wf b s -> valid s f -> state s f <> Free -> Wf b (write_node s f n).
Proof.
  intros [L I] Hv Hf. exists L.
  assert (Hne : forall z o x, x ∈ L z o -> valid s x /\ f <> x).
  { intros z o x Hx. pose proof (inv_elem _ _ _ _ I _ _ _ Hx) as (_ & _ & ? & _ & ?).
    pose proof (block_len_pos o). split; [unfold valid; lia|]. intros ->.
    by destruct (inv_free _ _ _ _ I z o x x Hx (in_block_head _ _)). }
  assert (Hst : forall g, state (write_node s f n) g = state s g) by (intros; by apply state_write_node).
  destruct I as [[R Sh Ll Ln Nd] [Hel Hfr Hdis Hho Hcov Hmax] IT]. constructor.
  - constructor; rewrite ?frame_count_write_node; try done. intros z o Ho. eapply dseg_ext; [|by apply Ll].
    intros x Hx. destruct (Hne _ _ _ Hx). by apply node_write_node_ne.
  - constructor; unfold valid; rewrite ?frame_count_write_node; try done.
    + intros z o x g. rewrite Hst. apply Hfr.
    + intros g. rewrite Hst. apply Hcov.
  - intros g Hg. unfold valid in Hg. rewrite frame_count_write_node in Hg. rewrite Hst. intros Hs.
    rewrite node_write_node_ne; [by apply IT|done|done|]. intros ->. done.
Qed.

End Spec.

(** ** The contract *)

Section Contract.
Context {St : Type} `{FrameStoreLaws St}.
Implicit Types (b : BuddyLists) (s : St).

(** C14. [allocate] either hands out a naturally aligned block of free frames
    from one of the requested zones, marks exactly those frames allocated,
    leaves the lists well formed and touches no memory owned by others; or it
    changes nothing, and then no aligned block of that order was free in any
    requested zone (a failure is never due to fragmentation of the lists). *)
Theorem allocate_correct b s order zs :
  Wf b s ->
  match allocate b s order zs with
  | (Some x, (b', s')) => Wf b' s' /\ hands_out s order zs x s'
  | (None, r) => r = (b, s) /\
      ((order <= MAX_ORDER)%nat -> forall x, 0 <= x -> (block_len order | x) ->
        x + block_len order <= frame_count s -> zone_of x ∈ zs ->
        exists g, in_block g x order /\ state s g <> Free)
  end.
Proof. apply allocate_spec. Qed.

(** C15. [release] accepts exactly the aligned, in-range blocks whose frames
    are all allocated; it then frees exactly those frames, keeps the lists
    well formed (merging buddies) and touches no memory of frames that are
    still owned. Every other call is refused and changes nothing. The frames
    must not hold an image of their own head tag (nothing but [push] writes one). *)
Theorem release_correct b s x o :
  Wf b s -> 0 <= x -> (forall g, in_block g x o -> magic (node s g) <> head_tag g) ->
  match release b s x o with
  | Ok (b', s') => Wf b' s' /\ freed s s' (fun g => in_block g x o) /\
      (o <= MAX_ORDER)%nat /\ (forall g, in_block g x o -> state s g = Allocated)
  | Err _ => ~ ((o <= MAX_ORDER)%nat /\ x + block_len o <= frame_count s /\
                (block_len o | x) /\ (forall g, in_block g x o -> state s g = Allocated))
  end.
Proof. apply release_spec. Qed.

(** [build] turns any bitmap into well formed lists over it, without
    changing it and without writing to frames that are not free. *)
Theorem build_correct s :
  0 <= frame_count s < FREE_MAGIC ->
  (forall f, valid s f -> state s f = Free -> magic (node s f) <> head_tag f) ->
  Wf (build s).1 (build s).2 /\ same_bitmap s (build s).2.
Proof. apply build_wf. Qed.

(** Taking one free frame out of the lists never reaches the panic "free
    frame is not covered by any free block"; after the caller has given the
    frame an owner, the lists are well formed again. *)
Theorem isolate_correct b s f x :
  Wf b s -> valid s f -> state s f = Free -> x <> Free ->
  exists b' s', isolate b s f = Some (true, (b', s')) /\ same_bitmap s s' /\
    Wf b' (set_state s' f x).
Proof. apply isolate_take. Qed.

(** [insert_reserved_range] hands exactly the reserved frames of the
    range to the free pool and keeps the lists well formed. *)
Theorem insert_reserved_range_correct b s x fin :
  Wf b s -> 0 <= x ->
  (forall g, reserved_in s x (Z.min fin (frame_count s)) g -> magic (node s g) <> head_tag g) ->
  let r := insert_reserved_range b s x fin in
  Wf r.1 r.2 /\ freed s r.2 (reserved_in s x (Z.min fin (frame_count s))).
Proof. apply insert_reserved_spec. Qed.

(** Allocating a block and releasing it again restores the bitmap. *)
Theorem allocate_release_roundtrip b s order zs x b' s' :
  Wf b s -> allocate b s order zs = (Some x, (b', s')) ->
  exists b'' s'', release b' s' x order = Ok (b'', s'') /\ Wf b'' s'' /\
    frame_count s'' = frame_count s /\ (forall g, valid s g -> state s'' g = state s g).
Proof. apply roundtrip_spec. Qed.
End Contract.

(** * The lists account for every free frame

    [free_frames] and the self check [validate] of [kernel/src/mm/buddy.rs]:
    under the invariant the per-order counts add up to the number of free
    frames in the bitmap, and [validate] accepts. *)

Definition sumZ {A} (f : A -> Z) (l : list A) : Z := foldr Z.add 0 (f <$> l).

Lemma sumZ_bind_length {A B} (f : A -> list B) (l : list A) :
  Z.of_nat (length (l ≫= f)) = sumZ (fun x => Z.of_nat (length (f x))) l.
Proof.
  unfold sumZ. induction l as [|x l IH]; csimpl; [done|].
  rewrite length_app, Nat2Z.inj_add, IH. done.
Qed.

Lemma sumZ_ext {A} (f g : A -> Z) (l : list A) :
  (forall x, x ∈ l -> f x = g x) -> sumZ f l = sumZ g l.
Proof.
  unfold sumZ. induction l as [|x l IH]; intros Heq; csimpl; [done|].
  rewrite Heq by set_solver. f_equal. apply IH. set_solver.
Qed.

Lemma sumZ_const {A} (c : Z) (l : list A) : sumZ (fun _ => c) l = Z.of_nat (length l) * c.
Proof. unfold sumZ. induction l as [|x l IH]; csimpl; [done|]. rewrite IH. lia. Qed.

Definition zone_orders : list (Zone * nat) := z ← zones; o ← orders; [(z, o)].

Lemma zone_orders_NoDup : NoDup zone_orders.
Proof. apply (bool_decide_unpack _). vm_compute. done. Qed.

Lemma elem_of_zone_orders z o : (z, o) ∈ zone_orders <-> (o <= MAX_ORDER)%nat.
Proof.
  unfold zone_orders. rewrite list_elem_of_bind. setoid_rewrite list_elem_of_bind.
  setoid_rewrite list_elem_of_singleton. unfold orders. setoid_rewrite elem_of_seq. split.
  - intros (z' & (o' & [= -> ->] & ?) & _). lia.
  - intros Ho. exists z. split; [exists o; split; [done|lia]|]. destruct z; set_solver.
Qed.

Lemma zone_orders_fmap {A} (g : Zone -> nat -> A) :
  (z ← zones; o ← orders; [g z o]) = (fun '(z, o) => g z o) <$> zone_orders.
Proof. reflexivity. Qed.

Section Count.
Context {St : Type} `{FrameStoreLaws St}.
Implicit Types (b : BuddyLists) (s : St).

Definition free_list s : list Z :=
  List.filter (fun f => state_eqb (state s f) Free) (frames 0 (frame_count s)).

Lemma elem_of_free_list s f : f ∈ free_list s <-> valid s f /\ state s f = Free.
Proof.
  unfold free_list, state_eqb. rewrite list_elem_of_In, filter_In, <- list_elem_of_In,
    elem_of_frames, bool_decide_eq_true. unfold valid. intuition lia.
Qed.

Lemma free_list_NoDup s : NoDup (free_list s).
Proof.
  unfold free_list. apply NoDup_ListNoDup, List.NoDup_filter, NoDup_ListNoDup, NoDup_seqZ.
Qed.

Definition block_frames (L : Zone -> nat -> list Z) (zo : Zone * nat) : list Z :=
  x ← L zo.1 zo.2; frames x (block_len zo.2).

Lemma elem_of_block_frames L z o f :
  f ∈ block_frames L (z, o) <-> exists x, x ∈ L z o /\ in_block f x o.
Proof.
  unfold block_frames. rewrite list_elem_of_bind. simpl.
  setoid_rewrite elem_of_frames. unfold in_block. naive_solver.
Qed.

Lemma listed_frames_perm b s L :
  Inv b s L (fun _ => False) -> zone_orders ≫= block_frames L ≡ₚ free_list s.
Proof.
  intros I. apply NoDup_Permutation; [|apply free_list_NoDup|].
  - apply NoDup_bind; [| |apply zone_orders_NoDup].
    + intros [z o] [z' o'] f _ _ (x & Hx & Hf)%elem_of_block_frames (y & Hy & Hf')%elem_of_block_frames.
      destruct (inv_disj _ _ _ _ I _ _ _ _ _ _ f Hx Hy Hf Hf') as [-> ->].
      by destruct (listed_unique I _ _ _ _ _ Hx Hy) as [-> _].
    + intros [z o] _. apply NoDup_bind; [| |apply (inv_nodup _ _ _ _ I)].
      * intros x y f Hx Hy Hf%elem_of_frames Hf'%elem_of_frames.
        by destruct (inv_disj _ _ _ _ I _ _ _ _ _ _ f Hx Hy Hf Hf').
      * intros x _. apply NoDup_seqZ.
  - intros f. rewrite elem_of_free_list, list_elem_of_bind. split.
    + intros ([z o] & (x & Hx & Hf)%elem_of_block_frames & _).
      destruct (inv_elem _ _ _ _ I _ _ _ Hx) as (_ & _ & ? & _ & ?).
      split; [unfold valid, in_block in *; lia|]. by eapply (inv_free _ _ _ _ I).
    + intros [Hv Hs]. destruct (inv_cover _ _ _ _ I f Hv Hs) as [[]|(z & o & x & Hx & Hf)].
      exists (z, o). rewrite elem_of_block_frames, elem_of_zone_orders.
      split; [eauto|]. apply (inv_elem _ _ _ _ I _ _ _ Hx).
Qed.

Lemma listed_sum b s L :
  Inv b s L (fun _ => False) ->
  sumZ (fun '(z, o) => Z.shiftl (count b z o) (Z.of_nat o)) zone_orders
  = Z.of_nat (length (free_list s)).
Proof.
  intros I. rewrite <- (Permutation_length (listed_frames_perm b s L I)), sumZ_bind_length.
  apply sumZ_ext. intros [z o] Hzo%elem_of_zone_orders.
  rewrite (inv_len _ _ _ _ I) by done. unfold block_frames. simpl.
  rewrite sumZ_bind_length, (sumZ_ext _ (fun _ => block_len o)), sumZ_const.
  - rewrite Z.shiftl_mul_pow2 by lia. done.
  - intros x _. unfold frames. rewrite length_seqZ. pose proof (block_len_pos o). lia.
Qed.

Lemma list_length_bound b s L z o :
  Inv b s L (fun _ => False) -> Z.of_nat (length (L z o)) <= frame_count s.
Proof.
  intros I. assert (Hlen : (length (L z o) <= length (frames 0 (frame_count s)))%nat).
  { apply submseteq_length, NoDup_submseteq; [apply (inv_nodup _ _ _ _ I)|].
    intros x Hx. apply elem_of_frames. pose proof (listed_valid I _ _ _ Hx) as Hv.
    unfold valid in Hv. lia. }
  unfold frames in Hlen. rewrite length_seqZ in Hlen. destruct (inv_range _ _ _ _ I). lia.
Qed.

Lemma walk_list_ok b s L fuel z o pp p seen xs :
  Inv b s L (fun _ => False) -> (o <= MAX_ORDER)%nat -> (forall x, x ∈ xs -> x ∈ L z o) ->
  dseg s o pp p NONE xs -> (length xs <= fuel)%nat ->
  seen + Z.of_nat (length xs) <= frame_count s ->
  walk_list fuel s z o pp p seen = Ok (seen + Z.of_nat (length xs)).
Proof.
  intros I Ho. revert fuel pp p seen. induction xs as [|x xs IH]; intros fuel pp p seen Hin Hd Hfuel Hle.
  { simpl in Hd. subst p. destruct fuel; cbn [walk_list]; rewrite Z.eqb_refl; simpl; f_equal; lia. }
  destruct Hd as (-> & Hm & Hord & Hprev & Hd). cbn [length] in *.
  destruct fuel as [|fuel]; [lia|]. cbn [walk_list].
  assert (Hx : x ∈ L z o) by (apply Hin; set_solver).
  destruct (inv_elem _ _ _ _ I _ _ _ Hx) as (_ & Hz & _ & Hal & _).
  replace (x =? NONE) with false
    by (symmetry; apply Z.eqb_neq; by apply (valid_not_NONE I), (listed_valid I z o)).
  replace (seen + 1 >? frame_count s) with false by lia.
  rewrite (proj2 (is_multiple_of_divide x _ (block_len_pos o)) Hal), bool_decide_eq_true_2 by done.
  rewrite (proj2 (range_is_spec _ _ _ _) (fun g Hg => proj1 (inv_free _ _ _ _ I _ _ _ _ Hx Hg))).
  rewrite Hm, Hord, Hprev, !Z.eqb_refl. cbn [negb orb].
  rewrite IH; [f_equal; lia|set_solver|done|lia|lia].
Qed.

Lemma walk_lists_ok b s L todo listed :
  Inv b s L (fun _ => False) -> (forall z o, (z, o) ∈ todo -> (o <= MAX_ORDER)%nat) ->
  walk_lists b s todo listed
  = Ok (listed + sumZ (fun '(z, o) => Z.shiftl (count b z o) (Z.of_nat o)) todo).
Proof.
  intros I. revert listed. induction todo as [|[z o] todo IH]; intros listed Hin; cbn [walk_lists].
  { unfold sumZ. simpl. f_equal. lia. }
  assert (Ho : (o <= MAX_ORDER)%nat) by (apply (Hin z); set_solver).
  pose proof (list_length_bound b s L z o I).
  rewrite (walk_list_ok b s L _ z o NONE (head_at b z o) 0 (L z o) I Ho);
    [|done|by apply (inv_list _ _ _ _ I)|lia|lia].
  rewrite <- (inv_len _ _ _ _ I) by done. rewrite Z.add_0_l at 1. rewrite Z.eqb_refl. cbn [negb].
  rewrite IH by (intros z' o' Hzo; apply (Hin z'); set_solver).
  rewrite Z.add_0_l. unfold sumZ. csimpl. f_equal. lia.
Qed.

(** The counts of the lists add up to the number of free frames in the
    bitmap, which is what [free_frames] reports, and the self check
    [validate] (back links, tags, alignment, zones, counts, cover) accepts. *)
Theorem validate_accepts b s :
  Wf b s ->
  free_frames b = Z.of_nat (length (free_list s)) /\ validate b s = Ok tt.
Proof.
  intros [L I]. pose proof (listed_sum b s L I) as Hsum.
  split; [unfold free_frames; by rewrite zone_orders_fmap|].
  unfold validate. change (z ← zones; o ← orders; [(z, o)]) with zone_orders.
  rewrite (walk_lists_ok b s L zone_orders 0 I) by (intros z o; apply elem_of_zone_orders).
  rewrite Z.add_0_l, Hsum. fold (free_list s). by rewrite Z.eqb_refl.
Qed.
End Count.
