(* ===== verification/FrameMeta.v ===== *)
(** * FrameMeta: the kernel's frame store

    The ownership bitmap of [kernel/src/mm/frame.rs] ([Metadata]: two bits per
    frame, four frames per byte) and the [ArenaStore] that gives the buddy
    lists access to it and to the first bytes of every frame through the
    direct map. [ArenaStore] is shown to satisfy the laws of the [FrameStore]
    interface, so the contract of [BuddySpec.v] holds for the kernel's store.
    Concrete runs of the lists on it close the file. *)

From S2P Require Import Prelude Buddy BuddyInv BuddyOps BuddySpec.
From stdpp Require Import base list numbers sets gmap.
Local Open Scope Z_scope.

(** [State as u8]. *)
Definition state_bits (x : State) : Z :=
  match x with Reserved => 0 | Free => 1 | Allocated => 2 end.

(** The bytes of the bitmap (absent: the zero the arena is cleared to), and
    the first bytes of every frame. *)
Record ArenaStore : Type := mkArena {
  arena_frames : Z;
  arena_bytes : gmap Z Z;
  arena_nodes : gmap Z FreeNode;
}.

Definition meta_byte (s : ArenaStore) (i : Z) : Z := default 0 (arena_bytes s !! i).

Definition meta_state (s : ArenaStore) (frame : Z) : State :=
  let shift := Z.land frame 3 * 2 in
  match Z.land (Z.shiftr (meta_byte s (frame / 4)) shift) 3 with
  | 1 => Free
  | 2 => Allocated
  | _ => Reserved
  end.

Definition meta_set_state (s : ArenaStore) (frame : Z) (x : State) : ArenaStore :=
  let shift := Z.land frame 3 * 2 in
  let byte := meta_byte s (frame / 4) in
  mkArena (arena_frames s)
    (<[frame / 4 := Z.lor (Z.ldiff byte (Z.shiftl 3 shift)) (Z.shiftl (state_bits x) shift)]>
       (arena_bytes s))
    (arena_nodes s).

Definition zero_node : FreeNode := mkNode 0 0 0 0 0.

#[export] Instance arena_store : FrameStore ArenaStore := {|
  frame_count := arena_frames;
  state := meta_state;
  set_state := meta_set_state;
  node s f := default zero_node (arena_nodes s !! f);
  write_node s f n := mkArena (arena_frames s) (arena_bytes s) (<[f := n]> (arena_nodes s));
|}.

(** ** Two-bit fields *)

Lemma land_3 f : Z.land f 3 = f mod 4.
Proof. change 3 with (Z.ones 2). by rewrite Z.land_ones by lia. Qed.

Lemma testbit_3_out i : i < 0 \/ 2 <= i -> Z.testbit 3 i = false.
Proof.
  intros [Hi|Hi]; [by apply Z.testbit_neg_r|]. apply Z.bits_above_log2; [lia|].
  change (Z.log2 3) with 1. lia.
Qed.

(** Reading back the field just written. *)
Lemma field_same byte v shift :
  0 <= shift -> 0 <= v < 4 ->
  Z.land (Z.shiftr (Z.lor (Z.ldiff byte (Z.shiftl 3 shift)) (Z.shiftl v shift)) shift) 3 = v.
Proof.
  intros Hs Hv. rewrite Z.shiftr_lor, Z.shiftr_ldiff, !Z.shiftr_shiftl_l by lia.
  rewrite Z.sub_diag, !Z.shiftl_0_r, Z.land_lor_distr_l.
  replace (Z.land (Z.ldiff (Z.shiftr byte shift) 3) 3) with 0.
  - rewrite Z.lor_0_l. change 3 with (Z.ones 2). rewrite Z.land_ones by lia.
    apply Z.mod_small. lia.
  - apply Z.bits_inj'. intros i Hi. rewrite Z.land_spec, Z.ldiff_spec, Z.bits_0.
    by destruct (Z.testbit 3 i), (Z.testbit (Z.shiftr byte shift) i).
Qed.

(** Other fields of the byte keep their value. *)
Lemma field_other byte v shift shift' :
  0 <= shift -> 0 <= shift' -> 0 <= v < 4 -> shift' + 2 <= shift \/ shift + 2 <= shift' ->
  Z.land (Z.shiftr (Z.lor (Z.ldiff byte (Z.shiftl 3 shift)) (Z.shiftl v shift)) shift') 3
  = Z.land (Z.shiftr byte shift') 3.
Proof.
  intros Hs Hs' Hv Hd. apply Z.bits_inj'. intros i Hi.
  rewrite !Z.land_spec, !Z.shiftr_spec, Z.lor_spec, Z.ldiff_spec by lia.
  destruct (decide (i < 2)) as [Hi2|Hi2]; [|rewrite testbit_3_out by lia; by rewrite !andb_false_r].
  rewrite !Z.shiftl_spec by lia.
  assert (Hv3 : Z.testbit v (i + shift' - shift) = false).
  { replace v with (Z.land v 3).
    - rewrite Z.land_spec, (testbit_3_out (i + shift' - shift)) by lia. by rewrite andb_false_r.
    - rewrite land_3. apply Z.mod_small. lia. }
  rewrite Hv3, (testbit_3_out (i + shift' - shift)) by lia.
  by rewrite orb_false_r, andb_true_r.
Qed.

Lemma state_of_bits x :
  match state_bits x with 1 => Free | 2 => Allocated | _ => Reserved end = x.
Proof. by destruct x. Qed.

Lemma meta_byte_set s f x i :
  meta_byte (meta_set_state s f x) i =
  if decide (f / 4 = i) then
    Z.lor (Z.ldiff (meta_byte s (f / 4)) (Z.shiftl 3 (Z.land f 3 * 2)))
          (Z.shiftl (state_bits x) (Z.land f 3 * 2))
  else meta_byte s i.
Proof.
  unfold meta_byte at 1. cbn [meta_set_state arena_bytes]. rewrite lookup_insert. by case_decide.
Qed.

Lemma meta_state_set s f g x :
  meta_state (meta_set_state s f x) g = if decide (f = g) then x else meta_state s g.
Proof.
  unfold meta_state. rewrite meta_byte_set.
  assert (Hx : 0 <= state_bits x < 4) by (destruct x; simpl; lia).
  pose proof (Z.mod_pos_bound f 4 ltac:(lia)). pose proof (Z.mod_pos_bound g 4 ltac:(lia)).
  destruct (decide (f = g)) as [<-|Hne].
  - rewrite decide_True by done. rewrite field_same; [apply state_of_bits| |done].
    rewrite land_3. lia.
  - destruct (decide (f / 4 = g / 4)) as [Hq|Hq]; [|done].
    rewrite field_other; [by rewrite Hq|rewrite land_3; lia..|done|].
    rewrite !land_3. assert (f mod 4 <> g mod 4); [|lia].
    pose proof (Z.div_mod f 4 ltac:(lia)). pose proof (Z.div_mod g 4 ltac:(lia)). lia.
Qed.

#[export] Instance arena_laws : FrameStoreLaws ArenaStore.
Proof.
  constructor; try done.
  - intros s f x _. cbn [state set_state arena_store]. rewrite meta_state_set. by rewrite decide_True.
  - intros s f g x _ _ Hne. cbn [state set_state arena_store]. rewrite meta_state_set.
    by rewrite decide_False.
  - intros s f n _. cbn. by rewrite lookup_insert_eq.
  - intros s f g n _ _ Hne. cbn. by rewrite lookup_insert_ne.
Qed.

(** Every bitmap byte is a [u8]. *)
Definition bytes_ok (s : ArenaStore) : Prop := forall i, 0 <= meta_byte s i < 256.

Lemma bits_lt_256 a : 0 <= a -> (forall i, 8 <= i -> Z.testbit a i = false) -> a < 256.
Proof.
  intros Ha Hb. destruct (Z.lt_ge_cases a 256) as [|Hge]; [done|exfalso].
  assert (Hl : 8 <= Z.log2 a) by (apply Z.log2_le_pow2; lia).
  specialize (Hb (Z.log2 a) Hl). rewrite Z.bit_log2 in Hb by lia. done.
Qed.

Lemma bits_of_byte a i : 0 <= a < 256 -> 8 <= i -> Z.testbit a i = false.
Proof.
  intros Ha Hi. destruct (decide (a = 0)) as [->|]; [apply Z.bits_0|].
  apply Z.bits_above_log2; [lia|]. assert (Z.log2 a < 8) by (apply Z.log2_lt_pow2; lia). lia.
Qed.

Lemma bytes_ok_set s f x : bytes_ok s -> bytes_ok (meta_set_state s f x).
Proof.
  intros Hok i. rewrite meta_byte_set. case_decide; [|done].
  pose proof (Hok (f / 4)) as Hb. rewrite land_3. pose proof (Z.mod_pos_bound f 4 ltac:(lia)).
  assert (Hx : 0 <= state_bits x < 4) by (destruct x; simpl; lia).
  assert (Hnn : 0 <= Z.lor (Z.ldiff (meta_byte s (f / 4)) (Z.shiftl 3 (f mod 4 * 2)))
                 (Z.shiftl (state_bits x) (f mod 4 * 2))).
  { apply Z.lor_nonneg. split; [apply Z.ldiff_nonneg; left; lia|apply Z.shiftl_nonneg; lia]. }
  split; [done|]. apply bits_lt_256; [done|]. intros j Hj.
  rewrite Z.lor_spec, Z.ldiff_spec, (bits_of_byte (meta_byte s (f / 4))) by done. cbn [andb orb].
  rewrite Z.shiftl_spec by lia. replace (state_bits x) with (Z.land (state_bits x) 3).
  - rewrite Z.land_spec, testbit_3_out by lia. by rewrite andb_false_r.
  - rewrite land_3. by apply Z.mod_small.
Qed.

(** The packed bitmap and the direct map implement the store the buddy
    lists rely on: the four frames that share a byte do not disturb each
    other, list nodes and ownership are independent, and the bytes stay bytes. *)
Theorem arena_store_correct :
  FrameStoreLaws ArenaStore /\
  (forall s f x, bytes_ok s -> bytes_ok (meta_set_state s f x)).
Proof. split; [apply arena_laws|apply bytes_ok_set]. Qed.

(** ** Runs on a small machine *)

(** Sixty-four frames: the first and the last two reserved, the rest free. *)
Definition demo : ArenaStore := set_range (mkArena 64 ∅ ∅) 1 61 Free.
Definition demo_built : BuddyLists * ArenaStore := build demo.

Lemma demo_wf : Wf demo_built.1 demo_built.2.
Proof.
  apply build_wf; [vm_compute; done|]. intros f Hf _. cbn [node arena_store].
  change (arena_nodes demo) with (∅ : gmap Z FreeNode). rewrite lookup_empty.
  simpl. intros Hm. symmetry in Hm. revert Hm. apply head_tag_nonzero.
  unfold valid in Hf. cbn [frame_count arena_store] in Hf. change (arena_frames demo) with 64 in Hf.
  unfold FREE_MAGIC. lia.
Qed.

Example demo_free : free_frames demo_built.1 = 61 /\ largest_order demo_built.1 = Some 4%nat.
Proof. by vm_compute. Qed.

(** The same machine with frames 8 to 11 allocated before the lists are built. *)
Definition demo_used : ArenaStore := set_range demo 8 4 Allocated.
Definition demo_used_built : BuddyLists * ArenaStore := build demo_used.

Lemma zero_untagged f : 0 <= f < 64 -> magic zero_node <> head_tag f.
Proof.
  intros Hf Hm. symmetry in Hm. revert Hm. apply head_tag_nonzero. unfold FREE_MAGIC. lia.
Qed.

Lemma demo_used_wf :
  Wf demo_used_built.1 demo_used_built.2 /\ same_bitmap demo_used demo_used_built.2.
Proof.
  apply build_wf; [vm_compute; done|]. intros f Hf _. cbn [node arena_store].
  change (arena_nodes demo_used) with (∅ : gmap Z FreeNode). rewrite lookup_empty. simpl.
  apply zero_untagged. exact Hf.
Qed.

(** Frames that are not free still hold what they held before the build. *)
Lemma demo_used_untagged f :
  0 <= f < 64 -> state demo_used f <> Free ->
  magic (node demo_used_built.2 f) <> head_tag f.
Proof.
  intros Hf Hs. rewrite (same_owned _ _ (proj2 demo_used_wf) f Hf Hs). cbn [node arena_store].
  change (arena_nodes demo_used) with (∅ : gmap Z FreeNode). rewrite lookup_empty. simpl.
  by apply zero_untagged.
Qed.

Lemma allocate_correct_witness :
  (allocate demo_built.1 demo_built.2 2 [Normal; Dma32]).1 = Some 56 /\
  match allocate demo_built.1 demo_built.2 2 [Normal; Dma32] with
  | (Some x, (b', s')) => Wf b' s' /\ hands_out demo_built.2 2 [Normal; Dma32] x s'
  | (None, r) => r = demo_built /\
      ((2 <= MAX_ORDER)%nat -> forall x, 0 <= x -> (block_len 2 | x) ->
        x + block_len 2 <= frame_count demo_built.2 -> zone_of x ∈ [Normal; Dma32] ->
        exists g, in_block g x 2 /\ state demo_built.2 g <> Free)
  end.
Proof.
  split; [vm_compute; reflexivity|].
  exact (allocate_correct demo_built.1 demo_built.2 2 [Normal; Dma32] demo_wf).
Defined.

Lemma release_correct_witness :
  is_ok (release demo_used_built.1 demo_used_built.2 8 2) = true /\
  match release demo_used_built.1 demo_used_built.2 8 2 with
  | Ok (b', s') => Wf b' s' /\ freed demo_used_built.2 s' (fun g => in_block g 8 2) /\
      (2 <= MAX_ORDER)%nat /\ (forall g, in_block g 8 2 -> state demo_used_built.2 g = Allocated)
  | Err _ => True
  end.
Proof.
  split; [vm_compute; reflexivity|].
  assert (Htag : forall g, in_block g 8 2 -> magic (node demo_used_built.2 g) <> head_tag g).
  { intros g Hg. unfold in_block in Hg. change (block_len 2) with 4 in Hg.
    apply demo_used_untagged; [lia|].
    assert (g = 8 \/ g = 9 \/ g = 10 \/ g = 11) as [->|[->|[->| ->]]] by lia; vm_compute; discriminate. }
  pose proof (release_correct demo_used_built.1 demo_used_built.2 8 2
    (proj1 demo_used_wf) ltac:(lia) Htag) as Hrel.
  destruct (release demo_used_built.1 demo_used_built.2 8 2) as [[b' s']|e]; [exact Hrel|exact Logic.I].
Defined.

Lemma build_correct_witness : Wf demo_built.1 demo_built.2 /\ same_bitmap demo demo_built.2.
Proof.
  apply (build_correct demo); [vm_compute; done|]. intros f Hf _. cbn [node arena_store].
  change (arena_nodes demo) with (∅ : gmap Z FreeNode). rewrite lookup_empty. simpl.
  apply zero_untagged. exact Hf.
Defined.

Lemma isolate_correct_witness :
  exists b' s', isolate demo_built.1 demo_built.2 21 = Some (true, (b', s')) /\
    same_bitmap demo_built.2 s' /\ Wf b' (set_state s' 21 Reserved).
Proof.
  apply (isolate_correct demo_built.1 demo_built.2 21 Reserved demo_wf).
  - vm_compute. split; [discriminate|reflexivity].
  - vm_compute. reflexivity.
  - discriminate.
Defined.

Lemma insert_reserved_range_correct_witness :
  let r := insert_reserved_range demo_used_built.1 demo_used_built.2 0 100 in
  Wf r.1 r.2 /\ freed demo_used_built.2 r.2 (reserved_in demo_used_built.2 0 64) /\
  free_frames r.1 = 60.
Proof.
  pose proof (insert_reserved_range_correct demo_used_built.1 demo_used_built.2 0 100
    (proj1 demo_used_wf) ltac:(lia)) as Hins.
  destruct Hins as [W F].
  - intros g [Hg Hs]. change (Z.min 100 (frame_count demo_used_built.2)) with 64 in Hg.
    apply demo_used_untagged; [exact Hg|].
    rewrite <- (same_state _ _ (proj2 demo_used_wf) g Hg). congruence.
  - cbv zeta. split; [exact W|]. split; [exact F|]. vm_compute. reflexivity.
Defined.

Lemma allocate_release_roundtrip_witness :
  let r := allocate demo_built.1 demo_built.2 3 [Dma32] in
  r.1 = Some 48 /\
  exists b'' s'', release r.2.1 r.2.2 48 3 = Ok (b'', s'') /\ Wf b'' s'' /\
    frame_count s'' = frame_count demo_built.2 /\
    (forall g, valid demo_built.2 g -> state s'' g = state demo_built.2 g).
Proof.
  assert (Hx : (allocate demo_built.1 demo_built.2 3 [Dma32]).1 = Some 48)
    by (vm_compute; reflexivity).
  cbv zeta. split; [exact Hx|].
  apply (allocate_release_roundtrip demo_built.1 demo_built.2 3 [Dma32] 48).
  - exact demo_wf.
  - rewrite <- Hx. destruct (allocate demo_built.1 demo_built.2 3 [Dma32]) as [o [b' s']].
    reflexivity.
Defined.

Lemma validate_accepts_witness :
  free_frames demo_built.1 = Z.of_nat (length (free_list demo_built.2)) /\
  validate demo_built.1 demo_built.2 = Ok tt.
Proof. exact (validate_accepts demo_built.1 demo_built.2 demo_wf). Defined.
