(* ===== verification/Holds.v ===== *)
(** * Holds: boot-time frame holds

    Models [kernel/src/mm/holds.rs]: a fixed table of frame ranges that were
    taken out of the free pool during boot and go back to it later. A
    permanent reservation is punched out of every hold. The theorems give the
    table a set view ([held]) and show that punching never keeps or invents a
    frame, also when the table is full. *)

From S2P Require Import Prelude.
From stdpp Require Import base list numbers sets.
Local Open Scope Z_scope.

Definition MAX_HOLD_RANGES : nat := 32.

(** [HoldId] wraps a [u32]; the counter is unbounded here, as a boot takes far
    fewer than [2 ^ 32] holds. *)
Record Range : Type := mkRange { range_id : Z; range_first : Z; range_last : Z }.

Record HoldTable : Type := mkHolds {
  ranges : list (option Range);
  next_id : Z;
}.

Definition holds_new : HoldTable := mkHolds (replicate MAX_HOLD_RANGES None) 0.

Definition new_id (t : HoldTable) : Z * HoldTable :=
  (next_id t + 1, mkHolds (ranges t) (next_id t + 1)).

(** Index of the first free slot. *)
Fixpoint find_none (l : list (option Range)) : option nat :=
  match l with
  | [] => None
  | None :: _ => Some 0%nat
  | Some _ :: l => S <$> find_none l
  end.

Definition add (t : HoldTable) (id first last : Z) : bool * HoldTable :=
  if first >=? last then (true, t) else
  match find_none (ranges t) with
  | Some i => (true, mkHolds (<[i := Some (mkRange id first last)]> (ranges t)) (next_id t))
  | None => (false, t)
  end.

(** One iteration of the loop of [punch], at slot [index]. *)
Definition punch_step (first last : Z) (acc : bool * HoldTable) (index : nat) : bool * HoldTable :=
  let '(complete, t) := acc in
  match ranges t !! index with
  | Some (Some range) =>
      if (range_last range <=? first) || (last <=? range_first range) then (complete, t) else
      let left := if range_first range <? first then Some (range_first range, first) else None in
      let right := if last <? range_last range then Some (last, range_last range) else None in
      let piece := match left with Some p => Some p | None => right end in
      let t := mkHolds (<[index := (fun p => mkRange (range_id range) p.1 p.2) <$> piece]> (ranges t))
                 (next_id t) in
      match left, right with
      | Some _, Some (f, l) =>
          let '(ok, t) := add t (range_id range) f l in (complete && ok, t)
      | _, _ => (complete, t)
      end
  | _ => (complete, t)
  end.
Definition punch (t : HoldTable) (first last : Z) : bool * HoldTable :=
  foldl (punch_step first last) (true, t) (seq 0 MAX_HOLD_RANGES).

(** [release], with the closure as a state transformer on [S]. *)
Fixpoint release_slots {S : Type} (id : Z) (release : S -> Z -> Z -> S)
    (l : list (option Range)) (s : S) : list (option Range) * S :=
  match l with
  | [] => ([], s)
  | Some range :: l =>
      if range_id range =? id then
        let '(l', s') := release_slots id release l (release s (range_first range) (range_last range)) in
        (None :: l', s')
      else let '(l', s') := release_slots id release l s in (Some range :: l', s')
  | None :: l => let '(l', s') := release_slots id release l s in (None :: l', s')
  end.
Definition release_table {S : Type} (t : HoldTable) (id : Z) (release : S -> Z -> Z -> S) (s : S)
  : HoldTable * S :=
  let '(l, s) := release_slots id release (ranges t) s in (mkHolds l (next_id t), s).

Definition held_frames (t : HoldTable) : Z :=
  foldr (fun slot n => match slot with
                       | Some r => range_last r - range_first r + n
                       | None => n
                       end) 0 (ranges t).

(** ** The set view *)

(** Slot [i] holds frame [f] for hold [id]. *)
Definition slot_holds (t : HoldTable) (i : nat) (id f : Z) : Prop :=
  exists r, ranges t !! i = Some (Some r) /\ range_id r = id /\ range_first r <= f < range_last r.
Definition held (t : HoldTable) (id f : Z) : Prop := exists i, slot_holds t i id f.

(** Ids were issued, ranges are non-empty and no frame is held twice. *)
Record holds_wf (t : HoldTable) : Prop := {
  wf_slots : length (ranges t) = MAX_HOLD_RANGES;
  wf_id : forall id f, held t id f -> id <= next_id t;
  wf_once : forall i j id id' f, slot_holds t i id f -> slot_holds t j id' f -> i = j;
}.

Lemma find_none_spec l :
  match find_none l with
  | Some i => l !! i = Some None
  | None => forall i, l !! i <> Some None
  end.
Proof.
  induction l as [|[r|] l IH]; simpl; [by intros i; rewrite lookup_nil| |done].
  destruct (find_none l) as [i|]; simpl; [done|]. intros [|i]; simpl; [done|apply IH].
Qed.

(** Writing one slot replaces what it held. *)
Lemma slot_holds_insert t n i slot j id f :
  ranges t !! i <> None ->
  slot_holds (mkHolds (<[i := slot]> (ranges t)) n) j id f <->
  (j <> i /\ slot_holds t j id f) \/
  (j = i /\ exists r, slot = Some r /\ range_id r = id /\ range_first r <= f < range_last r).
Proof.
  intros Hi. unfold slot_holds. cbn [ranges]. destruct (decide (j = i)) as [->|Hne].
  - rewrite list_lookup_insert_eq by (apply lookup_lt_is_Some_1; destruct (ranges t !! i); eauto; done).
    split.
    + intros (r & [= Hr] & Hid & Hf). right. split; [done|]. by exists r.
    + intros [[? _]|(_ & r & -> & Hid & Hf)]; [done|]. by exists r.
  - rewrite list_lookup_insert_ne by done. split.
    + intros Hs. by left.
    + intros [[_ ?]|[? _]]; done.
Qed.

Lemma slot_holds_next t n i id f : slot_holds (mkHolds (ranges t) n) i id f <-> slot_holds t i id f.
Proof. done. Qed.

(** [add] records the range, or reports that the table is full. *)
Lemma add_spec t id first last j id' f :
  slot_holds (add t id first last).2 j id' f <->
  slot_holds t j id' f \/
  ((add t id first last).1 = true /\ first < last /\ find_none (ranges t) = Some j /\
   id' = id /\ first <= f < last).
Proof.
  unfold add. destruct (first >=? last) eqn:Hfl; bool_to_prop; [cbn; intuition lia|].
  pose proof (find_none_spec (ranges t)) as Hn. destruct (find_none (ranges t)) as [i|]; cbn [fst snd].
  - rewrite slot_holds_insert by (by rewrite Hn). split.
    + intros [[_ Hs]|(-> & r & [= <-] & Hid & Hf)]; [by left|]. right. cbn in *. intuition.
    + intros [Hs|(_ & _ & [= ->] & -> & Hf)].
      * left. split; [|done]. intros ->. destruct Hs as (r & Hr & _). congruence.
      * right. split; [done|]. eexists. split; [done|]. done.
  - intuition; try done.
Qed.

Lemma add_length t id first last :
  length (ranges (add t id first last).2) = length (ranges t) /\
  next_id (add t id first last).2 = next_id t.
Proof.
  unfold add. case_if; [done|]. destruct (find_none (ranges t)); cbn; [|done].
  by rewrite length_insert.
Qed.

(** ** Punching one slot *)

(** After the step at slot [k], a frame of [k] is in [k] (left piece, or the
    only piece) or in the slot [moved] that the right piece was added to. *)
Record step_result (first last : Z) (k : nat) (t : HoldTable) (ok : bool) (moved : option nat)
    (t' : HoldTable) : Prop := {
  step_len : length (ranges t') = length (ranges t);
  step_next : next_id t' = next_id t;
  step_sound j id f : slot_holds t' j id f ->
    slot_holds t j id f \/ (moved = Some j /\ slot_holds t k id f /\ last <= f);
  step_moved j id f : moved = Some j -> slot_holds t' k id f -> f < first;
  step_out id f : slot_holds t' k id f -> ~ (first <= f < last);
  step_keep j id f : j <> k -> slot_holds t j id f -> slot_holds t' j id f;
  step_full id f : ok = true -> slot_holds t k id f -> ~ (first <= f < last) -> held t' id f;
}.

Lemma step_unchanged first last k t :
  (forall id f, slot_holds t k id f -> ~ (first <= f < last)) ->
  step_result first last k t true None t.
Proof. intros Hno. constructor; try done; [by left|]. intros id f _ Hs _. by exists k. Qed.

(** The slot keeps one piece (or nothing); no frame outside the hole is lost. *)
Lemma step_replace first last k t r piece :
  ranges t !! k = Some (Some r) ->
  (forall f, match piece with Some p => p.1 <= f < p.2 | None => False end <->
             range_first r <= f < range_last r /\ ~ (first <= f < last)) ->
  step_result first last k t true None
    (mkHolds (<[k := (fun p => mkRange (range_id r) p.1 p.2) <$> piece]> (ranges t)) (next_id t)).
Proof.
  intros Hk Hp. assert (Hin : forall id f, slot_holds t k id f <->
    range_id r = id /\ range_first r <= f < range_last r).
  { intros id f. unfold slot_holds. rewrite Hk. split; [by intros (? & [= <-] & ?)|]. intros. by exists r. }
  set (t' := mkHolds _ _).
  assert (Hs : forall j id f, slot_holds t' j id f <->
    (j <> k /\ slot_holds t j id f) \/ (j = k /\ slot_holds t k id f /\ ~ (first <= f < last))).
  { intros j id f. unfold t'. rewrite slot_holds_insert by congruence. rewrite Hin.
    specialize (Hp f). destruct piece as [[x y]|]; simpl in *; split.
    - intros [?|(-> & ? & [= <-] & Hid & Hf)]; [by left|right]. simpl in *. intuition.
    - intros [?|(-> & [Hid Hf] & Hn)]; [by left|right]. split; [done|]. eexists. split; [done|]. simpl. intuition.
    - intros [?|(-> & ? & ? & _)]; [by left|done].
    - intros [?|(-> & [Hid Hf] & Hn)]; [by left|]. exfalso. intuition. }
  constructor; try done.
  - simpl. by rewrite length_insert.
  - intros j id f [[_ ?]|(-> & ? & _)]%Hs; by left.
  - intros id f [[? _]|(_ & _ & ?)]%Hs; done.
  - intros j id f Hne ?. apply Hs. by left.
  - intros id f _ ? ?. exists k. apply Hs. by right.
Qed.

(** The hole is inside the range: the left piece stays, the right one is added. *)
Lemma step_split first last k t r :
  ranges t !! k = Some (Some r) -> range_first r < first -> first <= last -> last < range_last r ->
  let t1 := mkHolds (<[k := Some (mkRange (range_id r) (range_first r) first)]> (ranges t)) (next_id t) in
  let a := add t1 (range_id r) last (range_last r) in
  exists moved, step_result first last k t a.1 moved a.2.
Proof.
  intros Hk Hl Hfl Hr t1 a.
  assert (Hin : forall id f, slot_holds t k id f <->
    range_id r = id /\ range_first r <= f < range_last r).
  { intros id f. unfold slot_holds. rewrite Hk. split; [by intros (? & [= <-] & ?)|]. intros. by exists r. }
  assert (Hs1 : forall j id f, slot_holds t1 j id f <->
    (j <> k /\ slot_holds t j id f) \/ (j = k /\ range_id r = id /\ range_first r <= f < first)).
  { intros j id f. unfold t1. rewrite slot_holds_insert by congruence. split.
    - intros [?|(-> & ? & [= <-] & ?)]; [by left|by right].
    - intros [?|(-> & ?)]; [by left|right]. split; [done|]. by eexists. }
  pose proof (fun j id f => add_spec t1 (range_id r) last (range_last r) j id f) as Ha.
  fold a in Ha. destruct (add_length t1 (range_id r) last (range_last r)) as [Hlen Hnext].
  fold a in Hlen, Hnext.
  assert (Hk1 : find_none (ranges t1) <> Some k).
  { intros Hf. pose proof (find_none_spec (ranges t1)) as Hn. rewrite Hf in Hn. unfold t1 in Hn. simpl in Hn.
    rewrite list_lookup_insert_eq in Hn; [done|]. by eapply lookup_lt_Some. }
  exists (find_none (ranges t1)). constructor.
  - rewrite Hlen. simpl. by rewrite length_insert.
  - by rewrite Hnext.
  - intros j id f [[[_ ?]|(-> & ? & ?)]%Hs1|(_ & _ & Hm & -> & ?)]%Ha; [by left| |].
    + left. apply Hin. split; [done|lia].
    + right. split_and!; [done| |lia]. apply Hin. split; [done|lia].
  - intros j id f _ [[[? _]|(_ & _ & ?)]%Hs1|(_ & _ & Hm & _)]%Ha; [done|lia|done].
  - intros id f [[[? _]|(_ & _ & ?)]%Hs1|(_ & _ & Hm & _)]%Ha; [done|lia|done].
  - intros j id f Hne ?. apply Ha. left. apply Hs1. by left.
  - intros id f Hok [<- Hf]%Hin Hn. destruct (decide (f < first)).
    + exists k. apply Ha. left. apply Hs1. right. intuition lia.
    + destruct (find_none (ranges t1)) as [j|] eqn:Hm.
      * exists j. apply Ha. right. split_and!; try done; lia.
      * exfalso. unfold a, add in Hok. replace (last >=? range_last r) with false in Hok by lia.
        rewrite Hm in Hok. done.
Qed.

Lemma punch_step_spec first last c t k :
  first <= last ->
  exists ok moved, (punch_step first last (c, t) k).1 = (c && ok)%bool /\
    step_result first last k t ok moved (punch_step first last (c, t) k).2.
Proof.
  intros Hfl. unfold punch_step.
  destruct (ranges t !! k) as [[r|]|] eqn:Hk.
  2-3: exists true, None; rewrite andb_true_r; split; [done|]; cbn [fst snd]; apply step_unchanged;
    intros id f (r & Hr & _); by simplify_eq.
  case_if.
  { exists true, None. rewrite andb_true_r. split; [done|]. cbn [fst snd]. apply step_unchanged.
    intros id f (? & ? & _ & ?). simplify_eq. destruct Hif; bool_to_prop; lia. }
  destruct (range_first r <? first) eqn:Hl, (last <? range_last r) eqn:Hr; bool_to_prop; simpl.
  2-4: exists true, None; rewrite andb_true_r; split; [done|].
  2: apply (step_replace first last k t r (Some (range_first r, first)) Hk); simpl; lia.
  2: apply (step_replace first last k t r (Some (last, range_last r)) Hk); simpl; lia.
  2: apply (step_replace first last k t r None Hk); simpl; lia.
  destruct (step_split first last k t r Hk Hl Hfl Hr) as [moved Hs].
  destruct (add _ (range_id r) last (range_last r)) as [ok t']. exists ok, moved. by split.
Qed.

Lemma step_wf first last k t ok moved t' :
  first <= last -> step_result first last k t ok moved t' -> holds_wf t -> holds_wf t'.
Proof.
  intros Hfl [Hlen Hnext Hsound Hmoved Hout Hkeep Hfull] [W1 W2 W3]. constructor.
  - congruence.
  - intros id f [j Hj]. rewrite Hnext. destruct (Hsound _ _ _ Hj) as [?|(_ & ? & _)]; apply (W2 id f); eexists; eauto.
  - intros i j id id' f Hi Hj.
    destruct (Hsound _ _ _ Hi) as [Si|(Mi & Si & Li)], (Hsound _ _ _ Hj) as [Sj|(Mj & Sj & Lj)].
    + eauto.
    + assert (i = k) as -> by eauto. pose proof (Hmoved _ _ _ Mj Hi). lia.
    + assert (j = k) as -> by eauto. pose proof (Hmoved _ _ _ Mi Hj). lia.
    + congruence.
Qed.

(** Slots [a .. a+n) punched: nothing in them is inside the hole. *)
Lemma punch_loop_spec first last n a c t :
  first <= last -> holds_wf t ->
  (forall j id f, (j < a)%nat -> slot_holds t j id f -> ~ (first <= f < last)) ->
  let r := foldl (punch_step first last) (c, t) (seq a n) in
  holds_wf r.2 /\ next_id r.2 = next_id t /\
  (forall j id f, (j < a + n)%nat -> slot_holds r.2 j id f -> ~ (first <= f < last)) /\
  (forall id f, held r.2 id f -> held t id f) /\
  (r.1 = true -> c = true /\ forall id f, held t id f -> ~ (first <= f < last) -> held r.2 id f).
Proof.
  intros Hfl. revert a c t. induction n as [|n IH]; intros a c t W Hdone; cbn [seq foldl].
  { split_and!; try done. intros j id f Hj. apply Hdone. lia. }
  destruct (punch_step_spec first last c t a Hfl) as (ok & moved & Hc & Hst).
  destruct (punch_step first last (c, t) a) as [c' t'] eqn:Hstep. cbn [fst snd] in *.
  pose proof (step_wf _ _ _ _ _ _ _ Hfl Hst W) as W'.
  destruct (IH (S a) c' t') as (W2 & N2 & D2 & H2 & F2); [done| |].
  { intros j id f Hj Hs. destruct (decide (j = a)) as [->|Hne]; [by eapply step_out|].
    destruct (step_sound _ _ _ _ _ _ _ Hst _ _ _ Hs) as [?|(_ & _ & ?)]; [|lia].
    eapply Hdone; [|done]. lia. }
  split_and!; [done|by rewrite N2; eapply step_next| | |].
  - intros j id f Hj. apply D2. lia.
  - intros id f Hh. destruct (H2 _ _ Hh) as [j Hj].
    destruct (step_sound _ _ _ _ _ _ _ Hst _ _ _ Hj) as [?|(_ & ? & _)]; eexists; eauto.
  - intros Hr. destruct (F2 Hr) as [-> Hkeep]. symmetry in Hc. apply andb_prop in Hc as [-> ->].
    split; [done|]. intros id f [j Hj] Hn. apply Hkeep; [|done].
    destruct (decide (j = a)) as [->|Hne]; [by eapply step_full|].
    exists j. by eapply step_keep.
Qed.

Lemma punch_spec t first last :
  holds_wf t -> first <= last ->
  let r := punch t first last in
  holds_wf r.2 /\ next_id r.2 = next_id t /\
  (forall id f, held r.2 id f -> held t id f /\ ~ (first <= f < last)) /\
  (r.1 = true -> forall id f, held r.2 id f <-> held t id f /\ ~ (first <= f < last)).
Proof.
  intros W Hfl r.
  destruct (punch_loop_spec first last MAX_HOLD_RANGES 0 true t Hfl W) as (W' & N & D & S & F).
  { intros j id f Hj. lia. }
  fold (punch t first last) in W', N, D, S, F. fold r in W', N, D, S, F.
  assert (Hs : forall id f, held r.2 id f -> held t id f /\ ~ (first <= f < last)).
  { intros id f Hh. split; [by apply S|]. destruct Hh as [j Hj]. eapply D; [|done].
    destruct Hj as (x & Hx & _). apply lookup_lt_Some in Hx. rewrite (wf_slots _ W') in Hx. lia. }
  split_and!; try done. intros Hr id f. split; [apply Hs|]. intros [Hh Hn]. by apply F.
Qed.

(** ** Releasing a hold *)

(** The ranges of hold [id], in slot order. *)
Definition ranges_of (id : Z) (l : list (option Range)) : list (Z * Z) :=
  omap (fun slot => match slot with
                    | Some r => if range_id r =? id then Some (range_first r, range_last r) else None
                    | None => None
                    end) l.

Lemma release_slots_eq {S : Type} id (rel : S -> Z -> Z -> S) l s :
  release_slots id rel l s =
  ((fun slot => match slot with
                | Some r => if range_id r =? id then None else Some r
                | None => None
                end) <$> l,
   foldl (fun s p => rel s p.1 p.2) s (ranges_of id l)).
Proof.
  revert s. induction l as [|[r|] l IH]; intros s; simpl; [done| |by rewrite IH].
  destruct (range_id r =? id); by rewrite IH.
Qed.

Lemma ranges_of_held id t f :
  (exists p, p ∈ ranges_of id (ranges t) /\ p.1 <= f < p.2) <-> held t id f.
Proof.
  split.
  - intros (p & Hp & Hf). apply list_elem_of_omap in Hp as ([r|] & Hr & Heq); [|done].
    apply list_elem_of_lookup in Hr as [i Hi]. case_if_in Heq; [|done]. simplify_eq. exists i, r. done.
  - intros (i & r & Hi & Hid & Hf). exists (range_first r, range_last r). split; [|done].
    apply list_elem_of_omap. exists (Some r). split; [by eapply list_elem_of_lookup_2|].
    by replace (range_id r =? id) with true by lia.
Qed.

Lemma release_table_spec {S : Type} t id (rel : S -> Z -> Z -> S) s :
  holds_wf t ->
  let r := release_table t id rel s in
  holds_wf r.1 /\ next_id r.1 = next_id t /\
  r.2 = foldl (fun s p => rel s p.1 p.2) s (ranges_of id (ranges t)) /\
  (forall id' f, held r.1 id' f <-> held t id' f /\ id' <> id).
Proof.
  intros [W1 W2 W3] r. unfold r, release_table. rewrite release_slots_eq. cbn [fst snd ranges next_id].
  set (t' := mkHolds _ _).
  assert (Hs : forall i id' f, slot_holds t' i id' f <-> slot_holds t i id' f /\ id' <> id).
  { intros i id' f. unfold slot_holds, t'. cbn [ranges]. rewrite list_lookup_fmap.
    destruct (ranges t !! i) as [[x|]|]; simpl.
    - destruct (range_id x =? id) eqn:Hid; bool_to_prop; split.
      + by intros (? & ? & _).
      + intros ((? & [= <-] & <- & _) & ?). done.
      + intros (? & [= <-] & <- & ?). split; [by exists x|done].
      + intros ((? & [= <-] & <- & ?) & ?). by exists x.
    - split; [by intros (? & ? & _)|]. by intros ((? & ? & _) & _).
    - split; [by intros (? & ? & _)|]. by intros ((? & ? & _) & _). }
  split_and!; try done.
  - constructor.
    + by rewrite <- W1; unfold t'; simpl; rewrite length_fmap.
    + intros id' f [i [Hi _]%Hs]. apply (W2 id' f). by exists i.
    + intros i j id1 id2 f [Hi _]%Hs [Hj _]%Hs. eauto.
  - intros id' f. split.
    + intros [i [Hi Hne]%Hs]. split; [by exists i|done].
    + intros [[i Hi] Hne]. exists i. by apply Hs.
Qed.

Lemma holds_new_wf : holds_wf holds_new.
Proof.
  assert (Hn : forall i id f, ~ slot_holds holds_new i id f).
  { intros i id f (r & Hr & _). unfold holds_new in Hr. cbn [ranges] in Hr.
    apply lookup_replicate in Hr as [? _]. done. }
  constructor; [done| |].
  - intros id f [i Hi]. by destruct (Hn _ _ _ Hi).
  - intros i j id id' f Hi. by destruct (Hn _ _ _ Hi).
Qed.

(** Recording a range of frames that no hold has yet. *)
Lemma add_wf t id first last :
  holds_wf t -> id <= next_id t ->
  (forall id' f, first <= f < last -> ~ held t id' f) ->
  holds_wf (add t id first last).2 /\
  (forall id' f, held (add t id first last).2 id' f ->
     held t id' f \/ (id' = id /\ first <= f < last)) /\
  ((add t id first last).1 = true -> forall id' f,
     held t id' f \/ (id' = id /\ first <= f < last) -> held (add t id first last).2 id' f) /\
  (forall id' f, held t id' f -> held (add t id first last).2 id' f).
Proof.
  intros [W1 W2 W3] Hid Hfresh. destruct (add_length t id first last) as [Hl Hn].
  pose proof (fun j id' f => add_spec t id first last j id' f) as Ha. split_and!.
  - constructor.
    + congruence.
    + intros id' f [j [?|(_ & _ & _ & -> & _)]%Ha]; rewrite Hn; [|done]. apply (W2 id' f). by exists j.
    + intros i j id1 id2 f [?|(_ & _ & Mi & _ & Fi)]%Ha [?|(_ & _ & Mj & _ & Fj)]%Ha; [by eauto| | |congruence].
      * exfalso. eapply Hfresh; [done|]. by eexists.
      * exfalso. eapply Hfresh; [done|]. by eexists.
  - intros id' f [j [?|(_ & _ & _ & -> & ?)]%Ha]; [left; by exists j|by right].
  - intros Hok id' f [[j Hj]|[-> Hf]]; [exists j; apply Ha; by left|].
    destruct (find_none (ranges t)) as [j|] eqn:Hj.
    + exists j. apply Ha. right. split_and!; try done; lia.
    + exfalso. unfold add in Hok. replace (first >=? last) with false in Hok by lia.
      by rewrite Hj in Hok.
  - intros id' f [j Hj]. exists j. apply Ha. by left.
Qed.
