(* ===== verification/BootInfo.v ===== *)
(** * BootInfo: the physical memory map handed over at boot

    Models the memory map of [kernel/src/boot/boot_info.rs]: a bounded table
    of regions, filled by [push] and [push_merged]. A map is the list of its
    first [count] regions. *)

From S2P Require Import Prelude.
From stdpp Require Import base list numbers.
Local Open Scope Z_scope.

Inductive PhysicalMemoryKind : Type :=
| Usable | MemReserved | AcpiReclaimable | AcpiNvs | Runtime | Mmio.
#[export] Instance PhysicalMemoryKind_eq_dec : EqDecision PhysicalMemoryKind.
Proof. solve_decision. Defined.

Record PhysicalMemoryRegion : Type := mkRegion {
  region_start : Z;
  region_length : Z;
  region_kind : PhysicalMemoryKind;
}.
#[export] Instance PhysicalMemoryRegion_eq_dec : EqDecision PhysicalMemoryRegion.
Proof. solve_decision. Defined.

Definition region_end (r : PhysicalMemoryRegion) : Z :=
  saturating_add (region_start r) (region_length r).

Definition MAX_MEMORY_REGIONS : nat := 256.

(** [regions[..count]]. *)
Abbreviation PhysicalMemoryMap := (list PhysicalMemoryRegion).

Definition map_push (m : PhysicalMemoryMap) (r : PhysicalMemoryRegion) : PhysicalMemoryMap :=
  if negb (region_length r =? 0) && (length m <? MAX_MEMORY_REGIONS)%nat then m ++ [r] else m.

Definition push_merged (m : PhysicalMemoryMap) (r : PhysicalMemoryRegion) : PhysicalMemoryMap :=
  if region_length r =? 0 then m else
  match list.last m with
  | Some previous =>
      if bool_decide (region_kind previous = region_kind r)
         && (region_end previous =? region_start r)
      then <[pred (length m) := mkRegion (region_start previous)
              (saturating_add (region_length previous) (region_length r))
              (region_kind previous)]> m
      else map_push m r
  | None => map_push m r
  end.

Definition usable (m : PhysicalMemoryMap) : list PhysicalMemoryRegion :=
  filter (fun r => region_kind r = Usable) m.

Definition total_memory_mb (m : PhysicalMemoryMap) : Z :=
  foldr (fun r n => region_length r + n) 0 (usable m) / (1024 * 1024).

(** Addresses of kind [k] that the map reports. *)
Definition reports (m : PhysicalMemoryMap) (k : PhysicalMemoryKind) (a : Z) : Prop :=
  exists r, r ∈ m /\ region_kind r = k /\ region_start r <= a < region_end r.

(** Regions lie in the 64-bit address space and are not empty. *)
Definition region_ok (r : PhysicalMemoryRegion) : Prop :=
  0 <= region_start r /\ 0 < region_length r /\ region_start r + region_length r <= U64_MAX.
Definition map_ok (m : PhysicalMemoryMap) : Prop :=
  (length m <= MAX_MEMORY_REGIONS)%nat /\ forall r, r ∈ m -> region_ok r.

Lemma region_end_ok r : region_ok r -> region_end r = region_start r + region_length r.
Proof. intros (H1 & H2 & H3). unfold region_end, saturating_add. lia. Qed.

Lemma reports_snoc m r k a :
  reports (m ++ [r]) k a <->
  reports m k a \/ (region_kind r = k /\ region_start r <= a < region_end r).
Proof.
  unfold reports. split.
  - intros (x & [Hx|Hx]%elem_of_app & Hk & Ha).
    + left. by exists x.
    + apply list_elem_of_singleton in Hx as ->. by right.
  - intros [(x & Hx & Hk & Ha)|[Hk Ha]].
    + exists x. split; [apply elem_of_app; by left|done].
    + exists r. split; [apply elem_of_app; right; by apply list_elem_of_singleton|done].
Qed.

(** Adding a region reports exactly its addresses in addition, merged or not. *)
Lemma push_merged_spec m r k a :
  map_ok m -> region_ok r -> (length m < MAX_MEMORY_REGIONS)%nat ->
  map_ok (push_merged m r) /\
  (reports (push_merged m r) k a <->
   reports m k a \/ (region_kind r = k /\ region_start r <= a < region_end r)).
Proof.
  intros [Hl Hm] Hr Hlen.
  assert (Hpush : map_push m r = m ++ [r]).
  { unfold map_push. destruct Hr as (_ & ? & _). replace (region_length r =? 0) with false by lia.
    apply Nat.ltb_lt in Hlen. by rewrite Hlen. }
  assert (Happ : map_ok (m ++ [r])).
  { split; [rewrite length_app; simpl; lia|]. intros x [Hx|Hx]%elem_of_app; [by apply Hm|].
    by apply list_elem_of_singleton in Hx as ->. }
  unfold push_merged. replace (region_length r =? 0) with false by (destruct Hr; lia).
  destruct (list.last m) as [p|] eqn:Hlast; [|rewrite Hpush; split; [done|apply reports_snoc]].
  apply last_Some in Hlast as [m0 ->].
  assert (Hp : region_ok p) by (apply Hm, elem_of_app; right; by apply list_elem_of_singleton).
  case_if; [|rewrite Hpush; split; [done|apply reports_snoc]].
  replace (pred (length (m0 ++ [p]))) with (length m0 + 0)%nat by (rewrite length_app; simpl; lia).
  rewrite insert_app_r. cbn [insert list_insert]. set (q := mkRegion _ _ _).
  rewrite (region_end_ok p Hp) in *. pose proof (region_end_ok r Hr) as Hre.
  assert (Hq : region_ok q /\ region_end q = region_end r /\ region_start q = region_start p).
  { unfold q, region_ok, region_end, saturating_add in *. cbn [region_start region_length]. destruct Hp as (? & ? & ?), Hr as (? & ? & ?).
    split_and!; lia. }
  destruct Hq as (Hq & Hqe & Hqs). split.
  - split; [rewrite length_app in *; simpl in *; lia|]. intros x [Hx|Hx]%elem_of_app.
    + apply Hm, elem_of_app. by left.
    + by apply list_elem_of_singleton in Hx as ->.
  - rewrite !reports_snoc, Hqe, Hqs, (region_end_ok p Hp), Hre. unfold q. cbn [region_kind].
    destruct Hp as (? & ? & ?), Hr as (? & ? & ?).
    assert (Hk : region_kind p = region_kind r) by done. rewrite Hk.
    destruct (Z.lt_ge_cases a (region_start r)); intuition lia.
Qed.
