(* ===== verification/FrameAlloc.v ===== *)
(** * FrameAlloc: the physical frame allocator

    Models the [Allocator] of [kernel/src/mm/frame.rs] and the functions over
    it: the bitmap scan that serves allocations before the buddy lists exist,
    the buddy path after [activate_metadata], reservations, boot-time holds and
    the per-frame reference counts. The store is any [FrameStore]; [FrameMeta]
    gives the kernel's. A panic of the source is [None]. The global lock makes
    every public function one atomic step, so state is passed explicitly. *)

From S2P Require Import Prelude Buddy Holds BootInfo.
From stdpp Require Import base list numbers.
Local Open Scope Z_scope.

Definition PAGE_SIZE : Z := 4096.
Definition U16_MAX : Z := 2 ^ 16 - 1.

Inductive FrameError : Type :=
| EUnaligned | EOverflow | EInvalidRange | EOverlap | EDuplicateRelease | EDoubleFree
| EOutOfMemory | EInvalidOrder | EUnsupportedAddress | ENotShareable.
#[export] Instance FrameError_eq_dec : EqDecision FrameError.
Proof. solve_decision. Defined.

(** [impl From<ReleaseError> for FrameError]. *)
Definition from_release_error (e : ReleaseError) : FrameError :=
  match e with
  | OutOfRange => EUnsupportedAddress
  | Unaligned => EUnaligned
  | DuplicateRelease => EDuplicateRelease
  | DoubleFree => EDoubleFree
  | InvalidRange => EInvalidRange
  end.

Definition order_pages (order : nat) : Z := Z.shiftl 1 (Z.of_nat order).
Definition order_bytes (order : nat) : Z := order_pages order * PAGE_SIZE.
Definition order_is_valid (order : nat) : bool := (order <=? MAX_ORDER)%nat.

(** [a..b] stepped by [n]. *)
Definition step_by (a b n : Z) : list Z := (fun i => a + i * n) <$> seqZ 0 ((b - a + n - 1) / n).

Definition div_ceil (a b : Z) : Z := (a + b - 1) / b.
Definition clamp (x low high : Z) : Z := if x <? low then low else if x >? high then high else x.

(** Zones that can satisfy [min..max]. *)
Definition BOUNDARY : Z := DMA32_FRAMES * PAGE_SIZE.
Definition zones_for (min max : Z) : list Zone :=
  if max <=? BOUNDARY then [Dma32]
  else if min >=? BOUNDARY then [Normal]
  else [Normal; Dma32].

(** Apply [f] along [l]; a panic stops. *)
Fixpoint fold_panic {A B} (f : A -> B -> option A) (a : A) (l : list B) : option A :=
  match l with
  | [] => Some a
  | x :: l => match f a x with Some a => fold_panic f a l | None => None end
  end.

Section Allocator.
Context {St : Type} `{FrameStore St}.

(** [refcounts] is the array [REFCOUNTS] points to, of [REFCOUNT_FRAMES]
    entries; [None] is the null pointer before [activate_metadata]. *)
Record Allocator : Type := mkAllocator {
  memory_map : PhysicalMemoryMap;
  store : St;
  scan_cursor : Z;
  lists : BuddyLists;
  buddy_active : bool;
  holds : HoldTable;
  refcounts : option (list Z);
}.
Implicit Types (a : Allocator) (frame address first last min max : Z) (order : nat).

Definition with_core a s b := mkAllocator (memory_map a) s (scan_cursor a) b (buddy_active a) (holds a) (refcounts a).
Definition with_store a s := with_core a s (lists a).
Definition with_cursor a c := mkAllocator (memory_map a) (store a) c (lists a) (buddy_active a) (holds a) (refcounts a).
Definition with_holds a h := mkAllocator (memory_map a) (store a) (scan_cursor a) (lists a) (buddy_active a) h (refcounts a).
Definition with_refs a r := mkAllocator (memory_map a) (store a) (scan_cursor a) (lists a) (buddy_active a) (holds a) r.

Definition fstate a frame : State := Buddy.state (store a) frame.

(** [usize::try_from] of a [u64] succeeds on the 64-bit target. *)
Definition index a address : result FrameError Z :=
  if negb (is_multiple_of address PAGE_SIZE) then Err EUnaligned else
  let index := address / PAGE_SIZE in
  if index <? frame_count (store a) then Ok index else Err EUnsupportedAddress.

Definition endpoint a address : result FrameError Z :=
  if negb (is_multiple_of address PAGE_SIZE) then Err EUnaligned else
  let index := address / PAGE_SIZE in
  if index <=? frame_count (store a) then Ok index else Err EUnsupportedAddress.

Definition range_state a start (n : Z) (expected : State) : bool :=
  match checked_add start n with
  | None => false
  | Some fin => (fin <=? frame_count (store a)) && range_is (store a) start n expected
  end.

(** [if buddy_active { lists.isolate(frame) } set_state(frame, x)]. *)
Definition take_frame a (x : State) frame : option Allocator :=
  if buddy_active a then
    match isolate (lists a) (store a) frame with
    | None => None
    | Some (_, (b, s)) => Some (with_core a (set_state s frame x) b)
    end
  else Some (with_store a (set_state (store a) frame x)).

Definition reserve a (start fin : Z) : option (result FrameError unit * Allocator) :=
  if (start >=? fin) || negb (is_multiple_of start PAGE_SIZE) || negb (is_multiple_of fin PAGE_SIZE)
  then Some (Err EInvalidRange, a) else
  match index a start with
  | Err e => Some (Err e, a)
  | Ok first =>
      match endpoint a fin with
      | Err e => Some (Err e, a)
      | Ok last =>
          if first >=? last then Some (Err EInvalidRange, a)
          else if existsb (fun f => state_eqb (fstate a f) Allocated) (frames first (last - first))
          then Some (Err EOverlap, a)
          else
            match fold_panic (fun a f => if state_eqb (fstate a f) Free then take_frame a Reserved f
                                         else Some a) a (frames first (last - first)) with
            | None => None
            | Some a => Some (Ok tt, a)
            end
      end
  end.

(** The frame the next-fit scan settles on. *)
Definition scan_find a order min max : option Z :=
  let n := block_len order in
  let low := next_multiple_of (div_ceil min PAGE_SIZE) n in
  let high := Z.min (max / PAGE_SIZE) (frame_count (store a)) in
  if (low >=? high) || (high - low <? n) then None else
  let start := next_multiple_of (clamp (scan_cursor a) low high) n in
  List.find (fun f => (f + n <=? high) && range_state a f n Free)
    (step_by start high n ++ step_by low start n).

Definition allocate_scan a order min max : option (result FrameError Z * Allocator) :=
  match scan_find a order min max with
  | None => Some (Err EOutOfMemory, a)
  | Some found =>
      let n := block_len order in
      match fold_panic (fun a f => take_frame a Allocated f) a (frames found n) with
      | None => None
      | Some a => Some (Ok found, with_cursor a (found + n))
      end
  end.

(** [refcount_slot]: the index of the frame's counter, if it has one. *)
Definition refcount_slot a frame : option (nat * Z) :=
  match refcounts a with
  | None => None
  | Some r =>
      let i := Z.to_nat (frame / PAGE_SIZE) in
      match r !! i with Some v => Some (i, v) | None => None end
  end.
Definition store_count a (i : nat) (v : Z) : Allocator :=
  with_refs a ((fun r => <[i := v]> r) <$> refcounts a).

Definition set_refcounts a first (n value : Z) : Allocator :=
  foldl (fun a i => match refcount_slot a (i * PAGE_SIZE) with
                    | Some (k, _) => store_count a k value
                    | None => a
                    end) a (frames first n).

Definition fits order min max frame : bool :=
  let address := frame * PAGE_SIZE in
  (address >=? min) && match checked_add address (order_bytes order) with
                       | Some fin => fin <=? max
                       | None => false
                       end.

Definition allocate_frame a order min max : option (result FrameError Z * Allocator) :=
  if buddy_active a then
    match Buddy.allocate (lists a) (store a) order (zones_for min max) with
    | (Some frame, (b, s)) =>
        if fits order min max frame then Some (Ok frame, with_core a s b)
        else
          match Buddy.release b s frame order with
          | Err _ => None
          | Ok (b, s) => allocate_scan (with_core a s b) order min max
          end
    | (None, (b, s)) => Some (Err EOutOfMemory, with_core a s b)
    end
  else allocate_scan a order min max.

Definition allocate a order min max : option (result FrameError Z * Allocator) :=
  if negb (order_is_valid order) then Some (Err EInvalidOrder, a) else
  match allocate_frame a order min max with
  | None => None
  | Some (Err e, a) => Some (Err e, a)
  | Some (Ok frame, a) =>
      Some (Ok (frame * PAGE_SIZE), set_refcounts a frame (block_len order) 1)
  end.

Definition release a frame order : result FrameError unit * Allocator :=
  if negb (order_is_valid order) then (Err EInvalidOrder, a) else
  match index a frame with
  | Err e => (Err e, a)
  | Ok start =>
      if buddy_active a then
        match Buddy.release (lists a) (store a) start order with
        | Ok (b, s) => (Ok tt, with_core a s b)
        | Err e => (Err (from_release_error e), a)
        end
      else
        let n := block_len order in
        if negb (is_multiple_of start n) then (Err EUnaligned, a)
        else if range_state a start n Reserved then (Err EDuplicateRelease, a)
        else if range_state a start n Free then (Err EDoubleFree, a)
        else if negb (range_state a start n Allocated) then (Err EInvalidRange, a)
        else (Ok tt, with_store a (set_range (store a) start n Free))
  end.

Definition unreserve a first last : Allocator :=
  if buddy_active a then
    let '(b, s) := insert_reserved_range (lists a) (store a) first last in with_core a s b
  else
    foldl (fun a f => if state_eqb (fstate a f) Reserved then with_store a (set_state (store a) f Free)
                      else a) a (frames first (Z.min last (frame_count (store a)) - first)).

(** ** Holds *)

Fixpoint hold_loop (fuel : nat) a (id frame last : Z) : option Allocator :=
  match fuel with
  | O => Some a
  | S fuel =>
      if frame <? last then
        if negb (state_eqb (fstate a frame) Free) then hold_loop fuel a id (frame + 1) last
        else
          let fin := run_end (Z.to_nat (last - frame)) (store a) frame last Free in
          match reserve a (frame * PAGE_SIZE) (fin * PAGE_SIZE) with
          | None => None
          | Some (r, a) =>
              let a := if is_ok r then with_holds a (add (holds a) id frame fin).2 else a in
              hold_loop fuel a id fin last
          end
      else Some a
  end.

Definition hold_range a (start fin : Z) : option (option Z * Allocator) :=
  let first := start / PAGE_SIZE in
  let last := Z.min (div_ceil fin PAGE_SIZE) (frame_count (store a)) in
  if first >=? last then Some (None, a) else
  let '(id, h) := new_id (holds a) in
  match hold_loop (Z.to_nat (last - first)) (with_holds a h) id first last with
  | None => None
  | Some a => Some (Some id, a)
  end.

Definition release_hold a (id : Z) : Allocator :=
  let '(h, a) := release_table (holds a) id (fun a first last => unreserve a first last) a in
  with_holds a h.

(** Reserve for good: the frames leave every hold. *)
Definition reserve_range a (start fin : Z) : option (result FrameError unit * Allocator) :=
  match reserve a start fin with
  | None => None
  | Some (Err e, a) => Some (Err e, a)
  | Some (Ok tt, a) =>
      Some (Ok tt, with_holds a (punch (holds a) (start / PAGE_SIZE) (fin / PAGE_SIZE)).2)
  end.

(** ** Reference counts *)

Definition free_frame a frame : option Allocator :=
  let finish a := match release a frame 0 with (Ok _, a) => Some a | (Err _, _) => None end in
  match refcount_slot a frame with
  | Some (i, v) =>
      if v =? 0 then None
      else
        let a := store_count a i (v - 1) in
        if v =? 1 then finish a else Some a
  | None => finish a
  end.

Definition frame_get a frame : result FrameError Allocator :=
  match refcount_slot a frame with
  | None => Err ENotShareable
  | Some (i, v) =>
      if negb (v =? 0) && negb (v =? U16_MAX) then Ok (store_count a i (v + 1)) else Err ENotShareable
  end.

Definition frame_refcount a frame : option Z := snd <$> refcount_slot a frame.

Definition alloc_contiguous_in_range a order (minimum maximum : option Z)
  : option (result FrameError Z * Allocator) :=
  let minimum := default 0 minimum in
  let maximum := default U64_MAX maximum in
  if minimum >=? maximum then Some (Err EInvalidRange, a) else allocate a order minimum maximum.

Definition release_contiguous a frame order : option Allocator :=
  let first := frame / PAGE_SIZE in
  match fold_panic (fun a i => match refcount_slot a (i * PAGE_SIZE) with
                               | Some (k, v) => if v =? 1 then Some (store_count a k 0) else None
                               | None => Some a
                               end) a (frames first (block_len order)) with
  | None => None
  | Some a => match release a frame order with (Ok _, a) => Some a | (Err _, _) => None end
  end.

(** [u64::next_power_of_two]. *)
Definition next_power_of_two (x : Z) : Z := 2 ^ Z.log2_up x.

(** Allocate the counter array and count every allocated frame once. *)
Definition init_refcounts a : option Allocator :=
  let frames := frame_count (store a) in
  let pages := div_ceil (frames * 2) PAGE_SIZE in
  let order := Z.to_nat (trailing_zeros (next_power_of_two pages)) in
  match allocate a order 0 U64_MAX with
  | None => None
  | Some (Err _, a) => Some a
  | Some (Ok block, a) =>
      match fold_panic (fun a page => match release a (block + page * PAGE_SIZE) 0 with
                                      | (Ok _, a) => Some a
                                      | (Err _, _) => None
                                      end) a (seqZ pages (block_len order - pages)) with
      | None => None
      | Some a =>
          Some (with_refs a
            (Some ((fun i => if state_eqb (fstate a i) Allocated then 1 else 0) <$> seqZ 0 frames)))
      end
  end.

Definition activate_metadata a : option Allocator :=
  if buddy_active a then Some a else
  let '(b, s) := build (store a) in
  init_refcounts (mkAllocator (memory_map a) s (scan_cursor a) b true (holds a) (refcounts a)).

(** ** Statistics *)

Record AllocatorStats : Type := mkStats {
  total_frames : Z;
  tracked_frames : Z;
  unsupported_frames : Z;
  usable_frames : Z;
  allocated_frames : Z;
  reserved_frames : Z;
  stat_free_frames : Z;
  largest_contiguous_block : Z;
}.

Definition count_state a (x : State) : Z :=
  Z.of_nat (length (filter (fun f => fstate a f = x) (seqZ 0 (frame_count (store a))))).

Definition stats a : AllocatorStats :=
  let pages rs := foldr (fun r n => region_length r / PAGE_SIZE + n) 0 rs in
  let total := pages (memory_map a) in
  {| total_frames := total;
     tracked_frames := frame_count (store a);
     unsupported_frames := saturating_sub total (frame_count (store a));
     usable_frames := pages (usable (memory_map a));
     allocated_frames := count_state a Allocated;
     reserved_frames := count_state a Reserved;
     stat_free_frames := count_state a Free;
     largest_contiguous_block :=
       if buddy_active a then
         match largest_order (lists a) with Some o => Z.shiftl 1 (Z.of_nat o) | None => 0 end
       else 0 |}.
End Allocator.
Arguments Allocator : clear implicits.
