(* ===== verification/FrameAllocSpec.v ===== *)
(** * FrameAllocSpec: invariant and steps of the frame allocator

    The invariant of [kernel/src/mm/frame.rs]'s [Allocator] over its bitmap,
    lists and frame memory, and what the bitmap-level steps ([take_frame],
    [reserve], the scan, [release], [unreserve]) do to ownership. *)

From stdpp Require Import base numbers sets relations list.
From S2P Require Import Prelude Buddy BuddyInv BuddyOps BuddySpec Holds BootInfo FrameAlloc.
Local Open Scope Z_scope.

Definition MAX_TRACKED_PHYS : Z := Z.shiftl 64 30.

Section Core.
Context {St : Type} `{FrameStoreLaws St}.
Implicit Types (a : Allocator St) (s : St).

(** Ownership of the frames in [P] becomes [x], every other frame keeps its
    owner, and the memory of frames owned before and after is untouched. *)
Record marks (s s' : St) (P : Z -> Prop) (x : State) : Prop := {
  marks_count : frame_count s' = frame_count s;
  marks_in g : valid s g -> P g -> state s' g = x;
  marks_out g : valid s g -> ~ P g -> state s' g = state s g;
  marks_owned g : valid s g -> state s g <> Free -> state s' g <> Free -> node s' g = node s g;
}.

(** What no bitmap-level step changes. *)
Record same_ctl a a' : Prop := {
  ctl_map : memory_map a' = memory_map a;
  ctl_active : buddy_active a' = buddy_active a;
  ctl_holds : holds a' = holds a;
  ctl_refs : refcounts a' = refcounts a;
}.

(** Well-formed lists once they are active, and no frame holds an image of
    its own head tag unless the lists put it there. *)
Record CInv a : Prop := {
  c_range : 0 <= frame_count (store a) <= MAX_TRACKED_PHYS / PAGE_SIZE;
  c_wf : buddy_active a = true -> Wf (lists a) (store a);
  c_clean f : valid (store a) f -> (buddy_active a = true -> fstate a f <> Free) ->
    magic (node (store a) f) <> head_tag f;
}.

#[export] Instance same_ctl_preorder : PreOrder same_ctl.
Proof.
  split; [by constructor|]. intros a b c [A1 A2 A3 A4] [B1 B2 B3 B4]. constructor; congruence.
Qed.

Lemma marks_valid s s' P x g : marks s s' P x -> valid s' g <-> valid s g.
Proof. intros M. unfold valid. by rewrite (marks_count _ _ _ _ M). Qed.

Lemma marks_refl s x : marks s s (fun _ => False) x.
Proof. by constructor. Qed.

Lemma marks_none s (P : Z -> Prop) x :
  (forall g, valid s g -> P g -> state s g = x) -> marks s s P x.
Proof. intros HP. constructor; try done. Qed.

Lemma marks_proper s s' P Q x :
  (forall g, valid s g -> P g <-> Q g) -> marks s s' P x -> marks s s' Q x.
Proof.
  intros HPQ [C I O N]. constructor; try done.
  - intros g Hg Hq. apply I; [done|]. by apply HPQ.
  - intros g Hg Hq. apply O; [done|]. by rewrite HPQ.
Qed.

Lemma marks_trans s1 s2 s3 P Q x :
  marks s1 s2 P x -> marks s2 s3 Q x -> marks s1 s3 (fun g => P g \/ Q g) x.
Proof.
  intros M1 M2. pose proof (fun g => marks_valid _ _ _ _ g M1) as Hv.
  destruct M1 as [C1 I1 O1 N1], M2 as [C2 I2 O2 N2].
  assert (Hq : forall g, valid s1 g -> state s3 g <> x -> ~ Q g).
  { intros g Hg Hne Hq. by rewrite I2 in Hne by (try apply Hv; done). }
  constructor.
  - congruence.
  - intros g Hg [Hp|?]; [|by apply I2; [apply Hv|]].
    destruct (decide (state s3 g = x)) as [|Hne]; [done|].
    rewrite O2; [by apply I1|by apply Hv|by apply Hq].
  - intros g Hg Hn. rewrite O2 by (try apply Hv; tauto). apply O1; tauto.
  - intros g Hg H1' H3'. destruct (decide (x = Free)) as [->|Hx].
    + pose proof (Hq g Hg H3') as Hn. rewrite O2 in H3' by (try apply Hv; done).
      rewrite N2; [by apply N1|by apply Hv|done|]. rewrite O2; [done|by apply Hv|done].
    + assert (state s2 g <> Free).
      { intros Hf. rewrite O1 in Hf; [done..|]. intros Hp. by rewrite I1 in Hf. }
      rewrite N2 by (try apply Hv; done). by apply N1.
Qed.

(** ** One frame *)

Lemma set_state_marks s f x : valid s f -> marks s (set_state s f x) (eq f) x.
Proof.
  intros Hf. constructor.
  - apply frame_count_set_state.
  - intros g Hg <-. by apply state_set_state_eq.
  - intros g Hg Hne. by apply state_set_state_ne.
  - intros g Hg _ _. by apply node_set_state.
Qed.

Lemma same_bitmap_marks s s' x : same_bitmap s s' -> marks s s' (fun _ => False) x.
Proof. intros [C S N]. constructor; try done; eauto. Qed.

Lemma take_frame_spec a f x :
  CInv a -> valid (store a) f -> fstate a f = Free -> x <> Free ->
  exists a', take_frame a x f = Some a' /\ CInv a' /\ same_ctl a a' /\
    scan_cursor a' = scan_cursor a /\ marks (store a) (store a') (eq f) x.
Proof.
  intros I Hv Hf Hx. unfold take_frame. destruct (buddy_active a) eqn:Hact.
  - destruct (isolate_take (lists a) (store a) f x (c_wf _ I Hact) Hv Hf Hx) as (b & s & Heq & B & W).
    pose proof (isolate_untagged _ _ _ _ _ _ (c_wf _ I Hact) Hv Hf Heq) as Hu. rewrite Heq.
    assert (Hv' : valid s f) by (by apply (valid_same (store a))).
    assert (M : marks (store a) (set_state s f x) (eq f) x).
    { eapply marks_proper; [|eapply marks_trans; [apply same_bitmap_marks, B|by apply set_state_marks]].
      intros g _. cbv beta. tauto. }
    eexists. split; [done|]. split_and!; try done. constructor; cbn.
    + rewrite frame_count_set_state, (same_count _ _ B). apply I.
    + done.
    + intros g Hg Hs. specialize (Hs Hact). unfold fstate in Hs. cbn in Hs.
      assert (Hg' : valid (store a) g) by (by apply (marks_valid _ _ _ _ g M)).
      rewrite node_set_state by done. destruct (decide (g = f)) as [->|Hne]; [done|].
      rewrite (marks_out _ _ _ _ M) in Hs by (done || congruence).
      rewrite (same_owned _ _ B) by done. by apply I.
  - eexists. split; [done|]. split_and!; try done; [|by apply set_state_marks].
    constructor; cbn.
    + rewrite frame_count_set_state. apply I.
    + congruence.
    + intros g Hg _. rewrite node_set_state by done. apply I; [|congruence].
      unfold valid in *. by rewrite frame_count_set_state in Hg.
Qed.

(** Taking the free frames of a list; frames already in state [x] are skipped. *)
Lemma fold_take (step : Allocator St -> Z -> option (Allocator St)) x l a :
  x <> Free -> CInv a -> NoDup l ->
  (forall f, f ∈ l -> valid (store a) f /\ (fstate a f = Free \/ fstate a f = x)) ->
  (forall a f, fstate a f = Free -> step a f = take_frame a x f) ->
  (forall f, f ∈ l -> fstate a f = x -> forall a', fstate a' f = x -> step a' f = Some a') ->
  exists a', fold_panic step a l = Some a' /\ CInv a' /\ same_ctl a a' /\
    scan_cursor a' = scan_cursor a /\ marks (store a) (store a') (fun g => g ∈ l) x.
Proof.
  intros Hx I Hnd. revert a I. induction Hnd as [|f l Hf Hnd IH]; intros a I Hl Hfree Hskip.
  { exists a. split_and!; try done. eapply marks_proper; [|apply marks_refl]. set_solver. }
  cbn [fold_panic]. destruct (Hl f) as [Hv Hs]; [by left|].
  assert (exists a1, step a f = Some a1 /\ CInv a1 /\ same_ctl a a1 /\
    scan_cursor a1 = scan_cursor a /\ marks (store a) (store a1) (eq f) x) as (a1 & -> & I1 & S1 & K1 & M1).
  { destruct Hs as [Hs|Hs].
    - rewrite Hfree by done. by apply take_frame_spec.
    - exists a. split; [apply Hskip; [by left|done|done]|]. split_and!; try done.
      apply marks_none. by intros g _ <-. }
  assert (Hsame : forall g, g ∈ l -> fstate a1 g = fstate a g).
  { intros g Hg. apply (marks_out _ _ _ _ M1); [apply Hl; by right|]. intros ->. done. }
  destruct (IH a1 I1) as (a2 & -> & I2 & S2 & K2 & M2).
  - intros g Hg. rewrite Hsame by done. rewrite (marks_valid _ _ _ _ _ M1). apply Hl. by right.
  - done.
  - intros g Hg. rewrite Hsame by done. apply Hskip. by right.
  - exists a2. split_and!; try done; [by etransitivity|congruence|].
    eapply marks_proper; [|by eapply marks_trans]. intros g _. cbv beta. rewrite elem_of_cons.
    split; [intros [->|]; auto|intros [->|]; auto].
Qed.

Lemma NoDup_frames f n : NoDup (frames f n).
Proof. apply NoDup_seqZ. Qed.

(** ** Reservation *)

(** The frames of the byte range [start..fin]. *)
Definition in_bytes (start fin g : Z) : Prop := start / PAGE_SIZE <= g < fin / PAGE_SIZE.

Lemma reserve_spec a start fin :
  CInv a -> 0 <= start ->
  let ok := (PAGE_SIZE | start) /\ (PAGE_SIZE | fin) /\
    start / PAGE_SIZE < fin / PAGE_SIZE <= frame_count (store a) /\
    (forall g, in_bytes start fin g -> fstate a g <> Allocated) in
  exists r a', reserve a start fin = Some (r, a') /\
    match r with
    | Ok _ => CInv a' /\ same_ctl a a' /\ scan_cursor a' = scan_cursor a /\
        marks (store a) (store a') (in_bytes start fin) Reserved /\ ok
    | Err _ => a' = a /\ ~ ok
    end.
Proof.
  intros I Hs ok. assert (Hps : 0 < PAGE_SIZE) by (unfold PAGE_SIZE; lia).
  assert (Hs0 : 0 <= start / PAGE_SIZE) by (by apply Z.div_pos). unfold reserve.
  destruct (start >=? fin) eqn:Hlt; bool_to_prop; cbn [orb].
  { do 2 eexists. split; [done|]. split; [done|]. intros (_ & _ & Hd & _).
    pose proof (Z.div_le_mono fin start PAGE_SIZE Hps Hlt). lia. }
  unfold index, endpoint.
  destruct (is_multiple_of start PAGE_SIZE) eqn:Hm1; cbn [negb orb].
  2: { do 2 eexists. split; [done|]. split; [done|]. intros (Hd & _). apply is_multiple_of_divide in Hd; congruence. }
  destruct (is_multiple_of fin PAGE_SIZE) eqn:Hm2; cbn [negb orb].
  2: { do 2 eexists. split; [done|]. split; [done|]. intros (_ & Hd & _). apply is_multiple_of_divide in Hd; congruence. }
  apply is_multiple_of_divide in Hm1, Hm2; try done.
  destruct (start / PAGE_SIZE <? frame_count (store a)) eqn:Hi; bool_to_prop.
  2: { do 2 eexists. split; [done|]. split; [done|]. intros (_ & _ & ? & _). lia. }
  destruct (fin / PAGE_SIZE <=? frame_count (store a)) eqn:He; bool_to_prop.
  2: { do 2 eexists. split; [done|]. split; [done|]. intros (_ & _ & ? & _). lia. }
  case_if.
  { do 2 eexists. split; [done|]. split; [done|]. intros (_ & _ & ? & _). lia. }
  assert (Hin : forall g, g ∈ frames (start / PAGE_SIZE) (fin / PAGE_SIZE - start / PAGE_SIZE)
    <-> in_bytes start fin g).
  { intros g. rewrite elem_of_frames. unfold in_bytes. lia. }
  destruct (existsb _ _) eqn:Hex.
  { do 2 eexists. split; [done|]. split; [done|]. intros (_ & _ & _ & Hna).
    apply existsb_true_exists in Hex as (g & Hg%Hin & Ha). unfold state_eqb in Ha.
    apply bool_decide_eq_true in Ha. by apply (Hna g). }
  assert (Hna : forall g, in_bytes start fin g -> fstate a g <> Allocated).
  { intros g Hg%Hin Ha. rewrite existsb_false_forall in Hex. specialize (Hex g Hg).
    unfold state_eqb in Hex. apply bool_decide_eq_false in Hex. done. }
  destruct (fold_take (fun a f => if state_eqb (fstate a f) Free then take_frame a Reserved f else Some a)
    Reserved (frames (start / PAGE_SIZE) (fin / PAGE_SIZE - start / PAGE_SIZE)) a) as (a' & -> & I' & S' & K' & M').
  - done.
  - done.
  - apply NoDup_frames.
  - intros g Hg%Hin. split; [unfold valid, in_bytes in *; lia|].
    specialize (Hna g Hg). destruct (fstate a g); [by right|by left|done].
  - intros a1 f Hf. cbv beta. by rewrite Hf.
  - intros f Hf _ a1 Ha1. cbv beta. by rewrite Ha1.
  - do 2 eexists. split; [done|]. cbn. split_and!; try done; try lia.
    eapply marks_proper; [|exact M']. intros g _. apply Hin.
Qed.

(** ** Scanning the bitmap *)

Lemma elem_of_step_by x lo hi n :
  0 < n -> x ∈ step_by lo hi n <-> lo <= x < hi /\ (n | x - lo).
Proof.
  intros Hn. unfold step_by. rewrite list_elem_of_fmap. split.
  - intros (i & -> & Hi%elem_of_seqZ). split; [|exists i; lia].
    assert (i < (hi - lo + n - 1) / n) by lia.
    pose proof (Z.mul_div_le (hi - lo + n - 1) n Hn). nia.
  - intros [Hx [k Hk]]. exists k. split; [lia|]. apply elem_of_seqZ.
    assert (0 <= k) by nia. split; [done|]. assert (k + 1 <= (hi - lo + n - 1) / n); [|lia].
    apply Z.div_le_lower_bound; nia.
Qed.

Lemma range_state_spec a f n x :
  0 <= frame_count (store a) <= U64_MAX ->
  range_state a f n x = true <->
  f + n <= frame_count (store a) /\ forall g, f <= g < f + n -> fstate a g = x.
Proof.
  intros Hr. unfold range_state. destruct (checked_add f n) as [e|] eqn:He.
  - apply checked_add_Some in He as [-> _]. rewrite andb_true_iff, range_is_spec, Z.leb_le. done.
  - split; [done|]. unfold checked_add in He. case_if_in He; [done|]. lia.
Qed.

Lemma c_range_u64 a : CInv a -> 0 <= frame_count (store a) <= U64_MAX.
Proof.
  intros I. pose proof (c_range _ I) as Hr. assert (MAX_TRACKED_PHYS / PAGE_SIZE <= U64_MAX) by (by vm_compute).
  lia.
Qed.

Lemma c_range_magic a : CInv a -> 0 <= frame_count (store a) < FREE_MAGIC.
Proof.
  intros I. pose proof (c_range _ I) as Hr. assert (MAX_TRACKED_PHYS / PAGE_SIZE < FREE_MAGIC) by (by vm_compute).
  lia.
Qed.

(** A naturally aligned free block inside [min..max]. *)
Definition candidate a (order : nat) (min max x : Z) : Prop :=
  0 <= x /\ (block_len order | x) /\ x + block_len order <= frame_count (store a) /\
  min <= x * PAGE_SIZE /\ (x + block_len order) * PAGE_SIZE <= max /\
  forall g, in_block g x order -> fstate a g = Free.

Lemma div_ceil_le m b x : 0 < b -> div_ceil m b <= x <-> m <= x * b.
Proof.
  intros Hb. unfold div_ceil. split.
  - intros Hx. pose proof (Z.div_mod (m + b - 1) b ltac:(lia)).
    pose proof (Z.mod_pos_bound (m + b - 1) b Hb). nia.
  - intros Hx. enough ((m + b - 1) / b < x + 1) by lia. apply Z.div_lt_upper_bound; nia.
Qed.

Lemma clamp_bounds x lo hi : lo <= hi -> lo <= clamp x lo hi <= hi.
Proof. intros. unfold clamp. repeat case_if; lia. Qed.

(** The scan finds a block exactly when there is one. *)
Lemma scan_find_spec a order min max :
  CInv a -> 0 <= min ->
  match scan_find a order min max with
  | Some x => candidate a order min max x
  | None => forall x, ~ candidate a order min max x
  end.
Proof.
  intros I Hmin. pose proof (block_len_pos order) as Hn. pose proof (c_range_u64 _ I) as Hr.
  unfold scan_find. set (n := block_len order) in *.
  set (low := next_multiple_of (div_ceil min PAGE_SIZE) n).
  set (high := Z.min (max / PAGE_SIZE) (frame_count (store a))).
  assert (Hps : 0 < PAGE_SIZE) by (unfold PAGE_SIZE; lia).
  assert (Hlow : (n | low)) by apply next_multiple_of_divide.
  assert (Hlow0 : 0 <= low).
  { pose proof (next_multiple_of_ge (div_ceil min PAGE_SIZE) n Hn).
    assert (0 <= div_ceil min PAGE_SIZE) by (unfold div_ceil; apply Z.div_pos; lia). lia. }
  assert (Hb : forall x, (n | x) -> low <= x <-> min <= x * PAGE_SIZE).
  { intros x Hx. rewrite <- div_ceil_le by done. split.
    - pose proof (next_multiple_of_ge (div_ceil min PAGE_SIZE) n Hn). unfold low. lia.
    - intros. by apply next_multiple_of_le. }
  assert (Hh : forall x, x <= high <-> x * PAGE_SIZE <= max /\ x <= frame_count (store a)).
  { intros x. unfold high. rewrite Z.min_glb_iff. split; intros [? ?]; (split; [|done]).
    - pose proof (Z.mul_div_le max PAGE_SIZE Hps). nia.
    - apply Z.div_le_lower_bound; lia. }
  assert (Hc : forall x, candidate a order min max x <->
    low <= x /\ (n | x) /\ (x + n <=? high) && range_state a x n Free = true).
  { intros x. unfold candidate. fold n. rewrite andb_true_iff, Z.leb_le, (Hh (x + n)), range_state_spec by done.
    unfold in_block. fold n. split.
    - intros (E1 & E2 & E3 & E4 & E5 & E6). split_and!; try done. by apply Hb.
    - intros (E1 & E2 & (E3 & E4) & _ & E5). split_and!; try done; [lia|]. by apply Hb. }
  case_if.
  { intros x Hx%Hc. destruct Hx as (E1 & E2 & E3). bool_to_prop. destruct Hif; bool_to_prop; lia. }
  bool_to_prop. set (start := next_multiple_of (clamp (scan_cursor a) low high) n).
  assert ((n | start) /\ low <= start) as [Hst Hsl].
  { split; [apply next_multiple_of_divide|]. pose proof (next_multiple_of_ge (clamp (scan_cursor a) low high) n Hn).
    pose proof (clamp_bounds (scan_cursor a) low high ltac:(lia)). unfold start. lia. }
  destruct (List.find _ _) as [x|] eqn:Hfind.
  - apply find_some in Hfind as [Hx%list_elem_of_In Hok]. apply Hc.
    apply elem_of_app in Hx as [[Hx Hd]%elem_of_step_by|[Hx Hd]%elem_of_step_by]; try done.
    + split_and!; [lia| |done]. replace x with (x - start + start) by lia. by apply Z.divide_add_r.
    + split_and!; [lia| |done]. replace x with (x - low + low) by lia. by apply Z.divide_add_r.
  - intros x (E1 & E2 & E3)%Hc.
    assert (Hx : x ∈ step_by start high n ++ step_by low start n).
    { apply elem_of_app. rewrite !elem_of_step_by by done. bool_to_prop.
      destruct (decide (x < start)); [right|left]; (split; [lia|]); apply Z.divide_sub_r; tauto. }
    apply list_elem_of_In in Hx. pose proof (List.find_none _ _ Hfind x Hx) as Hno. cbv beta in Hno. congruence.
Qed.

Lemma CInv_cursor a c : CInv a -> CInv (with_cursor a c).
Proof. intros [R W C]. by constructor. Qed.

Lemma allocate_scan_spec a order min max :
  CInv a -> 0 <= min ->
  exists r a', allocate_scan a order min max = Some (r, a') /\ CInv a' /\ same_ctl a a' /\
    match r with
    | Ok x => candidate a order min max x /\
        marks (store a) (store a') (fun g => in_block g x order) Allocated
    | Err e => e = EOutOfMemory /\ (forall x, ~ candidate a order min max x) /\ a' = a
    end.
Proof.
  intros I Hmin. unfold allocate_scan. pose proof (scan_find_spec a order min max I Hmin) as Hf.
  destruct (scan_find a order min max) as [x|]; [|by do 2 eexists].
  destruct Hf as (Hx & Hal & Hle & Hlo & Hhi & Hfree).
  destruct (fold_take (fun a f => take_frame a Allocated f) Allocated (frames x (block_len order)) a)
    as (a' & -> & I' & S' & K' & M').
  - done.
  - done.
  - apply NoDup_frames.
  - intros g Hg%elem_of_frames. split; [unfold valid; lia|]. left. by apply Hfree.
  - done.
  - intros f Hf%elem_of_frames Hs. rewrite Hfree in Hs by done. done.
  - do 2 eexists. split; [done|]. split; [by apply CInv_cursor|]. split; [by destruct S'|].
    split; [by split_and!|]. eapply marks_proper; [|exact M']. intros g _. apply elem_of_frames.
Qed.

(** ** The buddy path *)

Lemma hands_out_marks a b order zs x s' :
  CInv a -> buddy_active a = true -> hands_out (store a) order zs x s' -> Wf b s' ->
  CInv (with_core a s' b) /\ marks (store a) s' (fun g => in_block g x order) Allocated.
Proof.
  intros I Hact [[Hx Hle] Hal Hz Hfree Hc Hin Hout Hclean Howned] W. split.
  - constructor; cbn.
    + rewrite Hc. apply I.
    + done.
    + intros g Hg Hs. specialize (Hs Hact). unfold fstate in Hs. cbn in Hs.
      assert (Hg' : valid (store a) g) by (unfold valid in *; lia).
      destruct (decide (x <= g /\ g < x + block_len order)) as [Hb|Hb]; [by apply Hclean|].
      rewrite Hout in Hs by done. rewrite Howned by done. by apply I.
  - constructor; try done; eauto.
Qed.

Lemma zones_for_spec order min max x :
  0 <= x -> min <= x * PAGE_SIZE -> (x + block_len order) * PAGE_SIZE <= max ->
  zone_of x ∈ zones_for min max.
Proof.
  intros Hx Hlo Hhi. pose proof (block_len_pos order). unfold zones_for, BOUNDARY, PAGE_SIZE, zone_of in *.
  repeat case_if; set_solver by lia.
Qed.

Lemma fits_spec order min max x :
  max <= U64_MAX ->
  fits order min max x = true <-> min <= x * PAGE_SIZE /\ (x + block_len order) * PAGE_SIZE <= max.
Proof.
  intros Hm. unfold fits, order_bytes, order_pages, block_len, checked_add.
  rewrite Z.shiftl_mul_pow2, Z.mul_1_l by lia. case_if; rewrite andb_true_iff; split.
  - intros [? ?]. bool_to_prop. lia.
  - intros [? ?]. split; lia.
  - by intros [? ?].
  - intros [? ?]. exfalso. lia.
Qed.

Lemma candidate_same a a' order min max x :
  frame_count (store a') = frame_count (store a) ->
  (forall g, valid (store a) g -> fstate a' g = fstate a g) ->
  candidate a order min max x -> candidate a' order min max x.
Proof.
  intros Hc Hs (E1 & E2 & E3 & E4 & E5 & E6). unfold candidate. rewrite Hc. split_and!; try done.
  intros g Hg. rewrite Hs; [by apply E6|]. unfold valid, in_block in *. lia.
Qed.

(** A block that misses the exact bounds goes back; owners are as before. *)
Lemma return_block a order zs x b s' :
  CInv a -> buddy_active a = true -> (order <= MAX_ORDER)%nat ->
  Wf b s' -> hands_out (store a) order zs x s' ->
  exists b'' s'', Buddy.release b s' x order = Ok (b'', s'') /\ CInv (with_core a s'' b'') /\
    marks (store a) s'' (fun _ => False) Free.
Proof.
  intros I Hact Ho W HO. pose proof (hands_out_marks a b order zs x s' I Hact HO W) as [I1 M1].
  destruct HO as [[Hx Hle] Hal Hz Hfree Hc Hin Hout Hclean Howned].
  pose proof (BuddySpec.release_spec b s' x order W Hx Hclean) as Hrel.
  destruct (Buddy.release b s' x order) as [[b'' s'']|e].
  2: { destruct Hrel. split_and!; [done|lia|done|done]. }
  destruct Hrel as (W2 & F & _ & _). exists b'', s''. split; [done|].
  assert (Hv : forall g, valid s' g <-> valid (store a) g) by (intros; unfold valid; by rewrite Hc).
  assert (Hst : forall g, valid (store a) g -> state s'' g = state (store a) g).
  { intros g Hg. destruct (decide (x <= g /\ g < x + block_len order)) as [Hb|Hb].
    - rewrite (freed_in _ _ _ F) by (try apply Hv; done). symmetry. by apply Hfree.
    - rewrite (freed_out _ _ _ F) by (try apply Hv; done). by apply Hout. }
  assert (Hnode : forall g, valid (store a) g -> state (store a) g <> Free -> node s'' g = node (store a) g).
  { intros g Hg Hs. rewrite (freed_owned _ _ _ F); [by apply Howned|by apply Hv|by rewrite Hst]. }
  split.
  - constructor; cbn.
    + rewrite (freed_count _ _ _ F), Hc. apply I.
    + done.
    + intros g Hg Hs. specialize (Hs Hact). unfold fstate in Hs. cbn in Hs.
      assert (Hg' : valid (store a) g) by (unfold valid in *; rewrite (freed_count _ _ _ F), Hc in Hg; done).
      rewrite Hst in Hs by done. rewrite Hnode by done. by apply I.
  - constructor; [by rewrite (freed_count _ _ _ F)|done|by eauto|by eauto].
Qed.

Lemma allocate_frame_spec a order min max :
  CInv a -> (order <= MAX_ORDER)%nat -> 0 <= min -> max <= U64_MAX ->
  exists r a', allocate_frame a order min max = Some (r, a') /\ CInv a' /\ same_ctl a a' /\
    match r with
    | Ok x => candidate a order min max x /\
        marks (store a) (store a') (fun g => in_block g x order) Allocated
    | Err e => e = EOutOfMemory /\ (forall x, ~ candidate a order min max x) /\
        marks (store a) (store a') (fun _ => False) Free
    end.
Proof.
  intros I Ho Hmin Hmax. unfold allocate_frame. destruct (buddy_active a) eqn:Hact.
  2: { destruct (allocate_scan_spec a order min max I Hmin) as (r & a' & -> & I' & S' & Hr).
       exists r, a'. split_and!; try done. destruct r; [done|]. destruct Hr as (-> & Hn & ->).
       split_and!; try done. }
  pose proof (BuddySpec.allocate_spec (lists a) (store a) order (zones_for min max) (c_wf _ I Hact)) as Ha.
  destruct (Buddy.allocate (lists a) (store a) order (zones_for min max)) as [[x|] [b s]].
  - destruct Ha as [W HO]. destruct (fits order min max x) eqn:Hfit.
    + destruct (hands_out_marks a b order _ x s I Hact HO W) as [I1 M1].
      apply fits_spec in Hfit; [|done]. do 2 eexists. split; [done|]. split; [done|]. split; [done|].
      destruct HO as [[? ?] ? ? ? ? ? ? ?]. split; [|done]. by split_and!; try apply Hfit.
    + destruct (return_block a order _ x b s I Hact Ho W HO) as (b2 & s2 & -> & I2 & M2).
      destruct (allocate_scan_spec (with_core a s2 b2) order min max I2 Hmin) as (r & a' & -> & I' & S' & Hr).
      exists r, a'. split_and!; try done; [by destruct S'|].
      assert (Hcand : forall y, candidate (with_core a s2 b2) order min max y <-> candidate a order min max y).
      { intros y. split; apply candidate_same; cbn.
        - by rewrite (marks_count _ _ _ _ M2).
        - intros g Hg. symmetry. apply (marks_out _ _ _ _ M2); [|tauto]. by apply (marks_valid _ _ _ _ _ M2).
        - by rewrite (marks_count _ _ _ _ M2).
        - intros g Hg. apply (marks_out _ _ _ _ M2); [done|tauto]. }
      destruct r as [y|e].
      * destruct Hr as [Hy My]. split; [by apply Hcand|].
        assert (M3 : marks (store a) s2 (fun _ => False) Allocated) by (destruct M2; by constructor).
        eapply marks_proper; [|eapply marks_trans; [exact M3|exact My]].
        intros g _. cbv beta. tauto.
      * destruct Hr as (-> & Hn & ->). split_and!; try done. intros y Hy%Hcand. by eapply Hn.
  - destruct Ha as [[= -> ->] Hn]. do 2 eexists. split; [done|]. split_and!; try done.
    + destruct I; by constructor.
    + intros x (E1 & E2 & E3 & E4 & E5 & E6).
      destruct (Hn Ho x E1 E2 E3) as (g & Hg & Hs); [by eapply zones_for_spec|]. by apply Hs, E6.
Qed.

(** ** Release *)

Lemma frame_release_spec a frame order :
  CInv a -> 0 <= frame ->
  let x := frame / PAGE_SIZE in
  match FrameAlloc.release a frame order with
  | (Ok _, a') => CInv a' /\ same_ctl a a' /\ scan_cursor a' = scan_cursor a /\
      marks (store a) (store a') (fun g => in_block g x order) Free /\
      (order <= MAX_ORDER)%nat /\ (PAGE_SIZE | frame) /\ (block_len order | x) /\
      x + block_len order <= frame_count (store a) /\
      (forall g, in_block g x order -> fstate a g = Allocated)
  | (Err _, a') => a' = a /\
      ~ ((order <= MAX_ORDER)%nat /\ (PAGE_SIZE | frame) /\ x + block_len order <= frame_count (store a) /\
         (block_len order | x) /\ forall g, in_block g x order -> fstate a g = Allocated)
  end.
Proof.
  intros I Hf x. unfold FrameAlloc.release, order_is_valid.
  destruct (order <=? MAX_ORDER)%nat eqn:Ho; cbn [negb].
  2: { apply Nat.leb_gt in Ho. split; [done|]. lia. }
  apply Nat.leb_le in Ho. unfold index.
  assert (Hps : 0 < PAGE_SIZE) by (unfold PAGE_SIZE; lia). pose proof (block_len_pos order) as Hn.
  destruct (is_multiple_of frame PAGE_SIZE) eqn:Hal; cbn [negb].
  2: { split; [done|]. intros (_ & Hd & _). apply is_multiple_of_divide in Hd; [congruence|done]. }
  apply is_multiple_of_divide in Hal; [|done]. fold x.
  destruct (x <? frame_count (store a)) eqn:Hlt; bool_to_prop.
  2: { split; [done|]. lia. }
  assert (Hx : 0 <= x) by (by apply Z.div_pos).
  destruct (buddy_active a) eqn:Hact.
  - destruct (Buddy.release (lists a) (store a) x order) as [[b s]|e] eqn:Hrel.
    + pose proof (proj1 (release_ok_iff _ _ x order (c_range_magic _ I) Hx) (ex_intro _ _ Hrel))
        as (_ & Hle & Hbl & Hall).
      assert (Hu : forall g, in_block g x order -> magic (node (store a) g) <> head_tag g).
      { intros g Hg. apply I; [unfold valid, in_block in *; lia|]. intros _. unfold fstate. by rewrite Hall. }
      pose proof (BuddySpec.release_spec _ _ x order (c_wf _ I Hact) Hx Hu) as Hr. rewrite Hrel in Hr.
      destruct Hr as (W & F & _ & _). split_and!; try done.
      * constructor; cbn.
        -- rewrite (freed_count _ _ _ F). apply I.
        -- done.
        -- intros g Hg Hs. specialize (Hs Hact). unfold fstate in Hs. cbn in Hs.
           assert (Hg' : valid (store a) g) by (unfold valid in *; by rewrite (freed_count _ _ _ F) in Hg).
           rewrite (freed_owned _ _ _ F) by done. apply I; [done|]. intros _ Hc. apply Hs.
           by apply (freed_mono _ _ _ F).
      * destruct F. constructor; eauto.
    + split; [done|]. intros (_ & _ & Hle & Hd & Hall).
      destruct (proj2 (release_ok_iff (lists a) (store a) x order (c_range_magic _ I) Hx)) as [r Hr];
        [done|congruence].
  - pose proof (c_range_u64 _ I) as Hr64.
    destruct (is_multiple_of x (block_len order)) eqn:Hax; cbn [negb].
    2: { split; [done|]. intros (_ & _ & _ & Hd & _). apply is_multiple_of_divide in Hd; [congruence|done]. }
    assert (Hnot : forall y, y <> Allocated -> range_state a x (block_len order) y = true ->
      ~ (forall g, in_block g x order -> fstate a g = Allocated)).
    { intros y Hy [_ Hs]%range_state_spec Hc; [|done]. apply Hy. rewrite <- (Hs x) by lia.
      apply Hc, in_block_head. }
    destruct (range_state a x (block_len order) Reserved) eqn:Hr.
    { split; [done|]. intros (_ & _ & _ & _ & Hc). exact (Hnot Reserved ltac:(done) Hr Hc). }
    destruct (range_state a x (block_len order) Free) eqn:Hfr.
    { split; [done|]. intros (_ & _ & _ & _ & Hc). exact (Hnot Free ltac:(done) Hfr Hc). }
    destruct (range_state a x (block_len order) Allocated) eqn:Halc; cbn [negb].
    2: { split; [done|]. intros (_ & _ & Hle & _ & Hc). apply not_true_iff_false in Halc. apply Halc.
         apply range_state_spec; [done|]. split; [done|]. done. }
    apply range_state_spec in Halc as [Hle Hall]; [|done].
    apply is_multiple_of_divide in Hax; [|done].
    destruct (set_range_spec (store a) x (block_len order) Free) as [C Sin Sout N].
    { intros g Hg. unfold valid. lia. }
    split_and!; try done.
    + constructor; cbn; [rewrite C; apply I|congruence|]. intros g Hg _. rewrite N. apply I; [|congruence].
      unfold valid in *. by rewrite C in Hg.
Qed.

(** ** Giving reserved frames back *)

Lemma fold_unreserve l a :
  NoDup l -> (forall f, f ∈ l -> valid (store a) f) -> buddy_active a = false -> CInv a ->
  let a' := foldl (fun a f => if state_eqb (fstate a f) Reserved
                              then with_store a (set_state (store a) f Free) else a) a l in
  CInv a' /\ same_ctl a a' /\ scan_cursor a' = scan_cursor a /\
  marks (store a) (store a') (fun g => g ∈ l /\ fstate a g = Reserved) Free.
Proof.
  intros Hnd. revert a. induction Hnd as [|f l Hf Hnd IH]; intros a Hv Hact I; cbn [foldl].
  { split_and!; try done. eapply marks_proper; [|apply marks_refl]. set_solver. }
  set (a1 := if state_eqb (fstate a f) Reserved then _ else _).
  assert (H1 : CInv a1 /\ same_ctl a a1 /\ scan_cursor a1 = scan_cursor a /\
    marks (store a) (store a1) (fun g => f = g /\ fstate a g = Reserved) Free).
  { unfold a1, state_eqb. destruct (bool_decide_reflect (fstate a f = Reserved)) as [Hr|Hr].
    - pose proof (set_state_marks (store a) f Free ltac:(apply Hv; by left)) as M. split_and!; try done.
      + constructor; cbn.
        * rewrite frame_count_set_state. apply I.
        * congruence.
        * intros g Hg _. unfold valid in Hg. rewrite frame_count_set_state in Hg.
          rewrite node_set_state by (apply Hv; by left). apply I; [done|congruence].
      + eapply marks_proper; [|exact M]. intros g _. cbv beta. split; [by intros <-|by intros [<- _]].
    - split_and!; try done. eapply marks_proper; [|apply marks_refl]. intros g _. cbv beta.
      split; [done|]. by intros [<- ?]. }
  destruct H1 as (I1 & S1 & K1 & M1).
  assert (Hsame : forall g, g ∈ l -> fstate a1 g = fstate a g).
  { intros g Hg. apply (marks_out _ _ _ _ M1); [apply Hv; by right|]. intros [-> _]. done. }
  destruct (IH a1) as (I2 & S2 & K2 & M2).
  - intros g Hg. apply (marks_valid _ _ _ _ _ M1), Hv. by right.
  - rewrite (ctl_active _ _ S1). done.
  - done.
  - split_and!; [done|by etransitivity|congruence|].
    eapply marks_proper; [|by eapply marks_trans]. intros g _. cbv beta. rewrite elem_of_cons. split.
    + intros [[-> ?]|[? Hg]]; [by auto|]. rewrite Hsame in Hg by done. auto.
    + intros [[->|?] ?]; [by left|right]. split; [done|]. by rewrite Hsame.
Qed.

Lemma unreserve_spec a first last :
  CInv a -> 0 <= first ->
  let a' := unreserve a first last in
  CInv a' /\ same_ctl a a' /\ scan_cursor a' = scan_cursor a /\
  marks (store a) (store a') (reserved_in (store a) first (Z.min last (frame_count (store a)))) Free.
Proof.
  intros I Hf a'. unfold a', unreserve. destruct (buddy_active a) eqn:Hact.
  - destruct (insert_reserved_spec (lists a) (store a) first last (c_wf _ I Hact) Hf) as [W F].
    { intros g [Hg Hs]. apply I; [unfold valid; lia|]. intros _. unfold fstate. by rewrite Hs. }
    destruct (insert_reserved_range (lists a) (store a) first last) as [b s]. cbn [fst snd] in *.
    split_and!; try done.
    + constructor; cbn.
      * rewrite (freed_count _ _ _ F). apply I.
      * done.
      * intros g Hg Hs. specialize (Hs Hact). unfold fstate in Hs. cbn in Hs.
        assert (Hg' : valid (store a) g) by (unfold valid in *; by rewrite (freed_count _ _ _ F) in Hg).
        rewrite (freed_owned _ _ _ F) by done. apply I; [done|]. intros _ Hc. apply Hs.
        by apply (freed_mono _ _ _ F).
    + destruct F. constructor; eauto.
  - destruct (fold_unreserve (frames first (Z.min last (frame_count (store a)) - first)) a)
      as (I' & S' & K' & M'); [apply NoDup_frames| |done|done|].
    { intros g Hg%elem_of_frames. unfold valid. lia. }
    split_and!; try done. eapply marks_proper; [|exact M']. intros g _. cbv beta.
    rewrite elem_of_frames. unfold reserved_in, fstate. intuition lia.
Qed.
End Core.

(** * What the frame allocator promises the kernel

    The full invariant of [kernel/src/mm/frame.rs] (bitmap, lists, holds and
    reference counts together), its preservation by every public operation,
    and the contracts of those operations. *)

Section Invariant.
Context {St : Type} `{FrameStoreLaws St}.
Implicit Types (a : Allocator St).

(** A counter is zero exactly when its frame is not allocated. *)
Definition refs_ok a (r : list Z) : Prop :=
  Z.of_nat (length r) = frame_count (store a) /\
  forall f v, valid (store a) f -> r !! Z.to_nat f = Some v ->
    0 <= v <= U16_MAX /\ (v = 0 <-> fstate a f <> Allocated).

Record AInv a : Prop := {
  a_core : CInv a;
  a_holds : holds_wf (holds a);
  a_held id f : held (holds a) id f -> valid (store a) f /\ fstate a f = Reserved;
  a_refs r : refcounts a = Some r -> buddy_active a = true /\ refs_ok a r;
}.

(** Reserved and not part of any hold. *)
Definition permanent a (f : Z) : Prop :=
  valid (store a) f /\ fstate a f = Reserved /\ forall id, ~ held (holds a) id f.

(** Reference count of a frame, where one exists. *)
Definition refs_of a (f : Z) : option Z :=
  match refcounts a with Some r => r !! Z.to_nat f | None => None end.

Lemma page_div f : f * PAGE_SIZE / PAGE_SIZE = f.
Proof. apply Z.div_mul. unfold PAGE_SIZE. lia. Qed.

Lemma refcount_slot_eq a frame :
  refcount_slot a frame = (fun v => (Z.to_nat (frame / PAGE_SIZE), v)) <$> refs_of a (frame / PAGE_SIZE).
Proof.
  unfold refcount_slot, refs_of. destruct (refcounts a) as [r|]; [|done].
  by destruct (r !! Z.to_nat (frame / PAGE_SIZE)).
Qed.

(** Only the counters change: those of [l] that exist become [value]. *)
Record counts_set a (l : list Z) (value : Z) a' : Prop := {
  cs_eq : a' = with_refs a (refcounts a');
  cs_len : length <$> refcounts a' = length <$> refcounts a;
  cs_in f : 0 <= f -> f ∈ l -> refs_of a' f = (fun _ => value) <$> refs_of a f;
  cs_out f : 0 <= f -> f ∉ l -> refs_of a' f = refs_of a f;
}.

Lemma store_count_set a i v value :
  0 <= i -> refs_of a i = Some v -> counts_set a [i] value (store_count a (Z.to_nat i) value).
Proof.
  intros Hi Hv. unfold refs_of in Hv. destruct (refcounts a) as [r|] eqn:Hr; [|done].
  pose proof (lookup_lt_Some _ _ _ Hv) as Hlt. unfold store_count.
  constructor; unfold refs_of; cbn; rewrite ?Hr; cbn.
  - done.
  - by rewrite length_insert.
  - intros f _ ->%list_elem_of_singleton. rewrite list_lookup_insert_eq by done. by rewrite Hv.
  - intros f Hf Hne. apply list_lookup_insert_ne. rewrite list_elem_of_singleton in Hne. lia.
Qed.

Lemma counts_set_trans a1 a2 a3 l k value :
  counts_set a1 l value a2 -> counts_set a2 k value a3 -> counts_set a1 (l ++ k) value a3.
Proof.
  intros [E1 L1 I1 O1] [E2 L2 I2 O2]. constructor.
  - rewrite E2 at 1. by rewrite E1.
  - congruence.
  - intros f Hf Hlk. destruct (decide (f ∈ l)), (decide (f ∈ k)).
    + rewrite I2, I1 by done. by destruct (refs_of a1 f).
    + by rewrite O2, I1.
    + by rewrite I2, O1.
    + set_solver.
  - intros f Hf Hn. rewrite O2, O1 by set_solver. done.
Qed.

Lemma counts_set_nil a value : counts_set a [] value a.
Proof. constructor; try done; [by destruct a|]. set_solver. Qed.

(** [set_refcounts] stores [value] in the counters of the range. *)
Lemma set_refcounts_spec a first n value :
  0 <= first -> counts_set a (frames first n) value (set_refcounts a first n value).
Proof.
  intros Hf. unfold set_refcounts.
  assert (Hl : forall i, i ∈ frames first n -> 0 <= i) by (intros i Hi%elem_of_frames; lia).
  revert a. induction (frames first n) as [|i l IH]; intros a; cbn [foldl]; [apply counts_set_nil|].
  change (i :: l) with ([i] ++ l). eapply counts_set_trans; [|apply IH; intros j Hj; apply Hl; by right].
  assert (Hi : 0 <= i) by (apply Hl; by left).
  rewrite refcount_slot_eq, page_div. destruct (refs_of a i) as [v|] eqn:Hv; cbn.
  - by eapply store_count_set.
  - constructor; try done; [by destruct a|]. intros f _ ->%list_elem_of_singleton. by rewrite Hv.
Qed.

Lemma counts_set_fields a l value a' :
  counts_set a l value a' ->
  store a' = store a /\ lists a' = lists a /\ buddy_active a' = buddy_active a /\
  holds a' = holds a /\ memory_map a' = memory_map a /\ scan_cursor a' = scan_cursor a.
Proof. intros [-> _ _ _]. done. Qed.

Lemma CInv_counts a l value a' : counts_set a l value a' -> CInv a -> CInv a'.
Proof. intros [-> _ _ _] [R W C]. by constructor. Qed.

(** Every tracked frame has a counter once the array exists. *)
Lemma refs_of_total a f :
  AInv a -> valid (store a) f -> refcounts a <> None -> exists v, refs_of a f = Some v.
Proof.
  intros I Hv Hr. unfold refs_of. destruct (refcounts a) as [r|] eqn:E; [|done].
  destruct (a_refs _ I r E) as [_ [Hl _]]. apply lookup_lt_is_Some. unfold valid in Hv. lia.
Qed.

Lemma refs_of_ok a f v :
  AInv a -> valid (store a) f -> refs_of a f = Some v ->
  0 <= v <= U16_MAX /\ (v = 0 <-> fstate a f <> Allocated).
Proof.
  intros I Hv Hr. unfold refs_of in Hr. destruct (refcounts a) as [r|] eqn:E; [|done].
  destruct (a_refs _ I r E) as [_ [_ Hx]]. by apply Hx.
Qed.

(** Rebuild [refs_ok] from a statement about [refs_of]. *)
Lemma refs_intro a r :
  refcounts a = Some r -> Z.of_nat (length r) = frame_count (store a) ->
  (forall f v, valid (store a) f -> refs_of a f = Some v ->
     0 <= v <= U16_MAX /\ (v = 0 <-> fstate a f <> Allocated)) -> refs_ok a r.
Proof.
  intros E Hl Hx. split; [done|]. intros f v Hv Hr. apply Hx; [done|]. unfold refs_of. by rewrite E.
Qed.

(** Steps that neither allocate nor free, and keep the holds' frames reserved. *)
Lemma AInv_step a a' :
  AInv a -> CInv a' -> buddy_active a' = buddy_active a -> refcounts a' = refcounts a ->
  frame_count (store a') = frame_count (store a) -> holds_wf (holds a') ->
  (forall id f, held (holds a') id f -> valid (store a) f /\ fstate a' f = Reserved) ->
  (forall f, valid (store a) f -> fstate a' f = Allocated <-> fstate a f = Allocated) -> AInv a'.
Proof.
  intros I I' Hact Hr Hc W Hh Hs.
  assert (Hv : forall f, valid (store a') f <-> valid (store a) f) by (intros; unfold valid; by rewrite Hc).
  constructor; [done|done| |].
  - intros id f Hf. rewrite Hv. by eapply Hh.
  - intros r E. rewrite Hact. rewrite Hr in E. destruct (a_refs _ I r E) as [Ha [Hl Hx]]. split; [done|].
    split; [by rewrite Hc|]. intros f v Hf%Hv Hrv. destruct (Hx f v Hf Hrv). split; [done|]. rewrite Hs; done.
Qed.

(** ** Allocation *)

Lemma AInv_allocated a a1 a' x order :
  AInv a -> CInv a1 -> same_ctl a a1 -> (forall g, in_block g x order -> valid (store a) g) ->
  (forall g, in_block g x order -> fstate a g = Free) ->
  marks (store a) (store a1) (fun g => in_block g x order) Allocated ->
  counts_set a1 (frames x (block_len order)) 1 a' -> AInv a'.
Proof.
  intros I I1 S1 Hval Hfree M C. pose proof (CInv_counts _ _ _ _ C I1) as I'.
  destruct (counts_set_fields _ _ _ _ C) as (Es & _ & Ea & Eh & _ & _).
  assert (Hv : forall f, valid (store a') f <-> valid (store a) f).
  { intros f. rewrite Es. by apply (marks_valid _ _ _ _ _ M). }
  assert (Hst : forall f, fstate a' f = fstate a1 f) by (intros; unfold fstate; by rewrite Es).
  constructor; [done| | |].
  - rewrite Eh, (ctl_holds _ _ S1). apply I.
  - intros id f Hf. rewrite Eh, (ctl_holds _ _ S1) in Hf. destruct (a_held _ I _ _ Hf) as [Hvf Hr].
    split; [by apply Hv|]. rewrite Hst. unfold fstate. rewrite (marks_out _ _ _ _ M); [done|done|].
    intros Hb%Hfree. congruence.
  - intros r' E. assert (Hlen := cs_len _ _ _ _ C). rewrite E, (ctl_refs _ _ S1) in Hlen.
    destruct (refcounts a) as [r|] eqn:Er; [|done]. destruct (a_refs _ I r Er) as [Hact [Hl _]].
    split; [by rewrite Ea, (ctl_active _ _ S1)|]. injection Hlen as Hlen.
    apply refs_intro; [done|by rewrite Hlen, Es, (marks_count _ _ _ _ M)|].
    intros f v Hf%Hv Hrv. assert (Hf0 : 0 <= f) by (unfold valid in Hf; lia). rewrite Hst. unfold fstate.
    assert (Hra : refs_of a1 f = refs_of a f) by (unfold refs_of; by rewrite (ctl_refs _ _ S1)).
    destruct (decide (f ∈ frames x (block_len order))) as [Hin|Hin].
    + rewrite (cs_in _ _ _ _ C) in Hrv by done. destruct (refs_of a1 f); [|done]. simplify_eq/=.
      rewrite (marks_in _ _ _ _ M); [|done|by apply elem_of_frames]. split; [unfold U16_MAX; lia|]. by split.
    + rewrite (cs_out _ _ _ _ C), Hra in Hrv by done.
      rewrite (marks_out _ _ _ _ M); [by apply refs_of_ok|done|]. intros Hb. by apply Hin, elem_of_frames.
Qed.

(** What a successful [allocate] returns: an address in bounds, of frames that
    were free and are now the caller's, with one reference each. *)
Record allocated a (order : nat) (min max p : Z) a' : Prop := {
  al_page : (PAGE_SIZE | p);
  al_align : (order_bytes order | p);
  al_bounds : min <= p /\ p + order_bytes order <= max;
  al_free g : in_block g (p / PAGE_SIZE) order -> valid (store a) g /\ fstate a g = Free;
  al_marks : marks (store a) (store a') (fun g => in_block g (p / PAGE_SIZE) order) Allocated;
  al_count g : in_block g (p / PAGE_SIZE) order -> refs_of a' g = (fun _ => 1) <$> refs_of a g;
  al_other g : 0 <= g -> ~ in_block g (p / PAGE_SIZE) order -> refs_of a' g = refs_of a g;
}.

Lemma order_bytes_eq order : order_bytes order = block_len order * PAGE_SIZE.
Proof. unfold order_bytes, order_pages, block_len. by rewrite Z.shiftl_mul_pow2, Z.mul_1_l by lia. Qed.

Lemma frame_allocate_spec a order min max :
  AInv a -> 0 <= min -> max <= U64_MAX ->
  exists r a', FrameAlloc.allocate a order min max = Some (r, a') /\ AInv a' /\ holds a' = holds a /\
    buddy_active a' = buddy_active a /\
    match r with
    | Ok p => (order <= MAX_ORDER)%nat /\ allocated a order min max p a'
    | Err e =>
        marks (store a) (store a') (fun _ => False) Free /\ refcounts a' = refcounts a /\
        ((e = EInvalidOrder /\ (MAX_ORDER < order)%nat) \/
         (e = EOutOfMemory /\ (order <= MAX_ORDER)%nat /\ forall x, ~ candidate a order min max x))
    end.
Proof.
  intros I Hmin Hmax. unfold FrameAlloc.allocate, order_is_valid.
  destruct (order <=? MAX_ORDER)%nat eqn:Ho; cbn [negb].
  2: { apply Nat.leb_gt in Ho. do 2 eexists. split; [done|]. split_and!; try done.
       by left. }
  apply Nat.leb_le in Ho.
  destruct (allocate_frame_spec a order min max (a_core _ I) Ho Hmin Hmax) as (r & a1 & -> & I1 & S1 & Hr).
  destruct r as [x|e].
  - destruct Hr as [(E1 & E2 & E3 & E4 & E5 & E6) M]. do 2 eexists. split; [done|].
    pose proof (set_refcounts_spec a1 x (block_len order) 1 E1) as C.
    destruct (counts_set_fields _ _ _ _ C) as (Es & _ & Ea & Eh & _ & _).
    assert (Hra : forall f, refs_of a1 f = refs_of a f) by (intros; unfold refs_of; by rewrite (ctl_refs _ _ S1)).
    assert (Hval : forall g, in_block g x order -> valid (store a) g).
    { intros g. unfold in_block, valid. lia. }
    split; [by eapply AInv_allocated|]. split; [by rewrite Eh, (ctl_holds _ _ S1)|].
    split; [by rewrite Ea, (ctl_active _ _ S1)|]. split; [done|].
    constructor; rewrite ?page_div, ?order_bytes_eq.
    + apply Z.divide_factor_r.
    + by apply Z.mul_divide_mono_r.
    + lia.
    + intros g Hg. auto.
    + by rewrite Es.
    + intros g Hg. rewrite <- Hra. apply (cs_in _ _ _ _ C); [unfold in_block in Hg; lia|]. by apply elem_of_frames.
    + intros g Hg Hn. rewrite <- Hra. apply (cs_out _ _ _ _ C); [done|]. by rewrite elem_of_frames.
  - destruct Hr as (-> & Hn & M). do 2 eexists. split; [done|].
    split; [|split_and!; [apply S1|apply S1|done|apply S1|by right]].
    assert (Hst : forall f, valid (store a) f -> fstate a1 f = fstate a f).
    { intros f Hf. apply (marks_out _ _ _ _ M); [done|tauto]. }
    apply (AInv_step a a1 I I1); [apply S1|apply S1|apply M|rewrite (ctl_holds _ _ S1); apply I| |].
    + intros id f Hf. rewrite (ctl_holds _ _ S1) in Hf. destruct (a_held _ I _ _ Hf) as [Hvf Hr].
      split; [done|]. by rewrite Hst.
    + intros f Hf. by rewrite Hst.
Qed.

(** ** References *)

(** Steps that change owners and counters together, but no hold. *)
Lemma AInv_refs a a' :
  AInv a -> CInv a' -> buddy_active a' = buddy_active a -> holds a' = holds a ->
  frame_count (store a') = frame_count (store a) ->
  length <$> refcounts a' = length <$> refcounts a ->
  (forall f, valid (store a) f -> fstate a f = Reserved -> fstate a' f = Reserved) ->
  (forall f v, valid (store a) f -> refs_of a' f = Some v ->
     0 <= v <= U16_MAX /\ (v = 0 <-> fstate a' f <> Allocated)) -> AInv a'.
Proof.
  intros I I' Hact Hh Hc Hlen Hres Hrefs.
  assert (Hv : forall f, valid (store a') f <-> valid (store a) f) by (intros; unfold valid; by rewrite Hc).
  constructor; [done|rewrite Hh; apply I| |].
  - intros id f Hf. rewrite Hh in Hf. destruct (a_held _ I _ _ Hf) as [Hvf Hr]. rewrite Hv. auto.
  - intros r' E. rewrite E in Hlen. destruct (refcounts a) as [r|] eqn:Er; [|done].
    destruct (a_refs _ I r Er) as [Ha [Hl _]]. injection Hlen as Hlen. split; [congruence|].
    apply refs_intro; [done|congruence|]. intros f v Hf%Hv. by apply Hrefs.
Qed.

Lemma in_block_0 g x : in_block g x 0 <-> g = x.
Proof. unfold in_block. change (block_len 0) with 1. lia. Qed.

Lemma counts_set_same_state a l value a' f : counts_set a l value a' -> fstate a' f = fstate a f.
Proof. intros [-> _ _ _]. done. Qed.

(** Changing one counter of an allocated frame to another non-zero value. *)
Lemma AInv_recount a x v w :
  AInv a -> valid (store a) x -> refs_of a x = Some v -> v <> 0 -> 0 < w <= U16_MAX ->
  AInv (store_count a (Z.to_nat x) w).
Proof.
  intros I Hx Hv Hv0 Hw. assert (Hx0 : 0 <= x) by (unfold valid in Hx; lia).
  pose proof (store_count_set a x v w Hx0 Hv) as C.
  apply (AInv_refs a); try done; [by eapply CInv_counts, I|apply C|].
  intros f u Hf Hu. assert (Hf0 : 0 <= f) by (unfold valid in Hf; lia).
  rewrite (counts_set_same_state _ _ _ _ _ C). destruct (decide (f = x)) as [->|Hne].
  - rewrite (cs_in _ _ _ _ C), Hv in Hu by (try done; by left). simplify_eq/=.
    destruct (refs_of_ok _ _ _ I Hx Hv) as [_ Hz]. split; [lia|]. split; [lia|]. intros Hn. by apply Hz in Hn.
  - rewrite (cs_out _ _ _ _ C) in Hu; [by apply refs_of_ok|done|]. by rewrite list_elem_of_singleton.
Qed.

(** Releasing an allocated block whose counters were just cleared. *)
Lemma release_cleared a a1 x order :
  AInv a -> valid (store a) x -> (order <= MAX_ORDER)%nat -> (block_len order | x) ->
  x + block_len order <= frame_count (store a) ->
  (forall g, in_block g x order -> fstate a g = Allocated) ->
  counts_set a (frames x (block_len order)) 0 a1 ->
  exists a', FrameAlloc.release a1 (x * PAGE_SIZE) order = (Ok tt, a') /\ AInv a' /\ holds a' = holds a /\
    (forall g, refs_of a' g = refs_of a1 g) /\
    marks (store a) (store a') (fun g => in_block g x order) Free.
Proof.
  intros I Hx Ho Hal Hle Hall C. assert (Hx0 : 0 <= x) by (unfold valid in Hx; lia).
  destruct (counts_set_fields _ _ _ _ C) as (Es & _ & Ea & Eh & _ & _).
  pose proof (frame_release_spec a1 (x * PAGE_SIZE) order (CInv_counts _ _ _ _ C (a_core _ I))) as Hrel.
  cbv zeta in Hrel. rewrite page_div in Hrel. specialize (Hrel ltac:(unfold PAGE_SIZE; lia)).
  assert (Hst : forall g, fstate a1 g = fstate a g) by (intros; by eapply counts_set_same_state).
  destruct (FrameAlloc.release a1 (x * PAGE_SIZE) order) as [[[]|e] a'].
  2: { destruct Hrel as [_ []]. rewrite Es. split_and!; [done|apply Z.divide_factor_r|done|done|].
       intros g. rewrite Hst. apply Hall. }
  destruct Hrel as (I' & S' & _ & M & _). rewrite Es in M. exists a'. split; [done|].
  assert (Hr : forall g, refs_of a' g = refs_of a1 g) by (intros; unfold refs_of; by rewrite (ctl_refs _ _ S')).
  split; [|split_and!; [by rewrite (ctl_holds _ _ S')|done|done]].
  apply (AInv_refs a); [done|done|by rewrite (ctl_active _ _ S')|by rewrite (ctl_holds _ _ S')|apply M
    |rewrite (ctl_refs _ _ S'); apply C| |].
  - intros f Hf Hs. unfold fstate. rewrite (marks_out _ _ _ _ M); [done|done|]. intros Hb%Hall. congruence.
  - intros f v Hf Hv. rewrite Hr in Hv. assert (Hf0 : 0 <= f) by (unfold valid in Hf; lia). unfold fstate.
    destruct (decide (f ∈ frames x (block_len order))) as [Hin|Hin].
    + rewrite (cs_in _ _ _ _ C) in Hv by done. destruct (refs_of a f); [|done]. simplify_eq/=.
      rewrite (marks_in _ _ _ _ M); [|done|by apply elem_of_frames]. split; [unfold U16_MAX; lia|done].
    + rewrite (cs_out _ _ _ _ C) in Hv by done. rewrite (marks_out _ _ _ _ M); [by apply refs_of_ok|done|].
      intros Hb. by apply Hin, elem_of_frames.
Qed.

Lemma free_frame_spec a x :
  AInv a -> valid (store a) x -> refcounts a <> None ->
  match free_frame a (x * PAGE_SIZE) with
  | Some a' => exists v, refs_of a x = Some v /\ 0 < v /\ fstate a x = Allocated /\
      AInv a' /\ holds a' = holds a /\ refs_of a' x = Some (v - 1) /\
      (forall g, 0 <= g -> g <> x -> refs_of a' g = refs_of a g) /\
      marks (store a) (store a') (fun g => g = x /\ v = 1) Free
  | None => fstate a x <> Allocated
  end.
Proof.
  intros I Hx Hr. assert (Hx0 : 0 <= x) by (unfold valid in Hx; lia).
  destruct (refs_of_total a x I Hx Hr) as [v Hv]. destruct (refs_of_ok _ _ _ I Hx Hv) as [Hb Hz].
  unfold free_frame. rewrite refcount_slot_eq, page_div, Hv. cbn [fmap option_fmap option_map].
  pose proof (store_count_set a x v (v - 1) Hx0 Hv) as C.
  case_if; [by apply Hz|]. assert (Hal : fstate a x = Allocated) by (destruct (decide (fstate a x = Allocated)); tauto).
  assert (Hrest : forall a', (forall g, refs_of a' g = refs_of (store_count a (Z.to_nat x) (v - 1)) g) ->
    refs_of a' x = Some (v - 1) /\ forall g, 0 <= g -> g <> x -> refs_of a' g = refs_of a g).
  { intros a' Ha'. rewrite Ha', (cs_in _ _ _ _ C), Hv by (try done; by left). split; [done|].
    intros g Hg Hne. rewrite Ha'. apply (cs_out _ _ _ _ C); [done|]. by rewrite list_elem_of_singleton. }
  case_if.
  - subst v. destruct (release_cleared a (store_count a (Z.to_nat x) 0) x 0) as (a' & Hrel & I' & Hh & Hg & M).
    + done.
    + done.
    + lia.
    + apply Z.divide_1_l.
    + change (block_len 0) with 1. unfold valid in Hx. lia.
    + intros g ->%in_block_0. done.
    + exact C.
    + change (1 - 1) with 0. rewrite Hrel. exists 1. destruct (Hrest a' Hg). split_and!; try done.
      eapply marks_proper; [|exact M]. intros g _. rewrite in_block_0. by intuition.
  - exists v. destruct (Hrest _ (fun g => eq_refl)). split_and!; try done; [lia|by eapply AInv_recount; try done; lia|].
    eapply marks_proper; [|apply marks_refl]. intros g _. cbv beta. intuition.
Qed.

Lemma frame_get_spec a x :
  AInv a -> valid (store a) x ->
  match frame_get a (x * PAGE_SIZE) with
  | Ok a' => AInv a' /\ exists v, refs_of a x = Some v /\ counts_set a [x] (v + 1) a'
  | Err e => e = ENotShareable /\
      (refcounts a = None \/ fstate a x <> Allocated \/ refs_of a x = Some U16_MAX)
  end.
Proof.
  intros I Hx. assert (Hx0 : 0 <= x) by (unfold valid in Hx; lia).
  unfold frame_get. rewrite refcount_slot_eq, page_div. destruct (refs_of a x) as [v|] eqn:Hv; cbn.
  - destruct (refs_of_ok _ _ _ I Hx Hv) as [Hb Hz]. case_if.
    + split; [eapply AInv_recount; try done; lia|]. exists v. split; [done|]. by eapply store_count_set.
    + split; [done|]. right. destruct Hif; bool_to_prop; [left; by apply Hz|right; congruence].
  - split; [done|]. left. destruct (refcounts a) eqn:E; [|done]. exfalso.
    destruct (refs_of_total a x I Hx) as [v ?]; congruence.
Qed.

Lemma clear_counts l a :
  (forall i, i ∈ l -> 0 <= i) -> NoDup l ->
  match fold_panic (fun a i => match refcount_slot a (i * PAGE_SIZE) with
                               | Some (k, v) => if v =? 1 then Some (store_count a k 0) else None
                               | None => Some a
                               end) a l with
  | Some a1 => counts_set a l 0 a1 /\ forall i v, i ∈ l -> refs_of a i = Some v -> v = 1
  | None => exists i v, i ∈ l /\ refs_of a i = Some v /\ v <> 1
  end.
Proof.
  intros Hl Hnd. revert a. induction Hnd as [|i l Hi Hnd IH]; intros a; cbn [fold_panic].
  { split; [apply counts_set_nil|set_solver]. }
  rewrite refcount_slot_eq, page_div. assert (Hi0 : 0 <= i) by (apply Hl; by left).
  assert (Hl' : forall j, j ∈ l -> 0 <= j) by (intros j Hj; apply Hl; by right).
  destruct (refs_of a i) as [v|] eqn:Hv; cbn [fmap option_fmap option_map].
  - case_if; [subst v|exists i, v; split; [by left|done]].
    pose proof (store_count_set a i 1 0 Hi0 Hv) as C. specialize (IH Hl' (store_count a (Z.to_nat i) 0)).
    assert (Hsame : forall j, j ∈ l -> refs_of (store_count a (Z.to_nat i) 0) j = refs_of a j).
    { intros j Hj. apply (cs_out _ _ _ _ C); [by apply Hl'|]. rewrite list_elem_of_singleton. by intros ->. }
    destruct (fold_panic _ _ l) as [a1|].
    + destruct IH as [C1 H1]. split; [change (i :: l) with ([i] ++ l); by eapply counts_set_trans|].
      intros j w [->|Hj]%elem_of_cons Hw; [congruence|]. eapply H1; [done|]. by rewrite Hsame.
    + destruct IH as (j & w & Hj & Hw & Hne). exists j, w. rewrite Hsame in Hw by done. split; [by right|done].
  - specialize (IH Hl' a). destruct (fold_panic _ _ l) as [a1|].
    + destruct IH as [[E1 E2 E3 E4] H1]. split.
      * constructor; [done|done| |].
        -- intros f Hf [->|Hin]%elem_of_cons; [|by apply E3]. by rewrite E4, Hv.
        -- intros f Hf Hn. apply E4; [done|set_solver].
      * intros j w [->|Hj]%elem_of_cons Hw; [congruence|]. by eapply H1.
    + destruct IH as (j & w & Hj & Hw). exists j, w. split; [by right|done].
Qed.

(** Contiguous blocks go back whole, and only while nobody shares a frame. *)
Lemma release_contiguous_spec a x order :
  AInv a -> 0 <= x -> refcounts a <> None ->
  match release_contiguous a (x * PAGE_SIZE) order with
  | Some a' => AInv a' /\ holds a' = holds a /\
      (forall g, in_block g x order -> refs_of a g = Some 1 /\ refs_of a' g = Some 0) /\
      marks (store a) (store a') (fun g => in_block g x order) Free
  | None => ~ ((order <= MAX_ORDER)%nat /\ (block_len order | x) /\
      forall g, in_block g x order -> refs_of a g = Some 1)
  end.
Proof.
  intros I Hx Hr. unfold release_contiguous. rewrite page_div.
  pose proof (clear_counts (frames x (block_len order)) a) as Hc.
  assert (Hpos : forall i, i ∈ frames x (block_len order) -> 0 <= i) by (intros i Hi%elem_of_frames; lia).
  specialize (Hc Hpos (NoDup_frames _ _)). destruct (fold_panic _ a _) as [a1|].
  2: { destruct Hc as (i & v & Hi%elem_of_frames & Hv & Hne). intros (_ & _ & Hall). rewrite Hall in Hv by done.
       congruence. }
  destruct Hc as [C H1]. destruct (counts_set_fields _ _ _ _ C) as (Es & _ & _ & _ & _ & _).
  assert (Hst : forall g, fstate a1 g = fstate a g) by (intros; by eapply counts_set_same_state).
  assert (Hx' : valid (store a) x -> exists v, refs_of a x = Some v) by (intros; by apply refs_of_total).
  pose proof (frame_release_spec a1 (x * PAGE_SIZE) order (CInv_counts _ _ _ _ C (a_core _ I))) as Hrel.
  cbv zeta in Hrel. rewrite page_div, Es in Hrel. specialize (Hrel ltac:(unfold PAGE_SIZE; lia)).
  destruct (FrameAlloc.release a1 (x * PAGE_SIZE) order) as [[[]|e] a'] eqn:Heq.
  - destruct Hrel as (_ & _ & _ & _ & Ho & _ & Hal & Hle & Hall). pose proof (block_len_pos order) as Hn.
    destruct (release_cleared a a1 x order) as (a2 & Heq2 & I' & Hh & Hg & M); try done.
    { unfold valid. lia. }
    { intros g Hg. rewrite <- Hst. by apply Hall. }
    rewrite Heq in Heq2. injection Heq2 as ->. split_and!; try done. intros g Hg'.
    destruct (refs_of_total a g I) as [v Hv]; [unfold valid, in_block in *; lia|done|].
    assert (g ∈ frames x (block_len order)) by (by apply elem_of_frames).
    assert (v = 1) as -> by (by eapply H1). split; [done|].
    rewrite Hg, (cs_in _ _ _ _ C), Hv; try done. by apply Hpos.
  - destruct Hrel as [_ Hno]. intros (Ho & Hal & Hall). apply Hno. split_and!; try done; [apply Z.divide_factor_r| |].
    + destruct (refcounts a) as [r|] eqn:Er; [|done]. destruct (a_refs _ I r Er) as [_ [Hl _]].
      pose proof (block_len_pos order) as Hn.
      assert (Hlast : refs_of a (x + block_len order - 1) = Some 1) by (apply Hall; unfold in_block; lia).
      unfold refs_of in Hlast. rewrite Er in Hlast. apply lookup_lt_Some in Hlast. lia.
    + intros g Hg. rewrite Hst. assert (Hv : valid (store a) g).
      { destruct (refcounts a) as [r|] eqn:Er; [|done]. destruct (a_refs _ I r Er) as [_ [Hl _]].
        pose proof (Hall g Hg) as Hlast. unfold refs_of in Hlast. rewrite Er in Hlast.
        apply lookup_lt_Some in Hlast. unfold valid, in_block in *. lia. }
      destruct (refs_of_ok a g 1 I Hv (Hall g Hg)) as [_ Hz].
      destruct (decide (fstate a g = Allocated)); [done|]. apply Hz in n. lia.
Qed.

(** ** Reservations and holds *)

(** Permanent reservations only ever add permanently reserved frames. *)
Lemma reserve_range_spec a start fin :
  AInv a -> 0 <= start ->
  exists r a', reserve_range a start fin = Some (r, a') /\ AInv a' /\ refcounts a' = refcounts a /\
    (forall id f, held (holds a') id f -> held (holds a) id f) /\
    match r with
    | Ok _ => marks (store a) (store a') (in_bytes start fin) Reserved /\
        forall g, in_bytes start fin g -> permanent a' g
    | Err _ => a' = a
    end.
Proof.
  intros I Hs. unfold reserve_range.
  destruct (reserve_spec a start fin (a_core _ I) Hs) as (r & a1 & -> & Hr).
  destruct r as [[]|e]; [|by destruct Hr as [-> _]; do 2 eexists].
  destruct Hr as (I1 & S1 & _ & M & _ & _ & Hb & Hna).
  assert (Hs0 : 0 <= start / PAGE_SIZE) by (apply Z.div_pos; unfold PAGE_SIZE; lia).
  destruct (punch_spec (holds a1) (start / PAGE_SIZE) (fin / PAGE_SIZE)) as (W & _ & Hsub & _); [|lia|].
  { rewrite (ctl_holds _ _ S1). apply I. }
  set (h := (punch (holds a1) (start / PAGE_SIZE) (fin / PAGE_SIZE)).2) in *.
  rewrite (ctl_holds _ _ S1) in Hsub.
  assert (Hst : forall f, valid (store a) f -> fstate a f = Reserved -> fstate a1 f = Reserved).
  { intros f Hf Hr. destruct (decide (start / PAGE_SIZE <= f /\ f < fin / PAGE_SIZE)).
    - by apply (marks_in _ _ _ _ M).
    - unfold fstate. rewrite (marks_out _ _ _ _ M); done. }
  do 2 eexists. split; [done|]. split_and!.
  - apply (AInv_step a); try done; [by destruct I1|apply S1|apply S1|apply M| |].
    + intros id f Hf. destruct (Hsub _ _ Hf) as [Hh _]. destruct (a_held _ I _ _ Hh) as [Hv Hr].
      split; [done|]. by apply Hst.
    + intros f Hf. cbn. destruct (decide (start / PAGE_SIZE <= f /\ f < fin / PAGE_SIZE)) as [Hin|Hin].
      * unfold fstate. cbn. rewrite (marks_in _ _ _ _ M) by done. split; [done|]. intros Ha. by destruct (Hna f Hin).
      * unfold fstate. cbn. by rewrite (marks_out _ _ _ _ M).
  - apply S1.
  - intros id f Hf. by apply Hsub.
  - done.
  - intros g Hg. assert (Hv : valid (store a) g) by (unfold valid, in_bytes in *; lia). split_and!.
    + by apply (marks_valid _ _ _ _ g M).
    + by apply (marks_in _ _ _ _ M).
    + intros id Hh. by apply Hsub in Hh as [_ Hn].
Qed.

(** One free run is reserved and recorded under the hold. *)
Lemma hold_run_spec a id x fin :
  AInv a -> 0 <= x < fin -> fin <= frame_count (store a) -> id <= next_id (holds a) ->
  (forall g, x <= g < fin -> fstate a g = Free) ->
  exists r a1, reserve a (x * PAGE_SIZE) (fin * PAGE_SIZE) = Some (r, a1) /\
    let a2 := if is_ok r then with_holds a1 (add (holds a1) id x fin).2 else a1 in
    AInv a2 /\ refcounts a2 = refcounts a /\ next_id (holds a2) = next_id (holds a) /\
    marks (store a) (store a2) (fun g => x <= g < fin) Reserved /\
    (forall id' f, held (holds a2) id' f -> held (holds a) id' f \/ (id' = id /\ x <= f < fin)) /\
    (forall id' f, held (holds a) id' f -> held (holds a2) id' f).
Proof.
  intros I Hx Hfin Hid Hfree. assert (Hps : 0 < PAGE_SIZE) by (unfold PAGE_SIZE; lia).
  destruct (reserve_spec a (x * PAGE_SIZE) (fin * PAGE_SIZE) (a_core _ I)) as (r & a1 & Heq & Hr); [lia|].
  unfold in_bytes in Hr. rewrite !page_div in Hr. destruct r as [[]|e].
  2: { destruct Hr as [_ []]. split_and!; try apply Z.divide_factor_r; try lia.
       intros g Hg. by rewrite Hfree. }
  destruct Hr as (I1 & S1 & _ & M & _). exists (Ok tt), a1. split; [done|]. cbn [is_ok].
  assert (Hfresh : forall id' f, x <= f < fin -> ~ held (holds a1) id' f).
  { intros id' f Hf Hh. rewrite (ctl_holds _ _ S1) in Hh. destruct (a_held _ I _ _ Hh) as [_ Hr].
    rewrite Hfree in Hr by done. done. }
  destruct (add_wf (holds a1) id x fin) as (W & Hsub & _ & Hsup); [|by rewrite (ctl_holds _ _ S1)|done|].
  { rewrite (ctl_holds _ _ S1). apply I. }
  destruct (add_length (holds a1) id x fin) as [_ Hn]. rewrite (ctl_holds _ _ S1) in *.
  split_and!; cbn [with_holds holds refcounts store]; try done; [|apply S1].
  apply (AInv_step a); try done; [by destruct I1|apply S1|apply S1|apply M| |].
  - intros id' f Hf. destruct (Hsub _ _ Hf) as [Hh|[_ Hin]].
    + destruct (a_held _ I _ _ Hh) as [Hv Hr]. split; [done|]. unfold fstate. cbn.
      rewrite (marks_out _ _ _ _ M); [done|done|]. intros Hin%Hfree. congruence.
    + assert (Hv : valid (store a) f) by (unfold valid; lia). split; [done|]. by apply (marks_in _ _ _ _ M).
  - intros f Hf. unfold fstate. cbn. destruct (decide (x <= f /\ f < fin)) as [Hin|Hin].
    + rewrite (marks_in _ _ _ _ M) by done. split; [done|]. intros Ha. pose proof (Hfree f Hin). unfold fstate in *.
      congruence.
    + by rewrite (marks_out _ _ _ _ M).
Qed.

Lemma hold_loop_spec fuel a id x last :
  AInv a -> 0 <= x -> last <= frame_count (store a) -> (Z.to_nat (last - x) <= fuel)%nat ->
  id <= next_id (holds a) ->
  exists a', hold_loop fuel a id x last = Some a' /\ AInv a' /\ refcounts a' = refcounts a /\
    marks (store a) (store a') (fun g => x <= g < last /\ fstate a g = Free) Reserved /\
    (forall id' f, held (holds a') id' f ->
       held (holds a) id' f \/ (id' = id /\ x <= f < last /\ fstate a f = Free)) /\
    (forall id' f, held (holds a) id' f -> held (holds a') id' f).
Proof.
  revert a x. induction fuel as [|fuel IH]; intros a x I Hx Hlast Hfuel Hid; cbn [hold_loop].
  { exists a. split_and!; try done; [|by left]. eapply marks_proper; [|apply marks_refl]. intros g _. cbv beta. lia. }
  destruct (x <? last) eqn:Hlt; bool_to_prop.
  2: { exists a. split_and!; try done; [|by left]. eapply marks_proper; [|apply marks_refl].
       intros g _. cbv beta. lia. }
  unfold state_eqb. destruct (bool_decide_reflect (fstate a x = Free)) as [Hf|Hf]; cbn [negb].
  - destruct (run_end_spec (Z.to_nat (last - x)) (store a) x last Free) as (Hr & Hfree & Hstop); [lia|lia|].
    pose proof (run_end_progress (store a) x last Free Hlt Hf) as Hprog.
    set (fin := run_end _ (store a) x last Free) in *.
    destruct (hold_run_spec a id x fin) as (r & a1 & -> & Hrun); [done|lia|lia|done|done|].
    cbv zeta in Hrun. set (a2 := if is_ok r then _ else _) in *.
    destruct Hrun as (I2 & R2 & N2 & M2 & Hs2 & Hk2).
    destruct (IH a2 fin) as (a3 & -> & I3 & R3 & M3 & Hs3 & Hk3).
    + done.
    + lia.
    + by rewrite (marks_count _ _ _ _ M2).
    + lia.
    + by rewrite N2.
    + assert (Hsame : forall g, fin <= g < last -> fstate a2 g = fstate a g).
      { intros g Hg. apply (marks_out _ _ _ _ M2); [unfold valid; lia|lia]. }
      exists a3. split_and!; try done; [congruence| | |by eauto].
      * eapply marks_proper; [|by eapply marks_trans]. intros g Hg. cbv beta. split.
        -- intros [Hin|[Hin Hs]]; [split; [lia|by apply Hfree]|]. rewrite Hsame in Hs by done. split; [lia|done].
        -- intros [Hin Hs]. destruct (decide (g < fin)); [left; lia|right].
           split; [lia|]. rewrite Hsame; [done|lia].
      * intros id' f Hh. destruct (Hs3 _ _ Hh) as [Hh'|(-> & Hin & Hs)].
        -- destruct (Hs2 _ _ Hh') as [|[-> Hin]]; [by left|right]. split_and!; [done|lia|lia|by apply Hfree].
        -- rewrite Hsame in Hs by done. right. split_and!; [done|lia|lia|done].
  - destruct (IH a (x + 1)) as (a3 & -> & I3 & R3 & M3 & Hs3 & Hk3); [done|lia|done|lia|done|].
    assert (Hne : forall g, fstate a g = Free -> g <> x) by (intros g Hg ->; done).
    exists a3. split_and!; try done.
    + eapply marks_proper; [|exact M3]. intros g _. cbv beta. split; intros [Hin Hs]; pose proof (Hne g Hs); split; try done; lia.
    + intros id' f Hh. destruct (Hs3 _ _ Hh) as [|(-> & Hin & Hs)]; [by left|right]. split_and!; [done|lia|lia|done].
Qed.

Lemma new_id_wf t : holds_wf t -> holds_wf (new_id t).2.
Proof.
  intros [W1 W2 W3]. constructor; cbn; [done| |exact W3].
  intros id f Hf. specialize (W2 id f Hf). lia.
Qed.

(** [hold_range] takes exactly the free frames of the range, under a fresh id. *)
Lemma hold_range_spec a start fin :
  AInv a -> 0 <= start ->
  exists r a', hold_range a start fin = Some (r, a') /\ AInv a' /\ refcounts a' = refcounts a /\
    (forall id' f, held (holds a) id' f -> held (holds a') id' f) /\
    match r with
    | Some id =>
        let first := start / PAGE_SIZE in
        let last := Z.min (div_ceil fin PAGE_SIZE) (frame_count (store a)) in
        (forall f, ~ held (holds a) id f) /\
        marks (store a) (store a') (fun g => first <= g < last /\ fstate a g = Free) Reserved /\
        (forall id' f, held (holds a') id' f ->
           held (holds a) id' f \/ (id' = id /\ first <= f < last /\ fstate a f = Free))
    | None => a' = a
    end.
Proof.
  intros I Hs. unfold hold_range. case_if; [by exists None, a|].
  assert (Hs0 : 0 <= start / PAGE_SIZE) by (apply Z.div_pos; unfold PAGE_SIZE; lia).
  pose proof (new_id_wf _ (a_holds _ I)) as Wn. destruct (new_id (holds a)) as [id h] eqn:Hn.
  unfold new_id in Hn. injection Hn as <- <-. cbn [snd] in Wn.
  set (a0 := with_holds a (mkHolds (ranges (holds a)) (next_id (holds a) + 1))).
  assert (I0 : AInv a0).
  { apply (AInv_step a); try done; [by destruct (a_core _ I)|]. intros id f Hf. exact (a_held _ I id f Hf). }
  destruct (hold_loop_spec (Z.to_nat (Z.min (div_ceil fin PAGE_SIZE) (frame_count (store a)) - start / PAGE_SIZE))
    a0 (next_id (holds a) + 1) (start / PAGE_SIZE) (Z.min (div_ceil fin PAGE_SIZE) (frame_count (store a))))
    as (a' & -> & I' & R' & M' & Hs' & Hk'); [done|done|cbn; lia|lia|cbn; lia|].
  do 2 eexists. split; [done|]. split_and!; try done.
  intros f Hf. pose proof (wf_id _ (a_holds _ I) _ _ Hf). lia.
Qed.

(** Ranges handed to [unreserve] one after another. *)
Lemma fold_release l a :
  CInv a -> (forall p f, p ∈ l -> p.1 <= f < p.2 -> valid (store a) f) ->
  let a' := foldl (fun a p => unreserve a p.1 p.2) a l in
  CInv a' /\ same_ctl a a' /\
  marks (store a) (store a') (fun g => exists p, p ∈ l /\ p.1 <= g < p.2 /\ fstate a g = Reserved) Free.
Proof.
  revert a. induction l as [|[x y] l IH]; intros a I Hl; cbn [foldl].
  { split_and!; try done. eapply marks_proper; [|apply marks_refl]. intros g _. set_solver. }
  assert (H1 : CInv (unreserve a x y) /\ same_ctl a (unreserve a x y) /\
    marks (store a) (store (unreserve a x y)) (reserved_in (store a) x y) Free).
  { destruct (decide (x < y)) as [Hxy|Hxy].
    - pose proof (Hl (x, y) x ltac:(by left) ltac:(simpl; lia)) as Hx.
      pose proof (Hl (x, y) (y - 1) ltac:(by left) ltac:(simpl; lia)) as Hy. unfold valid in Hx, Hy.
      destruct (unreserve_spec a x y I) as (I1 & S1 & _ & M1); [lia|]. split_and!; try done.
      by replace (Z.min y (frame_count (store a))) with y in M1 by lia.
    - assert (Hz : forall m, Z.to_nat (Z.min y m - x) = 0%nat) by lia.
      assert (Hu : CInv (unreserve a x y) /\ same_ctl a (unreserve a x y) /\ store (unreserve a x y) = store a).
      { unfold unreserve, insert_reserved_range. rewrite Hz. cbn [insert_reserved_loop].
        destruct (buddy_active a) eqn:Hact; [split_and!; [by destruct I; constructor; cbn; eauto|by constructor|done]|].
        replace (frames x (Z.min y (frame_count (store a)) - x)) with (@nil Z); [done|].
        unfold frames, seqZ. by rewrite Hz. }
      destruct Hu as (I1 & S1 & Es). split_and!; try done. rewrite Es.
      eapply marks_proper; [|apply marks_refl]. unfold reserved_in. intros g _. lia. }
  destruct H1 as (I1 & S1 & M1).
  destruct (IH (unreserve a x y) I1) as (I2 & S2 & M2).
  { intros p f Hp Hf. apply (marks_valid _ _ _ _ f M1). eapply Hl; [by right|done]. }
  split_and!; [done|by etransitivity|].
  eapply marks_proper; [|by eapply marks_trans]. intros g Hg. cbv beta. split.
  - intros [[Hin Hs]|(p & Hp & Hin & Hs)]; [exists (x, y); split; [by left|done]|].
    exists p. split; [by right|]. split; [done|]. unfold fstate in *.
    destruct (decide (x <= g /\ g < y /\ state (store a) g = Reserved)) as [(E1 & E2 & E3)|Hn]; [done|].
    rewrite (marks_out _ _ _ _ M1) in Hs; [done|done|]. unfold reserved_in. tauto.
  - intros (p & [->|Hp]%elem_of_cons & Hin & Hs); [by left|].
    destruct (decide (x <= g /\ g < y)) as [Hxy|Hxy]; [left; by split|right]. exists p. split_and!; try done; try lia.
    unfold fstate. rewrite (marks_out _ _ _ _ M1); [done|done|]. unfold reserved_in. tauto.
Qed.

(** [release_hold] frees exactly the frames still recorded under the id. *)
Lemma release_hold_spec a id :
  AInv a ->
  let a' := release_hold a id in
  AInv a' /\ refcounts a' = refcounts a /\
  marks (store a) (store a') (held (holds a) id) Free /\
  (forall id' f, held (holds a') id' f <-> held (holds a) id' f /\ id' <> id).
Proof.
  intros I a'. unfold a', release_hold.
  destruct (release_table_spec (holds a) id (fun a first last => unreserve a first last) a (a_holds _ I))
    as (W & _ & Heq & Hh).
  destruct (release_table _ _ _ _) as [h a1]. cbn [fst snd] in *. subst a1.
  destruct (fold_release (ranges_of id (ranges (holds a))) a (a_core _ I)) as (I1 & S1 & M1).
  { intros p f Hp Hf. apply (a_held _ I id f). apply ranges_of_held. by exists p. }
  set (a1 := foldl _ a _) in *.
  assert (M : marks (store a) (store a1) (held (holds a) id) Free).
  { eapply marks_proper; [|exact M1]. intros g _. cbv beta. rewrite <- ranges_of_held. split.
    - intros (p & Hp & Hin & _). by exists p.
    - intros (p & Hp & Hin). exists p. split_and!; try done; try lia. apply (a_held _ I id g).
      apply ranges_of_held. by exists p. }
  split_and!; cbn; try done; [|apply S1].
  assert (Hdisj : forall id' f, held (holds a) id' f -> id' <> id -> ~ held (holds a) id f).
  { intros id' f [i Hi] Hne [j Hj]. pose proof (wf_once _ (a_holds _ I) _ _ _ _ _ Hi Hj) as ->.
    destruct Hi as (r & Hr & <- & _), Hj as (r' & Hr' & <- & _). congruence. }
  apply (AInv_step a); try done; [by destruct I1|apply S1|apply S1|apply M| |].
  - intros id' f [Hf Hne]%Hh. destruct (a_held _ I _ _ Hf) as [Hv Hr]. split; [done|].
    unfold fstate. cbn. rewrite (marks_out _ _ _ _ M); [done|done|by eapply Hdisj].
  - intros f Hf. unfold fstate. cbn. destruct (decide (fstate a f = Reserved)) as [Hr|Hr].
    + unfold fstate in Hr. split; [|congruence]. intros Ha. exfalso.
      assert (Hn : ~ held (holds a) id f) by (intros Hh'; by rewrite (marks_in _ _ _ _ M) in Ha).
      rewrite (marks_out _ _ _ _ M) in Ha by done. congruence.
    + rewrite (marks_out _ _ _ _ M); [done|done|]. intros [_ Hc]%(a_held _ I). done.
Qed.

(** ** Activation *)

(** Unused pages of the counter block go back one by one. *)
Lemma fold_release_pages x l a :
  CInv a -> NoDup l -> 0 <= x ->
  (forall p, p ∈ l -> 0 <= p /\ valid (store a) (x + p) /\ fstate a (x + p) = Allocated) ->
  exists a', fold_panic (fun a p => match FrameAlloc.release a (x * PAGE_SIZE + p * PAGE_SIZE) 0 with
                                    | (Ok _, a) => Some a
                                    | (Err _, _) => None
                                    end) a l = Some a' /\
    CInv a' /\ same_ctl a a' /\ marks (store a) (store a') (fun g => g - x ∈ l) Free.
Proof.
  intros I Hnd Hx. revert a I. induction Hnd as [|p l Hp Hnd IH]; intros a I Hl; cbn [fold_panic].
  { exists a. split_and!; try done. eapply marks_proper; [|apply marks_refl]. set_solver. }
  destruct (Hl p) as (Hp0 & Hv & Hs); [by left|].
  replace (x * PAGE_SIZE + p * PAGE_SIZE) with ((x + p) * PAGE_SIZE) by lia.
  pose proof (frame_release_spec a ((x + p) * PAGE_SIZE) 0 I ltac:(unfold PAGE_SIZE; lia)) as Hrel.
  cbv zeta in Hrel. rewrite page_div in Hrel.
  destruct (FrameAlloc.release a ((x + p) * PAGE_SIZE) 0) as [[[]|e] a1].
  2: { destruct Hrel as [_ []]. split_and!; [lia|apply Z.divide_factor_r| |apply Z.divide_1_l|].
       - change (block_len 0) with 1. unfold valid in Hv. lia.
       - by intros g ->%in_block_0. }
  destruct Hrel as (I1 & S1 & _ & M1 & _).
  destruct (IH a1 I1) as (a2 & -> & I2 & S2 & M2).
  { intros q Hq. destruct (Hl q) as (Hq0 & Hvq & Hsq); [by right|]. split_and!; try done.
    - by apply (marks_valid _ _ _ _ _ M1).
    - unfold fstate. rewrite (marks_out _ _ _ _ M1); [done|done|]. rewrite in_block_0. intros Heq.
      assert (q = p) as -> by lia. done. }
  exists a2. split_and!; try done; [by etransitivity|].
  eapply marks_proper; [|by eapply marks_trans]. intros g _. cbv beta. rewrite in_block_0, elem_of_cons.
  intuition lia.
Qed.

Lemma build_activate a :
  AInv a -> buddy_active a = false ->
  let '(b, s) := build (store a) in
  let a1 := mkAllocator (memory_map a) s (scan_cursor a) b true (holds a) (refcounts a) in
  AInv a1 /\ same_bitmap (store a) s /\ refcounts a = None.
Proof.
  intros I Hact. destruct (build_wf (store a)) as [W B].
  { apply c_range_magic, I. }
  { intros f Hf _. apply (a_core _ I); [done|congruence]. }
  destruct (build (store a)) as [b s]. cbn [fst snd] in *.
  assert (Hr : refcounts a = None).
  { destruct (refcounts a) as [r|] eqn:Er; [|done]. destruct (a_refs _ I r Er). congruence. }
  split_and!; try done. constructor; cbn.
  - constructor; cbn; [rewrite (same_count _ _ B); apply I|done|]. intros f Hf Hs. specialize (Hs eq_refl).
    unfold fstate in Hs. cbn in Hs. apply (valid_same _ _ _ B) in Hf. rewrite (same_state _ _ B) in Hs by done.
    rewrite (same_owned _ _ B) by done. apply I; [done|congruence].
  - apply I.
  - intros id f Hf. destruct (a_held _ I _ _ Hf) as [Hv Hs]. split; [by apply (valid_same _ _ _ B)|].
    unfold fstate. cbn. by rewrite (same_state _ _ B).
  - rewrite Hr. done.
Qed.

Lemma init_refcounts_spec a :
  AInv a -> buddy_active a = true -> refcounts a = None ->
  exists a', init_refcounts a = Some a' /\ AInv a' /\ buddy_active a' = true /\ holds a' = holds a /\
    frame_count (store a') = frame_count (store a) /\
    (forall g, valid (store a) g -> fstate a g <> Free -> fstate a' g = fstate a g).
Proof.
  intros I Hact Hr. unfold init_refcounts. set (pages := div_ceil _ _). set (order := Z.to_nat _).
  destruct (frame_allocate_spec a order 0 U64_MAX I) as (r & a1 & -> & I1 & H1 & A1 & Hres); [done|done|].
  destruct r as [p|e].
  2: { destruct Hres as (M & _ & _). exists a1. split; [done|]. split_and!; [done|congruence|done|apply M|].
       intros g Hg Hs. apply (marks_out _ _ _ _ M); [done|tauto]. }
  destruct Hres as [Ho [[x ->] Hal Hb Hfree M Hc Hoth]]. rewrite page_div in *.
  assert (Hn : refcounts a1 = None).
  { destruct (refcounts a1) as [r1|] eqn:Er; [|done]. destruct (a_refs _ I1 r1 Er) as [_ [Hl _]].
    destruct (decide (0 < frame_count (store a1))) as [Hpos|Hz].
    - assert (Hsome : exists v, refs_of a1 0 = Some v).
      { apply refs_of_total; [done|unfold valid; lia|congruence]. }
      destruct Hsome as [v Hv]. exfalso. assert (Hn0 : refs_of a 0 = None) by (unfold refs_of; by rewrite Hr).
      destruct (decide (x <= 0 /\ 0 < x + block_len order)).
      + rewrite Hc, Hn0 in Hv; done.
      + rewrite Hoth, Hn0 in Hv; done.
    - exfalso. destruct (Hfree x (in_block_head _ _)) as [Hv _]. unfold valid in Hv.
      rewrite (marks_count _ _ _ _ M) in Hz. lia. }
  assert (Hx : 0 <= x) by (unfold PAGE_SIZE in Hb; lia).
  assert (Hpg : 0 <= pages).
  { unfold pages, div_ceil. pose proof (c_range _ (a_core _ I)). apply Z.div_pos; unfold PAGE_SIZE; lia. }
  destruct (fold_release_pages x (seqZ pages (block_len order - pages)) a1 (a_core _ I1)) as (a2 & -> & I2 & S2 & M2).
  - apply NoDup_seqZ.
  - done.
  - intros q Hq%elem_of_seqZ. assert (Hin : in_block (x + q) x order) by (unfold in_block; lia).
    destruct (Hfree _ Hin) as [Hv _]. split_and!; [lia|by apply (marks_valid _ _ _ _ _ M)|].
    by apply (marks_in _ _ _ _ M).
  - eexists. split; [done|].
    assert (Hfin : forall g, g - x ∈ seqZ pages (block_len order - pages) -> in_block g x order).
    { intros g Hg%elem_of_seqZ. unfold in_block. lia. }
    assert (Hkeep : forall g, valid (store a) g -> fstate a g <> Free -> fstate a2 g = fstate a g).
    { intros g Hg Hs. assert (Hnb : ~ in_block g x order) by (intros Hin%Hfree; tauto).
      unfold fstate. rewrite (marks_out _ _ _ _ M2); [|by apply (marks_valid _ _ _ _ _ M)|auto].
      by apply (marks_out _ _ _ _ M). }
    assert (Hcnt : frame_count (store a2) = frame_count (store a)).
    { by rewrite (marks_count _ _ _ _ M2), (marks_count _ _ _ _ M). }
    split_and!; cbn; [|by rewrite (ctl_active _ _ S2), A1|by rewrite (ctl_holds _ _ S2)|done|done].
    constructor; cbn.
    + destruct I2; by constructor.
    + rewrite (ctl_holds _ _ S2), H1. apply I.
    + intros id f Hf. rewrite (ctl_holds _ _ S2), H1 in Hf. destruct (a_held _ I _ _ Hf) as [Hv Hs].
      unfold valid. rewrite Hcnt. split; [done|]. change (fstate a2 f = Reserved). rewrite Hkeep; [done|done|congruence].
    + intros r [= <-]. split; [by rewrite (ctl_active _ _ S2), A1|]. pose proof (c_range _ (a_core _ I)) as Hrg.
      split; [rewrite length_fmap, length_seqZ, Z2Nat.id by lia; done|]. intros f v Hf Hv. change (store (with_refs a2 _)) with (store a2) in Hf. unfold valid in Hf. rewrite Hcnt in Hf.
      rewrite list_lookup_fmap, lookup_seqZ_lt in Hv by lia. simplify_eq/=. rewrite Z2Nat.id by lia.
      change (fstate (with_refs a2 _) f) with (fstate a2 f). unfold state_eqb. rewrite Z.add_0_l.
      destruct (bool_decide_reflect (fstate a2 f = Allocated)) as [Ha|Ha]; (split; [unfold U16_MAX; lia|]); split; done.
Qed.

Lemma activate_spec a :
  AInv a ->
  exists a', activate_metadata a = Some a' /\ AInv a' /\ buddy_active a' = true /\ holds a' = holds a /\
    frame_count (store a') = frame_count (store a) /\
    (forall g, valid (store a) g -> fstate a g <> Free -> fstate a' g = fstate a g).
Proof.
  intros I. unfold activate_metadata. destruct (buddy_active a) eqn:Hact; [by exists a|].
  pose proof (build_activate a I Hact) as Hb. destruct (build (store a)) as [b s].
  destruct Hb as (I1 & B & Hr). set (a1 := mkAllocator _ _ _ _ _ _ _) in *.
  destruct (init_refcounts_spec a1 I1 eq_refl Hr) as (a' & -> & I' & A' & H' & C' & K'). exists a'.
  split_and!; try done.
  - rewrite C'. apply B.
  - intros g Hg Hs. assert (Hst : fstate a1 g = fstate a g) by (by apply (same_state _ _ B)).
    rewrite K'; [done|by apply (valid_same _ _ _ B)|congruence].
Qed.
(** ** The contract *)

(** [allocate] never panics. On success the address is page aligned,
    aligned to the block size and within [min..max], the block's frames were
    free and are now allocated with one reference each, and no other frame or
    counter changes. It fails only for an order above [MAX_ORDER], or when no
    aligned free block of that order lies within the bounds. This covers the
    bitmap scan, the buddy lists and the fall-back from one to the other. *)
Theorem frame_allocate_correct a order min max :
  AInv a -> is_u64 min -> is_u64 max ->
  exists r a', FrameAlloc.allocate a order min max = Some (r, a') /\ AInv a' /\ holds a' = holds a /\
    buddy_active a' = buddy_active a /\
    match r with
    | Ok p => (order <= MAX_ORDER)%nat /\ allocated a order min max p a'
    | Err e =>
        marks (store a) (store a') (fun _ => False) Free /\ refcounts a' = refcounts a /\
        ((e = EInvalidOrder /\ (MAX_ORDER < order)%nat) \/
         (e = EOutOfMemory /\ (order <= MAX_ORDER)%nat /\ forall x, ~ candidate a order min max x))
    end.
Proof. intros I [Hmin _] [_ Hmax]. by apply frame_allocate_spec. Qed.

(** Dropping a reference: with the counters active, [free_frame] panics
    exactly on a frame that is not allocated; otherwise it takes one reference
    away and the frame becomes free exactly when that was the last one. *)
Theorem free_frame_correct a x :
  AInv a -> valid (store a) x -> refcounts a <> None ->
  match free_frame a (x * PAGE_SIZE) with
  | Some a' => exists v, refs_of a x = Some v /\ 0 < v /\ fstate a x = Allocated /\
      AInv a' /\ holds a' = holds a /\ refs_of a' x = Some (v - 1) /\
      (forall g, 0 <= g -> g <> x -> refs_of a' g = refs_of a g) /\
      marks (store a) (store a') (fun g => g = x /\ v = 1) Free
  | None => fstate a x <> Allocated
  end.
Proof. apply free_frame_spec. Qed.

(** Releasing a hold frees exactly the frames still recorded under its
    id, leaves every other hold as it was, and changes no other owner. *)
Theorem release_hold_correct a id :
  AInv a ->
  let a' := release_hold a id in
  AInv a' /\ refcounts a' = refcounts a /\
  marks (store a) (store a') (held (holds a) id) Free /\
  (forall id' f, held (holds a') id' f <-> held (holds a) id' f /\ id' <> id).
Proof. apply release_hold_spec. Qed.

(** Building the lists and the counter array never panics, keeps the
    invariant, and takes or frees no frame that already had an owner. *)
Theorem activate_metadata_correct a :
  AInv a ->
  exists a', activate_metadata a = Some a' /\ AInv a' /\ buddy_active a' = true /\ holds a' = holds a /\
    frame_count (store a') = frame_count (store a) /\
    (forall g, valid (store a) g -> fstate a g <> Free -> fstate a' g = fstate a g).
Proof. apply activate_spec. Qed.
End Invariant.
