(* ===== verification/FrameContract.v ===== *)
(** * FrameContract: the frame allocator as the rest of the kernel sees it

    [init] of [kernel/src/mm/frame.rs] on the kernel's store, the public
    operations as a step relation, and the theorems about all of them. Every
    public function runs under one lock, so a run of the kernel is a sequence
    of these steps, interleaved with writes to frames by their owners. *)

From S2P Require Import Prelude Buddy BuddyInv BuddyOps BuddySpec FrameMeta Holds BootInfo FrameAlloc FrameAllocSpec.
From stdpp Require Import base list numbers sets gmap relations.
Local Open Scope Z_scope.

(** ** Initialisation *)

Definition BOOT_METADATA_ARENA_SIZE : Z := MAX_TRACKED_PHYS / PAGE_SIZE / 4.

(** [for frame in frames { if frame < frame_count { set_state(frame, x) } }]. *)
Definition set_frames (s : ArenaStore) (x : State) (l : list Z) : ArenaStore :=
  foldl (fun s f => if f <? arena_frames s then meta_set_state s f x else s) s l.

(** The frames of a usable region; frame 0 is never handed out. *)
Definition region_frames (r : PhysicalMemoryRegion) : list Z :=
  let start := div_ceil (Z.max (region_start r) PAGE_SIZE) PAGE_SIZE in
  let fin := region_end r / PAGE_SIZE in
  frames start (fin - start).

Definition highest_usable (m : PhysicalMemoryMap) : option Z :=
  match usable m with
  | [] => None
  | r :: rs => Some (foldl (fun h r => Z.max h (region_end r)) (region_end r) rs)
  end.

(** [metadata_start] is the physical address of the boot arena. *)
Definition init (a : Allocator ArenaStore) (m : PhysicalMemoryMap) (metadata_start : Z)
  : result FrameError (Allocator ArenaStore) :=
  match highest_usable m with
  | None => Err EInvalidRange
  | Some highest =>
      let frame_count := div_ceil (Z.min highest MAX_TRACKED_PHYS) PAGE_SIZE in
      if frame_count =? 0 then Err EInvalidRange
      else if frame_count * 2 >? U64_MAX then Err EOverflow
      else
        let pages := div_ceil (div_ceil (frame_count * 2) 8) PAGE_SIZE in
        if pages * PAGE_SIZE >? U64_MAX then Err EOverflow
        else if negb (is_multiple_of metadata_start PAGE_SIZE)
                || (pages * PAGE_SIZE >? BOOT_METADATA_ARENA_SIZE) then Err EOutOfMemory
        else
          let s := mkArena frame_count ∅ (arena_nodes (store a)) in
          let s := foldl (fun s r => set_frames s Free (region_frames r)) s (usable m) in
          let first := metadata_start / PAGE_SIZE in
          let s := set_frames s Reserved (frames first (saturating_add first pages - first)) in
          Ok (mkAllocator m s 0 (lists a) (buddy_active a) (holds a) (refcounts a))
  end.

(** [Allocator::empty]; the frames hold whatever the firmware left. *)
Definition empty (nodes : gmap Z FreeNode) : Allocator ArenaStore :=
  mkAllocator [] (mkArena 0 ∅ nodes) 0 new false holds_new None.

Lemma set_frames_marks l s x :
  (forall f, f ∈ l -> 0 <= f) ->
  marks s (set_frames s x l) (fun g => g ∈ l) x /\ arena_nodes (set_frames s x l) = arena_nodes s.
Proof.
  unfold set_frames. revert s. induction l as [|f l IH]; intros s Hl; cbn [foldl].
  { split; [|done]. eapply marks_proper; [|apply marks_refl]. set_solver. }
  set (s1 := if f <? arena_frames s then _ else _).
  assert (H1 : marks s s1 (fun g => g = f) x /\ arena_nodes s1 = arena_nodes s).
  { unfold s1. assert (Hf : 0 <= f) by (apply Hl; by left). case_if; split; try done.
    - assert (Hv : valid s f) by (split; done).
      pose proof (set_state_marks s f x Hv) as M. eapply marks_proper; [|exact M].
      intros g _. cbv beta. split; congruence.
    - apply marks_none. intros g Hg ->. unfold valid in Hg. cbn in Hg. lia. }
  destruct H1 as [M1 N1]. destruct (IH s1) as [M2 N2]; [intros g Hg; apply Hl; by right|].
  split; [|congruence]. eapply marks_proper; [|by eapply marks_trans]. intros g _. cbv beta.
  by rewrite elem_of_cons.
Qed.

Lemma fold_regions_marks rs s :
  let s' := foldl (fun s r => set_frames s Free (region_frames r)) s rs in
  marks s s' (fun g => exists r, r ∈ rs /\ g ∈ region_frames r) Free /\ arena_nodes s' = arena_nodes s.
Proof.
  revert s. induction rs as [|r rs IH]; intros s; cbn [foldl].
  { split; [|done]. eapply marks_proper; [|apply marks_refl]. set_solver. }
  destruct (set_frames_marks (region_frames r) s Free) as [M1 N1].
  { intros f Hf%elem_of_frames. assert (0 <= div_ceil (Z.max (region_start r) PAGE_SIZE) PAGE_SIZE); [|lia].
    unfold div_ceil. apply Z.div_pos; unfold PAGE_SIZE; lia. }
  destruct (IH (set_frames s Free (region_frames r))) as [M2 N2]. split; [|congruence].
  eapply marks_proper; [|by eapply marks_trans]. intros g _. cbv beta. set_solver.
Qed.

(** Frame [g] lies wholly inside a usable region and is not frame 0. *)
Definition usable_frame (m : PhysicalMemoryMap) (g : Z) : Prop :=
  1 <= g /\ exists r, r ∈ usable m /\ region_start r <= g * PAGE_SIZE /\ (g + 1) * PAGE_SIZE <= region_end r.

Lemma region_frames_spec r g :
  g ∈ region_frames r <->
  1 <= g /\ region_start r <= g * PAGE_SIZE /\ (g + 1) * PAGE_SIZE <= region_end r.
Proof.
  unfold region_frames. rewrite elem_of_frames.
  assert (Hps : 0 < PAGE_SIZE) by (unfold PAGE_SIZE; lia).
  assert (Hlo : div_ceil (Z.max (region_start r) PAGE_SIZE) PAGE_SIZE <= g <->
    1 <= g /\ region_start r <= g * PAGE_SIZE) by (rewrite div_ceil_le by done; nia).
  assert (Hhi : g < region_end r / PAGE_SIZE <-> (g + 1) * PAGE_SIZE <= region_end r).
  { split.
    - intros Hg. pose proof (Z.mul_div_le (region_end r) PAGE_SIZE Hps). nia.
    - intros Hg. assert (g + 1 <= region_end r / PAGE_SIZE); [|lia]. apply Z.div_le_lower_bound; lia. }
  split; [intros [? ?]|intros (? & ? & ?)].
  - destruct Hlo as [Hlo _], Hhi as [Hhi _]. destruct Hlo; [lia|]. split_and!; try done. apply Hhi. lia.
  - assert (div_ceil (Z.max (region_start r) PAGE_SIZE) PAGE_SIZE <= g) by (by apply Hlo).
    assert (g < region_end r / PAGE_SIZE) by (by apply Hhi). lia.
Qed.

Lemma highest_usable_nonneg m h :
  (forall r, r ∈ usable m -> 0 <= region_end r) -> highest_usable m = Some h -> 0 <= h.
Proof.
  unfold highest_usable. destruct (usable m) as [|r rs]; [done|]. intros Hr [= <-].
  assert (Hb : 0 <= region_end r) by (apply Hr; by left).
  revert Hb. generalize (region_end r). clear Hr. induction rs as [|x rs IH]; intros z Hz; cbn [foldl]; [done|].
  apply IH. lia.
Qed.

(** Frame [g] backs the ownership bitmap of a machine with [n] frames. *)
Definition metadata_frame (metadata_start n g : Z) : Prop :=
  metadata_start / PAGE_SIZE <= g <
  metadata_start / PAGE_SIZE + div_ceil (div_ceil (n * 2) 8) PAGE_SIZE.

Lemma div_ceil_mono a b c : 0 < c -> a <= b -> div_ceil a c <= div_ceil b c.
Proof. intros Hc Hab. unfold div_ceil. apply Z.div_le_mono; lia. Qed.

Lemma bitmap_state_zero n nodes g : state (mkArena n ∅ nodes) g = Reserved.
Proof.
  cbn. unfold meta_state, meta_byte. cbn [arena_bytes]. rewrite lookup_empty. cbn [default from_option].
  by rewrite Z.shiftr_0_l.
Qed.

Lemma init_spec nodes m metadata_start :
  map_ok m -> 0 <= metadata_start <= U64_MAX ->
  (forall f, 0 <= f < MAX_TRACKED_PHYS / PAGE_SIZE ->
     magic (default zero_node (nodes !! f)) <> head_tag f) ->
  match init (empty nodes) m metadata_start with
  | Ok a => AInv a /\ buddy_active a = false /\ forall g, valid (store a) g ->
      (usable_frame m g /\ ~ metadata_frame metadata_start (frame_count (store a)) g -> fstate a g = Free) /\
      (~ (usable_frame m g /\ ~ metadata_frame metadata_start (frame_count (store a)) g) -> fstate a g = Reserved)
  | Err _ => True
  end.
Proof.
  intros Hm Hms Hnodes. unfold init. destruct (highest_usable m) as [h|] eqn:Hh; [|done].
  assert (H0 : 0 <= h).
  { eapply highest_usable_nonneg; [|done]. intros r [_ Hr]%list_elem_of_filter. destruct Hm as [_ Hm].
    rewrite region_end_ok by (by apply Hm). destruct (Hm r Hr). lia. }
  set (n := div_ceil (Z.min h MAX_TRACKED_PHYS) PAGE_SIZE).
  repeat case_if; try done. cbn [empty store arena_nodes].
  assert (Hn : 0 <= n <= MAX_TRACKED_PHYS / PAGE_SIZE).
  { assert (0 <= MAX_TRACKED_PHYS) by (by vm_compute).
    split; [unfold n, div_ceil; apply Z.div_pos; unfold PAGE_SIZE; lia|].
    transitivity (div_ceil MAX_TRACKED_PHYS PAGE_SIZE); [apply div_ceil_mono; unfold PAGE_SIZE; lia|by vm_compute]. }
  set (pages := div_ceil (div_ceil (n * 2) 8) PAGE_SIZE) in *.
  assert (Hfirst : 0 <= metadata_start / PAGE_SIZE) by (apply Z.div_pos; unfold PAGE_SIZE; lia).
  set (s0 := mkArena n ∅ nodes).
  destruct (fold_regions_marks (usable m) s0) as [M1 N1]. set (s1 := foldl _ s0 _) in *.
  set (first := metadata_start / PAGE_SIZE) in *.
  assert (Hpg : 0 <= pages).
  { unfold pages, div_ceil. apply Z.div_pos; [|by unfold PAGE_SIZE].
    assert (0 <= (n * 2 + 8 - 1) / 8) by (apply Z.div_pos; lia). unfold PAGE_SIZE. lia. }
  assert (Hsat : saturating_add first pages - first = pages).
  { unfold saturating_add. assert (first <= U64_MAX / PAGE_SIZE) by (apply Z.div_le_mono; [done|lia]).
    assert (U64_MAX / PAGE_SIZE + BOOT_METADATA_ARENA_SIZE <= U64_MAX) by (by vm_compute).
    unfold PAGE_SIZE in *. lia. }
  rewrite Hsat. destruct (set_frames_marks (frames first pages) s1 Reserved) as [M2 N2].
  { intros f Hf%elem_of_frames. lia. }
  set (s2 := set_frames s1 Reserved (frames first pages)) in *.
  assert (Hc : frame_count s2 = n) by (by rewrite (marks_count _ _ _ _ M2), (marks_count _ _ _ _ M1)).
  split_and!; try done.
  - constructor; cbn [holds store refcounts]; [|apply holds_new_wf| |done].
    + constructor; cbn [store buddy_active lists]; [by rewrite Hc|done|].
      intros f Hf _. unfold valid in Hf. rewrite Hc in Hf. cbn. rewrite N2, N1. apply Hnodes. lia.
    + intros id f [i (r & Hr & _)]. unfold holds_new in Hr. cbn [ranges] in Hr.
      apply lookup_replicate in Hr as [? _]. done.
  - cbn [store]. intros g Hg. assert (Hg1 : valid s1 g) by (by apply (marks_valid _ _ _ _ _ M2)).
    assert (Hg0 : valid s0 g) by (by apply (marks_valid _ _ _ _ _ M1)). unfold fstate. cbn [store].
    assert (Hu : usable_frame m g <-> exists r, r ∈ usable m /\ g ∈ region_frames r).
    { unfold usable_frame. setoid_rewrite region_frames_spec. split; [intros (? & r & ? & ? & ?)|intros (r & ? & ? & ? & ?)].
      - exists r. by split_and!.
      - split; [done|]. exists r. by split_and!. }
    assert (Hmd : metadata_frame metadata_start (frame_count s2) g <-> g ∈ frames first pages).
    { unfold metadata_frame. rewrite Hc, elem_of_frames. done. }
    rewrite Hu, Hmd. split.
    + intros [Hr Hnm]. rewrite (marks_out _ _ _ _ M2) by done. by apply (marks_in _ _ _ _ M1).
    + intros Hno. destruct (decide (g ∈ frames first pages)); [by apply (marks_in _ _ _ _ M2)|].
      rewrite (marks_out _ _ _ _ M2) by done. rewrite (marks_out _ _ _ _ M1); [apply bitmap_state_zero|done|tauto].
Qed.

(** ** The operations as steps *)

Section Steps.
Context {St : Type} `{FrameStoreLaws St}.
Implicit Types (a : Allocator St).

(** Public operations with machine-word arguments ([PhysFrame]s are page
    aligned, so frames are given by number), and stores by a frame's owner. *)
Inductive step : Allocator St -> Allocator St -> Prop :=
| step_allocate a order min max r a' :
    is_u64 min -> is_u64 max -> FrameAlloc.allocate a order min max = Some (r, a') -> step a a'
| step_free a x a' : 0 <= x -> free_frame a (x * PAGE_SIZE) = Some a' -> step a a'
| step_get a x a' : 0 <= x -> frame_get a (x * PAGE_SIZE) = Ok a' -> step a a'
| step_release_contiguous a x order a' :
    0 <= x -> refcounts a <> None -> release_contiguous a (x * PAGE_SIZE) order = Some a' -> step a a'
| step_reserve a start fin r a' : is_u64 start -> reserve_range a start fin = Some (r, a') -> step a a'
| step_hold a start fin r a' : is_u64 start -> hold_range a start fin = Some (r, a') -> step a a'
| step_release_hold a id : step a (release_hold a id)
| step_activate a a' : activate_metadata a = Some a' -> step a a'
| step_write a f n :
    valid (store a) f -> fstate a f <> Free -> magic n <> head_tag f ->
    step a (with_store a (write_node (store a) f n)).

(** A frame keeps being reserved for good. *)
Lemma permanent_keep a a' :
  frame_count (store a') = frame_count (store a) ->
  (forall f, valid (store a) f -> fstate a f = Reserved -> (forall id, ~ held (holds a) id f) ->
     fstate a' f = Reserved) ->
  (forall id f, held (holds a') id f -> held (holds a) id f \/ fstate a f = Free) ->
  forall f, permanent a f -> permanent a' f.
Proof.
  intros Hc Hs Hh f (Hv & Hr & Hn). split_and!.
  - unfold valid. by rewrite Hc.
  - by apply Hs.
  - intros id Hf. destruct (Hh _ _ Hf) as [?|?]; [by eapply Hn|congruence].
Qed.

Lemma permanent_marks a a' P x :
  marks (store a) (store a') P x -> (forall g, valid (store a) g -> P g -> fstate a g <> Reserved) ->
  (forall id f, held (holds a') id f -> held (holds a) id f \/ fstate a f = Free) ->
  forall f, permanent a f -> permanent a' f.
Proof.
  intros M HP Hh. apply permanent_keep; [apply M| |done]. intros f Hv Hr _. unfold fstate.
  rewrite (marks_out _ _ _ _ M); [done|done|]. intros Hp. by destruct (HP f Hv Hp).
Qed.

(** Before the counters exist, [free_frame] is a plain release. *)
Lemma free_frame_early a x a' :
  AInv a -> 0 <= x -> refs_of a x = None -> free_frame a (x * PAGE_SIZE) = Some a' ->
  AInv a' /\ holds a' = holds a /\ fstate a x = Allocated /\ valid (store a) x /\
  marks (store a) (store a') (eq x) Free.
Proof.
  intros I Hx Hr. unfold free_frame. rewrite refcount_slot_eq, page_div, Hr. cbn [fmap option_fmap option_map].
  pose proof (frame_release_spec a (x * PAGE_SIZE) 0 (a_core _ I) ltac:(unfold PAGE_SIZE; lia)) as Hrel.
  cbv zeta in Hrel. rewrite page_div in Hrel.
  destruct (FrameAlloc.release a (x * PAGE_SIZE) 0) as [[[]|e] a1]; [|done]. intros [= ->].
  destruct Hrel as (I1 & S1 & _ & M & _ & _ & _ & Hle & Hall). change (block_len 0) with 1 in Hle.
  assert (Hv : valid (store a) x) by (unfold valid; lia).
  assert (Hal : fstate a x = Allocated) by (apply Hall, in_block_head).
  assert (M1 : marks (store a) (store a') (eq x) Free).
  { eapply marks_proper; [|exact M]. intros g _. cbv beta. rewrite in_block_0. split; congruence. }
  split_and!; try done; [|apply S1].
  assert (Hnone : refcounts a = None).
  { destruct (refcounts a) eqn:E; [|done]. destruct (refs_of_total a x I Hv) as [v ?]; congruence. }
  apply (AInv_refs a); try done; [apply S1|apply S1|apply M|by rewrite (ctl_refs _ _ S1)| |].
  - intros f Hf Hs. unfold fstate. rewrite (marks_out _ _ _ _ M1); [done|done|]. intros <-. congruence.
  - intros f v Hf Hv'. unfold refs_of in Hv'. by rewrite (ctl_refs _ _ S1), Hnone in Hv'.
Qed.

Lemma out_of_range_free a x :
  AInv a -> 0 <= x -> ~ valid (store a) x -> free_frame a (x * PAGE_SIZE) = None /\ refs_of a x = None.
Proof.
  intros I Hx Hn. assert (Hr : refs_of a x = None).
  { unfold refs_of. destruct (refcounts a) as [r|] eqn:E; [|done]. destruct (a_refs _ I r E) as [_ [Hl _]].
    apply lookup_ge_None. unfold valid in Hn. lia. }
  split; [|done]. unfold free_frame. rewrite refcount_slot_eq, page_div, Hr. cbn [fmap option_fmap option_map].
  unfold FrameAlloc.release, index. rewrite page_div. unfold is_multiple_of. rewrite Z.mod_mul by done.
  cbn [negb order_is_valid]. unfold valid in Hn. replace (x <? frame_count (store a)) with false by lia. done.
Qed.

Lemma write_spec a f n :
  AInv a -> valid (store a) f -> fstate a f <> Free -> magic n <> head_tag f ->
  AInv (with_store a (write_node (store a) f n)) /\
  forall g, fstate (with_store a (write_node (store a) f n)) g = fstate a g.
Proof.
  intros I Hv Hs Hn. set (a' := with_store _ _).
  assert (Hst : forall g, fstate a' g = fstate a g) by (intros; by apply state_write_node).
  split; [|done]. apply (AInv_step a); try done.
  - constructor; cbn.
    + rewrite frame_count_write_node. apply I.
    + intros Hact. apply Wf_write; [apply (c_wf _ (a_core _ I) Hact)|done|done].
    + intros g Hg Hfr. unfold valid in Hg. rewrite frame_count_write_node in Hg.
      assert (Hg' : buddy_active a = true -> fstate a g <> Free) by (intros Hact; rewrite <- Hst; by apply Hfr).
      destruct (decide (f = g)) as [<-|Hne]; [by rewrite node_write_node_eq|].
      rewrite node_write_node_ne by done. by apply I.
  - apply frame_count_write_node.
  - apply I.
  - intros id g Hg. rewrite Hst. by apply (a_held _ I id g).
  - intros g _. by rewrite Hst.
Qed.

(** Every step keeps the invariant and everything reserved for good. *)
Lemma step_keeps a a' :
  step a a' -> AInv a -> AInv a' /\ forall f, permanent a f -> permanent a' f.
Proof.
  intros Hstep I. destruct Hstep as [a order min max r a' Hmin Hmax Heq|a x a' Hx Heq|a x a' Hx Heq
    |a x order a' Hx Hr Heq|a start fin r a' Hs Heq|a start fin r a' Hs Heq|a id|a a' Heq|a f n Hv Hf Hn].
  - destruct (frame_allocate_spec a order min max I) as (r1 & a1 & Heq1 & I1 & Hh & _ & Hres);
      [apply Hmin|apply Hmax|]. rewrite Heq in Heq1. injection Heq1 as <- <-. split; [done|].
    destruct r as [p|e].
    + destruct Hres as [_ R]. eapply permanent_marks; [apply (al_marks _ _ _ _ _ _ R)| |].
      * intros g _ Hg. destruct (al_free _ _ _ _ _ _ R g Hg) as [_ Hs]. congruence.
      * rewrite Hh. by left.
    + destruct Hres as [M _]. eapply permanent_marks; [exact M|done|]. rewrite Hh. by left.
  - destruct (decide (0 <= x /\ x < frame_count (store a))) as [Hv|Hv].
    2: { destruct (out_of_range_free a x I Hx Hv) as [Hno _]. congruence. }
    destruct (refs_of a x) as [v|] eqn:Hr.
    + assert (Hne : refcounts a <> None) by (intros Hc; unfold refs_of in Hr; by rewrite Hc in Hr).
      pose proof (free_frame_spec a x I Hv Hne) as Hf. rewrite Heq in Hf.
      destruct Hf as (w & _ & _ & Hal & I' & Hh & _ & _ & M). split; [done|].
      eapply permanent_marks; [exact M| |rewrite Hh; by left]. intros g _ [-> _]. congruence.
    + destruct (free_frame_early a x a' I Hx Hr Heq) as (I' & Hh & Hal & _ & M). split; [done|].
      eapply permanent_marks; [exact M| |rewrite Hh; by left]. intros g _ <-. congruence.
  - destruct (decide (0 <= x /\ x < frame_count (store a))) as [Hv|Hv].
    2: { destruct (out_of_range_free a x I Hx Hv) as [_ Hno]. unfold frame_get in Heq.
         by rewrite refcount_slot_eq, page_div, Hno in Heq. }
    pose proof (frame_get_spec a x I Hv) as Hg. rewrite Heq in Hg. destruct Hg as (I' & v & _ & C).
    destruct (counts_set_fields _ _ _ _ C) as (Es & _ & _ & Hh & _ & _). split; [done|].
    apply permanent_keep; [by rewrite Es| |rewrite Hh; by left]. intros f _ Hs _.
    by rewrite (counts_set_same_state _ _ _ _ _ C).
  - pose proof (release_contiguous_spec a x order I Hx Hr) as Hrel. rewrite Heq in Hrel.
    destruct Hrel as (I' & Hh & Hone & M). split; [done|].
    eapply permanent_marks; [exact M| |rewrite Hh; by left]. intros g Hg Hb Hs.
    destruct (Hone g Hb) as [H1 _]. destruct (refs_of_ok a g 1 I Hg H1) as [_ Hz].
    assert (1 = 0); [|done]. apply Hz. congruence.
  - destruct (reserve_range_spec a start fin I ltac:(apply Hs)) as (r1 & a1 & Heq1 & I1 & _ & Hh & Hres).
    rewrite Heq in Heq1. injection Heq1 as <- <-. split; [done|]. destruct r as [[]|e]; [|by subst].
    destruct Hres as [M _]. apply permanent_keep; [apply M| |by left; eauto]. intros f Hv Hr _. unfold fstate.
    destruct (decide (start / PAGE_SIZE <= f /\ f < fin / PAGE_SIZE)); [by apply (marks_in _ _ _ _ M)|].
    by rewrite (marks_out _ _ _ _ M).
  - destruct (hold_range_spec a start fin I ltac:(apply Hs)) as (r1 & a1 & Heq1 & I1 & _ & _ & Hres).
    rewrite Heq in Heq1. injection Heq1 as <- <-. split; [done|]. destruct r as [id|]; [|by subst].
    destruct Hres as (_ & M & Hsub). eapply permanent_marks; [exact M| |].
    + intros g _ [_ Hs']. congruence.
    + intros id' f Hf. destruct (Hsub _ _ Hf) as [|(_ & _ & ?)]; auto.
  - destruct (release_hold_spec a id I) as (I' & _ & M & Hh). split; [done|].
    apply permanent_keep; [apply M| |]. 
    + intros f Hv Hs Hn. unfold fstate. by rewrite (marks_out _ _ _ _ M).
    + intros id' f [? _]%Hh. by left.
  - destruct (activate_spec a I) as (a1 & Heq1 & I' & _ & Hh & Hc & Hk). rewrite Heq in Heq1.
    injection Heq1 as <-. split; [done|]. apply permanent_keep; [done| |rewrite Hh; by left].
    intros f Hv Hs _. rewrite Hk; congruence.
  - destruct (write_spec a f n I Hv Hf Hn) as [I' Hst]. split; [done|].
    apply permanent_keep; [apply frame_count_write_node| |by left]. intros g _ Hs _. by rewrite Hst.
Qed.
End Steps.

(** ** The contract *)

Section Contract.
Context {St : Type} `{FrameStoreLaws St}.
Implicit Types (a : Allocator St).

(** C3. Along every run of public operations the invariant holds (lists,
    bitmap, holds and counters agree), and a frame that is reserved outside
    every hold stays so: no allocation, release or hold ever frees it. *)
Theorem reserved_for_good a a' :
  rtc step a a' -> AInv a -> AInv a' /\ forall f, permanent a f -> permanent a' f.
Proof.
  induction 1 as [a|a a1 a2 Hs _ IH]; intros I; [done|].
  destruct (step_keeps a a1 Hs I) as [I1 Hp]. destruct (IH I1) as [I2 Hp2]. auto.
Qed.

End Contract.

(** [init] establishes the invariant, and exactly the frames wholly
    inside usable memory start free, except frame 0 and the bitmap's own. *)
Theorem init_correct nodes m metadata_start :
  map_ok m -> 0 <= metadata_start <= U64_MAX ->
  (forall f, 0 <= f < MAX_TRACKED_PHYS / PAGE_SIZE ->
     magic (default zero_node (nodes !! f)) <> head_tag f) ->
  match init (empty nodes) m metadata_start with
  | Ok a => AInv a /\ buddy_active a = false /\ forall g, valid (store a) g ->
      (usable_frame m g /\ ~ metadata_frame metadata_start (frame_count (store a)) g -> fstate a g = Free) /\
      (~ (usable_frame m g /\ ~ metadata_frame metadata_start (frame_count (store a)) g) -> fstate a g = Reserved)
  | Err _ => True
  end.
Proof. apply init_spec. Qed.

(** ** Concrete runs: 64 frames, bitmap in frame 2, a hole at frames 40 to 43 *)

Definition demo_map : PhysicalMemoryMap :=
  [mkRegion 0 (40 * 4096) Usable; mkRegion (40 * 4096) (4 * 4096) MemReserved;
   mkRegion (44 * 4096) (20 * 4096) Usable].
Definition demo_init : Allocator ArenaStore :=
  match init (empty ∅) demo_map 8192 with Ok a => a | Err _ => empty ∅ end.
Definition demo_active : Allocator ArenaStore :=
  match activate_metadata demo_init with Some a => a | None => empty ∅ end.

Lemma demo_map_ok : map_ok demo_map.
Proof.
  split; [vm_compute; lia|]. intros r Hr. unfold demo_map in Hr. rewrite !elem_of_cons in Hr.
  destruct Hr as [->|[->|[->|Hr]]]; [split_and!; vm_compute; done..|]. by apply not_elem_of_nil in Hr.
Qed.

Lemma zero_untagged_tracked f :
  0 <= f < MAX_TRACKED_PHYS / PAGE_SIZE ->
  magic (default zero_node ((∅ : gmap Z FreeNode) !! f)) <> head_tag f.
Proof.
  intros Hf. rewrite lookup_empty. simpl. intros Hm. symmetry in Hm. revert Hm. apply head_tag_nonzero.
  assert (MAX_TRACKED_PHYS / PAGE_SIZE < FREE_MAGIC) by (by vm_compute). lia.
Qed.

Lemma demo_init_inv : AInv demo_init.
Proof.
  pose proof (init_spec ∅ demo_map 8192 demo_map_ok ltac:(vm_compute; done) zero_untagged_tracked) as Hi.
  unfold demo_init. destruct (init (empty ∅) demo_map 8192) as [a|e] eqn:Heq; [apply Hi|].
  exfalso. revert Heq. vm_compute. discriminate.
Qed.

Lemma demo_active_eq : activate_metadata demo_init = Some demo_active.
Proof.
  unfold demo_active. destruct (activate_spec demo_init demo_init_inv) as (a & Heq & _). by rewrite Heq.
Qed.

Lemma demo_active_inv : AInv demo_active.
Proof.
  destruct (activate_spec demo_init demo_init_inv) as (a & Heq & I & _).
  unfold demo_active. rewrite Heq. exact I.
Qed.

Lemma demo_active_refs : refcounts demo_active <> None.
Proof. vm_compute. discriminate. Qed.

Lemma init_correct_witness :
  match init (empty ∅) demo_map 8192 with
  | Ok a => AInv a /\ frame_count (store a) = 64 /\ fstate a 39 = Free /\ fstate a 40 = Reserved
  | Err _ => False
  end.
Proof.
  pose proof (init_correct ∅ demo_map 8192 demo_map_ok ltac:(vm_compute; done) zero_untagged_tracked) as Hi.
  assert (Hc : match init (empty ∅) demo_map 8192 with
    | Ok a => frame_count (store a) = 64 /\ fstate a 39 = Free /\ fstate a 40 = Reserved
    | Err _ => False end) by (vm_compute; done).
  destruct (init (empty ∅) demo_map 8192) as [a|e]; [|exact Hc]. destruct Hi as [Hinv _].
  split; [exact Hinv|exact Hc].
Defined.

(** The bounds miss the listed block, so the scan serves this request. *)
Lemma frame_allocate_correct_witness :
  exists a', FrameAlloc.allocate demo_active 2 (17 * 4096) (30 * 4096) = Some (Ok 81920, a') /\ AInv a' /\
    allocated demo_active 2 (17 * 4096) (30 * 4096) 81920 a'.
Proof.
  destruct (frame_allocate_correct demo_active 2 (17 * 4096) (30 * 4096) demo_active_inv) as (r & a' & Heq & I & _ & _ & Hr).
  - split; vm_compute; discriminate.
  - split; vm_compute; discriminate.
  - assert (Hv : fst <$> FrameAlloc.allocate demo_active 2 (17 * 4096) (30 * 4096) = Some (Ok 81920))
      by (vm_compute; reflexivity).
    rewrite Heq in Hv. apply (inj Some) in Hv. cbn [fst] in Hv. subst r. destruct Hr as [_ Hr].
    exists a'. split; [exact Heq|]. split; [exact I|exact Hr].
Defined.

Definition demo_shared : Allocator ArenaStore :=
  match frame_get demo_active (3 * PAGE_SIZE) with Ok a => a | Err _ => demo_active end.

Lemma demo_shared_inv : AInv demo_shared.
Proof.
  pose proof (frame_get_spec demo_active 3 demo_active_inv ltac:(vm_compute; done)) as Hg.
  unfold demo_shared. destruct (frame_get demo_active (3 * PAGE_SIZE)); [apply Hg|exact demo_active_inv].
Qed.

(** Frame 3 has two references; dropping one keeps it allocated. *)
Lemma free_frame_correct_witness :
  match free_frame demo_shared (3 * PAGE_SIZE) with
  | Some a' => refs_of a' 3 = Some 1 /\ fstate a' 3 = Allocated
  | None => False
  end.
Proof.
  pose proof (free_frame_correct demo_shared 3 demo_shared_inv ltac:(vm_compute; done)
    ltac:(vm_compute; discriminate)) as Hf.
  assert (Hs : fstate demo_shared 3 = Allocated) by (vm_compute; reflexivity).
  assert (Hr : refs_of demo_shared 3 = Some 2) by (vm_compute; reflexivity).
  destruct (free_frame demo_shared (3 * PAGE_SIZE)) as [a'|]; [|exact (Hf Hs)].
  destruct Hf as (v & Hv & _ & _ & _ & _ & Hv' & _ & M). rewrite Hr in Hv. apply (inj Some) in Hv. subst v.
  split; [exact Hv'|]. rewrite <- Hs. apply (marks_out _ _ _ _ M).
  - vm_compute. split; [discriminate|reflexivity].
  - intros [_ Hc]. discriminate Hc.
Defined.

(** Hold frames 10 to 19, reserve 12 and 13 for good, release the hold. *)
Definition demo_hold : option Z * Allocator ArenaStore := default (None, demo_init) (hold_range demo_init 40960 81920).
Definition demo_punched : Allocator ArenaStore :=
  match reserve_range demo_hold.2 49152 57344 with Some (_, a) => a | None => demo_hold.2 end.

Lemma demo_punched_step : rtc step demo_init demo_punched.
Proof.
  eapply rtc_l with (y := demo_hold.2).
  - unfold demo_hold. destruct (hold_range_spec demo_init 40960 81920 demo_init_inv ltac:(lia)) as (r & a & Heq & _).
    rewrite Heq. eapply step_hold; [|exact Heq]. split; vm_compute; discriminate.
  - apply rtc_once. assert (I : AInv demo_hold.2).
    { unfold demo_hold. destruct (hold_range_spec demo_init 40960 81920 demo_init_inv ltac:(lia)) as (r & a & Heq & I & _).
      rewrite Heq. exact I. }
    unfold demo_punched. destruct (reserve_range_spec demo_hold.2 49152 57344 I ltac:(lia)) as (r & a & Heq & _).
    rewrite Heq. eapply step_reserve; [|exact Heq]. split; vm_compute; discriminate.
Qed.

Lemma reserved_for_good_witness : AInv demo_punched /\ permanent demo_punched 40.
Proof.
  destruct (reserved_for_good demo_init demo_punched demo_punched_step demo_init_inv) as [I Hp].
  split; [exact I|]. apply Hp. split; [vm_compute; done|]. split; [vm_compute; reflexivity|].
  intros id [i (r & Hr & _)]. change (ranges (holds demo_init)) with (replicate MAX_HOLD_RANGES (@None Range)) in Hr.
  apply lookup_replicate in Hr as [Hr _]. discriminate Hr.
Defined.

Lemma demo_punched_inv : AInv demo_punched.
Proof.
  assert (Hk : forall a a', rtc step a a' -> AInv a -> AInv a').
  { induction 1 as [|x y z Hs _ IH]; [done|]. intros I. apply IH. by apply (step_keeps x y). }
  by apply (Hk demo_init), demo_init_inv; apply demo_punched_step.
Qed.

Lemma release_hold_correct_witness :
  AInv (release_hold demo_punched 1) /\
  fstate demo_punched 11 = Reserved /\ fstate (release_hold demo_punched 1) 11 = Free /\
  fstate (release_hold demo_punched 1) 12 = Reserved.
Proof.
  destruct (release_hold_correct demo_punched 1 demo_punched_inv) as (I & _ & M & _).
  split; [exact I|]. split; [vm_compute; reflexivity|]. split; vm_compute; reflexivity.
Defined.

Lemma activate_metadata_correct_witness :
  exists a', activate_metadata demo_init = Some a' /\ AInv a' /\ buddy_active a' = true.
Proof.
  destruct (activate_metadata_correct demo_init demo_init_inv) as (a' & Heq & I & Hact & _).
  exists a'. split; [exact Heq|]. split; [exact I|exact Hact].
Defined.

(** ** Forged tags

    Frame 5 is allocated, its owner stores an image of the frame's own head
    tag in it, and the frame is released: it merges into a larger free block,
    whose lists are still intact. *)
Definition forged : Allocator ArenaStore :=
  match FrameAlloc.allocate demo_active 0 (5 * 4096) (6 * 4096) with
  | Some (_, a) =>
      let a := with_store a (write_node (store a) 5 (mkNode (head_tag 5) 0 0 NONE NONE)) in
      default a (free_frame a (5 * PAGE_SIZE))
  | None => demo_active
  end.

(** The source states that a frame inside a larger free block can never
    be mistaken for a list head. It can: a frame released while it holds an
    image of its own tag is taken for a head although no list contains it, and
    the next reservation of that frame corrupts lists that [validate] accepts. *)
Theorem forged_tag_mistaken_for_head :
  (validate (lists forged) (store forged) = Ok tt /\ fstate forged 5 = Free /\
   is_free_head (store forged) 5 0 = true /\ is_free_head (store forged) 4 2 = true) /\
  match reserve_range forged (5 * 4096) (6 * 4096) with
  | Some (Ok _, a) => is_ok (validate (lists a) (store a)) = false
  | _ => False
  end.
Proof. vm_compute. repeat split. Qed.
