(* ===== verification/MappingModel.v ===== *)
(** * MappingModel: which pages map physical memory

    Models [kernel/src/mm/mapping_model.rs]: the policy that covers every
    region of the boot memory map with 1 GiB, 2 MiB and 4 KiB leaf pages. The
    closures given to [walk_range] are state transformers, so the plan builder
    and the counting check are two instances of one walk. *)

From S2P Require Import Prelude BootInfo.
From stdpp Require Import base list numbers.
Local Open Scope Z_scope.

Definition PAGE_SIZE : Z := 4096.
Definition TWO_MIB : Z := 2 ^ 21.
Definition GIGABYTE : Z := 2 ^ 30.
Definition FOUR_LEVEL_LIMIT : Z := 2 ^ 47.
Definition KERNEL_VIRT_BASE : Z := 0xffff800000000000.
Definition MAX_CHUNKS : nat := 4096.

Inductive MappingError : Type := EmptyRange | NonCanonicalRange | TooManyChunks.
Inductive PageSize : Type := OneGiB | TwoMiB | FourKiB.
#[export] Instance PageSize_eq_dec : EqDecision PageSize.
Proof. solve_decision. Defined.

Record MappingChunk : Type := mkChunk {
  physical_start : Z;
  virtual_start : Z;
  size : Z;
  page_size : PageSize;
}.

(** [chunks[..count]]. *)
Definition MappingPlan : Type := list MappingChunk.

Definition direct_virtual_address (physical : Z) : option Z :=
  if physical <? FOUR_LEVEL_LIMIT then Some (KERNEL_VIRT_BASE + physical) else None.
Definition identity_virtual_address (physical : Z) : option Z :=
  if physical <? FOUR_LEVEL_LIMIT then Some physical else None.

Definition leaf_page (physical remaining : Z) (kind : PhysicalMemoryKind) (gigabyte_pages : bool)
  : Z * PageSize :=
  if negb (bool_decide (kind = Mmio)) && gigabyte_pages
     && is_multiple_of physical GIGABYTE && (remaining >=? GIGABYTE)
  then (GIGABYTE, OneGiB)
  else if negb (bool_decide (kind = Mmio)) && is_multiple_of physical TWO_MIB
          && (remaining >=? TWO_MIB)
  then (TWO_MIB, TwoMiB)
  else (PAGE_SIZE, FourKiB).

Section Walk.
Context {A : Type}.
Variables (direct : bool) (kind : PhysicalMemoryKind) (gigabyte_pages : bool).
Variable (visit : A -> MappingChunk -> result MappingError A).

(** [while physical < end]; each iteration advances by at least a page. *)
Fixpoint walk_loop (fuel : nat) (acc : A) (physical fin : Z) : result MappingError A :=
  match fuel with
  | O => Ok acc
  | S fuel =>
      if physical <? fin then
        let '(size, page_size) := leaf_page physical (fin - physical) kind gigabyte_pages in
        let? virtual_start :=
          ok_or (if direct then direct_virtual_address physical
                 else identity_virtual_address physical) NonCanonicalRange in
        let? acc := visit acc (mkChunk physical virtual_start size page_size) in
        walk_loop fuel acc (physical + size) fin
      else Ok acc
  end.

Definition walk_fuel (start fin : Z) : nat := Z.to_nat ((fin - start) / PAGE_SIZE + 1).

Definition walk_range (acc : A) (start fin : Z) : result MappingError A :=
  if start >=? fin then Err EmptyRange
  else if fin >? FOUR_LEVEL_LIMIT then Err NonCanonicalRange
  else walk_loop (walk_fuel start fin) acc start fin.
End Walk.

(** The closures of [plan_range]/[plan_memory_map] and of [check_memory_map]. *)
Definition plan_visit (plan : MappingPlan) (chunk : MappingChunk) : result MappingError MappingPlan :=
  if (length plan =? MAX_CHUNKS)%nat then Err TooManyChunks else Ok (plan ++ [chunk]).
Definition count_visit (count : nat) (_ : MappingChunk) : result MappingError nat :=
  let count := S count in
  if (MAX_CHUNKS <? count)%nat then Err TooManyChunks else Ok count.

Definition plan_range (start fin : Z) (direct : bool) (kind : PhysicalMemoryKind)
    (gigabyte_pages : bool) : result MappingError MappingPlan :=
  walk_range direct kind gigabyte_pages plan_visit [] start fin.

Definition is_mapped_kind (k : PhysicalMemoryKind) : bool :=
  match k with Usable | AcpiReclaimable | AcpiNvs | Runtime | Mmio => true | MemReserved => false end.
Definition mapped_regions (m : PhysicalMemoryMap) : list PhysicalMemoryRegion :=
  List.filter (fun r => is_mapped_kind (region_kind r)) m.

Fixpoint walk_regions {A} (direct gigabyte_pages : bool)
    (visit : A -> MappingChunk -> result MappingError A) (acc : A) (rs : list PhysicalMemoryRegion)
  : result MappingError A :=
  match rs with
  | [] => Ok acc
  | r :: rs =>
      let? acc := walk_range direct (region_kind r) gigabyte_pages visit acc
                    (region_start r) (region_end r) in
      walk_regions direct gigabyte_pages visit acc rs
  end.

Definition check_memory_map (m : PhysicalMemoryMap) (direct gigabyte_pages : bool)
  : result MappingError unit :=
  result_map (fun _ => tt) (walk_regions direct gigabyte_pages count_visit 0%nat (mapped_regions m)).

Definition plan_memory_map (m : PhysicalMemoryMap) (direct gigabyte_pages : bool)
  : result MappingError MappingPlan :=
  walk_regions direct gigabyte_pages plan_visit [] (mapped_regions m).

Definition usable_region_contains (m : PhysicalMemoryMap) (frame : Z) : bool :=
  existsb (fun r => (frame >=? region_start r) && (saturating_add frame PAGE_SIZE <=? region_end r))
    (usable m).

(** ** Page sizes *)

Definition bytes_of (p : PageSize) : Z :=
  match p with OneGiB => GIGABYTE | TwoMiB => TWO_MIB | FourKiB => PAGE_SIZE end.

Lemma bytes_of_page p : PAGE_SIZE <= bytes_of p /\ (PAGE_SIZE | bytes_of p).
Proof. destruct p; split; try (by vm_compute); apply Z.mod_divide; by vm_compute. Qed.

(** The leaf is naturally aligned once the address is page aligned, never
    larger than what remains rounded up to a page, and small for MMIO. *)
Lemma leaf_page_spec physical remaining kind gib :
  0 < remaining ->
  let '(sz, p) := leaf_page physical remaining kind gib in
  sz = bytes_of p /\
  ((PAGE_SIZE | physical) -> (sz | physical)) /\
  (sz <= remaining \/ p = FourKiB) /\
  (kind = Mmio -> p = FourKiB) /\ (p = OneGiB -> gib = true).
Proof.
  intros Hr. unfold leaf_page. repeat case_if; bool_to_prop; cbn [bytes_of]; split_and!; try done.
  - intros _. by apply is_multiple_of_divide.
  - left. lia.
  - intros _. by apply is_multiple_of_divide.
  - left. lia.
  - by right.
Qed.

(** ** The chunks of a range, as a list *)

Fixpoint chunks (fuel : nat) (direct : bool) (kind : PhysicalMemoryKind) (gib : bool)
    (physical fin : Z) : list MappingChunk :=
  match fuel with
  | O => []
  | S fuel =>
      if physical <? fin then
        let '(sz, p) := leaf_page physical (fin - physical) kind gib in
        mkChunk physical (if direct then KERNEL_VIRT_BASE + physical else physical) sz p
          :: chunks fuel direct kind gib (physical + sz) fin
      else []
  end.

Definition range_chunks direct kind gib (start fin : Z) : list MappingChunk :=
  chunks (walk_fuel start fin) direct kind gib start fin.

Fixpoint fold_result {A} (visit : A -> MappingChunk -> result MappingError A) (acc : A)
    (l : list MappingChunk) : result MappingError A :=
  match l with
  | [] => Ok acc
  | c :: l => let? acc := visit acc c in fold_result visit acc l
  end.

Lemma fold_result_app {A} (visit : A -> MappingChunk -> result MappingError A) acc l k :
  fold_result visit acc (l ++ k) =
  match fold_result visit acc l with Ok acc => fold_result visit acc k | Err e => Err e end.
Proof.
  revert acc. induction l as [|c l IH]; intros acc; simpl; [done|]. by destruct (visit acc c).
Qed.

(** The walk is a fold of the closure over those chunks. *)
Lemma walk_loop_fold {A} direct kind gib (visit : A -> MappingChunk -> result MappingError A) fuel acc p fin :
  fin <= FOUR_LEVEL_LIMIT ->
  walk_loop direct kind gib visit fuel acc p fin = fold_result visit acc (chunks fuel direct kind gib p fin).
Proof.
  intros Hfin. revert acc p. induction fuel as [|fuel IH]; intros acc p; cbn [walk_loop chunks]; [done|].
  destruct (p <? fin) eqn:Hp; bool_to_prop; [|done].
  destruct (leaf_page p (fin - p) kind gib) as [sz ps].
  unfold direct_virtual_address, identity_virtual_address. replace (p <? FOUR_LEVEL_LIMIT) with true by lia.
  destruct direct; cbn [ok_or fold_result]; destruct (visit acc _); auto.
Qed.

Lemma walk_range_eq {A} direct kind gib (visit : A -> MappingChunk -> result MappingError A) acc start fin :
  walk_range direct kind gib visit acc start fin =
  if start >=? fin then Err EmptyRange
  else if fin >? FOUR_LEVEL_LIMIT then Err NonCanonicalRange
  else fold_result visit acc (range_chunks direct kind gib start fin).
Proof.
  unfold walk_range. case_if; [done|]. case_if; [done|]. by apply walk_loop_fold.
Qed.

(** Collecting and counting succeed exactly while the table has room. *)
Lemma fold_plan l plan :
  (length plan <= MAX_CHUNKS)%nat ->
  fold_result plan_visit plan l =
  if (MAX_CHUNKS <? length plan + length l)%nat then Err TooManyChunks else Ok (plan ++ l).
Proof.
  revert plan. induction l as [|c l IH]; intros plan Hle; cbn [fold_result length].
  { rewrite Nat.add_0_r, app_nil_r. by rewrite (proj2 (Nat.ltb_ge _ _) Hle). }
  unfold plan_visit. destruct (length plan =? MAX_CHUNKS)%nat eqn:Hm.
  - apply Nat.eqb_eq in Hm. by rewrite (proj2 (Nat.ltb_lt MAX_CHUNKS (length plan + S (length l)))) by lia.
  - apply Nat.eqb_neq in Hm. fold plan_visit. rewrite IH by (rewrite length_app; simpl; lia).
    rewrite length_app, <- app_assoc. simpl. by replace (length plan + 1 + length l)%nat
      with (length plan + S (length l))%nat by lia.
Qed.

Lemma fold_count l n :
  (n <= MAX_CHUNKS)%nat ->
  fold_result count_visit n l =
  if (MAX_CHUNKS <? n + length l)%nat then Err TooManyChunks else Ok (n + length l)%nat.
Proof.
  revert n. induction l as [|c l IH]; intros n Hle; cbn [fold_result length].
  { rewrite Nat.add_0_r. by rewrite (proj2 (Nat.ltb_ge _ _) Hle). }
  unfold count_visit. destruct (MAX_CHUNKS <? S n)%nat eqn:Hm.
  - apply Nat.ltb_lt in Hm. by rewrite (proj2 (Nat.ltb_lt MAX_CHUNKS (n + S (length l)))) by lia.
  - apply Nat.ltb_ge in Hm. fold count_visit. rewrite IH by lia.
    by replace (S n + length l)%nat with (n + S (length l))%nat by lia.
Qed.

(** [l] covers [p..q] without gap or overlap, in order. *)
Fixpoint chain (p : Z) (l : list MappingChunk) (q : Z) : Prop :=
  match l with
  | [] => p = q
  | c :: l => physical_start c = p /\ chain (p + size c) l q
  end.

(** A chunk of the range [start..fin]. *)
Record good_chunk (direct : bool) (kind : PhysicalMemoryKind) (gib : bool) (start fin : Z)
    (c : MappingChunk) : Prop := {
  gc_range : start <= physical_start c < fin;
  gc_size : size c = bytes_of (page_size c);
  gc_virtual : virtual_start c = if direct then KERNEL_VIRT_BASE + physical_start c else physical_start c;
  gc_align : (PAGE_SIZE | start) -> (size c | physical_start c);
  gc_fits : physical_start c + size c <= fin \/ page_size c = FourKiB;
  gc_mmio : kind = Mmio -> page_size c = FourKiB;
  gc_gib : page_size c = OneGiB -> gib = true;
}.

Lemma good_chunk_start direct kind gib s s' fin c :
  s <= s' -> ((PAGE_SIZE | s) -> (PAGE_SIZE | s')) ->
  good_chunk direct kind gib s' fin c -> good_chunk direct kind gib s fin c.
Proof. intros Hle Hd [[G1 G1'] G2 G3 G4 G5 G6 G7]. constructor; auto. lia. Qed.

Lemma chunks_spec fuel direct kind gib p fin :
  p < fin + PAGE_SIZE -> (p <= fin -> (Z.to_nat ((fin - p) / PAGE_SIZE + 1) <= fuel)%nat) ->
  exists q, chain p (chunks fuel direct kind gib p fin) q /\
    Z.max p fin <= q < fin + PAGE_SIZE /\
    ((PAGE_SIZE | p) -> (PAGE_SIZE | q)) /\
    Forall (good_chunk direct kind gib p fin) (chunks fuel direct kind gib p fin).
Proof.
  assert (Hps : 0 < PAGE_SIZE) by (unfold PAGE_SIZE; lia).
  revert p. induction fuel as [|fuel IH]; intros p Hp Hfuel; cbn [chunks].
  { exists p. split_and!; try done; try lia. destruct (decide (p <= fin)) as [Hle|]; [|lia].
    specialize (Hfuel Hle). pose proof (Z.div_pos (fin - p) PAGE_SIZE ltac:(lia) Hps). lia. }
  destruct (p <? fin) eqn:Hlt; bool_to_prop.
  2: { exists p. split_and!; try done; lia. }
  pose proof (leaf_page_spec p (fin - p) kind gib ltac:(lia)) as Hleaf.
  destruct (leaf_page p (fin - p) kind gib) as [sz ps]. destruct Hleaf as (-> & Hal & Hfit & Hmm & Hg).
  destruct (bytes_of_page ps) as [Hbp Hbd].
  destruct (IH (p + bytes_of ps)) as (q & Hc & Hq & Hd & Hall).
  { destruct Hfit as [|Hf]; [lia|]. subst ps. cbn. lia. }
  { intros Hle. assert ((fin - (p + bytes_of ps)) / PAGE_SIZE + 1 <= (fin - p) / PAGE_SIZE); [|lia].
    replace ((fin - (p + bytes_of ps)) / PAGE_SIZE + 1) with ((fin - (p + bytes_of ps) + 1 * PAGE_SIZE) / PAGE_SIZE)
      by (rewrite Z.div_add by lia; lia).
    apply Z.div_le_mono; lia. }
  exists q. split_and!; [done|lia|lia|intros Hdp; apply Hd; by apply Z.divide_add_r|].
  constructor.
  - constructor; cbn; try done. destruct Hfit; [left; lia|by right].
  - revert Hall. apply Forall_impl. intros c. apply good_chunk_start; [lia|].
    intros Hdp. by apply Z.divide_add_r.
Qed.

Lemma range_chunks_spec direct kind gib start fin :
  start < fin ->
  exists q, chain start (range_chunks direct kind gib start fin) q /\ fin <= q < fin + PAGE_SIZE /\
    ((PAGE_SIZE | start) -> (PAGE_SIZE | fin) -> q = fin) /\
    Forall (good_chunk direct kind gib start fin) (range_chunks direct kind gib start fin).
Proof.
  intros Hlt. assert (Hps : 0 < PAGE_SIZE) by (unfold PAGE_SIZE; lia).
  destruct (chunks_spec (walk_fuel start fin) direct kind gib start fin) as (q & Hc & Hq & Hd & Hall);
    [lia|unfold walk_fuel; lia|].
  exists q. split_and!; try done; try lia. intros Hs Hf. specialize (Hd Hs).
  destruct (decide (q = fin)) as [|Hne]; [done|].
  pose proof (divide_lt_add_le _ _ _ Hps Hf Hd ltac:(lia)). lia.
Qed.

(** A byte of the covered range lies in some chunk. *)
Lemma chain_find p l q x :
  chain p l q -> p <= x < q -> exists c, c ∈ l /\ physical_start c <= x < physical_start c + size c.
Proof.
  revert p. induction l as [|c l IH]; intros p; cbn [chain]; [intros ->; lia|].
  intros [<- Hc] Hx. destruct (decide (x < physical_start c + size c)).
  - exists c. split; [by left|lia].
  - destruct (IH _ Hc) as (c' & Hin & Hx'); [lia|]. exists c'. split; [by right|done].
Qed.

(** The plan of a list of regions is the concatenation of their chunks. *)
Lemma walk_regions_plan direct gib rs plan0 plan :
  (length plan0 <= MAX_CHUNKS)%nat ->
  walk_regions direct gib plan_visit plan0 rs = Ok plan ->
  plan = plan0 ++ concat ((fun r => range_chunks direct (region_kind r) gib (region_start r) (region_end r)) <$> rs) /\
  (length plan <= MAX_CHUNKS)%nat /\
  Forall (fun r => region_start r < region_end r <= FOUR_LEVEL_LIMIT) rs.
Proof.
  revert plan0. induction rs as [|r rs IH]; intros plan0 Hle; cbn [walk_regions].
  { intros [= <-]. cbn. by rewrite app_nil_r. }
  rewrite walk_range_eq. case_if; [done|]. case_if; [done|]. rewrite fold_plan by done.
  destruct (MAX_CHUNKS <? _)%nat eqn:Hm; [done|]. apply Nat.ltb_ge in Hm. intros Hw.
  apply IH in Hw as (-> & Hl & Hall); [|rewrite length_app; lia].
  rewrite fmap_cons. cbn [concat]. rewrite <- app_assoc. split_and!; try done; [by rewrite <- app_assoc in Hl|].
  constructor; [lia|done].
Qed.

(** ** The contract *)

(** [plan_range] terminates with a plan exactly for a non-empty range
    below the four-level limit that needs at most [MAX_CHUNKS] pages. The plan
    covers the range from its start without gap or overlap (and ends exactly
    at [fin] for a page-aligned range, less than a page past it otherwise);
    every page is at its direct-map or identity address, naturally aligned in
    an aligned range, MMIO is only mapped with 4 KiB pages and 1 GiB pages are
    used only where the CPU has them. *)
Theorem plan_range_correct start fin direct kind gib :
  match plan_range start fin direct kind gib with
  | Ok plan => start < fin <= FOUR_LEVEL_LIMIT /\ (length plan <= MAX_CHUNKS)%nat /\
      (exists q, chain start plan q /\ fin <= q < fin + PAGE_SIZE /\
         ((PAGE_SIZE | start) -> (PAGE_SIZE | fin) -> q = fin)) /\
      Forall (good_chunk direct kind gib start fin) plan
  | Err EmptyRange => fin <= start
  | Err NonCanonicalRange => start < fin /\ FOUR_LEVEL_LIMIT < fin
  | Err TooManyChunks => (MAX_CHUNKS < length (range_chunks direct kind gib start fin))%nat
  end.
Proof.
  unfold plan_range. rewrite walk_range_eq. case_if; [done|]. case_if; [lia|].
  rewrite fold_plan by (simpl; lia). cbn [length app]. rewrite Nat.add_0_l.
  destruct (MAX_CHUNKS <? _)%nat eqn:Hm; [by apply Nat.ltb_lt|]. apply Nat.ltb_ge in Hm.
  destruct (range_chunks_spec direct kind gib start fin) as (q & Hc & Hq & He & Hall); [lia|].
  split_and!; try done; try lia. by exists q.
Qed.


(** The check that runs at boot without building a chunk table answers
    exactly what building the plan would: same success, same error. *)
Theorem check_agrees_with_plan m direct gib :
  check_memory_map m direct gib = result_map (fun _ => tt) (plan_memory_map m direct gib).
Proof.
  unfold check_memory_map, plan_memory_map.
  assert (Hsim : forall rs n plan, length plan = n -> (n <= MAX_CHUNKS)%nat ->
    result_map (fun _ => tt) (walk_regions direct gib count_visit n rs) =
    result_map (fun _ => tt) (walk_regions direct gib plan_visit plan rs)).
  { induction rs as [|r rs IH]; intros n plan Hn Hle; cbn [walk_regions]; [done|].
    rewrite !walk_range_eq. case_if; [done|]. case_if; [done|].
    rewrite fold_count, fold_plan by lia. rewrite Hn.
    destruct (MAX_CHUNKS <? _)%nat eqn:Hm; [done|]. apply Nat.ltb_ge in Hm.
    apply IH; [rewrite length_app; lia|done]. }
  apply Hsim; [done|lia].
Qed.

(** A plan for a whole memory map reaches every byte of every usable,
    ACPI, runtime and MMIO region through a page at its fixed virtual address,
    and fits the chunk table. *)
Theorem plan_memory_map_covers m direct gib plan r x :
  plan_memory_map m direct gib = Ok plan -> r ∈ m -> is_mapped_kind (region_kind r) = true ->
  region_start r <= x < region_end r ->
  (length plan <= MAX_CHUNKS)%nat /\
  exists c, c ∈ plan /\ physical_start c <= x < physical_start c + size c /\
    good_chunk direct (region_kind r) gib (region_start r) (region_end r) c.
Proof.
  unfold plan_memory_map. intros Hplan Hr Hk Hx.
  apply walk_regions_plan in Hplan as (-> & Hlen & Hall); [|simpl; lia]. split; [done|]. cbn [app] in *.
  assert (Hin : r ∈ mapped_regions m).
  { unfold mapped_regions. apply list_elem_of_In, filter_In. split; [by apply list_elem_of_In|done]. }
  destruct (range_chunks_spec direct (region_kind r) gib (region_start r) (region_end r))
    as (q & Hc & Hq & _ & Hg); [lia|].
  destruct (chain_find _ _ _ x Hc) as (c & Hcin & Hcx); [lia|]. exists c. split_and!; try done; try lia.
  - apply list_elem_of_In, in_concat. eexists. split; [|by apply list_elem_of_In].
    apply list_elem_of_In, list_elem_of_fmap. by exists r.
  - eapply List.Forall_forall; [exact Hg|by apply list_elem_of_In].
Qed.

Definition demo_memory_map : PhysicalMemoryMap :=
  [mkRegion 0 0x9f000 Usable; mkRegion 0x9f000 0x1000 MemReserved;
   mkRegion 0x100000 0x3ff00000 Usable; mkRegion 0xfee00000 0x1000 Mmio].

Lemma plan_memory_map_covers_witness :
  exists plan, plan_memory_map demo_memory_map true true = Ok plan /\
  exists c, c ∈ plan /\ physical_start c <= 0x200010 < physical_start c + size c /\
    good_chunk true Usable true 0x100000 0x40000000 c.
Proof.
  destruct (plan_memory_map demo_memory_map true true) as [plan|e] eqn:Hp.
  - exists plan. split; [reflexivity|].
    refine (proj2 (plan_memory_map_covers demo_memory_map true true plan
      (mkRegion 0x100000 0x3ff00000 Usable) 0x200010 Hp _ _ _)).
    + unfold demo_memory_map. right. right. left.
    + reflexivity.
    + vm_compute. split; [discriminate|reflexivity].
  - exfalso. revert Hp. vm_compute. discriminate.
Defined.

(** A 1 GiB page, then 2 MiB pages, then 4 KiB pages; MMIO only 4 KiB. *)
Example plan_sizes :
  result_map (fmap size) (plan_range GIGABYTE (2 * GIGABYTE + TWO_MIB + 8192) true Usable true)
    = Ok [GIGABYTE; TWO_MIB; PAGE_SIZE; PAGE_SIZE] /\
  result_map (fmap size) (plan_range TWO_MIB (TWO_MIB + 8192) true Mmio true) = Ok [PAGE_SIZE; PAGE_SIZE].
Proof. by vm_compute. Qed.
