(* ===== verification/Errno.v ===== *)
(** * Errno: error numbers

    [kernel/src/fs/errno.rs]: the errors of the file system and the memory
    map, with Linux's numbers. *)

From S2P Require Import Prelude.
From stdpp Require Import base decidable numbers.
Local Open Scope Z_scope.

Inductive Errno : Type :=
| EPERM | ENOENT | EIO | E2BIG | ENOEXEC | EBADF | ECHILD
| ENOMEM | EACCES | EFAULT | EBUSY | EEXIST | EXDEV | ENODEV
| ENOTDIR | EISDIR | EINVAL | EMFILE | ENOTTY | ENOSPC | ESPIPE
| EROFS | ERANGE | ENAMETOOLONG | ENOSYS | ENOTEMPTY.
#[export] Instance Errno_eq_dec : EqDecision Errno.
Proof. solve_decision. Defined.

Definition code (e : Errno) : Z :=
  match e with
  | EPERM => 1 | ENOENT => 2 | EIO => 5 | E2BIG => 7 | ENOEXEC => 8
  | EBADF => 9 | ECHILD => 10 | ENOMEM => 12 | EACCES => 13 | EFAULT => 14
  | EBUSY => 16 | EEXIST => 17 | EXDEV => 18 | ENODEV => 19 | ENOTDIR => 20
  | EISDIR => 21 | EINVAL => 22 | EMFILE => 24 | ENOTTY => 25 | ENOSPC => 28
  | ESPIPE => 29 | EROFS => 30 | ERANGE => 34 | ENAMETOOLONG => 36 | ENOSYS => 38
  | ENOTEMPTY => 39
  end.

(** Distinct errors reach user space as distinct numbers. *)
Lemma code_inj e e' : code e = code e' -> e = e'.
Proof. destruct e, e'; done || discriminate. Qed.
