(* ===== verification/Vma.v ===== *)
(** * Vma: a process's memory map

    Models [kernel/src/mm/vma.rs]: the sorted list of user regions behind
    [brk], [mmap], [munmap] and [mprotect]. Operations return the map they
    leave behind next to their result, on error too. The proofs are in
    [VmaSpec.v] and [VmaSpec.v]. *)

From S2P Require Import Prelude Errno.
From stdpp Require Import base list numbers.
Local Open Scope Z_scope.

Definition PAGE_SIZE : Z := 4096.
Definition MIN_ADDRESS : Z := 0x10000.

Record Protection : Type := mkProt { read : bool; write : bool; execute : bool }.
#[export] Instance Protection_eq_dec : EqDecision Protection.
Proof. solve_decision. Defined.
Definition PROT_NONE : Protection := mkProt false false false.
Definition READ : Protection := mkProt true false false.
Definition READ_WRITE : Protection := mkProt true true false.
Definition READ_EXECUTE : Protection := mkProt true false true.

Definition from_linux (bits : Z) : result Errno Protection :=
  if negb (Z.ldiff bits (Z.lor 1 (Z.lor 2 4)) =? 0) then Err EINVAL else
  let p := mkProt (negb (bits =? 0)) (negb (Z.land bits 2 =? 0)) (negb (Z.land bits 4 =? 0)) in
  if write p && execute p then Err EACCES else Ok p.

Inductive RegionKind : Type :=
| Image | Heap | Stack | Anonymous | Device (physical : Z).
#[export] Instance RegionKind_eq_dec : EqDecision RegionKind.
Proof. solve_decision. Defined.

Record Region : Type := mkRegion {
  start : Z;
  fin : Z;
  protection : Protection;
  kind : RegionKind;
}.

Definition piece (r : Region) (s e : Z) : Region :=
  mkRegion s e (protection r)
    (match kind r with Device p => Device (p + (s - start r)) | k => k end).
Definition device_address (r : Region) (address : Z) : option Z :=
  match kind r with Device p => Some (p + (address - start r)) | _ => None end.

Record Span : Type := mkSpan { span_start : Z; span_end : Z; span_prot : Protection }.

Inductive BrkChange : Type := Unchanged | MapSpan (s : Span) | UnmapSpan (s : Span).

Record MmapChange : Type := mkMmap { address : Z; replaced : list Span; new_span : Span }.

Record MemoryMap : Type := mkMap {
  regions : list Region;
  brk_start : Z;
  brk : Z;
  mmap_top : Z;
}.
Definition with_regions (m : MemoryMap) (l : list Region) : MemoryMap :=
  mkMap l (brk_start m) (brk m) (mmap_top m).

Definition page_up (a : Z) : option Z := checked_next_multiple_of a PAGE_SIZE.
Definition aligned (a : Z) : bool := is_multiple_of a PAGE_SIZE.

Definition region_at (m : MemoryMap) (a : Z) : option Region :=
  List.find (fun r => (start r <=? a) && (a <? fin r)) (regions m).

Definition overlaps (m : MemoryMap) (s e : Z) : bool :=
  existsb (fun r => (s <? fin r) && (start r <? e)) (regions m).

(** [slice::partition_point]: the length of the prefix that satisfies [p],
    on a list where no later element does. *)
Fixpoint partition_point {A} (p : A -> bool) (l : list A) : nat :=
  match l with
  | [] => 0
  | x :: l => if p x then S (partition_point p l) else 0
  end.

Definition insert (m : MemoryMap) (r : Region) : result Errno unit * MemoryMap :=
  if (start r >=? fin r) || negb (aligned (start r)) || negb (aligned (fin r)) then (Err EINVAL, m)
  else if overlaps m (start r) (fin r) then (Err ENOMEM, m)
  else
    let index := partition_point (fun other => start other <? start r) (regions m) in
    (Ok tt, with_regions m (take index (regions m) ++ r :: drop index (regions m))).

Fixpoint insert_all (m : MemoryMap) (rs : list Region) : result Errno unit * MemoryMap :=
  match rs with
  | [] => (Ok tt, m)
  | r :: rs =>
      match insert m r with
      | (Ok _, m) => insert_all m rs
      | (Err e, m) => (Err e, m)
      end
  end.

Definition new (rs : list Region) (brk_start mmap_top : Z) : result Errno MemoryMap :=
  match insert_all (mkMap [] brk_start brk_start mmap_top) rs with
  | (Ok _, m) => Ok m
  | (Err e, _) => Err e
  end.

(** One iteration of the loop of [remove]: what is kept and what goes. *)
Definition cut (s e : Z) (r : Region) : list Region * list Span :=
  if (fin r <=? s) || (e <=? start r) then ([r], [])
  else
    ((if start r <? s then [piece r (start r) s] else []) ++
     (if e <? fin r then [piece r e (fin r)] else []),
     [mkSpan (Z.max (start r) s) (Z.min (fin r) e) (protection r)]).
Definition remove (m : MemoryMap) (s e : Z) : list Span * MemoryMap :=
  (concat ((fun r => (cut s e r).2) <$> regions m),
   with_regions m (concat ((fun r => (cut s e r).1) <$> regions m))).

(** The downward search over the reversed regions. *)
Fixpoint find_free_loop (rs : list Region) (length floor top : Z) : option Z :=
  match rs with
  | [] =>
      match checked_sub top length with
      | Some s => if s >=? floor then Some s else None
      | None => None
      end
  | r :: rs =>
      if start r >=? top then find_free_loop rs length floor top
      else if (fin r <=? top) && (top - fin r >=? length) then
        let s := top - length in if s >=? floor then Some s else None
      else find_free_loop rs length floor (Z.min top (start r))
  end.
Definition find_free (m : MemoryMap) (length : Z) : option Z :=
  match page_up (brk m) with
  | None => None
  | Some b => find_free_loop (rev (regions m)) length (Z.max b MIN_ADDRESS) (mmap_top m)
  end.

(** The closure [usable] of [place]. *)
Definition usable_at (m : MemoryMap) (length s : Z) : bool :=
  (s >=? MIN_ADDRESS) && aligned s &&
  match checked_add s length with Some e => e <=? mmap_top m | None => false end.

Definition place (m : MemoryMap) (hint length : Z) (prot : Protection) (fixed : bool) (k : RegionKind)
  : result Errno MmapChange * MemoryMap :=
  if length =? 0 then (Err EINVAL, m) else
  match page_up length with
  | None => (Err ENOMEM, m)
  | Some length =>
      if fixed && negb (aligned hint) then (Err EINVAL, m) else
      let finish a replaced m :=
        let span := mkSpan a (a + length) prot in
        match insert m (mkRegion a (a + length) prot k) with
        | (Ok _, m) => (Ok (mkMmap a replaced span), m)
        | (Err e, m) => (Err e, m)
        end in
      if fixed then
        if negb (usable_at m length hint) then (Err ENOMEM, m)
        else let '(replaced, m) := remove m hint (hint + length) in finish hint replaced m
      else if negb (hint =? 0) && usable_at m length hint && negb (overlaps m hint (hint + length))
      then finish hint [] m
      else match find_free m length with
           | None => (Err ENOMEM, m)
           | Some a => finish a [] m
           end
  end.

Definition mmap (m : MemoryMap) (hint length : Z) (prot : Protection) (fixed : bool) :=
  place m hint length prot fixed Anonymous.
Definition mmap_device (m : MemoryMap) (hint length : Z) (prot : Protection) (physical : Z) (fixed : bool) :=
  if negb (aligned physical) || execute prot then (Err EINVAL, m)
  else place m hint length prot fixed (Device physical).

Definition munmap (m : MemoryMap) (s length : Z) : result Errno (list Span) * MemoryMap :=
  if negb (aligned s) || (length =? 0) then (Err EINVAL, m) else
  match page_up length with
  | None => (Err EINVAL, m)
  | Some length =>
      match checked_add s length with
      | None => (Err EINVAL, m)
      | Some e => let '(spans, m) := remove m s e in (Ok spans, m)
      end
  end.

(** [None]: a gap was found; otherwise where the covered prefix ends. *)
Fixpoint cover_loop (rs : list Region) (cursor e : Z) : option Z :=
  match rs with
  | [] => Some cursor
  | r :: rs =>
      if (fin r <=? cursor) || (start r >=? e) then cover_loop rs cursor e
      else if start r >? cursor then None
      else if fin r >=? e then Some (fin r)
      else cover_loop rs (fin r) e
  end.

Definition inside (s e : Z) (r : Region) : bool := (start r <? e) && (s <? fin r).
Definition is_device (r : Region) : bool := match kind r with Device _ => true | _ => false end.

Definition set_prot (r : Region) (p : Protection) : Region := mkRegion (start r) (fin r) p (kind r).

Fixpoint reinsert (m : MemoryMap) (s e : Z) (prot : Protection) (kinds : list Region)
  : result Errno (list Span) * MemoryMap :=
  match kinds with
  | [] => (Ok [], m)
  | r :: kinds =>
      let p := set_prot (piece r (Z.max (start r) s) (Z.min (fin r) e)) prot in
      match insert m p with
      | (Err err, m) => (Err err, m)
      | (Ok _, m) =>
          match reinsert m s e prot kinds with
          | (Ok spans, m) => (Ok (mkSpan (start p) (fin p) prot :: spans), m)
          | (Err err, m) => (Err err, m)
          end
      end
  end.

Definition mprotect (m : MemoryMap) (s length : Z) (prot : Protection)
  : result Errno (list Span) * MemoryMap :=
  if negb (aligned s) then (Err EINVAL, m) else
  match page_up length with
  | None => (Err ENOMEM, m)
  | Some length =>
      match checked_add s length with
      | None => (Err ENOMEM, m)
      | Some e =>
          if s =? e then (Ok [], m) else
          match cover_loop (regions m) s e with
          | None => (Err ENOMEM, m)
          | Some cursor =>
              if cursor <? e then (Err ENOMEM, m)
              else if execute prot && existsb is_device (List.filter (inside s e) (regions m))
              then (Err EACCES, m)
              else
                let kinds := List.filter (inside s e) (regions m) in
                let '(_, m) := remove m s e in reinsert m s e prot kinds
          end
      end
  end.

Definition is_heap (r : Region) : bool := bool_decide (kind r = Heap).

Definition set_brk (m : MemoryMap) (a : Z) : result Errno BrkChange * MemoryMap :=
  if a <? brk_start m then (Err ENOMEM, m) else
  match page_up (brk m), page_up a with
  | Some old_end, Some new_end =>
      let heap_limit := Z.max old_end new_end in
      if (new_end >? mmap_top m)
         || existsb (fun r => negb (is_heap r) && (start r <? heap_limit) && (brk_start m <? fin r)) (regions m)
      then (Err ENOMEM, m)
      else
        let change :=
          if new_end >? old_end then MapSpan (mkSpan old_end new_end READ_WRITE)
          else if new_end <? old_end then UnmapSpan (mkSpan new_end old_end READ_WRITE)
          else Unchanged in
        let m := with_regions m (List.filter (fun r => negb (is_heap r)) (regions m)) in
        let '(r, m) :=
          if new_end >? brk_start m then insert m (mkRegion (brk_start m) new_end READ_WRITE Heap)
          else (Ok tt, m) in
        match r with
        | Err e => (Err e, m)
        | Ok _ => (Ok change, mkMap (regions m) (brk_start m) a (mmap_top m))
        end
  | _, _ => (Err ENOMEM, m)
  end.
