(* ===== verification/VmaSpec.v ===== *)
(** * VmaSpec: the memory map as a function of the address

    The abstract view of [kernel/src/mm/vma.rs]: which protection and backing
    an address has. The list operations ([insert], [remove], the free-gap
    search, the coverage check) are shown to implement it on sorted, disjoint,
    page-aligned lists of regions. *)

From stdpp Require Import base numbers sets relations list.
From S2P Require Import Prelude Errno Vma.
Local Open Scope Z_scope.

Section Regions.
Implicit Types (r : Region) (l : list Region) (x s e lo : Z).

(** What backs address [x] of region [r]. *)
Definition kind_at r x : RegionKind :=
  match kind r with Device p => Device (p + (x - start r)) | k => k end.
Definition attr r x : Protection * RegionKind := (protection r, kind_at r x).

Definition has r x : bool := (start r <=? x) && (x <? fin r).
Definition attrs l x : option (Protection * RegionKind) :=
  (fun r => attr r x) <$> List.find (fun r => has r x) l.

(** The abstract view of a map. *)
Definition view (m : MemoryMap) x : option (Protection * RegionKind) := attrs (regions m) x.

(** Sorted, disjoint, page-aligned, non-empty regions at or above [lo]. *)
Fixpoint ok_from lo l : Prop :=
  match l with
  | [] => True
  | r :: l => lo <= start r /\ start r < fin r /\ (PAGE_SIZE | start r) /\ (PAGE_SIZE | fin r) /\
      ok_from (fin r) l
  end.

Lemma page_pos : 0 < PAGE_SIZE.
Proof. unfold PAGE_SIZE. lia. Qed.
#[local] Hint Resolve page_pos : core.

Lemma aligned_iff x : aligned x = true <-> (PAGE_SIZE | x).
Proof. unfold aligned. by apply is_multiple_of_divide. Qed.

Lemma has_iff r x : has r x = true <-> start r <= x < fin r.
Proof. unfold has. rewrite andb_true_iff, Z.leb_le, Z.ltb_lt. done. Qed.

Lemma attrs_cons r l x : attrs (r :: l) x = if has r x then Some (attr r x) else attrs l x.
Proof. unfold attrs. simpl. by destruct (has r x). Qed.

Lemma attrs_app l k x :
  attrs (l ++ k) x = match attrs l x with Some a => Some a | None => attrs k x end.
Proof.
  induction l as [|r l IH]; simpl; [done|]. rewrite !attrs_cons. by destruct (has r x).
Qed.

Lemma ok_from_weaken lo lo' l : lo' <= lo -> ok_from lo l -> ok_from lo' l.
Proof. destruct l as [|r l]; simpl; [done|]. intuition lia. Qed.

Lemma ok_from_elem lo l r :
  ok_from lo l -> r ∈ l -> lo <= start r /\ start r < fin r /\ (PAGE_SIZE | start r) /\ (PAGE_SIZE | fin r).
Proof.
  revert lo. induction l as [|y l IH]; intros lo; simpl; [set_solver|].
  intros (E1 & E2 & E3 & E4 & Hok) [->|Hr]%elem_of_cons; [done|].
  destruct (IH _ Hok Hr) as (? & ?). split; [lia|done].
Qed.

(** The region that contains an address decides its attributes. *)
Lemma attrs_elem lo l r x : ok_from lo l -> r ∈ l -> start r <= x < fin r -> attrs l x = Some (attr r x).
Proof.
  revert lo. induction l as [|y l IH]; intros lo; simpl; [set_solver|].
  intros (E1 & E2 & E3 & E4 & Hok) [->|Hr]%elem_of_cons Hx; rewrite attrs_cons.
  - by rewrite (proj2 (has_iff y x) Hx).
  - destruct (ok_from_elem _ _ _ Hok Hr) as (E5 & _).
    destruct (has y x) eqn:Hh; [apply has_iff in Hh; lia|]. by eapply IH.
Qed.

Lemma attrs_Some lo l x a :
  ok_from lo l -> attrs l x = Some a -> exists r, r ∈ l /\ start r <= x < fin r /\ a = attr r x.
Proof.
  intros Hok Ha. unfold attrs in Ha. apply fmap_Some in Ha as (r & Hf & ->).
  apply find_some in Hf as [Hin Hh]. exists r. by rewrite list_elem_of_In, <- has_iff.
Qed.

Lemma attrs_None l x : attrs l x = None <-> forall r, r ∈ l -> ~ start r <= x < fin r.
Proof.
  unfold attrs. rewrite fmap_None. split.
  - intros Hf r Hr%list_elem_of_In Hx. pose proof (find_none _ _ Hf r Hr) as Hn. cbv beta in Hn.
    rewrite (proj2 (has_iff r x) Hx) in Hn. done.
  - intros Hn. destruct (List.find _ l) as [r|] eqn:Hf; [|done]. exfalso.
    apply find_some in Hf as [Hin Hh]. apply (Hn r); [by apply list_elem_of_In|by apply has_iff].
Qed.

(** ** Overlap and insertion *)

Lemma overlaps_iff m s e :
  overlaps m s e = true <-> exists r, r ∈ regions m /\ s < fin r /\ start r < e.
Proof.
  unfold overlaps. rewrite existsb_true_exists. setoid_rewrite andb_true_iff.
  setoid_rewrite Z.ltb_lt. done.
Qed.

(** A range overlaps no region exactly when nothing in it is mapped. *)
Lemma overlaps_false m lo s e :
  ok_from lo (regions m) -> s < e ->
  overlaps m s e = false <-> forall x, s <= x < e -> view m x = None.
Proof.
  intros Hok Hse. rewrite <- not_true_iff_false, overlaps_iff. split.
  - intros Hno x Hx. apply attrs_None. intros r Hr Hin. apply Hno. exists r. split; [done|lia].
  - intros Hall (r & Hr & H1 & H2). destruct (ok_from_elem _ _ _ Hok Hr) as (_ & E & _).
    specialize (Hall (Z.max s (start r)) ltac:(lia)). unfold view in Hall.
    rewrite (attrs_elem _ _ _ _ Hok Hr) in Hall; [done|lia].
Qed.

Definition ins r l : list Region :=
  let i := partition_point (fun y => start y <? start r) l in take i l ++ r :: drop i l.

Lemma ins_cons r y l : ins r (y :: l) = if start y <? start r then y :: ins r l else r :: y :: l.
Proof. unfold ins. simpl. by destruct (start y <? start r). Qed.

Lemma ins_spec r l lo x :
  ok_from lo l -> lo <= start r -> start r < fin r -> (PAGE_SIZE | start r) -> (PAGE_SIZE | fin r) ->
  (forall y, y ∈ l -> fin r <= start y \/ fin y <= start r) ->
  ok_from lo (ins r l) /\ attrs (ins r l) x = if has r x then Some (attr r x) else attrs l x.
Proof.
  intros Hok Hlo Hne Ha1 Ha2. revert lo Hok Hlo. induction l as [|y l IH]; intros lo Hok Hlo Hdis.
  { unfold ins. simpl. rewrite attrs_cons. done. }
  rewrite ins_cons. destruct Hok as (E1 & E2 & E3 & E4 & Hok).
  destruct (Hdis y ltac:(by left)) as [Hy|Hy].
  - replace (start y <? start r) with false by lia. rewrite attrs_cons. simpl. split_and!; try done; lia.
  - replace (start y <? start r) with true by lia.
    destruct (IH (fin y) Hok Hy) as [Hok' Hat]; [intros z Hz; apply Hdis; by right|].
    rewrite !attrs_cons, Hat. simpl. split; [by split_and!|].
    destruct (has y x) eqn:Hyx, (has r x) eqn:Hrx; try done. apply has_iff in Hyx, Hrx. lia.
Qed.

(** [insert] succeeds exactly on a non-empty aligned range nothing occupies. *)
Lemma insert_spec m r lo :
  ok_from lo (regions m) -> lo <= start r ->
  match Vma.insert m r with
  | (Ok _, m') =>
      regions m' = ins r (regions m) /\ m' = with_regions m (regions m') /\
      ok_from lo (regions m') /\ start r < fin r /\
      (PAGE_SIZE | start r) /\ (PAGE_SIZE | fin r) /\ (forall x, start r <= x < fin r -> view m x = None) /\
      (forall x, view m' x = if has r x then Some (attr r x) else view m x)
  | (Err e, m') => m' = m /\
      ~ (start r < fin r /\ (PAGE_SIZE | start r) /\ (PAGE_SIZE | fin r) /\
         forall x, start r <= x < fin r -> view m x = None)
  end.
Proof.
  intros Hok Hlo. unfold Vma.insert.
  destruct (start r >=? fin r) eqn:E1; bool_to_prop; cbn [orb]; [split; [done|lia]|].
  destruct (aligned (start r)) eqn:E2; cbn [negb orb].
  2: { split; [done|]. intros (_ & Hc%aligned_iff & _). congruence. }
  destruct (aligned (fin r)) eqn:E3; cbn [negb orb].
  2: { split; [done|]. intros (_ & _ & Hc%aligned_iff & _). congruence. }
  apply aligned_iff in E2, E3. pose proof (overlaps_false m lo (start r) (fin r) Hok ltac:(lia)) as Hov.
  destruct (overlaps m (start r) (fin r)) eqn:E4.
  { split; [done|]. intros (_ & _ & _ & Hc%Hov). done. }
  assert (Hdis : forall y, y ∈ regions m -> fin r <= start y \/ fin y <= start r).
  { intros y Hy. destruct (decide (fin r <= start y)) as [|]; [by left|]. right.
    destruct (decide (fin y <= start r)) as [|]; [done|]. exfalso.
    apply not_true_iff_false in E4. apply E4, overlaps_iff. exists y. split; [done|lia]. }
  assert (Hspec : forall x, _) by (intros x; exact (ins_spec r (regions m) lo x Hok Hlo ltac:(lia) E2 E3 Hdis)).
  split; [done|]. split; [done|]. split; [apply (Hspec 0)|]. split; [lia|]. split; [done|]. split; [done|].
  split; [by apply Hov|]. intros x. apply Hspec.
Qed.

(** ** Removal *)

Lemma piece_attr r s e x : attr (piece r s e) x = attr r x.
Proof.
  unfold attr, kind_at, piece. cbn [protection kind start]. destruct (kind r); try done. do 2 f_equal. lia.
Qed.

Lemma cut_attrs s e r x :
  s <= e ->
  attrs (cut s e r).1 x = if has r x && negb ((s <=? x) && (x <? e)) then Some (attr r x) else None.
Proof.
  intros Hse. unfold cut, has. case_if; cbn [fst].
  - rewrite attrs_cons. unfold has.
    destruct ((start r <=? x) && (x <? fin r)) eqn:Hx; cbn [andb]; [|done].
    replace ((s <=? x) && (x <? e)) with false; [done|]. symmetry. apply not_true_iff_false.
    intros Hc. bool_to_prop. destruct Hif; bool_to_prop; lia.
  - rewrite attrs_app. destruct (start r <? s) eqn:E1, (e <? fin r) eqn:E2; rewrite ?attrs_cons; unfold has;
      cbn [piece start fin]; rewrite ?piece_attr; repeat case_if; bool_to_prop; try done; lia.
Qed.

Lemma cut_ok s e r lo l :
  s <= e -> (PAGE_SIZE | s) -> (PAGE_SIZE | e) ->
  lo <= start r -> start r < fin r -> (PAGE_SIZE | start r) -> (PAGE_SIZE | fin r) ->
  ok_from (fin r) l -> ok_from lo ((cut s e r).1 ++ l).
Proof.
  intros Hse Hs He Hlo Hne Ha1 Ha2 Hok. unfold cut. case_if; cbn [fst]; [simpl; by split_and!|].
  bool_to_prop. destruct (start r <? s) eqn:E1, (e <? fin r) eqn:E2; bool_to_prop; simpl; split_and?; try done; try lia.
  - eapply ok_from_weaken; [|exact Hok]. lia.
  - eapply ok_from_weaken; [|exact Hok]. lia.
Qed.

(** The spans [remove] reports. *)
Definition in_spans (spans : list Span) x (p : Protection) : Prop :=
  exists sp, sp ∈ spans /\ span_start sp <= x < span_end sp /\ span_prot sp = p.

Lemma in_spans_nil x p : ~ in_spans [] x p.
Proof. intros (sp & Hsp & _). set_solver. Qed.

Lemma in_spans_app a b x p : in_spans (a ++ b) x p <-> in_spans a x p \/ in_spans b x p.
Proof.
  unfold in_spans. split.
  - intros (sp & [?|?]%elem_of_app & ?); [left|right]; by exists sp.
  - intros [(sp & ? & ?)|(sp & ? & ?)]; exists sp; (split; [apply elem_of_app; auto|done]).
Qed.

Lemma cut_spans s e r x p :
  in_spans (cut s e r).2 x p <-> has r x = true /\ s <= x < e /\ protection r = p.
Proof.
  unfold cut, in_spans. rewrite has_iff. case_if; cbn [snd]; split.
  - intros (sp & Hsp & _). set_solver.
  - intros (Hx & Hse & _). destruct Hif; bool_to_prop; lia.
  - intros (sp & ->%list_elem_of_singleton & Hx & <-). cbn [span_start span_end span_prot] in *. split_and!; try done; lia.
  - intros (Hx & Hse & <-). eexists. split; [by apply list_elem_of_singleton|]. cbn. split; [lia|done].
Qed.

(** Removal empties exactly the range and reports exactly what was there. *)
Lemma remove_spec m s e lo :
  ok_from lo (regions m) -> s <= e -> (PAGE_SIZE | s) -> (PAGE_SIZE | e) ->
  let '(spans, m') := Vma.remove m s e in
  m' = with_regions m (regions m') /\ ok_from lo (regions m') /\
  (forall x, view m' x = if (s <=? x) && (x <? e) then None else view m x) /\
  (forall x p, in_spans spans x p <-> s <= x < e /\ exists k, view m x = Some (p, k)).
Proof.
  intros Hok Hse Hs He. unfold Vma.remove, view. cbn [regions with_regions]. split; [done|].
  revert lo Hok. induction (regions m) as [|r l IH]; intros lo Hok.
  { simpl. split_and!; [done| |].
    - intros x. by case_if.
    - intros x p. split; [by intros ?%in_spans_nil|]. by intros (_ & k & ?). }
  destruct Hok as (E1 & E2 & E3 & E4 & Hok). destruct (IH _ Hok) as (I1 & I2 & I3).
  rewrite !fmap_cons. cbn [concat]. split_and!.
  - by apply cut_ok.
  - intros x. rewrite attrs_app, cut_attrs, I2, attrs_cons by done.
    destruct (has r x) eqn:Hx, ((s <=? x) && (x <? e)) eqn:Hse'; cbn [andb negb]; try done.
  - intros x p. rewrite in_spans_app, cut_spans, I3, attrs_cons. split.
    + intros [(Hx & Hr & <-)|(Hr & k & Hk)].
      * split; [done|]. rewrite Hx. by eexists.
      * split; [done|]. exists k. destruct (has r x) eqn:Hx; [|done]. exfalso. apply has_iff in Hx.
        assert (attrs l x = None) as Hn; [|congruence]. apply attrs_None. intros y Hy Hxy.
        destruct (ok_from_elem _ _ _ Hok Hy) as (? & _). lia.
    + intros (Hr & k & Hk). destruct (has r x) eqn:Hx; [left|right; eauto]. injection Hk as <- <-. done.
Qed.

(** ** Searching for a gap *)

Definition gap l s e : Prop := forall r, r ∈ l -> e <= start r \/ fin r <= s.

(** Descending, disjoint: the order [find_free] walks in. *)
Fixpoint ok_down l : Prop :=
  match l with
  | [] => True
  | r :: l => start r < fin r /\ (PAGE_SIZE | start r) /\ Forall (fun y => fin y <= start r) l /\ ok_down l
  end.

Lemma ok_down_app l k :
  ok_down (l ++ k) <-> ok_down l /\ ok_down k /\ forall r y, r ∈ l -> y ∈ k -> fin y <= start r.
Proof.
  induction l as [|r l IH]; simpl.
  { split; [intros; split_and!; set_solver|tauto]. }
  rewrite IH, Forall_app. split.
  - intros (E1 & E2 & [E3 E4] & E5 & E6 & E7). split_and!; try done.
    intros r' y [->|Hr]%elem_of_cons Hy; [|by apply E7]. rewrite Forall_forall in E4. by apply E4.
  - intros ((E1 & E2 & E3 & E4) & E5 & E6). split_and!; try done.
    + apply Forall_forall. intros y Hy. apply E6; [by left|done].
    + intros r' y Hr Hy. apply E6; [by right|done].
Qed.

Lemma ok_from_rev lo l : ok_from lo l -> ok_down (rev l) /\ forall r, r ∈ l -> lo <= start r.
Proof.
  revert lo. induction l as [|r l IH]; intros lo; simpl; [split; [done|set_solver]|].
  intros (E1 & E2 & E3 & E4 & Hok). destruct (IH _ Hok) as [I1 I2]. split.
  - apply ok_down_app. simpl. split_and!; try done.
    intros y z Hy ->%list_elem_of_singleton. apply I2. apply list_elem_of_In. apply in_rev.
    by apply list_elem_of_In.
  - intros y [->|Hy]%elem_of_cons; [done|]. specialize (I2 y Hy). lia.
Qed.

(** The search returns the highest gap of the length below [top] and at or
    above [floor], and fails only when there is none. *)
Lemma find_free_loop_spec l len floor top :
  ok_down l -> 0 < len -> 0 <= floor ->
  match find_free_loop l len floor top with
  | Some s => floor <= s /\ s + len <= top /\ gap l s (s + len) /\
      ((PAGE_SIZE | len) -> (PAGE_SIZE | top) -> (PAGE_SIZE | s)) /\
      forall s', floor <= s' -> s' + len <= top -> gap l s' (s' + len) -> s' <= s
  | None => forall s', floor <= s' -> s' + len <= top -> ~ gap l s' (s' + len)
  end.
Proof.
  intros Hok Hlen Hfloor. revert top. induction l as [|r l IH]; intros top; cbn [find_free_loop].
  { unfold checked_sub. case_if; [case_if|].
    - split_and!; try lia; [by intros r ?%elem_of_nil|by intros; apply Z.divide_sub_r].
    - intros s' H1 H2 _. lia.
    - intros s' H1 H2 _. lia. }
  destruct Hok as (E1 & E2 & E3 & Hok). specialize (IH Hok).
  assert (Hcons : forall s' e', gap (r :: l) s' e' <-> (e' <= start r \/ fin r <= s') /\ gap l s' e').
  { intros s' e'. unfold gap. split.
    - intros Hg. split; [apply Hg; by left|]. intros y Hy. apply Hg. by right.
    - intros [H1 H2] y [->|Hy]%elem_of_cons; auto. }
  destruct (start r >=? top) eqn:Ht; bool_to_prop.
  { specialize (IH top). destruct (find_free_loop l len floor top) as [s|].
    - destruct IH as (I1 & I2 & I3 & I4 & I5). split_and!; try done.
      + apply Hcons. split; [lia|done].
      + intros s' H1 H2 [_ H3]%Hcons. auto.
    - intros s' H1 H2 [_ H3]%Hcons. by eapply IH. }
  destruct ((fin r <=? top) && (top - fin r >=? len)) eqn:Hg; bool_to_prop.
  { case_if.
    - split_and!; try lia.
      + apply Hcons. split; [lia|]. intros y Hy. right. rewrite Forall_forall in E3.
        specialize (E3 y Hy). lia.
      + intros. by apply Z.divide_sub_r.
    - intros s' H1 H2 _. lia. }
  assert (Hfar : forall s', s' + len <= top -> gap (r :: l) s' (s' + len) -> s' + len <= Z.min top (start r)).
  { intros s' H1 [[H2|H2] _]%Hcons; [lia|]. destruct Hg; bool_to_prop; lia. }
  specialize (IH (Z.min top (start r))). destruct (find_free_loop l len floor (Z.min top (start r))) as [s|].
  - destruct IH as (I1 & I2 & I3 & I4 & I5). split_and!; try lia.
    + apply Hcons. split; [lia|done].
    + intros H1 H2. apply I4; [done|]. by destruct (Z.min_spec top (start r)) as [[_ ->]|[_ ->]].
    + intros s' H1 H2 H3. apply I5; [done|by apply Hfar|]. by apply Hcons in H3 as [_ ?].
  - intros s' H1 H2 H3. apply (IH s' H1); [by apply Hfar|]. by apply Hcons in H3 as [_ ?].
Qed.

(** A gap is a range where nothing is mapped. *)
Lemma gap_view lo l s e :
  ok_from lo l -> s < e -> gap l s e <-> forall x, s <= x < e -> attrs l x = None.
Proof.
  intros Hok Hse. split.
  - intros Hg x Hx. apply attrs_None. intros r Hr Hin. destruct (Hg r Hr); lia.
  - intros Hn r Hr. destruct (ok_from_elem _ _ _ Hok Hr) as (_ & E & _).
    destruct (decide (e <= start r)) as [|]; [by left|]. destruct (decide (fin r <= s)) as [|]; [by right|].
    specialize (Hn (Z.max s (start r)) ltac:(lia)). rewrite attrs_None in Hn. destruct (Hn r Hr). lia.
Qed.

Lemma gap_rev l s e : gap (rev l) s e <-> gap l s e.
Proof.
  unfold gap. split; intros Hg r Hr; apply Hg.
  - apply list_elem_of_In. apply in_rev. rewrite rev_involutive. by apply list_elem_of_In.
  - apply list_elem_of_In. apply in_rev. by apply list_elem_of_In.
Qed.

(** ** Coverage *)

Lemma cover_loop_spec lo l c e :
  ok_from lo l -> c < e ->
  match cover_loop l c e with
  | Some c' => e <= c' <-> forall x, c <= x < e -> attrs l x <> None
  | None => exists x, c <= x < e /\ attrs l x = None
  end.
Proof.
  intros Hok Hce. revert lo c Hok Hce. induction l as [|r l IH]; intros lo c Hok Hce; cbn [cover_loop].
  { split; [lia|]. intros Hx. by destruct (Hx c ltac:(lia)). }
  destruct Hok as (E1 & E2 & E3 & E4 & Hok).
  destruct ((fin r <=? c) || (start r >=? e)) eqn:Hd; bool_to_prop.
  { assert (Hsame : forall x, c <= x < e -> attrs (r :: l) x = attrs l x).
    { intros x Hx. rewrite attrs_cons. destruct (has r x) eqn:Hh; [|done]. apply has_iff in Hh.
      destruct Hd; bool_to_prop; lia. }
    specialize (IH _ c Hok Hce). destruct (cover_loop l c e) as [c'|].
    - rewrite IH. split; intros Hx x Hr; specialize (Hx x Hr); rewrite ?Hsame in *; done.
    - destruct IH as (x & Hx & Hn). exists x. by rewrite Hsame. }
  case_if.
  { exists c. split; [lia|]. rewrite attrs_cons. destruct (has r c) eqn:Hh; [apply has_iff in Hh; lia|].
    apply attrs_None. intros y Hy Hin. destruct (ok_from_elem _ _ _ Hok Hy) as (? & _). lia. }
  assert (Hr : forall x, c <= x < fin r -> attrs (r :: l) x <> None).
  { intros x Hx. rewrite attrs_cons. rewrite (proj2 (has_iff r x)); [done|lia]. }
  case_if.
  { split; [|lia]. intros _ x Hx. apply Hr. lia. }
  specialize (IH _ (fin r) Hok ltac:(lia)).
  assert (Hsame : forall x, fin r <= x -> attrs (r :: l) x = attrs l x).
  { intros x Hx. rewrite attrs_cons. destruct (has r x) eqn:Hh; [|done]. apply has_iff in Hh. lia. }
  destruct (cover_loop l (fin r) e) as [c'|].
  - rewrite IH. split.
    + intros Hx x Hxr. destruct (decide (x < fin r)); [apply Hr; lia|]. rewrite Hsame by lia. apply Hx. lia.
    + intros Hx x Hxr. rewrite <- Hsame by lia. apply Hx. lia.
  - destruct IH as (x & Hx & Hn). exists x. split; [lia|]. by rewrite Hsame by lia.
Qed.

(** ** The regions that stay when the heap is rebuilt *)

Lemma filter_heap_spec lo l :
  ok_from lo l ->
  ok_from lo (List.filter (fun r => negb (is_heap r)) l) /\
  forall x, attrs (List.filter (fun r => negb (is_heap r)) l) x =
    match attrs l x with Some (p, Heap) => None | o => o end.
Proof.
  revert lo. induction l as [|r l IH]; intros lo; cbn [List.filter]; [done|].
  intros (E1 & E2 & E3 & E4 & Hok). destruct (IH _ Hok) as [I1 I2].
  assert (Hrest : forall x, has r x = true -> attrs l x = None).
  { intros x Hx%has_iff. apply attrs_None. intros y Hy Hin. destruct (ok_from_elem _ _ _ Hok Hy) as (? & _). lia. }
  unfold is_heap. destruct (bool_decide_reflect (kind r = Heap)) as [Hk|Hk]; cbn [negb].
  - split; [eapply ok_from_weaken; [|exact I1]; lia|]. intros x. rewrite I2, attrs_cons.
    destruct (has r x) eqn:Hx; [|done]. rewrite Hrest by done. unfold attr, kind_at. by rewrite Hk.
  - split; [by simpl; split_and!|]. intros x. rewrite !attrs_cons, I2. destruct (has r x); [|done].
    unfold attr, kind_at. by destruct (kind r).
Qed.

End Regions.

(** * What the memory-map operations do

    Each of [mmap], [mmap_device], [munmap], [mprotect] and [set_brk] of
    [kernel/src/mm/vma.rs] against the abstract view of [VmaSpec.v]: which
    addresses change, when the call is refused, and that a refused call leaves
    the map alone. *)

Implicit Types (m : MemoryMap) (x s e : Z).

Record map_wf m : Prop := {
  wf_regions : ok_from 0 (regions m);
  wf_brk_start : (PAGE_SIZE | brk_start m);
  wf_top : (PAGE_SIZE | mmap_top m) /\ mmap_top m <= U64_MAX;
  wf_brk : 0 <= brk_start m <= brk m;
}.

Definition in_range s e x : bool := (s <=? x) && (x <? e).

Lemma in_range_iff s e x : in_range s e x = true <-> s <= x < e.
Proof. unfold in_range. rewrite andb_true_iff, Z.leb_le, Z.ltb_lt. done. Qed.

Lemma page_up_Some a b : page_up a = Some b -> (PAGE_SIZE | b) /\ a <= b < a + PAGE_SIZE /\ b <= U64_MAX.
Proof.
  intros [-> Hb]%checked_next_multiple_of_Some. split; [apply next_multiple_of_divide|].
  split; [|done]. split; [by apply next_multiple_of_ge|by apply next_multiple_of_lt].
Qed.

Lemma page_up_le a b : (PAGE_SIZE | b) -> b <= U64_MAX -> a <= b -> exists c, page_up a = Some c /\ c <= b.
Proof.
  intros Hd Hb Ha. pose proof (next_multiple_of_le a PAGE_SIZE b ltac:(done) Hd Ha) as Hle.
  unfold page_up, checked_next_multiple_of. replace (next_multiple_of a PAGE_SIZE <=? U64_MAX) with true by lia.
  eauto.
Qed.

Lemma page_up_pos a b : 0 < a -> page_up a = Some b -> 0 < b.
Proof. intros Ha (_ & ? & _)%page_up_Some. lia. Qed.

Lemma with_regions_wf m l : map_wf m -> ok_from 0 l -> map_wf (with_regions m l).
Proof. intros [W1 W2 W3 W4] Hl. by constructor. Qed.

(** ** Removal: [munmap] *)

Lemma munmap_spec m s length :
  map_wf m -> is_u64 s -> is_u64 length ->
  match munmap m s length with
  | (Ok spans, m') => exists e, page_up length = Some (e - s) /\ (PAGE_SIZE | s) /\ 0 < length /\
      map_wf m' /\ m' = with_regions m (regions m') /\
      (forall x, view m' x = if in_range s e x then None else view m x) /\
      (forall x p, in_spans spans x p <-> s <= x < e /\ exists k, view m x = Some (p, k))
  | (Err err, m') => err = EINVAL /\ m' = m
  end.
Proof.
  intros W Hs Hl. unfold munmap. destruct (aligned s) eqn:Ha; cbn [negb orb]; [|done].
  case_if; [done|]. destruct (page_up length) as [len|] eqn:Hp; [|done].
  destruct (checked_add s len) as [e|] eqn:He; [|done]. apply checked_add_Some in He as [-> _].
  apply aligned_iff in Ha. destruct (page_up_Some _ _ Hp) as (Hd & Hb & _).
  assert (Hlen : 0 < length) by (unfold is_u64 in Hl; lia).
  pose proof (remove_spec m s (s + len) 0 (wf_regions _ W) ltac:(lia) Ha (Z.divide_add_r _ _ _ Ha Hd)) as Hr.
  destruct (Vma.remove m s (s + len)) as [spans m']. destruct Hr as (R1 & R2 & R3 & R4).
  exists (s + len). replace (s + len - s) with len by lia. split_and!; try done.
  rewrite R1. by apply with_regions_wf.
Qed.

(** ** Placement: [mmap] and [mmap_device] *)

(** The placed range: page aligned, above [MIN_ADDRESS], below [mmap_top]. *)
Record placed m (len : Z) (prot : Protection) (k : RegionKind) (c : MmapChange) m' : Prop := {
  pl_span : new_span c = mkSpan (address c) (address c + len) prot;
  pl_align : (PAGE_SIZE | address c);
  pl_low : MIN_ADDRESS <= address c;
  pl_high : address c + len <= mmap_top m;
  pl_wf : map_wf m';
  pl_same : m' = with_regions m (regions m');
  pl_view x : view m' x =
    if in_range (address c) (address c + len) x
    then Some (prot, match k with Device p => Device (p + (x - address c)) | _ => k end)
    else view m x;
  pl_replaced x p : in_spans (replaced c) x p <->
    address c <= x < address c + len /\ exists k', view m x = Some (p, k');
}.

Lemma finish_spec m m0 a len prot k spans :
  map_wf m0 -> m = with_regions m0 (regions m) -> ok_from 0 (regions m) ->
  (PAGE_SIZE | a) -> MIN_ADDRESS <= a -> a + len <= mmap_top m0 -> (PAGE_SIZE | len) -> 0 < len ->
  (forall x, view m x = if in_range a (a + len) x then None else view m0 x) ->
  (forall x p, in_spans spans x p <-> a <= x < a + len /\ exists k', view m0 x = Some (p, k')) ->
  exists m', Vma.insert m (mkRegion a (a + len) prot k) = (Ok tt, m') /\
    placed m0 len prot k (mkMmap a spans (mkSpan a (a + len) prot)) m'.
Proof.
  intros W Hm Hok Ha Hlow Hhigh Hl Hpos Hview Hsp.
  assert (Ha0 : 0 <= a) by (unfold MIN_ADDRESS in Hlow; lia).
  pose proof (insert_spec m (mkRegion a (a + len) prot k) 0 Hok Ha0) as Hi. cbn [start fin] in Hi.
  destruct (Vma.insert m (mkRegion a (a + len) prot k)) as [[[]|err] m'].
  - destruct Hi as (_ & I2 & I3 & _ & _ & _ & _ & I8). exists m'. split; [done|].
    assert (Hm' : m' = with_regions m0 (regions m')) by (rewrite I2, Hm; done).
    constructor; cbn [address replaced new_span]; try done.
    + rewrite Hm'. by apply with_regions_wf.
    + intros x. rewrite I8, Hview. unfold has, in_range. cbn [start fin].
      destruct ((a <=? x) && (x <? a + len)); [|done]. unfold attr, kind_at. by destruct k.
  - exfalso. destruct Hi as [_ Hno]. apply Hno. split_and!; [lia|done|by apply Z.divide_add_r|].
    intros x Hx. rewrite Hview. by rewrite (proj2 (in_range_iff _ _ _) Hx).
Qed.

Lemma usable_at_spec m len a :
  usable_at m len a = true <-> MIN_ADDRESS <= a /\ (PAGE_SIZE | a) /\ a + len <= Z.min U64_MAX (mmap_top m).
Proof.
  unfold usable_at. rewrite !andb_true_iff, aligned_iff.
  destruct (checked_add a len) as [e|] eqn:He.
  - apply checked_add_Some in He as [-> Hle]. split; [intros [[? ?] ?]|intros (? & ? & ?)]; bool_to_prop; split_and!; try done; lia.
  - unfold checked_add in He. case_if_in He; [done|]. split; [by intros [_ ?]|]. lia.
Qed.

Lemma find_free_spec m len :
  map_wf m -> 0 < len ->
  match find_free m len with
  | Some a => MIN_ADDRESS <= a /\ brk m <= a /\ a + len <= mmap_top m /\ ((PAGE_SIZE | len) -> (PAGE_SIZE | a)) /\
      (forall x, a <= x < a + len -> view m x = None) /\
      forall a', MIN_ADDRESS <= a' -> brk m <= a' -> (PAGE_SIZE | a') -> a' + len <= mmap_top m ->
        (forall x, a' <= x < a' + len -> view m x = None) -> a' <= a
  | None => forall a', MIN_ADDRESS <= a' -> brk m <= a' -> (PAGE_SIZE | a') -> a' + len <= mmap_top m ->
      ~ (forall x, a' <= x < a' + len -> view m x = None)
  end.
Proof.
  intros W Hl. unfold find_free. destruct (page_up (brk m)) as [b|] eqn:Hb.
  2: { intros a' _ H2 H3 H4 _. destruct (wf_top _ W) as [_ Ht].
       destruct (page_up_le (brk m) a' H3 ltac:(lia) H2) as (c & Hc & _). congruence. }
  destruct (page_up_Some _ _ Hb) as (Hbd & Hbr & _).
  pose proof (ok_from_rev _ _ (wf_regions _ W)) as [Hdown _].
  pose proof (find_free_loop_spec (rev (regions m)) len (Z.max b MIN_ADDRESS) (mmap_top m) Hdown Hl
    ltac:(unfold MIN_ADDRESS; lia)) as Hf.
  assert (Hgap : forall a', gap (rev (regions m)) a' (a' + len) <-> forall x, a' <= x < a' + len -> view m x = None).
  { intros a'. rewrite gap_rev. apply (gap_view 0); [apply W|lia]. }
  assert (Hfl : forall a', MIN_ADDRESS <= a' -> brk m <= a' -> (PAGE_SIZE | a') -> Z.max b MIN_ADDRESS <= a').
  { intros a' H1 H2 H3. pose proof (next_multiple_of_le (brk m) PAGE_SIZE a' ltac:(done) H3 H2).
    apply checked_next_multiple_of_Some in Hb as [-> _]. lia. }
  destruct (find_free_loop _ _ _ _) as [a|].
  - destruct Hf as (F1 & F2 & F3 & F4 & F5). split_and!; try lia.
    + intros Hd. apply F4; [done|apply W].
    + by apply Hgap.
    + intros a' H1 H2 H3 H4 H5. apply F5; [by apply Hfl|done|by apply Hgap].
  - intros a' H1 H2 H3 H4 H5. apply (Hf a'); [by apply Hfl|done|by apply Hgap].
Qed.

(** [place], for anonymous and device memory: refusals leave the map alone;
    a fixed request lands on the hint and replaces what was there, any other
    request only takes addresses that were free. *)
Lemma place_spec m hint length prot fixed k :
  map_wf m -> is_u64 hint -> is_u64 length ->
  match place m hint length prot fixed k with
  | (Ok c, m') => exists len, page_up length = Some len /\ 0 < length /\ placed m len prot k c m' /\
      (fixed = true -> address c = hint) /\
      (fixed = false -> forall x, address c <= x < address c + len -> view m x = None)
  | (Err err, m') => m' = m /\ (err = EINVAL \/ err = ENOMEM)
  end.
Proof.
  intros W Hh Hl. unfold place. case_if; [by auto|]. assert (Hpos : 0 < length) by (unfold is_u64 in Hl; lia).
  destruct (page_up length) as [len|] eqn:Hp; [|by auto].
  destruct (page_up_Some _ _ Hp) as (Hd & Hb & _). assert (Hlen : 0 < len) by lia.
  assert (Hfree : forall a, (forall x, a <= x < a + len -> view m x = None) ->
    (forall x, view m x = if in_range a (a + len) x then None else view m x) /\
    (forall x p, in_spans [] x p <-> a <= x < a + len /\ exists k', view m x = Some (p, k'))).
  { intros a Hn. split.
    - intros x. destruct (in_range a (a + len) x) eqn:Hx; [|done]. apply Hn. by apply in_range_iff.
    - intros x p. split; [by intros ?%in_spans_nil|]. intros (Hx & k' & Hk). by rewrite Hn in Hk. }
  destruct fixed; cbn [andb].
  - destruct (aligned hint) eqn:Ha; cbn [negb]; [|by auto].
    destruct (usable_at m len hint) eqn:Hu; cbn [negb]; [|by auto].
    apply usable_at_spec in Hu as (U1 & U2 & U3).
    pose proof (remove_spec m hint (hint + len) 0 (wf_regions _ W) ltac:(lia) U2 (Z.divide_add_r _ _ _ U2 Hd)) as Hr.
    destruct (Vma.remove m hint (hint + len)) as [spans m1]. destruct Hr as (R1 & R2 & R3 & R4).
    destruct (finish_spec m1 m hint len prot k spans) as (m' & -> & Hpl); try done; [lia|].
    exists len. by split_and!.
  - destruct (negb (hint =? 0) && usable_at m len hint && negb (overlaps m hint (hint + len))) eqn:Hu.
    + bool_to_prop. match goal with H : usable_at _ _ _ = true |- _ => apply usable_at_spec in H as (U1 & U2 & U3) end.
      assert (Hn : forall x, hint <= x < hint + len -> view m x = None).
      { apply (overlaps_false m 0); [apply W|lia|done]. }
      destruct (Hfree hint Hn) as [F1 F2].
      destruct (finish_spec m m hint len prot k []) as (m' & -> & Hpl); try done; [by destruct m|apply W|lia|].
      exists len. by split_and!.
    + pose proof (find_free_spec m len W Hlen) as Hf. destruct (find_free m len) as [a|]; [|by auto].
      destruct Hf as (F1 & F2 & F3 & F4 & F5 & _). destruct (Hfree a F5) as [G1 G2].
      destruct (finish_spec m m a len prot k []) as (m' & -> & Hpl); try done; [by destruct m|apply W|by apply F4|].
      exists len. by split_and!.
Qed.

(** ** Protection: [mprotect] *)

Lemma ok_from_filter (f : Region -> bool) lo l : ok_from lo l -> ok_from lo (List.filter f l).
Proof.
  revert lo. induction l as [|r l IH]; intros lo; cbn [List.filter]; [done|].
  intros (E1 & E2 & E3 & E4 & Hok). destruct (f r); [by simpl; split_and!; auto|].
  eapply ok_from_weaken; [|by apply IH]. lia.
Qed.

Lemma attrs_inside lo l s e x :
  ok_from lo l -> s <= x < e -> attrs (List.filter (inside s e) l) x = attrs l x.
Proof.
  revert lo. induction l as [|r l IH]; intros lo; cbn [List.filter]; [done|].
  intros (E1 & E2 & E3 & E4 & Hok) Hx. rewrite attrs_cons. destruct (inside s e r) eqn:Hi.
  - rewrite attrs_cons. destruct (has r x); [done|]. by eapply IH.
  - destruct (has r x) eqn:Hh; [|by eapply IH]. apply has_iff in Hh.
    unfold inside in Hi. bool_to_prop. destruct Hi; bool_to_prop; lia.
Qed.

(** Putting the re-protected pieces back never fails. *)
Lemma reinsert_spec kinds m lo s e prot :
  ok_from 0 (regions m) -> ok_from lo kinds -> 0 <= lo -> s < e -> (PAGE_SIZE | s) -> (PAGE_SIZE | e) ->
  (forall r, r ∈ kinds -> start r < e /\ s < fin r) ->
  (forall x, s <= x < e -> attrs kinds x <> None -> view m x = None) ->
  exists spans m', reinsert m s e prot kinds = (Ok spans, m') /\ m' = with_regions m (regions m') /\
    ok_from 0 (regions m') /\
    (forall x, view m' x = match attrs kinds x with
                           | Some (_, k) => if in_range s e x then Some (prot, k) else view m x
                           | None => view m x
                           end) /\
    (forall x p, in_spans spans x p <-> p = prot /\ s <= x < e /\ attrs kinds x <> None).
Proof.
  intros Hok Hk Hlo Hse Hs He. revert m lo Hok Hk Hlo.
  induction kinds as [|r kinds IH]; intros m lo Hok Hk Hlo Hin Hfree; cbn [reinsert].
  { exists [], m. split_and!; try done; [by destruct m|].
    intros x p. split; [by intros ?%in_spans_nil|]. by intros (_ & _ & ?). }
  destruct Hk as (E1 & E2 & E3 & E4 & Hk). destruct (Hin r ltac:(by left)) as [Hr1 Hr2].
  set (q := set_prot (piece r (Z.max (start r) s) (Z.min (fin r) e)) prot).
  assert (Hq : start q = Z.max (start r) s /\ fin q = Z.min (fin r) e) by done. destruct Hq as [Hqs Hqf].
  assert (Hrest : forall x, has r x = true -> attrs kinds x = None).
  { intros x Hx%has_iff. apply attrs_None. intros y Hy Hyx. destruct (ok_from_elem _ _ _ Hk Hy) as (? & _). lia. }
  pose proof (insert_spec m q 0 Hok ltac:(lia)) as Hi. destruct (Vma.insert m q) as [[[]|err] m1].
  2: { exfalso. destruct Hi as [_ []]. rewrite Hqs, Hqf. split_and!; [lia| | |].
       - by destruct (Z.max_spec (start r) s) as [[_ ->]|[_ ->]].
       - by destruct (Z.min_spec (fin r) e) as [[_ ->]|[_ ->]].
       - intros x Hx. apply Hfree; [lia|]. rewrite attrs_cons. by rewrite (proj2 (has_iff r x)) by lia. }
  destruct Hi as (_ & I2 & I3 & _ & _ & _ & _ & I8).
  assert (Hattr : forall x, attr q x = (prot, kind_at r x)).
  { intros x. unfold q, attr, kind_at, set_prot, piece. cbn [protection kind start].
    destruct (kind r); try done. do 2 f_equal. lia. }
  assert (Hhas : forall x, has q x = has r x && in_range s e x).
  { intros x. unfold has, in_range. rewrite Hqs, Hqf. lia. }
  destruct (IH m1 (fin r) I3 Hk ltac:(lia)) as (spans & m' & -> & J1 & J2 & J3 & J4).
  { intros y Hy. apply Hin. by right. }
  { intros x Hx Hn. rewrite I8, Hhas. destruct (has r x) eqn:Hh; cbn [andb]; [by rewrite Hrest in Hn|].
    apply Hfree; [done|]. by rewrite attrs_cons, Hh. }
  exists (mkSpan (start q) (fin q) prot :: spans), m'. split_and!; try done.
  - rewrite J1, I2. done.
  - intros x. rewrite J3, attrs_cons, I8, Hhas, Hattr. destruct (has r x) eqn:Hh; cbn [andb].
    + rewrite Hrest by done. unfold attr. done.
    + done.
  - intros x p. change (mkSpan (start q) (fin q) prot :: spans) with ([mkSpan (start q) (fin q) prot] ++ spans).
    rewrite in_spans_app, J4, attrs_cons. split.
    + intros [(sp & ->%list_elem_of_singleton & Hx & <-)|(-> & Hx & Hn)]; cbn [span_start span_end span_prot] in *.
      * split_and!; [done|lia|lia|]. by rewrite (proj2 (has_iff r x)) by lia.
      * split_and!; [done|lia|lia|]. by destruct (has r x).
    + intros (-> & Hx & Hn). destruct (has r x) eqn:Hh; [left|right; done]. apply has_iff in Hh.
      eexists. split; [by apply list_elem_of_singleton|]. cbn [span_start span_end span_prot]. split; [lia|done].
Qed.

Lemma mprotect_spec m s length prot :
  map_wf m -> is_u64 s -> is_u64 length ->
  match mprotect m s length prot with
  | (Ok spans, m') => exists e, page_up length = Some (e - s) /\ (PAGE_SIZE | s) /\
      map_wf m' /\ m' = with_regions m (regions m') /\
      (forall x, s <= x < e -> view m x <> None) /\
      (execute prot = true -> forall x p d, s <= x < e -> view m x <> Some (p, Device d)) /\
      (forall x, view m' x = if in_range s e x then (fun a => (prot, a.2)) <$> view m x else view m x) /\
      (forall x p, in_spans spans x p <-> p = prot /\ s <= x < e)
  | (Err err, m') => m' = m /\
      ((err = EINVAL /\ ~ (PAGE_SIZE | s)) \/
       (err = ENOMEM /\ forall e, page_up length = Some (e - s) -> e <= U64_MAX ->
          exists x, s <= x < e /\ view m x = None) \/
       (err = EACCES /\ execute prot = true))
  end.
Proof.
  intros W Hs Hl. unfold mprotect. destruct (aligned s) eqn:Ha; cbn [negb].
  2: { split; [done|]. left. split; [done|]. intros Hc%aligned_iff. congruence. }
  apply aligned_iff in Ha. destruct (page_up length) as [len|] eqn:Hp.
  2: { split; [done|]. right. left. split; [done|]. done. }
  destruct (page_up_Some _ _ Hp) as (Hd & Hb & _). unfold is_u64 in *.
  destruct (checked_add s len) as [e|] eqn:He.
  2: { split; [done|]. right. left. split; [done|]. intros e [= ->] Hle. unfold checked_add in He.
       case_if_in He; [done|]. lia. }
  apply checked_add_Some in He as [-> Hmax]. case_if.
  { exists (s + len). replace (s + len - s) with len by lia. assert (len = 0) as -> by lia. rewrite Z.add_0_r in *.
    split_and!; try done; [by destruct m|lia|lia| |].
    - intros x. unfold in_range. by replace ((s <=? x) && (x <? s)) with false by lia.
    - intros x p. split; [by intros ?%in_spans_nil|]. lia. }
  pose proof (cover_loop_spec 0 (regions m) s (s + len) (wf_regions _ W) ltac:(lia)) as Hc.
  destruct (cover_loop (regions m) s (s + len)) as [c|].
  2: { split; [done|]. right. left. split; [done|]. intros e [= ->] _. replace (s + (e - s)) with e in Hc by lia. done. }
  destruct (c <? s + len) eqn:Hcl; bool_to_prop.
  { split; [done|]. right. left. split; [done|]. intros e [= ->] _. replace (s + (e - s)) with e in * by lia.
    destruct (decide (Exists (fun x => view m x = None) (seqZ s (e - s)))) as [Hex|Hex].
    - apply Exists_exists in Hex as (x & Hx%elem_of_seqZ & Hn). exists x. split; [lia|done].
    - exfalso. assert (e <= c); [|lia]. apply Hc. intros x Hx Hn. apply Hex, Exists_exists.
      exists x. split; [apply elem_of_seqZ; lia|done]. }
  assert (Hcov : forall x, s <= x < s + len -> view m x <> None) by (by apply Hc).
  destruct (execute prot && _) eqn:Hdev. { bool_to_prop. split; [done|]. right. right. done. }
  assert (Hnodev : execute prot = true -> forall x p d, s <= x < s + len -> view m x <> Some (p, Device d)).
  { intros Hx x p d Hr Hv. rewrite Hx in Hdev. cbn [andb] in Hdev.
    unfold view in Hv. rewrite <- (attrs_inside 0 _ s (s + len)) in Hv by (try apply W; done).
    apply (attrs_Some 0) in Hv as (r & Hin & _ & Heq); [|by apply ok_from_filter, W].
    rewrite existsb_false_forall in Hdev. specialize (Hdev r Hin). unfold is_device in Hdev.
    unfold attr, kind_at in Heq. destruct (kind r); simplify_eq; done. }
  pose proof (remove_spec m s (s + len) 0 (wf_regions _ W) ltac:(lia) Ha (Z.divide_add_r _ _ _ Ha Hd)) as Hr.
  destruct (Vma.remove m s (s + len)) as [spans0 m1]. destruct Hr as (R1 & R2 & R3 & _).
  set (kinds := List.filter (inside s (s + len)) (regions m)).
  destruct (reinsert_spec kinds m1 0 s (s + len) prot) as (spans & m' & -> & J1 & J2 & J3 & J4); try done; try lia.
  - by apply ok_from_filter, W.
  - by apply Z.divide_add_r.
  - intros r Hr. apply list_elem_of_In, filter_In in Hr as [_ Hr]. unfold inside in Hr. bool_to_prop. done.
  - intros x Hx _. rewrite R3. fold (in_range s (s + len) x). by rewrite (proj2 (in_range_iff s (s + len) x) Hx).
  - exists (s + len). replace (s + len - s) with len by lia.
    assert (Hm' : m' = with_regions m (regions m')) by (rewrite J1, R1; done).
    split_and!; try done.
    + rewrite Hm'. by apply with_regions_wf.
    + intros x. rewrite J3, R3. fold (in_range s (s + len) x). destruct (in_range s (s + len) x) eqn:Hx.
      * apply in_range_iff in Hx. unfold kinds. rewrite (attrs_inside 0) by (try apply W; done).
        unfold view. destruct (attrs (regions m) x) as [[p k]|]; done.
      * by destruct (attrs kinds x) as [[p k]|].
    + intros x p. rewrite J4. split; [tauto|]. intros [-> Hx]. split_and!; try done; try lia.
      unfold kinds. rewrite (attrs_inside 0) by (try apply W; done). by apply Hcov.
Qed.

(** ** The heap: [set_brk] *)

Lemma set_brk_spec m a :
  map_wf m -> is_u64 a ->
  match set_brk m a with
  | (Ok change, m') => exists old_end new_end,
      page_up (brk m) = Some old_end /\ page_up a = Some new_end /\
      brk_start m <= a /\ new_end <= mmap_top m /\
      map_wf m' /\ brk m' = a /\ brk_start m' = brk_start m /\ mmap_top m' = mmap_top m /\
      (forall x p k, brk_start m <= x < Z.max old_end new_end -> view m x = Some (p, k) -> k = Heap) /\
      change = (if new_end >? old_end then MapSpan (mkSpan old_end new_end READ_WRITE)
                else if new_end <? old_end then UnmapSpan (mkSpan new_end old_end READ_WRITE)
                else Unchanged) /\
      (forall x, view m' x =
         if in_range (brk_start m) new_end x then Some (READ_WRITE, Heap)
         else match view m x with Some (_, Heap) => None | o => o end)
  | (Err err, m') => err = ENOMEM /\ m' = m
  end.
Proof.
  intros W Ha. unfold set_brk. case_if; [done|].
  destruct (page_up (brk m)) as [old_end|] eqn:Ho; [|done]. destruct (page_up a) as [new_end|] eqn:Hn; [|done].
  destruct (page_up_Some _ _ Ho) as (Hod & Hob & _). destruct (page_up_Some _ _ Hn) as (Hnd & Hnb & _).
  case_if; [done|].
  assert (Hheap : forall x p k, brk_start m <= x < Z.max old_end new_end -> view m x = Some (p, k) -> k = Heap).
  { intros x p k Hx Hv. unfold view in Hv. apply (attrs_Some 0) in Hv as (r & Hr & Hin & Heq); [|apply W].
    match goal with H : existsb _ _ = false |- _ => rewrite existsb_false_forall in H; specialize (H r Hr); rename H into Hno end.
    unfold is_heap in Hno. destruct (bool_decide_reflect (kind r = Heap)) as [Hk|Hk]; cbn [negb andb] in Hno.
    - unfold attr, kind_at in Heq. rewrite Hk in Heq. by simplify_eq.
    - bool_to_prop. destruct Hno; bool_to_prop; lia. }
  destruct (filter_heap_spec 0 (regions m) (wf_regions _ W)) as [F1 F2].
  set (m1 := with_regions m (List.filter (fun r => negb (is_heap r)) (regions m))).
  assert (Hv1 : forall x, view m1 x = match view m x with Some (_, Heap) => None | o => o end) by apply F2.
  destruct (new_end >? brk_start m1) eqn:Hgt; bool_to_prop; cbn [brk_start m1 with_regions] in Hgt.
  - pose proof (insert_spec m1 (mkRegion (brk_start m1) new_end READ_WRITE Heap) 0 F1) as Hi.
    cbn [start fin m1 with_regions brk_start] in Hi. specialize (Hi ltac:(apply W)).
    cbn [brk_start m1 with_regions]. destruct (Vma.insert _ _) as [[[]|err] m2] eqn:Hins.
    + destruct Hi as (_ & I2 & I3 & _ & _ & _ & _ & I8). exists old_end, new_end.
      assert (Hb2 : brk_start m2 = brk_start m /\ mmap_top m2 = mmap_top m) by (rewrite I2; done).
      destruct Hb2 as [Hb2 Ht2]. rewrite ?Hb2, ?Ht2.
      split_and!; try done; try lia.
      * constructor; cbn; rewrite ?Hb2, ?Ht2; [done|apply W|apply W|]. destruct (wf_brk _ W). lia.
      * intros x. transitivity (view m2 x); [done|].
        rewrite I8, Hv1. unfold has, in_range. cbn [start fin]. done.
    + exfalso. destruct Hi as [_ []]. split_and!; [lia|apply W|done|]. intros x Hx. rewrite Hv1.
      destruct (view m x) as [[p k]|] eqn:Hv; [|done]. by rewrite (Hheap x p k) by (try lia; done).
  - exists old_end, new_end. cbn [brk_start mmap_top m1 with_regions regions].
    split_and!; try done; try lia.
    + constructor; cbn; [done|apply W|apply W|]. destruct (wf_brk _ W). lia.
    + intros x. transitivity (view m1 x); [done|].
      rewrite Hv1. unfold in_range. by replace ((brk_start m <=? x) && (x <? new_end)) with false by lia.
Qed.

(** ** Sequences of calls *)

(** No page is writable and executable, device memory is never executable. *)
Definition no_wx m : Prop :=
  forall x p k, view m x = Some (p, k) ->
    (write p && execute p = false) /\ (execute p = true -> forall d, k <> Device d).

(** The memory system calls: protections come from [PROT_*] bits. *)
Inductive call : Type :=
| CMmap (hint length bits : Z) (fixed : bool)
| CMmapDevice (hint length bits physical : Z) (fixed : bool)
| CMunmap (s length : Z)
| CMprotect (s length bits : Z)
| CBrk (a : Z).

Definition call_u64 (c : call) : Prop :=
  match c with
  | CMmap h l b _ => is_u64 h /\ is_u64 l /\ is_u64 b
  | CMmapDevice h l b p _ => is_u64 h /\ is_u64 l /\ is_u64 b /\ is_u64 p
  | CMunmap s l => is_u64 s /\ is_u64 l
  | CMprotect s l b => is_u64 s /\ is_u64 l /\ is_u64 b
  | CBrk a => is_u64 a
  end.

(** What the kernel then does to the pages of the process. *)
Inductive action : Type := AMap (s : Span) | AUnmap (s : Span) | AProtect (s : Span).

Definition run (m : MemoryMap) (c : call) : result Errno (list action) * MemoryMap :=
  match c with
  | CMmap h l b f =>
      match from_linux b with
      | Err e => (Err e, m)
      | Ok p => let '(r, m) := mmap m h l p f in
                (result_map (fun c => (AUnmap <$> replaced c) ++ [AMap (new_span c)]) r, m)
      end
  | CMmapDevice h l b ph f =>
      match from_linux b with
      | Err e => (Err e, m)
      | Ok p => let '(r, m) := mmap_device m h l p ph f in
                (result_map (fun c => (AUnmap <$> replaced c) ++ [AMap (new_span c)]) r, m)
      end
  | CMunmap s l => let '(r, m) := munmap m s l in (result_map (fmap AUnmap) r, m)
  | CMprotect s l b =>
      match from_linux b with
      | Err e => (Err e, m)
      | Ok p => let '(r, m) := mprotect m s l p in (result_map (fmap AProtect) r, m)
      end
  | CBrk a =>
      let '(r, m) := set_brk m a in
      (result_map (fun c => match c with
                            | Unchanged => []
                            | MapSpan s => [AMap s]
                            | UnmapSpan s => [AUnmap s]
                            end) r, m)
  end.

Inductive vm_step : MemoryMap -> MemoryMap -> Prop :=
| vm_call m c r m' : call_u64 c -> run m c = (r, m') -> vm_step m m'.

Lemma from_linux_spec b p : from_linux b = Ok p -> write p && execute p = false.
Proof.
  unfold from_linux. case_if; [done|]. cbn [write execute]. case_if; [done|]. intros [= <-]. cbn [write execute].
  destruct Hif0 as [->| ->]; [done|]. by rewrite andb_false_r.
Qed.

Lemma no_wx_view m m' :
  no_wx m -> (forall x a, view m' x = Some a -> view m x = Some a \/
    ((write a.1 && execute a.1 = false) /\ (execute a.1 = true -> forall d, a.2 <> Device d))) -> no_wx m'.
Proof.
  intros Hn Hv x p k Hx. destruct (Hv _ _ Hx) as [?|?]; [by eapply Hn|done].
Qed.

Lemma placed_no_wx m len prot k c m' :
  no_wx m -> placed m len prot k c m' -> write prot && execute prot = false ->
  (execute prot = true -> forall d, k <> Device d) -> no_wx m'.
Proof.
  intros Hn P Hwx Hd. eapply no_wx_view; [exact Hn|]. intros x a. rewrite (pl_view _ _ _ _ _ _ P).
  destruct (in_range _ _ x); [|by left]. intros [= <-]. right. split; [done|]. intros He d. specialize (Hd He).
  cbn. destruct k; try done. by destruct (Hd physical).
Qed.

Lemma step_invariant m c r m' :
  call_u64 c -> run m c = (r, m') -> map_wf m -> no_wx m -> map_wf m' /\ no_wx m'.
Proof.
  intros Hc Hrun W Hn. destruct c as [h l b f|h l b ph f|s l|s l b|a]; cbn [run call_u64] in *.
  - destruct (from_linux b) as [p|] eqn:Hb; [|by simplify_eq]. apply from_linux_spec in Hb.
    destruct Hc as (H1 & H2 & _). pose proof (place_spec m h l p f Anonymous W H1 H2) as P. unfold mmap in Hrun.
    destruct (place m h l p f Anonymous) as [[c|e] m1]; simplify_eq; [|by destruct P as [-> _]].
    destruct P as (len & _ & _ & P & _). split; [apply P|]. by eapply placed_no_wx.
  - destruct (from_linux b) as [p|] eqn:Hb; [|by simplify_eq]. apply from_linux_spec in Hb.
    destruct Hc as (H1 & H2 & _). unfold mmap_device in Hrun.
    destruct (negb (aligned ph) || execute p) eqn:Hx; [by simplify_eq|]. apply orb_false_iff in Hx as [_ Hx].
    pose proof (place_spec m h l p f (Device ph) W H1 H2) as P.
    destruct (place m h l p f (Device ph)) as [[c|e] m1]; simplify_eq; [|by destruct P as [-> _]].
    destruct P as (len & _ & _ & P & _). split; [apply P|]. eapply placed_no_wx; [done|exact P|done|congruence].
  - destruct Hc as [H1 H2]. pose proof (munmap_spec m s l W H1 H2) as P.
    destruct (munmap m s l) as [[spans|e] m1]; simplify_eq; [|by destruct P as [_ ->]].
    destruct P as (e & _ & _ & _ & W' & _ & Hv & _). split; [done|]. eapply no_wx_view; [exact Hn|].
    intros x a'. rewrite Hv. destruct (in_range s e x); [done|by left].
  - destruct (from_linux b) as [p|] eqn:Hb; [|by simplify_eq]. apply from_linux_spec in Hb.
    destruct Hc as (H1 & H2 & _). pose proof (mprotect_spec m s l p W H1 H2) as P.
    destruct (mprotect m s l p) as [[spans|e] m1]; simplify_eq; [|by destruct P as [-> _]].
    destruct P as (e & _ & _ & W' & _ & _ & Hdev & Hv & _). split; [done|]. eapply no_wx_view; [exact Hn|].
    intros x [p' k']. rewrite Hv. destruct (in_range s e x) eqn:Hx; [|by left]. apply in_range_iff in Hx.
    intros ([q k] & Hvx & Heq)%fmap_Some. simplify_eq/=. right. split; [done|]. intros He d ->. by eapply Hdev.
  - pose proof (set_brk_spec m a W Hc) as P.
    destruct (set_brk m a) as [[c|e] m1]; simplify_eq; [|by destruct P as [_ ->]].
    destruct P as (o & n & _ & _ & _ & _ & W' & _ & _ & _ & _ & _ & Hv). split; [done|].
    eapply no_wx_view; [exact Hn|]. intros x a'. rewrite Hv. destruct (in_range _ n x).
    + intros [= <-]. by right.
    + destruct (view m x) as [[p []]|]; intros; simplify_eq; by left.
Qed.

(** ** Pages behind the map *)

Definition has_span (s : Span) x : bool := in_range (span_start s) (span_end s) x.

(** The protection of the page behind each address, after the actions. *)
Definition act (pt : Z -> option Protection) (a : action) : Z -> option Protection :=
  match a with
  | AMap s | AProtect s => fun x => if has_span s x then Some (span_prot s) else pt x
  | AUnmap s => fun x => if has_span s x then None else pt x
  end.
Definition acts (pt : Z -> option Protection) (l : list action) : Z -> option Protection := foldl act pt l.

Definition backed (pt : Z -> option Protection) m : Prop := forall x, pt x = fst <$> view m x.

(** The heap region is exactly [brk_start..page_up(brk)], readable and writable. *)
Definition heap_intact m : Prop :=
  forall e, page_up (brk m) = Some e ->
    (forall x, brk_start m <= x < e -> view m x = Some (READ_WRITE, Heap)) /\
    (forall x p, view m x = Some (p, Heap) -> brk_start m <= x < e).

Lemma acts_unmap pt (spans : list Span) x :
  acts pt (AUnmap <$> spans) x = if existsb (fun sp => has_span sp x) spans then None else pt x.
Proof.
  unfold acts. revert pt. induction spans as [|sp spans IH]; intros pt; cbn; [done|].
  rewrite IH. cbn. by destruct (has_span sp x), (existsb (fun sp => has_span sp x) spans).
Qed.

Lemma acts_protect pt (spans : list Span) prot x :
  (forall sp, sp ∈ spans -> has_span sp x = true -> span_prot sp = prot) ->
  acts pt (AProtect <$> spans) x = if existsb (fun sp => has_span sp x) spans then Some prot else pt x.
Proof.
  unfold acts. revert pt. induction spans as [|sp spans IH]; intros pt Hall; cbn; [done|].
  rewrite IH by (intros y Hy; apply Hall; by right). cbn.
  destruct (has_span sp x) eqn:Hh; [|done]. rewrite (Hall sp) by (try done; by left).
  by destruct (existsb (fun sp => has_span sp x) spans).
Qed.

Lemma existsb_spans spans x : existsb (fun sp => has_span sp x) spans = true <-> exists p, in_spans spans x p.
Proof.
  rewrite existsb_true_exists. unfold in_spans, has_span. setoid_rewrite in_range_iff. naive_solver.
Qed.

Lemma unmap_backed pt m spans s e :
  backed pt m ->
  (forall x p, in_spans spans x p <-> s <= x < e /\ exists k, view m x = Some (p, k)) ->
  forall x, acts pt (AUnmap <$> spans) x = if in_range s e x then None else fst <$> view m x.
Proof.
  intros Hb Hsp x. rewrite acts_unmap. pose proof (existsb_spans spans x) as Hex.
  destruct (existsb _ spans), (in_range s e x) eqn:Hr; [done| | |by apply Hb].
  - destruct (proj1 Hex eq_refl) as [p [Hx _]%Hsp]. apply in_range_iff in Hx. congruence.
  - rewrite Hb. apply in_range_iff in Hr. destruct (view m x) as [[p k]|] eqn:Hv; [|done].
    discriminate (proj2 Hex). exists p. apply Hsp. eauto.
Qed.

Lemma placed_backed pt m len prot k c m' :
  backed pt m -> placed m len prot k c m' ->
  backed (acts pt ((AUnmap <$> replaced c) ++ [AMap (new_span c)])) m'.
Proof.
  intros Hb P x. unfold acts. rewrite foldl_app. cbn [foldl act]. unfold has_span.
  rewrite (pl_span _ _ _ _ _ _ P), (pl_view _ _ _ _ _ _ P). cbn [span_start span_end span_prot].
  pose proof (unmap_backed pt m _ _ _ Hb (pl_replaced _ _ _ _ _ _ P) x) as Hu. unfold acts in Hu. rewrite Hu.
  by destruct (in_range (address c) (address c + len) x).
Qed.

Lemma run_backed m c acs m' pt :
  map_wf m -> call_u64 c -> run m c = (Ok acs, m') -> backed pt m ->
  (forall a, c = CBrk a -> heap_intact m) -> backed (acts pt acs) m'.
Proof.
  intros W Hc Hrun Hb Hheap. destruct c as [h l b f|h l b ph f|s l|s l b|a]; cbn [run call_u64] in *.
  - destruct (from_linux b) as [p|]; [|by simplify_eq]. destruct Hc as (H1 & H2 & _).
    pose proof (place_spec m h l p f Anonymous W H1 H2) as P. unfold mmap in Hrun.
    destruct (place m h l p f Anonymous) as [[c|e] m1]; simplify_eq/=.
    destruct P as (len & _ & _ & P & _). by eapply placed_backed.
  - destruct (from_linux b) as [p|]; [|by simplify_eq]. destruct Hc as (H1 & H2 & _). unfold mmap_device in Hrun.
    destruct (negb (aligned ph) || execute p); [by simplify_eq|].
    pose proof (place_spec m h l p f (Device ph) W H1 H2) as P.
    destruct (place m h l p f (Device ph)) as [[c|e] m1]; simplify_eq/=.
    destruct P as (len & _ & _ & P & _). by eapply placed_backed.
  - destruct Hc as [H1 H2]. pose proof (munmap_spec m s l W H1 H2) as P.
    destruct (munmap m s l) as [[spans|e] m1]; simplify_eq/=.
    destruct P as (e & _ & _ & _ & _ & _ & Hv & Hsp). intros x. rewrite (unmap_backed pt m spans s e Hb Hsp), Hv.
    by destruct (in_range s e x).
  - destruct (from_linux b) as [p|]; [|by simplify_eq]. destruct Hc as (H1 & H2 & _).
    pose proof (mprotect_spec m s l p W H1 H2) as P.
    destruct (mprotect m s l p) as [[spans|e] m1]; simplify_eq/=.
    destruct P as (e & _ & _ & _ & _ & Hcov & _ & Hv & Hsp). intros x.
    rewrite (acts_protect pt spans p), Hv.
    + pose proof (existsb_spans spans x) as Hex. destruct (existsb _ spans), (in_range s e x) eqn:Hr.
      * apply in_range_iff, Hcov in Hr. by destruct (view m x).
      * destruct (proj1 Hex eq_refl) as [q [_ Hx]%Hsp]. apply in_range_iff in Hx. congruence.
      * apply in_range_iff in Hr. discriminate (proj2 Hex). exists p. by apply Hsp.
      * apply Hb.
    + intros sp Hin Hx. apply in_range_iff in Hx. apply (Hsp x). by exists sp.
  - pose proof (set_brk_spec m a W Hc) as P.
    destruct (set_brk m a) as [[c|e] m1]; simplify_eq/=.
    destruct P as (o & n & Ho & Hn & H1 & H2 & _ & _ & _ & _ & _ & -> & Hv). intros x. rewrite Hv.
    destruct (Hheap a eq_refl o Ho) as [G1 G2]. destruct (page_up_Some _ _ Ho) as (_ & Hob & _).
    destruct (page_up_Some _ _ Hn) as (_ & Hnb & _). destruct (wf_brk _ W) as [_ Hbs].
    assert (Hold : fst <$> view m x = if in_range (brk_start m) o x then Some READ_WRITE
      else fst <$> match view m x with Some (_, Heap) => None | o => o end).
    { destruct (in_range (brk_start m) o x) eqn:Hx; [apply in_range_iff in Hx; by rewrite G1|].
      destruct (view m x) as [[p k]|] eqn:Hvx; [|done]. destruct k; try done. apply G2, in_range_iff in Hvx. congruence. }
    assert (Hr : forall lo hi, in_range lo hi x = (lo <=? x) && (x <? hi)) by done.
    destruct (n >? o) eqn:Hgt; [|destruct (n <? o) eqn:Hlt]; bool_to_prop; cbn [acts foldl act]; unfold has_span; cbn [span_start span_end span_prot]; rewrite ?Hb, Hold, !Hr.
    + destruct (brk_start m <=? x) eqn:E1, (x <? o) eqn:E2, (x <? n) eqn:E3, (o <=? x) eqn:E4;
        bool_to_prop; cbn; done || lia.
    + destruct (brk_start m <=? x) eqn:E1, (x <? o) eqn:E2, (x <? n) eqn:E3, (n <=? x) eqn:E4;
        bool_to_prop; cbn; done || lia || by rewrite G1.
    + replace n with o by lia. by destruct (_ && _).
Qed.

(** The map [exec] starts a program with is well formed. *)
Lemma insert_all_ok rs m :
  ok_from 0 (regions m) -> Forall (fun r => 0 <= start r) rs ->
  match insert_all m rs with
  | (Ok _, m') => m' = with_regions m (regions m') /\ ok_from 0 (regions m')
  | (Err _, _) => True
  end.
Proof.
  intros Hok Hall. revert m Hok. induction Hall as [|r rs Hr Hall IH]; intros m Hok; cbn [insert_all].
  { split; [by destruct m|done]. }
  pose proof (insert_spec m r 0 Hok Hr) as Hi. destruct (Vma.insert m r) as [[[]|e] m1]; [|done].
  destruct Hi as (_ & I2 & I3 & _). specialize (IH m1 I3). destruct (insert_all m1 rs) as [[[]|e] m2]; [|done].
  destruct IH as [J1 J2]. split; [|done]. rewrite J1, I2. done.
Qed.

Lemma new_wf rs bs top m :
  Forall (fun r => 0 <= start r) rs -> (PAGE_SIZE | bs) -> 0 <= bs -> (PAGE_SIZE | top) -> top <= U64_MAX ->
  new rs bs top = Ok m -> map_wf m.
Proof.
  intros Hall Hb H0 Ht Hm. unfold new. pose proof (insert_all_ok rs (mkMap [] bs bs top) ltac:(done) Hall) as Hi.
  destruct (insert_all (mkMap [] bs bs top) rs) as [[[]|e] m']; [|done]. intros [= ->].
  destruct Hi as [-> Hok]. constructor; cbn; try done; lia.
Qed.

(** ** The contract *)

(** C16. [mmap] and [mmap_device] either refuse with [EINVAL] or [ENOMEM] and
    leave the map as it was, or place one page-aligned range within
    [MIN_ADDRESS..mmap_top] with the requested protection and backing and
    change nothing else. A fixed request lands on the hint; any other request
    only takes addresses that were free, and without a usable hint it takes
    the highest gap at or above the program break. The map stays sorted and
    disjoint, and [replaced] is exactly what was there before. *)
Theorem mmap_places m hint length prot fixed k :
  map_wf m -> is_u64 hint -> is_u64 length ->
  match place m hint length prot fixed k with
  | (Ok c, m') => exists len, page_up length = Some len /\ 0 < length /\ placed m len prot k c m' /\
      (fixed = true -> address c = hint) /\
      (fixed = false -> forall x, address c <= x < address c + len -> view m x = None) /\
      (fixed = false -> hint = 0 -> forall a, MIN_ADDRESS <= a -> brk m <= a -> (PAGE_SIZE | a) ->
         a + len <= mmap_top m -> (forall x, a <= x < a + len -> view m x = None) -> a <= address c)
  | (Err err, m') => m' = m /\ (err = EINVAL \/ err = ENOMEM)
  end.
Proof.
  intros W Hh Hl. pose proof (place_spec m hint length prot fixed k W Hh Hl) as P.
  destruct (place m hint length prot fixed k) as [[c|err] m'] eqn:Hp; [|done].
  destruct P as (len & Hlen & Hpos & Hpl & Hfix & Hfree). exists len. split_and!; try done.
  intros -> ->. unfold place in Hp. rewrite Hlen in Hp. case_if_in Hp; [lia|]. cbn [andb negb Z.eqb] in Hp.
  pose proof (find_free_spec m len W ltac:(apply page_up_Some in Hlen; lia)) as Hf.
  destruct (find_free m len) as [a|]; [|done]. destruct Hf as (_ & _ & _ & _ & _ & Hmax).
  destruct (Vma.insert _ _) as [[[]|]]; simplify_eq/=. done.
Qed.

(** [mprotect] changes the protection of exactly the pages of the range
    and the backing of none, and reports exactly that range. It is refused,
    without any change, exactly when the start is unaligned, part of the range
    is unmapped (or wraps), or device memory would become executable. *)
Theorem mprotect_correct m s length prot :
  map_wf m -> is_u64 s -> is_u64 length ->
  match mprotect m s length prot with
  | (Ok spans, m') => exists e, page_up length = Some (e - s) /\ (PAGE_SIZE | s) /\
      map_wf m' /\ m' = with_regions m (regions m') /\
      (forall x, s <= x < e -> view m x <> None) /\
      (execute prot = true -> forall x p d, s <= x < e -> view m x <> Some (p, Device d)) /\
      (forall x, view m' x = if in_range s e x then (fun a => (prot, a.2)) <$> view m x else view m x) /\
      (forall x p, in_spans spans x p <-> p = prot /\ s <= x < e)
  | (Err err, m') => m' = m /\
      ((err = EINVAL /\ ~ (PAGE_SIZE | s)) \/
       (err = ENOMEM /\ forall e, page_up length = Some (e - s) -> e <= U64_MAX ->
          exists x, s <= x < e /\ view m x = None) \/
       (err = EACCES /\ execute prot = true))
  end.
Proof. apply mprotect_spec. Qed.

(** Along every sequence of memory system calls, refused ones included,
    the map stays sorted, disjoint and page aligned, no page is ever writable
    and executable, and device memory is never executable. *)
Theorem vm_invariant m m' :
  rtc vm_step m m' -> map_wf m -> no_wx m -> map_wf m' /\ no_wx m'.
Proof.
  induction 1 as [m|m1 m2 m3 Hs _ IH]; [done|]. intros W Hn. destruct Hs as [m1 c r m2 Hc Hr].
  destruct (step_invariant _ _ _ _ Hc Hr W Hn). auto.
Qed.

(** The page ranges each call reports are the ones to change: if the
    pages match the map before the call and the kernel applies the reported
    actions, they match the map after it. For [brk] this takes the heap region
    to be whole. *)
Theorem pages_follow_map m c acs m' pt :
  map_wf m -> call_u64 c -> run m c = (Ok acs, m') -> backed pt m ->
  (forall a, c = CBrk a -> heap_intact m) -> backed (acts pt acs) m'.
Proof. apply run_backed. Qed.

(** ** Concrete maps *)

(** An image, a stack guard at the top and an empty heap, as [exec] makes it. *)
Definition demo_vm : MemoryMap :=
  match new [mkRegion 0x400000 0x402000 READ_EXECUTE Image; mkRegion 0x7ffff000 0x80000000 READ_WRITE Stack]
          0x402000 0x7fff0000 with Ok m => m | Err _ => mkMap [] 0 0 0 end.

Definition run_all (m : MemoryMap) (cs : list call) : MemoryMap := foldl (fun m c => (run m c).2) m cs.
Definition demo_calls : list call :=
  [CBrk 0x405000; CMmap 0 0x3000 3 false; CMprotect 0x7ffee000 0x1000 1; CMunmap 0x7ffee000 0x1000].

Ltac u64 := unfold is_u64, U64_MAX; cbn; lia.

Lemma demo_vm_wf : map_wf demo_vm.
Proof.
  apply (new_wf [mkRegion 0x400000 0x402000 READ_EXECUTE Image; mkRegion 0x7ffff000 0x80000000 READ_WRITE Stack]
    0x402000 0x7fff0000).
  - repeat constructor; done.
  - apply Z.mod_divide; by vm_compute.
  - done.
  - apply Z.mod_divide; by vm_compute.
  - by vm_compute.
  - vm_compute. reflexivity.
Qed.

Lemma demo_vm_regions r :
  r ∈ regions demo_vm -> r = mkRegion 0x400000 0x402000 READ_EXECUTE Image \/
    r = mkRegion 0x7ffff000 0x80000000 READ_WRITE Stack.
Proof.
  change (regions demo_vm) with [mkRegion 0x400000 0x402000 READ_EXECUTE Image;
    mkRegion 0x7ffff000 0x80000000 READ_WRITE Stack].
  rewrite !elem_of_cons. intros [?|[?|Hr]]; [by left|by right|]. by apply not_elem_of_nil in Hr.
Qed.

Lemma demo_vm_no_wx : no_wx demo_vm.
Proof.
  intros x p k Hv. apply (attrs_Some 0) in Hv as (r & Hr & _ & Heq); [|apply demo_vm_wf].
  destruct (demo_vm_regions r Hr) as [-> | ->]; injection Heq as -> ->; (split; [reflexivity|intros _ d; discriminate]).
Qed.

Lemma demo_vm_heap : heap_intact demo_vm.
Proof.
  intros e He. assert (e = 0x402000) as -> by (vm_compute in He; congruence). split.
  - change (brk_start demo_vm) with 0x402000. lia.
  - intros x p Hv. apply (attrs_Some 0) in Hv as (r & Hr & _ & Heq); [|apply demo_vm_wf].
    destruct (demo_vm_regions r Hr) as [-> | ->]; simplify_eq/=.
Qed.

Lemma demo_step cs m : Forall call_u64 cs -> rtc vm_step m (run_all m cs).
Proof.
  intros Hall. revert m. induction Hall as [|c cs Hc Hall IH]; intros m; cbn; [done|].
  eapply rtc_l; [|apply IH]. destruct (run m c) as [r m'] eqn:Hr. by econstructor.
Qed.

Lemma demo_calls_u64 : Forall call_u64 demo_calls.
Proof. unfold demo_calls. repeat constructor; u64. Qed.

Lemma mmap_places_witness :
  exists c m', place demo_vm 0 0x2800 READ_WRITE false Anonymous = (Ok c, m') /\ address c = 0x7ffed000 /\
    placed demo_vm 0x3000 READ_WRITE Anonymous c m'.
Proof.
  pose proof (mmap_places demo_vm 0 0x2800 READ_WRITE false Anonymous demo_vm_wf ltac:(u64) ltac:(u64)) as P.
  destruct (place demo_vm 0 0x2800 READ_WRITE false Anonymous) as [[c|e] m'] eqn:Hp.
  - exists c, m'. split; [reflexivity|]. destruct P as (len & Hl & _ & P & _).
    assert (len = 0x3000) as -> by (vm_compute in Hl; congruence).
    split; [|exact P]. vm_compute in Hp. simplify_eq. reflexivity.
  - exfalso. vm_compute in Hp. discriminate Hp.
Defined.

Lemma mprotect_correct_witness :
  exists spans m', mprotect demo_vm 0x401000 0x800 READ = (Ok spans, m') /\ map_wf m' /\
    view m' 0x401234 = Some (READ, Image) /\ view m' 0x400234 = Some (READ_EXECUTE, Image).
Proof.
  pose proof (mprotect_correct demo_vm 0x401000 0x800 READ demo_vm_wf ltac:(u64) ltac:(u64)) as P.
  destruct (mprotect demo_vm 0x401000 0x800 READ) as [[spans|e] m'] eqn:Hp.
  - exists spans, m'. split; [reflexivity|]. destruct P as (e & _ & _ & W & _). split; [exact W|].
    vm_compute in Hp. simplify_eq. split; vm_compute; reflexivity.
  - exfalso. vm_compute in Hp. discriminate Hp.
Defined.

Lemma vm_invariant_witness :
  map_wf (run_all demo_vm demo_calls) /\ no_wx (run_all demo_vm demo_calls) /\
  view (run_all demo_vm demo_calls) 0x404fff = Some (READ_WRITE, Heap).
Proof.
  destruct (vm_invariant demo_vm (run_all demo_vm demo_calls) (demo_step _ _ demo_calls_u64) demo_vm_wf demo_vm_no_wx)
    as [W N].
  split; [exact W|]. split; [exact N|]. vm_compute. reflexivity.
Defined.

Lemma pages_follow_map_witness :
  exists acs m', run demo_vm (CBrk 0x405000) = (Ok acs, m') /\
    backed (acts (fun x => fst <$> view demo_vm x) acs) m'.
Proof.
  destruct (run demo_vm (CBrk 0x405000)) as [[acs|e] m'] eqn:Hr.
  - exists acs, m'. split; [reflexivity|].
    apply (pages_follow_map demo_vm (CBrk 0x405000) acs m' (fun x => fst <$> view demo_vm x) demo_vm_wf).
    + cbn [call_u64]; u64.
    + exact Hr.
    + intros x. reflexivity.
    + intros a _. exact demo_vm_heap.
  - exfalso. vm_compute in Hr. discriminate Hr.
Defined.

(** After part of the heap is unmapped, [brk] does not keep the map and
    the pages together: growing the heap by a page re-creates the whole heap
    region in the map but only asks for the new page, so the map claims a page
    that the kernel never backs, against the rule that every region is backed
    for its whole extent. *)
Theorem brk_after_munmap :
  let m1 := run_all demo_vm [CBrk 0x405000; CMunmap 0x403000 0x1000] in
  run m1 (CBrk 0x406000) =
    (Ok [AMap (mkSpan 0x405000 0x406000 READ_WRITE)], run_all m1 [CBrk 0x406000]) /\
  view m1 0x403000 = None /\
  view (run_all m1 [CBrk 0x406000]) 0x403000 = Some (READ_WRITE, Heap) /\
  forall pt, backed pt m1 -> ~ backed (acts pt [AMap (mkSpan 0x405000 0x406000 READ_WRITE)])
                                      (run_all m1 [CBrk 0x406000]).
Proof.
  intros m1. split; [vm_compute; reflexivity|]. split; [vm_compute; reflexivity|]. split; [vm_compute; reflexivity|].
  intros pt Hb Hb'. specialize (Hb 0x403000). specialize (Hb' 0x403000).
  vm_compute in Hb, Hb'. congruence.
Qed.
