(* ===== verification/Sched.v ===== *)
(** * Sched: the EEVDF scheduler

    Models [kernel/src/task/]: [entity.rs] (virtual time), [types.rs] and
    [record.rs] (task states and control blocks), [wait_queue.rs] and
    [scheduler.rs]. Virtual time ([i128]) is [Z]; Rust's [/] is [Z.quot]. Task
    ids are [Z]s; the slot table, its free list and the id index are kept as
    the source keeps them. The memory of a kernel stack and the FPU registers
    are not part of a control block here. Fallible operations return their result
    next to the state they leave. *)

From S2P Require Import Prelude.
From stdpp Require Import base list numbers gmap strings.
Local Open Scope Z_scope.

(** ** entity.rs *)

Record EevdfEntity : Type := mkEntity {
  virtual_runtime : Z;
  virtual_deadline : Z;
  weight : Z;
  nice : Z;
  exec_runtime : Z;
  lag : Z;
  enqueue_time : Z;
}.

Definition NICE_0_WEIGHT : Z := 1024.
Definition BASE_SLICE_NS : Z := 3000000.
Definition LAG_LIMIT : Z := 2 * BASE_SLICE_NS.
Definition MIN_NICE : Z := -20.
Definition MAX_NICE : Z := 19.

Definition entity_default : EevdfEntity := mkEntity 0 0 NICE_0_WEIGHT 0 0 0 0.

Definition NICE_TO_WEIGHT : list Z :=
  [88761; 71755; 56483; 46273; 36291; 29154; 23254; 18705; 14949; 11916; 9548; 7620; 6100; 4904;
   3906; 3121; 2501; 1991; 1586; 1277; 1024; 820; 655; 526; 423; 335; 272; 215; 172; 137; 110; 87;
   70; 56; 45; 36; 29; 23; 18; 15].

Definition clamp (x low high : Z) : Z := if x <? low then low else if x >? high then high else x.

(** The index is in range after clamping. *)
Definition nice_to_weight (nice : Z) : Z :=
  default 0 (NICE_TO_WEIGHT !! Z.to_nat (clamp nice MIN_NICE MAX_NICE - MIN_NICE)).

Definition weighted_slice (e : EevdfEntity) : Z :=
  Z.quot (BASE_SLICE_NS * NICE_0_WEIGHT) (Z.max (weight e) 1).
Definition virtual_delta (e : EevdfEntity) (ran : Z) : Z :=
  Z.quot (ran * NICE_0_WEIGHT) (Z.max (weight e) 1).

Definition with_vruntime (e : EevdfEntity) v :=
  mkEntity v (virtual_deadline e) (weight e) (nice e) (exec_runtime e) (lag e) (enqueue_time e).
Definition with_deadline (e : EevdfEntity) d :=
  mkEntity (virtual_runtime e) d (weight e) (nice e) (exec_runtime e) (lag e) (enqueue_time e).
Definition with_lag (e : EevdfEntity) l :=
  mkEntity (virtual_runtime e) (virtual_deadline e) (weight e) (nice e) (exec_runtime e) l (enqueue_time e).
Definition with_enqueue (e : EevdfEntity) t :=
  mkEntity (virtual_runtime e) (virtual_deadline e) (weight e) (nice e) (exec_runtime e) (lag e) t.

Definition account (e : EevdfEntity) (ran : Z) : bool * EevdfEntity :=
  let e := mkEntity (virtual_runtime e + virtual_delta e ran) (virtual_deadline e) (weight e) (nice e)
             (saturating_add (exec_runtime e) ran) (lag e) (enqueue_time e) in
  if virtual_runtime e >=? virtual_deadline e
  then (true, with_deadline e (virtual_runtime e + weighted_slice e))
  else (false, e).

Definition is_eligible (e : EevdfEntity) (average : Z) : bool := virtual_runtime e <=? average.

(** ** types.rs and record.rs *)

Inductive TaskState : Type := New | Ready | Running | Blocked | Exited.
Inductive BlockReason : Type :=
| SleepUntil (t : Z) | OnWaitQueue (q : Z) | WaitingForIo (d : Z) | WaitingForChild (p : Z).
Inductive ResumeKind : Type := Voluntary | Interrupt.
Inductive PolicyKind : Type := Eevdf | Fifo | RoundRobin.
Inductive SchedulerError : Type :=
| UnknownTask | InvalidTransition | AlreadyQueued | NotBlocked | CannotReapCurrent | InvalidAddressSpace.

#[export] Instance TaskState_eq_dec : EqDecision TaskState.
Proof. solve_decision. Defined.
#[export] Instance BlockReason_eq_dec : EqDecision BlockReason.
Proof. solve_decision. Defined.
#[export] Instance PolicyKind_eq_dec : EqDecision PolicyKind.
Proof. solve_decision. Defined.

Definition is_runnable (s : TaskState) : bool := match s with Ready | Running => true | _ => false end.
Definition is_terminal (s : TaskState) : bool := match s with Exited => true | _ => false end.
Definition can_transition (s next : TaskState) : bool :=
  match s, next with
  | New, Ready => true
  | Ready, Running => true
  | Running, (Ready | Blocked | Exited) => true
  | Blocked, Ready => true
  | _, _ => false
  end.

Record VoluntaryContext : Type := mkContext {
  stack_pointer : Z;
  instruction_pointer : Z;
  rbx : Z;
  rbp : Z;
  r12 : Z;
  r13 : Z;
  r14 : Z;
  r15 : Z;
  rflags : Z;
}.
Definition context_zero : VoluntaryContext := mkContext 0 0 0 0 0 0 0 0 2.

(** The kernel stack is its base and top. *)
Record TaskControlBlock : Type := mkTask {
  task_id : Z;
  process_id : option Z;
  tstate : TaskState;
  block_reason : option BlockReason;
  exit_status : option Z;
  wait_link : option Z;
  cpu_context : VoluntaryContext;
  interrupt_stack_pointer : Z;
  resume_kind : ResumeKind;
  kernel_stack : Z * Z;
  entry : option Z;
  address_space : option Z;
  scheduler_entity : EevdfEntity;
  dispatched_at : Z;
  slice_start : Z;
  is_idle : bool;
  name : string;
  fs_base : Z;
}.

Definition task_new (id : Z) (stack : Z * Z) (nm : string) : TaskControlBlock :=
  mkTask id None New None None None context_zero 0 Voluntary stack None None entity_default 0 0 false nm 0.

Definition set_tstate t x := mkTask (task_id t) (process_id t) x (block_reason t) (exit_status t)
  (wait_link t) (cpu_context t) (interrupt_stack_pointer t) (resume_kind t) (kernel_stack t) (entry t)
  (address_space t) (scheduler_entity t) (dispatched_at t) (slice_start t) (is_idle t) (name t) (fs_base t).
Definition set_wait t b w := mkTask (task_id t) (process_id t) (tstate t) b (exit_status t) w (cpu_context t)
  (interrupt_stack_pointer t) (resume_kind t) (kernel_stack t) (entry t) (address_space t)
  (scheduler_entity t) (dispatched_at t) (slice_start t) (is_idle t) (name t) (fs_base t).
Definition set_exit t x := mkTask (task_id t) (process_id t) (tstate t) None x (wait_link t) (cpu_context t)
  (interrupt_stack_pointer t) (resume_kind t) (kernel_stack t) (entry t) (address_space t)
  (scheduler_entity t) (dispatched_at t) (slice_start t) (is_idle t) (name t) (fs_base t).
Definition set_resume t sp k := mkTask (task_id t) (process_id t) (tstate t) (block_reason t) (exit_status t)
  (wait_link t) (cpu_context t) sp k (kernel_stack t) (entry t) (address_space t) (scheduler_entity t)
  (dispatched_at t) (slice_start t) (is_idle t) (name t) (fs_base t).
Definition set_space t a := mkTask (task_id t) (process_id t) (tstate t) (block_reason t) (exit_status t)
  (wait_link t) (cpu_context t) (interrupt_stack_pointer t) (resume_kind t) (kernel_stack t) (entry t) a
  (scheduler_entity t) (dispatched_at t) (slice_start t) (is_idle t) (name t) (fs_base t).
Definition set_entity t e := mkTask (task_id t) (process_id t) (tstate t) (block_reason t) (exit_status t)
  (wait_link t) (cpu_context t) (interrupt_stack_pointer t) (resume_kind t) (kernel_stack t) (entry t)
  (address_space t) e (dispatched_at t) (slice_start t) (is_idle t) (name t) (fs_base t).
Definition set_times t d s := mkTask (task_id t) (process_id t) (tstate t) (block_reason t) (exit_status t)
  (wait_link t) (cpu_context t) (interrupt_stack_pointer t) (resume_kind t) (kernel_stack t) (entry t)
  (address_space t) (scheduler_entity t) d s (is_idle t) (name t) (fs_base t).
Definition set_entry t c k e i := mkTask (task_id t) (process_id t) (tstate t) (block_reason t)
  (exit_status t) (wait_link t) c (interrupt_stack_pointer t) k (kernel_stack t) e (address_space t)
  (scheduler_entity t) (dispatched_at t) (slice_start t) i (name t) (fs_base t).

Definition transition (t : TaskControlBlock) (next : TaskState) : result SchedulerError TaskControlBlock :=
  if negb (can_transition (tstate t) next) then Err InvalidTransition else Ok (set_tstate t next).

(** ** wait_queue.rs *)

Record WaitQueue : Type := mkQueue { queue_id : Z; queue_tasks : list Z }.

Fixpoint position (x : Z) (l : list Z) : option nat :=
  match l with
  | [] => None
  | y :: l => if y =? x then Some 0%nat else S <$> position x l
  end.
Definition queue_remove (q : WaitQueue) (t : Z) : bool * WaitQueue :=
  match position t (queue_tasks q) with
  | Some i => (true, mkQueue (queue_id q) (delete i (queue_tasks q)))
  | None => (false, q)
  end.

(** ** scheduler.rs *)

Record SchedulerStats : Type := mkStats {
  context_switches : Z;
  timer_preemptions : Z;
  voluntary_yields : Z;
  tasks_woken : Z;
  tasks_reaped : Z;
  idle_ticks : Z;
}.

Record Scheduler : Type := mkSched {
  tasks : list (option TaskControlBlock);
  free_slots : list nat;
  index : gmap Z nat;
  run_queue : list Z;
  exit_queue : list Z;
  next_task_id : Z;
  current : option Z;
  idle : option Z;
  sleepers : list (Z * Z);
  sum_weight : Z;
  sum_weighted_runtime : Z;
  average : Z;
  wakeup_preempt : bool;
  clock : Z;
  policy : PolicyKind;
  stats : SchedulerStats;
}.

Definition sched_new : Scheduler :=
  mkSched [] [] ∅ [] [] 1 None None [] 0 0 0 false 0 Eevdf (mkStats 0 0 0 0 0 0).

Definition with_table s ts fs ix := mkSched ts fs ix (run_queue s) (exit_queue s) (next_task_id s) (current s)
  (idle s) (sleepers s) (sum_weight s) (sum_weighted_runtime s) (average s) (wakeup_preempt s) (clock s) (policy s) (stats s).
Definition with_tasks s ts := with_table s ts (free_slots s) (index s).
Definition with_run_queue s q := mkSched (tasks s) (free_slots s) (index s) q (exit_queue s) (next_task_id s) (current s)
  (idle s) (sleepers s) (sum_weight s) (sum_weighted_runtime s) (average s) (wakeup_preempt s) (clock s) (policy s) (stats s).
Definition with_exit_queue s q := mkSched (tasks s) (free_slots s) (index s) (run_queue s) q (next_task_id s) (current s)
  (idle s) (sleepers s) (sum_weight s) (sum_weighted_runtime s) (average s) (wakeup_preempt s) (clock s) (policy s) (stats s).
Definition with_next_id s n := mkSched (tasks s) (free_slots s) (index s) (run_queue s) (exit_queue s) n (current s)
  (idle s) (sleepers s) (sum_weight s) (sum_weighted_runtime s) (average s) (wakeup_preempt s) (clock s) (policy s) (stats s).
Definition with_current s c := mkSched (tasks s) (free_slots s) (index s) (run_queue s) (exit_queue s) (next_task_id s) c
  (idle s) (sleepers s) (sum_weight s) (sum_weighted_runtime s) (average s) (wakeup_preempt s) (clock s) (policy s) (stats s).
Definition with_idle s i := mkSched (tasks s) (free_slots s) (index s) (run_queue s) (exit_queue s) (next_task_id s) (current s)
  i (sleepers s) (sum_weight s) (sum_weighted_runtime s) (average s) (wakeup_preempt s) (clock s) (policy s) (stats s).
Definition with_sleepers s l := mkSched (tasks s) (free_slots s) (index s) (run_queue s) (exit_queue s) (next_task_id s) (current s)
  (idle s) l (sum_weight s) (sum_weighted_runtime s) (average s) (wakeup_preempt s) (clock s) (policy s) (stats s).
Definition with_sums s w r a := mkSched (tasks s) (free_slots s) (index s) (run_queue s) (exit_queue s) (next_task_id s) (current s)
  (idle s) (sleepers s) w r a (wakeup_preempt s) (clock s) (policy s) (stats s).
Definition with_preempt s b := mkSched (tasks s) (free_slots s) (index s) (run_queue s) (exit_queue s) (next_task_id s) (current s)
  (idle s) (sleepers s) (sum_weight s) (sum_weighted_runtime s) (average s) b (clock s) (policy s) (stats s).
Definition with_clock s c := mkSched (tasks s) (free_slots s) (index s) (run_queue s) (exit_queue s) (next_task_id s) (current s)
  (idle s) (sleepers s) (sum_weight s) (sum_weighted_runtime s) (average s) (wakeup_preempt s) c (policy s) (stats s).
Definition with_policy s p := mkSched (tasks s) (free_slots s) (index s) (run_queue s) (exit_queue s) (next_task_id s) (current s)
  (idle s) (sleepers s) (sum_weight s) (sum_weighted_runtime s) (average s) (wakeup_preempt s) (clock s) p (stats s).
Definition with_stats s x := mkSched (tasks s) (free_slots s) (index s) (run_queue s) (exit_queue s) (next_task_id s) (current s)
  (idle s) (sleepers s) (sum_weight s) (sum_weighted_runtime s) (average s) (wakeup_preempt s) (clock s) (policy s) x.

Implicit Types (s : Scheduler) (id now : Z).

(** [task], and an update through [task_mut]. *)
Definition task s id : option TaskControlBlock :=
  match index s !! id with
  | Some slot => match tasks s !! slot with Some t => t | None => None end
  | None => None
  end.
Definition task_mut s id (f : TaskControlBlock -> TaskControlBlock) : Scheduler :=
  match index s !! id with
  | Some slot =>
      match tasks s !! slot with
      | Some (Some t) => with_tasks s (<[slot := Some (f t)]> (tasks s))
      | _ => s
      end
  | None => s
  end.

Definition refresh_average s : Scheduler :=
  if sum_weight s >? 0
  then with_sums s (sum_weight s) (sum_weighted_runtime s) (Z.quot (sum_weighted_runtime s) (sum_weight s))
  else s.

(** Add to the sums, then refresh the average. *)
Definition add_sums s w r : Scheduler :=
  refresh_average (with_sums s (sum_weight s + w) (sum_weighted_runtime s + r) (average s)).

Definition allocate_id s : Z * Scheduler :=
  (next_task_id s, with_next_id s (saturating_add (next_task_id s) 1)).

Definition insert_task s (t : TaskControlBlock) : Scheduler :=
  let '(slot, ts, fs) :=
    match list.last (free_slots s) with
    | Some slot => (slot, tasks s, take (pred (length (free_slots s))) (free_slots s))
    | None => (length (tasks s), tasks s ++ [None], free_slots s)
    end in
  with_table s (<[slot := Some t]> ts) fs (<[task_id t := slot]> (index s)).

(** Where [join] places a task that rejoins with lag [l] and weight [w]. *)
Definition placed_lag (l w others : Z) : Z :=
  if others >? 0 then Z.quot (l * (others + w)) others else l.

Definition join s id : Scheduler :=
  match task s id with
  | None => s
  | Some t =>
      let e := scheduler_entity t in
      let runtime := average s - placed_lag (lag e) (weight e) (sum_weight s) in
      let e := with_lag (with_vruntime e runtime) 0 in
      let e := with_deadline e (runtime + weighted_slice e) in
      let e := with_enqueue e (clock s) in
      let deadline := virtual_deadline e in
      let s := task_mut s id (fun t => set_entity t e) in
      let s := add_sums s (weight e) (weight e * runtime) in
      let s := with_run_queue s (run_queue s ++ [id]) in
      match current s with
      | Some c =>
          if negb (bool_decide (Some c = idle s)) && (runtime <=? average s)
             && match task s c with
                | Some t => deadline <? virtual_deadline (scheduler_entity t)
                | None => false
                end
          then with_preempt s true else s
      | None => s
      end
  end.

Definition leave s id : Scheduler :=
  match task s id with
  | None => s
  | Some t =>
      let e := scheduler_entity t in
      let e := with_lag e (clamp (average s - virtual_runtime e) (- LAG_LIMIT) LAG_LIMIT) in
      let s := task_mut s id (fun t => set_entity t e) in
      add_sums s (- weight e) (- (weight e * virtual_runtime e))
  end.

Definition charge s id now : bool * Scheduler :=
  match task s id with
  | None => (false, s)
  | Some t =>
      let ran := saturating_sub now (dispatched_at t) in
      let t := set_times t now (slice_start t) in
      if is_idle t then (false, task_mut s id (fun _ => t))
      else
        let before := virtual_runtime (scheduler_entity t) in
        let '(completed, e) := account (scheduler_entity t) ran in
        let s := task_mut s id (fun _ => set_entity t e) in
        (completed, add_sums s 0 (weight e * (virtual_runtime e - before)))
  end.

Definition is_in_runnable_set s id : bool :=
  match task s id with Some t => negb (is_idle t) && is_runnable (tstate t) | None => false end.

(** Tuples compare lexicographically. *)
Definition key_lt (a b : Z * Z) : bool := (a.1 <? b.1) || ((a.1 =? b.1) && (a.2 <? b.2)).

Definition pick_key s (t : TaskControlBlock) id : Z * Z :=
  match policy s with
  | Eevdf => (virtual_deadline (scheduler_entity t), id)
  | Fifo | RoundRobin => (enqueue_time (scheduler_entity t), id)
  end.
Definition pick_eligible s (t : TaskControlBlock) : bool :=
  negb (bool_decide (policy s = Eevdf)) || is_eligible (scheduler_entity t) (average s).

Definition is_none_or {A} (o : option A) (f : A -> bool) : bool :=
  match o with Some a => f a | None => true end.

(** One iteration of the loop of [pick_next]. *)
Definition pick_step s (acc : option (nat * (Z * Z)) * option (nat * (Z * Z))) (i : nat) id :=
  let '(best, fallback) := acc in
  match task s id with
  | None => (best, fallback)
  | Some t =>
      let key := pick_key s t id in
      let best := if pick_eligible s t && is_none_or best (fun b => key_lt key b.2) then Some (i, key) else best in
      let runtime_key := (virtual_runtime (scheduler_entity t), id) in
      let fallback :=
        if is_none_or fallback (fun b => key_lt runtime_key b.2) then Some (i, runtime_key) else fallback in
      (best, fallback)
  end.
Fixpoint pick_loop s acc (i : nat) (l : list Z) :=
  match l with
  | [] => acc
  | id :: l => pick_loop s (pick_step s acc i id) (S i) l
  end.

(** [Vec::swap_remove]: the last element fills the hole. *)
Definition swap_remove (l : list Z) (i : nat) : list Z :=
  match list.last l with
  | Some x => take (pred (length l)) (<[i := x]> l)
  | None => l
  end.

Definition pick_next s : option Z * Scheduler :=
  match run_queue s with
  | [] => (idle s, s)
  | _ =>
      let '(best, fallback) := pick_loop s (None, None) 0 (run_queue s) in
      match (match best with Some b => Some b | None => fallback end) with
      | None => (None, s)
      | Some (i, _) => (run_queue s !! i, with_run_queue s (swap_remove (run_queue s) i))
      end
  end.

Definition bump_switches s : Scheduler :=
  with_stats s (mkStats (saturating_add (context_switches (stats s)) 1) (timer_preemptions (stats s))
    (voluntary_yields (stats s)) (tasks_woken (stats s)) (tasks_reaped (stats s)) (idle_ticks (stats s))).
Definition bump_woken s : Scheduler :=
  with_stats s (mkStats (context_switches (stats s)) (timer_preemptions (stats s))
    (voluntary_yields (stats s)) (saturating_add (tasks_woken (stats s)) 1) (tasks_reaped (stats s)) (idle_ticks (stats s))).
Definition bump_preemptions s : Scheduler :=
  with_stats s (mkStats (context_switches (stats s)) (saturating_add (timer_preemptions (stats s)) 1)
    (voluntary_yields (stats s)) (tasks_woken (stats s)) (tasks_reaped (stats s)) (idle_ticks (stats s))).
Definition bump_yields s : Scheduler :=
  with_stats s (mkStats (context_switches (stats s)) (timer_preemptions (stats s))
    (saturating_add (voluntary_yields (stats s)) 1) (tasks_woken (stats s)) (tasks_reaped (stats s)) (idle_ticks (stats s))).
Definition bump_reaped s : Scheduler :=
  with_stats s (mkStats (context_switches (stats s)) (timer_preemptions (stats s))
    (voluntary_yields (stats s)) (tasks_woken (stats s)) (saturating_add (tasks_reaped (stats s)) 1) (idle_ticks (stats s))).
Definition bump_idle s : Scheduler :=
  with_stats s (mkStats (context_switches (stats s)) (timer_preemptions (stats s))
    (voluntary_yields (stats s)) (tasks_woken (stats s)) (tasks_reaped (stats s)) (saturating_add (idle_ticks (stats s)) 1)).

(** Move [id] along the state machine; the update is dropped on error. *)
Definition task_transition s id (next : TaskState) : result SchedulerError unit * Scheduler :=
  match task s id with
  | None => (Err UnknownTask, s)
  | Some t =>
      match transition t next with
      | Err e => (Err e, s)
      | Ok t => (Ok tt, task_mut s id (fun _ => t))
      end
  end.

Definition switch_to_next s (previous : option Z) now : result SchedulerError (option Z) * Scheduler :=
  let s := with_preempt s false in
  let '(next, s) := pick_next s in
  let finish s :=
    let s := with_current s next in
    let s := if bool_decide (next = previous) then s else bump_switches s in
    (Ok next, s) in
  match next with
  | None => finish s
  | Some id =>
      match task_transition s id Running with
      | (Err e, s) => (Err e, s)
      | (Ok _, s) => finish (task_mut s id (fun t => set_times t now now))
      end
  end.

(** Charge and remove the running task from the runnable set. *)
Definition stop_current s (state : TaskState) now : result SchedulerError Z * Scheduler :=
  let s := with_clock s now in
  match current s with
  | None => (Err UnknownTask, s)
  | Some c =>
      match task s c with
      | None => (Err UnknownTask, s)
      | Some t =>
          if negb (bool_decide (tstate t = Running)) then (Err InvalidTransition, s) else
          let '(_, s) := charge s c now in
          let s := leave s c in
          let s := task_mut s c (fun t => set_resume t (interrupt_stack_pointer t) Voluntary) in
          match task_transition s c state with
          | (Err e, s) => (Err e, s)
          | (Ok _, s) => (Ok c, with_current s None)
          end
      end
  end.

(** Blocked to ready, rejoining with the saved lag; [transition]'s error is
    dropped as in the source. *)
Definition make_ready s id : Scheduler :=
  let s := (task_transition s id Ready).2 in
  let s := task_mut s id (fun t => set_wait t None None) in
  bump_woken (join s id).

Definition spawn s (stack : Z * Z) (nm : string) : option Z * Scheduler :=
  let '(id, s) := allocate_id s in
  match transition (task_new id stack nm) Ready with
  | Err _ => (None, s)
  | Ok t => (Some id, join (insert_task s t) id)
  end.

(** [stack] is the bounds of the stack it starts on, [bootstrap_ip] the address
    of the assembly entry. *)
Definition spawn_kernel_task s (bootstrap_ip ent : Z) (nm : string) (idle_task : bool) (stack : Z * Z) : option Z * Scheduler :=
  let '(id, s) := allocate_id s in
  match transition (task_new id stack nm) Ready with
  | Err _ => (None, s)
  | Ok t =>
      let context := mkContext (stack.2 - 8) bootstrap_ip 0 0 ent 0 0 0 2 in
      let s := insert_task s (set_entry t context Voluntary (Some ent) idle_task) in
      (Some id, if idle_task then with_idle s (Some id) else join s id)
  end.

Definition set_address_space s id (a : option Z) : result SchedulerError unit * Scheduler :=
  match task s id with
  | None => (Err UnknownTask, s)
  | Some t =>
      if is_terminal (tstate t) then (Err InvalidAddressSpace, s)
      else (Ok tt, task_mut s id (fun t => set_space t a))
  end.

Definition set_nice s id (n : Z) : result SchedulerError unit * Scheduler :=
  let runnable := is_in_runnable_set s id in
  match task s id with
  | None => (Err UnknownTask, s)
  | Some t =>
      if is_terminal (tstate t) then (Err InvalidTransition, s) else
      let e := scheduler_entity t in
      let old_weight := weight e in
      let nice := clamp n MIN_NICE MAX_NICE in
      let e := mkEntity (virtual_runtime e) (virtual_deadline e) (nice_to_weight nice) nice
                 (exec_runtime e) (lag e) (enqueue_time e) in
      let e := with_deadline e (virtual_runtime e + weighted_slice e) in
      let s := task_mut s id (fun t => set_entity t e) in
      (Ok tt, if runnable
              then add_sums s (weight e - old_weight) ((weight e - old_weight) * virtual_runtime e)
              else s)
  end.

Definition tick s now : bool * Scheduler :=
  let s := with_clock s now in
  let queued := negb (bool_decide (run_queue s = [])) in
  match (match current s with
         | Some c => if bool_decide (Some c = idle s) then None else Some c
         | None => None
         end) with
  | None => (queued, bump_idle s)
  | Some c =>
      let '(request_completed, s) := charge s c now in
      let wakeup := wakeup_preempt s in
      let s := with_preempt s false in
      (queued && match policy s with
                 | Fifo => false
                 | RoundRobin =>
                     match task s c with
                     | Some t => saturating_sub now (slice_start t) >=? BASE_SLICE_NS
                     | None => false
                     end
                 | Eevdf => request_completed || wakeup
                 end, s)
  end.

Definition schedule s now : result SchedulerError (option Z) * Scheduler :=
  let s := with_clock s now in
  let previous := current s in
  let finish s := switch_to_next (with_current s None) previous now in
  match previous with
  | None => finish s
  | Some c =>
      match task s c with
      | None => (Err UnknownTask, s)
      | Some t =>
          if bool_decide (tstate t = Running) then
            let '(_, s) := charge s c now in
            match task_transition s c Ready with
            | (Err e, s) => (Err e, s)
            | (Ok _, s) =>
                if is_idle t then finish s
                else
                  let s := task_mut s c (fun t => set_entity t (with_enqueue (scheduler_entity t) (clock s))) in
                  finish (with_run_queue s (run_queue s ++ [c]))
            end
          else finish s
      end
  end.

(** [None] is the panic "preemption has no runnable task". *)
Definition preempt s (stack_pointer now : Z) : option (Z * Scheduler) :=
  let previous := current s in
  let s := match previous with
           | Some c => task_mut s c (fun t => set_resume t stack_pointer Interrupt)
           | None => s
           end in
  let '(_, s) := schedule s now in
  match (match current s with Some c => Some c | None => idle s end) with
  | None => None
  | Some next => Some (next, if bool_decide (Some next = previous) then s else bump_preemptions s)
  end.

Definition prepare_voluntary_yield s now : result SchedulerError (Z * Z) * Scheduler :=
  match current s with
  | None => (Err UnknownTask, s)
  | Some c =>
      match task s c with
      | None => (Err UnknownTask, s)
      | Some t =>
          if negb (bool_decide (tstate t = Running)) then (Err InvalidTransition, s) else
          let s := task_mut s c (fun t => set_resume t (interrupt_stack_pointer t) Voluntary) in
          match schedule s now with
          | (Err e, s) => (Err e, s)
          | (Ok None, s) => (Err UnknownTask, s)
          | (Ok (Some next), s) => (Ok (c, next), bump_yields s)
          end
      end
  end.

Fixpoint sleeper_position (key : Z * Z) (l : list (Z * Z)) : nat :=
  match l with
  | [] => 0
  | x :: l => if key_lt key x then S (sleeper_position key l) else 0
  end.

Definition sleep_current_until s (deadline now : Z) : result SchedulerError (option Z) * Scheduler :=
  match stop_current s Blocked now with
  | (Err e, s) => (Err e, s)
  | (Ok c, s) =>
      match task s c with
      | None => (Err UnknownTask, s)
      | Some _ =>
          let s := task_mut s c (fun t => set_wait t (Some (SleepUntil deadline)) (wait_link t)) in
          let i := sleeper_position (deadline, c) (sleepers s) in
          let s := with_sleepers s (take i (sleepers s) ++ (deadline, c) :: drop i (sleepers s)) in
          switch_to_next s (Some c) now
      end
  end.

(** Every iteration pops a sleeper, so [length sleepers] is enough fuel. *)
Fixpoint wake_loop (fuel : nat) s (now : Z) (woken : nat) : nat * Scheduler :=
  match fuel with
  | O => (woken, s)
  | S fuel =>
      match list.last (sleepers s) with
      | None => (woken, s)
      | Some (deadline, id) =>
          if deadline >? now then (woken, s) else
          let s := with_sleepers s (take (pred (length (sleepers s))) (sleepers s)) in
          let still_sleeping :=
            match task s id with
            | Some t => bool_decide (tstate t = Blocked)
                        && bool_decide (block_reason t = Some (SleepUntil deadline))
            | None => false
            end in
          if still_sleeping then wake_loop fuel (make_ready s id) now (S woken)
          else wake_loop fuel s now woken
      end
  end.
Definition wake_expired s now : nat * Scheduler := wake_loop (length (sleepers s)) s now 0.

Definition block_current s (reason : BlockReason) (q : WaitQueue) now
  : result SchedulerError (option Z) * Scheduler * WaitQueue :=
  match stop_current s Blocked now with
  | (Err e, s) => (Err e, s, q)
  | (Ok c, s) =>
      match task s c with
      | None => (Err UnknownTask, s, q)
      | Some _ =>
          let s := task_mut s c (fun t => set_wait t (Some reason) (Some (queue_id q))) in
          (switch_to_next s (Some c) now, mkQueue (queue_id q) (queue_tasks q ++ [c]))
      end
  end.

Definition wake_one s (q : WaitQueue) : result SchedulerError (option Z) * Scheduler * WaitQueue :=
  match queue_tasks q with
  | [] => (Ok None, s, q)
  | id :: rest =>
      let q := mkQueue (queue_id q) rest in
      match task s id with
      | None => (Err UnknownTask, s, q)
      | Some t =>
          if negb (bool_decide (tstate t = Blocked)) then (Err NotBlocked, s, q)
          else (Ok (Some id), make_ready s id, q)
      end
  end.

Fixpoint wake_all_loop (fuel : nat) s (q : WaitQueue) (n : nat) : result SchedulerError nat * Scheduler * WaitQueue :=
  match fuel with
  | O => (Ok n, s, q)
  | S fuel =>
      match wake_one s q with
      | (Err e, s, q) => (Err e, s, q)
      | (Ok None, s, q) => (Ok n, s, q)
      | (Ok (Some _), s, q) => wake_all_loop fuel s q (S n)
      end
  end.
Definition wake_all s (q : WaitQueue) := wake_all_loop (S (length (queue_tasks q))) s q 0.

Definition wake_task s id : result SchedulerError unit * Scheduler :=
  match task s id with
  | None => (Err UnknownTask, s)
  | Some t =>
      if negb (bool_decide (tstate t = Blocked)) then (Err NotBlocked, s) else (Ok tt, make_ready s id)
  end.

Definition cancel_wait s id (q : WaitQueue) : result SchedulerError unit * Scheduler * WaitQueue :=
  match task s id with
  | None => (Err UnknownTask, s, q)
  | Some t =>
      if negb (bool_decide (tstate t = Blocked)) || negb (bool_decide (wait_link t = Some (queue_id q)))
      then (Err NotBlocked, s, q)
      else
        let '(found, q) := queue_remove q id in
        if negb found then (Err NotBlocked, s, q) else (Ok tt, make_ready s id, q)
  end.

Definition exit_current s (status now : Z) : result SchedulerError (option Z) * Scheduler :=
  match stop_current s Exited now with
  | (Err e, s) => (Err e, s)
  | (Ok c, s) =>
      match task s c with
      | None => (Err UnknownTask, s)
      | Some _ =>
          let s := task_mut s c (fun t => set_exit t (Some status)) in
          let s := with_exit_queue s (exit_queue s ++ [c]) in
          switch_to_next s (Some c) now
      end
  end.

Definition reap_one s : result SchedulerError (option TaskControlBlock) * Scheduler :=
  match exit_queue s with
  | [] => (Ok None, s)
  | id :: rest =>
      if bool_decide (current s = Some id) then (Err CannotReapCurrent, s) else
      let s := with_exit_queue s rest in
      match index s !! id with
      | None => (Err UnknownTask, s)
      | Some slot =>
          let s := with_table s (tasks s) (free_slots s) (delete id (index s)) in
          match (match tasks s !! slot with Some t => t | None => None end) with
          | None => (Err UnknownTask, s)
          | Some t =>
              (Ok (Some t),
               bump_reaped (with_table s (<[slot := None]> (tasks s)) (free_slots s ++ [slot]) (index s)))
          end
      end
  end.

Definition runnable_count s : nat :=
  (length (run_queue s) + if bool_decide (current s = None) || bool_decide (current s = idle s) then 0 else 1)%nat.

(** ** What the architecture layer and the monitors read *)

Inductive ResumeContext : Type :=
| ResumeVoluntary (c : VoluntaryContext)
| ResumeInterrupt (stack_pointer : Z).

Record DispatchDecision : Type := mkDecision {
  dd_task_id : Z;
  dd_resume_context : ResumeContext;
  dd_address_space : option Z;
}.

Definition dispatch_decision s id : result SchedulerError DispatchDecision :=
  match task s id with
  | None => Err UnknownTask
  | Some t =>
      let context := match resume_kind t with
                     | Voluntary => ResumeVoluntary (cpu_context t)
                     | Interrupt => ResumeInterrupt (interrupt_stack_pointer t)
                     end in
      Ok (mkDecision id context (address_space t))
  end.

Record TaskSnapshot : Type := mkSnapshot {
  sn_task_id : Z;
  sn_name : string;
  sn_process_id : option Z;
  sn_state : TaskState;
  sn_virtual_runtime : Z;
  sn_virtual_deadline : Z;
  sn_exec_runtime : Z;
  sn_nice : Z;
  sn_address_space : option Z;
  sn_is_idle : bool;
  sn_resume_kind : ResumeKind;
  sn_block_reason : option BlockReason;
  sn_exit_status : option Z;
  sn_enqueue_time : Z;
  sn_eligible : bool;
  sn_lag : Z;
}.

Definition snapshot s (t : TaskControlBlock) : TaskSnapshot :=
  let e := scheduler_entity t in
  mkSnapshot (task_id t) (name t) (process_id t) (tstate t) (virtual_runtime e) (virtual_deadline e)
    (exec_runtime e) (nice e) (address_space t) (is_idle t) (resume_kind t) (block_reason t) (exit_status t)
    (enqueue_time e) (is_eligible e (average s))
    (if is_runnable (tstate t) then average s - virtual_runtime e else lag e).
Definition snapshots s : list TaskSnapshot := snapshot s <$> omap id (tasks s).

Definition task_on_stack s (base : Z) : option (Z * string) :=
  (fun t => (task_id t, name t)) <$> List.find (fun t => (kernel_stack t).1 =? base) (omap id (tasks s)).
