(* ===== verification/SchedOps.v ===== *)
(** * SchedOps: the scheduler's invariant

    What [kernel/src/task/scheduler.rs] keeps true between operations: the
    slot table and its index agree; the run queue holds exactly the ready
    tasks, the running task is the current one; the two sums range over
    exactly the runnable tasks and the average follows them. *)

From stdpp Require Import base numbers gmap sets sorting list.
From S2P Require Import Prelude Sched.
Local Open Scope Z_scope.

(** ** Sums over lists of tasks *)

Definition zsum (f : Z -> Z) (l : list Z) : Z := foldr (fun x n => f x + n) 0 l.

Lemma zsum_app f l k : zsum f (l ++ k) = zsum f l + zsum f k.
Proof. induction l as [|x l IH]; simpl; [done|]. rewrite IH. lia. Qed.

Lemma zsum_perm f l k : l ≡ₚ k -> zsum f l = zsum f k.
Proof. induction 1; simpl; lia. Qed.

Lemma zsum_ext f g l : (forall x, x ∈ l -> f x = g x) -> zsum f l = zsum g l.
Proof.
  induction l as [|x l IH]; intros Hfg; simpl; [done|]. rewrite Hfg by (by left).
  rewrite IH; [done|]. intros y Hy. apply Hfg. by right.
Qed.

Lemma zsum_update f g l x :
  NoDup l -> x ∈ l -> (forall y, y <> x -> g y = f y) -> zsum g l = zsum f l + (g x - f x).
Proof.
  intros Hnd. induction Hnd as [|y l Hy Hnd IH]; intros Hx Hfg; [set_solver|].
  simpl. destruct (decide (y = x)) as [->|Hne].
  - rewrite (zsum_ext g f l); [lia|]. intros z Hz. apply Hfg. by intros ->.
  - rewrite IH, Hfg by (done || set_solver). lia.
Qed.

Lemma zsum_nonneg f l : (forall x, x ∈ l -> 0 < f x) -> 0 <= zsum f l /\ (l <> [] -> 0 < zsum f l).
Proof.
  induction l as [|x l IH]; intros Hf; simpl; [done|].
  assert (0 < f x) by (apply Hf; by left). destruct IH as [IH _]; [intros y Hy; apply Hf; by right|]. lia.
Qed.

(** ** The table *)

Implicit Types (s : Scheduler) (id : Z).

Record table_fields_ok (ts : list (option TaskControlBlock)) (fs : list nat) (ix : gmap Z nat) : Prop := {
  tab_slot id slot : ix !! id = Some slot -> exists t, ts !! slot = Some (Some t) /\ task_id t = id;
  tab_free slot : slot ∈ fs -> ts !! slot = Some None;
  tab_nodup : NoDup fs;
}.
Definition table_ok s : Prop := table_fields_ok (tasks s) (free_slots s) (index s).

Lemma task_slot s id t :
  table_ok s -> task s id = Some t ->
  exists slot, index s !! id = Some slot /\ tasks s !! slot = Some (Some t) /\ task_id t = id.
Proof.
  intros T. unfold task. destruct (index s !! id) as [slot|] eqn:Hi; [|done].
  destruct (tab_slot _ _ _ T _ _ Hi) as (t' & Ht & Hid). rewrite Ht. intros [= ->]. by exists slot.
Qed.

Lemma task_None s id : table_ok s -> task s id = None -> index s !! id = None.
Proof.
  intros T. unfold task. destruct (index s !! id) as [slot|] eqn:Hi; [|done].
  destruct (tab_slot _ _ _ T _ _ Hi) as (t' & Ht & Hid). by rewrite Ht.
Qed.

Lemma task_id_eq s id t : table_ok s -> task s id = Some t -> task_id t = id.
Proof. intros T Ht. by destruct (task_slot s id t T Ht) as (? & _ & _ & ?). Qed.

(** An update through [task_mut] changes one task and nothing else. *)
Lemma task_mut_form s c f t :
  table_ok s -> task s c = Some t -> task_id (f t) = c ->
  exists ts, task_mut s c f = with_tasks s ts /\ table_ok (with_tasks s ts) /\
    forall id, task (with_tasks s ts) id = if decide (id = c) then Some (f t) else task s id.
Proof.
  intros T Htask Hf. destruct (task_slot s c t T Htask) as (slot & Hi & Ht & Hid).
  exists (<[slot := Some (f t)]> (tasks s)). unfold task_mut. rewrite Hi, Ht.
  pose proof (lookup_lt_Some _ _ _ Ht) as Hlt. split_and!; [done|constructor; cbn|].
  - intros id' slot' Hi'. destruct (decide (slot' = slot)) as [->|Hne].
    + destruct (tab_slot _ _ _ T _ _ Hi') as (t' & Ht' & Hid'). rewrite list_lookup_insert_eq by done.
      exists (f t). split; [done|]. rewrite Ht in Ht'. injection Ht' as <-. congruence.
    + rewrite list_lookup_insert_ne by done. by apply T.
  - intros slot' Hs'. pose proof (tab_free _ _ _ T _ Hs') as Hn. rewrite list_lookup_insert_ne; [done|].
    intros <-. congruence.
  - apply T.
  - intros id'. unfold task at 1. cbn. case_decide as Hid'.
    + subst id'. by rewrite Hi, list_lookup_insert_eq.
    + unfold task. destruct (index s !! id') as [slot'|] eqn:Hi'; [|done].
      rewrite list_lookup_insert_ne; [done|]. intros <-. destruct (tab_slot _ _ _ T _ _ Hi') as (t' & Ht' & <-).
      congruence.
Qed.

(** Storing a new task reuses a free slot or appends one. *)
Lemma insert_task_spec s t :
  table_ok s -> task s (task_id t) = None ->
  exists ts fs ix, insert_task s t = with_table s ts fs ix /\ table_ok (with_table s ts fs ix) /\
    forall id, task (with_table s ts fs ix) id = if decide (id = task_id t) then Some t else task s id.
Proof.
  intros T Hn. pose proof (task_None _ _ T Hn) as Hni. unfold insert_task.
  set (choice := match list.last (free_slots s) with Some _ => _ | None => _ end).
  assert (Hc : let '(slot, ts, fs) := choice in
    ts !! slot = Some None /\ (slot ∉ fs) /\ NoDup fs /\ (forall x, x ∈ fs -> (ts !! x = Some None)) /\
    (forall x y, tasks s !! x = Some (Some y) -> ts !! x = Some (Some y) /\ x <> slot)).
  { unfold choice. destruct (list.last (free_slots s)) as [slot|] eqn:Hl.
    - apply last_Some in Hl as [fs Hl]. rewrite Hl. rewrite length_app. simpl.
      replace (pred (length fs + 1)) with (length fs) by lia. rewrite take_app_length.
      pose proof (tab_nodup _ _ _ T) as Hnd. rewrite Hl in Hnd. apply NoDup_app in Hnd as (Hnd & Hd & _).
      assert (Hin : forall x, x ∈ fs -> x ∈ free_slots s) by (rewrite Hl; set_solver).
      assert (Hslot : tasks s !! slot = Some None) by (apply T; rewrite Hl; set_solver).
      split_and!; try done; [by intros Hx; specialize (Hd _ Hx); set_solver|by intros x Hx; apply T, Hin|].
      intros x y Hx. split; [done|]. intros ->. congruence.
    - split_and!.
      + by rewrite lookup_app_r, Nat.sub_diag by lia.
      + intros Hx%(tab_free _ _ _ T)%lookup_lt_Some. lia.
      + apply T.
      + intros x Hx%(tab_free _ _ _ T). rewrite lookup_app_l; [done|]. by eapply lookup_lt_Some.
      + intros x y Hx. pose proof (lookup_lt_Some _ _ _ Hx). rewrite lookup_app_l by done. split; [done|lia]. }
  destruct choice as [[slot ts] fs]. destruct Hc as (C1 & C2 & C3 & C4 & C5).
  pose proof (lookup_lt_Some _ _ _ C1) as Hlt.
  exists (<[slot := Some t]> ts), fs, (<[task_id t := slot]> (index s)). split_and!; [done| |].
  - constructor; cbn; [| |done].
    + intros id sl. rewrite lookup_insert. case_decide as Hid.
      * intros [= <-]. exists t. by rewrite list_lookup_insert_eq.
      * intros Hi. destruct (tab_slot _ _ _ T _ _ Hi) as (t' & Ht' & Heq). destruct (C5 _ _ Ht') as [Ht2 Hne].
        exists t'. by rewrite list_lookup_insert_ne.
    + intros sl Hsl. rewrite list_lookup_insert_ne; [by apply C4|]. by intros <-.
  - intros id. unfold task at 1. cbn. rewrite lookup_insert. case_decide as Hid.
    + subst. rewrite decide_True by done. by rewrite list_lookup_insert_eq.
    + rewrite decide_False by done. unfold task. destruct (index s !! id) as [sl|] eqn:Hi; [|done].
      destruct (tab_slot _ _ _ T _ _ Hi) as (t' & Ht' & Heq). destruct (C5 _ _ Ht') as [Ht2 Hne].
      by rewrite list_lookup_insert_ne, Ht2, Ht' by done.
Qed.

(** ** The runnable set

    Stated on the fields it depends on, so that updates of the other fields
    (clock, statistics, policy, sleepers) keep it by conversion. [T] is the
    lookup [task s]. *)

Definition tw (T : Z -> option TaskControlBlock) id : Z :=
  match T id with Some t => weight (scheduler_entity t) | None => 0 end.
Definition twr (T : Z -> option TaskControlBlock) id : Z :=
  match T id with
  | Some t => weight (scheduler_entity t) * virtual_runtime (scheduler_entity t)
  | None => 0
  end.

(** Queued tasks and the running one, never the idle task. *)
Definition rset (rq : list Z) (cur idl : option Z) : list Z :=
  rq ++ match cur with Some c => if decide (idl = Some c) then [] else [c] | None => [] end.

(** [x] is a ready task that has not joined yet. *)
Record runnable_ok (T : Z -> option TaskControlBlock) (rq : list Z) (cur idl : option Z)
    (nxt sw swr avg : Z) (x : option Z) : Prop := {
  ro_next id t : T id = Some t -> id < nxt;
  ro_weight id t : T id = Some t -> 0 < weight (scheduler_entity t) /\ tstate t <> New;
  ro_nodup : NoDup rq;
  ro_queued id : id ∈ rq <->
    (exists t, T id = Some t /\ tstate t = Ready /\ is_idle t = false) /\ x <> Some id;
  ro_current id : cur = Some id <-> exists t, T id = Some t /\ tstate t = Running;
  ro_idle id : idl = Some id <-> exists t, T id = Some t /\ is_idle t = true;
  ro_idle_state id t : T id = Some t -> is_idle t = true -> tstate t = Ready \/ tstate t = Running;
  ro_sum_weight : sw = zsum (tw T) (rset rq cur idl);
  ro_sum_runtime : swr = zsum (twr T) (rset rq cur idl);
  ro_average : 0 < sw -> avg = Z.quot swr sw;
}.

Definition queue_ok s (x : option Z) : Prop :=
  table_ok s /\
  runnable_ok (task s) (run_queue s) (current s) (idle s) (next_task_id s) (sum_weight s)
    (sum_weighted_runtime s) (average s) x.

(** A table lookup that differs at [c] only. *)
Definition updated (T T' : Z -> option TaskControlBlock) (c : Z) (o : option TaskControlBlock) : Prop :=
  forall id, T' id = if decide (id = c) then o else T id.

Lemma updated_eq T T' c o : updated T T' c o -> T' c = o.
Proof. intros H. rewrite (H c). by rewrite decide_True. Qed.
Lemma updated_ne T T' c o id : updated T T' c o -> id <> c -> T' id = T id.
Proof. intros H Hne. rewrite (H id). by rewrite decide_False. Qed.

Section RunnableFacts.
Context (T : Z -> option TaskControlBlock) (rq : list Z) (cur idl : option Z) (nxt sw swr avg : Z).
Let R := runnable_ok T rq cur idl nxt sw swr avg.

Lemma rset_elem x id : R x -> id ∈ rset rq cur idl -> exists t, T id = Some t /\ is_idle t = false /\
  (tstate t = Ready \/ tstate t = Running).
Proof.
  intros HR. unfold rset. rewrite elem_of_app. intros [Hq|Hc].
  - apply (ro_queued _ _ _ _ _ _ _ _ _ HR) in Hq as [(u & ? & ? & ?) _]. eauto.
  - destruct cur as [k|] eqn:Hk; [|set_solver]. case_decide as Hd; [set_solver|].
    apply list_elem_of_singleton in Hc as ->.
    destruct (proj1 (ro_current _ _ _ _ _ _ _ _ _ HR k) eq_refl) as (u & Hu & Hs). exists u.
    split; [done|]. split; [|by right]. destruct (is_idle u) eqn:Hi; [|done].
    destruct Hd. apply (ro_idle _ _ _ _ _ _ _ _ _ HR). eauto.
Qed.

Lemma rset_nodup x : R x -> NoDup (rset rq cur idl).
Proof.
  intros HR. unfold rset. apply NoDup_app. split_and!; [apply HR| |].
  - intros id Hq Hc. apply (ro_queued _ _ _ _ _ _ _ _ _ HR) in Hq as [(u & Hu & Hs & _) _].
    destruct cur as [k|] eqn:Hk; [|set_solver]. case_decide as Hd; [set_solver|].
    apply list_elem_of_singleton in Hc as ->.
    destruct (proj1 (ro_current _ _ _ _ _ _ _ _ _ HR k) eq_refl) as (v & Hv & Hs'). congruence.
  - destruct cur; [|constructor]. case_decide; [constructor|apply NoDup_singleton].
Qed.

End RunnableFacts.

Section RunnableSet.
Context (T T' : Z -> option TaskControlBlock) (rq : list Z) (cur idl : option Z) (nxt sw swr avg : Z).
Context (c : Z) (t t' : TaskControlBlock) (HT : updated T T' c (Some t')).
Let R := runnable_ok T rq cur idl nxt sw swr avg.

Lemma upd_cases id u : T' id = Some u -> (id = c /\ u = t') \/ (id <> c /\ T id = Some u).
Proof. rewrite (HT id). case_decide; naive_solver. Qed.
Lemma upd_other id : id <> c -> T' id = T id.
Proof. by apply updated_ne with (o := Some t'). Qed.
Lemma upd_self : T' c = Some t'.
Proof. by apply updated_eq with (T := T). Qed.

(** An existential over the updated table. *)
Lemma upd_exists (P : TaskControlBlock -> Prop) id :
  (exists u, T' id = Some u /\ P u) <-> (id = c /\ P t') \/ (id <> c /\ exists u, T id = Some u /\ P u).
Proof.
  rewrite (HT id). case_decide as Hd; [|naive_solver]. split; [|naive_solver].
  intros (u & [= <-] & Hu). by left.
Qed.

Lemma zsum_tw_other (l : list Z) : c ∉ l -> zsum (tw T') l = zsum (tw T) l /\ zsum (twr T') l = zsum (twr T) l.
Proof.
  intros Hc. split; apply zsum_ext; intros x Hx; unfold tw, twr; rewrite upd_other; done || set_solver.
Qed.

(** Changing a task's entity, not its state. *)
Lemma run_update x dw dr avg' :
  R x -> T c = Some t -> tstate t' = tstate t -> is_idle t' = is_idle t ->
  0 < weight (scheduler_entity t') ->
  dw = (if decide (c ∈ rset rq cur idl) then tw T' c - tw T c else 0) ->
  dr = (if decide (c ∈ rset rq cur idl) then twr T' c - twr T c else 0) ->
  (0 < sw + dw -> avg' = Z.quot (swr + dr) (sw + dw)) ->
  runnable_ok T' rq cur idl nxt (sw + dw) (swr + dr) avg' x.
Proof.
  intros HR Ht Hs Hi Hw Hdw Hdr Ha. pose proof (rset_nodup _ _ _ _ _ _ _ _ x HR) as Hnd. destruct HR. constructor; try done.
  - intros id u [[-> ->]|[_ Hu]]%upd_cases; eauto.
  - intros id u [[-> ->]|[_ Hu]]%upd_cases; [|eauto]. split; [done|]. rewrite Hs. by eapply ro_weight0.
  - intros id. rewrite ro_queued0. rewrite upd_exists. rewrite Hs, Hi.
    destruct (decide (id = c)) as [->|]; naive_solver.
  - intros id. rewrite ro_current0. rewrite upd_exists. rewrite Hs.
    destruct (decide (id = c)) as [->|]; naive_solver.
  - intros id. rewrite ro_idle0. rewrite upd_exists. rewrite Hi.
    destruct (decide (id = c)) as [->|]; naive_solver.
  - intros id u [[-> ->]|[_ Hu]]%upd_cases; [|eauto]. rewrite Hs, Hi. eauto.
  - subst dw. rewrite ro_sum_weight0. case_decide as Hin.
    + symmetry. apply zsum_update; [done|done|]. intros y Hy. unfold tw. by rewrite upd_other.
    + rewrite (proj1 (zsum_tw_other _ Hin)). lia.
  - subst dr. rewrite ro_sum_runtime0. case_decide as Hin.
    + symmetry. apply zsum_update; [done|done|]. intros y Hy. unfold twr. by rewrite upd_other.
    + rewrite (proj2 (zsum_tw_other _ Hin)). lia.
Qed.

(** A change that does not touch weight, runtime or state. *)
Lemma run_same x :
  R x -> T c = Some t -> tstate t' = tstate t -> is_idle t' = is_idle t ->
  weight (scheduler_entity t') = weight (scheduler_entity t) ->
  virtual_runtime (scheduler_entity t') = virtual_runtime (scheduler_entity t) ->
  runnable_ok T' rq cur idl nxt sw swr avg x.
Proof.
  intros HR Ht Hs Hi Hw Hv.
  rewrite <- (Z.add_0_r sw), <- (Z.add_0_r swr). apply run_update; try done.
  - rewrite Hw. by eapply HR.
  - unfold tw. rewrite upd_self, Ht, Hw, Z.sub_diag. by case_decide.
  - unfold twr. rewrite upd_self, Ht, Hw, Hv, Z.sub_diag. by case_decide.
  - rewrite !Z.add_0_r. apply HR.
Qed.

(** A blocked task becomes ready; a new one arrives. *)
Lemma run_arrive nxt' :
  R None -> (forall u, T c = Some u -> tstate u = Blocked) -> (T c = None -> nxt <= c) -> nxt <= nxt' -> c < nxt' ->
  tstate t' = Ready -> is_idle t' = false -> 0 < weight (scheduler_entity t') ->
  runnable_ok T' rq cur idl nxt' sw swr avg (Some c).
Proof.
  intros HR Hb Hn Hle Hlt Hs Hi Hw.
  assert (Hc : c ∉ rset rq cur idl).
  { intros (u & Hu & _ & Hst)%(rset_elem _ _ _ _ _ _ _ _ None _ HR). rewrite (Hb _ Hu) in Hst. naive_solver. }
  assert (Hni : forall u, T c = Some u -> is_idle u = false).
  { intros u Hu. destruct (is_idle u) eqn:Hiu; [|done].
    destruct (ro_idle_state _ _ _ _ _ _ _ _ _ HR _ _ Hu Hiu); rewrite (Hb _ Hu) in *; done. }
  destruct HR. constructor; try done.
  - intros id u [[-> ->]|[_ Hu]]%upd_cases; [lia|]. specialize (ro_next0 _ _ Hu). lia.
  - intros id u [[-> ->]|[_ Hu]]%upd_cases; [|eauto]. by rewrite Hs.
  - intros id. rewrite ro_queued0, upd_exists. destruct (decide (id = c)) as [->|]; [|naive_solver].
    split; [|naive_solver]. intros [(u & Hu & Hst & _) _]. rewrite (Hb _ Hu) in Hst. done.
  - intros id. rewrite ro_current0, upd_exists. destruct (decide (id = c)) as [->|]; [|naive_solver].
    split; [|rewrite Hs; naive_solver]. intros (u & Hu & Hst). rewrite (Hb _ Hu) in Hst. done.
  - intros id. rewrite ro_idle0, upd_exists. destruct (decide (id = c)) as [->|]; [|naive_solver].
    split; [|rewrite Hi; naive_solver]. intros (u & Hu & Hst). rewrite (Hni _ Hu) in Hst. done.
  - intros id u [[-> ->]|[_ Hu]]%upd_cases; [naive_solver|eauto].
  - by rewrite (proj1 (zsum_tw_other _ Hc)).
  - by rewrite (proj2 (zsum_tw_other _ Hc)).
Qed.

(** The pending task is placed and queued. *)
Lemma run_join avg' :
  R (Some c) -> T c = Some t -> tstate t' = tstate t -> is_idle t' = is_idle t ->
  0 < weight (scheduler_entity t') -> tstate t = Ready -> is_idle t = false ->
  (0 < sw + tw T' c -> avg' = Z.quot (swr + twr T' c) (sw + tw T' c)) ->
  runnable_ok T' (rq ++ [c]) cur idl nxt (sw + tw T' c) (swr + twr T' c) avg' None.
Proof.
  intros HR Ht Hs Hi Hw Hst Hid Ha.
  assert (Hq : c ∉ rq) by (intros [_ Hx]%(ro_queued _ _ _ _ _ _ _ _ _ HR); done).
  assert (Hc : c ∉ rset rq cur idl).
  { unfold rset. rewrite elem_of_app. intros [?|Hx]; [done|]. destruct cur as [k|] eqn:Hk; [|set_solver].
    case_decide; [set_solver|]. apply list_elem_of_singleton in Hx as ->.
    destruct (proj1 (ro_current _ _ _ _ _ _ _ _ _ HR k) eq_refl) as (u & Hu & ?). congruence. }
  assert (Hp : rset (rq ++ [c]) cur idl ≡ₚ c :: rset rq cur idl) by (unfold rset; solve_Permutation).
  destruct HR. constructor; try done.
  - intros id u [[-> ->]|[_ Hu]]%upd_cases; eauto.
  - intros id u [[-> ->]|[_ Hu]]%upd_cases; [|eauto]. by rewrite Hs, Hst.
  - apply NoDup_app. split_and!; [done| |apply NoDup_singleton]. intros k Hk ->%list_elem_of_singleton. done.
  - intros id. rewrite elem_of_app, ro_queued0, list_elem_of_singleton, upd_exists.
    destruct (decide (id = c)) as [->|]; [|naive_solver]. rewrite Hs, Hi, Hst, Hid. naive_solver.
  - intros id. rewrite ro_current0, upd_exists, Hs. destruct (decide (id = c)) as [->|]; naive_solver.
  - intros id. rewrite ro_idle0, upd_exists, Hi. destruct (decide (id = c)) as [->|]; naive_solver.
  - intros id u [[-> ->]|[_ Hu]]%upd_cases; [|eauto]. rewrite Hs, Hi. eauto.
  - rewrite (zsum_perm _ _ _ Hp). simpl. rewrite (proj1 (zsum_tw_other _ Hc)). lia.
  - rewrite (zsum_perm _ _ _ Hp). simpl. rewrite (proj2 (zsum_tw_other _ Hc)). lia.
Qed.

(** The running task goes back to the queue; the idle task just stops. *)
Lemma run_yield :
  R None -> cur = Some c -> T c = Some t -> tstate t' = Ready -> is_idle t' = is_idle t ->
  weight (scheduler_entity t') = weight (scheduler_entity t) ->
  virtual_runtime (scheduler_entity t') = virtual_runtime (scheduler_entity t) ->
  runnable_ok T' (if is_idle t then rq else rq ++ [c]) None idl nxt sw swr avg None.
Proof.
  intros HR Hc Ht Hs Hi Hw Hv.
  assert (Hrun : tstate t = Running).
  { destruct (proj1 (ro_current _ _ _ _ _ _ _ _ _ HR c) Hc) as (u & Hu & ?). congruence. }
  assert (Hq : c ∉ rq) by (intros [(u & Hu & ? & _) Hx]%(ro_queued _ _ _ _ _ _ _ _ _ HR); congruence).
  assert (Hidl : idl = Some c <-> is_idle t = true).
  { rewrite (ro_idle _ _ _ _ _ _ _ _ _ HR). naive_solver. }
  assert (Hrs : rset (if is_idle t then rq else rq ++ [c]) None idl = rset rq cur idl).
  { unfold rset. rewrite Hc. rewrite app_nil_r. destruct (is_idle t).
    - rewrite decide_True by (by apply Hidl). by rewrite app_nil_r.
    - rewrite decide_False; [done|]. intros ?%Hidl. done. }
  assert (Htw : forall id, tw T' id = tw T id).
  { intros id. unfold tw. rewrite (HT id). case_decide; [subst; by rewrite Ht, Hw|done]. }
  assert (Htwr : forall id, twr T' id = twr T id).
  { intros id. unfold twr. rewrite (HT id). case_decide; [subst; by rewrite Ht, Hw, Hv|done]. }
  destruct HR. constructor; try done.
  - intros id u [[-> ->]|[_ Hu]]%upd_cases; eauto.
  - intros id u [[-> ->]|[_ Hu]]%upd_cases; [|eauto]. rewrite Hw, Hs. split; [by eapply ro_weight0|done].
  - destruct (is_idle t); [done|]. apply NoDup_app. split_and!; [done| |apply NoDup_singleton].
    intros k Hk ->%list_elem_of_singleton. done.
  - intros id. rewrite upd_exists, Hs, Hi. destruct (decide (id = c)) as [->|].
    + destruct (is_idle t); [naive_solver|]. rewrite elem_of_app, list_elem_of_singleton. naive_solver.
    + destruct (is_idle t); [|rewrite elem_of_app, list_elem_of_singleton]; rewrite ro_queued0; naive_solver.
  - intros id. rewrite upd_exists, Hs. split; [done|]. intros [[_ ?]|[Hne Hu]]; [done|].
    apply ro_current0 in Hu. congruence.
  - intros id. rewrite ro_idle0, upd_exists, Hi. destruct (decide (id = c)) as [->|]; naive_solver.
  - intros id u [[-> ->]|[_ Hu]]%upd_cases; [|eauto]. by left.
  - rewrite Hrs. rewrite ro_sum_weight0. by apply zsum_ext.
  - rewrite Hrs. rewrite ro_sum_runtime0. by apply zsum_ext.
Qed.

(** The running task leaves the runnable set. *)
Lemma run_stop avg' :
  R None -> cur = Some c -> T c = Some t -> is_idle t = false -> is_idle t' = false ->
  tstate t' = Blocked \/ tstate t' = Exited -> 0 < weight (scheduler_entity t') ->
  (0 < sw - tw T c -> avg' = Z.quot (swr - twr T c) (sw - tw T c)) ->
  runnable_ok T' rq None idl nxt (sw - tw T c) (swr - twr T c) avg' None.
Proof.
  intros HR Hc Ht Hi Hi' Hs Hw Ha.
  assert (Hrun : tstate t = Running).
  { destruct (proj1 (ro_current _ _ _ _ _ _ _ _ _ HR c) Hc) as (u & Hu & ?). congruence. }
  assert (Hq : c ∉ rq) by (intros [(u & Hu & ? & _) Hx]%(ro_queued _ _ _ _ _ _ _ _ _ HR); congruence).
  assert (Hidl : idl <> Some c).
  { rewrite (ro_idle _ _ _ _ _ _ _ _ _ HR). intros (u & Hu & ?). congruence. }
  assert (Hrs : rset rq cur idl = rset rq None idl ++ [c]).
  { unfold rset. rewrite Hc, decide_False by done. by rewrite app_nil_r. }
  assert (Hcr : c ∉ rset rq None idl) by (unfold rset; by rewrite app_nil_r).
  destruct HR. constructor; try done.
  - intros id u [[-> ->]|[_ Hu]]%upd_cases; eauto.
  - intros id u [[-> ->]|[_ Hu]]%upd_cases; [|eauto]. split; [done|]. destruct Hs as [-> | ->]; done.
  - intros id. rewrite upd_exists, ro_queued0. destruct (decide (id = c)) as [->|]; [|naive_solver].
    split; [naive_solver|]. intros [[(_ & Hr & _)|[? _]] _]; [|done]. rewrite Hr in Hs. naive_solver.
  - intros id. rewrite upd_exists. split; [done|]. intros [[_ Hr]|[Hne Hu]].
    + rewrite Hr in Hs. naive_solver.
    + apply ro_current0 in Hu. congruence.
  - intros id. rewrite ro_idle0, upd_exists, Hi'. destruct (decide (id = c)) as [->|]; naive_solver.
  - intros id u [[-> ->]|[_ Hu]]%upd_cases; [congruence|eauto].
  - rewrite ro_sum_weight0, Hrs, zsum_app, (proj1 (zsum_tw_other _ Hcr)). simpl. lia.
  - rewrite ro_sum_runtime0, Hrs, zsum_app, (proj2 (zsum_tw_other _ Hcr)). simpl. lia.
Qed.

(** A queued task, or the idle task when none is queued, is dispatched. *)
Lemma run_dispatch rq' :
  R None -> cur = None -> T c = Some t -> tstate t = Ready -> tstate t' = Running ->
  is_idle t' = is_idle t -> scheduler_entity t' = scheduler_entity t ->
  (if is_idle t then rq' = rq else c :: rq' ≡ₚ rq) ->
  runnable_ok T' rq' (Some c) idl nxt sw swr avg None.
Proof.
  intros HR Hc Ht Hs Hs' Hi He Hrq.
  assert (Hidl : idl = Some c <-> is_idle t = true).
  { rewrite (ro_idle _ _ _ _ _ _ _ _ _ HR). naive_solver. }
  assert (Hrs : rset rq' (Some c) idl ≡ₚ rset rq cur idl).
  { unfold rset. rewrite Hc, app_nil_r. destruct (is_idle t).
    - rewrite decide_True by (by apply Hidl). by rewrite Hrq, app_nil_r.
    - rewrite decide_False by (intros ?%Hidl; done). rewrite <- Hrq. solve_Permutation. }
  assert (Hnq : NoDup rq' /\ (c ∉ rq') /\ forall id, id <> c -> id ∈ rq' <-> id ∈ rq).
  { destruct (is_idle t) eqn:Hit.
    - subst rq'. split_and!; [apply HR| |done].
      intros [(u & Hu & _ & ?) _]%(ro_queued _ _ _ _ _ _ _ _ _ HR). congruence.
    - pose proof (ro_nodup _ _ _ _ _ _ _ _ _ HR) as Hnd. rewrite <- Hrq in Hnd.
      apply NoDup_cons in Hnd as [? ?]. split_and!; try done. intros id Hne. rewrite <- Hrq, elem_of_cons.
      naive_solver. }
  destruct Hnq as (Hnd' & Hcn & Hin).
  assert (Htw : forall id, tw T' id = tw T id).
  { intros id. unfold tw. rewrite (HT id). case_decide; [subst; by rewrite Ht, He|done]. }
  assert (Htwr : forall id, twr T' id = twr T id).
  { intros id. unfold twr. rewrite (HT id). case_decide; [subst; by rewrite Ht, He|done]. }
  destruct HR. constructor; try done.
  - intros id u [[-> ->]|[_ Hu]]%upd_cases; eauto.
  - intros id u [[-> ->]|[_ Hu]]%upd_cases; [|eauto]. rewrite He, Hs'. split; [by eapply ro_weight0|done].
  - intros id. rewrite upd_exists, Hs', Hi. destruct (decide (id = c)) as [->|]; [naive_solver|].
    rewrite Hin, ro_queued0 by done. naive_solver.
  - intros id. rewrite upd_exists, Hs'. split; [naive_solver|]. intros [[-> _]|[Hne Hu]]; [done|].
    apply ro_current0 in Hu. congruence.
  - intros id. rewrite ro_idle0, upd_exists, Hi. destruct (decide (id = c)) as [->|]; naive_solver.
  - intros id u [[-> ->]|[_ Hu]]%upd_cases; [|eauto]. by right.
  - rewrite (zsum_perm _ _ _ Hrs), ro_sum_weight0. by apply zsum_ext.
  - rewrite (zsum_perm _ _ _ Hrs), ro_sum_runtime0. by apply zsum_ext.
Qed.

(** The idle task arrives; it is never queued. *)
Lemma run_new_idle nxt' :
  R None -> T c = None -> idl = None -> nxt <= nxt' -> c < nxt' ->
  tstate t' = Ready -> is_idle t' = true -> 0 < weight (scheduler_entity t') ->
  runnable_ok T' rq cur (Some c) nxt' sw swr avg None.
Proof.
  intros HR Hn Hidl Hle Hlt Hs Hi Hw.
  assert (Hcur : cur <> Some c) by (rewrite (ro_current _ _ _ _ _ _ _ _ _ HR); naive_solver).
  assert (Hq : c ∉ rq) by (intros [(u & Hu & _) _]%(ro_queued _ _ _ _ _ _ _ _ _ HR); congruence).
  assert (Hrs : rset rq cur (Some c) = rset rq cur idl).
  { unfold rset. destruct cur as [k|]; [|done]. rewrite Hidl. rewrite !decide_False by congruence. done. }
  assert (Hc : c ∉ rset rq cur idl).
  { intros (u & Hu & _ & Hst)%(rset_elem _ _ _ _ _ _ _ _ None _ HR). congruence. }
  destruct HR. constructor; try done.
  - intros id u [[-> ->]|[_ Hu]]%upd_cases; [lia|]. specialize (ro_next0 _ _ Hu). lia.
  - intros id u [[-> ->]|[_ Hu]]%upd_cases; [|eauto]. by rewrite Hs.
  - intros id. rewrite ro_queued0, upd_exists. destruct (decide (id = c)) as [->|]; [rewrite Hi, Hn; naive_solver|naive_solver].
  - intros id. rewrite ro_current0, upd_exists. destruct (decide (id = c)) as [->|]; [|naive_solver].
    rewrite Hs. naive_solver.
  - intros id. rewrite upd_exists, Hi. split; [naive_solver|]. intros [[-> _]|[Hne Hu]]; [done|].
    apply ro_idle0 in Hu. congruence.
  - intros id u [[-> ->]|[_ Hu]]%upd_cases; [by left|eauto].
  - by rewrite Hrs, (proj1 (zsum_tw_other _ Hc)).
  - by rewrite Hrs, (proj2 (zsum_tw_other _ Hc)).
Qed.

End RunnableSet.

(** An exited task is removed from the table. *)
Lemma run_remove T T' rq cur idl nxt sw swr avg c t :
  runnable_ok T rq cur idl nxt sw swr avg None -> updated T T' c None -> T c = Some t -> tstate t = Exited ->
  runnable_ok T' rq cur idl nxt sw swr avg None.
Proof.
  intros HR HT Ht Hs.
  assert (Hc : c ∉ rset rq cur idl).
  { intros (u & Hu & _ & Hst)%(rset_elem _ _ _ _ _ _ _ _ None _ HR). destruct Hst; congruence. }
  assert (Hex : forall P : TaskControlBlock -> Prop, ~ P t ->
    forall id, (exists u, T' id = Some u /\ P u) <-> exists u, T id = Some u /\ P u).
  { intros P HP id. rewrite (HT id). case_decide as Hd; [subst|done].
    split; [by intros (? & ? & _)|]. intros (u & Hu & HPu). rewrite Ht in Hu. injection Hu as <-. done. }
  assert (Hsub : forall id u, T' id = Some u -> T id = Some u).
  { intros id u. rewrite (HT id). by case_decide. }
  assert (Hz : forall x, x ∈ rset rq cur idl -> T' x = T x).
  { intros x Hx. apply (updated_ne _ _ _ _ _ HT). by intros ->. }
  destruct HR. constructor; try done.
  - eauto.
  - eauto.
  - intros id. rewrite ro_queued0. rewrite (Hex (fun u => tstate u = Ready /\ is_idle u = false)); [done|].
    intros [? _]. congruence.
  - intros id. rewrite ro_current0. rewrite (Hex (fun u => tstate u = Running)); [done|congruence].
  - intros id. rewrite ro_idle0. rewrite (Hex (fun u => is_idle u = true)); [done|].
    intros Hi. destruct (ro_idle_state0 _ _ Ht Hi); congruence.
  - eauto.
  - rewrite ro_sum_weight0. apply zsum_ext. intros x Hx. unfold tw. by rewrite Hz.
  - rewrite ro_sum_runtime0. apply zsum_ext. intros x Hx. unfold twr. by rewrite Hz.
Qed.

(** * Which task runs next

    [pick_next] of [kernel/src/task/scheduler.rs]: the scan over the run queue
    finds the eligible task with the least key, and against a weighted average
    some queued task is always eligible. *)

(** ** The lexicographic order on keys *)

Lemma key_lt_iff a b : key_lt a b = true <-> a.1 < b.1 \/ (a.1 = b.1 /\ a.2 < b.2).
Proof. unfold key_lt. lia. Qed.
Lemma key_lt_false a b : key_lt a b = false <-> b.1 < a.1 \/ (a.1 = b.1 /\ b.2 <= a.2).
Proof. unfold key_lt. lia. Qed.

(** ** The scan *)

Definition scan_step (el : Z -> bool) (key : Z -> Z * Z) (best : option (nat * (Z * Z))) (i : nat) id :=
  if el id && is_none_or best (fun b => key_lt (key id) b.2) then Some (i, key id) else best.
Fixpoint scan el key best (i : nat) (l : list Z) :=
  match l with
  | [] => best
  | id :: l => scan el key (scan_step el key best i id) (S i) l
  end.

Definition scan_ok (el : Z -> bool) (key : Z -> Z * Z) (l : list Z) (r : option (nat * (Z * Z))) : Prop :=
  match r with
  | None => forall id, id ∈ l -> el id = false
  | Some (j, k) => exists id, l !! j = Some id /\ el id = true /\ k = key id /\
      forall id', id' ∈ l -> el id' = true -> key_lt (key id') (key id) = false
  end.

Lemma scan_step_ok el key pre best id :
  scan_ok el key pre best -> scan_ok el key (pre ++ [id]) (scan_step el key best (length pre) id).
Proof.
  intros Hb. unfold scan_step. destruct (el id) eqn:He; simpl.
  2: { destruct best as [[j k]|]; simpl in *.
       - destruct Hb as (b & Hj & Hel & Hk & Hmin). exists b. split_and!; try done.
         + by apply lookup_app_l_Some.
         + intros x [Hx| ->%list_elem_of_singleton]%elem_of_app; [by apply Hmin|congruence].
       - intros x [Hx| ->%list_elem_of_singleton]%elem_of_app; [by apply Hb|done]. }
  assert (Hhere : (pre ++ [id]) !! length pre = Some id) by (by rewrite lookup_app_r, Nat.sub_diag by lia).
  destruct best as [[j k]|]; simpl in *.
  - destruct Hb as (b & Hj & Hel & -> & Hmin). destruct (key_lt (key id) (key b)) eqn:Hlt.
    + exists id. split_and!; try done. intros x [Hx| ->%list_elem_of_singleton]%elem_of_app Hex.
      * specialize (Hmin _ Hx Hex). apply key_lt_iff in Hlt. rewrite key_lt_false in *. lia.
      * apply key_lt_false. lia.
    + exists b. split_and!; try done; [by apply lookup_app_l_Some|].
      intros x [Hx| ->%list_elem_of_singleton]%elem_of_app Hex; [by apply Hmin|done].
  - exists id. split_and!; try done. intros x [Hx| ->%list_elem_of_singleton]%elem_of_app Hex.
    + rewrite Hb in Hex; done.
    + apply key_lt_false. lia.
Qed.

Lemma scan_spec el key l : scan_ok el key l (scan el key None 0 l).
Proof.
  assert (H : forall l pre best, scan_ok el key pre best ->
    scan_ok el key (pre ++ l) (scan el key best (length pre) l)).
  { clear l. induction l as [|id l IH]; intros pre best Hb; simpl; [by rewrite app_nil_r|].
    pose proof (IH (pre ++ [id]) _ (scan_step_ok _ _ _ _ id Hb)) as Hr.
    rewrite <- app_assoc, length_app, Nat.add_1_r in Hr. exact Hr. }
  apply (H l [] None). simpl. set_solver.
Qed.

(** The two scans of the loop. *)
Definition picked_el s id : bool := match task s id with Some t => pick_eligible s t | None => false end.
Definition picked_key s id : Z * Z := match task s id with Some t => pick_key s t id | None => (0, 0) end.
Definition present s id : bool := match task s id with Some _ => true | None => false end.
Definition runtime_key s id : Z * Z :=
  match task s id with Some t => (virtual_runtime (scheduler_entity t), id) | None => (0, 0) end.

Lemma pick_loop_scan s l : forall b f i,
  pick_loop s (b, f) i l = (scan (picked_el s) (picked_key s) b i l, scan (present s) (runtime_key s) f i l).
Proof.
  induction l as [|id l IH]; intros b f i; simpl; [done|].
  rewrite <- IH. f_equal. unfold scan_step, picked_el, picked_key, present, runtime_key.
  by destruct (task s id).
Qed.

Lemma swap_remove_perm l i x : l !! i = Some x -> x :: swap_remove l i ≡ₚ l.
Proof.
  intros Hi. unfold swap_remove. destruct (list.last l) as [y|] eqn:Hl.
  2: { apply last_None in Hl as ->. done. }
  apply last_Some in Hl as [k ->]. rewrite length_app. simpl.
  replace (pred (length k + 1)) with (length k) by lia.
  destruct (decide (i = length k)) as [->|Hne].
  - rewrite lookup_app_r, Nat.sub_diag in Hi by lia. simpl in Hi. injection Hi as <-.
    rewrite insert_app_r_alt by lia. rewrite take_app_length. solve_Permutation.
  - assert (i < length k)%nat.
    { apply lookup_lt_Some in Hi. rewrite length_app in Hi. simpl in Hi. lia. }
    rewrite lookup_app_l in Hi by done. rewrite insert_app_l by done.
    rewrite take_app_length' by (by rewrite length_insert).
    apply list_elem_of_split_length in Hi as (a & b & -> & ->).
    rewrite insert_app_r_alt, Nat.sub_diag by lia. simpl. solve_Permutation.
Qed.

(** ** Someone is always eligible *)

Lemma quot_lt_succ a b : 0 < b -> a < b * (Z.quot a b + 1).
Proof. intros Hb. pose proof (Z.quot_rem a b ltac:(lia)). pose proof (Z.rem_bound_abs a b ltac:(lia)). lia. Qed.

Lemma zsum_weighted_gt T l m :
  (forall id, id ∈ l -> exists t, T id = Some t /\ 0 < weight (scheduler_entity t) /\
     m < virtual_runtime (scheduler_entity t)) ->
  (m + 1) * zsum (tw T) l <= zsum (twr T) l.
Proof.
  induction l as [|id l IH]; intros H; simpl; [lia|].
  destruct (H id) as (t & Ht & Hw & Hv); [by left|]. specialize (IH (fun x Hx => H x (list_elem_of_further _ _ _ Hx))).
  unfold tw at 1, twr at 1. rewrite Ht. nia.
Qed.

(** With no task running, the queue is the whole runnable set. *)
Lemma some_eligible s :
  queue_ok s None -> current s = None -> run_queue s <> [] ->
  exists id t, id ∈ run_queue s /\ task s id = Some t /\ is_eligible (scheduler_entity t) (average s) = true.
Proof.
  intros [_ HR] Hc Hq.
  assert (Hrs : rset (run_queue s) (current s) (idle s) = run_queue s) by (unfold rset; rewrite Hc; apply app_nil_r).
  assert (Hpres : forall id, id ∈ run_queue s -> exists t, task s id = Some t /\ 0 < weight (scheduler_entity t)).
  { intros id [(t & Ht & _) _]%(ro_queued _ _ _ _ _ _ _ _ _ HR). exists t. split; [done|].
    by apply (ro_weight _ _ _ _ _ _ _ _ _ HR _ _ Ht). }
  destruct (existsb (fun id => match task s id with
    Some t => is_eligible (scheduler_entity t) (average s) | None => false end) (run_queue s)) eqn:He.
  - apply existsb_true_exists in He as (id & Hid & He). destruct (task s id) as [t|] eqn:Ht; [|done]. eauto.
  - exfalso. rewrite existsb_false_forall in He.
    assert (Hgt : (average s + 1) * zsum (tw (task s)) (run_queue s) <= zsum (twr (task s)) (run_queue s)).
    { apply zsum_weighted_gt. intros id Hid. destruct (Hpres _ Hid) as (t & Ht & Hw). exists t.
      split_and!; [done|done|]. specialize (He _ Hid). rewrite Ht in He. unfold is_eligible in He. lia. }
    pose proof (ro_sum_weight _ _ _ _ _ _ _ _ _ HR) as Hw. pose proof (ro_sum_runtime _ _ _ _ _ _ _ _ _ HR) as Hr.
    rewrite Hrs in Hw, Hr. rewrite <- Hw, <- Hr in Hgt.
    assert (Hpos : 0 < sum_weight s).
    { rewrite Hw. apply zsum_nonneg; [|done]. intros id Hid. destruct (Hpres _ Hid) as (t & Ht & ?).
      unfold tw. by rewrite Ht. }
    pose proof (ro_average _ _ _ _ _ _ _ _ _ HR Hpos) as Ha.
    pose proof (quot_lt_succ (sum_weighted_runtime s) (sum_weight s) Hpos). nia.
Qed.

(** What [pick_next] returns. *)
Definition chosen s id t : Prop :=
  id ∈ run_queue s /\ task s id = Some t /\ pick_eligible s t = true /\
  forall id' t', id' ∈ run_queue s -> task s id' = Some t' -> pick_eligible s t' = true ->
    key_lt (pick_key s t' id') (pick_key s t id) = false.

Lemma pick_next_spec s :
  queue_ok s None -> current s = None ->
  if decide (run_queue s = []) then pick_next s = (idle s, s)
  else exists id t rq', chosen s id t /\ id :: rq' ≡ₚ run_queue s /\
         pick_next s = (Some id, with_run_queue s rq').
Proof.
  intros HQ Hc. unfold pick_next. case_decide as Hq; [by rewrite Hq|].
  destruct (some_eligible s HQ Hc Hq) as (e & te & He & Hte & Hel).
  rewrite pick_loop_scan. pose proof (scan_spec (picked_el s) (picked_key s) (run_queue s)) as Hs.
  destruct (scan (picked_el s) (picked_key s) None 0 (run_queue s)) as [[j k]|] eqn:Hscan.
  2: { specialize (Hs _ He). unfold picked_el in Hs. rewrite Hte in Hs. unfold pick_eligible in Hs.
       rewrite Hel, orb_true_r in Hs. done. }
  destruct Hs as (id & Hj & Hpe & -> & Hmin). unfold picked_el in Hpe. destruct (task s id) as [t|] eqn:Ht; [|done].
  exists id, t, (swap_remove (run_queue s) j). split_and!.
  - split_and!; try done; [by eapply list_elem_of_lookup_2|]. intros id' t' Hid' Ht' He'. specialize (Hmin _ Hid').
    unfold picked_el, picked_key in Hmin. rewrite Ht, Ht' in Hmin. by apply Hmin.
  - by apply swap_remove_perm.
  - rewrite Hj. by destruct (run_queue s).
Qed.

(** * The scheduler's operations keep its invariant

    The internal steps of [kernel/src/task/scheduler.rs] ([charge], [join],
    [leave], [stop_current], [switch_to_next], [make_ready]) and the public
    operations, each with what it does to the task table. *)

Implicit Types (c now : Z).

(** ** Tasks that are not runnable

    Exited tasks wait in the exit queue; every sleeping task has an entry in
    the sorted list of sleepers. Entries of tasks woken early stay behind. *)

Definition parked (T : Z -> option TaskControlBlock) id : option (TaskState * option BlockReason) :=
  match T id with
  | Some t => match tstate t with
              | Blocked | Exited => Some (tstate t, block_reason t)
              | _ => None
              end
  | None => None
  end.

Record parked_ok (P : Z -> option (TaskState * option BlockReason)) (eq : list Z) (sl : list (Z * Z)) : Prop := {
  po_nodup : NoDup eq;
  po_exit id : id ∈ eq <-> exists r, P id = Some (Exited, r);
  po_sorted : StronglySorted (fun a b => key_lt a b = false) sl;
  po_sleep id d : P id = Some (Blocked, Some (SleepUntil d)) -> (d, id) ∈ sl;
}.

Definition sched_ok s : Prop :=
  queue_ok s None /\ parked_ok (parked (task s)) (exit_queue s) (sleepers s).

Lemma parked_ok_ext P P' eq sl : (forall id, P' id = P id) -> parked_ok P eq sl -> parked_ok P' eq sl.
Proof.
  intros HP []. constructor; try done.
  - intros id. by rewrite HP.
  - intros id d. rewrite HP. auto.
Qed.

(** What the operations below leave alone. *)
Record kept s s' : Prop := {
  kp_exit : exit_queue s' = exit_queue s;
  kp_sleepers : sleepers s' = sleepers s;
  kp_idle : idle s' = idle s;
  kp_next : next_task_id s' = next_task_id s;
  kp_policy : policy s' = policy s;
}.

(** The control state of a task, as opposed to its scheduling entity. *)
Definition same_control (t t' : TaskControlBlock) : Prop :=
  task_id t' = task_id t /\ tstate t' = tstate t /\ block_reason t' = block_reason t /\
  wait_link t' = wait_link t /\ is_idle t' = is_idle t /\ exit_status t' = exit_status t.

Lemma kept_refl s : kept s s.
Proof. by constructor. Qed.
Lemma kept_trans s1 s2 s3 : kept s1 s2 -> kept s2 s3 -> kept s1 s3.
Proof. intros [] []. constructor; congruence. Qed.

Lemma task_mut_ts s c f t :
  table_ok s -> task s c = Some t -> task_id (f t) = task_id t ->
  exists ts, task_mut s c f = with_tasks s ts /\ table_ok (with_tasks s ts) /\
    updated (task s) (task (with_tasks s ts)) c (Some (f t)).
Proof. intros HT Ht Hf. apply task_mut_form; [done|done|]. rewrite Hf. by eapply task_id_eq. Qed.

Lemma updated_trans T1 T2 T3 c o o' : updated T1 T2 c o -> updated T2 T3 c o' -> updated T1 T3 c o'.
Proof. intros H1 H2 id. rewrite (H2 id). case_decide; [done|]. by apply (updated_ne _ _ _ _ _ H1). Qed.

Lemma updated_parked T T' c t' id :
  updated T T' c (Some t') -> parked T' id = if decide (id = c) then parked (fun _ => Some t') c else parked T id.
Proof. intros H. unfold parked at 1. rewrite (H id). by case_decide. Qed.

(** [add_sums] by its effect on the fields. *)
Lemma add_sums_form s w r :
  exists a, add_sums s w r = with_sums s (sum_weight s + w) (sum_weighted_runtime s + r) a /\
    (0 < sum_weight s + w -> a = Z.quot (sum_weighted_runtime s + r) (sum_weight s + w)).
Proof.
  unfold add_sums, refresh_average. cbn. destruct (sum_weight s + w >? 0) eqn:Hw; eexists; split; try done.
  intros. lia.
Qed.

(** ** Charging *)

Lemma account_weight e ran : weight (account e ran).2 = weight e.
Proof. unfold account. by case_if. Qed.

Lemma in_rset_current s x c :
  queue_ok s x -> current s = Some c ->
  exists t, task s c = Some t /\ tstate t = Running /\
    (c ∈ rset (run_queue s) (current s) (idle s) <-> is_idle t = false).
Proof.
  intros [_ HR] Hc. destruct (proj1 (ro_current _ _ _ _ _ _ _ _ _ HR c) Hc) as (t & Ht & Hs).
  exists t. split_and!; try done. split.
  - intros (u & Hu & Hi & _)%(rset_elem _ _ _ _ _ _ _ _ _ _ HR). congruence.
  - intros Hi. unfold rset. rewrite Hc, decide_False; [set_solver|].
    intros (u & Hu & ?)%(ro_idle _ _ _ _ _ _ _ _ _ HR). congruence.
Qed.

Lemma charge_spec s c now :
  queue_ok s None -> current s = Some c ->
  exists t t' ts sw swr a, task s c = Some t /\ tstate t = Running /\ same_control t t' /\
    weight (scheduler_entity t') = weight (scheduler_entity t) /\
    (charge s c now).2 = with_sums (with_tasks s ts) sw swr a /\
    updated (task s) (task (with_tasks s ts)) c (Some t') /\
    queue_ok (with_sums (with_tasks s ts) sw swr a) None.
Proof.
  intros HQ Hc. destruct (in_rset_current s None c HQ Hc) as (t & Ht & Hs & Hin). destruct HQ as [HT HR].
  unfold charge. rewrite Ht. cbn [is_idle set_times]. destruct (is_idle t) eqn:Hi.
  - destruct (task_mut_ts s c (fun _ => set_times t now (slice_start t)) t) as (ts & -> & HT' & HU); [done..|].
    exists t, (set_times t now (slice_start t)), ts, (sum_weight s), (sum_weighted_runtime s), (average s).
    split_and!; try done. split; [done|]. by eapply run_same with (t := t).
  - set (ran := saturating_sub now (dispatched_at t)). cbn [scheduler_entity set_times].
    destruct (account (scheduler_entity t) ran) as [done_ e] eqn:Hacc.
    pose proof (account_weight (scheduler_entity t) ran) as Hw. rewrite Hacc in Hw. simpl in Hw.
    set (t' := set_entity (set_times t now (slice_start t)) e).
    destruct (task_mut_ts s c (fun _ => t') t) as (ts & -> & HT' & HU); [done..|]. simpl snd.
    destruct (add_sums_form (with_tasks s ts) 0 (weight e * (virtual_runtime e - virtual_runtime (scheduler_entity t))))
      as (a & -> & Ha). cbn in Ha.
    exists t, t', ts. do 3 eexists. split_and!; try done. split; [done|].
    refine (run_update _ _ _ _ _ _ _ _ _ _ t _ HU _ _ _ _ HR Ht _ _ _ _ _ Ha); try done.
    + cbn. rewrite Hw. by apply (ro_weight _ _ _ _ _ _ _ _ _ HR _ _ Ht).
    + rewrite decide_True by (by apply Hin). unfold tw. rewrite (updated_eq _ _ _ _ HU), Ht. cbn. lia.
    + rewrite decide_True by (by apply Hin). unfold twr. rewrite (updated_eq _ _ _ _ HU), Ht. cbn. rewrite Hw. lia.
Qed.

(** ** Joining *)

Definition joined_entity s (e : EevdfEntity) : EevdfEntity :=
  let runtime := average s - placed_lag (lag e) (weight e) (sum_weight s) in
  let e := with_lag (with_vruntime e runtime) 0 in
  with_enqueue (with_deadline e (runtime + weighted_slice e)) (clock s).

Lemma join_spec s id t :
  queue_ok s (Some id) -> task s id = Some t -> tstate t = Ready -> is_idle t = false ->
  exists ts sw swr a p, let e := joined_entity s (scheduler_entity t) in
    join s id = with_preempt (with_run_queue (with_sums (with_tasks s ts) sw swr a) (run_queue s ++ [id])) p /\
    updated (task s) (task (with_tasks s ts)) id (Some (set_entity t e)) /\
    sw = sum_weight s + weight e /\ swr = sum_weighted_runtime s + weight e * virtual_runtime e /\
    queue_ok (join s id) None.
Proof.
  intros [HT HR] Ht Hs Hi. unfold join. rewrite Ht.
  set (e := joined_entity s (scheduler_entity t)).
  change (with_enqueue _ (clock s)) with e. cbn zeta.
  destruct (task_mut_ts s id (fun t => set_entity t e) t) as (ts & -> & HT' & HU); [done..|].
  change (average s - placed_lag _ _ _) with (virtual_runtime e).
  destruct (add_sums_form (with_tasks s ts) (weight e) (weight e * virtual_runtime e)) as (a & -> & Ha).
  cbn in Ha. cbn [sum_weight with_tasks with_table sum_weighted_runtime run_queue with_sums].
  set (s' := with_run_queue _ _).
  assert (HQ : queue_ok s' None).
  { split; [done|]. unfold s'. cbn.
    pose proof (run_join _ _ _ _ _ _ _ _ _ id t (set_entity t e) HU a HR Ht) as Hj.
    unfold tw, twr in Hj. rewrite (updated_eq _ _ _ _ HU) in Hj. cbn in Hj.
    apply Hj; try done. by apply (ro_weight _ _ _ _ _ _ _ _ _ HR _ _ Ht). }
  exists ts, (sum_weight s + weight e), (sum_weighted_runtime s + weight e * virtual_runtime e), a.
  set (b := match current s' with Some c => _ | None => s' end).
  assert (Hb : exists p, b = with_preempt s' p).
  { unfold b. destruct (current s') as [c|]; [|by exists (wakeup_preempt s')].
    case_if; [by exists true|by exists (wakeup_preempt s')]. }
  destruct Hb as [p Hp]. exists p. rewrite Hp. split_and!; try done.
Qed.

(** ** Waking *)

Lemma blocked_not_idle s x id t :
  queue_ok s x -> task s id = Some t -> tstate t = Blocked -> is_idle t = false.
Proof.
  intros [_ HR] Ht Hb. destruct (is_idle t) eqn:Hi; [|done].
  destruct (ro_idle_state _ _ _ _ _ _ _ _ _ HR _ _ Ht Hi); congruence.
Qed.

Lemma make_ready_spec s id t :
  queue_ok s None -> task s id = Some t -> tstate t = Blocked ->
  exists t', queue_ok (make_ready s id) None /\ kept s (make_ready s id) /\
    run_queue (make_ready s id) = run_queue s ++ [id] /\ current (make_ready s id) = current s /\
    clock (make_ready s id) = clock s /\
    updated (task s) (task (make_ready s id)) id (Some t') /\ tstate t' = Ready /\ block_reason t' = None /\
    wait_link t' = None /\ is_idle t' = false /\ scheduler_entity t' = joined_entity s (scheduler_entity t) /\
    sum_weight (make_ready s id) = sum_weight s + weight (scheduler_entity t') /\
    sum_weighted_runtime (make_ready s id) =
      sum_weighted_runtime s + weight (scheduler_entity t') * virtual_runtime (scheduler_entity t').
Proof.
  intros HQ Ht Hb. pose proof (blocked_not_idle s None id t HQ Ht Hb) as Hi. destruct HQ as [HT HR].
  unfold make_ready, task_transition. rewrite Ht. unfold transition. rewrite Hb. cbn [can_transition negb snd].
  destruct (task_mut_ts s id (fun _ => set_tstate t Ready) t) as (ts1 & -> & HT1 & HU1); [done..|].
  pose proof (updated_eq _ _ _ _ HU1) as Ht1.
  destruct (task_mut_ts (with_tasks s ts1) id (fun t => set_wait t None None) _ HT1 Ht1)
    as (ts2 & -> & HT2 & HU2); [done|].
  pose proof (updated_trans _ _ _ _ _ _ HU1 HU2) as HU12.
  change (with_tasks (with_tasks s ts1) ts2) with (with_tasks s ts2) in *.
  pose proof (updated_eq _ _ _ _ HU2) as Ht2.
  assert (HQ2 : queue_ok (with_tasks s ts2) (Some id)).
  { split; [done|]. refine (run_arrive _ _ _ _ _ _ _ _ _ _ _ HU12 _ HR _ _ _ _ _ _ _); try done.
    - intros u Hu. congruence.
    - intros Hn. congruence.
    - by apply (ro_next _ _ _ _ _ _ _ _ _ HR _ _ Ht).
    - by apply (ro_weight _ _ _ _ _ _ _ _ _ HR _ _ Ht). }
  destruct (join_spec _ _ _ HQ2 Ht2 eq_refl Hi) as (ts3 & sw & swr & a & p & Hj & HU3 & Hsw & Hswr & HQ3).
  pose proof (updated_trans _ _ _ _ _ _ HU12 HU3) as HU.
  change (with_tasks (with_tasks s ts2) ts3) with (with_tasks s ts3) in *.
  eexists. split_and!; [exact HQ3|rewrite Hj; by constructor|by rewrite Hj|by rewrite Hj|by rewrite Hj|
    rewrite Hj; exact HU|done..| |]; rewrite Hj; [exact Hsw|exact Hswr].
Qed.

(** ** Stopping *)

Lemma leave_form s c t :
  table_ok s -> task s c = Some t ->
  exists e ts a, leave s c = with_sums (with_tasks s ts) (sum_weight s - weight (scheduler_entity t))
      (sum_weighted_runtime s - weight (scheduler_entity t) * virtual_runtime (scheduler_entity t)) a /\
    e = with_lag (scheduler_entity t)
          (clamp (average s - virtual_runtime (scheduler_entity t)) (- LAG_LIMIT) LAG_LIMIT) /\
    table_ok (with_tasks s ts) /\ updated (task s) (task (with_tasks s ts)) c (Some (set_entity t e)) /\
    (0 < sum_weight s - weight (scheduler_entity t) ->
      a = Z.quot (sum_weighted_runtime s - weight (scheduler_entity t) * virtual_runtime (scheduler_entity t))
            (sum_weight s - weight (scheduler_entity t))).
Proof.
  intros HT Ht. unfold leave. rewrite Ht. set (e := with_lag _ _).
  destruct (task_mut_ts s c (fun t => set_entity t e) t) as (ts & -> & HT1 & HU); [done..|].
  destruct (add_sums_form (with_tasks s ts) (- weight e) (- (weight e * virtual_runtime e))) as (a & -> & Ha).
  exists e, ts, a. split_and!; done.
Qed.

Lemma stop_current_spec s st c now :
  queue_ok s None -> current s = Some c -> idle s <> Some c -> st = Blocked \/ st = Exited ->
  exists t t', let s' := (stop_current s st now).2 in
    (stop_current s st now).1 = Ok c /\ queue_ok s' None /\ kept s s' /\
    current s' = None /\ run_queue s' = run_queue s /\ clock s' = now /\
    task s c = Some t /\ tstate t = Running /\ updated (task s) (task s') c (Some t') /\
    tstate t' = st /\ task_id t' = task_id t /\ is_idle t' = false.
Proof.
  intros HQ Hc Hidl Hst. unfold stop_current. cbn [current with_clock]. rewrite Hc.
  assert (HQ0 : queue_ok (with_clock s now) None) by exact HQ.
  destruct (charge_spec _ c now HQ0 Hc) as (t & t1 & ts1 & sw & swr & a1 & Ht & Hrun & Hctl & Hw & Hch & HU1 & HQ1).
  rewrite Ht. rewrite bool_decide_eq_true_2 by done. cbn [negb].
  destruct (charge (with_clock s now) c now) as [b s1]. simpl in Hch. subst s1.
  set (s1 := with_sums _ sw swr a1) in *. change (task (with_tasks (with_clock s now) ts1)) with (task s1) in HU1.
  destruct HQ1 as [HT1 HR1]. pose proof (updated_eq _ _ _ _ HU1) as Ht1.
  destruct (leave_form s1 c t1 HT1 Ht1) as (e & ts2 & a2 & -> & He & HT2 & HU2 & Ha2).
  set (s2 := with_sums (with_tasks s1 ts2) _ _ a2). change (task (with_tasks s1 ts2)) with (task s2) in HU2.
  pose proof (updated_eq _ _ _ _ HU2) as Ht2.
  destruct (task_mut_ts s2 c (fun t => set_resume t (interrupt_stack_pointer t) Voluntary) _ HT2 Ht2)
    as (ts3 & -> & HT3 & HU3); [done|].
  pose proof (updated_eq _ _ _ _ HU3) as Ht3. set (t3 := set_resume _ _ _) in *.
  destruct Hctl as (Hid & Hs1 & Hbr & Hwl & Hi1 & _).
  unfold task_transition. rewrite Ht3. unfold transition.
  assert (Hcan : can_transition (tstate t3) st = true).
  { unfold t3. cbn. rewrite Hs1, Hrun. by destruct Hst as [-> | ->]. }
  rewrite Hcan. cbn [negb].
  destruct (task_mut_ts (with_tasks s2 ts3) c (fun _ => set_tstate t3 st) t3 HT3 Ht3) as (ts4 & -> & HT4 & HU4); [done|].
  pose proof (updated_trans _ _ _ _ _ _ (updated_trans _ _ _ _ _ _ HU2 HU3) HU4) as HU24.
  pose proof (updated_trans _ _ _ _ _ _ HU1 HU24) as HU.
  assert (Hidle : is_idle t1 = false).
  { rewrite Hi1. destruct (is_idle t) eqn:Hi; [|done]. destruct Hidl. destruct HQ as [_ HR].
    apply (ro_idle _ _ _ _ _ _ _ _ _ HR). eauto. }
  exists t, (set_tstate t3 st). split_and!; try done. split; [done|].
  assert (Htw : tw (task s1) c = weight (scheduler_entity t1)) by (unfold tw; by rewrite Ht1).
  assert (Htwr : twr (task s1) c = weight (scheduler_entity t1) * virtual_runtime (scheduler_entity t1))
    by (unfold twr; by rewrite Ht1).
  pose proof (run_stop _ _ _ _ _ _ _ _ _ c t1 (set_tstate t3 st) HU24 a2 HR1 Hc Ht1 Hidle Hidle) as Hr.
  rewrite Htw, Htwr in Hr. apply Hr; try done. unfold t3. rewrite He. cbn.
  by apply (ro_weight _ _ _ _ _ _ _ _ _ HR1 _ _ Ht1).
Qed.

(** ** Dispatching *)

(** [s'] runs [next], chosen from the queue of [s], and differs in nothing
    else that matters. *)
Record dispatched s s' (next : option Z) now : Prop := {
  dp_current : current s' = next;
  dp_kept : kept s s';
  dp_idle : run_queue s = [] -> next = idle s /\ run_queue s' = [];
  dp_chosen : run_queue s <> [] -> exists id t, next = Some id /\ chosen s id t /\ id :: run_queue s' ≡ₚ run_queue s;
  dp_next id : next = Some id -> exists t, task s id = Some t /\ tstate t = Ready /\
    task s' id = Some (set_times (set_tstate t Running) now now);
  dp_others id : next <> Some id -> task s' id = task s id;
  dp_parked id : parked (task s') id = parked (task s) id;
  dp_preempt : wakeup_preempt s' = false;
  dp_clock : clock s' = clock s;
}.

Lemma queued_ready s x id : queue_ok s x -> id ∈ run_queue s ->
  exists t, task s id = Some t /\ tstate t = Ready /\ is_idle t = false.
Proof. by intros [_ HR] [(t & ?) _]%(ro_queued _ _ _ _ _ _ _ _ _ HR); exists t. Qed.

Lemma idle_ready s x id : queue_ok s x -> current s = None -> idle s = Some id ->
  exists t, task s id = Some t /\ tstate t = Ready /\ is_idle t = true.
Proof.
  intros [_ HR] Hc (t & Ht & Hi)%(ro_idle _ _ _ _ _ _ _ _ _ HR). exists t. split_and!; try done.
  destruct (ro_idle_state _ _ _ _ _ _ _ _ _ HR _ _ Ht Hi) as [|Hr]; [done|].
  assert (current s = Some id) by (apply (ro_current _ _ _ _ _ _ _ _ _ HR); eauto). congruence.
Qed.

(** The tail of [switch_to_next] for a task that is to run. *)
Lemma dispatch_one s rq' id t now :
  queue_ok s None -> current s = None -> task s id = Some t -> tstate t = Ready ->
  (if is_idle t then rq' = run_queue s else id :: rq' ≡ₚ run_queue s) ->
  exists ts, task_transition (with_run_queue s rq') id Running = (Ok tt, with_tasks (with_run_queue s rq') ts) /\
    exists ts', task_mut (with_tasks (with_run_queue s rq') ts) id (fun t => set_times t now now)
      = with_tasks (with_run_queue s rq') ts' /\
    queue_ok (with_current (with_tasks (with_run_queue s rq') ts') (Some id)) None /\
    updated (task s) (task (with_tasks s ts')) id (Some (set_times (set_tstate t Running) now now)).
Proof.
  intros [HT HR] Hc Ht Hs Hrq. set (s1 := with_run_queue s rq').
  assert (Ht1 : task s1 id = Some t) by exact Ht.
  unfold task_transition. rewrite Ht1. unfold transition. rewrite Hs. cbn [can_transition negb].
  destruct (task_mut_ts s1 id (fun _ => set_tstate t Running) t HT Ht1) as (ts & -> & HT2 & HU2); [done|].
  exists ts. split; [done|]. pose proof (updated_eq _ _ _ _ HU2) as Ht2.
  destruct (task_mut_ts (with_tasks s1 ts) id (fun t => set_times t now now) _ HT2 Ht2) as (ts' & -> & HT3 & HU3); [done|].
  pose proof (updated_trans _ _ _ _ _ _ HU2 HU3) as HU. exists ts'. split_and!; [done| |done].
  split; [done|].
  exact (run_dispatch _ _ _ _ _ _ _ _ _ id t (set_times (set_tstate t Running) now now) HU rq' HR Hc Ht Hs eq_refl eq_refl eq_refl Hrq).
Qed.

Lemma switch_to_next_spec s prev now :
  queue_ok s None -> current s = None ->
  exists next s', switch_to_next s prev now = (Ok next, s') /\ queue_ok s' None /\ dispatched s s' next now.
Proof.
  intros HQ Hc. unfold switch_to_next. set (s0 := with_preempt s false).
  assert (HQ0 : queue_ok s0 None) by exact HQ. pose proof (pick_next_spec s0 HQ0 Hc) as Hp.
  assert (Hrun : forall id t rq', task s id = Some t -> tstate t = Ready ->
    (if is_idle t then rq' = run_queue s else id :: rq' ≡ₚ run_queue s) ->
    (run_queue s = [] -> Some id = idle s /\ rq' = []) ->
    (run_queue s <> [] -> chosen s id t /\ id :: rq' ≡ₚ run_queue s) ->
    exists next s', (match task_transition (with_run_queue s0 rq') id Running with
      | (Ok _, s2) => let s3 := task_mut s2 id (fun t => set_times t now now) in
          let s4 := with_current s3 (Some id) in
          (Ok (Some id), if bool_decide (Some id = prev) then s4 else bump_switches s4)
      | (Err e, s2) => (Err e, s2) end) = (Ok next, s') /\ queue_ok s' None /\ dispatched s s' next now).
  { intros id t rq' Ht Hs Hrq Hidl Hch.
    destruct (dispatch_one s0 rq' id t now HQ0 Hc Ht Hs Hrq) as (ts & -> & ts' & -> & HQ' & HU).
    set (s3 := with_current _ (Some id)) in *. cbn zeta.
    assert (HD : dispatched s s3 (Some id) now).
    { constructor; try done.
      - intros Hq. exists id, t. by destruct (Hch Hq).
      - intros k [= <-]. exists t. split_and!; [done|done|]. exact (updated_eq _ _ _ _ HU).
      - intros k Hk. apply (updated_ne _ _ _ _ _ HU). congruence.
      - intros k. change (task s3) with (task (with_tasks s0 ts')). rewrite (updated_parked _ _ _ _ _ HU).
        destruct (decide (k = id)) as [->|]; [|done]. unfold parked. rewrite Ht, Hs. done. }
    exists (Some id). case_if; [exists s3|exists (bump_switches s3)]; (split_and!; [done|exact HQ'|]); [done|].
    destruct HD. by constructor. }
  change (run_queue s0) with (run_queue s) in Hp. case_decide as Hq.
  - rewrite Hp. change (idle s0) with (idle s). destruct (idle s) as [id|] eqn:Hidl.
    + destruct (idle_ready s None id HQ Hc Hidl) as (t & Ht & Hs & Hi).
      destruct (Hrun id t (run_queue s) Ht Hs) as (next & s' & Heq & HQ' & HD); [by rewrite Hi|done..|].
      exists next, s'. split_and!; [|done|done]. rewrite <- Heq. by destruct s.
    + exists None. cbn zeta. set (s1 := with_current s0 None).
      assert (HQ1 : queue_ok s1 None) by (destruct HQ as [HT HR]; rewrite Hc in HR; by split).
      assert (HD : dispatched s s1 None now) by (constructor; try done; rewrite Hidl; by rewrite Hq).
      case_if; eexists; (split_and!; [done|exact HQ1|]); [done|]. destruct HD. by constructor.
  - destruct Hp as (id & t & rq' & Hch & Hperm & ->).
    assert (Hin : id ∈ run_queue s) by apply Hch.
    destruct (queued_ready s None id HQ Hin) as (u & Hu & Hs & Hi).
    assert (u = t) as -> by (destruct Hch as (_ & Ht & _); change (task s0 id) with (task s id) in Ht; congruence).
    exact (Hrun id t rq' Hu Hs ltac:(by rewrite Hi) (fun H => False_rect _ (Hq H)) (fun _ => conj Hch Hperm)).
Qed.

(** [s1] is [s] with the running task put back. *)
Record requeued s s1 now : Prop := {
  rq_kept : kept s s1;
  rq_none : current s1 = None;
  rq_clock : clock s1 = now;
  rq_queue : run_queue s1 =
    match current s with
    | Some c => if decide (idle s = Some c) then run_queue s else run_queue s ++ [c]
    | None => run_queue s
    end;
  rq_others id : current s <> Some id -> task s1 id = task s id;
  rq_self id : current s = Some id -> exists t t1, task s id = Some t /\ task s1 id = Some t1 /\
    tstate t1 = Ready /\ is_idle t1 = is_idle t;
  rq_parked id : parked (task s1) id = parked (task s) id;
}.

Lemma current_idle s x c t : queue_ok s x -> task s c = Some t -> idle s = Some c <-> is_idle t = true.
Proof. intros [_ HR] Ht. rewrite (ro_idle _ _ _ _ _ _ _ _ _ HR). split; [intros (? & ? & ?); congruence|eauto]. Qed.

Lemma schedule_spec s now :
  queue_ok s None ->
  exists next s1 s', schedule s now = (Ok next, s') /\ queue_ok s1 None /\ requeued s s1 now /\
    queue_ok s' None /\ dispatched s1 s' next now.
Proof.
  intros HQ. unfold schedule. cbn [current with_clock].
  assert (Hfin : forall s1, queue_ok s1 None -> requeued s s1 now ->
    exists next s2 s', switch_to_next s1 (current s) now = (Ok next, s') /\ queue_ok s2 None /\ requeued s s2 now /\
      queue_ok s' None /\ dispatched s2 s' next now).
  { intros s1 HQ1 Hrq. destruct (switch_to_next_spec s1 (current s) now HQ1 (rq_none _ _ _ Hrq)) as (n & s' & ? & ? & ?).
    by exists n, s1, s'. }
  destruct (current s) as [c|] eqn:Hc.
  2: { apply Hfin.
       - destruct HQ as [HT HR]. rewrite Hc in HR. by split.
       - constructor; try done; by rewrite Hc. }
  assert (HQ0 : queue_ok (with_clock s now) None) by exact HQ.
  destruct (charge_spec _ c now HQ0 Hc) as (t & t1 & ts1 & sw & swr & a & Ht & Hrun & Hctl & Hw & Hch & HU1 & HQ1).
  rewrite Ht, bool_decide_eq_true_2 by done.
  destruct (charge (with_clock s now) c now) as [b s1]. simpl in Hch. subst s1.
  set (s1 := with_sums _ sw swr a) in *. change (task (with_tasks (with_clock s now) ts1)) with (task s1) in HU1.
  destruct Hctl as (_ & Hs1 & Hbr & Hwl & Hi1 & _). destruct HQ1 as [HT1 HR1].
  pose proof (updated_eq _ _ _ _ HU1) as Ht1. unfold task_transition. rewrite Ht1. unfold transition.
  rewrite Hs1, Hrun. cbn [can_transition negb].
  destruct (task_mut_ts s1 c (fun _ => set_tstate t1 Ready) t1 HT1 Ht1) as (ts2 & -> & HT2 & HU2); [done|].
  pose proof (current_idle s None c t HQ Ht) as Hidl.
  pose proof (updated_trans _ _ _ _ _ _ HU1 HU2) as HU12.
  assert (Hpark : parked (task s) c = None) by (unfold parked; change (task s c) with (task (with_clock s now) c); by rewrite Ht, Hrun).
  destruct (is_idle t) eqn:Hi.
  - apply Hfin.
    + split; [done|].
      pose proof (run_yield _ _ _ _ _ _ _ _ _ c t1 (set_tstate t1 Ready) HU2 HR1 Hc Ht1 eq_refl eq_refl eq_refl eq_refl) as Hr.
      rewrite Hi1, ?Hi in Hr. exact Hr.
    + constructor; try done.
      * rewrite Hc, decide_True by (by apply Hidl). done.
      * intros id Hid. apply (updated_ne _ _ _ _ _ HU12). congruence.
      * rewrite Hc. intros id [= <-]. exists t. eexists. split_and!; [done|exact (updated_eq _ _ _ _ HU12)|done|cbn; congruence].
      * intros id. change (task (with_current _ None)) with (task (with_tasks s1 ts2)).
        rewrite (updated_parked _ _ _ _ _ HU12). destruct (decide (id = c)) as [->|]; [by rewrite Hpark|done].
  - pose proof (updated_eq _ _ _ _ HU2) as Ht2. set (s2 := with_tasks s1 ts2) in *. cbn [clock with_tasks with_table].
    destruct (task_mut_ts s2 c (fun t => set_entity t (with_enqueue (scheduler_entity t) (clock s2))) _ HT2 Ht2)
      as (ts3 & -> & HT3 & HU3); [done|].
    pose proof (updated_trans _ _ _ _ _ _ HU2 HU3) as HU23. pose proof (updated_trans _ _ _ _ _ _ HU1 HU23) as HU.
    apply Hfin.
    + split; [done|].
      pose proof (run_yield _ _ _ _ _ _ _ _ _ c t1 _ HU23 HR1 Hc Ht1 eq_refl eq_refl eq_refl eq_refl) as Hr.
      rewrite Hi1, ?Hi in Hr. exact Hr.
    + constructor; try done.
      * rewrite Hc, decide_False; [done|]. intros Hx%Hidl. congruence.
      * intros id Hid. apply (updated_ne _ _ _ _ _ HU). congruence.
      * rewrite Hc. intros id [= <-]. exists t. eexists. split_and!; [done|exact (updated_eq _ _ _ _ HU)|done|cbn; congruence].
      * intros id. change (task (with_current _ None)) with (task (with_tasks s2 ts3)).
        rewrite (updated_parked _ _ _ _ _ HU). destruct (decide (id = c)) as [->|]; [by rewrite Hpark|done].
Qed.
