(* ===== verification/SchedLife.v ===== *)
(** * SchedLife: the life of a task through the public operations

    Every public operation of [kernel/src/task/scheduler.rs] keeps the
    invariant and moves tasks along the edges of [can_transition] only. *)

From stdpp Require Import base list numbers gmap sets sorting relations.
From S2P Require Import Prelude Sched SchedOps.
Local Open Scope Z_scope.

Implicit Types (s : Scheduler) (id c now : Z).

(** ** Moves along the state machine *)

Definition edge (a b : TaskState) : Prop := can_transition a b = true.

(** No move or one move along an edge. *)
Definition hop (a b : TaskState) : Prop := a = b \/ edge a b.
(** The moves an operation is made of: a task leaves the processor, takes it, wakes. *)
Definition leaves (a b : TaskState) : Prop := a = b \/ (a = Running /\ edge a b).
Definition takes (a b : TaskState) : Prop := a = b \/ (a = Ready /\ b = Running).
Definition wakes (a b : TaskState) : Prop := a = b \/ (a = Blocked /\ b = Ready).

(** Every task of [s] is in [s'], moved as [R] says. *)
Definition moved_by (R : TaskState -> TaskState -> Prop) s s' : Prop :=
  forall id t, task s id = Some t ->
    exists t', task s' id = Some t' /\ R (tstate t) (tstate t') /\ is_idle t' = is_idle t.
Abbreviation moved := (moved_by hop).

#[export] Instance moved_by_refl R `{!Reflexive R} : Reflexive (moved_by R).
Proof. intros s id t Ht. by exists t. Qed.
#[export] Instance hop_refl : Reflexive hop.
Proof. by left. Qed.
#[export] Instance leaves_refl : Reflexive leaves.
Proof. by left. Qed.
#[export] Instance wakes_refl : Reflexive wakes.
Proof. by left. Qed.

Lemma moved_by_comp (R1 R2 R : TaskState -> TaskState -> Prop) s1 s2 s3 :
  (forall a b d : TaskState, R1 a b -> R2 b d -> R a d) -> moved_by R1 s1 s2 -> moved_by R2 s2 s3 -> moved_by R s1 s3.
Proof.
  intros HR H1 H2 id t Ht. destruct (H1 id t Ht) as (t2 & Ht2 & He2 & Hi2).
  destruct (H2 id t2 Ht2) as (t3 & Ht3 & He3 & Hi3). exists t3. split_and!; [done|by eapply HR|congruence].
Qed.

Lemma leave_take_hop a b d : leaves a b -> takes b d -> hop a d.
Proof. unfold leaves, takes, hop, edge. destruct a, b, d; naive_solver. Qed.
Lemma same_hop a b d : a = b -> hop b d -> hop a d.
Proof. by intros ->. Qed.
Lemma wake_wake a b d : wakes a b -> wakes b d -> wakes a d.
Proof. unfold wakes. naive_solver. Qed.
Lemma wakes_hop s s' : moved_by wakes s s' -> moved s s'.
Proof. intros H. apply (moved_by_comp wakes eq hop s s' s'); [|done|reflexivity]. intros a b d [->|[-> ->]] <-; [by left|by right]. Qed.

Lemma moved_updated R `{!Reflexive R} s s' c t t' :
  task s c = Some t -> updated (task s) (task s') c (Some t') -> R (tstate t) (tstate t') ->
  is_idle t' = is_idle t -> moved_by R s s'.
Proof.
  intros Ht HU He Hi id u Hu. rewrite (HU id). case_decide as Hd; [|by exists u].
  subst. exists t'. split_and!; [done| |]; congruence.
Qed.

Lemma moved_requeued s s1 now : queue_ok s None -> requeued s s1 now -> moved_by leaves s s1.
Proof.
  intros HQ Hr id t Ht. destruct (decide (current s = Some id)) as [Hc|Hc].
  - destruct (rq_self _ _ _ Hr id Hc) as (u & t1 & Hu & Ht1 & Hs1 & Hi1). exists t1.
    destruct (in_rset_current s None id HQ Hc) as (v & Hv & Hrun & _).
    assert (u = t) as -> by congruence. assert (v = t) as -> by congruence.
    split_and!; [done| |done]. rewrite Hrun, Hs1. by right.
  - exists t. rewrite (rq_others _ _ _ Hr) by done. split_and!; [done|by left|done].
Qed.

Lemma moved_dispatched s s' next now : dispatched s s' next now -> moved_by takes s s'.
Proof.
  intros Hd id t Ht. destruct (decide (next = Some id)) as [Hn|Hn].
  - destruct (dp_next _ _ _ _ Hd id Hn) as (u & Hu & Hs & Ht'). assert (u = t) as -> by congruence.
    eexists. split_and!; [done| |done]. cbn. rewrite Hs. by right.
  - exists t. rewrite (dp_others _ _ _ _ Hd) by done. split_and!; [done|by left|done].
Qed.

(** A change outside the scheduler's concern. *)
Lemma cosmetic s x c t f :
  queue_ok s x -> task s c = Some t -> task_id (f t) = task_id t -> tstate (f t) = tstate t ->
  is_idle (f t) = is_idle t -> scheduler_entity (f t) = scheduler_entity t ->
  exists ts, task_mut s c f = with_tasks s ts /\ queue_ok (with_tasks s ts) x /\
    updated (task s) (task (with_tasks s ts)) c (Some (f t)).
Proof.
  intros [HT HR] Ht Hid Hs Hi He. destruct (task_mut_ts s c f t HT Ht Hid) as (ts & -> & HT' & HU).
  exists ts. split_and!; [done| |done]. split; [done|].
  apply (run_same _ _ _ _ _ _ _ _ _ _ t _ HU _ HR Ht Hs Hi); by rewrite He.
Qed.

(** ** Parked tasks *)

Definition set_at (P : Z -> option (TaskState * option BlockReason)) c v id :=
  if decide (id = c) then v else P id.

Section Parked.
Context (P P' : Z -> option (TaskState * option BlockReason)) (eq : list Z) (sl : list (Z * Z)) (c : Z).
Context (HP : parked_ok P eq sl).

Lemma parked_wake : (forall id, P' id = set_at P c None id) -> (forall r, P c <> Some (Exited, r)) -> parked_ok P' eq sl.
Proof.
  intros H' Hc. apply (parked_ok_ext _ _ _ _ H'). destruct HP. constructor; try done.
  - intros id. rewrite po_exit. unfold set_at. case_decide as Hd; [subst|done]. naive_solver.
  - intros id d. unfold set_at. case_decide; [done|]. apply po_sleep.
Qed.

Lemma parked_block r :
  (forall id, P' id = set_at P c (Some (Blocked, r)) id) -> P c = None -> (forall d, r <> Some (SleepUntil d)) ->
  parked_ok P' eq sl.
Proof.
  intros H' Hc Hr. apply (parked_ok_ext _ _ _ _ H'). destruct HP. constructor; try done.
  - intros id. rewrite po_exit. unfold set_at. case_decide as Hd; [subst|done]. rewrite Hc. naive_solver.
  - intros id d. unfold set_at. case_decide; [|by apply po_sleep]. intros [= Hx]. by destruct (Hr d).
Qed.

Lemma parked_exit r :
  (forall id, P' id = set_at P c (Some (Exited, r)) id) -> P c = None -> parked_ok P' (eq ++ [c]) sl.
Proof.
  intros H' Hc. apply (parked_ok_ext _ _ _ _ H'). destruct HP.
  assert (Hn : c ∉ eq) by (rewrite po_exit, Hc; by intros (? & ?)). constructor; try done.
  - apply NoDup_app. split_and!; [done| |apply NoDup_singleton]. intros x Hx ->%list_elem_of_singleton. done.
  - intros id. rewrite elem_of_app, list_elem_of_singleton, po_exit. unfold set_at.
    case_decide as Hd; [subst|]; naive_solver.
  - intros id d. unfold set_at. case_decide; [done|]. apply po_sleep.
Qed.

Lemma parked_reap rest : eq = c :: rest -> (forall id, P' id = set_at P c None id) -> parked_ok P' rest sl.
Proof.
  intros -> H'. apply (parked_ok_ext _ _ _ _ H'). destruct HP. apply NoDup_cons in po_nodup as [Hn Hnd].
  constructor; try done.
  - intros id. specialize (po_exit id). rewrite elem_of_cons in po_exit. unfold set_at.
    case_decide as Hd; [subst; split; [done|by intros (? & ?)]|]. rewrite <- po_exit. tauto.
  - intros id d. unfold set_at. case_decide; [done|]. apply po_sleep.
Qed.

Lemma elem_of_insert_at (x y : Z * Z) i l : y ∈ take i l ++ x :: drop i l <-> y = x \/ y ∈ l.
Proof. rewrite <- (take_drop i l) at 3. rewrite !elem_of_app, elem_of_cons. tauto. Qed.

(** [partition_point] keeps the list sorted. *)
Lemma sleeper_insert_sorted key l :
  StronglySorted (fun a b => key_lt a b = false) l ->
  let i := sleeper_position key l in
  StronglySorted (fun a b => key_lt a b = false) (take i l ++ key :: drop i l).
Proof.
  induction 1 as [|x l Hs IH Hx]; simpl; [repeat constructor|].
  destruct (key_lt key x) eqn:Hk; simpl.
  - constructor; [done|]. rewrite Forall_forall in Hx |- *. intros y Hy.
    apply elem_of_insert_at in Hy as Hy'.
    destruct Hy' as [->|Hy']; [|by apply Hx]. apply key_lt_iff in Hk. apply key_lt_false. lia.
  - constructor; [by constructor|]. constructor; [done|]. rewrite Forall_forall in Hx |- *. intros y Hy.
    specialize (Hx _ Hy). rewrite key_lt_false in *. lia.
Qed.

Lemma parked_sleep d :
  (forall id, P' id = set_at P c (Some (Blocked, Some (SleepUntil d))) id) -> P c = None ->
  let i := sleeper_position (d, c) sl in parked_ok P' eq (take i sl ++ (d, c) :: drop i sl).
Proof.
  intros H' Hc i. apply (parked_ok_ext _ _ _ _ H'). destruct HP. constructor; try done.
  - intros id. rewrite po_exit. unfold set_at. case_decide as Hd; [subst|done]. rewrite Hc. naive_solver.
  - by apply sleeper_insert_sorted.
  - intros id d'. unfold set_at. case_decide as Hd.
    + subst. intros [= <-]. apply elem_of_insert_at. by left.
    + intros Hin%po_sleep. apply elem_of_insert_at. by right.
Qed.
End Parked.

(** ** Rescheduling *)

Lemma dispatched_ok s s' next now :
  sched_ok s -> queue_ok s' None -> dispatched s s' next now -> sched_ok s'.
Proof.
  intros [_ HP] HQ Hd. split; [done|]. destruct (dp_kept _ _ _ _ Hd) as [-> -> _ _ _].
  apply (parked_ok_ext _ _ _ _ (dp_parked _ _ _ _ Hd) HP).
Qed.

Lemma schedule_ok s now :
  sched_ok s ->
  exists next s1 s', schedule s now = (Ok next, s') /\ sched_ok s' /\ moved s s' /\ sched_ok s1 /\
    requeued s s1 now /\ dispatched s1 s' next now.
Proof.
  intros [HQ HP]. destruct (schedule_spec s now HQ) as (next & s1 & s' & Heq & HQ1 & Hr & HQ' & Hd).
  assert (H1 : sched_ok s1).
  { split; [done|]. destruct (rq_kept _ _ _ Hr) as [-> -> _ _ _]. apply (parked_ok_ext _ _ _ _ (rq_parked _ _ _ Hr) HP). }
  exists next, s1, s'. split_and!; try done; [by eapply dispatched_ok|].
  eapply moved_by_comp; [exact leave_take_hop|by eapply moved_requeued|by eapply moved_dispatched].
Qed.

(** Saving how the running task resumes. *)
Lemma save_resume s c sp k :
  sched_ok s -> current s = Some c ->
  exists ts, task_mut s c (fun t => set_resume t (sp t) k) = with_tasks s ts /\
    sched_ok (with_tasks s ts) /\ moved_by eq s (with_tasks s ts).
Proof.
  intros [HQ HP] Hc. destruct (in_rset_current s None c HQ Hc) as (t & Ht & Hrun & _).
  destruct (cosmetic s None c t (fun t => set_resume t (sp t) k) HQ Ht) as (ts & -> & HQ' & HU); [done..|].
  exists ts. split_and!; [done| |].
  - split; [done|]. refine (parked_ok_ext _ _ _ _ _ HP). intros id. cbn [exit_queue sleepers with_tasks with_table].
    rewrite (updated_parked _ _ _ _ _ HU). case_decide as Hd; [subst|done]. unfold parked. cbn. by rewrite Ht.
  - by eapply (moved_updated _).
Qed.

Lemma preempt_ok s sp now :
  sched_ok s -> idle s <> None ->
  exists next s', preempt s sp now = Some (next, s') /\ sched_ok s' /\ moved s s' /\ current s' = Some next.
Proof.
  intros HS Hidl. unfold preempt.
  assert (H0 : exists s0, match current s with
      | Some c => task_mut s c (fun t => set_resume t sp Interrupt) | None => s end = s0 /\
    sched_ok s0 /\ moved_by eq s s0 /\ idle s0 = idle s).
  { destruct (current s) as [c|] eqn:Hc; [|by exists s].
    destruct (save_resume s c (fun _ => sp) Interrupt HS Hc) as (ts & -> & ? & ?). by eexists. }
  destruct H0 as (s0 & -> & HS0 & Hm0 & Hi0).
  destruct (schedule_ok s0 now HS0) as (next & s1 & s' & -> & HS' & Hm' & HS1 & Hr & Hd).
  rewrite (dp_current _ _ _ _ Hd).
  assert (Hn : exists n, next = Some n).
  { destruct (decide (run_queue s1 = [])) as [Hq|Hq].
    - destruct (dp_idle _ _ _ _ Hd Hq) as [-> _]. rewrite (kp_idle _ _ (rq_kept _ _ _ Hr)), Hi0.
      destruct (idle s); eauto. done.
    - destruct (dp_chosen _ _ _ _ Hd Hq) as (n & _ & -> & _). eauto. }
  destruct Hn as [n ->]. eexists n, _. split; [done|]. pose proof (dp_current _ _ _ _ Hd) as Hcur.
  case_if; (split_and!; [exact HS'|by eapply moved_by_comp; [exact same_hop|..]|exact Hcur]).
Qed.

Lemma voluntary_yield_ok s now :
  sched_ok s -> sched_ok (prepare_voluntary_yield s now).2 /\ moved s (prepare_voluntary_yield s now).2.
Proof.
  intros HS. unfold prepare_voluntary_yield. destruct (current s) as [c|] eqn:Hc; [|by split].
  destruct (task s c) as [t|]; [|by split]. case_if; [by split|].
  destruct (save_resume s c interrupt_stack_pointer Voluntary HS Hc) as (ts & -> & HS0 & Hm0).
  destruct (schedule_ok _ now HS0) as (next & s1 & s' & -> & HS' & Hm' & _).
  destruct next; (split; [exact HS'|by eapply moved_by_comp; [exact same_hop|..]]).
Qed.

(** ** Leaving the processor *)

Lemma stop_then s st c now f :
  sched_ok s -> current s = Some c -> idle s <> Some c -> st = Blocked \/ st = Exited ->
  (forall t, task_id (f t) = task_id t /\ tstate (f t) = tstate t /\ is_idle (f t) = is_idle t /\
     scheduler_entity (f t) = scheduler_entity t) ->
  exists s1 t1 ts, stop_current s st now = (Ok c, s1) /\ task s1 c = Some t1 /\
    task_mut s1 c f = with_tasks s1 ts /\ queue_ok (with_tasks s1 ts) None /\ current s1 = None /\
    kept s s1 /\ moved_by leaves s (with_tasks s1 ts) /\ parked (task s) c = None /\
    (forall id, parked (task (with_tasks s1 ts)) id = set_at (parked (task s)) c (Some (st, block_reason (f t1))) id).
Proof.
  intros [HQ HP] Hc Hidl Hst Hf.
  destruct (stop_current_spec s st c now HQ Hc Hidl Hst) as (t & t1 & Hok & HQ1 & Hk & Hc1 & Hrq & _ & Ht & Hrun & HU & Hs1 & _ & Hi1).
  destruct (stop_current s st now) as [r s1]. simpl in *. subst r.
  pose proof (updated_eq _ _ _ _ HU) as Ht1. destruct (Hf t1) as (F1 & F2 & F3 & F4).
  destruct (cosmetic s1 None c t1 f HQ1 Ht1 F1 F2 F3 F4) as (ts & Hm & HQ2 & HU2).
  exists s1, t1, ts. pose proof (updated_trans _ _ _ _ _ _ HU HU2) as HU12. split_and!; try done.
  - eapply (moved_updated _); [exact Ht|exact HU12| |].
    + rewrite F2, Hs1, Hrun. right. by destruct Hst as [-> | ->].
    + rewrite F3, Hi1. destruct (is_idle t) eqn:Hi; [|done].
      destruct Hidl. by apply (current_idle s None c t HQ Ht).
  - unfold parked. by rewrite Ht, Hrun.
  - intros id. rewrite (updated_parked _ _ _ _ _ HU12). unfold set_at. case_decide; [|done].
    unfold parked. rewrite F2, Hs1. by destruct Hst as [-> | ->].
Qed.

(** A dispatch after the parked state was settled. *)
Lemma park_and_switch s s2 prev now :
  sched_ok s2 -> current s2 = None -> moved_by leaves s s2 ->
  exists next s', switch_to_next s2 prev now = (Ok next, s') /\ sched_ok s' /\ moved s s' /\ current s' = next /\
    dispatched s2 s' next now.
Proof.
  intros HS Hc Hm. destruct (switch_to_next_spec s2 prev now (proj1 HS) Hc) as (next & s' & Heq & HQ' & Hd).
  exists next, s'. split_and!; [done|by eapply dispatched_ok| |apply Hd|done].
  eapply moved_by_comp; [exact leave_take_hop|done|by eapply moved_dispatched].
Qed.

Lemma sleep_ok s c d now :
  sched_ok s -> current s = Some c -> idle s <> Some c ->
  exists next s', sleep_current_until s d now = (Ok next, s') /\ sched_ok s' /\ moved s s' /\ current s' = next /\
    parked (task s') c = Some (Blocked, Some (SleepUntil d)) /\ (d, c) ∈ sleepers s'.
Proof.
  intros HS Hc Hidl. unfold sleep_current_until.
  destruct (stop_then s Blocked c now (fun t => set_wait t (Some (SleepUntil d)) (wait_link t)) HS Hc Hidl)
    as (s1 & t1 & ts & -> & -> & -> & HQ2 & Hc1 & [He Hsl _ _ _] & Hm & Hp & Hpk); [by left|done|].
  cbn [sleepers with_tasks with_table]. rewrite Hsl. set (s2 := with_sleepers _ _).
  assert (HS2 : sched_ok s2).
  { split; [exact HQ2|]. cbn [s2 exit_queue sleepers with_sleepers with_tasks with_table]. rewrite He.
    exact (parked_sleep _ _ _ _ _ (proj2 HS) d Hpk Hp). }
  destruct (park_and_switch s s2 (Some c) now HS2 Hc1 Hm) as (next & s' & -> & HS' & Hm' & Hcur & Hd).
  exists next, s'. assert (Hps : parked (task s') c = Some (Blocked, Some (SleepUntil d))).
  { rewrite (dp_parked _ _ _ _ Hd). change (task s2) with (task (with_tasks s1 ts)). rewrite (Hpk c). unfold set_at.
    by rewrite decide_True. }
  split_and!; try done. by apply (po_sleep _ _ _ (proj2 HS')).
Qed.

Lemma block_ok s c r q now :
  sched_ok s -> current s = Some c -> idle s <> Some c -> (forall d, r <> SleepUntil d) ->
  exists next s', block_current s r q now = (Ok next, s', mkQueue (queue_id q) (queue_tasks q ++ [c])) /\
    sched_ok s' /\ moved s s' /\ current s' = next /\ parked (task s') c = Some (Blocked, Some r).
Proof.
  intros HS Hc Hidl Hr. unfold block_current.
  destruct (stop_then s Blocked c now (fun t => set_wait t (Some r) (Some (queue_id q))) HS Hc Hidl)
    as (s1 & t1 & ts & -> & -> & -> & HQ2 & Hc1 & [He Hsl _ _ _] & Hm & Hp & Hpk); [by left|done|].
  set (s2 := with_tasks s1 ts) in *.
  assert (HS2 : sched_ok s2).
  { split; [exact HQ2|]. cbn [s2 exit_queue sleepers with_tasks with_table]. rewrite He, Hsl.
    refine (parked_block _ _ _ _ _ (proj2 HS) (Some r) Hpk Hp _). intros d [= Hx]. by destruct (Hr d). }
  destruct (park_and_switch s s2 (Some c) now HS2 Hc1 Hm) as (next & s' & -> & HS' & Hm' & Hcur & Hd).
  exists next, s'. split_and!; try done. rewrite (dp_parked _ _ _ _ Hd), (Hpk c). unfold set_at. by rewrite decide_True.
Qed.

Lemma exit_ok s c st now :
  sched_ok s -> current s = Some c -> idle s <> Some c ->
  exists next s', exit_current s st now = (Ok next, s') /\ sched_ok s' /\ moved s s' /\ current s' = next /\
    exit_queue s' = exit_queue s ++ [c].
Proof.
  intros HS Hc Hidl. unfold exit_current.
  destruct (stop_then s Exited c now (fun t => set_exit t (Some st)) HS Hc Hidl)
    as (s1 & t1 & ts & -> & -> & -> & HQ2 & Hc1 & [He Hsl _ _ _] & Hm & Hp & Hpk); [by right|done|].
  cbn [exit_queue with_tasks with_table]. rewrite He. set (s2 := with_exit_queue _ _).
  assert (HS2 : sched_ok s2).
  { split; [exact HQ2|]. cbn [s2 exit_queue sleepers with_exit_queue with_tasks with_table]. rewrite Hsl.
    exact (parked_exit _ _ _ _ _ (proj2 HS) _ Hpk Hp). }
  destruct (park_and_switch s s2 (Some c) now HS2 Hc1 Hm) as (next & s' & -> & HS' & Hm' & Hcur & Hd).
  exists next, s'. split_and!; try done. by rewrite (kp_exit _ _ (dp_kept _ _ _ _ Hd)).
Qed.

(** ** Waking *)

Lemma make_ready_ok s id t :
  sched_ok s -> task s id = Some t -> tstate t = Blocked ->
  sched_ok (make_ready s id) /\ moved_by wakes s (make_ready s id) /\ run_queue (make_ready s id) = run_queue s ++ [id] /\
  current (make_ready s id) = current s /\ sleepers (make_ready s id) = sleepers s /\
  (exists t', task (make_ready s id) id = Some t' /\ tstate t' = Ready) /\
  forall id', id' <> id -> task (make_ready s id) id' = task s id'.
Proof.
  intros [HQ HP] Ht Hb.
  destruct (make_ready_spec s id t HQ Ht Hb) as (t' & HQ' & [He Hsl _ _ _] & Hrq & Hc & _ & HU & Hs & _ & _ & Hi & _).
  split_and!; try done.
  - split; [done|]. rewrite He, Hsl. refine (parked_wake _ _ _ _ id HP _ _).
    + intros x. rewrite (updated_parked _ _ _ _ _ HU). unfold set_at. case_decide; [|done]. unfold parked. by rewrite Hs.
    + intros r. unfold parked. rewrite Ht, Hb. done.
  - eapply (moved_updated _); [done..| |].
    + rewrite Hb, Hs. by right.
    + rewrite Hi. symmetry. exact (blocked_not_idle s None id t HQ Ht Hb).
  - exists t'. split; [exact (updated_eq _ _ _ _ HU)|done].
  - intros id'. apply (updated_ne _ _ _ _ _ HU).
Qed.

Lemma wake_task_ok s id :
  sched_ok s -> sched_ok (wake_task s id).2 /\ moved_by wakes s (wake_task s id).2.
Proof.
  intros HS. unfold wake_task. destruct (task s id) as [t|] eqn:Ht; [|by split].
  case_if; [by split|]. by destruct (make_ready_ok s id t HS Ht) as (? & ? & _).
Qed.

Lemma wake_one_ok s q :
  sched_ok s -> sched_ok (wake_one s q).1.2 /\ moved_by wakes s (wake_one s q).1.2.
Proof.
  intros HS. unfold wake_one. destruct (queue_tasks q) as [|id rest]; [by split|].
  destruct (task s id) as [t|] eqn:Ht; [|by split].
  case_if; [by split|]. by destruct (make_ready_ok s id t HS Ht) as (? & ? & _).
Qed.

Lemma wake_all_loop_ok fuel : forall s q n,
  sched_ok s -> sched_ok (wake_all_loop fuel s q n).1.2 /\ moved_by wakes s (wake_all_loop fuel s q n).1.2.
Proof.
  induction fuel as [|fuel IH]; intros s q n HS; simpl; [by split|].
  destruct (wake_one_ok s q HS) as [HS' Hm']. destruct (wake_one s q) as [[r s'] q']. simpl in HS', Hm'.
  destruct r as [[id|]|e]; [|by split..]. destruct (IH s' q' (S n) HS') as [HS'' Hm'']. split; [done|by eapply moved_by_comp; [exact wake_wake|..]].
Qed.

Lemma cancel_wait_ok s id q :
  sched_ok s -> sched_ok (cancel_wait s id q).1.2 /\ moved_by wakes s (cancel_wait s id q).1.2.
Proof.
  intros HS. unfold cancel_wait. destruct (task s id) as [t|] eqn:Ht; [|by split].
  case_if; [by split|]. destruct (queue_remove q id) as [found q']. destruct found; [|by split]. simpl.
  by destruct (make_ready_ok s id t HS Ht) as (? & ? & _).
Qed.

(** ** Reaping *)

Lemma reap_ok s :
  sched_ok s ->
  match exit_queue s with
  | [] => reap_one s = (Ok None, s)
  | id :: rest => exists t s', reap_one s = (Ok (Some t), s') /\ sched_ok s' /\ task s id = Some t /\
      tstate t = Exited /\ exit_queue s' = rest /\ updated (task s) (task s') id None
  end.
Proof.
  intros [HQ HP]. unfold reap_one. destruct (exit_queue s) as [|id rest] eqn:Heq; [done|].
  assert (Hex : exists t, task s id = Some t /\ tstate t = Exited).
  { destruct (proj1 (po_exit _ _ _ HP id)) as [r Hr]; [by left|]. unfold parked in Hr.
    destruct (task s id) as [t|] eqn:Ht; [|done]. exists t. split; [done|]. destruct (tstate t); naive_solver. }
  destruct Hex as (t & Ht & Hs). destruct HQ as [HT HR].
  rewrite bool_decide_eq_false_2.
  2: { intros (u & Hu & Hrun)%(ro_current _ _ _ _ _ _ _ _ _ HR). congruence. }
  destruct (task_slot s id t HT Ht) as (slot & Hi & Hslot & Hid).
  cbn [index with_exit_queue tasks with_table]. rewrite Hi, Hslot. cbn zeta.
  set (s' := bump_reaped _). assert (HU : updated (task s) (task s') id None).
  { intros k. unfold task, s'. cbn. case_decide as Hd; [subst; by rewrite lookup_delete_eq|].
    rewrite lookup_delete_ne by done. destruct (index s !! k) as [sl|] eqn:Hk; [|done].
    destruct (tab_slot _ _ _ HT _ _ Hk) as (u & Hu & Huid). rewrite list_lookup_insert_ne; [done|].
    intros <-. congruence. }
  exists t, s'. split_and!; try done. split.
  - split; [|by eapply run_remove]. constructor; cbn.
    + intros k sl Hk. apply lookup_delete_Some in Hk as [Hne Hk].
      destruct (tab_slot _ _ _ HT _ _ Hk) as (u & Hu & Huid). exists u. split; [|done].
      rewrite list_lookup_insert_ne; [done|]. intros <-. congruence.
    + intros sl [Hsl| ->%list_elem_of_singleton]%elem_of_app.
      * pose proof (tab_free _ _ _ HT _ Hsl) as Hn. rewrite list_lookup_insert_ne; [done|]. intros <-. congruence.
      * apply list_lookup_insert_eq. by eapply lookup_lt_Some.
    + apply NoDup_app. split_and!; [apply HT| |apply NoDup_singleton].
      intros x Hx ->%list_elem_of_singleton. pose proof (tab_free _ _ _ HT _ Hx). congruence.
  - eapply (parked_reap _ _ _ _ id HP); [done|]. intros k. unfold parked at 1, set_at. rewrite (HU k). by case_decide.
Qed.

(** ** Spawning *)

Lemma next_id_fresh s : queue_ok s None -> task s (next_task_id s) = None.
Proof.
  intros [_ HR]. destruct (task s (next_task_id s)) as [t|] eqn:Ht; [|done].
  pose proof (ro_next _ _ _ _ _ _ _ _ _ HR _ _ Ht). lia.
Qed.

Lemma moved_new s s' c t' : task s c = None -> updated (task s) (task s') c (Some t') -> moved s s'.
Proof.
  intros Hn HU id u Hu. exists u. rewrite (updated_ne _ _ _ _ _ HU); [done|]. intros ->. congruence.
Qed.

(** A new task is stored, ready and not yet queued. *)
Lemma arrive_spec s t :
  sched_ok s -> next_task_id s < U64_MAX -> task_id t = next_task_id s -> tstate t = Ready -> is_idle t = false ->
  0 < weight (scheduler_entity t) ->
  let s1 := insert_task (allocate_id s).2 t in
  exists ts fs ix, s1 = with_table (with_next_id s (next_task_id s + 1)) ts fs ix /\ queue_ok s1 (Some (task_id t)) /\
    updated (task s) (task s1) (task_id t) (Some t).
Proof.
  intros [HQ HP] Hlt Hid Hs Hi Hw. pose proof (next_id_fresh s HQ) as Hf. destruct HQ as [HT HR].
  cbn [allocate_id snd]. replace (saturating_add (next_task_id s) 1) with (next_task_id s + 1) by (unfold saturating_add; lia).
  set (s0 := with_next_id s (next_task_id s + 1)).
  destruct (insert_task_spec s0 t HT) as (ts & fs & ix & -> & HT' & HU); [by rewrite Hid|].
  exists ts, fs, ix. split_and!; [done| |done]. split; [done|].
  assert (Hn : task s (task_id t) = None) by (by rewrite Hid).
  refine (run_arrive _ _ _ _ _ _ _ _ _ _ t HU _ HR _ _ _ _ Hs Hi Hw).
  - intros u Hu. change (task s (task_id t) = Some u) in Hu. congruence.
  - lia.
  - cbn. lia.
  - cbn. lia.
Qed.

Lemma joined_new_ok s s1 t :
  sched_ok s -> queue_ok s1 (Some (task_id t)) -> task s (task_id t) = None -> tstate t = Ready -> is_idle t = false ->
  updated (task s) (task s1) (task_id t) (Some t) ->
  exit_queue s1 = exit_queue s -> sleepers s1 = sleepers s ->
  sched_ok (join s1 (task_id t)) /\ moved s (join s1 (task_id t)).
Proof.
  intros [_ HP] HQ1 Hn Hs Hi HU He Hsl. pose proof (updated_eq _ _ _ _ HU) as Ht1.
  destruct (join_spec s1 _ t HQ1 Ht1 Hs Hi) as (ts & sw & swr & a & p & Hj & HU2 & _ & _ & HQ2).
  pose proof (updated_trans _ _ _ _ _ _ HU HU2) as HU12. rewrite Hj in *. split.
  - split; [done|]. cbn [exit_queue sleepers with_preempt with_run_queue with_sums with_tasks with_table].
    rewrite He, Hsl. refine (parked_ok_ext _ _ _ _ _ HP). intros id.
    change (task (with_preempt _ p)) with (task (with_tasks s1 ts)). rewrite (updated_parked _ _ _ _ _ HU12).
    case_decide as Hd; [subst|done]. unfold parked. cbn. by rewrite Hs, Hn.
  - eapply moved_new; [exact Hn|exact HU12].
Qed.

Lemma spawn_ok s stack nm :
  sched_ok s -> next_task_id s < U64_MAX ->
  (spawn s stack nm).1 = Some (next_task_id s) /\ sched_ok (spawn s stack nm).2 /\ moved s (spawn s stack nm).2.
Proof.
  intros HS Hlt. set (t := set_tstate (task_new (next_task_id s) stack nm) Ready).
  destruct (arrive_spec s t HS Hlt eq_refl eq_refl eq_refl eq_refl) as (ts & fs & ix & Heq & HQ1 & HU).
  split; [done|]. change (spawn s stack nm).2 with (join (insert_task (allocate_id s).2 t) (task_id t)).
  apply joined_new_ok; try done; [by apply next_id_fresh, HS|by rewrite Heq..].
Qed.

Lemma spawn_kernel_ok s ip ent nm idl stack :
  sched_ok s -> next_task_id s < U64_MAX -> (idl = true -> idle s = None) ->
  (spawn_kernel_task s ip ent nm idl stack).1 = Some (next_task_id s) /\
  sched_ok (spawn_kernel_task s ip ent nm idl stack).2 /\ moved s (spawn_kernel_task s ip ent nm idl stack).2.
Proof.
  intros HS Hlt Hidl. split; [done|].
  set (t := set_entry (set_tstate (task_new (next_task_id s) stack nm) Ready)
    (mkContext (stack.2 - 8) ip 0 0 ent 0 0 0 2) Voluntary (Some ent) idl).
  change (spawn_kernel_task s ip ent nm idl stack).2 with
    (let s1 := insert_task (allocate_id s).2 t in
     if idl then with_idle s1 (Some (task_id t)) else join s1 (task_id t)).
  pose proof (next_id_fresh s (proj1 HS)) as Hf. destruct idl; cbn zeta.
  2: { destruct (arrive_spec s t HS Hlt eq_refl eq_refl eq_refl eq_refl) as (ts & fs & ix & Heq & HQ1 & HU).
       apply joined_new_ok; try done; by rewrite Heq. }
  destruct HS as [[HT HR] HP]. cbn [allocate_id snd].
  replace (saturating_add (next_task_id s) 1) with (next_task_id s + 1) by (unfold saturating_add; lia).
  destruct (insert_task_spec (with_next_id s (next_task_id s + 1)) t HT Hf) as (ts & fs & ix & -> & HT' & HU).
  split.
  - split; [split; [done|]|].
    + refine (run_new_idle _ _ _ _ _ _ _ _ _ _ t HU _ HR Hf (Hidl eq_refl) _ _ _ _ _); cbn; done || lia.
    + refine (parked_ok_ext _ _ _ _ _ HP). intros id. change (task (with_idle _ _)) with
        (task (with_table (with_next_id s (next_task_id s + 1)) ts fs ix)).
      rewrite (updated_parked _ _ _ _ _ HU). case_decide as Hd; [subst|done]. unfold parked. cbn. by rewrite Hf.
  - by eapply moved_new.
Qed.

(** ** Attributes *)

Lemma nice_clamp_bounds x low high : low <= high -> low <= clamp x low high <= high.
Proof. intros. unfold clamp. repeat case_if; lia. Qed.

Lemma nice_to_weight_lookup n :
  exists w, NICE_TO_WEIGHT !! Z.to_nat (clamp n MIN_NICE MAX_NICE - MIN_NICE) = Some w /\ nice_to_weight n = w.
Proof.
  unfold nice_to_weight. pose proof (nice_clamp_bounds n MIN_NICE MAX_NICE ltac:(done)) as Hb. unfold MIN_NICE, MAX_NICE in *.
  destruct (NICE_TO_WEIGHT !! _) as [w|] eqn:Hl; [by exists w|]. apply lookup_ge_None in Hl. cbn [length NICE_TO_WEIGHT] in Hl. lia.
Qed.

Lemma nice_to_weight_pos n : 0 < nice_to_weight n.
Proof.
  destruct (nice_to_weight_lookup n) as (w & Hl & ->).
  assert (HF : Forall (fun w => 0 < w) NICE_TO_WEIGHT) by (repeat constructor).
  rewrite Forall_lookup in HF. by eapply HF.
Qed.

Lemma runnable_set_iff s id t :
  queue_ok s None -> task s id = Some t ->
  id ∈ rset (run_queue s) (current s) (idle s) <-> is_in_runnable_set s id = true.
Proof.
  intros HQ Ht. unfold is_in_runnable_set. rewrite Ht. destruct HQ as [HT HR]. split.
  - intros (u & Hu & Hi & Hs)%(rset_elem _ _ _ _ _ _ _ _ _ _ HR). assert (u = t) as -> by congruence.
    rewrite Hi. by destruct Hs as [-> | ->].
  - intros Hr. apply andb_prop in Hr as [Hi%negb_true_iff Hs]. unfold rset. apply elem_of_app.
    destruct (tstate t) eqn:Hst; try done.
    + left. apply (ro_queued _ _ _ _ _ _ _ _ _ HR). eauto.
    + right. rewrite (proj2 (ro_current _ _ _ _ _ _ _ _ _ HR id)) by eauto.
      rewrite decide_False; [set_solver|]. intros (u & Hu & ?)%(ro_idle _ _ _ _ _ _ _ _ _ HR). congruence.
Qed.

(** An entity update with the sums adjusted exactly when the task is runnable. *)
Lemma reparked s s' c t t' :
  parked_ok (parked (task s)) (exit_queue s) (sleepers s) -> task s c = Some t ->
  updated (task s) (task s') c (Some t') -> tstate t' = tstate t -> block_reason t' = block_reason t ->
  exit_queue s' = exit_queue s -> sleepers s' = sleepers s ->
  parked_ok (parked (task s')) (exit_queue s') (sleepers s').
Proof.
  intros HP Ht HU Hs Hb -> ->. refine (parked_ok_ext _ _ _ _ _ HP). intros id.
  rewrite (updated_parked _ _ _ _ _ HU). case_decide as Hd; [subst|done]. unfold parked. by rewrite Ht, Hs, Hb.
Qed.

Lemma set_nice_ok s id n :
  sched_ok s -> sched_ok (set_nice s id n).2 /\ moved s (set_nice s id n).2.
Proof.
  intros [HQ HP]. unfold set_nice. destruct (task s id) as [t|] eqn:Ht; [|by split].
  case_if; [by split|]. pose proof (runnable_set_iff s id t HQ Ht) as Hin. destruct HQ as [HT HR].
  set (w := nice_to_weight (clamp n MIN_NICE MAX_NICE)). set (e := with_deadline _ _).
  destruct (task_mut_ts s id (fun t => set_entity t e) t HT Ht) as (ts & -> & HT' & HU); [done|].
  assert (Hpos : 0 < weight e) by apply nice_to_weight_pos.
  cbn [snd]. destruct (is_in_runnable_set s id) eqn:Hr.
  - destruct (add_sums_form (with_tasks s ts) (weight e - weight (scheduler_entity t))
      ((weight e - weight (scheduler_entity t)) * virtual_runtime e)) as (a & -> & Ha).
    split; [|by eapply (moved_updated _)]. split; [split; [done|]|by eapply reparked].
    refine (run_update _ _ _ _ _ _ _ _ _ _ t _ HU _ _ _ _ HR Ht eq_refl eq_refl Hpos _ _ Ha);
      (rewrite decide_True by (by apply Hin)).
    + unfold tw. by rewrite (updated_eq _ _ _ _ HU), Ht.
    + unfold twr. rewrite (updated_eq _ _ _ _ HU), Ht.
      change (scheduler_entity (set_entity t e)) with e. change (virtual_runtime e) with (virtual_runtime (scheduler_entity t)). lia.
  - split; [|by eapply (moved_updated _)]. split; [split; [done|]|by eapply reparked].
    pose proof (run_update _ _ _ _ _ _ _ _ _ _ t _ HU _ 0 0 (average s) HR Ht eq_refl eq_refl Hpos) as Hu.
    rewrite !decide_False, !Z.add_0_r in Hu by (rewrite Hin; done). apply Hu; try done. apply HR.
Qed.

Lemma set_address_space_ok s id a :
  sched_ok s -> sched_ok (set_address_space s id a).2 /\ moved s (set_address_space s id a).2.
Proof.
  intros [HQ HP]. unfold set_address_space. destruct (task s id) as [t|] eqn:Ht; [|by split].
  case_if; [by split|]. destruct (cosmetic s None id t (fun t => set_space t a) HQ Ht) as (ts & -> & HQ' & HU); [done..|].
  split; [|by eapply (moved_updated _)]. split; [done|by eapply reparked].
Qed.

Lemma tick_ok s now : sched_ok s -> sched_ok (tick s now).2 /\ moved s (tick s now).2.
Proof.
  intros [HQ HP]. unfold tick. cbn [current with_clock idle].
  assert (Hidle : sched_ok (bump_idle (with_clock s now)) /\ moved s (bump_idle (with_clock s now))).
  { split; [exact (conj HQ HP)|exact (moved_by_refl hop s)]. }
  destruct (current s) as [c|] eqn:Hc; [|done]. case_if; [done|].
  assert (HQ0 : queue_ok (with_clock s now) None) by exact HQ.
  destruct (charge_spec _ c now HQ0 Hc) as (t & t1 & ts1 & sw & swr & a & Ht & Hrun & Hctl & Hw & Hch & HU1 & HQ1).
  destruct (charge (with_clock s now) c now) as [b s1]. simpl in Hch. subst s1. cbn [snd].
  destruct Hctl as (_ & Hs & Hb & _ & Hi & _). split.
  - split; [exact HQ1|]. eapply (reparked s); [done|exact Ht|exact HU1|done..].
  - eapply (moved_updated _); [exact Ht|exact HU1|by rewrite Hs|done].
Qed.

(** ** Expired sleepers *)

Definition sleeping_until s id d : Prop :=
  exists t, task s id = Some t /\ tstate t = Blocked /\ block_reason t = Some (SleepUntil d).

Lemma sleeping_parked s id d : sleeping_until s id d <-> parked (task s) id = Some (Blocked, Some (SleepUntil d)).
Proof.
  unfold sleeping_until, parked. split.
  - intros (t & -> & -> & ->). done.
  - destruct (task s id) as [t|]; [|done]. destruct (tstate t) eqn:Hs; try done; intros [= Hb]; eauto.
Qed.

Lemma parked_pop P eq sl d id :
  parked_ok P eq (sl ++ [(d, id)]) -> P id <> Some (Blocked, Some (SleepUntil d)) -> parked_ok P eq sl.
Proof.
  intros [] Hne. constructor; try done.
  - by apply StronglySorted_app_1_l in po_sorted.
  - intros k d' Hk. pose proof (po_sleep _ _ Hk) as Hin.
    apply elem_of_app in Hin as [?|[= -> ->]%list_elem_of_singleton]; done.
Qed.

(** One pass of the loop that wakes somebody. *)
Lemma wake_pop s sl d id :
  sched_ok s -> sleepers s = sl ++ [(d, id)] -> sleeping_until s id d ->
  let s' := make_ready (with_sleepers s sl) id in
  sched_ok s' /\ moved_by wakes s s' /\ run_queue s' = run_queue s ++ [id] /\ current s' = current s /\ sleepers s' = sl /\
  (exists t', task s' id = Some t' /\ tstate t' = Ready) /\ forall id', id' <> id -> task s' id' = task s id'.
Proof.
  intros [HQ HP] Hsl (t & Ht & Hb & Hr). set (s0 := with_sleepers s sl).
  assert (HQ0 : queue_ok s0 None) by exact HQ.
  destruct (make_ready_spec s0 id t HQ0 Ht Hb) as (t' & HQ' & [He Hsl' _ _ _] & Hrq & Hc & _ & HU & Hs & _ & _ & Hi & _).
  cbn zeta. assert (Hset : forall x, parked (task (make_ready s0 id)) x = set_at (parked (task s)) id None x).
  { intros x. rewrite (updated_parked _ _ _ _ _ HU). unfold set_at. case_decide; [|done]. unfold parked. by rewrite Hs. }
  split_and!; try done.
  - split; [done|]. rewrite He, Hsl'. apply (parked_pop _ _ _ d id).
    + cbn [sleepers s0 with_sleepers exit_queue]. rewrite <- Hsl. refine (parked_wake _ _ _ _ id HP Hset _).
      intros r. unfold parked. rewrite Ht, Hb. done.
    + rewrite Hset. unfold set_at. by rewrite decide_True.
  - eapply (moved_updated _); [exact Ht|exact HU| |].
    + rewrite Hb, Hs. by right.
    + rewrite Hi. symmetry. exact (blocked_not_idle s None id t HQ Ht Hb).
  - exists t'. split; [exact (updated_eq _ _ _ _ HU)|done].
  - intros id'. exact (updated_ne _ _ _ _ _ HU).
Qed.

(** [s'] is [s] with the tasks of [woken] made ready. *)
Record woke s s' now (woken : list Z) : Prop := {
  wk_ok : sched_ok s';
  wk_moved : moved_by wakes s s';
  wk_queue : run_queue s' = run_queue s ++ woken;
  wk_current : current s' = current s;
  wk_who id : id ∈ woken <-> exists d, d <= now /\ sleeping_until s id d;
  wk_ready id : id ∈ woken -> exists t', task s' id = Some t' /\ tstate t' = Ready;
  wk_others id : id ∉ woken -> task s' id = task s id;
  wk_rest d id : (d, id) ∈ sleepers s' -> now < d;
}.

Lemma woke_none s now : sched_ok s -> (forall d id, (d, id) ∈ sleepers s -> now < d) -> woke s s now [].
Proof.
  intros HS Hall. constructor; try done; [by rewrite app_nil_r| |set_solver].
  intros id. split; [set_solver|]. intros (d & Hd & Hs%sleeping_parked). exfalso.
  apply (po_sleep _ _ _ (proj2 HS)) in Hs. specialize (Hall _ _ Hs). lia.
Qed.

Lemma wake_loop_ok fuel : forall s now n,
  sched_ok s -> (length (sleepers s) <= fuel)%nat ->
  exists woken, (wake_loop fuel s now n).1 = (n + length woken)%nat /\ woke s (wake_loop fuel s now n).2 now woken.
Proof.
  induction fuel as [|fuel IH]; intros s now n HS Hf.
  { exists []. simpl. split; [lia|]. apply woke_none; [done|]. destruct (sleepers s); [set_solver|simpl in Hf; lia]. }
  simpl. destruct (list.last (sleepers s)) as [[d id]|] eqn:Hl.
  2: { exists []. simpl. split; [lia|]. apply woke_none; [done|]. apply last_None in Hl. rewrite Hl. set_solver. }
  apply last_Some in Hl as [sl Hsl].
  assert (Hmax : forall d' id', (d', id') ∈ sleepers s -> d <= d').
  { intros d' id'. rewrite Hsl. intros [Hin|[= -> ->]%list_elem_of_singleton]%elem_of_app; [|lia].
    pose proof (po_sorted _ _ _ (proj2 HS)) as Hst. rewrite Hsl in Hst.
    pose proof (StronglySorted_app_1_elem_of _ _ _ _ (d, id) Hst Hin ltac:(set_solver)) as Hk.
    apply key_lt_false in Hk. simpl in Hk. lia. }
  case_if.
  { exists []. simpl. split; [lia|]. apply woke_none; [done|]. intros d' id' Hin%Hmax. lia. }
  rewrite Hsl, length_app. simpl. replace (pred (length sl + 1)) with (length sl) by lia. rewrite take_app_length.
  rewrite Hsl, length_app in Hf. simpl in Hf.
  assert (Htest : (match task (with_sleepers s sl) id with
      | Some t => bool_decide (tstate t = Blocked) && bool_decide (block_reason t = Some (SleepUntil d))
      | None => false end = true) <-> sleeping_until s id d).
  { change (task (with_sleepers s sl) id) with (task s id). unfold sleeping_until. destruct (task s id) as [t|]; [|naive_solver].
    rewrite andb_true_iff, !bool_decide_eq_true. naive_solver. }
  destruct (match task (with_sleepers s sl) id with Some _ => _ | None => _ end) eqn:Hstill.
  - apply proj1 in Htest. specialize (Htest eq_refl).
    destruct (wake_pop s sl d id HS Hsl Htest) as (HS' & Hm' & Hrq' & Hc' & Hsl' & (t1 & Ht1 & Hs1) & Ho').
    set (s1 := make_ready (with_sleepers s sl) id) in *.
    destruct (IH s1 now (S n) HS' ltac:(rewrite Hsl'; lia)) as (woken & Hn & [W1 W2 W3 W4 W5 W6 W7 W8]).
    assert (Hid : id ∉ woken).
    { rewrite W5. intros (d' & _ & u & Hu & Hub & _). congruence. }
    exists (id :: woken). simpl. split; [rewrite Hn; lia|]. constructor; try done.
    + by eapply moved_by_comp; [exact wake_wake|..].
    + by rewrite W3, Hrq', <- app_assoc.
    + by rewrite W4.
    + intros k. rewrite elem_of_cons, W5. unfold sleeping_until. destruct (decide (k = id)) as [->|Hne].
      * split; [|by left]. intros _. exists d. by split; [lia|].
      * rewrite (Ho' k Hne). naive_solver.
    + intros k [->|Hk]%elem_of_cons; [|by apply W6]. rewrite (W7 id Hid). eauto.
    + intros k [Hne Hk]%not_elem_of_cons. by rewrite (W7 k Hk), (Ho' k Hne).
  - assert (Hns : ~ sleeping_until s id d) by (intros Hx%Htest; done).
    assert (HS1 : sched_ok (with_sleepers s sl)).
    { split; [exact (proj1 HS)|]. apply (parked_pop _ _ _ d id).
      - cbn [exit_queue sleepers with_sleepers]. rewrite <- Hsl. exact (proj2 HS).
      - by rewrite <- sleeping_parked. }
    destruct (IH (with_sleepers s sl) now n HS1 ltac:(cbn; lia)) as (woken & Hn & [W1 W2 W3 W4 W5 W6 W7 W8]).
    exists woken. split; [done|]. by constructor.
Qed.
