(* ===== verification/SchedSpec.v ===== *)
(** * SchedSpec: what the scheduler guarantees

    The operations of [kernel/src/task/scheduler.rs] as a step relation, and
    the guarantees over it: the invariant, legal task lives, EEVDF selection,
    work conservation, lag preservation and timely wake-ups. *)

From stdpp Require Import base list numbers gmap sets sorting relations strings.
From S2P Require Import Prelude Sched SchedOps SchedLife.
Local Open Scope Z_scope.

Implicit Types (s : Scheduler) (id c now : Z) (q : WaitQueue).

(** The idle task neither sleeps, blocks nor exits, and there is one of it. *)
Inductive sched_step : Scheduler -> Scheduler -> Prop :=
| st_spawn s stack nm : next_task_id s < U64_MAX -> sched_step s (spawn s stack nm).2
| st_spawn_kernel s ip ent nm idl stack : next_task_id s < U64_MAX -> (idl = true -> idle s = None) ->
    sched_step s (spawn_kernel_task s ip ent nm idl stack).2
| st_set_address_space s id a : sched_step s (set_address_space s id a).2
| st_set_nice s id n : sched_step s (set_nice s id n).2
| st_tick s now : sched_step s (tick s now).2
| st_schedule s now : sched_step s (schedule s now).2
| st_preempt s sp now next s' : idle s <> None -> preempt s sp now = Some (next, s') -> sched_step s s'
| st_yield s now : sched_step s (prepare_voluntary_yield s now).2
| st_sleep s c d now : current s = Some c -> idle s <> Some c -> sched_step s (sleep_current_until s d now).2
| st_wake_expired s now : sched_step s (wake_expired s now).2
| st_block s c r q now : current s = Some c -> idle s <> Some c -> (forall d, r <> SleepUntil d) ->
    sched_step s (block_current s r q now).1.2
| st_wake_one s q : sched_step s (wake_one s q).1.2
| st_wake_all s q : sched_step s (wake_all s q).1.2
| st_wake_task s id : sched_step s (wake_task s id).2
| st_cancel_wait s id q : sched_step s (cancel_wait s id q).1.2
| st_exit s c st now : current s = Some c -> idle s <> Some c -> sched_step s (exit_current s st now).2
| st_reap s : sched_step s (reap_one s).2.

(** A task present before is present after, in the same state or one edge of
    the state machine further, unless it had exited and was the first to be
    reaped. *)
Definition legal s s' : Prop :=
  forall id t, task s id = Some t ->
    (exists t', task s' id = Some t' /\ hop (tstate t) (tstate t') /\ is_idle t' = is_idle t) \/
    (task s' id = None /\ tstate t = Exited /\ head (exit_queue s) = Some id).

Lemma moved_legal s s' : moved s s' -> legal s s'.
Proof. intros Hm id t Ht. left. by apply Hm. Qed.

Lemma step_ok s s' : sched_step s s' -> sched_ok s -> sched_ok s' /\ legal s s'.
Proof.
  assert (Hlift : forall s s', sched_ok s' /\ moved s s' -> sched_ok s' /\ legal s s').
  { intros ? ? [? ?]. split; [done|by apply moved_legal]. }
  destruct 1; intros HS; [apply Hlift..|].
  - by destruct (spawn_ok s stack nm HS) as (_ & ? & ?).
  - by destruct (spawn_kernel_ok s ip ent nm idl stack HS) as (_ & ? & ?).
  - by apply set_address_space_ok.
  - by apply set_nice_ok.
  - by apply tick_ok.
  - by destruct (schedule_ok s now HS) as (next & s1 & s' & -> & ? & ? & _).
  - destruct (preempt_ok s sp now HS) as (n & s2 & Heq & ? & ? & _); [done|]. simplify_eq. done.
  - by apply voluntary_yield_ok.
  - by destruct (sleep_ok s c d now HS) as (next & s' & -> & ? & ? & _).
  - destruct (wake_loop_ok (length (sleepers s)) s now 0 HS) as (woken & _ & W); [lia|]. split; [apply W|]. apply wakes_hop, W.
  - by destruct (block_ok s c r q now HS) as (next & s' & -> & ? & ? & _).
  - split; [|apply wakes_hop]; by apply wake_one_ok.
  - split; [|apply wakes_hop]; by apply wake_all_loop_ok.
  - split; [|apply wakes_hop]; by apply wake_task_ok.
  - split; [|apply wakes_hop]; by apply cancel_wait_ok.
  - by destruct (exit_ok s c st now HS) as (next & s' & -> & ? & ? & _).
  - pose proof (reap_ok s HS) as Hr. destruct (exit_queue s) as [|id rest] eqn:He.
    + rewrite Hr. split; [done|]. apply moved_legal. reflexivity.
    + destruct Hr as (t & s' & -> & HS' & Ht & Hs & _ & HU). cbn [snd]. split; [done|]. intros k u Hk.
      destruct (decide (k = id)) as [->|Hne].
      * right. rewrite (updated_eq _ _ _ _ HU), He. split_and!; [done|congruence|done].
      * left. exists u. by rewrite (updated_ne _ _ _ _ _ HU Hne).
Qed.

Lemma initial_ok p : sched_ok (with_policy sched_new p).
Proof.
  assert (Ht : forall id, task (with_policy sched_new p) id = None) by (intros id; done).
  split; [split|].
  - constructor; cbn; [intros ? ?; by rewrite lookup_empty|set_solver|constructor].
  - constructor; cbn; try done; try (by intros; rewrite Ht in *); try constructor.
    + intros. set_solver.
    + by intros [(t & Hx & _) _].
    + done.
    + by intros (t & Hx & _).
    + done.
    + by intros (t & Hx & _).
  - constructor; cbn; [constructor| |constructor|done]. intros id. split; [set_solver|by intros (? & ?)].
Qed.

Lemma reachable_ok p s : rtc sched_step (with_policy sched_new p) s -> sched_ok s.
Proof.
  intros Hr. pose proof (initial_ok p) as H0. induction Hr as [|s1 s2 s3 Hs Hr IH]; [done|].
  apply IH. by eapply step_ok.
Qed.

(** ** The guarantees *)

(** A task that has not run ahead of the average. *)
Definition eligible s (t : TaskControlBlock) : Prop := virtual_runtime (scheduler_entity t) <= average s.
(** How far the average is ahead of a task. *)
Definition distance s (t : TaskControlBlock) : Z := average s - virtual_runtime (scheduler_entity t).
(** A sleeping task whose time has come. *)
Definition expired s now id : Prop := exists d, d <= now /\ sleeping_until s id d.

(** C5. In every state the scheduler can reach from an empty one, the slot
    table and its index agree, the run queue holds exactly the ready tasks
    other than idle, each once, the current task is the one that is running,
    the weight and weighted-runtime sums range over exactly the runnable
    tasks and the average is their quotient, exited tasks wait in the exit
    queue and every sleeping task has an entry in the sorted sleepers. *)
Theorem scheduler_invariant p s :
  rtc sched_step (with_policy sched_new p) s -> sched_ok s.
Proof. apply reachable_ok. Qed.

(** C17. In one operation of the scheduler a task stays in its state or takes
    one edge of the state machine, never two (a blocked task becomes ready
    before it runs, a ready one runs before it blocks or exits); it keeps its
    idleness, and it disappears only by being reaped after it exited, in the
    order of exits. *)
Theorem tasks_live_legally p s s' :
  rtc sched_step (with_policy sched_new p) s -> sched_step s s' -> legal s s'.
Proof. intros Hr Hs. apply (step_ok s s' Hs). by eapply reachable_ok. Qed.

(** C18. Under EEVDF, [pick_next] removes from the queue a task that has not
    run ahead of the average and whose deadline is the earliest of all such
    tasks, smallest id first on ties; one always exists, so the
    least-runtime fallback is never taken. The idle task is returned only on
    an empty queue. *)
Theorem pick_next_is_eevdf s :
  sched_ok s -> current s = None -> policy s = Eevdf ->
  (run_queue s = [] -> pick_next s = (idle s, s)) /\
  (run_queue s <> [] -> exists id t rq', pick_next s = (Some id, with_run_queue s rq') /\
     id :: rq' ≡ₚ run_queue s /\ task s id = Some t /\
     eligible s t /\
     forall id' t', id' ∈ run_queue s -> task s id' = Some t' -> eligible s t' ->
       virtual_deadline (scheduler_entity t) < virtual_deadline (scheduler_entity t') \/
       (virtual_deadline (scheduler_entity t) = virtual_deadline (scheduler_entity t') /\ id <= id')).
Proof.
  intros [HQ _] Hc Hp. pose proof (pick_next_spec s HQ Hc) as Hpick.
  assert (Hel : forall t, pick_eligible s t = true <-> eligible s t).
  { intros t. unfold eligible, pick_eligible, is_eligible. rewrite bool_decide_eq_true_2 by done. simpl. apply Z.leb_le. }
  case_decide as Hq; split; try done. intros _.
  destruct Hpick as (id & t & rq' & (Hin & Ht & He & Hmin) & Hperm & Heq).
  exists id, t, rq'. split_and!; [done|done|done|by apply Hel|]. intros id' t' Hin' Ht' He'%Hel.
  specialize (Hmin id' t' Hin' Ht' He'). unfold pick_key in Hmin. rewrite Hp in Hmin.
  apply key_lt_false in Hmin. simpl in Hmin. lia.
Qed.

(** Rescheduling always succeeds: the running task goes to the back of
    the queue (the idle task does not), the next one is running and current,
    nobody else moves, and the idle task runs only when no task is ready. *)
Theorem schedule_is_work_conserving s now :
  sched_ok s ->
  exists next s', schedule s now = (Ok next, s') /\ sched_ok s' /\ legal s s' /\ current s' = next /\
    (forall id, current s <> Some id -> next <> Some id -> task s' id = task s id) /\
    (forall id t, next = Some id -> task s' id = Some t -> is_idle t = true ->
       forall id' t', task s' id' = Some t' -> tstate t' = Ready -> id' = id) /\
    (next = None -> idle s = None /\ forall id t, task s id = Some t -> is_runnable (tstate t) = false).
Proof.
  intros HS. destruct (schedule_ok s now HS) as (next & s1 & s' & Heq & HS' & Hm & HS1 & Hr & Hd).
  pose proof (proj2 (proj1 HS')) as HR'. pose proof (proj2 (proj1 HS1)) as HR1. pose proof (proj2 (proj1 HS)) as HR.
  exists next, s'. split_and!; [done|done|by apply moved_legal|apply Hd| | |].
  - intros id Hc Hn. by rewrite (dp_others _ _ _ _ Hd), (rq_others _ _ _ Hr).
  - intros id t Hn Ht Hi id' t' Ht' Hs'.
    assert (Hidl : idle s' = Some id) by (apply (ro_idle _ _ _ _ _ _ _ _ _ HR'); eauto).
    assert (Hq : run_queue s' = []).
    { destruct (decide (run_queue s1 = [])) as [Hq|Hq]; [by apply (dp_idle _ _ _ _ Hd)|].
      destruct (dp_chosen _ _ _ _ Hd Hq) as (k & u & Hk & (Hin & Hu & _) & _).
      assert (k = id) as -> by congruence.
      destruct (queued_ready s1 None id (proj1 HS1) Hin) as (v & Hv & _ & Hvi).
      destruct (dp_next _ _ _ _ Hd id Hn) as (w & Hw & _ & Hw'). assert (t = set_times (set_tstate w Running) now now) by congruence.
      subst t. cbn in Hi. congruence. }
    destruct (is_idle t') eqn:Hi'.
    + assert (idle s' = Some id') by (apply (ro_idle _ _ _ _ _ _ _ _ _ HR'); eauto). congruence.
    + assert (Hin : id' ∈ run_queue s') by (apply (ro_queued _ _ _ _ _ _ _ _ _ HR'); eauto).
      rewrite Hq in Hin. set_solver.
  - intros ->. destruct (decide (run_queue s1 = [])) as [Hq|Hq].
    2: { destruct (dp_chosen _ _ _ _ Hd Hq) as (k & _ & ? & _). done. }
    destruct (dp_idle _ _ _ _ Hd Hq) as [Hidl _]. rewrite (kp_idle _ _ (rq_kept _ _ _ Hr)) in Hidl. symmetry in Hidl.
    split; [done|]. intros id t Ht.
    assert (Hni : is_idle t = false).
    { destruct (is_idle t) eqn:Hi; [|done]. assert (idle s = Some id) by (apply (ro_idle _ _ _ _ _ _ _ _ _ HR); eauto). congruence. }
    pose proof (rq_queue _ _ _ Hr) as Hrq. rewrite Hq in Hrq. destruct (tstate t) eqn:Hs; try done.
    + assert (Hin : id ∈ run_queue s) by (apply (ro_queued _ _ _ _ _ _ _ _ _ HR); eauto).
      destruct (current s); [case_decide|]; rewrite <- ?Hrq in Hin; try set_solver. by destruct (run_queue s).
    + rewrite (proj2 (ro_current _ _ _ _ _ _ _ _ _ HR id)) in Hrq by eauto. rewrite decide_False in Hrq by congruence.
      by destruct (run_queue s).
Qed.

Lemma quot_bound a b : 0 < b -> exists r, a = b * Z.quot a b + r /\ - b < r < b.
Proof.
  intros Hb. exists (Z.rem a b). pose proof (Z.quot_rem a b ltac:(lia)). pose proof (Z.rem_bound_abs a b ltac:(lia)). lia.
Qed.

(** Placing at [V - lag * (W + w) / W] leaves [V' - vruntime] at the lag, up to
    the three truncating divisions. *)
Lemma lag_restored W w runtimes l :
  0 < W -> 0 < w ->
  let v := Z.quot runtimes W - placed_lag l w W in
  Z.abs (Z.quot (runtimes + w * v) (W + w) - v - l) <= 2.
Proof.
  intros HW Hw. unfold placed_lag. destruct (W >? 0) eqn:HWb; [|lia]. cbn zeta.
  destruct (quot_bound runtimes W HW) as (r1 & E1 & B1).
  destruct (quot_bound (l * (W + w)) W HW) as (r2 & E2 & B2).
  set (a := Z.quot runtimes W) in *. set (p := Z.quot (l * (W + w)) W) in *.
  destruct (quot_bound (runtimes + w * (a - p)) (W + w)) as (r3 & E3 & B3); [lia|].
  set (V := Z.quot (runtimes + w * (a - p)) (W + w)) in *.
  assert (E : (W + w) * (V - (a - p) - l) = r1 - r2 - r3) by nia. nia.
Qed.

(** C19. A task that wakes up rejoins with the lag it had when it stopped: the
    distance from the average to its virtual runtime is its saved lag up to
    rounding by two (zero when it is alone), and its deadline is one weighted
    slice away. *)
Theorem waking_restores_lag s id t :
  sched_ok s -> task s id = Some t -> tstate t = Blocked ->
  let s' := make_ready s id in
  exists t', task s' id = Some t' /\ tstate t' = Ready /\
    (0 < sum_weight s -> Z.abs (distance s' t' - lag (scheduler_entity t)) <= 2) /\
    (sum_weight s = 0 -> distance s' t' = 0) /\
    virtual_deadline (scheduler_entity t') = virtual_runtime (scheduler_entity t') + weighted_slice (scheduler_entity t').
Proof.
  intros [HQ _] Ht Hb. cbn zeta.
  destruct (make_ready_spec s id t HQ Ht Hb) as (t' & HQ' & _ & _ & _ & _ & HU & Hs & _ & _ & _ & He & Hsw & Hswr).
  pose proof (ro_weight _ _ _ _ _ _ _ _ _ (proj2 HQ) _ _ Ht) as [Hw _].
  exists t'. unfold distance. split_and!; [exact (updated_eq _ _ _ _ HU)|done| | |].
  - intros Hpos.
    assert (Ha : average s = Z.quot (sum_weighted_runtime s) (sum_weight s)) by (by apply (proj2 HQ)).
    rewrite (ro_average _ _ _ _ _ _ _ _ _ (proj2 HQ')), Hsw, Hswr, He by (rewrite Hsw, He; cbn; lia).
    cbn. rewrite Ha. apply (lag_restored (sum_weight s) _ _ _ Hpos Hw).
  - intros Hz. assert (Hzr : sum_weighted_runtime s = 0).
    { rewrite (ro_sum_runtime _ _ _ _ _ _ _ _ _ (proj2 HQ)). pose proof (ro_sum_weight _ _ _ _ _ _ _ _ _ (proj2 HQ)) as Hsum.
      rewrite Hz in Hsum.
      assert (Hnil : rset (run_queue s) (current s) (idle s) = []); [|by rewrite Hnil].
      destruct (decide (rset (run_queue s) (current s) (idle s) = [])) as [|Hne]; [done|].
      assert (0 < zsum (tw (task s)) (rset (run_queue s) (current s) (idle s))); [|lia].
      apply zsum_nonneg; [|done]. intros k (u & Hu & _)%(rset_elem _ _ _ _ _ _ _ _ _ _ (proj2 HQ)).
      unfold tw. rewrite Hu. by apply (ro_weight _ _ _ _ _ _ _ _ _ (proj2 HQ) _ _ Hu). }
    rewrite (ro_average _ _ _ _ _ _ _ _ _ (proj2 HQ')), Hsw, Hswr, He, Hz, Hzr by (rewrite Hsw, He; cbn; lia).
    cbn [joined_entity weight virtual_runtime with_enqueue with_deadline with_lag with_vruntime].
    rewrite !Z.add_0_l, Z.mul_comm, Z.quot_mul by lia. lia.
  - by rewrite He.
Qed.

(** [wake_expired] makes ready, in one pass, exactly the tasks that sleep
    until a time not after [now], counts them, appends them to the run queue
    and leaves every other task and the running one alone; no expired entry
    stays behind. *)
Theorem wake_expired_exact s now :
  sched_ok s ->
  exists woken, let '(n, s') := wake_expired s now in
    n = length woken /\ run_queue s' = run_queue s ++ woken /\ current s' = current s /\ NoDup woken /\
    (forall id, id ∈ woken <-> expired s now id) /\
    (forall id, id ∈ woken -> exists t', task s' id = Some t' /\ tstate t' = Ready) /\
    (forall id, id ∉ woken -> task s' id = task s id) /\
    (forall d id, (d, id) ∈ sleepers s' -> now < d).
Proof.
  intros HS. unfold wake_expired.
  destruct (wake_loop_ok (length (sleepers s)) s now 0 HS) as (woken & Hn & [W1 _ W3 W4 W5 W6 W7 W8]); [lia|].
  exists woken. destruct (wake_loop _ s now 0) as [n s']. simpl in *. split_and!; try done.
  pose proof (ro_nodup _ _ _ _ _ _ _ _ _ (proj2 (proj1 W1))) as Hnd. rewrite W3 in Hnd. by apply NoDup_app in Hnd as (_ & _ & ?).
Qed.

(** ** Witnesses: an idle task and two workers, one of which goes to sleep. *)

Definition demo0 : Scheduler := with_policy sched_new Eevdf.
Definition demo1 : Scheduler := (spawn_kernel_task demo0 8 16 "idle" true (0, 4096)).2.
Definition demo2 : Scheduler := (spawn demo1 (4096, 8192) "a").2.
Definition demo3 : Scheduler := (spawn demo2 (8192, 12288) "b").2.
Definition demo4 : Scheduler := (schedule demo3 0).2.
Definition demo5 : Scheduler := (sleep_current_until demo4 500 100).2.

Lemma demo3_reach : rtc sched_step demo0 demo3.
Proof.
  apply rtc_l with demo1; [by apply st_spawn_kernel|]. apply rtc_l with demo2; [by apply st_spawn|].
  apply rtc_once. by apply st_spawn.
Qed.
Lemma demo4_reach : rtc sched_step demo0 demo4.
Proof. apply rtc_r with demo3; [apply demo3_reach|apply st_schedule]. Qed.
Lemma demo5_step : sched_step demo4 demo5.
Proof. apply st_sleep with 2; vm_compute; done. Qed.
Lemma demo5_reach : rtc sched_step demo0 demo5.
Proof. apply rtc_r with demo4; [apply demo4_reach|apply demo5_step]. Qed.

Lemma scheduler_invariant_witness : sched_ok demo5 /\ current demo5 = Some 3 /\ sleepers demo5 = [(500, 2)].
Proof. split; [exact (scheduler_invariant Eevdf demo5 demo5_reach)|]. split; vm_compute; reflexivity. Defined.

Lemma tasks_live_legally_witness :
  tstate <$> task demo4 2 = Some Running /\ tstate <$> task demo5 2 = Some Blocked /\ legal demo4 demo5.
Proof.
  split; [vm_compute; reflexivity|]. split; [vm_compute; reflexivity|].
  exact (tasks_live_legally Eevdf demo4 demo5 demo4_reach demo5_step).
Defined.

Lemma pick_next_is_eevdf_witness :
  exists id t rq', pick_next demo3 = (Some id, with_run_queue demo3 rq') /\ id :: rq' ≡ₚ [2; 3] /\
    task demo3 id = Some t /\ eligible demo3 t.
Proof.
  destruct (pick_next_is_eevdf demo3) as [_ H].
  - exact (reachable_ok _ _ demo3_reach).
  - vm_compute. reflexivity.
  - vm_compute. reflexivity.
  - destruct H as (id & t & rq' & H1 & H2 & H3 & H4 & _); [vm_compute; discriminate|]. by exists id, t, rq'.
Defined.

Lemma schedule_is_work_conserving_witness :
  exists s', schedule demo5 200 = (Ok (Some 3), s') /\ sched_ok s' /\ current s' = Some 3.
Proof.
  destruct (schedule_is_work_conserving demo5 200 (reachable_ok _ _ demo5_reach)) as (next & s' & Heq & HS & _ & Hc & _).
  assert (Hn : next = Some 3).
  { apply (f_equal fst) in Heq. vm_compute in Heq. by injection Heq as <-. }
  exists s'. split; [by rewrite Heq, Hn|]. split; [done|by rewrite Hc].
Defined.

Lemma waking_restores_lag_witness :
  sum_weight demo5 = 1024 /\ exists t t', task demo5 2 = Some t /\ task (make_ready demo5 2) 2 = Some t' /\
    Z.abs (distance (make_ready demo5 2) t' - lag (scheduler_entity t)) <= 2.
Proof.
  split; [vm_compute; reflexivity|].
  destruct (task demo5 2) as [t|] eqn:Ht; [|vm_compute in Ht; discriminate]. exists t.
  destruct (waking_restores_lag demo5 2 t (reachable_ok _ _ demo5_reach) Ht) as (t' & H1 & _ & H2 & _).
  - assert (Hs : tstate <$> task demo5 2 = Some Blocked) by (vm_compute; reflexivity). rewrite Ht in Hs. by injection Hs.
  - exists t'. split; [done|]. split; [done|]. apply H2. vm_compute. reflexivity.
Defined.

Lemma wake_expired_exact_witness :
  exists woken, (wake_expired demo5 500).1 = length woken /\ (2 ∈ woken <-> expired demo5 500 2).
Proof.
  destruct (wake_expired_exact demo5 500 (reachable_ok _ _ demo5_reach)) as (woken & H). exists woken.
  destruct (wake_expired demo5 500) as [n s']. destruct H as (H1 & _ & _ & _ & H2 & _). split; [exact H1|apply H2].
Defined.
