(* ===== verification/MapInterface.v ===== *)
(** * MapInterface: the kernel's map and set traits

    [kernel/src/collections/traits.rs]: the operations of the [Map] trait as a
    class, what an implementation promises as a second class over a finite map,
    and the lemmas the implementations share: what a table of slots holds, and
    how one write changes it.

    An operation is partial: [None] is a probe loop that never ends. The laws
    say every operation returns. *)

From stdpp Require Import base list numbers gmap sets.
From S2P Require Import Prelude.

(** [update] is a write through the reference [get_mut] returns; it returns
    the value found. *)
Class Map (K V M : Type) : Type := {
  map_insert : M -> K -> V -> option (option V * M);
  map_get : M -> K -> option (option V);
  map_update : M -> K -> (V -> V) -> option (option V * M);
  map_remove : M -> K -> option (option V * M);
  map_len : M -> nat;
  map_clear : M -> M;
}.
#[global] Hint Mode Map - - + : typeclass_instances.

(** The provided methods. *)
Definition map_contains_key {K V M} `{Map K V M} (m : M) (k : K) : option bool :=
  (fun o => bool_decide (is_Some o)) <$> (map_get m k : option (option V)).
Definition map_is_empty {K V M} `{Map K V M} (m : M) : bool := (map_len m =? 0)%nat.

(** Whether key [k] can be stored: it is there already, or the capacity (if the
    map has one) is not reached. *)
Definition room {K V} `{Countable K} (cap : option nat) (g : gmap K V) (k : K) : bool :=
  bool_decide (is_Some (g !! k)) || match cap with Some n => (size g <? n)%nat | None => true end.
Definition bounded_insert {K V} `{Countable K} (cap : option nat) (k : K) (v : V) (g : gmap K V) : gmap K V :=
  if room cap g k then <[k := v]> g else g.

(** What an implementation promises: it represents a finite map and each
    operation is the map's; at its capacity it ignores a new key. *)
Class MapSpec (K V M : Type) `{Countable K} `{!Map K V M} : Type := {
  map_ok : M -> Prop;
  map_model : M -> gmap K V;
  map_capacity : M -> option nat;
  law_get m k : map_ok m -> map_get m k = Some (map_model m !! k);
  law_insert m k v : map_ok m ->
    exists m', map_insert m k v = Some (map_model m !! k, m') /\ map_ok m' /\ map_capacity m' = map_capacity m /\
      map_model m' = bounded_insert (map_capacity m) k v (map_model m);
  law_update m k f : map_ok m ->
    exists m', map_update m k f = Some (map_model m !! k, m') /\ map_ok m' /\ map_capacity m' = map_capacity m /\
      map_model m' = alter f k (map_model m);
  law_remove m k : map_ok m ->
    exists m', map_remove m k = Some (map_model m !! k, m') /\ map_ok m' /\ map_capacity m' = map_capacity m /\
      map_model m' = delete k (map_model m);
  law_len m : map_ok m -> map_len m = size (map_model m);
  law_clear m : map_ok m ->
    map_ok (map_clear m) /\ map_capacity (map_clear m) = map_capacity m /\ map_model (map_clear m) = ∅;
}.

(** ** Sequences of operations *)

Inductive MapOp (K V : Type) : Type :=
| OpInsert (k : K) (v : V)
| OpGet (k : K)
| OpGetMut (k : K) (f : V -> V)
| OpRemove (k : K)
| OpContainsKey (k : K)
| OpLen
| OpIsEmpty
| OpClear.
Arguments OpInsert {K V}.
Arguments OpGet {K V}.
Arguments OpGetMut {K V}.
Arguments OpRemove {K V}.
Arguments OpContainsKey {K V}.
Arguments OpLen {K V}.
Arguments OpIsEmpty {K V}.
Arguments OpClear {K V}.
Inductive MapOut (V : Type) : Type := OutValue (o : option V) | OutBool (b : bool) | OutLen (n : nat) | OutUnit.
Arguments OutValue {V}.
Arguments OutBool {V}.
Arguments OutLen {V}.
Arguments OutUnit {V}.

Section Run.
Context {K V M : Type} `{Countable K} `{!Map K V M}.

Definition map_step (m : M) (op : MapOp K V) : option (MapOut V * M) :=
  match op with
  | OpInsert k v => (fun '(o, m) => (OutValue o, m)) <$> map_insert m k v
  | OpGet k => (fun o => (OutValue o, m)) <$> map_get m k
  | OpGetMut k f => (fun '(o, m) => (OutValue o, m)) <$> map_update m k f
  | OpRemove k => (fun '(o, m) => (OutValue o, m)) <$> map_remove m k
  | OpContainsKey k => (fun b => (OutBool b, m)) <$> map_contains_key m k
  | OpLen => Some (OutLen (map_len m), m)
  | OpIsEmpty => Some (OutBool (map_is_empty m), m)
  | OpClear => Some (OutUnit, map_clear m)
  end.
(** The same on a finite map. *)
Definition spec_step (cap : option nat) (g : gmap K V) (op : MapOp K V) : MapOut V * gmap K V :=
  match op with
  | OpInsert k v => (OutValue (g !! k), bounded_insert cap k v g)
  | OpGet k => (OutValue (g !! k), g)
  | OpGetMut k f => (OutValue (g !! k), alter f k g)
  | OpRemove k => (OutValue (g !! k), delete k g)
  | OpContainsKey k => (OutBool (bool_decide (is_Some (g !! k))), g)
  | OpLen => (OutLen (size g), g)
  | OpIsEmpty => (OutBool (bool_decide (g = ∅)), g)
  | OpClear => (OutUnit, ∅)
  end.
Fixpoint map_run (ops : list (MapOp K V)) (m : M) : option (list (MapOut V) * M) :=
  match ops with
  | [] => Some ([], m)
  | op :: ops =>
      match map_step m op with
      | Some (o, m) => (fun '(os, m) => (o :: os, m)) <$> map_run ops m
      | None => None
      end
  end.
Fixpoint spec_run (cap : option nat) (ops : list (MapOp K V)) (g : gmap K V) : list (MapOut V) * gmap K V :=
  match ops with
  | [] => ([], g)
  | op :: ops =>
      let '(o, g) := spec_step cap g op in
      let '(os, g) := spec_run cap ops g in (o :: os, g)
  end.

Context `{!MapSpec K V M}.

Lemma map_step_refines m op :
  map_ok m ->
  exists m', map_step m op = Some ((spec_step (map_capacity m) (map_model m) op).1, m') /\ map_ok m' /\
    map_capacity m' = map_capacity m /\ map_model m' = (spec_step (map_capacity m) (map_model m) op).2.
Proof.
  intros Hok. destruct op; simpl.
  - destruct (law_insert m k v Hok) as (m' & -> & ?). by exists m'.
  - rewrite law_get by done. by exists m.
  - destruct (law_update m k f Hok) as (m' & -> & ?). by exists m'.
  - destruct (law_remove m k Hok) as (m' & -> & ?). by exists m'.
  - unfold map_contains_key. rewrite law_get by done. by exists m.
  - rewrite law_len by done. by exists m.
  - unfold map_is_empty. rewrite law_len by done. exists m. split_and!; try done. do 3 f_equal.
    destruct (Nat.eqb_spec (size (map_model m)) 0) as [Hz|Hz].
    + apply map_size_empty_inv in Hz. by rewrite bool_decide_eq_true_2.
    + rewrite bool_decide_eq_false_2; [done|]. intros Hm. apply Hz. by rewrite Hm, map_size_empty.
  - destruct (law_clear m Hok) as (? & ? & ?). by exists (map_clear m).
Qed.

(** Any sequence of operations returns, with the answers of a finite map. *)
Lemma map_run_refines ops : forall m,
  map_ok m ->
  exists m', map_run ops m = Some ((spec_run (map_capacity m) ops (map_model m)).1, m') /\ map_ok m' /\
    map_model m' = (spec_run (map_capacity m) ops (map_model m)).2.
Proof.
  induction ops as [|op ops IH]; intros m Hok; simpl; [by exists m|].
  destruct (map_step_refines m op Hok) as (m1 & -> & Hok1 & Hc1 & Hm1).
  destruct (IH m1 Hok1) as (m2 & -> & Hok2 & Hm2). rewrite Hc1, Hm1 in *.
  destruct (spec_step (map_capacity m) (map_model m) op) as [o g]. simpl in *.
  destruct (spec_run (map_capacity m) ops g) as [os g']. by exists m2.
Qed.
End Run.

(** ** Entries up to order *)

Definition of_option {A} (o : option A) : list A := match o with Some a => [a] | None => [] end.

Section Entries.
Context {K V : Type} `{Countable K}.
Implicit Types (es E : list (K * V)).

(** A new key. *)
Lemma entries_new es es' E k v :
  NoDup es.*1 -> es ≡ₚ E -> es' ≡ₚ (k, v) :: E -> (list_to_map es : gmap K V) !! k = None ->
  NoDup es'.*1 /\ list_to_map es' = <[k := v]> (list_to_map es : gmap K V) /\ length es' = S (length es).
Proof.
  intros Hu HE HE' Hno.
  assert (Hu' : NoDup es'.*1).
  { rewrite HE'. simpl. apply NoDup_cons. split; [|by rewrite <- HE]. rewrite <- HE. by apply not_elem_of_list_to_map_2. }
  split_and!; [done| |].
  - rewrite (list_to_map_proper es' ((k, v) :: E)) by done. simpl. f_equal.
    symmetry. by apply list_to_map_proper.
  - by rewrite (Permutation_length HE'), (Permutation_length HE).
Qed.

(** The value of a key overwritten, or its entry dropped. *)
Lemma entries_old es es' E k v (o : option V) :
  NoDup es.*1 -> es ≡ₚ (k, v) :: E -> es' ≡ₚ of_option ((fun v => (k, v)) <$> o) ++ E ->
  NoDup es'.*1 /\ (list_to_map es : gmap K V) !! k = Some v /\
  list_to_map es' = match o with Some v' => <[k := v']> (list_to_map es) | None => delete k (list_to_map es : gmap K V) end /\
  length es = (length es' + match o with Some _ => 0 | None => 1 end)%nat.
Proof.
  intros Hu HE HE'.
  assert (HuE : (k ∉ E.*1) /\ NoDup E.*1) by (rewrite HE in Hu; simpl in Hu; by apply NoDup_cons in Hu).
  assert (Hm : list_to_map es = <[k := v]> (list_to_map E : gmap K V)).
  { by rewrite (list_to_map_proper es ((k, v) :: E)). }
  assert (HnE : (list_to_map E : gmap K V) !! k = None) by (apply not_elem_of_list_to_map_1, HuE).
  assert (Hl : length es = S (length E)) by (by rewrite (Permutation_length HE)).
  assert (Hk : (list_to_map es : gmap K V) !! k = Some v) by (by rewrite Hm, lookup_insert_eq).
  destruct o as [v'|]; simpl in HE'.
  - assert (Hu' : NoDup es'.*1) by (rewrite HE'; simpl; by apply NoDup_cons).
    split_and!; [done|done| |].
    + rewrite Hm, insert_insert_eq. by rewrite (list_to_map_proper es' ((k, v') :: E)).
    + rewrite (Permutation_length HE'). simpl. lia.
  - assert (Hu' : NoDup es'.*1) by (rewrite HE'; apply HuE).
    split_and!; [done|done| |].
    + rewrite Hm, delete_insert_id by done. by rewrite (list_to_map_proper es' E).
    + rewrite (Permutation_length HE'). lia.
Qed.
End Entries.

(** ** Tables of slots *)

Section Slots.
Context {K V B : Type} `{Countable K} (slot : B -> option (K * V)).

Definition entries (l : list B) : list (K * V) := omap slot l.

Lemma entries_app l k : entries (l ++ k) = entries l ++ entries k.
Proof. apply omap_app. Qed.
Lemma entries_one b : entries [b] = of_option (slot b).
Proof. simpl. by destruct (slot b). Qed.

Lemma entries_cons b l : entries (b :: l) = of_option (slot b) ++ entries l.
Proof. unfold entries. simpl. by destruct (slot b). Qed.

Lemma length_entries_le l : (length (entries l) <= length l)%nat.
Proof. induction l as [|b l IH]; simpl; [done|]. unfold entries in *. simpl. destruct (slot b); simpl; lia. Qed.

(** A write changes one entry. *)
Lemma entries_write l i b :
  l !! i = Some b ->
  exists E, entries l ≡ₚ of_option (slot b) ++ E /\ forall c, entries (<[i := c]> l) ≡ₚ of_option (slot c) ++ E.
Proof.
  intros Hi. apply list_elem_of_split_length in Hi as (l1 & l2 & -> & ->). exists (entries l1 ++ entries l2).
  assert (Hone : forall c, entries (l1 ++ c :: l2) ≡ₚ of_option (slot c) ++ entries l1 ++ entries l2).
  { intros c. change (c :: l2) with ([c] ++ l2). rewrite !entries_app, entries_one. solve_Permutation. }
  split; [apply Hone|]. intros c. rewrite insert_app_r_alt, Nat.sub_diag by lia. apply Hone.
Qed.

Lemma elem_of_entries l k v : (k, v) ∈ entries l <-> exists i b, l !! i = Some b /\ slot b = Some (k, v).
Proof.
  unfold entries. rewrite list_elem_of_omap. setoid_rewrite list_elem_of_lookup. naive_solver.
Qed.

Definition keys_unique (l : list B) : Prop := NoDup (entries l).*1.
Definition table_model (l : list B) : gmap K V := list_to_map (entries l).

Lemma model_lookup l k v : keys_unique l -> table_model l !! k = Some v <-> (k, v) ∈ entries l.
Proof. intros Hu. symmetry. by apply elem_of_list_to_map. Qed.

Lemma model_absent l k : keys_unique l -> (forall i b v, l !! i = Some b -> slot b <> Some (k, v)) -> table_model l !! k = None.
Proof.
  intros Hu Hno. apply eq_None_not_Some. intros [v (i & b & Hi & Hb)%model_lookup%elem_of_entries]; [|done]. by eapply Hno.
Qed.

Lemma model_size l : keys_unique l -> size (table_model l) = length (entries l).
Proof. intros Hu. unfold table_model. by rewrite map_size_list_to_map. Qed.

(** Storing a new key in a slot that held none. *)
Lemma write_new l i b c k v :
  keys_unique l -> l !! i = Some b -> slot b = None -> slot c = Some (k, v) -> table_model l !! k = None ->
  let l' := <[i := c]> l in
  keys_unique l' /\ table_model l' = <[k := v]> (table_model l) /\ length (entries l') = S (length (entries l)).
Proof.
  intros Hu Hi Hb Hc Hno l'. destruct (entries_write l i b Hi) as (E & HE & HE').
  specialize (HE' c). rewrite Hb in HE. rewrite Hc in HE'. by apply (entries_new (entries l) _ E).
Qed.

(** Overwriting the value of a key, and emptying its slot. *)
Lemma write_old l i b c k v o :
  keys_unique l -> l !! i = Some b -> slot b = Some (k, v) -> slot c = (fun v => (k, v)) <$> o ->
  let l' := <[i := c]> l in
  keys_unique l' /\ table_model l !! k = Some v /\
  table_model l' = match o with Some v' => <[k := v']> (table_model l) | None => delete k (table_model l) end /\
  length (entries l) = (length (entries l') + match o with Some _ => 0 | None => 1 end)%nat.
Proof.
  intros Hu Hi Hb Hc l'. destruct (entries_write l i b Hi) as (E & HE & HE').
  specialize (HE' c). rewrite Hb in HE. rewrite Hc in HE'. by apply (entries_old (entries l) _ E).
Qed.

(** A key has one slot. *)
Lemma slot_unique l i j b c k v w :
  keys_unique l -> l !! i = Some b -> l !! j = Some c -> slot b = Some (k, v) -> slot c = Some (k, w) -> i = j.
Proof.
  intros Hu Hi Hj Hb Hc. destruct (decide (i = j)) as [|Hne]; [done|]. exfalso.
  destruct (entries_write l i b Hi) as (E & HE & HE'). rewrite Hb in HE. simpl in HE.
  assert (Hin : (k, w) ∈ E).
  { apply list_elem_of_split_length in Hi as (l1 & l2 & -> & ->).
    assert (Hin : (k, w) ∈ entries l1 ++ entries l2).
    { rewrite <- entries_app. apply elem_of_entries.
      destruct (decide (j < length l1)%nat) as [Hlt|Hge].
      - exists j, c. rewrite lookup_app_l in Hj by done. by rewrite lookup_app_l by done.
      - exists (pred j), c. rewrite lookup_app_r in Hj by lia. destruct (j - length l1)%nat as [|m] eqn:Hm; [lia|].
        simpl in Hj. rewrite lookup_app_r by lia. by replace (pred j - length l1)%nat with m by lia. }
    change (b :: l2) with ([b] ++ l2) in HE. rewrite !entries_app, entries_one, Hb in HE. simpl in HE.
    assert (HE2 : (k, v) :: entries l1 ++ entries l2 ≡ₚ (k, v) :: E) by (rewrite <- HE; solve_Permutation).
    apply Permutation_cons_inv in HE2. by rewrite <- HE2. }
  unfold keys_unique in Hu. rewrite HE in Hu. simpl in Hu. apply NoDup_cons in Hu as [Hn _].
  apply Hn. apply list_elem_of_fmap. by exists (k, w).
Qed.
End Slots.

(** ** Bucket numbers *)

(** [hash & (n - 1)]. *)
Definition mask_index (h : Z) (n : nat) : nat := Z.to_nat (Z.land h (Z.of_nat n - 1)).
(** [usize::next_power_of_two] of a positive number. *)
Definition next_power_of_two (n : nat) : nat := (2 ^ Nat.log2_up n)%nat.
Definition is_pow2 (n : nat) : Prop := exists e, n = (2 ^ e)%nat.

Lemma is_pow2_pos n : is_pow2 n -> (0 < n)%nat.
Proof. intros [e ->]. induction e; simpl; lia. Qed.

Lemma mask_index_mod h n : is_pow2 n -> mask_index h n = Z.to_nat (h mod Z.of_nat n).
Proof.
  intros [e ->]. unfold mask_index. f_equal.
  assert (Z.of_nat (2 ^ e) = 2 ^ Z.of_nat e)%Z as -> by (by rewrite Nat2Z.inj_pow).
  rewrite <- Z.land_ones by lia. by rewrite Z.ones_equiv, Z.sub_1_r.
Qed.

Lemma mask_index_lt h n : is_pow2 n -> (mask_index h n < n)%nat.
Proof.
  intros Hn. pose proof (is_pow2_pos n Hn). rewrite mask_index_mod by done.
  pose proof (Z.mod_pos_bound h (Z.of_nat n) ltac:(lia)). lia.
Qed.
