(* ===== verification/Maps.v ===== *)
(** * Maps: the map in a fixed array and the hash table with chains *)

From stdpp Require Import base numbers gmap sets list.
From S2P Require Import Prelude MapInterface.

(** * A map in a fixed array

    [kernel/src/collections/map/static_map.rs]: a fixed array of optional
    pairs, searched linearly. It implements the map interface up to its
    capacity: a full map ignores a new key, and says nothing about it. *)

Module Static.
Section Static.
Context {K V : Type} `{Countable K}.

(** [slots] has [CAPACITY] elements. *)
Record StaticMap : Type := mkStatic { slots : list (option (K * V)); slen : nat }.

Definition new (capacity : nat) : StaticMap := mkStatic (replicate capacity None) 0.

(** The position the loops over the entries stop at. *)
Fixpoint find_key (l : list (option (K * V))) (k : K) : option (nat * V) :=
  match l with
  | [] => None
  | Some (k', v) :: l => if decide (k' = k) then Some (0%nat, v) else (fun '(i, v) => (S i, v)) <$> find_key l k
  | None :: l => (fun '(i, v) => (S i, v)) <$> find_key l k
  end.
Fixpoint find_empty (l : list (option (K * V))) : option nat :=
  match l with
  | [] => None
  | None :: _ => Some 0%nat
  | Some _ :: l => S <$> find_empty l
  end.

Definition insert (m : StaticMap) (k : K) (v : V) : option V * StaticMap :=
  match find_key (slots m) k with
  | Some (i, old) => (Some old, mkStatic (<[i := Some (k, v)]> (slots m)) (slen m))
  | None =>
      match find_empty (slots m) with
      | Some i => (None, mkStatic (<[i := Some (k, v)]> (slots m)) (slen m + 1))
      | None => (None, m)
      end
  end.
Definition get (m : StaticMap) (k : K) : option V := snd <$> find_key (slots m) k.
Definition get_mut (m : StaticMap) (k : K) (f : V -> V) : option V * StaticMap :=
  match find_key (slots m) k with
  | Some (i, old) => (Some old, mkStatic (<[i := Some (k, f old)]> (slots m)) (slen m))
  | None => (None, m)
  end.
Definition remove (m : StaticMap) (k : K) : option V * StaticMap :=
  match find_key (slots m) k with
  | Some (i, old) => (Some old, mkStatic (<[i := None]> (slots m)) (slen m - 1))
  | None => (None, m)
  end.
Definition clear (m : StaticMap) : StaticMap := mkStatic ((fun _ => None) <$> slots m) 0.

Definition static_ok (m : StaticMap) : Prop := keys_unique id (slots m) /\ slen m = length (entries id (slots m)).
Definition static_model (m : StaticMap) : gmap K V := table_model id (slots m).
#[export] Instance static_map : Map K V StaticMap := {
  map_insert m k v := Some (insert m k v);
  map_get m k := Some (get m k);
  map_update m k f := Some (get_mut m k f);
  map_remove m k := Some (remove m k);
  map_len := slen;
  map_clear := clear;
}.

Lemma find_key_Some l k i v : find_key l k = Some (i, v) -> l !! i = Some (Some (k, v)).
Proof.
  revert i. induction l as [|[[k' w]|] l IH]; intros i; simpl; [done|case_decide as Hk|].
  - intros [= <- <-]. by subst.
  - destruct (find_key l k) as [[j w']|]; [|done]. intros [= <- <-]. by apply IH.
  - destruct (find_key l k) as [[j w']|]; [|done]. intros [= <- <-]. by apply IH.
Qed.
Lemma find_key_None l k : find_key l k = None -> forall i v, l !! i <> Some (Some (k, v)).
Proof.
  induction l as [|[[k' w]|] l IH]; simpl; [done|case_decide as Hk; [done|]|];
    (destruct (find_key l k) as [[j w']|]; [done|]); intros _ [|i] v; simpl; try apply IH; congruence.
Qed.
Lemma find_empty_Some l i : find_empty l = Some i -> l !! i = Some None.
Proof.
  revert i. induction l as [|[p|] l IH]; intros i; simpl; [done| |by intros [= <-]].
  destruct (find_empty l); [|done]. intros [= <-]. by apply IH.
Qed.
Lemma find_empty_None l : find_empty l = None -> length (entries id l) = length l.
Proof.
  induction l as [|[p|] l IH]; simpl; [done| |done]. destruct (find_empty l); [done|]. intros _. simpl. by rewrite IH.
Qed.

Lemma find_key_model m k : static_ok m -> snd <$> find_key (slots m) k = static_model m !! k.
Proof.
  intros [Hu _]. destruct (find_key (slots m) k) as [[i v]|] eqn:Hf; simpl.
  - symmetry. apply model_lookup, elem_of_entries; [done|]. exists i, (Some (k, v)). split; [by apply find_key_Some|done].
  - symmetry. apply model_absent; [done|]. intros i b v Hi Hb. unfold id in Hb. subst b. by eapply find_key_None.
Qed.

Lemma static_write_old m k i v o :
  static_ok m -> find_key (slots m) k = Some (i, v) ->
  let m' := mkStatic (<[i := (fun v => (k, v)) <$> o]> (slots m)) (slen m - match o with Some _ => 0 | None => 1 end) in
  static_ok m' /\ static_model m !! k = Some v /\
  static_model m' = match o with Some v' => <[k := v']> (static_model m) | None => delete k (static_model m) end.
Proof.
  intros [Hu Hl] Hf m'. apply find_key_Some in Hf.
  destruct (write_old id (slots m) i _ ((fun v => (k, v)) <$> o) k v o Hu Hf eq_refl eq_refl) as (Hu' & Hk & Hm & Hlen).
  split_and!; [|done|done]. split; [done|]. cbn [slen m' slots]. rewrite Hl, Hlen. destruct o; simpl; lia.
Qed.

Lemma static_get m k : static_ok m -> get m k = static_model m !! k.
Proof. apply find_key_model. Qed.

Definition capacity (m : StaticMap) : nat := length (slots m).

Lemma room_iff m k :
  static_ok m -> find_key (slots m) k = None ->
  room (Some (capacity m)) (static_model m) k = match find_empty (slots m) with Some _ => true | None => false end.
Proof.
  intros Hok Hf. pose proof (find_key_model m k Hok) as Hm. rewrite Hf in Hm. simpl in Hm.
  unfold room. rewrite <- Hm, bool_decide_eq_false_2 by (by intros [? ?]). simpl.
  unfold static_model, capacity. rewrite model_size by apply Hok. destruct (find_empty (slots m)) as [i|] eqn:He.
  - apply Nat.ltb_lt. apply find_empty_Some in He.
    apply list_elem_of_split_length in He as (l1 & l2 & -> & ->). rewrite entries_app, entries_cons, !length_app.
    pose proof (length_entries_le id l1). pose proof (length_entries_le id l2). simpl in *. lia.
  - apply Nat.ltb_ge. rewrite (find_empty_None _ He). done.
Qed.

Lemma static_insert m k v :
  static_ok m ->
  exists m', insert m k v = (static_model m !! k, m') /\ static_ok m' /\ capacity m' = capacity m /\
    static_model m' = bounded_insert (Some (capacity m)) k v (static_model m).
Proof.
  intros Hok. pose proof (find_key_model m k Hok) as Hm. unfold insert, bounded_insert.
  destruct (find_key (slots m) k) as [[i old]|] eqn:Hf; simpl in Hm.
  - destruct (static_write_old m k i old (Some v) Hok Hf) as (Hok' & Hk & Hm'). rewrite Nat.sub_0_r in *.
    eexists. unfold room. rewrite Hk, bool_decide_eq_true_2 by done.
    split_and!; [done|exact Hok'|by apply length_insert|exact Hm'].
  - rewrite (room_iff m k Hok Hf). rewrite <- Hm. destruct Hok as [Hu Hl].
    destruct (find_empty (slots m)) as [i|] eqn:He; [|by exists m].
    apply find_empty_Some in He.
    destruct (write_new id (slots m) i None (Some (k, v)) k v Hu He eq_refl eq_refl (eq_sym Hm)) as (Hu' & Hm' & Hl').
    eexists. split_and!; [done| |by apply length_insert|exact Hm']. split; [exact Hu'|]. cbn [slen slots]. rewrite Hl', Hl. lia.
Qed.

Lemma static_update m k f :
  static_ok m ->
  exists m', get_mut m k f = (static_model m !! k, m') /\ static_ok m' /\ capacity m' = capacity m /\ static_model m' = alter f k (static_model m).
Proof.
  intros Hok. pose proof (find_key_model m k Hok) as Hm. unfold get_mut.
  destruct (find_key (slots m) k) as [[i old]|] eqn:Hf; simpl in Hm.
  - destruct (static_write_old m k i old (Some (f old)) Hok Hf) as (Hok' & Hk & Hm'). rewrite Nat.sub_0_r in *.
    eexists. split_and!; [by rewrite <- Hm|exact Hok'|by apply length_insert|]. etrans; [exact Hm'|].
    apply map_eq. intros j. rewrite lookup_insert, lookup_alter. case_decide; [subst|done]. by rewrite Hk.
  - exists m. rewrite <- Hm. split_and!; [done|done|done|]. apply map_eq. intros j. rewrite lookup_alter.
    case_decide; [subst|done]. by rewrite <- Hm.
Qed.

Lemma static_remove m k :
  static_ok m ->
  exists m', remove m k = (static_model m !! k, m') /\ static_ok m' /\ capacity m' = capacity m /\ static_model m' = delete k (static_model m).
Proof.
  intros Hok. pose proof (find_key_model m k Hok) as Hm. unfold remove.
  destruct (find_key (slots m) k) as [[i old]|] eqn:Hf; simpl in Hm.
  - destruct (static_write_old m k i old None Hok Hf) as (Hok' & Hk & Hm').
    eexists. split_and!; [by rewrite <- Hm|exact Hok'|by apply length_insert|exact Hm'].
  - exists m. rewrite <- Hm. split_and!; [done|done|done|]. by rewrite delete_id.
Qed.

Lemma static_len m : static_ok m -> slen m = size (static_model m).
Proof. intros [Hu ->]. symmetry. by apply model_size. Qed.

Lemma entries_cleared {B} (l : list B) : entries id ((fun _ => @None (K * V)) <$> l) = [].
Proof. by induction l. Qed.

Lemma static_clear m : static_ok (clear m) /\ static_model (clear m) = ∅.
Proof.
  unfold clear, static_ok, static_model, keys_unique, table_model. cbn [slots slen]. rewrite entries_cleared.
  split; [|done]. split; [constructor|done].
Qed.

Lemma static_new_ok n : static_ok (new n) /\ static_model (new n) = ∅.
Proof.
  assert (He : entries id (replicate n (@None (K * V))) = []) by (by induction n).
  unfold new, static_ok, static_model, keys_unique, table_model. cbn [slots slen]. rewrite He.
  split; [|done]. split; [constructor|done].
Qed.

#[export] Program Instance static_spec : MapSpec K V StaticMap := {
  map_ok := static_ok;
  map_model := static_model;
  map_capacity m := Some (capacity m);
}.
Next Obligation. intros m k Hok. cbn. f_equal. by apply static_get. Qed.
Next Obligation.
  intros m k v Hok. destruct (static_insert m k v Hok) as (m' & Heq & ? & Hc & ?). exists m'. cbn. by rewrite Heq, Hc.
Qed.
Next Obligation.
  intros m k f Hok. destruct (static_update m k f Hok) as (m' & Heq & ? & Hc & ?). exists m'. cbn. by rewrite Heq, Hc.
Qed.
Next Obligation.
  intros m k Hok. destruct (static_remove m k Hok) as (m' & Heq & ? & Hc & ?). exists m'. cbn. by rewrite Heq, Hc.
Qed.
Next Obligation. intros m Hok. by apply static_len. Qed.
Next Obligation.
  intros m _. destruct (static_clear m). split_and!; [done| |done]. cbn. unfold capacity, clear. cbn. by rewrite length_fmap.
Qed.
End Static.
Arguments StaticMap : clear implicits.
End Static.

(** * A hash table with chains

    [kernel/src/collections/map/chained.rs]: a power of two of buckets, each a
    chain of nodes with the newest node at the head. The hasher is a parameter. *)

Module Chained.
Section Chained.
Context {K V : Type} `{Countable K} (hash_one : K -> Z).

Record ChainedMap : Type := mkChained { buckets : list (list (K * V)); clen : nat }.

Definition with_buckets (num_buckets : nat) : ChainedMap :=
  mkChained (replicate (next_power_of_two (Nat.max num_buckets 4)) []) 0.

Definition hash_key (m : ChainedMap) (k : K) : nat := mask_index (hash_one k) (length (buckets m)).
Definition bucket (m : ChainedMap) (k : K) : list (K * V) := default [] (buckets m !! hash_key m k).

(** The walk along a chain. *)
Fixpoint chain_get (c : list (K * V)) (k : K) : option V :=
  match c with
  | [] => None
  | (k', v) :: c => if decide (k' = k) then Some v else chain_get c k
  end.
Fixpoint chain_alter (c : list (K * V)) (k : K) (f : V -> V) : list (K * V) :=
  match c with
  | [] => []
  | (k', v) :: c => if decide (k' = k) then (k', f v) :: c else (k', v) :: chain_alter c k f
  end.
Fixpoint chain_unlink (c : list (K * V)) (k : K) : list (K * V) :=
  match c with
  | [] => []
  | (k', v) :: c => if decide (k' = k) then c else (k', v) :: chain_unlink c k
  end.

Definition set_bucket (m : ChainedMap) (k : K) (c : list (K * V)) (n : nat) : ChainedMap :=
  mkChained (<[hash_key m k := c]> (buckets m)) n.

Definition insert (m : ChainedMap) (k : K) (v : V) : option V * ChainedMap :=
  let c := bucket m k in
  match chain_get c k with
  | Some old => (Some old, set_bucket m k (chain_alter c k (fun _ => v)) (clen m))
  | None => (None, set_bucket m k ((k, v) :: c) (clen m + 1))
  end.
Definition get (m : ChainedMap) (k : K) : option V := chain_get (bucket m k) k.
Definition get_mut (m : ChainedMap) (k : K) (f : V -> V) : option V * ChainedMap :=
  let c := bucket m k in
  match chain_get c k with
  | Some old => (Some old, set_bucket m k (chain_alter c k f) (clen m))
  | None => (None, m)
  end.
Definition remove (m : ChainedMap) (k : K) : option V * ChainedMap :=
  let c := bucket m k in
  match chain_get c k with
  | Some old => (Some old, set_bucket m k (chain_unlink c k) (clen m - 1))
  | None => (None, m)
  end.
Definition clear (m : ChainedMap) : ChainedMap := mkChained ((fun _ => []) <$> buckets m) 0.

#[export] Instance chained_map : Map K V ChainedMap := {
  map_insert m k v := Some (insert m k v);
  map_get m k := Some (get m k);
  map_update m k f := Some (get_mut m k f);
  map_remove m k := Some (remove m k);
  map_len := clen;
  map_clear := clear;
}.

Record chained_ok (m : ChainedMap) : Prop := {
  co_pow2 : is_pow2 (length (buckets m));
  co_unique : NoDup (concat (buckets m)).*1;
  co_len : clen m = length (concat (buckets m));
  co_place i c k v : buckets m !! i = Some c -> (k, v) ∈ c -> hash_key m k = i;
}.
Definition chained_model (m : ChainedMap) : gmap K V := list_to_map (concat (buckets m)).

(** ** Chains *)

Lemma chain_get_Some c k v :
  chain_get c k = Some v ->
  exists E, c ≡ₚ (k, v) :: E /\ (forall f, chain_alter c k f ≡ₚ (k, f v) :: E) /\ chain_unlink c k ≡ₚ E.
Proof.
  induction c as [|[k' w] c IH]; simpl; [done|]. case_decide as Hk.
  - intros [= ->]. subst k'. by exists c.
  - intros (E & HE & Ha & Hu)%IH. exists ((k', w) :: E). split_and!.
    + rewrite HE. apply perm_swap.
    + intros f. rewrite (Ha f). apply perm_swap.
    + by rewrite Hu.
Qed.

Lemma chain_get_None c k : chain_get c k = None <-> k ∉ c.*1.
Proof.
  induction c as [|[k' w] c IH]; simpl; [set_solver|]. case_decide as Hk; [set_solver|].
  rewrite IH. set_solver.
Qed.

Lemma chain_get_elem c k v : NoDup c.*1 -> (k, v) ∈ c -> chain_get c k = Some v.
Proof.
  intros Hnd Hin. destruct (chain_get c k) as [w|] eqn:Hg.
  - destruct (chain_get_Some c k w Hg) as (E & HE & _). rewrite HE in Hnd, Hin.
    apply elem_of_cons in Hin as [[= ->]|Hin]; [done|]. apply NoDup_cons in Hnd as [Hn _].
    destruct Hn. simpl. apply list_elem_of_fmap. by exists (k, v).
  - apply chain_get_None in Hg. destruct Hg. apply list_elem_of_fmap. by exists (k, v).
Qed.

(** ** The table *)

Lemma bucket_split m k :
  chained_ok m ->
  exists R, buckets m !! hash_key m k = Some (bucket m k) /\ concat (buckets m) ≡ₚ bucket m k ++ R /\
    (forall c, concat (<[hash_key m k := c]> (buckets m)) ≡ₚ c ++ R) /\ k ∉ R.*1.
Proof.
  intros Hok. pose proof (mask_index_lt (hash_one k) _ (co_pow2 _ Hok)) as Hlt.
  apply lookup_lt_is_Some_2 in Hlt as [c Hc]. change (buckets m !! hash_key m k = Some c) in Hc.
  unfold bucket. rewrite Hc. simpl. pose proof Hc as Hc'.
  apply list_elem_of_split_length in Hc' as (l1 & l2 & Hl & Hi).
  exists (concat l1 ++ concat l2). split_and!; [done|rewrite Hl, concat_app; simpl; solve_Permutation| |].
  - intros d. rewrite Hl, Hi, insert_app_r_alt, Nat.sub_diag by lia. rewrite concat_app. simpl. solve_Permutation.
  - intros ([k' v] & Hkk & Hin)%list_elem_of_fmap. simpl in Hkk. subst k'.
    assert (Hj : exists j d, j <> hash_key m k /\ buckets m !! j = Some d /\ (k, v) ∈ d).
    { rewrite <- concat_app in Hin. apply list_elem_of_In, in_concat in Hin as (d & Hd & Hin).
      apply list_elem_of_In in Hd, Hin. apply elem_of_app in Hd as [[j Hj]%list_elem_of_lookup|[j Hj]%list_elem_of_lookup].
      - exists j, d. pose proof (lookup_lt_Some _ _ _ Hj). split_and!; [lia| |done].
        rewrite Hl. by rewrite lookup_app_l.
      - exists (S (length l1 + j)), d. split_and!; [lia| |done]. rewrite Hl, lookup_app_r by lia.
        by replace (S (length l1 + j) - length l1)%nat with (S j) by lia. }
    destruct Hj as (j & d & Hne & Hj & Hin'). by apply (co_place _ Hok j d k v Hj) in Hin'.
Qed.

Lemma chain_get_model m k : chained_ok m -> chain_get (bucket m k) k = chained_model m !! k.
Proof.
  intros Hok. destruct (bucket_split m k Hok) as (R & _ & HR & _ & Hk). symmetry.
  pose proof (co_unique _ Hok) as Hu. unfold chained_model. destruct (chain_get (bucket m k) k) as [v|] eqn:Hg.
  - apply elem_of_list_to_map_1; [done|]. rewrite HR.
    destruct (chain_get_Some _ _ _ Hg) as (E & HE & _). rewrite HE. set_solver.
  - apply not_elem_of_list_to_map_1. rewrite HR, fmap_app. apply chain_get_None in Hg. set_solver.
Qed.

(** Replacing one bucket. *)
Lemma set_bucket_ok m k c n :
  chained_ok m -> NoDup (concat (<[hash_key m k := c]> (buckets m))).*1 ->
  n = length (concat (<[hash_key m k := c]> (buckets m))) ->
  (forall k' v, (k', v) ∈ c -> k' = k \/ exists w, (k', w) ∈ bucket m k) -> chained_ok (set_bucket m k c n).
Proof.
  intros Hok Hu Hn Hc. destruct (bucket_split m k Hok) as (R & Hb & _).
  assert (Hh : forall x, hash_key (set_bucket m k c n) x = hash_key m x).
  { intros x. unfold hash_key. cbn. by rewrite length_insert. }
  constructor; [cbn; rewrite length_insert; apply Hok|done|done|].
  intros i d k' v Hd Hin. rewrite Hh. cbn in Hd. destruct (decide (i = hash_key m k)) as [->|Hne].
  - rewrite list_lookup_insert_eq in Hd by (by eapply lookup_lt_Some). injection Hd as <-.
    destruct (Hc _ _ Hin) as [->|[w Hw]]; [done|]. by apply (co_place _ Hok _ _ _ _ Hb Hw).
  - rewrite list_lookup_insert_ne in Hd by done. by apply (co_place _ Hok _ _ _ _ Hd Hin).
Qed.

Lemma chained_write_old m k v c (o : option V) :
  chained_ok m -> chain_get (bucket m k) k = Some v ->
  (forall E, bucket m k ≡ₚ (k, v) :: E -> c ≡ₚ of_option ((fun v => (k, v)) <$> o) ++ E) ->
  let m' := set_bucket m k c (clen m - match o with Some _ => 0 | None => 1 end) in
  chained_ok m' /\ chained_model m !! k = Some v /\
  chained_model m' = match o with Some v' => <[k := v']> (chained_model m) | None => delete k (chained_model m) end.
Proof.
  intros Hok Hg Hc m'. destruct (bucket_split m k Hok) as (R & Hb & HR & HR' & Hk).
  destruct (chain_get_Some _ _ _ Hg) as (E & HE & _). specialize (Hc E HE). specialize (HR' c).
  destruct (entries_old (concat (buckets m)) (concat (<[hash_key m k := c]> (buckets m))) (E ++ R) k v o (co_unique _ Hok))
    as (Hu' & Hkv & Hm' & Hl').
  - by rewrite HR, HE.
  - by rewrite HR', Hc, app_assoc.
  - split_and!; [|done|done]. apply set_bucket_ok; [done|done| |].
    + rewrite (co_len _ Hok), Hl'. destruct o; lia.
    + intros k' w Hin. rewrite Hc in Hin. setoid_rewrite HE. destruct o; set_solver.
Qed.

Lemma chained_get m k : chained_ok m -> get m k = chained_model m !! k.
Proof. apply chain_get_model. Qed.

Lemma chained_insert m k v :
  chained_ok m ->
  exists m', insert m k v = (chained_model m !! k, m') /\ chained_ok m' /\ chained_model m' = <[k := v]> (chained_model m).
Proof.
  intros Hok. pose proof (chain_get_model m k Hok) as Hm. unfold insert.
  destruct (chain_get (bucket m k) k) as [old|] eqn:Hg.
  - destruct (chained_write_old m k old (chain_alter (bucket m k) k (fun _ => v)) (Some v) Hok Hg) as (Hok' & _ & Hm').
    { intros E HE. destruct (chain_get_Some _ _ _ Hg) as (E' & HE' & Ha & _). rewrite (Ha _). rewrite HE in HE'.
      apply Permutation_cons_inv in HE'. simpl. by rewrite HE'. }
    rewrite Nat.sub_0_r in *. eexists. rewrite <- Hm. by split_and!.
  - destruct (bucket_split m k Hok) as (R & Hb & HR & HR' & Hk). specialize (HR' ((k, v) :: bucket m k)).
    destruct (entries_new (concat (buckets m)) (concat (<[hash_key m k := (k, v) :: bucket m k]> (buckets m)))
      (bucket m k ++ R) k v (co_unique _ Hok) HR HR') as (Hu' & Hm' & Hl'); [by rewrite Hm|].
    eexists. rewrite <- Hm. split_and!; [done| |exact Hm']. apply set_bucket_ok; [done|done| |].
    + rewrite (co_len _ Hok), Hl'. lia.
    + intros k' w [[= -> ->]|Hin]%elem_of_cons; [by left|]. right. eauto.
Qed.

Lemma chained_update m k f :
  chained_ok m ->
  exists m', get_mut m k f = (chained_model m !! k, m') /\ chained_ok m' /\ chained_model m' = alter f k (chained_model m).
Proof.
  intros Hok. pose proof (chain_get_model m k Hok) as Hm. unfold get_mut.
  destruct (chain_get (bucket m k) k) as [old|] eqn:Hg.
  - destruct (chained_write_old m k old (chain_alter (bucket m k) k f) (Some (f old)) Hok Hg) as (Hok' & Hk & Hm').
    { intros E HE. destruct (chain_get_Some _ _ _ Hg) as (E' & HE' & Ha & _). rewrite (Ha _). rewrite HE in HE'.
      apply Permutation_cons_inv in HE'. simpl. by rewrite HE'. }
    rewrite Nat.sub_0_r in *. eexists. rewrite <- Hm. split_and!; [done|done|]. etrans; [exact Hm'|].
    apply map_eq. intros j. rewrite lookup_insert, lookup_alter. case_decide; [subst|done]. by rewrite Hk.
  - exists m. rewrite <- Hm. split_and!; [done|done|]. apply map_eq. intros j. rewrite lookup_alter.
    case_decide; [subst|done]. by rewrite <- Hm.
Qed.

Lemma chained_remove m k :
  chained_ok m ->
  exists m', remove m k = (chained_model m !! k, m') /\ chained_ok m' /\ chained_model m' = delete k (chained_model m).
Proof.
  intros Hok. pose proof (chain_get_model m k Hok) as Hm. unfold remove.
  destruct (chain_get (bucket m k) k) as [old|] eqn:Hg.
  - destruct (chained_write_old m k old (chain_unlink (bucket m k) k) None Hok Hg) as (Hok' & _ & Hm').
    { intros E HE. destruct (chain_get_Some _ _ _ Hg) as (E' & HE' & _ & Hu). rewrite Hu. rewrite HE in HE'.
      apply Permutation_cons_inv in HE'. simpl. by rewrite HE'. }
    eexists. rewrite <- Hm. by split_and!.
  - exists m. rewrite <- Hm. split_and!; [done|done|]. by rewrite delete_id.
Qed.

Lemma chained_len m : chained_ok m -> clen m = size (chained_model m).
Proof. intros Hok. unfold chained_model. rewrite (co_len _ Hok), map_size_list_to_map by apply Hok. done. Qed.

Lemma chained_empty (l : list (list (K * V))) :
  is_pow2 (length l) -> concat l = [] -> chained_ok (mkChained l 0) /\ chained_model (mkChained l 0) = ∅.
Proof.
  intros Hp He. unfold chained_model. cbn [buckets]. rewrite He. split; [|done].
  constructor; cbn [buckets clen]; [done|rewrite He; constructor|by rewrite He|].
  intros i c k v Hi Hin. exfalso. assert (Hc : (k, v) ∈ concat l).
  { apply list_elem_of_In, in_concat. exists c. split; apply list_elem_of_In; [by eapply list_elem_of_lookup_2|done]. }
  rewrite He in Hc. set_solver.
Qed.

Lemma chained_clear m : chained_ok m -> chained_ok (clear m) /\ chained_model (clear m) = ∅.
Proof.
  intros Hok. apply chained_empty; [rewrite length_fmap; apply Hok|]. by induction (buckets m).
Qed.

Lemma with_buckets_ok n : chained_ok (with_buckets n) /\ chained_model (with_buckets n) = ∅.
Proof.
  apply chained_empty; [rewrite length_replicate; by eexists|]. by induction (next_power_of_two _).
Qed.

#[export] Program Instance chained_spec : MapSpec K V ChainedMap := {
  map_ok := chained_ok;
  map_model := chained_model;
  map_capacity _ := None;
}.
Next Obligation. intros m k Hok. cbn. f_equal. by apply chained_get. Qed.
Next Obligation.
  intros m k v Hok. unfold bounded_insert, room. rewrite orb_true_r. destruct (chained_insert m k v Hok) as (m' & Heq & ? & ?). exists m'. cbn. by rewrite Heq.
Qed.
Next Obligation. intros m k f Hok. destruct (chained_update m k f Hok) as (m' & Heq & ? & ?). exists m'. cbn. by rewrite Heq. Qed.
Next Obligation. intros m k Hok. destruct (chained_remove m k Hok) as (m' & Heq & ? & ?). exists m'. cbn. by rewrite Heq. Qed.
Next Obligation. intros m Hok. by apply chained_len. Qed.
Next Obligation. intros m Hok. by destruct (chained_clear m Hok). Qed.
End Chained.
End Chained.
