(* ===== verification/OpenAddress.v ===== *)
(** * OpenAddress: a hash table with linear probing

    [kernel/src/collections/map/open_address.rs]: a power of two of buckets,
    probed from the hash upwards with wrap-around; a removed entry leaves a
    tombstone. The probe loops have no bound in the source: here they get
    fuel, [None] is a probe that has not ended after visiting every bucket,
    and the invariant (an empty bucket always exists) excludes it. *)

From stdpp Require Import base list numbers gmap sets.
From S2P Require Import Prelude MapInterface.

Module OpenAddress.
Definition INITIAL_CAPACITY : nat := 16.
Definition MAX_LOAD_FACTOR_PERCENT : nat := 70.

Section OpenAddress.
Context {K V : Type} `{Countable K} (hash_one : K -> Z).

Inductive Bucket : Type :=
| Empty
| Occupied (k : K) (v : V)
| Tombstone.

Record OpenAddressMap : Type := mkOpen { buckets : list Bucket; olen : nat; occupied_count : nat }.

Definition with_capacity (capacity : nat) : OpenAddressMap :=
  mkOpen (replicate (next_power_of_two (Nat.max capacity 4)) Empty) 0 0.

Definition start (l : list Bucket) (k : K) : nat := mask_index (hash_one k) (length l).
(** [(idx + 1) & mask]. *)
Definition next (l : list Bucket) (idx : nat) : nat := mask_index (Z.of_nat (idx + 1)) (length l).

(** The loop of [get], [get_mut] and [remove]: the bucket that holds the key,
    or no bucket once an empty one is met. *)
Fixpoint find_loop (fuel : nat) (l : list Bucket) (k : K) (idx : nat) : option (option (nat * V)) :=
  match fuel with
  | O => None
  | S fuel =>
      match l !! idx with
      | Some Empty | None => Some None
      | Some (Occupied k' v) => if decide (k' = k) then Some (Some (idx, v)) else find_loop fuel l k (next l idx)
      | Some Tombstone => find_loop fuel l k (next l idx)
      end
  end.
Definition find (l : list Bucket) (k : K) : option (option (nat * V)) := find_loop (length l) l k (start l k).

(** The loop of [resize] for one entry. *)
Fixpoint free_loop (fuel : nat) (l : list Bucket) (idx : nat) : option nat :=
  match fuel with
  | O => None
  | S fuel =>
      match l !! idx with
      | Some (Occupied _ _) => free_loop fuel l (next l idx)
      | _ => Some idx
      end
  end.
Fixpoint rehash (old new : list Bucket) (count : nat) : option (list Bucket * nat) :=
  match old with
  | [] => Some (new, count)
  | Occupied k v :: old =>
      match free_loop (length new) new (start new k) with
      | Some idx => rehash old (<[idx := Occupied k v]> new) (count + 1)
      | None => None
      end
  | _ :: old => rehash old new count
  end.
Definition resize (m : OpenAddressMap) : option OpenAddressMap :=
  let new_capacity := Nat.max (length (buckets m) * 2) INITIAL_CAPACITY in
  (fun '(l, n) => mkOpen l (olen m) n) <$> rehash (buckets m) (replicate new_capacity Empty) 0.

(** The loop of [insert]: where the key is, or where to put it and whether
    that bucket was empty. *)
Inductive Slot : Type :=
| Found (idx : nat) (v : V)
| Vacant (idx : nat) (was_empty : bool).
Fixpoint insert_loop (fuel : nat) (l : list Bucket) (k : K) (idx : nat) (first_tombstone : option nat) : option Slot :=
  match fuel with
  | O => None
  | S fuel =>
      match l !! idx with
      | Some Empty | None =>
          Some (match first_tombstone with Some t => Vacant t false | None => Vacant idx true end)
      | Some Tombstone =>
          insert_loop fuel l k (next l idx) (match first_tombstone with Some t => Some t | None => Some idx end)
      | Some (Occupied k' v) =>
          if decide (k' = k) then Some (Found idx v) else insert_loop fuel l k (next l idx) first_tombstone
      end
  end.

Definition needs_resize (m : OpenAddressMap) : bool :=
  (MAX_LOAD_FACTOR_PERCENT <=? (occupied_count m + 1) * 100 / length (buckets m))%nat.

Definition insert (m : OpenAddressMap) (k : K) (v : V) : option (option V * OpenAddressMap) :=
  match (if needs_resize m then resize m else Some m) with
  | None => None
  | Some m =>
      let l := buckets m in
      match insert_loop (length l) l k (start l k) None with
      | None => None
      | Some (Found idx old) => Some (Some old, mkOpen (<[idx := Occupied k v]> l) (olen m) (occupied_count m))
      | Some (Vacant idx was_empty) =>
          Some (None, mkOpen (<[idx := Occupied k v]> l) (olen m + 1)
                        (if was_empty then occupied_count m + 1 else occupied_count m)%nat)
      end
  end.

Definition get (m : OpenAddressMap) (k : K) : option (option V) := (fun r : option (nat * V) => snd <$> r) <$> find (buckets m) k.
Definition get_mut (m : OpenAddressMap) (k : K) (f : V -> V) : option (option V * OpenAddressMap) :=
  (fun r => match r with
            | Some (idx, v) => (Some v, mkOpen (<[idx := Occupied k (f v)]> (buckets m)) (olen m) (occupied_count m))
            | None => (None, m)
            end) <$> find (buckets m) k.
Definition remove (m : OpenAddressMap) (k : K) : option (option V * OpenAddressMap) :=
  (fun r => match r with
            | Some (idx, v) => (Some v, mkOpen (<[idx := Tombstone]> (buckets m)) (olen m - 1) (occupied_count m))
            | None => (None, m)
            end) <$> find (buckets m) k.
Definition clear (m : OpenAddressMap) : OpenAddressMap := mkOpen ((fun _ => Empty) <$> buckets m) 0 0.

#[export] Instance open_map : Map K V OpenAddressMap := {
  map_insert := insert;
  map_get := get;
  map_update := get_mut;
  map_remove := remove;
  map_len := olen;
  map_clear := clear;
}.

(** ** The invariant *)

Definition slot (b : Bucket) : option (K * V) := match b with Occupied k v => Some (k, v) | _ => None end.
(** Buckets that are not empty, tombstones included. *)
Definition used_slot (b : Bucket) : option (unit * unit) := match b with Empty => None | _ => Some (tt, tt) end.

(** The [j]-th bucket probed for [k]. *)
Definition path (l : list Bucket) (k : K) (j : nat) : nat := ((start l k + j) mod length l)%nat.

(** Nothing empty on the way to a key. *)
Definition reachable (l : list Bucket) : Prop :=
  forall i k v, l !! i = Some (Occupied k v) ->
    exists j, (j < length l)%nat /\ path l k j = i /\ forall j', (j' < j)%nat -> l !! path l k j' <> Some Empty.

Definition used (l : list Bucket) : nat := length (entries used_slot l).

Record open_ok (m : OpenAddressMap) : Prop := {
  oo_pow2 : is_pow2 (length (buckets m));
  oo_cap : (4 <= length (buckets m))%nat;
  oo_unique : keys_unique slot (buckets m);
  oo_len : olen m = length (entries slot (buckets m));
  oo_used : occupied_count m = used (buckets m);
  oo_load : (100 * occupied_count m < 70 * length (buckets m))%nat;
  oo_reach : reachable (buckets m);
}.
Definition open_model (m : OpenAddressMap) : gmap K V := table_model slot (buckets m).

(** ** Probing *)

Section Probe.
Context (l : list Bucket) (Hp : is_pow2 (length l)).

Lemma start_lt k : (start l k < length l)%nat.
Proof. by apply mask_index_lt. Qed.
Lemma path_lt k j : (path l k j < length l)%nat.
Proof. apply Nat.mod_upper_bound. pose proof (is_pow2_pos _ Hp). lia. Qed.
Lemma path_0 k : path l k 0 = start l k.
Proof. unfold path. rewrite Nat.add_0_r. apply Nat.mod_small, start_lt. Qed.

Lemma next_path k j : next l (path l k j) = path l k (S j).
Proof.
  unfold next. rewrite mask_index_mod by done. pose proof (is_pow2_pos _ Hp).
  rewrite <- Nat2Z.inj_mod, Nat2Z.id. unfold path. rewrite Nat.Div0.add_mod_idemp_l. f_equal. lia.
Qed.

Lemma path_covers k i : (i < length l)%nat -> exists j, (j < length l)%nat /\ path l k j = i.
Proof.
  intros Hi. pose proof (start_lt k) as Hs. set (n := length l) in *. unfold path. fold n.
  destruct (decide (start l k <= i)%nat).
  - exists (i - start l k)%nat. split; [lia|]. rewrite Nat.mod_small by lia. lia.
  - exists (i + n - start l k)%nat. split; [lia|].
    replace (start l k + (i + n - start l k))%nat with (i + 1 * n)%nat by lia.
    rewrite Nat.Div0.mod_add. by apply Nat.mod_small.
Qed.

Lemma path_lookup k j : exists b, l !! path l k j = Some b.
Proof. apply lookup_lt_is_Some_2, path_lt. Qed.

Lemma find_loop_spec k fuel : forall j,
  match find_loop fuel l k (path l k j) with
  | Some (Some (i, v)) => l !! i = Some (Occupied k v)
  | Some None => exists j', (j <= j')%nat /\ l !! path l k j' = Some Empty /\
      forall j'' v, (j <= j'' < j')%nat -> l !! path l k j'' <> Some (Occupied k v)
  | None => forall j', (j <= j' < j + fuel)%nat -> l !! path l k j' <> Some Empty
  end.
Proof.
  induction fuel as [|fuel IH]; intros j; simpl; [intros; lia|]. specialize (IH (S j)).
  destruct (path_lookup k j) as [b Hb]. rewrite Hb. rewrite next_path.
  assert (Hgo : (forall v, b <> Occupied k v) -> b <> Empty ->
    match find_loop fuel l k (path l k (S j)) with
    | Some (Some (i, v)) => l !! i = Some (Occupied k v)
    | Some None => exists j', (j <= j')%nat /\ l !! path l k j' = Some Empty /\
        forall j'' v, (j <= j'' < j')%nat -> l !! path l k j'' <> Some (Occupied k v)
    | None => forall j', (j <= j' < j + S fuel)%nat -> l !! path l k j' <> Some Empty
    end).
  { intros Ho He. destruct (find_loop fuel l k (path l k (S j))) as [[[i w]|]|]; [done| |].
    - destruct IH as (j' & Hle & Hj' & Hno). exists j'. split_and!; [lia|done|]. intros j'' w Hj.
      destruct (decide (j'' = j)) as [->|]; [rewrite Hb; intros [= Hx]; by destruct (Ho w)|apply Hno; lia].
    - intros j' Hj. destruct (decide (j' = j)) as [->|]; [rewrite Hb; congruence|apply IH; lia]. }
  destruct b as [|k' v|].
  - exists j. split_and!; [lia|done|intros; lia].
  - case_decide as Hk; [by subst|]. apply Hgo; [intros w [= ? _]; congruence|done].
  - by apply Hgo.
Qed.

Lemma free_loop_spec k fuel : forall j,
  match free_loop fuel l (path l k j) with
  | Some i => exists j', (j <= j' < j + fuel)%nat /\ path l k j' = i /\
      (forall v k', l !! i <> Some (Occupied k' v)) /\
      forall j'', (j <= j'' < j')%nat -> exists k' v, l !! path l k j'' = Some (Occupied k' v)
  | None => forall j', (j <= j' < j + fuel)%nat -> l !! path l k j' <> Some Empty
  end.
Proof.
  induction fuel as [|fuel IH]; intros j; simpl; [intros; lia|]. specialize (IH (S j)).
  destruct (path_lookup k j) as [b Hb]. rewrite Hb. rewrite next_path in *.
  assert (Hhere : (forall v k', b <> Occupied k' v) -> exists j', (j <= j' < j + S fuel)%nat /\ path l k j' = path l k j /\
    (forall v k', l !! path l k j <> Some (Occupied k' v)) /\
    forall j'', (j <= j'' < j')%nat -> exists k' v, l !! path l k j'' = Some (Occupied k' v)).
  { intros Ho. exists j. split_and!; [lia|lia|done| |intros; lia]. intros v k' Hx. rewrite Hb in Hx. injection Hx as Hx.
    by destruct (Ho v k'). }
  destruct b as [|k' v|]; [by apply Hhere| |by apply Hhere].
  destruct (free_loop fuel l (path l k (S j))) as [i|].
  - destruct IH as (j' & Hle & Hi & Hno & Hall). exists j'. split_and!; [lia|lia|done|done|].
    intros j'' Hj. destruct (decide (j'' = j)) as [->|]; [eauto|apply Hall; lia].
  - intros j' Hj. destruct (decide (j' = j)) as [->|]; [by rewrite Hb|apply IH; lia].
Qed.

(** What the loop of [insert] has seen after [j] steps. *)
Definition seen k j (ft : option nat) : Prop :=
  (forall j', (j' < j)%nat -> l !! path l k j' <> Some Empty) /\
  (forall j' v, (j' < j)%nat -> l !! path l k j' <> Some (Occupied k v)) /\
  forall t, ft = Some t -> exists jt, (jt < j)%nat /\ path l k jt = t /\ l !! t = Some Tombstone.

Lemma seen_step k j ft ft' b :
  seen k j ft -> l !! path l k j = Some b -> b <> Empty -> (forall v, b <> Occupied k v) ->
  (ft' = ft \/ (ft' = Some (path l k j) /\ b = Tombstone)) -> seen k (S j) ft'.
Proof.
  intros (H1 & H2 & H3) Hb He Ho Hft. split_and!.
  - intros j' Hj. destruct (decide (j' = j)) as [->|]; [rewrite Hb; congruence|apply H1; lia].
  - intros j' v Hj. destruct (decide (j' = j)) as [->|]; [rewrite Hb; intros [= ->]; by destruct (Ho v)|apply H2; lia].
  - intros t Ht. destruct Hft as [->|[-> Hbt]].
    + destruct (H3 t Ht) as (jt & ? & ? & ?). exists jt. split_and!; [lia|done|done].
    + injection Ht as <-. exists j. split_and!; [lia|done|by subst].
Qed.

Lemma insert_loop_spec k fuel : forall j ft,
  seen k j ft ->
  match insert_loop fuel l k (path l k j) ft with
  | Some (Found i v) => l !! i = Some (Occupied k v)
  | Some (Vacant i e) =>
      (exists j', path l k j' = i /\ (j' < j + fuel)%nat /\ (forall j'', (j'' < j')%nat -> l !! path l k j'' <> Some Empty)) /\
      l !! i = Some (if e then Empty else Tombstone) /\
      (exists j0, l !! path l k j0 = Some Empty /\ forall j'' v, (j'' < j0)%nat -> l !! path l k j'' <> Some (Occupied k v))
  | None => forall j', (j' < j + fuel)%nat -> l !! path l k j' <> Some Empty
  end.
Proof.
  induction fuel as [|fuel IH]; intros j ft Hseen; simpl; [intros j' ?; apply Hseen; lia|].
  destruct (path_lookup k j) as [b Hb]. rewrite Hb.
  assert (Hgo : forall ft', seen k (S j) ft' -> match insert_loop fuel l k (next l (path l k j)) ft' with
    | Some (Found i v) => l !! i = Some (Occupied k v)
    | Some (Vacant i e) =>
        (exists j', path l k j' = i /\ (j' < j + S fuel)%nat /\ (forall j'', (j'' < j')%nat -> l !! path l k j'' <> Some Empty)) /\
        l !! i = Some (if e then Empty else Tombstone) /\
        (exists j0, l !! path l k j0 = Some Empty /\ forall j'' v, (j'' < j0)%nat -> l !! path l k j'' <> Some (Occupied k v))
    | None => forall j', (j' < j + S fuel)%nat -> l !! path l k j' <> Some Empty
    end).
  { intros ft' Hs. rewrite next_path. rewrite <- Nat.add_succ_comm. by apply IH. }
  destruct b as [|k' v|].
  - destruct Hseen as (H1 & H2 & H3). destruct ft as [t|].
    + destruct (H3 t eq_refl) as (jt & Hjt & <- & Ht). split_and!; [|done|by exists j].
      exists jt. split_and!; [done|lia|]. intros j'' ?. apply H1. lia.
    + split_and!; [|done|by exists j]. exists j. split_and!; [done|lia|done].
  - case_decide as Hk; [by subst|]. apply Hgo. eapply seen_step; [done..| |by left]. intros w [= ? _]. congruence.
  - apply Hgo. eapply seen_step; [done..|]. destruct ft; [by left|by right].
Qed.
End Probe.

(** ** Writes *)

Lemma used_lt_empty (l : list Bucket) : (used l < length l)%nat -> exists i, l !! i = Some Empty.
Proof.
  unfold used. induction l as [|b l IH]; [simpl; lia|]. rewrite entries_cons, length_app.
  destruct b; cbn [used_slot of_option length]; [by exists 0%nat| |];
    (intros Hlt; destruct IH as [i Hi]; [lia|by exists (S i)]).
Qed.

Lemma used_write l i b c :
  l !! i = Some b ->
  (used (<[i := c]> l) + length (of_option (used_slot b)) = used l + length (of_option (used_slot c)))%nat.
Proof.
  intros Hi. destruct (entries_write used_slot l i b Hi) as (E & HE & HE'). unfold used.
  rewrite (Permutation_length HE), (Permutation_length (HE' c)), !length_app. lia.
Qed.

Lemma entries_le_used l : (length (entries slot l) <= used l)%nat.
Proof.
  unfold used. induction l as [|b l IH]; [done|]. rewrite !entries_cons, !length_app. destruct b; simpl; lia.
Qed.

Lemma path_write l i c k j : path (<[i := c]> l) k j = path l k j.
Proof. unfold path, start. by rewrite length_insert. Qed.

(** Filling a bucket keeps every key reachable. *)
Lemma reachable_write l i c :
  reachable l -> (i < length l)%nat -> c <> Empty ->
  (forall k v, c = Occupied k v -> exists j, (j < length l)%nat /\ path l k j = i /\
     forall j', (j' < j)%nat -> l !! path l k j' <> Some Empty) ->
  reachable (<[i := c]> l).
Proof.
  intros Hr Hi Hc Hnew.
  assert (Hkeep : forall x, l !! x <> Some Empty -> <[i := c]> l !! x <> Some Empty).
  { intros x Hx. destruct (decide (x = i)) as [->|]; [rewrite list_lookup_insert_eq by done; congruence|].
    by rewrite list_lookup_insert_ne. }
  assert (Hlift : forall k x, (exists j, (j < length l)%nat /\ path l k j = x /\
      forall j', (j' < j)%nat -> l !! path l k j' <> Some Empty) ->
    exists j, (j < length (<[i := c]> l))%nat /\ path (<[i := c]> l) k j = x /\
      forall j', (j' < j)%nat -> <[i := c]> l !! path (<[i := c]> l) k j' <> Some Empty).
  { intros k x (j & Hj & Hx & Hn). exists j. rewrite length_insert, path_write. split_and!; [done|done|].
    intros j' Hj'. rewrite path_write. by apply Hkeep, Hn. }
  intros x k v Hx. apply Hlift. destruct (decide (x = i)) as [->|Hne].
  - rewrite list_lookup_insert_eq in Hx by done. injection Hx as ->. by apply (Hnew k v).
  - rewrite list_lookup_insert_ne in Hx by done. by apply (Hr x k v).
Qed.

(** A key the probe did not meet before an empty bucket is absent. *)
Lemma absent l k j0 :
  is_pow2 (length l) -> reachable l -> l !! path l k j0 = Some Empty ->
  (forall j' v, (j' < j0)%nat -> l !! path l k j' <> Some (Occupied k v)) ->
  forall i v, l !! i <> Some (Occupied k v).
Proof.
  intros Hp Hr He Hno i v Hi. destruct (Hr i k v Hi) as (j & Hj & Hpath & Hne). subst i.
  destruct (Nat.lt_trichotomy j j0) as [Hlt|[->|Hgt]].
  - by apply (Hno j v Hlt).
  - congruence.
  - by apply (Hne j0 Hgt).
Qed.

Lemma has_empty_path l k : is_pow2 (length l) -> (used l < length l)%nat ->
  exists j, (j < length l)%nat /\ l !! path l k j = Some Empty.
Proof.
  intros Hp (i & Hi)%used_lt_empty. destruct (path_covers l Hp k i) as (j & Hj & <-); [by eapply lookup_lt_Some|]. eauto.
Qed.

Lemma find_ok l k :
  is_pow2 (length l) -> (used l < length l)%nat -> reachable l ->
  exists r, find l k = Some r /\
    match r with
    | Some (i, v) => l !! i = Some (Occupied k v)
    | None => forall i v, l !! i <> Some (Occupied k v)
    end.
Proof.
  intros Hp Hu Hr. unfold find. rewrite <- (path_0 l Hp k).
  pose proof (find_loop_spec l Hp k (length l) 0) as Hf.
  destruct (find_loop (length l) l k (path l k 0)) as [[[i v]|]|].
  - by exists (Some (i, v)).
  - exists None. split; [done|]. destruct Hf as (j & _ & He & Hno). apply (absent l k j); [done..|].
    intros j' v Hj'. apply Hno. lia.
  - destruct (has_empty_path l k Hp Hu) as (j & Hj & He). exfalso. apply (Hf j); [lia|done].
Qed.

Lemma used_lt m : open_ok m -> (used (buckets m) < length (buckets m))%nat.
Proof. intros [_ Hc _ _ <- Hl _]. lia. Qed.

Lemma find_model m k :
  open_ok m -> exists r, find (buckets m) k = Some r /\ snd <$> r = open_model m !! k /\
    forall i v, r = Some (i, v) -> buckets m !! i = Some (Occupied k v).
Proof.
  intros Hok. destruct (find_ok (buckets m) k (oo_pow2 _ Hok) (used_lt m Hok) (oo_reach _ Hok)) as (r & Hf & Hr).
  exists r. split_and!; [done| |by intros i v ->]. destruct r as [[i v]|]; simpl; symmetry.
  - apply model_lookup; [apply Hok|]. apply elem_of_entries. by exists i, (Occupied k v).
  - apply model_absent; [apply Hok|]. intros i b v Hi Hb. destruct b; try done. injection Hb as -> ->. by eapply Hr.
Qed.

(** Overwriting an occupied bucket. *)
Lemma open_write_old m k i v (o : option V) :
  open_ok m -> buckets m !! i = Some (Occupied k v) ->
  let c := match o with Some v' => Occupied k v' | None => Tombstone end in
  let m' := mkOpen (<[i := c]> (buckets m)) (olen m - match o with Some _ => 0 | None => 1 end) (occupied_count m) in
  open_ok m' /\ open_model m !! k = Some v /\
  open_model m' = match o with Some v' => <[k := v']> (open_model m) | None => delete k (open_model m) end.
Proof.
  intros Hok Hi c m'.
  destruct (write_old slot (buckets m) i (Occupied k v) c k v o (oo_unique _ Hok) Hi eq_refl) as (Hu' & Hk & Hm & Hlen);
    [unfold c; by destruct o|].
  split_and!; [|done|done]. pose proof (used_write _ _ _ c Hi) as Hused.
  assert (Hlu : length (of_option (used_slot c)) = 1%nat) by (unfold c; by destruct o).
  constructor; cbn [buckets olen occupied_count m']; rewrite ?length_insert; try apply Hok; try done.
  - rewrite (oo_len _ Hok), Hlen. destruct o; lia.
  - rewrite (oo_used _ Hok). simpl in Hused. lia.
  - apply reachable_write; [apply Hok|by eapply lookup_lt_Some|unfold c; by destruct o|].
    intros k' v' Hc. destruct o as [w|]; [|done]. injection Hc as <- <-. by apply (oo_reach _ Hok i k v).
Qed.

(** Storing a new key in a vacant bucket on its path. *)
Lemma put_new l k v i j b :
  is_pow2 (length l) -> keys_unique slot l -> reachable l -> (forall i w, l !! i <> Some (Occupied k w)) ->
  l !! i = Some b -> slot b = None -> path l k j = i -> (j < length l)%nat ->
  (forall j', (j' < j)%nat -> l !! path l k j' <> Some Empty) ->
  let l' := <[i := Occupied k v]> l in
  keys_unique slot l' /\ reachable l' /\ table_model slot l' = <[k := v]> (table_model slot l) /\
  table_model slot l !! k = None /\
  entries slot l' ≡ₚ (k, v) :: entries slot l /\
  used l' = (used l + match b with Empty => 1 | _ => 0 end)%nat.
Proof.
  intros Hp Hu Hr Hno Hi Hb Hpath Hj Hne l'.
  assert (Habs : table_model slot l !! k = None).
  { apply model_absent; [done|]. intros x c w Hx Hc. destruct c; try done. injection Hc as -> ->. by eapply Hno. }
  destruct (write_new slot l i b (Occupied k v) k v Hu Hi Hb eq_refl Habs) as (Hu' & Hm' & Hl').
  pose proof (used_write l i b (Occupied k v) Hi) as Hused. split_and!; try done.
  - apply reachable_write; [done|by eapply lookup_lt_Some|done|]. intros k' v' [= <- <-]. by exists j.
  - destruct (entries_write slot l i b Hi) as (E & HE & HE'). unfold l'. rewrite (HE' _), HE, Hb. done.
  - unfold l'. destruct b; simpl in *; [lia|done|lia].
Qed.

(** ** Resizing *)

Lemma rehash_spec old : forall new count,
  is_pow2 (length new) -> reachable new -> used new = length (entries slot new) -> count = used new ->
  NoDup (entries slot old ++ entries slot new).*1 -> (used new + length (entries slot old) < length new)%nat ->
  exists l n, rehash old new count = Some (l, n) /\ length l = length new /\ reachable l /\
    entries slot l ≡ₚ entries slot old ++ entries slot new /\ used l = n /\ n = length (entries slot l).
Proof.
  induction old as [|b old IH]; intros new count Hp Hr Hu Hc Hnd Hroom.
  { exists new, count. split_and!; try done. congruence. }
  rewrite entries_cons in Hnd, Hroom |- *. destruct b as [|k v|]; simpl rehash; [by apply IH| |by apply IH].
  cbn [slot of_option app] in *. simpl in Hnd. apply NoDup_cons in Hnd as [Hk Hnd]. rewrite fmap_app in Hk.
  rewrite <- (path_0 new Hp k). pose proof (free_loop_spec new Hp k (length new) 0) as Hf.
  destruct (free_loop (length new) new (path new k 0)) as [i|].
  2: { destruct (has_empty_path new k Hp) as (j & Hj & He); [simpl in Hroom; lia|]. exfalso. apply (Hf j); [lia|done]. }
  destruct Hf as (j & Hj & Hpath & Hfree & Hbefore).
  destruct (path_lookup new Hp k j) as [b Hb]. rewrite Hpath in Hb.
  assert (Hslot : slot b = None) by (destruct b; [done|by destruct (Hfree v0 k0)|done]).
  assert (Hun : keys_unique slot new) by (unfold keys_unique; rewrite fmap_app in Hnd; by apply NoDup_app in Hnd as (_ & _ & ?)).
  destruct (put_new new k v i j b) as (Hu' & Hr' & _ & _ & Hperm & Hused'); try done; [|lia| |].
  - intros x w Hx. apply Hk, elem_of_app. right. apply list_elem_of_fmap. exists (k, w). split; [done|].
    apply elem_of_entries. by exists x, (Occupied k w).
  - intros j' Hj'. destruct (Hbefore j') as (k' & w & ->); [lia|done].
  - assert (Hb' : used (<[i := Occupied k v]> new) = S (used new)).
    { pose proof (entries_le_used (<[i := Occupied k v]> new)) as Hle. rewrite (Permutation_length Hperm) in Hle.
      simpl in Hle. rewrite Hused' in *. destruct b; simpl in *; lia. }
    destruct (IH (<[i := Occupied k v]> new) (count + 1)%nat) as (l & n & Heq & Hlen & Hrl & Hpl & Hul & Hn).
    + by rewrite length_insert.
    + done.
    + rewrite Hb', Hu, (Permutation_length Hperm). done.
    + rewrite Hb'. lia.
    + rewrite Hperm, Permutation_app_comm. simpl. apply NoDup_cons. split.
      * rewrite fmap_app. set_solver.
      * by rewrite Permutation_app_comm.
    + rewrite Hb', length_insert. simpl in Hroom. lia.
    + exists l, n. rewrite length_insert in Hlen. split_and!; try done. rewrite Hpl, Hperm. solve_Permutation.
Qed.

Lemma entries_empty {A B} (f : Bucket -> option (A * B)) n : f Empty = None -> entries f (replicate n Empty) = [].
Proof. intros Hf. induction n as [|n IH]; [done|]. simpl replicate. by rewrite entries_cons, Hf, IH. Qed.

Lemma reachable_empty n : reachable (replicate n Empty).
Proof. intros i k v [? _]%lookup_replicate. done. Qed.

Lemma double_pow2 n : is_pow2 n -> (4 <= n)%nat -> is_pow2 (Nat.max (n * 2) INITIAL_CAPACITY).
Proof.
  intros [e ->] Hn. unfold INITIAL_CAPACITY. destruct (Nat.max_spec (2 ^ e * 2) 16) as [[_ ->]|[_ ->]].
  - by exists 4%nat.
  - exists (S e). simpl. lia.
Qed.

Lemma resize_ok m :
  open_ok m ->
  exists m', resize m = Some m' /\ open_ok m' /\ open_model m' = open_model m /\
    (100 * (occupied_count m' + 1) < 70 * length (buckets m'))%nat.
Proof.
  intros Hok. unfold resize. set (n := Nat.max (length (buckets m) * 2) INITIAL_CAPACITY).
  pose proof (oo_cap _ Hok) as Hcap. pose proof (oo_load _ Hok) as Hload. pose proof (entries_le_used (buckets m)) as Hle.
  rewrite <- (oo_used _ Hok) in Hle.
  assert (Hn : (2 * length (buckets m) <= n)%nat) by (unfold n; lia).
  pose proof (entries_empty slot n eq_refl) as Hes. pose proof (entries_empty used_slot n eq_refl) as Heu.
  destruct (rehash_spec (buckets m) (replicate n Empty) 0) as (l & c & -> & Hlen & Hr & Hperm & Hu & Hc).
  - rewrite length_replicate. apply double_pow2; apply Hok.
  - apply reachable_empty.
  - unfold used. by rewrite Hes, Heu.
  - unfold used. by rewrite Heu.
  - rewrite Hes, app_nil_r. apply Hok.
  - unfold used. rewrite Heu, length_replicate. simpl. lia.
  - rewrite length_replicate in Hlen. rewrite Hes, app_nil_r in Hperm.
    assert (Hcn : c = length (entries slot (buckets m))) by (rewrite Hc; by apply Permutation_length).
    assert (Hul : keys_unique slot l) by (unfold keys_unique; rewrite Hperm; apply Hok).
    eexists. split; [done|]. split_and!; cbn [buckets occupied_count]; [| |lia].
    + constructor; cbn [buckets occupied_count olen]; try done.
      * rewrite Hlen. apply double_pow2; apply Hok.
      * lia.
      * rewrite (oo_len _ Hok). symmetry. by apply Permutation_length.
      * lia.
    + unfold open_model, table_model. cbn [buckets]. by apply list_to_map_proper.
Qed.

(** ** The laws *)

Lemma open_get m k : open_ok m -> get m k = Some (open_model m !! k).
Proof. intros Hok. destruct (find_model m k Hok) as (r & Hf & Hr & _). unfold get. rewrite Hf. cbn. by rewrite Hr. Qed.

Lemma open_update m k f :
  open_ok m ->
  exists m', get_mut m k f = Some (open_model m !! k, m') /\ open_ok m' /\ open_model m' = alter f k (open_model m).
Proof.
  intros Hok. destruct (find_model m k Hok) as (r & Hf & Hr & Hi). unfold get_mut. rewrite Hf. cbn [fmap option_fmap option_map].
  rewrite <- Hr. destruct r as [[i v]|]; simpl in Hr |- *.
  - destruct (open_write_old m k i v (Some (f v)) Hok (Hi i v eq_refl)) as (Hok' & Hk & Hm'). rewrite Nat.sub_0_r in *.
    eexists. split_and!; [done|exact Hok'|]. etrans; [exact Hm'|].
    apply map_eq. intros j. rewrite lookup_insert, lookup_alter. case_decide; [subst|done]. by rewrite Hk.
  - exists m. split_and!; [done|done|]. apply map_eq. intros j. rewrite lookup_alter.
    case_decide; [subst|done]. by rewrite <- Hr.
Qed.

Lemma open_remove m k :
  open_ok m ->
  exists m', remove m k = Some (open_model m !! k, m') /\ open_ok m' /\ open_model m' = delete k (open_model m).
Proof.
  intros Hok. destruct (find_model m k Hok) as (r & Hf & Hr & Hi). unfold remove. rewrite Hf. cbn [fmap option_fmap option_map].
  rewrite <- Hr. destruct r as [[i v]|]; simpl in Hr |- *.
  - destruct (open_write_old m k i v None Hok (Hi i v eq_refl)) as (Hok' & Hk & Hm').
    eexists. split_and!; [done|exact Hok'|exact Hm'].
  - exists m. split_and!; [done|done|]. by rewrite delete_id.
Qed.

(** [insert] once there is room below the load factor. *)
Lemma insert_here m k v :
  open_ok m -> (100 * (occupied_count m + 1) < 70 * length (buckets m))%nat ->
  exists m', match insert_loop (length (buckets m)) (buckets m) k (start (buckets m) k) None with
    | None => None
    | Some (Found idx old) => Some (Some old, mkOpen (<[idx := Occupied k v]> (buckets m)) (olen m) (occupied_count m))
    | Some (Vacant idx was_empty) =>
        Some (None, mkOpen (<[idx := Occupied k v]> (buckets m)) (olen m + 1)
                      (if was_empty then occupied_count m + 1 else occupied_count m)%nat)
    end = Some (open_model m !! k, m') /\ open_ok m' /\ open_model m' = <[k := v]> (open_model m).
Proof.
  intros Hok Hload. pose proof (oo_pow2 _ Hok) as Hp. rewrite <- (path_0 _ Hp k).
  assert (Hseen : seen (buckets m) k 0 None) by (split_and!; [intros; lia|intros; lia|done]).
  pose proof (insert_loop_spec _ Hp k (length (buckets m)) 0 None Hseen) as Hs.
  destruct (insert_loop _ _ k _ None) as [[i old|i e]|].
  - destruct (open_write_old m k i old (Some v) Hok Hs) as (Hok' & Hk & Hm'). rewrite Nat.sub_0_r in *.
    eexists. rewrite Hk. split_and!; [done|exact Hok'|exact Hm'].
  - destruct Hs as ((j & Hpath & Hj & Hne) & Hi & (j0 & He & Hno)).
    pose proof (absent _ k j0 Hp (oo_reach _ Hok) He Hno) as Habs.
    destruct (put_new (buckets m) k v i j _ Hp (oo_unique _ Hok) (oo_reach _ Hok) Habs Hi) as (Hu' & Hr' & Hm' & Hk & Hperm & Hused');
      [by destruct e|done|lia|done|].
    eexists. unfold open_model at 1. rewrite Hk. split_and!; [done| |exact Hm'].
    constructor; cbn [buckets olen occupied_count]; rewrite ?length_insert; try apply Hok; try done.
    + rewrite (oo_len _ Hok), (Permutation_length Hperm). simpl. lia.
    + rewrite Hused', (oo_used _ Hok). destruct e; lia.
    + destruct e; lia.
  - destruct (has_empty_path (buckets m) k Hp (used_lt m Hok)) as (j & Hj & He). exfalso. apply (Hs j); [lia|done].
Qed.

Lemma open_insert m k v :
  open_ok m ->
  exists m', insert m k v = Some (open_model m !! k, m') /\ open_ok m' /\ open_model m' = <[k := v]> (open_model m).
Proof.
  intros Hok. unfold insert. destruct (needs_resize m) eqn:Hn.
  - destruct (resize_ok m Hok) as (m1 & -> & Hok1 & <- & Hload). by apply insert_here.
  - apply insert_here; [done|]. unfold needs_resize, MAX_LOAD_FACTOR_PERCENT in Hn. apply Nat.leb_gt in Hn.
    pose proof (oo_cap _ Hok). pose proof (Nat.div_mod ((occupied_count m + 1) * 100) (length (buckets m)) ltac:(lia)).
    pose proof (Nat.mod_upper_bound ((occupied_count m + 1) * 100) (length (buckets m)) ltac:(lia)). nia.
Qed.

Lemma open_len m : open_ok m -> olen m = size (open_model m).
Proof. intros Hok. unfold open_model. rewrite model_size by apply Hok. apply Hok. Qed.

Lemma open_empty n : is_pow2 n -> (4 <= n)%nat ->
  open_ok (mkOpen (replicate n Empty) 0 0) /\ open_model (mkOpen (replicate n Empty) 0 0) = ∅.
Proof.
  intros Hp Hn. pose proof (entries_empty slot n eq_refl) as Hes. pose proof (entries_empty used_slot n eq_refl) as Heu.
  split.
  - constructor; cbn [buckets olen occupied_count]; rewrite ?length_replicate; try done.
    + unfold keys_unique. rewrite Hes. constructor.
    + by rewrite Hes.
    + unfold used. by rewrite Heu.
    + lia.
    + apply reachable_empty.
  - unfold open_model, table_model. cbn [buckets]. by rewrite Hes.
Qed.

Lemma open_clear m : open_ok m -> open_ok (clear m) /\ open_model (clear m) = ∅.
Proof.
  intros Hok. unfold clear. assert ((fun _ => Empty) <$> buckets m = replicate (length (buckets m)) Empty) as ->.
  { clear Hok. induction (buckets m) as [|b l IH]; [done|]. simpl. by rewrite <- IH. }
  apply open_empty; apply Hok.
Qed.

Lemma with_capacity_ok n : open_ok (with_capacity n) /\ open_model (with_capacity n) = ∅.
Proof.
  apply open_empty; [by eexists|]. unfold next_power_of_two.
  destruct (Nat.log2_up_spec (Nat.max n 4)) as [_ Hle]; [lia|]. lia.
Qed.

#[export] Program Instance open_spec : MapSpec K V OpenAddressMap := {
  map_ok := open_ok;
  map_model := open_model;
  map_capacity _ := None;
}.
Next Obligation. intros m k Hok. by apply open_get. Qed.
Next Obligation.
  intros m k v Hok. unfold bounded_insert, room. rewrite orb_true_r. destruct (open_insert m k v Hok) as (m' & ? & ? & ?). by exists m'.
Qed.
Next Obligation. intros m k f Hok. destruct (open_update m k f Hok) as (m' & ? & ? & ?). by exists m'. Qed.
Next Obligation. intros m k Hok. destruct (open_remove m k Hok) as (m' & ? & ? & ?). by exists m'. Qed.
Next Obligation. intros m Hok. by apply open_len. Qed.
Next Obligation. intros m Hok. by destruct (open_clear m Hok). Qed.
End OpenAddress.
End OpenAddress.
