(* ===== verification/Collections.v ===== *)
(** * Collections: hashers, the hash set, and what the collections guarantee

    [kernel/src/collections/hasher/] and [set.rs]. The set is written and
    proved against the map interface; the theorems at the end say that each
    map, over any hasher, answers every sequence of operations as a finite
    map would, and the set as a finite set would. *)

From stdpp Require Import base list numbers gmap sets.
From S2P Require Import Prelude MapInterface Maps OpenAddress.

(** ** Hashers *)

Definition FNV_OFFSET_BASIS : Z := 0xcbf29ce484222325.
Definition FNV_PRIME : Z := 0x100000001b3.

Definition fnv_write (state : Z) (bytes : list Z) : Z :=
  foldl (fun h b => wrapping_mul (Z.lxor h b) FNV_PRIME) state bytes.

(** The low eight bytes, little end first; [i] is the index of the first. *)
Fixpoint identity_or (i : Z) (bytes : list Z) (val : Z) : Z :=
  match bytes with
  | [] => val
  | b :: bytes => identity_or (i + 1) bytes (Z.lor val (Z.shiftl b (i * 8)))
  end.
Definition identity_write (bytes : list Z) : Z := identity_or 0 (take 8 bytes) 0.


(** [BuildHasher::hash_one] of a [u64] key: [write_u64] is [write] of its bytes
    for FNV, and stores the key for the identity hasher. *)
Definition fnv_hash_u64 (k : Z) : Z := fnv_write FNV_OFFSET_BASIS (le_bytes 8 k).
Definition identity_hash_u64 (k : Z) : Z := k.

(** The published FNV-1a value of the one-byte input "a". *)
Example fnv_of_a : fnv_write FNV_OFFSET_BASIS [97] = 0xaf63dc4c8601ec8c.
Proof. vm_compute. reflexivity. Qed.

Lemma lor_shift val b k : 0 <= k -> 0 <= val < 2 ^ k -> Z.lor val (Z.shiftl b k) = val + b * 2 ^ k.
Proof.
  intros Hk Hv. rewrite <- Z.shiftl_mul_pow2 by done.
  assert (Hl : Z.land val (Z.shiftl b k) = 0).
  { apply Z.bits_inj'. intros n Hn. rewrite Z.land_spec, Z.bits_0. destruct (Z.lt_ge_cases n k).
    - by rewrite Z.shiftl_spec_low, andb_false_r by lia.
    - destruct (decide (val = 0)) as [->|]; [by rewrite Z.bits_0|]. rewrite (Z.bits_above_log2 val n); [done|lia|].
      apply Z.lt_le_trans with k; [apply Z.log2_lt_pow2; lia|done]. }
  pose proof (Z.add_lor_land val (Z.shiftl b k)). lia.
Qed.

Lemma identity_or_spec n : forall i x val,
  0 <= i -> 0 <= x -> 0 <= val < 2 ^ (i * 8) ->
  identity_or i (le_bytes n x) val = val + x mod 256 ^ Z.of_nat n * 2 ^ (i * 8).
Proof.
  induction n as [|n IH]; intros i x val Hi Hx Hv; [simpl; rewrite Z.mod_1_r; lia|].
  cbn [le_bytes identity_or]. rewrite lor_shift by lia.
  pose proof (Z.mod_pos_bound x 256 ltac:(lia)) as Hm.
  assert (Hp : 2 ^ ((i + 1) * 8) = 256 * 2 ^ (i * 8)).
  { replace ((i + 1) * 8) with (8 + i * 8) by lia. rewrite Z.pow_add_r by lia. lia. }
  rewrite IH by (try apply Z.div_pos; nia). rewrite Hp, Nat2Z.inj_succ, Z.pow_succ_r by lia.
  rewrite Z.rem_mul_r by lia. lia.
Qed.

(** The identity hasher gives an integer key back, fed as bytes or as a word. *)
Lemma identity_write_u64 k : is_u64 k -> identity_write (le_bytes 8 k) = identity_hash_u64 k.
Proof.
  unfold is_u64, U64_MAX. intros Hk. unfold identity_write, identity_hash_u64.
  rewrite take_ge by (simpl; lia). rewrite identity_or_spec by (simpl; lia).
  rewrite Z.mod_small; [simpl; lia|]. simpl. lia.
Qed.

(** ** The hash set *)

Section HashSet.
Context {T M : Type} `{Countable T} `{!Map T unit M}.

Record HashSet : Type := mkSet { set_map : M }.

Definition set_insert (s : HashSet) (x : T) : option (bool * HashSet) :=
  (fun '(o, m) => (bool_decide (o = None), mkSet m)) <$> map_insert (set_map s) x tt.
Definition set_contains (s : HashSet) (x : T) : option bool := map_contains_key (set_map s) x.
Definition set_remove (s : HashSet) (x : T) : option (bool * HashSet) :=
  (fun '(o, m) => (bool_decide (is_Some o), mkSet m)) <$> map_remove (set_map s) x.
Definition set_len (s : HashSet) : nat := map_len (set_map s).
Definition set_clear (s : HashSet) : HashSet := mkSet (map_clear (set_map s)).

Inductive SetOp : Type := SInsert (x : T) | SContains (x : T) | SRemove (x : T) | SLen | SClear.
Inductive SetOut : Type := SBool (b : bool) | SSize (n : nat) | SUnit.

Definition set_step (s : HashSet) (op : SetOp) : option (SetOut * HashSet) :=
  match op with
  | SInsert x => (fun '(b, s) => (SBool b, s)) <$> set_insert s x
  | SContains x => (fun b => (SBool b, s)) <$> set_contains s x
  | SRemove x => (fun '(b, s) => (SBool b, s)) <$> set_remove s x
  | SLen => Some (SSize (set_len s), s)
  | SClear => Some (SUnit, set_clear s)
  end.
(** The same on a finite set. *)
Definition gset_step (g : gset T) (op : SetOp) : SetOut * gset T :=
  match op with
  | SInsert x => (SBool (bool_decide (x ∉ g)), {[x]} ∪ g)
  | SContains x => (SBool (bool_decide (x ∈ g)), g)
  | SRemove x => (SBool (bool_decide (x ∈ g)), g ∖ {[x]})
  | SLen => (SSize (size g), g)
  | SClear => (SUnit, ∅)
  end.
Fixpoint set_run (ops : list SetOp) (s : HashSet) : option (list SetOut * HashSet) :=
  match ops with
  | [] => Some ([], s)
  | op :: ops =>
      match set_step s op with
      | Some (o, s) => (fun '(os, s) => (o :: os, s)) <$> set_run ops s
      | None => None
      end
  end.
Fixpoint gset_run (ops : list SetOp) (g : gset T) : list SetOut * gset T :=
  match ops with
  | [] => ([], g)
  | op :: ops =>
      let '(o, g) := gset_step g op in
      let '(os, g) := gset_run ops g in (o :: os, g)
  end.

Context `{!MapSpec T unit M}.

Definition set_ok (s : HashSet) : Prop := map_ok (set_map s) /\ map_capacity (set_map s) = None.
Definition set_model (s : HashSet) : gset T := dom (map_model (set_map s)).

Lemma elem_dom s x : x ∈ set_model s <-> is_Some (map_model (set_map s) !! x).
Proof. apply elem_of_dom. Qed.

Lemma set_step_refines s op :
  set_ok s ->
  exists s', set_step s op = Some ((gset_step (set_model s) op).1, s') /\ set_ok s' /\
    set_model s' = (gset_step (set_model s) op).2.
Proof.
  intros [Hok Hc]. destruct op; simpl.
  - unfold set_insert. destruct (law_insert (set_map s) x tt Hok) as (m' & -> & Hok' & Hc' & Hm'). simpl.
    exists (mkSet m'). split_and!.
    + do 3 f_equal. apply bool_decide_ext. rewrite elem_dom, eq_None_not_Some. done.
    + split; simpl; [done|congruence].
    + unfold set_model. simpl. rewrite Hm', Hc. unfold bounded_insert, room. rewrite orb_true_r. by rewrite dom_insert_L.
  - unfold set_contains, map_contains_key. rewrite law_get by done. simpl. exists s. split_and!; [|done|done].
    do 3 f_equal. apply bool_decide_ext. by rewrite elem_dom.
  - unfold set_remove. destruct (law_remove (set_map s) x Hok) as (m' & -> & Hok' & Hc' & Hm'). simpl.
    exists (mkSet m'). split_and!.
    + do 3 f_equal. apply bool_decide_ext. by rewrite elem_dom.
    + split; simpl; [done|congruence].
    + unfold set_model. simpl. rewrite Hm'. by rewrite dom_delete_L.
  - exists s. unfold set_len, set_model. rewrite law_len, size_dom by done. done.
  - destruct (law_clear (set_map s) Hok) as (Hok' & Hc' & Hm'). exists (set_clear s). split_and!; [done| |].
    + split; simpl; [done|congruence].
    + unfold set_model. simpl. by rewrite Hm', dom_empty_L.
Qed.

Lemma set_run_refines ops : forall s,
  set_ok s ->
  exists s', set_run ops s = Some ((gset_run ops (set_model s)).1, s') /\ set_ok s' /\
    set_model s' = (gset_run ops (set_model s)).2.
Proof.
  induction ops as [|op ops IH]; intros s Hok; simpl; [by exists s|].
  destruct (set_step_refines s op Hok) as (s1 & -> & Hok1 & Hm1).
  destruct (IH s1 Hok1) as (s2 & -> & Hok2 & Hm2). rewrite Hm1 in *.
  destruct (gset_step (set_model s) op) as [o g]. simpl in *. destruct (gset_run ops g) as [os g']. by exists s2.
Qed.
End HashSet.
Arguments HashSet : clear implicits.
Arguments SetOp : clear implicits.

(** Sequences of operations on each implementation, over a given hasher. *)
Definition open_run {K V} `{Countable K} (hash_one : K -> Z) (ops : list (MapOp K V)) (m : OpenAddress.OpenAddressMap) :=
  map_run (Map0 := OpenAddress.open_map hash_one) ops m.
Definition chained_run {K V} `{Countable K} (hash_one : K -> Z) (ops : list (MapOp K V)) (m : Chained.ChainedMap) :=
  map_run (Map0 := Chained.chained_map hash_one) ops m.
Definition static_run {K V} `{Countable K} (ops : list (MapOp K V)) (m : Static.StaticMap K V) :=
  map_run (Map0 := Static.static_map) ops m.

(** ** The guarantees *)

Section Guarantees.
Context {K V : Type} `{Countable K}.

(** C20. The open-addressing map, whatever the hash function and however many
    collisions, removals and resizes happen: every operation of every
    sequence ends (each probe finds its key or an empty bucket) and returns
    what a finite map returns. *)
Theorem open_address_map_refines (hash_one : K -> Z) (capacity : nat) (ops : list (MapOp K V)) :
  exists m', open_run hash_one ops (OpenAddress.with_capacity capacity) = Some ((spec_run None ops ∅).1, m').
Proof.
  destruct (OpenAddress.with_capacity_ok (V := V) hash_one capacity) as [Hok Hm].
  destruct (map_run_refines (MapSpec0 := OpenAddress.open_spec hash_one) ops _ Hok) as (m' & Heq & _).
  exists m'. cbn [map_model map_capacity OpenAddress.open_spec] in Heq. by rewrite Hm in Heq.
Qed.

(** The chained map answers every sequence of operations as a finite map
    does, whatever the hash function. *)
Theorem chained_map_refines (hash_one : K -> Z) (num_buckets : nat) (ops : list (MapOp K V)) :
  exists m', chained_run hash_one ops (Chained.with_buckets num_buckets) = Some ((spec_run None ops ∅).1, m').
Proof.
  destruct (Chained.with_buckets_ok (V := V) hash_one num_buckets) as [Hok Hm].
  destruct (map_run_refines (MapSpec0 := Chained.chained_spec hash_one) ops _ Hok) as (m' & Heq & _).
  exists m'. cbn [map_model map_capacity Chained.chained_spec] in Heq. by rewrite Hm in Heq.
Qed.

(** The static map answers every sequence of operations as a finite map
    that holds at most [CAPACITY] keys does; inserting a new key into a full
    one returns [None], as a successful insert does, and stores nothing. *)
Theorem static_map_refines (capacity : nat) (ops : list (MapOp K V)) :
  exists m', static_run ops (Static.new capacity) = Some ((spec_run (Some capacity) ops ∅).1, m').
Proof.
  destruct (Static.static_new_ok (K := K) (V := V) capacity) as [Hok Hm].
  destruct (map_run_refines (MapSpec0 := Static.static_spec) ops _ Hok) as (m' & Heq & _). exists m'.
  cbn [map_model map_capacity Static.static_spec] in Heq. rewrite Hm in Heq.
  unfold Static.capacity, Static.new in Heq. cbn [Static.slots] in Heq. by rewrite length_replicate in Heq.
Qed.
End Guarantees.

(** The hash set over the open-addressing map answers every sequence of
    operations as a finite set does: an insertion reports whether the value
    is new, a removal whether it was there. *)
Theorem hash_set_refines {T} `{Countable T} (hash_one : T -> Z) (capacity : nat) (ops : list (SetOp T)) :
  exists s', set_run (Map0 := OpenAddress.open_map hash_one) ops (mkSet (OpenAddress.with_capacity capacity))
    = Some ((gset_run ops ∅).1, s').
Proof.
  destruct (OpenAddress.with_capacity_ok (V := unit) hash_one capacity) as [Hok Hm].
  assert (Hset : set_ok (MapSpec0 := OpenAddress.open_spec hash_one) (mkSet (OpenAddress.with_capacity capacity))) by done.
  destruct (set_run_refines ops _ Hset) as (s' & Heq & _). exists s'.
  unfold set_model in Heq. cbn [set_map map_model OpenAddress.open_spec] in Heq. by rewrite Hm, dom_empty_L in Heq.
Qed.
