(* ===== verification/KlogRing.v ===== *)
(** * KlogRing: the kernel log's byte ring

    [kernel/src/klog_ring.rs]: a fixed array of [CAPACITY] bytes written round
    and round. The guarantee: after any writes the ring shows the newest
    [CAPACITY] bytes written, oldest first, and [contains] searches exactly
    those. *)

From stdpp Require Import base list numbers.
From S2P Require Import Prelude.
Local Open Scope nat_scope.

Module Klog.
Record Ring : Type := mkRing { bytes : list Z; head : nat; len : nat }.

Definition new (capacity : nat) : Ring := mkRing (replicate capacity 0%Z) 0 0.

(** [dst[pos..pos + src.len()].copy_from_slice(src)]. *)
Definition copy_at (dst : list Z) (pos : nat) (src : list Z) : list Z :=
  take pos dst ++ src ++ drop (pos + length src) dst.

Definition push (r : Ring) (data : list Z) : Ring :=
  let CAPACITY := length (bytes r) in
  let data := drop (length data - CAPACITY) data in
  let first := Nat.min (length data) (CAPACITY - head r) in
  let b := copy_at (bytes r) (head r) (take first data) in
  let b := copy_at b 0 (drop first data) in
  mkRing b ((head r + length data) mod CAPACITY) (Nat.min (len r + length data) CAPACITY).

Definition as_slices (r : Ring) : list Z * list Z :=
  let CAPACITY := length (bytes r) in
  let start := (head r + CAPACITY - len r) mod CAPACITY in
  if start + len r <=? CAPACITY
  then (take (len r) (drop start (bytes r)), [])
  else (drop start (bytes r), take (head r) (bytes r)).

Definition contains (r : Ring) (needle : list Z) : bool :=
  let '(first, second) := as_slices r in
  let at_ index := if index <? length first then first !! index else second !! (index - length first) in
  if len r <? length needle then false else
  existsb (fun start => forallb (fun offset => bool_decide (at_ (start + offset) = needle !! offset)) (seq 0 (length needle)))
    (seq 0 (len r - length needle + 1)).

(** [write_str] of the text's bytes. *)
Definition write_str (r : Ring) (text : list Z) : Ring := push r text.

Definition contents (r : Ring) : list Z := (as_slices r).1 ++ (as_slices r).2.
Definition ring_ok (r : Ring) : Prop :=
  0 < length (bytes r) /\ head r < length (bytes r) /\ len r <= length (bytes r).

(** The newest [n] of a list of bytes. *)
Definition newest (n : nat) (l : list Z) : list Z := drop (length l - n) l.

(** ** Wrapping *)

Lemma wrap_cases n x : 0 < n -> x < 2 * n -> (x mod n = x /\ x < n) \/ (x mod n = x - n /\ n <= x).
Proof.
  intros Hn Hx. destruct (decide (x < n)); [left; split; [by apply Nat.mod_small|done]|right; split; [|lia]].
  replace x with (x - n + 1 * n) at 1 by lia. rewrite Nat.Div0.mod_add. apply Nat.mod_small. lia.
Qed.

Lemma length_copy_at dst pos src : pos + length src <= length dst -> length (copy_at dst pos src) = length dst.
Proof. intros Hle. unfold copy_at. rewrite !length_app, length_take, length_drop. lia. Qed.

Lemma lookup_copy_at dst pos src i :
  pos + length src <= length dst ->
  copy_at dst pos src !! i = if decide (pos <= i < pos + length src) then src !! (i - pos) else dst !! i.
Proof.
  intros Hle. unfold copy_at. destruct (decide (i < pos)).
  - rewrite lookup_app_l by (rewrite length_take; lia). rewrite lookup_take_lt by done. rewrite decide_False by lia. done.
  - rewrite lookup_app_r by (rewrite length_take; lia). rewrite length_take, Nat.min_l by lia. case_decide.
    + by rewrite lookup_app_l by lia.
    + rewrite lookup_app_r by lia. rewrite lookup_drop. f_equal. lia.
Qed.

(** What the two copies leave at the [j]-th position from [head]. *)
Lemma push_bytes r d j :
  ring_ok r -> length d <= length (bytes r) -> j < length (bytes r) ->
  let first := Nat.min (length d) (length (bytes r) - head r) in
  copy_at (copy_at (bytes r) (head r) (take first d)) 0 (drop first d) !! ((head r + j) mod length (bytes r))
  = if decide (j < length d) then d !! j else bytes r !! ((head r + j) mod length (bytes r)).
Proof.
  intros (Hn & Hh & Hl) Hd Hj first. set (n := length (bytes r)) in *.
  assert (Htake : length (take first d) = first) by (rewrite length_take; lia).
  assert (Hdrop : length (drop first d) = length d - first) by (by rewrite length_drop).
  assert (Hl1 : length (copy_at (bytes r) (head r) (take first d)) = n) by (apply length_copy_at; rewrite Htake; lia).
  rewrite lookup_copy_at by (rewrite Hl1, Hdrop; lia). rewrite lookup_copy_at by (rewrite Htake; fold n; lia).
  rewrite Htake, Hdrop, Nat.sub_0_r.
  destruct (wrap_cases n (head r + j)) as [[-> Hlt]|[-> Hge]]; [done|lia| |].
  - rewrite (decide_False (P := 0 <= head r + j < _)) by lia. destruct (decide (j < length d)).
    + rewrite decide_True by lia. rewrite lookup_take_lt by lia. f_equal. lia.
    + by rewrite decide_False by lia.
  - destruct (decide (j < length d)).
    + rewrite decide_True by lia. rewrite lookup_drop. f_equal. lia.
    + rewrite !decide_False by lia. done.
Qed.

(** ** Contents *)

Lemma contents_eq r :
  ring_ok r ->
  let n := length (bytes r) in
  (len r <= head r /\ contents r = take (len r) (drop (head r - len r) (bytes r))) \/
  (head r < len r /\ contents r = drop (head r + n - len r) (bytes r) ++ take (head r) (bytes r)).
Proof.
  intros (Hn & Hh & Hl) n. unfold contents, as_slices. fold n in Hn, Hh, Hl |- *.
  destruct (wrap_cases n (head r + n - len r)) as [[-> Hlt]|[-> Hge]]; [done|lia| |].
  - right. split; [lia|]. destruct (Nat.leb_spec (head r + n - len r + len r) n); simpl; [|done].
    assert (head r = 0) as -> by lia. rewrite app_nil_r. rewrite take_ge by (rewrite length_drop; fold n; lia).
    simpl. by rewrite app_nil_r.
  - left. split; [lia|]. destruct (Nat.leb_spec (head r + n - len r - n + len r) n); simpl; [|lia].
    rewrite app_nil_r. do 2 f_equal. lia.
Qed.

Lemma contents_spec r :
  ring_ok r -> length (contents r) = len r /\
  forall i, i < len r -> contents r !! i = bytes r !! ((head r + length (bytes r) - len r + i) mod length (bytes r)).
Proof.
  intros Hok. pose proof (contents_eq r Hok) as Hc. destruct Hok as (Hn & Hh & Hl). set (n := length (bytes r)) in *.
  destruct Hc as [[Hle ->]|[Hlt ->]]; split.
  - rewrite length_take, length_drop. fold n. lia.
  - intros i Hi. rewrite lookup_take_lt, lookup_drop by done. f_equal.
    destruct (wrap_cases n (head r + n - len r + i)) as [[-> ?]|[-> ?]]; lia.
  - rewrite length_app, length_take, length_drop. fold n. lia.
  - intros i Hi. destruct (wrap_cases n (head r + n - len r + i)) as [[-> ?]|[-> ?]]; [done|lia| |].
    + rewrite lookup_app_l by (rewrite length_drop; fold n; lia). by rewrite lookup_drop.
    + rewrite lookup_app_r by (rewrite length_drop; fold n; lia). rewrite length_drop. fold n.
      rewrite lookup_take_lt by lia. f_equal. lia.
Qed.

Lemma length_newest n l : length (newest n l) = Nat.min (length l) n.
Proof. unfold newest. rewrite length_drop. lia. Qed.

(** A write of at most [CAPACITY] bytes. *)
Lemma push_short r d :
  ring_ok r -> length d <= length (bytes r) ->
  ring_ok (push r d) /\ length (bytes (push r d)) = length (bytes r) /\
  contents (push r d) = newest (length (bytes r)) (contents r ++ d).
Proof.
  intros Hok Hd. pose proof (contents_spec r Hok) as [Hlc Hc].
  pose proof (fun j => push_bytes r d j Hok Hd) as Hb. pose proof Hok as (Hn & Hh & Hl).
  set (n := length (bytes r)) in *.
  assert (Hdata : drop (length d - n) d = d) by (by replace (length d - n) with 0 by lia).
  set (first := Nat.min (length d) (n - head r)) in *. cbn zeta in Hb.
  set (b := copy_at (copy_at (bytes r) (head r) (take first d)) 0 (drop first d)) in *.
  assert (Hpush : push r d = mkRing b ((head r + length d) mod n) (Nat.min (len r + length d) n)).
  { unfold push. fold n. by rewrite Hdata. }
  assert (Hlb : length b = n).
  { unfold b. assert (Ht : length (take first d) = first) by (rewrite length_take; lia).
    assert (Hl1 : length (copy_at (bytes r) (head r) (take first d)) = n) by (apply length_copy_at; rewrite Ht; fold n; lia).
    rewrite length_copy_at by (rewrite Hl1, length_drop; lia). exact Hl1. }
  assert (Hok' : ring_ok (push r d)).
  { rewrite Hpush. split_and!; cbn [bytes head len]; rewrite Hlb; [done|apply Nat.mod_upper_bound; lia|lia]. }
  split_and!; [done|by rewrite Hpush|].
  pose proof (contents_spec _ Hok') as [Hlc' Hc']. rewrite Hpush in Hlc', Hc'. rewrite Hpush.
  cbn [bytes head len] in Hlc', Hc'. rewrite Hlb in Hc'.
  apply list_eq_same_length with (n := Nat.min (len r + length d) n); [|done|].
  { rewrite length_newest, length_app, Hlc. lia. }
  intros i x y Hi Hx Hy. rewrite Hc' in Hx by done.
  unfold newest in Hy. rewrite lookup_drop, length_app, Hlc in Hy.
  set (k := Nat.min (len r + length d) n) in *.
  (* the position, counted from the old head *)
  assert (Hpos : exists j, j < n /\ ((head r + length d) mod n + n - k + i) mod n = (head r + j) mod n /\
    ((j < length d /\ j = i + length d - k /\ k <= i + length d) \/ (length d <= j /\ j = n - k + length d + i /\ i + length d < k))).
  { destruct (decide (k <= i + length d)).
    - exists (i + length d - k). split_and!; [lia| |left; lia].
      destruct (wrap_cases n (head r + length d)) as [[-> ?]|[-> ?]]; [lia|lia| |].
      + replace (head r + length d + n - k + i) with (head r + (i + length d - k) + 1 * n) by lia. by rewrite Nat.Div0.mod_add.
      + f_equal. lia.
    - exists (n - k + length d + i). split_and!; [lia| |right; lia].
      destruct (wrap_cases n (head r + length d)) as [[-> ?]|[-> ?]]; [lia|lia| |].
      + f_equal. lia.
      + replace (head r + (n - k + length d + i)) with (head r + length d - n + n - k + i + 1 * n) by lia.
        by rewrite Nat.Div0.mod_add. }
  destruct Hpos as (j & Hj & Hmod & Hcase). rewrite Hmod, Hb in Hx by done.
  destruct Hcase as [(Hjd & -> & Hk)|(Hjd & -> & Hk)].
  - rewrite decide_True in Hx by done. rewrite lookup_app_r in Hy by lia.
    replace (len r + length d - n + i - length (contents r)) with (i + length d - k) in Hy by lia. congruence.
  - rewrite decide_False in Hx by lia. rewrite lookup_app_l in Hy by lia. rewrite Hc in Hy by lia.
    replace (head r + n - len r + (len r + length d - n + i)) with (head r + (n - k + length d + i) + 0) in Hy by lia.
    rewrite Nat.add_0_r in Hy. congruence.
Qed.

Lemma newest_app n l k : newest n (newest n l ++ k) = newest n (l ++ k).
Proof.
  unfold newest. rewrite !length_app, length_drop. rewrite !drop_app. rewrite drop_drop, length_drop.
  f_equal; f_equal; lia.
Qed.

Lemma newest_app_r n l k : newest n (l ++ newest n k) = newest n (l ++ k).
Proof.
  destruct (decide (length k <= n)) as [Hle|Hgt].
  - assert (newest n k = k) as ->; [|done]. unfold newest. by replace (length k - n) with 0 by lia.
  - unfold newest. rewrite !length_app, length_drop, !drop_app, drop_drop, !(drop_ge l) by lia. simpl. f_equal. lia.
Qed.

Lemma push_newest r d : push r d = push r (newest (length (bytes r)) d).
Proof.
  unfold push. fold (newest (length (bytes r)) d).
  assert (Hid : drop (length (newest (length (bytes r)) d) - length (bytes r)) (newest (length (bytes r)) d)
    = newest (length (bytes r)) d) by (rewrite length_newest; by replace (_ - _) with 0 by lia).
  by rewrite Hid.
Qed.

Lemma push_spec r d :
  ring_ok r ->
  ring_ok (push r d) /\ length (bytes (push r d)) = length (bytes r) /\
  contents (push r d) = newest (length (bytes r)) (contents r ++ d).
Proof.
  intros Hok. rewrite push_newest.
  destruct (push_short r (newest (length (bytes r)) d) Hok) as (? & ? & Hc); [rewrite length_newest; lia|].
  split_and!; [done|done|]. by rewrite Hc, newest_app_r.
Qed.

Lemma pushes_spec chunks : forall r,
  ring_ok r -> let r' := foldl push r chunks in
  ring_ok r' /\ contents r' = newest (length (bytes r)) (contents r ++ concat chunks).
Proof.
  induction chunks as [|d chunks IH]; intros r Hok; simpl.
  - split; [done|]. rewrite app_nil_r. unfold newest. destruct (contents_spec r Hok) as [-> _].
    destruct Hok as (_ & _ & Hl). by replace (_ - _) with 0 by lia.
  - destruct (push_spec r d Hok) as (Hok' & Hlen & Hc). destruct (IH _ Hok') as [Hok'' ->]. split; [done|].
    by rewrite Hlen, Hc, newest_app, app_assoc.
Qed.

Lemma new_ok n : 0 < n -> ring_ok (new n) /\ contents (new n) = [].
Proof.
  intros Hn. assert (Hok : ring_ok (new n)) by (unfold ring_ok, new; cbn; rewrite length_replicate; lia).
  split; [done|]. apply nil_length_inv. by destruct (contents_spec _ Hok).
Qed.

(** A run of equal elements is an infix. *)
Lemma infix_iff (l needle : list Z) start :
  (forall o, o < length needle -> l !! (start + o) = needle !! o) <-> take (length needle) (drop start l) = needle.
Proof.
  split.
  - intros Heq. apply list_eq. intros o. destruct (decide (o < length needle)) as [Ho|Ho].
    + by rewrite lookup_take_lt, lookup_drop, Heq.
    + rewrite !lookup_ge_None_2; [done|lia|rewrite length_take; lia].
  - intros Heq o Ho. rewrite <- Heq. by rewrite lookup_take_lt, lookup_drop.
Qed.

Lemma contains_spec r needle :
  ring_ok r -> contains r needle = true <-> exists a b, contents r = a ++ needle ++ b.
Proof.
  intros Hok. destruct (contents_spec r Hok) as [Hlen _]. unfold contains, contents in *.
  destruct (as_slices r) as [first second]. cbn [fst snd] in *.
  assert (Hat : forall i, (if i <? length first then first !! i else second !! (i - length first)) = (first ++ second) !! i).
  { intros i. destruct (Nat.ltb_spec i (length first)); [by rewrite lookup_app_l|by rewrite lookup_app_r]. }
  set (l := first ++ second) in *. destruct (Nat.ltb_spec (len r) (length needle)) as [Hlt|Hge].
  - split; [done|]. intros (a & b & Hl). rewrite Hl, !length_app in Hlen. lia.
  - rewrite existsb_true_exists. split.
    + intros (start & Hs & Hall). rewrite forallb_true_forall in Hall.
      assert (Heq : take (length needle) (drop start l) = needle).
      { apply infix_iff. intros o Ho. specialize (Hall o). rewrite Hat in Hall. apply bool_decide_eq_true in Hall; [done|].
        apply elem_of_seq. lia. }
      exists (take start l), (drop (length needle) (drop start l)). rewrite <- Heq at 1. by rewrite !take_drop.
    + intros (a & b & Hl). exists (length a). split.
      * apply elem_of_seq. rewrite <- Hlen, Hl, !length_app. lia.
      * rewrite forallb_true_forall. intros o Ho%elem_of_seq. rewrite Hat. apply bool_decide_eq_true.
        rewrite Hl, lookup_app_r by lia. rewrite lookup_app_l by lia. f_equal. lia.
Qed.

(** ** The guarantee *)

(** After any sequence of writes the ring holds the newest [CAPACITY] bytes
    of everything written, oldest first, whatever the sizes of the writes and
    wherever they wrap; a search finds a needle exactly when it occurs there. *)
Theorem log_keeps_newest n chunks needle :
  0 < n ->
  let r := foldl push (new n) chunks in
  (as_slices r).1 ++ (as_slices r).2 = newest n (concat chunks) /\
  len r = Nat.min (length (concat chunks)) n /\
  (contains r needle = true <-> exists a b, newest n (concat chunks) = a ++ needle ++ b).
Proof.
  intros Hn. destruct (new_ok n Hn) as [Hok Hc]. destruct (pushes_spec chunks (new n) Hok) as [Hok' Hc'].
  cbn zeta in *. rewrite Hc in Hc'. cbn [new bytes] in Hc'. rewrite length_replicate in Hc'. simpl in Hc'.
  split_and!; [exact Hc'| |].
  - destruct (contents_spec _ Hok') as [<- _]. by rewrite Hc', length_newest.
  - rewrite contains_spec by done. by rewrite Hc'.
Qed.

Lemma log_keeps_newest_witness :
  let r := foldl push (new 4) [[1; 2; 3]; [4; 5; 6]]%Z in
  contains r [4; 5]%Z = true /\ (as_slices r).1 ++ (as_slices r).2 = [3; 4; 5; 6]%Z.
Proof.
  split; [vm_compute; reflexivity|].
  destruct (log_keeps_newest 4 [[1; 2; 3]; [4; 5; 6]]%Z [] ltac:(lia)) as [H _]. exact H.
Defined.
End Klog.
