(* ===== verification/SoundRing.v ===== *)
(** * SoundRing: the playback ring

    [kernel/src/sound/ring.rs]: which period of the DMA buffer is being filled,
    which are queued for the card and how many it has played. Periods are
    counted in [nat]. [None] is the failed assertion of [commit]; the debug
    assertions of [update] and [start] are not evaluated here but proved.

    The card is not code of this repository: [card_step] states what the module
    documents of it (it plays the submitted periods in order and stops after
    the last one), and the theorems are about the ring and any such card. *)

From stdpp Require Import base list numbers relations.
From S2P Require Import Prelude.
Local Open Scope nat_scope.

Module Sound.
Definition PERIODS : nat := 32.
Definition PERIOD_BYTES : nat := 2048.
Definition RING_BYTES : nat := PERIODS * PERIOD_BYTES.
Definition MAX_QUEUED : nat := PERIODS - 1.
Definition START_PERIODS : nat := 4.

Record Status : Type := mkStatus { st_current : nat; st_halted : bool }.
Inductive Action : Type := ActNone | Start (last : nat) | Submit (last : nat).
Record Update : Type := mkUpdate { up_halted : bool; finished : option (nat * nat) }.

Record Ring : Type := mkRing {
  fill_period : nat;
  fill_bytes : nat;
  first_queued : nat;
  queued : nat;
  running : bool;
  played : nat;
}.

Definition new : Ring := mkRing 0 0 0 0 false 0.

Definition update (r : Ring) (s : Status) : Update * Ring :=
  if negb (running r) then (mkUpdate false None, r) else
  if st_halted s then
    (mkUpdate true (if 0 <? queued r then Some (first_queued r, queued r) else None),
     mkRing 0 (fill_bytes r) 0 0 false (played r + queued r))
  else
    let d := (st_current s + PERIODS - first_queued r) mod PERIODS in
    let d := Nat.min d (queued r - 1) in
    (mkUpdate false (if 0 <? d then Some (first_queued r, d) else None),
     mkRing (fill_period r) (fill_bytes r) ((first_queued r + d) mod PERIODS) (queued r - d) (running r) (played r + d)).

Definition space (r : Ring) : option (nat * nat) :=
  if queued r <? MAX_QUEUED
  then Some (fill_period r * PERIOD_BYTES + fill_bytes r, PERIOD_BYTES - fill_bytes r) else None.

Definition start (r : Ring) : Action * Ring :=
  if running r || (queued r =? 0) then (ActNone, r) else
  (Start (queued r - 1), mkRing (fill_period r) (fill_bytes r) (first_queued r) (queued r) true (played r)).

Definition commit (r : Ring) (count : nat) : option (Action * Ring) :=
  if negb ((queued r <? MAX_QUEUED) && (fill_bytes r + count <=? PERIOD_BYTES)) then None else
  let fill := fill_bytes r + count in
  if fill <? PERIOD_BYTES
  then Some (ActNone, mkRing (fill_period r) fill (first_queued r) (queued r) (running r) (played r))
  else
    let period := fill_period r in
    let r := mkRing ((period + 1) mod PERIODS) 0 (first_queued r) (queued r + 1) (running r) (played r) in
    Some (if running r then (Submit period, r)
          else if START_PERIODS <=? queued r then start r
          else (ActNone, r)).

Definition padding (r : Ring) : option (nat * nat) := if 0 <? fill_bytes r then space r else None.

Definition reset (r : Ring) : Ring := mkRing 0 0 0 0 false (played r).

(** ** The card and the caller *)

(** What the card plays, up to which period, and whether it has stopped. *)
Record Card : Type := mkCard { cur : nat; last_valid : nat; halted : bool }.

Definition perform (a : Action) (c : Card) : Card :=
  match a with
  | ActNone => c
  | Start last => mkCard 0 last false
  | Submit last => mkCard (cur c) last (halted c)
  end.
Definition status (c : Card) : Status := mkStatus (cur c) (halted c).

(** A period ends: the card goes on to the next submitted one, or stops. *)
Definition card_advance (c : Card) : Card :=
  if halted c then c
  else if cur c =? last_valid c then mkCard (cur c) (last_valid c) true
  else mkCard ((cur c + 1) mod PERIODS) (last_valid c) false.

(** The card advances at any time. The driver catches up with it before it
    submits a period; a card that halts in between is outside this model. *)
Inductive sound_step : Ring * Card -> Ring * Card -> Prop :=
| ss_advance r c : sound_step (r, c) (r, card_advance c)
| ss_update r c : sound_step (r, c) ((update r (status c)).2, c)
| ss_commit r c count a r' : commit r count = Some (a, r') -> (forall last, a = Submit last -> halted c = false) ->
    sound_step (r, c) (r', perform a c)
| ss_start r c : sound_step (r, c) ((start r).2, perform (start r).1 c)
| ss_reset r c : sound_step (r, c) (reset r, mkCard (cur c) (last_valid c) true).

(** ** The invariant *)

Record ring_ok (r : Ring) : Prop := {
  ro_first : first_queued r < PERIODS;
  ro_bytes : fill_bytes r < PERIOD_BYTES;
  ro_queued : queued r <= MAX_QUEUED;
  ro_fill : fill_period r = (first_queued r + queued r) mod PERIODS;
  ro_running : running r = true -> 0 < queued r;
  ro_idle : running r = false -> first_queued r = 0 /\ queued r < START_PERIODS;
}.

(** A running card is inside the queued periods and ends with them. *)
Definition card_ok (r : Ring) (c : Card) : Prop :=
  running r = true ->
  exists d, d < queued r /\ cur c = (first_queued r + d) mod PERIODS /\
    last_valid c = (first_queued r + queued r - 1) mod PERIODS /\ (halted c = true -> d = queued r - 1).

Definition sys_ok (s : Ring * Card) : Prop := ring_ok s.1 /\ card_ok s.1 s.2.

(** Project records, and leave the arithmetic folded. *)
Ltac fields :=
  cbn [fill_period fill_bytes first_queued queued running played cur last_valid halted perform status fst snd].

Lemma period_pos : 0 < PERIODS.
Proof. unfold PERIODS. lia. Qed.

(** Two positions less than a turn apart. *)
Lemma mod_eq_iff a b : a <= b -> b < a + PERIODS -> a mod PERIODS = b mod PERIODS -> a = b.
Proof.
  unfold PERIODS. intros Hle Hlt Heq. pose proof (Nat.div_mod a 32 ltac:(lia)). pose proof (Nat.div_mod b 32 ltac:(lia)). lia.
Qed.

(** [done] recovers how far a card inside the ring has come. *)
Lemma done_eq f d : f < PERIODS -> d < PERIODS -> ((f + d) mod PERIODS + PERIODS - f) mod PERIODS = d.
Proof.
  unfold PERIODS. intros Hf Hd. destruct (decide (f + d < 32)).
  - rewrite (Nat.mod_small (f + d)) by done. replace (f + d + 32 - f) with (d + 1 * 32) by lia.
    rewrite Nat.Div0.mod_add. by apply Nat.mod_small.
  - replace (f + d) with (f + d - 32 + 1 * 32) by lia. rewrite Nat.Div0.mod_add, (Nat.mod_small (f + d - 32)) by lia.
    rewrite Nat.mod_small; lia.
Qed.

Lemma add_mod_wrap a b : (a mod PERIODS + b) mod PERIODS = (a + b) mod PERIODS.
Proof. apply Nat.Div0.add_mod_idemp_l. Qed.

Lemma update_ok r c : ring_ok r -> card_ok r c -> ring_ok (update r (status c)).2 /\ card_ok (update r (status c)).2 c.
Proof.
  intros Hr Hc. unfold update. destruct (running r) eqn:Hrun; cbn [negb snd]; [|by split].
  cbn [status st_halted st_current]. destruct (halted c) eqn:Hh; cbn [snd].
  - split; [|by intros ?]. destruct Hr. constructor; fields; try done; unfold PERIODS, MAX_QUEUED, START_PERIODS in *; lia.
  - destruct (Hc Hrun) as (d & Hd & Hcur & Hlast & _).
    pose proof (ro_queued _ Hr) as Hq. pose proof (ro_first _ Hr) as Hf. unfold MAX_QUEUED in Hq.
    rewrite Hcur, done_eq by (unfold PERIODS in *; lia). rewrite (Nat.min_l d) by lia. split.
    + destruct Hr. constructor; fields; try done.
      * apply Nat.mod_upper_bound. unfold PERIODS. lia.
      * lia.
      * rewrite add_mod_wrap, ro_fill0. f_equal. lia.
      * lia.
    + intros _. fields. exists 0. rewrite Nat.add_0_r, Nat.Div0.mod_mod. split_and!; [lia|done| |].
      * rewrite Hlast. set (f := (first_queued r + d) mod PERIODS).
        replace (f + (queued r - d) - 1) with (f + (queued r - d - 1)) by lia. unfold f. rewrite add_mod_wrap. f_equal. lia.
      * intros Hx. congruence.
Qed.

Lemma start_ok r c : ring_ok r -> card_ok r c -> ring_ok (start r).2 /\ card_ok (start r).2 (perform (start r).1 c).
Proof.
  intros Hr Hc. unfold start. destruct (running r) eqn:Hrun; simpl; [by split|].
  destruct (Nat.eqb_spec (queued r) 0) as [Hz|Hz]; simpl; [by split|].
  destruct (ro_idle _ Hr Hrun) as [Hf Hq]. destruct Hr. split.
  - constructor; fields; try done. lia.
  - intros _. fields. exists 0. rewrite Hf. unfold START_PERIODS, PERIODS in *. split_and!; [lia|done| |done].
    rewrite Nat.mod_small; lia.
Qed.

Lemma commit_ok r c count a r' :
  ring_ok r -> card_ok r c -> commit r count = Some (a, r') -> (forall last, a = Submit last -> halted c = false) ->
  ring_ok r' /\ card_ok r' (perform a c).
Proof.
  intros Hr Hc Hcommit Hlive. unfold commit in Hcommit.
  destruct (negb _) eqn:Hguard; [done|]. apply negb_false_iff, andb_prop in Hguard as [Hq%Nat.ltb_lt Hb%Nat.leb_le].
  destruct (Nat.ltb_spec (fill_bytes r + count) PERIOD_BYTES) as [Hlt|Hge].
  { injection Hcommit as <- <-. split; [|exact Hc]. destruct Hr. by constructor. }
  set (r1 := mkRing ((fill_period r + 1) mod PERIODS) 0 (first_queued r) (queued r + 1) (running r) (played r)) in *.
  assert (Hfill : fill_period r1 = (first_queued r1 + queued r1) mod PERIODS).
  { unfold r1. fields. rewrite (ro_fill _ Hr), add_mod_wrap. f_equal. lia. }
  unfold r1 in Hfill, Hcommit. cbn [running fill_period first_queued queued] in Hfill, Hcommit.
  destruct (running r) eqn:Hrun; cbn [negb] in *.
  - injection Hcommit as <- <-. split.
    + destruct Hr. constructor; fields; try done; [unfold PERIOD_BYTES; lia|unfold MAX_QUEUED in *; lia|lia].
    + intros _. destruct (Hc Hrun) as (d & Hd & Hcur & _). exists d. fields. split_and!; [lia|done| |].
      * rewrite (ro_fill _ Hr). f_equal. lia.
      * intros Hh. rewrite (Hlive _ eq_refl) in Hh. done.
  - destruct (ro_idle _ Hr Hrun) as [Hf Hqs]. cbn [queued] in Hcommit.
    destruct (Nat.leb_spec START_PERIODS (queued r + 1)) as [Hs|Hs].
    + unfold start in Hcommit. cbn [running queued orb first_queued fill_period fill_bytes played] in Hcommit.
      destruct (Nat.eqb_spec (queued r + 1) 0); [lia|]. injection Hcommit as <- <-. split.
      * destruct Hr. constructor; fields; try done; [unfold PERIOD_BYTES; lia|unfold MAX_QUEUED in *; lia|lia].
      * intros _. fields. exists 0. rewrite Hf. unfold START_PERIODS, PERIODS in *. split_and!; [lia|done| |done].
        rewrite Nat.mod_small; lia.
    + injection Hcommit as <- <-. split; [|by intros ?]. destruct Hr.
      constructor; fields; try done; [unfold PERIOD_BYTES; lia|unfold MAX_QUEUED in *; lia].
Qed.

Lemma advance_ok r c : ring_ok r -> card_ok r c -> card_ok r (card_advance c).
Proof.
  intros Hr Hc Hrun. destruct (Hc Hrun) as (d & Hd & Hcur & Hlast & Hh). unfold card_advance.
  destruct (halted c) eqn:Hhc; [by exists d; rewrite Hhc|]. pose proof (ro_queued _ Hr) as Hq.
  destruct (Nat.eqb_spec (cur c) (last_valid c)) as [He|He]; fields.
  - exists d. split_and!; [done..|]. intros _. rewrite Hcur, Hlast in He.
    apply mod_eq_iff in He; unfold MAX_QUEUED, PERIODS in *; lia.
  - exists (d + 1). rewrite Hcur, add_mod_wrap. split_and!; [|f_equal; lia|done|done].
    assert (d <> queued r - 1); [|lia]. intros ->. apply He. rewrite Hcur, Hlast. f_equal. lia.
Qed.

Lemma sound_step_ok s s' : sound_step s s' -> sys_ok s -> sys_ok s'.
Proof.
  destruct 1; intros [Hr Hc]; simpl in *.
  - split; [done|by apply advance_ok].
  - by apply update_ok.
  - by eapply commit_ok.
  - by apply start_ok.
  - split; [|by intros ?]. constructor; unfold reset; fields; try done;
      unfold PERIODS, PERIOD_BYTES, MAX_QUEUED, START_PERIODS; lia.
Qed.

Definition initial : Ring * Card := (new, mkCard 0 0 true).

Lemma sound_reach_ok s : rtc sound_step initial s -> sys_ok s.
Proof.
  assert (H0 : sys_ok initial).
  { split; [|by intros ?]. constructor; unfold initial, new; fields; try done; unfold PERIODS, PERIOD_BYTES, MAX_QUEUED, START_PERIODS; lia. }
  intros Hr. induction Hr as [|s1 s2 s3 Hs Hr IH]; [done|]. apply IH. by eapply sound_step_ok.
Qed.

(** ** The guarantees *)

(** With any card that plays submitted periods in order, in every reachable
    state: a running card is within the queued periods (the assertion in
    [update] holds) and an idle ring starts at period 0 (the one in [start]);
    and the space offered lies inside one period of the buffer that is neither
    queued nor the one being played. *)
Theorem fill_never_played r c :
  rtc sound_step initial (r, c) ->
  (running r = true -> halted c = false -> (cur c + PERIODS - first_queued r) mod PERIODS < queued r) /\
  (running r = false -> first_queued r = 0) /\
  forall offset bytes, space r = Some (offset, bytes) ->
    0 < bytes /\ offset + bytes = (fill_period r + 1) * PERIOD_BYTES /\ offset + bytes <= RING_BYTES /\
    (forall d, d < queued r -> (first_queued r + d) mod PERIODS <> fill_period r) /\
    (running r = true -> cur c <> fill_period r).
Proof.
  intros [Hr Hc]%sound_reach_ok. cbn [fst snd] in Hr, Hc. pose proof (ro_queued _ Hr) as Hq. pose proof (ro_first _ Hr) as Hf.
  pose proof (ro_bytes _ Hr) as Hb. split_and!.
  - intros Hrun _. destruct (Hc Hrun) as (d & Hd & -> & _). rewrite done_eq by (unfold MAX_QUEUED, PERIODS in *; lia). done.
  - intros Hrun. by apply (ro_idle _ Hr).
  - intros offset b. unfold space. destruct (Nat.ltb_spec (queued r) MAX_QUEUED) as [Hlt|]; [|done].
    intros [= <- <-].
    assert (Hfp : fill_period r < PERIODS) by (rewrite (ro_fill _ Hr); apply Nat.mod_upper_bound; unfold PERIODS; lia).
    assert (Hne : forall d, d < queued r -> (first_queued r + d) mod PERIODS <> fill_period r).
    { intros d Hd. rewrite (ro_fill _ Hr). intros He. apply mod_eq_iff in He; unfold MAX_QUEUED, PERIODS in *; lia. }
    unfold RING_BYTES. split_and!; [lia|nia|nia|done|]. intros Hrun. destruct (Hc Hrun) as (d & Hd & -> & _). by apply Hne.
Qed.

(** Bytes accepted so far. *)
Definition accepted (r : Ring) : nat := (played r + queued r) * PERIOD_BYTES + fill_bytes r.

(** No audio is lost or invented: a commit of at most the space offered
    succeeds and adds exactly its bytes, any other fails; catching up with the
    card and starting it keep the bytes accepted, and the periods reported
    finished are exactly those that leave the queue, from its front. *)
Theorem no_audio_lost r c count :
  ring_ok r -> card_ok r c ->
  (match space r with
   | Some (_, bytes) => count <= bytes -> exists a r', commit r count = Some (a, r') /\ accepted r' = accepted r + count
   | None => commit r count = None
   end) /\
  accepted (start r).2 = accepted r /\
  let '(u, r') := update r (status c) in
  accepted r' = accepted r /\
  match finished u with
  | Some (first, n) => first = first_queued r /\ played r' = played r + n /\ queued r = queued r' + n
  | None => played r' = played r /\ queued r' = queued r
  end.
Proof.
  intros Hr Hc. split_and!.
  - unfold space, commit. destruct (Nat.ltb_spec (queued r) MAX_QUEUED); cbn [andb negb]; [|done].
    intros Hle. pose proof (ro_bytes _ Hr). destruct (Nat.leb_spec (fill_bytes r + count) PERIOD_BYTES); cbn [negb]; [|lia].
    unfold accepted. destruct (Nat.ltb_spec (fill_bytes r + count) PERIOD_BYTES).
    + do 2 eexists. split; [done|]. fields. lia.
    + assert (Hsum : fill_bytes r + count = PERIOD_BYTES) by lia. unfold start. cbn [running queued].
      destruct (running r); cbn [orb]; [do 2 eexists; split; [done|]; cbn [played queued fill_bytes]; lia|].
      destruct (START_PERIODS <=? queued r + 1); [|do 2 eexists; split; [done|]; cbn [played queued fill_bytes]; lia].
      destruct (queued r + 1 =? 0); do 2 eexists; (split; [done|]; cbn [played queued fill_bytes]; lia).
  - unfold start, accepted. by destruct (running r || (queued r =? 0)).
  - unfold update. destruct (running r) eqn:Hrun; cbn [negb]; [|done]. unfold accepted.
    destruct (st_halted (status c)); cbn [played queued fill_bytes finished].
    + split; [lia|]. destruct (Nat.ltb_spec 0 (queued r)); lia.
    + set (d := Nat.min _ _). assert (d <= queued r) by (unfold d; lia). split; [nia|].
      destruct (Nat.ltb_spec 0 d); lia.
Qed.

(** ** Witnesses *)

Definition demo_ring : Ring := mkRing 3 0 0 3 false 0.
Definition demo_started : Ring := mkRing 4 0 0 4 true 0.

Lemma demo_reach : rtc sound_step initial (demo_started, mkCard 0 3 false).
Proof.
  do 3 (eapply rtc_l; [eapply (ss_commit _ _ PERIOD_BYTES); [vm_compute; reflexivity|done]|]).
  eapply rtc_l; [eapply (ss_commit _ _ PERIOD_BYTES); [vm_compute; reflexivity|done]|]. apply rtc_refl.
Qed.

Lemma fill_never_played_witness : space demo_started = Some (4 * PERIOD_BYTES, PERIOD_BYTES) /\ 0 <> fill_period demo_started.
Proof.
  destruct (fill_never_played demo_started (mkCard 0 3 false) demo_reach) as (_ & _ & H).
  split; [vm_compute; reflexivity|]. destruct (H (4 * PERIOD_BYTES) PERIOD_BYTES) as (_ & _ & _ & _ & Hc); [vm_compute; reflexivity|]. by apply Hc.
Defined.

Lemma no_audio_lost_witness : accepted (start demo_started).2 = accepted demo_started.
Proof.
  destruct (sound_reach_ok _ demo_reach) as [Hr Hc].
  destruct (no_audio_lost demo_started (mkCard 0 3 false) 5 Hr Hc) as (_ & H & _). exact H.
Defined.
End Sound.
