(* ===== verification/Text.v ===== *)
(** * Text: bytes and strings

    A [str] of the source is its list of bytes ([Z]s); [utf8] decides which
    lists are one. The string operations of [core] the sources use are
    [char::to_digit(16)], [core::str::from_utf8] and [str::split] with an
    ASCII separator. *)

From stdpp Require Import base list numbers.
From S2P Require Import Prelude.
Local Open Scope Z_scope.

Definition SLASH : Z := 47.
Definition DOT : Z := 46.

Definition len (l : list Z) : Z := Z.of_nat (length l).

Definition to_digit (b : Z) : option Z :=
  if (48 <=? b) && (b <=? 57) then Some (b - 48)
  else if (97 <=? b) && (b <=? 102) then Some (b - 87)
  else if (65 <=? b) && (b <=? 70) then Some (b - 55) else None.

Definition between (lo b hi : Z) : bool := (lo <=? b) && (b <=? hi).
Definition cont (b : Z) : bool := between 128 b 191.

Fixpoint utf8 (l : list Z) : bool :=
  match l with
  | [] => true
  | a :: l =>
      if between 0 a 127 then utf8 l
      else if between 194 a 223 then match l with b :: l => cont b && utf8 l | _ => false end
      else if between 224 a 239 then
        match l with
        | b :: c :: l =>
            (if a =? 224 then between 160 b 191 else if a =? 237 then between 128 b 159 else cont b) && cont c && utf8 l
        | _ => false
        end
      else if between 240 a 244 then
        match l with
        | b :: c :: d :: l =>
            (if a =? 240 then between 144 b 191 else if a =? 244 then between 128 b 143 else cont b)
            && cont c && cont d && utf8 l
        | _ => false
        end
      else false
  end.

Fixpoint split (sep : Z) (l : list Z) : list (list Z) :=
  match l with
  | [] => [[]]
  | b :: l =>
      if b =? sep then [] :: split sep l
      else match split sep l with c :: cs => (b :: c) :: cs | [] => [[b]] end
  end.

(** [str::split_once] with an ASCII separator. *)
Fixpoint split_once (sep : Z) (s : list Z) : option (list Z * list Z) :=
  match s with
  | [] => None
  | c :: s =>
      if c =? sep then Some ([], s)
      else match split_once sep s with Some (a, b) => Some (c :: a, b) | None => None end
  end.

(** ** Lemmas *)

Lemma len_app l k : len (l ++ k) = len l + len k.
Proof. unfold len. rewrite length_app. lia. Qed.
Lemma len_nonneg l : 0 <= len l.
Proof. unfold len. lia. Qed.
Lemma len_replicate n b : len (replicate n b) = Z.of_nat n.
Proof. unfold len. by rewrite length_replicate. Qed.

(** Bytes copied into the middle of others. *)
Lemma splice_lookup (out bytes : list Z) d i :
  (d + length bytes <= length out)%nat -> (i < length out)%nat ->
  (take d out ++ bytes ++ drop (d + length bytes) out) !! i =
  if bool_decide (d <= i < d + length bytes)%nat then bytes !! (i - d)%nat else out !! i.
Proof.
  intros Hd Hi. case_bool_decide as Hin.
  - rewrite lookup_app_r by (rewrite length_take; lia). rewrite length_take, Nat.min_l by lia.
    by rewrite lookup_app_l by lia.
  - destruct (decide (i < d)%nat).
    + rewrite lookup_app_l by (rewrite length_take; lia). by rewrite lookup_take_lt.
    + rewrite lookup_app_r by (rewrite length_take; lia). rewrite length_take, Nat.min_l by lia.
      rewrite lookup_app_r by lia. rewrite lookup_drop. f_equal. lia.
Qed.

Lemma to_digit_range b d : to_digit b = Some d -> 0 <= d < 16.
Proof. unfold to_digit. repeat case_if; intros [=]; lia. Qed.

Lemma utf8_ascii l : Forall (fun b => 0 <= b <= 127) l -> utf8 l = true.
Proof.
  induction 1 as [|b l Hb Hl IH]; [done|]. cbn [utf8]. cbn beta in Hb. unfold between.
  destruct (Z.leb_spec 0 b); [|lia]. destruct (Z.leb_spec b 127); [|lia]. done.
Qed.

Lemma split_once_app sep a b : (sep ∉ a) -> split_once sep (a ++ sep :: b) = Some (a, b).
Proof.
  induction a as [|c a IH]; intros Ha; simpl; [by rewrite Z.eqb_refl|]. apply not_elem_of_cons in Ha as [Hne Ha].
  destruct (Z.eqb_spec c sep); [done|]. by rewrite IH.
Qed.

Lemma split_once_none sep a : (sep ∉ a) -> split_once sep a = None.
Proof.
  induction a as [|c a IH]; intros Ha; simpl; [done|]. apply not_elem_of_cons in Ha as [Hne Ha].
  destruct (Z.eqb_spec c sep); [done|]. by rewrite IH.
Qed.

Lemma split_nonempty sep l : split sep l <> [].
Proof. destruct l as [|b l]; simpl; [done|]. case_if; [done|]. by destruct (split sep l). Qed.

Lemma split_no_sep sep l c : c ∈ split sep l -> (sep ∉ c).
Proof.
  revert c. induction l as [|b l IH]; intros c; simpl.
  - rewrite list_elem_of_singleton. intros ->. apply not_elem_of_nil.
  - case_if; [rewrite elem_of_cons; intros [->|Hc]; [apply not_elem_of_nil|by apply IH]|].
    destruct (split sep l) as [|d ds] eqn:Hs; [by apply split_nonempty in Hs|].
    rewrite elem_of_cons. intros [->|Hc]; [|apply IH; by right].
    apply not_elem_of_cons. split; [done|]. apply IH. left.
Qed.

Lemma split_fresh sep c : (sep ∉ c) -> split sep c = [c].
Proof.
  induction c as [|b c IH]; intros Hc; simpl; [done|]. apply not_elem_of_cons in Hc as [Hne Hc].
  rewrite IH by done. destruct (Z.eqb_spec b sep); [done|done].
Qed.

Lemma split_app sep p c : (sep ∉ c) -> split sep (p ++ sep :: c) = split sep p ++ [c].
Proof.
  intros Hc. induction p as [|b p IH]; simpl.
  - rewrite Z.eqb_refl. by rewrite split_fresh.
  - rewrite IH. case_if; [done|]. destruct (split sep p) eqn:Hs; [by apply split_nonempty in Hs|done].
Qed.

Lemma concat_split sep l : concat (cons sep <$> split sep l) = sep :: l.
Proof.
  induction l as [|b l IH]; simpl; [done|]. destruct (Z.eqb_spec b sep) as [->|Hne].
  - cbn [fmap list_fmap concat]. by rewrite IH.
  - destruct (split sep l) as [|c cs] eqn:Hs; [by apply split_nonempty in Hs|].
    cbn [fmap list_fmap concat] in *. injection IH as IH. simpl. by rewrite IH.
Qed.

(** ** Paths *)

Definition good_component (c : list Z) : Prop :=
  c <> [] /\ c <> [DOT] /\ c <> [DOT; DOT] /\ (SLASH ∉ c).
(** A relative path that stays below the directory it starts from. *)
Definition safe_path (p : list Z) : Prop := Forall good_component (split SLASH p).

