(* ===== verification/Elf.v ===== *)
(** * Elf: validating an executable

    [kernel/src/exec/elf.rs]: [plan] accepts an ELF64 file or answers
    [ENOEXEC], and [page_contents] builds one page of a loaded segment. A file
    is its list of bytes; offsets and addresses are [Z]s. The additions the
    source leaves unchecked cannot exceed 64 bits (the theorems bound them). *)

From stdpp Require Import base list numbers sets.
From S2P Require Import Prelude Errno Text.
Local Open Scope Z_scope.

Module Elf.
Definition PAGE_SIZE : Z := 4096.
Definition PT_LOAD : Z := 1.
Definition PT_DYNAMIC : Z := 2.
Definition PT_INTERP : Z := 3.
Definition PT_PHDR : Z := 6.
Definition PF_X : Z := 1.
Definition PF_W : Z := 2.
Definition PF_R : Z := 4.
Definition ET_EXEC : Z := 2.
Definition EM_X86_64 : Z := 62.
Definition HEADER_SIZE : Z := 64.
Definition PROGRAM_HEADER_SIZE : Z := 56.
Definition MAX_PROGRAM_HEADERS : Z := 64.

Record SegmentFlags : Type := mkFlags { read : bool; write : bool; execute : bool }.
Record Segment : Type := mkSegment {
  start : Z;
  fin : Z;
  flags : SegmentFlags;
  vaddr : Z;
  file_offset : Z;
  file_size : Z;
  mem_size : Z;
}.
Record LoadPlan : Type := mkPlan {
  entry : Z;
  phdr_vaddr : Z;
  phnum : Z;
  segments : list Segment;
}.

(** [file.get(offset..offset + n)]. *)
Definition get_range (file : list Z) (offset n : Z) : option (list Z) :=
  if offset + n <=? len file then Some (take (Z.to_nat n) (drop (Z.to_nat offset) file)) else None.
Definition uint_at (n : Z) (file : list Z) (offset : Z) : result Errno Z :=
  ok_or (from_le <$> get_range file offset n) ENOEXEC.
Definition u16_at := uint_at 2.
Definition u32_at := uint_at 4.
Definition u64_at := uint_at 8.

Definition segment_flags (f : Z) : SegmentFlags :=
  mkFlags (negb (Z.land f PF_R =? 0)) (negb (Z.land f PF_W =? 0)) (negb (Z.land f PF_X =? 0)).

(** One [PT_LOAD] header, checked against the segments before it. *)
Definition load_segment (file_len user_top : Z) (segs : list Segment) (fl offset va fsize msize : Z)
  : result Errno Segment :=
  let fl := segment_flags fl in
  let? file_end := ok_or (checked_add offset fsize) ENOEXEC in
  let? mem_end := ok_or (checked_add va msize) ENOEXEC in
  if (fsize >? msize) || (file_end >? file_len) || negb (va mod PAGE_SIZE =? offset mod PAGE_SIZE)
     || (write fl && execute fl) || (va <? PAGE_SIZE) then Err ENOEXEC else
  let s := Z.ldiff va (PAGE_SIZE - 1) in
  let? e := ok_or (checked_next_multiple_of mem_end PAGE_SIZE) ENOEXEC in
  if (e >? user_top) || existsb (fun other => (s <? fin other) && (start other <? e)) segs then Err ENOEXEC else
  Ok (mkSegment s e fl va offset fsize msize).

(** The loop over the program headers from [index] on, [n] of them. *)
Fixpoint headers_loop (n : nat) (file : list Z) (user_top table_start index : Z)
    (segs : list Segment) (phdr : option Z) : result Errno (list Segment * option Z) :=
  match n with
  | O => Ok (segs, phdr)
  | S n =>
      let base := table_start + index * PROGRAM_HEADER_SIZE in
      let? kind := u32_at file base in
      let? fl := u32_at file (base + 4) in
      let? offset := u64_at file (base + 8) in
      let? va := u64_at file (base + 16) in
      let? fsize := u64_at file (base + 32) in
      let? msize := u64_at file (base + 40) in
      if (kind =? PT_INTERP) || (kind =? PT_DYNAMIC) then Err ENOEXEC else
      let phdr := if kind =? PT_PHDR then Some va else phdr in
      if negb (kind =? PT_LOAD) || (msize =? 0) then headers_loop n file user_top table_start (index + 1) segs phdr
      else
        let? seg := load_segment (len file) user_top segs fl offset va fsize msize in
        headers_loop n file user_top table_start (index + 1) (segs ++ [seg]) phdr
  end.

Definition executable (segs : list Segment) (address : Z) : bool :=
  existsb (fun s => execute (flags s) && (vaddr s <=? address) && (address <? vaddr s + mem_size s)) segs.

Definition maps_headers (phoff phnum : Z) (s : Segment) : bool :=
  (file_offset s <=? phoff) && (phoff + phnum * PROGRAM_HEADER_SIZE <=? file_offset s + file_size s).

Definition plan (file : list Z) (user_top : Z) : result Errno LoadPlan :=
  let? header := ok_or (get_range file 0 HEADER_SIZE) ENOEXEC in
  if negb (bool_decide (take 4 header = [127; 69; 76; 70])) || negb (bool_decide (header !! 4%nat = Some 2))
     || negb (bool_decide (header !! 5%nat = Some 1)) || negb (bool_decide (header !! 6%nat = Some 1))
  then Err ENOEXEC else
  let? kind := u16_at file 16 in
  let? machine := u16_at file 18 in
  let? version := u32_at file 20 in
  if negb (kind =? ET_EXEC) || negb (machine =? EM_X86_64) || negb (version =? 1) then Err ENOEXEC else
  let? ent := u64_at file 24 in
  let? phoff := u64_at file 32 in
  let? phentsize := u16_at file 54 in
  let? n := u16_at file 56 in
  if negb (phentsize =? PROGRAM_HEADER_SIZE) || (n =? 0) || (n >? MAX_PROGRAM_HEADERS) then Err ENOEXEC else
  let? table_end := ok_or (checked_add phoff (n * PROGRAM_HEADER_SIZE)) ENOEXEC in
  if table_end >? len file then Err ENOEXEC else
  let? '(segs, phdr) := headers_loop (Z.to_nat n) file user_top phoff 0 [] None in
  if bool_decide (segs = []) then Err ENOEXEC else
  if negb (executable segs ent) then Err ENOEXEC else
  let ph := match phdr with
            | Some a => a
            | None => match List.find (maps_headers phoff n) segs with
                      | Some s => vaddr s + (phoff - file_offset s)
                      | None => 0
                      end
            end in
  Ok (mkPlan ent ph n segs).

(** [None] is a slice out of bounds. *)
Definition page_contents (seg : Segment) (file : list Z) (page : Z) : option (list Z) :=
  let out := replicate (Z.to_nat PAGE_SIZE) 0 in
  let data_end := vaddr seg + file_size seg in
  let from := Z.max page (vaddr seg) in
  let to := Z.min (page + PAGE_SIZE) data_end in
  if from <? to then
    let source := file_offset seg + (from - vaddr seg) in
    let destination := Z.to_nat (from - page) in
    let length := to - from in
    match get_range file source length with
    | Some bytes =>
        if from - page + length <=? PAGE_SIZE
        then Some (take destination out ++ bytes ++ drop (destination + Z.to_nat length) out) else None
    | None => None
    end
  else Some out.
(** ** What an accepted segment satisfies *)

Definition byte (b : Z) : Prop := 0 <= b < 256.

Record segment_ok (file : list Z) (user_top : Z) (s : Segment) : Prop := {
  so_start : (PAGE_SIZE | start s) /\ start s <= vaddr s < start s + PAGE_SIZE;
  so_fin : (PAGE_SIZE | fin s) /\ vaddr s + mem_size s <= fin s < vaddr s + mem_size s + PAGE_SIZE;
  so_low : PAGE_SIZE <= start s;
  so_top : fin s <= user_top;
  so_size : 0 <= file_size s <= mem_size s /\ 0 < mem_size s;
  so_file : 0 <= file_offset s /\ file_offset s + file_size s <= len file;
  so_congruent : vaddr s mod PAGE_SIZE = file_offset s mod PAGE_SIZE;
  so_wx : (write (flags s) && execute (flags s))%bool = false;
}.

(** No two segments share a page. *)
Definition disjoint_segments (segs : list Segment) : Prop :=
  forall i j s t, segs !! i = Some s -> segs !! j = Some t -> i <> j -> fin s <= start t \/ fin t <= start s.

Lemma from_le_nonneg bytes : Forall byte bytes -> 0 <= from_le bytes.
Proof. induction 1 as [|b l Hb Hl IH]; simpl; unfold byte in *; lia. Qed.

Lemma uint_at_nonneg n file offset v : Forall byte file -> uint_at n file offset = Ok v -> 0 <= v.
Proof.
  unfold uint_at, get_range. intros Hf. case_if; [|done]. intros [= <-]. apply from_le_nonneg.
  by apply Forall_take, Forall_drop.
Qed.

Lemma page_down va : Z.ldiff va (PAGE_SIZE - 1) = PAGE_SIZE * (va / PAGE_SIZE).
Proof.
  unfold PAGE_SIZE. change (4096 - 1) with (Z.ones 12). rewrite Z.ldiff_ones_r by lia.
  rewrite Z.shiftl_mul_pow2, Z.shiftr_div_pow2 by lia. change (2 ^ 12) with 4096. lia.
Qed.

Lemma load_segment_spec file user_top segs fl offset va fsize msize seg :
  0 <= offset -> 0 <= va -> 0 <= fsize -> 0 < msize ->
  load_segment (len file) user_top segs fl offset va fsize msize = Ok seg ->
  segment_ok file user_top seg /\ forall other, other ∈ segs -> fin seg <= start other \/ fin other <= start seg.
Proof.
  intros Ho Hv Hfs Hms. unfold load_segment.
  destruct (checked_add offset fsize) as [file_end|] eqn:Hfe; [|done]. apply checked_add_Some in Hfe as [-> Hfe].
  destruct (checked_add va msize) as [mem_end|] eqn:Hme; [|done]. apply checked_add_Some in Hme as [-> Hme].
  cbn [ok_or]. case_if; [done|]. 
  destruct (checked_next_multiple_of (va + msize) PAGE_SIZE) as [e|] eqn:He; [|done].
  apply checked_next_multiple_of_Some in He as [-> He]. cbn [ok_or]. case_if; [done|].
  rewrite existsb_false_forall in *. intros [= <-].
  pose proof (next_multiple_of_ge (va + msize) PAGE_SIZE ltac:(done)).
  pose proof (next_multiple_of_lt (va + msize) PAGE_SIZE ltac:(done)).
  pose proof (next_multiple_of_divide (va + msize) PAGE_SIZE).
  rewrite page_down in *. pose proof (Z.div_mod va PAGE_SIZE ltac:(done)) as Hdm.
  pose proof (Z.mod_pos_bound va PAGE_SIZE ltac:(done)) as Hmod.
  assert (Hlow : 1 <= va / PAGE_SIZE) by (apply Z.div_le_lower_bound; [done|lia]).
  split.
  - constructor; cbn [start fin flags vaddr file_offset file_size mem_size].
    + split; [by exists (va / PAGE_SIZE); lia|lia].
    + split; [done|lia].
    + unfold PAGE_SIZE in *. lia.
    + done.
    + lia.
    + lia.
    + done.
    + by apply andb_false_iff.
  - intros other Hin. cbn [start fin]. match goal with Hx : forall x, _ -> _ = false |- _ => specialize (Hx _ Hin) end.
    bool_to_prop. lia.
Qed.

Lemma headers_loop_spec file user_top table_start n : forall index segs phdr segs' phdr',
  Forall byte file ->
  headers_loop n file user_top table_start index segs phdr = Ok (segs', phdr') ->
  Forall (segment_ok file user_top) segs -> disjoint_segments segs ->
  Forall (segment_ok file user_top) segs' /\ disjoint_segments segs'.
Proof.
  induction n as [|n IH]; intros index segs phdr segs' phdr' Hb Hrun Hok Hd; simpl in Hrun; [by injection Hrun as <- <-|].
  set (base := table_start + index * PROGRAM_HEADER_SIZE) in *.
  destruct (u32_at file base) as [kind|]; [|done]. destruct (u32_at file (base + 4)) as [fl|]; [|done].
  destruct (u64_at file (base + 8)) as [offset|] eqn:Ho; [|done]. destruct (u64_at file (base + 16)) as [va|] eqn:Hva; [|done].
  destruct (u64_at file (base + 32)) as [fsize|] eqn:Hfs; [|done]. destruct (u64_at file (base + 40)) as [msize|] eqn:Hms; [|done].
  apply uint_at_nonneg in Ho, Hva, Hfs, Hms; [|done..].
  destruct ((kind =? PT_INTERP) || (kind =? PT_DYNAMIC)); [done|].
  destruct (negb (kind =? PT_LOAD) || (msize =? 0)) eqn:Hskip; [by eapply IH|].
  destruct (load_segment _ _ _ _ _ _ _ _) as [seg|] eqn:Hseg; [|done].
  apply load_segment_spec in Hseg as [Hseg Hsep]; [|lia..]. eapply IH; [done|exact Hrun| |].
  - apply Forall_app. by split; [|apply Forall_singleton].
  - intros i j s t Hi Hj Hne.
    apply lookup_app_Some in Hi as [Hi|[Hli Hi]]; apply lookup_app_Some in Hj as [Hj|[Hlj Hj]].
    + by eapply Hd.
    + apply list_lookup_singleton_Some in Hj as [Hj <-]. apply list_elem_of_lookup_2 in Hi. destruct (Hsep _ Hi); [by right|by left].
    + apply list_lookup_singleton_Some in Hi as [Hi <-]. apply list_elem_of_lookup_2 in Hj. destruct (Hsep _ Hj); [by left|by right].
    + apply list_lookup_singleton_Some in Hi as [Hi <-]. apply list_lookup_singleton_Some in Hj as [Hj <-]. lia.
Qed.

(** Every failure of [plan] is [ENOEXEC]. *)
Lemma uint_at_err n file offset e : uint_at n file offset = Err e -> e = ENOEXEC.
Proof. unfold uint_at. destruct (from_le <$> get_range file offset n); [done|by intros [= <-]]. Qed.

Lemma load_segment_err fl ut segs a b c d g e : load_segment fl ut segs a b c d g = Err e -> e = ENOEXEC.
Proof.
  unfold load_segment.
  repeat (cbn [ok_or]; first [destruct (checked_add _ _)|destruct (checked_next_multiple_of _ _)|case_if]); by intros [= <-].
Qed.

(** Split the reads of a handler: a read that fails fails with [ENOEXEC]. *)
Ltac read_err :=
  match goal with
  | |- context [match ?r with Ok _ => _ | Err _ => _ end] =>
      lazymatch r with
      | u16_at _ _ => idtac | u32_at _ _ => idtac | u64_at _ _ => idtac
      end;
      let H := fresh "Hread" in
      destruct r eqn:H; cbv beta iota; [|let He := fresh "He" in intros He; apply uint_at_err in H; congruence]
  end.

Lemma headers_loop_err file user_top ts n : forall i segs ph e,
  headers_loop n file user_top ts i segs ph = Err e -> e = ENOEXEC.
Proof.
  induction n as [|n IH]; intros i segs ph e; simpl; [done|]. repeat read_err.
  case_if; [by intros [= <-]|]. case_if; [apply IH|].
  destruct (load_segment _ _ _ _ _ _ _ _) eqn:Hl; [apply IH|]. apply load_segment_err in Hl. congruence.
Qed.

Lemma plan_err file user_top e : plan file user_top = Err e -> e = ENOEXEC.
Proof.
  unfold plan. destruct (get_range file 0 HEADER_SIZE); cbn [ok_or]; [|by intros [= <-]]. case_if; [by intros [= <-]|].
  repeat read_err. case_if; [by intros [= <-]|]. repeat read_err. case_if; [by intros [= <-]|].
  destruct (checked_add _ _); cbn [ok_or]; [|by intros [= <-]]. case_if; [by intros [= <-]|].
  destruct (headers_loop _ _ _ _ _ _ _) as [[segs ph]|] eqn:Hh; [|apply headers_loop_err in Hh; congruence].
  case_if; [by intros [= <-]|]. case_if; [by intros [= <-]|by intros [=]].
Qed.

Lemma plan_ok file user_top p :
  Forall byte file -> plan file user_top = Ok p ->
  Forall (segment_ok file user_top) (segments p) /\ disjoint_segments (segments p) /\ segments p <> []
  /\ executable (segments p) (entry p) = true /\ 1 <= phnum p <= MAX_PROGRAM_HEADERS.
Proof.
  intros Hb. unfold plan. destruct (get_range file 0 HEADER_SIZE); cbn [ok_or]; [|done]. case_if; [done|].
  destruct (u16_at file 16), (u16_at file 18), (u32_at file 20); try done. case_if; [done|].
  destruct (u64_at file 24) as [ent|], (u64_at file 32) as [phoff|], (u16_at file 54) as [sz|],
    (u16_at file 56) as [n|] eqn:Hn; try done.
  apply uint_at_nonneg in Hn; [|done]. case_if; [done|].
  destruct (checked_add _ _); cbn [ok_or]; [|done]. case_if; [done|].
  destruct (headers_loop _ _ _ _ _ _ _) as [[segs ph]|] eqn:Hh; [|done].
  apply headers_loop_spec in Hh as [Hok Hd]; [|done|done|by intros i j s t Hi; rewrite lookup_nil in Hi].
  case_if; [done|]. case_if; [done|]. intros [= <-]. cbn [segments entry phnum]. repeat split; try done; lia.
Qed.

Lemma get_range_Some file offset n :
  0 <= offset -> 0 <= n -> offset + n <= len file ->
  exists bytes, get_range file offset n = Some bytes /\ length bytes = Z.to_nat n
    /\ forall i, (i < Z.to_nat n)%nat -> bytes !! i = file !! (Z.to_nat offset + i)%nat.
Proof.
  unfold len. intros Ho Hn Hle. unfold get_range, len. destruct (Z.leb_spec (offset + n) (Z.of_nat (length file))); [|lia].
  eexists. split; [done|]. split.
  - rewrite length_take, length_drop. lia.
  - intros i Hi. by rewrite lookup_take_lt, lookup_drop by lia.
Qed.

(** The byte of the loaded image at [address]: the file's where the segment
    has file bytes, zero elsewhere. *)
Definition image_byte (seg : Segment) (file : list Z) (address : Z) : Z :=
  if (vaddr seg <=? address) && (address <? vaddr seg + file_size seg)
  then default 0 (file !! Z.to_nat (file_offset seg + (address - vaddr seg))) else 0.

Lemma page_contents_spec file user_top seg page :
  segment_ok file user_top seg ->
  exists out, page_contents seg file page = Some out /\ length out = Z.to_nat PAGE_SIZE
    /\ forall i, 0 <= i < PAGE_SIZE -> out !! Z.to_nat i = Some (image_byte seg file (page + i)).
Proof.
  intros [_ _ _ _ [[Hfs _] _] [Hoff Hfile] _ _]. unfold page_contents.
  set (from := Z.max page (vaddr seg)). set (to := Z.min (page + PAGE_SIZE) (vaddr seg + file_size seg)).
  assert (Hrep : forall i, 0 <= i < PAGE_SIZE -> replicate (Z.to_nat PAGE_SIZE) 0 !! Z.to_nat i = Some 0).
  { intros i Hi. apply lookup_replicate_2. lia. }
  case_if.
  2: { eexists. split; [done|]. split; [apply length_replicate|]. intros i Hi. rewrite Hrep by done.
       unfold image_byte. destruct (Z.leb_spec (vaddr seg) (page + i)), (Z.ltb_spec (page + i) (vaddr seg + file_size seg)); try done. lia. }
  destruct (get_range_Some file (file_offset seg + (from - vaddr seg)) (to - from)) as (bytes & -> & Hlen & Hbytes); [lia..|].
  destruct (Z.leb_spec (from - page + (to - from)) PAGE_SIZE); [|lia].
  assert (Hpg : length (replicate (Z.to_nat PAGE_SIZE) 0) = Z.to_nat PAGE_SIZE) by apply length_replicate.
  eexists. split; [done|]. rewrite <- Hlen. split.
  - rewrite !length_app, length_take, length_drop, Hpg. lia.
  - intros i Hi. rewrite splice_lookup by (rewrite Hpg; lia). unfold image_byte. case_bool_decide as Hin.
    + destruct (Z.leb_spec (vaddr seg) (page + i)); [|lia].
      destruct (Z.ltb_spec (page + i) (vaddr seg + file_size seg)); [|lia]. cbn [andb].
      rewrite Hbytes by lia.
      replace (Z.to_nat (file_offset seg + (from - vaddr seg)) + (Z.to_nat i - Z.to_nat (from - page)))%nat
        with (Z.to_nat (file_offset seg + (page + i - vaddr seg))) by lia.
      unfold len in *. destruct (lookup_lt_is_Some_2 file (Z.to_nat (file_offset seg + (page + i - vaddr seg)))) as [b ->]; [lia|done].
    + rewrite Hrep by done.
      destruct (Z.leb_spec (vaddr seg) (page + i)), (Z.ltb_spec (page + i) (vaddr seg + file_size seg)); try done. lia.
Qed.

(** A static executable of one read-execute segment. *)
Definition le (n : nat) (v : Z) : list Z := (fun i => v / 256 ^ Z.of_nat i mod 256) <$> seq 0 n.
Definition tiny : list Z :=
  [127; 69; 76; 70; 2; 1; 1] ++ replicate 9 0 ++ le 2 2 ++ le 2 62 ++ le 4 1 ++ le 8 4194424 ++ le 8 64 ++ le 8 0
  ++ le 4 0 ++ le 2 64 ++ le 2 56 ++ le 2 1 ++ replicate 6 0
  ++ le 4 1 ++ le 4 5 ++ le 8 0 ++ le 8 4194304 ++ le 8 4194304 ++ le 8 122 ++ le 8 8192 ++ le 8 4096
  ++ [235; 254].
Definition tiny_segment : Segment := mkSegment 4194304 4202496 (mkFlags true false true) 4194304 0 122 8192.
Definition tiny_plan : LoadPlan := mkPlan 4194424 4194368 1 [tiny_segment].
Definition tiny_top : Z := 2 ^ 47 - 4096.

(** C21. An executable that [plan] accepts is safe to load: every segment lies
    in whole pages between the first page and the top of user space, holds its
    file bytes inside the file and congruent to its address, and is never both
    writable and executable; no two segments share a page; and the entry point
    is in an executable segment. Anything else is answered with [ENOEXEC], and
    only that. *)
Theorem elf_plan_sound file user_top :
  Forall byte file ->
  match plan file user_top with
  | Ok p => Forall (segment_ok file user_top) (segments p) /\ disjoint_segments (segments p)
      /\ (exists s, s ∈ segments p /\ execute (flags s) = true /\ vaddr s <= entry p < vaddr s + mem_size s)
      /\ 1 <= phnum p <= MAX_PROGRAM_HEADERS
  | Err e => e = ENOEXEC
  end.
Proof.
  intros Hb. destruct (plan file user_top) as [p|e] eqn:Hp; [|by eapply plan_err].
  destruct (plan_ok _ _ _ Hb Hp) as (Hok & Hd & _ & Hx & Hn). do 2 (split; [done|]). split; [|done].
  unfold executable in Hx. apply existsb_exists in Hx as (s & Hs & Hx). bool_to_prop.
  exists s. by rewrite list_elem_of_In.
Qed.

Lemma elf_plan_sound_witness : Forall byte tiny /\ plan tiny tiny_top = Ok tiny_plan /\ segment_ok tiny tiny_top tiny_segment.
Proof.
  assert (Hb : Forall byte tiny) by (unfold byte; repeat constructor; vm_compute; intros [=]).
  assert (Hp : plan tiny tiny_top = Ok tiny_plan) by (vm_compute; reflexivity).
  split; [exact Hb|]. split; [exact Hp|]. pose proof (elf_plan_sound tiny tiny_top Hb) as H. rewrite Hp in H.
  destruct H as [H _]. inversion H; assumption.
Defined.

(** Loading an accepted executable never reads outside the file: the
    contents of any page of a planned segment are the file's bytes where the
    segment has them and zero everywhere else ([.bss] and the page's slack). *)
Theorem elf_page_contents_exact file user_top p seg page :
  Forall byte file -> plan file user_top = Ok p -> seg ∈ segments p ->
  exists out, page_contents seg file page = Some out /\ length out = Z.to_nat PAGE_SIZE
    /\ forall i, 0 <= i < PAGE_SIZE -> out !! Z.to_nat i = Some (image_byte seg file (page + i)).
Proof.
  intros Hb Hp Hs. destruct (plan_ok _ _ _ Hb Hp) as (Hok & _). rewrite Forall_forall in Hok.
  eapply page_contents_spec, Hok, Hs.
Qed.

Lemma elf_page_contents_exact_witness :
  exists out, page_contents tiny_segment tiny 4194304 = Some out /\ out !! 121%nat = Some 254.
Proof.
  destruct (elf_page_contents_exact tiny tiny_top tiny_plan tiny_segment 4194304) as (out & Ho & Hl & Hi).
  - unfold byte. repeat constructor; vm_compute; intros [=].
  - vm_compute; reflexivity.
  - apply list_elem_of_singleton. reflexivity.
  - exists out. split; [exact Ho|]. specialize (Hi 121). change (Z.to_nat 121) with 121%nat in Hi.
    rewrite Hi; [vm_compute; reflexivity|unfold PAGE_SIZE; lia].
Defined.
End Elf.
