(* ===== verification/Cpio.v ===== *)
(** * Cpio: the initramfs archive format

    [kernel/src/fs/initramfs.rs] ([parse], which reads the archive at boot)
    and [tools/mkinitramfs/src/cpio.rs] ([write], which builds it, and
    [read], which lists it). Bytes are [Z]s and names are lists of them. The model of [parse] is partial:
    [None] is a slice index out of range, or the loop running out of fuel. *)

From stdpp Require Import base numbers sets list.
From S2P Require Import Prelude Errno Text.
Local Open Scope Z_scope.

Module Cpio.
Definition MAGIC : list Z := [48; 55; 48; 55; 48; 49].
Definition HEADER_LEN : Z := 110.
Definition TRAILER : list Z := [84; 82; 65; 73; 76; 69; 82; 33; 33; 33].
Definition S_IFMT : Z := 61440.
Definition S_IFREG : Z := 32768.
Definition S_IFDIR : Z := 16384.

Inductive CpioError : Type :=
| Truncated | BadMagic | BadNumber | BadPath
| UnsupportedType (mode : Z)
| Filesystem (e : Errno).
#[export] Instance CpioError_eq_dec : EqDecision CpioError.
Proof. solve_decision. Defined.

Inductive EntryKind : Type := File | Directory.
#[export] Instance EntryKind_eq_dec : EqDecision EntryKind.
Proof. solve_decision. Defined.

Record Entry : Type := mkEntry { path : list Z; kind : EntryKind; data : list Z }.

(** ** The kernel's parser *)

Fixpoint hex_fold (value : Z) (field : list Z) : result CpioError Z :=
  match field with
  | [] => Ok value
  | b :: field =>
      let? digit := ok_or (to_digit b) BadNumber in
      hex_fold (Z.lor (Z.shiftl value 4) digit) field
  end.
Definition hex (field : list Z) : result CpioError Z := hex_fold 0 field.

Fixpoint clean_components (components : list (list Z)) (path : list Z) : result CpioError (list Z) :=
  match components with
  | [] => Ok path
  | c :: components =>
      if bool_decide (c = []) || bool_decide (c = [DOT]) then clean_components components path
      else if bool_decide (c = [DOT; DOT]) then Err BadPath
      else clean_components components ((if bool_decide (path = []) then path else path ++ [SLASH]) ++ c)
  end.
Definition clean_path (name : list Z) : result CpioError (list Z) := clean_components (split SLASH name) [].

(** [archive.get(start..end)]: [None] outside the archive. *)
Definition get_slice (archive : list Z) (start length : Z) : option (list Z) :=
  if start + length <=? len archive then Some (take (Z.to_nat length) (drop (Z.to_nat start) archive)) else None.
Definition slice (archive : list Z) (start length : Z) : result CpioError (list Z) :=
  ok_or (checked_add start length ≫= fun _ => get_slice archive start length) Truncated.

(** The header fields from [index] on, [n] of them. *)
Fixpoint fields_loop (n : nat) (index : Z) (header : list Z) : result CpioError (list Z) :=
  match n with
  | O => Ok []
  | S n =>
      let? field := hex (take 8 (drop (Z.to_nat (6 + index * 8)) header)) in
      let? fields := fields_loop n (index + 1) header in
      Ok (field :: fields)
  end.

(** [archive.get(offset) == Some(&0)], repeatedly, on the rest of the archive. *)
Fixpoint skip_zeros (rest : list Z) (offset : Z) : Z :=
  match rest with
  | b :: rest => if b =? 0 then skip_zeros rest (offset + 1) else offset
  | [] => offset
  end.

(** The [match] on the mode: [Ok None] is the root itself, not an entry. *)
Definition entry_kind (mode size : Z) (path : list Z) : result CpioError (option EntryKind) :=
  let format := Z.land mode S_IFMT in
  if format =? S_IFREG then if bool_decide (path <> []) then Ok (Some File) else Err BadPath
  else if format =? S_IFDIR then
    if negb (size =? 0) then Err BadNumber
    else if bool_decide (path = []) then Ok None else Ok (Some Directory)
  else Err (UnsupportedType mode).

Inductive Step : Type :=
| Return
| Continue (offset : Z) (entry : option Entry).

(** What a member's name, mode and contents become. *)
Definition member_entry (name : list Z) (mode size : Z) (data : list Z) : result CpioError (option Entry) :=
  let? path := clean_path name in
  let? kind := entry_kind mode size path in
  Ok ((fun k => mkEntry path k data) <$> kind).

(** One turn of the loop. *)
Definition parse_step (archive : list Z) (offset : Z) : option (result CpioError Step) :=
  match slice archive offset HEADER_LEN with
  | Err e => Some (Err e)
  | Ok header =>
  if negb (bool_decide (take 6 header = MAGIC)) then Some (Err BadMagic) else
  match fields_loop 13 0 header with
  | Err e => Some (Err e)
  | Ok fields =>
  let mode := nth 1 fields 0 mod 2 ^ 32 in
  let size := nth 6 fields 0 in
  let name_size := nth 11 fields 0 in
  match slice archive (offset + HEADER_LEN) name_size with
  | Err e => Some (Err e)
  | Ok name =>
  if negb (bool_decide (last name = Some 0)) then Some (Err BadPath) else
  let name := removelast name in
  if bool_decide (name = []) || bool_decide (0 ∈ name) then Some (Err BadPath) else
  if negb (utf8 name) then Some (Err BadPath) else
  let data_start := offset + next_multiple_of (HEADER_LEN + name_size) 4 in
  match checked_next_multiple_of size 4 with
  | None => Some (Err Truncated)
  | Some padded_size =>
  match slice archive data_start padded_size with
  | Err e => Some (Err e)
  | Ok _ =>
  match get_slice archive data_start size with
  | None => None
  | Some data =>
  let offset := data_start + padded_size in
  if bool_decide (name = TRAILER) then
    let offset := skip_zeros (drop (Z.to_nat offset) archive) offset in
    if offset =? len archive then Some (Ok Return) else Some (Ok (Continue offset None))
  else Some (result_map (Continue offset) (member_entry name mode size data))
  end end end end end end.

Fixpoint parse_loop (fuel : nat) (archive : list Z) (offset : Z) (entries : list Entry)
  : option (result CpioError (list Entry)) :=
  match fuel with
  | O => None
  | S fuel =>
      match parse_step archive offset with
      | None => None
      | Some (Err e) => Some (Err e)
      | Some (Ok Return) => Some (Ok entries)
      | Some (Ok (Continue offset entry)) => parse_loop fuel archive offset (entries ++ option_list entry)
      end
  end.

(** Every turn passes a header, so the archive's length is fuel enough. *)
Definition parse (archive : list Z) : option (result CpioError (list Entry)) :=
  parse_loop (S (length archive)) archive 0 [].

(** ** The tool's writer *)

Record Member : Type := mkMember { mpath : list Z; mode : Z; mdata : list Z }.

Definition hex_digit (d : Z) : Z := if d <? 10 then 48 + d else 87 + d.
(** The [n] lowest hex digits of [v], most significant first. *)
Fixpoint hex_digits (n : nat) (v : Z) : list Z :=
  match n with O => [] | S n => hex_digits n (v / 16) ++ [hex_digit (v mod 16)] end.
(** [format!] with [{field:08x}] of a [u32]. *)
Definition format_08x (v : Z) : list Z := hex_digits 8 v.

Definition u32_try_from (v : Z) : option Z := if v <? 2 ^ 32 then Some v else None.

Definition pad (archive : list Z) (start : Z) : list Z :=
  let length := len archive - start in
  archive ++ replicate (Z.to_nat (next_multiple_of length 4 - length)) 0.

Definition push_fields (ino mode size name_size : Z) : list Z :=
  let nlink := if Z.land mode S_IFMT =? S_IFDIR then 2 else 1 in
  [ino; mode; 0; 0; nlink; 0; size; 0; 0; 0; 0; name_size; 0].

(** [None]: an [expect] failed. *)
Definition push_entry (archive : list Z) (ino mode : Z) (path data : list Z) : option (list Z) :=
  let start := len archive in
  match u32_try_from (len data), u32_try_from (len path + 1) with
  | Some size, Some name_size =>
      let archive := archive ++ MAGIC in
      let archive := archive ++ concat (format_08x <$> push_fields ino mode size name_size) in
      let archive := archive ++ path ++ [0] in
      let archive := pad archive start in
      let archive := archive ++ data in
      Some (pad archive start)
  | _, _ => None
  end.

Fixpoint write_loop (archive : list Z) (ino : Z) (members : list Member) : option (list Z) :=
  match members with
  | [] => Some archive
  | m :: members =>
      match push_entry archive ino (mode m) (mpath m) (mdata m) with
      | Some archive => write_loop archive (ino + 1) members
      | None => None
      end
  end.
Definition write (members : list Member) : option (list Z) :=
  match write_loop [] 1 members with
  | Some archive => push_entry archive 0 0 TRAILER []
  | None => None
  end.

(** ** The tool's reader *)

Inductive ReadError : Type :=
| TruncatedHeader | BadMagicAt (offset : Z) | NonAsciiField | BadHexField (text : list Z)
| TruncatedName | NonUtf8Name | TruncatedData.

(** [usize::from_str_radix(text, 16)] on at most 16 digits: a sign [+] may
    come first. *)
Fixpoint radix_fold (value : Z) (text : list Z) : option Z :=
  match text with
  | [] => Some value
  | b :: text => match to_digit b with Some d => radix_fold (value * 16 + d) text | None => None end
  end.
Definition from_str_radix_16 (text : list Z) : option Z :=
  match text with
  | [] => None
  | 43 :: [] => None
  | 43 :: text => radix_fold 0 text
  | text => radix_fold 0 text
  end.

Definition read_field (header : list Z) (index : Z) : result ReadError Z :=
  let text := take 8 (drop (Z.to_nat (6 + index * 8)) header) in
  if utf8 text then ok_or (from_str_radix_16 text) (BadHexField text) else Err NonAsciiField.

Fixpoint read_loop (fuel : nat) (archive : list Z) (offset : Z) (members : list Member)
  : option (result ReadError (list Member)) :=
  match fuel with
  | O => None
  | S fuel =>
      match get_slice archive offset HEADER_LEN with
      | None => Some (Err TruncatedHeader)
      | Some header =>
      if negb (bool_decide (take 6 header = MAGIC)) then Some (Err (BadMagicAt offset)) else
      match (let? mode := read_field header 1 in let? size := read_field header 6 in
             let? name_size := read_field header 11 in Ok (mode, size, name_size)) with
      | Err e => Some (Err e)
      | Ok (mode, size, name_size) =>
      let name_start := offset + HEADER_LEN in
      match get_slice archive name_start (saturating_sub name_size 1) with
      | None => Some (Err TruncatedName)
      | Some path =>
      if negb (utf8 path) then Some (Err NonUtf8Name) else
      let data_start := offset + next_multiple_of (HEADER_LEN + name_size) 4 in
      match get_slice archive data_start size with
      | None => Some (Err TruncatedData)
      | Some data =>
      if bool_decide (path = TRAILER) then Some (Ok members)
      else read_loop fuel archive (data_start + next_multiple_of size 4)
             (members ++ [mkMember path (mode mod 2 ^ 32) data])
      end end end end
  end.
Definition read (archive : list Z) : option (result ReadError (list Member)) :=
  read_loop (S (length archive)) archive 0 [].

Definition example_members : list Member :=
  [mkMember [101; 116; 99] 16877 []; mkMember [46; 47; 101; 116; 99; 47; 104; 105] 33188 [97; 98; 99; 100; 101]].
Example parse_example :
  (write example_members ≫= parse)
  = Some (Ok [mkEntry [101; 116; 99] Directory []; mkEntry [101; 116; 99; 47; 104; 105] File [97; 98; 99; 100; 101]]).
Proof. vm_compute. reflexivity. Qed.
Example read_example : (write example_members ≫= read) = Some (Ok example_members).
Proof. vm_compute. reflexivity. Qed.
End Cpio.

(** * The archive parser is total, and reads what is written

    The kernel's [parse] never indexes out of the archive and always
    finishes, whatever the bytes; the paths it accepts stay below the root;
    and on the archives the build tool writes it returns the members. *)

Import Cpio.
Local Open Scope Z_scope.

Module CpioSpec.
(** ** Slices *)

Lemma get_slice_Some archive start n l :
  0 <= start -> 0 <= n -> get_slice archive start n = Some l ->
  start + n <= len archive /\ len l = n
  /\ archive = take (Z.to_nat start) archive ++ l ++ drop (Z.to_nat (start + n)) archive.
Proof.
  unfold get_slice, len. intros Hs Hn. case_if; [|done]. intros [= <-]. split; [done|].
  split; [rewrite length_take, length_drop; lia|].
  replace (Z.to_nat (start + n)) with (Z.to_nat start + Z.to_nat n)%nat by lia.
  by rewrite <- drop_drop, take_drop, take_drop.
Qed.

Lemma slice_Ok archive start n l :
  slice archive start n = Ok l -> start + n <= len archive /\ get_slice archive start n = Some l.
Proof.
  unfold slice. destruct (checked_add start n) eqn:Ha; cbn [mbind option_bind]; [|done].
  destruct (get_slice archive start n) as [l'|] eqn:Hg; cbn [ok_or]; [|done]. intros [= ->]. split; [|done].
  unfold get_slice in Hg. case_if_in Hg; [lia|done].
Qed.

(** The part of an archive between two others. *)
Lemma get_slice_mid archive a b c start n :
  archive = a ++ b ++ c -> start = len a -> n = len b -> get_slice archive start n = Some b.
Proof.
  unfold get_slice, len. intros -> -> ->. rewrite !length_app. case_if; [|lia].
  by rewrite !Nat2Z.id, drop_app_length, take_app_length.
Qed.

Lemma slice_mid archive a b c start n :
  len archive <= U64_MAX -> archive = a ++ b ++ c -> start = len a -> n = len b -> slice archive start n = Ok b.
Proof.
  intros Hmax Ha Hs Hn. unfold slice. rewrite (get_slice_mid _ _ _ _ _ _ Ha Hs Hn).
  assert (start + n <= len archive) by (subst; unfold len; rewrite !length_app; lia).
  assert (checked_add start n = Some (start + n)) as -> by (apply checked_add_Some; lia). done.
Qed.

(** ** Numbers *)

Lemma lor_digit value d : 0 <= d < 16 -> Z.lor (Z.shiftl value 4) d = value * 16 + d.
Proof.
  intros Hd. rewrite Z.shiftl_mul_pow2 by lia. change (2 ^ 4) with 16.
  enough (Z.land (value * 16) d = 0) by (pose proof (Z.add_lor_land (value * 16) d); lia).
  apply Z.bits_inj'. intros n Hn. rewrite Z.land_spec, Z.bits_0. change 16 with (2 ^ 4).
  destruct (decide (n < 4)) as [H4|H4].
  - by rewrite Z.mul_pow2_bits_low.
  - rewrite (Z.bits_above_log2 d n); [apply andb_false_r|lia|].
    destruct (decide (d = 0)) as [->|]; [simpl; lia|]. apply Z.log2_lt_pow2; [lia|].
    apply Z.lt_le_trans with (2 ^ 4); [lia|]. apply Z.pow_le_mono_r; lia.
Qed.

Lemma hex_fold_nonneg field : forall value v, 0 <= value -> hex_fold value field = Ok v -> 0 <= v.
Proof.
  induction field as [|b field IH]; intros value v Hv; simpl; [by intros [= <-]|].
  destruct (to_digit b) as [d|] eqn:Hd; cbn [ok_or]; [|done]. apply to_digit_range in Hd.
  rewrite lor_digit by done. apply IH. lia.
Qed.

Lemma fields_loop_nonneg header n : forall index fields,
  fields_loop n index header = Ok fields -> length fields = n /\ Forall (fun v => 0 <= v) fields.
Proof.
  induction n as [|n IH]; intros index fields; simpl; [by intros [= <-]|].
  destruct (hex _) as [v|] eqn:Hv; [|done]. destruct (fields_loop n _ _) as [vs|] eqn:Hvs; [|done].
  intros [= <-]. destruct (IH _ _ Hvs) as [Hl Hall]. split; [simpl; lia|]. constructor; [|done].
  by eapply (hex_fold_nonneg _ 0).
Qed.

Lemma nth_nonneg fields i : Forall (fun v => 0 <= v) fields -> 0 <= nth i fields 0.
Proof.
  intros Hall. revert i. induction Hall as [|v l Hv Hl IH]; intros [|i]; cbn [nth]; [lia..|exact Hv|apply IH].
Qed.

Lemma to_digit_hex_digit d : 0 <= d < 16 -> to_digit (hex_digit d) = Some d.
Proof. intros Hd. unfold hex_digit. case_if; unfold to_digit; repeat case_if; first [f_equal; lia|exfalso; lia]. Qed.

Lemma hex_digit_range d : 0 <= d < 16 -> 48 <= hex_digit d <= 102 /\ hex_digit d <> 43.
Proof. intros. unfold hex_digit. case_if; lia. Qed.

Lemma length_hex_digits n v : length (hex_digits n v) = n.
Proof. revert v. induction n as [|n IH]; intros v; simpl; [done|]. rewrite length_app, IH. simpl. lia. Qed.

Lemma hex_fold_app l : forall k value, hex_fold value (l ++ k) = let? v := hex_fold value l in hex_fold v k.
Proof. induction l as [|b l IH]; intros k value; simpl; [done|]. destruct (to_digit b); simpl; [apply IH|done]. Qed.

Lemma radix_fold_app l : forall k value, radix_fold value (l ++ k) = radix_fold value l ≫= fun v => radix_fold v k.
Proof. induction l as [|b l IH]; intros k value; simpl; [done|]. destruct (to_digit b); simpl; [apply IH|done]. Qed.

(** Reading back the digits of a number. *)
Lemma radix_hex_digits n : forall v value,
  0 <= v -> radix_fold value (hex_digits n v) = Some (value * 16 ^ Z.of_nat n + v mod 16 ^ Z.of_nat n).
Proof.
  induction n as [|n IH]; intros v value Hv; [simpl; f_equal; rewrite Z.mod_1_r; lia|].
  cbn [hex_digits]. rewrite radix_fold_app, IH by (apply Z.div_pos; lia). cbn [mbind option_bind radix_fold].
  rewrite to_digit_hex_digit by (apply Z.mod_pos_bound; lia). f_equal.
  rewrite Nat2Z.inj_succ, Z.pow_succ_r by lia.
  rewrite (Z.rem_mul_r v 16 (16 ^ Z.of_nat n)) by (try lia; apply Z.pow_pos_nonneg; lia). lia.
Qed.

Lemma hex_fold_radix field : forall value, hex_fold value field = ok_or (radix_fold value field) BadNumber.
Proof.
  induction field as [|b field IH]; intros value; simpl; [done|].
  destruct (to_digit b) as [d|] eqn:Hd; cbn [ok_or]; [|done].
  by rewrite lor_digit, IH by (by eapply to_digit_range).
Qed.

Lemma hex_format v : 0 <= v < 2 ^ 32 -> hex (format_08x v) = Ok v.
Proof.
  intros Hv. unfold hex, format_08x. rewrite hex_fold_radix, radix_hex_digits by lia. cbn [ok_or].
  change (16 ^ Z.of_nat 8) with (2 ^ 32). by rewrite Z.mod_small by lia.
Qed.

(** ** Paths *)

Lemma clean_components_safe components : forall path p,
  (forall c, c ∈ components -> (SLASH ∉ c)) -> path = [] \/ safe_path path ->
  clean_components components path = Ok p -> p = [] \/ safe_path p.
Proof.
  induction components as [|c components IH]; intros path p Hc Hp; simpl; [by intros [= <-]|].
  assert (Hcs : forall d, d ∈ components -> (SLASH ∉ d)) by (intros d Hd; apply Hc; by right).
  case_if; [by apply IH|]. case_if; [done|]. apply IH; [done|]. right. unfold safe_path.
  assert (Hg : good_component c) by (repeat split; [done..|]; apply Hc; left).
  case_bool_decide as Hpath.
  - subst. simpl. rewrite split_fresh by apply Hg. by constructor.
  - rewrite <- app_assoc. change ([SLASH] ++ c) with (SLASH :: c). rewrite split_app by apply Hg.
    apply Forall_app. split; [|by constructor]. by destruct Hp.
Qed.

Lemma clean_path_safe name p : clean_path name = Ok p -> p = [] \/ safe_path p.
Proof. apply clean_components_safe; [apply split_no_sep|by left]. Qed.

(** A path that is already clean is left alone. *)
Lemma clean_components_id components : forall path,
  (forall c, c ∈ components -> good_component c) ->
  clean_components components path =
  Ok (foldl (fun p c => (if bool_decide (p = []) then p else p ++ [SLASH]) ++ c) path components).
Proof.
  induction components as [|c components IH]; intros path Hg; simpl; [done|].
  destruct (Hg c ltac:(left)) as (H1 & H2 & H3 & H4).
  rewrite !bool_decide_false by done. simpl. apply IH. intros d Hd. apply Hg. by right.
Qed.

(** ** The parser finishes, without an index out of range *)

Lemma skip_zeros_range rest : forall offset, offset <= skip_zeros rest offset <= offset + len rest.
Proof.
  unfold len. induction rest as [|b rest IH]; intros offset; simpl; [lia|]. case_if; [|lia].
  specialize (IH (offset + 1)). lia.
Qed.

Definition entry_ok (archive : list Z) (e : Entry) : Prop :=
  safe_path (path e) /\ (exists pre post, archive = pre ++ data e ++ post) /\ (kind e = Directory -> data e = []).

Lemma member_entry_ok archive name mode size data e :
  0 <= size -> len data = size -> (exists pre post, archive = pre ++ data ++ post) ->
  member_entry name mode size data = Ok (Some e) -> entry_ok archive e.
Proof.
  intros Hs Hl Hd. unfold member_entry. destruct (clean_path name) as [p|] eqn:Hp; [|done].
  apply clean_path_safe in Hp. unfold entry_kind. case_if.
  - case_if; [|done]. intros [= <-]. split; [cbn [Cpio.path]; by destruct Hp|done].
  - case_if; [|done]. case_if; [done|]. case_if; [done|]. intros [= <-].
    split; [cbn [Cpio.path]; by destruct Hp|]. split; [done|]. intros _. cbn [Cpio.data].
    apply nil_length_inv. unfold len in *. lia.
Qed.

(** What one turn of the loop gives: an answer, or a member and more than a
    header's worth of progress within the archive. *)
Lemma parse_step_spec archive offset :
  0 <= offset ->
  match parse_step archive offset with
  | None => False
  | Some (Ok (Continue offset' entry)) =>
      offset + HEADER_LEN <= offset' <= len archive /\ (forall e, entry = Some e -> entry_ok archive e)
  | Some _ => True
  end.
Proof.
  intros Ho. unfold parse_step.
  destruct (slice archive offset HEADER_LEN) as [header|]; [|done]. case_if; [done|].
  destruct (fields_loop 13 0 header) as [fields|] eqn:Hf; [|done].
  apply fields_loop_nonneg in Hf as [_ Hf].
  pose proof (nth_nonneg _ 6 Hf) as Hsize. pose proof (nth_nonneg _ 11 Hf) as Hname.
  set (size := nth 6 fields 0) in *. set (name_size := nth 11 fields 0) in *.
  destruct (slice archive (offset + HEADER_LEN) name_size) as [name|]; [|done].
  case_if; [done|]. case_if; [done|]. case_if; [done|].
  destruct (checked_next_multiple_of size 4) as [padded|] eqn:Hpad; [|done].
  apply checked_next_multiple_of_Some in Hpad as [-> _].
  pose proof (next_multiple_of_ge size 4 ltac:(lia)).
  pose proof (next_multiple_of_ge (HEADER_LEN + name_size) 4 ltac:(lia)) as Hh.
  assert (0 <= HEADER_LEN) by done.
  set (data_start := offset + next_multiple_of (HEADER_LEN + name_size) 4) in *.
  destruct (slice archive data_start _) as [padding|] eqn:Hsl; [|done]. apply slice_Ok in Hsl as [Hle _].
  destruct (get_slice archive data_start size) as [bytes|] eqn:Hget; [|unfold get_slice in Hget; case_if_in Hget; [done|lia]].
  apply get_slice_Some in Hget as (_ & Hlen & Harchive); [|lia..].
  case_if.
  - pose proof (skip_zeros_range (drop (Z.to_nat (data_start + next_multiple_of size 4)) archive)
                  (data_start + next_multiple_of size 4)) as Hskip.
    unfold len in *. rewrite length_drop in Hskip. case_if; [done|]. split; [lia|done].
  - destruct (member_entry _ _ _ _) as [e|] eqn:He; [|done]. cbn [result_map]. split; [lia|].
    intros e' ->. eapply member_entry_ok; [exact Hsize|exact Hlen|by do 2 eexists|exact He].
Qed.

Lemma parse_loop_spec archive fuel : forall offset entries,
  0 <= offset -> offset <= len archive -> len archive - offset < Z.of_nat fuel -> Forall (entry_ok archive) entries ->
  exists r, parse_loop fuel archive offset entries = Some r
    /\ forall entries', r = Ok entries' -> Forall (entry_ok archive) entries'.
Proof.
  induction fuel as [|fuel IH]; intros offset entries Ho Hle Hf Hok; [lia|]. simpl.
  pose proof (parse_step_spec archive offset Ho) as Hs.
  destruct (parse_step archive offset) as [[[|offset' entry]|e]|]; [| | |done].
  - eexists. split; [done|]. by intros ? [= <-].
  - destruct Hs as [Hp He]. assert (HEADER_LEN = 110) by done. apply IH; [lia..|].
    apply Forall_app. split; [done|]. destruct entry as [e|]; simpl; [|done]. constructor; [by apply He|done].
  - eexists. split; [done|]. done.
Qed.

(** ** The parser reads what the tool writes *)

(** The zeros after [n] bytes. *)
Definition zeros (n : Z) : list Z := replicate (Z.to_nat (next_multiple_of n 4 - n)) 0.

Lemma len_zeros n : len (zeros n) = next_multiple_of n 4 - n.
Proof. unfold zeros. rewrite len_replicate. pose proof (next_multiple_of_ge n 4). lia. Qed.

Definition header_bytes (ino mode : Z) (path data : list Z) : list Z :=
  MAGIC ++ concat (format_08x <$> push_fields ino mode (len data) (len path + 1)).
Definition member_bytes (ino mode : Z) (path data : list Z) : list Z :=
  header_bytes ino mode path data ++ (path ++ [0]) ++ zeros (HEADER_LEN + (len path + 1)) ++ data ++ zeros (len data).

Lemma len_header ino mode path data : len (header_bytes ino mode path data) = HEADER_LEN.
Proof.
  unfold header_bytes, push_fields, len. cbn [fmap list_fmap concat]. rewrite !length_app. unfold format_08x.
  rewrite !length_hex_digits. done.
Qed.

Lemma len_member ino mode path data :
  len (member_bytes ino mode path data) = next_multiple_of (HEADER_LEN + (len path + 1)) 4 + next_multiple_of (len data) 4.
Proof.
  unfold member_bytes. rewrite !len_app, !len_zeros, len_header. change (len [0]) with 1. lia.
Qed.

(** What a member of the tool's must satisfy: the sizes fit the format. *)
Definition fits (path data : list Z) : Prop := len data < 2 ^ 32 /\ len path + 1 < 2 ^ 32.

Lemma push_entry_bytes archive ino mode path data :
  fits path data -> push_entry archive ino mode path data = Some (archive ++ member_bytes ino mode path data).
Proof.
  intros [Hd Hp]. unfold push_entry, u32_try_from.
  destruct (Z.ltb_spec (len data) (2 ^ 32)); [|lia]. destruct (Z.ltb_spec (len path + 1) (2 ^ 32)); [|lia]. f_equal.
  assert (Hpad : forall l, pad (archive ++ l) (len archive) = archive ++ l ++ zeros (len l)).
  { intros l. unfold pad, zeros. rewrite len_app. replace (len archive + len l - len archive) with (len l) by lia.
    by rewrite app_assoc. }
  change (concat (format_08x <$> push_fields ino mode (len data) (len path + 1)))
    with (drop 6 (header_bytes ino mode path data)).
  rewrite <- (app_assoc archive MAGIC). change (MAGIC ++ drop 6 (header_bytes ino mode path data)) with (header_bytes ino mode path data).
  rewrite <- (app_assoc archive), Hpad, <- (app_assoc archive), Hpad. unfold member_bytes.
  rewrite !len_app, len_zeros, len_header. change (len [0]) with 1.
  rewrite <- !app_assoc. do 6 f_equal. unfold zeros. f_equal. f_equal.
  pose proof (next_multiple_of_divide (HEADER_LEN + (len path + 1)) 4).
  replace (HEADER_LEN + (len path + 1) + (next_multiple_of (HEADER_LEN + (len path + 1)) 4 - (HEADER_LEN + (len path + 1))) + len data)
    with (next_multiple_of (HEADER_LEN + (len path + 1)) 4 + len data) by lia.
  rewrite next_multiple_of_add by (done || lia). lia.
Qed.

Definition is_u32 (v : Z) : Prop := 0 <= v < 2 ^ 32.

Lemma fields_loop_format header fs : forall index,
  0 <= index -> drop (Z.to_nat (6 + index * 8)) header = concat (format_08x <$> fs) -> Forall is_u32 fs ->
  fields_loop (length fs) index header = Ok fs.
Proof.
  induction fs as [|v fs IH]; intros index Hi Hd Hf; [done|]. inversion_clear Hf as [|? ? Hv Hfs].
  cbn [length fields_loop]. rewrite Hd. cbn [fmap list_fmap concat].
  assert (Hl : length (format_08x v) = 8%nat) by apply length_hex_digits.
  rewrite take_app_le, take_ge, hex_format by (rewrite ?Hl; done). rewrite IH; [done|lia| |done].
  replace (Z.to_nat (6 + (index + 1) * 8)) with (Z.to_nat (6 + index * 8) + 8)%nat by lia.
  rewrite <- drop_drop, Hd. cbn [fmap list_fmap concat]. by rewrite <- Hl, drop_app_length.
Qed.

(** A member the kernel can name: a [String] that is a C string. *)
Definition nameable (path : list Z) : Prop := path <> [] /\ (0 ∉ path) /\ utf8 path = true.

Lemma last_removelast_snoc (l : list Z) b : last (l ++ [b]) = Some b /\ removelast (l ++ [b]) = l.
Proof. split; [apply last_snoc|apply removelast_last]. Qed.

(** One turn of the kernel's loop on a member the tool wrote. *)
Lemma parse_step_member archive pre ino mode path data post :
  archive = pre ++ member_bytes ino mode path data ++ post -> len archive <= U64_MAX ->
  is_u32 ino -> is_u32 mode -> nameable path -> fits path data ->
  let offset := len pre + len (member_bytes ino mode path data) in
  parse_step archive (len pre) =
  Some (if bool_decide (path = TRAILER) then
          if skip_zeros post offset =? len archive then Ok Return else Ok (Continue (skip_zeros post offset) None)
        else result_map (Continue offset) (member_entry path mode (len data) data)).
Proof.
  intros Ha Hmax Hino Hmode (Hne & Hnul & Hutf) [Hd Hp] offset. pose proof (len_nonneg path). pose proof (len_nonneg data).
  assert (Hlen : len archive = offset + len post) by (rewrite Ha, !len_app; unfold offset; lia).
  pose proof (len_nonneg post). pose proof (len_nonneg pre). pose proof (len_header ino mode path data) as Hhl.
  unfold member_bytes in Ha. unfold parse_step.
  rewrite (slice_mid archive pre (header_bytes ino mode path data)
    ((path ++ [0]) ++ zeros (HEADER_LEN + (len path + 1)) ++ data ++ zeros (len data) ++ post)); [|done|by rewrite Ha, <- !app_assoc|done|done].
  change (take 6 (header_bytes ino mode path data)) with MAGIC. rewrite bool_decide_true by done. cbn [negb].
  change 13%nat with (length (push_fields ino mode (len data) (len path + 1))).
  rewrite (fields_loop_format (header_bytes ino mode path data) (push_fields ino mode (len data) (len path + 1)) 0);
    [|done|done|].
  2: { unfold push_fields. repeat (apply Forall_cons; split); try apply Forall_nil_2; try done; unfold is_u32; [case_if|..]; lia. }
  cbn [push_fields nth]. rewrite Z.mod_small by done.
  assert (Hz : len (path ++ [0]) = len path + 1) by (by rewrite len_app).
  rewrite (slice_mid archive (pre ++ header_bytes ino mode path data) (path ++ [0])
    (zeros (HEADER_LEN + (len path + 1)) ++ data ++ zeros (len data) ++ post));
    [|done|by rewrite Ha, <- !app_assoc|rewrite len_app; lia|done].
  destruct (last_removelast_snoc path 0) as [-> ->]. rewrite bool_decide_true by done. cbn [negb].
  rewrite (bool_decide_false (path = [])), (bool_decide_false (0 ∈ path)), Hutf by done. cbn [orb negb].
  pose proof (next_multiple_of_ge (len data) 4 ltac:(lia)) as Hge.
  assert (Hoff : offset = len pre + next_multiple_of (HEADER_LEN + (len path + 1)) 4 + next_multiple_of (len data) 4)
    by (unfold offset; rewrite len_member; lia).
  pose proof (next_multiple_of_ge (HEADER_LEN + (len path + 1)) 4 ltac:(lia)) as Hge'. assert (HEADER_LEN = 110) by done.
  unfold checked_next_multiple_of. destruct (Z.leb_spec (next_multiple_of (len data) 4) U64_MAX); [|lia].
  set (front := pre ++ header_bytes ino mode path data ++ (path ++ [0]) ++ zeros (HEADER_LEN + (len path + 1))).
  assert (Hfront : len front = len pre + next_multiple_of (HEADER_LEN + (len path + 1)) 4)
    by (unfold front; rewrite !len_app, len_zeros; change (len [0]) with 1; lia).
  rewrite (slice_mid archive front (data ++ zeros (len data)) post);
    [|done|unfold front; by rewrite Ha, <- !app_assoc|lia|rewrite len_app, len_zeros; lia].
  rewrite (get_slice_mid archive front data (zeros (len data) ++ post));
    [|unfold front; by rewrite Ha, <- !app_assoc|lia|done].
  rewrite <- Hoff.
  assert (Hdrop : drop (Z.to_nat offset) archive = post).
  { rewrite Ha, app_assoc. apply drop_app_length'. unfold offset, member_bytes, len. rewrite (length_app pre). lia. }
  rewrite Hdrop. case_bool_decide; [|done]. by case_if.
Qed.

(** What the members of an archive become, in order: the first one the kernel
    must refuse is the answer. *)
Fixpoint unpacked_entries (entries : list Entry) (members : list Member) : result CpioError (list Entry) :=
  match members with
  | [] => Ok entries
  | m :: members =>
      let? e := member_entry (mpath m) (mode m) (len (mdata m)) (mdata m) in
      unpacked_entries (entries ++ option_list e) members
  end.

(** A member of Rust's type with a C-string name the format can hold. *)
Definition member_ok (m : Member) : Prop :=
  is_u32 (mode m) /\ nameable (mpath m) /\ mpath m <> TRAILER /\ fits (mpath m) (mdata m).

Fixpoint members_bytes (ino : Z) (members : list Member) : list Z :=
  match members with
  | [] => []
  | m :: members => member_bytes ino (mode m) (mpath m) (mdata m) ++ members_bytes (ino + 1) members
  end.

Lemma write_loop_bytes members : forall archive ino,
  Forall member_ok members -> write_loop archive ino members = Some (archive ++ members_bytes ino members).
Proof.
  induction members as [|m members IH]; intros archive ino Hm; simpl; [by rewrite app_nil_r|].
  inversion_clear Hm as [|? ? Hok Hrest]. rewrite push_entry_bytes by apply Hok. rewrite IH by done. by rewrite <- app_assoc.
Qed.

Lemma nameable_trailer : nameable TRAILER.
Proof. split; [done|]. split; [|done]. by apply (bool_decide_unpack (0 ∉ TRAILER)). Qed.

Lemma write_bytes members :
  Forall member_ok members -> write members = Some (members_bytes 1 members ++ member_bytes 0 0 TRAILER []).
Proof. intros Hm. unfold write. rewrite write_loop_bytes by done. rewrite push_entry_bytes by done. done. Qed.

Lemma parse_loop_members archive members : forall fuel pre ino entries,
  archive = pre ++ members_bytes ino members ++ member_bytes 0 0 TRAILER [] -> len archive <= U64_MAX ->
  0 <= ino -> ino + Z.of_nat (length members) <= 2 ^ 32 -> Forall member_ok members ->
  (length members < fuel)%nat ->
  parse_loop fuel archive (len pre) entries = Some (unpacked_entries entries members).
Proof.
  induction members as [|m members IH]; intros fuel pre ino entries Ha Hmax Hino Hn Hm Hf;
    (destruct fuel as [|fuel]; [simpl in Hf; lia|]); cbn [parse_loop unpacked_entries].
  - rewrite (parse_step_member archive pre 0 0 TRAILER [] []);
      [|by rewrite app_nil_r|done|done|done|apply nameable_trailer|done].
    rewrite bool_decide_true by done. simpl skip_zeros.
    replace (len archive) with (len pre + len (member_bytes 0 0 TRAILER [])) by (by rewrite Ha, !len_app).
    by rewrite Z.eqb_refl.
  - apply Forall_cons in Hm as [(Hmode & Hname & Htr & Hfit) Hrest]. cbn [members_bytes] in Ha.
    rewrite (parse_step_member archive pre ino (mode m) (mpath m) (mdata m)
      (members_bytes (ino + 1) members ++ member_bytes 0 0 TRAILER []));
      [|by rewrite Ha, <- app_assoc|done|simpl in Hn; unfold is_u32; lia|exact Hmode|exact Hname|exact Hfit].
    rewrite bool_decide_false by done. destruct (member_entry _ _ _ _) as [e|]; cbn [result_map]; [|done].
    rewrite <- len_app. apply (IH fuel _ (ino + 1)); [by rewrite Ha, <- !app_assoc|done|lia|simpl in Hn; lia|done|simpl in Hf; lia].
Qed.

Lemma length_members_bytes members : forall ino, (length members <= length (members_bytes ino members))%nat.
Proof.
  induction members as [|m members IH]; intros ino; simpl; [lia|]. rewrite length_app.
  pose proof (len_member ino (mode m) (mpath m) (mdata m)) as Hl. unfold len in Hl.
  pose proof (next_multiple_of_ge (HEADER_LEN + (Z.of_nat (length (mpath m)) + 1)) 4 ltac:(lia)).
  pose proof (next_multiple_of_ge (Z.of_nat (length (mdata m))) 4 ltac:(lia)). assert (HEADER_LEN = 110) by done.
  specialize (IH (ino + 1)). lia.
Qed.

(** ** The tool reads back its own archives *)

Lemma hex_digits_range n : forall v, Forall (fun b => 48 <= b <= 102) (hex_digits n v).
Proof.
  induction n as [|n IH]; intros v; simpl; [constructor|]. apply Forall_app. split; [apply IH|].
  constructor; [|constructor]. apply hex_digit_range, Z.mod_pos_bound. lia.
Qed.

Lemma read_field_format header index v :
  take 8 (drop (Z.to_nat (6 + index * 8)) header) = format_08x v -> is_u32 v -> read_field header index = Ok v.
Proof.
  intros Ht [Hv1 Hv2]. unfold read_field. rewrite Ht. pose proof (hex_digits_range 8 v) as Hr.
  rewrite utf8_ascii by (eapply Forall_impl; [exact Hr|]; cbn beta; lia).
  assert (Hradix : from_str_radix_16 (format_08x v) = radix_fold 0 (format_08x v)).
  { unfold format_08x in *. destruct (hex_digits 8 v) as [|b l] eqn:Hd; [by apply (f_equal length) in Hd; rewrite length_hex_digits in Hd|].
    apply Forall_cons in Hr as [Hb _]. unfold from_str_radix_16. destruct b as [|b|b]; [lia| |lia].
    do 6 (destruct b as [b|b|]; try lia; try done). }
  rewrite Hradix. unfold format_08x. rewrite radix_hex_digits by done. cbn [ok_or]. f_equal.
  change (16 ^ Z.of_nat 8) with (2 ^ 32). by rewrite Z.mod_small by lia.
Qed.

(** One turn of the tool's loop on a member it wrote. *)
Lemma read_loop_member archive pre ino mode path data post fuel members :
  archive = pre ++ member_bytes ino mode path data ++ post ->
  is_u32 mode -> utf8 path = true -> fits path data ->
  read_loop (S fuel) archive (len pre) members =
  if bool_decide (path = TRAILER) then Some (Ok members)
  else read_loop fuel archive (len pre + len (member_bytes ino mode path data)) (members ++ [mkMember path mode data]).
Proof.
  intros Ha Hmode Hutf [Hd Hp]. pose proof (len_nonneg path). pose proof (len_nonneg data).
  pose proof (len_header ino mode path data) as Hhl. rewrite len_member.
  unfold member_bytes in Ha. cbn [read_loop].
  rewrite (get_slice_mid archive pre (header_bytes ino mode path data)
    ((path ++ [0]) ++ zeros (HEADER_LEN + (len path + 1)) ++ data ++ zeros (len data) ++ post)); [|by rewrite Ha, <- !app_assoc|done|done].
  change (take 6 (header_bytes ino mode path data)) with MAGIC. rewrite bool_decide_true by done. cbn [negb].
  rewrite (read_field_format _ 1 mode), (read_field_format _ 6 (len data)), (read_field_format _ 11 (len path + 1))
    by (done || unfold is_u32; lia).
  assert (saturating_sub (len path + 1) 1 = len path) as -> by (unfold saturating_sub; lia).
  rewrite (get_slice_mid archive (pre ++ header_bytes ino mode path data) path
    ([0] ++ zeros (HEADER_LEN + (len path + 1)) ++ data ++ zeros (len data) ++ post));
    [|by rewrite Ha, <- !app_assoc|rewrite len_app; lia|done].
  rewrite Hutf. cbn [negb]. assert (HEADER_LEN = 110) by done.
  pose proof (next_multiple_of_ge (HEADER_LEN + (len path + 1)) 4 ltac:(lia)) as Hge'.
  rewrite (get_slice_mid archive (pre ++ header_bytes ino mode path data ++ (path ++ [0]) ++ zeros (HEADER_LEN + (len path + 1)))
    data (zeros (len data) ++ post));
    [|by rewrite Ha, <- !app_assoc|rewrite !len_app, len_zeros; change (len [0]) with 1; lia|done].
  case_bool_decide; [done|]. rewrite Z.mod_small by done. by rewrite <- Z.add_assoc.
Qed.

Lemma read_loop_members archive ms : forall fuel pre ino members,
  archive = pre ++ members_bytes ino ms ++ member_bytes 0 0 TRAILER [] ->
  Forall member_ok ms -> (length ms < fuel)%nat ->
  read_loop fuel archive (len pre) members = Some (Ok (members ++ ms)).
Proof.
  induction ms as [|m ms IH]; intros fuel pre ino members Ha Hm Hf; (destruct fuel as [|fuel]; [simpl in Hf; lia|]).
  - rewrite (read_loop_member archive pre 0 0 TRAILER [] []); [|by rewrite app_nil_r|done..].
    by rewrite bool_decide_true, app_nil_r by done.
  - apply Forall_cons in Hm as [(Hmode & (_ & _ & Hutf) & Htr & Hfit) Hrest]. cbn [members_bytes] in Ha.
    rewrite (read_loop_member archive pre ino (mode m) (mpath m) (mdata m)
      (members_bytes (ino + 1) ms ++ member_bytes 0 0 TRAILER [])); [|by rewrite Ha, <- app_assoc|done..].
    rewrite bool_decide_false, <- len_app by done.
    rewrite (IH fuel _ (ino + 1)); [|by rewrite Ha, <- !app_assoc|done|simpl in Hf; lia].
    rewrite <- app_assoc. by destruct m.
Qed.

(** ** Members that are plain files and directories *)

Lemma clean_components_join components path :
  path <> [] -> foldl (fun p c => (if bool_decide (p = []) then p else p ++ [SLASH]) ++ c) path components
                = path ++ concat (cons SLASH <$> components).
Proof.
  revert path. induction components as [|c components IH]; intros path Hp; cbn [foldl]; [by rewrite app_nil_r|].
  rewrite bool_decide_false by done. rewrite IH by (by destruct path). by rewrite <- !app_assoc.
Qed.

Lemma clean_path_id p : safe_path p -> clean_path p = Ok p.
Proof.
  intros Hs. unfold clean_path. unfold safe_path in Hs.
  rewrite clean_components_id by (intros c Hc; rewrite Forall_forall in Hs; by apply Hs).
  pose proof (concat_split SLASH p) as Hj. destruct (split SLASH p) as [|c cs] eqn:Hsp; [by apply split_nonempty in Hsp|].
  apply Forall_cons in Hs as [[Hne _] _]. cbn [foldl]. rewrite bool_decide_true by done.
  change ([] ++ c) with c. rewrite clean_components_join by done. cbn [fmap list_fmap concat] in Hj.
  injection Hj as Hj. by rewrite Hj.
Qed.

Definition is_dir (m : Member) : bool := Z.land (mode m) S_IFMT =? S_IFDIR.
Definition is_reg (m : Member) : bool := Z.land (mode m) S_IFMT =? S_IFREG.
(** A regular file, or a directory without contents, below the root. *)
Definition plain (m : Member) : Prop :=
  safe_path (mpath m) /\ (is_reg m = true \/ is_dir m = true /\ mdata m = []).
Definition entry_of (m : Member) : Entry := mkEntry (mpath m) (if is_dir m then Directory else File) (mdata m).

Lemma unpacked_plain ms : forall entries, Forall plain ms -> unpacked_entries entries ms = Ok (entries ++ (entry_of <$> ms)).
Proof.
  induction ms as [|m ms IH]; intros entries Hp; simpl; [by rewrite app_nil_r|].
  apply Forall_cons in Hp as [[Hs Hk] Hp]. unfold member_entry. rewrite clean_path_id by done.
  assert (Hne : mpath m <> []).
  { intros He. unfold safe_path in Hs. rewrite He in Hs. apply Forall_cons in Hs as [[Hs _] _]. done. }
  assert (Hkind : entry_kind (mode m) (len (mdata m)) (mpath m) = Ok (Some (if is_dir m then Directory else File))).
  { unfold entry_kind, is_reg, is_dir in *. destruct Hk as [Hk|[Hk Hd]]; rewrite Hk.
    - apply Z.eqb_eq in Hk. rewrite Hk. by rewrite bool_decide_true.
    - rewrite Hd. apply Z.eqb_eq in Hk. rewrite Hk. simpl. by rewrite bool_decide_false. }
  rewrite Hkind. cbn [fmap option_fmap option_map option_list]. rewrite IH by done. by rewrite <- app_assoc.
Qed.

Definition archive_bytes (ms : list Member) : list Z := members_bytes 1 ms ++ member_bytes 0 0 TRAILER [].

Lemma parse_ends archive : is_Some (parse archive).
Proof.
  destruct (parse_loop_spec archive (S (length archive)) 0 []) as (r & Hr & _); [lia|apply len_nonneg|unfold len; lia|done|].
  by exists r.
Qed.

(** C22. The archive parser trusts nothing: on any bytes it finishes without
    an index out of range, and what it accepts has relative paths with no
    empty, [.] or [..] component, contents that lie in the archive, and no
    directory with contents. *)
Theorem parse_trusts_nothing archive :
  exists r, parse archive = Some r
    /\ forall entries, r = Ok entries -> Forall (entry_ok archive) entries.
Proof.
  apply parse_loop_spec; [lia|apply len_nonneg|unfold len; lia|done].
Qed.

(** C23. The kernel unpacks what the build tool packs: any members with
    C-string names that fit the format can be written, the kernel's [parse]
    gives the decoding of the members in order (the first unsupported one is
    the error), plain files and directories come back exactly, and the tool's
    own [read] returns the members themselves. *)
Theorem archive_roundtrip ms :
  Forall member_ok ms -> Z.of_nat (length ms) < 2 ^ 32 - 1 -> len (archive_bytes ms) <= U64_MAX ->
  exists archive, write ms = Some archive
    /\ parse archive = Some (unpacked_entries [] ms)
    /\ (Forall plain ms -> parse archive = Some (Ok (entry_of <$> ms)))
    /\ read archive = Some (Ok ms).
Proof.
  intros Hm Hn Hmax. exists (archive_bytes ms). split; [by apply write_bytes|].
  pose proof (length_members_bytes ms 1).
  assert (Hf : (length ms < S (length (archive_bytes ms)))%nat) by (unfold archive_bytes; rewrite length_app; lia).
  assert (Hparse : parse (archive_bytes ms) = Some (unpacked_entries [] ms)).
  { apply (parse_loop_members _ ms _ [] 1); [done|done|lia|lia|done|done]. }
  split; [done|]. split; [intros Hp; by rewrite Hparse, unpacked_plain by done|].
  apply (read_loop_members _ ms _ [] 1); done.
Qed.

Lemma archive_roundtrip_witness :
  exists archive, write example_members = Some archive /\ read archive = Some (Ok example_members).
Proof.
  destruct (archive_roundtrip example_members) as (archive & Hw & _ & _ & Hr).
  - repeat (apply Forall_cons; split); [..|by apply Forall_nil_2];
      (split; [vm_compute; split; [intros [=]|reflexivity]|]; split; [|split; [intros [=]|vm_compute; split; reflexivity]];
       split; [intros [=]|]; split; [intros Hin; apply (bool_decide_pack _) in Hin; vm_compute in Hin; exact Hin|reflexivity]).
  - reflexivity.
  - vm_compute. intros [=].
  - exists archive. split; assumption.
Defined.
End CpioSpec.
