(* ===== verification/FileTable.v ===== *)
(** * FileTable: descriptors

    [kernel/src/fs/file.rs]: the [open] flags, and the per-process table from
    descriptors to open files. A table is generic in what a slot refers to
    (an [Arc<OpenFile>] in the source, an open-file number in [Vfs]). The
    theorem is a refinement: the table is a finite map whose new descriptors
    are the least unused ones. *)

From stdpp Require Import base list gmap numbers fin_maps.
From S2P Require Import Prelude Errno.
Local Open Scope Z_scope.

Module Flags.
(** [OpenFlags] is a set of bits. *)
Definition READ : Z := Z.shiftl 1 0.
Definition WRITE : Z := Z.shiftl 1 1.
Definition READ_WRITE : Z := Z.lor READ WRITE.
Definition CREATE : Z := Z.shiftl 1 2.
Definition EXCL : Z := Z.shiftl 1 3.
Definition TRUNC : Z := Z.shiftl 1 4.
Definition APPEND : Z := Z.shiftl 1 5.
Definition DIRECTORY : Z := Z.shiftl 1 6.
Definition contains (self other : Z) : bool := Z.land self other =? other.
End Flags.

Inductive Whence : Type := SeekSet | SeekCurrent | SeekEnd.

Module FileTable.
Definition MAX_FDS : nat := 256.

Section Table.
Context {F : Type}.
Implicit Types (slots : list (option F)) (file : F).

Definition new : list (option F) := [].

(** [slots.iter().position(Option::is_none)]. *)
Fixpoint position_none slots : option nat :=
  match slots with
  | [] => None
  | None :: _ => Some O
  | Some _ :: slots => S <$> position_none slots
  end.

Definition insert slots file : result Errno nat * list (option F) :=
  match position_none slots with
  | Some index => (Ok index, <[index := Some file]> slots)
  | None =>
      if (MAX_FDS <=? length slots)%nat then (Err EMFILE, slots)
      else (Ok (length slots), slots ++ [Some file])
  end.

Definition get slots (fd : nat) : result Errno F := ok_or (mjoin (slots !! fd)) EBADF.

(** [while slots.last().is_some_and(Option::is_none) { slots.pop(); }], on the
    reversed slots. *)
Fixpoint pop_none (reversed : list (option F)) : list (option F) :=
  match reversed with None :: reversed => pop_none reversed | _ => reversed end.
Definition trim slots : list (option F) := reverse (pop_none (reverse slots)).

Definition remove slots (fd : nat) : result Errno F * list (option F) :=
  match mjoin (slots !! fd) with
  | None => (Err EBADF, slots)
  | Some file => (Ok file, trim (<[fd := None]> slots))
  end.

Definition open_count slots : nat := length (omap id slots).

Definition dup slots (fd : nat) : result Errno nat * list (option F) :=
  match get slots fd with
  | Err e => (Err e, slots)
  | Ok file => insert slots file
  end.

(** [Vec::resize] to a greater length. *)
Definition resize slots (n : nat) : list (option F) := slots ++ replicate (n - length slots) None.

Definition dup2 slots (old new : nat) : result Errno nat * list (option F) :=
  match get slots old with
  | Err e => (Err e, slots)
  | Ok file =>
      if (old =? new)%nat then (Ok new, slots)
      else if (MAX_FDS <=? new)%nat then (Err EBADF, slots)
      else
        let slots := if (length slots <=? new)%nat then resize slots (new + 1) else slots in
        (Ok new, <[new := Some file]> slots)
  end.

Definition fork slots : list (option F) := slots.
End Table.

(** ** Refinement

    The table as a finite map from descriptors. *)

Section Refinement.
Context {F : Type}.
Implicit Types (slots : list (option F)) (m : gmap nat F) (file : F).

(** The least descriptor that is not in use, searching [n] of them from [fd]. *)
Fixpoint least_free (n fd : nat) m : option nat :=
  match n with
  | O => None
  | S n => match m !! fd with None => Some fd | Some _ => least_free n (S fd) m end
  end.

(** What the table promises. *)
Definition insert_spec m file : result Errno nat * gmap nat F :=
  match least_free MAX_FDS 0 m with
  | Some fd => (Ok fd, <[fd := file]> m)
  | None => (Err EMFILE, m)
  end.
Definition remove_spec m fd : result Errno F * gmap nat F :=
  match m !! fd with Some file => (Ok file, delete fd m) | None => (Err EBADF, m) end.
Definition dup_spec m fd : result Errno nat * gmap nat F :=
  match m !! fd with Some file => insert_spec m file | None => (Err EBADF, m) end.
Definition dup2_spec m old new : result Errno nat * gmap nat F :=
  match m !! old with
  | None => (Err EBADF, m)
  | Some file =>
      if (old =? new)%nat then (Ok new, m)
      else if (MAX_FDS <=? new)%nat then (Err EBADF, m) else (Ok new, <[new := file]> m)
  end.

Definition refines slots m : Prop :=
  (length slots <= MAX_FDS)%nat /\ forall fd, mjoin (slots !! fd) = m !! fd.

Lemma position_none_Some slots i :
  position_none slots = Some i ->
  slots !! i = Some None /\ forall j, (j < i)%nat -> exists f, slots !! j = Some (Some f).
Proof.
  revert i. induction slots as [|[f|] slots IH]; intros i; simpl; [done| |].
  - destruct (position_none slots) as [k|]; simpl; [|done]. intros [= <-].
    destruct (IH k eq_refl) as [Hk Hlt]. split; [done|]. intros [|j] Hj; [by exists f|]. apply Hlt. lia.
  - intros [= <-]. split; [done|]. lia.
Qed.

Lemma position_none_None slots j :
  position_none slots = None -> (j < length slots)%nat -> exists f, slots !! j = Some (Some f).
Proof.
  revert j. induction slots as [|[f|] slots IH]; intros j; simpl; [lia| |done].
  destruct (position_none slots); simpl; [done|]. intros _ Hj. destruct j as [|j]; [by exists f|]. apply IH; [done|lia].
Qed.

Lemma least_free_Some m k fd : forall n,
  m !! fd = None -> (n <= fd < n + k)%nat -> (forall j, (n <= j < fd)%nat -> is_Some (m !! j)) ->
  least_free k n m = Some fd.
Proof.
  induction k as [|k IH]; intros n Hfd Hr Hall; simpl; [lia|].
  destruct (decide (n = fd)) as [->|Hne]; [by rewrite Hfd|].
  destruct (Hall n ltac:(lia)) as [f ->]. apply IH; [done|lia|]. intros j Hj. apply Hall. lia.
Qed.

Lemma least_free_None m k : forall n,
  (forall j, (n <= j < n + k)%nat -> is_Some (m !! j)) -> least_free k n m = None.
Proof.
  induction k as [|k IH]; intros n Hall; simpl; [done|]. destruct (Hall n ltac:(lia)) as [f ->].
  apply IH. intros j Hj. apply Hall. lia.
Qed.

Lemma refines_update slots m fd file :
  refines slots m -> (fd < length slots)%nat -> refines (<[fd := Some file]> slots) (<[fd := file]> m).
Proof.
  intros [Hl Hm] Hfd. split; [by rewrite length_insert|]. intros j. destruct (decide (j = fd)) as [->|Hne].
  - by rewrite list_lookup_insert_eq, lookup_insert_eq by done.
  - by rewrite list_lookup_insert_ne, lookup_insert_ne by done.
Qed.

Lemma refines_get slots m fd : refines slots m -> get slots fd = ok_or (m !! fd) EBADF.
Proof. intros [_ Hm]. unfold get. by rewrite Hm. Qed.

Lemma insert_refines slots m file :
  refines slots m ->
  fst (insert slots file) = fst (insert_spec m file) /\ refines (snd (insert slots file)) (snd (insert_spec m file)).
Proof.
  intros Hr. pose proof Hr as [Hl Hm]. unfold insert, insert_spec.
  destruct (position_none slots) as [i|] eqn:Hp.
  - apply position_none_Some in Hp as [Hi Hlt]. assert (i < length slots)%nat by (by eapply lookup_lt_Some).
    rewrite (least_free_Some m MAX_FDS i 0); [|by rewrite <- Hm, Hi|lia|].
    2: { intros j Hj. destruct (Hlt j ltac:(lia)) as [f Hf]. rewrite <- Hm, Hf. by exists f. }
    split; [done|]. by apply refines_update.
  - destruct (Nat.leb_spec MAX_FDS (length slots)) as [Hfull|Hroom].
    + rewrite (least_free_None m MAX_FDS 0); [done|]. intros j Hj.
      destruct (position_none_None slots j Hp ltac:(lia)) as [f Hf]. rewrite <- Hm, Hf. by exists f.
    + rewrite (least_free_Some m MAX_FDS (length slots) 0); [|by rewrite <- Hm, lookup_ge_None_2|lia|].
      2: { intros j Hj. destruct (position_none_None slots j Hp ltac:(lia)) as [f Hf]. rewrite <- Hm, Hf. by exists f. }
      split; [done|]. split; [cbn [snd]; rewrite length_app; cbn [length]; lia|]. intros fd. cbn [snd].
      destruct (decide (fd = length slots)) as [->|Hne].
      * by rewrite list_lookup_middle, lookup_insert_eq by done.
      * rewrite lookup_insert_ne, <- Hm by done. destruct (decide (fd < length slots)%nat).
        -- by rewrite lookup_app_l by done.
        -- rewrite !lookup_ge_None_2; [done|lia|]. rewrite length_app. simpl. lia.
Qed.

Lemma pop_none_spec (l : list (option F)) : exists n, l = replicate n None ++ pop_none l.
Proof.
  induction l as [|[f|] l IH]; [by exists 0%nat|by exists 0%nat|]. destruct IH as [n Hn]. exists (S n). simpl. by f_equal.
Qed.

Lemma trim_lookup slots fd : mjoin (trim slots !! fd) = mjoin (slots !! fd) /\ (length (trim slots) <= length slots)%nat.
Proof.
  unfold trim. destruct (pop_none_spec (reverse slots)) as [n Hn].
  assert (Hs : slots = reverse (pop_none (reverse slots)) ++ replicate n None).
  { rewrite <- (reverse_involutive slots) at 1. rewrite Hn at 1. by rewrite reverse_app, reverse_replicate. }
  set (t := reverse (pop_none (reverse slots))) in *. rewrite Hs. split; [|rewrite length_app; lia].
  destruct (decide (fd < length t)%nat); [by rewrite lookup_app_l by done|].
  rewrite lookup_app_r, (lookup_ge_None_2 t) by lia.
  destruct (replicate n None !! (fd - length t)%nat) as [o|] eqn:Ho; [|done]. by apply lookup_replicate in Ho as [-> _].
Qed.

Lemma remove_refines slots m fd :
  refines slots m ->
  fst (remove slots fd) = fst (remove_spec m fd) /\ refines (snd (remove slots fd)) (snd (remove_spec m fd)).
Proof.
  intros Hr. pose proof Hr as [Hl Hm]. unfold remove, remove_spec. rewrite Hm. destruct (m !! fd) as [file|] eqn:Hfd; [|done].
  split; [done|]. simpl. assert (Hlt : (fd < length slots)%nat).
  { apply lookup_lt_is_Some. rewrite <- Hm in Hfd. by destruct (slots !! fd). }
  split.
  - pose proof (trim_lookup (<[fd := None]> slots) 0) as [_ Ht]. rewrite length_insert in Ht. lia.
  - intros j. destruct (trim_lookup (<[fd := None]> slots) j) as [-> _]. destruct (decide (j = fd)) as [->|Hne].
    + by rewrite list_lookup_insert_eq, lookup_delete_eq by done.
    + by rewrite list_lookup_insert_ne, lookup_delete_ne by done.
Qed.

Lemma dup_refines slots m fd :
  refines slots m ->
  fst (dup slots fd) = fst (dup_spec m fd) /\ refines (snd (dup slots fd)) (snd (dup_spec m fd)).
Proof.
  intros Hr. unfold dup, dup_spec. rewrite (refines_get _ _ _ Hr). destruct (m !! fd); simpl; [by apply insert_refines|done].
Qed.

Lemma refines_resize slots m n : refines slots m -> (n <= MAX_FDS)%nat -> refines (resize slots n) m.
Proof.
  intros [Hl Hm] Hn. unfold resize. split; [rewrite length_app, length_replicate; lia|]. intros fd.
  rewrite <- Hm. destruct (decide (fd < length slots)%nat); [by rewrite lookup_app_l by done|].
  rewrite lookup_app_r, (lookup_ge_None_2 slots) by lia.
  destruct (replicate _ _ !! _) as [o|] eqn:Ho; [|done]. by apply lookup_replicate in Ho as [-> _].
Qed.

Lemma dup2_refines slots m old new :
  refines slots m ->
  fst (dup2 slots old new) = fst (dup2_spec m old new) /\ refines (snd (dup2 slots old new)) (snd (dup2_spec m old new)).
Proof.
  intros Hr. unfold dup2, dup2_spec. rewrite (refines_get _ _ _ Hr). destruct (m !! old) as [file|]; cbn [ok_or]; [|done].
  destruct (Nat.eqb_spec old new); [done|]. destruct (Nat.leb_spec MAX_FDS new); [done|]. split; [done|]. simpl.
  destruct (Nat.leb_spec (length slots) new).
  - apply refines_update; [apply refines_resize; [done|lia]|]. unfold resize. rewrite length_app, length_replicate. lia.
  - by apply refines_update.
Qed.

(** *** Membership: which files a table refers to *)

Definition to_map slots : gmap nat F := omap id (map_seq 0 slots : gmap nat (option F)).

Lemma refines_to_map slots : (length slots <= MAX_FDS)%nat -> refines slots (to_map slots).
Proof. intros Hl. split; [done|]. intros fd. unfold to_map. rewrite lookup_omap, lookup_map_seq_0. by destruct (slots !! fd). Qed.

Lemma member_iff slots m x : refines slots m -> Some x ∈ slots <-> exists fd, m !! fd = Some x.
Proof.
  intros [_ Hm]. rewrite list_elem_of_lookup. split; intros [fd Hfd]; exists fd.
  - by rewrite <- Hm, Hfd.
  - rewrite <- Hm in Hfd. destruct (slots !! fd) as [o|]; [|done]. simpl in Hfd. by subst.
Qed.

Lemma least_free_free m k : forall n fd, least_free k n m = Some fd -> m !! fd = None.
Proof. induction k as [|k IH]; intros n fd; simpl; [done|]. destruct (m !! n) eqn:Hn; [apply IH|by intros [= <-]]. Qed.

Lemma insert_members slots file fd slots' :
  (length slots <= MAX_FDS)%nat -> insert slots file = (Ok fd, slots') ->
  (length slots' <= MAX_FDS)%nat /\ forall x, Some x ∈ slots' <-> x = file \/ Some x ∈ slots.
Proof.
  intros Hl Hi. pose proof (refines_to_map slots Hl) as Hr. destruct (insert_refines slots _ file Hr) as [H1 H2].
  rewrite Hi in H1, H2. unfold insert_spec in H1, H2. destruct (least_free MAX_FDS 0 (to_map slots)) as [fd'|] eqn:Hf; [|done].
  cbn [fst snd] in H1, H2. apply least_free_free in Hf. split; [apply H2|]. intros x.
  rewrite (member_iff _ _ _ H2), (member_iff _ _ _ Hr). split.
  - intros [k Hk]. apply lookup_insert_Some in Hk as [[_ <-]|[_ Hk]]; [by left|right; by exists k].
  - intros [->|[k Hk]]; [exists fd'; apply lookup_insert_eq|]. exists k. rewrite lookup_insert_ne; [done|]. intros <-. by rewrite Hf in Hk.
Qed.

Lemma insert_full slots file e slots' : insert slots file = (Err e, slots') -> slots' = slots /\ e = EMFILE.
Proof. unfold insert. destruct (position_none slots); [done|]. case_match; intros; by simplify_eq. Qed.

Lemma remove_members slots fd file slots' :
  (length slots <= MAX_FDS)%nat -> remove slots fd = (Ok file, slots') ->
  (length slots' <= MAX_FDS)%nat /\ Some file ∈ slots /\ (forall x, Some x ∈ slots' -> Some x ∈ slots)
  /\ forall x, Some x ∈ slots -> x = file \/ Some x ∈ slots'.
Proof.
  intros Hl Hi. pose proof (refines_to_map slots Hl) as Hr. destruct (remove_refines slots _ fd Hr) as [H1 H2].
  rewrite Hi in H1, H2. unfold remove_spec in H1, H2. destruct (to_map slots !! fd) as [f|] eqn:Hf; [|done].
  cbn [fst snd] in H1, H2. injection H1 as <-. split; [apply H2|]. split; [apply (member_iff _ _ _ Hr); by exists fd|].
  split; intros x; rewrite (member_iff _ _ _ H2), (member_iff _ _ _ Hr); intros [k Hk].
  - apply lookup_delete_Some in Hk as [_ Hk]. by exists k.
  - destruct (decide (k = fd)) as [->|Hne]; [left; congruence|]. right. exists k. by rewrite lookup_delete_ne.
Qed.

Lemma dup_members slots fd :
  (length slots <= MAX_FDS)%nat ->
  (length (snd (dup slots fd)) <= MAX_FDS)%nat /\ forall x, Some x ∈ snd (dup slots fd) <-> Some x ∈ slots.
Proof.
  intros Hl. unfold dup. destruct (get slots fd) as [file|] eqn:Hg; [|done].
  assert (Hin : Some file ∈ slots).
  { unfold get in Hg. destruct (slots !! fd) as [[f|]|] eqn:Hs; simpl in Hg; [|done..]. injection Hg as <-. by eapply list_elem_of_lookup_2. }
  destruct (insert slots file) as [[fd'|e] slots'] eqn:Hi; cbn [snd].
  - destruct (insert_members _ _ _ _ Hl Hi) as [Hl' Hx]. split; [done|]. intros x. rewrite Hx. split; [|by right]. intros [->|]; done.
  - by apply insert_full in Hi as [-> _].
Qed.

Lemma dup2_members slots old new r slots' :
  (length slots <= MAX_FDS)%nat -> dup2 slots old new = (r, slots') ->
  (length slots' <= MAX_FDS)%nat /\ (forall x, Some x ∈ slots' -> Some x ∈ slots)
  /\ (forall x, Some x ∈ slots -> Some x ∈ slots' \/ mjoin (slots !! new) = Some x /\ exists fd, r = Ok fd).
Proof.
  intros Hl Hi. pose proof (refines_to_map slots Hl) as Hr. destruct (dup2_refines slots _ old new Hr) as [H1 H2].
  rewrite Hi in H1, H2. cbn [fst snd] in H1, H2. split; [apply H2|]. pose proof Hr as [_ Hget].
  unfold dup2_spec in H1, H2. destruct (to_map slots !! old) as [f|] eqn:Hf.
  2: { simpl in H2. split; intros x; rewrite (member_iff _ _ _ H2), (member_iff _ _ _ Hr); [done|by left]. }
  destruct (old =? new)%nat; [|destruct (MAX_FDS <=? new)%nat]; cbn [fst snd] in H1, H2.
  1,2: split; intros x; rewrite (member_iff _ _ _ H2), (member_iff _ _ _ Hr); [done|by left].
  split; intros x; rewrite (member_iff _ _ _ H2), (member_iff _ _ _ Hr).
  - intros [k Hk]. apply lookup_insert_Some in Hk as [[_ <-]|[_ Hk]]; [by exists old|by exists k].
  - intros [k Hk]. destruct (decide (k = new)) as [->|Hne]; [right|left; exists k; by rewrite lookup_insert_ne].
    rewrite Hget. split; [done|by exists new].
Qed.

(** *** Sequences of operations *)

Inductive op : Type :=
| OpInsert (file : F) | OpGet (fd : nat) | OpRemove (fd : nat) | OpDup (fd : nat) | OpDup2 (old new : nat) | OpFork.
Inductive answer : Type := AFd (r : result Errno nat) | AFile (r : result Errno F) | ANone.

Definition step slots (o : op) : answer * list (option F) :=
  match o with
  | OpInsert file => let '(r, slots) := insert slots file in (AFd r, slots)
  | OpGet fd => (AFile (get slots fd), slots)
  | OpRemove fd => let '(r, slots) := remove slots fd in (AFile r, slots)
  | OpDup fd => let '(r, slots) := dup slots fd in (AFd r, slots)
  | OpDup2 old new => let '(r, slots) := dup2 slots old new in (AFd r, slots)
  | OpFork => (ANone, fork slots)
  end.
Definition step_spec m (o : op) : answer * gmap nat F :=
  match o with
  | OpInsert file => let '(r, m) := insert_spec m file in (AFd r, m)
  | OpGet fd => (AFile (ok_or (m !! fd) EBADF), m)
  | OpRemove fd => let '(r, m) := remove_spec m fd in (AFile r, m)
  | OpDup fd => let '(r, m) := dup_spec m fd in (AFd r, m)
  | OpDup2 old new => let '(r, m) := dup2_spec m old new in (AFd r, m)
  | OpFork => (ANone, m)
  end.
Fixpoint run slots (ops : list op) : list answer * list (option F) :=
  match ops with
  | [] => ([], slots)
  | o :: ops => let '(a, slots) := step slots o in let '(l, slots) := run slots ops in (a :: l, slots)
  end.
Fixpoint run_spec m (ops : list op) : list answer * gmap nat F :=
  match ops with
  | [] => ([], m)
  | o :: ops => let '(a, m) := step_spec m o in let '(l, m) := run_spec m ops in (a :: l, m)
  end.

Lemma step_refines slots m o :
  refines slots m -> fst (step slots o) = fst (step_spec m o) /\ refines (snd (step slots o)) (snd (step_spec m o)).
Proof.
  intros Hr. destruct o as [file|fd|fd|fd|old new'|]; simpl.
  - destruct (insert_refines slots m file Hr) as [H1 H2]. destruct (insert slots file), (insert_spec m file). simpl in *. by subst.
  - by rewrite (refines_get _ _ _ Hr).
  - destruct (remove_refines slots m fd Hr) as [H1 H2]. destruct (remove slots fd), (remove_spec m fd). simpl in *. by subst.
  - destruct (dup_refines slots m fd Hr) as [H1 H2]. destruct (dup slots fd), (dup_spec m fd). simpl in *. by subst.
  - destruct (dup2_refines slots m old new' Hr) as [H1 H2]. destruct (dup2 slots old new'), (dup2_spec m old new'). simpl in *. by subst.
  - done.
Qed.

Lemma run_refines ops : forall slots m,
  refines slots m -> fst (run slots ops) = fst (run_spec m ops) /\ refines (snd (run slots ops)) (snd (run_spec m ops)).
Proof.
  induction ops as [|o ops IH]; intros slots m Hr; simpl; [done|].
  destruct (step_refines slots m o Hr) as [H1 H2]. destruct (step slots o) as [a slots'], (step_spec m o) as [a' m'].
  simpl in *. destruct (IH _ _ H2) as [H3 H4]. destruct (run slots' ops), (run_spec m' ops). simpl in *. by subst.
Qed.

Lemma count_refines slots m : refines slots m -> open_count slots = size m.
Proof.
  revert m. unfold open_count. induction slots as [|x slots IH] using rev_ind; intros m [Hl Hm].
  - assert (m = ∅) as -> by (apply map_eq; intros fd; rewrite <- Hm; by rewrite lookup_empty). done.
  - rewrite omap_app, length_app. rewrite length_app in Hl. simpl in Hl.
    assert (Hx : m !! length slots = x) by (rewrite <- Hm, list_lookup_middle by done; done).
    assert (Hr : refines slots (delete (length slots) m)).
    { split; [lia|]. intros fd. destruct (decide (fd = length slots)) as [->|Hne].
      - by rewrite lookup_delete_eq, lookup_ge_None_2.
      - rewrite lookup_delete_ne, <- Hm by done. destruct (decide (fd < length slots)%nat); [by rewrite lookup_app_l|].
        rewrite !lookup_ge_None_2; [done|rewrite length_app; simpl; lia|lia]. }
    rewrite (IH _ Hr). destruct x as [f|]; simpl.
    + rewrite map_size_delete, Hx. assert (size m <> 0)%nat; [|lia]. intros Hz. apply map_size_empty_inv in Hz.
      rewrite Hz in Hx. done.
    + rewrite delete_id by done. lia.
Qed.

(** A process's descriptor table behaves as a finite map from descriptors
    to open files, for any sequence of operations from an empty table: [open]
    and [dup] return the least unused descriptor and fail with [EMFILE]
    exactly when all 256 are used, [dup2] and [close] change that descriptor
    only, a bad descriptor is [EBADF], and the number of open descriptors is
    the size of the map. *)
Theorem file_table_refines (ops : list op) :
  fst (run new ops) = fst (run_spec ∅ ops)
  /\ (forall fd, get (snd (run new ops)) fd = ok_or (snd (run_spec ∅ ops) !! fd) EBADF)
  /\ open_count (snd (run new ops)) = size (snd (run_spec ∅ ops))
  /\ (length (snd (run new ops)) <= MAX_FDS)%nat.
Proof.
  assert (Hr : refines new ∅) by (split; [simpl; lia|]; intros fd; by rewrite lookup_empty).
  destruct (run_refines ops new ∅ Hr) as [H1 H2]. split; [done|].
  split; [intros fd; by apply refines_get|]. split; [by apply count_refines|apply H2].
Qed.
End Refinement.
End FileTable.
