(* ===== verification/Inode.v ===== *)
(** * Inode: what every filesystem exposes

    [kernel/src/fs/inode.rs]: the kinds of inode, [Stat], [DirEntry], the name
    check, and the [Inode] trait as a class: its state is the filesystems'
    own, its handles stand for [Arc<dyn Inode>]. A method that changes the
    filesystem returns the new state beside its result. *)

From stdpp Require Import base list numbers.
From S2P Require Import Prelude Errno Text.
Local Open Scope Z_scope.

Definition Name : Type := list Z.

Inductive InodeKind : Type := KFile | KDirectory | KCharDevice.
#[export] Instance InodeKind_eq_dec : EqDecision InodeKind.
Proof. solve_decision. Defined.

Record Stat : Type := mkStat {
  st_ino : Z;
  st_fs_id : Z;
  st_kind : InodeKind;
  st_size : Z;
  st_nlink : Z;
}.
#[export] Instance Stat_eq_dec : EqDecision Stat.
Proof. solve_decision. Defined.

Record DirEntry : Type := mkDirEntry {
  de_name : Name;
  de_ino : Z;
  de_kind : InodeKind;
}.
#[export] Instance DirEntry_eq_dec : EqDecision DirEntry.
Proof. solve_decision. Defined.

Definition NAME_MAX : Z := 255.

Definition check_name (name : Name) : result Errno unit :=
  if bool_decide (name = []) || bool_decide (SLASH ∈ name) then Err ENOENT
  else if len name >? NAME_MAX then Err ENAMETOOLONG
  else if bool_decide (name = [DOT]) || bool_decide (name = [DOT; DOT]) then Err EINVAL
  else Ok ().

Definition valid_name (name : Name) : Prop := good_component name /\ len name <= NAME_MAX.

(** A name that can be created is one path component. *)
Lemma check_name_Ok name : check_name name = Ok () <-> valid_name name.
Proof.
  unfold check_name, valid_name, good_component. split.
  - case_if; [done|]. case_if; [done|]. case_if; [done|]. intros _. done.
  - intros [(H1 & H2 & H3 & H4) H5]. rewrite !bool_decide_false by done. cbn [orb].
    destruct (Z.gtb_spec (len name) NAME_MAX); [lia|done].
Qed.

(** The trait. [W] is the state of the filesystems and [I] a handle. *)
Class Inodes (W I : Type) : Type := {
  i_stat : W -> I -> Stat;
  i_kind : W -> I -> InodeKind;
  i_read_at : W -> I -> Z -> Z -> result Errno (list Z) * W;
  i_write_at : W -> I -> Z -> list Z -> result Errno Z * W;
  i_truncate : W -> I -> Z -> result Errno unit * W;
  i_lookup : W -> I -> Name -> result Errno I;
  i_create : W -> I -> Name -> InodeKind -> result Errno I * W;
  i_unlink : W -> I -> Name -> result Errno unit * W;
  i_rmdir : W -> I -> Name -> result Errno unit * W;
  i_rename : W -> I -> Name -> I -> Name -> result Errno unit * W;
  i_entries : W -> I -> result Errno (list DirEntry);
  i_seekable : W -> I -> bool;
  i_open : W -> I -> Z -> result Errno (option I) * W;
  (** An open file's [Arc]: taken when the file is opened, dropped with it. *)
  i_hold : W -> I -> W;
  i_release : W -> I -> W;
}.
