(* ===== verification/FsTree.v ===== *)
(** * FsTree: directory trees

    The shape of a filesystem, apart from its contents: which name in which
    directory leads to which inode ([edge]), and each directory's parent link
    and dead flag ([meta]). [tree_ok] says the live directories form a tree
    below the root; the four changes a filesystem makes (adding a leaf,
    detaching one, moving an entry, forgetting an inode) keep it. *)

From stdpp Require Import base list gmap numbers relations.
From S2P Require Import Prelude Errno Text Inode.
Local Open Scope Z_scope.

Definition Edge : Type := Z -> Name -> option Z.
Definition Meta : Type := Z -> option (option Z * bool).

(** [d] is [n] entries below the root. *)
Inductive depth (root : Z) (edge : Edge) : nat -> Z -> Prop :=
| depth_root : depth root edge 0 root
| depth_child n p x c : depth root edge n p -> edge p x = Some c -> depth root edge (S n) c.

Definition entry_of (edge : Edge) (p c : Z) : Prop := exists x, edge p x = Some c.
(** [d] is [a] or lies below it. *)
Definition below (edge : Edge) (a d : Z) : Prop := rtc (entry_of edge) a d.

Record tree_ok (root : Z) (edge : Edge) (meta : Meta) (node : Z -> Prop) : Prop := {
  t_root : meta root = Some (None, false);
  t_child : forall d x c, edge d x = Some c -> c <> root /\ valid_name x /\ node c /\ is_Some (meta d);
  t_up : forall d x c p b, edge d x = Some c -> meta c = Some (p, b) -> p = Some d /\ b = false;
  t_unique : forall d x d' x' c, edge d x = Some c -> edge d' x' = Some c -> d = d' /\ x = x';
  t_dead : forall d p x, meta d = Some (p, true) -> edge d x = None;
  t_linked : forall d p, meta d = Some (p, false) -> d <> root -> exists q x, edge q x = Some d;
  t_reach : forall d p, meta d = Some (p, false) -> exists n, depth root edge n d;
  t_node : forall d m, meta d = Some m -> node d;
}.

Section Tree.
Context (root : Z) (edge : Edge) (meta : Meta) (node : Z -> Prop).
Hypothesis Hok : tree_ok root edge meta node.

(** *** Depth *)

Lemma depth_functional n d : depth root edge n d -> forall m, depth root edge m d -> n = m.
Proof.
  induction 1 as [|n p x c Hp IH Hx]; intros m Hm.
  - inversion Hm as [|m' p x c Hm' Hx]; subst; [done|]. by apply (t_child _ _ _ _ Hok) in Hx as [? _].
  - inversion Hm as [|m' p' x' c' Hm' Hx']; subst; [by apply (t_child _ _ _ _ Hok) in Hx as [? _]|].
    destruct (t_unique _ _ _ _ Hok _ _ _ _ _ Hx Hx') as [<- _]. f_equal. by apply IH.
Qed.

Lemma edge_live d x c : edge d x = Some c -> exists p, meta d = Some (p, false).
Proof.
  intros Hx. destruct (t_child _ _ _ _ Hok _ _ _ Hx) as (_ & _ & _ & [[p [|]] Hm]); [|by exists p].
  by rewrite (t_dead _ _ _ _ Hok _ _ x Hm) in Hx.
Qed.

Lemma depth_live n d p b : depth root edge n d -> meta d = Some (p, b) -> b = false.
Proof.
  intros Hd Hm. inversion Hd as [|n' q x c Hq Hx]; subst; [by rewrite (t_root _ _ _ _ Hok) in Hm; injection Hm as <- <-|].
  by apply (t_up _ _ _ _ Hok _ _ _ _ _ Hx Hm).
Qed.

(** The directories from the root down to one are all different, so there
    are no more of them than inodes. *)
Lemma depth_chain n d :
  depth root edge n d -> node d ->
  exists l, length l = S n /\ NoDup l /\ forall i, i ∈ l -> node i /\ exists m, (m <= n)%nat /\ depth root edge m i.
Proof.
  induction 1 as [|n p x c Hp IH Hx]; intros Hn.
  - exists [root]. split; [done|]. split; [apply NoDup_singleton|]. intros i ->%list_elem_of_singleton. split; [done|].
    exists 0%nat. split; [lia|constructor].
  - destruct (t_child _ _ _ _ Hok _ _ _ Hx) as (_ & _ & _ & [m Hm]).
    destruct IH as (l & Hl & Hnd & Hall); [by eapply t_node|].
    assert (Hc : depth root edge (S n) c) by (by econstructor).
    exists (c :: l). split; [simpl; lia|]. split.
    + constructor; [|done]. intros Hin. destruct (Hall _ Hin) as (_ & k & Hk & Hd).
      pose proof (depth_functional _ _ Hc _ Hd). lia.
    + intros i. rewrite elem_of_cons. intros [->|Hi].
      * split; [done|]. by exists (S n).
      * destruct (Hall _ Hi) as (Hni & k & Hk & Hd). split; [done|]. exists k. split; [lia|done].
Qed.

(** *** Walking up

    From a live directory the parent links lead to its ancestors. *)
Inductive up : Z -> Z -> Prop :=
| up_here d : up d d
| up_next d p b a : meta d = Some (Some p, b) -> up p a -> up d a.

Lemma up_below a d : (exists p, meta d = Some (p, false)) -> up d a <-> below edge a d.
Proof.
  intros Hlive. split.
  - intros Hup. induction Hup as [d|d p b a Hd Hup IH]; [apply rtc_refl|].
    destruct Hlive as [p' Hp']. rewrite Hd in Hp'. injection Hp' as <- ->.
    assert (d <> root) by (intros ->; rewrite (t_root _ _ _ _ Hok) in Hd; done).
    destruct (t_linked _ _ _ _ Hok _ _ Hd ltac:(done)) as (q & x & Hx).
    destruct (t_up _ _ _ _ Hok _ _ _ _ _ Hx Hd) as [[= ->] _].
    eapply rtc_r; [apply IH; by eapply edge_live|by exists x].
  - intros Hb. revert d Hb Hlive. apply (rtc_ind_r (fun d => (exists p, meta d = Some (p, false)) -> up d a)).
    { intros _. apply up_here. }
    intros p c _ [x Hx] IH [q Hq].
    destruct (t_up _ _ _ _ Hok _ _ _ _ _ Hx Hq) as [-> _]. eapply up_next; [exact Hq|]. apply IH. by eapply edge_live.
Qed.

(** *** Adding a leaf *)

Definition add_edge (d : Z) (x : Name) (c : Z) : Edge :=
  fun d' x' => if decide (d' = d /\ x' = x) then Some c else edge d' x'.

Lemma depth_mono (edge' : Edge) n d :
  (forall p x c, edge p x = Some c -> edge' p x = Some c) -> depth root edge n d -> depth root edge' n d.
Proof. intros Hm. induction 1; econstructor; eauto. Qed.

Lemma tree_add d p x c m (node' : Z -> Prop) (meta' : Meta) :
  meta d = Some (p, false) -> edge d x = None -> valid_name x -> ~ node c ->
  m = None \/ m = Some (Some d, false) ->
  (forall i, meta' i = if decide (i = c) then m else meta i) -> (forall i, node' i <-> i = c \/ node i) ->
  tree_ok root (add_edge d x c) meta' node'.
Proof.
  intros Hd Hx Hv Hc Hm Hmeta Hnode.
  assert (Hnoc : forall q y, edge q y = Some c -> False).
  { intros q y Hy. by destruct (t_child _ _ _ _ Hok _ _ _ Hy) as (_ & _ & ? & _). }
  assert (Hcc : forall y, edge c y = None).
  { intros y. destruct (edge c y) eqn:Hy; [|done]. destruct (t_child _ _ _ _ Hok _ _ _ Hy) as (_ & _ & _ & [m' Hm']).
    by destruct Hc; eapply t_node. }
  assert (Hcd : c <> d) by (intros ->; destruct Hc; by eapply t_node).
  assert (Hcr : c <> root) by (intros ->; destruct Hc; eapply t_node, t_root; done).
  assert (Hsub : forall q y e, edge q y = Some e -> add_edge d x c q y = Some e).
  { intros q y e Hy. unfold add_edge. case_decide as Hdec; [|done]. destruct Hdec as [-> ->]. by rewrite Hx in Hy. }
  assert (Hinv : forall q y e, add_edge d x c q y = Some e -> (q = d /\ y = x /\ e = c) \/ edge q y = Some e).
  { intros q y e. unfold add_edge. case_decide as Hdec; [destruct Hdec as [-> ->]; intros [= ->]; by left|by right]. }
  constructor.
  - rewrite Hmeta. rewrite decide_False by done. apply Hok.
  - intros q y e Hy. destruct (Hinv _ _ _ Hy) as [(-> & -> & ->)|Hy'].
    + split; [done|]. split; [done|]. split; [apply Hnode; by left|]. rewrite Hmeta, decide_False by done. by rewrite Hd.
    + destruct (t_child _ _ _ _ Hok _ _ _ Hy') as (H1 & H2 & H3 & H4). split; [done|]. split; [done|].
      split; [apply Hnode; by right|]. rewrite Hmeta. rewrite decide_False; [done|]. intros ->. by rewrite Hcc in Hy'.
  - intros q y e p' b Hy. rewrite Hmeta. destruct (Hinv _ _ _ Hy) as [(-> & -> & ->)|Hy'].
    + rewrite decide_True by done. destruct Hm as [->| ->]; [done|]. intros [= <- <-]. done.
    + rewrite decide_False by (intros ->; by eapply Hnoc). by eapply t_up.
  - intros q y q' y' e Hy Hy'. destruct (Hinv _ _ _ Hy) as [(-> & -> & ->)|H1], (Hinv _ _ _ Hy') as [(-> & -> & H2)|H2].
    + done.
    + by apply Hnoc in H2.
    + subst. by apply Hnoc in H1.
    + by eapply t_unique.
  - intros i p' y. rewrite Hmeta. case_decide as Hi; [destruct Hm as [->| ->]; done|]. intros Hi'.
    unfold add_edge. case_decide as Hdec; [destruct Hdec as [-> ->]; rewrite Hd in Hi'; done|]. by eapply t_dead.
  - intros i p'. rewrite Hmeta. case_decide as Hi.
    + intros _ _. subst. exists d, x. unfold add_edge. by rewrite decide_True.
    + intros Hi' Hr. destruct (t_linked _ _ _ _ Hok _ _ Hi' Hr) as (q & y & Hy). exists q, y. by apply Hsub.
  - intros i p'. rewrite Hmeta. case_decide as Hi.
    + intros _. subst. destruct (t_reach _ _ _ _ Hok _ _ Hd) as [n Hn]. exists (S n).
      eapply (depth_child _ _ _ d x); [by eapply depth_mono|]. unfold add_edge. by rewrite decide_True.
    + intros Hi'. destruct (t_reach _ _ _ _ Hok _ _ Hi') as [n Hn]. exists n. by eapply depth_mono.
  - intros i m'. rewrite Hmeta. case_decide as Hi; [intros _; apply Hnode; by left|]. intros Hi'. apply Hnode. right. by eapply t_node.
Qed.

(** *** Detaching a leaf *)

Definition cut_edge (d : Z) (x : Name) : Edge :=
  fun d' x' => if decide (d' = d /\ x' = x) then None else edge d' x'.

Lemma cut_edge_Some d x q y e : cut_edge d x q y = Some e <-> edge q y = Some e /\ ~ (q = d /\ y = x).
Proof. unfold cut_edge. case_decide; naive_solver. Qed.

Definition bury_meta (c : Z) : Meta := fun i => if decide (i = c) then (fun m => (fst m, true)) <$> meta i else meta i.

Lemma bury_meta_live c i p : bury_meta c i = Some (p, false) -> i <> c /\ meta i = Some (p, false).
Proof.
  unfold bury_meta. case_decide; [|done]. destruct (meta i); simpl; [|done]. by intros [= _].
Qed.

(** Entries are kept, so long as they do not pass through the leaf. *)
Lemma depth_cut d x c n i :
  edge d x = Some c -> (forall y, edge c y = None) -> depth root edge n i -> i <> c -> depth root (cut_edge d x) n i.
Proof.
  intros Hx Hleaf. induction 1 as [|n p y e Hp IH Hy]; intros Hne; [constructor|].
  assert (p <> c) by (intros ->; by rewrite Hleaf in Hy).
  eapply (depth_child _ _ _ p y); [by apply IH|]. apply cut_edge_Some. split; [done|]. intros [-> ->]. congruence.
Qed.

Lemma tree_detach d x c :
  edge d x = Some c -> (forall y, edge c y = None) -> tree_ok root (cut_edge d x) (bury_meta c) node.
Proof.
  intros Hx Hleaf. destruct (t_child _ _ _ _ Hok _ _ _ Hx) as (Hcr & _ & _ & _).
  assert (Hother : forall q y e, cut_edge d x q y = Some e -> e <> c).
  { intros q y e [Hy Hne]%cut_edge_Some ->. destruct (t_unique _ _ _ _ Hok _ _ _ _ _ Hx Hy) as [-> ->]. by destruct Hne. }
  assert (Hbury : forall i, i <> c -> bury_meta c i = meta i) by (intros i Hi; unfold bury_meta; by rewrite decide_False).
  constructor.
  - rewrite Hbury by done. apply Hok.
  - intros q y e [Hy Hne]%cut_edge_Some. destruct (t_child _ _ _ _ Hok _ _ _ Hy) as (H1 & H2 & H3 & H4).
    do 3 (split; [done|]). unfold bury_meta. case_decide; [|done]. by rewrite fmap_is_Some.
  - intros q y e p b Hy. rewrite Hbury by (by eapply Hother). apply cut_edge_Some in Hy as [Hy _]. by eapply t_up.
  - intros q y q' y' e [H1 _]%cut_edge_Some [H2 _]%cut_edge_Some. by eapply t_unique.
  - intros i p y. destruct (cut_edge d x i y) as [e|] eqn:He; [|done]. apply cut_edge_Some in He as [Hy _].
    unfold bury_meta. case_decide as Hi; [subst; by rewrite Hleaf in Hy|]. intros Hm. rewrite (t_dead _ _ _ _ Hok _ _ y Hm) in Hy. done.
  - intros i p [Hi Hm]%bury_meta_live Hr. destruct (t_linked _ _ _ _ Hok _ _ Hm Hr) as (q & y & Hy).
    exists q, y. apply cut_edge_Some. split; [done|]. intros [-> ->]. congruence.
  - intros i p [Hi Hm]%bury_meta_live. destruct (t_reach _ _ _ _ Hok _ _ Hm) as [n Hn]. exists n. by eapply depth_cut.
  - intros i m. unfold bury_meta. case_decide; [|by apply (t_node _ _ _ _ Hok)].
    destruct (meta i) as [m'|] eqn:Hm; [|done]. intros _. by eapply t_node.
Qed.

(** *** Moving an entry *)

Definition move_edge (self : Z) (old : Name) (target : Z) (new : Name) (source : Z) : Edge :=
  fun d x => if decide (d = self /\ x = old) then None
             else if decide (d = target /\ x = new) then Some source else edge d x.
Definition move_meta (source target : Z) : Meta :=
  fun i => if decide (i = source) then (fun m => (Some target, snd m)) <$> meta i else meta i.

Section Move.
Context (self : Z) (old : Name) (target : Z) (new : Name) (source : Z) (pt : option Z).
Hypothesis Hsource : edge self old = Some source.
Hypothesis Htarget : meta target = Some (pt, false).
Hypothesis Hfree : edge target new = None.
Hypothesis Hnew : valid_name new.
Hypothesis Hnot_below : ~ below edge source target.
Let edge' := move_edge self old target new source.

Lemma move_edge_Some q y e :
  edge' q y = Some e -> (q = target /\ y = new /\ e = source) \/ (edge q y = Some e /\ e <> source).
Proof.
  unfold edge', move_edge. case_decide as H1; [done|]. case_decide as H2.
  - destruct H2 as [-> ->]. intros [= <-]. by left.
  - intros He. right. split; [done|]. intros ->. by destruct (t_unique _ _ _ _ Hok _ _ _ _ _ Hsource He) as [-> ->], H1.
Qed.

Lemma move_edge_kept q y e : edge q y = Some e -> e <> source -> edge' q y = Some e.
Proof.
  intros He Hne. unfold edge', move_edge. rewrite decide_False by (intros [-> ->]; congruence).
  rewrite decide_False by (intros [-> ->]; congruence). done.
Qed.

Lemma move_edge_new : edge' target new = Some source.
Proof.
  unfold edge', move_edge. rewrite decide_False by (intros [-> ->]; congruence). by rewrite decide_True.
Qed.

Lemma depth_move_outside n d : depth root edge n d -> ~ below edge source d -> depth root edge' n d.
Proof.
  induction 1 as [|n p x c Hp IH Hx]; intros Hb; [constructor|].
  apply (depth_child _ _ _ p x); [apply IH; intros Hb'; apply Hb; eapply rtc_r; [done|by exists x]|].
  apply move_edge_kept; [done|]. intros ->. apply Hb, rtc_refl.
Qed.

Lemma depth_move n d : depth root edge n d -> exists m, depth root edge' m d.
Proof.
  intros Hd. destruct (t_reach _ _ _ _ Hok _ _ Htarget) as [k Hk].
  induction Hd as [|n p x c Hp [m Hm] Hx]; [by exists 0%nat; constructor|].
  destruct (decide (c = source)) as [->|Hne].
  - exists (S k). apply (depth_child _ _ _ target new); [by apply depth_move_outside|apply move_edge_new].
  - exists (S m). apply (depth_child _ _ _ p x); [done|by apply move_edge_kept].
Qed.

Lemma tree_move : tree_ok root edge' (move_meta source target) node.
Proof.
  destruct (t_child _ _ _ _ Hok _ _ _ Hsource) as (Hsr & _ & Hsn & _).
  assert (Hlive : forall i p, move_meta source target i = Some (p, false) -> exists p', meta i = Some (p', false)).
  { intros i p. unfold move_meta. case_decide; [|eauto]. destruct (meta i) as [[p' b]|]; simpl; [|done]. intros [= _ ->]. eauto. }
  assert (Hother : forall i, i <> source -> move_meta source target i = meta i)
    by (intros i Hi; unfold move_meta; by rewrite decide_False).
  assert (Hsome : forall i, is_Some (move_meta source target i) <-> is_Some (meta i)).
  { intros i. unfold move_meta. case_decide; [by rewrite fmap_is_Some|done]. }
  constructor.
  - rewrite Hother by done. apply Hok.
  - intros q y e [(-> & -> & ->)|[He Hne]]%move_edge_Some.
    + do 3 (split; [done|]). apply Hsome. by rewrite Htarget.
    + destruct (t_child _ _ _ _ Hok _ _ _ He) as (H1 & H2 & H3 & H4). do 3 (split; [done|]). by apply Hsome.
  - intros q y e p b [(-> & -> & ->)|[He Hne]]%move_edge_Some.
    + unfold move_meta. rewrite decide_True by done. destruct (meta source) as [[p' b']|] eqn:Hm; simpl; [|done].
      intros [= <- <-]. split; [done|]. by apply (t_up _ _ _ _ Hok _ _ _ _ _ Hsource Hm).
    + rewrite Hother by done. by eapply t_up.
  - intros q y q' y' e [(-> & -> & ->)|[H1 H2]]%move_edge_Some [(-> & -> & H3)|[H3 H4]]%move_edge_Some; [done..|].
    by eapply t_unique.
  - intros i p y Hm. destruct (edge' i y) as [e|] eqn:He; [|done]. exfalso.
    assert (Hdead : exists p', meta i = Some (p', true)).
    { revert Hm. unfold move_meta. case_decide; [|eauto]. destruct (meta i) as [[p' b]|]; simpl; [|done]. intros [= _ ->]. eauto. }
    destruct Hdead as [p' Hd]. apply move_edge_Some in He as [(-> & -> & ->)|[He _]].
    + by rewrite Htarget in Hd.
    + by rewrite (t_dead _ _ _ _ Hok _ _ y Hd) in He.
  - intros i p Hm Hr. destruct (Hlive _ _ Hm) as [p' Hp']. destruct (decide (i = source)) as [->|Hne].
    + exists target, new. apply move_edge_new.
    + destruct (t_linked _ _ _ _ Hok _ _ Hp' Hr) as (q & x & Hx). exists q, x. by apply move_edge_kept.
  - intros i p Hm. destruct (Hlive _ _ Hm) as [p' Hp']. destruct (t_reach _ _ _ _ Hok _ _ Hp') as [n Hn]. by eapply depth_move.
  - intros i m Hm. destruct (proj1 (Hsome i)) as [m' Hm']; [by rewrite Hm|]. by eapply t_node.
Qed.
End Move.

(** *** Forgetting an inode *)

Lemma tree_forget i (node' : Z -> Prop) (meta' : Meta) :
  i <> root -> (forall d x, edge d x <> Some i) ->
  (forall j, meta' j = if decide (j = i) then None else meta j) -> (forall j, node' j <-> node j /\ j <> i) ->
  tree_ok root edge meta' node'.
Proof.
  intros Hr Hno Hmeta Hnode.
  assert (Hout : forall x, edge i x = None).
  { intros x. destruct (meta i) as [[p [|]]|] eqn:Hm.
    - by eapply t_dead.
    - destruct (t_linked _ _ _ _ Hok _ _ Hm Hr) as (q & y & Hy). by destruct (Hno q y).
    - destruct (edge i x) eqn:Hx; [|done]. destruct (t_child _ _ _ _ Hok _ _ _ Hx) as (_ & _ & _ & [? Hm']). by rewrite Hm in Hm'. }
  assert (Hkeep : forall j m, meta' j = Some m -> meta j = Some m /\ j <> i).
  { intros j m. rewrite Hmeta. by case_decide. }
  constructor.
  - rewrite Hmeta, decide_False by done. apply Hok.
  - intros d x c Hx. destruct (t_child _ _ _ _ Hok _ _ _ Hx) as (H1 & H2 & H3 & H4). split; [done|]. split; [done|].
    split; [apply Hnode; split; [done|]; intros ->; by destruct (Hno d x)|].
    rewrite Hmeta, decide_False; [done|]. intros ->. by rewrite Hout in Hx.
  - intros d x c p b Hx [Hm _]%Hkeep. by eapply t_up.
  - apply (t_unique _ _ _ _ Hok).
  - intros d p x [Hm _]%Hkeep. by eapply t_dead.
  - intros d p [Hm _]%Hkeep. by eapply t_linked.
  - intros d p [Hm _]%Hkeep. by eapply t_reach.
  - intros d m [Hm Hne]%Hkeep. apply Hnode. split; [by eapply t_node|done].
Qed.
End Tree.

(** The shape is what it looks up. *)
Lemma tree_ok_ext root edge edge' meta meta' node node' :
  (forall d x, edge' d x = edge d x) -> (forall i, meta' i = meta i) -> (forall i, node' i <-> node i) ->
  tree_ok root edge meta node -> tree_ok root edge' meta' node'.
Proof.
  intros He Hm Hn Hok.
  assert (Hd : forall n d, depth root edge n d -> depth root edge' n d).
  { intros n d. induction 1; econstructor; [done|]. by rewrite He. }
  constructor.
  - rewrite Hm. apply Hok.
  - intros d x c. rewrite He, Hm, Hn. apply Hok.
  - intros d x c p b. rewrite He, Hm. apply Hok.
  - intros d x d' x' c. rewrite !He. apply Hok.
  - intros d p x. rewrite He, Hm. apply Hok.
  - intros d p. rewrite Hm. intros H1 H2. destruct (t_linked _ _ _ _ Hok _ _ H1 H2) as (q & x & Hx). exists q, x. by rewrite He.
  - intros d p. rewrite Hm. intros H1. destruct (t_reach _ _ _ _ Hok _ _ H1) as [n Hn']. exists n. by apply Hd.
  - intros d m. rewrite Hm, Hn. apply Hok.
Qed.
