(* ===== verification/Ramfs.v ===== *)
(** * Ramfs: the in-memory filesystem

    [kernel/src/fs/ramfs.rs]. The inodes are nodes of one store, found by
    their number; an [Arc] to one is its number, so a file's data is shared by
    its directory entry and its open files. A node is dropped, and a file's
    bytes are given back, when no entry and no open file ([held]) refers to it
    any more: the source's [Drop]. [try_reserve] is the kernel heap, which may
    refuse a file's growth. A directory's [BTreeMap] is a finite map, listed
    in the order of its keys. The locks only order concurrent operations;
    every operation here is one critical section. *)

From stdpp Require Import base list gmap numbers sorting.
From S2P Require Import Prelude Errno Text Inode.
Local Open Scope Z_scope.

Module Ramfs.
Definition DEFAULT_LIMIT : Z := Z.shiftl 64 20.
Definition root_limit (usable : Z) : Z := Z.max (usable / 2) DEFAULT_LIMIT.

Record RamDir : Type := mkDir {
  parent : option Z;
  entries : gmap Name Z;
  dead : bool;
}.
Inductive Node : Type :=
| File (data : list Z)
| Dir (dir : RamDir).

Record Ramfs : Type := mkRamfs {
  fs_id : Z;
  next_ino : Z;
  used : Z;
  limit : Z;
  root : Z;
  nodes : gmap Z Node;
  held : list Z;
}.

Definition set_nodes (st : Ramfs) (m : gmap Z Node) : Ramfs :=
  mkRamfs (fs_id st) (next_ino st) (used st) (limit st) (root st) m (held st).
Definition set_used (st : Ramfs) (u : Z) : Ramfs :=
  mkRamfs (fs_id st) (next_ino st) u (limit st) (root st) (nodes st) (held st).
Definition set_held (st : Ramfs) (h : list Z) : Ramfs :=
  mkRamfs (fs_id st) (next_ino st) (used st) (limit st) (root st) (nodes st) h.
Definition set_node (st : Ramfs) (ino : Z) (n : Node) : Ramfs := set_nodes st (<[ino := n]> (nodes st)).

(** The directory behind a handle: [downcast_ref::<RamDir>]. *)
Definition dir_at (st : Ramfs) (ino : Z) : option RamDir :=
  match nodes st !! ino with Some (Dir d) => Some d | _ => None end.

(** ** Shared *)

Definition allocate_ino (st : Ramfs) : Z * Ramfs :=
  (next_ino st, mkRamfs (fs_id st) (next_ino st + 1) (used st) (limit st) (root st) (nodes st) (held st)).

Definition reserve (st : Ramfs) (bytes : Z) : result Errno Ramfs :=
  match checked_add (used st) bytes with
  | Some total => if total <=? limit st then Ok (set_used st total) else Err ENOSPC
  | None => Err ENOSPC
  end.
Definition release (st : Ramfs) (bytes : Z) : Ramfs := set_used st (used st - bytes).

Definition with_limit (fs_id limit : Z) : Ramfs :=
  mkRamfs fs_id 2 0 limit 1 {[ 1 := Dir (mkDir None ∅ false) ]} [].

(** ** References *)

Definition mentions (ino : Z) (n : Node) : bool :=
  match n with
  | Dir d => existsb (fun e => snd e =? ino) (map_to_list (entries d))
  | File _ => false
  end.
Definition referenced (st : Ramfs) (ino : Z) : bool :=
  (ino =? root st) || bool_decide (ino ∈ held st) || existsb (fun p => mentions ino (snd p)) (map_to_list (nodes st)).

(** [Drop for RamFile], when the last reference has gone; a directory is empty
    by then. *)
Definition drop_ref (st : Ramfs) (ino : Z) : Ramfs :=
  if referenced st ino then st
  else
    match nodes st !! ino with
    | Some (File data) => release (set_nodes st (delete ino (nodes st))) (len data)
    | _ => set_nodes st (delete ino (nodes st))
    end.

(** An open file takes and drops a reference. *)
Definition hold (st : Ramfs) (ino : Z) : Ramfs := set_held st (ino :: held st).
Fixpoint remove_one (ino : Z) (l : list Z) : list Z :=
  match l with [] => [] | i :: l => if i =? ino then l else i :: remove_one ino l end.
Definition unhold (st : Ramfs) (ino : Z) : Ramfs := drop_ref (set_held st (remove_one ino (held st))) ino.

(** ** RamFile *)

Section File.
Variable try_reserve : Z -> bool.

(** Zero-extend or truncate. *)
Definition resized (data : list Z) (n : Z) : list Z :=
  take (Z.to_nat n) data ++ replicate (Z.to_nat n - length data) 0.

Definition resize (st : Ramfs) (ino : Z) (data : list Z) (new_length : Z) : result Errno unit * Ramfs :=
  let old_length := len data in
  if new_length >? old_length then
    let grow := new_length - old_length in
    match reserve st grow with
    | Err e => (Err e, st)
    | Ok st' =>
        if negb (try_reserve grow) then (Err ENOSPC, release st' grow)
        else (Ok (), set_node st' ino (File (resized data new_length)))
    end
  else (Ok (), release (set_node st ino (File (resized data new_length))) (old_length - new_length)).

Definition read_at (st : Ramfs) (ino offset count : Z) : result Errno (list Z) :=
  match nodes st !! ino with
  | Some (File data) =>
      if offset >=? len data then Ok []
      else Ok (take (Z.to_nat (Z.min count (len data - offset))) (drop (Z.to_nat offset) data))
  | _ => Err EISDIR
  end.

(** Overwrite [data] from [start] on, inside its length. *)
Definition overwrite (data : list Z) (start : Z) (buf : list Z) : list Z :=
  take (Z.to_nat start) data ++ buf ++ drop (Z.to_nat start + length buf) data.

Definition write_at (st : Ramfs) (ino offset : Z) (buf : list Z) : result Errno Z * Ramfs :=
  match nodes st !! ino with
  | Some (File data) =>
      match checked_add offset (len buf) with
      | None => (Err EINVAL, st)
      | Some fin =>
          let '(r, st) := if fin >? len data then resize st ino data fin else (Ok (), st) in
          match r with
          | Err e => (Err e, st)
          | Ok _ =>
              let data := match nodes st !! ino with Some (File data) => data | _ => data end in
              (Ok (len buf), set_node st ino (File (overwrite data offset buf)))
          end
      end
  | _ => (Err EISDIR, st)
  end.

Definition truncate (st : Ramfs) (ino size : Z) : result Errno unit * Ramfs :=
  match nodes st !! ino with
  | Some (File data) => resize st ino data size
  | _ => (Err EINVAL, st)
  end.
End File.

(** ** RamDir *)

Definition kind (st : Ramfs) (ino : Z) : InodeKind :=
  match nodes st !! ino with Some (Dir _) => KDirectory | _ => KFile end.

Definition stat (st : Ramfs) (ino : Z) : Stat :=
  match nodes st !! ino with
  | Some (Dir d) =>
      let subdirectories :=
        length (filter (fun e => kind st (snd e) = KDirectory) (map_to_list (entries d))) in
      mkStat ino (fs_id st) KDirectory 0 (2 + Z.of_nat subdirectories)
  | Some (File data) => mkStat ino (fs_id st) KFile (len data) 1
  | None => mkStat ino (fs_id st) KFile 0 1
  end.

(** [is_within]: walk up the parents; [None] is out of fuel. *)
Fixpoint is_within (fuel : nat) (st : Ramfs) (current : option Z) (ancestor : Z) : option bool :=
  match current with
  | None => Some false
  | Some ino =>
      match fuel with
      | O => None
      | S fuel =>
          if ino =? ancestor then Some true
          else
            match dir_at st ino with
            | Some d => is_within fuel st (parent d) ancestor
            | None => Some false
            end
      end
  end.
(** A walk passes a directory once at most. *)
Definition walk_fuel (st : Ramfs) : nat := S (size (nodes st)).

Definition lookup (st : Ramfs) (ino : Z) (name : Name) : result Errno Z :=
  match dir_at st ino with
  | Some d => ok_or (entries d !! name) ENOENT
  | None => Err ENOTDIR
  end.

Definition with_entries (d : RamDir) (m : gmap Name Z) : RamDir := mkDir (parent d) m (dead d).
Definition set_entries (st : Ramfs) (ino : Z) (m : gmap Name Z) : Ramfs :=
  match dir_at st ino with Some d => set_node st ino (Dir (with_entries d m)) | None => st end.

Definition create (st : Ramfs) (ino : Z) (name : Name) (kind : InodeKind) : result Errno Z * Ramfs :=
  match dir_at st ino with
  | None => (Err ENOTDIR, st)
  | Some d =>
      match check_name name with
      | Err e => (Err e, st)
      | Ok _ =>
          if dead d then (Err ENOENT, st)
          else if bool_decide (is_Some (entries d !! name)) then (Err EEXIST, st)
          else
            match kind with
            | KCharDevice => (Err EINVAL, st)
            | _ =>
                let '(child, st) := allocate_ino st in
                let n := match kind with KDirectory => Dir (mkDir (Some ino) ∅ false) | _ => File [] end in
                (Ok child, set_entries (set_node st child n) ino (<[name := child]> (entries d)))
            end
      end
  end.

Definition unlink (st : Ramfs) (ino : Z) (name : Name) : result Errno unit * Ramfs :=
  match dir_at st ino with
  | None => (Err ENOTDIR, st)
  | Some d =>
      match entries d !! name with
      | None => (Err ENOENT, st)
      | Some entry =>
          if bool_decide (kind st entry = KDirectory) then (Err EISDIR, st)
          else (Ok (), drop_ref (set_entries st ino (delete name (entries d))) entry)
      end
  end.

(** [dead.store(true)]. *)
Definition bury (st : Ramfs) (ino : Z) : Ramfs :=
  match dir_at st ino with Some d => set_node st ino (Dir (mkDir (parent d) (entries d) true)) | None => st end.

Definition rmdir (st : Ramfs) (ino : Z) (name : Name) : result Errno unit * Ramfs :=
  match dir_at st ino with
  | None => (Err ENOTDIR, st)
  | Some d =>
      match entries d !! name with
      | None => (Err ENOENT, st)
      | Some entry =>
          match dir_at st entry with
          | None => (Err ENOTDIR, st)
          | Some directory =>
              if bool_decide (entries directory <> ∅) then (Err ENOTEMPTY, st)
              else (Ok (), drop_ref (set_entries (bury st entry) ino (delete name (entries d))) entry)
          end
      end
  end.

(** The check of the entry that a rename replaces; a replaced directory is
    marked dead. *)
Definition replace (st : Ramfs) (self source existing : Z) : result Errno Ramfs :=
  match kind st source, kind st existing with
  | KDirectory, KDirectory =>
      match dir_at st existing with
      | Some existing_dir =>
          if existing =? self then Err ENOTEMPTY
          else if bool_decide (entries existing_dir <> ∅) then Err ENOTEMPTY
          else Ok (bury st existing)
      | None => Ok st
      end
  | KDirectory, _ => Err ENOTDIR
  | _, KDirectory => Err EISDIR
  | _, _ => Ok st
  end.

Definition set_parent (st : Ramfs) (ino target : Z) : Ramfs :=
  match dir_at st ino with Some d => set_node st ino (Dir (mkDir (Some target) (entries d) (dead d))) | None => st end.

Definition get_entry (st : Ramfs) (ino : Z) (name : Name) : option Z :=
  dir_at st ino ≫= fun d => entries d !! name.
Definition insert_entry (st : Ramfs) (ino : Z) (name : Name) (child : Z) : Ramfs :=
  match dir_at st ino with Some d => set_entries st ino (<[name := child]> (entries d)) | None => st end.
Definition remove_entry (st : Ramfs) (ino : Z) (name : Name) : Ramfs :=
  match dir_at st ino with Some d => set_entries st ino (delete name (entries d)) | None => st end.

(** Both directories of one filesystem. [None]: the walk up ran out of fuel. *)
Definition rename (st : Ramfs) (self : Z) (old : Name) (target_dir : Z) (new : Name)
  : option (result Errno unit * Ramfs) :=
  match dir_at st self with
  | None => Some (Err ENOTDIR, st)
  | Some _ =>
  match check_name new with
  | Err e => Some (Err e, st)
  | Ok _ =>
  match dir_at st target_dir with
  | None => Some (Err EXDEV, st)
  | Some target =>
  if (target_dir =? self) && bool_decide (old = new)
  then Some (result_map (fun _ => ()) (lookup st self old), st)
  else if dead target then Some (Err ENOENT, st)
  else
  match lookup st self old with
  | Err e => Some (Err e, st)
  | Ok source =>
  match (match dir_at st source with
         | Some _ => is_within (walk_fuel st) st (Some target_dir) source
         | None => Some false
         end) with
  | None => None
  | Some true => Some (Err EINVAL, st)
  | Some false =>
  match (match get_entry st target_dir new with
         | Some existing => replace st self source existing
         | None => Ok st
         end) with
  | Err e => Some (Err e, st)
  | Ok st' =>
      let replaced := get_entry st' target_dir new in
      let st' := insert_entry st' target_dir new source in
      let st' := match replaced with Some existing => drop_ref st' existing | None => st' end in
      let st' := remove_entry st' self old in
      let st' := match dir_at st' source with Some _ => set_parent st' source target_dir | None => st' end in
      Some (Ok (), st')
  end end end end end end.

(** Lexicographic order on names. *)
Fixpoint name_leb (a b : Name) : bool :=
  match a, b with
  | [], _ => true
  | _ :: _, [] => false
  | x :: a, y :: b => (x <? y) || (x =? y) && name_leb a b
  end.
Definition entry_le (e f : Name * Z) : Prop := name_leb (fst e) (fst f) = true.
#[export] Instance entry_le_dec e f : Decision (entry_le e f).
Proof. unfold entry_le. apply _. Defined.

Definition list_entries (st : Ramfs) (ino : Z) : result Errno (list DirEntry) :=
  match dir_at st ino with
  | Some d =>
      Ok ((fun e => let s := stat st (snd e) in mkDirEntry (fst e) (st_ino s) (st_kind s))
          <$> merge_sort entry_le (map_to_list (entries d)))
  | None => Err ENOTDIR
  end.
End Ramfs.
