(* ===== verification/RamfsInv.v ===== *)
(** * RamfsInv: the invariant of the in-memory filesystem

    The inodes form a tree, inode numbers are fresh, the byte count is exact
    and within the limit, and every stored inode is referenced. Each operation
    keeps it. *)

From stdpp Require Import base list gmap numbers fin_maps.
From S2P Require Import Prelude Errno Text Inode FsTree Ramfs.
Import Ramfs.
Local Open Scope Z_scope.

(** ** The shape of a filesystem *)

Definition edge_of (st : Ramfs) : Edge := get_entry st.
Definition meta_of (st : Ramfs) : Meta := fun i => (fun d => (parent d, dead d)) <$> dir_at st i.
Definition node_of (st : Ramfs) (i : Z) : Prop := is_Some (nodes st !! i).

Definition as_dir (n : Node) : option RamDir := match n with Dir d => Some d | File _ => None end.
Definition node_size (n : Node) : Z := match n with File data => len data | Dir _ => 0 end.
(** All the bytes stored. *)
Definition total (m : gmap Z Node) : Z := map_fold (fun _ n acc => node_size n + acc) 0 m.

Lemma dir_at_eq st i : dir_at st i = nodes st !! i ≫= as_dir.
Proof. unfold dir_at. by destruct (nodes st !! i) as [[]|]. Qed.

Lemma dir_at_set_node st i n j : dir_at (set_node st i n) j = if decide (j = i) then as_dir n else dir_at st j.
Proof.
  rewrite !dir_at_eq. simpl. case_decide as Hj; [subst; by rewrite lookup_insert_eq|]. by rewrite lookup_insert_ne by done.
Qed.

Lemma node_of_set_node st i n j : node_of (set_node st i n) j <-> j = i \/ node_of st j.
Proof.
  unfold node_of. simpl. destruct (decide (j = i)) as [->|Hj]; [rewrite lookup_insert_eq; split; eauto|].
  rewrite lookup_insert_ne by done. naive_solver.
Qed.

Lemma dir_node st i d : dir_at st i = Some d <-> nodes st !! i = Some (Dir d).
Proof. unfold dir_at. destruct (nodes st !! i) as [[]|]; naive_solver. Qed.

Lemma dir_node_of st i d : dir_at st i = Some d -> node_of st i.
Proof. intros H%dir_node. by exists (Dir d). Qed.

Lemma edge_of_dir st i d x : dir_at st i = Some d -> edge_of st i x = entries d !! x.
Proof. intros H. unfold edge_of, get_entry. by rewrite H. Qed.

(** *** The primitive changes, on the shape *)

Lemma set_entries_edge st i m d :
  dir_at st i = Some d ->
  forall j x, edge_of (set_entries st i m) j x = if decide (j = i) then m !! x else edge_of st j x.
Proof.
  intros Hd j x. unfold edge_of, get_entry, set_entries. rewrite Hd, dir_at_set_node. by case_decide.
Qed.
Lemma set_entries_meta st i m j : meta_of (set_entries st i m) j = meta_of st j.
Proof.
  unfold meta_of, set_entries. destruct (dir_at st i) as [d|] eqn:Hd; [|done]. rewrite dir_at_set_node.
  case_decide; [subst; by rewrite Hd|done].
Qed.
Lemma set_entries_node st i m j : node_of (set_entries st i m) j <-> node_of st j.
Proof.
  unfold set_entries. destruct (dir_at st i) as [d|] eqn:Hd; [|done]. rewrite node_of_set_node.
  apply dir_node_of in Hd. naive_solver.
Qed.
Lemma bury_edge st i j x : edge_of (bury st i) j x = edge_of st j x.
Proof.
  unfold edge_of, get_entry, bury. destruct (dir_at st i) as [d|] eqn:Hd; [|done]. rewrite dir_at_set_node.
  case_decide; [subst; by rewrite Hd|done].
Qed.
Lemma bury_meta_of st i j : meta_of (bury st i) j = bury_meta (meta_of st) i j.
Proof.
  unfold bury_meta, meta_of, bury. destruct (dir_at st i) as [d|] eqn:Hd.
  - rewrite dir_at_set_node. case_decide; [subst; by rewrite Hd|done].
  - case_decide; [subst; by rewrite Hd|done].
Qed.
Lemma bury_node st i j : node_of (bury st i) j <-> node_of st j.
Proof.
  unfold bury. destruct (dir_at st i) as [d|] eqn:Hd; [|done]. rewrite node_of_set_node.
  apply dir_node_of in Hd. naive_solver.
Qed.
Lemma set_parent_edge st i t j x : edge_of (set_parent st i t) j x = edge_of st j x.
Proof.
  unfold edge_of, get_entry, set_parent. destruct (dir_at st i) as [d|] eqn:Hd; [|done]. rewrite dir_at_set_node.
  case_decide; [subst; by rewrite Hd|done].
Qed.
Lemma set_parent_meta st i t j : meta_of (set_parent st i t) j = move_meta (meta_of st) i t j.
Proof.
  unfold move_meta, meta_of, set_parent. destruct (dir_at st i) as [d|] eqn:Hd.
  - rewrite dir_at_set_node. case_decide; [subst; by rewrite Hd|done].
  - case_decide; [subst; by rewrite Hd|done].
Qed.
Lemma set_parent_node st i t j : node_of (set_parent st i t) j <-> node_of st j.
Proof.
  unfold set_parent. destruct (dir_at st i) as [d|] eqn:Hd; [|done]. rewrite node_of_set_node.
  apply dir_node_of in Hd. naive_solver.
Qed.

(** *** Bytes *)

Lemma total_insert_fresh m i n : m !! i = None -> total (<[i := n]> m) = node_size n + total m.
Proof. intros Hi. unfold total. rewrite map_fold_insert_L; [done|intros; lia|done]. Qed.

Lemma total_delete m i n : m !! i = Some n -> total (delete i m) = total m - node_size n.
Proof.
  intros Hi. rewrite <- (insert_delete_id m i n Hi) at 2. rewrite total_insert_fresh by apply lookup_delete_eq. lia.
Qed.

Lemma total_insert m i n o : m !! i = Some o -> total (<[i := n]> m) = total m - node_size o + node_size n.
Proof.
  intros Hi. rewrite <- insert_delete_eq, total_insert_fresh by apply lookup_delete_eq. rewrite (total_delete _ _ _ Hi). lia.
Qed.

Lemma total_nonneg m : 0 <= total m.
Proof.
  induction m as [|i n m Hi IH] using map_ind; [done|]. rewrite total_insert_fresh by done.
  destruct n; simpl; [pose proof (len_nonneg data)|]; lia.
Qed.

(** Changes of a directory keep the bytes. *)
Lemma total_dir st i d d' : dir_at st i = Some d -> total (nodes (set_node st i (Dir d'))) = total (nodes st).
Proof. intros H%dir_node. simpl. rewrite (total_insert _ _ _ _ H). simpl. lia. Qed.

Lemma set_entries_total st i m : total (nodes (set_entries st i m)) = total (nodes st).
Proof. unfold set_entries. destruct (dir_at st i) as [d|] eqn:Hd; [by eapply total_dir|done]. Qed.
Lemma bury_total st i : total (nodes (bury st i)) = total (nodes st).
Proof. unfold bury. destruct (dir_at st i) as [d|] eqn:Hd; [by eapply total_dir|done]. Qed.
Lemma set_parent_total st i t : total (nodes (set_parent st i t)) = total (nodes st).
Proof. unfold set_parent. destruct (dir_at st i) as [d|] eqn:Hd; [by eapply total_dir|done]. Qed.

(** ** The invariant *)

(** The fields of the state that the tree does not hold. *)
Definition same_frame (st st' : Ramfs) : Prop :=
  fs_id st' = fs_id st /\ next_ino st' = next_ino st /\ used st' = used st /\ limit st' = limit st
  /\ root st' = root st /\ held st' = held st.

Lemma set_entries_frame st i m : same_frame st (set_entries st i m).
Proof. unfold set_entries. by destruct (dir_at st i). Qed.
Lemma bury_frame st i : same_frame st (bury st i).
Proof. unfold bury. by destruct (dir_at st i). Qed.
Lemma set_parent_frame st i t : same_frame st (set_parent st i t).
Proof. unfold set_parent. by destruct (dir_at st i). Qed.
Lemma same_frame_trans a b c : same_frame a b -> same_frame b c -> same_frame a c.
Proof. unfold same_frame. intros (? & ? & ? & ? & ? & ?) (? & ? & ? & ? & ? & ?). split_and!; congruence. Qed.

(** Every stored inode is referenced, except perhaps [e] (on its way out). *)
Record inv_upto (e : option Z) (st : Ramfs) : Prop := {
  i_tree : tree_ok (root st) (edge_of st) (meta_of st) (node_of st);
  i_fresh : forall i, node_of st i -> 1 <= i < next_ino st;
  i_used : used st = total (nodes st);
  i_limit : used st <= limit st;
  i_ref : forall i, node_of st i -> e = Some i \/ i = root st \/ i ∈ held st \/ exists d x, edge_of st d x = Some i;
  i_held : forall i, i ∈ held st -> node_of st i;
}.
Definition inv (st : Ramfs) : Prop := inv_upto None st.

Lemma mentions_spec i n : mentions i n = true <-> exists d x, as_dir n = Some d /\ entries d !! x = Some i.
Proof.
  destruct n as [data|d]; simpl; [split; [done|by intros (? & ? & ? & _)]|]. rewrite existsb_true_exists. split.
  - intros ([x c] & Hin & Hc). bool_to_prop. simpl in Hc. subst. apply elem_of_map_to_list in Hin. by exists d, x.
  - intros (? & x & [= <-] & Hx). exists (x, i). split; [by apply elem_of_map_to_list|]. simpl. apply Z.eqb_refl.
Qed.

Lemma referenced_spec st i :
  referenced st i = true <-> i = root st \/ i ∈ held st \/ exists d x, edge_of st d x = Some i.
Proof.
  unfold referenced. rewrite !orb_true_iff, Z.eqb_eq, bool_decide_eq_true, existsb_true_exists.
  assert (H : (exists p, p ∈ map_to_list (nodes st) /\ mentions i (snd p) = true) <-> exists d x, edge_of st d x = Some i).
  { split.
    - intros ([j n] & Hin & Hm). apply elem_of_map_to_list in Hin. apply mentions_spec in Hm as (d & x & Hd & Hx).
      exists j, x. erewrite edge_of_dir; [exact Hx|]. rewrite dir_at_eq, Hin. done.
    - intros (j & x & Hx). unfold edge_of, get_entry in Hx. destruct (dir_at st j) as [d|] eqn:Hd; [|done].
      exists (j, Dir d). split; [by apply elem_of_map_to_list, dir_node|]. apply mentions_spec. by exists d, x. }
  rewrite H. tauto.
Qed.

(** Dropping the last reference. *)
Lemma drop_ref_inv st i : inv_upto (Some i) st -> inv (drop_ref st i).
Proof.
  intros [Ht Hf Hu Hl Hr Hh]. unfold drop_ref. destruct (referenced st i) eqn:Href.
  { apply referenced_spec in Href. constructor; try done. intros j Hj. right. destruct (Hr j Hj) as [[= <-]|]; [|done]. naive_solver. }
  assert (Hno : ~ (i = root st \/ i ∈ held st \/ exists d x, edge_of st d x = Some i))
    by (rewrite <- referenced_spec, Href; done).
  set (st' := set_nodes st (delete i (nodes st))).
  assert (Hdir : forall j, dir_at st' j = if decide (j = i) then None else dir_at st j).
  { intros j. rewrite !dir_at_eq. simpl. case_decide; [subst; by rewrite lookup_delete_eq|]. by rewrite lookup_delete_ne by done. }
  assert (Hnode : forall j, node_of st' j <-> node_of st j /\ j <> i).
  { intros j. unfold node_of. simpl. destruct (decide (j = i)) as [->|].
    - rewrite lookup_delete_eq. split; [by intros []|by intros [_ ?]].
    - rewrite lookup_delete_ne by done. tauto. }
  assert (Hout : forall x, edge_of st i x = None).
  { intros x. destruct (edge_of st i x) as [c|] eqn:Hx; [|done]. exfalso.
    destruct (edge_live _ _ _ _ Ht _ _ _ Hx) as [p Hp]. apply Hno. right. right. eapply t_linked; [done|exact Hp|]. naive_solver. }
  assert (Hedge : forall j x, edge_of st' j x = edge_of st j x).
  { intros j x. unfold edge_of, get_entry. rewrite Hdir. case_decide; [|done]. subst.
    change (None = edge_of st i x). by rewrite Hout. }
  assert (Hmeta : forall j, meta_of st' j = if decide (j = i) then None else meta_of st j).
  { intros j. unfold meta_of. rewrite Hdir. by case_decide. }
  assert (Htree : tree_ok (root st) (edge_of st') (meta_of st') (node_of st')).
  { eapply tree_ok_ext; [exact Hedge|done|done|]. eapply tree_forget; [exact Ht| | |exact Hmeta|exact Hnode]; naive_solver. }
  assert (Hcore : forall u, u = total (delete i (nodes st)) -> inv (set_used st' u)).
  { intros u Hu'. constructor; simpl; try done.
    - intros j Hj. apply Hf, Hnode, Hj.
    - subst u. destruct (nodes st !! i) as [n|] eqn:Hn.
      + rewrite (total_delete _ _ _ Hn). destruct n; simpl; [pose proof (len_nonneg data)|]; lia.
      + rewrite delete_id by done. lia.
    - intros j [Hj Hji]%Hnode. right. destruct (Hr j Hj) as [[= <-]|[?|[?|(d & x & Hx)]]]; [done|naive_solver..|].
      right. right. exists d, x. change (edge_of st' d x = Some j). by rewrite Hedge.
    - intros j Hj. apply Hnode. split; [by apply Hh|]. naive_solver. }
  destruct (nodes st !! i) as [[data|d]|] eqn:Hn.
  - apply Hcore. rewrite (total_delete _ _ _ Hn), <- Hu. done.
  - assert (st' = set_used st' (used st)) as -> by done. apply Hcore. rewrite (total_delete _ _ _ Hn), <- Hu. simpl. lia.
  - assert (st' = set_used st' (used st)) as -> by done. apply Hcore. by rewrite delete_id, <- Hu by done.
Qed.

(** ** Files *)

Lemma file_dir st i data : nodes st !! i = Some (File data) -> dir_at st i = None.
Proof. intros H. rewrite dir_at_eq, H. done. Qed.

(** New contents for a file, with the bytes accounted for. *)
Lemma file_inv e st i data data' u :
  inv_upto e st -> nodes st !! i = Some (File data) -> u = used st - len data + len data' -> u <= limit st ->
  inv_upto e (set_used (set_node st i (File data')) u).
Proof.
  intros [Ht Hf Hu Hl Hr Hh] Hi Hu' Hle.
  assert (Hdir : forall j, dir_at (set_node st i (File data')) j = dir_at st j).
  { intros j. rewrite dir_at_set_node. case_decide; [subst; by rewrite (file_dir _ _ _ Hi)|done]. }
  assert (Hedge : forall j x, edge_of (set_used (set_node st i (File data')) u) j x = edge_of st j x).
  { intros j x. unfold edge_of, get_entry. change (dir_at (set_used ?s u) j) with (dir_at s j). by rewrite Hdir. }
  assert (Hnode : forall j, node_of (set_node st i (File data')) j <-> node_of st j).
  { intros j. rewrite node_of_set_node. split; [|by right]. intros [->|]; [|done]. by exists (File data). }
  constructor; simpl.
  - eapply tree_ok_ext; [exact Hedge| |exact Hnode|exact Ht]. intros j. unfold meta_of.
    change (dir_at (set_used ?s u) j) with (dir_at s j). by rewrite Hdir.
  - intros j Hj. apply Hf, Hnode, Hj.
  - rewrite (total_insert _ _ _ _ Hi). simpl. lia.
  - done.
  - intros j Hj%Hnode. destruct (Hr j Hj) as [|[|[|(d & x & Hx)]]]; [by left|by right; left|by right; right; left|].
    right. right. right. exists d, x. by rewrite Hedge.
  - intros j Hj. apply Hnode, Hh, Hj.
Qed.

Lemma reserve_Ok st n st' : reserve st n = Ok st' -> st' = set_used st (used st + n) /\ used st + n <= limit st.
Proof.
  unfold reserve. destruct (checked_add (used st) n) as [t|] eqn:Ha; [|done]. apply checked_add_Some in Ha as [-> _].
  case_if; [|done]. intros [= <-]. done.
Qed.

Lemma set_used_twice st u v : set_used (set_used st u) v = set_used st v.
Proof. done. Qed.
Lemma set_used_id st : set_used st (used st) = st.
Proof. by destruct st. Qed.

Lemma len_resized data n : 0 <= n -> len (resized data n) = n.
Proof. intros Hn. unfold resized. rewrite len_app, len_replicate. unfold len. rewrite length_take. lia. Qed.

(** What a resize does: all of it, or nothing. *)
Lemma resize_spec try_reserve st i data n :
  0 <= n ->
  resize try_reserve st i data n = (Err ENOSPC, st)
  \/ resize try_reserve st i data n = (Ok (), set_used (set_node st i (File (resized data n))) (used st - len data + n))
     /\ (n > len data -> used st - len data + n <= limit st).
Proof.
  intros Hn. unfold resize. case_if.
  - destruct (reserve st (n - len data)) as [st'|e] eqn:Hr.
    + apply reserve_Ok in Hr as [-> Hle]. destruct (try_reserve (n - len data)); simpl.
      * right. split; [|lia]. unfold set_node, set_nodes, set_used. simpl. do 2 f_equal. lia.
      * left. unfold release. rewrite set_used_twice. simpl. replace (used st + (n - len data) - (n - len data)) with (used st) by lia.
        by rewrite set_used_id.
    + left. unfold reserve in Hr. destruct (checked_add _ _); [case_if_in Hr|]; by simplify_eq.
  - right. split; [|lia]. unfold release, set_used. simpl. do 2 f_equal. lia.
Qed.

Lemma resize_inv try_reserve e st i data n :
  inv_upto e st -> nodes st !! i = Some (File data) -> 0 <= n -> inv_upto e (snd (resize try_reserve st i data n)).
Proof.
  intros Hinv Hi Hn. destruct (resize_spec try_reserve st i data n Hn) as [->|[-> Hle]]; [done|]. simpl.
  eapply file_inv; [done|done|by rewrite len_resized|]. pose proof (i_limit _ _ Hinv). lia.
Qed.

Lemma truncate_inv try_reserve st i n : inv st -> 0 <= n -> inv (snd (truncate try_reserve st i n)).
Proof.
  intros Hinv Hn. unfold truncate. destruct (nodes st !! i) as [[data|d]|] eqn:Hi; [|done..]. by eapply resize_inv.
Qed.

Lemma len_overwrite data start buf : 0 <= start -> start + len buf <= len data -> len (overwrite data start buf) = len data.
Proof.
  unfold len, overwrite. intros Hs Hl. rewrite !length_app, length_take, length_drop. lia.
Qed.

(** The state after a successful write: the file extended with zeros if the
    write ends after it, then overwritten. *)
Definition written (data : list Z) (offset : Z) (buf : list Z) : list Z :=
  overwrite (if offset + len buf >? len data then resized data (offset + len buf) else data) offset buf.

Lemma len_written data offset buf : 0 <= offset -> len (written data offset buf) = Z.max (len data) (offset + len buf).
Proof.
  intros Ho. unfold written. pose proof (len_nonneg buf). case_if.
  - rewrite len_overwrite; rewrite ?len_resized; lia.
  - rewrite len_overwrite; lia.
Qed.

Lemma write_at_spec try_reserve st i data offset buf :
  nodes st !! i = Some (File data) -> 0 <= offset ->
  (exists e, write_at try_reserve st i offset buf = (Err e, st))
  \/ write_at try_reserve st i offset buf
     = (Ok (len buf), set_used (set_node st i (File (written data offset buf))) (used st - len data + len (written data offset buf)))
     /\ (used st <= limit st -> used st - len data + len (written data offset buf) <= limit st).
Proof.
  intros Hi Ho. pose proof (len_nonneg buf). pose proof (len_written data offset buf Ho) as Hlw. unfold write_at. rewrite Hi.
  destruct (checked_add offset (len buf)) as [fin|] eqn:Ha; [|by left; eexists]. apply checked_add_Some in Ha as [-> _].
  unfold written in *. case_if.
  - destruct (resize_spec try_reserve st i data (offset + len buf) ltac:(lia)) as [->|[-> Hle]]; [by left; eexists|].
    right. simpl. rewrite lookup_insert_eq. split; [|lia].
    unfold set_node, set_nodes, set_used. simpl. do 2 f_equal; [lia|]. by rewrite insert_insert_eq.
  - right. rewrite Hi. split; [|lia]. f_equal.
    replace (used st - len data + len (overwrite data offset buf)) with (used st) by (rewrite Hlw; lia).
    by rewrite <- (set_used_id (set_node _ _ _)).
Qed.

Lemma write_at_inv try_reserve st i offset buf : inv st -> 0 <= offset -> inv (snd (write_at try_reserve st i offset buf)).
Proof.
  intros Hinv Ho. destruct (nodes st !! i) as [[data|d]|] eqn:Hi; [|unfold write_at; by rewrite Hi..].
  destruct (write_at_spec try_reserve st i data offset buf Hi Ho) as [[e ->]|[-> Hle]]; [done|]. simpl.
  eapply file_inv; [done|done|done|]. apply Hle, Hinv.
Qed.

(** ** Holding and releasing *)

Lemma hold_inv st i : inv st -> node_of st i -> inv (hold st i).
Proof.
  intros [Ht Hf Hu Hl Hr Hh] Hi. constructor; simpl; try done.
  - intros j Hj. destruct (Hr j Hj) as [|[|[|]]]; [done|by right; left| |by right; right; right].
    right. right. left. by right.
  - intros j. rewrite elem_of_cons. intros [->|Hj]; [done|]. by apply Hh.
Qed.

Lemma remove_one_in i j l : j ∈ remove_one i l -> j ∈ l.
Proof.
  induction l as [|k l IH]; simpl; [done|]. case_if; rewrite !elem_of_cons; [by right|]. intros [->|Hj]; [by left|right; by apply IH].
Qed.
Lemma remove_one_other i j l : j ∈ l -> j <> i -> j ∈ remove_one i l.
Proof.
  induction l as [|k l IH]; simpl; [done|]. rewrite elem_of_cons. intros [->|Hj] Hne.
  - destruct (Z.eqb_spec k i); [done|]. by left.
  - case_if; [done|]. right. by apply IH.
Qed.

Lemma unhold_inv st i : inv st -> inv (unhold st i).
Proof.
  intros [Ht Hf Hu Hl Hr Hh]. unfold unhold. apply drop_ref_inv. constructor; simpl; try done.
  - intros j Hj. destruct (decide (j = i)) as [->|Hne]; [by left|]. right.
    destruct (Hr j Hj) as [|[|[|]]]; [done|by left| |by right; right]. right. left. by apply remove_one_other.
  - intros j Hj. by apply Hh, (remove_one_in i).
Qed.

(** ** Directories *)

(** Changes of the shape alone. *)
Lemma shape_inv e e' st st' :
  inv_upto e st -> same_frame st st' -> total (nodes st') = total (nodes st) -> (forall i, node_of st' i <-> node_of st i) ->
  tree_ok (root st) (edge_of st') (meta_of st') (node_of st) ->
  (forall d x c, edge_of st d x = Some c -> e' = Some c \/ exists d' x', edge_of st' d' x' = Some c) ->
  (e = None \/ e' = e) -> inv_upto e' st'.
Proof.
  intros [Ht Hf Hu Hl Hr Hh] (H1 & H2 & H3 & H4 & H5 & H6) Htot Hnode Htree Hedge He. constructor.
  - rewrite H5. eapply tree_ok_ext; [done|done|exact Hnode|exact Htree].
  - intros i Hi. rewrite H2. by apply Hf, Hnode.
  - by rewrite H3, Hu.
  - by rewrite H3, H4.
  - intros i Hi%Hnode. rewrite H5, H6. destruct (Hr i Hi) as [He'|[|[|(d & x & Hx)]]]; [|by right; left|by right; right; left|].
    + destruct He as [->|Heq]; [done|]. left. congruence.
    + destruct (Hedge _ _ _ Hx) as [|]; [by left|by right; right; right].
  - intros i. rewrite H6. intros Hi. by apply Hnode, Hh.
Qed.

(** Removing the entry of a leaf, which is marked dead if it is a directory. *)
Lemma detach_inv st d dir name c :
  inv st -> dir_at st d = Some dir -> entries dir !! name = Some c -> (forall y, edge_of st c y = None) ->
  inv_upto (Some c) (set_entries (bury st c) d (delete name (entries dir))).
Proof.
  intros Hinv Hd Hc Hleaf. pose proof (i_tree _ _ Hinv) as Ht.
  assert (Hx : edge_of st d name = Some c) by (by rewrite (edge_of_dir _ _ _ _ Hd)).
  assert (Hdc : d <> c) by (intros ->; by rewrite Hleaf in Hx).
  assert (Hd' : exists dir', dir_at (bury st c) d = Some dir').
  { unfold bury. destruct (dir_at st c) eqn:Hc'; [|eauto]. rewrite dir_at_set_node, decide_False by done. eauto. }
  destruct Hd' as [dir' Hd'].
  assert (Hedge : forall j x, edge_of (set_entries (bury st c) d (delete name (entries dir))) j x = cut_edge (edge_of st) d name j x).
  { intros j x. rewrite (set_entries_edge _ _ _ _ Hd'), bury_edge. unfold cut_edge. case_decide as Hj.
    - subst. rewrite (edge_of_dir _ _ _ _ Hd). case_decide as Hx'; [destruct Hx' as [_ ->]; apply lookup_delete_eq|].
      rewrite lookup_delete_ne; [done|]. naive_solver.
    - rewrite decide_False by naive_solver. done. }
  assert (Hmeta : forall j, meta_of (set_entries (bury st c) d (delete name (entries dir))) j = bury_meta (meta_of st) c j).
  { intros j. by rewrite set_entries_meta, bury_meta_of. }
  eapply shape_inv; [exact Hinv| | | | | |by left].
  - eapply same_frame_trans; [apply bury_frame|apply set_entries_frame].
  - by rewrite set_entries_total, bury_total.
  - intros i. by rewrite set_entries_node, bury_node.
  - eapply tree_ok_ext; [exact Hedge|exact Hmeta|done|]. by eapply tree_detach.
  - intros q y e Hy. destruct (decide (e = c)) as [->|Hne]; [by left|]. right. exists q, y. rewrite Hedge.
    apply cut_edge_Some. split; [done|]. intros [-> ->]. congruence.
Qed.

Lemma bury_file st i : dir_at st i = None -> bury st i = st.
Proof. intros H. unfold bury. by rewrite H. Qed.

Lemma kind_dir st i : kind st i = KDirectory <-> is_Some (dir_at st i).
Proof. unfold kind, dir_at. destruct (nodes st !! i) as [[]|]; split; try done; by intros []. Qed.

Lemma not_dir_leaf st i y : dir_at st i = None -> edge_of st i y = None.
Proof. intros H. unfold edge_of, get_entry. by rewrite H. Qed.

Lemma ram_unlink_inv st i name : inv st -> inv (snd (unlink st i name)).
Proof.
  intros Hinv. unfold unlink. destruct (dir_at st i) as [d|] eqn:Hd; [|done].
  destruct (entries d !! name) as [c|] eqn:Hc; [|done]. case_bool_decide as Hk; [done|]. simpl. apply drop_ref_inv.
  rewrite kind_dir in Hk. destruct (dir_at st c) eqn:Hcd; [by destruct Hk|].
  rewrite <- (bury_file st c) at 1 by done. apply detach_inv; [done..|]. intros y. by apply not_dir_leaf.
Qed.

Lemma ram_rmdir_inv st i name : inv st -> inv (snd (rmdir st i name)).
Proof.
  intros Hinv. unfold rmdir. destruct (dir_at st i) as [d|] eqn:Hd; [|done].
  destruct (entries d !! name) as [c|] eqn:Hc; [|done]. destruct (dir_at st c) as [dc|] eqn:Hdc; [|done].
  case_bool_decide as He; [done|]. simpl. apply drop_ref_inv.
  apply detach_inv; [done..|]. intros y. rewrite (edge_of_dir _ _ _ _ Hdc), He. apply lookup_empty.
Qed.

(** A new inode, and its entry. *)
Lemma add_inv st i d name n :
  inv st -> dir_at st i = Some d -> dead d = false -> entries d !! name = None -> valid_name name ->
  n = File [] \/ n = Dir (mkDir (Some i) ∅ false) ->
  let '(c, st1) := allocate_ino st in
  inv (set_entries (set_node st1 c n) i (<[name := c]> (entries d))).
Proof.
  intros Hinv Hd Hdead Hname Hvalid Hn. cbn [allocate_ino]. pose proof Hinv as [Ht Hf Hu Hl Hr Hh].
  set (c := next_ino st). set (st1 := mkRamfs _ _ _ _ _ _ _). set (st2 := set_node st1 c n).
  assert (Hc : ~ node_of st c) by (intros H%Hf; unfold c in H; lia).
  assert (Hnone : nodes st !! c = None) by (apply eq_None_not_Some, Hc).
  assert (Hic : i <> c) by (intros ->; by apply Hc, (dir_node_of _ _ _ Hd)).
  assert (Hd2 : forall j, dir_at st2 j = if decide (j = c) then as_dir n else dir_at st j)
    by (intros j; unfold st2; rewrite dir_at_set_node; reflexivity).
  assert (Hdi : dir_at st2 i = Some d) by (by rewrite Hd2, decide_False).
  set (st3 := set_entries st2 i (<[name := c]> (entries d))).
  assert (Hedge : forall j x, edge_of st3 j x = add_edge (edge_of st) i name c j x).
  { intros j x. unfold st3. rewrite (set_entries_edge _ _ _ _ Hdi). unfold add_edge. case_decide as Hj.
    - subst j. rewrite (edge_of_dir _ _ _ _ Hd). case_decide as Hx; [destruct Hx as [_ ->]; apply lookup_insert_eq|].
      rewrite lookup_insert_ne; [done|]. naive_solver.
    - rewrite decide_False by naive_solver. unfold edge_of, get_entry. rewrite Hd2. case_decide as Hjc; [|done].
      subst j. assert (dir_at st c = None) as -> by (by rewrite dir_at_eq, Hnone). destruct Hn as [->| ->]; done. }
  assert (Hmeta : forall j, meta_of st3 j = if decide (j = c) then (fun d => (parent d, dead d)) <$> as_dir n else meta_of st j).
  { intros j. unfold st3. rewrite set_entries_meta. unfold meta_of. rewrite Hd2. by case_decide. }
  assert (Hnode : forall j, node_of st3 j <-> j = c \/ node_of st j).
  { intros j. unfold st3. rewrite set_entries_node. unfold st2. rewrite node_of_set_node. reflexivity. }
  destruct (set_entries_frame st2 i (<[name := c]> (entries d))) as (H1 & H2 & H3 & H4 & H5 & H6).
  constructor.
  - change (root st3) with (root st3). unfold st3. rewrite H5. eapply tree_ok_ext; [exact Hedge|done|done|].
    eapply (tree_add _ _ _ _ Ht i (parent d) name c); [|by rewrite (edge_of_dir _ _ _ _ Hd)|done|exact Hc| |exact Hmeta|exact Hnode].
    + unfold meta_of. rewrite Hd. simpl. by rewrite Hdead.
    + destruct Hn as [->| ->]; [by left|by right].
  - intros j [->|Hj%Hf]%Hnode; unfold st3; rewrite H2; simpl; [|lia]. unfold c.
    pose proof (Hf _ (dir_node_of _ _ _ Hd)). lia.
  - unfold st3. rewrite H3, set_entries_total. simpl. rewrite total_insert_fresh, Hu by done. by destruct Hn as [->| ->].
  - unfold st3. by rewrite H3, H4.
  - intros j [->|Hj]%Hnode; unfold st3; rewrite H5, H6; simpl.
    + right. right. right. exists i, name. fold st3. rewrite Hedge. unfold add_edge. by rewrite decide_True.
    + destruct (Hr j Hj) as [|[|[|(q & x & Hx)]]]; [done|by right; left|by right; right; left|]. right. right. right.
      exists q, x. fold st3. rewrite Hedge. unfold add_edge. rewrite decide_False; [done|]. intros [-> ->].
      by rewrite (edge_of_dir _ _ _ _ Hd), Hname in Hx.
  - intros j. unfold st3. rewrite H6. simpl. intros Hj%Hh. apply Hnode. by right.
Qed.

Lemma create_inv st i name k : inv st -> inv (snd (create st i name k)).
Proof.
  intros Hinv. unfold create. destruct (dir_at st i) as [d|] eqn:Hd; [|done].
  destruct (check_name name) as [[]|] eqn:Hname; [|done]. apply check_name_Ok in Hname.
  destruct (dead d) eqn:Hdead; [done|]. case_bool_decide as Hx; [done|]. apply eq_None_not_Some in Hx.
  destruct k; [| |done].
  - by apply (add_inv st i d name (File []) Hinv Hd Hdead Hx Hname); left.
  - by apply (add_inv st i d name (Dir (mkDir (Some i) ∅ false)) Hinv Hd Hdead Hx Hname); right.
Qed.

(** ** Walking up *)

Lemma meta_dir st i p b : meta_of st i = Some (p, b) <-> exists d, dir_at st i = Some d /\ parent d = p /\ dead d = b.
Proof. unfold meta_of. destruct (dir_at st i) as [d|]; simpl; naive_solver. Qed.

Lemma is_within_up st a fuel : forall n d,
  tree_ok (root st) (edge_of st) (meta_of st) (node_of st) -> depth (root st) (edge_of st) n d ->
  (exists p, meta_of st d = Some (p, false)) -> (n < fuel)%nat ->
  exists b, is_within fuel st (Some d) a = Some b /\ (b = true <-> up (meta_of st) d a).
Proof.
  induction fuel as [|fuel IH]; intros n d Ht Hd [p Hp] Hf; [lia|]. cbn [is_within].
  destruct (Z.eqb_spec d a) as [->|Hne]; [exists true; split; [done|]; split; [intros; constructor|done]|].
  apply meta_dir in Hp as (D & HD & HpD & HdD). rewrite HD.
  assert (Hmeta : meta_of st d = Some (parent D, false)) by (apply meta_dir; eauto).
  assert (Hup : up (meta_of st) d a <-> exists q, parent D = Some q /\ up (meta_of st) q a).
  { split.
    - inversion 1 as [|d' q b a' Hq Hup]; subst; [done|]. rewrite Hmeta in Hq. injection Hq as Hq <-. by exists q.
    - intros (q & Hq & Hup). rewrite Hq in Hmeta. by eapply up_next. }
  inversion Hd as [|m q x c Hq Hx]; subst.
  - rewrite (t_root _ _ _ _ Ht) in Hmeta. injection Hmeta as Hroot. rewrite <- Hroot in Hup |- *.
    exists false. split; [by destruct fuel|]. rewrite Hup. split; [done|]. by intros (q & [=] & _).
  - destruct (t_up _ _ _ _ Ht _ _ _ _ _ Hx Hmeta) as [Hpar _]. rewrite Hpar in Hup |- *.
    destruct (IH m q Ht Hq) as (b & Hb & Hiff); [by eapply edge_live|lia|].
    exists b. split; [done|]. rewrite Hiff, Hup. split; [by exists q|]. by intros (q' & [= <-] & ?).
Qed.

Lemma NoDup_size (m : gmap Z Node) (l : list Z) : NoDup l -> (forall i, i ∈ l -> is_Some (m !! i)) -> (length l <= size m)%nat.
Proof.
  intros Hnd Hin. rewrite <- size_dom. rewrite <- (size_list_to_set (C := gset Z) l Hnd). apply subseteq_size.
  intros i. rewrite elem_of_list_to_set, elem_of_dom. apply Hin.
Qed.

(** The walk up from a live directory finishes, and answers whether the
    directory is [a] or below it. *)
Lemma is_within_spec st d a :
  inv st -> (exists p, meta_of st d = Some (p, false)) ->
  exists b, is_within (walk_fuel st) st (Some d) a = Some b /\ (b = true <-> below (edge_of st) a d).
Proof.
  intros Hinv Hlive. pose proof (i_tree _ _ Hinv) as Ht. destruct Hlive as [p Hp].
  destruct (t_reach _ _ _ _ Ht _ _ Hp) as [n Hn].
  destruct (depth_chain _ _ _ _ Ht _ _ Hn ltac:(by eapply t_node)) as (l & Hl & Hnd & Hall).
  pose proof (NoDup_size (nodes st) l Hnd ltac:(intros i Hi; by apply Hall)) as Hsize.
  destruct (is_within_up st a (walk_fuel st) n d Ht Hn ltac:(by exists p)) as (b & Hb & Hiff); [unfold walk_fuel; lia|].
  exists b. split; [done|]. rewrite Hiff. apply (up_below _ _ _ _ Ht). by exists p.
Qed.

(** ** Rename *)

(** Moving an entry to a free name. *)
Definition moved (st : Ramfs) (self : Z) (old : Name) (target : Z) (new : Name) (source : Z) : Ramfs :=
  set_parent (remove_entry (insert_entry st target new source) self old) source target.

Lemma insert_entry_edge st t new c :
  is_Some (dir_at st t) -> forall j x, edge_of (insert_entry st t new c) j x = if decide (j = t /\ x = new) then Some c else edge_of st j x.
Proof.
  intros [d Hd] j x. unfold insert_entry. rewrite Hd, (set_entries_edge _ _ _ _ Hd). destruct (decide (j = t)) as [->|Hj].
  - rewrite (edge_of_dir _ _ _ _ Hd). case_decide as H; [destruct H as [_ ->]; apply lookup_insert_eq|].
    apply lookup_insert_ne. naive_solver.
  - by rewrite decide_False by naive_solver.
Qed.
Lemma remove_entry_edge st t old :
  forall j x, edge_of (remove_entry st t old) j x = if decide (j = t /\ x = old) then None else edge_of st j x.
Proof.
  intros j x. unfold remove_entry. destruct (dir_at st t) as [d|] eqn:Hd.
  - rewrite (set_entries_edge _ _ _ _ Hd). destruct (decide (j = t)) as [->|Hj].
    + rewrite (edge_of_dir _ _ _ _ Hd). case_decide as H; [destruct H as [_ ->]; apply lookup_delete_eq|].
      apply lookup_delete_ne. naive_solver.
    + by rewrite decide_False by naive_solver.
  - case_decide as H; [|done]. destruct H as [-> ->]. by apply not_dir_leaf.
Qed.
Lemma insert_entry_rest st t new c :
  same_frame st (insert_entry st t new c) /\ total (nodes (insert_entry st t new c)) = total (nodes st)
  /\ (forall j, meta_of (insert_entry st t new c) j = meta_of st j) /\ (forall j, node_of (insert_entry st t new c) j <-> node_of st j).
Proof.
  unfold insert_entry. destruct (dir_at st t); [|done]. split; [apply set_entries_frame|]. split; [apply set_entries_total|].
  split; [apply set_entries_meta|apply set_entries_node].
Qed.
Lemma remove_entry_rest st t old :
  same_frame st (remove_entry st t old) /\ total (nodes (remove_entry st t old)) = total (nodes st)
  /\ (forall j, meta_of (remove_entry st t old) j = meta_of st j) /\ (forall j, node_of (remove_entry st t old) j <-> node_of st j).
Proof.
  unfold remove_entry. destruct (dir_at st t); [|done]. split; [apply set_entries_frame|]. split; [apply set_entries_total|].
  split; [apply set_entries_meta|apply set_entries_node].
Qed.

Lemma moved_rest st self old target new source :
  let st' := moved st self old target new source in
  same_frame st st' /\ total (nodes st') = total (nodes st)
  /\ (forall j, meta_of st' j = move_meta (meta_of st) source target j) /\ (forall j, node_of st' j <-> node_of st j).
Proof.
  unfold moved. destruct (insert_entry_rest st target new source) as (F1 & T1 & M1 & N1).
  destruct (remove_entry_rest (insert_entry st target new source) self old) as (F2 & T2 & M2 & N2).
  split; [eapply same_frame_trans; [exact F1|]; eapply same_frame_trans; [exact F2|apply set_parent_frame]|].
  split; [by rewrite set_parent_total, T2, T1|]. split.
  - intros j. rewrite set_parent_meta. unfold move_meta. by rewrite !M2, !M1.
  - intros j. by rewrite set_parent_node, N2, N1.
Qed.

Lemma moved_edge st self old target new source :
  is_Some (dir_at st target) ->
  forall j x, edge_of (moved st self old target new source) j x = move_edge (edge_of st) self old target new source j x.
Proof.
  intros Ht j x. unfold moved, move_edge. rewrite set_parent_edge, remove_entry_edge. case_decide; [done|].
  by rewrite insert_entry_edge.
Qed.

Lemma moved_inv e st self old target new source pt :
  inv_upto e st -> edge_of st self old = Some source -> meta_of st target = Some (pt, false) ->
  edge_of st target new = None -> valid_name new -> ~ below (edge_of st) source target ->
  inv_upto e (moved st self old target new source).
Proof.
  intros Hinv Hs Ht Hfree Hv Hb. pose proof (i_tree _ _ Hinv) as Htree.
  assert (Htd : is_Some (dir_at st target)) by (apply meta_dir in Ht as (d & -> & _); eauto).
  destruct (moved_rest st self old target new source) as (F & T & M & N).
  eapply shape_inv; [exact Hinv|exact F|exact T|exact N| | |by right].
  - eapply tree_ok_ext; [by apply moved_edge|exact M|done|]. by eapply tree_move.
  - intros d x c Hx. right. destruct (decide (c = source)) as [->|Hne].
    + exists target, new. rewrite moved_edge by done. by eapply move_edge_new.
    + exists d, x. rewrite moved_edge by done. by eapply move_edge_kept.
Qed.

(** Dropping a replaced inode commutes with changes of other directories. *)
Lemma drop_ref_dir st ex i : i <> ex -> dir_at (drop_ref st ex) i = dir_at st i.
Proof.
  intros Hne. unfold drop_ref. destruct (referenced st ex); [done|].
  destruct (nodes st !! ex) as [[]|]; rewrite !dir_at_eq; simpl; by rewrite lookup_delete_ne.
Qed.

Lemma drop_ref_set_node st ex i d d' :
  i <> ex -> dir_at st i = Some d -> (forall x, entries d' !! x = Some ex <-> entries d !! x = Some ex) ->
  drop_ref (set_node st i (Dir d')) ex = set_node (drop_ref st ex) i (Dir d').
Proof.
  intros Hne Hd Hx. assert (Href : referenced (set_node st i (Dir d')) ex = referenced st ex).
  { apply eq_true_iff_eq. rewrite !referenced_spec. simpl.
    assert (H : forall j x, edge_of (set_node st i (Dir d')) j x = Some ex <-> edge_of st j x = Some ex).
    { intros j x. unfold edge_of, get_entry. rewrite dir_at_set_node. case_decide; [|done]. subst. rewrite Hd. apply Hx. }
    by setoid_rewrite H. }
  unfold drop_ref. rewrite Href. destruct (referenced st ex); [done|].
  replace (nodes (set_node st i (Dir d')) !! ex) with (nodes st !! ex) by (simpl; by rewrite lookup_insert_ne).
  destruct (nodes st !! ex) as [[]|]; unfold release, set_used, set_node, set_nodes; simpl; f_equal;
    by rewrite delete_insert_ne.
Qed.

Lemma drop_ref_remove_entry st ex self old :
  self <> ex -> edge_of st self old <> Some ex ->
  remove_entry (drop_ref st ex) self old = drop_ref (remove_entry st self old) ex.
Proof.
  intros Hne Hedge. unfold remove_entry. rewrite drop_ref_dir by done. destruct (dir_at st self) as [d|] eqn:Hd; [|done].
  unfold set_entries. rewrite drop_ref_dir, Hd by done. symmetry. eapply drop_ref_set_node; [done|done|].
  intros x. simpl. rewrite lookup_delete_Some. split; [tauto|]. intros Hx. split; [|done]. intros <-.
  apply Hedge. by rewrite (edge_of_dir _ _ _ _ Hd).
Qed.

Lemma drop_ref_set_parent st ex source target :
  source <> ex -> set_parent (drop_ref st ex) source target = drop_ref (set_parent st source target) ex.
Proof.
  intros Hne. unfold set_parent. rewrite drop_ref_dir by done. destruct (dir_at st source) as [d|] eqn:Hd; [|done].
  symmetry. by eapply drop_ref_set_node.
Qed.

(** Moving an entry onto another, a leaf. *)
Lemma moved_over_inv st self old target new source ex pt :
  inv st -> edge_of st self old = Some source -> meta_of st target = Some (pt, false) ->
  edge_of st target new = Some ex -> (forall y, edge_of st ex y = None) -> valid_name new ->
  ~ (self = target /\ old = new) -> ~ below (edge_of st) source target ->
  inv_upto (Some ex) (moved (bury st ex) self old target new source).
Proof.
  intros Hinv Hs Ht Hex Hleaf Hv Hne Hb. pose proof (i_tree _ _ Hinv) as Htree.
  assert (Htex : target <> ex) by (intros ->; by rewrite Hleaf in Hex).
  assert (Htd : is_Some (dir_at (bury st ex) target)).
  { apply meta_dir in Ht as (d & Hd & _). unfold bury. destruct (dir_at st ex); [|by rewrite Hd].
    by rewrite dir_at_set_node, decide_False, Hd. }
  destruct (moved_rest (bury st ex) self old target new source) as (F & T & M & N).
  pose proof (tree_detach _ _ _ _ Htree _ _ _ Hex Hleaf) as Hcut.
  assert (Hsub : forall a d, below (cut_edge (edge_of st) target new) a d -> below (edge_of st) a d).
  { intros a d. apply rtc_subrel. intros p c [x Hx]. apply cut_edge_Some in Hx as [Hx _]. by exists x. }
  assert (Hedge : forall j x, edge_of (moved (bury st ex) self old target new source) j x
                   = move_edge (cut_edge (edge_of st) target new) self old target new source j x).
  { intros j x. rewrite moved_edge by done. unfold move_edge, cut_edge. case_decide; [done|]. case_decide; [done|]. apply bury_edge. }
  assert (Hsource : cut_edge (edge_of st) target new self old = Some source) by (by apply cut_edge_Some).
  assert (Hmove : tree_ok (root st) (move_edge (cut_edge (edge_of st) target new) self old target new source)
                    (move_meta (bury_meta (meta_of st) ex) source target) (node_of st)).
  { eapply (tree_move _ _ _ _ Hcut); [exact Hsource| | |exact Hv|by intros ?%Hsub].
    - unfold bury_meta. by rewrite decide_False.
    - unfold cut_edge. by rewrite decide_True. }
  eapply shape_inv; [exact Hinv| | | | | |by left].
  - eapply same_frame_trans; [apply bury_frame|exact F].
  - by rewrite T, bury_total.
  - intros j. by rewrite N, bury_node.
  - eapply tree_ok_ext; [exact Hedge| |done|exact Hmove]. intros j. rewrite M. unfold move_meta. by rewrite !bury_meta_of.
  - intros d x c Hx. destruct (decide (c = ex)) as [->|Hc]; [by left|]. right. destruct (decide (c = source)) as [->|Hcs].
    + exists target, new. rewrite Hedge. unfold move_edge. rewrite decide_False by naive_solver. by rewrite decide_True.
    + exists d, x. rewrite Hedge. unfold move_edge, cut_edge.
      rewrite !decide_False; [done|intros [-> ->]; congruence..].
Qed.

Lemma set_parent_guard st source target :
  (match dir_at st source with Some _ => set_parent st source target | None => st end) = set_parent st source target.
Proof. unfold set_parent. by destruct (dir_at st source). Qed.

(** What a rename that is not refused does. *)
Definition renamed (st : Ramfs) (self : Z) (old : Name) (target : Z) (new : Name) (source : Z) : Ramfs :=
  match edge_of st target new with
  | Some ex => drop_ref (moved (bury st ex) self old target new source) ex
  | None => moved st self old target new source
  end.

(** Every outcome of a rename: refused with the state unchanged, or done. *)
Lemma rename_spec st self old target new :
  inv st ->
  exists r, rename st self old target new = Some r
    /\ ((exists e, r = (Err e, st)) \/ (r = (Ok (), st) /\ self = target /\ old = new)
        \/ exists source pt, r = (Ok (), renamed st self old target new source)
            /\ edge_of st self old = Some source /\ meta_of st target = Some (pt, false) /\ valid_name new
            /\ ~ (self = target /\ old = new) /\ ~ below (edge_of st) source target
            /\ forall ex, edge_of st target new = Some ex -> ex <> source /\ ex <> self /\ forall y, edge_of st ex y = None).
Proof.
  intros Hinv. pose proof (i_tree _ _ Hinv) as Htree. unfold rename.
  destruct (dir_at st self) as [sd|] eqn:Hself; [|eauto]. destruct (check_name new) as [[]|] eqn:Hname; [|eauto].
  apply check_name_Ok in Hname. destruct (dir_at st target) as [td|] eqn:Htarget; [|eauto].
  assert (Hlookup : lookup st self old = ok_or (edge_of st self old) ENOENT)
    by (unfold lookup; by rewrite Hself, (edge_of_dir _ _ _ _ Hself)).
  rewrite Hlookup. destruct ((target =? self) && bool_decide (old = new)) eqn:Hsame; bool_to_prop.
  { destruct (edge_of st self old); simpl; eexists; (split; [done|]); [right; left; split_and!; congruence|left; eauto]. }
  assert (Hne : ~ (self = target /\ old = new)) by (intros [-> ->]; destruct Hsame as [H|H]; bool_to_prop; congruence).
  destruct (dead td) eqn:Hdead; [eauto|]. destruct (edge_of st self old) as [source|] eqn:Hs; cbn [ok_or]; [|eauto].
  assert (Hlive : meta_of st target = Some (parent td, false)) by (apply meta_dir; eauto).
  assert (Hwithin : exists b, (match dir_at st source with
         | Some _ => is_within (walk_fuel st) st (Some target) source
         | None => Some false end) = Some b /\ (b = false -> ~ below (edge_of st) source target)).
  { destruct (dir_at st source) as [d|] eqn:Hsd.
    - destruct (is_within_spec st target source Hinv ltac:(eauto)) as (b & -> & Hb). exists b. split; [done|]. intros -> H. by apply Hb in H.
    - exists false. split; [done|]. intros _ H. apply (up_below _ _ _ _ Htree) in H; [|eauto]. revert H.
      intros Hup. assert (Hd : is_Some (meta_of st target)) by (by rewrite Hlive). clear -Hup Hd Hsd Htree Hlive.
      assert (Hbelow : below (edge_of st) source target) by (apply (up_below _ _ _ _ Htree); eauto).
      apply rtc_inv in Hbelow as [->|(c & [x Hx] & _)].
      + unfold meta_of in Hd. rewrite Hsd in Hd. by destruct Hd.
      + by rewrite (not_dir_leaf _ _ _ Hsd) in Hx. }
  destruct Hwithin as (b & -> & Hb). destruct b; [eauto|]. specialize (Hb eq_refl).
  change (get_entry st target new) with (edge_of st target new).
  destruct (edge_of st target new) as [ex|] eqn:Hex.
  - assert (Hexs : ex <> source).
    { intros ->. exact (Hne (t_unique _ _ _ _ Htree _ _ _ _ _ Hs Hex)). }
    destruct (replace st self source ex) as [st1|e] eqn:Hrep; [|eauto].
    assert (Hprep : st1 = bury st ex /\ ex <> self /\ forall y, edge_of st ex y = None).
    { unfold replace in Hrep. destruct (kind st source) eqn:Hks, (kind st ex) eqn:Hke; try done;
        try (injection Hrep as <-; assert (Hnd : dir_at st ex = None)
          by (destruct (dir_at st ex) eqn:E; [|done]; assert (kind st ex = KDirectory) by (apply kind_dir; eauto); congruence);
        rewrite bury_file by done; split; [done|]; split; [intros ->; by rewrite Hnd in Hself|intros y; by apply not_dir_leaf]).
      destruct (dir_at st ex) as [exd|] eqn:Hexd; [|by apply kind_dir in Hke as [? Hke]; congruence].
      destruct (Z.eqb_spec ex self); [done|]. case_bool_decide as Hempty; [done|]. injection Hrep as <-.
      split; [done|]. split; [done|]. intros y. rewrite (edge_of_dir _ _ _ _ Hexd), Hempty. apply lookup_empty. }
    destruct Hprep as (-> & Hexself & Hleaf).
    assert (Hgetb : get_entry (bury st ex) target new = Some ex) by (by change (edge_of (bury st ex) target new = Some ex); rewrite bury_edge).
    rewrite Hgetb. eexists. split; [done|]. right. right. exists source, (parent td).
    assert (Htex : target <> ex) by (intros ->; by rewrite Hleaf in Hex).
    split; [|split_and!; try done; by intros ? [= <-]]. f_equal. unfold renamed, moved. rewrite Hex, set_parent_guard.
    rewrite drop_ref_remove_entry, drop_ref_set_parent; [done|done|done|].
    assert (Hbt : is_Some (dir_at (bury st ex) target)).
    { unfold bury. destruct (dir_at st ex); [|by rewrite Htarget]. by rewrite dir_at_set_node, decide_False, Htarget. }
    rewrite insert_entry_edge, bury_edge by done. rewrite decide_False by (intros [-> ->]; by destruct Hne). congruence.
  - eexists. split; [done|]. right. right. exists source, (parent td).
    change (get_entry st target new) with (edge_of st target new).
    split; [|split_and!; done]. f_equal. unfold renamed, moved. rewrite Hex. by rewrite set_parent_guard.
Qed.

Lemma ram_rename_inv st self old target new r : inv st -> rename st self old target new = Some r -> inv (snd r).
Proof.
  intros Hinv Hr. destruct (rename_spec st self old target new Hinv) as (r' & Hr' & Hcases). rewrite Hr in Hr'. injection Hr' as <-.
  destruct Hcases as [[e ->]|[(-> & _)|(source & pt & -> & Hs & Ht & Hv & Hne & Hb & Hex)]]; [done|done|]. simpl. unfold renamed.
  destruct (edge_of st target new) as [ex|] eqn:Hedge.
  - destruct (Hex ex eq_refl) as (_ & _ & Hleaf). apply drop_ref_inv. by eapply moved_over_inv.
  - by eapply moved_inv.
Qed.
