(* ===== verification/RamfsSpec.v ===== *)
(** * RamfsSpec: what the in-memory filesystem promises

    The tree and the byte count survive any sequence of operations, and every
    rename finishes; a rename moves a whole subtree; a write is read back, and
    one that does not fit changes nothing; an unlinked file lives as long as it
    is open. *)

From stdpp Require Import base list gmap numbers relations.
From S2P Require Import Prelude Errno Text Inode FsTree Ramfs RamfsInv.
Import Ramfs.
Local Open Scope Z_scope.

Module RamfsSpec.
(** ** Any sequence of operations *)

Inductive op : Type :=
| Create (dir : Z) (name : Name) (kind : InodeKind)
| Unlink (dir : Z) (name : Name)
| Rmdir (dir : Z) (name : Name)
| Rename (dir : Z) (old : Name) (target : Z) (new : Name)
| Write (ino offset : Z) (buf : list Z)
| Truncate (ino size : Z)
| Open (ino : Z)
| Close (ino : Z).

(** Offsets and sizes are [u64]s. *)
Definition op_ok (o : op) : Prop :=
  match o with Write _ offset _ => 0 <= offset | Truncate _ size => 0 <= size | _ => True end.

Definition run_op (try_reserve : Z -> bool) (st : Ramfs) (o : op) : option Ramfs :=
  match o with
  | Create d name k => Some (snd (create st d name k))
  | Unlink d name => Some (snd (unlink st d name))
  | Rmdir d name => Some (snd (rmdir st d name))
  | Rename d old t new => snd <$> rename st d old t new
  | Write i offset buf => Some (snd (write_at try_reserve st i offset buf))
  | Truncate i size => Some (snd (truncate try_reserve st i size))
  | Open i => Some (if bool_decide (is_Some (nodes st !! i)) then hold st i else st)
  | Close i => Some (if bool_decide (i ∈ held st) then unhold st i else st)
  end.
Fixpoint run_ops (try_reserve : Z -> bool) (st : Ramfs) (ops : list op) : option Ramfs :=
  match ops with
  | [] => Some st
  | o :: ops => run_op try_reserve st o ≫= fun st => run_ops try_reserve st ops
  end.

Lemma with_limit_inv fs_id limit : 0 <= limit -> inv (with_limit fs_id limit).
Proof.
  intros Hl. assert (Hdir : forall i, dir_at (with_limit fs_id limit) i = if decide (i = 1) then Some (mkDir None ∅ false) else None).
  { intros i. unfold dir_at. simpl. case_decide; [subst; by rewrite lookup_singleton_eq|]. by rewrite lookup_singleton_ne. }
  assert (Hmeta : forall i m, meta_of (with_limit fs_id limit) i = Some m -> i = 1 /\ m = (None, false)).
  { intros i m. unfold meta_of. rewrite Hdir. case_decide; simpl; [by intros [= <-]|done]. }
  assert (Hedge : forall d x, edge_of (with_limit fs_id limit) d x = None).
  { intros d x. unfold edge_of, get_entry. rewrite Hdir. case_decide; simpl; [apply lookup_empty|done]. }
  assert (Hnode : forall i, node_of (with_limit fs_id limit) i -> i = 1).
  { intros i [n Hn]. simpl in Hn. by apply lookup_singleton_Some in Hn as [<- _]. }
  constructor; simpl; try done.
  - constructor; simpl.
    + unfold meta_of. by rewrite Hdir.
    + intros d x c. by rewrite Hedge.
    + intros d x c p b. by rewrite Hedge.
    + intros d x d' x' c. by rewrite Hedge.
    + intros d p x _. apply Hedge.
    + intros d p [-> _]%Hmeta. done.
    + intros d p [-> _]%Hmeta. exists 0%nat. constructor.
    + intros d m [-> _]%Hmeta. eexists. apply lookup_singleton_eq.
  - intros i ->%Hnode. lia.
  - intros i ->%Hnode. by right; left.
  - intros i Hi. by apply not_elem_of_nil in Hi.
Qed.

Lemma ram_op_inv try_reserve st o :
  inv st -> op_ok o -> exists st', run_op try_reserve st o = Some st' /\ inv st'.
Proof.
  intros Hinv Ho. destruct o; simpl in *.
  - eexists. split; [done|]. by apply create_inv.
  - eexists. split; [done|]. by apply ram_unlink_inv.
  - eexists. split; [done|]. by apply ram_rmdir_inv.
  - destruct (rename_spec st dir old target new Hinv) as (r & Hr & _). rewrite Hr. eexists. split; [done|]. by eapply ram_rename_inv.
  - eexists. split; [done|]. by apply write_at_inv.
  - eexists. split; [done|]. by apply truncate_inv.
  - eexists. split; [done|]. case_bool_decide; [by apply hold_inv|done].
  - eexists. split; [done|]. case_bool_decide; [by apply unhold_inv|done].
Qed.

Lemma run_ops_inv try_reserve ops : forall st,
  inv st -> Forall op_ok ops -> exists st', run_ops try_reserve st ops = Some st' /\ inv st'.
Proof.
  induction ops as [|o ops IH]; intros st Hinv Ho; simpl; [eauto|]. apply Forall_cons in Ho as [Ho Hos].
  destruct (ram_op_inv try_reserve st o Hinv Ho) as (st1 & -> & H1). simpl. by apply IH.
Qed.

(** ** Paths *)

(** The inode a path of names leads to, from directory [d]. *)
Fixpoint resolve (edge : Edge) (d : Z) (p : list Name) : option Z :=
  match p with [] => Some d | x :: p => match edge d x with Some c => resolve edge c p | None => None end end.

Lemma resolve_below edge d p c : resolve edge d p = Some c -> below edge d c.
Proof.
  revert d. induction p as [|x p IH]; intros d; simpl; [intros [= <-]; apply rtc_refl|].
  destruct (edge d x) as [e|] eqn:He; [|done]. intros Hr%IH. eapply rtc_l; [by exists x|done].
Qed.

(** Paths from [d] are the same where no step below [d] changed. *)
Lemma resolve_same edge edge' d p :
  (forall e x, below edge d e -> edge' e x = edge e x) -> resolve edge' d p = resolve edge d p.
Proof.
  revert d. induction p as [|x p IH]; intros d Hsame; simpl; [done|]. rewrite (Hsame d x) by apply rtc_refl.
  destruct (edge d x) as [c|] eqn:Hc; [|done]. apply IH. intros e y He. apply Hsame. eapply rtc_l; [by exists x|done].
Qed.

(** Nothing lies below one of its own entries. *)
Lemma below_acyclic root edge meta node d x c :
  tree_ok root edge meta node -> edge d x = Some c -> ~ below edge c d.
Proof.
  intros Hok Hx Hb. destruct (edge_live _ _ _ _ Hok _ _ _ Hx) as [p Hp]. destruct (t_reach _ _ _ _ Hok _ _ Hp) as [n Hn].
  assert (Hdeep : forall a e, below edge a e -> forall m, depth root edge m a -> exists k, (m <= k)%nat /\ depth root edge k e).
  { intros a e. induction 1 as [a|a b e [y Hy] Hbe IH]; intros m Hm; [by exists m|].
    destruct (IH (S m)) as (k & Hk & Hd); [by econstructor|]. exists k. split; [lia|done]. }
  destruct (Hdeep _ _ Hb (S n)) as (k & Hk & Hd); [by econstructor|].
  pose proof (depth_functional _ _ _ _ Hok _ _ Hn _ Hd). lia.
Qed.

Lemma drop_ref_edge st ex d x : inv_upto (Some ex) st -> edge_of (drop_ref st ex) d x = edge_of st d x.
Proof.
  intros Hinv. unfold drop_ref. destruct (referenced st ex) eqn:Href; [done|].
  assert (Hdir : dir_at st ex = None \/ forall y, edge_of st ex y = None).
  { destruct (dir_at st ex) as [D|] eqn:HD; [|by left]. right. intros y. destruct (edge_of st ex y) as [c|] eqn:Hy; [|done].
    destruct (edge_live _ _ _ _ (i_tree _ _ Hinv) _ _ _ Hy) as [p Hp].
    assert (ex <> root st) by (intros ->; unfold referenced in Href; by rewrite Z.eqb_refl in Href).
    destruct (t_linked _ _ _ _ (i_tree _ _ Hinv) _ _ Hp ltac:(done)) as (q & z & Hz).
    assert (referenced st ex = true) by (apply referenced_spec; eauto). congruence. }
  assert (Hnone : edge_of st ex x = None) by (destruct Hdir as [H|H]; [by apply not_dir_leaf|apply H]).
  destruct (decide (d = ex)) as [->|Hne].
  - rewrite Hnone. apply not_dir_leaf. destruct (nodes st !! ex) as [[]|]; rewrite dir_at_eq; simpl; by rewrite lookup_delete_eq.
  - unfold edge_of, get_entry. destruct (nodes st !! ex) as [[]|]; rewrite !dir_at_eq; simpl; by rewrite lookup_delete_ne.
Qed.

(** The entries after a rename: the old name is gone, the new one leads to
    the source, and nothing else changed. *)
Lemma renamed_edge st self old target new source pt :
  inv st -> edge_of st self old = Some source -> meta_of st target = Some (pt, false) -> valid_name new ->
  ~ (self = target /\ old = new) -> ~ below (edge_of st) source target ->
  (forall ex, edge_of st target new = Some ex -> ex <> source /\ ex <> self /\ forall y, edge_of st ex y = None) ->
  forall d x, edge_of (renamed st self old target new source) d x = move_edge (edge_of st) self old target new source d x.
Proof.
  intros Hinv Hs Ht Hv Hne Hb Hex d x. unfold renamed.
  assert (Htd : is_Some (dir_at st target)) by (apply meta_dir in Ht as (? & -> & _); eauto).
  destruct (edge_of st target new) as [ex|] eqn:He; [|by apply moved_edge].
  destruct (Hex ex eq_refl) as (_ & _ & Hleaf). rewrite drop_ref_edge by (by eapply moved_over_inv).
  rewrite moved_edge.
  - unfold move_edge. case_decide; [done|]. case_decide; [done|]. apply bury_edge.
  - assert (target <> ex) by (intros ->; by rewrite Hleaf in He).
    unfold bury. destruct (dir_at st ex); [|done]. by rewrite dir_at_set_node, decide_False.
Qed.

(** ** Contents *)

(** The byte of a file at [i]: zero past its end. *)
Definition byte_at (data : list Z) (i : Z) : Z := default 0 (data !! Z.to_nat i).

Lemma byte_at_resized data n i : 0 <= i < n -> byte_at (resized data n) i = byte_at data i.
Proof.
  intros Hi. unfold byte_at, resized. destruct (decide (Z.to_nat i < length data)%nat) as [Hlt|Hge].
  - rewrite lookup_app_l by (rewrite length_take; lia). by rewrite lookup_take_lt by lia.
  - rewrite lookup_app_r by (rewrite length_take; lia). rewrite (lookup_ge_None_2 data) by lia.
    destruct (replicate _ _ !! _) eqn:Hr; [|done]. by apply lookup_replicate in Hr as [-> _].
Qed.

Lemma byte_at_overwrite data start buf i :
  0 <= start -> start + len buf <= len data -> 0 <= i ->
  byte_at (overwrite data start buf) i = if (start <=? i) && (i <? start + len buf) then byte_at buf (i - start) else byte_at data i.
Proof.
  unfold len. intros Hs Hl Hi. unfold byte_at, overwrite.
  destruct (Z.leb_spec start i) as [H1|H1], (Z.ltb_spec i (start + Z.of_nat (length buf))) as [H2|H2]; cbn [andb].
  - rewrite lookup_app_r by (rewrite length_take; lia). rewrite length_take, Nat.min_l by lia.
    rewrite lookup_app_l by lia. do 2 f_equal. lia.
  - rewrite lookup_app_r by (rewrite length_take; lia). rewrite length_take, Nat.min_l by lia.
    rewrite lookup_app_r by lia. rewrite lookup_drop. do 2 f_equal. lia.
  - rewrite lookup_app_l by (rewrite length_take; lia). by rewrite lookup_take_lt by lia.
  - rewrite lookup_app_l by (rewrite length_take; lia). by rewrite lookup_take_lt by lia.
Qed.

Lemma byte_at_written data offset buf i :
  0 <= offset -> 0 <= i ->
  byte_at (written data offset buf) i =
  if (offset <=? i) && (i <? offset + len buf) then byte_at buf (i - offset) else byte_at data i.
Proof.
  intros Ho Hi. unfold written. pose proof (len_nonneg buf). pose proof (len_nonneg data). case_if.
  - rewrite byte_at_overwrite by (rewrite ?len_resized; lia). destruct (_ && _) eqn:Hin; [done|].
    destruct (decide (i < offset + len buf)) as [Hlt|Hge]; [apply byte_at_resized; lia|].
    assert (Hlr : len (resized data (offset + len buf)) = offset + len buf) by (apply len_resized; lia).
    unfold byte_at. unfold len in *. rewrite !lookup_ge_None_2 by lia. done.
  - apply byte_at_overwrite; lia.
Qed.

(** A read of the bytes just written. *)
Lemma read_written data offset buf :
  0 <= offset -> take (length buf) (drop (Z.to_nat offset) (written data offset buf)) = buf.
Proof.
  intros Ho. unfold written, overwrite. pose proof (len_nonneg buf).
  set (base := if offset + len buf >? len data then resized data (offset + len buf) else data).
  assert (Hbase : offset <= len base).
  { unfold base. case_if; [rewrite len_resized|]; lia. }
  rewrite drop_app_length' by (rewrite length_take; unfold len in Hbase; lia). by rewrite take_app_length.
Qed.

Definition example_ops : list op :=
  [Create 1 [97] KDirectory; Create 2 [98] KFile; Write 3 0 [1; 2; 3]; Rename 2 [98] 1 [99]; Open 3; Unlink 1 [99]; Rmdir 1 [97]].
Definition always (n : Z) : bool := true.
Definition example_state : option Ramfs := run_ops always (with_limit 1 100) example_ops.
Example example_used : used <$> example_state = Some 3.
Proof. vm_compute. reflexivity. Qed.
Example example_closed : used <$> (example_state ≫= fun st => run_op always st (Close 3)) = Some 0.
Proof. vm_compute. reflexivity. Qed.

(** Whatever the sequence of creations, removals, renames, writes and
    opens, and whatever the heap refuses, every operation finishes (the walk up
    of a rename is never out of fuel) and the filesystem stays a tree: one
    entry leads to each inode, no directory lies below itself, live directories
    are reachable from the root and dead ones are empty, all names are valid;
    no inode is stored that nothing refers to; and the bytes charged are
    exactly the bytes stored, within the limit. *)
Theorem ramfs_invariant try_reserve fs_id lim ops :
  0 <= lim -> Forall op_ok ops ->
  exists st, run_ops try_reserve (with_limit fs_id lim) ops = Some st
    /\ tree_ok (root st) (edge_of st) (meta_of st) (node_of st)
    /\ used st = total (nodes st) /\ used st <= limit st
    /\ (forall i, node_of st i -> referenced st i = true).
Proof.
  intros Hl Ho. destruct (run_ops_inv try_reserve ops _ (with_limit_inv fs_id lim Hl) Ho) as (st & Hst & Hinv).
  exists st. split; [done|]. destruct Hinv as [Ht Hf Hu Hle Hr Hh]. do 3 (split; [done|]). intros i Hi.
  apply referenced_spec. destruct (Hr i Hi) as [|]; done.
Qed.

Lemma ramfs_invariant_witness : exists st, run_ops always (with_limit 1 100) example_ops = Some st /\ used st <= limit st.
Proof.
  destruct (ramfs_invariant always 1 100 example_ops) as (st & H1 & _ & _ & H2 & _).
  - lia.
  - repeat constructor; simpl; lia.
  - exists st. split; assumption.
Defined.

(** A rename that succeeds moves a whole subtree and nothing else: every
    path below the new name leads where the path below the old name led, the
    old name is gone, and every other entry is as it was. A rename that fails
    changes nothing. *)
Theorem ramfs_rename_moves st self old target new :
  inv st ->
  exists r st', rename st self old target new = Some (r, st')
    /\ match r with
       | Err _ => st' = st
       | Ok _ =>
           self = target /\ old = new /\ st' = st
           \/ (forall p, resolve (edge_of st') target (new :: p) = resolve (edge_of st) self (old :: p))
              /\ edge_of st' self old = None
              /\ forall d x, ~ (d = self /\ x = old) -> ~ (d = target /\ x = new) -> edge_of st' d x = edge_of st d x
       end.
Proof.
  intros Hinv. destruct (rename_spec st self old target new Hinv) as ([r st'] & Hr & Hcases). exists r, st'. split; [done|].
  destruct Hcases as [[e [= -> ->]]|[([= -> ->] & Hst & Hon)|(source & pt & [= -> ->] & Hs & Ht & Hv & Hne & Hb & Hex)]]; [done|by left|].
  right. pose proof (renamed_edge st self old target new source pt Hinv Hs Ht Hv Hne Hb Hex) as Hedge.
  assert (Hacyclic : ~ below (edge_of st) source self) by (eapply below_acyclic; [apply Hinv|exact Hs]).
  split; [|split].
  - intros p. cbn [resolve]. rewrite Hs, Hedge. unfold move_edge at 1. rewrite decide_False, decide_True by naive_solver.
    apply resolve_same. intros e x He. rewrite Hedge. unfold move_edge.
    rewrite !decide_False; [done|intros [-> _]; done..].
  - rewrite Hedge. unfold move_edge. by rewrite decide_True.
  - intros d x H1 H2. rewrite Hedge. unfold move_edge. by rewrite !decide_False.
Qed.

Lemma ramfs_rename_moves_witness :
  exists st, inv st /\ exists r st', rename st 2 [98] 1 [99] = Some (r, st') /\ r = Ok () /\ edge_of st' 1 [99] = Some 3.
Proof.
  destruct (run_ops_inv always [Create 1 [97] KDirectory; Create 2 [98] KFile] (with_limit 1 100)) as (st & Hst & Hinv).
  { apply with_limit_inv. lia. }
  { repeat constructor. }
  vm_compute in Hst. injection Hst as Hst. exists st. split; [exact Hinv|].
  destruct (ramfs_rename_moves st 2 [98] 1 [99] Hinv) as (r & st' & Hr & Hcases).
  exists r, st'. split; [exact Hr|]. subst st. vm_compute in Hr. injection Hr as <- <-. split; vm_compute; reflexivity.
Defined.

(** A write to a file is read back: the bytes written are where they were
    written, the others are unchanged (zero in a hole), the file grows to the
    end of the write if that is past its end, and nothing else in the
    filesystem changes but the byte count. A write that fails (no space, or an
    offset out of range) changes nothing. *)
Theorem ramfs_read_after_write try_reserve st i data offset buf :
  inv st -> nodes st !! i = Some (File data) -> 0 <= offset ->
  let '(r, st') := write_at try_reserve st i offset buf in
  match r with
  | Err _ => st' = st
  | Ok n =>
      n = len buf /\ read_at st' i offset (len buf) = Ok buf
      /\ exists data', nodes st' = <[i := File data']> (nodes st) /\ len data' = Z.max (len data) (offset + len buf)
         /\ used st' = used st + (len data' - len data) /\ used st' <= limit st'
         /\ forall k, 0 <= k ->
            byte_at data' k = if (offset <=? k) && (k <? offset + len buf) then byte_at buf (k - offset) else byte_at data k
  end.
Proof.
  intros Hinv Hi Ho. destruct (write_at_spec try_reserve st i data offset buf Hi Ho) as [[e ->]|[-> Hle]]; [done|].
  pose proof (len_written data offset buf Ho) as Hlen. split; [done|]. split.
  - unfold read_at. cbn [nodes set_used set_node set_nodes]. rewrite lookup_insert_eq.
    pose proof (len_nonneg buf). case_if.
    + assert (Hz : len buf = 0) by lia. unfold len in Hz. by rewrite (nil_length_inv buf) by lia.
    + rewrite Z.min_l by lia. unfold len at 1. rewrite Nat2Z.id. by rewrite read_written.
  - exists (written data offset buf). split; [done|]. split; [done|]. cbn [used set_used limit set_node set_nodes].
    split; [lia|]. split; [by apply Hle, Hinv|]. intros k Hk. by apply byte_at_written.
Qed.

Lemma ramfs_read_after_write_witness :
  exists st, inv st /\ nodes st !! 2 = Some (File [])
    /\ exists st', write_at always st 2 2 [7; 8] = (Ok 2, st') /\ read_at st' 2 2 2 = Ok [7; 8].
Proof.
  destruct (run_ops_inv always [Create 1 [97] KFile] (with_limit 1 100)) as (st & Hst & Hinv).
  { apply with_limit_inv. lia. }
  { repeat constructor. }
  vm_compute in Hst. injection Hst as Hst. exists st. split; [exact Hinv|].
  assert (Hi : nodes st !! 2 = Some (File [])) by (subst st; vm_compute; reflexivity).
  split; [exact Hi|]. pose proof (ramfs_read_after_write always st 2 [] 2 [7; 8] Hinv Hi ltac:(lia)) as H.
  destruct (write_at always st 2 2 [7; 8]) as [r st'] eqn:Hw. exists st'.
  assert (Hr : r = Ok 2) by (subst st; vm_compute in Hw; injection Hw; congruence). subst r. split; [reflexivity|].
  destruct H as (_ & H & _). exact H.
Defined.

(** An unlinked file that is open keeps its contents and its bytes, and
    when its last descriptor closes both are given back. *)
Theorem ramfs_unlinked_survives st d name i data :
  inv st -> edge_of st d name = Some i -> nodes st !! i = Some (File data) -> held st = [i] ->
  exists st', unlink st d name = (Ok (), st') /\ edge_of st' d name = None
    /\ nodes st' !! i = Some (File data) /\ used st' = used st
    /\ nodes (unhold st' i) !! i = None /\ used (unhold st' i) = used st - len data.
Proof.
  intros Hinv Hedge Hi Hheld. pose proof Hedge as Hedge'. unfold edge_of, get_entry in Hedge'.
  destruct (dir_at st d) as [D|] eqn:HD; [|done]. simpl in Hedge'.
  assert (Hdi : d <> i) by (intros ->; by rewrite (file_dir _ _ _ Hi) in HD).
  set (st1 := set_entries st d (delete name (entries D))).
  destruct (set_entries_frame st d (delete name (entries D))) as (H1 & H2 & H3 & H4 & H5 & H6). fold st1 in H1, H2, H3, H4, H5, H6.
  assert (Hst1 : nodes st1 !! i = Some (File data)).
  { unfold st1, set_entries. rewrite HD. simpl. by rewrite lookup_insert_ne. }
  assert (Hcut : forall q x, edge_of st1 q x = if decide (q = d) then delete name (entries D) !! x else edge_of st q x)
    by (intros; by apply set_entries_edge with D).
  assert (Hno : forall q x, edge_of st1 q x <> Some i).
  { intros q x. rewrite Hcut. case_decide as Hq; [subst q|].
    - rewrite lookup_delete_Some. intros [Hne Hx]. destruct (t_unique _ _ _ _ (i_tree _ _ Hinv) _ _ d x _ Hedge); [|done].
      by rewrite (edge_of_dir _ _ _ _ HD).
    - intros Hx. by destruct (t_unique _ _ _ _ (i_tree _ _ Hinv) _ _ _ _ _ Hedge Hx). }
  exists st1. split.
  - unfold unlink. rewrite HD, Hedge'. rewrite bool_decide_false by (unfold kind; by rewrite Hi). fold st1.
    unfold drop_ref. rewrite (proj2 (referenced_spec st1 i)); [done|]. right. left. rewrite H6, Hheld. by left.
  - split; [rewrite Hcut, decide_True by done; apply lookup_delete_eq|]. split; [done|]. split; [done|].
    assert (Hun : unhold st1 i = release (set_nodes (set_held st1 []) (delete i (nodes st1))) (len data)).
    { unfold unhold. rewrite H6, Hheld. simpl. rewrite Z.eqb_refl. unfold drop_ref.
      destruct (referenced (set_held st1 []) i) eqn:Hr; [|simpl; by rewrite Hst1].
      apply referenced_spec in Hr as [Hr|[Hr|(q & x & Hx)]]; [|by apply not_elem_of_nil in Hr|by destruct (Hno q x)].
      destruct (t_child _ _ _ _ (i_tree _ _ Hinv) _ _ _ Hedge) as [Hroot _]. simpl in Hr. congruence. }
    rewrite Hun. simpl. split; [apply lookup_delete_eq|]. by rewrite H3.
Qed.

Lemma ramfs_unlinked_survives_witness :
  exists st st', inv st /\ unlink st 1 [97] = (Ok (), st') /\ used st' = 3 /\ used (unhold st' 2) = 0.
Proof.
  destruct (run_ops_inv always [Create 1 [97] KFile; Write 2 0 [1; 2; 3]; Open 2] (with_limit 1 100)) as (st & Hst & Hinv).
  { apply with_limit_inv. lia. }
  { repeat constructor; simpl; lia. }
  vm_compute in Hst. injection Hst as Hst. exists st.
  destruct (ramfs_unlinked_survives st 1 [97] 2 [1; 2; 3] Hinv) as (st' & H1 & _ & _ & H2 & _ & H3);
    [subst st; vm_compute; reflexivity..|].
  exists st'. split; [exact Hinv|]. split; [exact H1|]. rewrite H2, H3. subst st. vm_compute. split; reflexivity.
Defined.
End RamfsSpec.
