(* ===== verification/Vfs.v ===== *)
(** * Vfs: paths, mounts and open files

    [kernel/src/fs/vfs.rs] and [kernel/src/fs/path.rs], over any filesystems
    ([Inodes]). The walk's stack of directories is its top and the rest (it is
    never empty). Open file descriptions are shared: descriptors hold their
    numbers, in one table per process, and a description is dropped, with the
    reference it has to its inode, when no table has it any more. *)

From stdpp Require Import base gmap numbers list.
From S2P Require Import Prelude Errno Text Inode FileTable.
Local Open Scope Z_scope.

Definition ROOT : list Z := [SLASH].

(** ** path.rs *)

Module Path.
Fixpoint resolve_loop (components : list (list Z)) (acc : list (list Z)) : list (list Z) :=
  match components with
  | [] => acc
  | c :: components =>
      if bool_decide (c = []) || bool_decide (c = [DOT]) then resolve_loop components acc
      else if bool_decide (c = [DOT; DOT]) then resolve_loop components (removelast acc)
      else resolve_loop components (acc ++ [c])
  end.
(** [components.join("/")]. *)
Fixpoint join_slash (components : list (list Z)) : list Z :=
  match components with
  | [] => []
  | [c] => c
  | c :: components => c ++ [SLASH] ++ join_slash components
  end.
Definition resolve (cwd path : list Z) : list Z :=
  let start := if bool_decide (head path = Some SLASH) then [] else cwd in
  SLASH :: join_slash (resolve_loop (split SLASH start ++ split SLASH path) []).
End Path.

Module Vfs.
Section Vfs.
Context {W I : Type} `{!Inodes W I}.

Record Mount : Type := mkMount { m_path : list Z; m_root : I; m_name : list Z }.

Definition join (parent name : list Z) : list Z :=
  if bool_decide (parent = ROOT) then ROOT ++ name else parent ++ [SLASH] ++ name.

(** ** Walking *)

Definition mounted_root (mounts : list Mount) (path : list Z) : option I :=
  m_root <$> List.find (fun m => bool_decide (m_path m = path)) mounts.
Definition is_mount_point (mounts : list Mount) (path : list Z) : bool :=
  existsb (fun m => bool_decide (m_path m = path)) mounts.

Definition Frame : Type := (list Z * I)%type.

(** One name below [current]. *)
Definition enter (w : W) (mounts : list Mount) (current : Frame) (name : list Z) : result Errno Frame :=
  if len name >? NAME_MAX then Err ENAMETOOLONG
  else if negb (bool_decide (i_kind w (snd current) = KDirectory)) then Err ENOTDIR
  else
    let child_path := join (fst current) name in
    match mounted_root mounts child_path with
    | Some mounted => let? _ := i_lookup w (snd current) name in Ok (child_path, mounted)
    | None => let? child := i_lookup w (snd current) name in Ok (child_path, child)
    end.

Fixpoint walk_loop (w : W) (mounts : list Mount) (components : list (list Z)) (top : Frame) (rest : list Frame)
  : result Errno Frame :=
  match components with
  | [] => Ok top
  | c :: components =>
      if bool_decide (c = []) || bool_decide (c = [DOT]) then walk_loop w mounts components top rest
      else if bool_decide (c = [DOT; DOT]) then
        match rest with
        | [] => walk_loop w mounts components top rest
        | up :: rest => walk_loop w mounts components up rest
        end
      else
        let? child := enter w mounts top c in
        walk_loop w mounts components child (top :: rest)
  end.

Definition walk_from_root (w : W) (mounts : list Mount) (path : list Z) : result Errno (I * list Z) :=
  let? root := ok_or (mounted_root mounts ROOT) ENOENT in
  let? found := walk_loop w mounts (split SLASH path) (ROOT, root) [] in
  if bool_decide (last path = Some SLASH) && negb (bool_decide (i_kind w (snd found) = KDirectory)) then Err ENOTDIR
  else Ok (snd found, fst found).

Definition walk (w : W) (mounts : list Mount) (path : list Z) : result Errno (I * list Z) :=
  if bool_decide (path = []) then Err ENOENT else walk_from_root w mounts path.

(** [trim_end_matches('/')], on the reversed path. *)
Fixpoint drop_slashes (reversed : list Z) : list Z :=
  match reversed with [] => [] | b :: rest => if b =? SLASH then drop_slashes rest else reversed end.
Definition trim_end (path : list Z) : list Z := reverse (drop_slashes (reverse path)).

(** [rfind('/')]: the parts before and after the last slash. *)
Fixpoint rsplit (path : list Z) : option (list Z * list Z) :=
  match path with
  | [] => None
  | b :: path =>
      match rsplit path with
      | Some (directory, name) => Some (b :: directory, name)
      | None => if b =? SLASH then Some ([], path) else None
      end
  end.

Record Parent : Type := mkParent { p_directory : I; p_name : list Z; p_path : list Z }.

Definition parent (w : W) (mounts : list Mount) (path : list Z) : result Errno Parent :=
  if bool_decide (path = []) then Err ENOENT else
  let trimmed := trim_end path in
  let '(directory_path, name) := match rsplit trimmed with Some p => p | None => ([], trimmed) end in
  if bool_decide (name = []) then Err EBUSY
  else if bool_decide (name = [DOT]) || bool_decide (name = [DOT; DOT]) then Err EINVAL
  else if len name >? NAME_MAX then Err ENAMETOOLONG
  else
    let? '(directory, directory_normalized) := walk_from_root w mounts directory_path in
    if negb (bool_decide (i_kind w directory = KDirectory)) then Err ENOTDIR
    else Ok (mkParent directory name (join directory_normalized name)).

(** ** Open files *)

Record OpenFile : Type := mkOpenFile { of_inode : I; of_flags : Z; of_offset : Z }.

Record Fs : Type := mkFs {
  world : W;
  mounts : list Mount;
  files : gmap nat OpenFile;
  next_file : nat;
  tables : gmap Z (list (option nat));
}.

Definition set_world (fs : Fs) (w : W) : Fs := mkFs w (mounts fs) (files fs) (next_file fs) (tables fs).
Definition set_table (fs : Fs) (pid : Z) (t : list (option nat)) : Fs :=
  mkFs (world fs) (mounts fs) (files fs) (next_file fs) (<[pid := t]> (tables fs)).
Definition set_file (fs : Fs) (id : nat) (f : OpenFile) : Fs :=
  mkFs (world fs) (mounts fs) (<[id := f]> (files fs)) (next_file fs) (tables fs).
Definition table (fs : Fs) (pid : Z) : list (option nat) := default [] (tables fs !! pid).

(** [Arc<OpenFile>] lives while a table has it. *)
Definition open_in (id : nat) (t : list (option nat)) : bool := bool_decide (Some id ∈ t).
Definition file_open (fs : Fs) (id : nat) : bool := existsb (fun e => open_in id (snd e)) (map_to_list (tables fs)).
Definition drop_file (fs : Fs) (id : nat) : Fs :=
  if file_open fs id then fs
  else
    match files fs !! id with
    | Some f => mkFs (i_release (world fs) (of_inode f)) (mounts fs) (delete id (files fs)) (next_file fs) (tables fs)
    | None => fs
    end.

(** [files.get(fd)]. *)
Definition get_file (fs : Fs) (pid : Z) (fd : nat) : result Errno (nat * OpenFile) :=
  let? id := FileTable.get (table fs pid) fd in
  ok_or ((fun f => (id, f)) <$> files fs !! id) EBADF.

Definition with_offset (f : OpenFile) (offset : Z) : OpenFile := mkOpenFile (of_inode f) (of_flags f) offset.

(** ** Operations *)

Definition mount (fs : Fs) (path : list Z) (fs_root : I) (name : list Z) : result Errno unit * Fs :=
  let normalized :=
    if bool_decide (mounts fs = []) then if negb (bool_decide (path = ROOT)) then Err ENOENT else Ok ROOT
    else
      let? '(inode, normalized) := walk (world fs) (mounts fs) path in
      if negb (bool_decide (i_kind (world fs) inode = KDirectory)) then Err ENOTDIR else Ok normalized in
  match normalized with
  | Err e => (Err e, fs)
  | Ok normalized =>
      if is_mount_point (mounts fs) normalized then (Err EBUSY, fs)
      else (Ok (), mkFs (world fs) (mounts fs ++ [mkMount normalized fs_root name]) (files fs) (next_file fs) (tables fs))
  end.

Definition stat (fs : Fs) (path : list Z) : result Errno Stat :=
  let? '(inode, _) := walk (world fs) (mounts fs) path in Ok (i_stat (world fs) inode).

(** The inode [open] finds or creates. *)
Definition open_inode (fs : Fs) (path : list Z) (flags : Z) : result Errno I * Fs :=
  match walk (world fs) (mounts fs) path with
  | Ok (inode, _) =>
      if Flags.contains flags (Z.lor Flags.CREATE Flags.EXCL) then (Err EEXIST, fs) else (Ok inode, fs)
  | Err e =>
      if bool_decide (e = ENOENT) && Flags.contains flags Flags.CREATE then
        match parent (world fs) (mounts fs) path with
        | Err e => (Err e, fs)
        | Ok p =>
            match i_create (world fs) (p_directory p) (p_name p) KFile with
            | (Ok inode, w) => (Ok inode, set_world fs w)
            | (Err e, w) =>
                if bool_decide (e = EEXIST) && negb (Flags.contains flags Flags.EXCL)
                then (i_lookup w (p_directory p) (p_name p), set_world fs w)
                else (Err e, set_world fs w)
            end
        end
      else (Err e, fs)
  end.

(** The checks by kind, with the truncation. *)
Definition open_check (fs : Fs) (inode : I) (flags : Z) : result Errno unit * Fs :=
  match i_kind (world fs) inode with
  | KDirectory =>
      if Flags.contains flags Flags.WRITE || Flags.contains flags Flags.TRUNC then (Err EISDIR, fs) else (Ok (), fs)
  | k =>
      if Flags.contains flags Flags.DIRECTORY then (Err ENOTDIR, fs)
      else if bool_decide (k = KFile) && (Flags.contains flags Flags.TRUNC && Flags.contains flags Flags.WRITE) then
        let '(r, w) := i_truncate (world fs) inode 0 in (r, set_world fs w)
      else (Ok (), fs)
  end.

(** [files.insert(OpenFile::new(inode, flags))]; a description that finds no
    descriptor is dropped at once. *)
Definition install (fs : Fs) (pid : Z) (inode : I) (flags : Z) : result Errno nat * Fs :=
  let id := next_file fs in
  match FileTable.insert (table fs pid) id with
  | (Ok fd, t) =>
      (Ok fd, mkFs (i_hold (world fs) inode) (mounts fs) (<[id := mkOpenFile inode flags 0]> (files fs)) (S id)
                (<[pid := t]> (tables fs)))
  | (Err e, _) => (Err e, set_world fs (i_release (i_hold (world fs) inode) inode))
  end.

Definition open (fs : Fs) (pid : Z) (path : list Z) (flags : Z) : result Errno nat * Fs :=
  if negb (Flags.contains flags Flags.READ) && negb (Flags.contains flags Flags.WRITE) then (Err EINVAL, fs)
  else
    match open_inode fs path flags with
    | (Err e, fs) => (Err e, fs)
    | (Ok inode, fs) =>
        match open_check fs inode flags with
        | (Err e, fs) => (Err e, fs)
        | (Ok _, fs) =>
            match i_open (world fs) inode flags with
            | (Err e, w) => (Err e, set_world fs w)
            | (Ok replacement, w) => install (set_world fs w) pid (default inode replacement) flags
            end
        end
    end.

Definition close (fs : Fs) (pid : Z) (fd : nat) : result Errno unit * Fs :=
  match FileTable.remove (table fs pid) fd with
  | (Err e, _) => (Err e, fs)
  | (Ok id, t) => (Ok (), drop_file (set_table fs pid t) id)
  end.

Definition dup (fs : Fs) (pid : Z) (fd : nat) : result Errno nat * Fs :=
  let '(r, t) := FileTable.dup (table fs pid) fd in (r, set_table fs pid t).

Definition dup2 (fs : Fs) (pid : Z) (old new : nat) : result Errno nat * Fs :=
  let previous := mjoin (table fs pid !! new) in
  let '(r, t) := FileTable.dup2 (table fs pid) old new in
  let fs := set_table fs pid t in
  match r, previous with
  | Ok _, Some id => (r, drop_file fs id)
  | _, _ => (r, fs)
  end.

Definition fork (fs : Fs) (pid child : Z) : Fs := set_table fs child (FileTable.fork (table fs pid)).

Definition read (fs : Fs) (pid : Z) (fd : nat) (count : Z) : result Errno (list Z) * Fs :=
  match get_file fs pid fd with
  | Err e => (Err e, fs)
  | Ok (id, f) =>
      if negb (Flags.contains (of_flags f) Flags.READ) then (Err EBADF, fs)
      else if bool_decide (i_kind (world fs) (of_inode f) = KDirectory) then (Err EISDIR, fs)
      else
        match i_read_at (world fs) (of_inode f) (of_offset f) count with
        | (Err e, w) => (Err e, set_world fs w)
        | (Ok bytes, w) => (Ok bytes, set_file (set_world fs w) id (with_offset f (of_offset f + len bytes)))
        end
  end.

Definition write (fs : Fs) (pid : Z) (fd : nat) (buf : list Z) : result Errno Z * Fs :=
  match get_file fs pid fd with
  | Err e => (Err e, fs)
  | Ok (id, f) =>
      if negb (Flags.contains (of_flags f) Flags.WRITE) then (Err EBADF, fs)
      else
        let offset := if Flags.contains (of_flags f) Flags.APPEND then st_size (i_stat (world fs) (of_inode f)) else of_offset f in
        let fs := set_file fs id (with_offset f offset) in
        match i_write_at (world fs) (of_inode f) offset buf with
        | (Err e, w) => (Err e, set_world fs w)
        | (Ok count, w) => (Ok count, set_file (set_world fs w) id (with_offset f (offset + count)))
        end
  end.

Definition read_at (fs : Fs) (pid : Z) (fd : nat) (offset count : Z) : result Errno (list Z) * Fs :=
  match get_file fs pid fd with
  | Err e => (Err e, fs)
  | Ok (_, f) =>
      if negb (Flags.contains (of_flags f) Flags.READ) then (Err EBADF, fs)
      else
        match i_kind (world fs) (of_inode f) with
        | KDirectory => (Err EISDIR, fs)
        | KCharDevice => (Err ESPIPE, fs)
        | KFile => let '(r, w) := i_read_at (world fs) (of_inode f) offset count in (r, set_world fs w)
        end
  end.

(** [as i64] and [i64::checked_add]. *)
Definition I64_MAX : Z := 2 ^ 63 - 1.
Definition as_i64 (v : Z) : Z := if v <=? I64_MAX then v else v - 2 ^ 64.
Definition checked_add_i64 (a b : Z) : option Z :=
  if (- 2 ^ 63 <=? a + b) && (a + b <=? I64_MAX) then Some (a + b) else None.

Definition lseek (fs : Fs) (pid : Z) (fd : nat) (offset : Z) (whence : Whence) : result Errno Z * Fs :=
  match get_file fs pid fd with
  | Err e => (Err e, fs)
  | Ok (id, f) =>
      if negb (i_seekable (world fs) (of_inode f)) then (Err ESPIPE, fs)
      else
        let base := match whence with
                    | SeekSet => 0
                    | SeekCurrent => as_i64 (of_offset f)
                    | SeekEnd => as_i64 (st_size (i_stat (world fs) (of_inode f)))
                    end in
        match checked_add_i64 base offset with
        | None => (Err EINVAL, fs)
        | Some target => if target <? 0 then (Err EINVAL, fs) else (Ok target, set_file fs id (with_offset f target))
        end
  end.

Definition fstat (fs : Fs) (pid : Z) (fd : nat) : result Errno Stat :=
  let? '(_, f) := get_file fs pid fd in Ok (i_stat (world fs) (of_inode f)).

Definition ftruncate (fs : Fs) (pid : Z) (fd : nat) (size : Z) : result Errno unit * Fs :=
  match get_file fs pid fd with
  | Err e => (Err e, fs)
  | Ok (_, f) =>
      if negb (Flags.contains (of_flags f) Flags.WRITE) then (Err EBADF, fs)
      else
        match i_kind (world fs) (of_inode f) with
        | KDirectory => (Err EISDIR, fs)
        | KCharDevice => (Err EINVAL, fs)
        | KFile => let '(r, w) := i_truncate (world fs) (of_inode f) size in (r, set_world fs w)
        end
  end.

Definition readdir (fs : Fs) (pid : Z) (fd : nat) : result Errno (list DirEntry) * Fs :=
  match get_file fs pid fd with
  | Err e => (Err e, fs)
  | Ok (id, f) =>
      if negb (bool_decide (i_kind (world fs) (of_inode f) = KDirectory)) then (Err ENOTDIR, fs)
      else
        match i_entries (world fs) (of_inode f) with
        | Err e => (Err e, fs)
        | Ok entries =>
            let remaining := drop (Z.to_nat (of_offset f)) entries in
            (Ok remaining, set_file fs id (with_offset f (of_offset f + Z.of_nat (length remaining))))
        end
  end.

(** [readdir_with]: [take] is a closure over its own state. *)
Fixpoint offer {S : Type} (take : S -> Z -> DirEntry -> bool * S) (s : S) (position : Z) (entries : list DirEntry) : S * Z :=
  match entries with
  | [] => (s, position)
  | e :: entries =>
      let '(accepted, s) := take s position e in
      if accepted then offer take s (position + 1) entries else (s, position)
  end.
Definition readdir_with {S : Type} (fs : Fs) (pid : Z) (fd : nat) (take : S -> Z -> DirEntry -> bool * S) (s : S)
  : result Errno unit * S * Fs :=
  match get_file fs pid fd with
  | Err e => (Err e, s, fs)
  | Ok (id, f) =>
      if negb (bool_decide (i_kind (world fs) (of_inode f) = KDirectory)) then (Err ENOTDIR, s, fs)
      else
        match i_entries (world fs) (of_inode f) with
        | Err e => (Err e, s, fs)
        | Ok entries =>
            let '(s, position) := offer take s (of_offset f) (drop (Z.to_nat (of_offset f)) entries) in
            (Ok (), s, set_file fs id (with_offset f position))
        end
  end.

Definition mkdir (fs : Fs) (path : list Z) : result Errno unit * Fs :=
  match parent (world fs) (mounts fs) path with
  | Err e => (Err (if bool_decide (e = EBUSY) || bool_decide (e = EINVAL) then EEXIST else e), fs)
  | Ok p =>
      let '(r, w) := i_create (world fs) (p_directory p) (p_name p) KDirectory in
      (result_map (fun _ => ()) r, set_world fs w)
  end.

Definition unlink (fs : Fs) (path : list Z) : result Errno unit * Fs :=
  match parent (world fs) (mounts fs) path with
  | Err e => (Err (if bool_decide (e = EBUSY) then EISDIR else e), fs)
  | Ok p =>
      if is_mount_point (mounts fs) (p_path p) then (Err EBUSY, fs)
      else let '(r, w) := i_unlink (world fs) (p_directory p) (p_name p) in (r, set_world fs w)
  end.

Definition rmdir (fs : Fs) (path : list Z) : result Errno unit * Fs :=
  match parent (world fs) (mounts fs) path with
  | Err e => (Err e, fs)
  | Ok p =>
      if is_mount_point (mounts fs) (p_path p) then (Err EBUSY, fs)
      else let '(r, w) := i_rmdir (world fs) (p_directory p) (p_name p) in (r, set_world fs w)
  end.

Definition rename (fs : Fs) (old new : list Z) : result Errno unit * Fs :=
  match parent (world fs) (mounts fs) old with
  | Err e => (Err e, fs)
  | Ok source =>
      match parent (world fs) (mounts fs) new with
      | Err e => (Err e, fs)
      | Ok target =>
          if is_mount_point (mounts fs) (p_path source) || is_mount_point (mounts fs) (p_path target) then (Err EBUSY, fs)
          else if negb (st_fs_id (i_stat (world fs) (p_directory source)) =? st_fs_id (i_stat (world fs) (p_directory target)))
          then (Err EXDEV, fs)
          else
            let '(r, w) := i_rename (world fs) (p_directory source) (p_name source) (p_directory target) (p_name target) in
            (r, set_world fs w)
      end
  end.

Definition lookup (fs : Fs) (path : list Z) : result Errno I :=
  let? '(inode, _) := walk (world fs) (mounts fs) path in Ok inode.
End Vfs.
Arguments Mount : clear implicits.
Arguments OpenFile : clear implicits.
Arguments Fs : clear implicits.
End Vfs.

(** * Path resolution

    The walk of [vfs.rs] against the purely textual normalisation of
    [path.rs]: where the walk succeeds, its normalised path is the resolved
    one, and walking that path again finds the same inode. *)

(** The absolute path of a list of components. *)
Definition path_of (cs : list (list Z)) : list Z := SLASH :: Path.join_slash cs.
(** An absolute path with no empty, [.] or [..] component. *)
Definition normal (p : list Z) : Prop := exists cs, p = path_of cs /\ Forall good_component cs.

Lemma join_slash_cons c d cs : Path.join_slash (c :: d :: cs) = c ++ [SLASH] ++ Path.join_slash (d :: cs).
Proof. done. Qed.

Lemma join_slash_snoc cs c : cs <> [] -> Path.join_slash (cs ++ [c]) = Path.join_slash cs ++ [SLASH] ++ c.
Proof.
  induction cs as [|a cs IH]; intros Hne; [done|]. destruct cs as [|b cs]; [done|].
  change ((a :: b :: cs) ++ [c]) with (a :: (b :: cs) ++ [c]). destruct ((b :: cs) ++ [c]) as [|d ds] eqn:Hd; [done|].
  rewrite join_slash_cons, IH, join_slash_cons by done. by rewrite <- !app_assoc.
Qed.

Lemma join_slash_nil cs : Forall good_component cs -> Path.join_slash cs = [] -> cs = [].
Proof.
  destruct cs as [|c cs]; [done|]. intros [[Hc _] _]%Forall_cons. destruct cs; simpl; [done|]. by intros [? _]%app_eq_nil.
Qed.

(** Splitting a normal path gives its components back. *)
Lemma split_join_slash cs :
  Forall good_component cs -> cs <> [] -> split SLASH (Path.join_slash cs) = cs.
Proof.
  induction cs as [|c cs IH] using rev_ind; intros Hg Hne; [done|]. apply Forall_app in Hg as [Hg Hc].
  apply Forall_cons in Hc as [Hc _]. destruct (decide (cs = [])) as [->|Hcs]; [apply split_fresh, Hc|].
  rewrite join_slash_snoc by done. change ([SLASH] ++ c) with (SLASH :: c). rewrite split_app by apply Hc. by rewrite IH.
Qed.

Lemma last_path_of cs : Forall good_component cs -> cs <> [] -> last (path_of cs) <> Some SLASH.
Proof.
  intros Hg Hne. destruct cs as [|c cs _] using rev_ind; [done|]. apply Forall_app in Hg as [_ Hc].
  apply Forall_cons in Hc as [(Hcn & _ & _ & Hs) _]. unfold path_of.
  assert (Hl : exists pre, SLASH :: Path.join_slash (cs ++ [c]) = pre ++ c).
  { destruct (decide (cs = [])) as [->|Hcs]; [by exists [SLASH]|]. rewrite join_slash_snoc by done.
    exists (SLASH :: Path.join_slash cs ++ [SLASH]). simpl. by rewrite <- app_assoc. }
  destruct Hl as [pre ->]. destruct c as [|b c _] using rev_ind; [done|]. rewrite app_assoc, last_snoc. intros [= ->].
  apply Hs, elem_of_app. right. apply list_elem_of_singleton. done.
Qed.

Section Walk.
Context {W I : Type} `{!Inodes W I}.
Implicit Types (w : W) (mounts : list (Vfs.Mount I)).

Lemma join_path_of cs name :
  Forall good_component cs -> Vfs.join (path_of cs) name = path_of (cs ++ [name]).
Proof.
  intros Hg. unfold Vfs.join, path_of, ROOT. case_bool_decide as He.
  - injection He as He. apply join_slash_nil in He; [|done]. by subst.
  - destruct (decide (cs = [])) as [->|Hcs]; [done|]. by rewrite join_slash_snoc.
Qed.

(** The stack of a walk: the components so far, each entered from the one
    below it. *)
Inductive stack_ok w mounts (root : I) : list (list Z) -> Vfs.Frame -> list Vfs.Frame -> Prop :=
| stack_root : stack_ok w mounts root [] (ROOT, root) []
| stack_push cs name top rest child :
    stack_ok w mounts root cs top rest -> good_component name -> Vfs.enter w mounts top name = Ok child ->
    stack_ok w mounts root (cs ++ [name]) child (top :: rest).

Lemma stack_good w mounts root cs top rest :
  stack_ok w mounts root cs top rest -> Forall good_component cs /\ fst top = path_of cs.
Proof.
  induction 1 as [|cs name top rest child Hs [IHg IHp] Hn He]; [done|].
  split; [apply Forall_app; by split; [|constructor]|].
  unfold Vfs.enter in He. rewrite IHp, join_path_of in He by done. repeat case_if_in He; try done.
  destruct (Vfs.mounted_root _ _), (i_lookup _ _ _); try done; by injection He as <-.
Qed.

Lemma removelast_snoc {A} (l : list A) x : removelast (l ++ [x]) = l.
Proof. apply removelast_last. Qed.

Lemma walk_loop_stack w mounts root components : forall cs top rest found,
  stack_ok w mounts root cs top rest -> (forall c, c ∈ components -> (SLASH ∉ c)) ->
  Vfs.walk_loop w mounts components top rest = Ok found ->
  exists rest', stack_ok w mounts root (Path.resolve_loop components cs) found rest'.
Proof.
  induction components as [|c components IH]; intros cs top rest found Hs Hc; cbn [Vfs.walk_loop Path.resolve_loop].
  { intros [= <-]. by exists rest. }
  assert (Hcs : forall d, d ∈ components -> (SLASH ∉ d)) by (intros d Hd; apply Hc; by right).
  case_if; [by apply IH|]. case_if.
  - inversion Hs as [|cs' name top' rest' child Hs' Hn He]; subst; [by apply IH|]. rewrite removelast_snoc. by apply IH.
  - destruct (Vfs.enter w mounts top c) as [child|] eqn:He; [|done]. apply IH; [|done].
    constructor; [done| |done]. split; [done|]. split; [tauto|]. split; [done|]. apply Hc. left.
Qed.

(** Walking the components of a stack leads to its top. *)
Lemma walk_loop_replay w mounts root cs top rest :
  stack_ok w mounts root cs top rest -> forall more,
  Vfs.walk_loop w mounts (cs ++ more) (ROOT, root) [] = Vfs.walk_loop w mounts more top rest.
Proof.
  induction 1 as [|cs name top rest child Hs IH Hn He]; intros more; [done|].
  rewrite <- app_assoc, IH. cbn [app Vfs.walk_loop]. destruct Hn as (H1 & H2 & H3 & _).
  rewrite !bool_decide_false by done. cbn [orb]. by rewrite He.
Qed.

Lemma resolve_loop_app a b acc : Path.resolve_loop (a ++ b) acc = Path.resolve_loop b (Path.resolve_loop a acc).
Proof.
  revert acc. induction a as [|c a IH]; intros acc; cbn [app Path.resolve_loop]; [done|]. by repeat case_if.
Qed.

Lemma resolve_root path : Path.resolve ROOT path = path_of (Path.resolve_loop (split SLASH path) []).
Proof.
  unfold Path.resolve, path_of. rewrite resolve_loop_app. by case_bool_decide.
Qed.

Lemma walk_spec w mounts path inode n :
  Vfs.walk w mounts path = Ok (inode, n) ->
  exists root rest, Vfs.mounted_root mounts ROOT = Some root
    /\ stack_ok w mounts root (Path.resolve_loop (split SLASH path) []) (n, inode) rest.
Proof.
  unfold Vfs.walk, Vfs.walk_from_root. case_if; [done|]. destruct (Vfs.mounted_root mounts ROOT) as [root|]; cbn [ok_or]; [|done].
  destruct (Vfs.walk_loop _ _ _ _ _) as [[p i]|] eqn:Hw; [|done]. case_if; [done|]. intros [= <- <-]. exists root.
  destruct (walk_loop_stack w mounts root (split SLASH path) [] _ [] _ (stack_root _ _ _) (split_no_sep SLASH path) Hw) as [rest Hs].
  by exists rest.
Qed.

Lemma walk_replay w mounts root cs n inode rest :
  Vfs.mounted_root mounts ROOT = Some root -> i_kind w root = KDirectory ->
  stack_ok w mounts root cs (n, inode) rest -> Vfs.walk w mounts n = Ok (inode, n).
Proof.
  intros Hm Hk Hs. destruct (stack_good _ _ _ _ _ _ Hs) as [Hg Hn]. simpl in Hn.
  unfold Vfs.walk, Vfs.walk_from_root. rewrite bool_decide_false by (by rewrite Hn). rewrite Hm. cbn [ok_or].
  assert (Hwalk : Vfs.walk_loop w mounts (split SLASH n) (ROOT, root) [] = Ok (n, inode)).
  { rewrite Hn at 1. destruct (decide (cs = [])) as [->|Hne].
    - inversion Hs as [Hx|cs' ? ? ? ? ? ? ? Hnil]; subst; [done|]. by apply app_eq_nil in Hnil as [_ ?].
    - unfold path_of. cbn [split]. rewrite Z.eqb_refl, split_join_slash by done. cbn [Vfs.walk_loop].
      rewrite bool_decide_true by done. cbn [orb]. rewrite <- (app_nil_r cs). by rewrite (walk_loop_replay _ _ _ _ _ _ Hs). }
  rewrite Hwalk. cbn [fst snd]. destruct (decide (cs = [])) as [->|Hne].
  - inversion Hs as [Hx|cs' ? ? ? ? ? ? ? Hnil]; subst; [|by apply app_eq_nil in Hnil as [_ ?]].
    rewrite (bool_decide_true (i_kind w inode = KDirectory)) by done. by rewrite andb_false_r.
  - rewrite (bool_decide_false (last n = _)); [done|]. rewrite Hn. by apply last_path_of.
Qed.

(** Path resolution is normalisation plus lookup: a path that resolves
    has the normal form [path::resolve] computes (what [getcwd] returns), with
    no empty, [.] or [..] component, and walking the normal form finds the
    same inode. *)
Theorem walk_is_normal w mounts path inode n :
  (forall root, Vfs.mounted_root mounts ROOT = Some root -> i_kind w root = KDirectory) ->
  Vfs.walk w mounts path = Ok (inode, n) ->
  normal n /\ Path.resolve ROOT path = n /\ Vfs.walk w mounts n = Ok (inode, n).
Proof.
  intros Hroot Hw. destruct (walk_spec _ _ _ _ _ Hw) as (root & rest & Hm & Hs). destruct (stack_good _ _ _ _ _ _ Hs) as [Hg Hn].
  simpl in Hn. split; [by eexists|]. split; [by rewrite resolve_root|]. eapply walk_replay; [exact Hm|by apply Hroot|exact Hs].
Qed.
End Walk.
