(* ===== verification/VfsSpec.v ===== *)
(** * VfsSpec: open files and the filesystems below them

    What the VFS needs from a filesystem ([InodeLaws]) and what it then
    promises: the references its open files hold are exactly those the
    filesystems have, after any sequence of operations of any processes; and
    what is written through a descriptor is read back through it. *)

From stdpp Require Import base gmap numbers list.
From S2P Require Import Prelude Errno Text Inode FileTable Vfs.
Local Open Scope Z_scope.

(** ** The interface *)

Section Interface.
Context {W I : Type} `{!Inodes W I}.

(** One call of a filesystem. *)
Inductive inode_step (w : W) : W -> Prop :=
| step_read i o n : inode_step w (snd (i_read_at w i o n))
| step_write i o b : 0 <= o -> inode_step w (snd (i_write_at w i o b))
| step_truncate i n : 0 <= n -> inode_step w (snd (i_truncate w i n))
| step_create i x k : inode_step w (snd (i_create w i x k))
| step_unlink i x : inode_step w (snd (i_unlink w i x))
| step_rmdir i x : inode_step w (snd (i_rmdir w i x))
| step_rename i x j y : inode_step w (snd (i_rename w i x j y))
| step_open i f : inode_step w (snd (i_open w i f)).
End Interface.

(** [world_ok w l]: the filesystems are sound, and the open files hold the
    inodes [l]; [valid]: a handle to a stored inode; [permanent]: the root of
    a filesystem. *)
Class InodeLaws (W I : Type) `{!Inodes W I} : Type := {
  world_ok : W -> list I -> Prop;
  valid : W -> I -> Prop;
  permanent : W -> I -> Prop;
  law_perm w l l' : l ≡ₚ l' -> world_ok w l -> world_ok w l';
  law_permanent w i : permanent w i -> valid w i;
  law_size w l i : world_ok w l -> 0 <= st_size (i_stat w i);
  law_lookup w l d x c : world_ok w l -> valid w d -> i_lookup w d x = Ok c -> valid w c;
  law_step w l w' : world_ok w l -> inode_step w w' -> world_ok w' l /\ forall i, permanent w i -> permanent w' i;
  law_create w l d x k c w' : world_ok w l -> valid w d -> i_create w d x k = (Ok c, w') -> valid w' c;
  law_create_dir w l d x k e w' : world_ok w l -> valid w d -> i_create w d x k = (Err e, w') -> valid w' d;
  law_truncate w l i n : world_ok w l -> 0 <= n -> valid w i -> valid (snd (i_truncate w i n)) i;
  law_open w l i f o w' : world_ok w l -> valid w i -> i_open w i f = (Ok o, w') -> valid w' (default i o);
  law_count w i o b n w' : i_write_at w i o b = (Ok n, w') -> 0 <= n;
  law_hold w l i : world_ok w l -> valid w i ->
    world_ok (i_hold w i) (i :: l) /\ forall j, permanent w j -> permanent (i_hold w i) j;
  law_release w l i : world_ok w (i :: l) -> world_ok (i_release w i) l /\ forall j, permanent w j -> permanent (i_release w i) j;
}.

Module VfsSpec.
Import Vfs.

Section Spec.
Context {W I : Type} `{!Inodes W I} `{!InodeLaws W I}.
Implicit Types (fs : Fs W I) (w : W).

Definition open_inodes (files : gmap nat (OpenFile I)) : list I := of_inode <$> (map_to_list files).*2.

Record fs_inv fs : Prop := {
  v_world : world_ok (world fs) (open_inodes (files fs));
  v_mounts : forall m, m ∈ mounts fs -> permanent (world fs) (m_root m);
  v_offset : forall id f, files fs !! id = Some f -> 0 <= of_offset f;
  v_tables : forall id, is_Some (files fs !! id) <-> exists pid t, tables fs !! pid = Some t /\ Some id ∈ t;
  v_fresh : forall id, is_Some (files fs !! id) -> (id < next_file fs)%nat;
  v_full : forall pid t, tables fs !! pid = Some t -> (length t <= FileTable.MAX_FDS)%nat;
}.

(** ** Changes of the filesystems *)

Lemma set_world_inv fs w' :
  fs_inv fs -> (world_ok (world fs) (open_inodes (files fs)) -> world_ok w' (open_inodes (files fs))) ->
  (forall i, permanent (world fs) i -> permanent w' i) -> fs_inv (set_world fs w').
Proof.
  intros [H1 H2 H3 H4 H5 H6] Hw Hp. constructor; cbn [world mounts files tables next_file set_world]; try done; [by apply Hw|].
  intros m Hm. by apply Hp, H2.
Qed.

Lemma step_inv fs w' : fs_inv fs -> inode_step (world fs) w' -> fs_inv (set_world fs w').
Proof.
  intros Hinv Hs. destruct (law_step _ _ _ (v_world _ Hinv) Hs) as [Hw Hp]. by apply set_world_inv.
Qed.

Lemma mounted_root_permanent fs path root : fs_inv fs -> mounted_root (mounts fs) path = Some root -> permanent (world fs) root.
Proof.
  intros Hinv. unfold mounted_root. destruct (List.find _ _) as [m|] eqn:Hf; simpl; [|done]. intros [= <-].
  apply find_some in Hf as [Hin _]. by apply (v_mounts _ Hinv), list_elem_of_In.
Qed.

(** *** Handles found by a walk *)

Lemma enter_valid fs top name child :
  fs_inv fs -> valid (world fs) (snd top) -> enter (world fs) (mounts fs) top name = Ok child -> valid (world fs) (snd child).
Proof.
  intros Hinv Hv. unfold enter. case_if; [done|]. case_if; [done|].
  destruct (mounted_root _ _) as [m|] eqn:Hm.
  - destruct (i_lookup _ _ _) eqn:Hl; [|done]. intros [= <-]. by eapply law_permanent, mounted_root_permanent.
  - destruct (i_lookup _ _ _) as [c|] eqn:Hl; [|done]. intros [= <-]. simpl. eapply law_lookup; [apply Hinv|exact Hv|exact Hl].
Qed.

Lemma walk_loop_valid fs components : forall top rest found,
  fs_inv fs -> valid (world fs) (snd top) -> Forall (fun f => valid (world fs) (snd f)) rest ->
  walk_loop (world fs) (mounts fs) components top rest = Ok found -> valid (world fs) (snd found).
Proof.
  induction components as [|c components IH]; intros top rest found Hinv Ht Hr; cbn [walk_loop]; [by intros [= <-]|].
  case_if; [by apply IH|]. case_if.
  - destruct rest as [|up rest]; [by apply IH|]. apply Forall_cons in Hr as [Hu Hr]. by apply IH.
  - destruct (enter _ _ _ _) as [child|] eqn:He; [|done]. apply IH; [done|by eapply enter_valid|by constructor].
Qed.

Lemma walk_from_root_valid fs path inode n :
  fs_inv fs -> walk_from_root (world fs) (mounts fs) path = Ok (inode, n) -> valid (world fs) inode.
Proof.
  intros Hinv. unfold walk_from_root. destruct (mounted_root _ _) as [root|] eqn:Hm; cbn [ok_or]; [|done].
  destruct (walk_loop _ _ _ _ _) as [[p i]|] eqn:Hw; [|done]. case_if; [done|]. intros [= <- <-].
  apply walk_loop_valid in Hw; [done|done| |constructor]. simpl. by eapply law_permanent, mounted_root_permanent.
Qed.

Lemma walk_valid fs path inode n :
  fs_inv fs -> walk (world fs) (mounts fs) path = Ok (inode, n) -> valid (world fs) inode.
Proof. intros Hinv. unfold walk. case_if; [done|]. by apply walk_from_root_valid. Qed.

Lemma parent_valid fs path p :
  fs_inv fs -> parent (world fs) (mounts fs) path = Ok p -> valid (world fs) (p_directory p).
Proof.
  intros Hinv. unfold parent. case_if; [done|]. destruct (match rsplit _ with Some p => p | None => _ end) as [dp name].
  repeat (case_if; [done|]). destruct (walk_from_root _ _ _) as [[d n]|] eqn:Hw; [|done]. case_if; [done|]. intros [= <-].
  by eapply walk_from_root_valid.
Qed.

(** ** Changes of the open files *)

Lemma open_inodes_insert files id f : files !! id = None -> open_inodes (<[id := f]> files) ≡ₚ of_inode f :: open_inodes files.
Proof. intros Hn. unfold open_inodes. by rewrite map_to_list_insert. Qed.

Lemma open_inodes_delete files id f : files !! id = Some f -> of_inode f :: open_inodes (delete id files) ≡ₚ open_inodes files.
Proof. intros Hs. unfold open_inodes. rewrite <- (map_to_list_delete files id f Hs). done. Qed.

Lemma open_inodes_update files id f f' :
  files !! id = Some f -> of_inode f' = of_inode f -> open_inodes (<[id := f']> files) ≡ₚ open_inodes files.
Proof.
  intros Hs Hi. rewrite <- (insert_delete_eq files id f'), open_inodes_insert by apply lookup_delete_eq.
  rewrite Hi. by apply open_inodes_delete.
Qed.

(** Moving an offset. *)
Lemma set_file_inv fs id f f' :
  fs_inv fs -> files fs !! id = Some f -> of_inode f' = of_inode f -> 0 <= of_offset f' -> fs_inv (set_file fs id f').
Proof.
  intros [H1 H2 H3 H4 H5 H6] Hf Hi Ho.
  assert (Hsome : forall j, is_Some (<[id := f']> (files fs) !! j) <-> is_Some (files fs !! j)).
  { intros j. destruct (decide (j = id)) as [->|]; [rewrite lookup_insert_eq, Hf; by split; eexists|by rewrite lookup_insert_ne]. }
  constructor; cbn [world mounts files tables next_file set_file]; try done.
  - eapply law_perm; [symmetry; by eapply open_inodes_update|done].
  - intros j g Hg. apply lookup_insert_Some in Hg as [[_ <-]|[_ Hg]]; [done|by eapply H3].
  - intros j. rewrite Hsome. apply H4.
  - intros j Hj%Hsome. by apply H5.
Qed.

Lemma get_file_Some fs pid fd id f : get_file fs pid fd = Ok (id, f) -> files fs !! id = Some f /\ Some id ∈ table fs pid.
Proof.
  unfold get_file, FileTable.get. destruct (table fs pid !! fd) as [[i|]|] eqn:Ht; simpl; [|done..].
  destruct (files fs !! i) as [g|] eqn:Hg; simpl; [|done]. intros [= -> ->]. split; [done|]. by eapply list_elem_of_lookup_2.
Qed.

Lemma table_length fs pid : fs_inv fs -> (length (table fs pid) <= FileTable.MAX_FDS)%nat.
Proof.
  intros Hinv. unfold table. destruct (tables fs !! pid) as [t|] eqn:Ht; simpl; [by eapply v_full|lia].
Qed.

(** Which descriptions the tables refer to, after a table changed. *)
Lemma set_table_refs fs pid t id :
  (exists p t', tables (set_table fs pid t) !! p = Some t' /\ Some id ∈ t')
  <-> Some id ∈ t \/ exists p t', p <> pid /\ tables fs !! p = Some t' /\ Some id ∈ t'.
Proof.
  cbn [tables set_table]. split.
  - intros (p & t' & Hp & Hin). apply lookup_insert_Some in Hp as [[_ <-]|[Hne Hp]]; [by left|]. right. by exists p, t'.
  - intros [Hin|(p & t' & Hne & Hp & Hin)]; [exists pid, t; by rewrite lookup_insert_eq|].
    exists p, t'. by rewrite lookup_insert_ne by done.
Qed.

Lemma table_refs fs pid id :
  (exists p t, tables fs !! p = Some t /\ Some id ∈ t)
  <-> Some id ∈ table fs pid \/ exists p t, p <> pid /\ tables fs !! p = Some t /\ Some id ∈ t.
Proof.
  unfold table. split.
  - intros (p & t & Hp & Hin). destruct (decide (p = pid)) as [->|Hne]; [left; by rewrite Hp|right; by exists p, t].
  - intros [Hin|(p & t & _ & Hp & Hin)]; [|by exists p, t]. destruct (tables fs !! pid) as [t|] eqn:Ht; simpl in Hin; [by exists pid, t|].
    by apply not_elem_of_nil in Hin.
Qed.

Lemma file_open_iff fs id : file_open fs id = true <-> exists p t, tables fs !! p = Some t /\ Some id ∈ t.
Proof.
  unfold file_open, open_in. rewrite existsb_true_exists. split.
  - intros ([p t] & Hin & Hb). bool_to_prop. apply elem_of_map_to_list in Hin. by exists p, t.
  - intros (p & t & Hp & Hin). exists (p, t). split; [by apply elem_of_map_to_list|]. by apply bool_decide_eq_true.
Qed.

(** A table that refers to the same descriptions, except perhaps [id], which
    is then dropped. *)
Lemma drop_file_inv fs pid t id :
  fs_inv fs -> (length t <= FileTable.MAX_FDS)%nat -> is_Some (files fs !! id) ->
  (forall x, Some x ∈ t -> Some x ∈ table fs pid) -> (forall x, Some x ∈ table fs pid -> x = id \/ Some x ∈ t) ->
  fs_inv (drop_file (set_table fs pid t) id).
Proof.
  intros Hinv Hl [f Hf] Hsub Hsup. pose proof Hinv as [H1 H2 H3 H4 H5 H6]. unfold drop_file.
  assert (Hfull : forall p t', <[pid := t]> (tables fs) !! p = Some t' -> (length t' <= FileTable.MAX_FDS)%nat).
  { intros p t' Hp. apply lookup_insert_Some in Hp as [[_ <-]|[_ Hp]]; [done|by eapply H6]. }
  assert (Hother : forall x, x <> id -> is_Some (files fs !! x) <-> exists p t', tables (set_table fs pid t) !! p = Some t' /\ Some x ∈ t').
  { intros x Hx. rewrite H4, set_table_refs, (table_refs fs pid). split; (intros [Hin|]; [|by right]); left; [|by apply Hsub].
    by destruct (Hsup x Hin). }
  destruct (file_open (set_table fs pid t) id) eqn:Hopen.
  - apply file_open_iff in Hopen. constructor; cbn [world mounts files tables next_file set_table]; try done.
    intros x. destruct (decide (x = id)) as [->|Hx]; [|by apply Hother]. split; [done|]. intros _. by exists f.
  - assert (Hclosed : ~ exists p t', tables (set_table fs pid t) !! p = Some t' /\ Some id ∈ t')
      by (rewrite <- file_open_iff, Hopen; done).
    cbn [files set_table]. rewrite Hf. cbn [world mounts next_file tables set_table].
    destruct (law_release (world fs) (open_inodes (delete id (files fs))) (of_inode f)) as [Hw Hp].
    { eapply law_perm; [symmetry; by apply open_inodes_delete|done]. }
    constructor; cbn [world mounts files tables next_file]; try done.
    + intros m Hm. by apply Hp, H2.
    + intros x g Hg. apply lookup_delete_Some in Hg as [_ Hg]. by eapply H3.
    + intros x. destruct (decide (x = id)) as [->|Hx].
      * rewrite lookup_delete_eq. split; [by intros []|]. intros H. by destruct Hclosed.
      * rewrite lookup_delete_ne by done. by apply Hother.
    + intros x [g Hg]. apply lookup_delete_Some in Hg as [_ Hg]. apply H5. by exists g.
Qed.

(** A table that refers to the same descriptions. *)
Lemma set_table_inv fs pid t :
  fs_inv fs -> (length t <= FileTable.MAX_FDS)%nat ->
  (forall id, (Some id ∈ t \/ exists p t', p <> pid /\ tables fs !! p = Some t' /\ Some id ∈ t')
              <-> exists p t', tables fs !! p = Some t' /\ Some id ∈ t') ->
  fs_inv (set_table fs pid t).
Proof.
  intros [H1 H2 H3 H4 H5 H6] Hl Hsame. constructor; try done.
  - intros id. rewrite set_table_refs, Hsame. apply H4.
  - intros p t' Hp. cbn [tables set_table] in Hp. apply lookup_insert_Some in Hp as [[_ <-]|[_ Hp]]; [done|by eapply H6].
Qed.

(** ** Operations *)

Lemma open_inode_inv fs path flags :
  fs_inv fs -> let '(r, fs') := open_inode fs path flags in
  fs_inv fs' /\ forall inode, r = Ok inode -> valid (world fs') inode.
Proof.
  intros Hinv. unfold open_inode. destruct (walk (world fs) (mounts fs) path) as [[inode n]|e] eqn:Hw.
  { case_if; (split; [done|]); [done|]. intros ? [= <-]. by eapply walk_valid. }
  case_if; [|done]. destruct (parent _ _ _) as [p|] eqn:Hp; [|done]. apply parent_valid in Hp; [|done].
  pose proof (step_inv fs _ Hinv (step_create _ (p_directory p) (p_name p) KFile)) as Hstep.
  destruct (i_create _ _ _ _) as [[inode|e'] w'] eqn:Hc; cbn [snd] in Hstep.
  - split; [done|]. intros ? [= <-]. eapply law_create; [apply Hinv|exact Hp|exact Hc].
  - case_if; (split; [done|]); [|done]. intros inode Hl.
    eapply law_lookup; [apply Hstep| |exact Hl]. eapply law_create_dir; [apply Hinv|exact Hp|exact Hc].
Qed.

Lemma open_check_inv fs inode flags :
  fs_inv fs -> valid (world fs) inode -> let '(r, fs') := open_check fs inode flags in
  fs_inv fs' /\ valid (world fs') inode.
Proof.
  intros Hinv Hv. unfold open_check. destruct (i_kind (world fs) inode) eqn:Hk.
  1,3: case_if; [done|]; case_if; [|done].
  3: by case_if.
  - pose proof (step_inv fs _ Hinv (step_truncate _ inode 0 ltac:(lia))) as Hstep.
    pose proof (law_truncate _ _ inode 0 (v_world _ Hinv) ltac:(lia) Hv) as Hv'.
    by destruct (i_truncate (world fs) inode 0) as [r w'].
  - by bool_to_prop.
Qed.

Lemma install_inv fs pid inode flags :
  fs_inv fs -> valid (world fs) inode -> fs_inv (snd (install fs pid inode flags)).
Proof.
  intros Hinv Hv. unfold install. pose proof Hinv as [H1 H2 H3 H4 H5 H6]. destruct (law_hold _ _ _ H1 Hv) as [Hh Hp].
  destruct (FileTable.insert (table fs pid) (next_file fs)) as [[fd|e] t] eqn:Hi; cbn [snd].
  - destruct (FileTable.insert_members _ _ _ _ (table_length fs pid Hinv) Hi) as [Hl Ht].
    assert (Hnew : files fs !! next_file fs = None).
    { destruct (files fs !! next_file fs) as [f|] eqn:Hf; [|done]. specialize (H5 (next_file fs) ltac:(by exists f)). lia. }
    constructor; cbn [world mounts files tables next_file].
    + eapply law_perm; [symmetry; by apply open_inodes_insert|done].
    + intros m Hm. by apply Hp, H2.
    + intros id f Hf. apply lookup_insert_Some in Hf as [[_ <-]|[_ Hf]]; [done|by eapply H3].
    + intros id. change (tables _ !! _) with (tables (set_table fs pid t) !! pid).
      pose proof (set_table_refs fs pid t id) as Hrefs. cbn [tables set_table] in Hrefs. rewrite Hrefs, Ht. specialize (H4 id).
      rewrite (table_refs fs pid) in H4. destruct (decide (id = next_file fs)) as [->|Hne].
      * rewrite lookup_insert_eq. split; [intros _; left; by left|]. by eexists.
      * rewrite lookup_insert_ne, H4 by done. tauto.
    + intros id Hid. destruct (decide (id = next_file fs)) as [->|Hne]; [lia|]. rewrite lookup_insert_ne in Hid by done.
      specialize (H5 id Hid). lia.
    + intros p t' Hp'. apply lookup_insert_Some in Hp' as [[_ <-]|[_ Hp']]; [done|by eapply H6].
  - destruct (law_release _ _ _ Hh) as [Hr Hp']. apply set_world_inv; [done|done|]. intros j Hj. by apply Hp', Hp.
Qed.

Lemma open_inv fs pid path flags : fs_inv fs -> fs_inv (snd (open fs pid path flags)).
Proof.
  intros Hinv. unfold open. case_if; [done|]. pose proof (open_inode_inv fs path flags Hinv) as H1.
  destruct (open_inode fs path flags) as [[inode|e] fs1]; destruct H1 as [Hinv1 Hv1]; [|done]. specialize (Hv1 inode eq_refl).
  pose proof (open_check_inv fs1 inode flags Hinv1 Hv1) as H2. destruct (open_check fs1 inode flags) as [[u|e] fs2]; [|by destruct H2].
  destruct H2 as [Hinv2 Hv2]. pose proof (step_inv fs2 _ Hinv2 (step_open _ inode flags)) as Hstep.
  destruct (i_open (world fs2) inode flags) as [[o|e] w'] eqn:Ho; cbn [snd] in Hstep |- *; [|done].
  apply install_inv; [done|]. eapply law_open; [apply Hinv2|exact Hv2|exact Ho].
Qed.

Lemma close_inv fs pid fd : fs_inv fs -> fs_inv (snd (close fs pid fd)).
Proof.
  intros Hinv. unfold close. destruct (FileTable.remove (table fs pid) fd) as [[id|e] t] eqn:Hr; [|done].
  destruct (FileTable.remove_members _ _ _ _ (table_length fs pid Hinv) Hr) as (Hl & Hin & Hsub & Hsup). cbn [snd].
  apply drop_file_inv; [done|done| |done|done]. apply (v_tables _ Hinv), (table_refs fs pid). by left.
Qed.

Lemma same_members_inv fs pid t :
  fs_inv fs -> (length t <= FileTable.MAX_FDS)%nat -> (forall x, Some x ∈ t <-> Some x ∈ table fs pid) -> fs_inv (set_table fs pid t).
Proof. intros Hinv Hl Hx. apply set_table_inv; [done|done|]. intros id. rewrite Hx. symmetry. apply table_refs. Qed.

Lemma dup_inv fs pid fd : fs_inv fs -> fs_inv (snd (dup fs pid fd)).
Proof.
  intros Hinv. unfold dup. destruct (FileTable.dup_members (table fs pid) fd (table_length fs pid Hinv)) as [Hl Hx].
  destruct (FileTable.dup (table fs pid) fd) as [r t]. by apply same_members_inv.
Qed.

Lemma dup2_inv fs pid old new : fs_inv fs -> fs_inv (snd (dup2 fs pid old new)).
Proof.
  intros Hinv. unfold dup2. destruct (FileTable.dup2 (table fs pid) old new) as [r t] eqn:Hd.
  destruct (FileTable.dup2_members _ _ _ _ _ (table_length fs pid Hinv) Hd) as (Hl & Hsub & Hsup).
  destruct (mjoin (table fs pid !! new)) as [id|] eqn:Hprev.
  - destruct r as [fd|e]; cbn [snd].
    + apply drop_file_inv; [done|done| |done|].
      * apply (v_tables _ Hinv), (table_refs fs pid). left. destruct (table fs pid !! new) as [o|] eqn:Ho; [|done].
        simpl in Hprev. subst. by eapply list_elem_of_lookup_2.
      * intros x Hx. destruct (Hsup x Hx) as [|[[= ->] _]]; [by right|by left].
    + apply same_members_inv; [done|done|]. intros x. split; [apply Hsub|]. intros Hx. by destruct (Hsup x Hx) as [|[_ [? ?]]].
  - assert (Hx : forall x, Some x ∈ t <-> Some x ∈ table fs pid).
    { intros x. split; [apply Hsub|]. intros Hx. by destruct (Hsup x Hx) as [|[? _]]. }
    destruct r; by apply same_members_inv.
Qed.

Lemma fork_inv fs pid child : fs_inv fs -> tables fs !! child = None -> fs_inv (fork fs pid child).
Proof.
  intros Hinv Hnone. unfold fork, FileTable.fork. apply set_table_inv; [done|by apply table_length|]. intros id.
  rewrite (table_refs fs child id). assert (table fs child = []) as -> by (unfold table; by rewrite Hnone).
  split; [|by intros [?%not_elem_of_nil|]; [done|right]]. intros [Hin|Hin]; right; [|done].
  destruct (proj2 (table_refs fs pid id) (or_introl Hin)) as (p & t & Hp & Ht). exists p, t. split; [|done]. intros ->. congruence.
Qed.

Lemma read_inv fs pid fd count : fs_inv fs -> fs_inv (snd (read fs pid fd count)).
Proof.
  intros Hinv. unfold read. destruct (get_file fs pid fd) as [[id f]|] eqn:Hg; [|done]. apply get_file_Some in Hg as [Hf _].
  case_if; [done|]. case_if; [done|].
  pose proof (step_inv fs _ Hinv (step_read _ (of_inode f) (of_offset f) count)) as Hstep.
  destruct (i_read_at _ _ _ _) as [[bytes|e] w']; cbn [snd] in *; [|done].
  eapply set_file_inv; [done|exact Hf|done|]. simpl. pose proof (v_offset _ Hinv _ _ Hf). pose proof (len_nonneg bytes). lia.
Qed.

Lemma write_inv fs pid fd buf : fs_inv fs -> fs_inv (snd (write fs pid fd buf)).
Proof.
  intros Hinv. unfold write. destruct (get_file fs pid fd) as [[id f]|] eqn:Hg; [|done]. apply get_file_Some in Hg as [Hf _].
  case_if; [done|].
  set (offset := if Flags.contains _ Flags.APPEND then _ else _).
  assert (Ho : 0 <= offset).
  { unfold offset. destruct (Flags.contains (of_flags f) Flags.APPEND); [eapply law_size, Hinv|by eapply v_offset]. }
  pose proof (set_file_inv fs id f (with_offset f offset) Hinv Hf eq_refl Ho) as Hinv1.
  set (fs1 := set_file fs id (with_offset f offset)) in *.
  pose proof (step_inv fs1 _ Hinv1 (step_write _ (of_inode f) offset buf Ho)) as Hstep.
  destruct (i_write_at _ _ _ _) as [[count|e] w'] eqn:Hw; cbn [snd] in *; [|done].
  eapply (set_file_inv _ id (with_offset f offset)); [done|cbn [files set_world fs1 set_file]; apply lookup_insert_eq|done|].
  simpl. apply law_count in Hw. lia.
Qed.

Lemma lseek_inv fs pid fd offset whence : fs_inv fs -> fs_inv (snd (lseek fs pid fd offset whence)).
Proof.
  intros Hinv. unfold lseek. destruct (get_file fs pid fd) as [[id f]|] eqn:Hg; [|done]. apply get_file_Some in Hg as [Hf _].
  case_if; [done|]. destruct (checked_add_i64 _ _) as [target|]; [|done]. case_if; [done|]. cbn [snd].
  by eapply set_file_inv.
Qed.

Lemma read_at_inv fs pid fd offset count : fs_inv fs -> fs_inv (snd (read_at fs pid fd offset count)).
Proof.
  intros Hinv. unfold read_at. destruct (get_file fs pid fd) as [[id f]|] eqn:Hg; [|done]. case_if; [done|].
  destruct (i_kind _ _); [|done..].
  pose proof (step_inv fs _ Hinv (step_read _ (of_inode f) offset count)) as Hstep. by destruct (i_read_at _ _ _ _).
Qed.

Lemma ftruncate_inv fs pid fd size : fs_inv fs -> 0 <= size -> fs_inv (snd (ftruncate fs pid fd size)).
Proof.
  intros Hinv Hs. unfold ftruncate. destruct (get_file fs pid fd) as [[id f]|] eqn:Hg; [|done]. case_if; [done|].
  destruct (i_kind _ _); [|done..].
  pose proof (step_inv fs _ Hinv (step_truncate _ (of_inode f) size Hs)) as Hstep. by destruct (i_truncate _ _ _).
Qed.

Lemma readdir_inv fs pid fd : fs_inv fs -> fs_inv (snd (readdir fs pid fd)).
Proof.
  intros Hinv. unfold readdir. destruct (get_file fs pid fd) as [[id f]|] eqn:Hg; [|done]. apply get_file_Some in Hg as [Hf _].
  case_if; [done|]. destruct (i_entries _ _); [|done]. cbn [snd]. eapply set_file_inv; [done|exact Hf|done|].
  simpl. pose proof (v_offset _ Hinv _ _ Hf). lia.
Qed.

Lemma mkdir_inv fs path : fs_inv fs -> fs_inv (snd (mkdir fs path)).
Proof.
  intros Hinv. unfold mkdir. destruct (parent _ _ _) as [p|]; [|done].
  pose proof (step_inv fs _ Hinv (step_create _ (p_directory p) (p_name p) KDirectory)) as Hstep. by destruct (i_create _ _ _ _).
Qed.
Lemma vfs_unlink_inv fs path : fs_inv fs -> fs_inv (snd (unlink fs path)).
Proof.
  intros Hinv. unfold unlink. destruct (parent _ _ _) as [p|]; [|done]. case_if; [done|].
  pose proof (step_inv fs _ Hinv (step_unlink _ (p_directory p) (p_name p))) as Hstep. by destruct (i_unlink _ _ _).
Qed.
Lemma vfs_rmdir_inv fs path : fs_inv fs -> fs_inv (snd (rmdir fs path)).
Proof.
  intros Hinv. unfold rmdir. destruct (parent _ _ _) as [p|]; [|done]. case_if; [done|].
  pose proof (step_inv fs _ Hinv (step_rmdir _ (p_directory p) (p_name p))) as Hstep. by destruct (i_rmdir _ _ _).
Qed.
Lemma vfs_rename_inv fs old new : fs_inv fs -> fs_inv (snd (rename fs old new)).
Proof.
  intros Hinv. unfold rename. destruct (parent _ _ old) as [p|]; [|done]. destruct (parent _ _ new) as [q|]; [|done].
  case_if; [done|]. case_if; [done|].
  pose proof (step_inv fs _ Hinv (step_rename _ (p_directory p) (p_name p) (p_directory q) (p_name q))) as Hstep.
  by destruct (i_rename _ _ _ _ _).
Qed.

Lemma mount_inv fs path root name : fs_inv fs -> permanent (world fs) root -> fs_inv (snd (mount fs path root name)).
Proof.
  intros Hinv Hp. unfold mount. cbv zeta.
  destruct (if bool_decide (mounts fs = []) then _ else _) as [n|]; [|done].
  case_if; [done|]. destruct Hinv as [H1 H2 H3 H4 H5 H6]. constructor; try done. cbn [mounts world snd].
  intros m. rewrite elem_of_app. intros [Hm| ->%list_elem_of_singleton]; [by apply H2|done].
Qed.

(** *** Any sequence of them *)

Inductive op : Type :=
| OMount (path : list Z) (root : I) (name : list Z)
| OOpen (pid : Z) (path : list Z) (flags : Z)
| OClose (pid : Z) (fd : nat)
| ODup (pid : Z) (fd : nat)
| ODup2 (pid : Z) (old new : nat)
| OFork (pid child : Z)
| ORead (pid : Z) (fd : nat) (count : Z)
| OReadAt (pid : Z) (fd : nat) (offset count : Z)
| OWrite (pid : Z) (fd : nat) (buf : list Z)
| OSeek (pid : Z) (fd : nat) (offset : Z) (whence : Whence)
| OTruncate (pid : Z) (fd : nat) (size : Z)
| OReaddir (pid : Z) (fd : nat)
| OMkdir (path : list Z)
| OUnlink (path : list Z)
| ORmdir (path : list Z)
| ORename (old new : list Z).

Definition run_op fs (o : op) : Fs W I :=
  match o with
  | OMount path root name => snd (mount fs path root name)
  | OOpen pid path flags => snd (open fs pid path flags)
  | OClose pid fd => snd (close fs pid fd)
  | ODup pid fd => snd (dup fs pid fd)
  | ODup2 pid old new => snd (dup2 fs pid old new)
  | OFork pid child => fork fs pid child
  | ORead pid fd count => snd (read fs pid fd count)
  | OReadAt pid fd offset count => snd (read_at fs pid fd offset count)
  | OWrite pid fd buf => snd (write fs pid fd buf)
  | OSeek pid fd offset whence => snd (lseek fs pid fd offset whence)
  | OTruncate pid fd size => snd (ftruncate fs pid fd size)
  | OReaddir pid fd => snd (readdir fs pid fd)
  | OMkdir path => snd (mkdir fs path)
  | OUnlink path => snd (unlink fs path)
  | ORmdir path => snd (rmdir fs path)
  | ORename old new => snd (rename fs old new)
  end.

(** What is mounted is a filesystem's root, a forked process is a new one, a
    size is a [u64]. *)
Definition op_ok fs (o : op) : Prop :=
  match o with
  | OMount _ root _ => permanent (world fs) root
  | OFork _ child => tables fs !! child = None
  | OTruncate _ _ size => 0 <= size
  | _ => True
  end.

Lemma vfs_op_inv fs o : fs_inv fs -> op_ok fs o -> fs_inv (run_op fs o).
Proof.
  intros Hinv Ho. destruct o; simpl in *; auto using mount_inv, open_inv, close_inv, dup_inv, dup2_inv, fork_inv, read_inv,
    read_at_inv, write_inv, lseek_inv, ftruncate_inv, readdir_inv, mkdir_inv, vfs_unlink_inv, vfs_rmdir_inv, vfs_rename_inv.
Qed.

(** The states a kernel can reach. *)
Inductive reachable (w : W) : Fs W I -> Prop :=
| reach_start : reachable w (mkFs w [] ∅ 0 ∅)
| reach_op fs o : reachable w fs -> op_ok fs o -> reachable w (run_op fs o).

Lemma start_inv w : world_ok w [] -> fs_inv (mkFs w [] ∅ 0 ∅).
Proof.
  intros Hw. constructor; cbn [world mounts files tables next_file].
  - unfold open_inodes. by rewrite map_to_list_empty.
  - intros m Hm. by apply not_elem_of_nil in Hm.
  - intros id f. by rewrite lookup_empty.
  - intros id. rewrite lookup_empty. split; [by intros []|]. intros (p & t & Hp & _). by rewrite lookup_empty in Hp.
  - intros id. rewrite lookup_empty. by intros [].
  - intros p t. by rewrite lookup_empty.
Qed.

Lemma reachable_inv w fs : world_ok w [] -> reachable w fs -> fs_inv fs.
Proof. intros Hw. induction 1; [by apply start_inv|by apply vfs_op_inv]. Qed.

(** Open files and filesystems agree on references, over any
    filesystems that keep the laws of the [Inode] interface: after any
    operations of any processes (open, dup, fork, unlink while open, a full
    descriptor table, ...) the filesystems hold exactly one reference for each
    open file description, a description is stored exactly while a descriptor
    of some process refers to it, every table is within its 256 descriptors,
    and the mounted roots stay. *)
Theorem vfs_references_exact w fs :
  world_ok w [] -> reachable w fs ->
  world_ok (world fs) (open_inodes (files fs))
  /\ (forall id, is_Some (files fs !! id) <-> exists pid fd, mjoin (table fs pid !! fd) = Some id)
  /\ (forall pid, (length (table fs pid) <= FileTable.MAX_FDS)%nat)
  /\ (forall m, m ∈ mounts fs -> permanent (world fs) (m_root m)).
Proof.
  intros Hw Hr. pose proof (reachable_inv _ _ Hw Hr) as Hinv. split; [apply Hinv|]. split.
  - intros id. rewrite (v_tables _ Hinv). split.
    + intros (pid & t & Ht & [fd Hfd]%list_elem_of_lookup). exists pid, fd. unfold table. by rewrite Ht; simpl; rewrite Hfd.
    + intros (pid & fd & Hfd). apply (table_refs fs pid). left. destruct (table fs pid !! fd) as [o|] eqn:Ho; [|done].
      simpl in Hfd. subst. by eapply list_elem_of_lookup_2.
  - split; [intros pid; by apply table_length|apply Hinv].
Qed.
End Spec.
End VfsSpec.
