(* ===== verification/PseudoFs.v ===== *)
(** * PseudoFs: device files, /proc, and the RAM disk

    [kernel/src/fs/devfs.rs], [kernel/src/fs/procfs.rs] and
    [kernel/src/fs/block.rs]. The CPU's random generator and the console
    beyond the line discipline are parameters; a procfs file is its
    generator's current contents. *)

From stdpp Require Import base numbers list.
From S2P Require Import Prelude Errno Text Inode.
Local Open Scope Z_scope.

Module DevFs.
Inductive Device : Type := Null | Zero | Urandom | Console | Dsp | Fb.
#[global] Instance Device_eq_dec : EqDecision Device.
Proof. solve_decision. Defined.

(** In the order of [DEVICES]: console, urandom, dsp, fb0, null, zero. *)
Definition DEVICES : list (Name * Device) :=
  [([99; 111; 110; 115; 111; 108; 101], Console); ([117; 114; 97; 110; 100; 111; 109], Urandom); ([100; 115; 112], Dsp);
   ([102; 98; 48], Fb); ([110; 117; 108; 108], Null); ([122; 101; 114; 111], Zero)].

Record DeviceNode : Type := mkNode { d_ino : Z; d_fs_id : Z; device : Device }.

(** The nodes of a devfs: inode numbers from 2 on. *)
Fixpoint number_nodes (fs_id ino : Z) (l : list (Name * Device)) : list (Name * DeviceNode) :=
  match l with [] => [] | (name, d) :: l => (name, mkNode ino fs_id d) :: number_nodes fs_id (ino + 1) l end.
Definition nodes (fs_id : Z) : list (Name * DeviceNode) := number_nodes fs_id 2 DEVICES.

Definition stat (n : DeviceNode) : Stat := mkStat (d_ino n) (d_fs_id n) KCharDevice 0 1.
Definition dir_stat (fs_id : Z) : Stat := mkStat 1 fs_id KDirectory 0 2.

Definition lookup (fs_id : Z) (name : Name) : result Errno DeviceNode :=
  ok_or (snd <$> List.find (fun e => bool_decide (fst e = name)) (nodes fs_id)) ENOENT.
Definition entries (fs_id : Z) : list DirEntry :=
  (fun e => mkDirEntry (fst e) (d_ino (snd e)) KCharDevice) <$> nodes fs_id.

Section Devices.
(** The console and the random generator, with their state. *)
Context {C : Type} (next_word : C -> option Z * C) (console_read : C -> Z -> list Z * C) (console_write : C -> list Z -> C)
  (has_rdrand : bool).

(** Up to ten tries for a word. *)
Fixpoint try_word (tries : nat) (c : C) : option Z * C :=
  match tries with
  | O => (None, c)
  | S tries => match next_word c with (Some v, c) => (Some v, c) | (None, c) => try_word tries c end
  end.

(** [fill_urandom]: [filled] bytes so far, of [size]. A word fills at least
    one byte, so the bytes left are fuel enough. *)
Fixpoint fill_urandom (fuel : nat) (size : Z) (filled : list Z) (c : C) : result Errno (list Z) * C :=
  match fuel with
  | O => (Ok filled, c)
  | S fuel =>
      if len filled <? size then
        match try_word 10 c with
        | (None, c) => (if bool_decide (filled = []) then Err EIO else Ok filled, c)
        | (Some v, c) =>
            let count := Z.min (size - len filled) 8 in
            fill_urandom fuel size (filled ++ take (Z.to_nat count) (le_bytes 8 v)) c
        end
      else (Ok filled, c)
  end.

Definition read_at (d : Device) (count : Z) (c : C) : result Errno (list Z) * C :=
  match d with
  | Null => (Ok [], c)
  | Zero => (Ok (replicate (Z.to_nat count) 0), c)
  | Urandom => if negb has_rdrand then (Err ENODEV, c) else fill_urandom (Z.to_nat count) count [] c
  | Console => let '(bytes, c) := console_read c count in (Ok bytes, c)
  | Dsp | Fb => (Err EINVAL, c)
  end.

Definition write_at (d : Device) (buf : list Z) (c : C) : result Errno Z * C :=
  if bool_decide (d = Urandom) then (Err EROFS, c)
  else (Ok (len buf), if bool_decide (d = Console) then console_write c buf else c).

Definition is_terminal (d : Device) : bool := bool_decide (d = Console).

(** Random bytes: a full buffer, a short one when the generator gives out
    after some bytes, or an error when it gives none; never too many. *)
Lemma fill_urandom_spec fuel : forall size filled c,
  len filled <= size -> size - len filled <= Z.of_nat fuel ->
  match fill_urandom fuel size filled c with
  | (Ok out, _) => (exists k, out = filled ++ k) /\ len out <= size /\ (len out < size -> out <> [])
  | (Err e, _) => e = EIO /\ filled = []
  end.
Proof.
  induction fuel as [|fuel IH]; intros size filled c Hle Hf; cbn [fill_urandom].
  { split; [exists []; by rewrite app_nil_r|]. lia. }
  destruct (Z.ltb_spec (len filled) size) as [Hlt|Hge]; [|split; [exists []; by rewrite app_nil_r|lia]].
  destruct (try_word 10 c) as [[v|] c1].
  - set (count := Z.min (size - len filled) 8). set (new := take (Z.to_nat count) (le_bytes 8 v)).
    assert (Hnew : len new = count) by (unfold new, len; rewrite length_take, length_le_bytes; lia).
    specialize (IH size (filled ++ new) c1). rewrite len_app, Hnew in IH. specialize (IH ltac:(lia) ltac:(lia)).
    destruct (fill_urandom fuel size (filled ++ new) c1) as [[out|e] c2].
    + destruct IH as ([k ->] & H1 & H2). split; [exists (new ++ k); by rewrite app_assoc|done].
    + destruct IH as [_ H]. apply (f_equal len) in H. rewrite len_app in H. pose proof (len_nonneg filled). simpl in H.
      change (len []) with 0 in H. lia.
  - case_bool_decide as He; [done|]. split; [exists []; by rewrite app_nil_r|]. split; [lia|done].
Qed.
End Devices.
End DevFs.

Module ProcFs.
Section Files.
(** Generators read the kernel's state. *)
Context {G : Type}.

Record ProcFile : Type := mkFile { f_ino : Z; f_fs_id : Z; generate : G -> list Z }.
Record ProcDirectory : Type := mkDirectory { p_fs_id : Z; p_files : list (Name * ProcFile) }.

Fixpoint number_files (fs_id ino : Z) (l : list (Name * (G -> list Z))) : list (Name * ProcFile) :=
  match l with [] => [] | (name, g) :: l => (name, mkFile ino fs_id g) :: number_files fs_id (ino + 1) l end.
Definition new (fs_id : Z) (files : list (Name * (G -> list Z))) : ProcDirectory :=
  mkDirectory fs_id (number_files fs_id 2 files).

Definition stat (f : ProcFile) : Stat := mkStat (f_ino f) (f_fs_id f) KFile 0 1.
Definition dir_stat (d : ProcDirectory) : Stat := mkStat 1 (p_fs_id d) KDirectory 0 2.

(** [contents.get(start..)]. *)
Definition read_at (f : ProcFile) (g : G) (offset count : Z) : list Z :=
  let contents := generate f g in
  if offset <=? len contents then
    let rest := drop (Z.to_nat offset) contents in take (Z.to_nat (Z.min (len rest) count)) rest
  else [].

Definition lookup (d : ProcDirectory) (name : Name) : result Errno ProcFile :=
  ok_or (snd <$> List.find (fun e => bool_decide (fst e = name)) (p_files d)) ENOENT.
Definition entries (d : ProcDirectory) : list DirEntry :=
  (fun e => mkDirEntry (fst e) (f_ino (snd e)) KFile) <$> p_files d.
End Files.
Arguments ProcFile : clear implicits.
Arguments ProcDirectory : clear implicits.

(** [/proc/cmdline]: the command line and a newline. *)
Definition proc_cmdline (raw : list Z) : list Z := raw ++ [10].
End ProcFs.

Module RamDisk.
Record RamDisk : Type := mkDisk { block_size : Z; blocks : Z; data : list Z }.

(** [usize::is_power_of_two]. *)
Definition is_power_of_two (n : Z) : bool := (0 <? n) && (Z.land n (n - 1) =? 0).
Definition checked_mul (a b : Z) : option Z := if a * b <=? U64_MAX then Some (a * b) else None.

Definition new (block_size blocks : Z) : result Errno RamDisk :=
  if (block_size <? 512) || negb (is_power_of_two block_size) then Err EINVAL
  else
    let? bytes := ok_or (checked_mul blocks block_size) EINVAL in
    Ok (mkDisk block_size blocks (replicate (Z.to_nat bytes) 0)).

Definition range (d : RamDisk) (index length : Z) : result Errno Z :=
  if negb (length =? block_size d) then Err EINVAL
  else if index >=? blocks d then Err EIO
  else Ok (index * block_size d).

Definition read_block (d : RamDisk) (index length : Z) : result Errno (list Z) :=
  let? start := range d index length in
  Ok (take (Z.to_nat (block_size d)) (drop (Z.to_nat start) (data d))).
Definition write_block (d : RamDisk) (index : Z) (buf : list Z) : result Errno unit * RamDisk :=
  match range d index (len buf) with
  | Err e => (Err e, d)
  | Ok start =>
      (Ok (), mkDisk (block_size d) (blocks d)
                (take (Z.to_nat start) (data d) ++ buf ++ drop (Z.to_nat start + length buf) (data d)))
  end.

Definition disk_ok (d : RamDisk) : Prop := 512 <= block_size d /\ 0 <= blocks d /\ len (data d) = blocks d * block_size d.

Lemma disk_new_ok bs n d : 0 <= n -> new bs n = Ok d -> disk_ok d /\ block_size d = bs /\ blocks d = n /\ data d = replicate (Z.to_nat (n * bs)) 0.
Proof.
  intros Hn. unfold new, checked_mul. case_if; [done|]. case_if; cbn [ok_or]; [|done]. intros [= <-].
  unfold disk_ok. cbn [block_size blocks data]. rewrite len_replicate. split; [|done]. nia.
Qed.

Lemma write_block_length d i buf :
  disk_ok d -> 0 <= i -> len buf = block_size d -> i < blocks d ->
  length (take (Z.to_nat (i * block_size d)) (data d) ++ buf ++ drop (Z.to_nat (i * block_size d) + length buf) (data d)) = length (data d).
Proof.
  intros (Hb & Hn & Hl) Hi Hbuf Hlt. assert (i * block_size d + block_size d <= blocks d * block_size d) by nia.
  unfold len in *. rewrite !length_app, length_take, length_drop. nia.
Qed.

(** The RAM disk behaves as an array of blocks: a block reads back what
    was last written to it and other blocks are untouched; a buffer of the
    wrong size is [EINVAL] and a block past the end [EIO], with no change. *)
Theorem ram_disk_reads_writes d i j buf :
  disk_ok d -> 0 <= i -> 0 <= j ->
  let '(r, d') := write_block d i buf in
  disk_ok d'
  /\ (r = Ok () <-> len buf = block_size d /\ i < blocks d)
  /\ (r <> Ok () -> d' = d)
  /\ (r = Ok () -> read_block d' i (block_size d) = Ok buf
                   /\ (j <> i -> j < blocks d -> read_block d' j (block_size d) = read_block d j (block_size d))).
Proof.
  intros Hok Hi Hj. unfold write_block, range. destruct (Z.eqb_spec (len buf) (block_size d)) as [Hbuf|Hbuf]; cbn [negb].
  2: { split; [done|]. split; [split; [done|lia]|]. done. }
  destruct (Z.geb_spec i (blocks d)) as [Hge|Hlt].
  { split; [done|]. split; [split; [done|lia]|]. done. }
  pose proof (write_block_length d i buf Hok Hi Hbuf ltac:(lia)) as Hlen. pose proof Hok as (Hb & Hn & Hl).
  assert (Hend : i * block_size d + block_size d <= blocks d * block_size d) by nia.
  split; [split; [done|]; split; [done|]; unfold len in *; cbn [data blocks block_size]; lia|].
  split; [by split|]. split; [done|]. intros _. unfold read_block, range. cbn [block_size blocks data]. rewrite Z.eqb_refl. cbn [negb].
  split.
  - destruct (Z.geb_spec i (blocks d)); [lia|]. f_equal.
    rewrite drop_app_length' by (unfold len in *; rewrite length_take; nia). rewrite <- Hbuf. unfold len. by rewrite Nat2Z.id, take_app_length.
  - intros Hne Hjb. destruct (Z.geb_spec j (blocks d)); [lia|]. f_equal.
    apply list_eq. intros k. destruct (decide (k < Z.to_nat (block_size d))%nat) as [Hk|Hk].
    + rewrite !lookup_take_lt, !lookup_drop by lia.
      assert (Hkj : (Z.to_nat (j * block_size d) + k < length (data d))%nat) by (unfold len in Hl; nia).
      rewrite splice_lookup by (unfold len in *; nia). rewrite bool_decide_false; [done|]. unfold len in *. nia.
    + by rewrite !lookup_take_ge by lia.
Qed.

Definition example_disk : RamDisk := mkDisk 512 2 (replicate 1024 0).
Lemma ram_disk_reads_writes_witness :
  read_block (snd (write_block example_disk 1 (replicate 512 7))) 1 512 = Ok (replicate 512 7).
Proof.
  assert (Hok : disk_ok example_disk) by (split; [done|]; split; [done|]; vm_compute; reflexivity).
  pose proof (ram_disk_reads_writes example_disk 1 0 (replicate 512 7) Hok ltac:(lia) ltac:(lia)) as H.
  destruct (write_block example_disk 1 (replicate 512 7)) as [r d'] eqn:Hw. destruct H as (_ & Hr & _ & H).
  apply H, Hr. split; [vm_compute; reflexivity|reflexivity].
Defined.
End RamDisk.
