(* ===== verification/World.v ===== *)
(** * World: the kernel's filesystems together

    The [Inodes] interface implemented by ramfs, devfs and procfs, as the
    trait objects of the source: a handle says which filesystem and which
    inode. Ramfs instances are found by their filesystem number. The sound
    and framebuffer devices answer [open] with [ENODEV], as without the
    hardware. *)

From stdpp Require Import base gmap numbers list.
From S2P Require Import Prelude Errno Text Inode FsTree Ramfs RamfsInv PseudoFs RamfsSpec FileTable Vfs VfsSpec.
Local Open Scope Z_scope.

(** What the machine provides: the heap, the random generator, the console. *)
Class Machine (C : Type) : Type := {
  try_reserve : Z -> bool;
  next_word : C -> option Z * C;
  console_read : C -> Z -> list Z * C;
  console_write : C -> list Z -> C;
  has_rdrand : bool;
}.

Module World.
Section World.
Context {C : Type} `{!Machine C}.

Inductive Handle : Type :=
| HRam (fs ino : Z)
| HDevDir (fs : Z)
| HDev (node : DevFs.DeviceNode)
| HProcDir (dir : ProcFs.ProcDirectory C)
| HProc (file : ProcFs.ProcFile C).

Record World : Type := mkWorld { ram : gmap Z Ramfs.Ramfs; console : C }.

Definition set_ram (w : World) (fs : Z) (st : Ramfs.Ramfs) : World := mkWorld (<[fs := st]> (ram w)) (console w).
Definition set_console (w : World) (c : C) : World := mkWorld (ram w) c.

(** A ramfs operation on one instance. A handle's instance always exists. *)
Definition on_ram {A} (w : World) (fs : Z) (f : Ramfs.Ramfs -> result Errno A * Ramfs.Ramfs) : result Errno A * World :=
  match ram w !! fs with
  | Some st => let '(r, st) := f st in (r, set_ram w fs st)
  | None => (Err EIO, w)
  end.
Definition in_ram {A} (w : World) (fs : Z) (f : Ramfs.Ramfs -> result Errno A) : result Errno A :=
  match ram w !! fs with Some st => f st | None => Err EIO end.

Definition stat (w : World) (i : Handle) : Stat :=
  match i with
  | HRam fs ino => match ram w !! fs with Some st => Ramfs.stat st ino | None => mkStat ino fs KFile 0 1 end
  | HDevDir fs => DevFs.dir_stat fs
  | HDev n => DevFs.stat n
  | HProcDir d => ProcFs.dir_stat d
  | HProc f => ProcFs.stat f
  end.
Definition kind (w : World) (i : Handle) : InodeKind :=
  match i with
  | HRam fs ino => match ram w !! fs with Some st => Ramfs.kind st ino | None => KFile end
  | HDevDir _ | HProcDir _ => KDirectory
  | HDev _ => KCharDevice
  | HProc _ => KFile
  end.

Definition read_at (w : World) (i : Handle) (offset count : Z) : result Errno (list Z) * World :=
  match i with
  | HRam fs ino => (in_ram w fs (fun st => Ramfs.read_at st ino offset count), w)
  | HDev n =>
      let '(r, c) := DevFs.read_at next_word console_read has_rdrand (DevFs.device n) count (console w) in (r, set_console w c)
  | HProc f => (Ok (ProcFs.read_at f (console w) offset count), w)
  | HDevDir _ | HProcDir _ => (Err EISDIR, w)
  end.
Definition write_at (w : World) (i : Handle) (offset : Z) (buf : list Z) : result Errno Z * World :=
  match i with
  | HRam fs ino => on_ram w fs (fun st => Ramfs.write_at try_reserve st ino offset buf)
  | HDev n => let '(r, c) := DevFs.write_at console_write (DevFs.device n) buf (console w) in (r, set_console w c)
  | HProc _ => (Err EROFS, w)
  | HDevDir _ | HProcDir _ => (Err EISDIR, w)
  end.
Definition truncate (w : World) (i : Handle) (size : Z) : result Errno unit * World :=
  match i with
  | HRam fs ino => on_ram w fs (fun st => Ramfs.truncate try_reserve st ino size)
  | HProc _ => (Err EROFS, w)
  | HDev _ | HDevDir _ | HProcDir _ => (Err EINVAL, w)
  end.
Definition lookup (w : World) (i : Handle) (name : Name) : result Errno Handle :=
  match i with
  | HRam fs ino => result_map (HRam fs) (in_ram w fs (fun st => Ramfs.lookup st ino name))
  | HDevDir fs => result_map HDev (DevFs.lookup fs name)
  | HProcDir d => result_map HProc (ProcFs.lookup d name)
  | HDev _ | HProc _ => Err ENOTDIR
  end.
Definition create (w : World) (i : Handle) (name : Name) (k : InodeKind) : result Errno Handle * World :=
  match i with
  | HRam fs ino => let '(r, w) := on_ram w fs (fun st => Ramfs.create st ino name k) in (result_map (HRam fs) r, w)
  | HDevDir _ | HProcDir _ => (Err EROFS, w)
  | HDev _ | HProc _ => (Err ENOTDIR, w)
  end.
Definition unlink (w : World) (i : Handle) (name : Name) : result Errno unit * World :=
  match i with
  | HRam fs ino => on_ram w fs (fun st => Ramfs.unlink st ino name)
  | HDevDir _ | HProcDir _ => (Err EROFS, w)
  | HDev _ | HProc _ => (Err ENOTDIR, w)
  end.
Definition rmdir (w : World) (i : Handle) (name : Name) : result Errno unit * World :=
  match i with
  | HRam fs ino => on_ram w fs (fun st => Ramfs.rmdir st ino name)
  | HDevDir _ | HProcDir _ => (Err EROFS, w)
  | HDev _ | HProc _ => (Err ENOTDIR, w)
  end.

(** A rename whose target is not a directory of the same ramfs. *)
Definition rename_across (st : Ramfs.Ramfs) (self : Z) (new : Name) : result Errno unit :=
  match Ramfs.dir_at st self with
  | None => Err ENOTDIR
  | Some _ => let? _ := check_name new in Err EXDEV
  end.
Definition rename (w : World) (i : Handle) (old : Name) (target : Handle) (new : Name) : result Errno unit * World :=
  match i with
  | HRam fs self =>
      match target with
      | HRam fs' t =>
          if fs =? fs' then on_ram w fs (fun st => default (Err EIO, st) (Ramfs.rename st self old t new))
          else (in_ram w fs (fun st => rename_across st self new), w)
      | _ => (in_ram w fs (fun st => rename_across st self new), w)
      end
  | HDevDir _ | HProcDir _ => (Err EROFS, w)
  | HDev _ | HProc _ => (Err ENOTDIR, w)
  end.
Definition entries (w : World) (i : Handle) : result Errno (list DirEntry) :=
  match i with
  | HRam fs ino => in_ram w fs (fun st => Ramfs.list_entries st ino)
  | HDevDir fs => Ok (DevFs.entries fs)
  | HProcDir d => Ok (ProcFs.entries d)
  | HDev _ | HProc _ => Err ENOTDIR
  end.
Definition seekable (w : World) (i : Handle) : bool := negb (bool_decide (kind w i = KCharDevice)).
Definition open (w : World) (i : Handle) (flags : Z) : result Errno (option Handle) * World :=
  match i with
  | HDev n =>
      (if bool_decide (DevFs.device n = DevFs.Dsp) || bool_decide (DevFs.device n = DevFs.Fb) then Err ENODEV else Ok None, w)
  | _ => (Ok None, w)
  end.

Definition update (w : World) (i : Handle) (f : Ramfs.Ramfs -> Z -> Ramfs.Ramfs) : World :=
  match i with
  | HRam fs ino => match ram w !! fs with Some st => set_ram w fs (f st ino) | None => w end
  | _ => w
  end.

#[global] Instance world_inodes : Inodes World Handle := {
  i_stat := stat;
  i_kind := kind;
  i_read_at := read_at;
  i_write_at := write_at;
  i_truncate := truncate;
  i_lookup := lookup;
  i_create := create;
  i_unlink := unlink;
  i_rmdir := rmdir;
  i_rename := rename;
  i_entries := entries;
  i_seekable := seekable;
  i_open := open;
  i_hold w i := update w i Ramfs.hold;
  i_release w i := update w i Ramfs.unhold;
}.
End World.
Arguments World : clear implicits.
Arguments Handle : clear implicits.
End World.

(** * The filesystems keep the laws of the interface

    Ramfs, devfs and procfs discharge [InodeLaws], so what [VfsSpec] proves
    holds of the kernel's own filesystems: space is given back exactly when the
    last name and the last descriptor of a file are gone. *)

(** ** What ramfs operations leave alone *)

Module Stable.
Import Ramfs.
Definition stable (st st' : Ramfs) : Prop := held st' = held st /\ root st' = root st.

Lemma frame_stable st st' : same_frame st st' -> stable st st'.
Proof. intros (_ & _ & _ & _ & H5 & H6). done. Qed.
Lemma stable_refl st : stable st st.
Proof. done. Qed.
Lemma stable_trans a b c : stable a b -> stable b c -> stable a c.
Proof. intros [? ?] [? ?]. split; congruence. Qed.
Lemma drop_ref_stable st i : stable st (drop_ref st i).
Proof. unfold drop_ref. destruct (referenced st i); [done|]. by destruct (nodes st !! i) as [[]|]. Qed.

Lemma create_stable st d x k : stable st (snd (create st d x k)).
Proof.
  unfold create. destruct (dir_at st d); [|done]. destruct (check_name x); [|done]. destruct (dead r); [done|]. case_bool_decide; [done|].
  destruct k; [| |done]; cbn [snd allocate_ino]; (eapply stable_trans; [|apply frame_stable, set_entries_frame]); done.
Qed.
Lemma unlink_stable st d x : stable st (snd (unlink st d x)).
Proof.
  unfold unlink. destruct (dir_at st d); [|done]. destruct (entries r !! x); [|done]. case_bool_decide; [done|]. cbn [snd].
  eapply stable_trans; [apply frame_stable, set_entries_frame|apply drop_ref_stable].
Qed.
Lemma rmdir_stable st d x : stable st (snd (rmdir st d x)).
Proof.
  unfold rmdir. destruct (dir_at st d); [|done]. destruct (entries r !! x); [|done]. destruct (dir_at st z); [|done].
  case_bool_decide; [done|]. cbn [snd].
  eapply stable_trans; [apply frame_stable, bury_frame|]. eapply stable_trans; [apply frame_stable, set_entries_frame|apply drop_ref_stable].
Qed.
Lemma renamed_stable st self old target new source : stable st (renamed st self old target new source).
Proof.
  unfold renamed. destruct (edge_of st target new) as [ex|].
  - eapply stable_trans; [apply frame_stable, (bury_frame st ex)|]. eapply stable_trans; [|apply drop_ref_stable].
    apply frame_stable, moved_rest.
  - apply frame_stable, moved_rest.
Qed.
Lemma rename_stable st self old target new r : inv st -> rename st self old target new = Some r -> stable st (snd r).
Proof.
  intros Hinv Hr. destruct (rename_spec st self old target new Hinv) as (r' & Hr' & Hc). rewrite Hr in Hr'. injection Hr' as <-.
  destruct Hc as [[e ->]|[(-> & _)|(source & pt & -> & _)]]; [done|done|apply renamed_stable].
Qed.
Lemma resize_stable tr st i data n : 0 <= n -> stable st (snd (resize tr st i data n)).
Proof. intros Hn. by destruct (resize_spec tr st i data n Hn) as [->|[-> _]]. Qed.
Lemma truncate_stable tr st i n : 0 <= n -> stable st (snd (truncate tr st i n)).
Proof. intros Hn. unfold truncate. destruct (nodes st !! i) as [[]|]; [by apply resize_stable|done..]. Qed.
Lemma write_stable tr st i o b : 0 <= o -> stable st (snd (write_at tr st i o b)).
Proof.
  intros Ho. destruct (nodes st !! i) as [[data|d]|] eqn:Hi; [|unfold write_at; by rewrite Hi..].
  by destruct (write_at_spec tr st i data o b Hi Ho) as [[e ->]|[-> _]].
Qed.

Lemma create_Ok_node st d x k c st' : create st d x k = (Ok c, st') -> node_of st' c.
Proof.
  unfold create. destruct (dir_at st d) as [D|]; [|done]. destruct (check_name x); [|done]. destruct (dead D); [done|].
  case_bool_decide; [done|]. destruct k; [| |done]; cbn [allocate_ino]; intros [= <- <-];
    apply set_entries_node, node_of_set_node; by left.
Qed.
Lemma create_Err_same st d x k e st' : create st d x k = (Err e, st') -> st' = st.
Proof.
  unfold create. destruct (dir_at st d) as [D|]; [|by intros [=]]. destruct (check_name x); [|by intros [=]]. destruct (dead D); [by intros [=]|].
  case_bool_decide; [by intros [=]|]. by destruct k; intros [=].
Qed.
Lemma truncate_node tr st i n : 0 <= n -> node_of st i -> node_of (snd (truncate tr st i n)) i.
Proof.
  intros Hn Hi. unfold truncate. destruct (nodes st !! i) as [[data|d]|] eqn:Hd; [|done..].
  destruct (resize_spec tr st i data n Hn) as [->|[-> _]]; [done|]. cbn [snd]. change (node_of (set_node st i (File (resized data n))) i).
  apply node_of_set_node. by left.
Qed.
Lemma write_count tr st i o b n st' : write_at tr st i o b = (Ok n, st') -> n = len b.
Proof.
  unfold write_at. destruct (nodes st !! i) as [[data|d]|]; [|done..]. destruct (checked_add o (len b)) as [z|]; [|done].
  destruct (if z >? len data then resize tr st i data z else (Ok (), st)) as [[u|e] st1]; [|done]. by intros [= <- _].
Qed.
Lemma lookup_node st d x c : inv st -> lookup st d x = Ok c -> node_of st c.
Proof.
  intros Hinv. unfold lookup. destruct (dir_at st d) as [D|] eqn:HD; [|done]. destruct (entries D !! x) eqn:Hx; [|done]. intros [= ->].
  eapply t_child; [apply Hinv|]. by rewrite (edge_of_dir _ _ _ _ HD).
Qed.
Lemma root_node st : inv st -> node_of st (root st).
Proof. intros Hinv. eapply t_node, t_root; apply Hinv. Qed.
Lemma stat_size st i : 0 <= st_size (stat st i).
Proof. unfold stat. destruct (nodes st !! i) as [[data|d]|]; simpl; [apply len_nonneg|lia..]. Qed.

Lemma remove_one_perm i l k : l ≡ₚ i :: k -> remove_one i l ≡ₚ k.
Proof.
  revert k. induction l as [|j l IH]; intros k Hp; [by apply Permutation_nil_l in Hp|]. simpl. destruct (Z.eqb_spec j i) as [->|Hne].
  - by apply Permutation_cons_inv in Hp.
  - assert (Hj : j ∈ k) by (assert (j ∈ i :: k) as [->|]%elem_of_cons by (rewrite <- Hp; left); done).
    apply elem_of_Permutation in Hj as [k' Hk]. rewrite Hk. apply perm_skip, IH.
    apply (Permutation_cons_inv (a := j)). rewrite Hp, Hk. constructor.
Qed.
End Stable.

(** ** The laws *)

Section Laws.
Context {C : Type} `{!Machine C}.
Import World.
Abbreviation World := (World.World C).
Abbreviation Handle := (World.Handle C).
Implicit Types (w : World) (i : Handle).

(** The inodes of one ramfs among some handles. *)
Definition ram_ino (fs : Z) (i : Handle) : option Z :=
  match i with HRam fs' ino => if decide (fs' = fs) then Some ino else None | _ => None end.

Definition world_sound w (l : list Handle) : Prop :=
  forall fs st, ram w !! fs = Some st -> inv st /\ Ramfs.held st ≡ₚ omap (ram_ino fs) l.
Definition handle_valid w i : Prop :=
  match i with HRam fs ino => exists st, ram w !! fs = Some st /\ node_of st ino | _ => True end.
Definition handle_root w i : Prop :=
  match i with HRam fs ino => exists st, ram w !! fs = Some st /\ ino = Ramfs.root st /\ node_of st ino | _ => True end.

(** A change of one ramfs that keeps its invariant, references and root. *)
Lemma set_ram_sound w l fs st st' :
  world_sound w l -> ram w !! fs = Some st -> inv st' -> Stable.stable st st' ->
  world_sound (set_ram w fs st') l /\ forall i, handle_root w i -> handle_root (set_ram w fs st') i.
Proof.
  intros Hw Hst Hinv [Hh Hr]. split.
  - intros fs' st'' Hl. cbn [ram set_ram] in Hl. apply lookup_insert_Some in Hl as [[<- <-]|[_ Hl]]; [|by apply Hw].
    split; [done|]. rewrite Hh. by apply Hw.
  - intros [fs' ino| | | |]; simpl; try done. intros (s & Hs & -> & Hn). destruct (decide (fs' = fs)) as [->|Hne].
    + exists st'. rewrite lookup_insert_eq. rewrite Hst in Hs. injection Hs as <-. split; [done|]. split; [done|].
      rewrite <- Hr. by apply Stable.root_node.
    + exists s. by rewrite lookup_insert_ne.
Qed.

Lemma on_ram_sound {A} w l fs (f : Ramfs.Ramfs -> result Errno A * Ramfs.Ramfs) :
  world_sound w l -> (forall st, inv st -> inv (snd (f st)) /\ Stable.stable st (snd (f st))) ->
  world_sound (snd (on_ram w fs f)) l /\ forall i, handle_root w i -> handle_root (snd (on_ram w fs f)) i.
Proof.
  intros Hw Hf. unfold on_ram. destruct (ram w !! fs) as [st|] eqn:Hst; [|done].
  destruct (Hf st) as [Hinv Hs]; [by apply (Hw fs)|]. destruct (f st) as [r st']. by eapply set_ram_sound.
Qed.

Lemma rename_default st self old t new :
  inv st -> inv (snd (default (Err EIO, st) (Ramfs.rename st self old t new)))
            /\ Stable.stable st (snd (default (Err EIO, st) (Ramfs.rename st self old t new))).
Proof.
  intros Hinv. destruct (Ramfs.rename st self old t new) as [r|] eqn:Hr; simpl; [|done].
  split; [by eapply ram_rename_inv|by eapply Stable.rename_stable].
Qed.

Lemma step_sound w l w' :
  world_sound w l -> inode_step w w' -> world_sound w' l /\ forall i, handle_root w i -> handle_root w' i.
Proof.
  intros Hw Hs. destruct Hs as [i o n|i o b Ho|i n Hn|i x k|i x|i x|i x j y|i f]; cbn [i_read_at i_write_at i_truncate i_create i_unlink i_rmdir i_rename i_open world_inodes].
  - destruct i as [fs ino| |node| |]; simpl; try done. by destruct (DevFs.read_at _ _ _ _ _ _).
  - destruct i as [fs ino| |node| |]; simpl; try done.
    + apply on_ram_sound; [done|]. intros st Hinv. split; [by apply write_at_inv|by apply Stable.write_stable].
    + by destruct (DevFs.write_at _ _ _ _).
  - destruct i as [fs ino| |node| |]; simpl; try done. apply on_ram_sound; [done|]. intros st Hinv.
    split; [by apply truncate_inv|by apply Stable.truncate_stable].
  - destruct i as [fs ino| |node| |]; simpl; try done.
    pose proof (on_ram_sound w l fs (fun st => Ramfs.create st ino x k) Hw) as H.
    destruct (on_ram w fs _) as [r w'']. apply H. intros st Hinv. split; [by apply create_inv|apply Stable.create_stable].
  - destruct i as [fs ino| |node| |]; simpl; try done. apply on_ram_sound; [done|]. intros st Hinv.
    split; [by apply ram_unlink_inv|apply Stable.unlink_stable].
  - destruct i as [fs ino| |node| |]; simpl; try done. apply on_ram_sound; [done|]. intros st Hinv.
    split; [by apply ram_rmdir_inv|apply Stable.rmdir_stable].
  - destruct i as [fs ino| |node| |]; simpl; try done. destruct j as [fs' t| | | |]; try done. case_if; [|done].
    apply on_ram_sound; [done|]. intros st Hinv. by apply rename_default.
  - by destruct i as [fs ino| |node| |].
Qed.

Lemma hold_sound w l i :
  world_sound w l -> handle_valid w i ->
  world_sound (update w i Ramfs.hold) (i :: l) /\ forall j, handle_root w j -> handle_root (update w i Ramfs.hold) j.
Proof.
  intros Hw Hv. destruct i as [fs ino| | | |]; simpl in *; try done. destruct Hv as (st & Hst & Hn). rewrite Hst.
  destruct (Hw fs st Hst) as [Hinv Hh]. split.
  - intros fs' st' Hl. cbn [ram set_ram] in Hl. apply lookup_insert_Some in Hl as [[<- <-]|[Hne Hl]].
    + split; [by apply hold_inv|]. simpl. rewrite decide_True by done. by rewrite Hh.
    + destruct (Hw fs' st' Hl) as [Hinv' Hh']. split; [done|]. simpl. by rewrite decide_False by done.
  - intros [fs' ino'| | | |]; simpl; try done. intros (s & Hs & -> & Hn'). destruct (decide (fs' = fs)) as [->|Hne].
    + exists (Ramfs.hold st ino). rewrite lookup_insert_eq. rewrite Hst in Hs. injection Hs as <-. done.
    + exists s. by rewrite lookup_insert_ne.
Qed.

Lemma release_sound w l i :
  world_sound w (i :: l) ->
  world_sound (update w i Ramfs.unhold) l /\ forall j, handle_root w j -> handle_root (update w i Ramfs.unhold) j.
Proof.
  intros Hw. destruct i as [fs ino| | | |]; simpl in *; [|by split..]. destruct (ram w !! fs) as [st|] eqn:Hst.
  2: { split; [|done]. intros fs' st' Hl. destruct (Hw fs' st' Hl) as [Hinv Hh]. split; [done|]. simpl in Hh.
       rewrite decide_False in Hh; [done|]. congruence. }
  destruct (Hw fs st Hst) as [Hinv Hh]. simpl in Hh. rewrite decide_True in Hh by done. pose proof (unhold_inv st ino Hinv) as Hinv'.
  assert (Hst' : Stable.stable (Ramfs.set_held st (Ramfs.remove_one ino (Ramfs.held st))) (Ramfs.unhold st ino))
    by apply Stable.drop_ref_stable. destruct Hst' as [Hh' Hr'].
  split.
  - intros fs' st' Hl. cbn [ram set_ram] in Hl. apply lookup_insert_Some in Hl as [[<- <-]|[Hne Hl]].
    + split; [done|]. rewrite Hh'. simpl. by apply Stable.remove_one_perm.
    + destruct (Hw fs' st' Hl) as [? Hh2]. split; [done|]. simpl in Hh2. by rewrite decide_False in Hh2 by done.
  - intros [fs' ino'| | | |]; simpl; try done. intros (s & Hs & -> & Hn'). destruct (decide (fs' = fs)) as [->|Hne].
    + exists (Ramfs.unhold st ino). rewrite lookup_insert_eq. rewrite Hst in Hs. injection Hs as <-. split; [done|]. split; [done|].
      replace (Ramfs.root st) with (Ramfs.root (Ramfs.unhold st ino)) by done. by apply Stable.root_node.
    + exists s. by rewrite lookup_insert_ne.
Qed.

#[export] Instance world_laws : InodeLaws World Handle.
Proof.
  refine {| world_ok := world_sound; valid := handle_valid; permanent := handle_root |}.
  - intros w l l' Hp Hw fs st Hst. destruct (Hw fs st Hst) as [Hinv Hh]. split; [done|]. by rewrite <- Hp.
  - intros w [fs ino| | | |]; simpl; try done. intros (st & Hst & _ & Hn). by exists st.
  - intros w l [fs ino| | | |] Hw; simpl; try lia. destruct (ram w !! fs); simpl; [apply Stable.stat_size|lia].
  - intros w l [fs ino| | | |] x c Hw Hv; simpl.
    + unfold in_ram. destruct (ram w !! fs) as [st|] eqn:Hst; simpl; [|done]. destruct (Ramfs.lookup st ino x) as [c'|] eqn:Hl; simpl; [|done].
      intros [= <-]. exists st. split; [done|]. eapply Stable.lookup_node; [by apply (Hw fs)|exact Hl].
    + destruct (DevFs.lookup _ _); simpl; [|done]. by intros [= <-].
    + done.
    + destruct (ProcFs.lookup _ _); simpl; [|done]. by intros [= <-].
    + done.
  - apply step_sound.
  - intros w l [fs ino| | | |] x k c w' Hw Hv; simpl; try done. unfold on_ram. destruct (ram w !! fs) as [st|] eqn:Hst; [|done].
    destruct (Ramfs.create st ino x k) as [[c'|] st'] eqn:Hc; simpl; [|done]. intros [= <- <-]. exists st'.
    split; [apply lookup_insert_eq|]. by eapply Stable.create_Ok_node.
  - intros w l [fs ino| | | |] x k e w' Hw Hv; simpl; try (by intros [= <- <-]). unfold on_ram.
    destruct (ram w !! fs) as [st|] eqn:Hst; [|by intros [= <- <-]].
    destruct (Ramfs.create st ino x k) as [[c'|] st'] eqn:Hc; simpl; [done|]. intros [= <- <-]. apply Stable.create_Err_same in Hc as ->.
    exists st. split; [apply lookup_insert_eq|]. destruct Hv as (s & Hs & Hn). congruence.
  - intros w l [fs ino| | | |] n Hw Hn Hv; simpl; try done. destruct Hv as (st & Hst & Hnode). unfold on_ram. rewrite Hst.
    pose proof (Stable.truncate_node try_reserve st ino n Hn Hnode). destruct (Ramfs.truncate try_reserve st ino n) as [r st'].
    exists st'. split; [apply lookup_insert_eq|done].
  - intros w l [fs ino| | | |] f o w' Hw Hv; simpl; try (by intros [= <- <-]). case_if; [done|]. by intros [= <- <-].
  - intros w [fs ino| | | |] o b n w'; simpl; try done.
    + unfold on_ram. destruct (ram w !! fs) as [st|]; [|done]. destruct (Ramfs.write_at _ _ _ _ _) as [r st'] eqn:Hw. intros [= -> _].
      apply Stable.write_count in Hw as ->. apply len_nonneg.
    + unfold DevFs.write_at. case_if; [done|]. intros [= <- _]. apply len_nonneg.
  - apply hold_sound.
  - apply release_sound.
Defined.
End Laws.
