(* ===== verification/FsClaims.v ===== *)
(** * FsClaims: the filesystem as a whole

    What holds of ramfs, devfs and procfs under the VFS: no space is lost,
    writes through one descriptor are read through any that shares it; and two
    places where the code does less than its comments say. *)

From stdpp Require Import base gmap numbers list.
From S2P Require Import Prelude Errno Text Inode FsTree Ramfs RamfsInv RamfsSpec PseudoFs FileTable Vfs VfsSpec World.
Local Open Scope Z_scope.

Module FsClaims.
Import Vfs World VfsSpec.

Section Claims.
Context {C : Type} `{!Machine C}.
Abbreviation Fs := (Vfs.Fs (World.World C) (World.Handle C)).
Implicit Types (w : World.World C) (fs : Fs).

(** Filesystems as they are mounted: sound, nothing open. *)
Definition fresh_world w : Prop := forall fsid st, ram w !! fsid = Some st -> inv st /\ Ramfs.held st = [].

Lemma fresh_world_ok w : fresh_world w -> world_ok w [].
Proof. intros Hw fsid st Hst. destruct (Hw fsid st Hst) as [Hinv ->]. done. Qed.

(** A descriptor of some process leads to this inode. *)
Definition is_open fs (fsid ino : Z) : Prop :=
  exists pid fd id f, mjoin (table fs pid !! fd) = Some id /\ files fs !! id = Some f /\ of_inode f = HRam fsid ino.

Lemma open_inodes_in (fls : gmap nat (OpenFile (World.Handle C))) i :
  i ∈ open_inodes fls <-> exists id f, fls !! id = Some f /\ of_inode f = i.
Proof.
  unfold open_inodes. rewrite <- list_fmap_compose, list_elem_of_fmap. split.
  - intros ([id f] & -> & Hin). apply elem_of_map_to_list in Hin. by exists id, f.
  - intros (id & f & Hf & <-). exists (id, f). split; [done|]. by apply elem_of_map_to_list.
Qed.

(** C6. The kernel's filesystems never lose space or structure: after any
    operations of any processes every ramfs is a tree whose byte count is exact
    and within its limit, and every inode it stores is either in the tree below
    its root or open in some process. *)
Theorem filesystem_sound w fs fsid st :
  fresh_world w -> reachable w fs -> ram (world fs) !! fsid = Some st ->
  tree_ok (Ramfs.root st) (edge_of st) (meta_of st) (node_of st)
  /\ Ramfs.used st = total (Ramfs.nodes st) /\ Ramfs.used st <= Ramfs.limit st
  /\ forall ino, node_of st ino -> (exists n, depth (Ramfs.root st) (edge_of st) n ino) \/ is_open fs fsid ino.
Proof.
  intros Hw Hr Hst. pose proof (reachable_inv _ _ (fresh_world_ok w Hw) Hr) as Hfs.
  destruct (v_world _ Hfs fsid st Hst) as [Hinv Hheld]. destruct Hinv as [Ht Hf Hu Hl Href Hh].
  do 3 (split; [done|]). intros ino Hn. destruct (Href ino Hn) as [|[->|[Hin|(d & x & Hx)]]]; [done| | |].
  - left. exists 0%nat. constructor.
  - right. rewrite Hheld in Hin. apply list_elem_of_omap in Hin as (i & Hi & Hsome).
    destruct i as [fs' ino'| | | |]; simpl in Hsome; try done. case_decide; [|done]. injection Hsome as ->. subst fs'.
    apply open_inodes_in in Hi as (id & f & Hid & Hof). assert (Hopen : is_Some (files fs !! id)) by (by exists f).
    apply (v_tables _ Hfs) in Hopen as (pid & t & Htab & [fd Hfd]%list_elem_of_lookup).
    exists pid, fd, id, f. unfold table. rewrite Htab. simpl. by rewrite Hfd.
  - left. destruct (edge_live _ _ _ _ Ht _ _ _ Hx) as [p Hp]. destruct (t_reach _ _ _ _ Ht _ _ Hp) as [n Hd]. exists (S n). by econstructor.
Qed.

(** ** Through descriptors *)

Lemma set_file_get fs pid fd id f g :
  get_file fs pid fd = Ok (id, f) -> get_file (set_file fs id g) pid fd = Ok (id, g).
Proof.
  unfold get_file. change (table (set_file fs id g) pid) with (table fs pid). destruct (FileTable.get _ _) as [i|]; [|done].
  destruct (files fs !! i); simpl; [|done]. intros [= -> ->]. by rewrite lookup_insert_eq.
Qed.

Lemma as_i64_small v : 0 <= v <= I64_MAX -> as_i64 v = v.
Proof. intros Hv. unfold as_i64. destruct (Z.leb_spec v I64_MAX); [done|lia]. Qed.

(** [f] is open on inode [ino] of the ramfs [st], a file holding [data]. *)
Definition open_on fs (f : OpenFile (World.Handle C)) (fsid ino : Z) (st : Ramfs.Ramfs) (data : list Z) : Prop :=
  of_inode f = HRam fsid ino /\ ram (world fs) !! fsid = Some st /\ inv st /\ Ramfs.nodes st !! ino = Some (Ramfs.File data).

(** What one descriptor writes, any descriptor of the same open file reads
    back, in whatever process: after a write that succeeds, seeking back over
    it and reading returns exactly the bytes written and leaves the shared
    offset after them. *)
Theorem descriptors_share_offset fs pid fd pid' fd' id f fsid ino data st buf n fs1 :
  get_file fs pid fd = Ok (id, f) -> get_file fs pid' fd' = Ok (id, f) ->
  Flags.contains (of_flags f) Flags.READ = true -> Flags.contains (of_flags f) Flags.APPEND = false ->
  open_on fs f fsid ino st data ->
  0 <= of_offset f -> of_offset f + len buf <= I64_MAX ->
  write fs pid fd buf = (Ok n, fs1) ->
  exists fs2 fs3, n = len buf
    /\ lseek fs1 pid' fd' (- n) SeekCurrent = (Ok (of_offset f), fs2)
    /\ read fs2 pid' fd' n = (Ok buf, fs3)
    /\ get_file fs3 pid fd = Ok (id, with_offset f (of_offset f + n)).
Proof.
  intros Hg Hg' Hread Happ (Hi & Hst & Hinv & Hdata) Ho Hmax Hw. pose proof (len_nonneg buf).
  unfold write in Hw. rewrite Hg in Hw. case_if_in Hw; [done|]. rewrite Happ in Hw.
  cbn [world set_file] in Hw. rewrite Hi in Hw. cbn [i_write_at world_inodes write_at] in Hw. unfold on_ram in Hw. rewrite Hst in Hw.
  pose proof (write_at_spec try_reserve st ino data (of_offset f) buf Hdata Ho) as Hspec.
  destruct (Ramfs.write_at try_reserve st ino (of_offset f) buf) as [r st1] eqn:Hwr.
  destruct Hspec as [[e [= -> ->]]|[[= -> ->] _]]; [done|]. injection Hw as <- <-.
  set (st1 := Ramfs.set_used _ _). set (w1 := set_ram (world fs) fsid st1).
  set (base := set_world (set_file fs id (with_offset f (of_offset f))) w1).
  set (g1 := with_offset f (of_offset f + len buf)). set (fs1 := set_file base id g1).
  assert (Hb : forall p k, get_file fs p k = Ok (id, f) -> get_file base p k = Ok (id, with_offset f (of_offset f)))
    by (intros p k Hk; exact (set_file_get _ _ _ _ _ _ Hk)).
  assert (Hg1 : get_file fs1 pid' fd' = Ok (id, g1)) by (eapply set_file_get, Hb, Hg').
  assert (Hkind : forall w', ram w' !! fsid = Some st1 -> kind w' (HRam fsid ino) = KFile).
  { intros w' Hw'. simpl. rewrite Hw'. unfold Ramfs.kind, st1. simpl. by rewrite lookup_insert_eq. }
  assert (Hram1 : ram (world fs1) !! fsid = Some st1) by apply lookup_insert_eq.
  exists (set_file fs1 id (with_offset g1 (of_offset f))).
  eexists. split; [done|]. split.
  - unfold lseek. rewrite Hg1. change (of_inode g1) with (of_inode f). rewrite Hi. cbn [i_seekable world_inodes]. unfold seekable.
    rewrite Hkind by done. cbn [negb bool_decide]. rewrite bool_decide_false by done. cbn [negb of_offset g1 with_offset].
    rewrite as_i64_small by lia. unfold checked_add_i64.
    replace (of_offset f + len buf + - len buf) with (of_offset f) by lia. unfold I64_MAX in *.
    destruct (Z.leb_spec (- 2 ^ 63) (of_offset f)); [|lia]. destruct (Z.leb_spec (of_offset f) (2 ^ 63 - 1)); [|lia]. cbn [andb].
    destruct (Z.ltb_spec (of_offset f) 0); [lia|done].
  - set (fs2 := set_file fs1 id (with_offset g1 (of_offset f))).
    assert (Hg2 : forall p k, get_file fs p k = Ok (id, f) -> get_file fs2 p k = Ok (id, with_offset f (of_offset f)))
      by (intros p k Hk; eapply set_file_get, set_file_get, Hb, Hk).
    assert (Hrd : Ramfs.read_at st1 ino (of_offset f) (len buf) = Ok buf).
    { pose proof (len_written data (of_offset f) buf Ho) as Hlw. unfold Ramfs.read_at, st1. cbn [Ramfs.nodes Ramfs.set_used Ramfs.set_node Ramfs.set_nodes].
      rewrite lookup_insert_eq. case_if.
      - assert (Hz : len buf = 0) by lia. unfold len in Hz. by rewrite (nil_length_inv buf) by lia.
      - rewrite Z.min_l by lia. unfold len at 1. rewrite Nat2Z.id. by rewrite RamfsSpec.read_written. }
    unfold read. rewrite (Hg2 _ _ Hg'). cbn [of_flags with_offset]. rewrite Hread. cbn [negb].
    change (of_inode (with_offset f (of_offset f))) with (of_inode f). rewrite Hi. cbn [i_kind world_inodes]. rewrite (Hkind (world fs2)) by done.
    rewrite bool_decide_false by done. cbn [i_read_at world_inodes read_at of_offset with_offset]. unfold in_ram.
    change (ram (world fs2)) with (ram (world fs1)). rewrite Hram1, Hrd. split; [done|].
    apply (set_file_get (set_world fs2 (world fs2)) pid fd id (with_offset f (of_offset f))). exact (Hg2 _ _ Hg).
Qed.
End Claims.

(** ** A concrete kernel *)

#[global] Instance no_machine : Machine unit := {
  try_reserve _ := true;
  next_word c := (None, c);
  console_read c _ := ([], c);
  console_write c _ := c;
  has_rdrand := false;
}.

Definition boot_world : World.World unit := mkWorld {[ 1 := Ramfs.with_limit 1 1000 ]} ().
Definition boot : Vfs.Fs (World.World unit) (World.Handle unit) := mkFs boot_world [] ∅ 0 ∅.
Definition rw_create : Z := Z.lor Flags.READ_WRITE Flags.CREATE.

(** [/], [/dev], and a file [/a] with three bytes, open as descriptor 0. *)
Definition boot_ops : list (op (I := World.Handle unit)) :=
  [OMount ROOT (HRam 1 1) []; OMkdir [SLASH; 100]; OMount [SLASH; 100] (HDevDir 2) []; OOpen 1 [SLASH; 97] rw_create; OWrite 1 0 [1; 2; 3]].
Definition booted : Vfs.Fs (World.World unit) (World.Handle unit) := foldl run_op boot boot_ops.

Lemma boot_world_fresh : fresh_world boot_world.
Proof.
  intros fsid st Hst. cbn [ram boot_world] in Hst. apply lookup_singleton_Some in Hst as [<- <-].
  split; [apply RamfsSpec.with_limit_inv; lia|reflexivity].
Qed.

Lemma boot_reachable : reachable boot_world booted.
Proof.
  unfold booted, boot_ops. cbn [foldl]. repeat apply reach_op; [apply reach_start|..]; try exact Logic.I.
  - exists (Ramfs.with_limit 1 1000). split; [reflexivity|]. split; [reflexivity|]. apply Stable.root_node, RamfsSpec.with_limit_inv. lia.
Qed.

Lemma filesystem_sound_witness :
  exists st, ram (world booted) !! 1 = Some st /\ Ramfs.used st = 3 /\ Ramfs.used st = total (Ramfs.nodes st).
Proof.
  destruct (ram (world booted) !! 1) as [st|] eqn:Hst; [|vm_compute in Hst; discriminate Hst].
  destruct (filesystem_sound boot_world booted 1 st boot_world_fresh boot_reachable Hst) as (_ & Hu & _).
  exists st. split; [reflexivity|]. split; [|exact Hu]. vm_compute in Hst. injection Hst as <-. vm_compute. reflexivity.
Defined.

Lemma walk_is_normal_witness :
  exists inode, Vfs.walk (world booted) (mounts booted) [SLASH; 100; SLASH; DOT; DOT; SLASH; 97] = Ok (inode, [SLASH; 97])
    /\ Vfs.walk (world booted) (mounts booted) [SLASH; 97] = Ok (inode, [SLASH; 97]).
Proof.
  destruct (walk_is_normal (world booted) (mounts booted) [SLASH; 100; SLASH; DOT; DOT; SLASH; 97] (HRam 1 3) [SLASH; 97]) as (_ & _ & H).
  - intros root Hroot. vm_compute in Hroot. injection Hroot as <-. vm_compute. reflexivity.
  - vm_compute. reflexivity.
  - exists (HRam 1 3). split; [vm_compute; reflexivity|exact H].
Defined.

Lemma vfs_references_exact_witness :
  reachable boot_world booted /\ forall id, is_Some (files booted !! id) <-> exists pid fd, mjoin (table booted pid !! fd) = Some id.
Proof.
  split; [exact boot_reachable|].
  exact (proj1 (proj2 (vfs_references_exact boot_world booted (fresh_world_ok boot_world boot_world_fresh) boot_reachable))).
Defined.

(** Descriptor 1 is a duplicate of descriptor 0. *)
Definition duplicated : Vfs.Fs (World.World unit) (World.Handle unit) := run_op booted (ODup 1 0).

Lemma descriptors_share_offset_witness :
  exists fs1 fs2 fs3, write duplicated 1 0 [8; 9] = (Ok 2, fs1) /\ lseek fs1 1 1 (- 2) SeekCurrent = (Ok 3, fs2)
    /\ read fs2 1 1 2 = (Ok [8; 9], fs3).
Proof.
  destruct (ram (world duplicated) !! 1) as [st|] eqn:Hst; [|vm_compute in Hst; discriminate Hst].
  assert (Hinv : inv st).
  { assert (Hr : reachable boot_world duplicated) by (apply (reach_op _ booted (ODup 1 0)); [exact boot_reachable|exact Logic.I]).
    exact (proj1 (v_world _ (reachable_inv _ _ (fresh_world_ok _ boot_world_fresh) Hr) 1 st Hst)). }
  destruct (write duplicated 1 0 [8; 9]) as [r fs1] eqn:Hw.
  assert (Hr : r = Ok 2) by (vm_compute in Hw; injection Hw; congruence). subst r.
  destruct (descriptors_share_offset duplicated 1 0 1 1 0 (mkOpenFile (HRam 1 3) rw_create 3) 1 3 [1; 2; 3] st [8; 9] 2 fs1)
    as (fs2 & fs3 & _ & H1 & H2 & _).
  - vm_compute. reflexivity.
  - vm_compute. reflexivity.
  - vm_compute. reflexivity.
  - vm_compute. reflexivity.
  - split; [reflexivity|]. split; [exact Hst|]. split; [exact Hinv|].
    vm_compute in Hst. injection Hst as <-. vm_compute. reflexivity.
  - vm_compute. discriminate.
  - vm_compute. discriminate.
  - exact Hw.
  - exists fs1, fs2, fs3. split; [reflexivity|]. split; [exact H1|exact H2].
Defined.

(** ** Where the code does less than it says *)

(** All 256 descriptors in use. *)
Definition full : Vfs.Fs (World.World unit) (World.Handle unit) := foldl run_op booted (replicate 255 (ODup 1 0)).
Definition rw_trunc : Z := Z.lor Flags.READ_WRITE Flags.TRUNC.

(** An [open] that fails for want of a descriptor has already truncated the
    file: Linux takes the descriptor first. *)
Theorem open_without_descriptor_truncates :
  fst (Vfs.open full 1 [SLASH; 97] rw_trunc) = Err EMFILE
  /\ st_size <$> (match Vfs.stat full [SLASH; 97] with Ok s => Some s | Err _ => None end) = Some 3
  /\ st_size <$> (match Vfs.stat (snd (Vfs.open full 1 [SLASH; 97] rw_trunc)) [SLASH; 97] with Ok s => Some s | Err _ => None end) = Some 0.
Proof. vm_compute. repeat split; reflexivity. Qed.

(** [path::resolve] says the VFS does the same when walking; but the walk of
    [/x/..] needs a directory [/x], and the resolved path does not. *)
Theorem resolve_skips_missing :
  walk (world booted) (mounts booted) [SLASH; 120; SLASH; DOT; DOT] = Err ENOENT
  /\ Path.resolve ROOT [SLASH; 120; SLASH; DOT; DOT] = ROOT
  /\ walk (world booted) (mounts booted) ROOT = Ok (HRam 1 1, ROOT).
Proof. vm_compute. repeat split; reflexivity. Qed.

(** A write of no bytes past the end of a file grows the file. *)
Theorem empty_write_grows :
  let fs := run_op booted (OSeek 1 0 100 SeekSet) in
  fst (write fs 1 0 []) = Ok 0
  /\ st_size <$> (match Vfs.stat (snd (write fs 1 0 [])) [SLASH; 97] with Ok s => Some s | Err _ => None end) = Some 100.
Proof. vm_compute. repeat split; reflexivity. Qed.
End FsClaims.
