(* ===== verification/Tty.v ===== *)
(** * Tty: the console's line discipline

    [kernel/src/drivers/tty.rs]: [LineDiscipline], which turns the bytes typed
    at the console into lines. Bytes are [Z]s; what an operation echoes is
    returned with the new state. Erasing loops pop the line, so they recurse on
    a fuel of its length. *)

From stdpp Require Import base numbers list.
From S2P Require Import Prelude Text.
Local Open Scope Z_scope.

Module Tty.
Definition LINE_MAX : Z := 4096.
Definition BACKSPACE : Z := 8.
Definition DELETE : Z := 127.
Definition CONTROL_C : Z := 3.
Definition CONTROL_D : Z := 4.
Definition CONTROL_U : Z := 21.
Definition CONTROL_W : Z := 23.
Definition TAB : Z := 9.
Definition LF : Z := 10.
Definition CR : Z := 13.
Definition SPACE : Z := 32.
Definition ERASE_ECHO : list Z := [8; 32; 8].

Inductive TtyRecord : Type :=
| Line (bytes : list Z) (consumed : Z)
| EndOfFile.
#[export] Instance TtyRecord_eq_dec : EqDecision TtyRecord.
Proof. solve_decision. Defined.

Record LineDiscipline : Type := mkLine {
  line : list Z;
  widths : list Z;
  ready : list TtyRecord;
}.

Definition new : LineDiscipline := mkLine [] [] [].
Definition has_input (d : LineDiscipline) : bool := negb (bool_decide (ready d = [])).

(** [0b10xx_xxxx]. *)
Definition continuation (b : Z) : bool := Z.land b 192 =? 128.

(** The line without its last character: the bytes popped down to a start
    byte, on the reversed line. *)
Fixpoint pop_character (reversed : list Z) : list Z :=
  match reversed with
  | [] => []
  | b :: rest => if continuation b then pop_character rest else rest
  end.

Definition erase_character (d : LineDiscipline) : bool * list Z * LineDiscipline :=
  match reverse (line d) with
  | [] => (false, [], d)
  | reversed =>
      let width := default 1 (last (widths d)) in
      (true, concat (replicate (Z.to_nat width) ERASE_ECHO),
       mkLine (reverse (pop_character reversed)) (removelast (widths d)) (ready d))
  end.

Definition column (d : LineDiscipline) : Z := foldr Z.add 0 (widths d).

Definition complete (d : LineDiscipline) : LineDiscipline := mkLine [] [] (ready d ++ [Line (line d) 0]).

(** [while test(last) { erase_character }]. *)
Fixpoint erase_while (fuel : nat) (test : Z -> bool) (d : LineDiscipline) (echo : list Z) : list Z * LineDiscipline :=
  match fuel with
  | O => (echo, d)
  | S fuel =>
      match last (line d) with
      | Some b =>
          if test b then
            let '(_, e, d) := erase_character d in erase_while fuel test d (echo ++ e)
          else (echo, d)
      | None => (echo, d)
      end
  end.

Definition input (d : LineDiscipline) (byte : Z) : list Z * LineDiscipline :=
  if (byte =? CR) || (byte =? LF) then ([LF], complete (mkLine (line d ++ [LF]) (widths d) (ready d)))
  else if (byte =? BACKSPACE) || (byte =? DELETE) then let '(_, echo, d) := erase_character d in (echo, d)
  else if byte =? CONTROL_U then erase_while (length (line d)) (fun _ => true) d []
  else if byte =? CONTROL_W then
    let '(echo, d) := erase_while (length (line d)) (fun b => b =? SPACE) d [] in
    erase_while (length (line d)) (fun b => negb (b =? SPACE)) d echo
  else if byte =? CONTROL_D then
    if bool_decide (line d = []) then ([], mkLine (line d) (widths d) (ready d ++ [EndOfFile])) else ([], complete d)
  else if byte =? CONTROL_C then ([94; 67; 10], mkLine [] [] (ready d))
  else if (byte =? TAB) && (len (line d) <? LINE_MAX - 1) then
    let width := 8 - column d mod 8 in
    (replicate (Z.to_nat width) SPACE, mkLine (line d ++ [byte]) (widths d ++ [width]) (ready d))
  else if (SPACE <=? byte) && (len (line d) <? LINE_MAX - 1) then
    ([byte], mkLine (line d ++ [byte]) (if continuation byte then widths d else widths d ++ [1]) (ready d))
  else ([], d).

(** [read] into a buffer of [size] bytes: [None] is no complete line yet. *)
Definition read (d : LineDiscipline) (size : Z) : option (list Z) * LineDiscipline :=
  match ready d with
  | [] => (None, d)
  | EndOfFile :: rest => (Some [], mkLine (line d) (widths d) rest)
  | Line bytes consumed :: rest =>
      let count := Z.min (len bytes - consumed) size in
      let out := take (Z.to_nat count) (drop (Z.to_nat consumed) bytes) in
      let consumed := consumed + count in
      (Some out,
       mkLine (line d) (widths d) (if consumed =? len bytes then rest else Line bytes consumed :: rest))
  end.

(** Feed a sequence of bytes; the echo is appended. *)
Fixpoint feed (d : LineDiscipline) (bytes : list Z) : list Z * LineDiscipline :=
  match bytes with
  | [] => ([], d)
  | b :: bytes =>
      let '(e, d) := input d b in
      let '(es, d) := feed d bytes in (e ++ es, d)
  end.

(** ** The screen

    A terminal's cursor column from the start of the input line: what the echo
    does to it. *)

Fixpoint cursor (col : Z) (echo : list Z) : Z :=
  match echo with
  | [] => col
  | b :: echo =>
      cursor (if b =? LF then 0 else if b =? BACKSPACE then col - 1 else if continuation b then col else col + 1) echo
  end.

Lemma cursor_app col a b : cursor col (a ++ b) = cursor (cursor col a) b.
Proof. revert col. induction a as [|x a IH]; intros col; simpl; [done|]. apply IH. Qed.

Lemma cursor_spaces col n : cursor col (replicate n SPACE) = col + Z.of_nat n.
Proof. revert col. induction n as [|n IH]; intros col; simpl; [lia|]. rewrite IH. simpl. lia. Qed.

Lemma cursor_erase col n : cursor col (concat (replicate n ERASE_ECHO)) = col - Z.of_nat n.
Proof. revert col. induction n as [|n IH]; intros col; simpl; [lia|]. rewrite IH. simpl. lia. Qed.

(** ** Invariant

    The line is a sequence of characters, each a start byte and its
    continuation bytes (a line may open with stray ones), one width for each. *)

Definition starts (l : list Z) : list Z := filter (fun b => continuation b = false) l.

Record tty_ok (d : LineDiscipline) : Prop := {
  ok_widths : length (widths d) = length (starts (line d));
  ok_columns : Forall (fun w => 1 <= w <= 8) (widths d);
  ok_length : len (line d) < LINE_MAX;
  ok_ready : Forall (fun r => match r with Line bytes consumed => 0 <= consumed < len bytes /\ len bytes <= LINE_MAX | EndOfFile => True end) (ready d);
}.

Lemma pop_character_suffix l : exists k, l = k ++ pop_character l.
Proof.
  induction l as [|b l IH]; simpl; [by exists []|]. destruct (continuation b); [|by exists [b]].
  destruct IH as [k Hk]. exists (b :: k). simpl. by rewrite <- Hk.
Qed.

Lemma pop_character_shorter b l : (length (pop_character (b :: l)) <= length l)%nat.
Proof.
  simpl. destruct (continuation b); [|lia]. destruct (pop_character_suffix l) as [k Hk].
  rewrite Hk at 2. rewrite length_app. lia.
Qed.

Lemma starts_pop l :
  length (starts (pop_character l)) = (length (starts l) - 1)%nat.
Proof.
  induction l as [|b l IH]; simpl; [done|]. unfold starts in *. rewrite filter_cons. destruct (continuation b) eqn:Hc.
  - by rewrite decide_False by done.
  - rewrite decide_True by done. simpl. lia.
Qed.

Lemma starts_reverse l : length (starts (reverse l)) = length (starts l).
Proof.
  unfold starts. induction l as [|b l IH]; [done|]. rewrite reverse_cons, filter_app, length_app, IH, !filter_cons.
  case_decide; simpl; lia.
Qed.

Lemma removelast_length {A} (l : list A) : length (removelast l) = (length l - 1)%nat.
Proof. destruct l as [|x l] using rev_ind; [done|]. rewrite removelast_last, length_app. simpl. lia. Qed.

Lemma foldr_add_app l k : foldr Z.add 0 (l ++ k) = foldr Z.add 0 l + foldr Z.add 0 k.
Proof. induction l; simpl; lia. Qed.

(** Erasing takes back from the screen what the character drew; only stray
    continuation bytes at the start of a line were never drawn. *)
Lemma erase_character_spec d :
  tty_ok d -> let '(erased, echo, d') := erase_character d in
  tty_ok d' /\ ready d' = ready d /\ erased = negb (bool_decide (line d = []))
  /\ (line d <> [] -> (length (line d') < length (line d))%nat)
  /\ (exists k, line d = line d' ++ k)
  /\ forall base, widths d <> [] \/ line d = [] -> cursor (base + column d) echo = base + column d'.
Proof.
  intros [Hw Hc Hl Hr]. unfold erase_character. destruct (reverse (line d)) as [|b rest] eqn:Hrev.
  { apply (f_equal reverse) in Hrev. rewrite reverse_involutive in Hrev. change (reverse []) with (@nil Z) in Hrev.
    split; [by constructor|]. split; [done|]. split; [by rewrite bool_decide_true by done|]. split; [done|].
    split; [exists []; by rewrite app_nil_r|]. done. }
  assert (Hline : line d = reverse (b :: rest)) by (rewrite <- Hrev; by rewrite reverse_involutive).
  destruct (pop_character_suffix (b :: rest)) as [k Hk].
  assert (Hlen : (length (reverse (pop_character (b :: rest))) < length (line d))%nat).
  { rewrite Hline, !length_reverse. pose proof (pop_character_shorter b rest). simpl length at 2. lia. }
  split; [constructor; cbn [line widths ready]|].
  - rewrite removelast_length, starts_reverse, starts_pop, Hw, Hline, starts_reverse. done.
  - by apply Forall_removelast.
  - unfold len in *. lia.
  - done.
  - split; [done|]. split; [rewrite bool_decide_false; [done|]; rewrite Hline; intros H; apply (f_equal length) in H; by rewrite length_reverse in H|].
    split; [done|]. split; [exists (reverse k); cbn [line]; by rewrite <- reverse_app, <- Hk|].
    intros base [Hne|Hne]; [|rewrite Hne in Hlen; simpl in Hlen; lia]. unfold column. cbn [widths].
    destruct (widths d) as [|w ws] eqn:Hwd using rev_ind; [done|]. rewrite last_snoc, removelast_last, foldr_add_app. simpl.
    apply Forall_app in Hc as [_ Hc]. apply Forall_cons in Hc as [Hw1 _]. rewrite cursor_erase. lia.
Qed.

(** The line does not open with a stray continuation byte. *)
Definition clean (d : LineDiscipline) : Prop := forall b l, line d = b :: l -> continuation b = false.

Lemma clean_widths d : tty_ok d -> clean d -> widths d <> [] \/ line d = [].
Proof.
  intros [Hw _ _ _] Hc. destruct (line d) as [|b l] eqn:Hl; [by right|]. left. intros He. rewrite He in Hw.
  unfold starts in Hw. rewrite filter_cons, decide_True in Hw by (by eapply Hc). done.
Qed.

Lemma clean_prefix d d' k : clean d -> line d = line d' ++ k -> clean d'.
Proof. intros Hc Hk b l Hl. eapply Hc. rewrite Hk, Hl. done. Qed.

Lemma erase_while_spec test fuel : forall d echo col base,
  tty_ok d -> clean d -> cursor col echo = base + column d ->
  let '(echo', d') := erase_while fuel test d echo in
  tty_ok d' /\ clean d' /\ ready d' = ready d /\ cursor col echo' = base + column d' /\ (exists k, line d = line d' ++ k)
  /\ ((length (line d) <= fuel)%nat -> forall b, last (line d') = Some b -> test b = false).
Proof.
  induction fuel as [|fuel IH]; intros d echo col base Hok Hc Hcol; cbn [erase_while].
  { do 4 (split; [done|]). split; [exists []; by rewrite app_nil_r|].
    intros Hz b. by rewrite (nil_length_inv (line d)) by lia. }
  destruct (last (line d)) as [b|] eqn:Hlast.
  2: { do 4 (split; [done|]). split; [exists []; by rewrite app_nil_r|]. by rewrite Hlast. }
  destruct (test b) eqn:Ht.
  2: { do 4 (split; [done|]). split; [exists []; by rewrite app_nil_r|]. rewrite Hlast. by intros _ ? [= <-]. }
  pose proof (erase_character_spec d Hok) as He. destruct (erase_character d) as [[erased e] d1].
  destruct He as (Hok1 & Hr1 & _ & Hlen & [k Hk] & Hcur).
  assert (Hne : line d <> []) by (intros Hn; by rewrite Hn in Hlast).
  pose proof (clean_prefix _ _ _ Hc Hk) as Hc1.
  specialize (IH d1 (echo ++ e) col base Hok1 Hc1). rewrite cursor_app, Hcol in IH.
  specialize (IH (Hcur base (clean_widths d Hok Hc))). destruct (erase_while fuel test d1 (echo ++ e)) as [echo' d'].
  destruct IH as (H1 & H2 & H3 & H4 & [k' Hk'] & H5). do 2 (split; [done|]). split; [congruence|]. split; [done|].
  split; [exists (k' ++ k); by rewrite app_assoc, <- Hk'|]. intros Hf. apply H5. specialize (Hlen Hne). lia.
Qed.

Lemma complete_ok d l :
  tty_ok d -> l <> [] -> len l <= LINE_MAX -> tty_ok (mkLine [] [] (ready d ++ [Line l 0])).
Proof.
  intros [Hw Hc Hl Hr] Hne Hlen. constructor; cbn [line widths ready]; [done|constructor|done|].
  apply Forall_app. split; [done|]. constructor; [|constructor]. destruct l; [done|]. unfold len in *. simpl in *. lia.
Qed.

Lemma starts_snoc l b : starts (l ++ [b]) = starts l ++ (if continuation b then [] else [b]).
Proof.
  unfold starts. rewrite filter_app, filter_cons. simpl. case_decide as H; [by rewrite H|].
  apply not_false_is_true in H. by rewrite H.
Qed.

Lemma column_snoc d l w r : column (mkLine l (widths d ++ [w]) r) = column d + w.
Proof. unfold column. cbn [widths]. rewrite foldr_add_app. simpl. lia. Qed.

(** A byte added to the line. *)
Lemma add_ok d b ws :
  tty_ok d -> clean d -> (continuation b = true -> line d <> []) -> len (line d) < LINE_MAX - 1 ->
  Forall (fun w => 1 <= w <= 8) ws -> length ws = (if continuation b then 0 else 1)%nat ->
  tty_ok (mkLine (line d ++ [b]) (widths d ++ ws) (ready d)) /\ clean (mkLine (line d ++ [b]) (widths d ++ ws) (ready d)).
Proof.
  intros [Hw Hc Hl Hr] Hclean Hstray Hlen Hws Hlw. split.
  - constructor; cbn [line widths ready].
    + rewrite starts_snoc, !length_app, Hw, Hlw. by destruct (continuation b).
    + by apply Forall_app.
    + rewrite len_app. change (len [b]) with 1. lia.
    + done.
  - intros c l. cbn [line]. destruct (line d) as [|c' l'] eqn:Hline; simpl.
    + intros [= <- _]. destruct (continuation b); [by destruct Hstray|done].
    + intros [= <- _]. by eapply Hclean.
Qed.

(** The invariant of a clean discipline whose line is drawn from column
    [base] on, with the cursor at [col]. *)
Definition tracks (base : Z) (d : LineDiscipline) (col : Z) : Prop := tty_ok d /\ clean d /\ col = base + column d.

(** Where the line starts after a byte: a new line of the screen, or, when
    Ctrl-D completes the line, the column it ended at. *)
Definition origin (base : Z) (d : LineDiscipline) (b : Z) : Z :=
  if (b =? CR) || (b =? LF) || (b =? CONTROL_C) then 0
  else if (b =? CONTROL_D) && negb (bool_decide (line d = [])) then base + column d else base.

(** What may be typed next: a byte, and a UTF-8 continuation only inside a
    line. *)
Definition typeable (d : LineDiscipline) (b : Z) : Prop := 0 <= b < 256 /\ (continuation b = true -> line d <> []).

Lemma input_tracks base d b col :
  tracks base d col -> typeable d b -> let '(echo, d') := input d b in tracks (origin base d b) d' (cursor col echo).
Proof.
  intros (Hok & Hc & ->) [Hb Hstray]. pose proof Hok as [Hw Hcs Hl Hr]. unfold input, origin.
  destruct ((b =? CR) || (b =? LF)) eqn:H1.
  { split; [|by split]. apply (complete_ok d); [done| |]; cbn [line]; [by destruct (line d)|]. rewrite len_app. change (len [LF]) with 1. lia. }
  cbn [orb]. destruct ((b =? BACKSPACE) || (b =? DELETE)) eqn:H2.
  { assert (Hne : (b =? CONTROL_C) = false /\ (b =? CONTROL_D) = false)
      by (unfold BACKSPACE, DELETE, CONTROL_C, CONTROL_D in *; lia). destruct Hne as [-> ->]. cbn [andb].
    pose proof (erase_character_spec d Hok) as He. destruct (erase_character d) as [[erased echo] d'].
    destruct He as (Hok' & _ & _ & _ & [k Hk] & Hcur). split; [done|]. split; [by eapply clean_prefix|].
    apply Hcur. by apply clean_widths. }
  destruct (Z.eqb_spec b CONTROL_U) as [->|HU].
  { pose proof (erase_while_spec (fun _ => true) (length (line d)) d [] (base + column d) base Hok Hc eq_refl) as He.
    destruct (erase_while _ _ _ _). destruct He as (H3 & H4 & _ & H5 & _). done. }
  destruct (Z.eqb_spec b CONTROL_W) as [->|HW].
  { pose proof (erase_while_spec (fun b => b =? SPACE) (length (line d)) d [] (base + column d) base Hok Hc eq_refl) as He.
    destruct (erase_while (length (line d)) _ d []) as [echo d1]. destruct He as (Hok1 & Hc1 & _ & Hcur1 & _).
    pose proof (erase_while_spec (fun b => negb (b =? SPACE)) (length (line d1)) d1 echo (base + column d) base Hok1 Hc1 Hcur1) as He.
    destruct (erase_while (length (line d1)) _ d1 echo) as [echo' d2]. destruct He as (H3 & H4 & _ & H5 & _). done. }
  destruct (Z.eqb_spec b CONTROL_D) as [->|HD].
  { case_bool_decide as Hline.
    - split; [|done]. constructor; cbn [line widths ready]; [done..|]. apply Forall_app. split; [done|by repeat constructor].
    - split; [apply complete_ok; [done..|lia]|]. split; [done|].
      change (CONTROL_D =? CONTROL_C) with false. cbn [andb negb cursor]. change (column (complete d)) with 0. lia. }
  cbn [andb]. destruct (Z.eqb_spec b CONTROL_C) as [->|HC].
  { split; [|by split]. by constructor. }
  destruct ((b =? TAB) && (len (line d) <? LINE_MAX - 1)) eqn:H3.
  { bool_to_prop. subst b. pose proof (Z.mod_pos_bound (column d) 8 ltac:(lia)).
    destruct (add_ok d TAB [8 - column d mod 8] Hok Hc Hstray ltac:(done)) as [Hok' Hc']; [constructor; [lia|constructor]|done|].
    split; [done|]. split; [done|]. rewrite cursor_spaces, column_snoc. lia. }
  destruct ((SPACE <=? b) && (len (line d) <? LINE_MAX - 1)) eqn:H4; [|done].
  assert (Hplain : cursor (base + column d) [b] = if continuation b then base + column d else base + column d + 1).
  { bool_to_prop. simpl. destruct (Z.eqb_spec b LF); [unfold LF, SPACE in *; lia|]. destruct (Z.eqb_spec b BACKSPACE); [unfold BACKSPACE, SPACE in *; lia|]. done. }
  bool_to_prop. rewrite Hplain. destruct (continuation b) eqn:Hcb.
  - destruct (add_ok d b [] Hok Hc ltac:(by rewrite Hcb) ltac:(done)) as [Hok' Hc']; [constructor|by rewrite Hcb|].
    rewrite app_nil_r in Hok', Hc'. done.
  - destruct (add_ok d b [1] Hok Hc ltac:(by rewrite Hcb) ltac:(done)) as [Hok' Hc']; [by repeat constructor|by rewrite Hcb|].
    split; [done|]. split; [done|]. rewrite column_snoc. lia.
Qed.

(** ** Typing and reading *)

Fixpoint typeable_all (d : LineDiscipline) (bytes : list Z) : Prop :=
  match bytes with [] => True | b :: bytes => typeable d b /\ typeable_all (snd (input d b)) bytes end.

(** Where the line being edited starts, after all of [bytes]. *)
Fixpoint origin_all (base : Z) (d : LineDiscipline) (bytes : list Z) : Z :=
  match bytes with [] => base | b :: bytes => origin_all (origin base d b) (snd (input d b)) bytes end.

Lemma feed_tracks bytes : forall base d col,
  tracks base d col -> typeable_all d bytes ->
  let '(echo, d') := feed d bytes in tracks (origin_all base d bytes) d' (cursor col echo).
Proof.
  induction bytes as [|b bytes IH]; intros base d col Ht Hb; cbn [feed origin_all]; [done|]. destruct Hb as [Hb Hbs].
  pose proof (input_tracks base d b col Ht Hb) as Hi. destruct (input d b) as [e d1]. cbn [snd] in *. specialize (IH _ d1 _ Hi Hbs).
  destruct (feed d1 bytes) as [es d2]. by rewrite cursor_app.
Qed.

(** The bytes a discipline still has to deliver. *)
Definition pending (r : TtyRecord) : list Z := match r with Line bytes consumed => drop (Z.to_nat consumed) bytes | EndOfFile => [] end.

(** Reads with buffers of these sizes, while something is ready. *)
Fixpoint read_seq (d : LineDiscipline) (sizes : list Z) : list (list Z) * LineDiscipline :=
  match sizes with
  | [] => ([], d)
  | size :: sizes =>
      match read d size with
      | (Some out, d) => let '(outs, d) := read_seq d sizes in (out :: outs, d)
      | (None, d) => ([], d)
      end
  end.

(** One read: bytes of the oldest line only, in order, none lost; nothing at
    all exactly for an end of file. *)
Lemma tty_read_spec d size out d' :
  tty_ok d -> 0 < size -> read d size = (Some out, d') ->
  tty_ok d' /\ line d' = line d /\ widths d' = widths d /\ len out <= size
  /\ exists r rest, ready d = r :: rest
     /\ (out = [] <-> r = EndOfFile)
     /\ (ready d' = rest /\ out = pending r
         \/ exists r', ready d' = r' :: rest /\ pending r = out ++ pending r' /\ pending r' <> []).
Proof.
  intros [Hw Hc Hl Hr] Hs. unfold read. destruct (ready d) as [|[bytes consumed|] rest] eqn:Hready; [done| |].
  - apply Forall_cons in Hr as [[Hcons Hmax] Hr]. set (count := Z.min (len bytes - consumed) size).
    assert (Hcount : 0 < count <= len bytes - consumed) by lia.
    set (o := take (Z.to_nat count) (drop (Z.to_nat consumed) bytes)).
    assert (Hlo : len o = count) by (unfold o, len in *; rewrite length_take, length_drop; lia).
    assert (Hsplit : drop (Z.to_nat consumed) bytes = o ++ drop (Z.to_nat (consumed + count)) bytes).
    { unfold o. replace (Z.to_nat (consumed + count)) with (Z.to_nat consumed + Z.to_nat count)%nat by lia.
      by rewrite <- drop_drop, take_drop. }
    intros [= <- <-]. split.
    { constructor; cbn [line widths ready]; [done..|]. case_if; [done|]. constructor; [lia|done]. }
    do 2 (split; [done|]). split; [lia|]. exists (Line bytes consumed), rest. split; [done|]. split.
    { split; [|done]. intros Ho. rewrite Ho in Hlo. unfold len in Hlo. simpl in Hlo. lia. }
    cbn [ready pending]. case_if.
    + left. split; [done|]. rewrite Hsplit, drop_ge, app_nil_r; [done|]. unfold len in *. lia.
    + right. exists (Line bytes (consumed + count)). split; [done|]. split; [done|]. cbn [pending]. intros Hn.
      apply (f_equal length) in Hn. rewrite length_drop in Hn. unfold len in *. simpl in Hn. lia.
  - apply Forall_cons in Hr as [_ Hr]. intros [= <- <-]. split; [by constructor|]. do 2 (split; [done|]). split; [unfold len; simpl; lia|].
    exists EndOfFile, rest. split; [done|]. split; [done|]. by left.
Qed.

Definition ends (rs : list TtyRecord) : nat := length (filter (fun r => r = EndOfFile) rs).
Definition empties (outs : list (list Z)) : nat := length (filter (fun o => o = []) outs).

Lemma ends_cons r rs : ends (r :: rs) = ((if decide (r = EndOfFile) then 1 else 0) + ends rs)%nat.
Proof. unfold ends. rewrite filter_cons. by case_decide. Qed.
Lemma empties_cons o outs : empties (o :: outs) = ((if decide (o = []) then 1 else 0) + empties outs)%nat.
Proof. unfold empties. rewrite filter_cons. by case_decide. Qed.

Lemma read_seq_spec sizes : forall d,
  tty_ok d -> Forall (fun s => 0 < s) sizes ->
  let '(outs, d') := read_seq d sizes in
  concat outs ++ concat (pending <$> ready d') = concat (pending <$> ready d)
  /\ (empties outs + ends (ready d') = ends (ready d))%nat.
Proof.
  induction sizes as [|size sizes IH]; intros d Hok Hs; cbn [read_seq]; [done|]. apply Forall_cons in Hs as [Hsize Hs].
  destruct (read d size) as [[out|] d1] eqn:Hread.
  2: { assert (d1 = d) as -> by (unfold read in Hread; destruct (ready d) as [|[]]; by simplify_eq). done. }
  destruct (tty_read_spec _ _ _ _ Hok Hsize Hread) as (Hok1 & _ & _ & _ & r & rest & Hr & Hempty & Hcases).
  specialize (IH d1 Hok1 Hs). destruct (read_seq d1 sizes) as [outs d']. destruct IH as [IH1 IH2].
  rewrite Hr, empties_cons, ends_cons. cbn [concat fmap list_fmap]. rewrite <- app_assoc, IH1.
  destruct Hcases as [[Hrest ->]|(r' & Hrest & Hp & Hne)]; rewrite Hrest in IH2 |- *.
  - split; [done|]. destruct (decide (pending r = [])) as [H|H], (decide (r = EndOfFile)) as [H'|H']; tauto || lia.
  - cbn [fmap list_fmap concat]. split; [by rewrite app_assoc, <- Hp|]. rewrite ends_cons in IH2.
    assert (r <> EndOfFile) by (intros ->; symmetry in Hp; by apply app_eq_nil in Hp as [_ ?]).
    rewrite decide_False in IH2 by (by intros ->). rewrite (decide_False (P := r = EndOfFile)), decide_False by tauto. lia.
Qed.

Lemma new_tracks : tracks 0 new 0.
Proof. split; [by constructor|]. by split. Qed.

(** The console's screen and its line agree: whatever is typed, editing
    keys included, the cursor is where the line was started plus the columns of
    its characters (so erasing takes back exactly what was drawn, tabs too),
    each character has one width, the line stays below 4096 bytes, and every
    completed line has something to read. *)
Theorem echo_tracks_line bytes :
  typeable_all new bytes ->
  let '(echo, d) := feed new bytes in
  cursor 0 echo = origin_all 0 new bytes + column d /\ length (widths d) = length (starts (line d)) /\ len (line d) < LINE_MAX
  /\ Forall (fun r => pending r = [] -> r = EndOfFile) (ready d).
Proof.
  intros Hb. pose proof (feed_tracks bytes 0 new 0 new_tracks Hb) as H. destruct (feed new bytes) as [echo d].
  destruct H as ([Hw Hc Hl Hr] & _ & Hcol). do 3 (split; [done|]). eapply Forall_impl; [exact Hr|]. intros [l c|]; [|done].
  intros Hx Hn. apply (f_equal length) in Hn. simpl in Hn. rewrite length_drop in Hn. unfold len in *. lia.
Qed.

(** Typing [ab], a tab, an é, Backspace and Ctrl-W. *)
Definition typed : list Z := [97; 98; 9; 195; 169; 127; 23; 120; 13].
Lemma echo_tracks_line_witness : typeable_all new typed /\ cursor 0 (fst (feed new typed)) = origin_all 0 new typed.
Proof.
  assert (H : typeable_all new typed) by (vm_compute; repeat split; discriminate || congruence).
  split; [exact H|]. pose proof (echo_tracks_line typed H) as Ht. destruct (feed new typed) as [echo d] eqn:He.
  destruct Ht as [Ht _]. cbn [fst]. rewrite Ht. vm_compute in He. injection He as _ <-. vm_compute. reflexivity.
Defined.

(** Reading the console loses and reorders nothing: whatever the sizes of
    the buffers, the bytes read followed by those still pending are the
    completed lines in order, and a read that returns nothing is exactly an
    end of file typed as one. *)
Theorem reads_deliver_lines bytes sizes :
  typeable_all new bytes -> Forall (fun s => 0 < s) sizes ->
  let d := snd (feed new bytes) in
  let '(outs, d') := read_seq d sizes in
  concat outs ++ concat (pending <$> ready d') = concat (pending <$> ready d)
  /\ (empties outs + ends (ready d') = ends (ready d))%nat.
Proof.
  intros Hb Hs. pose proof (feed_tracks bytes 0 new 0 new_tracks Hb) as H. destruct (feed new bytes) as [echo d].
  apply read_seq_spec; [apply H|done].
Qed.

Lemma reads_deliver_lines_witness :
  concat (fst (read_seq (snd (feed new [97; 98; 10; 4; 99; 4])) [1; 5; 5; 5])) = [97; 98; 10; 99].
Proof.
  assert (Hb : typeable_all new [97; 98; 10; 4; 99; 4]) by (vm_compute; repeat split; discriminate || congruence).
  assert (Hs : Forall (fun s => 0 < s) [1; 5; 5; 5]) by (repeat constructor).
  pose proof (reads_deliver_lines _ _ Hb Hs) as H. vm_compute in H |- *. destruct H as [H _]. exact H.
Defined.
End Tty.
