(* ===== verification/Keyboard.v ===== *)
(** * Keyboard: from keys to lines
      ([drivers/keyboard.rs], [read_console] of [drivers/tty.rs])

    The keyboard interrupt turns scancodes into bytes in a ring of 256; a reader
    drains the ring into the line discipline ([Tty]) and takes a line, or sleeps
    until a byte arrives.  The discipline's lock masks interrupts, so a round of
    the reader is one step; the check before sleeping is another, made with
    interrupts off ([wait_event]).  Interrupts come between any two steps.

    Proved: the ring is a queue that drops what does not fit; a reader sleeps
    only while the ring is empty; a line typed on the keys, with the keys and the
    reader in any order, is what the read returns. *)

From stdpp Require Import base numbers strings list.
From S2P Require Import Prelude Text Tty.
Local Open Scope Z_scope.

Module Keyboard.

(** ** The ring *)

Definition KEY_BUFFER_CAPACITY : Z := 256.

Record KeyQueue := mkQueue { buffer : list Z; head : Z; tail : Z; count : Z }.

Definition new_queue : KeyQueue := mkQueue (replicate 256 0) 0 0 0.

Definition push (q : KeyQueue) (c : Z) : KeyQueue :=
  if count q <? KEY_BUFFER_CAPACITY
  then mkQueue (<[Z.to_nat (tail q) := c]> (buffer q)) (head q) ((tail q + 1) mod KEY_BUFFER_CAPACITY) (count q + 1)
  else q.

Definition is_empty (q : KeyQueue) : bool := count q =? 0.

(** The index is in range under the invariant ([pop_spec]). *)
Definition pop (q : KeyQueue) : option Z * KeyQueue :=
  if count q =? 0 then (None, q)
  else (Some (default 0 (buffer q !! Z.to_nat (head q))),
        mkQueue (buffer q) ((head q + 1) mod KEY_BUFFER_CAPACITY) (tail q) (count q - 1)).

(** ** Scancodes *)

Record KeyboardState := mkState { lshift : bool; rshift : bool; caps_lock : bool; control : bool }.

#[global] Instance KeyboardState_eq_dec : EqDecision KeyboardState.
Proof. solve_decision. Defined.

Definition is_shifted (k : KeyboardState) : bool := xorb (lshift k || rshift k) (caps_lock k).

(** What a key gives: the same always, a letter (capital, small) or a symbol (shifted, plain). *)
Inductive Key := Fixed (c : Z) | Letter (upper lower : Z) | Symbol (shifted plain : Z).

Definition KEYS : list (Z * Key) :=
  [(0x01, Fixed 27); (0x02, Symbol 33 49); (0x03, Symbol 64 50); (0x04, Symbol 35 51); (0x05, Symbol 36 52);
   (0x06, Symbol 37 53); (0x07, Symbol 94 54); (0x08, Symbol 38 55); (0x09, Symbol 42 56); (0x0a, Symbol 40 57);
   (0x0b, Symbol 41 48); (0x0c, Symbol 95 45); (0x0d, Symbol 43 61); (0x0e, Fixed 8); (0x0f, Fixed 9);
   (0x10, Letter 81 113); (0x11, Letter 87 119); (0x12, Letter 69 101); (0x13, Letter 82 114); (0x14, Letter 84 116);
   (0x15, Letter 89 121); (0x16, Letter 85 117); (0x17, Letter 73 105); (0x18, Letter 79 111); (0x19, Letter 80 112);
   (0x1a, Symbol 123 91); (0x1b, Symbol 125 93); (0x1c, Fixed 10); (0x1e, Letter 65 97); (0x1f, Letter 83 115);
   (0x20, Letter 68 100); (0x21, Letter 70 102); (0x22, Letter 71 103); (0x23, Letter 72 104); (0x24, Letter 74 106);
   (0x25, Letter 75 107); (0x26, Letter 76 108); (0x27, Symbol 58 59); (0x28, Symbol 34 39); (0x29, Symbol 126 96);
   (0x2b, Symbol 124 92); (0x2c, Letter 90 122); (0x2d, Letter 88 120); (0x2e, Letter 67 99); (0x2f, Letter 86 118);
   (0x30, Letter 66 98); (0x31, Letter 78 110); (0x32, Letter 77 109); (0x33, Symbol 60 44); (0x34, Symbol 62 46);
   (0x35, Symbol 63 47); (0x39, Fixed 32)].

Definition key (scancode : Z) : option Key := snd <$> List.find (fun e => e.1 =? scancode) KEYS.

Definition key_char (k : KeyboardState) (key : Key) : Z :=
  match key with
  | Fixed c => c
  | Letter upper lower => if is_shifted k then upper else lower
  | Symbol shifted plain => if lshift k || rshift k then shifted else plain
  end.

Definition is_alphabetic (b : Z) : bool := between 65 b 90 || between 97 b 122.
Definition to_lowercase (b : Z) : Z := if between 65 b 90 then b + 32 else b.

(** [handle_scancode]: the new state and the byte it queues. *)
Definition decode (k : KeyboardState) (scancode : Z) : KeyboardState * option Z :=
  if scancode =? 0x2a then (mkState true (rshift k) (caps_lock k) (control k), None)
  else if scancode =? 0xaa then (mkState false (rshift k) (caps_lock k) (control k), None)
  else if scancode =? 0x36 then (mkState (lshift k) true (caps_lock k) (control k), None)
  else if scancode =? 0xb6 then (mkState (lshift k) false (caps_lock k) (control k), None)
  else if scancode =? 0x3a then (mkState (lshift k) (rshift k) (negb (caps_lock k)) (control k), None)
  else if scancode =? 0x1d then (mkState (lshift k) (rshift k) (caps_lock k) true, None)
  else if scancode =? 0x9d then (mkState (lshift k) (rshift k) (caps_lock k) false, None)
  else if negb (Z.land scancode 0x80 =? 0) then (k, None)
  else
    match key scancode with
    | Some key =>
        let byte := key_char k key in
        (k, Some (if control k && is_alphabetic byte then Z.land (to_lowercase byte) 0x1f else byte))
    | None => (k, None)
    end.

(** ** The console *)

Inductive Reader := Reading | Checking | Waiting | Returned (bytes : list Z).

Record Console := mkConsole {
  keyboard : KeyboardState; queue : KeyQueue; discipline : Tty.LineDiscipline; echoed : list Z; reader : Reader }.

(** The keyboard interrupt: [push_input] queues the byte and wakes a sleeping reader. *)
Definition handle_scancode (c : Console) (scancode : Z) : Console :=
  let '(k, byte) := decode (keyboard c) scancode in
  match byte with
  | Some b => mkConsole k (push (queue c) b) (discipline c) (echoed c) (match reader c with Waiting => Reading | r => r end)
  | None => mkConsole k (queue c) (discipline c) (echoed c) (reader c)
  end.

(** [while let Some(byte) = pop_byte() { console.input(byte) }]; the ring holds at most 256 bytes. *)
Fixpoint drain (fuel : nat) (q : KeyQueue) (d : Tty.LineDiscipline) (echo : list Z) : KeyQueue * Tty.LineDiscipline * list Z :=
  match fuel with
  | O => (q, d, echo)
  | S fuel =>
      let '(byte, q) := pop q in
      match byte with
      | None => (q, d, echo)
      | Some b => let '(e, d) := Tty.input d b in drain fuel q d (echo ++ e)
      end
  end.

(** A step of [read_console] with a buffer of [size] bytes. *)
Definition read_round (c : Console) (size : Z) : Console :=
  let '(q, d, echo) := drain 257 (queue c) (discipline c) [] in
  let '(result, d) := Tty.read d size in
  mkConsole (keyboard c) q d (echoed c ++ echo) (match result with Some bytes => Returned bytes | None => Checking end).

Definition reader_step (c : Console) (size : Z) : Console :=
  match reader c with
  | Reading => if size =? 0 then mkConsole (keyboard c) (queue c) (discipline c) (echoed c) (Returned []) else read_round c size
  | Checking => mkConsole (keyboard c) (queue c) (discipline c) (echoed c) (if is_empty (queue c) then Waiting else Reading)
  | _ => c
  end.

(** What happens next: a scancode or a step of the reader. *)
Inductive Event := Scancode (code : Z) | ReaderStep.

Definition step (size : Z) (c : Console) (e : Event) : Console :=
  match e with Scancode code => handle_scancode c code | ReaderStep => reader_step c size end.

Definition run (size : Z) (c : Console) (es : list Event) : Console := foldl (step size) c es.

(** ** The ring is a queue *)

Definition queue_ok (q : KeyQueue) : Prop :=
  length (buffer q) = 256%nat /\ 0 <= head q < 256 /\ 0 <= count q <= 256 /\ tail q = (head q + count q) mod 256.

Definition slot (q : KeyQueue) (i : Z) : Z := default 0 (buffer q !! Z.to_nat ((head q + i) mod 256)).
Definition contents (q : KeyQueue) : list Z := slot q <$> seqZ 0 (count q).

Lemma length_contents q : queue_ok q -> Z.of_nat (length (contents q)) = count q.
Proof. intros (_ & _ & Hc & _). unfold contents. rewrite length_fmap, length_seqZ. lia. Qed.

Lemma mod_add_ne a i j : 0 <= i < 256 -> 0 <= j < 256 -> i <> j -> (a + i) mod 256 <> (a + j) mod 256.
Proof.
  intros Hi Hj Hne Heq. pose proof (Z.div_mod (a + i) 256 ltac:(lia)). pose proof (Z.div_mod (a + j) 256 ltac:(lia)). lia.
Qed.

Lemma push_key_spec q c : queue_ok q -> queue_ok (push q c) /\ contents (push q c) = if count q <? 256 then contents q ++ [c] else contents q.
Proof.
  intros (Hl & Hh & Hc & Ht). unfold push, KEY_BUFFER_CAPACITY. destruct (Z.ltb_spec (count q) 256) as [Hlt|]; [|done]. split.
  - split_and!; cbn; try lia; [by rewrite length_insert|]. rewrite Ht, Z.add_mod_idemp_l by lia. f_equal. lia.
  - unfold contents. cbn [count]. rewrite seqZ_app, fmap_app by lia. f_equal.
    + apply list_fmap_ext. intros j i Hj. apply list_elem_of_lookup_2, elem_of_seqZ in Hj. unfold slot. cbn [buffer head].
      pose proof (mod_add_ne (head q) i (count q) ltac:(lia) ltac:(lia) ltac:(lia)) as Hne.
      pose proof (Z.mod_pos_bound (head q + i) 256 ltac:(lia)). pose proof (Z.mod_pos_bound (head q + count q) 256 ltac:(lia)).
      rewrite list_lookup_insert_ne; [done|]. rewrite Ht. lia.
    + rewrite seqZ_cons by lia. cbn [fmap list_fmap]. f_equal. unfold slot. cbn [buffer head]. rewrite Z.add_0_l, <- Ht.
      pose proof (Z.mod_pos_bound (head q + count q) 256 ltac:(lia)). rewrite list_lookup_insert_eq; [done|]. lia.
Qed.

Lemma pop_spec q :
  queue_ok q ->
  match pop q with
  | (None, q') => contents q = [] /\ q' = q
  | (Some b, q') => contents q = b :: contents q' /\ queue_ok q' /\ is_Some (buffer q !! Z.to_nat (head q))
  end.
Proof.
  intros (Hl & Hh & Hc & Ht). unfold pop, KEY_BUFFER_CAPACITY. destruct (Z.eqb_spec (count q) 0) as [H0|H0].
  { split; [|done]. unfold contents. by rewrite H0. }
  split; [|split; [split_and!; cbn; try lia; [apply Z.mod_pos_bound; lia..|]|apply lookup_lt_is_Some_2; lia]].
  - unfold contents. cbn [count]. rewrite seqZ_cons by lia. cbn [fmap list_fmap]. f_equal.
    { unfold slot. rewrite Z.add_0_r, Z.mod_small by lia. done. }
    replace (Z.pred (count q)) with (count q - 1) by lia. apply list_eq. intros k. rewrite !list_lookup_fmap.
    destruct (decide (Z.of_nat k < count q - 1)).
    + rewrite !lookup_seqZ_lt by lia. cbn. unfold slot. cbn [buffer head]. rewrite Z.add_mod_idemp_l by lia. do 5 f_equal. lia.
    + by rewrite !lookup_seqZ_ge by lia.
  - rewrite Ht, Z.add_mod_idemp_l by lia. f_equal. lia.
Qed.

Lemma drain_spec fuel q d echo :
  queue_ok q -> (length (contents q) < fuel)%nat ->
  exists q', drain fuel q d echo = (q', (Tty.feed d (contents q)).2, echo ++ (Tty.feed d (contents q)).1) /\ queue_ok q' /\ contents q' = [].
Proof.
  revert q d echo. induction fuel as [|fuel IH]; intros q d echo Hok Hf; [lia|]. cbn [drain]. pose proof (pop_spec q Hok) as Hp.
  destruct (pop q) as [[b|] q1].
  - destruct Hp as (Hc & Hok1 & _). rewrite Hc in Hf |- *. cbn [length] in Hf. cbn [Tty.feed]. destruct (Tty.input d b) as [e d1].
    destruct (IH q1 d1 (echo ++ e) Hok1 ltac:(lia)) as (q' & -> & H). exists q'. split; [|done].
    destruct (Tty.feed d1 (contents q1)). cbn. by rewrite app_assoc.
  - destruct Hp as [Hc ->]. exists q. rewrite Hc. cbn. by rewrite app_nil_r.
Qed.

(** ** Typing *)

(** The bytes a sequence of scancodes queues. *)
Fixpoint emit (k : KeyboardState) (codes : list Z) : KeyboardState * list Z :=
  match codes with
  | [] => (k, [])
  | code :: codes => let '(k, b) := decode k code in let '(k, bs) := emit k codes in (k, option_list b ++ bs)
  end.

Lemma emit_app k a b : emit k (a ++ b) = let '(k1, x) := emit k a in let '(k2, y) := emit k1 b in (k2, x ++ y).
Proof.
  revert k. induction a as [|code a IH]; intros k; cbn [app emit]; [by destruct (emit k b)|].
  destruct (decode k code) as [k1 o]. rewrite IH. destruct (emit k1 a) as [k2 x]. destruct (emit k2 b). by rewrite app_assoc.
Qed.

Definition at_rest (caps : bool) : KeyboardState := mkState false false caps false.

(** A US keyboard: rows of keys with the scancode of the first (set 1), what is
    printed on them and what they type with shift. *)
Definition legend (text : string) : list Z := (fun c => Z.of_nat (Ascii.nat_of_ascii c)) <$> String.list_ascii_of_string text.
Definition US_ROWS : list (Z * list Z * list Z) :=
  [(0x02, legend "1234567890-=", legend "!@#$%^&*()_+");
   (0x10, legend "qwertyuiop[]", legend "QWERTYUIOP{}");
   (0x1e, legend "asdfghjkl;'`", legend "ASDFGHJKL:" ++ [34] ++ legend "~");
   (0x2b, legend "\zxcvbnm,./", legend "|ZXCVBNM<>?");
   (0x39, legend " ", legend " ");
   (0x1c, [10], [10])].
(** The keys as (scancode, plain, shifted). *)
Definition US_KEYS : list (Z * Z * Z) :=
  r ← US_ROWS; (fun e : nat * (Z * Z) => (r.1.1 + Z.of_nat e.1, e.2.1, e.2.2)) <$> imap (fun i e => (i, e)) (zip r.1.2 r.2).
(** The key of a character, and whether the character is its shifted one. *)
Definition us_key (c : Z) : option (Z * bool) :=
  match List.find (fun e => e.1.2 =? c) US_KEYS with
  | Some e => Some (e.1.1, false)
  | None => match List.find (fun e => e.2 =? c) US_KEYS with Some e => Some (e.1.1, true) | None => None end
  end.

(** Press and release, holding the right or the left shift key where shift is
    needed: caps lock turns the letters round. *)
Definition keystrokes (right caps : bool) (c : Z) : list Z :=
  match us_key c with
  | Some (code, shifted) =>
      let shift := if (65 <=? c) && (c <=? 90) || (97 <=? c) && (c <=? 122) then xorb shifted caps else shifted in
      let shift_key := if right then 0x36 else 0x2a in
      if shift then [shift_key; code; code + 0x80; shift_key + 0x80] else [code; code + 0x80]
  | None => []
  end.
(** A text typed after caps lock was switched on or not. *)
Definition typing (right caps : bool) (text : list Z) : list Z :=
  (if caps then [0x3a; 0x3a + 0x80] else []) ++ concat (keystrokes right caps <$> text).

(** Every printable character and the newline can be typed. *)
Definition typed (right caps : bool) (c : Z) : bool := bool_decide (emit (at_rest caps) (keystrokes right caps c) = (at_rest caps, [c])).

Lemma typed_all right caps c : c = 10 \/ 32 <= c <= 126 -> typed right caps c = true.
Proof.
  assert (H : forallb (fun right => forallb (fun caps => forallb (typed right caps) (10 :: seqZ 32 95)) [true; false]) [true; false] = true) by (vm_compute; done).
  intros Hc. rewrite forallb_forall in H. specialize (H right ltac:(destruct right; cbn; tauto)). rewrite forallb_forall in H.
  specialize (H caps ltac:(destruct caps; cbn; tauto)). rewrite forallb_forall in H.
  apply H. destruct Hc as [->|Hc]; [by left|]. right. apply list_elem_of_In, elem_of_seqZ. lia.
Qed.

Lemma emit_strokes right caps text :
  Forall (fun c => c = 10 \/ 32 <= c <= 126) text -> emit (at_rest caps) (concat (keystrokes right caps <$> text)) = (at_rest caps, text).
Proof.
  induction 1 as [|c text Hc _ IH]; [done|]. cbn [fmap list_fmap concat]. rewrite emit_app.
  pose proof (typed_all right caps c Hc) as Ht%bool_decide_eq_true. by rewrite Ht, IH.
Qed.

Lemma emit_typing right caps text :
  Forall (fun c => c = 10 \/ 32 <= c <= 126) text -> emit (at_rest false) (typing right caps text) = (at_rest caps, text).
Proof.
  intros Ht. unfold typing. rewrite emit_app. replace (emit (at_rest false) (if caps then _ else [])) with (at_rest caps, @nil Z) by (by destruct caps).
  by rewrite emit_strokes.
Qed.

(** ** The line *)

Definition printable_text (l : list Z) : Prop := Forall (fun c => 32 <= c <= 126) l.

Lemma input_printable d b :
  32 <= b <= 126 -> len (Tty.line d) < 4095 -> exists e ws, Tty.input d b = (e, Tty.mkLine (Tty.line d ++ [b]) ws (Tty.ready d)).
Proof.
  intros Hb Hl. unfold Tty.input, Tty.CR, Tty.LF, Tty.BACKSPACE, Tty.DELETE, Tty.CONTROL_U, Tty.CONTROL_W, Tty.CONTROL_D, Tty.CONTROL_C, Tty.TAB, Tty.SPACE, Tty.LINE_MAX.
  repeat match goal with |- context [b =? ?k] => destruct (Z.eqb_spec b k); [lia|] end.
  destruct (Z.leb_spec 32 b); [|lia]. destruct (Z.ltb_spec (len (Tty.line d)) (4096 - 1)); [|lia]. cbn. by eexists _, _.
Qed.

Lemma feed_app d a b : (Tty.feed d (a ++ b)).2 = (Tty.feed (Tty.feed d a).2 b).2.
Proof.
  revert d. induction a as [|x a IH]; intros d; [done|]. cbn [app Tty.feed]. destruct (Tty.input d x) as [e d1].
  specialize (IH d1). destruct (Tty.feed d1 (a ++ b)), (Tty.feed d1 a). exact IH.
Qed.

Lemma feed_printable d l :
  printable_text l -> len (Tty.line d) + len l < 4096 -> Tty.line (Tty.feed d l).2 = Tty.line d ++ l /\ Tty.ready (Tty.feed d l).2 = Tty.ready d.
Proof.
  intros Hl. revert d. induction Hl as [|b l Hb _ IH]; intros d Hlen; [by rewrite app_nil_r|]. cbn [Tty.feed].
  change (b :: l) with ([b] ++ l) in *. rewrite len_app in Hlen. change (len [b]) with 1 in Hlen. pose proof (len_nonneg l).
  destruct (input_printable d b Hb ltac:(lia)) as (e & ws & ->).
  destruct (IH (Tty.mkLine (Tty.line d ++ [b]) ws (Tty.ready d))) as [H1 H2]; [cbn [Tty.line]; rewrite len_app; change (len [b]) with 1; lia|].
  destruct (Tty.feed _ l). cbn in *. by rewrite H1, <- app_assoc.
Qed.

(** A beginning of the line makes nothing ready, the whole line does. *)
Lemma feed_prefix l p : printable_text l -> len l < 256 -> p `prefix_of` l ++ [10] ->
  Tty.ready (Tty.feed Tty.new p).2 = if bool_decide (p = l ++ [10]) then [Tty.Line (l ++ [10]) 0] else [].
Proof.
  intros Hl Hlen [k Hk]. case_bool_decide as Hp.
  - subst p. rewrite feed_app. destruct (feed_printable Tty.new l Hl) as [H1 H2]; [cbn; unfold len in *; cbn; lia|].
    destruct (Tty.feed Tty.new l) as [e d]. cbn in *. by rewrite H1, H2.
  - destruct k as [|x k _] using rev_ind; [rewrite app_nil_r in Hk; done|]. rewrite app_assoc in Hk. apply app_inj_tail in Hk as [Hk _].
    subst l. apply Forall_app in Hl as [Hl _]. rewrite len_app in Hlen. pose proof (len_nonneg k).
    destruct (feed_printable Tty.new p Hl) as [_ H2]; [cbn; unfold len in *; cbn; lia|]. done.
Qed.

(** ** The run *)

Definition start : Console := mkConsole (at_rest false) new_queue Tty.new [] Reading.

Fixpoint codes (es : list Event) : list Z :=
  match es with [] => [] | Scancode code :: es => code :: codes es | ReaderStep :: es => codes es end.

Lemma codes_app a b : codes (a ++ b) = codes a ++ codes b.
Proof. induction a as [|[code|] a IH]; cbn; [done|by rewrite IH|done]. Qed.

Section Run.
Context (l : list Z) (size : Z).
Hypothesis Hl : printable_text l.
Hypothesis Hlen : len l < 256.
Hypothesis Hsize : 0 < size.

Definition answer : list Z := take (Z.to_nat size) (l ++ [10]).

(** After the scancodes [cs]: what the discipline was given and what waits in
    the ring are the bytes typed so far. *)
Definition run_ok (cs : list Z) (c : Console) : Prop :=
  keyboard c = (emit (at_rest false) cs).1 /\ queue_ok (queue c) /\
  (reader c = Returned answer \/
   exists fed, (emit (at_rest false) cs).2 = fed ++ contents (queue c) /\ discipline c = (Tty.feed Tty.new fed).2 /\
     match reader c with
     | Reading => True
     | Checking => fed <> l ++ [10]
     | Waiting => fed <> l ++ [10] /\ contents (queue c) = []
     | Returned _ => False
     end).

Lemma new_queue_ok : queue_ok new_queue.
Proof. by repeat split. Qed.

Lemma reader_start_ok : run_ok [] start.
Proof. split; [done|]. split; [apply new_queue_ok|]. right. by exists []. Qed.

Lemma contents_empty q : queue_ok q -> is_empty q = bool_decide (contents q = []).
Proof.
  intros Hok. pose proof (length_contents q Hok). unfold is_empty. destruct (Z.eqb_spec (count q) 0), (contents q); cbn in *; try done; lia.
Qed.

Lemma scancode_ok cs code c :
  run_ok cs c -> (emit (at_rest false) (cs ++ [code])).2 `prefix_of` l ++ [10] -> run_ok (cs ++ [code]) (handle_scancode c code).
Proof.
  intros (Hk & Hq & Hr). unfold run_ok. rewrite emit_app. unfold handle_scancode. rewrite Hk.
  destruct (emit (at_rest false) cs) as [k bs] eqn:He. cbn [fst snd emit] in *. destruct (decode k code) as [k' [b|]].
  - cbn [fst snd]. change (option_list (Some b) ++ []) with [b]. intros Hpre. cbn [keyboard queue reader discipline]. destruct (push_key_spec (queue c) b Hq) as [Hq' Hc]. split; [done|]. split; [done|].
    destruct Hr as [->|(fed & Hbs & Hd & Hst)]; [by left|].
    assert (Hlt : count (queue c) < 256).
    { apply prefix_length in Hpre. rewrite !length_app, Hbs, length_app in Hpre. pose proof (length_contents _ Hq). unfold len in Hlen. cbn in Hpre. lia. }
    apply Z.ltb_lt in Hlt. rewrite Hlt in Hc. right. exists fed. rewrite Hc, Hbs, app_assoc. split; [done|]. split; [done|].
    destruct (reader c); [done|done|done|done].
  - cbn [fst snd]. change (@option_list Z None ++ []) with (@nil Z). rewrite app_nil_r. intros _. by split_and!.
Qed.

Lemma reader_ok cs c :
  run_ok cs c -> (emit (at_rest false) cs).2 `prefix_of` l ++ [10] -> run_ok cs (reader_step c size).
Proof.
  intros (Hk & Hq & Hr) Hpre. unfold reader_step. destruct Hr as [Hret|(fed & Hbs & Hd & Hst)].
  { rewrite Hret. split; [done|]. split; [done|]. by left. }
  destruct (reader c) eqn:Er; [| |split; [done|]; split; [done|]; right; exists fed; by rewrite Er|done].
  - destruct (Z.eqb_spec size 0); [lia|]. unfold read_round.
    assert (Hb : (length (contents (queue c)) < 257)%nat).
    { pose proof (length_contents _ Hq). destruct Hq as (_ & _ & Hc & _). lia. }
    destruct (drain_spec 257 (queue c) (discipline c) [] Hq Hb) as (q' & -> & Hq' & He).
    set (d := (Tty.feed _ _).2). assert (Hdd : d = (Tty.feed Tty.new (fed ++ contents (queue c))).2) by (subst d; rewrite Hd; symmetry; apply feed_app).
    assert (Hready : Tty.ready d = if bool_decide (fed ++ contents (queue c) = l ++ [10]) then [Tty.Line (l ++ [10]) 0] else []).
    { rewrite Hdd. apply feed_prefix; [done|done|by rewrite <- Hbs]. }
    clearbody d. unfold Tty.read. rewrite Hready. case_bool_decide as Hall.
    + split; [done|]. split; [done|]. left. cbn [reader]. unfold answer. rewrite drop_0, Z.sub_0_r. f_equal.
      destruct (Z.le_ge_cases (len (l ++ [10])) size).
      * rewrite Z.min_l by done. rewrite !take_ge; [done|unfold len in *; lia..].
      * by rewrite Z.min_r.
    + split; [done|]. split; [done|]. right. exists (fed ++ contents (queue c)). cbn [queue discipline reader]. rewrite He, app_nil_r. done.
  - rewrite contents_empty by done. split; [done|]. split; [done|]. right. exists fed. cbn [queue discipline reader]. case_bool_decide as Hc; done.
Qed.

Lemma emit_prefix cs cs' : (emit (at_rest false) cs).2 `prefix_of` (emit (at_rest false) (cs ++ cs')).2.
Proof. rewrite emit_app. destruct (emit _ cs) as [k x]. destruct (emit k cs') as [k' y]. by exists y. Qed.

Lemma run_prefix_ok es c cs :
  run_ok cs c -> (emit (at_rest false) (cs ++ codes es)).2 `prefix_of` l ++ [10] -> run_ok (cs ++ codes es) (run size c es).
Proof.
  revert c cs. induction es as [|e es IH]; intros c cs Hok Hpre; [cbn; by rewrite app_nil_r|].
  change (run size c (e :: es)) with (run size (step size c e) es). destruct e as [code|]; cbn [codes step] in *.
  - rewrite (cons_middle code cs), app_assoc in *. apply IH; [|done]. apply scancode_ok; [done|]. etransitivity; [apply emit_prefix|exact Hpre].
  - apply IH; [|done]. apply reader_ok; [done|]. etransitivity; [apply emit_prefix|exact Hpre].
Qed.

Lemma all_typed_returns cs c :
  run_ok cs c -> (emit (at_rest false) cs).2 = l ++ [10] -> reader (reader_step (reader_step c size) size) = Returned answer.
Proof.
  intros Hok He.
  assert (H1 : run_ok cs (reader_step c size)) by (apply reader_ok; [done|by rewrite He]).
  assert (H2 : run_ok cs (reader_step (reader_step c size) size)) by (apply reader_ok; [done|by rewrite He]).
  assert (Hwait : forall c', run_ok cs c' -> reader c' <> Waiting).
  { intros c' (_ & _ & [Hr|(fed & Hb & _ & Hst)]) Hw; [congruence|]. rewrite Hw in Hst. destruct Hst as [Hne Hem]. rewrite Hem, app_nil_r in Hb. congruence. }
  assert (Hround : forall c', run_ok cs c' -> reader c' = Reading -> reader (reader_step c' size) = Returned answer).
  { intros c' Hc' Hr. pose proof (reader_ok cs c' Hc' ltac:(by rewrite He)) as (_ & _ & [?|(fed & Hb & _ & Hst)]); [done|]. exfalso. revert Hb Hst.
    unfold reader_step. rewrite Hr. destruct (Z.eqb_spec size 0); [lia|]. unfold read_round. destruct Hc' as (_ & Hq & _).
    assert (Hb : (length (contents (queue c')) < 257)%nat).
    { pose proof (length_contents _ Hq). destruct Hq as (_ & _ & Hc & _). lia. }
    destruct (drain_spec 257 (queue c') (discipline c') [] Hq Hb) as (q' & -> & _ & Hem). destruct (Tty.read _ size) as [[r|] d']; cbn [queue reader]; [done|].
    rewrite Hem, app_nil_r. congruence. }
  assert (Hdone : forall c', reader c' = Returned answer -> reader (reader_step c' size) = Returned answer).
  { intros c' Hr. unfold reader_step. by rewrite Hr. }
  destruct (reader c) eqn:Er.
  - apply Hdone, Hround; done.
  - apply Hround; [done|]. pose proof (Hwait _ H1) as Hw. revert Hw. unfold reader_step. rewrite Er. cbn [reader]. by destruct (is_empty (queue c)).
  - by destruct (Hwait c Hok).
  - destruct Hok as (_ & _ & [Hr|(fed & _ & _ & Hst)]); [|by rewrite Er in Hst]. rewrite Hr in Er. apply Hdone, Hdone. by rewrite Hr.
Qed.

End Run.

(** C34. A line typed on the keys of a US keyboard ([US_ROWS]) is what [read] returns:
    whatever printable characters it has (up to 255), with either shift key, with caps
    lock switched on before or not, and however the scancodes and the reader's steps
    interleave, two more steps of the reader after the last key give as much of the
    line, with its newline, as the buffer holds; the reader never sleeps through it. *)
Theorem typed_line_is_read right caps l size es :
  printable_text l -> len l < 256 -> 0 < size -> codes es = typing right caps (l ++ [10]) ->
  reader (run size start (es ++ [ReaderStep; ReaderStep])) = Returned (take (Z.to_nat size) (l ++ [10])).
Proof.
  intros Hl Hlen Hs Hes. unfold run. rewrite foldl_app. cbn [foldl step].
  assert (He : (emit (at_rest false) ([] ++ codes es)).2 = l ++ [10]).
  { cbn [app]. rewrite Hes, emit_typing; [done|]. apply Forall_app. split; [|by constructor; [left|]]. eapply Forall_impl; [exact Hl|]. cbn. tauto. }
  eapply (all_typed_returns l size Hl Hlen Hs _ _ (run_prefix_ok l size Hl Hlen Hs es start [] (reader_start_ok l size) _) He).
  Unshelve. by rewrite He.
Qed.

(** "Ok" with caps lock on; the reader sleeps before the first key and wakes up. *)
Lemma typed_line_is_read_witness :
  reader (run 80 start ((ReaderStep :: ReaderStep :: (Scancode <$> [0x3a; 0xba; 0x18; 0x98; 0x36; 0x25; 0xa5; 0xb6; 0x1c; 0x9c])) ++ [ReaderStep; ReaderStep]))
  = Returned [79; 107; 10].
Proof.
  apply (typed_line_is_read true true [79; 107] 80).
  - repeat constructor; lia.
  - done.
  - lia.
  - vm_compute. done.
Defined.

End Keyboard.
