(* ===== verification/Heap.v ===== *)
(** * Heap: memory as words, and the kernel's static heap *)

From Stdlib Require Import ZArith Lia Permutation.
From stdpp Require Import base gmap sorting numbers list.
From S2P Require Import Prelude.

(** * Pieces of memory

    What the two heaps share: the [Layout] of a request ([core::alloc]), the
    words of memory in which free blocks keep their links, and sets of blocks
    that tile a range: pairwise disjoint, inside it, and as large together as
    the range. Splitting a block in two or merging two neighbours keeps a
    tiling, which is all an allocator may do. *)

(** ** Machine arithmetic and layouts *)

Definition ISIZE_MAX : Z := 2 ^ 63 - 1.

Definition checked_mul (a b : Z) : option Z := if a * b <=? U64_MAX then Some (a * b) else None.

(** [usize::is_power_of_two]. *)
Definition is_power_of_two (x : Z) : bool := (0 <? x) && (2 ^ Z.log2 x =? x).

(** [(lo..hi).step_by(step)]. *)
Fixpoint count_from (n : nat) (x step : Z) : list Z :=
  match n with O => [] | S n => x :: count_from n (x + step) step end.
Definition step_by (lo hi step : Z) : list Z := count_from (Z.to_nat ((hi - lo + step - 1) / step)) lo step.

(** [core::alloc::Layout]. *)
Record Layout : Type := mkLayout { l_size : Z; l_align : Z }.

Definition from_size_align (size align : Z) : option Layout :=
  if is_power_of_two align && (size <=? ISIZE_MAX + 1 - align) then Some (mkLayout size align) else None.
Definition align_to (l : Layout) (align : Z) : option Layout := from_size_align (l_size l) (Z.max (l_align l) align).
Definition pad_to_align (l : Layout) : Layout := mkLayout (next_multiple_of (l_size l) (l_align l)) (l_align l).

(** What [Layout] guarantees of its values. *)
Definition layout_ok (l : Layout) : Prop :=
  0 <= l_size l <= ISIZE_MAX + 1 - l_align l /\ exists k, 0 <= k < 63 /\ l_align l = 2 ^ k.

#[global] Instance Layout_eq_dec : EqDecision Layout.
Proof. solve_decision. Defined.

(** ** Words of memory *)

Abbreviation Words := (gmap Z Z).
Definition word (m : Words) (a : Z) : Z := default 0 (m !! a).

(** The chain of blocks from [p], each linked to the next by its first word. *)
Fixpoint links (m : Words) (p : Z) (l : list Z) : Prop :=
  match l with
  | [] => p = 0
  | a :: l => p = a /\ a <> 0 /\ exists next, m !! a = Some next /\ links m next l
  end.

(** ** Blocks *)

Abbreviation Block := (Z * Z)%type.
Definition block_end (b : Block) : Z := b.1 + b.2.
Definition apart (b c : Block) : Prop := block_end b <= c.1 \/ block_end c <= b.1.
Definition holds (b : Block) (x : Z) : Prop := b.1 <= x < block_end b.

(** Pairwise apart. *)
Fixpoint all_apart (l : list Block) : Prop :=
  match l with
  | [] => True
  | b :: l => Forall (apart b) l /\ all_apart l
  end.

Definition extent (l : list Block) : Z := foldr (fun b n => b.2 + n) 0 l.
Definition within (lo hi : Z) (b : Block) : Prop := lo <= b.1 /\ 0 < b.2 /\ block_end b <= hi.

(** [l] lies in the range [lo, hi), pairwise apart; and tiles it. *)
Definition packed (lo hi : Z) (l : list Block) : Prop := all_apart l /\ Forall (within lo hi) l.
Definition tiling (lo hi : Z) (l : list Block) : Prop := packed lo hi l /\ extent l = hi - lo.

(** ** Lemmas *)

Lemma count_from_map n x step : count_from n x step = map (fun i => x + Z.of_nat i * step) (seq 0 n).
Proof.
  revert x. induction n as [|n IH]; intros x; [done|]. cbn [count_from seq map]. f_equal; [lia|].
  rewrite IH, <- (seq_shift n 0), map_map. apply map_ext. intros i. lia.
Qed.

Lemma step_by_map lo hi step : step_by lo hi step = map (fun i => lo + Z.of_nat i * step) (seq 0 (Z.to_nat ((hi - lo + step - 1) / step))).
Proof. apply count_from_map. Qed.

Lemma is_power_of_two_iff x : is_power_of_two x = true <-> exists k, 0 <= k /\ x = 2 ^ k.
Proof.
  unfold is_power_of_two. split.
  - intros H. bool_to_prop. exists (Z.log2 x). split; [apply Z.log2_nonneg|done].
  - intros (k & Hk & ->). rewrite Z.log2_pow2, Z.eqb_refl by done. pose proof (pow2_pos k Hk).
    destruct (Z.ltb_spec 0 (2 ^ k)); [done|lia].
Qed.

Lemma align_to_Some l align k l' :
  layout_ok l -> 0 <= k < 63 -> align = 2 ^ k -> align_to l align = Some l' ->
  l_size l' = l_size l /\ l_align l' = Z.max (l_align l) align /\ layout_ok l'.
Proof.
  intros [Hs (j & Hj & Ha)] Hk -> H. unfold align_to, from_size_align in H. case_if_in H; [|done]. injection H as <-.
  cbn [l_size l_align]. split; [done|]. split; [done|]. split; [simpl; lia|].
  destruct (Z.max_spec (l_align l) (2 ^ k)) as [[_ Hm]|[_ Hm]]; cbn [l_align]; rewrite Hm; [by exists k|by exists j].
Qed.

Lemma apart_sym b c : apart b c -> apart c b.
Proof. unfold apart. tauto. Qed.

Lemma Forall_apart_sym b l : Forall (apart b) l <-> Forall (fun c => apart c b) l.
Proof. split; intros H; (eapply Forall_impl; [exact H|]); intros ?; apply apart_sym. Qed.

Lemma all_apart_app l k : all_apart (l ++ k) <-> all_apart l /\ all_apart k /\ Forall (fun b => Forall (apart b) k) l.
Proof.
  induction l as [|b l IH]; simpl; [rewrite Forall_nil; tauto|].
  rewrite Forall_app, Forall_cons, IH. tauto.
Qed.

#[global] Instance all_apart_perm : Proper (Permutation ==> iff) all_apart.
Proof.
  intros l k Hp. induction Hp as [|b l k Hp IH|b c l|]; simpl; [done| | |by etrans].
  - rewrite IH. assert (Hf : Forall (apart b) l <-> Forall (apart b) k) by (by apply Forall_Permutation). tauto.
  - rewrite !Forall_cons. split; intros ([H1 H2] & H3 & H4); (split_and!; [apply apart_sym, H1|done|done|done]).
Qed.

#[global] Instance extent_perm : Proper (Permutation ==> eq) extent.
Proof. intros l k Hp. unfold extent. induction Hp; simpl; lia. Qed.

Lemma extent_app l k : extent (l ++ k) = extent l + extent k.
Proof. unfold extent. induction l; simpl; lia. Qed.

#[global] Instance packed_perm lo hi : Proper (Permutation ==> iff) (packed lo hi).
Proof. intros l k Hp. unfold packed. by rewrite Hp. Qed.

#[global] Instance tiling_perm lo hi : Proper (Permutation ==> iff) (tiling lo hi).
Proof. intros l k Hp. unfold tiling. by rewrite Hp. Qed.

Lemma packed_pos lo hi l b : packed lo hi l -> b ∈ l -> 0 < b.2.
Proof. intros [_ H] Hb. rewrite Forall_forall in H. apply (H b Hb). Qed.

(** A block may be split in two and two neighbours merged. *)
Lemma packed_split lo hi a s t l :
  0 < s -> 0 < t -> packed lo hi ((a, s + t) :: l) <-> packed lo hi ((a, s) :: (a + s, t) :: l).
Proof.
  intros Hs Ht. unfold packed. rewrite !Forall_cons. cbn [all_apart]. rewrite !Forall_cons. split.
  - intros [[Ha Hl] [Hb Hr]]. unfold within, block_end in *. cbn [fst snd] in *.
    split_and!; [left; unfold block_end; simpl; lia| | |done|lia..|done];
      (eapply Forall_impl; [exact Ha|]); intros c [Hc|Hc]; unfold apart, block_end in *; simpl in *; lia.
  - intros [[[_ Ha] [Hb Hl]] [H4 [H5 Hr]]]. unfold within, block_end in *. cbn [fst snd] in *.
    split_and!; [|done|lia..|done].
    rewrite Forall_forall in *. intros c Hc. specialize (Ha c Hc). specialize (Hb c Hc). specialize (Hr c Hc).
    unfold apart, within, block_end in *. simpl in *. lia.
Qed.

(** The same memory cut into blocks differently: as large, and as much in the
    way of whatever else there is. *)
Definition retile (l k : list Block) : Prop :=
  extent l = extent k /\ forall lo hi rest, packed lo hi (l ++ rest) <-> packed lo hi (k ++ rest).

#[global] Instance retile_equivalence : Equivalence retile.
Proof.
  split.
  - by intros l.
  - intros l k [He H]. split; [done|]. intros lo hi rest. symmetry. apply H.
  - intros l k j [He1 H1] [He2 H2]. split; [congruence|]. intros lo hi rest. etrans; [apply H1|apply H2].
Qed.

Lemma retile_permutation l k : l ≡ₚ k -> retile l k.
Proof. intros H. split; [by rewrite H|]. intros lo hi rest. by rewrite H. Qed.

#[global] Instance retile_app : Proper (retile ==> retile ==> retile) app.
Proof.
  intros l l' [Hel Hl] k k' [Hek Hk]. split; [rewrite !extent_app; congruence|]. intros lo hi rest.
  rewrite <- !app_assoc. rewrite (Hl lo hi (k ++ rest)).
  rewrite (Permutation_app_comm l' (k ++ rest)), (Permutation_app_comm l' (k' ++ rest)), <- !app_assoc. apply Hk.
Qed.

#[global] Instance packed_retile lo hi : Proper (retile ==> iff) (packed lo hi).
Proof. intros l k [_ H]. specialize (H lo hi []). by rewrite !app_nil_r in H. Qed.

#[global] Instance tiling_retile lo hi : Proper (retile ==> iff) (tiling lo hi).
Proof. intros l k H. unfold tiling. rewrite (proj1 H). by rewrite (packed_retile lo hi l k H). Qed.

Lemma retile_split a s t : 0 < s -> 0 < t -> retile [(a, s + t)] [(a, s); (a + s, t)].
Proof. intros Hs Ht. split; [simpl; lia|]. intros lo hi rest. by apply packed_split. Qed.

(** Two blocks of a packed list that share an address are the same. *)
Lemma all_apart_elem l b c : all_apart l -> b ∈ l -> c ∈ l -> b = c \/ apart b c.
Proof.
  intros H Hb Hc. apply elem_of_Permutation in Hb as [k Hp]. rewrite Hp in H. destruct H as [Ha _].
  rewrite Hp in Hc. apply elem_of_cons in Hc as [->|Hc]; [by left|right]. rewrite Forall_forall in Ha. by apply Ha.
Qed.

Lemma packed_unique lo hi l b c x : packed lo hi l -> b ∈ l -> c ∈ l -> holds b x -> holds c x -> b = c.
Proof.
  intros [H _] Hb Hc Hx Hy. destruct (all_apart_elem l b c H Hb Hc) as [|Ha]; [done|].
  unfold holds, apart in *. lia.
Qed.

Lemma packed_cons_apart lo hi b l : packed lo hi (b :: l) -> Forall (apart b) l.
Proof. intros [[H _] _]. done. Qed.

Lemma packed_cross lo hi l k b c : packed lo hi (l ++ k) -> b ∈ l -> c ∈ k -> apart b c.
Proof.
  intros [H _] Hb Hc. apply all_apart_app in H as (_ & _ & H). rewrite Forall_forall in H. specialize (H b Hb).
  rewrite Forall_forall in H. by apply H.
Qed.

Lemma packed_app lo hi l k : packed lo hi (l ++ k) <-> packed lo hi l /\ packed lo hi k /\ Forall (fun b => Forall (apart b) k) l.
Proof. unfold packed. rewrite all_apart_app, Forall_app. tauto. Qed.

(** Cutting memory differently does not move it. *)
Lemma retile_holds lo hi l k w :
  packed lo hi l -> retile l k -> (forall b, b ∈ l -> ~ holds b w) -> forall c, c ∈ k -> ~ holds c w.
Proof.
  intros [Hap Hin] [_ Hre] Hw c Hc Hcw.
  assert (Hp : packed (Z.min lo w) (Z.max hi (w + 1)) (l ++ [(w, 1)])).
  { apply packed_app. rewrite Forall_forall in Hin. split; [split; [done|]|split].
    - rewrite Forall_forall. intros b Hb. specialize (Hin b Hb). unfold within in *. lia.
    - split; [by repeat constructor|]. apply Forall_singleton. unfold within, block_end. simpl. lia.
    - rewrite Forall_forall. intros b Hb. apply Forall_singleton. specialize (Hw b Hb). specialize (Hin b Hb).
      unfold apart, holds, within, block_end in *. simpl. lia. }
  apply Hre in Hp. assert (Ha : apart c (w, 1)) by (eapply packed_cross; [exact Hp|done|by apply list_elem_of_singleton]).
  unfold apart, holds, block_end in *. simpl in *. lia.
Qed.

(** ** Chains *)

Lemma links_insert m p l a v : (a ∉ l) -> links m p l -> links (<[a := v]> m) p l.
Proof.
  revert p. induction l as [|b l IH]; intros p Ha; simpl; [done|]. intros (-> & Hb & n & Hn & Hl).
  apply not_elem_of_cons in Ha as [Hne Ha]. split; [done|]. split; [done|]. exists n.
  rewrite lookup_insert_ne by done. split; [done|]. by apply IH.
Qed.

Lemma links_agree m m' p l : (forall a, a ∈ l -> m' !! a = m !! a) -> links m p l -> links m' p l.
Proof.
  revert p. induction l as [|b l IH]; intros p Ha; simpl; [done|]. intros (-> & Hb & n & Hn & Hl).
  split; [done|]. split; [done|]. exists n. rewrite Ha by left. split; [done|]. apply IH; [|done].
  intros a Hin. apply Ha. by right.
Qed.

Lemma links_push m p l a : a <> 0 -> (a ∉ l) -> links m p l -> links (<[a := p]> m) a (a :: l).
Proof. intros Ha Hin Hl. simpl. split; [done|]. split; [done|]. exists p. rewrite lookup_insert_eq. split; [done|]. by apply links_insert. Qed.

Lemma links_dom m p l : links m p l -> Forall (fun a => is_Some (m !! a)) l.
Proof.
  revert p. induction l as [|b l IH]; intros p; simpl; [constructor|]. intros (-> & Hb & n & Hn & Hl).
  constructor; [by exists n|by eapply IH].
Qed.

(** Distinct written words are no more than the memory has. *)
Lemma written_length (m : Words) l : NoDup l -> Forall (fun a => is_Some (m !! a)) l -> (length l <= size m)%nat.
Proof.
  intros Hnd Hall. rewrite <- (size_list_to_set (C := gset Z)) by done. rewrite <- size_dom.
  apply subseteq_size. intros a Ha. apply elem_of_list_to_set in Ha. apply elem_of_dom.
  rewrite Forall_forall in Hall. by apply Hall.
Qed.

(** * The kernel's static heap

    [kernel/src/mm/heap.rs], the [LinkedListAllocator]: one sorted, coalesced
    list of free regions and a list of free blocks for each small size class.
    The lists live in the memory they describe: a free region's first two words
    are its [ListNode] (size and link), a free block's first word is its link.
    The model keeps those words, so that an overlap would corrupt a list. *)

Module Heap.

Definition HEAP_SIZE : Z := 10 * 1024 * 1024.
Definition SMALL_CLASSES : list Z := [16; 32; 64; 128; 256; 512; 1024; 2048; 4096].
Definition SMALL_REFILL_BLOCKS : Z := 32.

(** [size_of::<ListNode>()] and [align_of::<ListNode>()]: a [usize] and a link. *)
Definition NODE_SIZE : Z := 16.
Definition NODE_ALIGN : Z := 8.

(** The allocator and the words of its memory. [head] is a sentinel of size 0
    outside the heap, of which only the link matters. A null link is 0. *)
Record LinkedListAllocator : Type := mkAllocator {
  words : Words;
  head_next : Z;
  small_heads : list Z
}.

Definition new (m : Words) : LinkedListAllocator := mkAllocator m 0 (replicate (length SMALL_CLASSES) 0).

Definition store (a : LinkedListAllocator) (x v : Z) : LinkedListAllocator :=
  mkAllocator (<[x := v]> (words a)) (head_next a) (small_heads a).

(** [ListNode]: the size in the first word, the link in the second. *)
Definition node_size (a : LinkedListAllocator) (node : Z) : Z := word (words a) node.
Definition node_next (a : LinkedListAllocator) (node : Z) : Z := word (words a) (node + 8).
Definition end_addr (a : LinkedListAllocator) (node : Z) : Z := saturating_add node (node_size a node).

(** The link of a node, or of the sentinel ([None]). *)
Definition next_of (a : LinkedListAllocator) (previous : option Z) : Z :=
  match previous with None => head_next a | Some node => node_next a node end.
Definition set_next (a : LinkedListAllocator) (previous : option Z) (v : Z) : LinkedListAllocator :=
  match previous with
  | None => mkAllocator (words a) v (small_heads a)
  | Some node => store a (node + 8) v
  end.
Definition set_head (a : LinkedListAllocator) (class : nat) (v : Z) : LinkedListAllocator :=
  mkAllocator (words a) (head_next a) (<[class := v]> (small_heads a)).
Definition small_head (a : LinkedListAllocator) (class : nat) : Z := nth class (small_heads a) 0.

(** A list in memory has no more nodes than there are written words. *)
Definition walk_fuel (a : LinkedListAllocator) : nat := S (size (words a)).

Definition align_up (addr align : Z) : option Z :=
  if negb (is_power_of_two align) then None else
  option_map (fun value => Z.land value (Z.lnot (align - 1))) (checked_add addr (align - 1)).

(** The loop of [add_free_region]: the node after which the region belongs;
    [Err] when it overlaps a free one. *)
Fixpoint find_place (fuel : nat) (a : LinkedListAllocator) (addr end_ : Z) (previous : option Z)
  : option (result unit (option Z)) :=
  match fuel with
  | O => None
  | S fuel =>
    let node := next_of a previous in
    if node =? 0 then Some (Ok previous) else
    if end_ <=? node then Some (Ok previous) else
    if (addr <? end_addr a node) && (node <? end_) then Some (Err tt) else
    find_place fuel a addr end_ (Some node)
  end.

Definition insert_node (a : LinkedListAllocator) (previous : option Z) (addr size : Z) : LinkedListAllocator :=
  let next := next_of a previous in
  let a := set_next a previous 0 in
  let a := store (store a addr size) (addr + 8) next in
  set_next a previous addr.

(** [next.take()] of the absorbed node, into the link of [into]. *)
Definition absorb (a : LinkedListAllocator) (into node extra : Z) : LinkedListAllocator :=
  let a := store a into (node_size a into + extra) in
  let next := node_next a node in
  store (store a (node + 8) 0) (into + 8) next.

Definition merge_previous (a : LinkedListAllocator) (previous : option Z) (addr size : Z) : LinkedListAllocator * Z :=
  match previous with
  | Some p => if end_addr a p =? addr then (absorb a p addr size, p) else (a, addr)
  | None => (a, addr)
  end.

Definition merge_successor (a : LinkedListAllocator) (merged : Z) : LinkedListAllocator :=
  let successor := node_next a merged in
  if negb (successor =? 0) && (end_addr a merged =? successor)
  then absorb a merged successor (node_size a successor)
  else a.

(** [None]: the walk did not end. *)
Definition add_free_region (a : LinkedListAllocator) (addr size : Z) : option (bool * LinkedListAllocator) :=
  if bool_decide (align_up addr NODE_ALIGN <> Some addr) || (size <? NODE_SIZE) then Some (false, a) else
  match checked_add addr size with
  | None => Some (false, a)
  | Some end_ =>
    match find_place (walk_fuel a) a addr end_ None with
    | None => None
    | Some (Err _) => Some (false, a)
    | Some (Ok previous) =>
      let '(a, merged) := merge_previous (insert_node a previous addr size) previous addr size in
      Some (true, merge_successor a merged)
    end
  end.

Definition init (m : Words) (heap_start heap_size : Z) : option (bool * LinkedListAllocator) :=
  add_free_region (new m) heap_start heap_size.

Definition alloc_from_region (a : LinkedListAllocator) (region size align : Z) : result unit Z :=
  let? alloc_start := ok_or (align_up region align) tt in
  let? prefix_size := ok_or (checked_sub alloc_start region) tt in
  if negb (prefix_size =? 0) && (prefix_size <? NODE_SIZE) then Err tt else
  let? alloc_end := ok_or (checked_add alloc_start size) tt in
  if end_addr a region <? alloc_end then Err tt else
  let excess_size := end_addr a region - alloc_end in
  if (0 <? excess_size) && (excess_size <? NODE_SIZE) then Err tt else Ok alloc_start.

(** The region's start and end and where the allocation starts in it. *)
Fixpoint find_region_loop (fuel : nat) (a : LinkedListAllocator) (size align : Z) (current : option Z)
  : option (option (Z * Z * Z) * LinkedListAllocator) :=
  match fuel with
  | O => None
  | S fuel =>
    let region := next_of a current in
    if region =? 0 then Some (None, a) else
    match alloc_from_region a region size align with
    | Ok alloc_start =>
      let end_ := end_addr a region in
      let next := node_next a region in
      let a := set_next (store a (region + 8) 0) current next in
      Some (Some (region, end_, alloc_start), a)
    | Err _ => find_region_loop fuel a size align (Some region)
    end
  end.
Definition find_region (a : LinkedListAllocator) (size align : Z) : option (option (Z * Z * Z) * LinkedListAllocator) :=
  find_region_loop (walk_fuel a) a size align None.

(** [checked_add(4095)?.checked_div(4096)?.checked_mul(4096)?]. *)
Definition round_to_pages (size : Z) : option Z :=
  match checked_add size 4095 with
  | None => None
  | Some n => checked_mul (n / 4096) 4096
  end.

Definition size_align (layout : Layout) : option (Z * Z) :=
  match align_to layout NODE_ALIGN with
  | None => None
  | Some layout =>
    let layout := pad_to_align layout in
    if 4096 <? l_size layout
    then option_map (fun size => (size, Z.max (l_align layout) 4096)) (round_to_pages (l_size layout))
    else Some (Z.max (l_size layout) NODE_SIZE, l_align layout)
  end.

(** [iter().position(..)]. *)
Fixpoint position {A} (f : A -> bool) (l : list A) : option nat :=
  match l with
  | [] => None
  | x :: l => if f x then Some O else option_map S (position f l)
  end.

Definition small_class (layout : Layout) : option nat :=
  let required := Z.max (Z.max (l_size layout) (l_align layout)) 16 in
  position (fun size => required <=? size) SMALL_CLASSES.

Definition class_size (class : nat) : Z := nth class SMALL_CLASSES 0.

(** The loop of [refill_small]: halve the run until a region holds it. [blocks]
    is 32 and halves to 1, so six rounds are enough. *)
Fixpoint refill_search (fuel : nat) (a : LinkedListAllocator) (block blocks : Z)
  : option (option (Z * (Z * Z * Z)) * LinkedListAllocator) :=
  match fuel with
  | O => None
  | S fuel =>
    match checked_mul block blocks with
    | None => Some (None, a)
    | Some total =>
      match find_region a total block with
      | None => None
      | Some (Some region, a) => Some (Some (total, region), a)
      | Some (None, a) =>
        if blocks =? 1 then Some (None, a) else refill_search fuel a block (blocks / 2)
      end
    end
  end.

(** A free region when it is not empty; the returned flag is dropped. *)
Definition give_back (a : LinkedListAllocator) (addr size : Z) : option LinkedListAllocator :=
  if size =? 0 then Some a else option_map snd (add_free_region a addr size).

(** Thread a block onto its class list. *)
Definition push_small (a : LinkedListAllocator) (class : nat) (address : Z) : LinkedListAllocator :=
  set_head (store a address (small_head a class)) class address.

Definition refill_small (a : LinkedListAllocator) (class : nat) : option (option Z * LinkedListAllocator) :=
  let block := class_size class in
  match refill_search 6 a block SMALL_REFILL_BLOCKS with
  | None => None
  | Some (None, a) => Some (None, a)
  | Some (Some (total, (region_start, region_end, alloc_start)), a) =>
    let prefix := alloc_start - region_start in
    match checked_add alloc_start total with
    | None => Some (None, a)
    | Some end_ =>
      let suffix := region_end - end_ in
      match give_back a region_start prefix with
      | None => None
      | Some a =>
        match give_back a end_ suffix with
        | None => None
        | Some a =>
          let push a offset := push_small a class (alloc_start + offset) in
          Some (Some alloc_start, fold_left push (step_by block total block) a)
        end
      end
    end
  end.

Definition has_small_free (a : LinkedListAllocator) : bool := existsb (fun head => negb (head =? 0)) (small_heads a).

(** The small-class path of [alloc]: 0 when there is no block. *)
Definition alloc_small (a : LinkedListAllocator) (class : nat) : option (Z * LinkedListAllocator) :=
  if negb (small_head a class =? 0)
  then let address := small_head a class in
       Some (address, set_head a class (word (words a) address))
  else option_map (fun r => (default 0 (fst r), snd r)) (refill_small a class).

(** The general path of [alloc]. *)
Definition alloc_general (a : LinkedListAllocator) (size align : Z) : option (Z * LinkedListAllocator) :=
  match find_region a size align with
  | None => None
  | Some (None, a) => Some (0, a)
  | Some (Some (region_start, region_end, alloc_start), a) =>
    match checked_add alloc_start size with
    | None => Some (0, a)
    | Some alloc_end =>
      let prefix_size := alloc_start - region_start in
      let excess_size := region_end - alloc_end in
      match give_back a region_start prefix_size with
      | None => None
      | Some a => option_map (pair alloc_start) (give_back a alloc_end excess_size)
      end
    end
  end.
End Heap.
