(* ===== verification/HeapInv.v ===== *)
(** * HeapInv: the lists and the invariant of the static heap *)

From Stdlib Require Import ZArith Lia Permutation Sorted.
From stdpp Require Import base gmap sorting numbers list.
From S2P Require Import Prelude Heap.

(** * The free list of the static heap

    The list of free regions as a chain of nodes in memory, and what each
    operation of [mm/heap.rs] on it does: [add_free_region] inserts in address
    order and merges with both neighbours, [find_region] takes out the first
    region that fits. The list stays sorted and fully merged, and no other word
    of memory changes. *)

Import Heap.

(** A chain of nodes from [p] to [q]. *)
Fixpoint seg (m : Words) (p : Z) (L : list Block) (q : Z) : Prop :=
  match L with
  | [] => p = q
  | b :: L => p = b.1 /\ b.1 <> 0 /\ m !! b.1 = Some b.2 /\ exists n, m !! (b.1 + 8) = Some n /\ seg m n L q
  end.

Definition chain (a : LinkedListAllocator) (L : list Block) : Prop := seg (words a) (head_next a) L 0.

(** The words the nodes of a chain occupy. *)
Definition node_words (L : list Block) : list Z := flat_map (fun b => [b.1; b.1 + 8]) L.

(** The node the walk has just passed. *)
Definition prev (L : list Block) : option Z := option_map fst (last L).

(** A free region: aligned, room for its node, in the address space. *)
Definition region_ok (b : Block) : Prop :=
  0 < b.1 /\ (16 | b.1) /\ (16 | b.2) /\ NODE_SIZE <= b.2 /\ block_end b <= U64_MAX.

(** In address order; with [gap], not even touching. *)
Definition before (b c : Block) : Prop := block_end b <= c.1.
Definition gap (b c : Block) : Prop := block_end b < c.1.

(** The free list [L]: in memory, well formed, sorted and fully merged. *)
Record free_list (a : LinkedListAllocator) (L : list Block) : Prop := {
  fl_chain : chain a L;
  fl_ok : Forall region_ok L;
  fl_sorted : StronglySorted gap L
}.

(** ** Chains *)

Lemma seg_app m p L1 L2 q : seg m p (L1 ++ L2) q <-> exists r, seg m p L1 r /\ seg m r L2 q.
Proof.
  revert p. induction L1 as [|b L1 IH]; intros p; simpl; [split; [by eauto|by intros (? & -> & ?)]|].
  split.
  - intros (-> & Hb & Hs & n & Hn & H). apply IH in H as (r & H1 & H2). exists r. split; [|done]. by eauto 10.
  - intros (r & (-> & Hb & Hs & n & Hn & H) & H2). do 3 (split; [done|]). exists n. split; [done|]. apply IH. by exists r.
Qed.

Lemma seg_agree m m' p L q : (forall x, x ∈ node_words L -> m' !! x = m !! x) -> seg m p L q -> seg m' p L q.
Proof.
  revert p. induction L as [|b L IH]; intros p Hag; simpl; [done|]. intros (-> & Hb & Hs & n & Hn & H).
  cbn [node_words flat_map app] in Hag. rewrite !Hag by (set_solver). do 3 (split; [done|]). exists n. split; [done|].
  apply IH; [|done]. intros x Hx. apply Hag. cbn [flat_map app]. by do 2 right.
Qed.

Lemma seg_insert m p L q x v : (x ∉ node_words L) -> seg m p L q -> seg (<[x := v]> m) p L q.
Proof. intros Hx. apply seg_agree. intros y Hy. apply lookup_insert_ne. intros ->. done. Qed.

Lemma node_words_app L K : node_words (L ++ K) = node_words L ++ node_words K.
Proof. apply flat_map_app. Qed.

Lemma prev_snoc L b : prev (L ++ [b]) = Some b.1.
Proof. unfold prev. by rewrite last_snoc. Qed.

(** The node words of blocks are inside them. *)
Lemma node_words_holds L x : Forall region_ok L -> x ∈ node_words L -> exists b, b ∈ L /\ holds b x.
Proof.
  intros Hok Hx. unfold node_words in Hx. apply list_elem_of_In, in_flat_map in Hx as (b & Hb & Hx).
  apply list_elem_of_In in Hb. exists b. split; [done|]. rewrite Forall_forall in Hok. specialize (Hok b Hb).
  unfold region_ok, holds, block_end, NODE_SIZE in *. destruct Hx as [<-|[<-|[]]]; lia.
Qed.

Lemma node_words_apart b L x : 
  NODE_SIZE <= b.2 -> Forall region_ok L -> Forall (apart b) L -> x ∈ node_words L -> x <> b.1 /\ x <> b.1 + 8.
Proof.
  intros Hs Hok Hap Hx. apply node_words_holds in Hx as (c & Hc & Hx); [|done]. rewrite Forall_forall in Hap.
  specialize (Hap c Hc). unfold apart, holds, block_end, NODE_SIZE in *. lia.
Qed.

Lemma node_words_NoDup L : Forall region_ok L -> StronglySorted before L -> NoDup (node_words L).
Proof.
  induction 2 as [|b L Hs IH Hb]; [constructor|]. apply Forall_cons in H as [Hok HL]. specialize (IH HL).
  assert (Hap : Forall (apart b) L) by (eapply Forall_impl; [exact Hb|]; intros; by left).
  assert (H16 : NODE_SIZE <= b.2) by apply Hok.
  change (NoDup (b.1 :: b.1 + 8 :: node_words L)). apply NoDup_cons. split; [|apply NoDup_cons; split; [|done]].
  - intros [Heq|Hin]%elem_of_cons; [lia|]. by destruct (node_words_apart b L b.1 H16 HL Hap Hin).
  - intros Hin. by destruct (node_words_apart b L (b.1 + 8) H16 HL Hap Hin).
Qed.

Lemma gap_before L : StronglySorted gap L -> StronglySorted before L.
Proof. induction 1 as [|b L Hs IH Hb]; constructor; [done|]. eapply Forall_impl; [exact Hb|]. unfold gap, before. lia. Qed.

Lemma sorted_app {R : Block -> Block -> Prop} L K :
  StronglySorted R (L ++ K) <-> StronglySorted R L /\ StronglySorted R K /\ Forall (fun b => Forall (R b) K) L.
Proof.
  induction L as [|b L IH]; simpl.
  - split; [intros; split_and!; [constructor|done|constructor]|tauto].
  - split.
    + intros Hs. apply StronglySorted_inv in Hs as [Hs Hf]. apply IH in Hs as (H1 & H2 & H3).
      apply Forall_app in Hf as [Hf Hg]. split; [by constructor|]. split; [done|by constructor].
    + intros (H1 & H2 & H3). apply StronglySorted_inv in H1 as [H1 Hf]. apply Forall_cons in H3 as [Hg H3].
      constructor; [by apply IH|by apply Forall_app].
Qed.

Lemma sorted_mid {R : Block -> Block -> Prop} L b K :
  StronglySorted R (L ++ b :: K) <->
  StronglySorted R L /\ StronglySorted R K /\ Forall (fun c => R c b) L /\ Forall (R b) K /\ Forall (fun c => Forall (R c) K) L.
Proof.
  rewrite sorted_app. split.
  - intros (H1 & H2 & H3). apply StronglySorted_inv in H2 as [H2 Hf]. do 2 (split; [done|]).
    rewrite !Forall_forall in *. split; [|split; [done|]].
    + intros c Hc. specialize (H3 c Hc). by apply Forall_cons in H3 as [H3 _].
    + intros c Hc. specialize (H3 c Hc). by apply Forall_cons in H3 as [_ H3].
  - intros (H1 & H2 & H3 & H4 & H5). split; [done|]. split; [by constructor|].
    rewrite Forall_forall in *. intros c Hc. constructor; [by apply H3|by apply H5].
Qed.

(** ** Links *)

Lemma next_of_chain a L K : chain a (L ++ K) -> seg (words a) (next_of a (prev L)) K 0.
Proof.
  unfold chain. intros H. apply seg_app in H as (r & H1 & H2).
  destruct L as [|b L _] using rev_ind; [simpl in *; by subst|]. rewrite prev_snoc. simpl.
  apply seg_app in H1 as (p & _ & (-> & Hb & Hs & n & Hn & <-)). unfold node_next, word. by rewrite Hn.
Qed.

Lemma seg_cons_next a b L q : seg (words a) b.1 (b :: L) q -> node_size a b.1 = b.2 /\ seg (words a) (node_next a b.1) L q.
Proof. intros (_ & Hb & Hs & n & Hn & H). unfold node_size, node_next, word. by rewrite Hs, Hn. Qed.

(** Change the link of the node before. *)
Lemma relink a L K K' v :
  chain a (L ++ K) -> NoDup (node_words (L ++ K')) -> seg (words a) v K' 0 -> chain (set_next a (prev L) v) (L ++ K').
Proof.
  unfold chain. intros H Hnd Hv. apply seg_app in H as (r & H1 & H2). rewrite node_words_app in Hnd.
  apply NoDup_app in Hnd as (Hnd & Hdis & _).
  destruct L as [|b L _] using rev_ind; [done|]. rewrite prev_snoc. cbn [set_next store words head_next].
  rewrite node_words_app in Hnd, Hdis. cbn [node_words flat_map app] in Hnd, Hdis.
  apply seg_app in H1 as (p & Hp & (-> & Hb & Hs & n & Hn & <-)).
  apply NoDup_app in Hnd as (HndL & Hd & Hb8).
  rewrite <- app_assoc. apply seg_app. exists b.1. split.
  - apply seg_insert; [|done]. intros Hin. apply (Hd _ Hin). right. by left.
  - cbn [app seg]. split; [done|]. split; [done|]. rewrite lookup_insert_ne by lia. split; [done|].
    exists v. rewrite lookup_insert_eq. split; [done|]. apply seg_insert; [|done].
    intros Hin. apply (Hdis (b.1 + 8)); [|done]. apply elem_of_app. right. right. by left.
Qed.

(** Only the link of the node before changed. *)
Lemma set_next_frame a L v x : (x ∉ node_words L) -> words (set_next a (prev L) v) !! x = words a !! x.
Proof.
  intros Hx. destruct L as [|b L _] using rev_ind; [done|]. rewrite prev_snoc. simpl. apply lookup_insert_ne.
  intros <-. apply Hx. rewrite node_words_app. apply elem_of_app. right. right. by left.
Qed.

Lemma set_next_heads a p v : small_heads (set_next a p v) = small_heads a.
Proof. by destruct p. Qed.

(** ** Where a region belongs *)

Lemma end_addr_node a b L q : region_ok b -> seg (words a) b.1 (b :: L) q -> end_addr a b.1 = block_end b.
Proof.
  intros Hok [Hs _]%seg_cons_next. unfold end_addr, saturating_add. rewrite Hs. unfold region_ok, block_end in *. lia.
Qed.

(** A walk has fuel for the whole list. *)
Lemma walk_fuel_enough a L : chain a L -> Forall region_ok L -> StronglySorted before L -> (length L < walk_fuel a)%nat.
Proof.
  intros Hc Hok Hs. unfold walk_fuel. apply le_n_S. rewrite <- (length_fmap fst). apply written_length.
  - clear Hc. induction Hs as [|b L Hs IH Hb]; [constructor|]. apply Forall_cons in Hok as [Hok HL]. simpl. constructor; [|by apply IH].
    intros Hin. apply list_elem_of_fmap in Hin as (c & Heq & Hc). rewrite Forall_forall in Hb. specialize (Hb c Hc).
    unfold region_ok, before, block_end, NODE_SIZE in *. lia.
  - clear Hok Hs. unfold chain in Hc. revert Hc. generalize (head_next a). induction L as [|b L IH]; intros p Hc; [constructor|].
    destruct Hc as (-> & _ & Hb & n & _ & Hc). simpl. constructor; [by exists b.2|by eapply IH].
Qed.

Lemma find_place_spec a addr size fuel : forall L1 L2,
  chain a (L1 ++ L2) -> Forall region_ok L2 -> StronglySorted before L2 ->
  0 < size -> Forall (apart (addr, size)) L2 -> Forall (fun b => block_end b <= addr) L1 -> (length L2 < fuel)%nat ->
  exists M1 M2, L1 ++ L2 = M1 ++ M2 /\ find_place fuel a addr (addr + size) (prev L1) = Some (Ok (prev M1))
    /\ Forall (fun b => block_end b <= addr) M1 /\ Forall (fun c => addr + size <= c.1) M2.
Proof.
  induction fuel as [|fuel IH]; intros L1 L2 Hc Hok Hs Hsz Hap Hbefore Hf; [lia|].
  pose proof (next_of_chain a L1 L2 Hc) as Hn. cbn [find_place]. destruct L2 as [|b L2].
  - cbn [seg] in Hn. rewrite Hn. rewrite Z.eqb_refl. exists L1, []. split_and!; [done|done|done|constructor].
  - pose proof (proj1 Hn) as Hnext. rewrite Hnext in Hn |- *.
    apply Forall_cons in Hok as [Hb Hok]. apply Forall_cons in Hap as [Hab Hap].
    apply StronglySorted_inv in Hs as [Hs Hbs].
    rewrite (end_addr_node a b L2 0 Hb Hn). case_if; [unfold region_ok in Hb; lia|]. case_if.
    + exists L1, (b :: L2). split_and!; [done|done|done|]. constructor; [done|].
      eapply Forall_impl; [exact Hbs|]. intros c Hbc. unfold before, region_ok, block_end, NODE_SIZE in *. lia.
    + assert (Hle : block_end b <= addr) by (unfold apart, block_end in *; simpl in *; lia).
      case_if; [unfold block_end in *; lia|].
      destruct (IH (L1 ++ [b]) L2) as (M1 & M2 & Heq & Hfind & HM1 & HM2); [|done..| |simpl in Hf; lia|].
      * by rewrite <- app_assoc.
      * apply Forall_app. split; [done|]. by constructor.
      * exists M1, M2. rewrite prev_snoc in Hfind. rewrite <- app_assoc in Heq. done.
Qed.

(** ** Inserting *)

Lemma insert_node_spec a L K addr size :
  chain a (L ++ K) -> 0 < addr -> NoDup (node_words (L ++ (addr, size) :: K)) ->
  let a' := insert_node a (prev L) addr size in
  chain a' (L ++ (addr, size) :: K) /\ small_heads a' = small_heads a
  /\ forall x, (x ∉ node_words (L ++ [(addr, size)])) -> words a' !! x = words a !! x.
Proof.
  intros Hc Haddr Hnd. unfold insert_node. pose proof (next_of_chain a L K Hc) as Hn.
  set (next := next_of a (prev L)) in *. set (a1 := set_next a (prev L) 0).
  rewrite node_words_app in Hnd. cbn [node_words flat_map app] in Hnd. apply NoDup_app in Hnd as (HndL & HLK & HndK).
  apply NoDup_cons in HndK as [Hn1 HndK]. apply NoDup_cons in HndK as [Hn2 HndK]. apply not_elem_of_cons in Hn1 as [_ Hn1]. cbn [fst] in *.
  assert (Hc1 : chain a1 (L ++ [])) by (apply (relink a L K); [done|by rewrite app_nil_r|done]).
  assert (Hn' : seg (words a1) next K 0).
  { eapply seg_agree; [|exact Hn]. intros x Hx. apply set_next_frame. intros HL. apply (HLK x HL). by do 2 right. }
  set (a2 := store (store a1 addr size) (addr + 8) next).
  assert (Hk : seg (words a2) addr ((addr, size) :: K) 0).
  { cbn [seg fst snd]. unfold a2. cbn [store words]. split; [done|]. split; [lia|].
    rewrite lookup_insert_ne by lia. rewrite lookup_insert_eq. split; [done|]. exists next. rewrite lookup_insert_eq.
    split; [done|]. by do 2 (apply seg_insert; [done|]). }
  assert (Hc2 : chain a2 (L ++ [])).
  { unfold chain, a2 in *. cbn [store words head_next]. rewrite app_nil_r in *.
    apply seg_insert; [intros Hin; apply (HLK _ Hin); right; by left|].
    apply seg_insert; [intros Hin; apply (HLK _ Hin); by left|done]. }
  split_and!.
  - apply (relink a2 L []); [done| |done]. rewrite node_words_app. cbn [node_words flat_map app fst].
    apply NoDup_app. split; [done|]. split; [done|]. repeat (apply NoDup_cons; split; [|]); [|done|done].
    intros [Heq|Hin]%elem_of_cons; [lia|done].
  - by rewrite set_next_heads; unfold a2, a1; cbn [store small_heads]; rewrite set_next_heads.
  - intros x Hx. rewrite node_words_app in Hx. cbn [node_words flat_map app fst] in Hx.
    apply not_elem_of_app in Hx as [HxL Hx]. apply not_elem_of_cons in Hx as [Hx1 Hx]. apply not_elem_of_cons in Hx as [Hx2 _].
    rewrite set_next_frame by done. unfold a2. cbn [store words].
    rewrite !lookup_insert_ne by congruence. unfold a1. by apply set_next_frame.
Qed.

(** ** Merging *)

Lemma absorb_spec a L b c K extra :
  chain a (L ++ b :: c :: K) -> NoDup (node_words (L ++ b :: c :: K)) -> extra = c.2 ->
  let a' := absorb a b.1 c.1 extra in
  chain a' (L ++ (b.1, b.2 + c.2) :: K) /\ small_heads a' = small_heads a
  /\ forall x, (x ∉ node_words [b; c]) -> words a' !! x = words a !! x.
Proof.
  intros Hc Hnd ->. unfold chain in *. apply seg_app in Hc as (p & HL & Hbc).
  destruct Hbc as (-> & Hb & Hsb & n & Hn & -> & Hc0 & Hsc & n' & Hn' & HK).
  rewrite node_words_app in Hnd. cbn [node_words flat_map app] in Hnd. apply NoDup_app in Hnd as (HndL & HLK & HndK).
  repeat apply NoDup_cons in HndK as [? HndK].
  rewrite !not_elem_of_cons in *. destruct_and!. 
  unfold absorb. cbn [store words head_next small_heads]. unfold node_size, node_next, word. rewrite Hsb.
  cbn [default from_option id store words]. rewrite lookup_insert_ne by congruence. rewrite Hn'. cbn [default from_option id].
  split_and!; [|done|].
  - apply seg_app. exists b.1. split.
    + do 3 (apply seg_insert; [intros Hin; apply (HLK _ Hin); set_solver|]). done.
    + cbn [seg fst snd]. split; [done|]. split; [done|]. rewrite 2!lookup_insert_ne by lia. rewrite lookup_insert_eq.
      split; [done|]. exists n'. rewrite lookup_insert_eq. split; [done|]. by do 3 (apply seg_insert; [done|]).
  - intros x Hx. cbn [node_words flat_map app] in Hx. rewrite !not_elem_of_cons in Hx. destruct_and!.
    by rewrite !lookup_insert_ne by congruence.
Qed.

(** A list with a new region [x] in its place that may touch its neighbours. *)
Record placed (a : LinkedListAllocator) (N1 : list Block) (x : Block) (N2 : list Block) : Prop := {
  pl_chain : chain a (N1 ++ x :: N2);
  pl_ok : Forall region_ok (N1 ++ x :: N2);
  pl_left : StronglySorted gap N1;
  pl_right : StronglySorted gap N2;
  pl_before : Forall (fun b => before b x) N1;
  pl_after : Forall (before x) N2
}.

Lemma placed_cross a N1 x N2 (R : Z -> Z -> Prop) :
  placed a N1 x N2 -> Forall (fun b => Forall (gap b) N2) N1.
Proof.
  intros [_ Hok _ _ Hb Ha]. apply Forall_app in Hok as [_ [Hx _]%Forall_cons]. rewrite Forall_forall in *.
  intros b Hb1. rewrite Forall_forall. intros c Hc. specialize (Hb b Hb1). specialize (Ha c Hc).
  unfold region_ok, before, gap, block_end, NODE_SIZE in *. lia.
Qed.

Lemma placed_sorted a N1 x N2 : placed a N1 x N2 -> StronglySorted before (N1 ++ x :: N2).
Proof.
  intros Hp. pose proof (placed_cross _ _ _ _ Z.le Hp) as Hx. destruct Hp. apply sorted_mid.
  split_and!; [by apply gap_before|by apply gap_before|done|done|].
  eapply Forall_impl; [exact Hx|]. intros b Hb. eapply Forall_impl; [exact Hb|]. unfold gap, before. lia.
Qed.

Lemma placed_NoDup a N1 x N2 : placed a N1 x N2 -> NoDup (node_words (N1 ++ x :: N2)).
Proof. intros Hp. apply node_words_NoDup; [apply Hp|by eapply placed_sorted]. Qed.

Lemma placed_free_list a N1 x N2 :
  placed a N1 x N2 -> Forall (fun b => gap b x) N1 -> Forall (gap x) N2 -> free_list a (N1 ++ x :: N2).
Proof.
  intros Hp H1 H2. pose proof (placed_cross _ _ _ _ Z.le Hp) as Hx. destruct Hp. constructor; [done|done|].
  by apply sorted_mid.
Qed.

Lemma region_ok_merge b c : region_ok b -> region_ok c -> block_end b = c.1 -> region_ok (b.1, b.2 + c.2).
Proof.
  unfold region_ok, block_end, NODE_SIZE. simpl. intros (? & ? & ? & ? & ?) (? & ? & ? & ? & ?) Heq.
  split_and!; [done|done|by apply Z.divide_add_r|lia|lia].
Qed.

Lemma retile_merge l k b c :
  region_ok b -> region_ok c -> block_end b = c.1 -> retile (l ++ b :: c :: k) (l ++ (b.1, b.2 + c.2) :: k).
Proof.
  intros Hb Hc Heq. unfold region_ok, NODE_SIZE in *. destruct b as [b s], c as [c t].
  unfold block_end in Heq. cbn [fst snd] in *. subst c. apply retile_app; [done|].
  change (retile ([(b, s); (b + s, t)] ++ k) ([(b, s + t)] ++ k)). by rewrite (retile_split b s t) by lia.
Qed.

Lemma merge_previous_spec a M1 addr size M2 :
  placed a M1 (addr, size) M2 ->
  exists a' N1 x, merge_previous a (prev M1) addr size = (a', x.1) /\ placed a' N1 x M2 /\ Forall (fun b => gap b x) N1
    /\ retile (M1 ++ (addr, size) :: M2) (N1 ++ x :: M2) /\ node_words [x] ⊆ node_words (M1 ++ [(addr, size)])
    /\ small_heads a' = small_heads a
    /\ forall w, (w ∉ node_words (M1 ++ [(addr, size)])) -> words a' !! w = words a !! w.
Proof.
  intros Hp. pose proof (placed_NoDup _ _ _ _ Hp) as Hnd. pose proof Hp as [Hc Hok Hl Hr Hb Ha].
  destruct M1 as [|p M1 _] using rev_ind.
  { exists a, [], (addr, size). cbn [merge_previous prev last option_map app]. by split_and!. }
  rewrite prev_snoc. cbn [merge_previous]. rewrite <- !app_assoc in *. cbn [app] in *.
  pose proof Hc as Hc'. apply seg_app in Hc' as (q & _ & Hq). pose proof (proj1 Hq) as ->.
  pose proof Hok as Hok'. apply Forall_app in Hok' as [HokM [Hokp [Hokn Hok2]%Forall_cons]%Forall_cons].
  rewrite (end_addr_node a p _ 0 Hokp Hq). apply Forall_app in Hb as [HbM [Hbp _]%Forall_cons].
  apply sorted_app in Hl as (HlM & _ & Hlp).
  assert (HMp : Forall (fun b => gap b p) M1) by (eapply Forall_impl; [exact Hlp|]; intros b Hbp'; by apply Forall_cons in Hbp' as [Hbp' _]).
  case_if.
  - destruct (absorb_spec a M1 p (addr, size) M2 size Hc Hnd eq_refl) as (Hc2 & Hh & Hfr).
    exists (absorb a p.1 addr size), M1, (p.1, p.2 + size). split_and!; [done| |done| | |done|].
    + constructor; [done| |done|done| |].
      * apply Forall_app. split; [done|]. apply Forall_cons. split; [|done]. by apply (region_ok_merge p (addr, size)).
      * eapply Forall_impl; [exact HMp|]. unfold gap, before. simpl. lia.
      * eapply Forall_impl; [exact Ha|]. unfold before, block_end in *. simpl in *. lia.
    + by apply (retile_merge M1 M2 p (addr, size)).
    + rewrite node_words_app. cbn [node_words flat_map app fst]. set_solver.
    + intros w Hw. apply Hfr. intros Hin. apply Hw. rewrite node_words_app. apply elem_of_app. by right.
  - exists a, (M1 ++ [p]), (addr, size). split_and!; [done| | |by rewrite <- app_assoc| |done|intros w _; done].
    + done.
    + assert (Hg : gap p (addr, size)) by (unfold gap, before in *; simpl in *; lia).
      apply Forall_app. split; [|by constructor]. eapply Forall_impl; [exact HMp|].
      intros b Hb. unfold gap, before, region_ok, block_end, NODE_SIZE in *. simpl in *. lia.
    + rewrite !node_words_app. cbn [node_words flat_map app fst]. set_solver.
Qed.

Lemma merge_successor_spec a N1 x M2 :
  placed a N1 x M2 ->
  exists y N2, placed (merge_successor a x.1) N1 y N2 /\ y.1 = x.1 /\ Forall (gap y) N2
    /\ retile (N1 ++ x :: M2) (N1 ++ y :: N2) /\ small_heads (merge_successor a x.1) = small_heads a
    /\ forall w, (w ∉ node_words (x :: M2)) -> words (merge_successor a x.1) !! w = words a !! w.
Proof.
  intros Hp. pose proof (placed_NoDup _ _ _ _ Hp) as Hnd. pose proof Hp as [Hc Hok Hl Hr Hb Ha].
  pose proof Hc as Hc'. apply seg_app in Hc' as (q & _ & Hq). pose proof (proj1 Hq) as ->.
  apply Forall_app in Hok as [HokN [Hokx Hok2]%Forall_cons].
  unfold merge_successor. rewrite (end_addr_node a x _ 0 Hokx Hq).
  pose proof Hq as [_ Hn]%seg_cons_next. destruct M2 as [|s M2].
  { cbn [seg] in Hn. rewrite Hn. cbn [Z.eqb negb andb]. exists x, []. by split_and!. }
  pose proof (proj1 Hn) as Hnext. rewrite Hnext in Hn |- *. pose proof (seg_cons_next _ _ _ _ Hn) as [Hss _].
  apply Forall_cons in Hok2 as [Hoks Hok2]. apply Forall_cons in Ha as [Has Ha].
  apply StronglySorted_inv in Hr as [Hr Hsr].
  assert (Hs0 : (s.1 =? 0) = false) by (apply Z.eqb_neq; unfold region_ok in Hoks; lia). rewrite Hs0. cbn [negb andb].
  case_if.
  - rewrite Hss. destruct (absorb_spec a N1 x s M2 s.2 Hc Hnd eq_refl) as (Hc2 & Hh & Hfr).
    exists (x.1, x.2 + s.2), M2. split_and!; [|done| | |done|].
    + constructor; [done| |done|done|done|].
      * apply Forall_app. split; [done|]. apply Forall_cons. split; [|done]. by apply region_ok_merge.
      * eapply Forall_impl; [exact Hsr|]. unfold gap, before, block_end in *. simpl in *. lia.
    + eapply Forall_impl; [exact Hsr|]. unfold gap, block_end in *. simpl in *. lia.
    + by apply retile_merge.
    + intros w Hw. apply Hfr. intros Hin. apply Hw. change (x :: s :: M2) with ([x; s] ++ M2).
      rewrite node_words_app. apply elem_of_app. by left.
  - exists x, (s :: M2). split_and!; [done|done| |done|done|done].
    assert (gap x s) by (unfold gap, before in *; lia). constructor; [done|].
    eapply Forall_impl; [exact Hsr|]. unfold gap, before, region_ok, block_end, NODE_SIZE in *. lia.
Qed.

(** ** [add_free_region] *)

Lemma align_up_spec addr k : 0 <= k -> 0 <= addr ->
  align_up addr (2 ^ k) = if addr + (2 ^ k - 1) <=? U64_MAX then Some (next_multiple_of addr (2 ^ k)) else None.
Proof.
  intros Hk Ha. unfold align_up. replace (is_power_of_two (2 ^ k)) with true by (symmetry; apply is_power_of_two_iff; by exists k).
  cbn [negb]. unfold checked_add. case_if; [|done]. cbn [option_map]. by rewrite mask_next_multiple.
Qed.

Lemma align_up_node addr : 0 <= addr -> (8 | addr) -> addr + 8 <= U64_MAX -> align_up addr NODE_ALIGN = Some addr.
Proof.
  intros Ha Hd Hm. unfold NODE_ALIGN. change 8 with (2 ^ 3). rewrite align_up_spec by lia.
  change (2 ^ 3) with 8. case_if; [|lia]. by rewrite next_multiple_of_id.
Qed.

(** A region apart from all free ones is accepted, and becomes free memory. *)
Lemma add_free_region_spec a L addr size :
  free_list a L -> region_ok (addr, size) -> Forall (apart (addr, size)) L ->
  exists a' L', add_free_region a addr size = Some (true, a') /\ free_list a' L' /\ retile ((addr, size) :: L) L'
    /\ small_heads a' = small_heads a
    /\ forall w, (w ∉ node_words ((addr, size) :: L)) -> words a' !! w = words a !! w.
Proof.
  intros [Hc Hok Hs] Hr Hap. pose proof (gap_before L Hs) as Hsb. unfold add_free_region.
  pose proof Hr as (Hpos & Hd & _ & Hsz & Hend). unfold block_end, NODE_SIZE in *. cbn [fst snd] in *.
  rewrite align_up_node; [|lia|by apply (Z.divide_trans 8 16); [exists 2|]|lia]. rewrite bool_decide_false by (intros Hne; by apply Hne).
  cbn [orb]. unfold NODE_SIZE. case_if; [lia|].
  replace (checked_add addr size) with (Some (addr + size)) by (symmetry; by apply checked_add_Some).
  destruct (find_place_spec a addr size (walk_fuel a) [] L) as (M1 & M2 & HL & Hf & HM1 & HM2);
    [done|done|done|lia|done|constructor|by apply walk_fuel_enough|].
  cbn [app] in HL. subst L. change (prev []) with (@None Z) in Hf. rewrite Hf.
  apply Forall_app in Hok as [Hok1 Hok2]. apply sorted_app in Hs as (Hs1 & Hs2 & Hs12).
  assert (Hpl : forall a', chain a' (M1 ++ (addr, size) :: M2) -> placed a' M1 (addr, size) M2).
  { intros a' Hc'. constructor; [done| |done|done|done|done]. apply Forall_app. split; [done|]. by constructor. }
  destruct (insert_node_spec a M1 M2 addr size Hc Hpos) as (Hc1 & Hh1 & Hfr1).
  { apply node_words_NoDup; [apply Forall_app; split; [done|by constructor]|]. apply sorted_mid.
    apply sorted_app in Hsb as (? & ? & ?). done. }
  destruct (merge_previous_spec _ M1 addr size M2 (Hpl _ Hc1)) as (a2 & N1 & x & -> & Hp2 & Hg2 & Hre2 & Hx & Hh2 & Hfr2).
  destruct (merge_successor_spec a2 N1 x M2 Hp2) as (y & N2 & Hp3 & Hyx & Hg3 & Hre3 & Hh3 & Hfr3).
  exists (merge_successor a2 x.1), (N1 ++ y :: N2). split; [done|]. split.
  { apply placed_free_list; [done| |done]. eapply Forall_impl; [exact Hg2|]. unfold gap. by rewrite Hyx. }
  split.
  { rewrite <- Hre3, <- Hre2. apply retile_permutation, Permutation_middle. }
  split; [congruence|]. intros w Hw.
  change ((addr, size) :: M1 ++ M2) with ([(addr, size)] ++ M1 ++ M2) in Hw. rewrite !node_words_app in *.
  apply not_elem_of_app in Hw as [Hw1 Hw]. apply not_elem_of_app in Hw as [Hw2 Hw3].
  rewrite Hfr3, Hfr2, Hfr1; [done|apply not_elem_of_app; by split..|].
  change (x :: M2) with ([x] ++ M2). rewrite node_words_app. apply not_elem_of_app. split; [|done].
  intros Hin. apply Hx in Hin. by apply elem_of_app in Hin as [?|?].
Qed.

(** ** [find_region] *)

(** Where an allocation of [size] bytes aligned to [align] goes in a region. *)
Lemma alloc_from_region_spec a b L q size align k r :
  region_ok b -> seg (words a) b.1 (b :: L) q -> 0 <= k -> align = 2 ^ k -> (16 | align) -> (16 | size) -> 0 < size ->
  alloc_from_region a b.1 size align = Ok r ->
  (align | r) /\ b.1 <= r /\ r + size <= block_end b
  /\ (r - b.1 = 0 \/ NODE_SIZE <= r - b.1) /\ (block_end b - (r + size) = 0 \/ NODE_SIZE <= block_end b - (r + size)).
Proof.
  intros Hok Hseg Hk -> H8 Hs8 Hs H. unfold alloc_from_region in H. rewrite (end_addr_node a b L q Hok Hseg) in H.
  rewrite align_up_spec in H by (unfold region_ok in Hok; lia). case_if_in H; [|done]. cbn [ok_or] in H.
  pose proof (pow2_pos k Hk). pose proof (next_multiple_of_ge b.1 (2 ^ k)) as Hge.
  unfold checked_sub in H. case_if_in H; [|lia]. cbn [ok_or] in H. case_if_in H; [done|].
  unfold checked_add in H. case_if_in H; [|done]. cbn [ok_or] in H. case_if_in H; [done|]. case_if_in H; [done|]. injection H as <-.
  split; [apply next_multiple_of_divide|]. split; [lia|]. split; [lia|]. unfold NODE_SIZE in *. split.
  - destruct Hif1 as [Hif1|Hif1]; bool_to_prop; lia.
  - destruct Hif4 as [Hif4|Hif4]; bool_to_prop; lia.
Qed.

(** A region that refuses has no room, or ends too close to the end of the
    address space for the test to be computed. *)
Lemma alloc_from_region_refuses a b L q size align k :
  region_ok b -> seg (words a) b.1 (b :: L) q -> 0 <= k -> align = 2 ^ k -> (16 | align) -> (16 | size) -> 0 < size ->
  alloc_from_region a b.1 size align = Err tt ->
  block_end b < next_multiple_of b.1 align + size \/ U64_MAX < b.1 + (align - 1).
Proof.
  intros Hok Hseg Hk -> H8 Hs8 Hs H. unfold alloc_from_region in H. rewrite (end_addr_node a b L q Hok Hseg) in H.
  pose proof Hok as (Hb0 & Hb16 & Hs16 & Hsz & Hend).
  rewrite align_up_spec in H by lia. case_if_in H; [|by right]. left. cbn [ok_or] in H.
  pose proof (pow2_pos k Hk). pose proof (next_multiple_of_ge b.1 (2 ^ k)) as Hge.
  pose proof (next_multiple_of_divide b.1 (2 ^ k)) as Hdv. set (r := next_multiple_of b.1 (2 ^ k)) in *.
  assert (Hr16 : (16 | r)) by (eapply Z.divide_trans; [exact H8|exact Hdv]).
  assert (Hle : forall x, (16 | x) -> 0 < x -> 16 <= x) by (intros x [y ->] ?; lia).
  destruct (Z.lt_ge_cases (block_end b) (r + size)) as [|Hfit]; [done|exfalso].
  unfold checked_sub in H. case_if_in H; [|lia]. cbn [ok_or] in H. case_if_in H.
  { assert (16 <= r - b.1); [|unfold NODE_SIZE in *; lia]. apply Hle; [by apply Z.divide_sub_r|lia]. }
  unfold checked_add in H. case_if_in H; [|lia]. cbn [ok_or] in H. case_if_in H; [lia|]. case_if_in H; [|done].
  assert (16 <= block_end b - (r + size)); [|unfold NODE_SIZE in *; lia]. apply Hle; [|lia].
  apply Z.divide_sub_r; [by apply Z.divide_add_r|by apply Z.divide_add_r].
Qed.

(** No free region has room. *)
Definition no_room (L : list Block) (size align : Z) : Prop :=
  Forall (fun b => block_end b < next_multiple_of b.1 align + size \/ U64_MAX < b.1 + (align - 1)) L.

Lemma find_region_loop_spec a size align k fuel : forall L1 L2,
  0 <= k -> align = 2 ^ k -> (16 | align) -> (16 | size) -> 0 < size ->
  chain a (L1 ++ L2) -> NoDup (node_words (L1 ++ L2)) -> Forall region_ok L2 -> (length L2 < fuel)%nat ->
  (find_region_loop fuel a size align (prev L1) = Some (None, a)
   /\ no_room L2 size align)
  \/ exists M1 b M2 r a', L1 ++ L2 = M1 ++ b :: M2 /\ find_region_loop fuel a size align (prev L1) = Some (Some (b.1, block_end b, r), a')
    /\ alloc_from_region a b.1 size align = Ok r /\ seg (words a) b.1 (b :: M2) 0
    /\ chain a' (M1 ++ M2) /\ small_heads a' = small_heads a
    /\ forall w, (w ∉ node_words (L1 ++ L2)) -> words a' !! w = words a !! w.
Proof.
  induction fuel as [|fuel IH]; intros L1 L2 Hk Ha H8 Hs8 Hsz Hc Hnd Hok Hf; [lia|].
  pose proof (next_of_chain a L1 L2 Hc) as Hn. cbn [find_region_loop]. destruct L2 as [|b L2].
  { cbn [seg] in Hn. rewrite Hn. left. split; [done|constructor]. }
  pose proof (proj1 Hn) as Hnext. rewrite Hnext in Hn |- *. apply Forall_cons in Hok as [Hb Hok].
  case_if; [unfold region_ok in Hb; lia|]. destruct (alloc_from_region a b.1 size align) as [r|[]] eqn:Hr.
  - right. exists L1, b, L2, r. rewrite (end_addr_node a b L2 0 Hb Hn). eexists. split; [done|]. split; [done|].
    do 2 (split; [done|]). pose proof (seg_cons_next _ _ _ _ Hn) as [_ HL2].
    rewrite node_words_app in Hnd. pose proof Hnd as (HndL & HLK & HndK)%NoDup_app. cbn [node_words flat_map app] in HndK, HLK.
    apply NoDup_cons in HndK as [Hb1 HndK]. apply NoDup_cons in HndK as [Hb8 HndK].
    split; [|split; [by rewrite set_next_heads|]].
    + apply (relink (store a (b.1 + 8) 0) L1 [b]).
      * apply seg_app in Hc as (q & Hq & -> & Hb0 & Hbs & n & Hn' & _). apply seg_app. exists b.1. split.
        { apply seg_insert; [|done]. intros Hin. apply (HLK _ Hin). right. by left. }
        cbn [seg store words]. split; [done|]. split; [done|]. rewrite lookup_insert_ne by lia. split; [done|].
        exists 0. by rewrite lookup_insert_eq.
      * rewrite node_words_app. apply NoDup_app. split; [done|]. split; [|done]. intros x Hx Hin. apply (HLK x Hx). by do 2 right.
      * by apply seg_insert.
    + intros w Hw. rewrite node_words_app in Hw. apply not_elem_of_app in Hw as [HwL Hw]. rewrite set_next_frame by done.
      cbn [store words]. apply lookup_insert_ne. intros <-. apply Hw. right. by left.
  - destruct (IH (L1 ++ [b]) L2) as [[H1 H2]|(M1 & c & M2 & r & a' & H)]; rewrite <- ?app_assoc, ?prev_snoc in *; [done..|simpl in Hf; lia| |].
    + left. split; [done|]. constructor; [by eapply alloc_from_region_refuses|done].
    + right. by exists M1, c, M2, r, a'.
Qed.

(** The first region that fits is taken out of the list. *)
Lemma find_region_spec a L size align k :
  free_list a L -> 0 <= k -> align = 2 ^ k -> (16 | align) -> (16 | size) -> 0 < size ->
  (find_region a size align = Some (None, a) /\ no_room L size align)
  \/ exists M1 b M2 r a', L = M1 ++ b :: M2 /\ find_region a size align = Some (Some (b.1, block_end b, r), a')
    /\ free_list a' (M1 ++ M2) /\ region_ok b /\ small_heads a' = small_heads a
    /\ (forall w, (w ∉ node_words L) -> words a' !! w = words a !! w)
    /\ (align | r) /\ b.1 <= r /\ r + size <= block_end b
    /\ (r - b.1 = 0 \/ NODE_SIZE <= r - b.1) /\ (block_end b - (r + size) = 0 \/ NODE_SIZE <= block_end b - (r + size)).
Proof.
  intros [Hc Hok Hs] Hk Ha H8 Hs8 Hsz. pose proof (gap_before L Hs) as Hsb. unfold find_region.
  destruct (find_region_loop_spec a size align k (walk_fuel a) [] L) as [H|(M1 & b & M2 & r & a' & HL & Hf & Hr & Hseg & Hc' & Hh & Hfr)];
    [done..|by apply node_words_NoDup|done|by apply walk_fuel_enough|by left|].
  cbn [app] in HL. subst L. right. exists M1, b, M2, r, a'. apply Forall_app in Hok as [Hok1 [Hb Hok2]%Forall_cons].
  apply sorted_mid in Hs as (Hs1 & Hs2 & _ & _ & Hs12).
  split; [done|]. split; [done|]. split; [constructor; [done|by apply Forall_app|by apply sorted_app]|].
  do 3 (split; [done|]). by eapply alloc_from_region_spec.
Qed.

(** * The invariant of the static heap

    The free regions, the free blocks of every class and the blocks handed out
    tile the heap exactly; the lists in memory are those; every operation of
    [mm/heap.rs], and any write of an owner inside its block, keeps that. *)

Import Heap.

(** ** Carving a block out of the free list *)

(** A piece that may be empty. *)
Definition piece (addr size : Z) : list Block := if size =? 0 then [] else [(addr, size)].

Lemma free_list_packed a L : free_list a L -> packed 0 U64_MAX L.
Proof.
  intros [_ Hok Hs]. split.
  - clear Hok. induction Hs as [|b L Hs IH Hb]; simpl; [done|]. split; [|done].
    eapply Forall_impl; [exact Hb|]. unfold gap, apart. lia.
  - eapply Forall_impl; [exact Hok|]. unfold region_ok, within, NODE_SIZE. lia.
Qed.

Lemma retile_pieces b r size :
  b.1 <= r -> 0 < size -> r + size <= block_end b ->
  retile [b] (piece b.1 (r - b.1) ++ (r, size) :: piece (r + size) (block_end b - (r + size))).
Proof.
  intros H1 H2 H3. destruct b as [s n]. unfold block_end, piece in *. cbn [fst snd] in *.
  assert (Hpost : retile [(r, s + n - r)] ((r, size) :: (if s + n - (r + size) =? 0 then [] else [(r + size, s + n - (r + size))]))).
  { case_if; [by replace (s + n - r) with size by lia|].
    replace (s + n - r) with (size + (s + n - (r + size))) by lia. apply retile_split; lia. }
  rewrite <- Hpost. case_if.
  - assert (r = s) as -> by lia. cbn [app]. by replace (s + n - s) with n by lia.
  - replace n with ((r - s) + (s + n - r)) at 1 by lia. rewrite retile_split by lia. by replace (s + (r - s)) with r by lia.
Qed.

Lemma give_back_spec a L addr size :
  free_list a L -> size = 0 \/ region_ok (addr, size) -> packed 0 U64_MAX (piece addr size ++ L) ->
  exists a' L', give_back a addr size = Some a' /\ free_list a' L' /\ retile (piece addr size ++ L) L'
    /\ small_heads a' = small_heads a
    /\ forall w, (forall b, b ∈ piece addr size ++ L -> ~ holds b w) -> words a' !! w = words a !! w.
Proof.
  intros Hfl Hor Hp. unfold give_back, piece in *. case_if.
  - exists a, L. by split_and!.
  - destruct Hor as [|Hr]; [lia|].
    destruct (add_free_region_spec a L addr size Hfl Hr (packed_cons_apart _ _ _ _ Hp)) as (a' & L' & -> & Hfl' & Hre & Hh & Hfr).
    exists a', L'. split; [done|]. split; [done|]. split; [done|]. split; [done|]. intros w Hw. apply Hfr. intros Hin.
    apply node_words_holds in Hin as (b & Hb & Hbw); [by apply (Hw b)|]. constructor; [done|apply Hfl].
Qed.

Lemma region_ok_piece addr size lim :
  (16 | addr) -> (16 | size) -> 0 < addr -> size = 0 \/ NODE_SIZE <= size -> addr + size <= lim -> lim <= U64_MAX ->
  size = 0 \/ region_ok (addr, size).
Proof. intros. destruct (decide (size = 0)); [by left|right]. unfold region_ok, block_end, NODE_SIZE in *. simpl. split_and!; try done; lia. Qed.

(** What [refill_small] and [alloc] do with a region that fits: the middle is
    the caller's, both ends go back. *)
Lemma carve_spec a L size align k region_start region_end r a1 :
  free_list a L -> 0 <= k -> align = 2 ^ k -> (16 | align) -> (16 | size) -> 0 < size ->
  find_region a size align = Some (Some (region_start, region_end, r), a1) ->
  exists a2 a3 L', checked_add r size = Some (r + size)
    /\ give_back a1 region_start (r - region_start) = Some a2
    /\ give_back a2 (r + size) (region_end - (r + size)) = Some a3
    /\ free_list a3 L' /\ retile L ((r, size) :: L') /\ 0 < r /\ (align | r)
    /\ small_heads a3 = small_heads a
    /\ forall w, (forall b, b ∈ L -> ~ holds b w) -> words a3 !! w = words a !! w.
Proof.
  intros Hfl Hk Ha H8 Hs8 Hsz Hfind.
  destruct (find_region_spec a L size align k Hfl Hk Ha H8 Hs8 Hsz) as [[Hn _]|(M1 & b & M2 & r' & a' & HL & Hf & Hfl1 & Hb & Hh1 & Hfr1 & Hdiv & Hle & Hend & Hpre & Hpost)];
    [congruence|]. rewrite Hf in Hfind. injection Hfind as <- <- <- <-.
  pose proof Hb as (Hb0 & Hb8 & Hbs8 & Hbs & Hbe).
  assert (Hr8 : (16 | r')) by (eapply Z.divide_trans; [exact H8|exact Hdiv]). assert (Hre8 : (16 | block_end b)) by (by apply Z.divide_add_r).
  assert (Hrs8 : (16 | r' + size)) by (by apply Z.divide_add_r).
  set (pre := piece b.1 (r' - b.1)). set (post := piece (r' + size) (block_end b - (r' + size))).
  assert (Hret : retile L (pre ++ (r', size) :: post ++ M1 ++ M2)).
  { transitivity ([b] ++ M1 ++ M2); [rewrite HL; apply retile_permutation; by rewrite <- Permutation_middle|].
    rewrite (retile_pieces b r' size) by done. by rewrite <- app_assoc. }
  pose proof (free_list_packed _ _ Hfl) as Hp. rewrite Hret in Hp.
  destruct (give_back_spec a' (M1 ++ M2) b.1 (r' - b.1)) as (a2 & L2 & Hg2 & Hfl2 & Hre2 & Hh2 & Hfr2); [done| | |].
  { apply (region_ok_piece _ _ (block_end b)); [done|by apply Z.divide_sub_r|done|done|lia|done]. }
  { fold pre. assert (Hperm : pre ++ (r', size) :: post ++ M1 ++ M2 ≡ₚ (pre ++ M1 ++ M2) ++ (r', size) :: post) by solve_Permutation.
    rewrite Hperm in Hp. by apply packed_app in Hp as [Hp _]. }
  fold pre in Hre2.
  assert (Hret2 : retile L ((r', size) :: post ++ L2)).
  { rewrite Hret. change ((r', size) :: post ++ L2) with (((r', size) :: post) ++ L2). rewrite <- Hre2.
    apply retile_permutation. solve_Permutation. }
  pose proof (free_list_packed _ _ Hfl) as Hp2. rewrite Hret2 in Hp2.
  destruct (give_back_spec a2 L2 (r' + size) (block_end b - (r' + size))) as (a3 & L3 & Hg3 & Hfl3 & Hre3 & Hh3 & Hfr3); [done| | |].
  { apply (region_ok_piece _ _ (block_end b)); [done|by apply Z.divide_sub_r|lia|done|lia|done]. }
  { fold post. change ((r', size) :: post ++ L2) with ([(r', size)] ++ post ++ L2) in Hp2. by apply packed_app in Hp2 as (_ & Hp2 & _). }
  fold post in Hre3.
  exists a2, a3, L3. split; [apply checked_add_Some; split; [done|lia]|]. do 3 (split; [done|]).
  split. { rewrite Hret2. change ((r', size) :: post ++ L2) with ([(r', size)] ++ post ++ L2). by rewrite Hre3. }
  split; [lia|]. split; [done|]. split; [congruence|].
  pose proof (free_list_packed _ _ Hfl) as HpL. intros w Hw.
  pose proof (retile_holds _ _ _ _ w HpL Hret Hw) as Hw1. pose proof (retile_holds _ _ _ _ w HpL Hret2 Hw) as Hw2.
  rewrite Hfr3, Hfr2, Hfr1; [done| | |].
  - intros Hin. apply node_words_holds in Hin as (c & Hc & Hcw); [by apply (Hw c)|apply Hfl].
  - intros c Hc. apply Hw1. apply elem_of_app in Hc as [Hc|Hc]; apply elem_of_app; [by left|right; right].
    apply elem_of_app. by right.
  - intros c Hc. apply Hw2. by right.
Qed.

(** ** The invariant *)

(** The blocks on the class lists. *)
Fixpoint blocks_of (classes : list Z) (lists : list (list Z)) : list Block :=
  match classes, lists with
  | c :: classes, l :: lists => map (fun x => (x, c)) l ++ blocks_of classes lists
  | _, _ => []
  end.
Definition small_blocks (S : list (list Z)) : list Block := blocks_of SMALL_CLASSES S.

(** Free regions [L], free blocks [S] by class, and the blocks [B] handed out. *)
Record heap_inv (start limit : Z) (a : LinkedListAllocator) (L : list Block) (S : list (list Z)) (B : list Block) : Prop := {
  hi_list : free_list a L;
  hi_heads : length (small_heads a) = length SMALL_CLASSES;
  hi_classes : length S = length SMALL_CLASSES;
  hi_small : forall i l, S !! i = Some l -> links (words a) (small_head a i) l /\ Forall (fun x => (class_size i | x)) l;
  hi_tiling : tiling start limit (L ++ small_blocks S ++ B)
}.

Lemma blocks_of_push classes S i c l x :
  classes !! i = Some c -> S !! i = Some l -> blocks_of classes (<[i := x :: l]> S) ≡ₚ (x, c) :: blocks_of classes S.
Proof.
  revert S i. induction classes as [|d classes IH]; intros S i Hc HS; [done|]. destruct S as [|k S]; [done|].
  destruct i as [|i]; simpl in *.
  - by simplify_eq.
  - rewrite (IH S i Hc HS). symmetry. apply Permutation_middle.
Qed.

Lemma class_size_lookup i : (i < length SMALL_CLASSES)%nat -> SMALL_CLASSES !! i = Some (class_size i).
Proof. unfold class_size. do 9 (destruct i as [|i]; [done|]). simpl. lia. Qed.

Lemma class_size_pow i : (i < length SMALL_CLASSES)%nat -> exists k, 4 <= k <= 12 /\ class_size i = 2 ^ k.
Proof. intros Hi. exists (Z.of_nat i + 4). split; [simpl in Hi; lia|]. do 9 (destruct i as [|i]; [done|]). simpl in Hi. lia. Qed.

Lemma class_size_facts i : (i < length SMALL_CLASSES)%nat -> 16 <= class_size i <= 4096 /\ (16 | class_size i).
Proof.
  intros Hi%class_size_lookup. assert (Hall : Forall (fun c => 16 <= c <= 4096 /\ (16 | c)) SMALL_CLASSES)
    by (repeat (constructor; [split; [lia|by apply Z.mod_divide]|]); constructor).
  rewrite Forall_lookup in Hall. by apply (Hall i).
Qed.


Lemma small_head_set a i v j : (i < length (small_heads a))%nat ->
  small_head (set_head a i v) j = if decide (i = j) then v else small_head a j.
Proof.
  intros Hi. unfold small_head. cbn [set_head small_heads]. rewrite !nth_lookup. case_decide as Hd.
  - subst j. by rewrite list_lookup_insert_eq.
  - by rewrite list_lookup_insert_ne.
Qed.

Section Inv.
Context (start limit : Z) (Hstart : 0 < start) (Hlimit : limit <= U64_MAX).
Abbreviation inv := (heap_inv start limit).

(** Writes outside the free blocks leave the class lists alone. *)
Lemma small_agree a a' (S : list (list Z)) :
  small_heads a' = small_heads a ->
  (forall i l, S !! i = Some l -> links (words a) (small_head a i) l /\ Forall (fun x => (class_size i | x)) l) ->
  (forall i l x, S !! i = Some l -> x ∈ l -> words a' !! x = words a !! x) ->
  forall i l, S !! i = Some l -> links (words a') (small_head a' i) l /\ Forall (fun x => (class_size i | x)) l.
Proof.
  intros Hh HS Hag i l Hl. destruct (HS i l Hl) as [Hk Hd]. split; [|done]. unfold small_head in *. rewrite Hh.
  eapply links_agree; [|exact Hk]. intros x Hx. by eapply Hag.
Qed.

Lemma elem_blocks_of classes (S : list (list Z)) i c l x : classes !! i = Some c -> S !! i = Some l -> x ∈ l -> (x, c) ∈ blocks_of classes S.
Proof.
  revert S i. induction classes as [|d classes IH]; intros S i Hc HS Hx; [done|]. destruct S as [|k S]; [done|].
  destruct i as [|i]; simpl in *; apply elem_of_app.
  - simplify_eq. left. by apply (list_elem_of_fmap_2 (fun x => (x, c))).
  - right. by eapply IH.
Qed.

Lemma inv_elem a L S B i l x : inv a L S B -> S !! i = Some l -> x ∈ l -> (x, class_size i) ∈ small_blocks S /\ (i < length SMALL_CLASSES)%nat.
Proof.
  intros Hi HS Hx. assert (Hlt : (i < length SMALL_CLASSES)%nat) by (rewrite <- (hi_classes _ _ _ _ _ _ Hi); by eapply lookup_lt_Some).
  split; [|done]. eapply elem_blocks_of; [by apply class_size_lookup|done|done].
Qed.

(** An address of a class list is its block's first byte. *)
Lemma inv_small_word a L S B i l x : inv a L S B -> S !! i = Some l -> x ∈ l -> exists b, b ∈ small_blocks S /\ holds b x.
Proof.
  intros Hi HS Hx. destruct (inv_elem _ _ _ _ _ _ _ Hi HS Hx) as [He Hlt]. exists (x, class_size i). split; [done|].
  pose proof (class_size_facts i Hlt). unfold holds, block_end. simpl. lia.
Qed.

(** Words of the free list and of the blocks handed out are not words of the
    class lists. *)
Lemma inv_disjoint a L S B x c : inv a L S B -> c ∈ L ++ B -> holds c x -> forall i l, S !! i = Some l -> (x ∉ l).
Proof.
  intros Hi Hc Hx i l HS Hin. destruct (inv_small_word _ _ _ _ _ _ _ Hi HS Hin) as (b & Hb & Hbx).
  destruct (hi_tiling _ _ _ _ _ _ Hi) as [Hp _].
  assert (Hperm : L ++ small_blocks S ++ B ≡ₚ (L ++ B) ++ small_blocks S) by solve_Permutation.
  rewrite Hperm in Hp. pose proof (packed_cross _ _ _ _ c b Hp Hc Hb). unfold apart, holds in *. lia.
Qed.

(** Any rearrangement of the free list and the handed-out blocks that leaves
    the class lists' words alone keeps the invariant. *)
Lemma inv_retile a L S B a' L' B' :
  inv a L S B -> free_list a' L' -> small_heads a' = small_heads a -> retile (L ++ B) (L' ++ B') ->
  (forall w, (forall b, b ∈ L ++ B -> ~ holds b w) -> words a' !! w = words a !! w) -> inv a' L' S B'.
Proof.
  intros Hi Hfl Hh Hre Hfr. constructor; [done|rewrite Hh; apply Hi|apply Hi| |].
  - eapply small_agree; [exact Hh|apply Hi|]. intros i l x HS Hx. apply Hfr. intros b Hb Hbx.
    by apply (inv_disjoint a L S B x b Hi Hb Hbx i l HS).
  - assert (Hperm : forall K D, K ++ small_blocks S ++ D ≡ₚ (K ++ D) ++ small_blocks S) by (intros; solve_Permutation).
    rewrite Hperm, <- Hre, <- Hperm. apply Hi.
Qed.

(** ** The operations *)

(** A block leaves the free list for its owner. *)
Lemma alloc_general_spec a L S B size align k :
  inv a L S B -> 0 <= k -> align = 2 ^ k -> (16 | align) -> (16 | size) -> 0 < size ->
  (alloc_general a size align = Some (0, a) /\ no_room L size align)
  \/ exists p a' L', alloc_general a size align = Some (p, a') /\ 0 < p /\ (align | p) /\ inv a' L' S ((p, size) :: B).
Proof.
  intros Hi Hk Ha H16 Hs16 Hsz. unfold alloc_general.
  destruct (find_region a size align) as [[[[[rs re] r]|] a1]|] eqn:Hf.
  - right. destruct (carve_spec a L size align k rs re r a1) as (a2 & a3 & L' & -> & -> & -> & Hfl & Hre & Hr & Hd & Hh & Hfr); [apply Hi|done..|].
    exists r, a3, L'. split; [done|]. do 2 (split; [done|]). apply (inv_retile a L S B); [done|done|done| |].
    + rewrite Hre. apply retile_permutation. cbn [app]. apply Permutation_middle.
    + intros w Hw. apply Hfr. intros b Hb. apply Hw, elem_of_app. by left.
  - destruct (find_region_spec a L size align k) as [[H1 H2]|(? & ? & ? & ? & ? & ? & H1 & _)]; [apply Hi|done..| |congruence].
    rewrite H1 in Hf. injection Hf as <-. by left.
  - destruct (find_region_spec a L size align k) as [[H1 H2]|(? & ? & ? & ? & ? & ? & H1 & _)]; [apply Hi|done..|congruence|congruence].
Qed.

(** A block returns to the free list. *)
Lemma release_general_spec a L S B p size :
  inv a L S ((p, size) :: B) -> (16 | p) -> (16 | size) ->
  exists a' L', add_free_region a p size = Some (true, a') /\ inv a' L' S B.
Proof.
  intros Hi Hp Hs. destruct (hi_tiling _ _ _ _ _ _ Hi) as [Hpk _].
  assert (Hperm : L ++ small_blocks S ++ (p, size) :: B ≡ₚ (p, size) :: L ++ small_blocks S ++ B) by solve_Permutation.
  rewrite Hperm in Hpk. pose proof (proj2 Hpk) as Hw. apply Forall_cons in Hw as [Hw _].
  apply packed_cons_apart, Forall_app in Hpk as [Hap _]. unfold within, block_end in Hw. cbn [fst snd] in Hw.
  destruct (add_free_region_spec a L p size) as (a' & L' & Hadd & Hfl & Hre & Hh & Hfr); [apply Hi| |done|].
  { unfold region_ok, NODE_SIZE, block_end. cbn [fst snd]. split_and!; [lia|done|done| |lia]. destruct Hs as [q ->]. lia. }
  exists a', L'. split; [done|]. apply (inv_retile a L S ((p, size) :: B)); [done|done|done| |].
  - rewrite <- Hre. apply retile_permutation. cbn [app]. by rewrite <- Permutation_middle.
  - intros w Hw'. apply Hfr. intros Hin. apply node_words_holds in Hin as (b & Hb & Hbw).
    + apply (Hw' b); [|done]. apply elem_of_cons in Hb as [->|Hb]; apply elem_of_app; [right; by left|by left].
    + constructor; [|apply Hi]. unfold region_ok, NODE_SIZE, block_end. cbn [fst snd].
      split_and!; [lia|done|done| |lia]. destruct Hs as [q ->]. lia.
Qed.

(** A block goes onto its class list. *)
Lemma push_small_spec a L S B class l p :
  inv a L S ((p, class_size class) :: B) -> S !! class = Some l -> (class_size class | p) ->
  inv (push_small a class p) L (<[class := p :: l]> S) B.
Proof.
  intros Hi HS Hd. assert (Hlt : (class < length SMALL_CLASSES)%nat) by (rewrite <- (hi_classes _ _ _ _ _ _ Hi); by eapply lookup_lt_Some).
  assert (Hlt' : (class < length (small_heads a))%nat) by (rewrite (hi_heads _ _ _ _ _ _ Hi); done).
  assert (Hin : (p, class_size class) ∈ L ++ (p, class_size class) :: B) by (apply elem_of_app; right; by left).
  pose proof (class_size_facts class Hlt) as [Hc _].
  assert (Hholds : holds (p, class_size class) p) by (unfold holds, block_end; simpl; lia).
  pose proof (inv_disjoint _ _ _ _ p _ Hi Hin Hholds) as Hnot. pose proof Hi as [Hfl Hh Hcl Hsm [Hpk Hext]].
  assert (Hp0 : 0 < p).
  { pose proof (proj2 Hpk) as Hw. rewrite Forall_forall in Hw. specialize (Hw (p, class_size class)).
    unfold within in Hw. cbn [fst] in Hw. enough (start <= p) by lia. apply Hw. rewrite !elem_of_app. right; right. by left. }
  unfold push_small. constructor.
  - destruct Hfl as [Hch Hok Hs]. constructor; [|done|done]. unfold chain in *. cbn [set_head store words head_next].
    apply seg_insert; [|done]. intros Hw. apply node_words_holds in Hw as (b & Hb & Hbw); [|done].
    pose proof (packed_cross _ _ _ _ b (p, class_size class) Hpk Hb) as Hap. rewrite elem_of_app in Hap.
    unfold apart, holds in *. enough (p < p) by lia.
    destruct Hap as [Hap|Hap]; [right; by left|unfold block_end in *; simpl in *; lia..].
  - simpl. by rewrite length_insert.
  - by rewrite length_insert.
  - intros i k Hk. rewrite small_head_set by done. cbn [set_head store words]. case_decide as Hdec.
    + subst i. rewrite list_lookup_insert_eq in Hk by (by rewrite Hcl). injection Hk as <-.
      destruct (Hsm class l HS) as [Hl Hdl]. split; [|by constructor]. apply links_push; [lia|by eapply Hnot|done].
    + rewrite list_lookup_insert_ne in Hk by done. destruct (Hsm i k Hk) as [Hl Hdl]. split; [|done].
      apply links_insert; [by eapply Hnot|done].
  - unfold small_blocks. rewrite (blocks_of_push SMALL_CLASSES S class (class_size class) l p) by (done || by apply class_size_lookup).
    assert (Hperm : L ++ ((p, class_size class) :: blocks_of SMALL_CLASSES S) ++ B ≡ₚ L ++ small_blocks S ++ (p, class_size class) :: B)
      by (unfold small_blocks; solve_Permutation).
    by rewrite Hperm.
Qed.

(** A block leaves its class list. *)
Lemma pop_small_spec a L S B class l p :
  inv a L S B -> S !! class = Some (p :: l) -> small_head a class = p ->
  inv (set_head a class (word (words a) p)) L (<[class := l]> S) ((p, class_size class) :: B) /\ 0 < p /\ (class_size class | p).
Proof.
  intros Hi HS Hp. pose proof Hi as [Hfl Hh Hcl Hsm Ht].
  assert (Hlt : (class < length SMALL_CLASSES)%nat) by (rewrite <- Hcl; by eapply lookup_lt_Some).
  destruct (Hsm class _ HS) as [(_ & Hp0 & n & Hn & Hl) [Hd Hdl]%Forall_cons].
  assert (Hback : S = <[class := p :: l]> (<[class := l]> S)) by (by rewrite list_insert_insert_eq, list_insert_id).
  assert (Hperm : small_blocks S ≡ₚ (p, class_size class) :: small_blocks (<[class := l]> S)).
  { rewrite Hback at 1. apply blocks_of_push; [by apply class_size_lookup|]. apply list_lookup_insert_eq. by rewrite Hcl. }
  assert (Ht' : tiling start limit (L ++ small_blocks (<[class := l]> S) ++ (p, class_size class) :: B)).
  { rewrite Hperm in Ht. rewrite <- (Permutation_middle _ B). exact Ht. }
  split; [|split; [|done]].
  - constructor; [|simpl; by rewrite length_insert|by rewrite length_insert| |done].
    + destruct Hfl as [Hch Hok Hs]. by constructor.
    + intros i k Hk. rewrite small_head_set by (by rewrite Hh). case_decide as Hdec; cbn [set_head words].
      * subst i. rewrite list_lookup_insert_eq in Hk by (by rewrite Hcl). injection Hk as <-. unfold word. by rewrite Hn.
      * rewrite list_lookup_insert_ne in Hk by done. by apply Hsm.
  - pose proof (proj2 (proj1 Ht')) as Hw. rewrite Forall_forall in Hw. specialize (Hw (p, class_size class)).
    unfold within in Hw. cbn [fst] in Hw. enough (start <= p) by lia. apply Hw. rewrite !elem_of_app. right; right. by left.
Qed.

(** An owner writes a word of its block. *)
Lemma heap_write_spec a L S B b x v : inv a L S B -> b ∈ B -> holds b x -> inv (store a x v) L S B.
Proof.
  intros Hi Hb Hx. assert (Hin : b ∈ L ++ B) by (apply elem_of_app; by right).
  pose proof (inv_disjoint _ _ _ _ x b Hi Hin Hx) as Hnot. pose proof Hi as [[Hch Hok Hs] Hh Hcl Hsm Ht].
  constructor; [constructor; [|done|done]|done|done| |done].
  - unfold chain in *. cbn [store words head_next]. apply seg_insert; [|done]. intros Hw.
    apply node_words_holds in Hw as (c & Hc & Hcw); [|done]. destruct Ht as [Hpk _].
    pose proof (packed_cross _ _ _ _ c b Hpk Hc) as Hap. rewrite elem_of_app in Hap. specialize (Hap (or_intror Hb)).
    unfold apart, holds in *. lia.
  - intros i l Hl. destruct (Hsm i l Hl) as [Hk Hd]. split; [|done]. apply links_insert; [by eapply Hnot|done].
Qed.

(** ** Refilling a class *)

Lemma retile_run r block n : 0 < block -> (0 < n)%nat ->
  retile [(r, block * Z.of_nat n)] (map (fun i => (r + Z.of_nat i * block, block)) (seq 0 n)).
Proof.
  intros Hb. revert r. induction n as [|n IH]; intros r Hn; [lia|]. cbn [seq map]. rewrite Z.mul_0_l, Z.add_0_r.
  destruct n as [|n]; [by rewrite Z.mul_1_r|].
  replace (block * Z.of_nat (S (S n))) with (block + block * Z.of_nat (S n)) by lia. rewrite retile_split by lia.
  change (?x :: map ?f (seq 1 (S n))) with ([x] ++ map f (seq 1 (S n))).
  change (retile ([(r, block)] ++ [(r + block, block * Z.of_nat (S n))]) ([(r, block)] ++ map (fun i => (r + Z.of_nat i * block, block)) (seq 1 (S n)))).
  rewrite (IH (r + block)) by lia. rewrite <- (seq_shift (S n) 0), map_map.
  assert (Hext : map (fun i => (r + block + Z.of_nat i * block, block)) (seq 0 (S n)) = map (fun i => (r + Z.of_nat (S i) * block, block)) (seq 0 (S n)))
    by (apply map_ext; intros i; f_equal; lia).
  by rewrite Hext.
Qed.

Lemma step_by_run block n : 0 < block -> (0 < n)%nat ->
  step_by block (block * Z.of_nat n) block = map (fun i => Z.of_nat i * block) (seq 1 (n - 1)).
Proof.
  intros Hb Hn. rewrite step_by_map.
  replace (Z.to_nat ((block * Z.of_nat n - block + block - 1) / block)) with (n - 1)%nat.
  - rewrite <- (seq_shift (n - 1) 0), map_map. apply map_ext. intros i. lia.
  - replace (block * Z.of_nat n - block + block - 1) with (block - 1 + (Z.of_nat n - 1) * block) by lia.
    rewrite Z.div_add by lia. rewrite (Z.div_small (block - 1)) by lia. lia.
Qed.

Lemma push_run_spec class r offsets : forall a L S B,
  inv a L S (map (fun o => (r + o, class_size class)) offsets ++ B) -> (class < length SMALL_CLASSES)%nat ->
  Forall (fun o => (class_size class | r + o)) offsets ->
  exists S', inv (fold_left (fun a o => push_small a class (r + o)) offsets a) L S' B.
Proof.
  induction offsets as [|o offsets IH]; intros a L S B Hi Hlt Hd; [by exists S|]. cbn [fold_left map app] in *.
  apply Forall_cons in Hd as [Hd Hds]. destruct (lookup_lt_is_Some_2 S class) as [l Hl]; [by rewrite (hi_classes _ _ _ _ _ _ Hi)|].
  eapply IH; [by eapply push_small_spec|done|done].
Qed.

Lemma refill_search_spec a L block k fuel : forall n,
  free_list a L -> block = 2 ^ k -> 4 <= k <= 12 -> 1 <= n <= SMALL_REFILL_BLOCKS -> n < 2 ^ Z.of_nat fuel ->
  (refill_search fuel a block n = Some (None, a) /\ no_room L block block)
  \/ exists m region a', refill_search fuel a block n = Some (Some (block * m, region), a')
       /\ find_region a (block * m) block = Some (Some region, a') /\ 1 <= m <= SMALL_REFILL_BLOCKS.
Proof.
  unfold SMALL_REFILL_BLOCKS. induction fuel as [|fuel IH]; intros n Hfl Hb Hk Hn Hf; [simpl in Hf; lia|]. cbn [refill_search].
  assert (H16 : (16 | block)) by (rewrite Hb; apply (pow2_divide 4 k); lia).
  assert (Hbl : 16 <= block <= 4096) by (rewrite Hb; split; [apply (Z.pow_le_mono_r 2 4 k)|apply (Z.pow_le_mono_r 2 k 12)]; lia).
  assert (Hmul : checked_mul block n = Some (block * n)) by (unfold checked_mul; case_if; [done|unfold U64_MAX in *; nia]).
  rewrite Hmul. destruct (find_region_spec a L (block * n) block k Hfl) as [[Hnone Hno]|(M1 & b & M2 & r & a' & _ & Hsome & _)];
    [lia|done|done|by apply Z.divide_mul_l|nia| |].
  - rewrite Hnone. case_if; [left; split; [done|]; subst n; by rewrite Z.mul_1_r in Hno|].
    apply IH; [done|done|done| |].
    + split; [apply Z.div_le_lower_bound; lia|]. apply Z.div_le_upper_bound; lia.
    + rewrite Nat2Z.inj_succ, Z.pow_succ_r in Hf by lia. apply Z.div_lt_upper_bound; lia.
  - rewrite Hsome. right. by exists n, (b.1, block_end b, r), a'.
Qed.

Lemma refill_small_spec a L S B class :
  inv a L S B -> (class < length SMALL_CLASSES)%nat ->
  (refill_small a class = Some (None, a) /\ no_room L (class_size class) (class_size class))
  \/ exists p a' L' S', refill_small a class = Some (Some p, a') /\ 0 < p /\ (class_size class | p)
       /\ inv a' L' S' ((p, class_size class) :: B).
Proof.
  intros Hi Hlt. destruct (class_size_pow class Hlt) as (k & Hk & Hpow). destruct (class_size_facts class Hlt) as [Hc H16].
  unfold refill_small.
  destruct (refill_search_spec a L (class_size class) k 6 SMALL_REFILL_BLOCKS) as [[-> Hno]|(m & region & a1 & -> & Hf & Hm)];
    [apply Hi|done|done|unfold SMALL_REFILL_BLOCKS; lia|done|by left|].
  destruct region as [[rs re] r].
  destruct (carve_spec a L (class_size class * m) (class_size class) k rs re r a1) as (a2 & a3 & L' & -> & -> & -> & Hfl & Hre & Hr & Hd & Hh & Hfr);
    [apply Hi|lia|done|done|by apply Z.divide_mul_l|nia|done|].
  right. set (n := Z.to_nat m). assert (Hn : class_size class * m = class_size class * Z.of_nat n) by (unfold n; lia).
  assert (Hrun : retile [(r, class_size class * m)] ((r, class_size class) :: map (fun o => (r + o, class_size class)) (step_by (class_size class) (class_size class * m) (class_size class)))).
  { rewrite Hn, retile_run, step_by_run by lia. destruct n as [|n']; [lia|]. cbn [seq map]. rewrite map_map, Z.mul_0_l, Z.add_0_r.
    by replace (Datatypes.S n' - 1)%nat with n' by lia. }
  assert (Hi3 : inv a3 L' S (map (fun o => (r + o, class_size class)) (step_by (class_size class) (class_size class * m) (class_size class)) ++ (r, class_size class) :: B)).
  { apply (inv_retile a L S B); [done|done|done| |].
    - rewrite Hre. change ((r, class_size class * m) :: L') with ([(r, class_size class * m)] ++ L'). rewrite Hrun.
      apply retile_permutation. solve_Permutation.
    - intros w Hw. apply Hfr. intros b Hb. apply Hw, elem_of_app. by left. }
  apply push_run_spec in Hi3 as [S' Hi']; [|done|].
  - exists r. do 3 eexists. split; [done|]. split; [done|]. split; [done|]. exact Hi'.
  - rewrite Hn, step_by_run by lia. rewrite Forall_forall. intros o Ho. apply list_elem_of_fmap in Ho as (i & -> & _).
    apply Z.divide_add_r; [done|]. apply Z.divide_factor_r.
Qed.

(** A block of the class, from its list or from a fresh run; 0 only when the
    list is empty and no free region has room for one block. *)
Lemma alloc_small_spec a L S B class :
  inv a L S B -> (class < length SMALL_CLASSES)%nat ->
  (alloc_small a class = Some (0, a) /\ S !! class = Some [] /\ no_room L (class_size class) (class_size class))
  \/ exists p a' L' S', alloc_small a class = Some (p, a') /\ 0 < p /\ (class_size class | p)
       /\ inv a' L' S' ((p, class_size class) :: B).
Proof.
  intros Hi Hlt. unfold alloc_small. destruct (lookup_lt_is_Some_2 S class) as [l Hl]; [by rewrite (hi_classes _ _ _ _ _ _ Hi)|].
  destruct (hi_small _ _ _ _ _ _ Hi class l Hl) as [Hk _]. destruct l as [|p l].
  - cbn [links] in Hk. rewrite Hk. cbn [Z.eqb negb].
    destruct (refill_small_spec a L S B class Hi Hlt) as [[-> Hno]|(p & a' & L' & S' & -> & H)]; [by left|right].
    by exists p, a', L', S'.
  - destruct Hk as (Hp & Hp0 & _). rewrite Hp. case_if; [|lia]. right.
    destruct (pop_small_spec a L S B class l p Hi Hl Hp) as (Hi' & H0 & Hd). by do 4 eexists.
Qed.
End Inv.
