(* ===== verification/KernelHeap.v ===== *)
(** * KernelHeap: the kernel's global allocator

    The rest of [kernel/src/mm/heap.rs]: the page heap, which gives each large
    allocation its own pages in a window of kernel addresses, and [LockedHeap],
    which routes every request to a size class, the static heap or the page
    heap and keeps the statistics. The frame allocator and the page tables are
    behind the class [Pages]. *)

From Stdlib Require Import ZArith Lia.
From stdpp Require Import base gmap numbers list.
From S2P Require Import Prelude Heap.
Import Heap.

(** What the heap uses of [mm::frame] and [mm::paging]; pages are mapped
    writable. *)
Class Pages (W : Type) : Type := {
  alloc_frame : W -> option Z * W;
  free_frame : W -> Z -> W;
  map_page : W -> Z -> Z -> bool * W;
  unmap_page : W -> Z -> option Z * W
}.

(** [mm/layout.rs]. *)
Definition PAGE_HEAP_BASE : Z := 0xffffc00000000000.
Definition PAGE_HEAP_SIZE : Z := 2 ^ 30.
Definition PAGE_HEAP_PAGES : Z := PAGE_HEAP_SIZE / 4096.

(** [usize::div_ceil] and [usize::next_power_of_two]. *)
Definition div_ceil (a b : Z) : Z := (a + b - 1) / b.
Definition next_power_of_two (x : Z) : Z := 2 ^ Z.log2_up x.

(** An atomic counter's [fetch_add] and [fetch_sub] wrap. *)
Definition wrapping_add (x y : Z) : Z := (x + y) mod U64_MOD.
Definition wrapping_sub (x y : Z) : Z := (x - y) mod U64_MOD.

(** ** The bitmap of pages in use *)

Abbreviation Bitmap := (list Z).
Definition page_bit (b : Bitmap) (page : Z) : bool :=
  negb (Z.land (nth (Z.to_nat (page / 64)) b 0) (Z.shiftl 1 (page mod 64)) =? 0).
Definition set_page (b : Bitmap) (page : Z) : Bitmap :=
  let i := Z.to_nat (page / 64) in
  <[i := Z.lor (nth i b 0) (Z.shiftl 1 (page mod 64))]> b.
Definition clear_page (b : Bitmap) (page : Z) : Bitmap :=
  let i := Z.to_nat (page / 64) in
  <[i := Z.land (nth i b 0) (Z.lnot (Z.shiftl 1 (page mod 64)))]> b.

(** [start..start + pages]. *)
Definition page_run (start pages : Z) : list Z := map (fun i => start + Z.of_nat i) (seq 0 (Z.to_nat pages)).

Section KernelHeap.
Context {W : Type} `{Pages W}.

Record PageHeap : Type := mkPageHeap { bitmap : Bitmap; cursor : Z; world : W }.

(** The whole of the allocator's state: the statics of [heap.rs]. *)
Record KHeap : Type := mkKHeap {
  allocator : LinkedListAllocator;
  heap_initialized : bool;
  page_heap_ready : bool;
  page_heap : PageHeap;
  small_usage : list Z;
  page_count : Z;
  page_heap_mapped : Z;
  large_allocs : Z;
  failed_allocs : Z
}.

Definition page_address (page : Z) : Z := PAGE_HEAP_BASE + page * 4096.

(** ** The page heap *)

Definition page_size_align (layout : Layout) : option (Z * Z) :=
  option_map (fun size => (size, Z.max (l_align layout) 4096)) (round_to_pages (l_size layout)).

Definition is_free (b : Bitmap) (pages candidate : Z) : bool := forallb (fun page => negb (page_bit b page)) (page_run candidate pages).

(** Next fit: from the cursor to the end, then from the beginning. *)
Definition candidates (hint last align_pages : Z) : list Z :=
  let first := next_multiple_of hint align_pages in
  step_by first (last + 1) align_pages ++ step_by 0 (Z.min first (last + 1)) align_pages.

Definition find_pages (p : PageHeap) (pages align_pages : Z) : option Z :=
  match checked_sub PAGE_HEAP_PAGES pages with
  | None => None
  | Some last => List.find (is_free (bitmap p) pages) (candidates (Z.min (cursor p) last) last align_pages)
  end.

Definition claim_pages (p : PageHeap) (start pages : Z) : PageHeap :=
  mkPageHeap (foldl set_page (bitmap p) (page_run start pages)) (start + pages) (world p).
Definition unclaim_pages (p : PageHeap) (start pages : Z) : PageHeap :=
  mkPageHeap (foldl clear_page (bitmap p) (page_run start pages)) (cursor p) (world p).
Definition with_world (p : PageHeap) (w : W) : PageHeap := mkPageHeap (bitmap p) (cursor p) w.

(** The loop that backs [todo] more pages: how many it mapped in all. *)
Fixpoint map_pages (todo : nat) (w : W) (start mapped : Z) : Z * W :=
  match todo with
  | O => (mapped, w)
  | S todo =>
    match alloc_frame w with
    | (None, w) => (mapped, w)
    | (Some frame, w) =>
      match map_page w (page_address (start + mapped)) frame with
      | (false, w) => (mapped, free_frame w frame)
      | (true, w) => map_pages todo w start (mapped + 1)
      end
    end
  end.

Definition release_page (w : W) (page : Z) : W :=
  match unmap_page w (page_address page) with
  | (Some physical, w) => free_frame w physical
  | (None, w) => w
  end.

Definition page_alloc (p : PageHeap) (layout : Layout) : option (Z * Z) * PageHeap :=
  match page_size_align layout with
  | None => (None, p)
  | Some (bytes, align) =>
    let pages := bytes / 4096 in
    let align_pages := next_power_of_two (div_ceil align 4096) in
    match find_pages p pages align_pages with
    | None => (None, p)
    | Some start =>
      let p := claim_pages p start pages in
      let '(mapped, w) := map_pages (Z.to_nat pages) (world p) start 0 in
      let p := with_world p w in
      if negb (mapped =? pages)
      then let w := foldl release_page (world p) (page_run start mapped) in
           (None, unclaim_pages (with_world p w) start pages)
      else (Some (page_address start, pages), p)
    end
  end.

(** The pages to free, when all of them are in use. *)
Definition page_dealloc (p : PageHeap) (pointer : Z) (layout : Layout) : option Z * PageHeap :=
  match page_size_align layout with
  | None => (None, p)
  | Some (bytes, _) =>
    let start := (pointer - PAGE_HEAP_BASE) / 4096 in
    let pages := bytes / 4096 in
    if match checked_add start pages with None => true | Some end_ => PAGE_HEAP_PAGES <? end_ end then (None, p) else
    if negb (forallb (page_bit (bitmap p)) (page_run start pages)) then (None, p) else
    let p := unclaim_pages p start pages in
    (Some pages, with_world p (foldl release_page (world p) (page_run start pages)))
  end.

(** ** The global allocator *)

Definition with_allocator (h : KHeap) (a : LinkedListAllocator) : KHeap :=
  mkKHeap a (heap_initialized h) (page_heap_ready h) (page_heap h) (small_usage h) (page_count h) (page_heap_mapped h) (large_allocs h) (failed_allocs h).
Definition with_page_heap (h : KHeap) (p : PageHeap) : KHeap :=
  mkKHeap (allocator h) (heap_initialized h) (page_heap_ready h) p (small_usage h) (page_count h) (page_heap_mapped h) (large_allocs h) (failed_allocs h).
Definition count_failed (h : KHeap) : KHeap :=
  mkKHeap (allocator h) (heap_initialized h) (page_heap_ready h) (page_heap h) (small_usage h) (page_count h) (page_heap_mapped h) (large_allocs h) (wrapping_add (failed_allocs h) 1).
Definition count_small (h : KHeap) (step : Z -> Z -> Z) (class : nat) : KHeap :=
  mkKHeap (allocator h) (heap_initialized h) (page_heap_ready h) (page_heap h)
    (<[class := step (nth class (small_usage h) 0) 1]> (small_usage h)) (page_count h) (page_heap_mapped h) (large_allocs h) (failed_allocs h).
(** One large allocation of [pages] pages, [mapped] of them in the page heap. *)
Definition count_large (h : KHeap) (step : Z -> Z -> Z) (pages mapped : Z) : KHeap :=
  mkKHeap (allocator h) (heap_initialized h) (page_heap_ready h) (page_heap h) (small_usage h) (step (page_count h) pages)
    (step (page_heap_mapped h) mapped) (step (large_allocs h) 1) (failed_allocs h).

(** [GlobalAlloc::alloc]: 0 is the null pointer, [None] a walk that did not end. *)
Definition alloc (h : KHeap) (layout : Layout) : option (Z * KHeap) :=
  if (4096 <? l_size layout) && page_heap_ready h
  then match page_alloc (page_heap h) layout with
       | (None, p) => Some (0, with_page_heap h p)
       | (Some (address, pages), p) => Some (address, count_large (with_page_heap h p) wrapping_add pages pages)
       end
  else
  match size_align layout with
  | None => Some (0, count_failed h)
  | Some (size, align) =>
    match small_class layout with
    | Some class =>
      match alloc_small (allocator h) class with
      | None => None
      | Some (address, a) =>
        let h := with_allocator h a in
        if address =? 0 then Some (0, count_failed h) else Some (address, count_small h wrapping_add class)
      end
    | None =>
      match alloc_general (allocator h) size align with
      | None => None
      | Some (address, a) =>
        let h := with_allocator h a in
        if address =? 0 then Some (0, count_failed h) else Some (address, count_large h wrapping_add (div_ceil size 4096) 0)
      end
    end
  end.

Definition dealloc (h : KHeap) (ptr : Z) (layout : Layout) : option KHeap :=
  if (PAGE_HEAP_BASE <=? ptr) && (ptr <? PAGE_HEAP_BASE + PAGE_HEAP_PAGES * 4096)
  then match page_dealloc (page_heap h) ptr layout with
       | (None, p) => Some (with_page_heap h p)
       | (Some pages, p) => Some (count_large (with_page_heap h p) wrapping_sub pages pages)
       end
  else
  match size_align layout with
  | None => Some h
  | Some (size, _) =>
    match small_class layout with
    | Some class => Some (count_small (with_allocator h (push_small (allocator h) class ptr)) wrapping_sub class)
    | None =>
      let h := count_large h wrapping_sub (div_ceil size 4096) 0 in
      option_map (fun r => with_allocator h (snd r)) (add_free_region (allocator h) ptr size)
    end
  end.

(** [init] at the storage's address; the statics start cleared. *)
Definition enable_page_heap (h : KHeap) : KHeap :=
  mkKHeap (allocator h) (heap_initialized h) true (page_heap h) (small_usage h) (page_count h) (page_heap_mapped h) (large_allocs h) (failed_allocs h).

Definition boot (m : Words) (w : W) : KHeap :=
  mkKHeap (new m) false false (mkPageHeap (replicate (Z.to_nat (PAGE_HEAP_PAGES / 64)) 0) 0 w)
    (replicate (length SMALL_CLASSES) 0) 0 0 0 0.

Definition heap_init (h : KHeap) (start : Z) : option KHeap :=
  match init (words (allocator h)) start HEAP_SIZE with
  | None => None
  | Some (initialized, a) =>
    let ready := if initialized then false else page_heap_ready h in
    Some (mkKHeap a (heap_initialized h || initialized) ready (page_heap h) (small_usage h) (page_count h) (page_heap_mapped h) (large_allocs h) (failed_allocs h))
  end.

(** ** The self check *)

Inductive CheckError : Type :=
| HeapRangeOverflow | FreeListTooLong | FreeNodeOverflow | FreeNodeMisaligned | FreeNodeTooSmall | FreeNodeOutside
| FreeNodesUnsorted | FreeListEmpty | ClassListTooLong | ClassBlockOutside | ClassBlockMisaligned.

(** The walk of the general list: how many nodes it has. [remaining] nodes may
    still be counted. *)
Fixpoint check_list (remaining : nat) (a : LinkedListAllocator) (start end_ node previous_end : Z) : result CheckError nat :=
  if node =? 0 then Ok O else
  match remaining with
  | O => Err FreeListTooLong
  | S remaining =>
    match checked_add node (node_size a node) with
    | None => Err FreeNodeOverflow
    | Some node_end =>
      if negb (node mod NODE_ALIGN =? 0) then Err FreeNodeMisaligned else
      if node_size a node <? NODE_SIZE then Err FreeNodeTooSmall else
      if (node <? start) || (end_ <? node_end) then Err FreeNodeOutside else
      if node <? previous_end then Err FreeNodesUnsorted else
      result_map S (check_list remaining a start end_ (node_next a node) node_end)
    end
  end.

Fixpoint check_class (remaining : nat) (a : LinkedListAllocator) (start end_ block current : Z) : result CheckError unit :=
  if current =? 0 then Ok tt else
  match remaining with
  | O => Err ClassListTooLong
  | S remaining =>
    if (current <? start) || match checked_add current block with None => true | Some node_end => end_ <? node_end end
    then Err ClassBlockOutside else
    if negb (current mod block =? 0) then Err ClassBlockMisaligned else
    check_class remaining a start end_ block (word (words a) current)
  end.

Fixpoint check_classes (a : LinkedListAllocator) (start end_ : Z) (classes heads : list Z) : result CheckError unit :=
  match classes, heads with
  | block :: classes, head :: heads =>
    let? _ := check_class (Z.to_nat (HEAP_SIZE / block + 2)) a start end_ block head in
    check_classes a start end_ classes heads
  | _, _ => Ok tt
  end.

Definition check (h : KHeap) (start : Z) : result CheckError unit :=
  let a := allocator h in
  let? end_ := ok_or (checked_add start HEAP_SIZE) HeapRangeOverflow in
  let? count := check_list (Z.to_nat (HEAP_SIZE / NODE_SIZE + 1)) a start end_ (head_next a) start in
  if heap_initialized h && Nat.eqb count 0 && negb (has_small_free a) then Err FreeListEmpty else
  check_classes a start end_ SMALL_CLASSES (small_heads a).

Definition validate (h : KHeap) (start : Z) : bool := is_ok (check h start).
End KernelHeap.
