(* ===== verification/PageHeapSpec.v ===== *)
(** * PageHeapSpec: the page heap

    The page heap of [mm/heap.rs] against the laws of the frame allocator and
    the page tables: runs of pages handed out are disjoint and aligned, exactly
    their pages are mapped, each to a frame of its own that is not free, an
    allocation that fails half way undoes what it did, and no frame is lost. *)

From Stdlib Require Import ZArith Lia Permutation.
From stdpp Require Import base gmap sorting numbers list.
From S2P Require Import Prelude Heap HeapInv KernelHeap.
Import Heap.

(** What the frame allocator and the page tables promise: which frames are
    free, which hold page tables, and what each page maps to. *)
Class PagesLaws (W : Type) `{Pages W} : Type := {
  pages_wf : W -> Prop;
  avail : W -> Z -> Prop;
  tables : W -> Z -> Prop;
  table : W -> gmap Z Z;
  alloc_frame_some w f w' : pages_wf w -> alloc_frame w = (Some f, w') ->
    pages_wf w' /\ table w' = table w /\ avail w f /\ (forall g, avail w' g <-> avail w g /\ g <> f) /\ forall g, tables w' g <-> tables w g;
  alloc_frame_none w w' : pages_wf w -> alloc_frame w = (None, w') ->
    pages_wf w' /\ table w' = table w /\ (forall g, avail w' g <-> avail w g) /\ forall g, tables w' g <-> tables w g;
  free_frame_spec w f : pages_wf w -> ~ avail w f ->
    pages_wf (free_frame w f) /\ table (free_frame w f) = table w
    /\ (forall g, avail (free_frame w f) g <-> avail w g \/ g = f) /\ forall g, tables (free_frame w f) g <-> tables w g;
  map_page_spec w v f ok w' : pages_wf w -> map_page w v f = (ok, w') ->
    pages_wf w' /\ table w' = (if ok then <[v := f]> (table w) else table w)
    /\ (forall g, avail w' g -> avail w g) /\ (forall g, tables w g -> tables w' g)
    /\ forall g, avail w g -> avail w' g \/ tables w' g;
  unmap_page_spec w v r w' : pages_wf w -> unmap_page w v = (r, w') ->
    pages_wf w' /\ r = table w !! v /\ table w' = delete v (table w)
    /\ (forall g, avail w' g <-> avail w g) /\ forall g, tables w' g <-> tables w g
}.

(** ** Bits *)

Lemma land_bit w k : 0 <= k -> negb (Z.land w (Z.shiftl 1 k) =? 0) = Z.testbit w k.
Proof.
  intros Hk. rewrite Z.shiftl_1_l. destruct (Z.testbit w k) eqn:Hb.
  - apply negb_true_iff, Z.eqb_neq. intros Hz. assert (Ht : Z.testbit (Z.land w (2 ^ k)) k = true).
    { by rewrite Z.land_spec, Hb, Z.pow2_bits_true. }
    by rewrite Hz, Z.bits_0 in Ht.
  - apply negb_false_iff, Z.eqb_eq. apply Z.bits_inj'. intros n Hn. rewrite Z.land_spec, Z.bits_0.
    destruct (decide (n = k)) as [->|Hne]; [by rewrite Hb|]. rewrite Z.pow2_bits_false by done. apply andb_false_r.
Qed.

Definition bitmap_pages (b : Bitmap) : Z := 64 * Z.of_nat (length b).

Lemma page_bit_testbit b q : page_bit b q = Z.testbit (nth (Z.to_nat (q / 64)) b 0) (q mod 64).
Proof. unfold page_bit. apply land_bit. apply Z.mod_pos_bound. lia. Qed.

(** Changing one bit of one word. *)
Lemma page_bit_update b p q f r :
  0 <= p < bitmap_pages b -> 0 <= q ->
  (forall w n, 0 <= n -> Z.testbit (f w) n = if n =? p mod 64 then r else Z.testbit w n) ->
  page_bit (<[Z.to_nat (p / 64) := f (nth (Z.to_nat (p / 64)) b 0)]> b) q = if q =? p then r else page_bit b q.
Proof.
  intros Hp Hq Hf. rewrite !page_bit_testbit. unfold bitmap_pages in Hp.
  assert (Hlt : (Z.to_nat (p / 64) < length b)%nat).
  { apply Nat2Z.inj_lt. rewrite Z2Nat.id by (apply Z.div_pos; lia). apply Z.div_lt_upper_bound; lia. }
  pose proof (Z.mod_pos_bound q 64 ltac:(lia)). pose proof (Z.div_mod p 64 ltac:(lia)). pose proof (Z.div_mod q 64 ltac:(lia)).
  pose proof (Z.div_pos p 64 ltac:(lia) ltac:(lia)). pose proof (Z.div_pos q 64 ltac:(lia) ltac:(lia)).
  rewrite !nth_lookup. destruct (decide (q / 64 = p / 64)) as [Heq|Hne].
  - rewrite Heq, list_lookup_insert_eq by done. cbn [default from_option id]. rewrite Hf by lia.
    destruct (Z.eqb_spec (q mod 64) (p mod 64)), (Z.eqb_spec q p); (done || lia).
  - rewrite list_lookup_insert_ne by lia. destruct (Z.eqb_spec q p); [congruence|done].
Qed.

Lemma page_bit_set b p q : 0 <= p < bitmap_pages b -> 0 <= q -> page_bit (set_page b p) q = if q =? p then true else page_bit b q.
Proof.
  intros Hp Hq. apply (page_bit_update b p q (fun w => Z.lor w (Z.shiftl 1 (p mod 64)))); [done|done|]. intros w n Hn.
  pose proof (Z.mod_pos_bound p 64 ltac:(lia)).
  rewrite Z.lor_spec, Z.shiftl_1_l. destruct (Z.eqb_spec n (p mod 64)) as [->|Hne].
  - rewrite Z.pow2_bits_true by lia. apply orb_true_r.
  - rewrite Z.pow2_bits_false by lia. apply orb_false_r.
Qed.

Lemma page_bit_clear b p q : 0 <= p < bitmap_pages b -> 0 <= q -> page_bit (clear_page b p) q = if q =? p then false else page_bit b q.
Proof.
  intros Hp Hq. apply (page_bit_update b p q (fun w => Z.land w (Z.lnot (Z.shiftl 1 (p mod 64))))); [done|done|]. intros w n Hn.
  pose proof (Z.mod_pos_bound p 64 ltac:(lia)).
  rewrite Z.land_spec, Z.lnot_spec, Z.shiftl_1_l by done. destruct (Z.eqb_spec n (p mod 64)) as [->|Hne].
  - rewrite Z.pow2_bits_true by lia. apply andb_false_r.
  - rewrite Z.pow2_bits_false by lia. apply andb_true_r.
Qed.

Lemma elem_page_run start pages q : q ∈ page_run start pages <-> start <= q < start + pages.
Proof.
  unfold page_run. rewrite list_elem_of_fmap. split.
  - intros (i & -> & Hi%elem_of_seq). lia.
  - intros Hq. exists (Z.to_nat (q - start)). split; [lia|]. apply elem_of_seq. lia.
Qed.

Lemma length_foldl_update (f : Bitmap -> Z -> Bitmap) l b : (forall b p, length (f b p) = length b) -> length (foldl f b l) = length b.
Proof. intros Hf. revert b. induction l as [|p l IH]; intros b; simpl; [done|]. by rewrite IH, Hf. Qed.

Lemma page_bit_foldl (f : Bitmap -> Z -> Bitmap) r l : forall b q,
  (forall b p, length (f b p) = length b) ->
  (forall b p q, 0 <= p < bitmap_pages b -> 0 <= q -> page_bit (f b p) q = if q =? p then r else page_bit b q) ->
  Forall (fun p => 0 <= p < bitmap_pages b) l -> 0 <= q ->
  page_bit (foldl f b l) q = if bool_decide (q ∈ l) then r else page_bit b q.
Proof.
  induction l as [|p l IH]; intros b q Hlen Hf Hl Hq; [done|]. apply Forall_cons in Hl as [Hp Hl]. cbn [foldl].
  assert (Hsame : bitmap_pages (f b p) = bitmap_pages b) by (unfold bitmap_pages; by rewrite Hlen).
  rewrite IH by (try done; by rewrite Hsame). rewrite Hf by done.
  destruct (Z.eqb_spec q p) as [->|Hne].
  - rewrite (bool_decide_true (p ∈ p :: l)) by left. by case_bool_decide.
  - by rewrite (bool_decide_ext (q ∈ p :: l) (q ∈ l)) by (rewrite elem_of_cons; naive_solver).
Qed.

Lemma page_bit_set_run b start pages q :
  0 <= start -> start + pages <= bitmap_pages b -> 0 <= q ->
  page_bit (foldl set_page b (page_run start pages)) q = if (start <=? q) && (q <? start + pages) then true else page_bit b q.
Proof.
  intros Hs He Hq. rewrite (page_bit_foldl set_page true); [|intros; apply length_insert|by apply page_bit_set| |done].
  - rewrite (bool_decide_ext _ _ (elem_page_run start pages q)).
    destruct (Z.leb_spec start q), (Z.ltb_spec q (start + pages)); cbn [andb]; case_bool_decide; (done || lia).
  - rewrite Forall_forall. intros p Hp%elem_page_run. lia.
Qed.

Lemma page_bit_clear_run b start pages q :
  0 <= start -> start + pages <= bitmap_pages b -> 0 <= q ->
  page_bit (foldl clear_page b (page_run start pages)) q = if (start <=? q) && (q <? start + pages) then false else page_bit b q.
Proof.
  intros Hs He Hq. rewrite (page_bit_foldl clear_page false); [|intros; apply length_insert|by apply page_bit_clear| |done].
  - rewrite (bool_decide_ext _ _ (elem_page_run start pages q)).
    destruct (Z.leb_spec start q), (Z.ltb_spec q (start + pages)); cbn [andb]; case_bool_decide; (done || lia).
  - rewrite Forall_forall. intros p Hp%elem_page_run. lia.
Qed.

(** ** Candidates *)

Lemma elem_step_by lo hi step x : 0 < step -> x ∈ step_by lo hi step <-> exists i, 0 <= i /\ x = lo + i * step /\ x < hi.
Proof.
  intros Hst. rewrite step_by_map, list_elem_of_fmap.
  pose proof (Z.div_mod (hi - lo + step - 1) step ltac:(lia)). pose proof (Z.mod_pos_bound (hi - lo + step - 1) step ltac:(lia)).
  set (n := (hi - lo + step - 1) / step) in *. split.
  - intros (i & -> & Hi%elem_of_seq). exists (Z.of_nat i). split; [lia|]. split; [done|]. nia.
  - intros (i & Hi & -> & Hlt). exists (Z.to_nat i). split; [lia|]. apply elem_of_seq. nia.
Qed.

(** The candidates are the aligned positions from which a run fits, all of them. *)
Lemma elem_candidates hint last ap c :
  0 < ap -> 0 <= hint -> c ∈ candidates hint last ap <-> (0 <= c <= last /\ (ap | c)).
Proof.
  intros Hap Hh. unfold candidates. set (first := next_multiple_of hint ap).
  pose proof (next_multiple_of_ge hint ap Hap) as Hge. pose proof (next_multiple_of_divide hint ap) as Hdv. fold first in Hge, Hdv.
  destruct Hdv as [m Hm]. rewrite elem_of_app, !elem_step_by by done. split.
  - intros [(i & Hi & -> & Hlt)|(i & Hi & -> & Hlt)].
    + split; [nia|]. exists (m + i). lia.
    + split; [nia|]. by exists i.
  - intros [Hc [j ->]]. destruct (Z.le_gt_cases first (j * ap)) as [Hle|Hgt].
    + left. exists (j - m). split; [nia|]. split; [lia|lia].
    + right. exists j. split; [nia|]. split; [lia|lia].
Qed.

Lemma is_free_iff b pages c : is_free b pages c = true <-> forall q, c <= q < c + pages -> page_bit b q = false.
Proof.
  unfold is_free. rewrite forallb_true_forall. split.
  - intros Hf q Hq. apply negb_true_iff, Hf. by apply elem_page_run.
  - intros Hf q Hq%elem_page_run. by apply negb_true_iff, Hf.
Qed.

(** ** The window of kernel addresses *)

Lemma page_address_inj p q : page_address p = page_address q -> p = q.
Proof. unfold page_address. lia. Qed.

Section Window.
Context {W : Type} `{PagesLaws W}.
Definition in_window (q : Z) : Prop := 0 <= q < PAGE_HEAP_PAGES.

(** Exactly the pages [U] are mapped, each to its own frame, which is not free;
    every frame of [home] is free, a page table or mapped. *)
Record window (home : Z -> Prop) (w : W) (U : Z -> Prop) : Prop := {
  wi_wf : pages_wf w;
  wi_mapped : forall q, in_window q -> is_Some (table w !! page_address q) <-> U q;
  wi_taken : forall q f, in_window q -> table w !! page_address q = Some f -> ~ avail w f;
  wi_own : forall q q' f, in_window q -> in_window q' -> table w !! page_address q = Some f -> table w !! page_address q' = Some f -> q = q';
  wi_kept : forall f, home f -> avail w f \/ tables w f \/ exists q, in_window q /\ table w !! page_address q = Some f
}.

Lemma window_ext home w U V : (forall q, in_window q -> U q <-> V q) -> window home w U -> window home w V.
Proof. intros Huv [H1 H2 H3 H4 H5]. constructor; try done. intros q Hq. rewrite <- (Huv q Hq). by apply H2. Qed.

Lemma window_alloc_none home w U w' : window home w U -> alloc_frame w = (None, w') -> window home w' U.
Proof.
  intros [H1 H2 H3 H4 H5] Ha. apply alloc_frame_none in Ha as (Hwf & Ht & Hav & Htb); [|done].
  constructor; rewrite ?Ht; try done.
  - intros q f Hq Hf. rewrite Hav. by eapply H3.
  - intros f Hf. rewrite Hav, Htb. by apply H5.
Qed.

(** A frame taken and mapped. *)
Lemma window_map home w U q f w1 w2 :
  window home w U -> in_window q -> ~ U q -> alloc_frame w = (Some f, w1) -> map_page w1 (page_address q) f = (true, w2) ->
  window home w2 (fun x => U x \/ x = q).
Proof.
  intros [H1 H2 H3 H4 H5] Hq Hu Ha Hm. apply alloc_frame_some in Ha as (Hwf & Ht & Hf & Hav & Htb); [|done].
  apply map_page_spec in Hm as (Hwf2 & Ht2 & Hav2 & Htb2 & Hkeep); [|done]. rewrite Ht in Ht2.
  constructor; rewrite ?Ht2; [done|..].
  - intros x Hx. destruct (decide (x = q)) as [->|Hne]; [rewrite lookup_insert_eq; naive_solver|].
    rewrite lookup_insert_ne by (by intros ?%page_address_inj). rewrite (H2 x Hx). naive_solver.
  - intros x g Hx Hg. rewrite lookup_insert_Some in Hg. intros Hgav. apply Hav2, Hav in Hgav as [Hgav Hgf].
    destruct Hg as [[_ ->]|[_ Hg]]; [done|]. by eapply H3.
  - intros x y g Hx Hy. rewrite !lookup_insert_Some.
    intros [[Hxq%page_address_inj <-]|[_ Hgx]] [[Hyq%page_address_inj Hfg]|[_ Hgy]]; [congruence|by destruct (H3 y f Hy Hgy)|subst g; by destruct (H3 x f Hx Hgx)|].
    by eapply H4.
  - intros g Hg. destruct (decide (g = f)) as [->|Hne].
    { do 2 right. exists q. by rewrite lookup_insert_eq. }
    destruct (H5 g Hg) as [Hga|[Hga|(x & Hx & Hxg)]].
    + destruct (Hkeep g) as [|]; [apply Hav; done|by left|by right; left].
    + right. left. apply Htb2. by apply Htb.
    + do 2 right. exists x. split; [done|]. rewrite lookup_insert_ne; [done|]. intros ->%page_address_inj.
      apply Hu. apply H2; [done|]. by exists g.
Qed.

(** A frame taken, not mapped and given back. *)
Lemma window_map_fails home w U v f w1 w2 :
  window home w U -> alloc_frame w = (Some f, w1) -> map_page w1 v f = (false, w2) -> window home (free_frame w2 f) U.
Proof.
  intros [H1 H2 H3 H4 H5] Ha Hm. apply alloc_frame_some in Ha as (Hwf & Ht & Hf & Hav & Htb); [|done].
  apply map_page_spec in Hm as (Hwf2 & Ht2 & Hav2 & Htb2 & Hkeep); [|done]. rewrite Ht in Ht2.
  destruct (free_frame_spec w2 f) as (Hwf3 & Ht3 & Hav3 & Htb3); [done|intros Hff%Hav2; by apply Hav in Hff as [_ Hff]|].
  rewrite Ht2 in Ht3. constructor; rewrite ?Ht3; try done.
  - intros q g Hq Hg. rewrite Hav3. intros [Hga%Hav2| ->]; [apply Hav in Hga as [Hga _]; by eapply H3|by eapply H3].
  - intros g Hg. rewrite Hav3, Htb3. destruct (decide (g = f)) as [->|Hne]; [left; by right|].
    destruct (H5 g Hg) as [Hga|[Hga|Hx]].
    + destruct (Hkeep g) as [|]; [apply Hav; done|by left; left|by right; left].
    + right. left. apply Htb2. by apply Htb.
    + by do 2 right.
Qed.

(** A page unmapped and its frame freed. *)
Lemma window_release home w U q : window home w U -> in_window q -> window home (release_page w q) (fun x => U x /\ x <> q).
Proof.
  intros Hwin Hq. pose proof Hwin as [H1 H2 H3 H4 H5]. unfold release_page.
  destruct (unmap_page w (page_address q)) as [r w1] eqn:Hu. apply unmap_page_spec in Hu as (Hwf & -> & Ht & Hav & Htb); [|done].
  destruct (table w !! page_address q) as [f|] eqn:Hf.
  - assert (Hnf : ~ avail w1 f) by (rewrite Hav; by eapply H3).
    destruct (free_frame_spec w1 f Hwf Hnf) as (Hwf3 & Ht3 & Hav3 & Htb3). rewrite Ht in Ht3. constructor; rewrite ?Ht3; [done|..].
    + intros x Hx. destruct (decide (x = q)) as [->|Hne]; [rewrite lookup_delete_eq; split; [by intros []|by intros []]|].
      rewrite lookup_delete_ne by (by intros ?%page_address_inj). rewrite (H2 x Hx). naive_solver.
    + intros x g Hx. rewrite lookup_delete_Some. intros [Hne Hg]. rewrite Hav3, Hav. intros [Hga| ->]; [by eapply H3|].
      apply Hne. f_equal. by eapply H4.
    + intros x y g Hx Hy. rewrite !lookup_delete_Some. intros [_ Hgx] [_ Hgy]. by eapply H4.
    + intros g Hg. rewrite Hav3, Htb3, Hav, Htb. destruct (decide (g = f)) as [->|Hne]; [left; by right|].
      destruct (H5 g Hg) as [Hga|[Hga|(x & Hx & Hxg)]]; [by left; left|by right; left|].
      do 2 right. exists x. split; [done|]. rewrite lookup_delete_Some. split; [|done]. intros Heq. congruence.
  - assert (Hd : delete (page_address q) (table w) = table w) by (by apply delete_id). rewrite Hd in Ht.
    constructor; rewrite ?Ht; try done.
    + intros x Hx. rewrite (H2 x Hx). split; [|by intros []]. intros HU. split; [done|]. intros ->.
      apply H2 in HU as [f Hf']; [|done]. congruence.
    + intros x g Hx Hg. rewrite Hav. by eapply H3.
    + intros g Hg. rewrite Hav, Htb. by apply H5.
Qed.

Lemma window_release_run home start pages : forall w U,
  window home w U -> (forall q, start <= q < start + pages -> in_window q) ->
  window home (foldl release_page w (page_run start pages)) (fun x => U x /\ ~ (start <= x < start + pages)).
Proof.
  intros w U Hw Hin. assert (Hall : Forall in_window (page_run start pages)) by (rewrite Forall_forall; by intros q Hq%elem_page_run; apply Hin).
  eapply (window_ext _ _ (fun x => U x /\ (x ∉ page_run start pages))); [intros q _; by rewrite elem_page_run|].
  clear Hin. revert w U Hw Hall. induction (page_run start pages) as [|q l IH]; intros w U Hw Hall; cbn [foldl].
  - eapply window_ext; [|exact Hw]. intros x _. rewrite elem_of_nil. tauto.
  - apply Forall_cons in Hall as [Hq Hall]. pose proof (IH _ _ (window_release _ _ _ _ Hw Hq) Hall) as Hw'.
    eapply window_ext; [|exact Hw']. intros x _. cbn beta. rewrite not_elem_of_cons. tauto.
Qed.

(** Pages are mapped from the first on, as far as frames go. *)
Lemma map_pages_spec home start todo : forall w U mapped m w',
  window home w U -> (forall q, start + mapped <= q < start + mapped + Z.of_nat todo -> in_window q /\ ~ U q) ->
  map_pages todo w start mapped = (m, w') ->
  mapped <= m <= mapped + Z.of_nat todo /\ window home w' (fun q => U q \/ start + mapped <= q < start + m).
Proof.
  induction todo as [|todo IH]; intros w U mapped m w' Hw Hrun Hm; cbn [map_pages] in Hm.
  { injection Hm as <- <-. split; [lia|]. eapply window_ext; [|exact Hw]. intros q _. cbn beta. split; [by left|intros [|]; [done|lia]]. }
  assert (Hnone : forall v, window home v U -> (mapped <= mapped <= mapped + Z.of_nat (S todo)) /\ window home v (fun q => U q \/ start + mapped <= q < start + mapped)).
  { intros v Hv. split; [lia|]. eapply window_ext; [|exact Hv]. intros q _. cbn beta. split; [by left|intros [|]; [done|lia]]. }
  destruct (alloc_frame w) as [[f|] w1] eqn:Ha; [|injection Hm as <- <-; apply Hnone; by eapply window_alloc_none].
  destruct (map_page w1 (page_address (start + mapped)) f) as [[] w2] eqn:Hmap.
  - destruct (Hrun (start + mapped) ltac:(lia)) as [Hin Hu].
    eapply IH in Hm as [Hr Hw']; [|by eapply window_map|].
    + split; [lia|]. eapply window_ext; [|exact Hw']. intros q _. cbn beta. split.
      * intros [[HU| ->]|]; [by left|right; lia|right; lia].
      * intros [HU|Hq]; [by left; left|]. destruct (decide (q = start + mapped)); [left; by right|right; lia].
    + intros q Hq. destruct (Hrun q ltac:(lia)) as [Hin' Hu']. split; [done|]. intros [|]; [done|lia].
  - injection Hm as <- <-. apply Hnone. by eapply window_map_fails.
Qed.
End Window.

(** ** Requests in pages *)

Definition pages_of (layout : Layout) : Z := next_multiple_of (l_size layout) 4096 / 4096.

Lemma round_to_pages_spec size : 0 <= size <= ISIZE_MAX -> round_to_pages size = Some (next_multiple_of size 4096).
Proof.
  intros Hs. unfold round_to_pages, checked_add, checked_mul, ISIZE_MAX, U64_MAX in *. case_if; [|lia].
  assert (Hn : next_multiple_of size 4096 = (size + 4095) / 4096 * 4096) by (unfold next_multiple_of; by replace (size + 4096 - 1) with (size + 4095) by lia).
  pose proof (next_multiple_of_lt size 4096 ltac:(lia)). rewrite <- Hn. case_if; [done|lia].
Qed.

Lemma layout_size_bound layout : layout_ok layout -> 0 <= l_size layout <= ISIZE_MAX.
Proof. intros [Hs (k & Hk & Ha)]. pose proof (pow2_pos k ltac:(lia)). lia. Qed.

Lemma page_size_align_spec layout : layout_ok layout ->
  page_size_align layout = Some (pages_of layout * 4096, Z.max (l_align layout) 4096).
Proof.
  intros Hl. unfold page_size_align. rewrite round_to_pages_spec by (by apply layout_size_bound). simpl. unfold pages_of.
  destruct (next_multiple_of_divide (l_size layout) 4096) as [q Hq]. rewrite Hq, Z.div_mul by done. done.
Qed.

Lemma pages_of_bounds layout : layout_ok layout -> l_size layout <= pages_of layout * 4096 < l_size layout + 4096.
Proof.
  intros Hl. unfold pages_of. pose proof (next_multiple_of_ge (l_size layout) 4096). pose proof (next_multiple_of_lt (l_size layout) 4096).
  destruct (next_multiple_of_divide (l_size layout) 4096) as [q Hq]. rewrite Hq, Z.div_mul by done. lia.
Qed.

Definition align_pages_of (layout : Layout) : Z := next_power_of_two (div_ceil (Z.max (l_align layout) 4096) 4096).

Lemma align_pages_spec layout : layout_ok layout ->
  0 < align_pages_of layout /\ (l_align layout | align_pages_of layout * 4096).
Proof.
  intros [_ (k & Hk & Ha)]. unfold align_pages_of, div_ceil, next_power_of_two. rewrite Ha.
  assert (Hm : Z.max (2 ^ k) 4096 = 2 ^ Z.max k 12).
  { change 4096 with (2 ^ 12). destruct (Z.max_spec k 12) as [[Hlt ->]|[Hle ->]].
    - apply Z.max_r. apply Z.pow_le_mono_r; lia.
    - apply Z.max_l. apply Z.pow_le_mono_r; lia. }
  rewrite Hm. assert (Hj : 12 <= Z.max k 12 /\ k <= Z.max k 12) by lia. set (j := Z.max k 12) in *. clearbody j.
  assert (Hd : (2 ^ j + 4096 - 1) / 4096 = 2 ^ (j - 12)).
  { change 4096 with (2 ^ 12). replace j with ((j - 12) + 12) at 1 by lia. rewrite Z.pow_add_r by lia.
    replace (2 ^ (j - 12) * 2 ^ 12 + 2 ^ 12 - 1) with (2 ^ 12 - 1 + 2 ^ (j - 12) * 2 ^ 12) by lia.
    rewrite Z.div_add by lia. by rewrite Z.div_small by lia. }
  rewrite Hd, Z.log2_up_pow2 by lia. split; [apply pow2_pos; lia|].
  replace (2 ^ (j - 12) * 4096) with (2 ^ j).
  - apply pow2_divide. lia.
  - change 4096 with (2 ^ 12). rewrite <- Z.pow_add_r by lia. f_equal. lia.
Qed.

(** ** The page heap's invariant *)

Section PageInv.
Context {W : Type} `{PagesLaws W} (home : Z -> Prop).

(** [runs] of pages are handed out, in units of pages from the window's start. *)
Record pages_inv (p : PageHeap) (runs : list Block) : Prop := {
  pi_length : bitmap_pages (bitmap p) = PAGE_HEAP_PAGES;
  pi_cursor : 0 <= cursor p;
  pi_packed : packed 0 PAGE_HEAP_PAGES runs;
  pi_bits : forall q, in_window q -> page_bit (bitmap p) q = true <-> exists r, r ∈ runs /\ holds r q;
  pi_window : window home (world p) (fun q => page_bit (bitmap p) q = true)
}.

Lemma find_pages_spec p runs pages ap :
  pages_inv p runs -> 0 < pages -> 0 < ap ->
  match find_pages p pages ap with
  | Some start => 0 <= start /\ start + pages <= PAGE_HEAP_PAGES /\ (ap | start) /\ forall q, start <= q < start + pages -> page_bit (bitmap p) q = false
  | None => forall start, 0 <= start -> start + pages <= PAGE_HEAP_PAGES -> (ap | start) -> exists q, start <= q < start + pages /\ page_bit (bitmap p) q = true
  end.
Proof.
  intros Hi Hp Hap. unfold find_pages, checked_sub. case_if; [|intros; lia].
  destruct (List.find _ _) as [start|] eqn:Hf.
  - apply find_some in Hf as [Hin Hfree]. apply list_elem_of_In, elem_candidates in Hin as [Hr Hd]; [|done|pose proof (pi_cursor _ _ Hi); lia].
    split; [lia|]. split; [lia|]. split; [done|]. by apply is_free_iff.
  - intros start Hs0 He Hd. destruct (is_free (bitmap p) pages start) eqn:Hfree.
    + assert (Hin : start ∈ candidates (Z.min (cursor p) (PAGE_HEAP_PAGES - pages)) (PAGE_HEAP_PAGES - pages) ap)
        by (apply elem_candidates; [done|pose proof (pi_cursor _ _ Hi); lia|split; [lia|done]]).
      apply list_elem_of_In in Hin. pose proof (find_none _ _ Hf _ Hin). congruence.
    + unfold is_free in Hfree. destruct (existsb (page_bit (bitmap p)) (page_run start pages)) eqn:He'.
      * apply existsb_true_exists in He' as (q & Hq%elem_page_run & Hb). by exists q.
      * exfalso. rewrite (proj2 (forallb_true_forall _ _)) in Hfree; [done|]. intros q Hq. apply negb_true_iff.
        rewrite existsb_false_forall in He'. by apply He'.
Qed.

Lemma bit_of_claim p start pages q runs :
  pages_inv p runs -> 0 <= start -> start + pages <= PAGE_HEAP_PAGES -> in_window q ->
  page_bit (bitmap (claim_pages p start pages)) q = true <-> start <= q < start + pages \/ page_bit (bitmap p) q = true.
Proof.
  intros Hi Hs He Hq. unfold claim_pages. cbn [bitmap]. rewrite page_bit_set_run; [|done|by rewrite (pi_length _ _ Hi)|apply Hq].
  case_if; [split; [lia|done]|]. split; [by right|]. intros [Hr|]; [|done]. destruct Hif as [Hif|Hif]; bool_to_prop; lia.
Qed.

Lemma bit_of_unclaim (p : PageHeap (W := W)) start pages q :
  bitmap_pages (bitmap p) = PAGE_HEAP_PAGES -> 0 <= start -> start + pages <= PAGE_HEAP_PAGES -> in_window q ->
  page_bit (bitmap (unclaim_pages p start pages)) q = true <-> page_bit (bitmap p) q = true /\ ~ (start <= q < start + pages).
Proof.
  intros Hl Hs He Hq. unfold unclaim_pages. cbn [bitmap]. rewrite page_bit_clear_run; [|done|by rewrite Hl|apply Hq].
  case_if; [split; [done|lia]|]. split; [|tauto]. intros Hb. split; [done|]. destruct Hif as [Hif|Hif]; bool_to_prop; lia.
Qed.

Lemma bitmap_pages_claim (p : PageHeap (W := W)) start pages : bitmap_pages (bitmap (claim_pages p start pages)) = bitmap_pages (bitmap p).
Proof. unfold bitmap_pages. cbn [claim_pages bitmap]. by rewrite length_foldl_update by (intros; apply length_insert). Qed.
Lemma bitmap_pages_unclaim (p : PageHeap (W := W)) start pages : bitmap_pages (bitmap (unclaim_pages p start pages)) = bitmap_pages (bitmap p).
Proof. unfold bitmap_pages. cbn [unclaim_pages bitmap]. by rewrite length_foldl_update by (intros; apply length_insert). Qed.

(** No page of the run is in use. *)
Definition run_free (p : PageHeap (W := W)) (start n : Z) : Prop := forall q, start <= q < start + n -> page_bit (bitmap p) q = false.

Lemma run_free_apart p runs start n :
  pages_inv p runs -> run_free p start n -> 0 < n -> 0 <= start -> start + n <= PAGE_HEAP_PAGES -> packed 0 PAGE_HEAP_PAGES ((start, n) :: runs).
Proof.
  intros Hi Hfree Hn Hs He. apply (packed_app 0 PAGE_HEAP_PAGES [(start, n)] runs). split; [split; [by repeat constructor|]|split; [apply Hi|]].
  - apply Forall_singleton. unfold within, block_end. simpl. lia.
  - apply Forall_singleton. rewrite Forall_forall. intros c Hc. pose proof (proj2 (pi_packed _ _ Hi)) as Hin.
    rewrite Forall_forall in Hin. specialize (Hin c Hc). unfold apart, within, block_end in *. simpl.
    destruct (Z.le_gt_cases (start + n) c.1); [by left|]. destruct (Z.le_gt_cases (c.1 + c.2) start); [by right|]. exfalso.
    assert (Hmax : start <= Z.max start c.1 < start + n) by lia. specialize (Hfree _ Hmax).
    assert (Hb : page_bit (bitmap p) (Z.max start c.1) = true); [|congruence].
    apply (pi_bits _ _ Hi); [unfold in_window; lia|]. exists c. split; [done|]. unfold holds, block_end. lia.
Qed.

Lemma claim_inv p runs start n w :
  pages_inv p runs -> run_free p start n -> 0 < n -> 0 <= start -> start + n <= PAGE_HEAP_PAGES ->
  window home w (fun q => page_bit (bitmap p) q = true \/ start <= q < start + n) ->
  pages_inv (with_world (claim_pages p start n) w) ((start, n) :: runs).
Proof.
  intros Hi Hfree Hn Hs He Hw. constructor.
  - change (bitmap_pages (bitmap (claim_pages p start n)) = PAGE_HEAP_PAGES). rewrite bitmap_pages_claim. apply Hi.
  - simpl. lia.
  - by eapply run_free_apart.
  - intros q Hq. change (bitmap (with_world ?x _)) with (bitmap x).
    rewrite (bit_of_claim p start n q runs), (pi_bits _ _ Hi) by done. split.
    + intros [Hq'|(c & Hc & Hcq)]; [exists (start, n); split; [by left|done]|exists c; split; [by right|done]].
    + intros (c & [->|Hc]%elem_of_cons & Hcq); [by left|right; by exists c].
  - eapply window_ext; [|exact Hw]. intros q Hq. cbn beta. change (bitmap (with_world ?x _)) with (bitmap x).
    rewrite (bit_of_claim p start n q runs) by done. tauto.
Qed.

(** A run claimed and given back in full. *)
Lemma undo_inv p runs start n w :
  pages_inv p runs -> run_free p start n -> 0 < n -> 0 <= start -> start + n <= PAGE_HEAP_PAGES ->
  window home w (fun q => page_bit (bitmap p) q = true) ->
  pages_inv (unclaim_pages (with_world (claim_pages p start n) w) start n) runs.
Proof.
  intros Hi Hfree Hn Hs He Hw.
  assert (Hbit : forall q, in_window q -> page_bit (bitmap (unclaim_pages (with_world (claim_pages p start n) w) start n)) q = true <-> page_bit (bitmap p) q = true).
  { intros q Hq. rewrite bit_of_unclaim; [|change (bitmap (with_world ?x _)) with (bitmap x); rewrite bitmap_pages_claim; apply Hi|done..].
    change (bitmap (with_world ?x _)) with (bitmap x). rewrite (bit_of_claim p start n q runs) by done.
    split; [tauto|]. intros Hb. split; [by right|]. intros Hq'. by rewrite Hfree in Hb. }
  constructor.
  - rewrite bitmap_pages_unclaim. change (bitmap (with_world ?x _)) with (bitmap x). rewrite bitmap_pages_claim. apply Hi.
  - simpl. lia.
  - apply Hi.
  - intros q Hq. by rewrite Hbit, (pi_bits _ _ Hi).
  - eapply window_ext; [|exact Hw]. intros q Hq. cbn beta. by rewrite Hbit.
Qed.

(** A large request: a fresh run of mapped pages, or nothing changed. *)
Lemma page_alloc_spec p runs layout r p' :
  pages_inv p runs -> layout_ok layout -> 0 < l_size layout -> page_alloc p layout = (r, p') ->
  match r with
  | None => pages_inv p' runs
  | Some (address, pages) => exists start, address = page_address start /\ pages = pages_of layout
      /\ pages_inv p' ((start, pages) :: runs) /\ (align_pages_of layout | start)
  end.
Proof.
  intros Hi Hl Hsz Ha. unfold page_alloc in Ha. rewrite page_size_align_spec in Ha by done. cbn beta iota zeta in Ha.
  pose proof (pages_of_bounds layout Hl). assert (Hp : 0 < pages_of layout) by lia.
  rewrite Z.div_mul in Ha by done. destruct (align_pages_spec layout Hl) as [Hap _].
  fold (align_pages_of layout) in Ha. pose proof (find_pages_spec p runs (pages_of layout) (align_pages_of layout) Hi Hp Hap) as Hf.
  destruct (find_pages p (pages_of layout) (align_pages_of layout)) as [start|]; [|by injection Ha as <- <-].
  destruct Hf as (Hs & He & Hd & Hfree). set (n := pages_of layout) in *. change (world (claim_pages p start n)) with (world p) in Ha.
  destruct (map_pages (Z.to_nat n) (world p) start 0) as [mapped w] eqn:Hm.
  eapply (map_pages_spec home) in Hm as [Hr Hw]; [|apply Hi|intros q Hq; split; [unfold in_window; lia|rewrite Hfree by lia; done]].
  rewrite Z.add_0_r in Hw. rewrite Z2Nat.id in Hr by lia.
  destruct (Z.eqb_spec mapped n) as [->|Hne]; cbn [negb] in Ha; injection Ha as <- <-.
  - exists start. do 2 (split; [done|]). split; [|done]. by apply claim_inv.
  - change (with_world (with_world ?x _) ?v) with (with_world x v). apply undo_inv; [done..|].
    change (world (with_world _ w)) with w.
    eapply (window_release_run home start mapped) in Hw; [|intros q Hq; unfold in_window; lia].
    eapply window_ext; [|exact Hw]. intros q Hq. cbn beta. split; [tauto|]. intros Hb. split; [by left|]. intros Hq'. by rewrite Hfree in Hb by lia.
Qed.

(** A run handed out is freed: its pages are unmapped. *)
Lemma page_dealloc_spec p runs layout start p' r :
  pages_inv p ((start, pages_of layout) :: runs) -> layout_ok layout -> page_dealloc p (page_address start) layout = (r, p') ->
  r = Some (pages_of layout) /\ pages_inv p' runs.
Proof.
  intros Hi Hl Hd. unfold page_dealloc in Hd. rewrite page_size_align_spec in Hd by done. cbn beta iota zeta in Hd.
  rewrite Z.div_mul in Hd by done. set (n := pages_of layout) in *.
  replace (page_address start - PAGE_HEAP_BASE) with (start * 4096) in Hd by (unfold page_address; lia). rewrite Z.div_mul in Hd by done.
  pose proof (proj2 (pi_packed _ _ Hi)) as Hw. apply Forall_cons in Hw as [Hw _]. unfold within, block_end in Hw. cbn [fst snd] in Hw.
  assert (Hbound : PAGE_HEAP_PAGES <= U64_MAX) by done.
  replace (checked_add start n) with (Some (start + n)) in Hd by (symmetry; apply checked_add_Some; split; [done|lia]).
  destruct (Z.ltb_spec PAGE_HEAP_PAGES (start + n)); [lia|].
  assert (Hused : forall q, start <= q < start + n -> page_bit (bitmap p) q = true).
  { intros q Hq. apply (pi_bits _ _ Hi); [unfold in_window; lia|]. exists (start, n). split; [by left|done]. }
  rewrite (proj2 (forallb_true_forall _ _)) in Hd by (intros q Hq%elem_page_run; by apply Hused). cbn [negb] in Hd.
  injection Hd as <- <-. split; [done|].
  pose proof (pi_length _ _ Hi) as Hlen.
  constructor; change (bitmap (with_world ?x _)) with (bitmap x); change (world (with_world _ ?v)) with v.
  - by rewrite bitmap_pages_unclaim.
  - apply (pi_cursor _ _ Hi).
  - destruct (pi_packed _ _ Hi) as [[_ Ha] [_ Hr]%Forall_cons]. by split.
  - intros q Hq. rewrite bit_of_unclaim by (done || lia). rewrite (pi_bits _ _ Hi) by done. split.
    + intros [(c & [->|Hc]%elem_of_cons & Hcq) Hn]; [done|by exists c].
    + intros (c & Hc & Hcq). split; [exists c; split; [by right|done]|]. intros Hq'.
      pose proof (packed_cons_apart _ _ _ _ (pi_packed _ _ Hi)) as Hap. rewrite Forall_forall in Hap. specialize (Hap c Hc).
      unfold apart, holds, block_end in *. simpl in *. lia.
  - pose proof (window_release_run home start n _ _ (pi_window _ _ Hi)) as Hwin.
    eapply window_ext; [|apply Hwin; intros q Hq; unfold in_window; lia].
    intros q Hq. cbn beta. by rewrite bit_of_unclaim by (done || lia).
Qed.
End PageInv.
