(* ===== verification/KernelHeapSpec.v ===== *)
(** * KernelHeapSpec: the global allocator is sound

    Every sequence of allocations, frees and writes by owners keeps the
    invariant of [kernel/src/mm/heap.rs]: what is handed out is disjoint, large
    enough and aligned; the static heap is tiled by free and live blocks; the
    page heap maps exactly the live pages; and the statistics are exact. *)

From Stdlib Require Import ZArith Lia Permutation.
From stdpp Require Import base gmap sorting numbers list.
From S2P Require Import Prelude Heap HeapInv KernelHeap PageHeapSpec.
Import Heap.

(** ** Requests *)

(** What [GlobalAlloc] requires of its callers; the window of the page heap is
    aligned to 2^46. *)
Definition request_ok (layout : Layout) : Prop := layout_ok layout /\ 0 < l_size layout /\ l_align layout <= 2 ^ 46.

(** The bytes a request takes in the static heap. *)
Definition block_bytes (layout : Layout) : Z :=
  match small_class layout with
  | Some class => class_size class
  | None => match size_align layout with Some (size, _) => size | None => 0 end
  end.

Lemma position_Some {A} (f : A -> bool) l i : position f l = Some i -> exists x, l !! i = Some x /\ f x = true.
Proof.
  revert i. induction l as [|x l IH]; intros i; simpl; [done|]. destruct (f x) eqn:Hf; [intros [= <-]; by exists x|].
  destruct (position f l) as [j|]; simpl; [|done]. intros [= <-]. destruct (IH j eq_refl) as (y & Hy & Hfy). by exists y.
Qed.

Lemma position_None {A} (f : A -> bool) l : position f l = None -> Forall (fun x => f x = false) l.
Proof.
  induction l as [|x l IH]; simpl; [constructor|]. destruct (f x) eqn:Hf; [done|]. destruct (position f l); [done|].
  constructor; [done|by apply IH].
Qed.

Lemma pow2_le_divide j k : 0 <= j -> 2 ^ j <= 2 ^ k -> (2 ^ j | 2 ^ k).
Proof. intros Hj Hle. destruct (Z.le_gt_cases j k); [by apply pow2_divide|]. destruct (Z.le_gt_cases 0 k).
  - pose proof (Z.pow_lt_mono_r 2 k j). lia.
  - rewrite (Z.pow_neg_r 2 k) by lia. apply Z.divide_0_r.
Qed.

Lemma small_class_Some layout class : layout_ok layout -> small_class layout = Some class ->
  (class < length SMALL_CLASSES)%nat /\ l_size layout <= class_size class /\ (l_align layout | class_size class).
Proof.
  intros [_ (k & Hk & Ha)] Hc. unfold small_class in Hc. apply position_Some in Hc as (x & Hx & Hle). bool_to_prop.
  assert (Hlt : (class < length SMALL_CLASSES)%nat) by (by eapply lookup_lt_Some). split; [done|].
  rewrite (class_size_lookup class Hlt) in Hx. injection Hx as <-. split; [lia|].
  destruct (class_size_pow class Hlt) as (j & Hj & Hpow). rewrite Ha, Hpow in *. apply pow2_le_divide; lia.
Qed.

Lemma small_class_None layout : small_class layout = None -> 4096 < Z.max (l_size layout) (l_align layout).
Proof.
  intros Hc. unfold small_class in Hc. apply position_None in Hc. rewrite Forall_forall in Hc.
  specialize (Hc 4096). assert (Hin : 4096 ∈ SMALL_CLASSES) by (unfold SMALL_CLASSES; set_solver). specialize (Hc Hin). bool_to_prop. lia.
Qed.

(** A request of no class, in the static heap: whole pages or, for an alignment
    above a page and no size, one node. *)
Lemma size_align_spec layout size align :
  layout_ok layout -> 0 < l_size layout -> small_class layout = None -> size_align layout = Some (size, align) ->
  (4096 | size) /\ l_size layout <= size /\ (l_align layout | align) /\ exists k, 12 <= k /\ align = 2 ^ k.
Proof.
  intros Hl H0 Hc Hs. apply small_class_None in Hc. unfold size_align in Hs.
  destruct (align_to layout NODE_ALIGN) as [l'|] eqn:Hat; [|done].
  apply (align_to_Some layout NODE_ALIGN 3) in Hat as (Hsz & Hal & Hok); [|done|done|done].
  pose proof Hl as [_ (k & Hk & Ha)]. pose proof Hok as [Hb (j & Hj & Haj)].
  assert (Hpos : 0 < l_align l') by (rewrite Haj; apply pow2_pos; lia).
  pose proof (next_multiple_of_ge (l_size l') (l_align l') Hpos) as Hge.
  pose proof (next_multiple_of_lt (l_size l') (l_align l') Hpos) as Hlt.
  pose proof (next_multiple_of_divide (l_size l') (l_align l')) as Hdv.
  unfold pad_to_align in Hs. cbn [l_size l_align] in Hs. set (padded := next_multiple_of (l_size l') (l_align l')) in *.
  assert (Hpad : 4096 < padded).
  { destruct (Z.le_gt_cases (l_size layout) 4096) as [Hle|]; [|lia]. destruct Hdv as [q Hq].
    assert (4096 < l_align l') by lia. assert (0 < padded) by lia. assert (0 < q) by nia. nia. }
  case_if_in Hs; [|lia]. rewrite round_to_pages_spec in Hs by (unfold ISIZE_MAX in *; lia). cbn [option_map] in Hs.
  injection Hs as <- <-. split; [apply next_multiple_of_divide|]. split; [pose proof (next_multiple_of_ge padded 4096); lia|].
  assert (Hm : Z.max (l_align l') 4096 = 2 ^ Z.max j 12).
  { rewrite Haj. change 4096 with (2 ^ 12). destruct (Z.max_spec j 12) as [[Hlt' ->]|[Hle ->]].
    - apply Z.max_r. apply Z.pow_le_mono_r; lia.
    - apply Z.max_l. apply Z.pow_le_mono_r; lia. }
  rewrite Hm. split; [|exists (Z.max j 12); split; [lia|done]]. rewrite Ha. apply pow2_le_divide; [lia|]. lia.
Qed.

Lemma block_bytes_16 layout : layout_ok layout -> 0 < l_size layout -> small_class layout = None -> forall size align,
  size_align layout = Some (size, align) -> (16 | size) /\ 0 < size /\ (16 | align).
Proof.
  intros Hl H0 Hc size align Hs. destruct (size_align_spec layout size align Hl H0 Hc Hs) as (Hd & Hle & _ & k & Hk & ->).
  split; [eapply Z.divide_trans; [|exact Hd]; by exists 256|]. split; [lia|]. apply (pow2_divide 4 k). lia.
Qed.

(** ** What is live *)

(** An allocation: its address and its layout. *)
Abbreviation Live := (Z * Layout)%type.

Definition in_pages (x : Live) : bool := (PAGE_HEAP_BASE <=? x.1) && (x.1 <? PAGE_HEAP_BASE + PAGE_HEAP_PAGES * 4096).
Definition static_block (x : Live) : Block := (x.1, block_bytes x.2).
Definition run_of (x : Live) : Block := ((x.1 - PAGE_HEAP_BASE) / 4096, pages_of x.2).
Definition static_live (live : list Live) : list Live := filter (fun x => in_pages x = false) live.
Definition page_live (live : list Live) : list Live := filter (fun x => in_pages x = true) live.

(** Aligned as asked, and what freeing it needs. *)
Definition live_ok (x : Live) : Prop :=
  request_ok x.2 /\ (l_align x.2 | x.1)
  /\ if in_pages x then small_class x.2 = None /\ exists start, 0 <= start /\ x.1 = page_address start
     else (16 | x.1) /\ match small_class x.2 with
                        | Some class => (class_size class | x.1)
                        | None => exists size align, size_align x.2 = Some (size, align)
                        end.

(** The statistics as sums over what is live. *)
Definition total (f : Live -> Z) (live : list Live) : Z := foldr (fun x n => f x + n) 0 live.
Definition in_class (class : nat) (x : Live) : Z := if decide (small_class x.2 = Some class) then 1 else 0.
Definition is_large (x : Live) : Z := if decide (small_class x.2 = None) then 1 else 0.
Definition mapped_pages (x : Live) : Z := if in_pages x then pages_of x.2 else 0.
Definition counted_pages (x : Live) : Z :=
  if in_pages x then pages_of x.2 else if decide (small_class x.2 = None) then div_ceil (block_bytes x.2) 4096 else 0.

Lemma total_cons f x live : total f (x :: live) = f x + total f live.
Proof. done. Qed.

#[global] Instance total_perm f : Proper (Permutation ==> eq) (total f).
Proof. intros l k Hp. unfold total. induction Hp; simpl; lia. Qed.

#[global] Instance static_live_perm : Proper (Permutation ==> Permutation) static_live.
Proof. intros l k Hp. unfold static_live. by rewrite Hp. Qed.
#[global] Instance page_live_perm : Proper (Permutation ==> Permutation) page_live.
Proof. intros l k Hp. unfold page_live. by rewrite Hp. Qed.

Lemma wrapping_add_mod n k : wrapping_add (n mod U64_MOD) k = (k + n) mod U64_MOD.
Proof. unfold wrapping_add. rewrite Zplus_mod_idemp_l. f_equal. lia. Qed.
Lemma wrapping_sub_mod n k : wrapping_sub ((k + n) mod U64_MOD) k = n mod U64_MOD.
Proof. unfold wrapping_sub. rewrite Zminus_mod_idemp_l. f_equal. lia. Qed.

Section Spec.
Context {W : Type} `{PagesLaws W} (home : Z -> Prop) (start : Z).
Context (Hstart : 0 < start) (Hlimit : start + HEAP_SIZE <= PAGE_HEAP_BASE).
Abbreviation KHeap := (KernelHeap.KHeap (W := W)).

Record stats_exact (h : KHeap) (live : list Live) : Prop := {
  st_usage : small_usage h = map (fun class => total (in_class class) live mod U64_MOD) (seq 0 (length SMALL_CLASSES));
  st_large : large_allocs h = total is_large live mod U64_MOD;
  st_pages : page_count h = total counted_pages live mod U64_MOD;
  st_mapped : page_heap_mapped h = total mapped_pages live mod U64_MOD
}.

Record heap_ok (h : KHeap) (live : list Live) : Prop := {
  ko_static : exists L S, heap_inv start (start + HEAP_SIZE) (allocator h) L S (map static_block (static_live live));
  ko_pages : pages_inv home (page_heap h) (map run_of (page_live live));
  ko_live : Forall live_ok live;
  ko_stats : stats_exact h live
}.

#[global] Instance heap_ok_perm h : Proper (Permutation ==> iff) (heap_ok h).
Proof.
  assert (Hw : forall l k, l ≡ₚ k -> heap_ok h l -> heap_ok h k).
  { intros l k Hp [(L & S & [H1 H2 H3 H4 H5]) [P1 P2 P3 P4 P5] H7 [S1 S2 S3 S4]].
    assert (Hs : map static_block (static_live l) ≡ₚ map static_block (static_live k)) by (by rewrite Hp).
    assert (Hr : map run_of (page_live l) ≡ₚ map run_of (page_live k)) by (by rewrite Hp).
    constructor.
    - exists L, S. constructor; [done..|]. by rewrite <- Hs.
    - constructor; [done|done|by rewrite <- Hr| |done]. intros q Hq. rewrite (P4 q Hq). by setoid_rewrite Hr.
    - by rewrite <- Hp.
    - constructor; [|by rewrite <- Hp..]. rewrite S1. apply map_ext. intros class. by rewrite Hp. }
  intros l k Hp. split; apply Hw; [done|by symmetry].
Qed.

(** ** Counting *)

Lemma insert_usage (u : nat -> Z) (v : Z) n class :
  (class < n)%nat -> <[class := v]> (map u (seq 0 n)) = map (fun i => if decide (i = class) then v else u i) (seq 0 n).
Proof.
  intros Hlt. apply list_eq. intros i. rewrite list_lookup_fmap. destruct (decide (i < n)%nat) as [Hi|Hi].
  - rewrite lookup_seq_lt by done. cbn [fmap option_fmap option_map Nat.add]. case_decide as Hd.
    + subst i. apply list_lookup_insert_eq. by rewrite length_map, length_seq.
    + rewrite list_lookup_insert_ne by done. rewrite list_lookup_fmap, lookup_seq_lt by done. done.
  - rewrite lookup_seq_ge by lia. apply lookup_ge_None. rewrite length_insert, length_map, length_seq. lia.
Qed.

Lemma nth_usage (u : nat -> Z) n class : (class < n)%nat -> nth class (map u (seq 0 n)) 0 = u class.
Proof. intros Hlt. rewrite nth_lookup, list_lookup_fmap, lookup_seq_lt by done. done. Qed.

(** The statistics when [x] comes to life or dies. *)
Lemma stats_small h live x class a :
  in_pages x = false -> small_class x.2 = Some class -> (class < length SMALL_CLASSES)%nat ->
  (stats_exact h live -> stats_exact (count_small (with_allocator h a) wrapping_add class) (x :: live))
  /\ (stats_exact h (x :: live) -> stats_exact (count_small (with_allocator h a) wrapping_sub class) live).
Proof.
  intros Hin Hc Hlt. assert (Hl : is_large x = 0) by (unfold is_large; by rewrite Hc, decide_False).
  assert (Hp : counted_pages x = 0) by (unfold counted_pages; by rewrite Hin, Hc, decide_False).
  assert (Hm : mapped_pages x = 0) by (unfold mapped_pages; by rewrite Hin).
  assert (Hi : forall i, in_class i x = if decide (i = class) then 1 else 0).
  { intros i. unfold in_class. rewrite Hc. destruct (decide (i = class)) as [->|Hne]; [by rewrite decide_True|by rewrite decide_False by congruence]. }
  split; intros [H1 H2 H3 H4]; constructor; cbn [count_small with_allocator small_usage large_allocs page_count page_heap_mapped];
    rewrite ?H1, ?H2, ?H3, ?H4; rewrite ?total_cons, ?Hl, ?Hp, ?Hm, ?Z.add_0_l; try done.
  - rewrite insert_usage, nth_usage, wrapping_add_mod by done. apply map_ext. intros i. rewrite total_cons, Hi. by destruct (decide (i = class)) as [->|].
  - rewrite insert_usage, nth_usage, total_cons, Hi, decide_True, wrapping_sub_mod by done. apply map_ext. intros i. rewrite total_cons, Hi.
    destruct (decide (i = class)) as [->|]; [done|]. by rewrite Z.add_0_l.
Qed.

Lemma stats_large h h0 live x pages mapped :
  small_class x.2 = None -> counted_pages x = pages -> mapped_pages x = mapped ->
  small_usage h = small_usage h0 -> large_allocs h = large_allocs h0 -> page_count h = page_count h0 -> page_heap_mapped h = page_heap_mapped h0 ->
  (stats_exact h0 live -> stats_exact (count_large h wrapping_add pages mapped) (x :: live))
  /\ (stats_exact h0 (x :: live) -> stats_exact (count_large h wrapping_sub pages mapped) live).
Proof.
  intros Hc Hp Hm E1 E2 E3 E4. assert (Hl : is_large x = 1) by (unfold is_large; by rewrite Hc, decide_True).
  assert (Hi : forall i, in_class i x = 0) by (intros i; unfold in_class; by rewrite Hc, decide_False).
  split; intros [H1 H2 H3 H4]; constructor; cbn [count_large small_usage large_allocs page_count page_heap_mapped];
    rewrite ?E1, ?E2, ?E3, ?E4, ?H1, ?H2, ?H3, ?H4, ?total_cons, ?Hl, ?Hp, ?Hm; rewrite ?wrapping_add_mod, ?wrapping_sub_mod; try done.
  - apply map_ext. intros i. by rewrite total_cons, Hi.
  - apply map_ext. intros i. by rewrite total_cons, Hi.
Qed.

Lemma stats_same h h0 live :
  small_usage h = small_usage h0 -> large_allocs h = large_allocs h0 -> page_count h = page_count h0 -> page_heap_mapped h = page_heap_mapped h0 ->
  stats_exact h0 live -> stats_exact h live.
Proof. intros E1 E2 E3 E4 [H1 H2 H3 H4]. constructor; congruence. Qed.

(** ** Allocation *)

Lemma static_live_cons x live : in_pages x = false -> static_live (x :: live) = x :: static_live live /\ page_live (x :: live) = page_live live.
Proof. intros Hx. unfold static_live, page_live. by rewrite filter_cons_True, filter_cons_False by (rewrite ?Hx; done). Qed.
Lemma page_live_cons x live : in_pages x = true -> page_live (x :: live) = x :: page_live live /\ static_live (x :: live) = static_live live.
Proof. intros Hx. unfold static_live, page_live. by rewrite filter_cons_True, filter_cons_False by (rewrite ?Hx; done). Qed.

(** Addresses of the static heap are below the page heap's. *)
Lemma static_not_pages a L S B p layout n :
  heap_inv start (start + HEAP_SIZE) a L S ((p, n) :: B) -> in_pages (p, layout) = false.
Proof.
  intros Hi. pose proof (proj2 (proj1 (hi_tiling _ _ _ _ _ _ Hi))) as Hw. rewrite Forall_forall in Hw.
  specialize (Hw (p, n)). rewrite !elem_of_app in Hw. specialize (Hw ltac:(do 2 right; by left)).
  unfold within, block_end in Hw. cbn [fst snd] in Hw. unfold in_pages. cbn [fst].
  destruct (Z.leb_spec PAGE_HEAP_BASE p); [|done]. lia.
Qed.

(** Why the static heap refuses: the request is too large for any layout, or
    the class has no free block and no free region has room. *)
Definition static_refusal (h : KHeap) (live : list Live) (layout : Layout) : Prop :=
  size_align layout = None
  \/ exists L S, heap_inv start (start + HEAP_SIZE) (allocator h) L S (map static_block (static_live live))
     /\ match small_class layout with
        | Some class => S !! class = Some [] /\ no_room L (class_size class) (class_size class)
        | None => exists size align, size_align layout = Some (size, align) /\ no_room L size align
        end.

Lemma heap_ok_same h h0 live :
  heap_ok h0 live -> allocator h = allocator h0 -> page_heap h = page_heap h0 -> small_usage h = small_usage h0 ->
  large_allocs h = large_allocs h0 -> page_count h = page_count h0 -> page_heap_mapped h = page_heap_mapped h0 -> heap_ok h live.
Proof.
  intros [H1 H2 H3 H4] Ha Hp E1 E2 E3 E4. constructor; [by rewrite Ha|by rewrite Hp|done|]. by apply (stats_same _ h0).
Qed.

Lemma alloc_class_spec h live layout class :
  heap_ok h live -> request_ok layout -> small_class layout = Some class ->
  exists p a, alloc_small (allocator h) class = Some (p, a)
  /\ ((p = 0 /\ heap_ok (count_failed (with_allocator h a)) live /\ static_refusal h live layout)
     \/ (0 < p /\ heap_ok (count_small (with_allocator h a) wrapping_add class) ((p, layout) :: live))).
Proof.
  intros [(L & S & Hi) Hp Hl Hs] Hr Hc. destruct (small_class_Some layout class (proj1 Hr) Hc) as (Hlt & Hsz & Hal).
  destruct (alloc_small_spec start (start + HEAP_SIZE) Hstart _ L S _ class Hi Hlt) as [(-> & HS & Hno)|(p & a & L' & S' & -> & H0p & Hd & Hi')].
  - exists 0, (allocator h). split; [done|]. left. split; [done|]. split.
    + constructor; [by exists L, S|done|done|]. by apply (stats_same _ h).
    + right. exists L, S. rewrite Hc. done.
  - exists p, a. split; [done|]. right. split; [done|].
    assert (Hin : in_pages (p, layout) = false) by (by eapply static_not_pages).
    destruct (static_live_cons (p, layout) live Hin) as [Es Ep].
    constructor.
    + exists L', S'. rewrite Es. cbn [map]. unfold static_block at 1, block_bytes. cbn [fst snd]. rewrite Hc. exact Hi'.
    + by rewrite Ep.
    + constructor; [|done]. split; [done|]. cbn [fst snd]. rewrite Hin, Hc. split; [exact (Z.divide_trans _ _ _ Hal Hd)|]. split; [|done].
      eapply Z.divide_trans; [|exact Hd]. by apply class_size_facts.
    + by apply (stats_small h live (p, layout) class a).
Qed.

Lemma alloc_large_spec h live layout size align :
  heap_ok h live -> request_ok layout -> small_class layout = None -> size_align layout = Some (size, align) ->
  exists p a, alloc_general (allocator h) size align = Some (p, a)
  /\ ((p = 0 /\ heap_ok (count_failed (with_allocator h a)) live /\ static_refusal h live layout)
     \/ (0 < p /\ heap_ok (count_large (with_allocator h a) wrapping_add (div_ceil size 4096) 0) ((p, layout) :: live))).
Proof.
  intros [(L & S & Hi) Hp Hl Hs] Hr Hc Hsa. pose proof Hr as (Hlo & Hz & _).
  destruct (size_align_spec layout size align Hlo Hz Hc Hsa) as (H4096 & Hle & Hal & k & Hk & Hpow).
  destruct (block_bytes_16 layout Hlo Hz Hc size align Hsa) as (H16 & Hs0 & Ha16).
  destruct (alloc_general_spec start (start + HEAP_SIZE) _ L S _ size align k Hi) as [(-> & Hno)|(p & a & L' & -> & H0p & Hd & Hi')]; [lia|done..| |].
  - exists 0, (allocator h). split; [done|]. left. split; [done|]. split.
    + constructor; [by exists L, S|done|done|]. by apply (stats_same _ h).
    + right. exists L, S. rewrite Hc. split; [done|]. by exists size, align.
  - exists p, a. split; [done|]. right. split; [done|].
    assert (Hin : in_pages (p, layout) = false) by (by eapply static_not_pages).
    destruct (static_live_cons (p, layout) live Hin) as [Es Ep].
    assert (Hbb : block_bytes layout = size) by (unfold block_bytes; by rewrite Hc, Hsa).
    constructor.
    + exists L', S. rewrite Es. cbn [map]. unfold static_block at 1. cbn [fst snd]. by rewrite Hbb.
    + by rewrite Ep.
    + constructor; [|done]. split; [done|]. cbn [fst snd]. rewrite Hin, Hc. split; [exact (Z.divide_trans _ _ _ Hal Hd)|].
      split; [exact (Z.divide_trans _ _ _ Ha16 Hd)|by exists size, align].
    + apply (stats_large _ h); [done| | |done..].
      * unfold counted_pages. cbn [snd]. by rewrite Hin, Hc, decide_True, Hbb by done.
      * unfold mapped_pages. by rewrite Hin.
Qed.

Lemma page_address_aligned layout page :
  request_ok layout -> (align_pages_of layout | page) -> (l_align layout | page_address page).
Proof.
  intros (Hl & _ & Ha46) [q ->]. destruct (align_pages_spec layout Hl) as [_ Hd]. pose proof Hl as [_ (k & Hk & Ha)].
  unfold page_address. apply Z.divide_add_r.
  - rewrite Ha in *. change PAGE_HEAP_BASE with (0x3ffff * 2 ^ 46). apply Z.divide_mul_r. apply pow2_le_divide; [lia|done].
  - replace (q * align_pages_of layout * 4096) with (q * (align_pages_of layout * 4096)) by lia. by apply Z.divide_mul_r.
Qed.

Lemma large_no_class layout : 4096 < l_size layout -> small_class layout = None.
Proof.
  intros Hsz. destruct (small_class layout) as [class|] eqn:Hc; [|done]. unfold small_class in Hc.
  apply position_Some in Hc as (x & Hx & Hle). bool_to_prop. assert (Hlt : (class < length SMALL_CLASSES)%nat) by (by eapply lookup_lt_Some).
  rewrite (class_size_lookup class Hlt) in Hx. injection Hx as <-. pose proof (class_size_facts class Hlt). lia.
Qed.

Lemma alloc_pages_spec h live layout r p :
  heap_ok h live -> request_ok layout -> 4096 < l_size layout -> page_alloc (page_heap h) layout = (r, p) ->
  match r with
  | None => heap_ok (with_page_heap h p) live
  | Some (address, pages) => 0 < address /\ heap_ok (count_large (with_page_heap h p) wrapping_add pages pages) ((address, layout) :: live)
  end.
Proof.
  intros [Hst Hp Hl Hs] Hr Hsz Ha. pose proof Hr as (Hlo & Hz & _).
  eapply page_alloc_spec in Ha; [|done|done|done]. destruct r as [[address pages]|].
  - destruct Ha as (page & -> & -> & Hi & Hd). pose proof (pi_packed _ _ _ Hi) as [_ [Hw _]%Forall_cons].
    unfold within, block_end in Hw. cbn [fst snd] in Hw.
    assert (Hin : in_pages (page_address page, layout) = true).
    { unfold in_pages, page_address. cbn [fst]. destruct (Z.leb_spec PAGE_HEAP_BASE (PAGE_HEAP_BASE + page * 4096)); [|lia].
      destruct (Z.ltb_spec (PAGE_HEAP_BASE + page * 4096) (PAGE_HEAP_BASE + PAGE_HEAP_PAGES * 4096)); [done|lia]. }
    destruct (page_live_cons _ live Hin) as [Ep Es]. pose proof (large_no_class layout Hsz) as Hc.
    split; [unfold page_address, PAGE_HEAP_BASE; lia|]. constructor.
    + by rewrite Es.
    + rewrite Ep. cbn [map]. unfold run_of at 1. cbn [fst snd].
      replace (page_address page - PAGE_HEAP_BASE) with (page * 4096) by (unfold page_address; lia). by rewrite Z.div_mul.
    + constructor; [|done]. split; [done|]. cbn [fst snd]. split; [by apply page_address_aligned|]. rewrite Hin. split; [done|]. exists page. split; [lia|done].
    + apply (stats_large _ h); [done| | |done..].
      * unfold counted_pages. by rewrite Hin.
      * unfold mapped_pages. by rewrite Hin.
  - constructor; [done|done|done|by apply (stats_same _ h)].
Qed.

(** An allocation always returns: null, changing nothing that is live, or a new
    block. *)
Lemma alloc_spec h live layout : heap_ok h live -> request_ok layout ->
  exists p h', alloc h layout = Some (p, h')
  /\ ((p = 0 /\ heap_ok h' live /\ ((4096 < l_size layout /\ page_heap_ready h = true) \/ static_refusal h live layout))
     \/ (0 < p /\ heap_ok h' ((p, layout) :: live))).
Proof.
  intros Hok Hr. unfold alloc. case_if.
  - destruct (page_alloc (page_heap h) layout) as [r p] eqn:Ha.
    pose proof (alloc_pages_spec h live layout r p Hok Hr ltac:(done) Ha) as Hs. destruct r as [[address pages]|].
    + do 2 eexists. split; [done|]. by right.
    + do 2 eexists. split; [done|]. left. split; [done|]. split; [done|]. by left.
  - destruct (size_align layout) as [[size align]|] eqn:Hsa.
    + destruct (small_class layout) as [class|] eqn:Hc.
      * destruct (alloc_class_spec h live layout class Hok Hr Hc) as (p & a & -> & [(-> & Ho & Hf)|(H0p & Ho)]).
        -- do 2 eexists. split; [done|]. left. split; [done|]. split; [done|]. by right.
        -- destruct (Z.eqb_spec p 0); [lia|]. do 2 eexists. split; [done|]. by right.
      * destruct (alloc_large_spec h live layout size align Hok Hr Hc Hsa) as (p & a & -> & [(-> & Ho & Hf)|(H0p & Ho)]).
        -- do 2 eexists. split; [done|]. left. split; [done|]. split; [done|]. by right.
        -- destruct (Z.eqb_spec p 0); [lia|]. do 2 eexists. split; [done|]. by right.
    + do 2 eexists. split; [done|]. left. split; [done|]. split; [by apply (heap_ok_same _ h)|]. right. by left.
Qed.

(** ** Freeing *)

Lemma size_align_class layout class : layout_ok layout -> small_class layout = Some class -> size_align layout <> None.
Proof.
  intros Hl Hc. destruct (small_class_Some layout class Hl Hc) as (Hlt & Hsz & Hal). pose proof (class_size_facts class Hlt) as [Hcs _].
  pose proof Hl as [Hb (k & Hk & Ha)]. pose proof (pow2_pos k ltac:(lia)).
  assert (Hle : l_align layout <= 4096) by (etrans; [apply Z.divide_pos_le; [|exact Hal]; lia|lia]).
  unfold size_align, align_to, from_size_align, NODE_ALIGN.
  assert (Hp : is_power_of_two (Z.max (l_align layout) 8) = true).
  { apply is_power_of_two_iff. destruct (Z.max_spec (l_align layout) 8) as [[_ ->]|[_ ->]]; [by exists 3|exists k; split; [lia|done]]. }
  rewrite Hp. cbn [andb]. case_if; [|unfold ISIZE_MAX in *; lia].
  case_if; [|done]. unfold pad_to_align in *. cbn [l_size l_align] in *.
  pose proof (next_multiple_of_lt (l_size layout) (Z.max (l_align layout) 8) ltac:(lia)).
  rewrite round_to_pages_spec by (unfold ISIZE_MAX; lia). done.
Qed.

(** Freeing a live allocation always succeeds, and its memory is free again. *)
Lemma dealloc_spec h x live : heap_ok h (x :: live) -> exists h', dealloc h x.1 x.2 = Some h' /\ heap_ok h' live.
Proof.
  intros [(L & S & Hi) Hp Hl Hs]. apply Forall_cons in Hl as [Hx Hl]. destruct Hx as (Hr & Hal & Hx). pose proof Hr as (Hlo & Hz & _).
  unfold dealloc. fold (in_pages x). destruct (in_pages x) eqn:Hin.
  - destruct Hx as (Hnc & page & Hpage & Hxp). destruct (page_live_cons x live Hin) as [Ep Es].
    rewrite Ep in Hp. cbn [map] in Hp. unfold run_of at 1 in Hp. rewrite Hxp in Hp |- *.
    replace ((page_address page - PAGE_HEAP_BASE) / 4096) with page in Hp
      by (replace (page_address page - PAGE_HEAP_BASE) with (page * 4096) by (unfold page_address; lia); by rewrite Z.div_mul).
    destruct (page_dealloc (page_heap h) (page_address page) x.2) as [r p'] eqn:Hd.
    destruct (page_dealloc_spec home _ _ _ _ _ _ Hp Hlo Hd) as [-> Hp']. eexists. split; [done|].
    assert (Hc : counted_pages x = pages_of x.2 /\ mapped_pages x = pages_of x.2) by (unfold counted_pages, mapped_pages; by rewrite Hin).
    constructor; [|done|done|].
    + exists L, S. by rewrite Es in Hi.
    + destruct Hc as [Hc1 Hc2]. apply (stats_large _ h live x); [done|done|done|done..].
  - destruct (static_live_cons x live Hin) as [Es Ep]. rewrite Es in Hi. rewrite Ep in Hp. cbn [map] in Hi. destruct Hx as [H16 Hx].
    destruct (small_class x.2) as [class|] eqn:Hc.
    + destruct (size_align x.2) as [[size align]|] eqn:Hsa; [|by destruct (size_align_class x.2 class Hlo Hc)].
      destruct (small_class_Some x.2 class Hlo Hc) as (Hlt & _).
      eexists. split; [done|]. destruct (lookup_lt_is_Some_2 S class) as [l HSl]; [by rewrite (hi_classes _ _ _ _ _ _ Hi)|].
      assert (Hsb : static_block x = (x.1, class_size class)) by (unfold static_block, block_bytes; by rewrite Hc). rewrite Hsb in Hi.
      constructor; [|done|done|by apply (stats_small h live x class)].
      exists L, (<[class := x.1 :: l]> S). by eapply push_small_spec.
    + destruct Hx as (size & align & Hsa). rewrite Hsa.
      destruct (block_bytes_16 x.2 Hlo Hz Hc size align Hsa) as (Hs16 & Hs0 & _).
      assert (Hbb : block_bytes x.2 = size) by (unfold block_bytes; by rewrite Hc, Hsa).
      assert (Hsb : static_block x = (x.1, size)) by (unfold static_block; by rewrite Hbb). rewrite Hsb in Hi.
      destruct (release_general_spec start (start + HEAP_SIZE) Hstart ltac:(etrans; [exact Hlimit|by vm_compute]) _ L S _ x.1 size Hi H16 Hs16) as (a' & L' & Hadd & Hi').
      cbn [count_large allocator]. rewrite Hadd. cbn [option_map snd]. eexists. split; [done|].
      constructor; [by exists L', S|done|done|].
      apply (stats_same _ (count_large h wrapping_sub (div_ceil size 4096) 0)); [done..|].
      apply (stats_large h h live x); [done| | |done..].
      * unfold counted_pages. by rewrite Hin, Hc, decide_True, Hbb by done.
      * unfold mapped_pages. by rewrite Hin.
Qed.

(** ** Any sequence of operations *)

(** Requests, frees of the [i]th live allocation, writes of its owner at an
    offset inside it, and the switch that enables the page heap. *)
Inductive HeapOp : Type :=
| OAlloc (layout : Layout)
| OFree (i : nat)
| OWrite (i : nat) (offset value : Z)
| OEnable.

Definition op_ok (op : HeapOp) : Prop := match op with OAlloc layout => request_ok layout | _ => True end.

Definition heap_op (s : KHeap * list Live) (op : HeapOp) : option (KHeap * list Live) :=
  let '(h, live) := s in
  match op with
  | OAlloc layout =>
    match alloc h layout with
    | None => None
    | Some (p, h) => Some (h, if p =? 0 then live else (p, layout) :: live)
    end
  | OFree i =>
    match live !! i with
    | None => Some s
    | Some (p, layout) => option_map (fun h => (h, delete i live)) (dealloc h p layout)
    end
  | OWrite i offset value =>
    match live !! i with
    | None => Some s
    | Some (p, layout) =>
      if (0 <=? offset) && (offset <? l_size layout) && negb (in_pages (p, layout))
      then Some (with_allocator h (store (allocator h) ((p + offset) / 8 * 8) value), live)
      else Some s
    end
  | OEnable => Some (enable_page_heap h, live)
  end.

Fixpoint heap_ops (s : KHeap * list Live) (ops : list HeapOp) : option (KHeap * list Live) :=
  match ops with
  | [] => Some s
  | op :: ops => match heap_op s op with None => None | Some s => heap_ops s ops end
  end.

(** A static block is large enough. *)
Lemma static_size x : live_ok x -> in_pages x = false -> (16 | x.1) /\ l_size x.2 <= block_bytes x.2 /\ (16 | block_bytes x.2).
Proof.
  intros ((Hl & Hz & _) & _ & Hx) Hin. rewrite Hin in Hx. destruct Hx as [H16 Hx]. split; [done|].
  unfold block_bytes. destruct (small_class x.2) as [class|] eqn:Hc.
  - destruct (small_class_Some x.2 class Hl Hc) as (Hlt & Hle & _). split; [done|]. by apply class_size_facts.
  - destruct Hx as (size & align & Hsa). rewrite Hsa. destruct (block_bytes_16 x.2 Hl Hz Hc size align Hsa) as (Hd & _).
    split; [by apply (size_align_spec x.2 size align)|done].
Qed.

(** A write inside an allocation is a write inside its block. *)
Lemma write_in_block x offset : live_ok x -> in_pages x = false -> 0 <= offset < l_size x.2 ->
  holds (static_block x) ((x.1 + offset) / 8 * 8).
Proof.
  intros Hx Hin Ho. destruct (static_size x Hx Hin) as ([m Hm] & Hle & [n Hn]).
  unfold holds, static_block, block_end. cbn [fst snd].
  pose proof (Z.div_mod (x.1 + offset) 8 ltac:(lia)). pose proof (Z.mod_pos_bound (x.1 + offset) 8 ltac:(lia)). lia.
Qed.

Lemma write_ok h live i x offset value : heap_ok h live -> live !! i = Some x -> in_pages x = false -> 0 <= offset < l_size x.2 ->
  heap_ok (with_allocator h (store (allocator h) ((x.1 + offset) / 8 * 8) value)) live.
Proof.
  intros [(L & S & Hi) Hp Hl Hs] Hx Hin Ho. constructor; [|done|done|by apply (stats_same _ h)]. exists L, S.
  assert (Hlx : live_ok x) by (rewrite Forall_lookup in Hl; by eapply Hl).
  eapply heap_write_spec; [exact Hi| |by apply write_in_block]. apply (list_elem_of_fmap_2 static_block).
  apply list_elem_of_filter. split; [done|]. by eapply list_elem_of_lookup_2.
Qed.

Lemma heap_op_ok h live op : heap_ok h live -> op_ok op -> exists h' live', heap_op (h, live) op = Some (h', live') /\ heap_ok h' live'.
Proof.
  intros Hok Hop. destruct op as [layout|i|i offset value|]; cbn [heap_op].
  - destruct (alloc_spec h live layout Hok Hop) as (p & h' & -> & [(-> & Ho & _)|(Hp & Ho)]); do 2 eexists; (split; [done|]); [done|].
    by destruct (Z.eqb_spec p 0); [lia|].
  - destruct (live !! i) as [x|] eqn:Hx; [|by do 2 eexists]. destruct (dealloc_spec h x (delete i live)) as (h' & Hd & Ho).
    { by rewrite <- (delete_Permutation live i x Hx). }
    destruct x as [p layout]. cbn [fst snd] in Hd. rewrite Hd. by do 2 eexists.
  - destruct (live !! i) as [[p layout]|] eqn:Hx; [|by do 2 eexists]. case_if; [|by do 2 eexists].
    do 2 eexists. split; [done|]. by apply (write_ok h live i (p, layout) offset value).
  - do 2 eexists. split; [done|]. by apply (heap_ok_same _ h).
Qed.

Lemma heap_ops_ok ops : forall h live, heap_ok h live -> Forall op_ok ops ->
  exists h' live', heap_ops (h, live) ops = Some (h', live') /\ heap_ok h' live'.
Proof.
  induction ops as [|op ops IH]; intros h live Hok Hops; cbn [heap_ops]; [by do 2 eexists|].
  apply Forall_cons in Hops as [Hop Hops]. destruct (heap_op_ok h live op Hok Hop) as (h1 & live1 & -> & Ho). by apply IH.
Qed.

(** Any two live allocations are apart. *)
Lemma pair_Permutation {A} (l : list A) i j x y :
  l !! i = Some x -> l !! j = Some y -> i <> j -> exists rest, l ≡ₚ x :: y :: rest.
Proof.
  intros Hx Hy Hij. assert (Hin : y ∈ delete i l).
  { apply list_elem_of_lookup. destruct (decide (j < i)%nat).
    - exists j. by rewrite list_lookup_delete_lt.
    - exists (j - 1)%nat. rewrite list_lookup_delete_ge by lia. by replace (S (j - 1)) with j by lia. }
  apply elem_of_Permutation in Hin as [rest Hr]. exists rest. by rewrite (delete_Permutation l i x Hx), Hr.
Qed.

Lemma static_within h live x : heap_ok h live -> x ∈ live -> in_pages x = false -> start <= x.1 /\ x.1 + l_size x.2 <= start + HEAP_SIZE.
Proof.
  intros Hok Hx Hin. destruct (ko_static _ _ Hok) as (L & S & Hi). pose proof (ko_live _ _ Hok) as Hl. rewrite Forall_forall in Hl.
  destruct (static_size x (Hl x Hx) Hin) as (_ & Hle & _).
  pose proof (proj2 (proj1 (hi_tiling _ _ _ _ _ _ Hi))) as Hw. rewrite Forall_forall in Hw. specialize (Hw (static_block x)).
  unfold within, block_end, static_block in Hw. cbn [fst snd] in Hw. enough (start <= x.1 /\ x.1 + block_bytes x.2 <= start + HEAP_SIZE) by lia.
  enough ((x.1, block_bytes x.2) ∈ L ++ small_blocks S ++ map static_block (static_live live)) as Hin' by (destruct (Hw Hin') as (? & ? & ?); done).
  rewrite !elem_of_app. do 2 right. apply (list_elem_of_fmap_2 static_block), list_elem_of_filter. done.
Qed.

Lemma page_at_least x : live_ok x -> in_pages x = true -> PAGE_HEAP_BASE <= x.1.
Proof. intros _ Hin. unfold in_pages in Hin. bool_to_prop. done. Qed.

Lemma apart_shrink b c n m : n <= b.2 -> m <= c.2 -> apart b c -> apart (b.1, n) (c.1, m).
Proof. unfold apart, block_end. simpl. lia. Qed.

Lemma live_apart h live i j x y :
  heap_ok h live -> live !! i = Some x -> live !! j = Some y -> i <> j -> apart (x.1, l_size x.2) (y.1, l_size y.2).
Proof.
  intros Hok Hx Hy Hij. destruct (pair_Permutation live i j x y Hx Hy Hij) as [rest Hp]. rewrite Hp in Hok. clear live i j Hx Hy Hij Hp.
  assert (Hxin : x ∈ x :: y :: rest) by left. assert (Hyin : y ∈ x :: y :: rest) by (right; left).
  pose proof (ko_live _ _ Hok) as Hl. rewrite Forall_forall in Hl. pose proof (Hl x Hxin) as Hlx. pose proof (Hl y Hyin) as Hly.
  destruct (in_pages x) eqn:Hix, (in_pages y) eqn:Hiy.
  - pose proof (pi_packed _ _ _ (ko_pages _ _ Hok)) as Hpk. unfold page_live in Hpk.
    rewrite !filter_cons_True in Hpk by done. cbn [map] in Hpk. apply packed_cons_apart, Forall_cons in Hpk as [Hap _].
    destruct Hlx as ((Hlx & _) & _ & Hxs), Hly as ((Hly & _) & _ & Hys). rewrite Hix in Hxs. rewrite Hiy in Hys.
    destruct Hxs as (_ & px & _ & Hpx), Hys as (_ & py & _ & Hpy). unfold run_of in Hap. rewrite Hpx, Hpy in *.
    replace (page_address px - PAGE_HEAP_BASE) with (px * 4096) in Hap by (unfold page_address; lia).
    replace (page_address py - PAGE_HEAP_BASE) with (py * 4096) in Hap by (unfold page_address; lia). rewrite !Z.div_mul in Hap by done.
    pose proof (pages_of_bounds x.2 Hlx). pose proof (pages_of_bounds y.2 Hly). unfold apart, block_end, page_address in *. simpl in *. lia.
  - pose proof (static_within _ _ _ Hok Hyin Hiy). pose proof (page_at_least x Hlx Hix). right. unfold block_end. simpl. lia.
  - pose proof (static_within _ _ _ Hok Hxin Hix). pose proof (page_at_least y Hly Hiy). left. unfold block_end. simpl. lia.
  - destruct (ko_static _ _ Hok) as (L & S & Hi). destruct (hi_tiling _ _ _ _ _ _ Hi) as [Hpk _].
    unfold static_live in Hpk. rewrite !filter_cons_True in Hpk by done. cbn [map] in Hpk.
    apply packed_app in Hpk as (_ & Hpk & _). apply packed_app in Hpk as (_ & Hpk & _). apply packed_cons_apart, Forall_cons in Hpk as [Hap _].
    destruct (static_size x Hlx Hix) as (_ & Hbx & _), (static_size y Hly Hiy) as (_ & Hby & _).
    by apply (apart_shrink (static_block x) (static_block y)).
Qed.
End Spec.
