(* ===== verification/HeapClaims.v ===== *)
(** * HeapClaims: the kernel heap's guarantees

    From boot on, any requests, frees and writes: the theorems about
    [kernel/src/mm/heap.rs] as a whole, and its self check. *)

From Stdlib Require Import ZArith Lia Permutation Sorted.
From stdpp Require Import base gmap sorting numbers list.
From S2P Require Import Prelude Heap HeapInv KernelHeap PageHeapSpec KernelHeapSpec.
Import Heap.

Section Claims.
Context {W : Type} `{PagesLaws W}.
Abbreviation KHeap := (KernelHeap.KHeap (W := W)).

(** ** Boot *)

(** The heap's storage is page aligned and below the page heap's window. *)
Definition storage_ok (start : Z) : Prop := (4096 | start) /\ 0 < start /\ start + HEAP_SIZE <= PAGE_HEAP_BASE.

(** Nothing is mapped in the window yet. *)
Definition window_empty (w : W) : Prop := pages_wf w /\ forall q, in_window q -> table w !! page_address q = None.

Lemma page_bit_replicate n q : page_bit (replicate n 0) q = false.
Proof.
  rewrite page_bit_testbit, nth_lookup. destruct (replicate n 0 !! Z.to_nat (q / 64)) as [x|] eqn:Hx; simpl; [|apply Z.bits_0].
  apply lookup_replicate in Hx as [-> _]. apply Z.bits_0.
Qed.

Lemma boot_window w : window_empty w -> window (avail w) w (fun q => page_bit (bitmap (page_heap (boot ∅ w))) q = true).
Proof.
  intros [Hwf Hnone]. constructor; [done|..].
  - intros q Hq. rewrite Hnone by done. cbn [boot page_heap bitmap]. rewrite page_bit_replicate. split; [by intros []|done].
  - intros q f Hq. by rewrite Hnone.
  - intros q q' f Hq _. by rewrite Hnone.
  - intros f Hf. by left.
Qed.

Lemma init_ok m w start : storage_ok start -> window_empty w ->
  exists h, heap_init (boot m w) start = Some h /\ heap_initialized h = true /\ heap_ok (avail w) start h [].
Proof.
  intros (H4096 & Hpos & Hlim) Hw. assert (Hu : PAGE_HEAP_BASE <= U64_MAX) by done.
  destruct (add_free_region_spec (new m) [] start HEAP_SIZE) as (a & L & Hadd & Hfl & Hre & Hh & _).
  - constructor; [done|constructor|constructor].
  - unfold region_ok, block_end. cbn [fst snd]. split_and!; [done| |by exists (HEAP_SIZE / 16)|done|lia].
    eapply Z.divide_trans; [|exact H4096]. by exists 256.
  - constructor.
  - unfold heap_init, init. cbn [boot allocator words new]. change (mkAllocator m 0 _) with (new m). rewrite Hadd.
    eexists. split; [done|]. split; [done|]. constructor; cbn [allocator page_heap].
    + exists L, (replicate (length SMALL_CLASSES) []). constructor; [done|by rewrite Hh|done| |].
      * intros i l [-> Hi]%lookup_replicate. split; [|constructor]. unfold small_head. rewrite Hh. cbn [new small_heads links].
        rewrite nth_lookup, lookup_replicate_2 by done. done.
      * change (small_blocks _) with (@nil Block). cbn [app map static_live]. rewrite app_nil_r, <- Hre.
        split; [|simpl; lia]. split; [by repeat constructor|]. repeat constructor; unfold block_end; simpl; lia.
    + constructor; [done|done|by repeat constructor| |by apply boot_window].
      intros q Hq. cbn [boot page_heap bitmap]. rewrite page_bit_replicate. split; [done|]. by intros (r & Hr%elem_of_nil & _).
    + constructor.
    + constructor; [|done|done|done]. cbn [small_usage]. reflexivity.
Qed.

(** ** The self check *)

Lemma check_list_spec a lo hi L : forall remaining node previous_end,
  seg (words a) node L 0 -> Forall region_ok L -> Forall (within lo hi) L -> StronglySorted before L ->
  Forall (fun b => previous_end <= b.1) L -> (length L <= remaining)%nat ->
  check_list remaining a lo hi node previous_end = Ok (length L).
Proof.
  induction L as [|b L IH]; intros remaining node pe Hs Hok Hw Hsort Hpe Hlen.
  - simpl in Hs. subst node. by destruct remaining.
  - pose proof (proj1 Hs) as ->. destruct remaining as [|remaining]; [simpl in Hlen; lia|].
    pose proof (seg_cons_next _ _ _ _ Hs) as [Hsz Hnext].
    apply Forall_cons in Hok as [Hb Hok]. apply Forall_cons in Hw as [Hwb Hw]. apply Forall_cons in Hpe as [Hpb Hpe].
    apply StronglySorted_inv in Hsort as [Hsort Hbs]. pose proof Hb as (H0b & H16 & _ & Hn & Hend). unfold within, block_end in *.
    cbn [check_list]. rewrite Hsz. destruct (Z.eqb_spec b.1 0); [lia|].
    replace (checked_add b.1 b.2) with (Some (b.1 + b.2)) by (symmetry; by apply checked_add_Some).
    assert (H8 : b.1 mod NODE_ALIGN = 0) by (apply Z.mod_divide; [done|]; apply (Z.divide_trans _ 16); [by exists 2|done]).
    rewrite H8. cbn [Z.eqb negb]. destruct (Z.ltb_spec b.2 NODE_SIZE); [lia|]. destruct (Z.ltb_spec b.1 lo); [lia|].
    destruct (Z.ltb_spec hi (b.1 + b.2)); [lia|]. cbn [orb]. destruct (Z.ltb_spec b.1 pe); [lia|].
    rewrite (IH remaining (node_next a b.1)); [done|done|done|done|done| |simpl in Hlen; lia].
    eapply Forall_impl; [exact Hbs|]. done.
Qed.

Lemma check_class_spec a lo hi block l : forall remaining current,
  links (words a) current l -> 0 < block -> hi <= U64_MAX -> Forall (fun x => (block | x) /\ lo <= x /\ x + block <= hi) l ->
  (length l <= remaining)%nat -> check_class remaining a lo hi block current = Ok tt.
Proof.
  induction l as [|x l IH]; intros remaining current Hl Hb Hhi Hall Hlen.
  - simpl in Hl. subst current. by destruct remaining.
  - destruct Hl as (-> & Hx0 & n & Hn & Hl). destruct remaining as [|remaining]; [simpl in Hlen; lia|].
    apply Forall_cons in Hall as [(Hd & Hlo & Hhix) Hall]. cbn [check_class]. destruct (Z.eqb_spec x 0); [done|].
    destruct (Z.ltb_spec x lo); [lia|]. cbn [orb]. replace (checked_add x block) with (Some (x + block)) by (symmetry; apply checked_add_Some; split; [done|lia]).
    destruct (Z.ltb_spec hi (x + block)); [lia|]. rewrite (proj2 (Z.mod_divide x block ltac:(lia))) by done. cbn [Z.eqb negb].
    unfold word. rewrite Hn. apply IH; try done. simpl in Hlen. lia.
Qed.

Lemma check_classes_spec a lo hi classes : forall heads,
  length heads = length classes ->
  (forall i block head, classes !! i = Some block -> heads !! i = Some head -> check_class (Z.to_nat (HEAP_SIZE / block + 2)) a lo hi block head = Ok tt) ->
  check_classes a lo hi classes heads = Ok tt.
Proof.
  induction classes as [|c classes IH]; intros heads Hlen Hall; [done|]. destruct heads as [|head heads]; [done|].
  cbn [check_classes]. rewrite (Hall 0%nat c head) by done. apply IH; [by injection Hlen|]. intros i block hd Hb Hh. by apply (Hall (S i)).
Qed.

Lemma extent_nonneg lo hi l : Forall (within lo hi) l -> 0 <= extent l.
Proof. induction 1 as [|b l Hb _ IH]; simpl; [lia|]. unfold within in Hb. lia. Qed.

(** Blocks of at least [n] bytes are few. *)
Lemma extent_length n l : 0 < n -> Forall (fun b => n <= b.2) l -> n * Z.of_nat (length l) <= extent l.
Proof. intros Hn. induction 1 as [|b l Hb _ IH]; simpl; [lia|]. lia. Qed.

Lemma extent_zero lo hi l : Forall (within lo hi) l -> extent l = 0 -> l = [].
Proof. destruct 1 as [|b l Hb Hl]; [done|]. simpl. pose proof (extent_nonneg lo hi l Hl). unfold within in Hb. lia. Qed.

(** The static heap has not a byte free. *)
Definition nothing_free (live : list Live) : bool := extent (map static_block (static_live live)) =? HEAP_SIZE.

Lemma links_null_iff m p l : links m p l -> p = 0 <-> l = [].
Proof. destruct l; simpl; [tauto|]. intros (-> & Hz & _). split; [done|by intros]. Qed.

Lemma blocks_of_nil_iff classes S : length S = length classes -> blocks_of classes S = [] <-> Forall (fun l => l = []) S.
Proof.
  revert S. induction classes as [|c classes IH]; intros [|l S] Hlen; try done. simpl. rewrite app_nil, Forall_cons, IH by (by injection Hlen).
  destruct l; simpl; naive_solver.
Qed.

Lemma has_small_free_iff start limit a L S B : heap_inv start limit a L S B -> has_small_free a = false <-> small_blocks S = [].
Proof.
  intros Hi. unfold small_blocks. rewrite blocks_of_nil_iff by apply Hi. unfold has_small_free. rewrite existsb_false_forall, Forall_lookup. split.
  - intros Hall i l Hl. destruct (hi_small _ _ _ _ _ _ Hi i l Hl) as [Hk _]. apply (links_null_iff _ _ _ Hk).
    assert (Hlt : (i < length (small_heads a))%nat) by (rewrite (hi_heads _ _ _ _ _ _ Hi), <- (hi_classes _ _ _ _ _ _ Hi); by eapply lookup_lt_Some).
    destruct (lookup_lt_is_Some_2 _ _ Hlt) as [p Hp]. unfold small_head. rewrite nth_lookup, Hp. simpl.
    specialize (Hall p (list_elem_of_lookup_2 _ _ _ Hp)). bool_to_prop. done.
  - intros Hall p Hp. apply list_elem_of_lookup in Hp as [i Hp]. apply negb_false_iff, Z.eqb_eq.
    assert (Hlt : (i < length S)%nat) by (rewrite (hi_classes _ _ _ _ _ _ Hi), <- (hi_heads _ _ _ _ _ _ Hi); by eapply lookup_lt_Some).
    destruct (lookup_lt_is_Some_2 _ _ Hlt) as [l Hl]. destruct (hi_small _ _ _ _ _ _ Hi i l Hl) as [Hk _].
    apply (links_null_iff _ _ _) in Hk as [_ Hk]. specialize (Hk (Hall i l Hl)). unfold small_head in Hk. by rewrite nth_lookup, Hp in Hk.
Qed.

Lemma blocks_of_class classes (S : list (list Z)) i c l :
  classes !! i = Some c -> S !! i = Some l -> exists rest, blocks_of classes S ≡ₚ map (fun x => (x, c)) l ++ rest.
Proof.
  revert S i. induction classes as [|d classes IH]; intros [|k S] i Hc Hl; [done..|].
  destruct i as [|i]; simpl in *; [simplify_eq; by eexists|].
  destruct (IH S i Hc Hl) as [rest Hr]. exists (map (fun x => (x, d)) k ++ rest). rewrite Hr. solve_Permutation.
Qed.

Section Check.
Context (start : Z) (Hst : storage_ok start) (h : KHeap) (live : list Live) (L : list Block) (S : list (list Z)).
Context (Hi : heap_inv start (start + HEAP_SIZE) (allocator h) L S (map static_block (static_live live))).

(** Each part of the heap is in it and no larger. *)
Lemma parts_fit : Forall (within start (start + HEAP_SIZE)) L /\ Forall (within start (start + HEAP_SIZE)) (small_blocks S)
  /\ 0 <= extent L /\ 0 <= extent (small_blocks S) /\ 0 <= extent (map static_block (static_live live))
  /\ extent L + (extent (small_blocks S) + extent (map static_block (static_live live))) = HEAP_SIZE.
Proof.
  destruct (hi_tiling _ _ _ _ _ _ Hi) as [[_ Hw] He]. rewrite !extent_app in He. rewrite !Forall_app in Hw. destruct Hw as (H1 & H2 & H3).
  split_and!; [done|done|by eapply extent_nonneg..|lia].
Qed.

Lemma check_list_ok : check_list (Z.to_nat (HEAP_SIZE / NODE_SIZE + 1)) (allocator h) start (start + HEAP_SIZE) (head_next (allocator h)) start = Ok (length L).
Proof.
  destruct parts_fit as (HwL & _ & HeL & HeS & HeB & Hsum). destruct (hi_list _ _ _ _ _ _ Hi) as [Hc Hok Hs].
  apply check_list_spec; [done|done|done|by apply gap_before| |].
  - eapply Forall_impl; [exact HwL|]. unfold within. lia.
  - assert (H16 : NODE_SIZE * Z.of_nat (length L) <= extent L).
    { apply extent_length; [done|]. eapply Forall_impl; [exact Hok|]. unfold region_ok. tauto. }
    unfold NODE_SIZE, HEAP_SIZE in *. change (10 * 1024 * 1024 / 16 + 1) with 655361. lia.
Qed.

Lemma check_classes_ok : check_classes (allocator h) start (start + HEAP_SIZE) SMALL_CLASSES (small_heads (allocator h)) = Ok tt.
Proof.
  destruct Hst as (_ & Hpos & Hlim). assert (Hu : PAGE_HEAP_BASE <= U64_MAX) by done.
  destruct parts_fit as (_ & HwS & HeL & HeS & HeB & Hsum). apply check_classes_spec; [apply (hi_heads _ _ _ _ _ _ Hi)|].
  intros i block head Hb Hh. assert (Hlt : (i < length SMALL_CLASSES)%nat) by (by eapply lookup_lt_Some).
  rewrite (class_size_lookup i Hlt) in Hb. injection Hb as <-. pose proof (class_size_facts i Hlt) as [Hc _].
  destruct (lookup_lt_is_Some_2 S i) as [l Hl]; [by rewrite (hi_classes _ _ _ _ _ _ Hi)|].
  destruct (hi_small _ _ _ _ _ _ Hi i l Hl) as [Hk Hd]. unfold small_head in Hk. rewrite nth_lookup, Hh in Hk. simpl in Hk.
  destruct (blocks_of_class SMALL_CLASSES S i (class_size i) l (class_size_lookup i Hlt) Hl) as [rest Hr]. fold (small_blocks S) in Hr.
  rewrite Hr in HwS. rewrite Hr, extent_app in HeS, Hsum. apply Forall_app in HwS as [Hwl Hwr]. pose proof (extent_nonneg _ _ _ Hwr).
  apply (check_class_spec _ _ _ _ l); [done|lia|lia| |].
  - rewrite Forall_forall in Hwl. rewrite Forall_forall in Hd. rewrite Forall_forall. intros x Hx. split; [by apply Hd|].
    specialize (Hwl (x, class_size i) (list_elem_of_fmap_2 (fun x => (x, class_size i)) _ _ Hx)). unfold within, block_end in Hwl. simpl in Hwl. lia.
  - assert (Hlen : class_size i * Z.of_nat (length l) <= HEAP_SIZE).
    { rewrite <- (length_map (fun x => (x, class_size i)) l). etrans; [apply extent_length; [lia|]|lia].
      apply Forall_map, Forall_true. intros x. simpl. lia. }
    assert (Z.of_nat (length l) <= HEAP_SIZE / class_size i) by (apply Z.div_le_lower_bound; lia). lia.
Qed.

Lemma nothing_free_iff : nothing_free live = true <-> L = [] /\ small_blocks S = [].
Proof.
  destruct parts_fit as (HwL & HwS & HeL & HeS & HeB & Hsum). unfold nothing_free. rewrite Z.eqb_eq. split.
  - intros He. split; eapply extent_zero; try done; lia.
  - intros [-> HS]. rewrite HS in Hsum. simpl in Hsum. lia.
Qed.

Lemma check_spec : heap_initialized h = true -> check h start = if nothing_free live then Err FreeListEmpty else Ok tt.
Proof.
  intros Hinit. destruct Hst as (_ & Hpos & Hlim). assert (Hu : PAGE_HEAP_BASE <= U64_MAX) by done. unfold check.
  replace (checked_add start HEAP_SIZE) with (Some (start + HEAP_SIZE)) by (symmetry; apply checked_add_Some; split; [done|lia]).
  cbn [ok_or]. rewrite check_list_ok, check_classes_ok, Hinit. cbn [andb].
  destruct (nothing_free live) eqn:Hn.
  - apply nothing_free_iff in Hn as [-> HS]. apply (has_small_free_iff _ _ _ _ _ _ Hi) in HS. by rewrite HS.
  - destruct (Nat.eqb_spec (length L) 0) as [HL|]; [|done]. destruct (has_small_free (allocator h)) eqn:Hf; [done|].
    apply (has_small_free_iff _ _ _ _ _ _ Hi) in Hf. apply nil_length_inv in HL. assert (nothing_free live = true) by (by apply nothing_free_iff). congruence.
Qed.
End Check.

(** ** The guarantees *)

(** What a kernel may rely on: live allocations are aligned as asked, apart
    from each other and inside the heap or its window, where exactly their
    pages are mapped. *)
Definition sound (start : Z) (h : KHeap) (live : list Live) : Prop :=
  (forall i j x y, live !! i = Some x -> live !! j = Some y -> i <> j -> apart (x.1, l_size x.2) (y.1, l_size y.2))
  /\ (forall x, x ∈ live -> (l_align x.2 | x.1)
        /\ if in_pages x then exists page, x.1 = page_address page /\ forall q, page <= q < page + pages_of x.2 -> is_Some (table (world (page_heap h)) !! page_address q)
           else start <= x.1 /\ x.1 + l_size x.2 <= start + HEAP_SIZE)
  /\ forall q, in_window q -> is_Some (table (world (page_heap h)) !! page_address q) ->
       exists x page, x ∈ live /\ x.1 = page_address page /\ page <= q < page + pages_of x.2.

Lemma heap_ok_sound home start h live : storage_ok start -> heap_ok home start h live -> sound start h live.
Proof.
  intros (_ & Hpos & Hlim) Hok. split; [|split].
  - intros i j x y. by apply (live_apart home start Hlim h live).
  - intros x Hx. pose proof (ko_live _ _ _ _ Hok) as Hl. rewrite Forall_forall in Hl. pose proof (Hl x Hx) as (Hr & Hal & Hpl). split; [done|].
    destruct (in_pages x) eqn:Hin; [|by apply (static_within home start h live)]. destruct Hpl as (_ & page & Hp0 & Hpx).
    exists page. split; [done|]. intros q Hq. destruct (ko_pages _ _ _ _ Hok) as [_ _ Hpk Hbits Hwin].
    assert (Hrun : (page, pages_of x.2) ∈ map run_of (page_live live)).
    { replace (page, pages_of x.2) with (run_of x); [apply (list_elem_of_fmap_2 run_of), list_elem_of_filter; done|].
      unfold run_of. rewrite Hpx. f_equal. replace (page_address page - PAGE_HEAP_BASE) with (page * 4096) by (unfold page_address; lia). by rewrite Z.div_mul. }
    pose proof (proj2 Hpk) as Hw. rewrite Forall_forall in Hw. specialize (Hw _ Hrun). unfold within, block_end in Hw. simpl in Hw.
    assert (Hinq : in_window q) by (unfold in_window; lia). apply (wi_mapped _ _ _ Hwin q Hinq), Hbits; [done|]. by exists (page, pages_of x.2).
  - intros q Hq Hm. destruct (ko_pages _ _ _ _ Hok) as [_ _ Hpk Hbits Hwin]. apply (wi_mapped _ _ _ Hwin q Hq), (Hbits q Hq) in Hm as (r & Hr & Hh).
    apply list_elem_of_fmap in Hr as (x & -> & [Hin Hx]%list_elem_of_filter). pose proof (ko_live _ _ _ _ Hok) as Hl. rewrite Forall_forall in Hl.
    destruct (Hl x Hx) as (_ & _ & Hpl). rewrite Hin in Hpl. destruct Hpl as (_ & page & Hp0 & Hpx). exists x, page. split; [done|]. split; [done|].
    unfold run_of in Hh. rewrite Hpx in Hh. replace (page_address page - PAGE_HEAP_BASE) with (page * 4096) in Hh by (unfold page_address; lia).
    by rewrite Z.div_mul in Hh.
Qed.

Lemma heap_op_initialized h live op h' live' : heap_op (h, live) op = Some (h', live') -> heap_initialized h' = heap_initialized h.
Proof.
  destruct op as [layout|i|i offset value|]; cbn [heap_op].
  - unfold alloc. case_if; [destruct (page_alloc _ _) as [[[??]|]?]; by intros [= <- <-]|].
    destruct (size_align layout) as [[??]|]; [|by intros [= <- <-]].
    destruct (small_class layout); [destruct (alloc_small _ _) as [[??]|]|destruct (alloc_general _ _ _) as [[??]|]]; [|done| |done];
      cbn beta iota zeta; case_if; by intros [= <- <-].
  - destruct (live !! i) as [[p layout]|]; [|by intros [= <- <-]]. unfold dealloc.
    case_if; [destruct (page_dealloc _ _ _) as [[?|]?]; by intros [= <- <-]|].
    destruct (size_align layout) as [[??]|]; [|by intros [= <- <-]]. destruct (small_class layout); [by intros [= <- <-]|].
    destruct (add_free_region _ _ _) as [[??]|]; [by intros [= <- <-]|done].
  - destruct (live !! i) as [[p layout]|]; [|by intros [= <- <-]]. case_if; by intros [= <- <-].
  - by intros [= <- <-].
Qed.

Lemma heap_ops_initialized ops : forall h live h' live', heap_ops (h, live) ops = Some (h', live') -> heap_initialized h' = heap_initialized h.
Proof.
  induction ops as [|op ops IH]; intros h live h' live'; cbn [heap_ops]; [by intros [= <- <-]|].
  destruct (heap_op (h, live) op) as [[h1 live1]|] eqn:Hop; [|done]. intros Hr. rewrite (IH _ _ _ _ Hr). by eapply heap_op_initialized.
Qed.

(** From boot, through any operations. *)
Lemma boot_ops m w start ops : storage_ok start -> window_empty w -> Forall op_ok ops ->
  exists h0 h live, heap_init (boot m w) start = Some h0 /\ heap_ops (h0, []) ops = Some (h, live)
    /\ heap_ok (avail w) start h live /\ heap_initialized h = true.
Proof.
  intros Hst Hw Hops. destruct (init_ok m w start Hst Hw) as (h0 & Hinit & Hi0 & Hok0). destruct Hst as (_ & Hpos & Hlim).
  destruct (heap_ops_ok (avail w) start Hpos Hlim ops h0 [] Hok0 Hops) as (h & live & Hrun & Hok).
  exists h0, h, live. split; [done|]. split; [done|]. split; [done|]. by rewrite (heap_ops_initialized _ _ _ _ _ Hrun).
Qed.

(** C4. The kernel heap is sound whatever its users do: from boot, through any
    requests with an alignment of at most [2 ^ 46] (the page heap misplaces
    blocks of larger ones, [page_heap_misaligns]), frees and writes inside allocations, every operation ends; live
    allocations are aligned as asked, inside the heap or its window and apart
    from each other; exactly the pages of live allocations are mapped there;
    the static heap is tiled by its free regions, free blocks and live blocks,
    so that no byte is lost; and no frame is lost. *)
Theorem heap_sound m w start ops : storage_ok start -> window_empty w -> Forall op_ok ops ->
  exists h0 h live, heap_init (boot m w) start = Some h0 /\ heap_ops (h0, []) ops = Some (h, live) /\ sound start h live
    /\ (exists L S, heap_inv start (start + HEAP_SIZE) (allocator h) L S (map static_block (static_live live)))
    /\ stats_exact h live
    /\ forall f, avail w f -> let w' := world (page_heap h) in
         avail w' f \/ tables w' f \/ exists q, in_window q /\ table w' !! page_address q = Some f.
Proof.
  intros Hst Hw Hops. destruct (boot_ops m w start ops Hst Hw Hops) as (h0 & h & live & Hinit & Hrun & Hok & _).
  exists h0, h, live. do 2 (split; [done|]). split; [by eapply heap_ok_sound|]. destruct Hok as [Hs Hp _ Hx]. do 2 (split; [done|]).
  intros f Hf. by apply (wi_kept _ _ _ (pi_window _ _ _ Hp)).
Qed.

(** The static heap refuses only when it must: whenever [alloc] returns
    null on a request that does not go to the page heap, the layout is beyond
    any address space, or no free block of the class is left and no free region
    has room for an aligned block of the size. *)
Theorem heap_refuses_when_full m w start ops h0 h live layout h' :
  storage_ok start -> window_empty w -> Forall op_ok ops -> request_ok layout ->
  heap_init (boot m w) start = Some h0 -> heap_ops (h0, []) ops = Some (h, live) ->
  ~ (4096 < l_size layout /\ page_heap_ready h = true) ->
  alloc h layout = Some (0, h') -> static_refusal start h live layout.
Proof.
  intros Hst Hw Hops Hr Hinit Hrun Hnp Ha. destruct (boot_ops m w start ops Hst Hw Hops) as (h0' & h1 & live1 & Hinit' & Hrun' & Hok & _).
  rewrite Hinit in Hinit'. injection Hinit' as <-. rewrite Hrun in Hrun'. injection Hrun' as <- <-. destruct Hst as (_ & Hpos & Hlim).
  destruct (alloc_spec (avail w) start Hpos Hlim h live layout Hok Hr) as (p & h2 & Ha' & Hcases). rewrite Ha in Ha'. injection Ha' as <- <-.
  destruct Hcases as [(_ & _ & [Hpg|Hs])|(Hp & _)]; [done|done|lia].
Qed.

(** The heap's self check is exact: on every state the kernel can reach it
    passes, except when not one byte of the static heap is free, which it
    reports as an empty free list. *)
Theorem heap_check_exact m w start ops h0 h live :
  storage_ok start -> window_empty w -> Forall op_ok ops ->
  heap_init (boot m w) start = Some h0 -> heap_ops (h0, []) ops = Some (h, live) ->
  check h start = if nothing_free live then Err FreeListEmpty else Ok tt.
Proof.
  intros Hst Hw Hops Hinit Hrun. destruct (boot_ops m w start ops Hst Hw Hops) as (h0' & h1 & live1 & Hinit' & Hrun' & Hok & Hi).
  rewrite Hinit in Hinit'. injection Hinit' as <-. rewrite Hrun in Hrun'. injection Hrun' as <- <-.
  destruct (ko_static _ _ _ _ Hok) as (L & S & HLS). by apply (check_spec start Hst h live L S HLS).
Qed.
End Claims.

(** ** A concrete machine *)

(** Frames on a stack, and a table of pages. *)
Record Ram : Type := mkRam { ram_free : list Z; ram_table : gmap Z Z }.

#[global] Instance Ram_pages : Pages Ram := {
  alloc_frame w := match ram_free w with [] => (None, w) | f :: fs => (Some f, mkRam fs (ram_table w)) end;
  free_frame w f := mkRam (f :: ram_free w) (ram_table w);
  map_page w v f := match ram_table w !! v with Some _ => (false, w) | None => (true, mkRam (ram_free w) (<[v := f]> (ram_table w))) end;
  unmap_page w v := (ram_table w !! v, mkRam (ram_free w) (delete v (ram_table w)))
}.

#[global] Instance Ram_laws : PagesLaws Ram.
Proof.
  refine {| pages_wf w := NoDup (ram_free w); avail w f := f ∈ ram_free w; tables _ _ := False; table := ram_table |}.
  - intros [[|g fs] t] f w' Hnd; simpl; [done|]. intros [= <- <-]. simpl in *. apply NoDup_cons in Hnd as [Hg Hnd].
    split_and!; [done|done|by left| |done]. intros x. rewrite elem_of_cons. split; [|by intros [[|]]]. intros Hx. split; [by right|]. by intros ->.
  - intros [[|g fs] t] w' Hnd; simpl; [|done]. by intros [= <-].
  - intros [fs t] f Hnd Hf. simpl in *. split_and!; [by constructor|done| |done]. intros g. rewrite elem_of_cons. tauto.
  - intros [fs t] v f ok w' Hnd. simpl. destruct (t !! v); intros [= <- <-]; simpl; split_and!; try done; by left.
  - intros [fs t] v r w' Hnd. simpl. by intros [= <- <-].
Defined.

Definition storage : Z := 0xffff800001000000.
Definition frames : Ram := mkRam [0x200000; 0x201000; 0x202000] ∅.

(** A small block, three pages of the static heap, a free, a write, and two
    pages of the page heap. *)
Definition demo_ops : list HeapOp :=
  [OAlloc (mkLayout 24 8); OAlloc (mkLayout 9000 16); OWrite 1 8 77; OFree 1; OEnable; OAlloc (mkLayout 8192 4096); OAlloc (mkLayout 24 8)].

Lemma storage_is_ok : storage_ok storage.
Proof. split; [by exists (storage / 4096)|]. split; [done|]. by vm_compute. Qed.
Lemma frames_empty : window_empty frames.
Proof. split; [|done]. cbv [pages_wf Ram_laws frames ram_free]. apply (bool_decide_unpack _). by vm_compute. Qed.
Lemma demo_ops_ok : Forall op_ok demo_ops.
Proof. repeat constructor; simpl; unfold ISIZE_MAX; try lia; [exists 3|exists 4|exists 12|exists 3]; done. Qed.


Definition demo_heap : KernelHeap.KHeap (W := Ram) := default (boot ∅ frames) (heap_init (boot ∅ frames) storage).
Definition demo_state (ops : list HeapOp) : KernelHeap.KHeap (W := Ram) * list Live := default (demo_heap, []) (heap_ops (demo_heap, []) ops).

(** The small block is reused, the page heap has the first two pages of its
    window and the last frame is still free. *)
Example demo_run : map fst (demo_state demo_ops).2 = [storage; PAGE_HEAP_BASE; storage + 4096]
  /\ ram_free (world (page_heap (demo_state demo_ops).1)) = [0x202000] /\ check (demo_state demo_ops).1 storage = Ok tt.
Proof. vm_compute. done. Qed.

Lemma demo_init : heap_init (boot ∅ frames) storage = Some demo_heap.
Proof. vm_compute. reflexivity. Qed.

Lemma heap_sound_witness : storage_ok storage /\ exists h live, heap_ops (demo_heap, []) demo_ops = Some (h, live) /\ sound storage h live.
Proof.
  split; [exact storage_is_ok|].
  destruct (heap_sound ∅ frames storage demo_ops storage_is_ok frames_empty demo_ops_ok) as (h0 & h & live & Hinit & Hrun & Hs & _).
  rewrite demo_init in Hinit. injection Hinit as <-. exists h, live. split; [exact Hrun|exact Hs].
Defined.

(** Eleven mebibytes do not fit. *)
Definition too_large : Layout := mkLayout (11 * 2 ^ 20) 8.

Lemma heap_refuses_when_full_witness : exists h', alloc (demo_state []).1 too_large = Some (0, h') /\ static_refusal storage (demo_state []).1 [] too_large.
Proof.
  eexists. split; [vm_compute; reflexivity|].
  eapply (heap_refuses_when_full ∅ frames storage [] demo_heap (demo_state []).1 [] too_large).
  - exact storage_is_ok.
  - exact frames_empty.
  - constructor.
  - split; [split; [vm_compute; split; discriminate|exists 3; vm_compute; split; [split; [discriminate|reflexivity]|reflexivity]]|].
    vm_compute. split; [reflexivity|discriminate].
  - exact demo_init.
  - reflexivity.
  - intros [_ Hr]. vm_compute in Hr. discriminate Hr.
  - vm_compute. reflexivity.
Defined.

Lemma heap_check_exact_witness : nothing_free (demo_state demo_ops).2 = false /\ check (demo_state demo_ops).1 storage = Ok tt.
Proof.
  assert (Hn : nothing_free (demo_state demo_ops).2 = false) by (vm_compute; reflexivity). split; [exact Hn|].
  pose proof (heap_check_exact ∅ frames storage demo_ops demo_heap (demo_state demo_ops).1 (demo_state demo_ops).2
    storage_is_ok frames_empty demo_ops_ok demo_init) as Hc.
  rewrite Hn in Hc. apply Hc. vm_compute. reflexivity.
Defined.

(** The window is aligned to 2^46 and no further: a larger alignment is not
    honoured. *)
Definition wide : Layout := mkLayout 8192 (2 ^ 47).
Example page_heap_misaligns :
  option_map (fun r => (r.1, r.1 mod l_align wide =? 0)) (alloc (demo_state [OEnable]).1 wide) = Some (PAGE_HEAP_BASE, false).
Proof. vm_compute. reflexivity. Qed.
