(* ===== verification/ExecStack.v ===== *)
(** * ExecStack: the stack a program starts on

    [kernel/src/exec/stack.rs] builds the initial stack of a program (argc,
    argv, envp, the auxiliary vector and the strings), and
    [userspace/libsaeos/src/startinfo.rs] takes it apart in the program. The
    theorem joins them: whatever the kernel was given, the program reads. *)

From stdpp Require Import base numbers list.
From S2P Require Import Prelude Errno Text.
Local Open Scope Z_scope.

Module Stack.
Definition AT_NULL : Z := 0.
Definition AT_PHDR : Z := 3.
Definition AT_PHENT : Z := 4.
Definition AT_PHNUM : Z := 5.
Definition AT_PAGESZ : Z := 6.
Definition AT_ENTRY : Z := 9.
Definition AT_RANDOM : Z := 25.

Record InitialStack : Type := mkStack { bytes : list Z; stack_pointer : Z }.

(** Append the strings, each with its NUL; the offset of each. *)
Fixpoint offsets (values : list (list Z)) (strings : list Z) : list Z * list Z :=
  match values with
  | [] => ([], strings)
  | value :: values =>
    let '(rest, out) := offsets values (strings ++ value ++ [0]) in (len strings :: rest, out)
  end.

(** [Vec::resize] with zeros. *)
Definition resize (l : list Z) (n : Z) : list Z := take (Z.to_nat n) l ++ replicate (Z.to_nat n - length l) 0.

Definition words_bytes (words : list Z) : list Z := flat_map (le_bytes 8) words.

(** The words from rsp up. *)
Definition frame_words (argv envp : list Z) (auxv : list (Z * Z)) : list Z :=
  Z.of_nat (length argv) :: argv ++ [0] ++ envp ++ [0] ++ flat_map (fun e => [fst e; snd e]) auxv.

Definition build (top : Z) (argv envp : list (list Z)) (auxv : list (Z * Z)) (random : list Z) (limit : Z) : result Errno InitialStack :=
  let '(argv_offsets, strings) := offsets argv [] in
  let '(envp_offsets, strings) := offsets envp strings in
  let random_offset := len strings in
  let strings := strings ++ random in
  let? strings_start := ok_or (checked_sub top (len strings)) E2BIG in
  let address offset := strings_start + offset in
  let random_address := address random_offset in
  let argv_addresses := map address argv_offsets in
  let envp_addresses := map address envp_offsets in
  let auxv := auxv ++ [(AT_RANDOM, random_address); (AT_NULL, 0)] in
  let words := 1 + Z.of_nat (length argv) + 1 + Z.of_nat (length envp) + 1 + Z.of_nat (length auxv) * 2 in
  let? below := ok_or (checked_sub strings_start (words * 8)) E2BIG in
  let stack_pointer := Z.land below (Z.lnot 15) in
  let total := top - stack_pointer in
  if limit <? total then Err E2BIG else
  let bytes := words_bytes (frame_words argv_addresses envp_addresses auxv) in
  let bytes := resize bytes (total - len strings) in
  Ok (mkStack (bytes ++ strings) stack_pointer).

(** ** The program's side *)

(** Memory as the program sees it: the byte at an address, [None] outside the
    stack. *)
Definition Memory : Type := Z -> option Z.
Definition memory_of (s : InitialStack) : Memory :=
  fun a => if stack_pointer s <=? a then bytes s !! Z.to_nat (a - stack_pointer s) else None.

Fixpoint read_bytes (m : Memory) (a : Z) (n : nat) : option (list Z) :=
  match n with
  | O => Some []
  | S n => match m a, read_bytes m (a + 1) n with Some b, Some l => Some (b :: l) | _, _ => None end
  end.
(** A word; [None] is an access outside the stack. *)
Definition read_word (m : Memory) (a : Z) : option Z := option_map from_le (read_bytes m a 8).

Record StartInfo : Type := mkStart { argc : Z; argv : Z; envp : Z; auxv : Z }.

(** [entry(array, index)]. *)
Definition entry (m : Memory) (array index : Z) : option Z := read_word m (array + 8 * index).

Fixpoint count_entries (fuel : nat) (m : Memory) (array count : Z) : option Z :=
  match fuel with
  | O => None
  | S fuel =>
    match entry m array count with
    | None => None
    | Some p => if p =? 0 then Some count else count_entries fuel m array (count + 1)
    end
  end.

Definition from_stack (fuel : nat) (m : Memory) (stack : Z) : option StartInfo :=
  match read_word m stack with
  | None => None
  | Some argc =>
    let argv := stack + 8 in
    let envp := argv + 8 * (argc + 1) in
    match count_entries fuel m envp 0 with
    | None => None
    | Some count => Some (mkStart argc argv envp (envp + 8 * (count + 1)))
    end
  end.

Fixpoint aux_loop (fuel : nat) (m : Memory) (entry kind : Z) : option (option Z) :=
  match fuel with
  | O => None
  | S fuel =>
    match read_word m entry, read_word m (entry + 8) with
    | Some entry_kind, Some value =>
      if entry_kind =? AT_NULL then Some None else
      if entry_kind =? kind then Some (Some value) else aux_loop fuel m (entry + 16) kind
    | _, _ => None
    end
  end.
Definition aux (fuel : nat) (m : Memory) (s : StartInfo) (kind : Z) : option (option Z) := aux_loop fuel m (auxv s) kind.

Fixpoint c_string (fuel : nat) (m : Memory) (pointer : Z) : option (list Z) :=
  match fuel with
  | O => None
  | S fuel =>
    match m pointer with
    | None => None
    | Some b => if b =? 0 then Some [] else option_map (cons b) (c_string fuel m (pointer + 1))
    end
  end.

(** ** Reading memory *)

Lemma read_bytes_spec s n : forall o, 0 <= o -> o + Z.of_nat n <= len (bytes s) ->
  read_bytes (memory_of s) (stack_pointer s + o) n = Some (take n (drop (Z.to_nat o) (bytes s))).
Proof.
  unfold len. induction n as [|n IH]; intros o Ho Hn; [done|]. cbn [read_bytes].
  replace (stack_pointer s + o + 1) with (stack_pointer s + (o + 1)) by lia. rewrite IH by lia.
  unfold memory_of. destruct (Z.leb_spec (stack_pointer s) (stack_pointer s + o)); [|lia].
  replace (stack_pointer s + o - stack_pointer s) with o by lia.
  destruct (lookup_lt_is_Some_2 (bytes s) (Z.to_nat o)) as [b Hb]; [lia|]. rewrite Hb.
  rewrite (drop_S _ _ _ Hb). cbn [take]. by replace (Z.to_nat (o + 1)) with (S (Z.to_nat o)) by lia.
Qed.

Lemma length_words_bytes ws : length (words_bytes ws) = (8 * length ws)%nat.
Proof. unfold words_bytes. induction ws as [|w ws IH]; cbn [flat_map]; [done|]. rewrite length_app, length_le_bytes, IH. simpl. lia. Qed.

Lemma words_bytes_lookup ws i w : ws !! i = Some w -> take 8 (drop (8 * i) (words_bytes ws)) = le_bytes 8 w.
Proof.
  unfold words_bytes. revert i. induction ws as [|v ws IH]; intros i Hi; [done|]. cbn [flat_map]. destruct i as [|i].
  - injection Hi as ->. rewrite Nat.mul_0_r, drop_0. apply take_app_length'. by rewrite length_le_bytes.
  - replace (8 * S i)%nat with (length (le_bytes 8 v) + 8 * i)%nat by (rewrite length_le_bytes; lia). rewrite drop_app_add. by apply IH.
Qed.

(** The words at the bottom of the stack. *)
Lemma read_word_spec s ws rest i w : bytes s = words_bytes ws ++ rest -> ws !! i = Some w -> is_u64 w ->
  read_word (memory_of s) (stack_pointer s + 8 * Z.of_nat i) = Some w.
Proof.
  intros Hb Hi Hw. pose proof (lookup_lt_Some _ _ _ Hi) as Hlt. unfold read_word. rewrite read_bytes_spec.
  - rewrite Hb. replace (Z.to_nat (8 * Z.of_nat i)) with (8 * i)%nat by lia.
    rewrite drop_app_le by (rewrite length_words_bytes; lia).
    rewrite take_app_le by (rewrite length_drop, length_words_bytes; lia). rewrite (words_bytes_lookup ws i w Hi). simpl. f_equal. by apply from_le_u64.
  - lia.
  - unfold len. rewrite Hb, length_app, length_words_bytes. lia.
Qed.

Lemma c_string_spec s v : forall o rest fuel, 0 <= o -> drop (Z.to_nat o) (bytes s) = v ++ 0 :: rest -> Forall (fun b => b <> 0) v ->
  (length v < fuel)%nat -> c_string fuel (memory_of s) (stack_pointer s + o) = Some v.
Proof.
  induction v as [|b v IH]; intros o rest fuel Ho Hd Hv Hf; (destruct fuel as [|fuel]; [simpl in Hf; lia|]); cbn [c_string].
  - assert (Hb : bytes s !! Z.to_nat o = Some 0) by (rewrite <- (Nat.add_0_r (Z.to_nat o)), <- lookup_drop, Hd; done).
    unfold memory_of. destruct (Z.leb_spec (stack_pointer s) (stack_pointer s + o)); [|lia].
    replace (stack_pointer s + o - stack_pointer s) with o by lia. by rewrite Hb.
  - assert (Hb : bytes s !! Z.to_nat o = Some b) by (rewrite <- (Nat.add_0_r (Z.to_nat o)), <- lookup_drop, Hd; done).
    unfold memory_of at 1. destruct (Z.leb_spec (stack_pointer s) (stack_pointer s + o)); [|lia].
    replace (stack_pointer s + o - stack_pointer s) with o by lia. rewrite Hb. apply Forall_cons in Hv as [Hb0 Hv].
    destruct (Z.eqb_spec b 0); [done|]. replace (stack_pointer s + o + 1) with (stack_pointer s + (o + 1)) by lia.
    rewrite (IH (o + 1) rest); [done|lia| |done|simpl in Hf; lia].
    replace (Z.to_nat (o + 1)) with (Z.to_nat o + 1)%nat by lia. rewrite <- drop_drop, Hd. done.
Qed.

(** ** The strings *)

Definition strings_bytes (values : list (list Z)) : list Z := flat_map (fun v => v ++ [0]) values.

Lemma offsets_spec values : forall strings offs out, offsets values strings = (offs, out) ->
  out = strings ++ strings_bytes values /\ length offs = length values
  /\ forall i v, values !! i = Some v -> exists off, offs !! i = Some off /\ len strings <= off
       /\ exists rest, drop (Z.to_nat off) out = v ++ 0 :: rest.
Proof.
  induction values as [|v values IH]; intros strings offs out; cbn [offsets].
  - intros [= <- <-]. unfold strings_bytes. cbn [flat_map]. rewrite app_nil_r. split; [done|]. split; [done|]. by intros i v Hi.
  - destruct (offsets values (strings ++ v ++ [0])) as [rest out'] eqn:He. intros [= <- <-].
    apply IH in He as (-> & Hlen & Hall). split; [|split; [simpl; by rewrite Hlen|]].
    + unfold strings_bytes. cbn [flat_map]. by rewrite <- !app_assoc.
    + intros [|i] w Hi.
      * injection Hi as ->. exists (len strings). split; [done|]. split; [lia|]. exists (strings_bytes values).
        rewrite <- !app_assoc. unfold len. rewrite Nat2Z.id, drop_app_length. done.
      * destruct (Hall i w Hi) as (off & Ho & Hle & r & Hr). exists off. split; [done|]. rewrite len_app in Hle. pose proof (len_nonneg (v ++ [0])).
        split; [lia|]. by exists r.
Qed.

(** ** What [build] makes *)

Definition c_text (v : list Z) : Prop := Forall (fun b => 0 < b <= 255) v.

Lemma length_resize l n : (length l <= Z.to_nat n)%nat -> resize l n = l ++ replicate (Z.to_nat n - length l) 0.
Proof. intros Hl. unfold resize. by rewrite take_ge. Qed.

Lemma length_frame_words argv envp auxv : length (frame_words argv envp auxv) = (3 + length argv + length envp + 2 * length auxv)%nat.
Proof.
  unfold frame_words. cbn [length]. rewrite !length_app. cbn [length].
  assert (Ha : length (flat_map (fun e : Z * Z => [e.1; e.2]) auxv) = (2 * length auxv)%nat) by (induction auxv; simpl in *; lia). lia.
Qed.

(** The layout: the words, padding, the strings and the random bytes. *)
Record laid_out (top : Z) (argv envp : list (list Z)) (auxv : list (Z * Z)) (random : list Z) (s : InitialStack) (base : Z) (ao eo : list Z) : Prop := {
  lo_pad : exists pad, bytes s = words_bytes (frame_words (map (Z.add base) ao) (map (Z.add base) eo)
             (auxv ++ [(AT_RANDOM, base + len (strings_bytes argv ++ strings_bytes envp)); (AT_NULL, 0)]))
             ++ replicate pad 0 ++ strings_bytes argv ++ strings_bytes envp ++ random;
  lo_base : base = stack_pointer s + len (bytes s) - len (strings_bytes argv ++ strings_bytes envp ++ random);
  lo_top : stack_pointer s + len (bytes s) = top;
  lo_sp : 0 <= stack_pointer s /\ (16 | stack_pointer s);
  lo_lower : 0 < base /\ stack_pointer s <= base;
  lo_argv : length ao = length argv /\ forall i v, argv !! i = Some v -> exists off, ao !! i = Some off /\ 0 <= off
       /\ exists rest, drop (Z.to_nat off) (strings_bytes argv) = v ++ 0 :: rest;
  lo_envp : length eo = length envp /\ forall i v, envp !! i = Some v -> exists off, eo !! i = Some off /\ 0 <= off
       /\ exists rest, drop (Z.to_nat off) (strings_bytes argv ++ strings_bytes envp) = v ++ 0 :: rest
}.

Lemma build_laid_out top argv envp auxv random limit s : 0 <= top -> build top argv envp auxv random limit = Ok s ->
  top - stack_pointer s <= limit /\ exists base ao eo, laid_out top argv envp auxv random s base ao eo.
Proof.
  intros Htop Hb. unfold build in Hb. destruct (offsets argv []) as [ao st1] eqn:Ha. destruct (offsets envp st1) as [eo st2] eqn:He.
  apply offsets_spec in Ha as (-> & Hla & Hsa). apply offsets_spec in He as (-> & Hle & Hse). cbn [app] in *.
  rewrite <- app_assoc in Hb. set (strings := strings_bytes argv ++ strings_bytes envp ++ random) in *.
  unfold checked_sub in Hb. case_if_in Hb; [|done]. cbn [ok_or] in Hb. set (base := top - len strings) in *.
  rewrite length_app in Hb. cbn [length] in Hb. case_if_in Hb; [|done]. cbn [ok_or] in Hb.
  set (below := base - _) in *. case_if_in Hb; [done|]. apply Ok_inj in Hb. subst s. cbn [stack_pointer].
  assert (Hsp : Z.land below (Z.lnot 15) = below - below mod 16) by (change 15 with (2 ^ 4 - 1); by apply land_mask).
  set (sp := Z.land below (Z.lnot 15)) in *. clearbody sp. pose proof (Z.mod_pos_bound below 16 ltac:(lia)). pose proof (Z.div_mod below 16 ltac:(lia)).
  assert (Hbelow : 0 <= below) by lia. assert (Hdiv : 0 <= below / 16) by (apply Z.div_pos; lia).
  set (ws := frame_words _ _ _) in *. pose proof (length_words_bytes ws) as Hlw.
  assert (Hws : Z.of_nat (8 * length ws) = base - below).
  { unfold ws. rewrite length_frame_words, !length_map, Hla, Hle, length_app. cbn [length]. lia. }
  split; [lia|]. exists base, ao, eo.
  assert (Hroom : (length (words_bytes ws) <= Z.to_nat (base - sp))%nat) by lia.
  replace (top - sp - len strings) with (base - sp) in * by lia. rewrite length_resize by done.
  assert (Hlen : len (words_bytes ws ++ replicate (Z.to_nat (base - sp) - length (words_bytes ws)) 0) = base - sp).
  { unfold len. rewrite length_app, length_replicate. lia. }
  assert (Hst : len strings = len (strings_bytes argv) + (len (strings_bytes envp) + len random)) by (unfold strings; by rewrite !len_app).
  constructor; cbn [bytes stack_pointer]; rewrite ?(len_app (words_bytes ws ++ _)), ?Hlen, ?len_app, ?Hst.
  - exists (Z.to_nat (base - sp) - length (words_bytes ws))%nat. unfold ws, strings. by rewrite <- app_assoc, len_app.
  - lia.
  - lia.
  - split; [lia|]. exists (below / 16). lia.
  - lia.
  - split; [done|]. intros i v Hi. destruct (Hsa i v Hi) as (off & Ho & Hoff & Hr). exists off. by split_and!.
  - split; [done|]. intros i v Hi. destruct (Hse i v Hi) as (off & Ho & Hoff & Hr). exists off.
    pose proof (len_nonneg (strings_bytes argv)). split; [done|]. split; [lia|done].
Qed.

(** ** What the program reads *)

Section Reads.
Context (top : Z) (argv envp : list (list Z)) (auxv : list (Z * Z)) (random : list Z) (s : InitialStack) (base : Z) (ao eo : list Z).
Context (HL : laid_out top argv envp auxv random s base ao eo) (Htop : top <= U64_MAX).
Context (Hargv : Forall c_text argv) (Henvp : Forall c_text envp) (Haux : Forall (fun e => is_u64 e.1 /\ is_u64 e.2 /\ e.1 <> AT_NULL) auxv).

Let words := frame_words (map (Z.add base) ao) (map (Z.add base) eo)
               (auxv ++ [(AT_RANDOM, base + len (strings_bytes argv ++ strings_bytes envp)); (AT_NULL, 0)]).

Lemma read_frame i w : words !! i = Some w -> is_u64 w -> read_word (memory_of s) (stack_pointer s + 8 * Z.of_nat i) = Some w.
Proof. destruct (lo_pad _ _ _ _ _ _ _ _ _ HL) as [pad Hb]. intros. by eapply read_word_spec. Qed.

(** The strings area, from [base] up. *)
Lemma drop_strings o : 0 <= o -> drop (Z.to_nat (base - stack_pointer s + o)) (bytes s) = drop (Z.to_nat o) (strings_bytes argv ++ strings_bytes envp ++ random).
Proof.
  intros Ho. destruct (lo_pad _ _ _ _ _ _ _ _ _ HL) as [pad Hb]. pose proof (lo_base _ _ _ _ _ _ _ _ _ HL) as Hbase.
  rewrite Hb in *. rewrite app_assoc in *. rewrite len_app in Hbase. set (low := words_bytes _ ++ replicate pad 0) in *.
  assert (Hl : base - stack_pointer s = len low) by lia. rewrite Hl. unfold len.
  replace (Z.to_nat (Z.of_nat (length low) + o)) with (length low + Z.to_nat o)%nat by lia. apply drop_app_add.
Qed.

Lemma string_at o v rest : 0 <= o -> c_text v -> drop (Z.to_nat o) (strings_bytes argv ++ strings_bytes envp) = v ++ 0 :: rest ->
  is_u64 (base + o) /\ base + o <> 0
  /\ forall fuel, (length (bytes s) < fuel)%nat -> c_string fuel (memory_of s) (base + o) = Some v.
Proof.
  intros Ho Hv Hd.
  assert (Hlen : (Z.to_nat o + length v < length (strings_bytes argv ++ strings_bytes envp))%nat).
  { pose proof (f_equal length Hd) as Hl. rewrite length_drop, (length_app v) in Hl. cbn [length] in Hl. lia. }
  pose proof (lo_top _ _ _ _ _ _ _ _ _ HL) as Ht. pose proof (lo_base _ _ _ _ _ _ _ _ _ HL) as Hb. pose proof (lo_lower _ _ _ _ _ _ _ _ _ HL).
  rewrite app_assoc, len_app in Hb. pose proof (len_nonneg random). pose proof (len_nonneg (bytes s)). pose proof (lo_sp _ _ _ _ _ _ _ _ _ HL).
  split; [unfold is_u64, len in *; lia|]. split; [lia|]. intros fuel Hf.
  replace (base + o) with (stack_pointer s + (base - stack_pointer s + o)) by lia.
  apply (c_string_spec s v _ (rest ++ random)); [lia| | |].
  - rewrite drop_strings by done. rewrite app_assoc, drop_app_le by lia. rewrite Hd. by rewrite <- app_assoc.
  - eapply Forall_impl; [exact Hv|]. simpl. lia.
  - unfold len in *. lia.
Qed.

(** A NULL-terminated array of pointers to the strings. *)
Definition strings_of (fuel : nat) (m : Memory) (array : Z) (l : list (list Z)) : Prop :=
  (forall i v, l !! i = Some v -> exists p, entry m array (Z.of_nat i) = Some p /\ p <> 0 /\ c_string fuel m p = Some v)
  /\ entry m array (Z.of_nat (length l)) = Some 0.

Lemma words_argv i : (i < length argv)%nat -> words !! S i = map (Z.add base) ao !! i.
Proof.
  intros Hi. unfold words, frame_words. change ((?x :: ?l) !! S ?j) with (l !! j). apply lookup_app_l.
  rewrite length_map, (proj1 (lo_argv _ _ _ _ _ _ _ _ _ HL)). done.
Qed.

Lemma words_argv_end : words !! S (length argv) = Some 0.
Proof.
  unfold words, frame_words. change ((?x :: ?l) !! S ?j) with (l !! j).
  rewrite lookup_app_r by (rewrite length_map, (proj1 (lo_argv _ _ _ _ _ _ _ _ _ HL)); done).
  by rewrite length_map, (proj1 (lo_argv _ _ _ _ _ _ _ _ _ HL)), Nat.sub_diag.
Qed.

(** Past argv and its NULL. *)
Lemma words_after_argv j :
  words !! (2 + length argv + j)%nat = (map (Z.add base) eo ++ [0] ++ flat_map (fun e => [fst e; snd e])
     (auxv ++ [(AT_RANDOM, base + len (strings_bytes argv ++ strings_bytes envp)); (AT_NULL, 0)])) !! j.
Proof.
  unfold words, frame_words. cbn [Nat.add]. change ((?x :: ?l) !! S ?i) with (l !! i).
  rewrite lookup_app_r by (rewrite length_map, (proj1 (lo_argv _ _ _ _ _ _ _ _ _ HL)); lia).
  rewrite length_map, (proj1 (lo_argv _ _ _ _ _ _ _ _ _ HL)). by replace (S (length argv + j) - length argv)%nat with (S j) by lia.
Qed.

Lemma words_envp i : (i < length envp)%nat -> words !! (2 + length argv + i)%nat = map (Z.add base) eo !! i.
Proof. intros Hi. rewrite words_after_argv. apply lookup_app_l. by rewrite length_map, (proj1 (lo_envp _ _ _ _ _ _ _ _ _ HL)). Qed.

Lemma words_aux j :
  words !! (3 + length argv + length envp + j)%nat =
  flat_map (fun e => [fst e; snd e]) (auxv ++ [(AT_RANDOM, base + len (strings_bytes argv ++ strings_bytes envp)); (AT_NULL, 0)]) !! j.
Proof.
  replace (3 + length argv + length envp + j)%nat with (2 + length argv + (length envp + S j))%nat by lia. rewrite words_after_argv.
  rewrite lookup_app_r by (rewrite length_map, (proj1 (lo_envp _ _ _ _ _ _ _ _ _ HL)); lia).
  rewrite length_map, (proj1 (lo_envp _ _ _ _ _ _ _ _ _ HL)). by replace (length envp + S j - length envp)%nat with (S j) by lia.
Qed.

Lemma words_envp_end : words !! (2 + length argv + length envp)%nat = Some 0.
Proof.
  rewrite words_after_argv, lookup_app_r by (rewrite length_map, (proj1 (lo_envp _ _ _ _ _ _ _ _ _ HL)); done).
  by rewrite length_map, (proj1 (lo_envp _ _ _ _ _ _ _ _ _ HL)), Nat.sub_diag.
Qed.

Lemma u64_zero : is_u64 0.
Proof. done. Qed.

Lemma argv_read fuel : (length (bytes s) < fuel)%nat -> strings_of fuel (memory_of s) (stack_pointer s + 8) argv.
Proof.
  intros Hf. split.
  - intros i v Hi. destruct (proj2 (lo_argv _ _ _ _ _ _ _ _ _ HL) i v Hi) as (off & Ho & H0 & rest & Hr).
    assert (Hd : drop (Z.to_nat off) (strings_bytes argv ++ strings_bytes envp) = v ++ 0 :: rest ++ strings_bytes envp).
    { rewrite drop_app_le; [by rewrite Hr, <- app_assoc|]. pose proof (f_equal length Hr) as Hl. rewrite length_drop, length_app in Hl. simpl in Hl. lia. }
    assert (Hv : c_text v) by (rewrite Forall_lookup in Hargv; by eapply Hargv).
    destruct (string_at off v _ H0 Hv Hd) as (Hu & Hn & Hc). exists (base + off). split; [|split; [done|by apply Hc]].
    unfold entry. replace (stack_pointer s + 8 + 8 * Z.of_nat i) with (stack_pointer s + 8 * Z.of_nat (S i)) by lia.
    apply read_frame; [|done]. rewrite words_argv by (by eapply lookup_lt_Some). by rewrite list_lookup_fmap, Ho.
  - unfold entry. replace (stack_pointer s + 8 + 8 * Z.of_nat (length argv)) with (stack_pointer s + 8 * Z.of_nat (S (length argv))) by lia.
    apply read_frame; [apply words_argv_end|done].
Qed.

Definition envp_base : Z := stack_pointer s + 8 + 8 * (Z.of_nat (length argv) + 1).

Lemma envp_read fuel : (length (bytes s) < fuel)%nat -> strings_of fuel (memory_of s) envp_base envp.
Proof.
  intros Hf. unfold envp_base. split.
  - intros i v Hi. destruct (proj2 (lo_envp _ _ _ _ _ _ _ _ _ HL) i v Hi) as (off & Ho & H0 & rest & Hd).
    assert (Hv : c_text v) by (rewrite Forall_lookup in Henvp; by eapply Henvp).
    destruct (string_at off v _ H0 Hv Hd) as (Hu & Hn & Hc). exists (base + off). split; [|split; [done|by apply Hc]].
    unfold entry. replace (stack_pointer s + 8 + 8 * (Z.of_nat (length argv) + 1) + 8 * Z.of_nat i)
      with (stack_pointer s + 8 * Z.of_nat (2 + length argv + i)) by lia.
    apply read_frame; [|done]. rewrite words_envp by (by eapply lookup_lt_Some). by rewrite list_lookup_fmap, Ho.
  - unfold entry. replace (stack_pointer s + 8 + 8 * (Z.of_nat (length argv) + 1) + 8 * Z.of_nat (length envp))
      with (stack_pointer s + 8 * Z.of_nat (2 + length argv + length envp)) by lia.
    apply read_frame; [apply words_envp_end|done].
Qed.

Lemma count_entries_spec m array l fuel0 : strings_of fuel0 m array l ->
  forall n fuel, (n <= length l)%nat -> (length l - n < fuel)%nat -> count_entries fuel m array (Z.of_nat n) = Some (Z.of_nat (length l)).
Proof.
  intros [Hs He] n fuel. revert n. induction fuel as [|fuel IH]; intros n Hn Hf; [lia|]. cbn [count_entries].
  destruct (decide (n = length l)) as [->|Hne]; [by rewrite He|].
  destruct (lookup_lt_is_Some_2 l n ltac:(lia)) as [v Hv]. destruct (Hs n v Hv) as (p & -> & Hp & _).
  destruct (Z.eqb_spec p 0); [done|]. replace (Z.of_nat n + 1) with (Z.of_nat (S n)) by lia. apply IH; lia.
Qed.

Lemma words_fit : (8 * length words <= length (bytes s))%nat.
Proof. destruct (lo_pad _ _ _ _ _ _ _ _ _ HL) as [pad Hb]. fold words in Hb. rewrite Hb, length_app, length_words_bytes. lia. Qed.

Lemma length_words : length words = (7 + length argv + length envp + 2 * length auxv)%nat.
Proof.
  unfold words. rewrite length_frame_words, !length_map, (proj1 (lo_argv _ _ _ _ _ _ _ _ _ HL)), (proj1 (lo_envp _ _ _ _ _ _ _ _ _ HL)), length_app.
  simpl. lia.
Qed.

Lemma start_read fuel : (length (bytes s) < fuel)%nat ->
  from_stack fuel (memory_of s) (stack_pointer s) =
  Some (mkStart (Z.of_nat (length argv)) (stack_pointer s + 8) envp_base (envp_base + 8 * (Z.of_nat (length envp) + 1))).
Proof.
  intros Hf. pose proof words_fit as Hfit. rewrite length_words in Hfit. unfold from_stack.
  pose proof (lo_top _ _ _ _ _ _ _ _ _ HL) as Ht. pose proof (lo_sp _ _ _ _ _ _ _ _ _ HL) as [Hsp _]. unfold len in Ht.
  pose proof (read_frame 0 (Z.of_nat (length argv))) as Hr. rewrite Z.add_0_r in Hr. rewrite Hr.
  - fold envp_base. change 0 with (Z.of_nat 0) at 1. by rewrite (count_entries_spec _ _ _ _ (envp_read fuel Hf) 0 fuel) by lia.
  - unfold words, frame_words. change ((?x :: ?l) !! 0%nat) with (Some x). by rewrite length_map, (proj1 (lo_argv _ _ _ _ _ _ _ _ _ HL)).
  - unfold is_u64. lia.
Qed.

(** The first entry of a kind. *)
Fixpoint assoc (kind : Z) (l : list (Z * Z)) : option Z :=
  match l with [] => None | (k, v) :: l => if k =? kind then Some v else assoc kind l end.

Lemma aux_loop_spec m kind l : forall a fuel, (length l < fuel)%nat -> Forall (fun e => e.1 <> AT_NULL) l ->
  (forall j e, l !! j = Some e -> read_word m (a + 16 * Z.of_nat j) = Some e.1 /\ read_word m (a + 16 * Z.of_nat j + 8) = Some e.2) ->
  read_word m (a + 16 * Z.of_nat (length l)) = Some AT_NULL -> is_Some (read_word m (a + 16 * Z.of_nat (length l) + 8)) ->
  aux_loop fuel m a kind = Some (assoc kind l).
Proof.
  induction l as [|[k v] l IH]; intros a fuel Hf Hn Hr He [x Hx]; (destruct fuel as [|fuel]; [simpl in Hf; lia|]); cbn [aux_loop].
  - rewrite Z.add_0_r in He, Hx. by rewrite He, Hx.
  - apply Forall_cons in Hn as [Hk Hn]. destruct (Hr 0%nat (k, v) eq_refl) as [H1 H2]. rewrite Z.add_0_r in H1, H2. rewrite H1, H2.
    cbn [fst snd] in *. destruct (Z.eqb_spec k AT_NULL); [done|]. cbn [assoc]. destruct (Z.eqb_spec k kind); [done|].
    apply IH; [simpl in Hf; lia|done| | |].
    + intros j e Hj. specialize (Hr (S j) e Hj). replace (a + 16 + 16 * Z.of_nat j) with (a + 16 * Z.of_nat (S j)) by lia. done.
    + rewrite <- He. f_equal. simpl. lia.
    + exists x. rewrite <- Hx. f_equal. simpl. lia.
Qed.

Lemma pairs_lookup (l : list (Z * Z)) j e : l !! j = Some e ->
  flat_map (fun e => [fst e; snd e]) l !! (2 * j)%nat = Some e.1 /\ flat_map (fun e => [fst e; snd e]) l !! (2 * j + 1)%nat = Some e.2.
Proof.
  revert j. induction l as [|x l IH]; intros [|j] Hj; [done..| |].
  - injection Hj as ->. done.
  - destruct (IH j Hj) as [H1 H2]. cbn [flat_map app]. replace (2 * S j)%nat with (S (S (2 * j))) by lia. done.
Qed.

Definition random_address : Z := base + len (strings_bytes argv ++ strings_bytes envp).
Definition given_aux : list (Z * Z) := auxv ++ [(AT_RANDOM, random_address)].

Lemma random_u64 : is_u64 random_address.
Proof.
  pose proof (lo_top _ _ _ _ _ _ _ _ _ HL) as Ht. pose proof (lo_base _ _ _ _ _ _ _ _ _ HL) as Hb. pose proof (lo_lower _ _ _ _ _ _ _ _ _ HL).
  rewrite app_assoc, len_app in Hb. pose proof (len_nonneg random). pose proof (len_nonneg (strings_bytes argv ++ strings_bytes envp)).
  unfold is_u64, random_address. lia.
Qed.

Lemma aux_word j e : (given_aux ++ [(AT_NULL, 0)]) !! j = Some e -> is_u64 e.1 -> is_u64 e.2 ->
  let a := envp_base + 8 * (Z.of_nat (length envp) + 1) + 16 * Z.of_nat j in
  read_word (memory_of s) a = Some e.1 /\ read_word (memory_of s) (a + 8) = Some e.2.
Proof.
  intros Hj H1 H2. unfold given_aux in Hj. rewrite <- app_assoc in Hj. apply pairs_lookup in Hj as [Ha Hb]. cbn zeta. unfold envp_base. split.
  - replace (stack_pointer s + 8 + 8 * (Z.of_nat (length argv) + 1) + 8 * (Z.of_nat (length envp) + 1) + 16 * Z.of_nat j)
      with (stack_pointer s + 8 * Z.of_nat (3 + length argv + length envp + 2 * j)) by lia.
    apply read_frame; [|done]. by rewrite words_aux.
  - replace (stack_pointer s + 8 + 8 * (Z.of_nat (length argv) + 1) + 8 * (Z.of_nat (length envp) + 1) + 16 * Z.of_nat j + 8)
      with (stack_pointer s + 8 * Z.of_nat (3 + length argv + length envp + (2 * j + 1))) by lia.
    apply read_frame; [|done]. by rewrite words_aux.
Qed.

Lemma given_aux_ok : Forall (fun e => is_u64 e.1 /\ is_u64 e.2 /\ e.1 <> AT_NULL) given_aux.
Proof. apply Forall_app. split; [done|]. constructor; [|constructor]. split; [done|]. split; [apply random_u64|done]. Qed.

Lemma aux_read fuel kind : (length (bytes s) < fuel)%nat ->
  aux_loop fuel (memory_of s) (envp_base + 8 * (Z.of_nat (length envp) + 1)) kind = Some (assoc kind given_aux).
Proof.
  intros Hf. pose proof words_fit as Hfit. rewrite length_words in Hfit. pose proof given_aux_ok as Hg. rewrite Forall_lookup in Hg.
  assert (He : (given_aux ++ [(AT_NULL, 0)]) !! length given_aux = Some (AT_NULL, 0)) by (by rewrite lookup_app_r, Nat.sub_diag).
  destruct (aux_word _ _ He u64_zero u64_zero) as [E1 E2].
  apply aux_loop_spec; [unfold given_aux; rewrite length_app; simpl; lia| | |done|by eexists].
  - rewrite Forall_lookup. intros i e Hi. by apply (Hg i e Hi).
  - intros j e Hj. destruct (Hg j e Hj) as (H1 & H2 & _). apply aux_word; [|done|done]. by apply lookup_app_l_Some.
Qed.

Lemma random_read : read_bytes (memory_of s) random_address (length random) = Some random.
Proof.
  pose proof (lo_base _ _ _ _ _ _ _ _ _ HL) as Hb. pose proof (lo_lower _ _ _ _ _ _ _ _ _ HL).
  rewrite app_assoc, len_app in Hb. unfold random_address. set (n := len (strings_bytes argv ++ strings_bytes envp)) in *.
  pose proof (len_nonneg (strings_bytes argv ++ strings_bytes envp)) as Hn. fold n in Hn.
  replace (base + n) with (stack_pointer s + (base - stack_pointer s + n)) by lia. rewrite read_bytes_spec by (unfold len in *; lia).
  rewrite drop_strings, app_assoc by done. unfold n, len. rewrite Nat2Z.id, drop_app_length. by rewrite take_ge.
Qed.
End Reads.

(** What the frame takes: each string with its zero, the random bytes and the
    words below them, rounded so that the stack pointer is a multiple of 16. *)
Definition frame_size (argv envp : list (list Z)) (auxv : list (Z * Z)) (random : list Z) : Z :=
  foldr (fun v n => len v + 1 + n) 0 (argv ++ envp) + len random +
  8 * (1 + Z.of_nat (length argv) + 1 + Z.of_nat (length envp) + 1 + 2 * (Z.of_nat (length auxv) + 2)).
Definition frame_bottom (top size : Z) : Z := (top - size) / 16 * 16.
Definition frame_fits (top limit size : Z) : Prop := size <= top /\ top - frame_bottom top size <= limit.

Lemma len_strings_bytes l : len (strings_bytes l) = foldr (fun v n => len v + 1 + n) 0 l.
Proof.
  induction l as [|v l IH]; [done|]. change (strings_bytes (v :: l)) with ((v ++ [0]) ++ strings_bytes l). rewrite !len_app, IH. done.
Qed.
Lemma len_strings_app a b : foldr (fun v n => len v + 1 + n) 0 (a ++ b) = len (strings_bytes a) + len (strings_bytes b).
Proof. rewrite <- len_strings_bytes. unfold strings_bytes. by rewrite flat_map_app, len_app. Qed.

(** [build] accepts exactly the frames that fit, and refuses with [E2BIG]. *)
Lemma build_fits top argv envp auxv random limit :
  match build top argv envp auxv random limit with
  | Ok s => frame_fits top limit (frame_size argv envp auxv random) /\ stack_pointer s = frame_bottom top (frame_size argv envp auxv random)
  | Err e => e = E2BIG /\ ~ frame_fits top limit (frame_size argv envp auxv random)
  end.
Proof.
  unfold build. destruct (offsets argv []) as [ao st1] eqn:Ha. destruct (offsets envp st1) as [eo st2] eqn:He.
  apply offsets_spec in Ha as (-> & Hla & _). apply offsets_spec in He as (-> & Hle & _). cbn [app].
  cbv zeta. unfold frame_fits, frame_bottom, frame_size. rewrite len_strings_app. rewrite <- app_assoc, !len_app.
  set (n := len (strings_bytes argv) + (len (strings_bytes envp) + len random)).
  replace (len (strings_bytes argv) + len (strings_bytes envp) + len random) with n by (unfold n; lia).
  set (words := 8 * (1 + Z.of_nat (length argv) + 1 + Z.of_nat (length envp) + 1 + 2 * (Z.of_nat (length auxv) + 2))).
  assert (Hw : 0 <= words) by (unfold words; lia).
  unfold checked_sub. case_if; [|cbn [ok_or]; split; [done|lia]]. cbn [ok_or]. rewrite length_app. cbn [length].
  replace ((1 + Z.of_nat (length argv) + 1 + Z.of_nat (length envp) + 1 + Z.of_nat (length auxv + 2) * 2) * 8) with words by (unfold words; lia).
  case_if; [|cbn [ok_or]; split; [done|lia]]. cbn [ok_or].
  set (below := top - n - words). replace (top - (n + words)) with below by (unfold below; lia).
  assert (Hsp : Z.land below (Z.lnot 15) = below / 16 * 16).
  { assert (E : Z.land below (Z.lnot 15) = below - below mod 16) by (change 15 with (2 ^ 4 - 1); by apply land_mask).
    rewrite E. pose proof (Z.div_mod below 16 ltac:(lia)). lia. }
  rewrite Hsp. case_if; [split; [done|lia]|]. cbn [stack_pointer]. split; [split; lia|done].
Qed.

(** C24. The program starts with what it was given. [build] accepts exactly the
    frames that fit above address 0 and within the limit, and refuses the others
    with [E2BIG].  When it accepts, the stack is 16-byte aligned, ends at the top
    and is within the limit, and the user library's walk of it ends and finds
    exactly the arguments, the environment, the auxiliary entries and the random
    bytes. *)
Theorem stack_roundtrip top args env auxv random limit :
  0 <= top <= U64_MAX -> Forall c_text args -> Forall c_text env ->
  Forall (fun e => is_u64 e.1 /\ is_u64 e.2 /\ e.1 <> AT_NULL) auxv ->
  match build top args env auxv random limit with
  | Err e => e = E2BIG /\ ~ frame_fits top limit (frame_size args env auxv random)
  | Ok s => frame_fits top limit (frame_size args env auxv random)
      /\ (16 | stack_pointer s) /\ stack_pointer s + len (bytes s) = top /\ len (bytes s) <= limit
      /\ exists info r, forall fuel, (length (bytes s) < fuel)%nat -> let m := memory_of s in
           from_stack fuel m (stack_pointer s) = Some info /\ argc info = Z.of_nat (length args)
           /\ strings_of fuel m (argv info) args /\ strings_of fuel m (envp info) env
           /\ (forall kind, aux fuel m info kind = Some (assoc kind (auxv ++ [(AT_RANDOM, r)])))
           /\ read_bytes m r (length random) = Some random
  end.
Proof.
  intros [Ht0 Htop] Hargs Henv Haux. pose proof (build_fits top args env auxv random limit) as Hf0. destruct (build top args env auxv random limit) as [s|e] eqn:Hb; [|done].
  destruct Hf0 as [Hfit _]. split; [done|]. destruct (build_laid_out _ _ _ _ _ _ _ Ht0 Hb) as (Hlim & base & ao & eo & HL).
  pose proof (lo_top _ _ _ _ _ _ _ _ _ HL) as Ht. split; [apply (lo_sp _ _ _ _ _ _ _ _ _ HL)|]. split; [done|]. split; [lia|].
  do 2 eexists. intros fuel Hf. cbn zeta. split; [by eapply start_read|]. cbn [argc argv envp]. split; [done|].
  split; [by eapply argv_read|]. split; [by eapply envp_read|]. split; [intros kind; by eapply aux_read|by eapply random_read].
Qed.

Definition demo_args : list (list Z) := [[47; 98]; [45; 99]; []].
Definition demo_env : list (list Z) := [[65; 61; 49]].
Definition demo_stack : result Errno InitialStack := build 0x7ffffffff000 demo_args demo_env [(AT_PAGESZ, 4096)] (replicate 16 7) 32768.
Definition demo_built : InitialStack := match demo_stack with Ok s => s | Err _ => mkStack [] 0 end.

Lemma stack_roundtrip_witness : exists info, from_stack 200 (memory_of demo_built) (stack_pointer demo_built) = Some info
  /\ argc info = 3 /\ aux 200 (memory_of demo_built) info AT_PAGESZ = Some (Some 4096).
Proof.
  assert (demo_stack = Ok demo_built) as E by (vm_compute; reflexivity).
  epose proof (stack_roundtrip 0x7ffffffff000 demo_args demo_env [(AT_PAGESZ, 4096)] (replicate 16 7) 32768 _ _ _ _) as H0.
  change (build _ _ _ _ _ _) with demo_stack in H0. rewrite E in H0. destruct H0 as (_ & _ & _ & _ & info & r & H).
  exists info. destruct (H 200%nat) as (H1 & H2 & _ & _ & H3 & _); [vm_compute; repeat constructor|].
  split; [exact H1|]. split; [exact H2|]. rewrite H3. reflexivity.
  Unshelve.
  - vm_compute. split; intros [=].
  - repeat constructor; vm_compute; intros [=].
  - repeat constructor; vm_compute; intros [=].
  - repeat constructor; vm_compute; intros [=].
Defined.
End Stack.
