(* ===== verification/Process.v ===== *)
(** * Process: the process table

    [kernel/src/process.rs]: process records with their parents, children,
    threads and exit status, and the operations of the life cycle as the
    scheduler composes them ([kernel/src/scheduler/lifecycle.rs] and the reaper
    of [kernel/src/scheduler/mod.rs]): spawn, exit, reap and wait. *)

From stdpp Require Import base gmap numbers list.
From S2P Require Import Prelude.
Local Open Scope Z_scope.

Module Process.
Definition INIT_PID : Z := 1.

Inductive ProcessError : Type := UnknownProcess | DuplicateThread | AlreadyExited | NotExited | DuplicateWaiter | UnknownWaiter.

(** [files] stands for the shared descriptor table. *)
Record ProcessControlBlock : Type := mkProcess {
  id : Z;
  parent : option Z;
  address_space : option Z;
  children : list Z;
  exit_status : option Z;
  threads : list Z;
  child_waiters : list Z;
  references : Z;
  files : Z;
  cwd : list Z
}.

Definition new_process (id : Z) (parent address_space : option Z) (thread files : Z) : ProcessControlBlock :=
  mkProcess id parent address_space [] None [thread] [] 0 files [47].

Record ProcessTable : Type := mkTable { processes : list ProcessControlBlock; next_id : Z; released_spaces : list Z }.

Definition new_table : ProcessTable := mkTable [] 2 [].

Definition with_processes (t : ProcessTable) (l : list ProcessControlBlock) : ProcessTable := mkTable l (next_id t) (released_spaces t).

Definition set_parent (p : option Z) (r : ProcessControlBlock) : ProcessControlBlock :=
  mkProcess (id r) p (address_space r) (children r) (exit_status r) (threads r) (child_waiters r) (references r) (files r) (cwd r).
Definition set_children (l : list Z) (r : ProcessControlBlock) : ProcessControlBlock :=
  mkProcess (id r) (parent r) (address_space r) l (exit_status r) (threads r) (child_waiters r) (references r) (files r) (cwd r).
Definition set_space (s : option Z) (r : ProcessControlBlock) : ProcessControlBlock :=
  mkProcess (id r) (parent r) s (children r) (exit_status r) (threads r) (child_waiters r) (references r) (files r) (cwd r).
Definition set_exit (s : option Z) (r : ProcessControlBlock) : ProcessControlBlock :=
  mkProcess (id r) (parent r) (address_space r) (children r) s (threads r) (child_waiters r) (references r) (files r) (cwd r).
Definition set_threads (l : list Z) (r : ProcessControlBlock) : ProcessControlBlock :=
  mkProcess (id r) (parent r) (address_space r) (children r) (exit_status r) l (child_waiters r) (references r) (files r) (cwd r).
Definition set_waiters (l : list Z) (r : ProcessControlBlock) : ProcessControlBlock :=
  mkProcess (id r) (parent r) (address_space r) (children r) (exit_status r) (threads r) l (references r) (files r) (cwd r).
Definition set_references (n : Z) (r : ProcessControlBlock) : ProcessControlBlock :=
  mkProcess (id r) (parent r) (address_space r) (children r) (exit_status r) (threads r) (child_waiters r) n (files r) (cwd r).

(** The first record with this id, and a change to it. *)
Definition process (t : ProcessTable) (pid : Z) : option ProcessControlBlock := List.find (fun r => id r =? pid) (processes t).
Fixpoint modify_first (f : ProcessControlBlock -> ProcessControlBlock) (pid : Z) (l : list ProcessControlBlock) : list ProcessControlBlock :=
  match l with
  | [] => []
  | r :: l => if id r =? pid then f r :: l else r :: modify_first f pid l
  end.
Definition modify (t : ProcessTable) (pid : Z) (f : ProcessControlBlock -> ProcessControlBlock) : ProcessTable :=
  with_processes t (modify_first f pid (processes t)).

Definition create (t : ProcessTable) (space : option Z) (thread files : Z) : Z * ProcessTable :=
  let pid := next_id t in
  (pid, mkTable (processes t ++ [new_process pid None space thread files]) (saturating_add (next_id t) 1) (released_spaces t)).

Definition create_init (t : ProcessTable) (thread files : Z) : result ProcessError Z * ProcessTable :=
  match process t INIT_PID with
  | Some _ => (Err DuplicateThread, t)
  | None => (Ok INIT_PID, with_processes t (processes t ++ [new_process INIT_PID None None thread files]))
  end.

Definition create_child (t : ProcessTable) (par : Z) (space : option Z) (thread files : Z) : result ProcessError Z * ProcessTable :=
  match process t par with
  | None => (Err UnknownProcess, t)
  | Some _ =>
    let '(child, t) := create t space thread files in
    let t := modify t child (set_parent (Some par)) in
    match process t par with
    | None => (Err UnknownProcess, t)
    | Some r => (Ok child, modify t par (set_children (children r ++ [child])))
    end
  end.

Definition add_child (t : ProcessTable) (par child : Z) : result ProcessError unit * ProcessTable :=
  match process t par with
  | None => (Err UnknownProcess, t)
  | Some r => (Ok tt, modify t par (set_children (children r ++ [child])))
  end.

Definition set_address_space (t : ProcessTable) (pid : Z) (space : option Z) : result ProcessError unit * ProcessTable :=
  match process t pid with None => (Err UnknownProcess, t) | Some _ => (Ok tt, modify t pid (set_space space)) end.

Definition add_thread (t : ProcessTable) (pid thread : Z) : result ProcessError unit * ProcessTable :=
  match process t pid with
  | None => (Err UnknownProcess, t)
  | Some r => if bool_decide (thread ∈ threads r) then (Err DuplicateThread, t)
              else (Ok tt, modify t pid (set_threads (threads r ++ [thread])))
  end.

Definition exit (t : ProcessTable) (pid status : Z) : result ProcessError unit * ProcessTable :=
  match process t pid with
  | None => (Err UnknownProcess, t)
  | Some r => match exit_status r with
              | Some _ => (Err AlreadyExited, t)
              | None => (Ok tt, modify t pid (set_exit (Some status)))
              end
  end.

Fixpoint index_of {A} (f : A -> bool) (l : list A) : option nat :=
  match l with [] => None | x :: l => if f x then Some O else option_map S (index_of f l) end.

Definition remove_thread (t : ProcessTable) (pid thread : Z) : result ProcessError bool * ProcessTable :=
  match process t pid with
  | None => (Err UnknownProcess, t)
  | Some r =>
    match index_of (Z.eqb thread) (threads r) with
    | None => (Err UnknownProcess, t)
    | Some i =>
      let threads := swap_remove (threads r) i in
      (Ok (bool_decide (threads = [])), modify t pid (set_threads threads))
    end
  end.

Definition can_reap (r : ProcessControlBlock) : bool :=
  bool_decide (parent r = None) && bool_decide (threads r = []) && bool_decide (exit_status r <> None)
  && (references r =? 0) && bool_decide (child_waiters r = []).

Definition without (child : Z) (l : list Z) : list Z := filter (fun c => c <> child) l.

Definition reap_if_empty (t : ProcessTable) (pid : Z) : bool * ProcessTable :=
  if negb (match process t pid with Some r => can_reap r | None => false end) then (false, t) else
  match index_of (fun r => id r =? pid) (processes t) with
  | None => (false, t)
  | Some i =>
    let released := match processes t !! i with
                    | Some r => match address_space r with Some s => released_spaces t ++ [s] | None => released_spaces t end
                    | None => released_spaces t
                    end in
    let rest := swap_remove (processes t) i in
    (true, mkTable (map (fun r => set_children (without pid (children r)) r) rest) (next_id t) released)
  end.

Definition wait_child (t : ProcessTable) (par child : Z) : result ProcessError Z * ProcessTable :=
  match process t child with
  | None => (Err UnknownProcess, t)
  | Some r =>
    if bool_decide (parent r <> Some par) || negb (bool_decide (threads r = [])) then (Err UnknownProcess, t) else
    match exit_status r with
    | None => (Err NotExited, t)
    | Some status =>
      match process t par with
      | None => (Err UnknownProcess, t)
      | Some p =>
        let t := modify t par (set_children (without child (children p))) in
        match process t child with
        | None => (Err UnknownProcess, t)
        | Some _ => (Ok status, snd (reap_if_empty (modify t child (set_parent None)) child))
        end
      end
    end
  end.

Definition is_zombie (r : ProcessControlBlock) : bool := bool_decide (exit_status r <> None) && bool_decide (threads r = []).

Definition exited_child (t : ProcessTable) (par : Z) : option Z :=
  match process t par with
  | None => None
  | Some r => List.find (fun child => match process t child with Some c => is_zombie c | None => false end) (children r)
  end.

Definition has_children (t : ProcessTable) (par : Z) : bool :=
  match process t par with Some r => negb (bool_decide (children r = [])) | None => false end.

Definition reparent_children (t : ProcessTable) (pid new_parent : Z) : ProcessTable :=
  if pid =? new_parent then t else
  match process t pid with
  | None => t
  | Some r =>
    let orphans := children r in
    let t := modify t pid (set_children []) in
    let t := fold_left (fun t child => modify t child (set_parent (Some new_parent))) orphans t in
    match process t new_parent with
    | None => t
    | Some p => modify t new_parent (set_children (children p ++ orphans))
    end
  end.

Definition take_released_spaces (t : ProcessTable) : list Z * ProcessTable := (released_spaces t, mkTable (processes t) (next_id t) []).

Definition retain (t : ProcessTable) (pid : Z) : result ProcessError unit * ProcessTable :=
  match process t pid with
  | None => (Err UnknownProcess, t)
  | Some r => (Ok tt, modify t pid (set_references (saturating_add (references r) 1)))
  end.
Definition release (t : ProcessTable) (pid : Z) : result ProcessError unit * ProcessTable :=
  match process t pid with
  | None => (Err UnknownProcess, t)
  | Some r => if references r =? 0 then (Err UnknownProcess, t) else (Ok tt, modify t pid (set_references (references r - 1)))
  end.

Definition add_child_waiter (t : ProcessTable) (child waiter : Z) : result ProcessError unit * ProcessTable :=
  match process t child with
  | None => (Err UnknownProcess, t)
  | Some r => if bool_decide (waiter ∈ child_waiters r) then (Err DuplicateWaiter, t)
              else (Ok tt, modify t child (set_waiters (child_waiters r ++ [waiter])))
  end.
Definition remove_child_waiter (t : ProcessTable) (child waiter : Z) : result ProcessError unit * ProcessTable :=
  match process t child with
  | None => (Err UnknownProcess, t)
  | Some r =>
    match index_of (Z.eqb waiter) (child_waiters r) with
    | None => (Err UnknownWaiter, t)
    | Some i => (Ok tt, modify t child (set_waiters (swap_remove (child_waiters r) i)))
    end
  end.

(** ** The life cycle as the scheduler composes it *)

(** [exit_current]: orphans go to init, then the status is recorded; the tasks
    that wait for it are woken. *)
Definition exit_current (t : ProcessTable) (pid status : Z) : list Z * ProcessTable :=
  let t := reparent_children t pid INIT_PID in
  let t := snd (exit t pid status) in
  (match process t pid with Some r => child_waiters r | None => [] end, t).

(** The reaper, for one task that has left the scheduler. *)
Definition reap_task (t : ProcessTable) (pid thread : Z) : ProcessTable :=
  snd (reap_if_empty (snd (remove_thread t pid thread)) pid).

Definition collect_child_status (t : ProcessTable) (par child : Z) : result ProcessError Z * ProcessTable :=
  match wait_child t par child with
  | (Err e, t) => (Err e, t)
  | (Ok status, t) =>
    let waiters := match process t child with Some r => child_waiters r | None => [] end in
    let t := fold_left (fun t w => snd (remove_child_waiter t child w)) waiters t in
    (Ok status, snd (reap_if_empty t child))
  end.

Inductive WaitError : Type := NoChild.

(** The child [wait_for_child] would collect; [None]: block, or return with
    [no_hang]. *)
Definition ready (t : ProcessTable) (par : Z) (target : option Z) : result WaitError (option Z) :=
  match target with
  | Some child =>
    match process t child with
    | None => Err NoChild
    | Some r => if bool_decide (parent r <> Some par) then Err NoChild
                else Ok (if is_zombie r then Some child else None)
    end
  | None => if negb (has_children t par) then Err NoChild else Ok (exited_child t par)
  end.
End Process.
