(* ===== verification/ProcessSpec.v ===== *)
(** * ProcessSpec: the family tree of the process table

    The table as a partial map from process ids to records, the relation of the
    life-cycle steps the kernel takes, and the invariant every reachable table
    satisfies: ids are distinct and never reused, parent and child links agree,
    only living processes have children, a process nobody will wait for is
    gone, and an address space is owned by one process or waiting to be freed,
    never both. *)

From stdpp Require Import base gmap numbers list.
From S2P Require Import Prelude Process.
Local Open Scope Z_scope.

Module ProcessSpec.
Import Process.

(** ** Looking records up *)

Lemma process_id t p r : process t p = Some r -> id r = p.
Proof. intros H%List.find_some. destruct H as [_ H]. by apply Z.eqb_eq. Qed.

Lemma process_elem t p r : process t p = Some r -> r ∈ processes t.
Proof. intros [H _]%List.find_some. by apply list_elem_of_In. Qed.

Lemma find_none_ids l p : List.find (fun r => id r =? p) l = None <-> p ∉ map id l.
Proof.
  induction l as [|r l IH]; cbn [List.find map].
  { split; [intros _; apply not_elem_of_nil|done]. }
  rewrite not_elem_of_cons. destruct (Z.eqb_spec (id r) p) as [->|]; [split; [done|tauto]|].
  rewrite IH. split; [intros; split; [done|done]|tauto].
Qed.

Lemma process_none t p : process t p = None <-> p ∉ map id (processes t).
Proof. apply find_none_ids. Qed.

(** With distinct ids every record is the one its id finds. *)
Lemma process_of_elem t r : NoDup (map id (processes t)) -> r ∈ processes t -> process t (id r) = Some r.
Proof.
  unfold process. generalize (processes t) as l. induction l as [|x l IH]; cbn [map List.find]; intros Hd Hr.
  { by apply elem_of_nil in Hr. }
  apply NoDup_cons in Hd as [Hx Hd]. apply elem_of_cons in Hr as [->|Hr].
  { by rewrite Z.eqb_refl. }
  destruct (Z.eqb_spec (id x) (id r)) as [E|]; [|by apply IH].
  contradict Hx. rewrite E. by apply (list_elem_of_fmap_2 id).
Qed.

(** A change that keeps the id. *)
Definition id_safe (f : ProcessControlBlock -> ProcessControlBlock) : Prop := forall r, id (f r) = id r.

Lemma process_modify t p f q :
  id_safe f -> process (modify t p f) q = if q =? p then f <$> process t q else process t q.
Proof.
  intros Hf. unfold process, modify, with_processes. cbn [processes].
  generalize (processes t) as l. induction l as [|r l IH]; cbn [modify_first List.find].
  { by case_if. }
  destruct (Z.eqb_spec (id r) p) as [<-|Hp]; cbn [List.find]; rewrite ?Hf.
  - rewrite (Z.eqb_sym q). by destruct (id r =? q).
  - rewrite IH. destruct (Z.eqb_spec (id r) q) as [<-|]; [|done].
    by rewrite (proj2 (Z.eqb_neq _ _) Hp).
Qed.

Lemma ids_modify t p f : id_safe f -> map id (processes (modify t p f)) = map id (processes t).
Proof.
  intros Hf. unfold modify, with_processes. cbn [processes].
  generalize (processes t) as l. induction l as [|r l IH]; cbn [modify_first map]; [done|].
  case_if; cbn [map]; rewrite ?Hf, ?IH; done.
Qed.

Lemma find_app {A} (f : A -> bool) l x :
  List.find f (l ++ [x]) = match List.find f l with Some y => Some y | None => if f x then Some x else None end.
Proof. induction l as [|y l IH]; cbn; [done|]. by destruct (f y). Qed.

Lemma find_map_same (g : ProcessControlBlock -> ProcessControlBlock) l p :
  id_safe g -> List.find (fun r => id r =? p) (map g l) = g <$> List.find (fun r => id r =? p) l.
Proof. intros Hg. induction l as [|r l IH]; cbn; [done|]. rewrite Hg. by destruct (id r =? p). Qed.

(** ** Removing a record *)

Lemma index_of_Some {A} (f : A -> bool) l i : index_of f l = Some i -> exists x, l !! i = Some x /\ f x = true.
Proof.
  revert i. induction l as [|y l IH]; cbn; intros i H; [done|].
  destruct (f y) eqn:E; [injection H as <-; by exists y|].
  destruct (index_of f l) as [j|] eqn:Ej; [|done]. injection H as <-. by apply IH.
Qed.

Lemma index_of_None {A} (f : A -> bool) l : index_of f l = None -> forall x, x ∈ l -> f x = false.
Proof.
  induction l as [|y l IH]; cbn; intros H x Hx; [by apply elem_of_nil in Hx|].
  destruct (f y) eqn:E; [done|]. destruct (index_of f l); [done|].
  apply elem_of_cons in Hx as [->|Hx]; [done|by apply IH].
Qed.

(** Distinct ids make [process] a function of the set of records. *)
Lemma process_perm l l' t p :
  NoDup (map id l) -> l ≡ₚ l' -> process (with_processes t l) p = process (with_processes t l') p.
Proof.
  intros Hd Hl. assert (Hd' : NoDup (map id l')) by (by rewrite <- Hl).
  destruct (process (with_processes t l) p) as [r|] eqn:E; symmetry.
  - pose proof (process_id _ _ _ E) as <-. apply process_of_elem; [done|].
    apply process_elem in E. cbn in E |- *. by rewrite <- Hl.
  - apply process_none in E. apply process_none. cbn in E |- *. by rewrite <- Hl.
Qed.

Definition drop_child (p : Z) (r : ProcessControlBlock) : ProcessControlBlock := set_children (without p (children r)) r.

Lemma reap_if_empty_spec t p r :
  NoDup (map id (processes t)) -> process t p = Some r -> can_reap r = true ->
  exists rest, r :: rest ≡ₚ processes t /\
    reap_if_empty t p =
      (true, mkTable (map (drop_child p) rest) (next_id t) (released_spaces t ++ option_list (address_space r))).
Proof.
  intros Hd Hp Hr. unfold reap_if_empty. rewrite Hp, Hr. cbn [negb].
  destruct (index_of (fun r => id r =? p) (processes t)) as [i|] eqn:Ei.
  - apply index_of_Some in Ei as (x & Hx & Eid). apply Z.eqb_eq in Eid. rewrite Hx.
    assert (x = r) as ->.
    { pose proof (process_of_elem t x Hd (list_elem_of_lookup_2 _ _ _ Hx)) as E. rewrite Eid in E. congruence. }
    exists (swap_remove (processes t) i). split; [by apply swap_remove_split|].
    destruct (address_space r); cbn [option_list]; rewrite ?app_nil_r; done.
  - pose proof (index_of_None _ _ Ei r (process_elem _ _ _ Hp)) as E. cbn in E.
    rewrite (process_id _ _ _ Hp) in E. lia.
Qed.

Lemma reap_if_empty_idle t p :
  (forall r, process t p = Some r -> can_reap r = false) -> reap_if_empty t p = (false, t).
Proof. intros H. unfold reap_if_empty. destruct (process t p); [by rewrite H|done]. Qed.

Lemma process_reaped t p r rest sp q :
  NoDup (map id (processes t)) -> process t p = Some r -> r :: rest ≡ₚ processes t ->
  process (mkTable (map (drop_child p) rest) (next_id t) sp) q = if q =? p then None else drop_child p <$> process t q.
Proof.
  intros Hd Hp Hl. pose proof (process_id _ _ _ Hp) as Hid.
  unfold process at 1. cbn [processes]. rewrite find_map_same; [|done].
  assert (E : process t q = if id r =? q then Some r else List.find (fun x => id x =? q) rest).
  { transitivity (process (with_processes t (r :: rest)) q); [|done].
    replace t with (with_processes t (processes t)) at 1 by (by destruct t). apply process_perm; done. }
  rewrite Hid in E. rewrite (Z.eqb_sym q p). destruct (Z.eqb_spec p q) as [<-|]; [|by rewrite E].
  rewrite (proj2 (find_none_ids rest p)); [done|].
  rewrite <- Hl in Hd. cbn [map] in Hd. apply NoDup_cons in Hd as [Hd _]. by rewrite Hid in Hd.
Qed.

(** ** Address spaces *)

Definition owned (t : ProcessTable) : list Z := omap address_space (processes t).
Definition spaces (t : ProcessTable) : list Z := owned t ++ released_spaces t.

Lemma omap_cons_split (r : ProcessControlBlock) l : omap address_space (r :: l) = option_list (address_space r) ++ omap address_space l.
Proof. cbn. by destruct (address_space r). Qed.

Lemma owned_modify t p f : (forall r, address_space (f r) = address_space r) -> owned (modify t p f) = owned t.
Proof.
  intros Hf. unfold owned, modify, with_processes. cbn [processes].
  induction (processes t) as [|r l IH]; cbn [modify_first]; [done|]. case_if; rewrite !omap_cons_split, ?Hf, ?IH; done.
Qed.

Lemma owned_take t r rest : r :: rest ≡ₚ processes t -> option_list (address_space r) ++ omap address_space rest ≡ₚ owned t.
Proof. intros H. unfold owned. rewrite <- H. by rewrite omap_cons_split. Qed.

Lemma owned_set_space t p r s :
  process t p = Some r ->
  exists rest, owned t ≡ₚ option_list (address_space r) ++ rest /\ owned (modify t p (set_space s)) ≡ₚ option_list s ++ rest.
Proof.
  unfold process, owned, modify, with_processes. cbn [processes].
  induction (processes t) as [|x l IH]; cbn [List.find modify_first]; intros H; [done|].
  destruct (id x =? p).
  - injection H as ->. exists (omap address_space l). by rewrite !omap_cons_split.
  - destruct (IH H) as (rest & H1 & H2). exists (option_list (address_space x) ++ rest).
    rewrite !omap_cons_split, H1, H2. split; solve_Permutation.
Qed.

(** ** The steps of the life cycle *)

Definition unused (t : ProcessTable) (s : Z) : Prop := s ∉ spaces t.

(** Spawning while ids are left; fork and exec hand over a space no process
    has; a process other than init exits; the reaper retires threads of exited
    processes only; anyone may wait for anyone. *)
Inductive step (t : ProcessTable) : ProcessTable -> Prop :=
| step_init thread files : step t (snd (create_init t thread files))
| step_kernel thread files : next_id t < U64_MAX -> step t (snd (create t None thread files))
| step_spawn s thread files : next_id t < U64_MAX -> unused t s -> step t (snd (create t (Some s) thread files))
| step_fork par r s thread files :
    next_id t < U64_MAX -> unused t s -> process t par = Some r -> exit_status r = None -> process t INIT_PID <> None ->
    step t (snd (create_child t par (Some s) thread files))
| step_exec p s : unused t s -> step t (snd (set_address_space t p (Some s)))
| step_exit p status : p <> INIT_PID -> step t (snd (exit_current t p status))
| step_reap p thread : (forall r, process t p = Some r -> exit_status r <> None) -> step t (reap_task t p thread)
| step_wait par child : step t (snd (collect_child_status t par child))
| step_free : step t (snd (take_released_spaces t)).

Inductive reachable : ProcessTable -> Prop :=
| reach_new : reachable new_table
| reach_step t t' : reachable t -> step t t' -> reachable t'.

(** ** The invariant *)

(** The family tree of a partial map of records, with ids below [n]. *)
Record family (n : Z) (P : Z -> option ProcessControlBlock) : Prop := mk_family {
  fam_ids : forall p r, P p = Some r -> 1 <= p < n;
  fam_parent : forall c r p, P c = Some r -> parent r = Some p ->
    exists q, P p = Some q /\ exit_status q = None /\ c ∈ children q;
  fam_older : forall c r p, P c = Some r -> parent r = Some p -> p < c;
  fam_children : forall p r c, P p = Some r -> c ∈ children r -> exists q, P c = Some q /\ parent q = Some p;
  fam_nodup : forall p r, P p = Some r -> NoDup (children r);
  fam_rooted : forall c r, P c = Some r -> parent r <> None -> P INIT_PID <> None;
  fam_init : forall r, P INIT_PID = Some r -> exit_status r = None;
  fam_running : forall p r, P p = Some r -> exit_status r = None -> threads r <> [];
  fam_zombie : forall p r, P p = Some r -> exit_status r <> None -> threads r = [] -> parent r <> None;
  fam_unheld : forall p r, P p = Some r -> references r = 0 /\ child_waiters r = []
}.

Record table_ok (t : ProcessTable) : Prop := mk_table_ok {
  ok_nodup : NoDup (map id (processes t));
  ok_next : 2 <= next_id t <= U64_MAX;
  ok_family : family (next_id t) (process t);
  ok_spaces : NoDup (spaces t)
}.

(** The invariant sees a table only through its lookups. *)
#[global] Instance family_proper : Proper (eq ==> pointwise_relation Z eq ==> iff) family.
Proof.
  assert (E : forall n P Q, pointwise_relation Z eq P Q -> family n P -> family n Q).
  { intros n P Q H [? ? ? ? ? ? ? ? ? ?]. red in H. split; setoid_rewrite <- H; assumption. }
  intros n _ <- P Q H. split; apply E; [done|]. intros q. by rewrite H.
Qed.

Definition upd (P : Z -> option ProcessControlBlock) (p : Z) (v : option ProcessControlBlock) : Z -> option ProcessControlBlock :=
  fun q => if q =? p then v else P q.

Lemma upd_eq P p v : upd P p v p = v.
Proof. unfold upd. by rewrite Z.eqb_refl. Qed.
Lemma upd_ne P p v q : q <> p -> upd P p v q = P q.
Proof. unfold upd. intros H. by rewrite (proj2 (Z.eqb_neq _ _) H). Qed.

Lemma exited_childless n P p r : family n P -> P p = Some r -> exit_status r <> None -> children r = [].
Proof.
  intros F Hp Hx. destruct (children r) as [|c l] eqn:E; [done|].
  destruct (fam_children _ _ F p r c Hp) as (q & Hc & Hpar); [rewrite E; apply list_elem_of_here|].
  destruct (fam_parent _ _ F _ _ _ Hc Hpar) as (r' & Hr' & H & _). congruence.
Qed.

(** ** Steps on the tree *)

(** Lookups after an update, and the facts of the tree about them. *)
Ltac look :=
  repeat match goal with
  | H : upd ?P ?p ?v ?q = _ |- _ => change (upd P p v q) with (if q =? p then v else P q) in H; destruct (Z.eqb_spec q p); subst
  | H : Some _ = Some _ |- _ => injection H as H; subst
  | H : None = Some _ |- _ => discriminate H
  end.

Lemma family_add n n' P k r :
  family n P -> n <= n' -> 1 <= k < n' -> P k = None -> parent r = None -> children r = [] -> exit_status r = None ->
  threads r <> [] -> references r = 0 -> child_waiters r = [] -> family n' (upd P k (Some r)).
Proof.
  intros F Hn Hk HP Hp Hc Hx Ht Hr Hw.
  assert (Hold : forall q x, P q = Some x -> upd P k (Some r) q = Some x).
  { intros q x Hq. rewrite upd_ne; [done|]. intros ->. congruence. }
  split; intros.
  - look; [lia|]. pose proof (fam_ids _ _ F _ _ H). lia.
  - look; [congruence|]. destruct (fam_parent _ _ F _ _ _ H H0) as (q & ? & ? & ?). exists q. auto.
  - look; [congruence|]. eauto using fam_older.
  - look; [rewrite Hc in H0; by apply elem_of_nil in H0|].
    destruct (fam_children _ _ F _ _ _ H H0) as (q & ? & ?). exists q. auto.
  - look; [rewrite Hc; apply NoDup_nil_2|eauto using fam_nodup].
  - look; [congruence|]. pose proof (fam_rooted _ _ F _ _ H H0).
    destruct (P INIT_PID) eqn:E; [|done]. by rewrite (Hold _ _ E).
  - look; eauto using fam_init.
  - look; eauto using fam_running.
  - look; [congruence|eauto using fam_zombie].
  - look; [done|eauto using fam_unheld].
Qed.

(** A running root process becomes the child of a living, older one. *)
Lemma family_adopt n P c p rc rp :
  family n P -> P c = Some rc -> parent rc = None -> exit_status rc = None -> P p = Some rp -> exit_status rp = None ->
  p < c -> P INIT_PID <> None ->
  family n (upd (upd P c (Some (set_parent (Some p) rc))) p (Some (set_children (children rp ++ [c]) rp))).
Proof.
  intros F Hc Hcp Hcx Hp Hpx Hlt Hi.
  assert (Hnc : c ∉ children rp).
  { intros Hin. destruct (fam_children _ _ F _ _ _ Hp Hin) as (q & ? & ?). congruence. }
  assert (Hold : forall q x, P q = Some x -> exists y,
    upd (upd P c (Some (set_parent (Some p) rc))) p (Some (set_children (children rp ++ [c]) rp)) q = Some y /\
    exit_status y = exit_status x /\ (forall d, d ∈ children x -> d ∈ children y) /\
    (parent y = parent x \/ q = c /\ parent y = Some p)).
  { intros q x Hq. unfold upd. destruct (Z.eqb_spec q p) as [->|]; [|destruct (Z.eqb_spec q c) as [->|]].
    - exists (set_children (children rp ++ [c]) rp). rewrite Hp in Hq. injection Hq as <-. cbn.
      repeat split; [|by left]. intros d Hd. apply elem_of_app. by left.
    - exists (set_parent (Some p) rc). rewrite Hc in Hq. injection Hq as <-. cbn. repeat split; auto.
    - exists x. auto. }
  split; intros.
  - look; eauto using fam_ids.
  - assert (Hcase : p0 = p /\ c0 = c \/ exists x, P c0 = Some x /\ parent x = Some p0).
    { look; cbn in *; [right; eauto|left; split; congruence|right; eauto]. }
    destruct Hcase as [[-> ->]|(x & Hx1 & Hx2)].
    + exists (set_children (children rp ++ [c]) rp). rewrite upd_eq. cbn. repeat split; [done|].
      apply elem_of_app. right. apply list_elem_of_here.
    + destruct (fam_parent _ _ F _ _ _ Hx1 Hx2) as (q & Hq & Hqx & Hin).
      destruct (Hold _ _ Hq) as (y & ? & ? & Hy & _). exists y. repeat split; [done|congruence|auto].
  - look; cbn in *; [eauto using fam_older|congruence|eauto using fam_older].
  - assert (Hcase : p0 = p /\ c0 = c \/ exists x, P p0 = Some x /\ c0 ∈ children x).
    { look; cbn in *; [|right; eauto|right; eauto].
      apply elem_of_app in H0 as [?|?%list_elem_of_singleton]; [right; eauto|by left]. }
    destruct Hcase as [[-> ->]|(x & Hx1 & Hx2)].
    + exists (set_parent (Some p) rc). rewrite upd_ne, upd_eq by lia. done.
    + destruct (fam_children _ _ F _ _ _ Hx1 Hx2) as (q & Hq & Hqp).
      destruct (Hold _ _ Hq) as (y & ? & ? & _ & Hy). exists y. split; [done|].
      destruct Hy as [?|[-> ?]]; congruence.
  - look; cbn in *; eauto using fam_nodup.
    apply NoDup_app. split; [eauto using fam_nodup|]. split; [|apply NoDup_singleton].
    intros d Hd ->%list_elem_of_singleton. done.
  - destruct (P INIT_PID) as [x|] eqn:E; [|done]. destruct (Hold _ _ E) as (y & -> & _). done.
  - look; cbn in *; eauto using fam_init.
  - look; cbn in *; eauto using fam_running.
  - look; cbn in *; eauto using fam_zombie.
  - look; cbn in *; eauto using fam_unheld.
Qed.

(** A change to one record that leaves its family alone. *)
Lemma family_update n P p r r' :
  family n P -> P p = Some r -> parent r' = parent r -> children r' = children r ->
  (exit_status r' = exit_status r \/ exit_status r' <> None /\ children r = [] /\ p <> INIT_PID) ->
  (exit_status r' = None -> threads r' <> []) ->
  (exit_status r' <> None -> threads r' = [] -> parent r <> None) ->
  references r' = references r -> child_waiters r' = child_waiters r ->
  family n (upd P p (Some r')).
Proof.
  intros F Hp Epar Ech Hx Hrun Hz Href Hw. split; intros.
  - look; eauto using fam_ids.
  - assert (Hcase : exists x, P c = Some x /\ parent x = Some p0) by (look; [exists r; split; congruence|eauto]).
    destruct Hcase as (x & Hx1 & Hx2). destruct (fam_parent _ _ F _ _ _ Hx1 Hx2) as (q & Hq & Hqx & Hin).
    destruct (decide (p0 = p)) as [->|]; [|exists q; by rewrite upd_ne].
    exists r'. rewrite upd_eq, Ech. rewrite Hp in Hq. injection Hq as <-. repeat split; [|done].
    destruct Hx as [->|(_ & E & _)]; [done|]. rewrite E in Hin. by apply elem_of_nil in Hin.
  - look; [rewrite Epar in H0|]; eauto using fam_older.
  - assert (Hcase : exists x, P p0 = Some x /\ c ∈ children x) by (look; [exists r; by rewrite <- Ech|eauto]).
    destruct Hcase as (x & Hx1 & Hx2). destruct (fam_children _ _ F _ _ _ Hx1 Hx2) as (q & Hq & Hqp).
    destruct (decide (c = p)) as [->|]; [|exists q; by rewrite upd_ne].
    exists r'. rewrite upd_eq. split; [done|congruence].
  - look; [rewrite Ech|]; eauto using fam_nodup.
  - unfold upd. case_if; [done|]. look; [rewrite Epar in H0|]; eauto using fam_rooted.
  - look; [|eauto using fam_init]. destruct Hx as [->|(_ & _ & ?)]; [eauto using fam_init|done].
  - look; eauto using fam_running.
  - look; [rewrite Epar|]; eauto using fam_zombie.
  - look; [rewrite Href, Hw|]; eauto using fam_unheld.
Qed.

Lemma without_id p l : p ∉ l -> without p l = l.
Proof. intros H. apply filter_all. intros x Hx ->. done. Qed.

Lemma drop_child_id p r : p ∉ children r -> drop_child p r = r.
Proof. intros H. unfold drop_child. rewrite without_id by done. by destruct r. Qed.

Lemma elem_of_without d c l : d ∈ without c l <-> d <> c /\ d ∈ l.
Proof. unfold without. by rewrite list_elem_of_filter. Qed.

Definition removed (P : Z -> option ProcessControlBlock) (c : Z) : Z -> option ProcessControlBlock :=
  fun q => if q =? c then None else drop_child c <$> P q.

Lemma removed_Some P c q r : removed P c q = Some r -> exists x, q <> c /\ P q = Some x /\ r = drop_child c x.
Proof.
  unfold removed. destruct (Z.eqb_spec q c); [done|]. intros H%fmap_Some. destruct H as (x & ? & ->). by exists x.
Qed.
Lemma removed_ne P c q x : q <> c -> P q = Some x -> removed P c q = Some (drop_child c x).
Proof. intros Hne Hq. unfold removed. by rewrite (proj2 (Z.eqb_neq _ _) Hne), Hq. Qed.

(** An exited process leaves the tree. *)
Lemma family_removed n P c rc : family n P -> P c = Some rc -> exit_status rc <> None -> family n (removed P c).
Proof.
  intros F Hc Hx.
  split; [intros p r H|intros d r p H|intros d r p H|intros p r d H|intros p r H|intros d r H|intros r H|intros p r H|intros p r H|intros p r H];
    apply removed_Some in H as (x & Hne & HP & ->); cbn [parent children exit_status threads references child_waiters drop_child set_children].
  - eauto using fam_ids.
  - intros Hpar. destruct (fam_parent _ _ F _ _ _ HP Hpar) as (q & Hq & Hqx & Hin).
    exists (drop_child c q). rewrite (removed_ne P c p q) by congruence. repeat split; [done|]. by apply elem_of_without.
  - eauto using fam_older.
  - intros [Hd Hin]%elem_of_without. destruct (fam_children _ _ F _ _ _ HP Hin) as (q & Hq & Hqp).
    exists (drop_child c q). by rewrite (removed_ne P c d q).
  - apply NoDup_filter. eauto using fam_nodup.
  - intros Hpar. pose proof (fam_rooted _ _ F _ _ HP Hpar) as Hi. destruct (P INIT_PID) as [y|] eqn:E; [|done].
    rewrite (removed_ne P c _ y); [done| |done]. intros <-. apply Hx. apply (fam_init _ _ F). congruence.
  - eauto using fam_init.
  - eauto using fam_running.
  - eauto using fam_zombie.
  - eauto using fam_unheld.
Qed.

(** The children of [p] move to init. *)
Definition moved (P : Z -> option ProcessControlBlock) (p : Z) (rp ri : ProcessControlBlock) : Z -> option ProcessControlBlock :=
  upd (upd (fun q => if bool_decide (q ∈ children rp) then set_parent (Some INIT_PID) <$> P q else P q)
    p (Some (set_children [] rp))) INIT_PID (Some (set_children (children ri ++ children rp) ri)).

(** What became of each record. *)
Inductive fate (p : Z) (rp ri : ProcessControlBlock) (q : Z) (x : ProcessControlBlock) : ProcessControlBlock -> Prop :=
| fate_init : q = INIT_PID -> x = ri -> fate p rp ri q x (set_children (children ri ++ children rp) ri)
| fate_self : q <> INIT_PID -> q = p -> x = rp -> fate p rp ri q x (set_children [] rp)
| fate_orphan : q <> INIT_PID -> q <> p -> q ∈ children rp -> fate p rp ri q x (set_parent (Some INIT_PID) x)
| fate_other : q <> INIT_PID -> q <> p -> q ∉ children rp -> fate p rp ri q x x.

Section Moved.
Context (n : Z) (P : Z -> option ProcessControlBlock) (p : Z) (rp ri : ProcessControlBlock).
Context (F : family n P) (Hp : P p = Some rp) (Hi : P INIT_PID = Some ri) (Hne : p <> INIT_PID).

Lemma moved_fate q r : moved P p rp ri q = Some r -> exists x, P q = Some x /\ fate p rp ri q x r.
Proof.
  intros H. unfold moved in H. look; [exists ri; split; [done|by constructor]|exists rp; split; [done|by constructor]|].
  case_bool_decide; [apply fmap_Some in H as (x & Hx & ->)|]; eexists; (split; [eassumption|]); by constructor.
Qed.

Lemma fate_keeps q x r :
  fate p rp ri q x r ->
  exit_status r = exit_status x /\ threads r = threads x /\ references r = references x /\ child_waiters r = child_waiters x.
Proof. intros [-> ->|? -> ->| |]; done. Qed.

Lemma moved_total q x : P q = Some x -> exists r, moved P p rp ri q = Some r /\ fate p rp ri q x r.
Proof.
  intros Hq. destruct (moved P p rp ri q) as [r|] eqn:E.
  - exists r. split; [done|]. destruct (moved_fate _ _ E) as (x' & Hx' & Hf). congruence.
  - unfold moved, upd in E. rewrite Hq in E. by destruct (q =? INIT_PID), (q =? p), (bool_decide (q ∈ children rp)).
Qed.

Lemma orphan_ids c : c ∈ children rp -> c <> p /\ c <> INIT_PID.
Proof.
  intros Hc. destruct (fam_children _ _ F _ _ _ Hp Hc) as (q & Hq & Hqp).
  pose proof (fam_older _ _ F _ _ _ Hq Hqp). pose proof (fam_ids _ _ F _ _ Hp). unfold INIT_PID in *. lia.
Qed.

Lemma one_parent c a b x y : P a = Some x -> P b = Some y -> c ∈ children x -> c ∈ children y -> a = b.
Proof.
  intros Ha Hb Hx Hy. destruct (fam_children _ _ F _ _ _ Ha Hx) as (q & ? & ?), (fam_children _ _ F _ _ _ Hb Hy) as (q' & ? & ?).
  congruence.
Qed.

Lemma moved_parent c r a :
  moved P p rp ri c = Some r -> parent r = Some a ->
  exists q, moved P p rp ri a = Some q /\ exit_status q = None /\ c ∈ children q.
Proof.
  intros H Hpar. destruct (moved_fate _ _ H) as (x & Hx & Hf).
  assert (Hcase : c ∈ children rp /\ a = INIT_PID \/ (c ∉ children rp) /\ parent x = Some a).
  { destruct Hf as [-> ->|? -> ->|? ? Hin|? ? Hin]; cbn in Hpar; [right|right|left|right]; split; try done;
      [intros Hin; by destruct (orphan_ids _ Hin)..|congruence]. }
  destruct Hcase as [[Hin ->]|[Hin Hxa]].
  - exists (set_children (children ri ++ children rp) ri). unfold moved. rewrite upd_eq. cbn.
    split; [done|]. split; [by apply (fam_init _ _ F)|]. apply elem_of_app. by right.
  - destruct (fam_parent _ _ F _ _ _ Hx Hxa) as (q & Hq & Hqx & Hcq).
    destruct (moved_total _ _ Hq) as (y & Hy & Hfy). exists y. split; [done|].
    split; [by rewrite (proj1 (fate_keeps _ _ _ Hfy))|].
    destruct Hfy as [-> ->|? -> ->| |]; cbn; [apply elem_of_app; by left|done..].
Qed.

Lemma moved_child a r c :
  moved P p rp ri a = Some r -> c ∈ children r -> exists q, moved P p rp ri c = Some q /\ parent q = Some a.
Proof.
  intros H Hin. destruct (moved_fate _ _ H) as (x & Hx & Hf).
  assert (Hcase : a = INIT_PID /\ c ∈ children rp \/ c ∈ children x /\ c ∉ children rp).
  { destruct Hf as [-> ->|? -> ->|? ? _|? ? _]; cbn in Hin.
    - apply elem_of_app in Hin as [Hin|Hin]; [right|by left]. split; [done|]. intros Hin'. apply Hne. by eapply one_parent.
    - by apply elem_of_nil in Hin.
    - right. split; [done|]. intros Hin'. assert (a = p) by by eapply one_parent. done.
    - right. split; [done|]. intros Hin'. assert (a = p) by by eapply one_parent. done. }
  destruct Hcase as [[-> Hin']|[Hin' Hno]].
  - destruct (fam_children _ _ F _ _ _ Hp Hin') as (q & Hq & _). destruct (orphan_ids _ Hin') as [H1 H2].
    exists (set_parent (Some INIT_PID) q). unfold moved. rewrite !upd_ne by done. by rewrite bool_decide_true, Hq.
  - destruct (fam_children _ _ F _ _ _ Hx Hin') as (q & Hq & Hqp).
    destruct (moved_total _ _ Hq) as (y & Hy & Hfy). exists y. split; [done|].
    destruct Hfy as [-> ->|? -> ->| |]; done.
Qed.

Lemma moved_nodup a r : moved P p rp ri a = Some r -> NoDup (children r).
Proof.
  intros H. destruct (moved_fate _ _ H) as (x & Hx & Hf).
  destruct Hf as [? ->| | |]; cbn; [|apply NoDup_nil_2|eauto using fam_nodup..].
  apply NoDup_app. split; [eauto using fam_nodup|]. split; [|eauto using fam_nodup].
  intros c Hin Hin'. apply Hne. by eapply one_parent.
Qed.

Lemma family_moved : family n (moved P p rp ri).
Proof.
  split; [intros q r H|apply moved_parent|intros c r a H Hpar|apply moved_child|apply moved_nodup|
          intros; unfold moved; by rewrite upd_eq|intros r H|intros q r H|intros q r H|intros q r H];
    destruct (moved_fate _ _ H) as (x & Hx & Hf); destruct (fate_keeps _ _ _ Hf) as (E1 & E2 & E3 & E4); rewrite ?E1, ?E2, ?E3, ?E4.
  - eauto using fam_ids.
  - destruct Hf as [? ->|? ? ->| |]; cbn in Hpar; eauto using fam_older.
    injection Hpar as <-. pose proof (fam_ids _ _ F _ _ Hx). unfold INIT_PID in *. lia.
  - eauto using fam_init.
  - eauto using fam_running.
  - intros H1 H2. pose proof (fam_zombie _ _ F _ _ Hx H1 H2). destruct Hf as [? ->|? ? ->| |]; cbn; done.
  - eauto using fam_unheld.
Qed.
End Moved.

(** ** Steps on the table *)

Lemma process_push t l k n sp q :
  processes t = l -> process t (id k) = None ->
  process (mkTable (l ++ [k]) n sp) q = upd (process t) (id k) (Some k) q.
Proof.
  intros <- Hk. unfold process, upd in *. cbn [processes]. rewrite find_app. cbn beta.
  destruct (Z.eqb_spec q (id k)) as [->|Hne]; [by rewrite Hk, Z.eqb_refl|].
  rewrite (proj2 (Z.eqb_neq (id k) q)) by congruence. by destruct (List.find (fun r => id r =? q) (processes t)).
Qed.

(** A new root process with a fresh id and a fresh space. *)
Lemma table_ok_push t k n :
  table_ok t -> process t (id k) = None -> next_id t <= n <= U64_MAX -> 1 <= id k < n ->
  parent k = None -> children k = [] -> exit_status k = None -> threads k <> [] -> references k = 0 -> child_waiters k = [] ->
  (forall s, address_space k = Some s -> unused t s) ->
  table_ok (mkTable (processes t ++ [k]) n (released_spaces t)).
Proof.
  intros [Hd Hn F Hs] Hk Hle Hid Hp Hc Hx Ht Hr Hw Hsp. split; cbn [processes next_id].
  - rewrite map_app. apply NoDup_app. split; [done|]. split; [|apply NoDup_singleton].
    intros x Hin ->%list_elem_of_singleton. by apply process_none in Hk.
  - lia.
  - eapply family_proper; [reflexivity|intros q; by apply process_push|].
    apply (family_add (next_id t)); try done; lia.
  - unfold spaces, owned in *. cbn [processes released_spaces]. rewrite omap_app. cbn [omap list_omap].
    destruct (address_space k) as [s|] eqn:E; [|by rewrite app_nil_r].
    rewrite <- app_assoc. cbn. rewrite <- Permutation_middle. apply NoDup_cons. split; [by apply Hsp|done].
Qed.

Lemma table_ok_modify t p r f :
  table_ok t -> process t p = Some r -> id_safe f -> (forall r, address_space (f r) = address_space r) ->
  family (next_id t) (upd (process t) p (Some (f r))) -> table_ok (modify t p f).
Proof.
  intros [Hd Hn F Hs] Hp Hf Hsp Hfam. split; cbn [next_id modify with_processes]; [|done| |].
  - by rewrite ids_modify.
  - eapply family_proper; [reflexivity| |exact Hfam]. intros q. rewrite process_modify by done. unfold upd.
    destruct (Z.eqb_spec q p) as [->|]; [by rewrite Hp|done].
  - unfold spaces. by rewrite owned_modify.
Qed.

Lemma new_table_ok : table_ok new_table.
Proof. split; [apply NoDup_nil_2|done| |apply NoDup_nil_2]. split; done. Qed.

Lemma create_ok t sp th f :
  table_ok t -> next_id t < U64_MAX -> (forall s, sp = Some s -> unused t s) -> table_ok (snd (create t sp th f)).
Proof.
  intros Hok Hlt Hsp. pose proof (ok_next _ Hok). unfold create, saturating_add. cbn [snd].
  rewrite Z.min_l by lia. apply table_ok_push; try done; cbn; [|lia..].
  destruct (process t (next_id t)) eqn:E; [|done]. pose proof (fam_ids _ _ (ok_family _ Hok) _ _ E). lia.
Qed.

Lemma create_init_ok t th f : table_ok t -> table_ok (snd (create_init t th f)).
Proof.
  intros Hok. pose proof (ok_next _ Hok). unfold create_init. destruct (process t INIT_PID) eqn:E; [done|].
  apply table_ok_push; try done; cbn; unfold INIT_PID; lia.
Qed.

Lemma create_child_ok t par r s th f :
  table_ok t -> next_id t < U64_MAX -> unused t s -> process t par = Some r -> exit_status r = None ->
  process t INIT_PID <> None -> table_ok (snd (create_child t par (Some s) th f)).
Proof.
  intros Hok Hlt Hs Hpar Hx Hi. pose proof (fam_ids _ _ (ok_family _ Hok) _ _ Hpar) as Hid.
  assert (Hok1 : table_ok (snd (create t (Some s) th f))) by (apply create_ok; [done..|]; by intros ? [= ->]).
  assert (Hn : process t (next_id t) = None).
  { destruct (process t (next_id t)) eqn:E; [|done]. pose proof (fam_ids _ _ (ok_family _ Hok) _ _ E). lia. }
  assert (HP : forall q, process (snd (create t (Some s) th f)) q = upd (process t) (next_id t) (Some (new_process (next_id t) None (Some s) th f)) q)
    by (intros q; by apply process_push).
  unfold create_child. rewrite Hpar. destruct (create t (Some s) th f) as [c t1] eqn:E. cbn [snd] in *.
  assert (c = next_id t) as -> by (by injection E as <- _). clear E.
  rewrite process_modify by done. rewrite (proj2 (Z.eqb_neq par (next_id t))) by lia.
  rewrite HP, upd_ne, Hpar by lia. cbn [snd]. split; cbn [next_id modify with_processes].
  - rewrite !ids_modify by done. apply Hok1.
  - apply Hok1.
  - eapply family_proper; [reflexivity| |].
    2: { apply (family_adopt (next_id t1) (process t1) (next_id t) par (new_process (next_id t) None (Some s) th f) r (ok_family _ Hok1));
         rewrite ?HP, ?upd_eq, ?upd_ne by (unfold INIT_PID; lia); try done; lia. }
    intros q. rewrite !process_modify by done. unfold upd at 1.
    destruct (Z.eqb_spec q par) as [->|]; [|unfold upd at 1; destruct (Z.eqb_spec q (next_id t)) as [->|]; [|done]].
    + rewrite (proj2 (Z.eqb_neq par (next_id t))) by lia. by rewrite HP, upd_ne, Hpar by lia.
    + by rewrite HP, upd_eq.
  - unfold spaces. rewrite !owned_modify by done. apply Hok1.
Qed.

Lemma exec_ok t p s : table_ok t -> unused t s -> table_ok (snd (set_address_space t p (Some s))).
Proof.
  intros Hok Hs. unfold set_address_space. destruct (process t p) as [r|] eqn:Hp; [|done]. cbn [snd].
  destruct Hok as [Hd Hn F Hsp]. split; cbn [next_id modify with_processes]; [by rewrite ids_modify|done| |].
  - eapply family_proper; [reflexivity| |apply (family_update _ _ p r (set_space (Some s) r) F Hp); try done].
    + intros q. rewrite process_modify by done. unfold upd. destruct (Z.eqb_spec q p) as [->|]; [by rewrite Hp|done].
    + by left.
    + apply (fam_running _ _ F _ _ Hp).
    + apply (fam_zombie _ _ F _ _ Hp).
  - destruct (owned_set_space t p r (Some s) Hp) as (rest & H1 & H2). unfold unused, spaces in *.
    cbn [released_spaces modify with_processes]. rewrite H2. rewrite H1 in Hsp, Hs. cbn.
    rewrite <- app_assoc in Hsp, Hs. apply NoDup_app in Hsp as (_ & _ & Hsp). apply NoDup_cons. split; [|done].
    intros Hin. apply Hs. apply elem_of_app. by right.
Qed.

(** A process that can be reaped now was reaped before. *)
Lemma no_garbage t p : table_ok t -> reap_if_empty t p = (false, t).
Proof.
  intros Hok. apply reap_if_empty_idle. intros r Hr. unfold can_reap.
  apply not_true_is_false. rewrite !andb_true_iff, !bool_decide_eq_true. intros ((((H1 & H2) & H3) & _) & _).
  by apply (fam_zombie _ _ (ok_family _ Hok) _ _ Hr).
Qed.

(** Reaping from a table [t2] that agrees with the good table [t] but for the
    links of [c] itself. *)
Lemma reap_removed t t2 c rc rc2 :
  table_ok t -> process t c = Some rc -> exit_status rc <> None ->
  map id (processes t2) = map id (processes t) -> next_id t2 = next_id t -> released_spaces t2 = released_spaces t ->
  owned t2 = owned t -> process t2 c = Some rc2 -> can_reap rc2 = true -> address_space rc2 = address_space rc ->
  (forall q, q <> c -> drop_child c <$> process t2 q = drop_child c <$> process t q) ->
  exists t', reap_if_empty t2 c = (true, t') /\ table_ok t' /\ next_id t' = next_id t /\
    released_spaces t' = released_spaces t ++ option_list (address_space rc) /\
    (forall q, process t' q = removed (process t) c q).
Proof.
  intros [Hd Hn F Hs] Hc Hx Hids Hnext Hrel Hown Hc2 Hcan Hsp Hsame. rewrite <- Hids in Hd.
  destruct (reap_if_empty_spec t2 c rc2 Hd Hc2 Hcan) as (rest & Hrest & ->). eexists. split; [done|].
  assert (HP : forall q sp, process (mkTable (map (drop_child c) rest) (next_id t2) sp) q = removed (process t) c q).
  { intros q sp. rewrite (process_reaped t2 c rc2) by done. unfold removed. destruct (Z.eqb_spec q c); [done|auto]. }
  cbn [next_id released_spaces]. rewrite Hrel, Hsp, Hnext in *. split; [|done].
  assert (Hmid : map id (map (drop_child c) rest) = map id rest) by (by rewrite map_map).
  split; cbn [processes next_id]; [| done | |].
  - rewrite Hmid. rewrite <- Hrest in Hd. by apply NoDup_cons in Hd as [_ Hd].
  - eapply family_proper; [reflexivity|intros q; apply HP|]. exact (family_removed _ _ c rc F Hc Hx).
  - unfold spaces, owned. cbn [processes released_spaces].
    assert (E : omap address_space (map (drop_child c) rest) = omap address_space rest).
    { clear. induction rest as [|x l IH]; [done|]. cbn [map]. by rewrite !omap_cons_split, IH. }
    rewrite E. pose proof (owned_take t2 rc2 rest Hrest) as Hown2. rewrite Hown, Hsp in Hown2.
    unfold spaces in Hs. rewrite <- Hown2 in Hs.
    assert (Hperm : omap address_space rest ++ released_spaces t ++ option_list (address_space rc) ≡ₚ
      (option_list (address_space rc) ++ omap address_space rest) ++ released_spaces t) by solve_Permutation.
    by rewrite Hperm.
Qed.

Lemma take_released_ok t : table_ok t -> table_ok (snd (take_released_spaces t)).
Proof.
  intros [Hd Hn F Hs]. split; [done..|]. unfold spaces in *. cbn [released_spaces snd take_released_spaces].
  rewrite app_nil_r. by apply NoDup_app in Hs as [Hs _].
Qed.

(** *** Exit *)

Lemma process_fold_parents orphans a t q :
  process (fold_left (fun t child => modify t child (set_parent a)) orphans t) q =
  if bool_decide (q ∈ orphans) then set_parent a <$> process t q else process t q.
Proof.
  revert t. induction orphans as [|c l IH]; intros t; cbn [fold_left].
  { rewrite bool_decide_false; [done|apply not_elem_of_nil]. }
  rewrite IH, process_modify by done. destruct (Z.eqb_spec q c) as [->|].
  - rewrite (bool_decide_true (c ∈ c :: l)) by apply list_elem_of_here.
    case_bool_decide; [|done]. destruct (process t c); done.
  - assert (E : bool_decide (q ∈ c :: l) = bool_decide (q ∈ l)); [|by rewrite E].
    apply bool_decide_ext. rewrite elem_of_cons. tauto.
Qed.

Lemma fold_parents_same orphans a t :
  let t' := fold_left (fun t child => modify t child (set_parent a)) orphans t in
  map id (processes t') = map id (processes t) /\ owned t' = owned t /\ next_id t' = next_id t /\ released_spaces t' = released_spaces t.
Proof.
  revert t. induction orphans as [|c l IH]; intros t; [done|]. cbn [fold_left].
  destruct (IH (modify t c (set_parent a))) as (H1 & H2 & H3 & H4). cbv zeta in *.
  rewrite H1, H2, H3, H4, ids_modify, owned_modify by done. done.
Qed.

Lemma reparent_spec t p rp ri :
  table_ok t -> process t p = Some rp -> process t INIT_PID = Some ri -> p <> INIT_PID ->
  table_ok (reparent_children t p INIT_PID) /\
  forall q, process (reparent_children t p INIT_PID) q = moved (process t) p rp ri q.
Proof.
  intros Hok Hp Hi Hne. pose proof (ok_family _ Hok) as F.
  unfold reparent_children. rewrite (proj2 (Z.eqb_neq p INIT_PID)), Hp by done.
  destruct (fold_parents_same (children rp) (Some INIT_PID) (modify t p (set_children []))) as (H1 & H2 & H3 & H4).
  cbv zeta in *. pose proof (fun q => process_fold_parents (children rp) (Some INIT_PID) (modify t p (set_children [])) q) as HP.
  set (t1 := fold_left _ _ _) in *.
  assert (Hi1 : process t1 INIT_PID = Some ri).
  { rewrite HP, bool_decide_false, process_modify by (try done; intros Hin; by destruct (orphan_ids _ _ _ _ F Hp Hne _ Hin)).
    by rewrite (proj2 (Z.eqb_neq INIT_PID p)) by congruence. }
  rewrite Hi1.
  assert (HQ : forall q, process (modify t1 INIT_PID (set_children (children ri ++ children rp))) q = moved (process t) p rp ri q).
  { intros q. rewrite process_modify by done. unfold moved, upd. destruct (Z.eqb_spec q INIT_PID) as [->|]; [by rewrite Hi1|].
    rewrite HP, process_modify by done. destruct (Z.eqb_spec q p) as [->|]; [|done].
    rewrite bool_decide_false, Hp; [done|]. intros Hin. by destruct (orphan_ids _ _ _ _ F Hp Hne _ Hin). }
  split; [|done]. split; cbn [next_id modify with_processes].
  - rewrite ids_modify, H1, ids_modify by done. apply Hok.
  - rewrite H3. apply Hok.
  - rewrite H3. eapply family_proper; [reflexivity|exact HQ|]. by apply family_moved.
  - unfold spaces. cbn [released_spaces modify with_processes]. rewrite owned_modify, H2, H4, owned_modify by done. apply Hok.
Qed.

(** Without init there are no children to move. *)
Lemma reparent_alone t p :
  table_ok t -> process t INIT_PID = None -> p <> INIT_PID ->
  table_ok (reparent_children t p INIT_PID) /\ forall q, process (reparent_children t p INIT_PID) q = process t q.
Proof.
  intros Hok Hi Hne. unfold reparent_children. rewrite (proj2 (Z.eqb_neq p INIT_PID)) by done.
  destruct (process t p) as [r|] eqn:Hp; [|done].
  assert (Hnil : children r = []).
  { destruct (children r) as [|c l] eqn:E; [done|].
    destruct (fam_children _ _ (ok_family _ Hok) p r c Hp) as (q & Hq & Hqp); [rewrite E; apply list_elem_of_here|].
    exfalso. apply (fam_rooted _ _ (ok_family _ Hok) _ _ Hq); congruence. }
  rewrite Hnil. cbn [fold_left]. rewrite process_modify by done. rewrite (proj2 (Z.eqb_neq INIT_PID p)), Hi by congruence.
  assert (Hq : forall q, process (modify t p (set_children [])) q = process t q).
  { intros q. rewrite process_modify by done. destruct (Z.eqb_spec q p) as [->|]; [|done]. rewrite Hp. cbn. f_equal.
    rewrite <- Hnil. by destruct r. }
  split; [|done]. destruct Hok as [Hd Hn F Hs]. split; cbn [next_id modify with_processes]; [by rewrite ids_modify|done| |].
  - by eapply family_proper; [reflexivity|exact Hq|].
  - unfold spaces. by rewrite owned_modify.
Qed.

Lemma reparent_ok t p :
  table_ok t -> p <> INIT_PID ->
  let t' := reparent_children t p INIT_PID in
  table_ok t' /\ forall r, process t' p = Some r -> children r = [].
Proof.
  intros Hok Hne. cbv zeta. destruct (process t INIT_PID) as [ri|] eqn:Hi.
  - destruct (process t p) as [rp|] eqn:Hp.
    + destruct (reparent_spec t p rp ri Hok Hp Hi Hne) as [H1 H2]. split; [done|]. intros r. rewrite H2. unfold moved.
      rewrite upd_ne, upd_eq by done. by intros [= <-].
    + unfold reparent_children. rewrite (proj2 (Z.eqb_neq p INIT_PID)), Hp by done. split; [done|]. by rewrite Hp.
  - destruct (reparent_alone t p Hok Hi Hne) as [H1 H2]. split; [done|]. intros r. rewrite H2. intros Hr.
    destruct (children r) as [|c l] eqn:E; [done|].
    destruct (fam_children _ _ (ok_family _ Hok) p r c Hr) as (q & Hq & Hqp); [rewrite E; apply list_elem_of_here|].
    exfalso. apply (fam_rooted _ _ (ok_family _ Hok) _ _ Hq); congruence.
Qed.

Lemma exit_current_ok t p status : table_ok t -> p <> INIT_PID -> table_ok (snd (exit_current t p status)).
Proof.
  intros Hok Hne. destruct (reparent_ok t p Hok Hne) as [Hok1 Hnil]. unfold exit_current, exit. cbn [snd].
  destruct (process _ p) as [r|] eqn:Hp; [|done]. destruct (exit_status r) eqn:Hx; [done|]. cbn [snd].
  eapply table_ok_modify; [done|exact Hp|done|done|]. specialize (Hnil _ eq_refl).
  apply (family_update _ _ p r); try done; [apply Hok1|by right|]. cbn. intros _ Ht.
  by apply (fam_running _ _ (ok_family _ Hok1) _ _ Hp) in Ht.
Qed.

(** *** Reaping and waiting *)

Lemma can_reap_true r :
  parent r = None -> threads r = [] -> exit_status r <> None -> references r = 0 -> child_waiters r = [] -> can_reap r = true.
Proof. intros H1 H2 H3 H4 H5. unfold can_reap. by rewrite !bool_decide_true, H4. Qed.

Lemma reap_task_ok t p thread :
  table_ok t -> (forall r, process t p = Some r -> exit_status r <> None) -> table_ok (reap_task t p thread).
Proof.
  intros Hok Hx. unfold reap_task, remove_thread. destruct (process t p) as [r|] eqn:Hp; cbn [snd]; [|by rewrite no_garbage].
  destruct (index_of (Z.eqb thread) (threads r)) as [i|]; cbn [snd]; [|by rewrite no_garbage].
  specialize (Hx _ eq_refl). set (l := swap_remove (threads r) i). pose proof (ok_family _ Hok) as F.
  destruct (decide (l = [] /\ parent r = None)) as [[Hl Hpar]|Hstay].
  - destruct (fam_unheld _ _ F _ _ Hp) as [Href Hw].
    edestruct (reap_removed t (modify t p (set_threads l)) p r (set_threads l r)) as (t' & -> & Hok' & _); try done.
    + by rewrite ids_modify.
    + by rewrite owned_modify.
    + rewrite process_modify, Z.eqb_refl, Hp; done.
    + by apply can_reap_true.
    + intros q Hq. rewrite process_modify by done. by rewrite (proj2 (Z.eqb_neq q p)).
  - assert (Hok' : table_ok (modify t p (set_threads l))); [|by rewrite no_garbage].
    eapply table_ok_modify; [done|exact Hp|done|done|].
    apply (family_update _ _ p r); try done; [by left|]. cbn. intros _ Hl Hpar. by apply Hstay.
Qed.

(** A zombie child is collected by its parent: the status is returned, the
    record is gone and its space is handed over to be freed. *)
Lemma collect_zombie t p c rc status :
  table_ok t -> process t c = Some rc -> parent rc = Some p -> threads rc = [] -> exit_status rc = Some status ->
  exists t', collect_child_status t p c = (Ok status, t') /\ table_ok t' /\ next_id t' = next_id t /\
    released_spaces t' = released_spaces t ++ option_list (address_space rc) /\
    (forall q, process t' q = removed (process t) c q).
Proof.
  intros Hok Hc Hpar Hth Hx. pose proof (ok_family _ Hok) as F.
  destruct (fam_parent _ _ F _ _ _ Hc Hpar) as (rp & Hp & _). pose proof (fam_older _ _ F _ _ _ Hc Hpar) as Hlt.
  destruct (fam_unheld _ _ F _ _ Hc) as [Href Hw].
  unfold collect_child_status, wait_child. rewrite Hc, Hpar, Hth, Hx, Hp.
  rewrite bool_decide_false, bool_decide_true by naive_solver. cbn [orb negb].
  rewrite process_modify by done. rewrite (proj2 (Z.eqb_neq c p)), Hc by lia.
  edestruct (reap_removed t (modify (modify t p (set_children (without c (children rp)))) c (set_parent None)) c rc (set_parent None rc))
    as (t' & E & Hok' & Hn & Hrel & HP); try done.
  - by rewrite Hx.
  - by rewrite !ids_modify.
  - by rewrite !owned_modify.
  - rewrite process_modify, Z.eqb_refl, process_modify by done. by rewrite (proj2 (Z.eqb_neq c p)), Hc by lia.
  - apply can_reap_true; try done. cbn. by rewrite Hx.
  - intros q Hq. rewrite process_modify by done. rewrite (proj2 (Z.eqb_neq q c)), process_modify by done.
    destruct (Z.eqb_spec q p) as [->|]; [|done]. rewrite Hp. cbn. f_equal. 
    unfold drop_child at 1. cbn [children set_children].
    rewrite without_id by (by rewrite elem_of_without; intros [? _]). done.
  - exists t'. rewrite E. cbn [snd]. rewrite HP. unfold removed at 1. rewrite Z.eqb_refl. cbn [fold_left].
    rewrite no_garbage by done. done.
Qed.

(** Everything else leaves the table as it is. *)
Lemma collect_refused t p c :
  table_ok t ->
  (forall rc, process t c = Some rc -> parent rc = Some p -> threads rc = [] -> exit_status rc = None) ->
  exists e, collect_child_status t p c = (Err e, t).
Proof.
  intros Hok H. unfold collect_child_status, wait_child. destruct (process t c) as [rc|] eqn:Hc; [|by eexists].
  case_bool_decide as Hpar; cbn [orb]; [by eexists|]. case_bool_decide as Hth; cbn [negb]; [|by eexists].
  rewrite (H rc) by (first [done | by apply dec_stable]). by eexists.
Qed.

(** What [collect_child_status] does, on every branch. *)
Lemma collect_cases t p c :
  table_ok t ->
  (exists rc status t', process t c = Some rc /\ parent rc = Some p /\ threads rc = [] /\ exit_status rc = Some status /\
     collect_child_status t p c = (Ok status, t') /\ table_ok t' /\ next_id t' = next_id t /\
     forall q, process t' q = removed (process t) c q) \/
  (exists e, collect_child_status t p c = (Err e, t)).
Proof.
  intros Hok.
  assert (Hcase : (exists rc s, process t c = Some rc /\ parent rc = Some p /\ threads rc = [] /\ exit_status rc = Some s) \/
    (forall rc, process t c = Some rc -> parent rc = Some p -> threads rc = [] -> exit_status rc = None)).
  { destruct (process t c) as [rc|]; [|by right]. destruct (exit_status rc) as [s|] eqn:Hx; [|right; by intros ? [= <-]].
    destruct (decide (parent rc = Some p /\ threads rc = [])) as [[? ?]|Hn]; [left; by exists rc, s|].
    right. intros ? [= <-] ? ?. exfalso. by apply Hn. }
  destruct Hcase as [(rc & s & H1 & H2 & H3 & H4)|H]; [left|right; by apply collect_refused].
  destruct (collect_zombie t p c rc s Hok H1 H2 H3 H4) as (t' & H5 & H6 & H7 & _ & H8). exists rc, s, t'. done.
Qed.

Lemma collect_ok t p c : table_ok t -> table_ok (snd (collect_child_status t p c)).
Proof. intros Hok. destruct (collect_cases t p c Hok) as [(? & ? & t' & ? & ? & ? & ? & -> & ? & _)|[e ->]]; done. Qed.

#[local] Hint Resolve create_init_ok create_ok create_child_ok exec_ok exit_current_ok reap_task_ok collect_ok take_released_ok : core.

Lemma table_step_ok t t' : table_ok t -> step t t' -> table_ok t'.
Proof. intros Hok []; eauto; apply create_ok; try done; congruence. Qed.

Lemma table_reachable_ok t : reachable t -> table_ok t.
Proof. induction 1; eauto using new_table_ok, table_step_ok. Qed.

(** ** An id is never used again *)

Lemma gone_modify t q f c : id_safe f -> process t c = None -> process (modify t q f) c = None.
Proof. intros Hf H. rewrite process_modify by done. rewrite H. by case_if. Qed.

Lemma gone_push t k n sp c : process t c = None -> id k <> c -> process (mkTable (processes t ++ [k]) n sp) c = None.
Proof.
  rewrite !process_none. cbn [processes]. rewrite map_app, not_elem_of_app. intros H Hk. split; [done|].
  by intros ->%list_elem_of_singleton.
Qed.

Lemma gone_reap t q c : process t c = None -> process (snd (reap_if_empty t q)) c = None.
Proof.
  intros H. unfold reap_if_empty. destruct (negb _); [done|]. destruct (index_of _ _) as [i|] eqn:Ei; [|done].
  apply index_of_Some in Ei as (x & Hx & _). apply swap_remove_split in Hx. cbn [snd].
  apply process_none. apply process_none in H. cbn [processes]. rewrite map_map. cbn [id set_children].
  intros Hin. apply H. rewrite <- Hx. cbn [map]. apply elem_of_cons. by right.
Qed.

Lemma gone_reparent t p c : process t c = None -> process (reparent_children t p INIT_PID) c = None.
Proof.
  intros H. unfold reparent_children. case_if; [done|]. destruct (process t p) as [r|]; [|done].
  assert (H1 : process (fold_left (fun t child => modify t child (set_parent (Some INIT_PID))) (children r) (modify t p (set_children []))) c = None).
  { rewrite process_fold_parents, process_modify, H by done. by destruct (c =? p), (bool_decide (c ∈ children r)). }
  destruct (process (fold_left _ _ _) INIT_PID); [by apply gone_modify|done].
Qed.

Lemma gone_create t sp th f c : INIT_PID < c < next_id t -> process t c = None -> process (snd (create t sp th f)) c = None.
Proof. intros Hc H. apply gone_push; [done|]. cbn. lia. Qed.

Lemma step_gone t t' c : table_ok t -> step t t' -> INIT_PID < c < next_id t -> process t c = None -> process t' c = None.
Proof.
  intros Hok Hs Hc H. destruct Hs as [| | |par r s thread files H0 H1 H2 H3 H4| | | | |].
  - unfold create_init. destruct (process t INIT_PID); [done|]. apply gone_push; [done|]. cbn. lia.
  - by apply gone_create.
  - by apply gone_create.
  - unfold create_child. rewrite H2. pose proof (gone_create t (Some s) thread files c Hc H) as Hg.
    destruct (create t (Some s) thread files) as [k t1]. cbn [snd] in Hg.
    destruct (process (modify t1 k _) par); cbn [snd]; by repeat apply gone_modify.
  - unfold set_address_space. destruct (process t p); [by apply gone_modify|done].
  - unfold exit_current, exit. cbn [snd]. pose proof (gone_reparent t p c H) as Hg.
    destruct (process (reparent_children t p INIT_PID) p) as [r|]; [|done]. destruct (exit_status r); [done|by apply gone_modify].
  - apply gone_reap. unfold remove_thread. destruct (process t p); [|done]. destruct (index_of _ _); [by apply gone_modify|done].
  - destruct (collect_cases t par child Hok) as [(rc & st & t' & _ & _ & _ & _ & -> & _ & _ & HP)|[e ->]]; [|done].
    cbn [snd]. rewrite HP. unfold removed. rewrite H. by case_if.
  - done.
Qed.

Lemma next_id_reparent t p : next_id (reparent_children t p INIT_PID) = next_id t.
Proof.
  unfold reparent_children. case_if; [done|]. destruct (process t p) as [r|]; [|done].
  destruct (fold_parents_same (children r) (Some INIT_PID) (modify t p (set_children []))) as (_ & _ & H & _).
  destruct (process (fold_left _ _ _) INIT_PID); done.
Qed.

Lemma next_id_reap t q : next_id (snd (reap_if_empty t q)) = next_id t.
Proof. unfold reap_if_empty. destruct (negb _); [done|]. by destruct (index_of _ _). Qed.

Lemma step_next t t' : table_ok t -> step t t' -> next_id t <= next_id t'.
Proof.
  intros Hok Hs. destruct Hs as [| | |par r s thread files H H0 H1 H2 H3| | | | |]; try (cbn; unfold saturating_add; lia).
  - unfold create_init. by destruct (process t INIT_PID).
  - unfold create_child. rewrite H1. pose proof (ok_next _ Hok).
    assert (Hn : next_id (snd (create t (Some s) thread files)) = next_id t + 1) by (cbn; unfold saturating_add; lia).
    destruct (create t (Some s) thread files) as [k t1]. cbn [snd] in Hn.
    destruct (process (modify t1 k _) par); cbn [snd modify with_processes next_id]; lia.
  - unfold set_address_space. by destruct (process t p).
  - unfold exit_current, exit. cbn [snd]. rewrite <- (next_id_reparent t p) at 1.
    destruct (process (reparent_children t p INIT_PID) p) as [r|]; [|done]. by destruct (exit_status r).
  - unfold reap_task. rewrite next_id_reap. unfold remove_thread. destruct (process t p); [|done]. by destruct (index_of _ _).
  - destruct (collect_cases t par child Hok) as [(rc & st & t' & _ & _ & _ & _ & -> & _ & Hn & _)|[e ->]]; cbn [snd]; lia.
Qed.

(** Any number of steps. *)
Inductive steps : ProcessTable -> ProcessTable -> Prop :=
| steps_refl t : steps t t
| steps_more t t1 t2 : step t t1 -> steps t1 t2 -> steps t t2.

Lemma steps_gone t t' c : table_ok t -> steps t t' -> INIT_PID < c < next_id t -> process t c = None -> process t' c = None.
Proof.
  intros Hok H. revert Hok. induction H as [|t t1 t2 Hs _ IH]; intros Hok Hc Hg; [done|].
  pose proof (step_next _ _ Hok Hs). apply IH; [by eapply table_step_ok|lia|by eapply step_gone].
Qed.

(** ** Waiting until nothing is left to collect *)

(** A parent that waits for any child as long as one is ready, as init does. *)
Fixpoint wait_all (fuel : nat) (t : ProcessTable) (par : Z) : list (Z * Z) * ProcessTable :=
  match fuel with
  | O => ([], t)
  | S fuel =>
    match ready t par None with
    | Ok (Some child) =>
      match collect_child_status t par child with
      | (Ok status, t) => let '(l, t) := wait_all fuel t par in ((child, status) :: l, t)
      | (Err _, t) => ([], t)
      end
    | _ => ([], t)
    end
  end.

(** The children to collect, with their statuses, oldest first. *)
Definition zombie_status (t : ProcessTable) (c : Z) : option (Z * Z) :=
  match process t c with Some r => if is_zombie r then (fun s => (c, s)) <$> exit_status r else None | None => None end.
Definition zombies (t : ProcessTable) (l : list Z) : list (Z * Z) := omap (zombie_status t) l.

Lemma zombies_first t l c :
  List.find (fun child => match process t child with Some r => is_zombie r | None => false end) l = Some c ->
  exists l1 l2 s, l = l1 ++ c :: l2 /\ zombies t l1 = [] /\ zombie_status t c = Some (c, s).
Proof.
  induction l as [|d l IH]; [done|]. cbn [List.find]. destruct (process t d) as [r|] eqn:Hd.
  1: destruct (is_zombie r) eqn:Hz.
  - intros [= ->]. pose proof Hz as Hz'. unfold is_zombie in Hz'. apply andb_true_iff in Hz' as [Hx%bool_decide_eq_true _].
    destruct (exit_status r) as [s|] eqn:Es; [|done]. exists [], l, s. unfold zombie_status. by rewrite Hd, Hz, Es.
  - intros H. destruct (IH H) as (l1 & l2 & s & -> & H1 & H2). exists (d :: l1), l2, s. split; [done|]. split; [|done].
    unfold zombies in *. cbn. unfold zombie_status at 1. by rewrite Hd, Hz.
  - intros H. destruct (IH H) as (l1 & l2 & s & -> & H1 & H2). exists (d :: l1), l2, s. split; [done|]. split; [|done].
    unfold zombies in *. cbn. unfold zombie_status at 1. by rewrite Hd.
Qed.

Lemma zombies_none t l :
  List.find (fun child => match process t child with Some r => is_zombie r | None => false end) l = None -> zombies t l = [].
Proof.
  induction l as [|d l IH]; [done|]. cbn [List.find]. unfold zombies. cbn. unfold zombie_status at 1.
  destruct (process t d) as [r|]; [destruct (is_zombie r)|]; auto; done.
Qed.

Lemma zombies_removed t t' c l : (forall q, process t' q = removed (process t) c q) -> c ∉ l -> zombies t' l = zombies t l.
Proof.
  intros HP. induction l as [|d l IH]; [done|]. rewrite not_elem_of_cons. intros [Hd Hl]. unfold zombies in *. cbn.
  rewrite (IH Hl). assert (E : zombie_status t' d = zombie_status t d); [|by rewrite E].
  unfold zombie_status. rewrite HP. unfold removed. rewrite (proj2 (Z.eqb_neq d c)) by congruence. by destruct (process t d).
Qed.

Lemma ready_None t p r : process t p = Some r -> ready t p None = if bool_decide (children r = []) then Err NoChild else Ok (exited_child t p).
Proof. intros H. unfold ready, has_children. rewrite H. by case_bool_decide. Qed.

Lemma collect_first t p r c l1 l2 s :
  table_ok t -> process t p = Some r -> children r = l1 ++ c :: l2 -> zombies t l1 = [] -> zombie_status t c = Some (c, s) ->
  exists t', collect_child_status t p c = (Ok s, t') /\ table_ok t' /\
    process t' p = Some (set_children (l1 ++ l2) r) /\ zombies t (children r) = (c, s) :: zombies t' (l1 ++ l2).
Proof.
  intros Hok Hp Hch Hl1 Hz. pose proof (ok_family _ Hok) as F.
  assert (Hin : c ∈ children r) by (rewrite Hch; apply elem_of_app; right; apply list_elem_of_here).
  destruct (fam_children _ _ F _ _ _ Hp Hin) as (rc & Hc & Hpar). pose proof (fam_older _ _ F _ _ _ Hc Hpar) as Hlt.
  pose proof (fam_nodup _ _ F _ _ Hp) as Hnd. rewrite Hch in Hnd.
  assert (Hno : c ∉ l1 ++ l2) by (rewrite <- Permutation_middle in Hnd; by apply NoDup_cons in Hnd as [? _]).
  pose proof Hz as Hz0. unfold zombie_status in Hz. rewrite Hc in Hz. destruct (is_zombie rc) eqn:Ez; [|done].
  apply andb_true_iff in Ez as [_ Hth%bool_decide_eq_true].
  destruct (exit_status rc) as [st|] eqn:Hx; [|done]. injection Hz as ->.
  destruct (collect_zombie t p c rc s Hok Hc Hpar Hth Hx) as (t' & Hcol & Hok' & _ & _ & HP).
  exists t'. split; [done|]. split; [done|]. split.
  - rewrite HP. unfold removed. rewrite (proj2 (Z.eqb_neq p c)), Hp by lia. cbn. unfold drop_child. do 2 f_equal.
    rewrite Hch. unfold without. rewrite filter_app, filter_cons_False by tauto. rewrite <- filter_app. by apply without_id.
  - rewrite (zombies_removed t t' c _ HP Hno), Hch. unfold zombies in *. rewrite !omap_app, Hl1. cbn. by rewrite Hz0.
Qed.

(** C8. In every reachable table the process ids are distinct and below the
    next one to be given out, parent and child links agree and lead to living,
    older processes, an exited process has no children, every zombie has a
    parent to collect it, and no address space has two owners or is both owned
    and waiting to be freed. *)
Theorem process_table_invariant t : reachable t -> table_ok t.
Proof. induction 1; eauto using new_table_ok, table_step_ok. Qed.

(** A process that has exited and has no thread left is collected exactly
    once: it has a living parent, whose wait finds it, returns its status,
    removes the record and hands its address space over to be freed; whatever
    happens afterwards, no wait by anyone finds that process again. *)
Theorem zombie_collected_once t c rc status :
  reachable t -> process t c = Some rc -> exit_status rc = Some status -> threads rc = [] ->
  exists p rp t', parent rc = Some p /\ process t p = Some rp /\ exit_status rp = None /\
    ready t p (Some c) = Ok (Some c) /\ collect_child_status t p c = (Ok status, t') /\
    released_spaces t' = released_spaces t ++ option_list (address_space rc) /\
    forall t'' q, steps t' t'' -> process t'' c = None /\ collect_child_status t'' q c = (Err UnknownProcess, t'').
Proof.
  intros Hr%table_reachable_ok Hc Hx Hth. pose proof (ok_family _ Hr) as F.
  destruct (parent rc) as [p|] eqn:Hpar; [|exfalso; apply (fam_zombie _ _ F _ _ Hc); congruence].
  destruct (fam_parent _ _ F _ _ _ Hc Hpar) as (rp & Hp & Hpx & _). pose proof (fam_older _ _ F _ _ _ Hc Hpar) as Hlt.
  destruct (collect_zombie t p c rc status Hr Hc Hpar Hth Hx) as (t' & Hcol & Hok' & Hn & Hrel & HP).
  exists p, rp, t'. do 3 (split; [done|]). split; [|split; [done|split; [done|]]].
  - unfold ready. rewrite Hc, bool_decide_false by naive_solver. unfold is_zombie. by rewrite Hx, Hth.
  - intros t'' q Hs. assert (Hg : process t'' c = None).
    { pose proof (fam_ids _ _ F _ _ Hc). pose proof (fam_ids _ _ F _ _ Hp). eapply steps_gone; [exact Hok'|done|unfold INIT_PID; lia|].
      rewrite HP. unfold removed. by rewrite Z.eqb_refl. }
    split; [done|]. unfold collect_child_status, wait_child. by rewrite Hg.
Qed.

(** A living process that keeps waiting for any child drains its zombies:
    as many rounds as it has children return every exited child with its
    status, oldest first and nothing else, after which no child is ready. *)
Theorem wait_all_drains t p r fuel :
  reachable t -> process t p = Some r -> (length (children r) <= fuel)%nat ->
  exists t', wait_all fuel t p = (zombies t (children r), t') /\
    (forall r' c, process t' p = Some r' -> c ∈ children r' -> zombie_status t' c = None).
Proof.
  intros Hok%table_reachable_ok. revert t r Hok. induction fuel as [|fuel IH]; intros t r Hok Hp Hlen.
  { destruct (children r) eqn:E; [|cbn in Hlen; lia]. exists t. split; [done|]. intros r' c Hr' Hin.
    assert (r' = r) as -> by congruence. rewrite E in Hin. by apply elem_of_nil in Hin. }
  cbn [wait_all]. rewrite (ready_None t p r Hp). case_bool_decide as Hnil.
  { rewrite Hnil. exists t. split; [done|]. intros r' c Hr' Hin. assert (r' = r) as -> by congruence.
    rewrite Hnil in Hin. by apply elem_of_nil in Hin. }
  unfold exited_child. rewrite Hp. destruct (List.find _ (children r)) as [c|] eqn:Hf.
  - apply zombies_first in Hf as (l1 & l2 & s & Hch & H1 & H2).
    destruct (collect_first t p r c l1 l2 s Hok Hp Hch H1 H2) as (t1 & -> & Hok1 & Hp1 & ->).
    destruct (IH t1 _ Hok1 Hp1) as (t' & E & Hdone).
    { cbn [children set_children]. rewrite Hch, length_app in Hlen. rewrite length_app. cbn in Hlen. lia. }
    cbn [children set_children] in E. rewrite E. by exists t'.
  - exists t. rewrite (zombies_none _ _ Hf). split; [done|]. intros r' c Hr' Hin. assert (r' = r) as -> by congruence.
    pose proof (List.find_none _ _ Hf c (proj1 (list_elem_of_In _ _) Hin)) as Hc. cbn in Hc.
    unfold zombie_status. destruct (process t c); [by rewrite Hc|done].
Qed.

(** A boot: init (1) forks 2, which forks 3; 2 exits with 7 and 3, now init's
    child, with 9; both threads are retired. *)
Definition demo_forked : ProcessTable :=
  let t := snd (create_init new_table 1 0) in
  let t := snd (create_child t 1 (Some 10) 2 0) in
  snd (create_child t 2 (Some 11) 3 0).
Definition demo_exited : ProcessTable :=
  reap_task (snd (exit_current (reap_task (snd (exit_current demo_forked 2 7)) 2 2) 3 9)) 3 3.

Ltac fork_step p :=
  eapply reach_step; [|eapply (step_fork _ p); [vm_compute; reflexivity|apply (bool_decide_eq_true_1 _); vm_compute; reflexivity|reflexivity|reflexivity|discriminate]].

Lemma demo_forked_reachable : reachable demo_forked.
Proof. fork_step 2. fork_step 1. eapply reach_step; [apply reach_new|]. apply step_init. Qed.

Lemma demo_exited_reachable : reachable demo_exited.
Proof.
  eapply reach_step; [|apply step_reap; by intros r [= <-]].
  eapply reach_step; [|by apply step_exit].
  eapply reach_step; [|apply step_reap; by intros r [= <-]].
  eapply reach_step; [|by apply step_exit]. apply demo_forked_reachable.
Qed.

Lemma process_table_invariant_witness : table_ok demo_exited /\ length (processes demo_exited) = 3%nat.
Proof. split; [apply process_table_invariant, demo_exited_reachable|reflexivity]. Defined.

Lemma zombie_collected_once_witness :
  exists p rp t', process demo_exited p = Some rp /\ collect_child_status demo_exited p 3 = (Ok 9, t') /\ released_spaces t' = [11].
Proof.
  destruct (process demo_exited 3) as [rc|] eqn:E; [|discriminate E].
  destruct (zombie_collected_once demo_exited 3 rc 9 demo_exited_reachable E) as (p & rp & t' & H1 & H2 & _ & _ & H3 & H4 & _).
  - vm_compute in E. injection E as <-. reflexivity.
  - vm_compute in E. injection E as <-. reflexivity.
  - exists p, rp, t'. split; [exact H2|]. split; [exact H3|]. rewrite H4. vm_compute in E. injection E as <-. reflexivity.
Defined.

Lemma wait_all_drains_witness : exists t', wait_all 2 demo_exited 1 = ([(2, 7); (3, 9)], t').
Proof.
  destruct (process demo_exited 1) as [r|] eqn:E; [|discriminate E].
  destruct (wait_all_drains demo_exited 1 r 2 demo_exited_reachable E) as (t' & H & _).
  - vm_compute in E. injection E as <-. vm_compute. lia.
  - exists t'. rewrite H. vm_compute in E. injection E as <-. reflexivity.
Defined.
End ProcessSpec.
