(* ===== verification/Paging.v ===== *)
(** * Paging: user address spaces

    The part of [kernel/src/mm/paging.rs] that builds and takes apart the page
    tables of a process: mapping, unmapping, protecting, the copy-on-write
    fork, the write fault that resolves it, and the teardown. The frame
    allocator of [mm/frame.rs] and the physical memory it hands out are behind
    the class [Frames]; the tables are words of that memory, reached through
    the direct map ([table_ptr] once paging is active). Translations cached by
    the processor are not modelled. *)

From stdpp Require Import base numbers list.
From S2P Require Import Prelude.
Local Open Scope Z_scope.

(** Physical memory, 512 words to a frame, and the reference-counted frames.
    [free_frame] panics ([None]) on a frame without a reference. *)
Class Frames (W : Type) : Type := {
  memory : W -> Z -> Z -> Z;
  set_memory : W -> (Z -> Z -> Z) -> W;
  alloc_frame : W -> option Z * W;
  free_frame : W -> Z -> option W;
  frame_get : W -> Z -> bool * W;
  frame_refcount : W -> Z -> option Z
}.

Module Paging.
Definition PAGE_SIZE : Z := 4096.
Definition KERNEL_VIRT_BASE : Z := 0xffff800000000000.
Definition PRESENT : Z := 1.
Definition WRITABLE : Z := 2 ^ 1.
Definition USER : Z := 2 ^ 2.
Definition PWT : Z := 2 ^ 3.
Definition PCD : Z := 2 ^ 4.
Definition HUGE : Z := 2 ^ 7.
Definition PAT_4K : Z := 2 ^ 7.
Definition NO_EXECUTE : Z := 2 ^ 63.
Definition PHYS_MASK_4K : Z := 0x000ffffffffff000.
Definition ADDRESS_MASK : Z := PHYS_MASK_4K.
Definition COPY_ON_WRITE : Z := 2 ^ 9.
Definition USER_TABLE : Z := Z.lor (Z.lor PRESENT WRITABLE) USER.

(** [x & bits != 0]. *)
Definition has (x bits : Z) : bool := negb (Z.land x bits =? 0).

(** ** Flags *)

Definition USER_READ : Z := Z.lor (Z.lor PRESENT USER) NO_EXECUTE.
Definition USER_READ_WRITE : Z := Z.lor (Z.lor (Z.lor PRESENT USER) WRITABLE) NO_EXECUTE.
Definition USER_READ_EXECUTE : Z := Z.lor PRESENT USER.
Definition with_cache (flags : Z) (write_through cache_disable : bool) : Z :=
  Z.lor (Z.lor flags (if write_through then PWT else 0)) (if cache_disable then PCD else 0).
Definition is_writable (flags : Z) : bool := has flags WRITABLE.
Definition is_user (flags : Z) : bool := has flags USER.
Definition is_executable (flags : Z) : bool := negb (has flags NO_EXECUTE).

(** [UserPageFlags], a byte of its own. *)
Definition UP_READ : Z := 1.
Definition UP_WRITE : Z := 2.
Definition UP_EXECUTE : Z := 4.
Definition UP_NO_EXECUTE : Z := 8.
Definition up_is_valid (flags : Z) : bool :=
  has flags UP_READ && negb (has flags UP_EXECUTE && has flags UP_NO_EXECUTE).
Definition up_hardware (flags : Z) : Z :=
  Z.lor (Z.lor (Z.lor PRESENT USER) (if has flags UP_WRITE then WRITABLE else 0))
        (if has flags UP_NO_EXECUTE || negb (has flags UP_EXECUTE) then NO_EXECUTE else 0).

Inductive AddressSpaceError : Type :=
| OutOfFrames | Unaligned | Noncanonical | KernelAddress | InvalidFlags | AlreadyMapped | NotMapped | HugePage | InvalidPhysicalAddress.

Inductive MappingOwnership : Type := Borrowed | Owned.
Inductive CowResolution : Type := NotCow | Resolved | OutOfMemory.

Record UnmappedMapping : Type := mkUnmapped {
  um_frame : Z; um_ownership : MappingOwnership; um_permissions : Z; um_cache_attributes : Z
}.

Record OwnedMapping : Type := mkOwned { om_address : Z; om_frame : Z }.
#[global] Instance OwnedMapping_eq_dec : EqDecision OwnedMapping.
Proof. solve_decision. Defined.

Record AddressSpace : Type := mkSpace { root : Z; owned : list OwnedMapping; devices : list OwnedMapping }.

(** ** Indices *)

Definition pml4_index (va : Z) : Z := Z.land (Z.shiftr va 39) 0x1ff.
Definition pdpt_index (va : Z) : Z := Z.land (Z.shiftr va 30) 0x1ff.
Definition pd_index (va : Z) : Z := Z.land (Z.shiftr va 21) 0x1ff.
Definition pt_index (va : Z) : Z := Z.land (Z.shiftr va 12) 0x1ff.

Definition validate_user_mapping (va physical flags : Z) : result AddressSpaceError unit :=
  if negb (Z.land va (PAGE_SIZE - 1) =? 0) || negb (Z.land physical (PAGE_SIZE - 1) =? 0) then Err Unaligned else
  if 2 ^ 47 <=? va then (if KERNEL_VIRT_BASE <=? va then Err KernelAddress else Err Noncanonical) else
  if negb (is_user flags) then Err InvalidFlags else
  if is_writable flags && is_executable flags then Err InvalidFlags else Ok tt.

Section Paging.
Context {W : Type} `{Frames W}.

(** ** Tables *)

Definition write (w : W) (frame index value : Z) : W :=
  set_memory w (fun f i => if (f =? frame) && (i =? index) then value else memory w f i).
Definition fill (w : W) (frame : Z) (words : Z -> Z) : W :=
  set_memory w (fun f i => if f =? frame then words i else memory w f i).

Definition address (entry : Z) : Z := Z.land entry ADDRESS_MASK.

(** A frame, cleared. *)
Definition alloc_table (w : W) : option Z * W :=
  match alloc_frame w with
  | (None, w) => (None, w)
  | (Some frame, w) => (Some frame, fill w frame (fun _ => 0))
  end.

Definition indices : list Z := map Z.of_nat (seq 0 512).
Definition table_empty (w : W) (table : Z) : bool := forallb (fun i => negb (has (memory w table i) PRESENT)) indices.

Definition table_from_entry (entry : Z) : result AddressSpaceError Z :=
  if negb (has entry PRESENT) then Err NotMapped else
  if has entry HUGE then Err HugePage else Ok (address entry).

(** The tables made for this address are taken back, the lowest first. *)
Definition rollback_tables (w : W) (root va : Z) (pml4_created pdpt_created pd_created : bool) : option W :=
  let drop_pd w :=
    let pdpt := address (memory w root (pml4_index va)) in
    let pd := address (memory w pdpt (pdpt_index va)) in
    let frame := address (memory w pd (pd_index va)) in
    free_frame (write w pd (pd_index va) 0) frame in
  let drop_pdpt w :=
    let pdpt := address (memory w root (pml4_index va)) in
    let frame := address (memory w pdpt (pdpt_index va)) in
    free_frame (write w pdpt (pdpt_index va) 0) frame in
  let drop_pml4 w :=
    let frame := address (memory w root (pml4_index va)) in
    match free_frame w frame with Some w => Some (write w root (pml4_index va) 0) | None => None end in
  match (if pd_created then drop_pd w else Some w) with
  | None => None
  | Some w =>
    match (if pdpt_created then drop_pdpt w else Some w) with
    | None => None
    | Some w => if pml4_created then drop_pml4 w else Some w
    end
  end.

(** Undo and fail. *)
Definition undo (w : W) (root va : Z) (c3 c2 c1 : bool) (e : AddressSpaceError) : option (result AddressSpaceError unit * W) :=
  match rollback_tables w root va c3 c2 c1 with Some w => Some (Err e, w) | None => None end.

(** A missing table of a lower level is made: whether there is one now, and
    whether it was made here. *)
Definition ensure_table (w : W) (table index : Z) : bool * W * bool :=
  if negb (has (memory w table index) PRESENT) then
    match alloc_table w with
    | (None, w) => (false, w, false)
    | (Some frame, w) => (true, write w table index (Z.lor frame USER_TABLE), true)
    end
  else (true, w, false).

Definition map_page_in_root (w : W) (root va physical flags : Z) : option (result AddressSpaceError unit * W) :=
  let '(made, w, pml4_created) := ensure_table w root (pml4_index va) in
  if negb made then Some (Err OutOfFrames, w) else
  let pdpt := address (memory w root (pml4_index va)) in
  if has (memory w pdpt (pdpt_index va)) HUGE then undo w root va pml4_created false false HugePage else
  let '(made, w, pdpt_created) := ensure_table w pdpt (pdpt_index va) in
  if negb made then undo w root va pml4_created false false OutOfFrames else
  let pd := address (memory w pdpt (pdpt_index va)) in
  if has (memory w pd (pd_index va)) HUGE then undo w root va pml4_created pdpt_created false HugePage else
  let '(made, w, pd_created) := ensure_table w pd (pd_index va) in
  if negb made then undo w root va pml4_created pdpt_created false OutOfFrames else
  let pt := address (memory w pd (pd_index va)) in
  if has (memory w pt (pt_index va)) PRESENT then undo w root va pml4_created pdpt_created pd_created AlreadyMapped else
  Some (Ok tt, write w pt (pt_index va) (Z.lor physical flags)).

Definition unmap_page_in_root (w : W) (root va : Z) : option (result AddressSpaceError Z * W) :=
  match validate_user_mapping va 0 USER_READ with
  | Err e => Some (Err e, w)
  | Ok _ =>
    match table_from_entry (memory w root (pml4_index va)) with
    | Err e => Some (Err e, w)
    | Ok pdpt =>
      match table_from_entry (memory w pdpt (pdpt_index va)) with
      | Err e => Some (Err e, w)
      | Ok pd =>
        match table_from_entry (memory w pd (pd_index va)) with
        | Err e => Some (Err e, w)
        | Ok pt =>
          let slot := memory w pt (pt_index va) in
          if negb (has slot PRESENT) then Some (Err NotMapped, w) else
          let physical := address slot in
          let w := write w pt (pt_index va) 0 in
          if negb (table_empty w pt) then Some (Ok physical, w) else
          match free_frame w pt with
          | None => None
          | Some w =>
            let w := write w pd (pd_index va) 0 in
            if negb (table_empty w pd) then Some (Ok physical, w) else
            match free_frame w pd with
            | None => None
            | Some w =>
              let w := write w pdpt (pdpt_index va) 0 in
              if negb (table_empty w pdpt) then Some (Ok physical, w) else
              match free_frame w pdpt with
              | None => None
              | Some w => Some (Ok physical, write w root (pml4_index va) 0)
              end
            end
          end
        end
      end
    end
  end.

(** The table holding the leaf of a mapped page. *)
Definition leaf_slot (w : W) (s : AddressSpace) (va : Z) : result AddressSpaceError Z :=
  let pdpt_entry := memory w (root s) (pml4_index va) in
  if negb (has pdpt_entry PRESENT) then Err NotMapped else
  let pd_entry := memory w (address pdpt_entry) (pdpt_index va) in
  if negb (has pd_entry PRESENT) || has pd_entry HUGE then Err (if has pd_entry HUGE then HugePage else NotMapped) else
  let pt_entry := memory w (address pd_entry) (pd_index va) in
  if negb (has pt_entry PRESENT) || has pt_entry HUGE then Err (if has pt_entry HUGE then HugePage else NotMapped) else
  let pt := address pt_entry in
  if negb (has (memory w pt (pt_index va)) PRESENT) then Err NotMapped else Ok pt.

Definition page_entry_inner (w : W) (s : AddressSpace) (va : Z) : result AddressSpaceError Z :=
  if negb (Z.land va (PAGE_SIZE - 1) =? 0) then Err Unaligned else
  if 2 ^ 47 <=? va then (if KERNEL_VIRT_BASE <=? va then Err KernelAddress else Err Noncanonical) else
  let? pdpt := table_from_entry (memory w (root s) (pml4_index va)) in
  let? pd := table_from_entry (memory w pdpt (pdpt_index va)) in
  let? pt := table_from_entry (memory w pd (pd_index va)) in
  let entry := memory w pt (pt_index va) in
  if negb (has entry PRESENT) then Err NotMapped else Ok entry.

Definition query (w : W) (s : AddressSpace) (va : Z) : result AddressSpaceError Z := page_entry_inner w s va.

(** ** Building and tearing down *)

(** The kernel's half of the root, the same in every address space. *)
Context (kernel_pml4 : Z -> Z).

Definition new_space (w : W) : result AddressSpaceError AddressSpace * W :=
  match alloc_table w with
  | (None, w) => (Err OutOfFrames, w)
  | (Some root, w) =>
    (Ok (mkSpace root [] []), fill w root (fun i => if 256 <=? i then kernel_pml4 i else memory w root i))
  end.

Fixpoint free_table_tree (levels_below : nat) (w : W) (frame : Z) : option W :=
  let cleared :=
    match levels_below with
    | O => Some w
    | S below =>
      fold_left (fun acc i =>
        match acc with
        | None => None
        | Some w =>
          let entry := memory w frame i in
          match (if (0 <? Z.of_nat below) && has entry PRESENT && negb (has entry HUGE)
                 then free_table_tree below w (address entry) else Some w) with
          | None => None
          | Some w => Some (write w frame i 0)
          end
        end) indices (Some w)
    end in
  match cleared with None => None | Some w => free_frame w frame end.

Definition lower_half : list Z := map Z.of_nat (seq 0 256).

Fixpoint free_frames (w : W) (l : list OwnedMapping) : option W :=
  match l with
  | [] => Some w
  | m :: l => match free_frame w (om_frame m) with Some w => free_frames w l | None => None end
  end.

(** [Drop]; [current] is the root the processor runs on. *)
Definition drop_space (current : Z) (w : W) (s : AddressSpace) : option W :=
  if current =? root s then None else
  match fold_left (fun acc i =>
    match acc with
    | None => None
    | Some w =>
      let entry := memory w (root s) i in
      if has entry PRESENT then
        match free_table_tree 3 w (address entry) with
        | None => None
        | Some w => Some (write w (root s) i 0)
        end
      else Some w
    end) lower_half (Some w) with
  | None => None
  | Some w => match free_frames w (owned s) with Some w => free_frame w (root s) | None => None end
  end.

(** ** Operations *)

Definition map_at (w : W) (s : AddressSpace) (va physical flags : Z) : option (result AddressSpaceError unit * W) :=
  match validate_user_mapping va physical flags with
  | Err e => Some (Err e, w)
  | Ok _ => map_page_in_root w (root s) va physical flags
  end.

(** [reserve]: whether the kernel heap had room for one more element. *)
Definition map_owned (reserve : bool) (w : W) (s : AddressSpace) (va physical flags : Z)
  : option (result AddressSpaceError unit * AddressSpace * W) :=
  if negb reserve then Some (Err OutOfFrames, s, w) else
  match map_at w s va physical flags with
  | None => None
  | Some (Err e, w) => Some (Err e, s, w)
  | Some (Ok _, w) => Some (Ok tt, mkSpace (root s) (owned s ++ [mkOwned va physical]) (devices s), w)
  end.

Definition map_device (reserve : bool) (w : W) (s : AddressSpace) (va physical flags : Z)
  : option (result AddressSpaceError unit * AddressSpace * W) :=
  if negb reserve then Some (Err OutOfFrames, s, w) else
  match map_at w s va physical flags with
  | None => None
  | Some (Err e, w) => Some (Err e, s, w)
  | Some (Ok _, w) => Some (Ok tt, mkSpace (root s) (owned s) (devices s ++ [mkOwned va physical]), w)
  end.

Definition map_user_page (w : W) (s : AddressSpace) (va physical flags : Z) : option (result AddressSpaceError unit * W) :=
  if negb (up_is_valid flags) then Some (Err InvalidFlags, w) else map_at w s va physical (up_hardware flags).

Fixpoint position (va : Z) (l : list OwnedMapping) : option nat :=
  match l with [] => None | m :: l => if om_address m =? va then Some O else option_map S (position va l) end.

Definition remove_owned (s : AddressSpace) (va frame : Z) : MappingOwnership * AddressSpace :=
  match position va (devices s) with
  | Some i => (Borrowed, mkSpace (root s) (owned s) (swap_remove (devices s) i))
  | None =>
    match position va (owned s) with
    | Some i =>
      (match owned s !! i with Some m => if om_frame m =? frame then Owned else Borrowed | None => Borrowed end,
       mkSpace (root s) (swap_remove (owned s) i) (devices s))
    | None => (Borrowed, s)
    end
  end.

Definition unmap_mapping (w : W) (s : AddressSpace) (va : Z) : option (result AddressSpaceError UnmappedMapping * AddressSpace * W) :=
  match page_entry_inner w s va with
  | Err e => Some (Err e, s, w)
  | Ok entry =>
    match unmap_page_in_root w (root s) va with
    | None => None
    | Some (Err e, w) => Some (Err e, s, w)
    | Some (Ok frame, w) =>
      let '(ownership, s) := remove_owned s va frame in
      Some (Ok (mkUnmapped frame ownership (Z.land entry (Z.lnot ADDRESS_MASK)) (Z.land entry (Z.lor PWT PCD))), s, w)
    end
  end.

Definition unmap_user_page (w : W) (s : AddressSpace) (va : Z) : option (result AddressSpaceError Z * AddressSpace * W) :=
  match unmap_mapping w s va with
  | None => None
  | Some (r, s, w) => Some (result_map um_frame r, s, w)
  end.

(** [frame_refcount(frame).unwrap_or(1)]. *)
Definition refcount_or_1 (w : W) (frame : Z) : Z := default 1 (frame_refcount w frame).

Definition set_leaf_flags (w : W) (s : AddressSpace) (va flags : Z) : result AddressSpaceError unit * W :=
  match leaf_slot w s va with
  | Err e => (Err e, w)
  | Ok pt =>
    let slot := memory w pt (pt_index va) in
    let frame := address slot in
    let shared := 1 <? refcount_or_1 w frame in
    let flags := if has flags WRITABLE && shared then Z.lor (Z.land flags (Z.lnot WRITABLE)) COPY_ON_WRITE
                 else Z.land flags (Z.lnot COPY_ON_WRITE) in
    let cache := Z.land slot (Z.lor (Z.lor PWT PCD) PAT_4K) in
    (Ok tt, write w pt (pt_index va) (Z.lor (Z.lor frame flags) cache))
  end.

Definition protect (w : W) (s : AddressSpace) (va flags : Z) : result AddressSpaceError unit * W :=
  match validate_user_mapping va 0 flags with Err e => (Err e, w) | Ok _ => set_leaf_flags w s va flags end.

Definition protect_inaccessible (w : W) (s : AddressSpace) (va : Z) : result AddressSpaceError unit * W :=
  match validate_user_mapping va 0 USER_READ with
  | Err e => (Err e, w)
  | Ok _ => set_leaf_flags w s va (Z.lor PRESENT NO_EXECUTE)
  end.

(** ** Copy on write *)

(** What is left for [Drop] of the child when a loop of [fork_cow] fails, or
    the mappings the child has. *)
Abbreviation forked := (result (AddressSpaceError * list OwnedMapping) (list OwnedMapping)).

Fixpoint fork_owned (w : W) (s : AddressSpace) (child : Z) (todo child_owned : list OwnedMapping) : option (forked * W) :=
  match todo with
  | [] => Some (Ok child_owned, w)
  | m :: todo =>
    match leaf_slot w s (om_address m) with
    | Err e => Some (Err (e, []), w)
    | Ok pt =>
      let entry := memory w pt (pt_index (om_address m)) in
      let flags := Z.land entry (Z.lnot ADDRESS_MASK) in
      let '(flags, w) :=
        if has flags WRITABLE then
          let flags := Z.lor (Z.land flags (Z.lnot WRITABLE)) COPY_ON_WRITE in
          (flags, write w pt (pt_index (om_address m)) (Z.lor (address entry) flags))
        else (flags, w) in
      match frame_get w (om_frame m) with
      | (false, w) => Some (Err (OutOfFrames, []), w)
      | (true, w) =>
        match map_page_in_root w child (om_address m) (om_frame m) flags with
        | None => None
        | Some (Err e, w) => match free_frame w (om_frame m) with Some w => Some (Err (e, child_owned), w) | None => None end
        | Some (Ok _, w) => fork_owned w s child todo (child_owned ++ [m])
        end
      end
    end
  end.

Fixpoint fork_devices (w : W) (s : AddressSpace) (child : Z) (child_owned todo child_devices : list OwnedMapping) : option (forked * W) :=
  match todo with
  | [] => Some (Ok child_devices, w)
  | m :: todo =>
    match leaf_slot w s (om_address m) with
    | Err e => Some (Err (e, []), w)
    | Ok pt =>
      let entry := memory w pt (pt_index (om_address m)) in
      match map_page_in_root w child (om_address m) (om_frame m) (Z.land entry (Z.lnot ADDRESS_MASK)) with
      | None => None
      | Some (Err e, w) => Some (Err (e, child_owned), w)
      | Some (Ok _, w) => fork_devices w s child child_owned todo (child_devices ++ [m])
      end
    end
  end.

(** [reserve_owned] and [reserve_devices]: whether the heap had room for the
    child's lists. A failure drops the child with what it owns by then. *)
Definition fork_cow (current : Z) (reserve_owned reserve_devices : bool) (w : W) (s : AddressSpace)
  : option (result AddressSpaceError AddressSpace * W) :=
  let fail e w child := match drop_space current w child with Some w => Some (Err e, w) | None => None end in
  match new_space w with
  | (Err e, w) => Some (Err e, w)
  | (Ok child, w) =>
    if negb reserve_owned then fail OutOfFrames w child else
    match fork_owned w s (root child) (owned s) [] with
    | None => None
    | Some (Err (e, l), w) => fail e w (mkSpace (root child) l [])
    | Some (Ok child_owned, w) =>
      if negb reserve_devices then fail OutOfFrames w child else
      match fork_devices w s (root child) child_owned (devices s) [] with
      | None => None
      | Some (Err (e, l), w) => fail e w (mkSpace (root child) l [])
      | Some (Ok child_devices, w) => Some (Ok (mkSpace (root child) child_owned child_devices), w)
      end
    end
  end.

(** The first mapping of the page gets the copy. *)
Fixpoint set_frame (page frame : Z) (l : list OwnedMapping) : list OwnedMapping :=
  match l with
  | [] => []
  | m :: l => if om_address m =? page then mkOwned (om_address m) frame :: l else m :: set_frame page frame l
  end.

Definition resolve_cow (w : W) (s : AddressSpace) (va : Z) : option (CowResolution * AddressSpace * W) :=
  let page := Z.land va (Z.lnot (PAGE_SIZE - 1)) in
  match leaf_slot w s page with
  | Err _ => Some (NotCow, s, w)
  | Ok pt =>
    let entry := memory w pt (pt_index page) in
    if negb (has entry COPY_ON_WRITE) then Some (NotCow, s, w) else
    let old := address entry in
    let flags := Z.lor (Z.land (Z.land entry (Z.lnot ADDRESS_MASK)) (Z.lnot COPY_ON_WRITE)) WRITABLE in
    if refcount_or_1 w old <=? 1 then Some (Resolved, s, write w pt (pt_index page) (Z.lor old flags)) else
    match alloc_frame w with
    | (None, w) => Some (OutOfMemory, s, w)
    | (Some copy, w) =>
      let w := fill w copy (memory w old) in
      let w := write w pt (pt_index page) (Z.lor copy flags) in
      match free_frame w old with
      | None => None
      | Some w => Some (Resolved, mkSpace (root s) (set_frame page copy (owned s)) (devices s), w)
      end
    end
  end.
End Paging.
End Paging.
