(* ===== verification/UserMemory.v ===== *)
(** * UserMemory: the memory calls of a process

    [kernel/src/mm/user_memory.rs] applies [brk], [mmap], [munmap] and
    [mprotect] to the page tables: the memory map of [Vma] says which spans
    change, [Paging] maps, unmaps and protects their pages.
    [kernel/src/mm/address_space.rs] keeps the spaces of all processes by id
    and switches the processor between their roots. A panic is [None]. *)

From stdpp Require Import base numbers list.
From S2P Require Import Prelude Errno Vma Paging.
Local Open Scope Z_scope.

Module UserMemory.
Import Paging.

Record OwnedSpace : Type := mkOwnedSpace { os_space : AddressSpace; os_map : MemoryMap }.

Definition page_flags (p : Protection) : Z :=
  if execute p then USER_READ_EXECUTE else if Vma.write p then USER_READ_WRITE else USER_READ.

(** The pages of [start..end], [PAGE_SIZE] apart. *)
Definition pages (s e : Z) : list Z := map (fun i => s + PAGE_SIZE * Z.of_nat i) (seq 0 (Z.to_nat ((e - s + PAGE_SIZE - 1) / PAGE_SIZE))).

Section Spans.
Context {W : Type} `{Frames W}.

Definition alloc_frame_zeroed (w : W) : option Z * W :=
  match alloc_frame w with
  | (None, w) => (None, w)
  | (Some frame, w) => (Some frame, fill w frame (fun _ => 0))
  end.

(** The reference goes with the page. *)
Definition drop_reference (w : W) (own : MappingOwnership) (frame : Z) : option W :=
  match own with Owned => free_frame w frame | Borrowed => Some w end.

Fixpoint unmap_pages (w : W) (s : AddressSpace) (l : list Z) : option (AddressSpace * W) :=
  match l with
  | [] => Some (s, w)
  | page :: l =>
    match unmap_mapping w s page with
    | None => None
    | Some (Err _, s, w) => unmap_pages w s l
    | Some (Ok u, s, w) =>
      match drop_reference w (um_ownership u) (um_frame u) with
      | None => None
      | Some w => unmap_pages w s l
      end
    end
  end.
Definition unmap_span (w : W) (s : AddressSpace) (span : Span) : option (AddressSpace * W) :=
  unmap_pages w s (pages (span_start span) (span_end span)).

(** A page is made inaccessible after it is mapped. *)
Definition hide (w : W) (s : AddressSpace) (prot : Protection) (page : Z) : result Errno unit * W :=
  if bool_decide (prot = PROT_NONE) then
    match protect_inaccessible w s page with (Ok _, w) => (Ok tt, w) | (Err _, w) => (Err ENOMEM, w) end
  else (Ok tt, w).

(** One page on a frame of its own; [reserve] says whether the kernel heap
    has room for its entry. *)
Definition map_zeroed (reserve : bool) (w : W) (s : AddressSpace) (page : Z) (prot : Protection)
  : option (result Errno unit * AddressSpace * W) :=
  match alloc_frame_zeroed w with
  | (None, w) => Some (Err ENOMEM, s, w)
  | (Some new, w) =>
    match map_owned reserve w s page new (page_flags prot) with
    | None => None
    | Some (Err _, s, w) => match free_frame w new with Some w => Some (Err ENOMEM, s, w) | None => None end
    | Some (Ok _, s, w) => let '(r, w) := hide w s prot page in Some (r, s, w)
    end
  end.

Fixpoint map_pages (reserve : Z -> bool) (w : W) (s : AddressSpace) (span : Span) (l : list Z)
  : option (result Errno unit * AddressSpace * W) :=
  match l with
  | [] => Some (Ok tt, s, w)
  | page :: l =>
    match map_zeroed (reserve page) w s page (span_prot span) with
    | None => None
    | Some (Err e, s, w) =>
      match unmap_span w s (mkSpan (span_start span) (page + PAGE_SIZE) (span_prot span)) with
      | None => None
      | Some (s, w) => Some (Err e, s, w)
      end
    | Some (Ok _, s, w) => map_pages reserve w s span l
    end
  end.
Definition map_span (reserve : Z -> bool) (w : W) (s : AddressSpace) (span : Span) :=
  map_pages reserve w s span (pages (span_start span) (span_end span)).

Definition protect_one (w : W) (s : AddressSpace) (prot : Protection) (page : Z) : result AddressSpaceError unit * W :=
  if bool_decide (prot = PROT_NONE) then protect_inaccessible w s page else protect w s page (page_flags prot).
Fixpoint protect_pages (w : W) (s : AddressSpace) (prot : Protection) (l : list Z) : result Errno unit * W :=
  match l with
  | [] => (Ok tt, w)
  | page :: l => match protect_one w s prot page with (Ok _, w) => protect_pages w s prot l | (Err _, w) => (Err ENOMEM, w) end
  end.
Definition protect_span (w : W) (s : AddressSpace) (span : Span) : result Errno unit * W :=
  protect_pages w s (span_prot span) (pages (span_start span) (span_end span)).

Fixpoint unmap_spans (w : W) (s : AddressSpace) (l : list Span) : option (AddressSpace * W) :=
  match l with
  | [] => Some (s, w)
  | span :: l => match unmap_span w s span with Some (s, w) => unmap_spans w s l | None => None end
  end.
Fixpoint protect_spans (w : W) (s : AddressSpace) (l : list Span) : result Errno unit * W :=
  match l with
  | [] => (Ok tt, w)
  | span :: l => match protect_span w s span with (Ok _, w) => protect_spans w s l | r => r end
  end.

(** ** The calls, on the space of the process *)

Definition brk_in (reserve : Z -> bool) (w : W) (o : OwnedSpace) (address : Z) : option (Z * OwnedSpace * W) :=
  let current := brk (os_map o) in
  if address =? 0 then Some (current, o, w) else
  match set_brk (os_map o) address with
  | (Err _, map) => Some (current, mkOwnedSpace (os_space o) map, w)
  | (Ok Unchanged, map) => Some (brk map, mkOwnedSpace (os_space o) map, w)
  | (Ok (UnmapSpan span), map) =>
    match unmap_span w (os_space o) span with
    | None => None
    | Some (s, w) => Some (brk map, mkOwnedSpace s map, w)
    end
  | (Ok (MapSpan span), map) =>
    match map_span reserve w (os_space o) span with
    | None => None
    | Some (Err _, s, w) => Some (current, mkOwnedSpace s (os_map o), w)
    | Some (Ok _, s, w) => Some (brk map, mkOwnedSpace s map, w)
    end
  end.

Definition mmap_in (reserve : Z -> bool) (w : W) (o : OwnedSpace) (hint length : Z) (prot : Protection) (fixed : bool)
  : option (result Errno Z * OwnedSpace * W) :=
  match mmap (os_map o) hint length prot fixed with
  | (Err e, map) => Some (Err e, mkOwnedSpace (os_space o) map, w)
  | (Ok change, map) =>
    match unmap_spans w (os_space o) (replaced change) with
    | None => None
    | Some (s, w) =>
      match map_span reserve w s (new_span change) with
      | None => None
      | Some (Err e, s, w) =>
        let '(_, map) := remove (os_map o) (span_start (new_span change)) (span_end (new_span change)) in
        Some (Err e, mkOwnedSpace s map, w)
      | Some (Ok _, s, w) => Some (Ok (Vma.address change), mkOwnedSpace s map, w)
      end
    end
  end.

(** The pages of a device in order, and where the mapped ones end. *)
Fixpoint map_device_pages (reserve : Z -> bool) (w : W) (s : AddressSpace) (prot : Protection) (start physical mapped : Z) (l : list Z)
  : option (result Errno unit * Z * AddressSpace * W) :=
  match l with
  | [] => Some (Ok tt, mapped, s, w)
  | page :: l =>
    match map_device (reserve page) w s page (physical + (page - start)) (with_cache (page_flags prot) true false) with
    | None => None
    | Some (Err _, s, w) => Some (Err ENOMEM, mapped, s, w)
    | Some (Ok _, s, w) =>
      match hide w s prot page with
      | (Err e, w) => Some (Err e, mapped, s, w)
      | (Ok _, w) => map_device_pages reserve w s prot start physical (page + PAGE_SIZE) l
      end
    end
  end.

Definition mmap_device_in (reserve : Z -> bool) (w : W) (o : OwnedSpace) (hint length : Z) (prot : Protection) (physical : Z) (fixed : bool)
  : option (result Errno Z * OwnedSpace * W) :=
  match mmap_device (os_map o) hint length prot physical fixed with
  | (Err e, map) => Some (Err e, mkOwnedSpace (os_space o) map, w)
  | (Ok change, map) =>
    let start := span_start (new_span change) in
    match unmap_spans w (os_space o) (replaced change) with
    | None => None
    | Some (s, w) =>
      match map_device_pages reserve w s prot start physical start (pages start (span_end (new_span change))) with
      | None => None
      | Some (Err e, mapped, s, w) =>
        match unmap_span w s (mkSpan start mapped prot) with
        | None => None
        | Some (s, w) => let '(_, map) := remove (os_map o) start (span_end (new_span change)) in Some (Err e, mkOwnedSpace s map, w)
        end
      | Some (Ok _, _, s, w) => Some (Ok (Vma.address change), mkOwnedSpace s map, w)
      end
    end
  end.

Definition munmap_in (w : W) (o : OwnedSpace) (start length : Z) : option (result Errno unit * OwnedSpace * W) :=
  match munmap (os_map o) start length with
  | (Err e, map) => Some (Err e, mkOwnedSpace (os_space o) map, w)
  | (Ok spans, map) =>
    match unmap_spans w (os_space o) spans with
    | None => None
    | Some (s, w) => Some (Ok tt, mkOwnedSpace s map, w)
    end
  end.

Definition mprotect_in (w : W) (o : OwnedSpace) (start length : Z) (prot : Protection) : result Errno unit * OwnedSpace * W :=
  match mprotect (os_map o) start length prot with
  | (Err e, map) => (Err e, mkOwnedSpace (os_space o) map, w)
  | (Ok changed, map) =>
    match protect_spans w (os_space o) changed with
    | (Err e, w) => (Err e, o, w)
    | (Ok _, w) => (Ok tt, mkOwnedSpace (os_space o) map, w)
    end
  end.
End Spans.

(** ** The registry of address spaces *)

Definition NO_SPACE : Z := U64_MAX.
Inductive RegistryError : Type := Unknown | AlreadyBound.

Record Registry : Type := mkRegistry { entries : list (Z * Z); next_id : Z }.
Definition new_registry : Registry := mkRegistry [] 1.

Fixpoint lookup_id {A} (l : list (Z * A)) (id : Z) : option A :=
  match l with [] => None | (i, x) :: l => if i =? id then Some x else lookup_id l id end.
Fixpoint position_id {A} (l : list (Z * A)) (id : Z) : option nat :=
  match l with [] => None | (i, _) :: l => if i =? id then Some O else option_map S (position_id l id) end.
(** The first entry of [id] replaced. *)
Fixpoint update_id {A} (l : list (Z * A)) (id : Z) (x : A) : list (Z * A) :=
  match l with [] => [] | (i, y) :: l => if i =? id then (i, x) :: l else (i, y) :: update_id l id x end.

Definition register (r : Registry) (root : Z) : Z * Registry :=
  (next_id r, mkRegistry (entries r ++ [(next_id r, root)]) (Z.min (next_id r + 1) U64_MAX)).
Definition bind (r : Registry) (id root : Z) : result RegistryError unit * Registry :=
  if existsb (fun e => fst e =? id) (entries r) then (Err AlreadyBound, r)
  else (Ok tt, mkRegistry (entries r ++ [(id, root)]) (next_id r)).
Definition unregister (r : Registry) (id : Z) : result RegistryError Z * Registry :=
  match position_id (entries r) id with
  | None => (Err Unknown, r)
  | Some i =>
    match entries r !! i with
    | Some (_, root) => (Ok root, mkRegistry (swap_remove (entries r) i) (next_id r))
    | None => (Err Unknown, r)
    end
  end.
Definition root_of (r : Registry) (id : Z) : result RegistryError Z :=
  match lookup_id (entries r) id with Some root => Ok root | None => Err Unknown end.

(** The statics of the module, and the root the processor runs on. *)
Record Manager : Type := mkManager {
  registry : Registry; owned_spaces : list (Z * OwnedSpace); active_space : Z; activation_count : Z; cr3 : Z
}.
Definition set_owned (m : Manager) (l : list (Z * OwnedSpace)) : Manager :=
  mkManager (registry m) l (active_space m) (activation_count m) (cr3 m).
Definition active (m : Manager) : option Z := if active_space m =? NO_SPACE then None else Some (active_space m).

Definition register_owned_with_map (m : Manager) (s : AddressSpace) (map : MemoryMap) : Z * Manager :=
  let '(id, r) := register (registry m) (root s) in
  (id, mkManager r (owned_spaces m ++ [(id, mkOwnedSpace s map)]) (active_space m) (activation_count m) (cr3 m)).
Definition register_owned (m : Manager) (s : AddressSpace) : Z * Manager := register_owned_with_map m s (mkMap [] 0 0 0).

(** [kernel_root] is the kernel's own table, the one to fall back to. *)
Definition activate_if_changed (kernel_root : Z) (m : Manager) (id : option Z) : result RegistryError bool * Manager :=
  let encoded := default NO_SPACE id in
  if active_space m =? encoded then (Ok false, m) else
  match (match id with Some id => root_of (registry m) id | None => Ok kernel_root end) with
  | Err e => (Err e, m)
  | Ok root => (Ok true, mkManager (registry m) (owned_spaces m) encoded ((activation_count m + 1) mod U64_MOD) root)
  end.

Section Manager.
Context {W : Type} `{Frames W} (kernel_pml4 : Z -> Z).

Definition with_owned_mut {R} (w : W) (m : Manager) (id : Z) (operation : W -> OwnedSpace -> option (R * OwnedSpace * W))
  : option (result RegistryError R * Manager * W) :=
  match lookup_id (owned_spaces m) id with
  | None => Some (Err Unknown, m, w)
  | Some o =>
    match operation w o with
    | None => None
    | Some (r, o, w) => Some (Ok r, set_owned m (update_id (owned_spaces m) id o), w)
    end
  end.

Definition release (w : W) (m : Manager) (id : Z) : option (result RegistryError unit * Manager * W) :=
  if bool_decide (active m = Some id) then None else
  match position_id (owned_spaces m) id with
  | None => Some (Err Unknown, m, w)
  | Some i =>
    match owned_spaces m !! i with
    | None => None
    | Some (_, o) =>
      let '(r, registry) := unregister (registry m) id in
      let m := mkManager registry (swap_remove (owned_spaces m) i) (active_space m) (activation_count m) (cr3 m) in
      match drop_space (cr3 m) w (os_space o) with
      | None => None
      | Some w => Some (result_map (fun _ => tt) r, m, w)
      end
    end
  end.

(** [busy]: the fault came while the registry was locked. *)
Definition resolve_cow_active (busy : bool) (w : W) (m : Manager) (address : Z) : option (CowResolution * Manager * W) :=
  match active m with
  | None => Some (NotCow, m, w)
  | Some id =>
    if busy then Some (NotCow, m, w) else
    match lookup_id (owned_spaces m) id with
    | None => Some (NotCow, m, w)
    | Some o =>
      match resolve_cow w (os_space o) address with
      | None => None
      | Some (r, s, w) => Some (r, set_owned m (update_id (owned_spaces m) id (mkOwnedSpace s (os_map o))), w)
      end
    end
  end.

(** [with_space]: an unknown id is [ENOMEM]. *)
Definition with_space {R} (w : W) (m : Manager) (id : Z) (operation : W -> OwnedSpace -> option (result Errno R * OwnedSpace * W))
  : option (result Errno R * Manager * W) :=
  match with_owned_mut w m id operation with
  | None => None
  | Some (Ok r, m, w) => Some (r, m, w)
  | Some (Err _, m, w) => Some (Err ENOMEM, m, w)
  end.

Definition sys_brk (reserve : Z -> bool) (w : W) (m : Manager) (id address : Z) : option (Z * Manager * W) :=
  match with_space w m id (fun w o => match brk_in reserve w o address with Some (b, o, w) => Some (Ok b, o, w) | None => None end) with
  | None => None
  | Some (Ok b, m, w) => Some (b, m, w)
  | Some (Err _, m, w) => Some (0, m, w)
  end.
Definition sys_mmap (reserve : Z -> bool) (w : W) (m : Manager) (id hint length : Z) (prot : Protection) (fixed : bool) :=
  with_space w m id (fun w o => mmap_in reserve w o hint length prot fixed).
Definition sys_mmap_device (reserve : Z -> bool) (w : W) (m : Manager) (id hint length : Z) (prot : Protection) (physical : Z) (fixed : bool) :=
  with_space w m id (fun w o => mmap_device_in reserve w o hint length prot physical fixed).
Definition sys_munmap (w : W) (m : Manager) (id start length : Z) := with_space w m id (fun w o => munmap_in w o start length).
Definition sys_mprotect (w : W) (m : Manager) (id start length : Z) (prot : Protection) :=
  with_space w m id (fun w o => Some (mprotect_in w o start length prot)).

(** The address space of a forked child: a copy-on-write space with a copy of
    the map, registered once the child's task is built. *)
Definition fork_space (reserve_owned reserve_devices : bool) (w : W) (m : Manager) (id : Z) : option (result Errno Z * Manager * W) :=
  match with_owned_mut w m id (fun w o =>
    match fork_cow kernel_pml4 (cr3 m) reserve_owned reserve_devices w (os_space o) with
    | None => None
    | Some (Ok child, w) => Some (Ok (child, os_map o), o, w)
    | Some (Err e, w) => Some (Err e, o, w)
    end) with
  | None => None
  | Some (Ok (Ok (child, map)), m, w) => let '(id, m) := register_owned_with_map m child map in Some (Ok id, m, w)
  | Some (_, m, w) => Some (Err ENOMEM, m, w)
  end.
End Manager.
End UserMemory.
