(* ===== verification/PagingTree.v ===== *)
(** * PagingTree: what page tables in memory mean

    The laws a frame allocator gives its clients, the bits of a page-table
    entry, and the tree a root describes: which frame is the table of which
    level and prefix, with every entry of an upper table determined by it. *)

From stdpp Require Import base numbers list.
From S2P Require Import Prelude Paging.
Local Open Scope Z_scope.

Module PagingTree.
Import Paging.

(** ** The laws of frames *)

Definition is_frame (f : Z) : Prop := Z.land f ADDRESS_MASK = f.

(** [refs] counts the references to a frame the allocator manages. Only the
    contents of frames without a reference belong to the allocator. *)
Class FramesLaws (W : Type) `{Frames W} : Type := {
  frames_wf : W -> Prop;
  managed : Z -> Prop;
  refs : W -> Z -> Z;
  managed_frame f : managed f -> is_frame f;
  refs_managed w f : frames_wf w -> refs w f <> 0 -> managed f;
  refs_nonneg w f : frames_wf w -> 0 <= refs w f;
  set_memory_spec w m : frames_wf w -> (forall f i, managed f -> refs w f = 0 -> m f i = memory w f i) ->
    frames_wf (set_memory w m) /\ (forall f, refs (set_memory w m) f = refs w f) /\ forall f i, memory (set_memory w m) f i = m f i;
  alloc_frame_spec w r w' : frames_wf w -> alloc_frame w = (r, w') ->
    frames_wf w' /\
    (forall g, refs w' g = if bool_decide (r = Some g) then 1 else refs w g) /\
    (forall g i, refs w g <> 0 \/ ~ managed g -> memory w' g i = memory w g i) /\
    (forall f, r = Some f -> managed f /\ refs w f = 0);
  free_frame_spec w f : frames_wf w -> 0 < refs w f ->
    exists w', free_frame w f = Some w' /\ frames_wf w' /\
    (forall g, refs w' g = if g =? f then refs w f - 1 else refs w g) /\
    (forall g i, refs w' g <> 0 \/ ~ managed g -> memory w' g i = memory w g i);
  frame_get_spec w f ok w' : frames_wf w -> 0 < refs w f -> frame_get w f = (ok, w') ->
    frames_wf w' /\ (forall g, refs w' g = if ok && (g =? f) then refs w f + 1 else refs w g) /\
    (forall g i, refs w g <> 0 \/ ~ managed g -> memory w' g i = memory w g i);
  frame_refcount_spec w f : frames_wf w -> refs w f <> 0 -> frame_refcount w f = Some (refs w f);
  frame_refcount_other w f : frames_wf w -> ~ managed f -> default 1 (frame_refcount w f) <= 1
}.

(** ** Entries *)

Lemma land_mask_flags f fl b : is_frame f -> Z.land ADDRESS_MASK b = 0 -> Z.land (Z.lor f fl) b = Z.land fl b.
Proof.
  intros Hf Hb. rewrite Z.land_lor_distr_l. unfold is_frame in Hf. rewrite <- Hf at 1. rewrite <- Z.land_assoc, Hb, Z.land_0_r. apply Z.lor_0_l.
Qed.

Lemma has_entry f fl b : is_frame f -> Z.land ADDRESS_MASK b = 0 -> has (Z.lor f fl) b = has fl b.
Proof. intros Hf Hb. unfold has. by rewrite land_mask_flags. Qed.

Lemma address_entry f fl : is_frame f -> Z.land fl ADDRESS_MASK = 0 -> address (Z.lor f fl) = f.
Proof. intros Hf Hb. unfold address. by rewrite Z.land_lor_distr_l, Hb, Hf, Z.lor_0_r. Qed.

Lemma flags_entry f fl : is_frame f -> Z.land fl ADDRESS_MASK = 0 -> Z.land (Z.lor f fl) (Z.lnot ADDRESS_MASK) = fl.
Proof.
  intros Hf Hb. rewrite land_mask_flags; [|done|apply Z.land_lnot_diag]. rewrite <- Z.ldiff_land.
  pose proof (Z.lor_ldiff_and fl ADDRESS_MASK) as E. by rewrite Hb, Z.lor_0_r in E.
Qed.

Lemma address_is_frame e : is_frame (address e).
Proof. unfold is_frame, address. by rewrite <- Z.land_assoc, Z.land_diag. Qed.

Lemma has_bit x k : 0 <= k -> has x (2 ^ k) = Z.testbit x k.
Proof.
  intros Hk. unfold has. destruct (Z.testbit x k) eqn:Hb.
  - apply negb_true_iff, Z.eqb_neq. intros Hz. assert (Ht : Z.testbit (Z.land x (2 ^ k)) k = true).
    { by rewrite Z.land_spec, Hb, Z.pow2_bits_true. }
    by rewrite Hz, Z.bits_0 in Ht.
  - apply negb_false_iff, Z.eqb_eq. apply Z.bits_inj'. intros n Hn. rewrite Z.land_spec, Z.bits_0.
    destruct (decide (n = k)) as [->|Hne]; [by rewrite Hb|]. rewrite Z.pow2_bits_false by done. apply andb_false_r.
Qed.

Lemma has_0 b : has 0 b = false.
Proof. unfold has. by rewrite Z.land_0_l. Qed.

(** ** Pages and indices *)

(** User addresses are below 2^47: 2^35 pages. *)
Definition page_of (va : Z) : Z := va / 4096.
Definition PAGES : Z := 34359738368.

(** The index of a page in its table of level [k], 0 the last. *)
Definition index (k : nat) (page : Z) : Z := (page / 512 ^ Z.of_nat k) mod 512.
(** The prefix that selects the table. *)
Definition prefix (k : nat) (page : Z) : Z := page / 512 ^ (Z.of_nat k + 1).

Lemma index_bound k page : 0 <= index k page < 512.
Proof. apply Z.mod_pos_bound. lia. Qed.

Lemma prefix_S k page : 0 <= page -> prefix (S k) page = prefix k page / 512.
Proof.
  intros Hp. unfold prefix. rewrite Z.div_div by (try apply Z.pow_pos_nonneg; lia).
  f_equal. replace (Z.of_nat (S k) + 1) with (Z.succ (Z.of_nat k + 1)) by lia. rewrite Z.pow_succ_r by lia. lia.
Qed.
Lemma index_S k page : index (S k) page = prefix k page mod 512.
Proof. unfold index, prefix. do 3 f_equal. lia. Qed.
Lemma prefix_index k page : 0 <= page -> prefix (S k) page * 512 + index (S k) page = prefix k page.
Proof. intros Hp. rewrite prefix_S, index_S by done. pose proof (Z.div_mod (prefix k page) 512). lia. Qed.

Lemma walk_index va k n : 0 <= va -> n = 12 + 9 * Z.of_nat k -> Z.land (Z.shiftr va n) 0x1ff = index k (page_of va).
Proof.
  intros Hva ->. change 0x1ff with (Z.ones 9). rewrite Z.land_ones, Z.shiftr_div_pow2 by lia.
  unfold index, page_of. change 512 with (2 ^ 9). rewrite <- Z.pow_mul_r by lia.
  rewrite Z.pow_add_r by lia. rewrite <- Z.div_div; [done| |]; apply Z.pow_nonzero || apply Z.pow_pos_nonneg; lia.
Qed.
Lemma pt_index_eq va : 0 <= va -> pt_index va = index 0 (page_of va).
Proof. intros H. by apply walk_index. Qed.
Lemma pd_index_eq va : 0 <= va -> pd_index va = index 1 (page_of va).
Proof. intros H. by apply walk_index. Qed.
Lemma pdpt_index_eq va : 0 <= va -> pdpt_index va = index 2 (page_of va).
Proof. intros H. by apply walk_index. Qed.
Lemma pml4_index_eq va : 0 <= va -> pml4_index va = index 3 (page_of va).
Proof. intros H. by apply walk_index. Qed.

(** Prefixes of user pages at each level. *)
Definition bound (k : nat) : Z := match k with O => 67108864 | 1%nat => 131072 | 2%nat => 256 | _ => 1 end.

Lemma prefix_bound k page : 0 <= page < PAGES -> 0 <= prefix k page < bound k \/ (3 < k)%nat.
Proof.
  intros Hp. unfold prefix, PAGES in *. destruct (decide (3 < k)%nat) as [|Hk]; [by right|left].
  do 4 (destruct k as [|k]; [match goal with |- context [512 ^ ?n] =>
    let v := eval vm_compute in (512 ^ n) in change (512 ^ n) with v end; cbn [bound]; split; [apply Z.div_pos; lia|apply Z.div_lt_upper_bound; lia]|]). lia.
Qed.

Lemma indices_spec i : i ∈ indices <-> 0 <= i < 512.
Proof.
  unfold indices. rewrite list_elem_of_fmap. split.
  - intros (n & -> & Hn). apply elem_of_seq in Hn. lia.
  - intros Hi. exists (Z.to_nat i). split; [lia|]. apply elem_of_seq. lia.
Qed.

Section Tree.
Context {W : Type} {HF : Frames W} {HL : FramesLaws W} (kernel_pml4 : Z -> Z).
Implicit Types (w : W) (T : nat -> Z -> option Z) (D : Z -> Prop).

(** ** Memory in use *)

Definition live w (g : Z) : Prop := refs w g <> 0 \/ ~ managed g.

(** Outside [D] nothing that is in use changes. *)
Definition keeps D w w' : Prop :=
  forall g, ~ D g -> refs w' g = refs w g /\ (live w g -> forall i, memory w' g i = memory w g i).

Lemma keeps_live D w w' g : keeps D w w' -> ~ D g -> live w g -> live w' g.
Proof. intros Hk Hg [Hl|Hl]; [left; by rewrite (proj1 (Hk g Hg))|by right]. Qed.

Lemma keeps_refl D w : keeps D w w.
Proof. done. Qed.
Lemma keeps_weaken D D' w w' : keeps D w w' -> (forall g, D g -> D' g) -> keeps D' w w'.
Proof. intros Hk HD g Hg. apply Hk. auto. Qed.
Lemma keeps_trans D w1 w2 w3 : keeps D w1 w2 -> keeps D w2 w3 -> keeps D w1 w3.
Proof.
  intros H1 H2 g Hg. destruct (H1 g Hg) as [R1 M1], (H2 g Hg) as [R2 M2]. split; [congruence|].
  intros Hl i. rewrite M2; [by apply M1|]. by apply (keeps_live D w1).
Qed.

Lemma write_correct w f i v :
  frames_wf w -> live w f ->
  frames_wf (write w f i v) /\ (forall g, refs (write w f i v) g = refs w g) /\
  forall g j, memory (write w f i v) g j = if (g =? f) && (j =? i) then v else memory w g j.
Proof.
  intros Hw Hf. apply set_memory_spec; [done|]. intros g j Hm Hr. destruct (Z.eqb_spec g f) as [->|]; [|done].
  destruct Hf; done.
Qed.

Lemma write_keeps w f i v : frames_wf w -> live w f -> keeps (eq f) w (write w f i v).
Proof.
  intros Hw Hf g Hg. destruct (write_correct w f i v Hw Hf) as (_ & Hr & Hm). split; [done|]. intros _ j. rewrite Hm.
  by destruct (Z.eqb_spec g f) as [->|].
Qed.

Lemma write_same w f i v j : frames_wf w -> live w f -> j <> i -> memory (write w f i v) f j = memory w f j.
Proof.
  intros Hw Hf Hj. rewrite (proj2 (proj2 (write_correct w f i v Hw Hf))). rewrite Z.eqb_refl. cbn.
  by rewrite (proj2 (Z.eqb_neq _ _) Hj).
Qed.
Lemma write_eq w f i v : frames_wf w -> live w f -> memory (write w f i v) f i = v.
Proof. intros Hw Hf. rewrite (proj2 (proj2 (write_correct w f i v Hw Hf))). by rewrite !Z.eqb_refl. Qed.

Lemma fill_correct w f m :
  frames_wf w -> live w f ->
  frames_wf (fill w f m) /\ (forall g, refs (fill w f m) g = refs w g) /\
  forall g j, memory (fill w f m) g j = if g =? f then m j else memory w g j.
Proof.
  intros Hw Hf. apply set_memory_spec; [done|]. intros g j Hm Hr. destruct (Z.eqb_spec g f) as [->|]; [|done].
  destruct Hf; done.
Qed.

(** A fresh, cleared table, or nothing. *)
Lemma alloc_table_spec w r w' :
  frames_wf w -> alloc_table w = (r, w') ->
  frames_wf w' /\ (forall g, refs w' g = if bool_decide (r = Some g) then 1 else refs w g) /\
  keeps (fun g => r = Some g) w w' /\
  forall f, r = Some f -> managed f /\ refs w f = 0 /\ forall i, memory w' f i = 0.
Proof.
  intros Hw E. unfold alloc_table in E. destruct (alloc_frame w) as [[f|] w1] eqn:Ea; injection E as <- <-;
    destruct (alloc_frame_spec _ _ _ Hw Ea) as (Hw1 & Hr & Hm & Hf).
  - destruct (Hf f eq_refl) as [Hman Hz].
    assert (Hl : live w1 f) by (left; rewrite Hr, bool_decide_true; done).
    destruct (fill_correct w1 f (fun _ => 0) Hw1 Hl) as (Hw2 & Hr2 & Hm2).
    split; [done|]. split; [intros g; by rewrite Hr2, Hr|]. split.
    + intros g Hg. rewrite Hr2, Hr, bool_decide_false by done. split; [done|]. intros Hlg i. rewrite Hm2.
      destruct (Z.eqb_spec g f) as [->|]; [done|by apply Hm].
    + intros ? [= <-]. split; [done|]. split; [done|]. intros i. by rewrite Hm2, Z.eqb_refl.
  - split; [done|]. split; [done|]. split; [|done]. intros g _. split; [by rewrite Hr|]. intros Hl i. by apply Hm.
Qed.

(** ** Trees *)

(** The entry that leads to a table. *)
Definition table_entry (t : option Z) : Z := match t with Some f => Z.lor f USER_TABLE | None => 0 end.

(** [T k p] is the table of level [k] for the pages with prefix [p]. *)
Record tree w (root : Z) T : Prop := mk_tree {
  tr_root : T 3%nat 0 = Some root;
  tr_dom : forall k p f, T k p = Some f -> (k <= 3)%nat /\ 0 <= p < bound k;
  tr_frame : forall k p f, T k p = Some f -> managed f /\ refs w f = 1;
  tr_inj : forall k p k' p' f, T k p = Some f -> T k' p' = Some f -> k = k' /\ p = p';
  tr_parent : forall k p f, T k p = Some f -> (k < 3)%nat -> T (S k) (p / 512) <> None;
  tr_entry : forall k p f i, T (S k) p = Some f -> 0 <= i < 512 -> p * 512 + i < bound k -> memory w f i = table_entry (T k (p * 512 + i));
  tr_kernel : forall i, 256 <= i < 512 -> memory w root i = kernel_pml4 i;
  tr_leaf : forall p f i, T O p = Some f -> 0 <= i < 512 -> memory w f i = 0 \/ has (memory w f i) PRESENT = true
}.

Definition tables T (f : Z) : Prop := exists k p, T k p = Some f.

(** The leaf of a page, 0 without a last table. *)
Definition view w T (page : Z) : Z := match T O (prefix 0 page) with Some f => memory w f (index 0 page) | None => 0 end.

Lemma tree_live w root T k p f : tree w root T -> T k p = Some f -> live w f.
Proof. intros Ht Hf. left. rewrite (proj2 (tr_frame _ _ _ Ht _ _ _ Hf)). lia. Qed.

(** A tree depends on its own frames only. *)
Definition agree w w' (D : Z -> Prop) : Prop := forall g, D g -> refs w' g = refs w g /\ forall i, memory w' g i = memory w g i.

Lemma tree_agree w w' root T : agree w w' (tables T) -> tree w root T -> tree w' root T.
Proof.
  intros Ha Ht.
  assert (Hm : forall k p f, T k p = Some f -> refs w' f = refs w f /\ forall i, memory w' f i = memory w f i)
    by (intros k p f Hf; apply Ha; by exists k, p).
  destruct Ht as [H1 H2 H3 H4 H5 H6 H7 H8]. split; auto.
  - intros k p f Hf. rewrite (proj1 (Hm _ _ _ Hf)). eauto.
  - intros k p f i Hf Hi Hb. rewrite (proj2 (Hm _ _ _ Hf)). by apply H6.
  - intros i Hi. rewrite (proj2 (Hm _ _ _ H1)). by apply H7.
  - intros p f i Hf Hi. rewrite (proj2 (Hm _ _ _ Hf)). by eapply H8.
Qed.

Lemma view_agree w w' T page : agree w w' (tables T) -> view w' T page = view w T page.
Proof. intros Ha. unfold view. destruct (T O (prefix 0 page)) as [f|] eqn:E; [|done]. apply Ha. by eexists _, _. Qed.

Lemma keeps_agree D w w' root T : keeps D w w' -> (forall g, tables T g -> ~ D g) -> tree w root T -> agree w w' (tables T).
Proof.
  intros Hk HD Ht g Hg. pose proof (HD g Hg) as Hn. destruct Hg as (k & p & Hg). destruct (Hk g Hn) as [Hr Hm].
  split; [done|]. by apply Hm, (tree_live _ _ _ _ _ _ Ht Hg).
Qed.

Lemma tree_keeps D w w' root T : keeps D w w' -> (forall g, tables T g -> ~ D g) -> tree w root T -> tree w' root T.
Proof. intros Hk HD Ht. eapply tree_agree; [by eapply keeps_agree|done]. Qed.

Lemma view_keeps D w w' root T page : keeps D w w' -> (forall g, tables T g -> ~ D g) -> tree w root T -> view w' T page = view w T page.
Proof. intros Hk HD Ht. apply view_agree. by eapply keeps_agree. Qed.

(** ** Reading a tree *)

Lemma table_entry_Some f : managed f ->
  has (table_entry (Some f)) PRESENT = true /\ has (table_entry (Some f)) HUGE = false /\ address (table_entry (Some f)) = f.
Proof.
  intros Hf%managed_frame. cbn [table_entry]. rewrite !has_entry by done. split; [done|]. split; [done|]. by apply address_entry.
Qed.

Lemma from_table_entry t : (forall f, t = Some f -> managed f) ->
  table_from_entry (table_entry t) = match t with Some f => Ok f | None => Err NotMapped end.
Proof.
  intros Hm. unfold table_from_entry. destruct t as [f|]; [|done].
  destruct (table_entry_Some f) as (-> & -> & ->); [auto|done].
Qed.

Lemma upper_entry w root T k page f :
  tree w root T -> 0 <= page < PAGES -> (k < 3)%nat -> T (S k) (prefix (S k) page) = Some f ->
  memory w f (index (S k) page) = table_entry (T k (prefix k page)).
Proof.
  intros Ht Hp Hk Hf. rewrite <- (prefix_index k page) by lia. apply (tr_entry _ _ _ Ht); [done|apply index_bound|].
  rewrite prefix_index by lia. destruct (prefix_bound k page Hp) as [?|?]; lia.
Qed.

Lemma tree_managed w root T k p f : tree w root T -> T k p = Some f -> managed f.
Proof. intros Ht Hf. by apply (tr_frame _ _ _ Ht _ _ _ Hf). Qed.

Lemma prefix_3 page : 0 <= page < PAGES -> prefix 3 page = 0.
Proof. intros Hp. destruct (prefix_bound 3 page Hp) as [Hb|?]; [|lia]. cbn [bound] in Hb. lia. Qed.

(** A missing table hides the ones below it. *)
Lemma absent_below w root T k page : tree w root T -> 0 <= page -> (k < 3)%nat -> T (S k) (prefix (S k) page) = None -> T k (prefix k page) = None.
Proof.
  intros Ht Hp Hk Hn. destruct (T k (prefix k page)) as [f|] eqn:E; [|done].
  pose proof (tr_parent _ _ _ Ht _ _ _ E Hk) as Hc. rewrite prefix_S in Hn by done. done.
Qed.

Lemma absent_below_2 w root T page : tree w root T -> 0 <= page -> T 2%nat (prefix 2 page) = None -> T O (prefix 0 page) = None.
Proof.
  intros Ht Hp Hn. apply (absent_below w root T 0); [done..|lia|]. apply (absent_below w root T 1); [done..|lia|done].
Qed.
Lemma absent_below_1 w root T page : tree w root T -> 0 <= page -> T 1%nat (prefix 1 page) = None -> T O (prefix 0 page) = None.
Proof. intros Ht Hp Hn. apply (absent_below w root T 0); [done..|lia|done]. Qed.

Definition user_page (va : Z) : Prop := 0 <= va < 2 ^ 47 /\ va mod 4096 = 0.

Lemma user_page_range va : user_page va -> 0 <= page_of va < PAGES.
Proof. intros [Hva _]. unfold page_of, PAGES. split; [apply Z.div_pos; lia|apply Z.div_lt_upper_bound; lia]. Qed.
Lemma page_of_inj a b : user_page a -> user_page b -> page_of a = page_of b -> a = b.
Proof. intros [_ Ha] [_ Hb] E. unfold page_of in E. pose proof (Z.div_mod a 4096). pose proof (Z.div_mod b 4096). lia. Qed.

Lemma page_offset va : Z.land va (PAGE_SIZE - 1) = va mod 4096.
Proof. change (PAGE_SIZE - 1) with (Z.ones 12). by rewrite Z.land_ones. Qed.

(** The three tables above the last one, as the walks of the code read them. *)
Lemma walk_entries w root T va :
  tree w root T -> user_page va ->
  memory w root (pml4_index va) = table_entry (T 2%nat (prefix 2 (page_of va))) /\
  (forall f, T 2%nat (prefix 2 (page_of va)) = Some f -> memory w f (pdpt_index va) = table_entry (T 1%nat (prefix 1 (page_of va)))) /\
  (forall f, T 1%nat (prefix 1 (page_of va)) = Some f -> memory w f (pd_index va) = table_entry (T O (prefix 0 (page_of va)))).
Proof.
  intros Ht Hva. pose proof (user_page_range va Hva) as Hp. destruct Hva as [[Hva _] _].
  rewrite pml4_index_eq, pdpt_index_eq, pd_index_eq by done. split; [|split].
  - apply (upper_entry w root T 2); [done..|lia|]. rewrite prefix_3 by done. apply Ht.
  - intros f Hf. apply (upper_entry w root T 1); [done..|lia|done].
  - intros f Hf. apply (upper_entry w root T 0); [done..|lia|done].
Qed.

(** Walking from the root finds the page's view. *)
Lemma page_entry_spec w s T va :
  tree w (root s) T -> user_page va ->
  page_entry_inner w s va = if has (view w T (page_of va)) PRESENT then Ok (view w T (page_of va)) else Err NotMapped.
Proof.
  intros Ht Hva. destruct (walk_entries _ _ _ _ Ht Hva) as (E3 & E2 & E1). pose proof (user_page_range va Hva) as Hp.
  destruct Hva as [Hva Ha]. unfold page_entry_inner. rewrite page_offset, Ha. cbn [Z.eqb negb].
  destruct (Z.leb_spec (2 ^ 47) va) as [|_]; [lia|]. rewrite E3. unfold view.
  rewrite from_table_entry by (intros; by eapply tree_managed).
  destruct (T 2%nat _) as [f2|] eqn:H2; [|by rewrite (absent_below_2 w (root s)), has_0 by (done || lia)].
  rewrite (E2 f2) by done. rewrite from_table_entry by (intros; by eapply tree_managed).
  destruct (T 1%nat _) as [f1|] eqn:H1; [|by rewrite (absent_below_1 w (root s)), has_0 by (done || lia)].
  rewrite (E1 f1) by done. rewrite from_table_entry by (intros; by eapply tree_managed).
  destruct (T O _) as [f0|] eqn:H0; [|by rewrite has_0]. rewrite pt_index_eq by lia. by destruct (has _ PRESENT).
Qed.

Lemma leaf_slot_spec w s T va :
  tree w (root s) T -> user_page va ->
  leaf_slot w s va = match T O (prefix 0 (page_of va)) with
                     | Some pt => if has (memory w pt (pt_index va)) PRESENT then Ok pt else Err NotMapped
                     | None => Err NotMapped end.
Proof.
  intros Ht Hva. destruct (walk_entries _ _ _ _ Ht Hva) as (E3 & E2 & E1). pose proof (user_page_range va Hva) as Hp.
  unfold leaf_slot. rewrite E3.
  destruct (T 2%nat _) as [f2|] eqn:H2; [|by rewrite (absent_below_2 w (root s)) by (done || lia)].
  destruct (table_entry_Some f2) as (-> & _ & ->); [by eapply tree_managed|]. cbn [negb]. rewrite (E2 f2) by done.
  destruct (T 1%nat _) as [f1|] eqn:H1; [|by rewrite (absent_below_1 w (root s)) by (done || lia)].
  destruct (table_entry_Some f1) as (-> & -> & ->); [by eapply tree_managed|]. cbn [negb orb]. rewrite (E1 f1) by done.
  destruct (T O _) as [f0|] eqn:H0; [|done].
  destruct (table_entry_Some f0) as (-> & -> & ->); [by eapply tree_managed|]. cbn [negb orb]. by destruct (has _ PRESENT).
Qed.

(** ** Changing a tree *)

Definition put T (k : nat) (q : Z) (o : option Z) : nat -> Z -> option Z :=
  fun k' q' => if decide (k' = k /\ q' = q) then o else T k' q'.

Lemma put_eq T k q o : put T k q o k q = o.
Proof. unfold put. by rewrite decide_True. Qed.
Lemma put_ne T k q o k' q' : (k', q') <> (k, q) -> put T k q o k' q' = T k' q'.
Proof. intros Hne. unfold put. rewrite decide_False; [done|]. by intros [-> ->]. Qed.

(** A table without children is added or taken away, and the entry of its
    parent [f] follows. *)
Lemma tree_put w w' root T k q f o :
  tree w root T -> (k < 3)%nat -> 0 <= q < bound k -> T (S k) (q / 512) = Some f ->
  (forall j p g, T j p = Some g -> S j = k -> p / 512 <> q) ->
  (forall c, o = Some c -> managed c /\ refs w' c = 1 /\ (forall i, memory w' c i = 0) /\ ~ tables T c) ->
  (forall j p g, T j p = Some g -> (j, p) <> (k, q) -> refs w' g = refs w g /\
     forall i, memory w' g i = if (g =? f) && (i =? q mod 512) then table_entry o else memory w g i) ->
  tree w' root (put T k q o).
Proof.
  intros Ht Hk Hq Hf Hch Hnew Hold. destruct Ht as [H1 H2 H3 H4 H5 H6 H7 H8].
  assert (Hcase : forall j p g, put T k q o j p = Some g -> (j = k /\ p = q /\ o = Some g) \/ ((j, p) <> (k, q) /\ T j p = Some g)).
  { intros j p g Hg. unfold put in Hg. destruct (decide _) as [[-> ->]|Hne]; [left; done|right]. split; [|done]. intros [= -> ->]. tauto. }
  assert (Hroot : (3%nat, 0) <> (k, q)) by (intros [= <- _]; lia).
  split.
  - rewrite put_ne by done. done.
  - intros j p g Hg. destruct (Hcase _ _ _ Hg) as [(-> & -> & _)|[_ ?]]; [split; [lia|done]|eauto].
  - intros j p g Hg. destruct (Hcase _ _ _ Hg) as [(-> & -> & Ho)|[Hne Hg']]; [by destruct (Hnew _ Ho) as (? & ? & _)|].
    destruct (H3 _ _ _ Hg'). split; [done|]. rewrite (proj1 (Hold _ _ _ Hg' Hne)). done.
  - intros j p j' p' g Hg Hg'. destruct (Hcase _ _ _ Hg) as [(-> & -> & Ho)|[Hne Ha]], (Hcase _ _ _ Hg') as [(-> & -> & Ho')|[Hne' Ha']]; [done| | |eauto].
    + destruct (Hnew _ Ho) as (_ & _ & _ & Hno). exfalso. apply Hno. by exists j', p'.
    + destruct (Hnew _ Ho') as (_ & _ & _ & Hno). exfalso. apply Hno. by exists j, p.
  - intros j p g Hg Hj. destruct (Hcase _ _ _ Hg) as [(-> & -> & Ho)|[Hne Ha]].
    + rewrite put_ne by (intros [= E _]; lia). by rewrite Hf.
    + rewrite put_ne; [eauto|]. intros [= E1 E2]. by apply (Hch _ _ _ Ha).
  - intros j p g i Hg Hi Hb. destruct (Hcase _ _ _ Hg) as [(E & -> & Ho)|[Hne Ha]].
    + destruct (Hnew _ Ho) as (_ & _ & -> & _). rewrite put_ne by (intros [= E' _]; lia).
      destruct (T j (q * 512 + i)) as [x|] eqn:Hx; [|done]. exfalso. apply (Hch _ _ _ Hx E).
      rewrite Z.div_add_l by lia. rewrite (Z.div_small i) by lia. lia.
    + destruct (Hold _ _ _ Ha Hne) as [_ ->]. rewrite (H6 _ _ _ _ Ha Hi Hb).
      destruct (Z.eqb_spec g f) as [->|Hgf]; cbn [andb].
      * destruct (H4 _ _ _ _ _ Ha Hf) as [[= ->] ->].
        pose proof (Z.div_mod q 512). destruct (Z.eqb_spec i (q mod 512)) as [->|Hi'].
        -- replace (q / 512 * 512 + q mod 512) with q by lia. by rewrite put_eq.
        -- rewrite put_ne; [done|]. intros [= E]. lia.
      * rewrite put_ne; [done|]. intros [= -> E]. apply Hgf.
        assert (E' : p = q / 512) by (rewrite <- E, Z.div_add_l, (Z.div_small i) by lia; lia).
        rewrite <- E', Ha in Hf. congruence.
  - intros i Hi. destruct (Hold _ _ _ H1 Hroot) as [_ ->]. rewrite H7 by done.
    destruct (Z.eqb_spec root f) as [->|]; cbn [andb]; [|done]. destruct (H4 _ _ _ _ _ H1 Hf) as [[= <-] _].
    destruct (Z.eqb_spec i (q mod 512)) as [->|]; [|done]. cbn [bound] in Hq. rewrite Z.mod_small in Hi by lia. lia.
  - intros p g i Hg Hi. destruct (Hcase _ _ _ Hg) as [(E & -> & Ho)|[Hne Ha]]; [left; by apply (Hnew _ Ho)|].
    destruct (Hold _ _ _ Ha Hne) as [_ ->]. destruct (Z.eqb_spec g f) as [->|]; cbn [andb]; [|eauto].
    destruct (H4 _ _ _ _ _ Ha Hf) as [? _]. lia.
Qed.

Lemma view_put w w' root T k q f o page :
  tree w root T -> T (S k) (q / 512) = Some f ->
  (forall j p g, T j p = Some g -> (j, p) <> (k, q) -> refs w' g = refs w g /\
     forall i, memory w' g i = if (g =? f) && (i =? q mod 512) then table_entry o else memory w g i) ->
  (forall c i, o = Some c -> memory w' c i = 0) -> (forall c i, T k q = Some c -> 0 <= i < 512 -> memory w c i = 0) ->
  view w' (put T k q o) page = view w T page.
Proof.
  intros Ht Hf Hold Hnew Hempty. unfold view, put. destruct (decide _) as [[<- Hq]|Hne].
  - destruct o as [c|]; [rewrite Hnew by done|]; rewrite Hq; destruct (T O q) as [c0|] eqn:E; try done;
      by rewrite Hempty by (done || apply index_bound).
  - destruct (T O (prefix 0 page)) as [g|] eqn:E; [|done].
    destruct (Hold _ _ _ E) as [_ ->]; [intros [= ? ?]; tauto|].
    destruct (Z.eqb_spec g f) as [->|]; cbn [andb]; [|done]. by destruct (tr_inj _ _ _ Ht _ _ _ _ _ E Hf).
Qed.

(** What both ways of changing a tree promise. *)
Record changed w w' root T T' (D : Z -> Prop) : Prop := mk_changed {
  ch_wf : frames_wf w';
  ch_tree : tree w' root T';
  ch_view : forall page, view w' T' page = view w T page;
  ch_keeps : keeps D w w'
}.

Lemma children_none w root T k page :
  tree w root T -> T k (prefix k page) = None -> (k < 3)%nat ->
  forall j p g, T j p = Some g -> S j = k -> p / 512 <> prefix k page.
Proof.
  intros Ht Hn Hk j p g Hg <- E. apply (tr_parent _ _ _ Ht _ _ _ Hg); [lia|]. by rewrite E.
Qed.

Lemma extend_spec w w1 root T k page f c :
  frames_wf w -> tree w root T -> (k < 3)%nat -> 0 <= page < PAGES ->
  T (S k) (prefix (S k) page) = Some f -> T k (prefix k page) = None -> alloc_table w = (Some c, w1) ->
  let w2 := write w1 f (index (S k) page) (Z.lor c USER_TABLE) in
  let T' := put T k (prefix k page) (Some c) in
  changed w w2 root T T' (fun g => g = c \/ g = f) /\
  (forall g, refs w2 g = if g =? c then 1 else refs w g) /\ refs w c = 0 /\ (forall i, memory w2 c i = 0).
Proof.
  intros Hw Ht Hk Hp Hf Hn Ha w2 T'.
  destruct (alloc_table_spec _ _ _ Hw Ha) as (Hw1 & Hr1 & Hk1 & Hc). destruct (Hc c eq_refl) as (Hman & Hz & Hmc).
  assert (Hcf : f <> c). { intros ->. pose proof (proj2 (tr_frame _ _ _ Ht _ _ _ Hf)). lia. }
  assert (Hfl : live w1 f). { apply (keeps_live _ w _ _ Hk1); [congruence|by eapply tree_live]. }
  destruct (write_correct w1 f (index (S k) page) (Z.lor c USER_TABLE) Hw1 Hfl) as (Hw2 & Hr2 & Hm2). fold w2 in Hw2, Hr2, Hm2.
  assert (Hpar : T (S k) (prefix k page / 512) = Some f) by (rewrite <- prefix_S by lia; done).
  assert (Hrefs : forall g, refs w2 g = if g =? c then 1 else refs w g).
  { intros g. rewrite Hr2, Hr1. destruct (Z.eqb_spec g c) as [->|]; [by rewrite bool_decide_true|by rewrite bool_decide_false by congruence]. }
  assert (Hmem2 : forall i, memory w2 c i = 0).
  { intros i. rewrite Hm2. destruct (Z.eqb_spec c f) as [->|]; [done|]. by rewrite Hmc. }
  assert (Hold : forall j p g, T j p = Some g -> (j, p) <> (k, prefix k page) -> refs w2 g = refs w g /\
    forall i, memory w2 g i = if (g =? f) && (i =? prefix k page mod 512) then table_entry (Some c) else memory w g i).
  { intros j p g Hg _. assert (g <> c). { intros ->. pose proof (proj2 (tr_frame _ _ _ Ht _ _ _ Hg)). lia. }
    rewrite Hrefs, (proj2 (Z.eqb_neq g c)) by done. split; [done|]. intros i. rewrite Hm2, index_S.
    destruct ((g =? f) && _); [done|]. apply Hk1; [congruence|by eapply tree_live]. }
  assert (Hkeep : keeps (fun g => g = c \/ g = f) w w2).
  { apply (keeps_trans _ _ w1); [eapply keeps_weaken; [exact Hk1|]; cbn; intros g [= ->]; by left|].
    eapply keeps_weaken; [by apply write_keeps|]. intros g <-. by right. }
  split; [|done]. split; [done| | |done].
  - eapply tree_put; try done; [|eapply children_none; done|].
    + destruct (prefix_bound k page Hp); lia.
    + intros ? [= <-]. split; [done|]. split; [by rewrite Hrefs, Z.eqb_refl|]. split; [done|].
      intros (j & p & Hg). pose proof (proj2 (tr_frame _ _ _ Ht _ _ _ Hg)). lia.
  - intros pg. eapply view_put; try done; [by intros ? ? [= <-]|by rewrite Hn].
Qed.

(** Taking a table away, whichever way round it is freed and unlinked. *)
Lemma shrink_spec w w2 root T k q f c :
  tree w root T -> (k < 3)%nat ->
  T (S k) (q / 512) = Some f -> T k q = Some c -> (forall i, 0 <= i < 512 -> has (memory w c i) PRESENT = false) ->
  frames_wf w2 -> (forall g, refs w2 g = if g =? c then 0 else refs w g) ->
  (forall g i, g <> c -> live w g -> memory w2 g i = if (g =? f) && (i =? q mod 512) then 0 else memory w g i) ->
  let T' := put T k q None in
  changed w w2 root T T' (fun g => g = c \/ g = f).
Proof.
  intros Ht Hk Hpar Hc Hempty Hw2 Hr2 Hm2 T'.
  assert (Hold : forall j p g, T j p = Some g -> (j, p) <> (k, q) -> refs w2 g = refs w g /\
    forall i, memory w2 g i = if (g =? f) && (i =? q mod 512) then table_entry None else memory w g i).
  { intros j p g Hg Hne. assert (g <> c). { intros ->. destruct (tr_inj _ _ _ Ht _ _ _ _ _ Hg Hc) as [-> ->]. done. }
    rewrite Hr2, (proj2 (Z.eqb_neq g c)) by done. split; [done|]. intros i. apply Hm2; [done|by eapply tree_live]. }
  destruct (tr_dom _ _ _ Ht _ _ _ Hc) as [_ Hq].
  assert (Hz : forall i, 0 <= i < 512 -> k = O -> memory w c i = 0).
  { intros i Hi ->. destruct (tr_leaf _ _ _ Ht _ _ _ Hc Hi) as [?|E]; [done|]. by rewrite Hempty in E. }
  split; [done| | |].
  - eapply tree_put; try done. intros j p g Hg <- E.
    destruct (tr_dom _ _ _ Ht _ _ _ Hg) as [_ Hp]. pose proof (Z.div_mod p 512). pose proof (Z.mod_pos_bound p 512).
    assert (Em : memory w c (p mod 512) = table_entry (T j (q * 512 + p mod 512))) by (apply (tr_entry _ _ _ Ht); [done|lia|lia]).
    replace (q * 512 + p mod 512) with p in Em by lia. rewrite Hg in Em. specialize (Hempty (p mod 512)).
    rewrite Em, (proj1 (table_entry_Some g (tree_managed _ _ _ _ _ _ Ht Hg))) in Hempty.
    discriminate (Hempty ltac:(lia)).
  - intros pg. unfold view, T', put. destruct (decide _) as [[<- Hq']|Hne].
    + rewrite Hq', Hc, Hz; [done|apply index_bound|done].
    + destruct (T O (prefix 0 pg)) as [g|] eqn:E; [|done]. destruct (Hold _ _ _ E) as [_ ->]; [intros [= ? ?]; tauto|].
      destruct (Z.eqb_spec g f) as [->|]; cbn [andb]; [|done]. by destruct (tr_inj _ _ _ Ht _ _ _ _ _ E Hpar).
  - intros g Hg. rewrite Hr2, (proj2 (Z.eqb_neq g c)) by tauto. split; [done|]. intros Hl i. rewrite Hm2 by tauto.
    by rewrite (proj2 (Z.eqb_neq g f)) by tauto.
Qed.

(** Tables that are the same pointwise describe the same tree. *)
Definition same T T' : Prop := forall k p, T k p = T' k p.

Lemma tree_same w root T T' : same T T' -> tree w root T -> tree w root T'.
Proof. intros E [H1 H2 H3 H4 H5 H6 H7 H8]. unfold same in E. split; try setoid_rewrite <- E; assumption. Qed.

Lemma view_same w T T' page : same T T' -> view w T' page = view w T page.
Proof. intros E. unfold view. by rewrite E. Qed.

Lemma put_back T k q c : T k q = None -> same (put (put T k q (Some c)) k q None) T.
Proof. intros Hn j p. unfold put. by destruct (decide _) as [[-> ->]|]. Qed.
End Tree.
End PagingTree.
