(* ===== verification/PagingOps.v ===== *)
(** * PagingOps: mapping and unmapping one page

    Mapping a page adds exactly that page and the tables it needs, or takes
    back every table it made; unmapping removes exactly that page and every
    table that is left empty. *)

From stdpp Require Import base numbers sets list.
From S2P Require Import Prelude Paging PagingTree.
Local Open Scope Z_scope.

Module PagingOps.
Import Paging PagingTree.

Section Ops.
Context {W : Type} {HF : Frames W} {HL : FramesLaws W} (kernel_pml4 : Z -> Z).
Implicit Types (w : W) (T : nat -> Z -> option Z).
Abbreviation tree := (tree kernel_pml4).

(** ** Taking a table away *)

Lemma free_then_unlink w c f i :
  frames_wf w -> refs w c = 1 -> live w f -> f <> c ->
  exists w1, free_frame w c = Some w1 /\ let w2 := write w1 f i 0 in
    frames_wf w2 /\ (forall g, refs w2 g = if g =? c then 0 else refs w g) /\
    forall g j, g <> c -> live w g -> memory w2 g j = if (g =? f) && (j =? i) then 0 else memory w g j.
Proof.
  intros Hw Hc Hf Hne. destruct (free_frame_spec w c Hw) as (w1 & E & Hw1 & Hr1 & Hm1); [lia|]. exists w1. split; [done|].
  assert (Hl : forall g, g <> c -> live w g -> live w1 g).
  { intros g Hg [Hl|Hl]; [left|by right]. by rewrite Hr1, (proj2 (Z.eqb_neq g c)). }
  destruct (write_correct w1 f i 0 Hw1 (Hl f Hne Hf)) as (Hw2 & Hr2 & Hm2). cbv zeta. split; [done|]. split.
  - intros g. rewrite Hr2, Hr1. destruct (Z.eqb_spec g c); lia.
  - intros g j Hg Hlg. rewrite Hm2. destruct (_ && _); [done|]. by apply Hm1, Hl.
Qed.

Lemma unlink_then_free w c f i :
  frames_wf w -> refs w c = 1 -> live w f -> f <> c ->
  exists w2, free_frame (write w f i 0) c = Some w2 /\
    frames_wf w2 /\ (forall g, refs w2 g = if g =? c then 0 else refs w g) /\
    forall g j, g <> c -> live w g -> memory w2 g j = if (g =? f) && (j =? i) then 0 else memory w g j.
Proof.
  intros Hw Hc Hf Hne. destruct (write_correct w f i 0 Hw Hf) as (Hw1 & Hr1 & Hm1).
  destruct (free_frame_spec (write w f i 0) c Hw1) as (w2 & E & Hw2 & Hr2 & Hm2); [rewrite Hr1; lia|]. exists w2.
  split; [done|]. split; [done|]. split.
  - intros g. rewrite Hr2, !Hr1. destruct (Z.eqb_spec g c); lia.
  - intros g j Hg Hlg. rewrite Hm2; [apply Hm1|]. destruct Hlg as [Hl|Hl]; [left|by right]. by rewrite Hr2, (proj2 (Z.eqb_neq g c)), Hr1.
Qed.

(** A table with no table below it and no page in it has no present entry. *)
Lemma vacant w root T k q c :
  tree w root T -> T k q = Some c -> (k < 3)%nat ->
  (forall j p, S j = k -> p / 512 = q -> T j p = None) ->
  (k = O -> forall i, 0 <= i < 512 -> memory w c i = 0) ->
  forall i, 0 <= i < 512 -> has (memory w c i) PRESENT = false.
Proof.
  intros Ht Hc Hk Hch Hz i Hi. destruct k as [|k]; [rewrite Hz by done; apply has_0|].
  destruct (tr_dom _ _ _ _ Ht _ _ _ Hc) as [_ Hb]. rewrite (tr_entry _ _ _ _ Ht k q c i Hc Hi).
  - rewrite (Hch k (q * 512 + i) eq_refl), has_0; [done|]. rewrite Z.div_add_l, (Z.div_small i) by lia. lia.
  - do 2 (destruct k as [|k]; [cbn [bound] in *; lia|]). lia.
Qed.

(** The outcome of taking the table of [(k, q)] away. *)
Record dropped w w' root T k q c : Prop := mk_dropped {
  dr_changed : changed kernel_pml4 w w' root T (put T k q None) (tables T);
  dr_refs : forall g, refs w' g = if g =? c then 0 else refs w g
}.

Lemma drop_spec w w2 root T k q f c :
  tree w root T -> (k < 3)%nat -> T (S k) (q / 512) = Some f -> T k q = Some c ->
  (forall i, 0 <= i < 512 -> has (memory w c i) PRESENT = false) ->
  frames_wf w2 -> (forall g, refs w2 g = if g =? c then 0 else refs w g) ->
  (forall g i, g <> c -> live w g -> memory w2 g i = if (g =? f) && (i =? q mod 512) then 0 else memory w g i) ->
  dropped w w2 root T k q c.
Proof.
  intros Ht Hk Hf Hc Hemp Hw2 Hr Hm. split; [|done].
  destruct (shrink_spec kernel_pml4 w w2 root T k q f c Ht Hk Hf Hc Hemp Hw2 Hr Hm) as [H1 H2 H3 H4]. split; [done..|].
  eapply keeps_weaken; [exact H4|]. cbn. intros g [->| ->]; by eexists _, _.
Qed.

(** ** Making a table *)

Inductive ensured w w' root T (k : nat) (page : Z) : bool -> bool -> Prop :=
| ensured_there c : T k (prefix k page) = Some c -> w' = w -> ensured w w' root T k page true false
| ensured_full :
    T k (prefix k page) = None -> frames_wf w' -> keeps (fun _ => False) w w' -> ensured w w' root T k page false false
| ensured_made c :
    T k (prefix k page) = None -> refs w c = 0 -> ~ tables T c ->
    changed kernel_pml4 w w' root T (put T k (prefix k page) (Some c)) (tables (put T k (prefix k page) (Some c))) ->
    (forall g, refs w' g = if g =? c then 1 else refs w g) -> (forall i, memory w' c i = 0) ->
    ensured w w' root T k page true true.

Lemma ensure_table_spec w root T k page f made w' created :
  frames_wf w -> tree w root T -> (k < 3)%nat -> 0 <= page < PAGES -> T (S k) (prefix (S k) page) = Some f ->
  ensure_table w f (index (S k) page) = (made, w', created) -> ensured w w' root T k page made created.
Proof.
  intros Hw Ht Hk Hp Hf. unfold ensure_table. rewrite (upper_entry _ _ _ _ _ _ _ Ht Hp Hk Hf).
  destruct (T k (prefix k page)) as [c|] eqn:Hc.
  { rewrite (proj1 (table_entry_Some c (tree_managed _ _ _ _ _ _ _ Ht Hc))). cbn [negb]. intros [= <- <- <-]. by eapply ensured_there. }
  cbn [table_entry]. rewrite has_0. cbn [negb]. destruct (alloc_table w) as [[c|] w1] eqn:Ha; intros [= <- <- <-].
  - destruct (extend_spec kernel_pml4 w w1 root T k page f c Hw Ht Hk Hp Hf Hc Ha) as ([H1 H2 H3 H4] & Hr & Hz & Hm).
    apply (ensured_made _ _ _ _ _ _ c); try done.
    + intros (j & p & Hg). pose proof (proj2 (tr_frame _ _ _ _ Ht _ _ _ Hg)). lia.
    + split; [done..|]. eapply keeps_weaken; [exact H4|]. cbn. intros g [->| ->].
      * exists k, (prefix k page). apply put_eq.
      * exists (S k), (prefix (S k) page). rewrite put_ne; [done|]. intros [= E _]. lia.
  - destruct (alloc_table_spec _ _ _ Hw Ha) as (Hw1 & Hr & Hk1 & _). apply ensured_full; [done..|].
    eapply keeps_weaken; [exact Hk1|]. done.
Qed.

(** ** Tables made on the way to a page, and their undoing *)

(** From [(w0, T0)] to [(w, T)]: the tables of the levels [C] on the path of
    the page were made and are still without a page. *)
Record built w0 T0 root (page : Z) (C : list nat) w T : Prop := mk_built {
  bu_wf : frames_wf w;
  bu_tree : tree w root T;
  bu_view : forall pg, view w T pg = view w0 T0 pg;
  bu_new : forall k, k ∈ C -> (k < 3)%nat /\ T0 k (prefix k page) = None /\ T k (prefix k page) <> None;
  bu_old : forall k p, ~ (k ∈ C /\ p = prefix k page) -> T k p = T0 k p;
  bu_fresh : forall g, tables T g -> ~ tables T0 g -> refs w0 g = 0;
  bu_keeps : keeps (tables T) w0 w
}.

Section Built.
Context (w0 : W) (T0 : nat -> Z -> option Z) (root page : Z).
Context (Hw0 : frames_wf w0) (Ht0 : tree w0 root T0) (Hpage : 0 <= page < PAGES).
Abbreviation built := (built w0 T0 root page).

Lemma built_start : built [] w0 T0.
Proof. split; try done. intros k Hk. by apply elem_of_nil in Hk. Qed.

Lemma built_made C w T w' k :
  built C w T -> (k < 3)%nat -> k ∉ C -> ensured w w' root T k page true true ->
  exists T' c, built (k :: C) w' T' /\ T' k (prefix k page) = Some c /\ forall j p g, T j p = Some g -> T' j p = Some g.
Proof.
  intros [H1 H2 H3 H4 H5 H6 H7] Hk HC He. inversion He as [| |c Hn Hz Hnt [G1 G2 G3 G4] Hr Hm]; subst.
  set (T' := put T k (prefix k page) (Some c)) in *. exists T', c.
  assert (Hmono : forall j p g, T j p = Some g -> T' j p = Some g).
  { intros j p g Hg. unfold T'. rewrite put_ne; [done|]. intros [= -> ->]. congruence. }
  assert (Htab : forall g, tables T' g -> g = c \/ tables T g).
  { intros g (j & p & Hg). unfold T', put in Hg. destruct (decide _); [left; congruence|right; by exists j, p]. }
  assert (Hsub : forall g, tables T g -> tables T' g).
  { intros g (j & p & Hg). exists j, p. auto. }
  assert (Hz0 : ~ tables T0 c). { intros (j & p & Hg).
    destruct (decide (j ∈ C /\ p = prefix j page)) as [[Hj ->]|Hno]; [by rewrite (proj1 (proj2 (H4 j Hj))) in Hg|].
    apply Hnt. exists j, p. by rewrite H5. }
  split; [|split; [apply put_eq|done]]. split; try done.
  - intros pg. by rewrite G3, H3.
  - intros j [->|Hj]%elem_of_cons.
    + split; [done|]. rewrite <- H5 by tauto. split; [done|]. unfold T'. by rewrite put_eq.
    + destruct (H4 j Hj) as (? & ? & ?). split; [done|]. split; [done|]. unfold T'. rewrite put_ne; [done|]. intros [= -> _]. done.
  - intros j p Hno. unfold T'. rewrite put_ne; [apply H5|].
    + intros [Hj ->]. apply Hno. split; [apply elem_of_cons; by right|done].
    + intros [= -> ->]. apply Hno. split; [apply list_elem_of_here|done].
  - intros g Hg Hg0. destruct (Htab g Hg) as [->|HT]; [|by apply H6].
    rewrite <- (proj1 (H7 c Hnt)). done.
  - apply (keeps_trans _ _ w); [eapply keeps_weaken; [exact H7|done]|done].
Qed.

Lemma built_stage C w T k f made w' created :
  built C w T -> (k < 3)%nat -> k ∉ C -> T (S k) (prefix (S k) page) = Some f ->
  ensure_table w f (index (S k) page) = (made, w', created) ->
  if made then exists T' c, built ((if created then [k] else []) ++ C) w' T' /\ T' k (prefix k page) = Some c /\
    forall j p g, T j p = Some g -> T' j p = Some g
  else created = false /\ T k (prefix k page) = None /\ built C w' T.
Proof.
  intros Hb Hk HC Hf E. pose proof Hb as [H1 H2 H3 H4 H5 H6 H7].
  pose proof (ensure_table_spec w root T k page f made w' created H1 H2 Hk Hpage Hf E) as He.
  inversion He as [c Hc -> | Hn Hw Hkp | c Hn Hz Hnt Hch Hr Hm]; subst.
  - by exists T, c.
  - split; [done|]. split; [done|]. split; try done.
    + eapply tree_keeps; [exact Hkp|by intros ? ? []|done].
    + intros pg. rewrite <- H3. eapply view_keeps; [exact Hkp|by intros ? ? []|done].
    + apply (keeps_trans _ _ w); [done|]. eapply keeps_weaken; [exact Hkp|by intros ? []].
  - by eapply built_made.
Qed.

(** The lowest of the tables made goes away again. *)
Lemma built_drop k C w T w2 c :
  built (k :: C) w T -> NoDup (k :: C) -> T k (prefix k page) = Some c -> dropped w w2 root T k (prefix k page) c ->
  exists T', built C w2 T'.
Proof.
  intros [H1 H2 H3 H4 H5 H6 H7] Hnd Hc [[G1 G2 G3 G4] Hr]. exists (put T k (prefix k page) None).
  apply NoDup_cons in Hnd as [Hk Hnd]. destruct (H4 k ltac:(apply list_elem_of_here)) as (Hk3 & Hn0 & _).
  assert (Hsub : forall g, tables (put T k (prefix k page) None) g -> tables T g).
  { intros g (j & p & Hg). unfold put in Hg. destruct (decide _); [done|by exists j, p]. }
  assert (Htab : forall g, tables T g -> tables (put T k (prefix k page) None) g \/ g = c).
  { intros g (j & p & Hg). destruct (decide (j = k /\ p = prefix k page)) as [[-> ->]|Hne]; [right; congruence|left].
    exists j, p. rewrite put_ne; [done|]. intros [= -> ->]. tauto. }
  assert (Hc0 : ~ tables T0 c).
  { intros (j & p & Hg). destruct (decide (j ∈ k :: C /\ p = prefix j page)) as [[Hj ->]|Hno]; [by rewrite (proj1 (proj2 (H4 j Hj))) in Hg|].
    rewrite <- H5 in Hg by done. destruct (tr_inj _ _ _ _ H2 _ _ _ _ _ Hg Hc) as [-> ->]. apply Hno. split; [apply list_elem_of_here|done]. }
  assert (Hz : refs w0 c = 0) by (apply H6; [by exists k, (prefix k page)|done]).
  split; try done.
  - intros pg. by rewrite G3, H3.
  - intros j Hj. destruct (H4 j ltac:(apply elem_of_cons; by right)) as (? & ? & ?). split; [done|]. split; [done|].
    rewrite put_ne; [done|]. intros [= -> _]. done.
  - intros j p Hno. unfold put. destruct (decide _) as [[-> ->]|Hne]; [by rewrite Hn0|]. apply H5.
    intros [[->|Hj]%elem_of_cons ->]; tauto.
  - intros g Hg Hg0. apply H6; auto.
  - intros g Hg. destruct (decide (g = c)) as [->|Hne].
    + rewrite Hr, Z.eqb_refl, Hz. split; [done|]. intros [Hl|Hl]; [done|]. exfalso. apply Hl. exact (tree_managed _ _ _ _ _ _ _ H2 Hc).
    + assert (Hg' : ~ tables T g) by (intros Hg'; destruct (Htab g Hg'); done).
      destruct (H7 g Hg') as [R1 M1], (G4 g Hg') as [R2 M2]. split; [congruence|]. intros Hl i. rewrite M2; [by apply M1|].
      by apply (keeps_live _ w0 _ _ H7).
Qed.

(** What dropping needs: no page and no table in it. *)
Lemma built_vacant k C w T c :
  built (k :: C) w T -> NoDup (k :: C) -> (forall j, S j = k -> j ∉ C) -> T k (prefix k page) = Some c ->
  forall i, 0 <= i < 512 -> has (memory w c i) PRESENT = false.
Proof.
  intros Hb Hnd Hlow Hc. pose proof Hb as [H1 H2 H3 H4 H5 H6 H7]. destruct (H4 k ltac:(apply list_elem_of_here)) as (Hk3 & Hn0 & _).
  eapply vacant; try done.
  - intros j p <- Hp. rewrite H5.
    + destruct (T0 j p) as [g|] eqn:Hg; [|done]. exfalso. apply (tr_parent _ _ _ _ Ht0 _ _ _ Hg); [lia|by rewrite Hp].
    + intros [[E|Hj]%elem_of_cons _]; [lia|]. by apply (Hlow j).
  - intros -> i Hi. assert (E : view w T (prefix 0 page * 512 + i) = 0).
    { rewrite H3. unfold view. replace (prefix 0 (prefix 0 page * 512 + i)) with (prefix 0 page); [by rewrite Hn0|].
      unfold prefix. cbn. rewrite Z.div_add_l, (Z.div_small i) by lia. lia. }
    unfold view in E. replace (prefix 0 (prefix 0 page * 512 + i)) with (prefix 0 page) in E.
    2: { unfold prefix. cbn. rewrite Z.div_add_l, (Z.div_small i) by lia. lia. }
    rewrite Hc in E. replace (index 0 (prefix 0 page * 512 + i)) with i in E; [done|].
    unfold index. cbn. rewrite Z.div_1_r. rewrite Z.add_comm, Z.mod_add, Z.mod_small by lia. done.
Qed.

Lemma built_unlink k C w T c f :
  built (k :: C) w T -> NoDup (k :: C) -> (forall j, S j = k -> j ∉ C) ->
  T k (prefix k page) = Some c -> T (S k) (prefix (S k) page) = Some f ->
  (exists w2 T', free_frame (write w f (index (S k) page) 0) c = Some w2 /\ built C w2 T') /\
  (exists w1 T', free_frame w c = Some w1 /\ built C (write w1 f (index (S k) page) 0) T').
Proof.
  intros Hb Hnd Hlow Hc Hf. pose proof (built_vacant k C w T c Hb Hnd Hlow Hc) as Hv.
  pose proof Hb as [H1 H2 _ H4 _ _ _]. destruct (H4 k ltac:(apply list_elem_of_here)) as (Hk3 & _ & _).
  pose proof (proj2 (tr_frame _ _ _ _ H2 _ _ _ Hc)) as Hrc. pose proof (tree_live _ _ _ _ _ _ _ H2 Hf) as Hlf.
  assert (Hne : f <> c) by (intros ->; destruct (tr_inj _ _ _ _ H2 _ _ _ _ _ Hf Hc); lia).
  assert (Hpar : T (S k) (prefix k page / 512) = Some f) by (rewrite <- prefix_S by lia; done).
  rewrite index_S. split.
  - destruct (unlink_then_free w c f (prefix k page mod 512) H1 Hrc Hlf Hne) as (w2 & E & Hw2 & Hr2 & Hm2). exists w2.
    destruct (built_drop k C w T w2 c Hb Hnd Hc) as (T' & Hb'); [by eapply drop_spec|by exists T'].
  - destruct (free_then_unlink w c f (prefix k page mod 512) H1 Hrc Hlf Hne) as (w1 & E & Hw2 & Hr2 & Hm2). exists w1.
    destruct (built_drop k C w T (write w1 f (prefix k page mod 512) 0) c Hb Hnd Hc) as (T' & Hb'); [by eapply drop_spec|by exists T'].
Qed.

(** The tables above one on the path. *)
Lemma path_up k w T c : tree w root T -> T k (prefix k page) = Some c -> (k < 3)%nat -> exists f, T (S k) (prefix (S k) page) = Some f.
Proof.
  intros Ht Hc Hk. pose proof (tr_parent _ _ _ _ Ht _ _ _ Hc Hk) as Hp. rewrite <- prefix_S in Hp by lia.
  destruct (T (S k) (prefix (S k) page)) as [f|]; [by exists f|done].
Qed.

Lemma built_here k C w T : built C w T -> k ∈ C -> exists c, T k (prefix k page) = Some c.
Proof. intros Hb Hk. destruct (bu_new _ _ _ _ _ _ _ Hb k Hk) as (_ & _ & Hn). destruct (T k (prefix k page)) as [c|]; [by exists c|done]. Qed.
End Built.

(** The addresses of the tables of a page, read from the tables above. *)
Lemma read_pdpt w root T va f :
  tree w root T -> user_page va -> T 2%nat (prefix 2 (page_of va)) = Some f -> address (memory w root (pml4_index va)) = f.
Proof.
  intros Ht Hva Hf. destruct (walk_entries kernel_pml4 w root T va Ht Hva) as (-> & _ & _). rewrite Hf.
  by apply table_entry_Some, (tree_managed _ _ _ _ _ _ _ Ht Hf).
Qed.
Lemma read_pd w root T va g f :
  tree w root T -> user_page va -> T 2%nat (prefix 2 (page_of va)) = Some g -> T 1%nat (prefix 1 (page_of va)) = Some f ->
  address (memory w g (pdpt_index va)) = f.
Proof.
  intros Ht Hva Hg Hf. destruct (walk_entries kernel_pml4 w root T va Ht Hva) as (_ & E & _). rewrite (E g Hg), Hf.
  by apply table_entry_Some, (tree_managed _ _ _ _ _ _ _ Ht Hf).
Qed.
Lemma read_pt w root T va g f :
  tree w root T -> user_page va -> T 1%nat (prefix 1 (page_of va)) = Some g -> T O (prefix 0 (page_of va)) = Some f ->
  address (memory w g (pd_index va)) = f.
Proof.
  intros Ht Hva Hg Hf. destruct (walk_entries kernel_pml4 w root T va Ht Hva) as (_ & _ & E). rewrite (E g Hg), Hf.
  by apply table_entry_Some, (tree_managed _ _ _ _ _ _ _ Ht Hf).
Qed.

(** Everything made is taken back. *)
Lemma rollback_spec w0 T0 root va (c3 c2 c1 : bool) w T :
  frames_wf w0 -> tree w0 root T0 -> user_page va ->
  built w0 T0 root (page_of va) ((if c1 then [0%nat] else []) ++ (if c2 then [1%nat] else []) ++ (if c3 then [2%nat] else [])) w T ->
  exists w' T', rollback_tables w root va c3 c2 c1 = Some w' /\ built w0 T0 root (page_of va) [] w' T'.
Proof.
  intros Hw0 Ht0 Hva Hb. pose proof (user_page_range va Hva) as Hp. assert (Hva0 : 0 <= va) by apply Hva.
  unfold rollback_tables.
  match goal with |- context [match (if c1 then ?x else Some w) with _ => _ end] => assert (H1 : exists w1 T1,
    (if c1 then x else Some w) = Some w1 /\ built w0 T0 root (page_of va) ((if c2 then [1%nat] else []) ++ (if c3 then [2%nat] else [])) w1 T1) end.
  { destruct c1; [|by exists w, T]. cbn [app] in Hb. pose proof (bu_tree _ _ _ _ _ _ _ Hb) as Ht.
    destruct (built_here w0 T0 root (page_of va) 0 _ w T Hb ltac:(apply list_elem_of_here)) as [pt Hpt].
    destruct (path_up root (page_of va) Hp 0 w T pt Ht Hpt ltac:(lia)) as [pd Hpd].
    destruct (path_up root (page_of va) Hp 1 w T pd Ht Hpd ltac:(lia)) as [pdpt Hpdpt].
    rewrite (read_pdpt _ _ _ _ _ Ht Hva Hpdpt), (read_pd _ _ _ _ _ _ Ht Hva Hpdpt Hpd), (read_pt _ _ _ _ _ _ Ht Hva Hpd Hpt), pd_index_eq by done.
    apply (built_unlink w0 T0 root (page_of va) Ht0 Hp 0 _ w T pt pd Hb); [|by intros|done..].
    destruct c2, c3; repeat constructor; set_solver. }
  destruct H1 as (w1 & T1 & -> & Hb1). clear Hb.
  match goal with |- context [match (if c2 then ?x else Some w1) with _ => _ end] => assert (H2 : exists w2 T2,
    (if c2 then x else Some w1) = Some w2 /\ built w0 T0 root (page_of va) (if c3 then [2%nat] else []) w2 T2) end.
  { destruct c2; [|by exists w1, T1]. cbn [app] in Hb1. pose proof (bu_tree _ _ _ _ _ _ _ Hb1) as Ht.
    destruct (built_here w0 T0 root (page_of va) 1 _ w1 T1 Hb1 ltac:(apply list_elem_of_here)) as [pd Hpd].
    destruct (path_up root (page_of va) Hp 1 w1 T1 pd Ht Hpd ltac:(lia)) as [pdpt Hpdpt].
    rewrite (read_pdpt _ _ _ _ _ Ht Hva Hpdpt), (read_pd _ _ _ _ _ _ Ht Hva Hpdpt Hpd), pdpt_index_eq by done.
    apply (built_unlink w0 T0 root (page_of va) Ht0 Hp 1 _ w1 T1 pd pdpt Hb1); [|intros j [= ->]|done..]; destruct c3; repeat constructor; set_solver. }
  destruct H2 as (w2 & T2 & -> & Hb2). clear Hb1.
  destruct c3; [|by exists w2, T2]. pose proof (bu_tree _ _ _ _ _ _ _ Hb2) as Ht.
  destruct (built_here w0 T0 root (page_of va) 2 _ w2 T2 Hb2 ltac:(apply list_elem_of_here)) as [pdpt Hpdpt].
  rewrite (read_pdpt _ _ _ _ _ Ht Hva Hpdpt), pml4_index_eq by done.
  assert (Hroot : T2 3%nat (prefix 3 (page_of va)) = Some root) by (rewrite prefix_3 by done; apply Ht).
  destruct (built_unlink w0 T0 root (page_of va) Ht0 Hp 2 [] w2 T2 pdpt root Hb2) as [_ (w3 & T3 & -> & Hb3)]; [repeat constructor; set_solver|set_solver|done..|].
  by eexists _, T3.
Qed.

(** ** Writing a leaf *)

Lemma page_split pg : prefix 0 pg * 512 + index 0 pg = pg.
Proof.
  unfold prefix, index. change (512 ^ (Z.of_nat 0 + 1)) with 512. change (512 ^ Z.of_nat 0) with 1. rewrite Z.div_1_r.
  pose proof (Z.div_mod pg 512 ltac:(lia)). lia.
Qed.

Lemma leaf_write w root T page pt e :
  frames_wf w -> tree w root T -> T O (prefix 0 page) = Some pt -> e = 0 \/ has e PRESENT = true ->
  let w' := write w pt (index 0 page) e in
  frames_wf w' /\ tree w' root T /\ keeps (eq pt) w w' /\ (forall g, refs w' g = refs w g) /\
  forall pg, view w' T pg = if pg =? page then e else view w T pg.
Proof.
  intros Hw Ht Hpt He w'. pose proof (tree_live _ _ _ _ _ _ _ Ht Hpt) as Hl.
  destruct (write_correct w pt (index 0 page) e Hw Hl) as (Hw' & Hr & Hm). fold w' in Hw', Hr, Hm.
  assert (Hother : forall k p g i, T (S k) p = Some g -> memory w' g i = memory w g i).
  { intros k p g i Hg. rewrite Hm. destruct (Z.eqb_spec g pt) as [->|]; [|done]. by destruct (tr_inj _ _ _ _ Ht _ _ _ _ _ Hg Hpt). }
  split; [done|]. split; [|split; [by apply write_keeps|split; [done|]]].
  - destruct Ht as [H1 H2 H3 H4 H5 H6 H7 H8]. split; try done.
    + intros k p g Hg. rewrite Hr. by eapply H3.
    + intros k p g i Hg. rewrite (Hother k p g i Hg). by apply H6.
    + intros i. rewrite (Hother 2%nat 0 root i H1). by apply H7.
    + intros p g i Hg Hi. rewrite Hm. destruct (_ && _); [done|by eapply H8].
  - intros pg. unfold view. destruct (Z.eqb_spec pg page) as [->|Hne].
    + rewrite Hpt, Hm, !Z.eqb_refl. done.
    + destruct (T O (prefix 0 pg)) as [g|] eqn:Hg; [|done]. rewrite Hm. destruct (Z.eqb_spec g pt) as [->|]; cbn [andb]; [|done].
      destruct (tr_inj _ _ _ _ Ht _ _ _ _ _ Hg Hpt) as [_ E]. destruct (Z.eqb_spec (index 0 pg) (index 0 page)) as [Ei|]; [|done].
      pose proof (page_split pg). pose proof (page_split page). rewrite E, Ei in *. lia.
Qed.

(** No table is empty. *)
Definition populated T (v : Z -> Z) : Prop :=
  (forall p f, T O p = Some f -> exists pg, prefix 0 pg = p /\ has (v pg) PRESENT = true) /\
  forall k p f, T (S k) p = Some f -> (S k < 3)%nat -> exists q, q / 512 = p /\ T k q <> None.

(** ** Mapping *)

Definition flags_ok (flags : Z) : Prop := Z.land flags ADDRESS_MASK = 0 /\ has flags PRESENT = true.

(** What mapping a page promises. *)
Inductive map_outcome w root T (va e : Z) w' : result AddressSpaceError unit -> Prop :=
| mapped_ok T' :
    has (view w T (page_of va)) PRESENT = false -> frames_wf w' -> tree w' root T' ->
    (forall k p f, T k p = Some f -> T' k p = Some f) ->
    (forall g, tables T' g -> ~ tables T g -> refs w g = 0) -> keeps (tables T') w w' ->
    (forall pg, view w' T' pg = if pg =? page_of va then e else view w T pg) ->
    populated T' (view w' T') -> map_outcome w root T va e w' (Ok tt)
| mapped_err err :
    (err = OutOfFrames /\ has (view w T (page_of va)) PRESENT = false \/ err = AlreadyMapped /\ has (view w T (page_of va)) PRESENT = true) ->
    frames_wf w' -> tree w' root T -> keeps (tables T) w w' -> (forall pg, view w' T pg = view w T pg) ->
    map_outcome w root T va e w' (Err err).

(** Everything taken back is the state before. *)
Lemma built_nothing w0 T0 root page w T :
  built w0 T0 root page [] w T ->
  frames_wf w /\ tree w root T0 /\ keeps (tables T0) w0 w /\ forall pg, view w T0 pg = view w0 T0 pg.
Proof.
  intros [H1 H2 H3 _ H5 _ H7]. assert (E : same T T0) by (intros k p; apply H5; intros [Hk _]; by apply elem_of_nil in Hk).
  split; [done|]. split; [by eapply tree_same|]. split.
  - eapply keeps_weaken; [exact H7|]. intros g (k & p & Hg). exists k, p. by rewrite <- E.
  - intros pg. rewrite (view_same w T T0 pg E). apply H3.
Qed.

Lemma undo_spec w0 T0 root va e (c3 c2 c1 : bool) w T err :
  frames_wf w0 -> tree w0 root T0 -> user_page va ->
  built w0 T0 root (page_of va) ((if c1 then [0%nat] else []) ++ (if c2 then [1%nat] else []) ++ (if c3 then [2%nat] else [])) w T ->
  (err = OutOfFrames /\ has (view w0 T0 (page_of va)) PRESENT = false \/ err = AlreadyMapped /\ has (view w0 T0 (page_of va)) PRESENT = true) ->
  exists r w', undo w root va c3 c2 c1 err = Some (r, w') /\ map_outcome w0 root T0 va e w' r.
Proof.
  intros Hw0 Ht0 Hva Hb Herr. destruct (rollback_spec _ _ _ _ _ _ _ _ _ Hw0 Ht0 Hva Hb) as (w' & T' & E & Hb').
  destruct (built_nothing _ _ _ _ _ _ Hb') as (G1 & G2 & G3 & G4). exists (Err err), w'. unfold undo. rewrite E.
  split; [done|]. by constructor.
Qed.

Lemma view_absent w root T k page : tree w root T -> 0 <= page -> (k < 3)%nat -> T k (prefix k page) = None -> view w T page = 0.
Proof.
  intros Ht Hp Hk Hn. unfold view. assert (E : T O (prefix 0 page) = None); [|by rewrite E].
  destruct k as [|[|[|k]]]; [done|by eapply absent_below_1|by eapply absent_below_2|lia].
Qed.

(** Entries of upper tables are never huge pages. *)
Lemma no_huge w root T k page f :
  tree w root T -> 0 <= page < PAGES -> (k < 3)%nat -> T (S k) (prefix (S k) page) = Some f -> has (memory w f (index (S k) page)) HUGE = false.
Proof.
  intros Ht Hp Hk Hf. rewrite (upper_entry _ _ _ _ _ _ _ Ht Hp Hk Hf). destruct (T k (prefix k page)) as [c|] eqn:E; [|done].
  by apply table_entry_Some, (tree_managed _ _ _ _ _ _ _ Ht E).
Qed.

Lemma map_populated w T root va e C w3 T3 v' :
  populated T (view w T) -> user_page va -> built w T root (page_of va) C w3 T3 -> has e PRESENT = true ->
  (forall k, (k < 3)%nat -> T3 k (prefix k (page_of va)) <> None) ->
  (forall pg, v' pg = if pg =? page_of va then e else view w T pg) -> populated T3 v'.
Proof.
  intros [P0 P1] Hva Hb He Hall Hv. pose proof (user_page_range va Hva) as Hp.
  assert (Hsub : forall k p f, T k p = Some f -> T3 k p <> None).
  { intros k p f Hf. destruct (decide (k ∈ C /\ p = prefix k (page_of va))) as [[Hk ->]|Hno].
    - by destruct (bu_new _ _ _ _ _ _ _ Hb k Hk) as (_ & _ & ?).
    - by rewrite (bu_old _ _ _ _ _ _ _ Hb k p Hno), Hf. }
  split.
  - intros p f Hf. destruct (decide (p = prefix 0 (page_of va))) as [->|Hne].
    + exists (page_of va). split; [done|]. by rewrite Hv, Z.eqb_refl.
    + rewrite (bu_old _ _ _ _ _ _ _ Hb) in Hf by tauto. destruct (P0 _ _ Hf) as (pg & Hpg & Hpr). exists pg. split; [done|].
      rewrite Hv. by destruct (pg =? page_of va).
  - intros k p f Hf Hk. destruct (decide (p = prefix (S k) (page_of va))) as [->|Hne].
    + exists (prefix k (page_of va)). rewrite prefix_S by lia. split; [done|]. apply Hall. lia.
    + rewrite (bu_old _ _ _ _ _ _ _ Hb) in Hf by tauto. destruct (P1 _ _ _ Hf Hk) as (q & Hq & Hn). exists q. split; [done|].
      destruct (T k q) as [g|] eqn:Hg; [by eapply Hsub|done].
Qed.

Lemma map_page_spec w root T va physical flags :
  frames_wf w -> tree w root T -> populated T (view w T) -> user_page va -> is_frame physical -> flags_ok flags ->
  exists r w', map_page_in_root w root va physical flags = Some (r, w') /\ map_outcome w root T va (Z.lor physical flags) w' r.
Proof.
  intros Hw Ht Hpop Hva Hphys [Hfl Hpr]. pose proof (user_page_range va Hva) as Hp. assert (Hva0 : 0 <= va) by apply Hva.
  pose proof (built_start w T root (page_of va) Hw Ht) as Hb0. unfold map_page_in_root.
  assert (Hroot : T 3%nat (prefix 3 (page_of va)) = Some root) by (rewrite prefix_3 by done; apply Ht).
  destruct (ensure_table w root (pml4_index va)) as [[made w1] c3] eqn:E1. rewrite pml4_index_eq in E1 by done.
  pose proof (built_stage w T root (page_of va) Hp [] w T 2 root made w1 c3 Hb0 ltac:(lia) ltac:(set_solver) Hroot E1) as S1.
  destruct made; cbn [negb].
  2: { destruct S1 as (-> & Hn & Hb1). destruct (built_nothing _ _ _ _ _ _ Hb1) as (? & ? & ? & ?).
       eexists _, w1. split; [done|]. constructor; try done. left. split; [done|].
       by rewrite (view_absent w root T 2 (page_of va) Ht ltac:(lia) ltac:(lia) Hn), has_0. }
  destruct S1 as (T1 & pdpt & Hb1 & Hpdpt & Hmono1). rewrite app_nil_r in Hb1. pose proof (bu_tree _ _ _ _ _ _ _ Hb1) as Ht1.
  rewrite (read_pdpt _ _ _ _ _ Ht1 Hva Hpdpt). rewrite pdpt_index_eq by done.
  rewrite (no_huge w1 root T1 1 _ _ Ht1 Hp ltac:(lia) Hpdpt).
  destruct (ensure_table w1 pdpt (index 2 (page_of va))) as [[made w2] c2] eqn:E2.
  pose proof (built_stage w T root (page_of va) Hp _ w1 T1 1 pdpt made w2 c2 Hb1 ltac:(lia) ltac:(destruct c3; set_solver) Hpdpt E2) as S2.
  destruct made; cbn [negb].
  2: { destruct S2 as (-> & Hn & Hb2). eapply (undo_spec w T root va _ c3 false false w2 T1); try done. left. split; [done|].
       by rewrite <- (bu_view _ _ _ _ _ _ _ Hb1), (view_absent w1 root T1 1 (page_of va) Ht1 ltac:(lia) ltac:(lia) Hn), has_0. }
  destruct S2 as (T2 & pd & Hb2 & Hpd & Hmono2). pose proof (bu_tree _ _ _ _ _ _ _ Hb2) as Ht2.
  apply Hmono2 in Hpdpt. rewrite <- pdpt_index_eq by done. rewrite (read_pd _ _ _ _ _ _ Ht2 Hva Hpdpt Hpd). rewrite pd_index_eq by done.
  rewrite (no_huge w2 root T2 0 _ _ Ht2 Hp ltac:(lia) Hpd).
  destruct (ensure_table w2 pd (index 1 (page_of va))) as [[made w3] c1] eqn:E3.
  pose proof (built_stage w T root (page_of va) Hp _ w2 T2 0 pd made w3 c1 Hb2 ltac:(lia) ltac:(destruct c3, c2; set_solver) Hpd E3) as S3.
  destruct made; cbn [negb].
  2: { destruct S3 as (-> & Hn & Hb3). eapply (undo_spec w T root va _ c3 c2 false w3 T2); try done. left. split; [done|].
       by rewrite <- (bu_view _ _ _ _ _ _ _ Hb2), (view_absent w2 root T2 0 (page_of va) Ht2 ltac:(lia) ltac:(lia) Hn), has_0. }
  destruct S3 as (T3 & pt & Hb3 & Hpt & Hmono3). pose proof (bu_tree _ _ _ _ _ _ _ Hb3) as Ht3. pose proof Hb3 as [B1 _ B3 _ _ B6 B7].
  apply Hmono3 in Hpd, Hpdpt. rewrite <- pd_index_eq by done. rewrite (read_pt _ _ _ _ _ _ Ht3 Hva Hpd Hpt). rewrite pt_index_eq by done.
  assert (Ev : memory w3 pt (index 0 (page_of va)) = view w T (page_of va)) by (rewrite <- B3; unfold view; by rewrite Hpt).
  rewrite Ev. destruct (has (view w T (page_of va)) PRESENT) eqn:Hin.
  { eapply (undo_spec w T root va _ c3 c2 c1 w3 T3); try done. right. done. }
  assert (He : has (Z.lor physical flags) PRESENT = true) by (by rewrite has_entry).
  destruct (leaf_write w3 root T3 (page_of va) pt (Z.lor physical flags) B1 Ht3 Hpt (or_intror He)) as (L1 & L2 & L3 & L4 & L5).
  eexists _, _. split; [done|]. eapply (mapped_ok _ _ _ _ _ _ T3); try done; [intros; by apply Hmono3, Hmono2, Hmono1|..].
  - apply (keeps_trans _ _ w3); [done|]. eapply keeps_weaken; [exact L3|]. intros g <-. by eexists _, _.
  - intros pg. by rewrite L5, B3.
  - eapply (map_populated w T root va (Z.lor physical flags) _ w3 T3); try done.
    + intros k Hk. destruct k as [|[|[|k]]]; [by rewrite Hpt|by rewrite Hpd|by rewrite Hpdpt|lia].
    + intros pg. by rewrite L5, B3.
Qed.

(** ** Unmapping *)

Lemma table_empty_spec w t : table_empty w t = true <-> forall i, 0 <= i < 512 -> has (memory w t i) PRESENT = false.
Proof.
  unfold table_empty. rewrite forallb_forall. split.
  - intros Ha i Hi%indices_spec. apply negb_true_iff, Ha. by apply list_elem_of_In.
  - intros Ha i Hi%list_elem_of_In%indices_spec. by apply negb_true_iff, Ha.
Qed.

Lemma table_empty_false w t : table_empty w t = false -> exists i, 0 <= i < 512 /\ has (memory w t i) PRESENT = true.
Proof.
  intros E. destruct (decide (Exists (fun i => has (memory w t i) PRESENT = true) indices)) as [Hx|Hx].
  - apply Exists_exists in Hx as (i & Hi%indices_spec & Hp). by exists i.
  - apply not_Exists_Forall in Hx; [|apply _]. rewrite Forall_forall in Hx. rewrite (proj2 (table_empty_spec w t)) in E; [done|].
    intros i Hi%indices_spec. by apply not_true_is_false, Hx.
Qed.

(** No table is empty, except perhaps the one of level [k] for this page. *)
Definition populated_but T (v : Z -> Z) (k : nat) (page : Z) : Prop :=
  (forall p f, T O p = Some f -> (O, p) <> (k, prefix k page) -> exists pg, prefix 0 pg = p /\ has (v pg) PRESENT = true) /\
  forall j p f, T (S j) p = Some f -> (S j < 3)%nat -> (S j, p) <> (k, prefix k page) -> exists q, q / 512 = p /\ T j q <> None.

Lemma populated_nonempty w root T k page f :
  tree w root T -> populated_but T (view w T) k page -> (k < 3)%nat -> T k (prefix k page) = Some f ->
  table_empty w f = false -> populated T (view w T).
Proof.
  intros Ht [P0 P1] Hk Hf He. apply table_empty_false in He as (i & Hi & Hp). destruct (tr_dom _ _ _ _ Ht _ _ _ Hf) as [_ Hb]. split.
  - intros p g Hg. destruct (decide ((O, p) = (k, prefix k page))) as [[= <- ->]|Hne]; [|by eapply P0].
    exists (prefix 0 page * 512 + i). assert (E : prefix 0 (prefix 0 page * 512 + i) = prefix 0 page).
    { unfold prefix. change (512 ^ (Z.of_nat 0 + 1)) with 512. rewrite Z.div_add_l, (Z.div_small i) by lia. lia. }
    split; [done|]. unfold view. rewrite E, Hg. replace (index 0 (prefix 0 page * 512 + i)) with i; [congruence|].
    pose proof (page_split (prefix 0 page * 512 + i)) as E'. rewrite E in E'. lia.
  - intros j p g Hg Hj. destruct (decide ((S j, p) = (k, prefix k page))) as [[= <- ->]|Hne]; [|by eapply P1].
    exists (prefix (S j) page * 512 + i). split; [rewrite Z.div_add_l, (Z.div_small i) by lia; lia|]. intros Hn.
    rewrite (tr_entry _ _ _ _ Ht j (prefix (S j) page) f i Hf Hi), Hn, has_0 in Hp; [done|].
    do 2 (destruct j as [|j]; [cbn [bound] in *; lia|]). lia.
Qed.

Lemma populated_drop T v k page :
  0 <= page -> populated_but T v k page -> populated_but (put T k (prefix k page) None) v (S k) page.
Proof.
  intros Hp [P0 P1]. split.
  - intros p f Hf _. unfold put in Hf. destruct (decide _); [done|]. eapply P0; [done|]. intros [= <- ->]. tauto.
  - intros j p f Hf Hj Hne. unfold put in Hf. destruct (decide _) as [|Hno]; [done|].
    destruct (P1 _ _ _ Hf Hj) as (q & Hq & Hn); [intros [= <- ->]; tauto|]. exists q. split; [done|]. rewrite put_ne; [done|].
    intros [= -> ->]. apply Hne. rewrite <- Hq, prefix_S by lia. done.
Qed.

(** What has happened so far while the tables of a page are pruned. *)
Record pruned w T root (page : Z) w' T' : Prop := mk_pruned {
  pr_wf : frames_wf w';
  pr_tree : tree w' root T';
  pr_sub : forall k p f, T' k p = Some f -> T k p = Some f;
  pr_freed : forall g, tables T g -> ~ tables T' g -> refs w' g = 0;
  pr_keeps : keeps (tables T) w w';
  pr_view : forall pg, view w' T' pg = if pg =? page then 0 else view w T pg
}.

Lemma pruned_drop w T root page w1 T1 k c f :
  tree w root T -> 0 <= page < PAGES -> (k < 3)%nat ->
  pruned w T root page w1 T1 -> T1 k (prefix k page) = Some c -> T1 (S k) (prefix (S k) page) = Some f ->
  table_empty w1 c = true ->
  exists w2, free_frame w1 c = Some w2 /\
    pruned w T root page (write w2 f (index (S k) page) 0) (put T1 k (prefix k page) None).
Proof.
  intros Ht Hp Hk [H1 H2 H3 H4 H5 H6] Hc Hf He. pose proof (proj1 (table_empty_spec w1 c) He) as Hv.
  assert (Hne : f <> c) by (intros ->; destruct (tr_inj _ _ _ _ H2 _ _ _ _ _ Hf Hc); lia).
  destruct (free_then_unlink w1 c f (prefix k page mod 512) H1 (proj2 (tr_frame _ _ _ _ H2 _ _ _ Hc)) (tree_live _ _ _ _ _ _ _ H2 Hf) Hne)
    as (w2 & E & Hw2 & Hr2 & Hm2).
  exists w2. split; [done|]. rewrite index_S. set (w3 := write w2 f (prefix k page mod 512) 0) in *.
  assert (Hpar : T1 (S k) (prefix k page / 512) = Some f) by (rewrite <- prefix_S by lia; done).
  destruct (drop_spec w1 w3 root T1 k (prefix k page) f c H2 Hk Hpar Hc Hv Hw2 Hr2 Hm2) as [[G1 G2 G3 G4] Hr3].
  split; try done.
  - intros j p g Hg. unfold put in Hg. destruct (decide _); [done|auto].
  - intros g Hg Hno. destruct (decide (g = c)) as [->|Hgc]; [by rewrite Hr3, Z.eqb_refl|].
    rewrite Hr3, (proj2 (Z.eqb_neq g c)) by done. apply H4; [done|]. intros (j & p & Hg1). apply Hno. exists j, p.
    rewrite put_ne; [done|]. intros [= -> ->]. congruence.
  - apply (keeps_trans _ _ w1); [done|]. eapply keeps_weaken; [exact G4|]. intros g (j & p & Hg). exists j, p. auto.
  - intros pg. by rewrite G3, H6.
Qed.

Lemma pruned_start w T root page pt :
  frames_wf w -> tree w root T -> T O (prefix 0 page) = Some pt -> pruned w T root page (write w pt (index 0 page) 0) T.
Proof.
  intros Hw Ht Hpt. destruct (leaf_write w root T page pt 0 Hw Ht Hpt (or_introl eq_refl)) as (L1 & L2 & L3 & L4 & L5).
  split; try done. eapply keeps_weaken; [exact L3|]. intros g <-. by eexists _, _.
Qed.

Lemma populated_but_start T v page :
  populated T v -> populated_but T (fun pg => if pg =? page then 0 else v pg) 0 page.
Proof.
  intros [P0 P1]. split; [|intros; by eapply P1]. intros p f Hf Hne. destruct (P0 p f Hf) as (pg & Hpg & Hpr). exists pg. split; [done|].
  destruct (Z.eqb_spec pg page) as [->|]; [congruence|done].
Qed.

Lemma populated_but_ext T v v' k page : (forall pg, v pg = v' pg) -> populated_but T v k page -> populated_but T v' k page.
Proof. intros E [P0 P1]. split; [|done]. by setoid_rewrite <- E. Qed.

Lemma unmap_absent w root T va :
  tree w root T -> user_page va -> has (view w T (page_of va)) PRESENT = false ->
  unmap_page_in_root w root va = Some (Err NotMapped, w).
Proof.
  intros Ht Hva Hn. destruct (walk_entries _ _ _ _ _ Ht Hva) as (E3 & E2 & E1). pose proof (user_page_range va Hva) as Hp.
  unfold unmap_page_in_root, validate_user_mapping. destruct Hva as [Hva Ha]. rewrite !page_offset, Ha. cbn [Z.eqb negb orb Z.modulo Z.div_eucl].
  destruct (Z.leb_spec (2 ^ 47) va) as [|_]; [lia|]. cbn [is_user has USER_READ is_writable is_executable].
  rewrite E3. rewrite from_table_entry by (intros; by eapply tree_managed). destruct (T 2%nat _) as [f2|] eqn:H2; [|done].
  rewrite (E2 f2) by done. rewrite from_table_entry by (intros; by eapply tree_managed). destruct (T 1%nat _) as [f1|] eqn:H1; [|done].
  rewrite (E1 f1) by done. rewrite from_table_entry by (intros; by eapply tree_managed). destruct (T O _) as [f0|] eqn:H0; [|done].
  rewrite pt_index_eq by lia. unfold view in Hn. rewrite H0 in Hn. by rewrite Hn.
Qed.

Lemma validate_user va : user_page va -> validate_user_mapping va 0 USER_READ = Ok tt.
Proof.
  intros [Hva Ha]. unfold validate_user_mapping. rewrite !page_offset, Ha. cbn [Z.eqb negb orb Z.modulo Z.div_eucl].
  destruct (Z.leb_spec (2 ^ 47) va) as [|_]; [lia|done].
Qed.

Lemma unmap_page_spec w root T va :
  frames_wf w -> tree w root T -> populated T (view w T) -> user_page va -> has (view w T (page_of va)) PRESENT = true ->
  exists w' T', unmap_page_in_root w root va = Some (Ok (address (view w T (page_of va))), w') /\
    pruned w T root (page_of va) w' T' /\ populated T' (view w' T').
Proof.
  intros Hw Ht Hpop Hva Hin. destruct (walk_entries _ _ _ _ _ Ht Hva) as (E3 & E2 & E1). pose proof (user_page_range va Hva) as Hp.
  unfold unmap_page_in_root. rewrite (validate_user va Hva), E3, from_table_entry by (intros; by eapply tree_managed).
  unfold view in Hin. destruct (T O (prefix 0 (page_of va))) as [pt|] eqn:Hpt; [|done].
  destruct (path_up root (page_of va) Hp 0 w T pt Ht Hpt ltac:(lia)) as [pd Hpd].
  destruct (path_up root (page_of va) Hp 1 w T pd Ht Hpd ltac:(lia)) as [pdpt Hpdpt].
  rewrite Hpdpt, (E2 _ Hpdpt), from_table_entry by (intros; by eapply tree_managed).
  rewrite Hpd, (E1 _ Hpd), from_table_entry by (intros ? [= <-]; by eapply tree_managed).
  assert (Hva0 : 0 <= va) by apply Hva. rewrite pt_index_eq, pd_index_eq, pdpt_index_eq, pml4_index_eq by done.
  rewrite Hin. cbn [negb]. assert (Ev : view w T (page_of va) = memory w pt (index 0 (page_of va))) by (unfold view; by rewrite Hpt).
  rewrite Ev. pose proof (pruned_start w T root (page_of va) pt Hw Ht Hpt) as Q0.
  set (w0 := write w pt (index 0 (page_of va)) 0) in *.
  assert (P0 : populated_but T (view w0 T) 0 (page_of va)).
  { eapply populated_but_ext; [|by apply populated_but_start]. intros pg. by rewrite (pr_view _ _ _ _ _ _ Q0). }
  destruct (table_empty w0 pt) eqn:He0; cbn [negb].
  2: { exists w0, T. split; [done|]. split; [done|]. eapply populated_nonempty; try done; [apply Q0|lia]. }
  destruct (pruned_drop w T root (page_of va) w0 T 0 pt pd Ht Hp ltac:(lia) Q0 Hpt Hpd He0) as (w1 & -> & Q1).
  apply populated_drop in P0; [|lia]. set (T1 := put T 0 _ _) in *. set (w1' := write w1 _ _ _) in *.
  assert (P1 : populated_but T1 (view w1' T1) 1 (page_of va)).
  { eapply populated_but_ext; [|exact P0]. intros pg. by rewrite (pr_view _ _ _ _ _ _ Q0), (pr_view _ _ _ _ _ _ Q1). }
  assert (Hpd1 : T1 1%nat (prefix 1 (page_of va)) = Some pd) by (unfold T1; by rewrite put_ne).
  assert (Hpdpt1 : T1 2%nat (prefix 2 (page_of va)) = Some pdpt) by (unfold T1; by rewrite put_ne).
  destruct (table_empty w1' pd) eqn:He1; cbn [negb].
  2: { exists w1', T1. split; [done|]. split; [done|]. eapply populated_nonempty; try done; [apply Q1|lia]. }
  destruct (pruned_drop w T root (page_of va) w1' T1 1 pd pdpt Ht Hp ltac:(lia) Q1 Hpd1 Hpdpt1 He1) as (w2 & -> & Q2).
  apply populated_drop in P1; [|lia]. set (T2 := put T1 1 _ _) in *. set (w2' := write w2 _ _ _) in *.
  assert (P2 : populated_but T2 (view w2' T2) 2 (page_of va)).
  { eapply populated_but_ext; [|exact P1]. intros pg. by rewrite (pr_view _ _ _ _ _ _ Q1), (pr_view _ _ _ _ _ _ Q2). }
  assert (Hpdpt2 : T2 2%nat (prefix 2 (page_of va)) = Some pdpt) by (unfold T2; by rewrite put_ne).
  destruct (table_empty w2' pdpt) eqn:He2; cbn [negb].
  2: { exists w2', T2. split; [done|]. split; [done|]. eapply populated_nonempty; try done; [apply Q2|lia]. }
  assert (Hroot : T2 3%nat (prefix 3 (page_of va)) = Some root) by (rewrite prefix_3 by done; apply Q2).
  destruct (pruned_drop w T root (page_of va) w2' T2 2 pdpt root Ht Hp ltac:(lia) Q2 Hpdpt2 Hroot He2) as (w3 & -> & Q3).
  apply populated_drop in P2; [|lia]. eexists _, _. split; [done|]. split; [exact Q3|].
  destruct P2 as [P0' P1']. split; [|intros; by eapply P1'; try done; intros [= -> _]; lia].
  intros p f Hf. destruct (P0' p f Hf) as (pg & Hpg & Hpr); [done|]. exists pg. split; [done|].
  by rewrite (pr_view _ _ _ _ _ _ Q3), <- (pr_view _ _ _ _ _ _ Q2).
Qed.
End Ops.
End PagingOps.

(** * Tearing an address space down

    Dropping a space frees each of its tables once, drops one reference for
    every page it owns, and touches nothing else. *)

Module PagingDrop.
Import Paging PagingTree PagingOps.

Lemma NoDup_indices : NoDup indices.
Proof. unfold indices. apply (NoDup_fmap_2 Z.of_nat), NoDup_seq. Qed.

#[local] Opaque indices.

Section Drop.
Context {W : Type} {HF : Frames W} {HL : FramesLaws W} (kernel_pml4 : Z -> Z).
Implicit Types (w : W).
Abbreviation tree := (tree kernel_pml4).

Section Teardown.
Context (w0 : W) (root : Z) (T : nat -> Z -> option Z) (Ht : tree w0 root T).

(** The tables below and including the one of [(k, p)]. *)
Definition under (k : nat) (p g : Z) : Prop :=
  exists j q, (j <= k)%nat /\ T j q = Some g /\ q / 512 ^ Z.of_nat (k - j) = p.

Lemma under_self k p f : T k p = Some f -> under k p f.
Proof. intros Hf. exists k, p. rewrite Nat.sub_diag, Z.div_1_r. done. Qed.

Lemma under_child k p i g : 0 <= i < 512 -> under k (p * 512 + i) g -> under (S k) p g.
Proof.
  intros Hi (j & q & Hj & Hg & Hq). exists j, q. split; [lia|]. split; [done|].
  replace (Z.of_nat (S k - j)) with (Z.succ (Z.of_nat (k - j))) by lia. rewrite Z.pow_succ_r, Z.mul_comm by lia.
  rewrite <- Z.div_div by (try apply Z.pow_nonzero; lia). rewrite Hq. rewrite Z.div_add_l, (Z.div_small i) by lia. lia.
Qed.

Lemma under_cases k p g : under (S k) p g -> T (S k) p = Some g \/ exists i, 0 <= i < 512 /\ under k (p * 512 + i) g.
Proof.
  intros (j & q & Hj & Hg & Hq). destruct (decide (j = S k)) as [->|Hne].
  - left. rewrite Nat.sub_diag, Z.div_1_r in Hq. by subst.
  - right. exists ((q / 512 ^ Z.of_nat (k - j)) mod 512). split; [apply Z.mod_pos_bound; lia|]. exists j, q. split; [lia|]. split; [done|].
    replace (Z.of_nat (S k - j)) with (Z.succ (Z.of_nat (k - j))) in Hq by lia. rewrite Z.pow_succ_r, Z.mul_comm in Hq by lia.
    rewrite <- Z.div_div in Hq by (try apply Z.pow_nonzero; lia). pose proof (Z.div_mod (q / 512 ^ Z.of_nat (k - j)) 512). lia.
Qed.

Lemma under_disjoint k p p' g : under k p g -> under k p' g -> p = p'.
Proof.
  intros (j & q & Hj & Hg & Hq) (j' & q' & Hj' & Hg' & Hq'). destruct (tr_inj _ _ _ _ Ht _ _ _ _ _ Hg Hg') as [-> ->]. congruence.
Qed.

Lemma under_above k p p' f : T (S k) p' = Some f -> ~ under k p f.
Proof. intros Hf (j & q & Hj & Hg & _). destruct (tr_inj _ _ _ _ Ht _ _ _ _ _ Hf Hg). lia. Qed.

Lemma under_tables k p g : under k p g -> tables T g.
Proof. intros (j & q & _ & Hg & _). by exists j, q. Qed.

(** An absent table has nothing below it. *)
Lemma under_absent k p g : (k < 3)%nat -> T k p = None -> ~ under k p g.
Proof.
  revert p. induction k as [|k IH]; intros p Hk Hn.
  - intros (j & q & Hj & Hg & Hq). assert (j = O) as -> by lia. rewrite Z.div_1_r in Hq. congruence.
  - intros [Hg|(i & Hi & Hu)]%under_cases; [congruence|]. eapply IH; [lia| |exact Hu].
    destruct (T k (p * 512 + i)) as [x|] eqn:Hx; [|done]. exfalso. apply (tr_parent _ _ _ _ Ht _ _ _ Hx); [lia|].
    by rewrite Z.div_add_l, (Z.div_small i), Z.add_0_r by lia.
Qed.

(** Tables as they were before the teardown started. *)
Definition intact w (D : Z -> Prop) : Prop :=
  forall g, D g -> refs w g = 1 /\ forall i, memory w g i = memory w0 g i.

(** Everything under one table is gone. *)
Definition freed w w' (D : Z -> Prop) : Prop :=
  frames_wf w' /\ (forall g, D g -> refs w' g = 0) /\ keeps D w w'.

Lemma intact_keeps w w' (D E : Z -> Prop) : frames_wf w -> keeps E w w' -> (forall g, D g -> ~ E g) -> intact w D -> intact w' D.
Proof.
  intros Hw Hk Hne Hi g Hg. destruct (Hi g Hg) as [Hr Hm], (Hk g (Hne g Hg)) as [Hr' Hm']. split; [congruence|].
  intros i. rewrite Hm'; [done|]. left. lia.
Qed.

(** One entry of the table [f] of [(S k, p)], in one way or another. *)
Definition entry_step (body : W -> Z -> option W) (k : nat) (p f : Z) : Prop :=
  forall w i, frames_wf w -> 0 <= i < 512 -> p * 512 + i < bound k -> refs w f = 1 -> memory w f i = memory w0 f i ->
    intact w (under k (p * 512 + i)) ->
    exists w', body w i = Some w' /\ frames_wf w' /\ (forall g, under k (p * 512 + i) g -> refs w' g = 0) /\
      keeps (fun g => g = f \/ under k (p * 512 + i) g) w w' /\ refs w' f = 1 /\ (forall j, j <> i -> memory w' f j = memory w f j).

Definition run (body : W -> Z -> option W) (l : list Z) (w : W) : option W :=
  fold_left (fun acc i => match acc with None => None | Some w => body w i end) l (Some w).

Lemma entries_spec body k p f l :
  (k < 3)%nat -> T (S k) p = Some f -> entry_step body k p f -> NoDup l -> (forall i, i ∈ l -> 0 <= i < 512 /\ p * 512 + i < bound k) ->
  forall w, frames_wf w -> refs w f = 1 -> (forall i, i ∈ l -> memory w f i = memory w0 f i) ->
    (forall i, i ∈ l -> intact w (under k (p * 512 + i))) ->
  exists w', run body l w = Some w' /\ frames_wf w' /\ (forall i g, i ∈ l -> under k (p * 512 + i) g -> refs w' g = 0) /\
    keeps (fun g => g = f \/ exists i, i ∈ l /\ under k (p * 512 + i) g) w w' /\ refs w' f = 1.
Proof.
  intros Hk Hf Hbody. unfold run. induction l as [|i l IH]; intros Hnd Hl w Hw Hrf Hmf Hint; cbn [fold_left].
  { exists w. split; [done|]. split; [done|]. split; [intros i g Hi; by apply elem_of_nil in Hi|]. split; [apply keeps_refl|done]. }
  apply NoDup_cons in Hnd as [Hi Hnd]. destruct (Hl i ltac:(apply list_elem_of_here)) as [Hi5 Hib].
  destruct (Hbody w i Hw Hi5 Hib Hrf) as (w1 & -> & Hw1 & Hr1 & Hk1 & Hrf1 & Hm1); [apply Hmf, list_elem_of_here|apply Hint, list_elem_of_here|].
  assert (Hsep : forall i', i' ∈ l -> forall g, under k (p * 512 + i') g -> ~ (g = f \/ under k (p * 512 + i) g)).
  { intros i' Hi' g Hg [->|Hg']; [by apply (under_above k _ _ _ Hf) in Hg|]. pose proof (under_disjoint _ _ _ _ Hg Hg').
    assert (i' = i) as -> by lia. done. }
  destruct (IH Hnd ltac:(intros; apply Hl, elem_of_cons; by right) w1 Hw1 Hrf1) as (w' & -> & Hw' & Hr' & Hk' & Hrf').
  - intros i' Hi'. rewrite Hm1 by (intros ->; done). apply Hmf, elem_of_cons. by right.
  - intros i' Hi'. eapply intact_keeps; [exact Hw|exact Hk1|by apply Hsep|]. apply Hint, elem_of_cons. by right.
  - exists w'. split; [done|]. split; [done|]. split; [|split; [|done]].
    + intros i' g [->|Hi']%elem_of_cons Hg; [|by eapply Hr'].
      assert (Hg' : ~ (g = f \/ exists i', i' ∈ l /\ under k (p * 512 + i') g)).
      { intros [->|(i' & Hi' & Hu)]; [by apply (under_above k _ _ _ Hf) in Hg|]. apply (Hsep i' Hi' g Hu). by right. }
      rewrite (proj1 (Hk' g Hg')). by apply Hr1.
    + apply (keeps_trans _ _ w1).
      * eapply keeps_weaken; [exact Hk1|]. intros g [->|Hg]; [by left|right]. exists i. split; [apply list_elem_of_here|done].
      * eapply keeps_weaken; [exact Hk'|]. intros g [->|(i' & Hi' & Hg)]; [by left|right]. exists i'. split; [apply elem_of_cons; by right|done].
Qed.

(** Clearing words of a table that stays. *)
Lemma write_after w w1 (D : Z -> Prop) f i v :
  frames_wf w1 -> keeps D w w1 -> refs w f = 1 -> ~ D f ->
  let w' := write w1 f i v in
  frames_wf w' /\ (forall g, refs w' g = refs w1 g) /\ keeps (fun g => g = f \/ D g) w w' /\ refs w' f = 1 /\
  forall j, j <> i -> memory w' f j = memory w f j.
Proof.
  intros Hw1 Hk Hf HD w'. assert (Hl : live w1 f) by (left; rewrite (proj1 (Hk f HD)); lia).
  destruct (write_correct w1 f i v Hw1 Hl) as (Hw' & Hr & Hm). fold w' in Hw', Hr, Hm.
  split; [done|]. split; [done|]. split; [|split; [rewrite Hr, (proj1 (Hk f HD)); done|]].
  - apply (keeps_trans _ _ w1); [eapply keeps_weaken; [exact Hk|]; by right|].
    eapply keeps_weaken; [by apply write_keeps|]. intros g <-. by left.
  - intros j Hj. rewrite Hm, Z.eqb_refl, (proj2 (Z.eqb_neq j i)) by done. cbn. apply Hk; [done|left; lia].
Qed.

Lemma clear_words f l : forall w, frames_wf w -> refs w f = 1 ->
  exists w', run (fun w i => Some (write w f i 0)) l w = Some w' /\ frames_wf w' /\ keeps (eq f) w w' /\ refs w' f = 1.
Proof.
  unfold run. induction l as [|i l IH]; intros w Hw Hf; cbn [fold_left]; [exists w; by split_and!|].
  destruct (write_after w w (fun _ => False) f i 0 Hw (keeps_refl _ _) Hf ltac:(tauto)) as (H1 & H2 & H3 & H4 & _).
  destruct (IH _ H1 H4) as (w' & -> & ? & Hk & ?). exists w'. split; [done|]. split; [done|]. split; [|done].
  eapply keeps_trans; [|exact Hk]. eapply keeps_weaken; [exact H3|]. intros g [->|[]]. done.
Qed.

(** Freeing the table itself, when everything below it is gone. *)
Lemma free_last w w1 (D E : Z -> Prop) f :
  frames_wf w1 -> (forall g, D g -> refs w1 g = 0) -> keeps (fun g => g = f \/ D g) w w1 -> refs w1 f = 1 ->
  (forall g, E g <-> g = f \/ D g) -> (forall g, D g -> g <> f) ->
  exists w', free_frame w1 f = Some w' /\ freed w w' E.
Proof.
  intros Hw1 HD Hk Hf HE Hne. destruct (free_frame_spec w1 f Hw1) as (w' & -> & Hw' & Hr & Hm); [lia|]. exists w'. split; [done|].
  split; [done|]. split.
  - intros g [->|Hg]%HE; [rewrite Hr, Z.eqb_refl; lia|]. rewrite Hr, (proj2 (Z.eqb_neq g f)) by auto. auto.
  - intros g Hg. rewrite HE in Hg. destruct (Hk g Hg) as [Hr1 Hm1]. rewrite Hr, (proj2 (Z.eqb_neq g f)) by tauto. split; [done|].
    intros Hl i. rewrite Hm, Hm1; [done|done|]. destruct Hl as [Hl|Hl]; [left|by right].
    rewrite Hr, (proj2 (Z.eqb_neq g f)), Hr1 by tauto. done.
Qed.

Lemma free_tree_spec k : forall p f w,
  (k < 3)%nat -> T k p = Some f -> frames_wf w -> intact w (under k p) ->
  exists w', free_table_tree (S k) w f = Some w' /\ freed w w' (under k p).
Proof.
  induction k as [|k IH]; intros p f w Hk Hf Hw Hint; destruct (Hint f (under_self _ _ _ Hf)) as [Hrf Hmf].
  - destruct (clear_words f indices w Hw Hrf) as (w1 & E & Hw1 & Hk1 & Hrf1).
    change (free_table_tree 1 w f) with (match run (fun w i => Some (write w f i 0)) indices w with None => None | Some w => free_frame w f end).
    rewrite E. apply (free_last w w1 (fun _ => False)); try done; [eapply keeps_weaken; [exact Hk1|]; intros g <-; by left|].
    intros g. split; [|intros [->|[]]; by apply under_self]. intros (j & q & Hj & Hg & Hq). assert (j = O) as -> by lia.
    rewrite Z.div_1_r in Hq. left. congruence.
  - set (body := fun w i => match (if has (memory w f i) PRESENT && negb (has (memory w f i) HUGE)
      then free_table_tree (S k) w (address (memory w f i)) else Some w) with None => None | Some w => Some (write w f i 0) end).
    assert (Hstep : entry_step body k p f).
    { intros u i Hu Hi Hb Hru Hmu Hintu. unfold body. rewrite Hmu, (tr_entry _ _ _ _ Ht k p f i Hf Hi Hb).
      assert (Hnot : forall g, under k (p * 512 + i) g -> ~ g = f) by (intros g Hg ->; by apply (under_above k _ _ _ Hf) in Hg).
      destruct (T k (p * 512 + i)) as [c|] eqn:Hc.
      - destruct (table_entry_Some c (tree_managed _ _ _ _ _ _ _ Ht Hc)) as (-> & -> & ->). cbn [andb negb].
        destruct (IH _ _ _ ltac:(lia) Hc Hu Hintu) as (u1 & -> & Hu1 & Hr1 & Hk1).
        destruct (write_after u u1 _ f i 0 Hu1 Hk1 Hru) as (G1 & G2 & G3 & G4 & G5); [by apply (under_above k _ _ _ Hf)|].
        eexists. split; [done|]. split; [done|]. split; [intros g Hg; rewrite G2; auto|]. done.
      - cbn [table_entry]. rewrite has_0. cbn [andb].
        destruct (write_after u u (under k (p * 512 + i)) f i 0 Hu (keeps_refl _ _) Hru) as (G1 & G2 & G3 & G4 & G5); [by apply (under_above k _ _ _ Hf)|].
        eexists. split; [done|]. split; [done|]. split; [|done]. intros g Hg. by apply under_absent in Hg; [|lia|]. }
    destruct (tr_dom _ _ _ _ Ht _ _ _ Hf) as [_ Hpb].
    destruct (entries_spec body k p f indices ltac:(lia) Hf Hstep NoDup_indices) with (w := w) as (w1 & E & Hw1 & Hr1 & Hk1 & Hrf1); try done.
    + intros i Hi%indices_spec. split; [done|]. do 2 (destruct k as [|k]; [cbn [bound] in *; lia|]). lia.
    + intros i Hi%indices_spec g Hg. apply Hint. by eapply under_child.
    + change (free_table_tree (S (S k)) w f) with (match run body indices w with None => None | Some w => free_frame w f end).
      rewrite E. apply (free_last w w1 (fun g => exists i, i ∈ indices /\ under k (p * 512 + i) g)); try done.
      * intros g (i & Hi & Hg). by eapply Hr1.
      * intros g. split.
        -- intros [Hg|(i & Hi & Hg)]%under_cases; [left; congruence|right]. exists i. by rewrite indices_spec.
        -- intros [->|(i & Hi%indices_spec & Hg)]; [by apply under_self|by eapply under_child].
      * intros g (i & Hi & Hg) ->. by apply (under_above k _ _ _ Hf) in Hg.
Qed.

(** The lower half of the root. *)
Definition root_body (w : W) (i : Z) : option W :=
  let entry := memory w root i in
  if has entry PRESENT then
    match free_table_tree 3 w (address entry) with
    | None => None
    | Some w => Some (write w root i 0)
    end
  else Some w.

Lemma lower_half_spec i : i ∈ lower_half <-> 0 <= i < 256.
Proof.
  unfold lower_half. rewrite list_elem_of_fmap. split.
  - intros (n & -> & Hn). apply elem_of_seq in Hn. lia.
  - intros Hi. exists (Z.to_nat i). split; [lia|]. apply elem_of_seq. lia.
Qed.

Lemma root_step : entry_step root_body 2 0 root.
Proof.
  pose proof (tr_root _ _ _ _ Ht) as Hf. intros u i Hu Hi Hb Hru Hmu Hintu. unfold root_body. cbv zeta.
  rewrite Hmu, (tr_entry _ _ _ _ Ht 2 0 root i Hf Hi Hb).
  destruct (T 2%nat (0 * 512 + i)) as [c|] eqn:Hc.
  - destruct (table_entry_Some c (tree_managed _ _ _ _ _ _ _ Ht Hc)) as (-> & _ & ->).
    destruct (free_tree_spec 2 _ _ _ ltac:(lia) Hc Hu Hintu) as (u1 & -> & Hu1 & Hr1 & Hk1).
    destruct (write_after u u1 _ root i 0 Hu1 Hk1 Hru) as (G1 & G2 & G3 & G4 & G5); [by apply (under_above 2 _ 0)|].
    eexists. split; [done|]. split; [done|]. split; [intros g Hg; rewrite G2; auto|]. done.
  - cbn [table_entry]. rewrite has_0. exists u. split; [done|]. split; [done|].
    split; [intros g Hg; by apply under_absent in Hg; [|lia|]|]. split; [apply keeps_refl|done].
Qed.

Lemma tables_under g : tables T g <-> g = root \/ exists i, i ∈ lower_half /\ under 2 (0 * 512 + i) g.
Proof.
  split.
  - intros (k & p & Hg). destruct (tr_dom _ _ _ _ Ht _ _ _ Hg) as [Hk Hp].
    destruct (decide (k = 3%nat)) as [->|Hne].
    { left. cbn [bound] in Hp. assert (p = 0) as -> by lia. rewrite (tr_root _ _ _ _ Ht) in Hg. congruence. }
    right. exists (p / 512 ^ Z.of_nat (2 - k)). split.
    + apply lower_half_spec. destruct k as [|[|[|k]]]; cbn [bound] in Hp; [| | |lia].
      * change (512 ^ Z.of_nat (2 - 0)) with 262144. split; [apply Z.div_pos; lia|apply Z.div_lt_upper_bound; lia].
      * change (512 ^ Z.of_nat (2 - 1)) with 512. split; [apply Z.div_pos; lia|apply Z.div_lt_upper_bound; lia].
      * change (512 ^ Z.of_nat (2 - 2)) with 1. rewrite Z.div_1_r. lia.
    + exists k, p. split; [lia|]. split; [done|]. lia.
  - intros [->|(i & _ & Hg)]; [exists 3%nat, 0; apply (tr_root _ _ _ _ Ht)|by eapply under_tables].
Qed.

Lemma drop_tables : frames_wf w0 ->
  exists w', run root_body lower_half w0 = Some w' /\ frames_wf w' /\ (forall g, tables T g -> g <> root -> refs w' g = 0) /\
    keeps (tables T) w0 w' /\ refs w' root = 1.
Proof.
  intros Hw. pose proof (tr_root _ _ _ _ Ht) as Hf.
  destruct (entries_spec root_body 2 0 root lower_half ltac:(lia) Hf root_step) with (w := w0) as (w' & E & Hw' & Hr & Hk & Hrf); try done.
  - unfold lower_half. apply (NoDup_fmap_2 Z.of_nat), NoDup_seq.
  - intros i Hi%lower_half_spec. cbn [bound]. lia.
  - by apply (tr_frame _ _ _ _ Ht _ _ _ Hf).
  - intros i Hi g Hg. split; [|done]. destruct (under_tables _ _ _ Hg) as (j & q & Hq). by apply (tr_frame _ _ _ _ Ht _ _ _ Hq).
  - exists w'. split; [done|]. split; [done|]. split; [|split; [|done]].
    + intros g [->|(i & Hi & Hg)]%tables_under Hne; [done|by eapply Hr].
    + eapply keeps_weaken; [exact Hk|]. intros g Hg. by apply tables_under.
Qed.
End Teardown.

(** ** References to frames *)

(** How many of the mappings lead to a frame. *)
Fixpoint count (g : Z) (l : list OwnedMapping) : Z :=
  match l with [] => 0 | m :: l => (if om_frame m =? g then 1 else 0) + count g l end.

Lemma count_nonneg g l : 0 <= count g l.
Proof. induction l as [|m l IH]; cbn [count]; [lia|]. case_if; lia. Qed.
Lemma count_app g l l' : count g (l ++ l') = count g l + count g l'.
Proof. induction l as [|m l IH]; cbn [count app]; [lia|]. case_if; lia. Qed.
Lemma count_perm g l l' : l ≡ₚ l' -> count g l = count g l'.
Proof. induction 1; cbn [count]; lia. Qed.
Lemma count_elem g l m : m ∈ l -> om_frame m = g -> 1 <= count g l.
Proof.
  intros Hm Hg. induction l as [|x l IH]; [by apply elem_of_nil in Hm|]. cbn [count].
  apply elem_of_cons in Hm as [->|Hm]; [rewrite Hg, Z.eqb_refl; pose proof (count_nonneg g l); lia|].
  specialize (IH Hm). case_if; lia.
Qed.
Lemma count_pos_elem g l : 0 < count g l -> exists m, m ∈ l /\ om_frame m = g.
Proof.
  induction l as [|m l IH]; cbn [count]; [lia|]. destruct (Z.eqb_spec (om_frame m) g) as [E|].
  - intros _. exists m. split; [apply list_elem_of_here|done].
  - intros Hp. destruct IH as (m' & Hm & E); [lia|]. exists m'. split; [apply elem_of_cons; by right|done].
Qed.

Lemma free_frames_spec l : forall w,
  frames_wf w -> (forall g, count g l <= refs w g) ->
  exists w', free_frames w l = Some w' /\ frames_wf w' /\ (forall g, refs w' g = refs w g - count g l) /\
    forall g i, live w' g -> memory w' g i = memory w g i.
Proof.
  induction l as [|m l IH]; intros w Hw Hc; cbn [free_frames].
  { exists w. split; [done|]. split; [done|]. split; [intros g; cbn; lia|done]. }
  pose proof (Hc (om_frame m)) as Hm. cbn [count] in Hm. rewrite Z.eqb_refl in Hm. pose proof (count_nonneg (om_frame m) l).
  destruct (free_frame_spec w (om_frame m) Hw) as (w1 & -> & Hw1 & Hr1 & Hm1); [lia|].
  assert (Hr1' : forall g, refs w1 g = refs w g - (if om_frame m =? g then 1 else 0)).
  { intros g. rewrite Hr1, (Z.eqb_sym g). destruct (Z.eqb_spec (om_frame m) g) as [->|]; lia. }
  destruct (IH w1 Hw1) as (w' & -> & Hw' & Hr' & Hm'); [intros g; specialize (Hc g); cbn [count] in Hc; rewrite Hr1'; lia|].
  exists w'. split; [done|]. split; [done|]. split; [intros g; rewrite Hr', Hr1'; cbn [count]; lia|].
  intros g i Hl. rewrite Hm' by done. apply Hm1. destruct Hl as [Hl|Hl]; [left|by right].
  rewrite Hr' in Hl. pose proof (count_nonneg g l). pose proof (refs_nonneg w' g Hw'). rewrite Hr' in *. lia.
Qed.

(** Dropping a space: its tables are free, every page it owned has one
    reference less. *)
Lemma drop_space_spec current w s T :
  frames_wf w -> tree w (root s) T -> current <> root s ->
  (forall g, tables T g -> count g (owned s) = 0) -> (forall g, ~ tables T g -> count g (owned s) <= refs w g) ->
  exists w', drop_space current w s = Some w' /\ frames_wf w' /\ (forall g, tables T g -> refs w' g = 0) /\
    (forall g, ~ tables T g -> refs w' g = refs w g - count g (owned s)) /\
    forall g i, ~ tables T g -> live w' g -> memory w' g i = memory w g i.
Proof.
  intros Hw Ht Hcur Hct Hco. unfold drop_space. rewrite (proj2 (Z.eqb_neq _ _) Hcur).
  destruct (drop_tables w (root s) T Ht Hw) as (w1 & E1 & Hw1 & Hr1 & Hk1 & Hroot).
  change (fold_left _ lower_half (Some w)) with (run (root_body (root s)) lower_half w). rewrite E1.
  assert (Hrt : tables T (root s)) by (exists 3%nat, 0; apply (tr_root _ _ _ _ Ht)).
  destruct (free_frames_spec (owned s) w1 Hw1) as (w2 & -> & Hw2 & Hr2 & Hm2).
  { intros g. destruct (Z_lt_le_dec 0 (count g (owned s))) as [Hp|Hn].
    - assert (Hg : ~ tables T g) by (intros Hg; specialize (Hct g Hg); lia). rewrite (proj1 (Hk1 g Hg)). by apply Hco.
    - pose proof (refs_nonneg w1 g Hw1). lia. }
  destruct (free_frame_spec w2 (root s) Hw2) as (w3 & -> & Hw3 & Hr3 & Hm3); [rewrite Hr2, Hct by done; lia|].
  exists w3. split; [done|]. split; [done|]. split; [|split].
  - intros g Hg. rewrite Hr3. destruct (Z.eqb_spec g (root s)) as [->|Hne]; [rewrite Hr2, Hct by done; lia|].
    rewrite Hr2, Hct, Hr1 by done. lia.
  - intros g Hg. rewrite Hr3. destruct (Z.eqb_spec g (root s)) as [->|Hne]; [done|]. by rewrite Hr2, (proj1 (Hk1 g Hg)).
  - intros g i Hg Hl. assert (Hl2 : live w2 g).
    { destruct Hl as [Hl|Hl]; [left|by right]. rewrite Hr3 in Hl. destruct (Z.eqb_spec g (root s)) as [->|]; done. }
    assert (Hl1 : live w1 g).
    { destruct Hl2 as [Hl2|Hl2]; [left|by right]. pose proof (count_nonneg g (owned s)). pose proof (refs_nonneg w2 g Hw2). rewrite Hr2 in *. lia. }
    assert (Hl0 : live w g) by (destruct Hl1 as [Hl1|Hl1]; [left; by rewrite <- (proj1 (Hk1 g Hg))|by right]).
    rewrite Hm3, Hm2 by done. by apply Hk1.
Qed.
End Drop.
End PagingDrop.
