(* ===== verification/PagingSpaces.v ===== *)
(** * PagingSpaces: many address spaces over one memory

    The invariant of all user address spaces together: each root is a tree of
    its own, every page of a space is on its list of owned or device pages, the
    reference counts are the number of owners, and a frame some space may
    write has no second owner. Lemmas lift a change to one space to all. *)

From stdpp Require Import base numbers sets list.
From S2P Require Import Prelude Paging PagingTree PagingOps.
Local Open Scope Z_scope.

Module PagingSpaces.
Import Paging PagingTree PagingOps PagingDrop.

Section Spaces.
Context {W : Type} {HF : Frames W} {HL : FramesLaws W} (kernel_pml4 : Z -> Z).
Implicit Types (w : W) (T : nat -> Z -> option Z).
Abbreviation tree := (tree kernel_pml4).

(** ** One space *)

(** The flags of a page: present, never writable and executable, and marked
    for copying only while it is read-only data. *)
Record leaf_flags (fl : Z) : Prop := mk_leaf_flags {
  lf_mask : Z.land fl ADDRESS_MASK = 0;
  lf_present : has fl PRESENT = true;
  lf_wx : has fl WRITABLE = true -> has fl NO_EXECUTE = true;
  lf_cow : has fl COPY_ON_WRITE = true -> has fl WRITABLE = false /\ has fl NO_EXECUTE = true
}.

(** A mapping of the space's lists is what the tables say. *)
Definition mapping_ok (v : Z -> Z) (m : OwnedMapping) : Prop :=
  user_page (om_address m) /\ is_frame (om_frame m) /\ exists fl, v (page_of (om_address m)) = Z.lor (om_frame m) fl /\ leaf_flags fl.

Record space_ok (s : AddressSpace) (v : Z -> Z) : Prop := mk_space_ok {
  so_nodup : NoDup (map om_address (owned s ++ devices s));
  so_mapped : forall m, m ∈ owned s ++ devices s -> mapping_ok v m;
  so_devices : forall m, m ∈ devices s -> ~ managed (om_frame m) /\ has (v (page_of (om_address m))) COPY_ON_WRITE = false;
  so_all : forall pg, has (v pg) PRESENT = true -> exists m, m ∈ owned s ++ devices s /\ page_of (om_address m) = pg
}.

(** A writable owned page has its frame for itself. *)
Definition private w (s : AddressSpace) (v : Z -> Z) : Prop :=
  forall m, m ∈ owned s -> has (v (page_of (om_address m))) WRITABLE = true -> refs w (om_frame m) = 1.

(** ** All spaces *)

Abbreviation Spaces := (list (Z * AddressSpace)).
Definition all_owned (l : Spaces) : list OwnedMapping := flat_map (fun x => owned (snd x)) l.

(** [TT] are the trees; [others] counts the references held elsewhere. *)
Record sys_ok w (l : Spaces) (TT : Z -> nat -> Z -> option Z) (others : Z -> Z) : Prop := mk_sys_ok {
  sy_wf : frames_wf w;
  sy_ids : NoDup (map fst l);
  sy_tree : forall id s, (id, s) ∈ l -> tree w (root s) (TT id);
  sy_populated : forall id s, (id, s) ∈ l -> populated (TT id) (view w (TT id));
  sy_space : forall id s, (id, s) ∈ l -> space_ok s (view w (TT id));
  sy_private : forall id s, (id, s) ∈ l -> private w s (view w (TT id));
  sy_apart : forall id s id' s' g, (id, s) ∈ l -> (id', s') ∈ l -> tables (TT id) g -> tables (TT id') g -> id = id';
  sy_tables : forall id s g, (id, s) ∈ l -> tables (TT id) g -> count g (all_owned l) = 0 /\ others g = 0;
  sy_counts : forall g, (forall id s, (id, s) ∈ l -> ~ tables (TT id) g) -> refs w g = others g + count g (all_owned l);
  sy_others : forall g, 0 <= others g
}.

(** A change to one space: its tables and what it owns may change, and beyond
    that only the contents of a frame it has for itself. *)
Record local w (s : AddressSpace) T w' (s' : AddressSpace) T' : Prop := mk_local {
  lo_wf : frames_wf w';
  lo_root : root s' = root s;
  lo_tree : tree w' (root s') T';
  lo_populated : populated T' (view w' T');
  lo_space : space_ok s' (view w' T');
  lo_private : private w' s' (view w' T');
  lo_fresh : forall g, tables T' g -> tables T g \/ refs w g = 0;
  lo_freed : forall g, tables T g -> ~ tables T' g -> refs w' g = 0;
  lo_refs : forall g, ~ tables T g -> ~ tables T' g -> refs w' g = refs w g + count g (owned s') - count g (owned s);
  lo_tables : forall g, tables T g \/ tables T' g -> count g (owned s') = 0;
  lo_memory : forall g, ~ tables T g -> live w g -> live w' g ->
    (forall i, memory w' g i = memory w g i) \/ (1 <= count g (owned s) /\ refs w g = 1) \/ ~ managed g
}.

Lemma count_all g (l1 l2 : Spaces) id s :
  count g (all_owned (l1 ++ (id, s) :: l2)) = count g (owned s) + count g (all_owned (l1 ++ l2)).
Proof. unfold all_owned. rewrite !flat_map_app. cbn [flat_map snd]. rewrite !count_app. lia. Qed.

Lemma count_member g l id s : (id, s) ∈ l -> count g (owned s) <= count g (all_owned l).
Proof.
  intros Hin. apply list_elem_of_split in Hin as (l1 & l2 & ->). rewrite count_all. pose proof (count_nonneg g (all_owned (l1 ++ l2))). lia.
Qed.

Lemma elem_mid {A} (x y : A) l1 l2 : x ∈ l1 ++ y :: l2 <-> x = y \/ x ∈ l1 ++ l2.
Proof. rewrite !elem_of_app, elem_of_cons. tauto. Qed.

Definition set_tree (TT : Z -> nat -> Z -> option Z) (id : Z) T : Z -> nat -> Z -> option Z := fun i => if i =? id then T else TT i.
Lemma set_tree_eq TT id T : set_tree TT id T id = T.
Proof. unfold set_tree. by rewrite Z.eqb_refl. Qed.
Lemma set_tree_ne TT id T i : i <> id -> set_tree TT id T i = TT i.
Proof. intros H. unfold set_tree. by rewrite (proj2 (Z.eqb_neq _ _) H). Qed.

(** An owned frame is no table, so its count is that of its owners. *)
Lemma owned_no_table w l TT others g : sys_ok w l TT others -> 1 <= count g (all_owned l) -> forall id s, (id, s) ∈ l -> ~ tables (TT id) g.
Proof. intros Hok Hc id s Hin Ht. destruct (sy_tables _ _ _ _ Hok _ _ _ Hin Ht). lia. Qed.

Lemma owned_refs w l TT others g : sys_ok w l TT others -> 1 <= count g (all_owned l) -> refs w g = others g + count g (all_owned l) /\ managed g.
Proof.
  intros Hok Hc. pose proof (sy_counts _ _ _ _ Hok g (owned_no_table _ _ _ _ _ Hok Hc)) as E. split; [done|].
  apply (refs_managed w); [apply Hok|]. pose proof (sy_others _ _ _ _ Hok g). lia.
Qed.

(** Frames a space takes up were free, or have owners that only read them. *)
Definition quiet w (l : Spaces) (TT : Z -> nat -> Z -> option Z) (s s' : AddressSpace) : Prop :=
  forall g, count g (owned s) < count g (owned s') ->
    refs w g = 0 \/ 1 <= count g (all_owned l) /\
      forall id m s2, (id, s2) ∈ l -> m ∈ owned s2 -> om_frame m = g -> has (view w (TT id) (page_of (om_address m))) WRITABLE = false.

Section Lift.
Context (w w' : W) (l1 l2 : Spaces) (id : Z) (s s' : AddressSpace) (TT : Z -> nat -> Z -> option Z) (T' : nat -> Z -> option Z) (others : Z -> Z).
Context (Hok : sys_ok w (l1 ++ (id, s) :: l2) TT others) (Hlo : local w s (TT id) w' s' T') (Hq : quiet w (l1 ++ (id, s) :: l2) TT s s').

Lemma self_in : (id, s) ∈ l1 ++ (id, s) :: l2.
Proof. apply elem_mid. by left. Qed.
Lemma other_in x : x ∈ l1 ++ l2 -> x ∈ l1 ++ (id, s) :: l2.
Proof. intros Hx. apply elem_mid. by right. Qed.
Lemma other_ne i s2 : (i, s2) ∈ l1 ++ l2 -> i <> id.
Proof.
  intros Hin ->. pose proof (sy_ids _ _ _ _ Hok) as Hnd. rewrite map_app in Hnd. cbn [map fst] in Hnd.
  rewrite <- Permutation_middle in Hnd. apply NoDup_cons in Hnd as [Hno _]. apply Hno. rewrite <- map_app.
  apply (list_elem_of_fmap_2 fst) in Hin. done.
Qed.

(** The tables of the others are not this space's. *)
Lemma other_table i s2 g : (i, s2) ∈ l1 ++ l2 -> tables (TT i) g -> ~ tables (TT id) g /\ ~ tables T' g /\ refs w g = 1.
Proof.
  intros Hin Hg. assert (Hr : refs w g = 1).
  { destruct Hg as (k & p & Hg). by apply (tr_frame _ _ _ _ (sy_tree _ _ _ _ Hok _ _ (other_in _ Hin)) _ _ _ Hg). }
  assert (Hno : ~ tables (TT id) g).
  { intros Hg'. apply (other_ne _ _ Hin). by apply (sy_apart _ _ _ _ Hok _ _ _ _ g (other_in _ Hin) self_in). }
  split; [done|]. split; [|done]. intros Hg'. destruct (lo_fresh _ _ _ _ _ _ Hlo g Hg'); [done|lia].
Qed.

Lemma other_owned g i s2 m : (i, s2) ∈ l1 ++ l2 -> m ∈ owned s2 -> om_frame m = g ->
  1 <= count g (all_owned (l1 ++ l2)) /\ refs w g = others g + count g (owned s) + count g (all_owned (l1 ++ l2)) /\
  managed g /\ ~ tables (TT id) g /\ ~ tables T' g.
Proof.
  intros Hin Hm Hg. assert (Hc : 1 <= count g (all_owned (l1 ++ l2))).
  { pose proof (count_elem g (owned s2) m Hm Hg). pose proof (count_member g _ _ _ Hin). lia. }
  pose proof (count_nonneg g (owned s)). pose proof (sy_others _ _ _ _ Hok g).
  assert (Hc' : 1 <= count g (all_owned (l1 ++ (id, s) :: l2))) by (rewrite count_all; lia).
  destruct (owned_refs _ _ _ _ _ Hok Hc') as [Hr Hma]. rewrite count_all in Hr.
  pose proof (owned_no_table _ _ _ _ _ Hok Hc' id s self_in) as Hn. split; [done|]. split; [lia|]. split; [done|]. split; [done|].
  intros Ht. destruct (lo_fresh _ _ _ _ _ _ Hlo g Ht) as [?|?]; [done|lia].
Qed.

Lemma lift_agree i s2 : (i, s2) ∈ l1 ++ l2 -> agree w w' (tables (TT i)).
Proof.
  intros Hin g Hg. destruct (other_table _ _ _ Hin Hg) as (Hn & Hn' & Hr).
  destruct (sy_tables _ _ _ _ Hok _ _ _ (other_in _ Hin) Hg) as [Hc0 _]. rewrite count_all in Hc0.
  pose proof (count_nonneg g (owned s)). pose proof (count_nonneg g (all_owned (l1 ++ l2))). pose proof (count_nonneg g (owned s')).
  assert (Hs' : count g (owned s') = 0).
  { destruct (Z_lt_le_dec (count g (owned s)) (count g (owned s'))) as [Hlt|]; [|lia].
    destruct (Hq g Hlt) as [?|[Hc _]]; [lia|]. rewrite count_all in Hc. lia. }
  assert (Hr' : refs w' g = refs w g) by (rewrite (lo_refs _ _ _ _ _ _ Hlo g Hn Hn'); lia).
  split; [done|]. assert (Hm : managed g) by (apply (refs_managed w); [apply Hok|lia]).
  destruct (lo_memory _ _ _ _ _ _ Hlo g Hn) as [?|[[? _]|?]]; [left; lia|left; lia|done|lia|done].
Qed.

(** What the other spaces see is what they saw. *)
Lemma lift_view i s2 pg : (i, s2) ∈ l1 ++ l2 -> view w' (TT i) pg = view w (TT i) pg.
Proof. intros Hin. apply view_agree. by eapply lift_agree. Qed.

Lemma lift_contents i s2 m j : (i, s2) ∈ l1 ++ l2 -> m ∈ owned s2 -> memory w' (om_frame m) j = memory w (om_frame m) j.
Proof.
  intros Hin Hm. destruct (other_owned (om_frame m) _ _ _ Hin Hm eq_refl) as (Hc & Hr & Hma & Hn & Hn').
  pose proof (sy_others _ _ _ _ Hok (om_frame m)). pose proof (count_nonneg (om_frame m) (owned s)). pose proof (count_nonneg (om_frame m) (owned s')).
  assert (Hr' : 1 <= refs w' (om_frame m)) by (rewrite (lo_refs _ _ _ _ _ _ Hlo _ Hn Hn'); lia).
  destruct (lo_memory _ _ _ _ _ _ Hlo (om_frame m) Hn) as [E|[[Hx Hy]|?]]; [left; lia|left; lia|done|lia|done].
Qed.

Lemma lift_private i s2 : (i, s2) ∈ l1 ++ l2 -> private w' s2 (view w' (TT i)).
Proof.
  intros Hin m Hm Hwr. rewrite (lift_view _ _ _ Hin) in Hwr. pose proof (sy_private _ _ _ _ Hok _ _ (other_in _ Hin) m Hm Hwr) as Hr1.
  destruct (other_owned (om_frame m) _ _ _ Hin Hm eq_refl) as (Hc & Hr & _ & Hn & Hn'). pose proof (sy_others _ _ _ _ Hok (om_frame m)).
  pose proof (count_nonneg (om_frame m) (owned s)). pose proof (count_nonneg (om_frame m) (owned s')).
  rewrite (lo_refs _ _ _ _ _ _ Hlo _ Hn Hn').
  destruct (Z_lt_le_dec (count (om_frame m) (owned s)) (count (om_frame m) (owned s'))) as [Hlt|]; [|lia].
  destruct (Hq _ Hlt) as [?|[_ Hx]]; [lia|]. by rewrite (Hx i m s2 (other_in _ Hin) Hm eq_refl) in Hwr.
Qed.

Lemma sys_lift : sys_ok w' (l1 ++ (id, s') :: l2) (set_tree TT id T') others.
Proof.
  assert (Hcase : forall i s2, (i, s2) ∈ l1 ++ (id, s') :: l2 ->
    i = id /\ s2 = s' /\ set_tree TT id T' i = T' \/ (i, s2) ∈ l1 ++ l2 /\ i <> id /\ set_tree TT id T' i = TT i).
  { intros i s2 [[= -> ->]|Hin]%elem_mid; [left; by rewrite set_tree_eq|right]. pose proof (other_ne _ _ Hin). by rewrite set_tree_ne. }
  assert (Hcnt : forall g, tables (TT id) g \/ tables T' g -> count g (all_owned (l1 ++ (id, s') :: l2)) = 0 /\ others g = 0).
  { intros g Hg. rewrite count_all, (lo_tables _ _ _ _ _ _ Hlo g Hg).
    pose proof (count_nonneg g (owned s)) as Hn1. pose proof (count_nonneg g (all_owned (l1 ++ l2))) as Hn2.
    assert (Hold : tables (TT id) g -> 0 + count g (all_owned (l1 ++ l2)) = 0 /\ others g = 0).
    { intros Ht. destruct (sy_tables _ _ _ _ Hok _ _ _ self_in Ht) as [H0 H1]. rewrite count_all in H0. lia. }
    destruct Hg as [Hg|Hg]; [auto|]. destruct (lo_fresh _ _ _ _ _ _ Hlo g Hg) as [?|Hz]; [auto|].
    assert (Hno : forall k sk, (k, sk) ∈ l1 ++ (id, s) :: l2 -> ~ tables (TT k) g).
    { intros k sk Hk (j & p & Ht). pose proof (proj2 (tr_frame _ _ _ _ (sy_tree _ _ _ _ Hok _ _ Hk) _ _ _ Ht)). lia. }
    pose proof (sy_counts _ _ _ _ Hok g Hno) as Hc. rewrite count_all in Hc. pose proof (sy_others _ _ _ _ Hok g). lia. }
  split.
  - apply Hlo.
  - pose proof (sy_ids _ _ _ _ Hok) as Hnd. rewrite map_app in *. done.
  - intros i s2 Hin. destruct (Hcase _ _ Hin) as [(-> & -> & ->)|(Ho & _ & ->)]; [apply Hlo|].
    eapply tree_agree; [by eapply lift_agree|]. by apply (sy_tree _ _ _ _ Hok), other_in.
  - intros i s2 Hin. destruct (Hcase _ _ Hin) as [(-> & -> & ->)|(Ho & _ & ->)]; [apply Hlo|].
    destruct (sy_populated _ _ _ _ Hok _ _ (other_in _ Ho)) as [P0 P1]. split; [|done]. intros p f Hf. destruct (P0 p f Hf) as (pg & ? & ?).
    exists pg. by rewrite (lift_view _ _ _ Ho).
  - intros i s2 Hin. destruct (Hcase _ _ Hin) as [(-> & -> & ->)|(Ho & _ & ->)]; [apply Hlo|].
    destruct (sy_space _ _ _ _ Hok _ _ (other_in _ Ho)) as [Q1 Q2 Q3 Q4]. split; try done.
    + intros m Hm. destruct (Q2 m Hm) as (? & ? & fl & ? & ?). split; [done|]. split; [done|]. exists fl. by rewrite (lift_view _ _ _ Ho).
    + intros m. rewrite (lift_view _ _ _ Ho). apply Q3.
    + intros pg. rewrite (lift_view _ _ _ Ho). apply Q4.
  - intros i s2 Hin. destruct (Hcase _ _ Hin) as [(-> & -> & ->)|(Ho & _ & ->)]; [apply Hlo|by apply lift_private].
  - intros i s2 j s3 g Hi Hj Hgi Hgj.
    destruct (Hcase _ _ Hi) as [(-> & -> & Ei)|(Hoi & Hi' & Ei)], (Hcase _ _ Hj) as [(-> & -> & Ej)|(Hoj & Hj' & Ej)];
      rewrite ?Ei, ?Ej in *; [done| | |].
    + by destruct (other_table _ _ _ Hoj Hgj) as (_ & ? & _).
    + by destruct (other_table _ _ _ Hoi Hgi) as (_ & ? & _).
    + by apply (sy_apart _ _ _ _ Hok _ _ _ _ g (other_in _ Hoi) (other_in _ Hoj)).
  - intros i s2 g Hin Hg. destruct (Hcase _ _ Hin) as [(-> & -> & E)|(Ho & _ & E)]; rewrite E in Hg; [apply Hcnt; by right|].
    destruct (sy_tables _ _ _ _ Hok _ _ _ (other_in _ Ho) Hg) as [H0 H1]. rewrite count_all in H0 |- *. split; [|done].
    pose proof (count_nonneg g (owned s)). pose proof (count_nonneg g (owned s')). pose proof (count_nonneg g (all_owned (l1 ++ l2))).
    destruct (Z_lt_le_dec (count g (owned s)) (count g (owned s'))) as [Hlt|]; [|lia].
    destruct (other_table _ _ _ Ho Hg) as (_ & _ & Hr). destruct (Hq g Hlt) as [?|[Hc _]]; [lia|]. rewrite count_all in Hc. lia.
  - intros g Hno. assert (HnT' : ~ tables T' g).
    { specialize (Hno id s'). rewrite set_tree_eq in Hno. apply Hno, elem_mid. by left. }
    assert (Hno' : forall i s2, (i, s2) ∈ l1 ++ l2 -> ~ tables (TT i) g).
    { intros i s2 Hin. rewrite <- (set_tree_ne TT id T' i) by (by eapply other_ne). apply (Hno i s2), elem_mid. by right. }
    destruct (Z.eq_dec (refs w' g) (others g + count g (all_owned (l1 ++ (id, s') :: l2)))) as [|Hbad]; [done|]. exfalso.
    assert (Hn : ~ tables (TT id) g).
    { intros Hg. apply Hbad. rewrite (lo_freed _ _ _ _ _ _ Hlo g Hg HnT'). destruct (Hcnt g (or_introl Hg)). lia. }
    apply Hbad. rewrite (lo_refs _ _ _ _ _ _ Hlo g Hn HnT'), (sy_counts _ _ _ _ Hok g), !count_all; [lia|].
    intros i s2 [[= -> ->]|Hin]%elem_mid; [done|by eapply Hno'].
  - apply Hok.
Qed.
End Lift.

(** ** Spaces come and go *)

Definition root_only (root : Z) : nat -> Z -> option Z := fun k p => if decide (k = 3%nat /\ p = 0) then Some root else None.

Lemma new_space_spec w r w' :
  frames_wf w -> new_space kernel_pml4 w = (r, w') ->
  match r with
  | Err e => e = OutOfFrames /\ frames_wf w' /\ keeps (fun _ => False) w w'
  | Ok s => frames_wf w' /\ tree w' (root s) (root_only (root s)) /\ owned s = [] /\ devices s = [] /\ refs w (root s) = 0 /\ managed (root s) /\
      keeps (eq (root s)) w w'
  end.
Proof.
  intros Hw E. unfold new_space in E. destruct (alloc_table w) as [[f|] w1] eqn:Ea; injection E as <- <-;
    destruct (alloc_table_spec _ _ _ Hw Ea) as (Hw1 & Hr1 & Hk1 & Hf).
  2: { split; [done|]. split; [done|]. eapply keeps_weaken; [exact Hk1|done]. }
  destruct (Hf f eq_refl) as (Hma & Hz & Hm0). cbn [root owned devices].
  assert (Hrf : refs w1 f = 1) by (rewrite Hr1, bool_decide_true; done).
  destruct (fill_correct w1 f (fun i => if 256 <=? i then kernel_pml4 i else memory w1 f i) Hw1 ltac:(left; lia)) as (Hw2 & Hr2 & Hm2).
  set (w2 := fill _ _ _) in *. split; [done|]. split; [|split; [done|split; [done|split; [done|split; [done|]]]]].
  - assert (Hro : forall k p g, root_only f k p = Some g -> k = 3%nat /\ p = 0 /\ g = f).
    { intros k p g Hg. unfold root_only in Hg. destruct (decide _) as [[-> ->]|]; [|done]. by injection Hg as <-. }
    split.
    + done.
    + intros k p g (-> & -> & ->)%Hro. cbn [bound]. lia.
    + intros k p g (-> & -> & ->)%Hro. split; [done|]. by rewrite Hr2.
    + intros k p k' p' g (-> & -> & ->)%Hro (-> & -> & _)%Hro. done.
    + intros k p g (-> & _)%Hro. lia.
    + intros k p g i (Hk & -> & ->)%Hro Hi Hb. injection Hk as ->. cbn [bound] in Hb. rewrite Hm2, Z.eqb_refl.
      destruct (Z.leb_spec 256 i); [lia|]. by rewrite Hm0.
    + intros i Hi. rewrite Hm2, Z.eqb_refl. destruct (Z.leb_spec 256 i); [done|lia].
    + intros p g i (? & _)%Hro. done.
  - apply (keeps_trans _ _ w1); [eapply keeps_weaken; [exact Hk1|]; by intros g [= ->]|].
    intros g Hg. rewrite Hr2. split; [done|]. intros _ i. rewrite Hm2. by rewrite (proj2 (Z.eqb_neq g f)) by congruence.
Qed.

Lemma view_root_only w root pg : view w (root_only root) pg = 0.
Proof. done. Qed.

(** A change that only touches a frame nobody has. *)
Lemma sys_agree w w' l TT others (D : Z -> Prop) :
  sys_ok w l TT others -> frames_wf w' -> keeps D w w' -> (forall g, D g -> refs w g = 0 /\ managed g) ->
  (forall id s, (id, s) ∈ l -> agree w w' (tables (TT id))) /\
  (forall id s m, (id, s) ∈ l -> m ∈ owned s -> refs w' (om_frame m) = refs w (om_frame m) /\ forall i, memory w' (om_frame m) i = memory w (om_frame m) i).
Proof.
  intros Hok Hw' Hk HD. split.
  - intros id s Hin. eapply keeps_agree; [exact Hk| |by apply (sy_tree _ _ _ _ Hok)]. intros g (k & p & Hg) HDg.
    pose proof (proj2 (tr_frame _ _ _ _ (sy_tree _ _ _ _ Hok _ _ Hin) _ _ _ Hg)). destruct (HD g HDg). lia.
  - intros id s m Hin Hm. pose proof (count_elem (om_frame m) _ m Hm eq_refl). pose proof (count_member (om_frame m) _ _ _ Hin).
    destruct (owned_refs _ _ _ _ (om_frame m) Hok ltac:(lia)) as [Hr Hma]. pose proof (sy_others _ _ _ _ Hok (om_frame m)).
    destruct (Hk (om_frame m)) as [Hr' Hm']; [intros HDg; destruct (HD _ HDg); lia|]. split; [done|]. apply Hm'. left. lia.
Qed.

(** A space nobody touched. *)
Record space_inv w (s : AddressSpace) T : Prop := mk_space_inv {
  si_tree : tree w (root s) T;
  si_populated : populated T (view w T);
  si_space : space_ok s (view w T);
  si_private : private w s (view w T)
}.

Lemma sys_space w l TT others id s : sys_ok w l TT others -> (id, s) ∈ l -> space_inv w s (TT id).
Proof. intros Hok Hin. split; by eapply Hok. Qed.

Lemma space_kept w w' s T :
  space_inv w s T -> agree w w' (tables T) -> (forall m, m ∈ owned s -> refs w (om_frame m) = 1 -> refs w' (om_frame m) = 1) -> space_inv w' s T.
Proof.
  intros [H1 [P0 P1] [Q1 Q2 Q3 Q4] H4] Ha Hr. pose proof (fun pg => view_agree w w' T pg Ha) as Hv. split.
  - by eapply tree_agree.
  - split; [|done]. intros p f Hf. destruct (P0 p f Hf) as (pg & ? & ?). exists pg. by rewrite Hv.
  - split; try done.
    + intros m Hm. destruct (Q2 m Hm) as (? & ? & fl & ? & ?). split; [done|]. split; [done|]. exists fl. by rewrite Hv.
    + intros m. rewrite Hv. apply Q3.
    + intros pg. rewrite Hv. apply Q4.
  - intros m Hm. rewrite Hv. intros Hwr. by apply Hr, H4.
Qed.

Lemma sys_still w w' l TT others : sys_ok w l TT others -> frames_wf w' -> keeps (fun _ => False) w w' -> sys_ok w' l TT others.
Proof.
  intros Hok Hw' Hk. destruct (sys_agree _ _ _ _ _ _ Hok Hw' Hk ltac:(by intros g [])) as [Ha Hown].
  assert (Hs : forall id s, (id, s) ∈ l -> space_inv w' s (TT id)).
  { intros id s Hin. eapply space_kept; [by eapply sys_space|by eapply Ha|]. intros m Hm Hr1. by rewrite (proj1 (Hown _ _ _ Hin Hm)). }
  split; try (intros id s Hin; apply (Hs id s Hin)); try apply Hok; [done|].
  intros g Hno. rewrite (proj1 (Hk g ltac:(tauto))). by apply (sy_counts _ _ _ _ Hok).
Qed.

(** What a space sees is as it was. *)
Definition untouched w w' (s : AddressSpace) T : Prop :=
  agree w w' (tables T) /\ forall m i, m ∈ owned s -> memory w' (om_frame m) i = memory w (om_frame m) i.

Lemma empty_space w s : tree w (root s) (root_only (root s)) -> owned s = [] -> devices s = [] -> space_inv w s (root_only (root s)).
Proof.
  intros Ht Eo Ed. split; [exact Ht| | |].
  - split; [intros p f Hf; discriminate Hf|]. intros k p f Hf Hk. unfold root_only in Hf. destruct (decide _) as [[? _]|]; [lia|discriminate Hf].
  - assert (En : owned s ++ devices s = []) by (by rewrite Eo, Ed). split; rewrite ?En, ?Ed.
    + apply NoDup_nil_2.
    + intros m Hm. by apply elem_of_nil in Hm.
    + intros m Hm. by apply elem_of_nil in Hm.
    + intros pg Hpg. by rewrite view_root_only, has_0 in Hpg.
  - intros m Hm. rewrite Eo in Hm. by apply elem_of_nil in Hm.
Qed.

(** A new, empty space. *)
Lemma sys_add w w' l TT others id s :
  sys_ok w l TT others -> id ∉ map fst l -> new_space kernel_pml4 w = (Ok s, w') ->
  sys_ok w' (l ++ [(id, s)]) (set_tree TT id (root_only (root s))) others /\
  forall i s2, (i, s2) ∈ l -> untouched w w' s2 (TT i).
Proof.
  intros Hok Hid E. destruct (new_space_spec _ _ _ (sy_wf _ _ _ _ Hok) E) as (Hw' & Ht & Eo & Ed & Hz & Hma & Hk).
  assert (HD : forall g, root s = g -> refs w g = 0 /\ managed g) by (by intros g <-).
  destruct (sys_agree _ _ _ _ _ _ Hok Hw' Hk HD) as [Ha Hown].
  assert (Hall : forall g, count g (all_owned (l ++ [(id, s)])) = count g (all_owned l)).
  { intros g. rewrite count_all, Eo, app_nil_r. cbn. lia. }
  assert (Hro : forall g, tables (root_only (root s)) g -> g = root s).
  { intros g (k & p & Hg). unfold root_only in Hg. destruct (decide _); [congruence|done]. }
  assert (Hnot : forall i s2, (i, s2) ∈ l -> ~ tables (TT i) (root s)).
  { intros i s2 Hin (k & p & Hg). pose proof (proj2 (tr_frame _ _ _ _ (sy_tree _ _ _ _ Hok _ _ Hin) _ _ _ Hg)). lia. }
  assert (Hcase : forall i s2, (i, s2) ∈ l ++ [(id, s)] ->
    i = id /\ s2 = s /\ set_tree TT id (root_only (root s)) i = root_only (root s) \/ (i, s2) ∈ l /\ set_tree TT id (root_only (root s)) i = TT i).
  { intros i s2 [Hin|Hin]%elem_of_app; [right|left].
    - rewrite set_tree_ne; [done|]. intros ->. apply Hid. by apply (list_elem_of_fmap_2 fst) in Hin.
    - apply list_elem_of_singleton in Hin as [= -> ->]. by rewrite set_tree_eq. }
  assert (Hs : forall i s2, (i, s2) ∈ l ++ [(id, s)] -> space_inv w' s2 (set_tree TT id (root_only (root s)) i)).
  { intros i s2 Hin. destruct (Hcase _ _ Hin) as [(-> & -> & ->)|[Hl ->]].
    - apply empty_space; assumption.
    - eapply space_kept; [by eapply sys_space|by eapply Ha|]. intros m Hm Hr1. by rewrite (proj1 (Hown _ _ _ Hl Hm)). }
  split; [|intros i s2 Hin; split; [by eapply Ha|intros m j Hm; by eapply Hown]].
  split; try (intros i s2 Hin; apply (Hs i s2 Hin)); try apply Hok; try done.
  - rewrite map_app. apply NoDup_app. split; [apply Hok|]. split; [|apply NoDup_singleton].
    intros x Hx ->%list_elem_of_singleton. done.
  - intros i s2 j s3 g Hi Hj Hgi Hgj. destruct (Hcase _ _ Hi) as [(-> & -> & Ei)|[Hli Ei]], (Hcase _ _ Hj) as [(-> & -> & Ej)|[Hlj Ej]];
      rewrite ?Ei, ?Ej in *; [done| | |by eapply (sy_apart _ _ _ _ Hok)].
    + apply Hro in Hgi as ->. by apply (Hnot _ _ Hlj) in Hgj.
    + apply Hro in Hgj as ->. by apply (Hnot _ _ Hli) in Hgi.
  - intros i s2 g Hi Hg. rewrite Hall. destruct (Hcase _ _ Hi) as [(-> & -> & Ei)|[Hli Ei]]; rewrite Ei in Hg; [|by eapply (sy_tables _ _ _ _ Hok)].
    apply Hro in Hg as ->. pose proof (sy_counts _ _ _ _ Hok _ Hnot). pose proof (sy_others _ _ _ _ Hok (root s)).
    pose proof (count_nonneg (root s) (all_owned l)). lia.
  - intros g Hno. rewrite Hall. assert (Hg : root s <> g).
    { intros <-. apply (Hno id s); [apply elem_of_app; right; by apply list_elem_of_singleton|]. rewrite set_tree_eq. exists 3%nat, 0. done. }
    rewrite (proj1 (Hk g Hg)). apply (sy_counts _ _ _ _ Hok). intros i s2 Hin.
    rewrite <- (set_tree_ne TT id (root_only (root s)) i); [apply (Hno i s2), elem_of_app; by left|].
    intros ->. apply Hid. by apply (list_elem_of_fmap_2 fst) in Hin.
Qed.

(** A space is dropped, possibly without all it owns; what it leaves out stays
    counted for nobody. *)
Lemma sys_remove current w l1 l2 TT others id s s' :
  sys_ok w (l1 ++ (id, s) :: l2) TT others -> root s' = root s -> current <> root s ->
  (forall g, count g (owned s') <= count g (owned s)) ->
  exists w', drop_space current w s' = Some w' /\
    sys_ok w' (l1 ++ l2) TT (fun g => others g + count g (owned s) - count g (owned s')) /\
    forall i s2, (i, s2) ∈ l1 ++ l2 -> untouched w w' s2 (TT i).
Proof.
  intros Hok Er Hcur Hle. pose proof (self_in l1 l2 id s) as Hself.
  assert (Hnn : forall g, 0 <= count g (owned s') /\ 0 <= count g (all_owned (l1 ++ l2)) /\ 0 <= others g)
    by (intros g; split; [apply count_nonneg|split; [apply count_nonneg|apply Hok]]).
  assert (Htc : forall i s2 g, (i, s2) ∈ l1 ++ (id, s) :: l2 -> tables (TT i) g -> count g (owned s) = 0 /\ count g (owned s') = 0 /\ count g (all_owned (l1 ++ l2)) = 0).
  { intros i s2 g Hin Hg. destruct (sy_tables _ _ _ _ Hok _ _ _ Hin Hg) as [H0 _]. rewrite count_all in H0. specialize (Hle g).
    specialize (Hnn g). pose proof (count_nonneg g (owned s)). lia. }
  assert (Hother : forall i s2 g, (i, s2) ∈ l1 ++ l2 -> tables (TT i) g -> ~ tables (TT id) g /\ refs w g = 1).
  { intros i s2 g Hin Hg. split.
    - intros Hg'. eapply (other_ne w l1 l2 id s TT others Hok); [exact Hin|].
      by apply (sy_apart _ _ _ _ Hok _ _ _ _ g (other_in l1 l2 id s _ Hin) Hself).
    - destruct Hg as (k & p & Hg). by apply (tr_frame _ _ _ _ (sy_tree _ _ _ _ Hok _ _ (other_in l1 l2 id s _ Hin)) _ _ _ Hg). }
  destruct (drop_space_spec kernel_pml4 current w s' (TT id)) as (w' & E & Hw' & Hfree & Hr & Hm); rewrite ?Er; try done; try apply Hok.
  { exact Hself. }
  { intros g Hg. by apply (Htc id s g Hself). }
  { intros g Hg. destruct (Z_lt_le_dec 0 (count g (owned s'))) as [Hp|Hp]; [|pose proof (refs_nonneg w g (sy_wf _ _ _ _ Hok)); lia].
    specialize (Hle g). specialize (Hnn g). destruct (owned_refs _ _ _ _ g Hok) as [-> _]; rewrite count_all; lia. }
  exists w'. split; [done|].
  assert (Hag : forall i s2, (i, s2) ∈ l1 ++ l2 -> agree w w' (tables (TT i))).
  { intros i s2 Hin g Hg. destruct (Hother _ _ _ Hin Hg) as [Hno H1], (Htc _ _ _ (other_in l1 l2 id s _ Hin) Hg) as (_ & H2 & _).
    assert (Hr' : refs w' g = refs w g) by (rewrite Hr, H2 by done; lia). split; [done|]. intros j. apply Hm; [done|]. left. lia. }
  assert (Hownd : forall i s2 m, (i, s2) ∈ l1 ++ l2 -> m ∈ owned s2 -> ~ tables (TT id) (om_frame m) /\
    refs w (om_frame m) = others (om_frame m) + count (om_frame m) (owned s) + count (om_frame m) (all_owned (l1 ++ l2)) /\ 1 <= count (om_frame m) (all_owned (l1 ++ l2))).
  { intros i s2 m Hin Hmm. pose proof (count_elem (om_frame m) _ m Hmm eq_refl). pose proof (count_member (om_frame m) _ _ _ Hin).
    pose proof (count_nonneg (om_frame m) (owned s)).
    assert (Hc : 1 <= count (om_frame m) (all_owned (l1 ++ (id, s) :: l2))) by (rewrite count_all; lia).
    split; [by eapply (owned_no_table _ _ _ _ _ Hok Hc)|]. destruct (owned_refs _ _ _ _ _ Hok Hc) as [-> _]. rewrite count_all. lia. }
  split; [|intros i s2 Hin; split; [by eapply Hag|]; intros m j Hmm; destruct (Hownd _ _ _ Hin Hmm) as (Hno & H1 & H2);
    apply Hm; [done|left; rewrite Hr by done; specialize (Hle (om_frame m)); specialize (Hnn (om_frame m)); lia]].
  assert (Hs : forall i s2, (i, s2) ∈ l1 ++ l2 -> space_inv w' s2 (TT i)).
  { intros i s2 Hin. eapply space_kept; [eapply sys_space; [exact Hok|by apply other_in]|by eapply Hag|]. intros m Hmm Hr1.
    destruct (Hownd _ _ _ Hin Hmm) as (Hno & H1 & H2). rewrite Hr by done. specialize (Hle (om_frame m)). specialize (Hnn (om_frame m)).
    pose proof (count_nonneg (om_frame m) (owned s)). lia. }
  split; try (intros i s2 Hin; apply (Hs i s2 Hin)); try done.
  - pose proof (sy_ids _ _ _ _ Hok) as Hnd. rewrite map_app in *. cbn [map] in Hnd. rewrite <- Permutation_middle in Hnd. by apply NoDup_cons in Hnd as [_ ?].
  - intros i s2 j s3 g Hi Hj. by apply (sy_apart _ _ _ _ Hok i s2 j s3 g (other_in l1 l2 id s _ Hi) (other_in l1 l2 id s _ Hj)).
  - intros i s2 g Hin Hg. destruct (Htc _ _ _ (other_in l1 l2 id s _ Hin) Hg) as (H1 & H2 & H3).
    destruct (sy_tables _ _ _ _ Hok _ _ _ (other_in l1 l2 id s _ Hin) Hg) as [_ H4]. lia.
  - intros g Hno. destruct (Z.eq_dec (refs w' g) (others g + count g (owned s) - count g (owned s') + count g (all_owned (l1 ++ l2)))) as [|Hbad]; [done|].
    exfalso. assert (Hn : ~ tables (TT id) g).
    { intros Hg. apply Hbad. rewrite Hfree by done. destruct (Htc _ _ _ Hself Hg) as (H1 & H2 & H3).
      destruct (sy_tables _ _ _ _ Hok _ _ _ Hself Hg) as [_ H4]. lia. }
    apply Hbad. rewrite Hr, (sy_counts _ _ _ _ Hok g), count_all by (done || (intros i s2 [[= -> ->]|Hin]%elem_mid; [done|by eapply Hno])). lia.
  - intros g. specialize (Hle g). specialize (Hnn g). lia.
Qed.
End Spaces.
End PagingSpaces.
