(* ===== verification/PagingCow.v ===== *)
(** * PagingCow: what a process sees of its memory

    Every page a process has is either memory of its own, whatever frames it
    shares underneath, or device memory. The operations of an address space
    are described by what they do to that view, and each is a local change. *)

From stdpp Require Import base numbers sets list.
From S2P Require Import Prelude Paging PagingTree PagingOps PagingSpaces.
Local Open Scope Z_scope.

Module PagingCow.
Import Paging PagingTree PagingOps PagingDrop PagingSpaces.

(** ** Rights *)

(** A page to be copied on write is writable for its process. *)
Definition rights (fl : Z) : Z :=
  if has fl COPY_ON_WRITE then Z.lor (Z.land fl (Z.lnot COPY_ON_WRITE)) WRITABLE else fl.
Definition flags_of (e : Z) : Z := Z.land e (Z.lnot ADDRESS_MASK).
(** What [fork_cow] makes of the flags of a writable page. *)
Definition share (fl : Z) : Z := if has fl WRITABLE then Z.lor (Z.land fl (Z.lnot WRITABLE)) COPY_ON_WRITE else fl.
(** What the write fault makes of them. *)
Definition unshare (fl : Z) : Z := Z.lor (Z.land fl (Z.lnot COPY_ON_WRITE)) WRITABLE.
Definition CACHE : Z := Z.lor (Z.lor PWT PCD) PAT_4K.

Lemma bit_spec k n : 0 <= k -> Z.testbit (2 ^ k) n = (n =? k).
Proof. intros Hk. rewrite Z.pow2_bits_eqb, Z.eqb_sym by done. done. Qed.

(** Simplify the tests of a known bit. *)
Ltac bits := cbn [Z.eqb Pos.eqb negb]; rewrite ?andb_false_r, ?andb_true_r, ?orb_true_r, ?orb_false_r.

Lemma has_W x : has x WRITABLE = Z.testbit x 1.
Proof. by apply has_bit. Qed.
Lemma has_C x : has x COPY_ON_WRITE = Z.testbit x 9.
Proof. by apply has_bit. Qed.
Lemma has_P x : has x PRESENT = Z.testbit x 0.
Proof. by apply (has_bit x 0). Qed.
Lemma has_N x : has x NO_EXECUTE = Z.testbit x 63.
Proof. by apply has_bit. Qed.
Lemma bits_W n : 0 <= n -> Z.testbit WRITABLE n = (n =? 1).
Proof. intros _. by apply bit_spec. Qed.
Lemma bits_C n : 0 <= n -> Z.testbit COPY_ON_WRITE n = (n =? 9).
Proof. intros _. by apply bit_spec. Qed.

(** The bits of flags after a change. *)
Lemma bits_share n fl : 0 <= n -> Z.testbit (Z.lor (Z.land fl (Z.lnot WRITABLE)) COPY_ON_WRITE) n = Z.testbit fl n && negb (n =? 1) || (n =? 9).
Proof. intros Hn. by rewrite Z.lor_spec, Z.land_spec, Z.lnot_spec, bits_W, bits_C by done. Qed.
Lemma bits_unshare n fl : 0 <= n -> Z.testbit (unshare fl) n = Z.testbit fl n && negb (n =? 9) || (n =? 1).
Proof. intros Hn. unfold unshare. by rewrite Z.lor_spec, Z.land_spec, Z.lnot_spec, bits_W, bits_C by done. Qed.

Lemma rights_share fl : leaf_flags fl -> rights (share fl) = rights fl.
Proof.
  intros [_ _ _ Hc]. unfold share. destruct (has fl WRITABLE) eqn:Hw; [|done].
  assert (Hnc : has fl COPY_ON_WRITE = false) by (apply not_true_is_false; intros E; destruct (Hc E); done).
  unfold rights. rewrite Hnc, has_C, bits_share by done. bits. apply Z.bits_inj'. intros n Hn.
  change (Z.lor (Z.land ?x (Z.lnot COPY_ON_WRITE)) WRITABLE) with (unshare x).
  rewrite bits_unshare, bits_share by done. rewrite has_W in Hw. rewrite has_C in Hnc.
  destruct (Z.eqb_spec n 1) as [E1|E1]; [subst n; rewrite Hw; by bits|].
  destruct (Z.eqb_spec n 9) as [E9|E9]; [subst n; rewrite Hnc; by bits|]. by bits.
Qed.

Lemma rights_unshare fl : leaf_flags fl -> has fl COPY_ON_WRITE = true -> rights (unshare fl) = rights fl.
Proof.
  intros _ Hc. unfold rights at 2. rewrite Hc. unfold rights. rewrite has_C, bits_unshare by done. by bits.
Qed.

Lemma mask_share fl b : Z.land fl b = 0 -> Z.land COPY_ON_WRITE b = 0 -> Z.land (share fl) b = 0.
Proof.
  intros H1 H2. unfold share. destruct (has fl WRITABLE); [|done]. rewrite Z.land_lor_distr_l, H2, Z.lor_0_r.
  by rewrite <- Z.land_assoc, (Z.land_comm _ b), Z.land_assoc, H1, Z.land_0_l.
Qed.
Lemma mask_unshare fl b : Z.land fl b = 0 -> Z.land WRITABLE b = 0 -> Z.land (unshare fl) b = 0.
Proof.
  intros H1 H2. unfold unshare. rewrite Z.land_lor_distr_l, H2, Z.lor_0_r.
  by rewrite <- Z.land_assoc, (Z.land_comm _ b), Z.land_assoc, H1, Z.land_0_l.
Qed.

Lemma share_flags fl : leaf_flags fl -> leaf_flags (share fl) /\ has (share fl) WRITABLE = false.
Proof.
  intros Hl. pose proof Hl as [Hm Hp Hwx Hc]. unfold share. destruct (has fl WRITABLE) eqn:Hw; [|done].
  rewrite has_W, bits_share by done. bits. split; [|done]. split.
  - pose proof (mask_share fl ADDRESS_MASK Hm eq_refl) as E. unfold share in E. by rewrite Hw in E.
  - rewrite has_P, bits_share by done. rewrite has_P in Hp. rewrite Hp. by bits.
  - rewrite has_W, bits_share by done. by bits.
  - intros _. rewrite has_W, has_N, !bits_share by done. bits. split; [done|]. specialize (Hwx eq_refl). rewrite has_N in Hwx. rewrite Hwx. by bits.
Qed.

Lemma unshare_flags fl : leaf_flags fl -> has fl COPY_ON_WRITE = true -> leaf_flags (unshare fl).
Proof.
  intros [Hm Hp Hwx Hc] Hcow. destruct (Hc Hcow) as [_ Hn]. split.
  - by apply mask_unshare.
  - rewrite has_P, bits_unshare by done. rewrite has_P in Hp. rewrite Hp. by bits.
  - intros _. rewrite has_N, bits_unshare by done. rewrite has_N in Hn. rewrite Hn. by bits.
  - rewrite has_C, bits_unshare by done. by bits.
Qed.

(** Flags asked for, with the cache bits of the page. *)
Record request (flags : Z) : Prop := mk_request {
  rq_mask : Z.land flags ADDRESS_MASK = 0;
  rq_present : has flags PRESENT = true;
  rq_wx : has flags WRITABLE = true -> has flags NO_EXECUTE = true;
  rq_cow : has flags COPY_ON_WRITE = false
}.

Lemma has_lor x y b : Z.land y b = 0 -> has (Z.lor x y) b = has x b.
Proof. intros E. unfold has. by rewrite Z.land_lor_distr_l, E, Z.lor_0_r. Qed.

Lemma cache_land x b : Z.land CACHE b = 0 -> Z.land (Z.land x CACHE) b = 0.
Proof. intros E. by rewrite <- Z.land_assoc, E, Z.land_0_r. Qed.

Lemma request_cache flags x : request flags ->
  leaf_flags (Z.lor flags (Z.land x CACHE)) /\ has (Z.lor flags (Z.land x CACHE)) COPY_ON_WRITE = false /\
  has (Z.lor flags (Z.land x CACHE)) WRITABLE = has flags WRITABLE.
Proof.
  intros [Hm Hp Hwx Hc].
  assert (Hb : forall b, Z.land CACHE b = 0 -> has (Z.lor flags (Z.land x CACHE)) b = has flags b) by (intros b Eb; by apply has_lor, cache_land).
  rewrite (Hb COPY_ON_WRITE), (Hb WRITABLE) by done. split; [|done]. split.
  - rewrite Z.land_lor_distr_l, Hm. by rewrite cache_land.
  - by rewrite Hb.
  - rewrite !Hb by done. done.
  - rewrite (Hb COPY_ON_WRITE) by done. congruence.
Qed.

Lemma share_cache flags x : share (Z.lor flags (Z.land x CACHE)) = Z.lor (share flags) (Z.land x CACHE).
Proof.
  unfold share. rewrite has_lor by (by apply cache_land). destruct (has flags WRITABLE); [|done].
  apply Z.bits_inj'. intros n Hn. rewrite bits_share by done. rewrite !(Z.lor_spec _ (Z.land x CACHE)), bits_share by done.
  assert (E : Z.testbit (Z.land x CACHE) 1 = false) by (rewrite Z.land_spec; apply andb_false_r).
  destruct (Z.eqb_spec n 1) as [E1|E1]; [subst n; rewrite E; by bits|]. bits.
  by rewrite <- !orb_assoc, (orb_comm (n =? 9)).
Qed.

Lemma rights_cache_bits fl : Z.land (rights fl) CACHE = Z.land fl CACHE.
Proof.
  unfold rights. destruct (has fl COPY_ON_WRITE); [|done].
  rewrite Z.land_lor_distr_l. change (Z.land WRITABLE CACHE) with 0. rewrite Z.lor_0_r, <- Z.land_assoc.
  by change (Z.land (Z.lnot COPY_ON_WRITE) CACHE) with CACHE.
Qed.

Lemma rights_request fl : has fl COPY_ON_WRITE = false -> rights fl = fl.
Proof. intros E. unfold rights. by rewrite E. Qed.

Lemma drop_cow flags : has flags COPY_ON_WRITE = false -> Z.land flags (Z.lnot COPY_ON_WRITE) = flags.
Proof.
  intros E. rewrite <- Z.ldiff_land. pose proof (Z.lor_ldiff_and flags COPY_ON_WRITE) as E'. unfold has in E.
  apply negb_false_iff, Z.eqb_eq in E. by rewrite E, Z.lor_0_r in E'.
Qed.

(** ** Pages as a process sees them *)

Inductive Page : Type :=
| Private (rights : Z) (contents : Z -> Z)
| Device (rights : Z) (frame : Z).

(** Contents are compared word by word. *)
Inductive page_eq : option Page -> option Page -> Prop :=
| eq_none : page_eq None None
| eq_private r c c' : (forall i, c i = c' i) -> page_eq (Some (Private r c)) (Some (Private r c'))
| eq_device r f : page_eq (Some (Device r f)) (Some (Device r f)).

#[global] Instance page_eq_equiv : Equivalence page_eq.
Proof.
  split.
  - intros [[r c|r f]|]; by constructor.
  - intros x y []; by constructor.
  - intros x y z H1 H2. destruct H1; inversion H2; subst; constructor; congruence.
Qed.

Section Cow.
Context {W : Type} {HF : Frames W} {HL : FramesLaws W} (kernel_pml4 : Z -> Z).
Implicit Types (w : W) (T : nat -> Z -> option Z).
Abbreviation tree := (tree kernel_pml4).
Abbreviation local := (local kernel_pml4).
Abbreviation space_inv := (space_inv kernel_pml4).

Definition is_device (s : AddressSpace) (pg : Z) : bool := existsb (fun m => page_of (om_address m) =? pg) (devices s).

Definition page_at w (device : bool) (e : Z) : option Page :=
  if has e PRESENT then
    Some (if device then Device (rights (flags_of e)) (address e) else Private (rights (flags_of e)) (memory w (address e)))
  else None.
Definition seen w (s : AddressSpace) T (pg : Z) : option Page := page_at w (is_device s pg) (view w T pg).

Lemma is_device_spec s pg : is_device s pg = true <-> exists m, m ∈ devices s /\ page_of (om_address m) = pg.
Proof.
  unfold is_device. rewrite existsb_exists. split; intros (m & Hm & E); exists m; split;
    [by apply list_elem_of_In|by apply Z.eqb_eq|by apply list_elem_of_In|by apply Z.eqb_eq].
Qed.

(** A space on its own, with what the others guarantee about it. *)
Record good w (s : AddressSpace) T : Prop := mk_good {
  go_wf : frames_wf w;
  go_inv : space_inv w s T;
  go_tables : forall g, tables T g -> count g (owned s) = 0;
  go_refs : forall m, m ∈ owned s -> 1 <= refs w (om_frame m);
  go_counts : forall m, m ∈ owned s -> count (om_frame m) (owned s) <= refs w (om_frame m)
}.

Lemma sys_good w l TT others id s : sys_ok kernel_pml4 w l TT others -> (id, s) ∈ l -> good w s (TT id).
Proof.
  intros Hok Hin.
  assert (Hc : forall m, m ∈ owned s -> count (om_frame m) (owned s) <= refs w (om_frame m)).
  { intros m Hm. pose proof (count_elem (om_frame m) _ m Hm eq_refl). pose proof (count_member (om_frame m) _ _ _ Hin).
    pose proof (sy_others _ _ _ _ _ Hok (om_frame m)). destruct (owned_refs _ _ _ _ _ (om_frame m) Hok); lia. }
  split; [apply Hok|by eapply sys_space| | |done].
  - intros g Hg. destruct (sy_tables _ _ _ _ _ Hok _ _ _ Hin Hg) as [H0 _]. pose proof (count_member g _ _ _ Hin). pose proof (count_nonneg g (owned s)). lia.
  - intros m Hm. pose proof (count_elem (om_frame m) _ m Hm eq_refl). specialize (Hc m Hm). lia.
Qed.

Lemma same_mapping s v m m' :
  space_ok s v -> m ∈ owned s ++ devices s -> m' ∈ owned s ++ devices s -> page_of (om_address m) = page_of (om_address m') -> m = m'.
Proof.
  intros [Hnd Hmap _ _] Hm Hm' E. destruct (Hmap m Hm) as (Hu & _), (Hmap m' Hm') as (Hu' & _).
  pose proof (page_of_inj _ _ Hu Hu' E) as Ea. apply list_elem_of_lookup in Hm as [i Hi], Hm' as [j Hj].
  assert (i = j) as ->; [|congruence]. apply (NoDup_lookup _ i j (om_address m) Hnd); rewrite list_lookup_fmap; [by rewrite Hi|].
  rewrite Hj. cbn. by rewrite Ea.
Qed.

(** A mapping of the lists and the leaf it stands for. *)
Lemma mapping_leaf w s T m :
  space_inv w s T -> m ∈ owned s ++ devices s ->
  exists fl pt, view w T (page_of (om_address m)) = Z.lor (om_frame m) fl /\ leaf_flags fl /\ user_page (om_address m) /\ is_frame (om_frame m) /\
    T O (prefix 0 (page_of (om_address m))) = Some pt /\ memory w pt (index 0 (page_of (om_address m))) = Z.lor (om_frame m) fl /\
    leaf_slot w s (om_address m) = Ok pt.
Proof.
  intros [Ht _ Hs _] Hm. destruct (so_mapped _ _ Hs m Hm) as (Hu & Hf & fl & Hv & Hfl). exists fl.
  assert (Hp : has (Z.lor (om_frame m) fl) PRESENT = true) by (rewrite has_entry; [apply Hfl|done|done]).
  pose proof Hv as Hv'. unfold view in Hv'. destruct (T O (prefix 0 (page_of (om_address m)))) as [pt|] eqn:Hpt.
  2: { rewrite <- Hv' in Hp. by rewrite has_0 in Hp. }
  exists pt. do 4 (split; [done|]). split; [done|]. split; [done|].
  rewrite (leaf_slot_spec kernel_pml4 w s T _ Ht Hu), Hpt, pt_index_eq by apply Hu. by rewrite Hv', Hp.
Qed.

(** The other way round: a present page is on a list. *)
Lemma leaf_mapping w s T va pt :
  space_inv w s T -> user_page va -> leaf_slot w s va = Ok pt ->
  exists m, m ∈ owned s ++ devices s /\ om_address m = va /\ T O (prefix 0 (page_of va)) = Some pt.
Proof.
  intros [Ht _ Hs _] Hu E. rewrite (leaf_slot_spec kernel_pml4 w s T va Ht Hu) in E.
  destruct (T O (prefix 0 (page_of va))) as [p|] eqn:Hpt; [|done]. destruct (has _ PRESENT) eqn:Hp; [|done]. injection E as ->.
  destruct (so_all _ _ Hs (page_of va)) as (m & Hm & Epg); [unfold view; rewrite Hpt; by rewrite <- pt_index_eq by apply Hu|].
  exists m. split; [done|]. split; [|done]. destruct (so_mapped _ _ Hs m Hm) as (Hum & _). by apply page_of_inj.
Qed.

Lemma seen_same w w' s s' T T' pg :
  space_inv w s T -> view w' T' pg = view w T pg -> is_device s' pg = is_device s pg ->
  (forall m i, m ∈ owned s -> page_of (om_address m) = pg -> memory w' (om_frame m) i = memory w (om_frame m) i) ->
  page_eq (seen w' s' T' pg) (seen w s T pg).
Proof.
  intros [Ht _ Hs _] Hv Hd Hm. unfold seen, page_at. rewrite Hv, Hd. destruct (has (view w T pg) PRESENT) eqn:Hp; [|constructor].
  destruct (is_device s pg) eqn:Hdev; constructor. intros i. destruct (so_all _ _ Hs pg Hp) as (m & Hin & <-).
  apply elem_of_app in Hin as [Hin|Hin].
  - destruct (so_mapped _ _ Hs m ltac:(apply elem_of_app; by left)) as (_ & Hf & fl & -> & Hfl). rewrite address_entry by (done || apply Hfl). by apply Hm.
  - rewrite (proj2 (is_device_spec s (page_of (om_address m)))) in Hdev by (by exists m). done.
Qed.

Lemma untouched_seen w w' s T pg : space_inv w s T -> untouched w w' s T -> page_eq (seen w' s T pg) (seen w s T pg).
Proof. intros Hi [Ha Hc]. apply seen_same; [done|by apply view_agree|done|]. intros m i Hm _. by apply Hc. Qed.

(** New flags for a page that is there. *)
Lemma reflag w s T m fl' pt :
  good w s T -> m ∈ owned s ++ devices s -> T O (prefix 0 (page_of (om_address m))) = Some pt -> leaf_flags fl' ->
  (m ∈ owned s -> has fl' WRITABLE = true -> refs w (om_frame m) = 1) -> (m ∈ devices s -> has fl' COPY_ON_WRITE = false) ->
  let w' := write w pt (index 0 (page_of (om_address m))) (Z.lor (om_frame m) fl') in
  local w s T w' s T /\ (forall g, refs w' g = refs w g) /\ keeps (eq pt) w w' /\
  (forall pg, view w' T pg = if pg =? page_of (om_address m) then Z.lor (om_frame m) fl' else view w T pg) /\
  forall pg, pg <> page_of (om_address m) -> page_eq (seen w' s T pg) (seen w s T pg).
Proof.
  intros [Hw Hi Htab Hrefs _] Hm Hpt Hfl' Hpriv Hdev w'. pose proof Hi as [Ht Hpop Hs Hpr].
  destruct (mapping_leaf w s T m Hi Hm) as (fl & pt' & Hv & Hfl & Hu & Hf & Hpt' & _ & _).
  assert (He : has (Z.lor (om_frame m) fl') PRESENT = true) by (rewrite has_entry; [apply Hfl'|done|done]).
  destruct (leaf_write kernel_pml4 w (root s) T (page_of (om_address m)) pt _ Hw Ht Hpt (or_intror He)) as (L1 & L2 & L3 & L4 & L5).
  fold w' in L1, L2, L3, L4, L5.
  assert (Hpt_t : tables T pt) by (by eexists _, _).
  assert (Hv' : forall m', m' ∈ owned s ++ devices s -> m' <> m -> view w' T (page_of (om_address m')) = view w T (page_of (om_address m'))).
  { intros m' Hm' Hne. rewrite L5. destruct (Z.eqb_spec (page_of (om_address m')) (page_of (om_address m))) as [E|]; [|done].
    exfalso. apply Hne. by eapply same_mapping. }
  assert (Hmem : forall g j, g <> pt -> memory w' g j = memory w g j).
  { intros g j Hg. pose proof (tree_live _ _ _ _ _ _ _ Ht Hpt) as Hl. destruct (write_correct w pt (index 0 (page_of (om_address m))) (Z.lor (om_frame m) fl') Hw Hl) as (_ & _ & E).
    unfold w'. rewrite E. by rewrite (proj2 (Z.eqb_neq g pt)). }
  split; [|split; [done|split; [done|split; [done|]]]].
  - split; try done; try (by left).
    + destruct Hpop as [P0 P1]. split; [|done]. intros p f Hp. destruct (P0 p f Hp) as (pg & ? & ?). exists pg. split; [done|]. rewrite L5. by case_if.
    + destruct Hs as [Q1 Q2 Q3 Q4]. split; try done.
      * intros m' Hm'. destruct (Q2 m' Hm') as (? & ? & fl0 & ? & ?). split; [done|]. split; [done|].
        destruct (decide (om_address m' = om_address m)) as [E|Hne].
        -- assert (m' = m) as -> by (apply (same_mapping s (view w T)); [by split|done|done|by rewrite E]).
           exists fl'. by rewrite L5, Z.eqb_refl.
        -- exists fl0. rewrite Hv' by (done || congruence). done.
      * intros m' Hm'. destruct (Q3 m' Hm') as [? Hnc]. split; [done|]. destruct (decide (m' = m)) as [->|Hne].
        -- rewrite L5, Z.eqb_refl, has_entry by done. auto.
        -- by rewrite Hv' by (done || apply elem_of_app; by right).
      * intros pg Hpg. rewrite L5 in Hpg. destruct (Z.eqb_spec pg (page_of (om_address m))) as [E|]; [exists m; by rewrite E|by apply Q4].
    + intros m' Hm' Hwr. rewrite L4. destruct (decide (m' = m)) as [->|Hne].
      * rewrite L5, Z.eqb_refl, has_entry in Hwr by done. by apply Hpriv.
      * apply (Hpr m' Hm'). rewrite <- Hv' by (done || apply elem_of_app; by left). done.
    + intros g _ _. rewrite L4. lia.
    + intros g [Hg|Hg]; by apply Htab.
    + intros g Hg _ _. left. intros j. apply Hmem. by intros ->.
  - intros pg Hne. apply seen_same; [done|by rewrite L5, (proj2 (Z.eqb_neq _ _) Hne)|done|]. intros m' j Hm' _. apply Hmem. intros E.
    pose proof (count_elem (om_frame m') _ m' Hm' eq_refl). rewrite E, Htab in * by done. lia.
Qed.

(** ** Protecting a page *)

Definition protect_page (flags : Z) (p : Page) : Page :=
  match p with
  | Private r c => Private (Z.lor flags (Z.land r CACHE)) c
  | Device r f => Device (Z.lor flags (Z.land r CACHE)) f
  end.

Lemma refcount_owned w s T m : good w s T -> m ∈ owned s -> refcount_or_1 w (om_frame m) = refs w (om_frame m).
Proof.
  intros Hg Hm. pose proof (go_refs _ _ _ Hg m Hm). unfold refcount_or_1. rewrite frame_refcount_spec; [done|apply Hg|lia].
Qed.
Lemma refcount_device w s T m : good w s T -> m ∈ devices s -> refcount_or_1 w (om_frame m) <= 1.
Proof. intros Hg Hm. apply frame_refcount_other; [apply Hg|]. apply (so_devices _ _ (si_space _ _ _ _ (go_inv _ _ _ Hg)) m Hm). Qed.

Lemma private_owned s m : m ∈ owned s ++ devices s -> is_device s (page_of (om_address m)) = false -> m ∈ owned s.
Proof.
  intros Hm Hd. apply elem_of_app in Hm as [?|Hm]; [done|]. by rewrite (proj2 (is_device_spec s _)) in Hd by (by exists m).
Qed.

Lemma owned_apart w s T m g : good w s T -> m ∈ owned s -> tables T g -> om_frame m <> g /\ live w (om_frame m).
Proof.
  intros Hg Hm Ht. split; [|left; pose proof (go_refs _ _ _ Hg m Hm); lia]. intros <-.
  pose proof (count_elem (om_frame m) _ m Hm eq_refl). rewrite (go_tables _ _ _ Hg _ Ht) in *. lia.
Qed.

Lemma seen_absent w s T va :
  space_inv w s T -> user_page va -> (forall pt, leaf_slot w s va <> Ok pt) -> seen w s T (page_of va) = None.
Proof.
  intros [Ht _ _ _] Hu Hn. unfold seen, page_at. destruct (has (view w T (page_of va)) PRESENT) eqn:Hp; [|done]. exfalso.
  unfold view in Hp. destruct (T O (prefix 0 (page_of va))) as [pt|] eqn:Hpt; [|by rewrite has_0 in Hp].
  apply (Hn pt). rewrite (leaf_slot_spec kernel_pml4 w s T va Ht Hu), Hpt, pt_index_eq by apply Hu. by rewrite Hp.
Qed.

Lemma set_leaf_flags_spec w s T va flags r w' :
  good w s T -> user_page va -> request flags -> set_leaf_flags w s va flags = (r, w') ->
  match r with
  | Err e => e = NotMapped /\ w' = w /\ seen w s T (page_of va) = None
  | Ok _ => local w s T w' s T /\ (forall g, refs w' g = refs w g) /\
      (exists p, seen w s T (page_of va) = Some p /\ page_eq (seen w' s T (page_of va)) (Some (protect_page flags p))) /\
      forall pg, pg <> page_of va -> page_eq (seen w' s T pg) (seen w s T pg)
  end.
Proof.
  intros Hg Hu Hrq E. pose proof (go_inv _ _ _ Hg) as Hi. unfold set_leaf_flags in E.
  destruct (leaf_slot w s va) as [pt|e] eqn:Els.
  2: { injection E as <- <-. rewrite (leaf_slot_spec kernel_pml4 w s T va (si_tree _ _ _ _ Hi) Hu) in Els.
       split; [by destruct (T O _); [destruct (has _ PRESENT); [done|]|]; injection Els as <-|]. split; [done|].
       apply seen_absent; [done..|]. intros pt. rewrite (leaf_slot_spec kernel_pml4 w s T va (si_tree _ _ _ _ Hi) Hu), Els. done. }
  destruct (leaf_mapping w s T va pt Hi Hu Els) as (m & Hm & <- & Hpt).
  destruct (mapping_leaf w s T m Hi Hm) as (fl & pt' & Hv & Hfl & _ & Hf & Hpt' & Hmem & _). assert (pt' = pt) as -> by congruence. clear Hpt'.
  rewrite pt_index_eq in E by apply Hu. rewrite Hmem in E. rewrite address_entry in E by (done || apply Hfl).
  assert (Ec : Z.land (Z.lor (om_frame m) fl) (Z.lor (Z.lor PWT PCD) PAT_4K) = Z.land fl CACHE) by (by apply land_mask_flags).
  rewrite Ec in E. set (F := Z.lor flags (Z.land fl CACHE)).
  destruct (request_cache flags fl Hrq) as (HF1 & HF2 & HF3). fold F in HF1, HF2, HF3.
  set (sh := 1 <? refcount_or_1 w (om_frame m)) in *. set (fl' := if sh then share F else F).
  assert (Ew : w' = write w pt (index 0 (page_of (om_address m))) (Z.lor (om_frame m) fl') /\ r = Ok tt).
  { injection E as <- <-. split; [|done]. f_equal. rewrite <- Z.lor_assoc. f_equal. unfold fl', F. destruct sh.
    - rewrite share_cache. unfold share. destruct (has flags WRITABLE); cbn [andb]; [done|]. by rewrite drop_cow by apply Hrq.
    - rewrite andb_false_r, drop_cow by apply Hrq. done. }
  destruct Ew as [-> ->]. assert (Hfl' : leaf_flags fl') by (unfold fl'; destruct sh; [by apply share_flags|done]).
  destruct (reflag w s T m fl' pt Hg Hm Hpt Hfl') as (R1 & R2 & R3 & R4 & R5).
  { intros Ho Hwr. unfold fl' in Hwr. destruct sh eqn:Esh; [by rewrite (proj2 (share_flags F HF1)) in Hwr|].
    unfold sh in Esh. rewrite (refcount_owned w s T m Hg Ho) in Esh. pose proof (go_refs _ _ _ Hg m Ho). apply Z.ltb_ge in Esh. lia. }
  { intros Hd. unfold fl', sh. rewrite (proj2 (Z.ltb_ge _ _) (refcount_device w s T m Hg Hd)). done. }
  split; [done|]. split; [done|]. split; [|done].
  assert (Hr : rights fl' = Z.lor flags (Z.land (rights fl) CACHE)).
  { rewrite rights_cache_bits. unfold fl'. destruct sh; [rewrite rights_share by done|]; by apply rights_request. }
  set (w' := write w pt _ _) in *.
  assert (Hp : has (Z.lor (om_frame m) fl) PRESENT = true) by (rewrite has_entry; [apply Hfl|done|done]).
  assert (Hp' : has (Z.lor (om_frame m) fl') PRESENT = true) by (rewrite has_entry; [apply Hfl'|done|done]).
  unfold seen, page_at. rewrite Hv, R4, Z.eqb_refl, Hp, Hp'. unfold flags_of. rewrite !flags_entry, !address_entry by (done || apply Hfl || apply Hfl').
  eexists. split; [done|]. rewrite Hr. destruct (is_device s (page_of (om_address m))) eqn:Hd; cbn [protect_page]; [reflexivity|].
  constructor. intros i. destruct (owned_apart w s T m pt Hg (private_owned s m Hm Hd) ltac:(by eexists _, _)). apply R3; [congruence|done].
Qed.

(** ** The write fault *)

Lemma set_frame_split page c l m :
  NoDup (map om_address l) -> m ∈ l -> om_address m = page ->
  exists l1 l2, l = l1 ++ m :: l2 /\ set_frame page c l = l1 ++ mkOwned page c :: l2.
Proof.
  intros Hnd Hm <-. induction l as [|x l IH]; [by apply elem_of_nil in Hm|]. cbn [map] in Hnd. apply NoDup_cons in Hnd as [Hx Hnd].
  apply elem_of_cons in Hm as [->|Hm].
  - exists [], l. cbn [set_frame]. by rewrite Z.eqb_refl.
  - cbn [set_frame]. destruct (Z.eqb_spec (om_address x) (om_address m)) as [E|].
    + exfalso. apply Hx. rewrite E. by apply (list_elem_of_fmap_2 om_address).
    + destruct (IH Hnd Hm) as (l1 & l2 & -> & ->). by exists (x :: l1), l2.
Qed.

(** A copy of the frame takes the place of the shared one. *)
Section Copy.
Context (w w1 : W) (s : AddressSpace) (T : nat -> Z -> option Z) (m : OwnedMapping) (fl pt c : Z).
Context (Hg : good w s T) (Hm : m ∈ owned s) (Hpt : T O (prefix 0 (page_of (om_address m))) = Some pt).
Context (Hv : view w T (page_of (om_address m)) = Z.lor (om_frame m) fl) (Hfl : leaf_flags fl) (Hcow : has fl COPY_ON_WRITE = true).
Context (Hshared : 1 < refs w (om_frame m)) (Ha : alloc_frame w = (Some c, w1)).
Let old := om_frame m.
Let page := page_of (om_address m).
Let e := Z.lor c (unshare fl).
Let w2 := fill w1 c (memory w1 old).
Let w3 := write w2 pt (index 0 page) e.
Let s' := mkSpace (root s) (set_frame (om_address m) c (owned s)) (devices s).

Lemma copy_frame : frames_wf w1 /\ managed c /\ refs w c = 0 /\ (forall g, refs w1 g = if g =? c then 1 else refs w g) /\
  (forall g i, live w g -> memory w1 g i = memory w g i) /\ c <> old /\ ~ tables T c.
Proof.
  destruct (alloc_frame_spec _ _ _ (go_wf _ _ _ Hg) Ha) as (Hw1 & Hr & Hmem & Hc). destruct (Hc c eq_refl) as [Hma Hz].
  split; [done|]. split; [done|]. split; [done|]. split; [|split; [done|split]].
  - intros g. rewrite Hr. destruct (Z.eqb_spec g c) as [->|]; [by rewrite bool_decide_true|by rewrite bool_decide_false by congruence].
  - intros E. unfold old in E. rewrite <- E in Hshared. lia.
  - intros (k & p & Ht). pose proof (proj2 (tr_frame _ _ _ _ (si_tree _ _ _ _ (go_inv _ _ _ Hg)) _ _ _ Ht)). lia.
Qed.

Lemma copy_world :
  frames_wf w3 /\ (forall g, refs w3 g = if g =? c then 1 else refs w g) /\
  (forall i, memory w3 c i = memory w old i) /\
  (forall g i, g <> pt -> live w g -> memory w3 g i = memory w g i) /\
  tree w3 (root s) T /\ forall pg, view w3 T pg = if pg =? page then e else view w T pg.
Proof.
  destruct copy_frame as (Hw1 & Hma & Hz & Hr1 & Hm1 & Hco & Hct). pose proof (go_inv _ _ _ Hg) as Hi. pose proof Hi as [Ht _ _ _].
  assert (Hlold : live w old) by (left; unfold old; lia).
  assert (Hcl : live w1 c) by (left; rewrite Hr1, Z.eqb_refl; lia).
  destruct (fill_correct w1 c (memory w1 old) Hw1 Hcl) as (Hw2 & Hr2 & Hm2). fold w2 in Hw2, Hr2, Hm2.
  assert (Ha2 : agree w w2 (tables T)).
  { intros g (k & p & Hx). assert (g <> c) by (intros ->; apply Hct; by exists k, p).
    rewrite Hr2, Hr1, (proj2 (Z.eqb_neq g c)) by done. split; [done|]. intros i. rewrite Hm2, (proj2 (Z.eqb_neq g c)) by done.
    apply Hm1. by eapply tree_live. }
  assert (Ht2 : tree w2 (root s) T) by (by eapply tree_agree).
  assert (He : has e PRESENT = true).
  { unfold e. rewrite has_entry by (done || by apply managed_frame). apply unshare_flags; done. }
  destruct (leaf_write kernel_pml4 w2 (root s) T page pt e Hw2 Ht2 Hpt (or_intror He)) as (L1 & L2 & L3 & L4 & L5). fold w3 in L1, L2, L3, L4, L5.
  assert (Hptc : pt <> c) by (intros ->; apply Hct; by eexists _, _).
  assert (Hl2 : forall g, live w g -> live w2 g).
  { intros g [Hl|Hl]; [left; rewrite Hr2, Hr1; case_if; lia|by right]. }
  split; [done|]. split; [intros g; by rewrite L4, Hr2, Hr1|]. split; [|split; [|split; [done|]]].
  - intros i. rewrite (proj2 (L3 c Hptc)), Hm2, Z.eqb_refl; [by apply Hm1|]. left. rewrite Hr2, Hr1, Z.eqb_refl. lia.
  - intros g i Hgp Hl. rewrite (proj2 (L3 g ltac:(congruence)) (Hl2 g Hl)), Hm2. destruct (Z.eqb_spec g c) as [->|]; [|by apply Hm1].
    destruct Hl as [?|?]; done.
  - intros pg. rewrite L5, (view_agree w w2 T pg Ha2). done.
Qed.

Lemma copy_owned : exists l1 l2, owned s = l1 ++ m :: l2 /\ owned s' = l1 ++ mkOwned (om_address m) c :: l2.
Proof.
  pose proof (so_nodup _ _ (si_space _ _ _ _ (go_inv _ _ _ Hg))) as Hnd. rewrite map_app in Hnd. apply NoDup_app in Hnd as (Hnd & _ & _).
  by apply set_frame_split.
Qed.

Lemma copy_count g : count g (owned s') = count g (owned s) - (if old =? g then 1 else 0) + (if c =? g then 1 else 0).
Proof. destruct copy_owned as (l1 & l2 & -> & ->). rewrite !count_app. cbn [count om_frame]. fold old. lia. Qed.

(** The mappings of the space after the copy. *)
Lemma copy_mapping m' : m' ∈ owned s' ++ devices s' ->
  m' = mkOwned (om_address m) c \/ m' ∈ owned s ++ devices s /\ page_of (om_address m') <> page.
Proof.
  intros Hin. pose proof (go_inv _ _ _ Hg) as [_ _ Hs _]. destruct copy_owned as (l1 & l2 & E & E'). rewrite E' in Hin. cbn [devices s'] in Hin.
  rewrite <- app_assoc in Hin. cbn [app] in Hin. apply elem_mid in Hin as [->|Hin]; [by left|right].
  assert (Hin' : m' ∈ owned s ++ devices s) by (rewrite E, <- app_assoc; cbn [app]; apply elem_mid; by right). split; [done|]. intros Ep.
  assert (m' = m) as -> by (apply (same_mapping s (view w T)); [done..|apply elem_of_app; by left|done]).
  pose proof (so_nodup _ _ Hs) as Hnd. rewrite E, <- app_assoc, map_app in Hnd. cbn [app map] in Hnd.
  rewrite <- Permutation_middle in Hnd. apply NoDup_cons in Hnd as [Hno _]. apply Hno. rewrite <- map_app.
  by apply (list_elem_of_fmap_2 om_address).
Qed.

Lemma copy_mapping_back m' : m' ∈ owned s ++ devices s -> page_of (om_address m') <> page -> m' ∈ owned s' ++ devices s'.
Proof.
  intros Hin Hne. destruct copy_owned as (l1 & l2 & E & E'). rewrite E'. cbn [devices s']. rewrite E in Hin.
  rewrite <- app_assoc in *. cbn [app] in *. apply elem_mid. right. apply elem_mid in Hin as [->|Hin]; [done|done].
Qed.

Lemma copy_space_ok w4 : (forall pg, view w4 T pg = if pg =? page then e else view w T pg) -> space_ok s' (view w4 T).
Proof.
  intros Hv4. pose proof (go_inv _ _ _ Hg) as [_ _ Hs _]. pose proof Hs as [Q1 Q2 Q3 Q4]. destruct copy_frame as (_ & Hma & _).
  destruct (Q2 m ltac:(apply elem_of_app; by left)) as (Hu & _ & _). split.
  - destruct copy_owned as (l1 & l2 & E & E'). rewrite E' in *. rewrite E in Q1. cbn [devices s']. rewrite !map_app in *. done.
  - intros m' [->|[Hin Hne]]%copy_mapping.
    + split; [done|]. split; [by apply managed_frame|]. exists (unshare fl). split; [|by apply unshare_flags]. cbn [om_address om_frame].
      by rewrite Hv4, Z.eqb_refl.
    + destruct (Q2 m' Hin) as (? & ? & fl0 & ? & ?). split; [done|]. split; [done|]. exists fl0. by rewrite Hv4, (proj2 (Z.eqb_neq _ _) Hne).
  - intros m' Hm'. destruct (Q3 m' Hm') as [? Hnc]. split; [done|]. rewrite Hv4. destruct (Z.eqb_spec (page_of (om_address m')) page) as [E|]; [|done].
    unfold e. rewrite has_entry by (done || by apply managed_frame). rewrite has_C, bits_unshare by done. by bits.
  - intros pg Hpg. rewrite Hv4 in Hpg. destruct (Z.eqb_spec pg page) as [E|Hne].
    + exists (mkOwned (om_address m) c). destruct copy_owned as (l1 & l2 & _ & E'). rewrite E'. split; [|by rewrite E].
      rewrite <- app_assoc. cbn [app]. apply elem_mid. by left.
    + destruct (Q4 pg Hpg) as (m' & Hin & <-). exists m'. split; [by apply copy_mapping_back|done].
Qed.

Lemma copy_spec :
  exists w4, free_frame w3 old = Some w4 /\ local w s T w4 s' T /\ has (view w4 T page) WRITABLE = true /\
    forall pg, page_eq (seen w4 s' T pg) (seen w s T pg).
Proof.
  destruct copy_frame as (_ & Hma & Hz & _ & _ & Hco & Hct). destruct copy_world as (Hw3 & Hr3 & Hmc & Hm3 & Ht3 & Hv3).
  pose proof (go_inv _ _ _ Hg) as Hi. pose proof Hi as [Ht Hpop Hs Hpr].
  destruct (free_frame_spec w3 old Hw3) as (w4 & E & Hw4 & Hr4 & Hm4); [rewrite Hr3; case_if; unfold old; lia|].
  assert (Hr : forall g, refs w4 g = refs w g + count g (owned s') - count g (owned s)).
  { intros g. rewrite copy_count, Hr4, !Hr3.
    destruct (Z.eqb_spec g old) as [E1|], (Z.eqb_spec old g), (Z.eqb_spec g c) as [E2|], (Z.eqb_spec c g), (Z.eqb_spec old c); try congruence; subst; lia. }
  assert (Hap : forall g, tables T g -> g <> old /\ g <> c).
  { intros g Hx. destruct (owned_apart w s T m g Hg Hm Hx). split; [unfold old; congruence|intros ->; done]. }
  assert (Hl4 : forall g, tables T g -> refs w4 g = refs w3 g).
  { intros g Hx. destruct (Hap g Hx). by rewrite Hr4, (proj2 (Z.eqb_neq g old)). }
  assert (Hag : agree w3 w4 (tables T)).
  { intros g Hx. split; [auto|]. intros i. apply Hm4. left. rewrite Hl4 by done. destruct Hx as (k & p & Hx). rewrite (proj2 (tr_frame _ _ _ _ Ht3 _ _ _ Hx)). lia. }
  assert (Hv4 : forall pg, view w4 T pg = if pg =? page then e else view w T pg) by (intros pg; by rewrite (view_agree w3 w4 T pg Hag)).
  assert (Hm4' : forall g i, ~ tables T g -> live w g -> live w4 g -> memory w4 g i = memory w g i).
  { intros g i Hx Hl Hl4g. rewrite Hm4 by done. apply Hm3; [|done]. intros ->. apply Hx. by eexists _, _. }
  assert (Hwr : has e WRITABLE = true).
  { unfold e. rewrite has_entry by (done || by apply managed_frame). rewrite has_W, bits_unshare by done. by bits. }
  exists w4. split; [done|]. split; [|split; [by rewrite Hv4, Z.eqb_refl|]].
  - split; try done; try (by left).
    + by eapply tree_agree.
    + destruct Hpop as [P0 P1]. split; [|done]. intros p f Hp. destruct (P0 p f Hp) as (pg & ? & ?). exists pg. split; [done|]. rewrite Hv4.
      case_if; [|done]. unfold e. rewrite has_entry by (done || by apply managed_frame). by apply unshare_flags.
    + by apply copy_space_ok.
    + intros m' Hm' Hwr'. destruct (copy_mapping m') as [->|[Hin Hne]]; [apply elem_of_app; by left| |].
      * cbn [om_frame]. rewrite Hr4, (proj2 (Z.eqb_neq c old)) by done. by rewrite Hr3, Z.eqb_refl.
      * rewrite Hv4, (proj2 (Z.eqb_neq _ _) Hne) in Hwr'.
        assert (Ho : m' ∈ owned s).
        { destruct copy_owned as (l1 & l2 & Eo & Eo'). rewrite Eo' in Hm'. rewrite Eo. apply elem_mid in Hm' as [->|?]; [done|]. apply elem_mid. by right. }
        pose proof (Hpr m' Ho Hwr') as H1.
        assert (om_frame m' <> old) by (unfold old; intros E'; rewrite E' in H1; lia).
        assert (om_frame m' <> c) by (intros E'; rewrite E' in H1; lia).
        rewrite Hr4, (proj2 (Z.eqb_neq (om_frame m') old)), Hr3, (proj2 (Z.eqb_neq (om_frame m') c)) by done. done.
    + intros g [Hx|Hx]; destruct (Hap g Hx); rewrite copy_count, (go_tables _ _ _ Hg g Hx), (proj2 (Z.eqb_neq old g)), (proj2 (Z.eqb_neq c g)) by congruence; lia.
    + intros g Hx Hl Hlg. left. intros i. by apply Hm4'.
  - intros pg. destruct (decide (pg = page)) as [->|Hne].
    + unfold seen, page_at. assert (Hd : is_device s page = false).
      { apply not_true_is_false. intros (md & Hmd & Epg)%is_device_spec. destruct (so_devices _ _ Hs md Hmd) as [_ Hnc].
        unfold page in Epg. rewrite Epg, Hv, has_entry in Hnc; [congruence| |done].
        by destruct (so_mapped _ _ Hs m ltac:(apply elem_of_app; by left)) as (_ & ? & _). }
      change (is_device s' page) with (is_device s page). rewrite Hd, Hv4, Z.eqb_refl. fold page in Hv. rewrite Hv.
      destruct (so_mapped _ _ Hs m ltac:(apply elem_of_app; by left)) as (_ & Hf & _). pose proof (managed_frame c Hma) as Hfc.
      pose proof (unshare_flags fl Hfl Hcow) as Hufl. unfold e, flags_of. rewrite !has_entry, !flags_entry, !address_entry by (done || apply Hfl || apply Hufl).
      rewrite (lf_present _ Hfl), (lf_present _ Hufl), rights_unshare by done. constructor. intros i. rewrite Hm4; [apply Hmc|].
      left. rewrite Hr4, (proj2 (Z.eqb_neq c old)) by done. by rewrite Hr3, Z.eqb_refl.
    + apply seen_same; [done|by rewrite Hv4, (proj2 (Z.eqb_neq _ _) Hne)|done|]. intros m' i Hm' Epg.
      assert (Ho1 : 1 <= count (om_frame m') (owned s)) by (by eapply count_elem).
      apply Hm4'; [intros Hx; rewrite (go_tables _ _ _ Hg _ Hx) in Ho1; lia|left; pose proof (go_refs _ _ _ Hg m' Hm'); lia|].
      left. rewrite Hr4, !Hr3. pose proof (go_refs _ _ _ Hg m' Hm').
      destruct (Z.eqb_spec (om_frame m') old) as [E'|]; [rewrite (proj2 (Z.eqb_neq old c)) by congruence; unfold old in *; lia|]. case_if; lia.
Qed.
End Copy.
End Cow.
End PagingCow.

(** * Write faults, stores, mapping and unmapping

    The operations that change what a process sees of one page, each as a
    local change of its space: the write fault changes nothing visible, a
    store one word of one page, mapping and unmapping one page. *)

Module PagingFault.
Import Paging PagingTree PagingOps PagingDrop PagingSpaces PagingCow.

Section Fault.
Context {W : Type} {HF : Frames W} {HL : FramesLaws W} (kernel_pml4 : Z -> Z).
Implicit Types (w : W) (T : nat -> Z -> option Z).
Abbreviation tree := (tree kernel_pml4).
Abbreviation local := (local kernel_pml4).
Abbreviation space_inv := (space_inv kernel_pml4).
Abbreviation good := (good kernel_pml4).

(** Every frame the space takes up was free. *)
Definition fresh_only w (s s' : AddressSpace) : Prop := forall g, count g (owned s) < count g (owned s') -> refs w g = 0.

Lemma fresh_quiet w l TT s s' : fresh_only w s s' -> quiet w l TT s s'.
Proof. intros H g Hg. left. by apply H. Qed.

Lemma fresh_same w s s' : owned s' = owned s -> fresh_only w s s'.
Proof. intros E g. rewrite E. lia. Qed.

(** ** The write fault *)

Lemma page_base va : 0 <= va < 2 ^ 47 ->
  user_page (Z.land va (Z.lnot (PAGE_SIZE - 1))) /\ page_of (Z.land va (Z.lnot (PAGE_SIZE - 1))) = page_of va.
Proof.
  intros Hva. pose proof (Z.div_mod va 4096 ltac:(lia)) as Hd. pose proof (Z.mod_pos_bound va 4096 ltac:(lia)) as Hb.
  assert (E : Z.land va (Z.lnot (PAGE_SIZE - 1)) = 4096 * (va / 4096)).
  { change (PAGE_SIZE - 1) with (Z.ones 12). rewrite <- Z.ldiff_land, Z.ldiff_ones_r, Z.shiftr_div_pow2, Z.shiftl_mul_pow2 by lia.
    change (2 ^ 12) with 4096. lia. }
  rewrite E. unfold user_page, page_of. split; [split; [pose proof (Z.div_pos va 4096); lia|]|].
  - by rewrite Z.mul_comm, Z.mod_mul.
  - by rewrite Z.mul_comm, Z.div_mul.
Qed.

(** What the write fault promises. *)
Record resolved w s T w' s' : Prop := mk_resolved {
  re_local : local w s T w' s' T;
  re_fresh : fresh_only w s s';
  re_seen : forall pg, page_eq (seen w' s' T pg) (seen w s T pg)
}.

Definition fault_outcome w s T page (r : CowResolution) s' w' : Prop :=
  match r with
  | NotCow => s' = s /\ w' = w /\ has (view w T page) COPY_ON_WRITE = false
  | OutOfMemory => s' = s /\ frames_wf w' /\ keeps (fun _ => False) w w' /\ has (view w T page) COPY_ON_WRITE = true
  | Resolved => resolved w s T w' s' /\ has (view w T page) COPY_ON_WRITE = true /\ has (view w' T page) WRITABLE = true
  end.

Lemma view_present w s T pg : space_inv w s T -> has (view w T pg) PRESENT = false -> view w T pg = 0.
Proof.
  intros [Ht _ _ _] Hn. unfold view in *. destruct (T O (prefix 0 pg)) as [f|] eqn:Hf; [|done].
  destruct (tr_leaf _ _ _ _ Ht _ _ (index 0 pg) Hf) as [?|?]; [apply index_bound|done|congruence].
Qed.

Lemma fault_absent w s T va :
  space_inv w s T -> user_page va -> (forall pt, leaf_slot w s va <> Ok pt) -> view w T (page_of va) = 0.
Proof.
  intros Hi Hu Hn. apply (view_present w s T _ Hi). pose proof (seen_absent kernel_pml4 w s T va Hi Hu Hn) as E.
  unfold seen, page_at in E. by destruct (has (view w T (page_of va)) PRESENT).
Qed.

(** The sole owner of the frame may write it after all. *)
Lemma unshare_spec w s T m fl pt :
  good w s T -> m ∈ owned s -> T O (prefix 0 (page_of (om_address m))) = Some pt ->
  view w T (page_of (om_address m)) = Z.lor (om_frame m) fl -> leaf_flags fl -> has fl COPY_ON_WRITE = true -> refs w (om_frame m) = 1 ->
  let w' := write w pt (index 0 (page_of (om_address m))) (Z.lor (om_frame m) (unshare fl)) in
  resolved w s T w' s /\ has (view w' T (page_of (om_address m))) WRITABLE = true.
Proof.
  intros Hg Hm Hpt Hv Hfl Hcow H1 w'. assert (Hm' : m ∈ owned s ++ devices s) by (apply elem_of_app; by left).
  pose proof (unshare_flags fl Hfl Hcow) as Hufl. destruct (so_mapped _ _ (si_space _ _ _ _ (go_inv _ _ _ _ Hg)) m Hm') as (_ & Hf & _).
  assert (Hd : is_device s (page_of (om_address m)) = false).
  { apply not_true_is_false. intros (md & Hmd & E)%is_device_spec. destruct (so_devices _ _ (si_space _ _ _ _ (go_inv _ _ _ _ Hg)) md Hmd) as [_ Hnc].
    rewrite E, Hv, has_entry in Hnc; congruence || done. }
  destruct (reflag kernel_pml4 w s T m (unshare fl) pt Hg Hm' Hpt Hufl) as (R1 & R2 & R3 & R4 & R5); [done| |].
  { intros Hdv. by rewrite (proj2 (is_device_spec s _)) in Hd by (by exists m). }
  fold w' in R1, R2, R3, R4, R5. split.
  - split; [done|by apply fresh_same|]. intros pg. destruct (decide (pg = page_of (om_address m))) as [->|Hne]; [|by apply R5].
    unfold seen, page_at. rewrite Hd, R4, Z.eqb_refl, Hv. unfold flags_of. rewrite !has_entry, !flags_entry, !address_entry by (done || apply Hfl || apply Hufl).
    rewrite (lf_present _ Hfl), (lf_present _ Hufl), rights_unshare by done. constructor. intros i.
    destruct (owned_apart kernel_pml4 w s T m pt Hg Hm ltac:(by eexists _, _)). apply R3; [congruence|done].
  - rewrite R4, Z.eqb_refl, has_entry, has_W, bits_unshare by done. by bits.
Qed.

Lemma resolve_cow_spec w s T va :
  good w s T -> 0 <= va < 2 ^ 47 -> exists r s' w', resolve_cow w s va = Some (r, s', w') /\ fault_outcome w s T (page_of va) r s' w'.
Proof.
  intros Hg Hva. pose proof (go_inv _ _ _ _ Hg) as Hi. destruct (page_base va Hva) as [Hu Epg]. unfold resolve_cow.
  set (page := Z.land va _) in *. rewrite <- Epg. clear Epg Hva. clearbody page. clear va.
  destruct (leaf_slot w s page) as [pt|e] eqn:Els.
  2: { eexists _, _, _. split; [reflexivity|]. split; [done|]. split; [done|]. rewrite (fault_absent w s T page Hi Hu); [apply has_0|congruence]. }
  destruct (leaf_mapping kernel_pml4 w s T page pt Hi Hu Els) as (m & Hm & <- & Hpt).
  destruct (mapping_leaf kernel_pml4 w s T m Hi Hm) as (fl & pt' & Hv & Hfl & _ & Hf & Hpt' & Hmem & _). assert (pt' = pt) as -> by congruence. clear Hpt'.
  rewrite pt_index_eq by apply Hu. rewrite Hmem, has_entry by done.
  destruct (has fl COPY_ON_WRITE) eqn:Hcow; cbn [negb].
  2: { eexists _, _, _. split; [reflexivity|]. split; [done|]. split; [done|]. by rewrite Hv, has_entry. }
  assert (Hcv : has (view w T (page_of (om_address m))) COPY_ON_WRITE = true) by (by rewrite Hv, has_entry).
  assert (Ho : m ∈ owned s).
  { apply elem_of_app in Hm as [?|Hd]; [done|]. destruct (so_devices _ _ (si_space _ _ _ _ Hi) m Hd). congruence. }
  rewrite flags_entry, address_entry by (done || apply Hfl). change (Z.lor (Z.land fl (Z.lnot COPY_ON_WRITE)) WRITABLE) with (unshare fl).
  rewrite (refcount_owned kernel_pml4 w s T m Hg Ho). pose proof (go_refs _ _ _ _ Hg m Ho) as Hr.
  destruct (Z.leb_spec (refs w (om_frame m)) 1) as [Hle|Hgt].
  - destruct (unshare_spec w s T m fl pt Hg Ho Hpt Hv Hfl Hcow ltac:(lia)) as [? ?]. eexists _, _, _. by split; [reflexivity|].
  - destruct (alloc_frame w) as [[c|] w1] eqn:Ha.
    + destruct (copy_spec kernel_pml4 w w1 s T m fl pt c Hg Ho Hpt Hv Hfl Hcow Hgt Ha) as (w4 & -> & Hlo & Hwr & Hse).
      eexists _, _, _. split; [reflexivity|]. split; [|done]. split; [done| |done]. intros g Hlt.
      rewrite (copy_count kernel_pml4 w s T m fl c Hg Ho) in Hlt. destruct (alloc_frame_spec _ _ _ (go_wf _ _ _ _ Hg) Ha) as (_ & _ & _ & Hc).
      destruct (Z.eqb_spec c g) as [E|]; [rewrite <- E; by apply Hc|]. destruct (om_frame m =? g); lia.
    + destruct (alloc_frame_spec _ _ _ (go_wf _ _ _ _ Hg) Ha) as (Hw1 & Hr1 & Hm1 & _). eexists _, _, _. split; [reflexivity|].
      split; [done|]. split; [done|]. split; [|done]. intros g _. split; [by rewrite Hr1|intros Hl i; by apply Hm1].
Qed.

(** ** A store of the process *)

(** The processor's part of a store to a 64-bit word: the walk of the tables,
    the check of the leaf and the write; [None] is a page fault. *)
Definition user_store w (s : AddressSpace) (va value : Z) : option W :=
  match page_entry_inner w s (Z.land va (Z.lnot (PAGE_SIZE - 1))) with
  | Ok entry => if has entry USER && has entry WRITABLE then Some (write w (address entry) (va mod 4096 / 8) value) else None
  | Err _ => None
  end.

(** The same on what the process sees. *)
Definition put_word (i value : Z) (c : Z -> Z) : Z -> Z := fun j => if j =? i then value else c j.
Definition store_page (i value : Z) (p : option Page) : option Page :=
  match p with Some (Private r c) => Some (Private r (put_word i value c)) | p => p end.

Lemma store_entry w s T va value w' :
  space_inv w s T -> 0 <= va < 2 ^ 47 -> user_store w s va value = Some w' ->
  exists m fl, m ∈ owned s ++ devices s /\ page_of (om_address m) = page_of va /\ view w T (page_of va) = Z.lor (om_frame m) fl /\ leaf_flags fl /\
    has fl USER = true /\ has fl WRITABLE = true /\ w' = write w (om_frame m) (va mod 4096 / 8) value.
Proof.
  intros Hi Hva E. destruct (page_base va Hva) as [Hu Epg]. unfold user_store in E.
  rewrite (page_entry_spec kernel_pml4 w s T _ (si_tree _ _ _ _ Hi) Hu), Epg in E.
  destruct (has (view w T (page_of va)) PRESENT) eqn:Hp; [|done]. destruct (so_all _ _ (si_space _ _ _ _ Hi) _ Hp) as (m & Hm & Em).
  destruct (so_mapped _ _ (si_space _ _ _ _ Hi) m Hm) as (_ & Hf & fl & Hv & Hfl). rewrite Em in Hv.
  rewrite Hv, !has_entry, address_entry in E by (done || apply Hfl).
  destruct (has fl USER) eqn:HU, (has fl WRITABLE) eqn:HW; try discriminate E. injection E as <-. by exists m, fl.
Qed.

(** A store changes a word of memory the process has for itself. *)
Lemma store_spec w s T va value w' :
  good w s T -> 0 <= va < 2 ^ 47 -> user_store w s va value = Some w' ->
  local w s T w' s T /\ forall pg, page_eq (seen w' s T pg) (if pg =? page_of va then store_page (va mod 4096 / 8) value (seen w s T pg) else seen w s T pg).
Proof.
  intros Hg Hva E. pose proof (go_inv _ _ _ _ Hg) as Hi. pose proof Hi as [Ht Hpop Hs Hpr].
  destruct (store_entry w s T va value w' Hi Hva E) as (m & fl & Hm & Epg & Hv & Hfl & _ & HW & ->). set (i := va mod 4096 / 8).
  set (w' := write w (om_frame m) i value). destruct (so_mapped _ _ Hs m Hm) as (Hum & Hf & _).
  assert (Hwr : has (view w T (page_of (om_address m))) WRITABLE = true) by (rewrite Epg, Hv, has_entry; done).
  assert (Hown : m ∈ owned s /\ refs w (om_frame m) = 1 \/ m ∈ devices s /\ ~ managed (om_frame m)).
  { apply elem_of_app in Hm as [Hm|Hm]; [left; split; [done|by apply Hpr]|right]. split; [done|]. by apply (so_devices _ _ Hs). }
  assert (Hl : live w (om_frame m)) by (destruct Hown as [[_ ?]|[_ ?]]; [left; lia|by right]).
  assert (Hnt : ~ tables T (om_frame m)).
  { intros Hx. destruct Hown as [[Ho _]|[_ Hn]]; [by destruct (owned_apart kernel_pml4 w s T m _ Hg Ho Hx)|]. destruct Hx as (k & p & Hx). by apply Hn, (tr_frame _ _ _ _ Ht _ _ _ Hx). }
  destruct (write_correct w (om_frame m) i value (go_wf _ _ _ _ Hg) Hl) as (Hw' & Hr & Hmem). fold w' in Hw', Hr, Hmem.
  assert (Hag : agree w w' (tables T)).
  { intros g Hx. split; [apply Hr|]. intros j. rewrite Hmem. destruct (Z.eqb_spec g (om_frame m)) as [->|]; done. }
  destruct (space_kept kernel_pml4 w w' s T Hi Hag) as [K1 K2 K3 K4]; [intros ? _; by rewrite Hr|]. split.
  - split; try done; try (by left); try (intros g; rewrite Hr; lia).
    + intros g [Hx|Hx]; by apply (go_tables _ _ _ _ Hg).
    + intros g Hx _ _. destruct (decide (g = om_frame m)) as [->|Hne]; [right|left; intros j; by rewrite Hmem, (proj2 (Z.eqb_neq _ _) Hne)].
      destruct Hown as [[Ho H1]|[_ ?]]; [left; split; [by eapply count_elem|done]|by right].
  - intros pg. destruct (Z.eqb_spec pg (page_of va)) as [->|Hne].
    + unfold seen, page_at. rewrite (view_agree w w' T _ Hag), Hv. destruct (has _ PRESENT); [|constructor].
      destruct (is_device s (page_of va)); [constructor|]. constructor. intros j. rewrite address_entry by (done || apply Hfl).
      unfold put_word. by rewrite Hmem, Z.eqb_refl.
    + apply (seen_same kernel_pml4); [done|by apply view_agree|done|]. intros m' j Hm' Em'. rewrite Hmem.
      destruct (Z.eqb_spec (om_frame m') (om_frame m)) as [E'|]; [|done]. exfalso. destruct Hown as [[Ho H1]|[_ Hn]].
      * assert (Hc : 2 <= count (om_frame m) (owned s)).
        { apply list_elem_of_split in Ho as (l1 & l2 & El). rewrite El in Hm'. apply elem_mid in Hm' as [->|Hm'']; [by destruct Hne; congruence|].
          rewrite El, count_app. cbn [count]. rewrite Z.eqb_refl. pose proof (count_elem (om_frame m) _ m' Hm'' E') as Hc. rewrite count_app in Hc. lia. }
        pose proof (go_counts _ _ _ _ Hg m Ho). lia.
      * apply Hn. rewrite <- E'. apply (refs_managed w); [apply Hg|]. pose proof (go_refs _ _ _ _ Hg m' Hm'). lia.
Qed.
End Fault.
End PagingFault.
