(* ===== verification/PagingSteps.v ===== *)
(** * PagingSteps: mapping and unmapping as local changes

    A page is mapped on a frame that was just allocated, or on device memory;
    a failure leaves the space as it was. Unmapping takes the page away and,
    once its frame is freed, the reference. *)

From stdpp Require Import base numbers sets list.
From S2P Require Import Prelude Paging UserMemory PagingTree PagingOps PagingSpaces PagingCow Errno Vma.
Local Open Scope Z_scope.

Module PagingMap.
Import Paging UserMemory PagingTree PagingOps PagingDrop PagingSpaces PagingCow PagingFault.

Section Map.
Context {W : Type} {HF : Frames W} {HL : FramesLaws W} (kernel_pml4 : Z -> Z).
Implicit Types (w : W) (T : nat -> Z -> option Z).
Abbreviation tree := (tree kernel_pml4).
Abbreviation local := (local kernel_pml4).
Abbreviation space_inv := (space_inv kernel_pml4).
Abbreviation good := (good kernel_pml4).

(** ** What is mapped *)

(** Device memory, or a frame a reference was just taken to. *)
Inductive source w0 (f : Z) : bool -> W -> Prop :=
| source_device : frames_wf w0 -> ~ managed f -> is_frame f -> source w0 f true w0
| source_frame w :
    frames_wf w -> managed f -> (forall g, refs w g = if g =? f then refs w0 f + 1 else refs w0 g) ->
    (forall g i, live w0 g -> memory w g i = memory w0 g i) -> source w0 f false w.

Lemma source_wf w0 f d w : source w0 f d w -> frames_wf w.
Proof. by destruct 1. Qed.
Lemma source_is_frame w0 f d w : source w0 f d w -> is_frame f.
Proof. destruct 1; [done|by apply managed_frame]. Qed.
Lemma source_refs w0 f d w g : source w0 f d w -> refs w g = refs w0 g + (if negb d && (f =? g) then 1 else 0).
Proof.
  intros Hs. destruct Hs as [|w _ _ Hr _]; cbn [negb andb]; [lia|]. rewrite Hr, (Z.eqb_sym f g). destruct (Z.eqb_spec g f) as [->|]; lia.
Qed.
Lemma source_memory w0 f d w g i : source w0 f d w -> live w0 g -> memory w g i = memory w0 g i.
Proof. intros Hs Hl. destruct Hs as [|w _ _ _ Hm]; [done|]. by apply Hm. Qed.

Lemma source_live w0 f d w g : source w0 f d w -> frames_wf w0 -> live w0 g -> live w g.
Proof.
  intros Hs Hw [Hl|Hl]; [left|by right]. rewrite (source_refs _ _ _ _ g Hs). pose proof (refs_nonneg w0 g Hw). case_if; lia.
Qed.

Lemma source_live_f w0 f d w : source w0 f d w -> frames_wf w0 -> live w f.
Proof.
  intros Hs Hw. pose proof (source_refs _ _ _ _ f Hs) as E. pose proof (refs_nonneg w0 f Hw). rewrite Z.eqb_refl in E.
  destruct Hs; [by right|left]. cbn [negb andb] in E. lia.
Qed.

Lemma source_agree w0 f d w D : source w0 f d w -> (forall g, D g -> live w0 g) -> ~ D f -> agree w0 w D.
Proof.
  intros Hs Hl Hf g Hg. split; [|intros i; eapply source_memory; eauto]. rewrite (source_refs _ _ _ _ g Hs).
  destruct (Z.eqb_spec f g) as [->|]; [done|]. rewrite andb_false_r. lia.
Qed.

(** The space with one more page. *)
Definition with_page (s : AddressSpace) (d : bool) (m : OwnedMapping) : AddressSpace :=
  if d then mkSpace (root s) (owned s) (devices s ++ [m]) else mkSpace (root s) (owned s ++ [m]) (devices s).

Lemma with_page_elem s d m m' : m' ∈ owned (with_page s d m) ++ devices (with_page s d m) <-> m' = m \/ m' ∈ owned s ++ devices s.
Proof. destruct d; cbn; rewrite !elem_of_app, list_elem_of_singleton; tauto. Qed.

Lemma with_page_count s d m g : count g (owned (with_page s d m)) = count g (owned s) + (if negb d && (om_frame m =? g) then 1 else 0).
Proof. destruct d; cbn [with_page owned negb andb]; [lia|]. rewrite count_app. cbn [count]. lia. Qed.

Lemma with_page_root s d m : root (with_page s d m) = root s.
Proof. by destruct d. Qed.

(** ** One more page *)

Section Mapped.
Context (w0 w w' : W) (s : AddressSpace) (T : nat -> Z -> option Z) (d : bool) (va f fl : Z).
Context (Hg : good w0 s T) (Hs : source w0 f d w) (Hnt : ~ tables T f) (Hu : user_page va) (Hfl : leaf_flags fl).
Context (Hquiet : d = false -> forall m, m ∈ owned s -> om_frame m = f -> has (view w0 T (page_of (om_address m))) WRITABLE = false).
Context (Hpriv : d = false -> has fl WRITABLE = true -> refs w0 f = 0) (Hdev : d = true -> has fl COPY_ON_WRITE = false).
Let m := mkOwned va f.
Let s' := with_page s d m.
Let e := Z.lor f fl.

Lemma mapped_agree : agree w0 w (tables T).
Proof.
  eapply source_agree; [exact Hs| |done]. intros g (k & p & Hx). eapply tree_live; [|exact Hx]. apply (go_inv _ _ _ _ Hg).
Qed.

Lemma mapped_tree : tree w (root s) T /\ populated T (view w T) /\ forall pg, view w T pg = view w0 T pg.
Proof.
  pose proof (go_inv _ _ _ _ Hg) as [Ht [P0 P1] _ _]. pose proof mapped_agree as Ha.
  assert (Hv : forall pg, view w T pg = view w0 T pg) by (intros pg; by apply view_agree).
  split; [by eapply tree_agree|]. split; [|done]. split; [|done]. intros p g Hp. destruct (P0 p g Hp) as (pg & ? & ?). exists pg. by rewrite Hv.
Qed.

Lemma mapped_entry : has e PRESENT = true /\ address e = f /\ flags_of e = fl.
Proof.
  pose proof (source_is_frame _ _ _ _ Hs) as Hf. unfold e, flags_of. rewrite has_entry, address_entry, flags_entry by (done || apply Hfl).
  by rewrite (lf_present _ Hfl).
Qed.

(** A present page is one of the lists, so an absent one is on none. *)
Lemma absent_address m' : m' ∈ owned s ++ devices s -> has (view w0 T (page_of va)) PRESENT = false -> page_of (om_address m') <> page_of va.
Proof.
  intros Hm Hab E. pose proof (go_inv _ _ _ _ Hg) as [_ _ Hsp _]. destruct (so_mapped _ _ Hsp m' Hm) as (_ & Hf & fl' & Hv & Hfl').
  rewrite <- E, Hv, has_entry, (lf_present _ Hfl') in Hab; done.
Qed.

Section Ok.
Context (T' : nat -> Z -> option Z) (Hab : has (view w T (page_of va)) PRESENT = false) (Hw' : frames_wf w') (Ht' : tree w' (root s) T').
Context (Hmono : forall k p g, T k p = Some g -> T' k p = Some g) (Hnew : forall g, tables T' g -> ~ tables T g -> refs w g = 0).
Context (Hk : keeps (tables T') w w') (Hv' : forall pg, view w' T' pg = if pg =? page_of va then e else view w T pg).

Lemma mapped_absent : has (view w0 T (page_of va)) PRESENT = false.
Proof. by rewrite <- (proj2 (proj2 mapped_tree)). Qed.

Lemma mapped_view pg : view w' T' pg = if pg =? page_of va then e else view w0 T pg.
Proof. by rewrite Hv', (proj2 (proj2 mapped_tree)). Qed.

Lemma mapped_other m' : m' ∈ owned s ++ devices s -> view w' T' (page_of (om_address m')) = view w0 T (page_of (om_address m')).
Proof. intros Hm. rewrite mapped_view, (proj2 (Z.eqb_neq _ _)); [done|]. apply absent_address; [done|apply mapped_absent]. Qed.

Lemma mapped_fresh g : tables T' g -> tables T g \/ refs w0 g = 0 /\ g <> f.
Proof.
  intros (k & p & Hx). destruct (decide (T k p = Some g)) as [|Hne]; [left; by exists k, p|].
  assert (Hnt' : ~ tables T g).
  { intros (k' & p' & Hy). destruct (tr_inj _ _ _ _ Ht' _ _ _ _ _ Hx (Hmono _ _ _ Hy)) as [-> ->]. done. }
  pose proof (Hnew g ltac:(by exists k, p) Hnt') as Hz. right. rewrite (source_refs _ _ _ _ g Hs) in Hz. pose proof (refs_nonneg w0 g (go_wf _ _ _ _ Hg)).
  split; [destruct (negb d && (f =? g)); lia|]. intros ->. destruct d eqn:Ed; cbn [negb andb] in Hz; [|rewrite Z.eqb_refl in Hz; lia].
  inversion Hs as [_ Hnm _|]. apply Hnm, (tr_frame _ _ _ _ Ht' _ _ _ Hx).
Qed.

Lemma mapped_not : ~ tables T' f.
Proof. intros Hx. by destruct (mapped_fresh f Hx) as [?|[_ ?]]. Qed.

Lemma mapped_memory g i : ~ tables T g -> live w0 g -> memory w' g i = memory w0 g i.
Proof.
  intros Hx Hl. rewrite <- (source_memory _ _ _ _ g i Hs Hl). apply Hk; [|by eapply source_live; [..|exact Hl]; [|apply Hg]].
  intros Hy. destruct (mapped_fresh g Hy) as [?|[Hz _]]; [done|]. destruct Hl as [?|Hl]; [done|]. apply Hl. destruct Hy as (k & p & Hy). apply (tr_frame _ _ _ _ Ht' _ _ _ Hy).
Qed.

Lemma mapped_space : space_ok s' (view w' T').
Proof.
  pose proof (go_inv _ _ _ _ Hg) as [_ _ [Q1 Q2 Q3 Q4] _]. pose proof mapped_entry as (He & _ & _). split.
  - assert (Hp : owned s' ++ devices s' ≡ₚ m :: owned s ++ devices s) by (unfold s'; destruct d; cbn [with_page owned devices]; solve_Permutation).
    rewrite Hp. cbn [map]. apply NoDup_cons. split; [|done]. intros (m' & E & Hm)%list_elem_of_fmap. cbn in E.
    apply (absent_address m' Hm mapped_absent). by rewrite E.
  - intros m' [->|Hm]%with_page_elem.
    + split; [done|]. split; [by eapply source_is_frame|]. exists fl. split; [|done]. cbn [om_address om_frame m]. by rewrite mapped_view, Z.eqb_refl.
    + unfold mapping_ok. rewrite mapped_other by done. by apply Q2.
  - intros m' Hm. unfold s', with_page in Hm. assert (Hc : m' ∈ devices s \/ d = true /\ m' = m).
    { destruct d; cbn [devices] in Hm; [|by left]. apply elem_of_app in Hm as [?|Hm]; [by left|]. apply list_elem_of_singleton in Hm. by right. }
    destruct Hc as [Hm'|[Ed ->]]; [rewrite mapped_other by (apply elem_of_app; by right); by apply Q3|]. cbn [om_frame om_address m]. split.
    + inversion Hs; congruence.
    + rewrite mapped_view, Z.eqb_refl. unfold e. rewrite has_entry by (done || by eapply source_is_frame). by apply Hdev.
  - intros pg Hpg. rewrite mapped_view in Hpg. destruct (Z.eqb_spec pg (page_of va)) as [E|].
    + exists m. split; [apply with_page_elem; by left|done].
    + destruct (Q4 pg Hpg) as (m' & Hm & E). exists m'. split; [apply with_page_elem; by right|done].
Qed.
Lemma mapped_refs g : ~ tables T' g -> refs w' g = refs w0 g + count g (owned s') - count g (owned s).
Proof. intros Hx. rewrite (proj1 (Hk g Hx)), (source_refs _ _ _ _ g Hs). unfold s'. rewrite with_page_count. cbn [om_frame m]. lia. Qed.

Lemma mapped_private : private w' s' (view w' T').
Proof.
  pose proof (go_inv _ _ _ _ Hg) as [_ _ _ Hpr]. intros m' Hm Hwr.
  assert (Hc : m' ∈ owned s \/ d = false /\ m' = m).
  { unfold s', with_page in Hm. destruct d; cbn [owned] in Hm; [by left|]. apply elem_of_app in Hm as [?|Hm]; [by left|]. apply list_elem_of_singleton in Hm. by right. }
  destruct Hc as [Ho|[Ed ->]].
  - rewrite mapped_other in Hwr by (apply elem_of_app; by left). pose proof (Hpr m' Ho Hwr) as H1.
    assert (Hx : ~ tables T (om_frame m')) by (intros Hx; by destruct (owned_apart kernel_pml4 w0 s T m' _ Hg Ho Hx)).
    assert (Hx' : ~ tables T' (om_frame m')) by (intros Hy; destruct (mapped_fresh _ Hy) as [?|[? _]]; [done|lia]).
    rewrite (proj1 (Hk _ Hx')), (source_refs _ _ _ _ _ Hs), H1. destruct d eqn:Ed; cbn [negb andb]; [lia|].
    destruct (Z.eqb_spec f (om_frame m')) as [E|]; [|lia]. by rewrite (Hquiet eq_refl m' Ho (eq_sym E)) in Hwr.
  - cbn [om_frame om_address m] in *. rewrite mapped_view, Z.eqb_refl in Hwr. unfold e in Hwr. rewrite has_entry in Hwr by (done || by eapply source_is_frame).
    rewrite (proj1 (Hk f mapped_not)), (source_refs _ _ _ _ _ Hs), (Hpriv Ed Hwr), Ed, Z.eqb_refl. done.
Qed.

Lemma mapped_local : populated T' (view w' T') -> local w0 s T w' s' T'.
Proof.
  intros Hpop. split; try done.
  - unfold s'. apply with_page_root.
  - unfold s'. by rewrite with_page_root.
  - by apply mapped_space.
  - by apply mapped_private.
  - intros g Hx. destruct (mapped_fresh g Hx) as [?|[? _]]; [by left|by right].
  - intros g (k & p & Hx) Hn. exfalso. apply Hn. exists k, p. by apply Hmono.
  - intros g _ Hx. by apply mapped_refs.
  - intros g Hx. unfold s'. rewrite with_page_count. cbn [om_frame m].
    assert (Hc : g <> f /\ count g (owned s) = 0).
    { assert (Hold : tables T g -> g <> f /\ count g (owned s) = 0) by (intros Hy; split; [by intros ->|by apply (go_tables _ _ _ _ Hg)]).
      destruct Hx as [Hx|Hx]; [auto|]. destruct (mapped_fresh g Hx) as [?|[Hz Hne]]; [auto|]. split; [done|].
      pose proof (count_nonneg g (owned s)). destruct (Z_lt_le_dec 0 (count g (owned s))) as [Hp|]; [|lia].
      apply count_pos_elem in Hp as (m' & Hm & E). pose proof (go_refs _ _ _ _ Hg m' Hm) as H1. rewrite E in H1. lia. }
    destruct Hc as [Hne ->]. rewrite (proj2 (Z.eqb_neq f g)), andb_false_r by congruence. done.
  - intros g Hx Hl _. left. intros i. by apply mapped_memory.
Qed.

(** What the process sees of the new page. *)
Definition new_page : Page := if d then Device (rights fl) f else Private (rights fl) (memory w f).

Lemma with_page_device pg : is_device s' pg = is_device s pg || d && (page_of va =? pg).
Proof. unfold s', is_device, with_page. destruct d; cbn [devices andb]; [|by rewrite orb_false_r]. rewrite existsb_app. cbn. by rewrite orb_false_r. Qed.

Lemma absent_device : has (view w0 T (page_of va)) PRESENT = false -> is_device s (page_of va) = false.
Proof.
  intros H. apply not_true_is_false. intros (m' & Hm & E)%is_device_spec. apply (absent_address m'); [apply elem_of_app; by right|done|done].
Qed.

Lemma mapped_seen pg : page_eq (seen w' s' T' pg) (if pg =? page_of va then Some new_page else seen w0 s T pg).
Proof.
  destruct (Z.eqb_spec pg (page_of va)) as [->|Hne].
  - unfold seen, page_at, new_page. rewrite mapped_view, with_page_device, absent_device, Z.eqb_refl, andb_true_r by apply mapped_absent. cbn [orb].
    assert (Hc : forall i, memory w' f i = memory w f i) by (intros i; apply Hk; [apply mapped_not|eapply source_live_f; [exact Hs|apply Hg]]).
    destruct mapped_entry as (-> & -> & ->). clear -Hc. destruct d; by constructor.
  - apply (seen_same kernel_pml4).
    + apply (go_inv _ _ _ _ Hg).
    + by rewrite mapped_view, (proj2 (Z.eqb_neq _ _) Hne).
    + rewrite with_page_device, (proj2 (Z.eqb_neq (page_of va) pg)) by congruence. by rewrite andb_false_r, orb_false_r.
    + intros m' i Hm _. apply mapped_memory.
      * intros Hx. by destruct (owned_apart kernel_pml4 w0 s T m' _ Hg Hm Hx).
      * left. pose proof (go_refs _ _ _ _ Hg m' Hm). lia.
Qed.
End Ok.

End Mapped.

(** A failed attempt leaves the tables as they were. *)
Lemma unmapped_local w0 w' s T :
  good w0 s T -> frames_wf w' -> tree w' (root s) T -> keeps (tables T) w0 w' -> (forall pg, view w' T pg = view w0 T pg) ->
  local w0 s T w' s T /\ forall pg, page_eq (seen w' s T pg) (seen w0 s T pg).
Proof.
  intros Hg Hw' Ht' Hk Hv. pose proof (go_inv _ _ _ _ Hg) as Hi. pose proof Hi as [_ [P0 P1] [Q1 Q2 Q3 Q4] Hpr].
  assert (Hap : forall m', m' ∈ owned s -> ~ tables T (om_frame m') /\ live w0 (om_frame m')).
  { intros m' Hm. split; [intros Hx; by destruct (owned_apart kernel_pml4 w0 s T m' _ Hg Hm Hx)|left; pose proof (go_refs _ _ _ _ Hg m' Hm); lia]. }
  split.
  - split; try done; try (by left).
    + split; [|done]. intros p g Hp. destruct (P0 p g Hp) as (pg & ? & ?). exists pg. by rewrite Hv.
    + split; try done; [|setoid_rewrite Hv; done|setoid_rewrite Hv; done]. intros m' Hm. unfold mapping_ok. rewrite Hv. by apply Q2.
    + intros m' Hm. rewrite Hv. intros Hwr. rewrite (proj1 (Hk _ (proj1 (Hap m' Hm)))). by apply Hpr.
    + intros g Hx _. rewrite (proj1 (Hk g Hx)). lia.
    + intros g [Hx|Hx]; by apply (go_tables _ _ _ _ Hg).
    + intros g Hx Hl _. left. intros i. by apply Hk.
  - intros pg. apply (seen_same kernel_pml4); [done|done|done|]. intros m' i Hm _. destruct (Hap m' Hm). by apply Hk.
Qed.

(** ** One page less *)

Lemma position_spec va l : 
  match position va l with
  | Some i => exists m, l !! i = Some m /\ om_address m = va
  | None => forall m, m ∈ l -> om_address m <> va
  end.
Proof.
  induction l as [|x l IH]; cbn [position]; [intros m Hm; by apply elem_of_nil in Hm|].
  destruct (Z.eqb_spec (om_address x) va) as [E|Hne]; [by exists x|]. destruct (position va l) as [i|]; cbn [option_map]; [done|].
  intros m [->|Hm]%elem_of_cons; [done|by apply IH].
Qed.

Lemma remove_owned_spec s m own s' :
  NoDup (map om_address (owned s ++ devices s)) -> m ∈ owned s ++ devices s -> remove_owned s (om_address m) (om_frame m) = (own, s') ->
  root s' = root s /\ (own = Owned /\ m ∈ owned s /\ m :: owned s' ≡ₚ owned s /\ devices s' = devices s \/
                      own = Borrowed /\ m ∈ devices s /\ owned s' = owned s /\ m :: devices s' ≡ₚ devices s).
Proof.
  intros Hnd Hm E. assert (Huniq : forall m', m' ∈ owned s ++ devices s -> om_address m' = om_address m -> m' = m).
  { intros m' Hm' Ea. apply list_elem_of_lookup in Hm as [i Hi], Hm' as [j Hj].
    assert (i = j) as ->; [|congruence]. apply (NoDup_lookup _ i j (om_address m) Hnd); rewrite list_lookup_fmap; [by rewrite Hi|]. rewrite Hj. cbn. by rewrite Ea. }
  unfold remove_owned in E. pose proof (position_spec (om_address m) (devices s)) as Hd.
  destruct (position (om_address m) (devices s)) as [i|].
  - destruct Hd as (m' & Hi & Ea). assert (m' = m) as -> by (apply Huniq; [apply elem_of_app; right; by eapply list_elem_of_lookup_2|done]).
    injection E as <- <-. cbn [root owned devices]. split; [done|]. right. split; [done|]. split; [by eapply list_elem_of_lookup_2|]. split; [done|]. by apply swap_remove_split.
  - apply elem_of_app in Hm as [Hm|Hm]; [|by destruct (Hd m Hm)]. pose proof (position_spec (om_address m) (owned s)) as Ho.
    destruct (position (om_address m) (owned s)) as [i|]; [|by destruct (Ho m Hm)].
    destruct Ho as (m' & Hi & Ea). assert (m' = m) as -> by (apply Huniq; [apply elem_of_app; left; by eapply list_elem_of_lookup_2|done]).
    rewrite Hi, Z.eqb_refl in E. injection E as <- <-. cbn [root owned devices]. split; [done|]. left. split; [done|]. split; [done|]. split; [|done]. by apply swap_remove_split.
Qed.

Definition is_owned (own : MappingOwnership) : bool := match own with Owned => true | Borrowed => false end.

Section Unmapped.
Context (w w1 : W) (s s' : AddressSpace) (T T' : nat -> Z -> option Z) (m : OwnedMapping) (own : MappingOwnership).
Context (Hg : good w s T) (Hm : m ∈ owned s ++ devices s) (Hrem : remove_owned s (om_address m) (om_frame m) = (own, s')).
Context (Hpr : pruned kernel_pml4 w T (root s) (page_of (om_address m)) w1 T') (Hpop : populated T' (view w1 T')).

Lemma unmapped_lists : root s' = root s /\ (own = Owned /\ m ∈ owned s /\ m :: owned s' ≡ₚ owned s /\ devices s' = devices s \/
                      own = Borrowed /\ m ∈ devices s /\ owned s' = owned s /\ m :: devices s' ≡ₚ devices s).
Proof. eapply remove_owned_spec; [|exact Hm|exact Hrem]. apply (si_space _ _ _ _ (go_inv _ _ _ _ Hg)). Qed.

Lemma unmapped_perm : owned s ++ devices s ≡ₚ m :: owned s' ++ devices s'.
Proof. destruct unmapped_lists as (_ & [(_ & _ & <- & ->)|(_ & _ & -> & <-)]); solve_Permutation. Qed.

Lemma unmapped_count g : count g (owned s) = count g (owned s') + (if is_owned own && (om_frame m =? g) then 1 else 0).
Proof.
  destruct unmapped_lists as (_ & [(-> & _ & E & _)|(-> & _ & -> & _)]); [|cbn; lia]. rewrite <- (count_perm g _ _ E). cbn [count is_owned andb]. lia.
Qed.

Lemma unmapped_rest m' : m' ∈ owned s' ++ devices s' -> m' ∈ owned s ++ devices s /\ page_of (om_address m') <> page_of (om_address m).
Proof.
  intros Hm'. pose proof unmapped_perm as Hp. assert (Hin : m' ∈ owned s ++ devices s) by (rewrite Hp; apply elem_of_cons; by right).
  split; [done|]. pose proof (si_space _ _ _ _ (go_inv _ _ _ _ Hg)) as Hs. intros E.
  assert (m' = m) as -> by (by eapply same_mapping). pose proof (so_nodup _ _ Hs) as Hnd. rewrite Hp in Hnd. cbn [map] in Hnd.
  apply NoDup_cons in Hnd as [Hno _]. apply Hno. by apply (list_elem_of_fmap_2 om_address).
Qed.

Lemma unmapped_owned_rest m' : m' ∈ owned s' -> m' ∈ owned s.
Proof.
  intros Hm'. destruct unmapped_lists as (_ & [(_ & _ & <- & _)|(_ & _ & <- & _)]); [apply elem_of_cons; by right|done].
Qed.

Lemma unmapped_apart m' : m' ∈ owned s -> ~ tables T (om_frame m').
Proof. intros Ho Hx. by destruct (owned_apart kernel_pml4 w s T m' _ Hg Ho Hx). Qed.

(** Dropping the reference cannot fail. *)
Lemma drop_reference_spec : exists w2, drop_reference w1 own (om_frame m) = Some w2 /\ frames_wf w2 /\
  (forall g, ~ tables T g -> refs w2 g = refs w g + count g (owned s') - count g (owned s)) /\ (forall g, tables T g -> refs w2 g = refs w1 g) /\
  forall g i, live w2 g -> memory w2 g i = memory w1 g i.
Proof.
  pose proof Hpr as [Hw1 _ _ _ Hk _]. pose proof unmapped_count as Hc.
  destruct unmapped_lists as (_ & [(Eo & Ho & _)|(Eo & _)]); rewrite Eo in *; cbn [drop_reference].
  - pose proof (unmapped_apart m Ho) as Hna. destruct (free_frame_spec w1 (om_frame m) Hw1) as (w2 & E & Hw2 & Hr & Hmem).
    { rewrite (proj1 (Hk _ Hna)). pose proof (go_refs _ _ _ _ Hg m Ho). lia. }
    exists w2. split; [done|]. split; [done|]. split; [|split; [|done]].
    + intros g Hx. specialize (Hc g). cbn [is_owned andb] in Hc. rewrite Hr, (Z.eqb_sym g). destruct (Z.eqb_spec (om_frame m) g) as [E'|].
      * rewrite (proj1 (Hk _ Hna)). rewrite E' in *. lia.
      * rewrite (proj1 (Hk g Hx)). lia.
    + intros g Hx. rewrite Hr, (proj2 (Z.eqb_neq g (om_frame m))); [done|]. by intros ->.
  - exists w1. split; [done|]. split; [done|]. split; [|done]. intros g Hx. rewrite (proj1 (Hk g Hx)). specialize (Hc g). cbn in Hc. lia.
Qed.
Section Dropped.
Context (w2 : W) (Hw2 : frames_wf w2).
Context (Hr2 : forall g, ~ tables T g -> refs w2 g = refs w g + count g (owned s') - count g (owned s)).
Context (Ht2 : forall g, tables T g -> refs w2 g = refs w1 g) (Hm2 : forall g i, live w2 g -> memory w2 g i = memory w1 g i).

Lemma unmapped_sub g : tables T' g -> tables T g.
Proof. intros (k & p & Hx). exists k, p. by apply (pr_sub _ _ _ _ _ _ _ Hpr). Qed.

Lemma unmapped_agree : agree w1 w2 (tables T').
Proof.
  intros g Hx. assert (E : refs w2 g = refs w1 g) by (apply Ht2; by apply unmapped_sub). split; [done|]. intros i. apply Hm2. left.
  destruct Hx as (k & p & Hx). rewrite E, (proj2 (tr_frame _ _ _ _ (pr_tree _ _ _ _ _ _ _ Hpr) _ _ _ Hx)). lia.
Qed.

Lemma unmapped_view pg : view w2 T' pg = if pg =? page_of (om_address m) then 0 else view w T pg.
Proof. rewrite (view_agree w1 w2 T' pg unmapped_agree). apply Hpr. Qed.

Lemma unmapped_view_rest m' : m' ∈ owned s' ++ devices s' -> view w2 T' (page_of (om_address m')) = view w T (page_of (om_address m')).
Proof. intros Hm'. rewrite unmapped_view, (proj2 (Z.eqb_neq _ _)); [done|]. by apply unmapped_rest. Qed.

Lemma unmapped_memory g i : ~ tables T g -> live w g -> live w2 g -> memory w2 g i = memory w g i.
Proof. intros Hx Hl Hl2. rewrite Hm2 by done. by apply (pr_keeps _ _ _ _ _ _ _ Hpr). Qed.

Lemma unmapped_devices m' : m' ∈ devices s' -> m' ∈ devices s.
Proof.
  intros Hm'. destruct unmapped_lists as (_ & [(_ & _ & _ & <-)|(_ & _ & _ & <-)]); [done|apply elem_of_cons; by right].
Qed.

Lemma unmapped_space : space_ok s' (view w2 T').
Proof.
  pose proof (si_space _ _ _ _ (go_inv _ _ _ _ Hg)) as [Q1 Q2 Q3 Q4]. split.
  - rewrite unmapped_perm in Q1. cbn [map] in Q1. by apply NoDup_cons in Q1 as [_ ?].
  - intros m' Hm'. unfold mapping_ok. rewrite unmapped_view_rest by done. by apply Q2, unmapped_rest.
  - intros m' Hm'. rewrite unmapped_view_rest by (apply elem_of_app; by right). by apply Q3, unmapped_devices.
  - intros pg Hpg. rewrite unmapped_view in Hpg. destruct (Z.eqb_spec pg (page_of (om_address m))) as [E|Hne]; [by rewrite has_0 in Hpg|].
    destruct (Q4 pg Hpg) as (m' & Hm' & E). exists m'. split; [|done]. rewrite unmapped_perm in Hm'. apply elem_of_cons in Hm' as [->|?]; [done|done].
Qed.

(** The count of a page that stays is the one it had. *)
Lemma unmapped_sole m' : m' ∈ owned s' -> refs w (om_frame m') = 1 -> refs w2 (om_frame m') = 1.
Proof.
  intros Hm' H1. pose proof (unmapped_owned_rest m' Hm') as Ho. rewrite Hr2 by (by apply unmapped_apart).
  pose proof (unmapped_count (om_frame m')) as Hc. pose proof (count_elem (om_frame m') _ m' Hm' eq_refl).
  pose proof (go_counts _ _ _ _ Hg m' Ho). destruct (is_owned own && (om_frame m =? om_frame m')); lia.
Qed.

Lemma unmapped_is_local : local w s T w2 s' T'.
Proof.
  pose proof (go_inv _ _ _ _ Hg) as [_ _ _ Hp]. split; try done.
  - apply unmapped_lists.
  - rewrite (proj1 unmapped_lists). eapply tree_agree; [exact unmapped_agree|apply Hpr].
  - destruct Hpop as [P0 P1]. split; [|done]. intros p f Hp'. destruct (P0 p f Hp') as (pg & ? & ?). exists pg. by rewrite (view_agree w1 w2 T' pg unmapped_agree).
  - apply unmapped_space.
  - intros m' Hm' Hwr. rewrite unmapped_view_rest in Hwr by (apply elem_of_app; by left). apply unmapped_sole; [done|]. by apply Hp; [apply unmapped_owned_rest|].
  - intros g Hx. left. by apply unmapped_sub.
  - intros g Hx Hn. rewrite Ht2 by done. by apply (pr_freed _ _ _ _ _ _ _ Hpr).
  - intros g Hx _. by apply Hr2.
  - intros g Hx. assert (Hx' : tables T g) by (destruct Hx; [done|by apply unmapped_sub]).
    pose proof (go_tables _ _ _ _ Hg g Hx'). pose proof (unmapped_count g). pose proof (count_nonneg g (owned s')). destruct (is_owned own && (om_frame m =? g)); lia.
  - intros g Hx Hl Hl2. left. intros i. by apply unmapped_memory.
Qed.

Lemma unmapped_seen pg : page_eq (seen w2 s' T' pg) (if pg =? page_of (om_address m) then None else seen w s T pg).
Proof.
  destruct (Z.eqb_spec pg (page_of (om_address m))) as [->|Hne].
  - unfold seen, page_at. rewrite unmapped_view, Z.eqb_refl, has_0. constructor.
  - assert (Hd : is_device s' pg = is_device s pg).
    { apply eq_true_iff_eq. rewrite !is_device_spec. split; intros (m' & Hm' & E); exists m'; (split; [|done]).
      - by apply unmapped_devices.
      - destruct unmapped_lists as (_ & [(_ & _ & _ & ->)|(_ & _ & _ & Hp)]); [done|]. rewrite <- Hp in Hm'. apply elem_of_cons in Hm' as [->|?]; [congruence|done]. }
    apply (seen_same kernel_pml4); [apply (go_inv _ _ _ _ Hg)|by rewrite unmapped_view, (proj2 (Z.eqb_neq _ _) Hne)|done|].
    intros m' i Ho E. pose proof (go_refs _ _ _ _ Hg m' Ho). apply unmapped_memory; [by apply unmapped_apart|left; lia|left].
    rewrite Hr2 by (by apply unmapped_apart). assert (Hin : m' ∈ owned s').
    { destruct unmapped_lists as (_ & [(_ & _ & Hp & _)|(_ & _ & -> & _)]); [|done]. rewrite <- Hp in Ho. apply elem_of_cons in Ho as [->|?]; [congruence|done]. }
    pose proof (count_elem (om_frame m') _ m' Hin eq_refl). pose proof (go_counts _ _ _ _ Hg m' Ho). lia.
Qed.
End Dropped.
End Unmapped.

(** Unmapping, the reference included. *)
Lemma unmap_spec w s T va :
  good w s T -> user_page va ->
  if has (view w T (page_of va)) PRESENT then
    exists u s' w1 w2 T', unmap_mapping w s va = Some (Ok u, s', w1) /\ drop_reference w1 (um_ownership u) (um_frame u) = Some w2 /\
      local w s T w2 s' T' /\ fresh_only w s s' /\
      forall pg, page_eq (seen w2 s' T' pg) (if pg =? page_of va then None else seen w s T pg)
  else unmap_mapping w s va = Some (Err NotMapped, s, w).
Proof.
  intros Hg Hu. pose proof (go_inv _ _ _ _ Hg) as [Ht Hpop Hs _]. unfold unmap_mapping. rewrite (page_entry_spec kernel_pml4 w s T va Ht Hu).
  destruct (has (view w T (page_of va)) PRESENT) eqn:Hp; [|done].
  destruct (unmap_page_spec kernel_pml4 w (root s) T va (go_wf _ _ _ _ Hg) Ht Hpop Hu Hp) as (w1 & T' & -> & Hpr & Hpop').
  destruct (so_all _ _ Hs _ Hp) as (m & Hm & Epg). destruct (so_mapped _ _ Hs m Hm) as (Hum & Hf & fl & Hv & Hfl).
  pose proof (page_of_inj _ _ Hum Hu Epg) as <-. rewrite Hv, address_entry by (done || apply Hfl).
  destruct (remove_owned s (om_address m) (om_frame m)) as [own s'] eqn:Hrem.
  destruct (drop_reference_spec w w1 s s' T T' m own Hg Hm Hrem Hpr) as (w2 & E & Hw2 & Hr2 & Ht2 & Hm2).
  eexists _, s', w1, w2, T'. split; [reflexivity|]. cbn [um_ownership um_frame]. split; [done|]. split; [by eapply unmapped_is_local|].
  split; [|intros pg; by eapply unmapped_seen].
  intros g Hlt. rewrite (unmapped_count w s s' T m own Hg Hm Hrem) in Hlt. destruct (is_owned own && (om_frame m =? g)); lia.
Qed.
End Map.
End PagingMap.

(** * One space changes, the others do not

    The operations on one page of one address space among many, described by
    what its process sees before and after: every other process keeps its
    tables, its pages and their contents. *)

Module PagingSteps.
Import Paging UserMemory PagingTree PagingOps PagingDrop PagingSpaces PagingCow PagingFault PagingMap.

(** What a process sees, page by page. *)
Abbreviation Pages := (Z -> option Page).
Definition set_page (P : Pages) (pg : Z) (x : option Page) : Pages := fun p => if p =? pg then x else P p.

(** The rights a page of a region has. *)
Definition prot_rights (p : Protection) : Z := if bool_decide (p = PROT_NONE) then Z.lor PRESENT NO_EXECUTE else page_flags p.

Lemma page_flags_request p : request (page_flags p) /\ has (page_flags p) USER = true /\
  has (page_flags p) WRITABLE && is_executable (page_flags p) = false /\ Z.land (page_flags p) CACHE = 0.
Proof. unfold page_flags. destruct (execute p); [|destruct (Vma.write p)]; (split; [split; done|done]). Qed.

Lemma hidden_request : request (Z.lor PRESENT NO_EXECUTE).
Proof. by split. Qed.

Lemma request_leaf fl : request fl -> leaf_flags fl.
Proof. intros [H1 H2 H3 H4]. split; [done..|congruence]. Qed.

Lemma frame_aligned f : is_frame f -> Z.land f (PAGE_SIZE - 1) = 0.
Proof. intros E. rewrite <- E, <- Z.land_assoc. change (Z.land ADDRESS_MASK (PAGE_SIZE - 1)) with 0. apply Z.land_0_r. Qed.

Lemma validate_ok va f fl :
  user_page va -> is_frame f -> has fl USER = true -> has fl WRITABLE && is_executable fl = false -> validate_user_mapping va f fl = Ok tt.
Proof.
  intros [Hva Ha] Hf HU HX. unfold validate_user_mapping. rewrite (frame_aligned f Hf), page_offset, Ha. cbn [Z.eqb negb orb].
  destruct (Z.leb_spec (2 ^ 47) va) as [|_]; [lia|]. unfold is_user, is_writable. by rewrite HU, HX.
Qed.

Definition rights_of (p : Page) : Z := match p with Private r _ => r | PagingCow.Device r _ => r end.
Definition with_rights (r : Z) (p : Page) : Page := match p with Private _ c => Private r c | PagingCow.Device _ f => PagingCow.Device r f end.

Lemma protect_page_eq fl p : protect_page fl p = with_rights (Z.lor fl (Z.land (rights_of p) CACHE)) p.
Proof. by destruct p. Qed.

Lemma flags_extra p extra : Z.land extra CACHE = extra -> Z.land (Z.lor (page_flags p) extra) CACHE = extra.
Proof. intros E. rewrite Z.land_lor_distr_l, E. by rewrite (proj2 (proj2 (proj2 (page_flags_request p)))). Qed.

Section Steps.
Context {W : Type} {HF : Frames W} {HL : FramesLaws W} (kernel_pml4 : Z -> Z).
Implicit Types (w : W) (T : nat -> Z -> option Z).
Abbreviation local := (local kernel_pml4).
Abbreviation good := (good kernel_pml4).
Abbreviation sys_ok := (sys_ok kernel_pml4).
Abbreviation Trees := (Z -> nat -> Z -> option Z).

Section One.
Context (l1 l2 : list (Z * AddressSpace)) (id : Z) (others : Z -> Z).
Implicit Types (TT : Trees) (P : Pages).

(** The space [s] of [id] among the others, seen as [P]. *)
Record state w s TT P : Prop := mk_state {
  st_ok : sys_ok w (l1 ++ (id, s) :: l2) TT others;
  st_seen : forall pg, page_eq (seen w s (TT id) pg) (P pg)
}.

Record step w TT w' TT' : Prop := mk_step {
  sp_trees : forall i s2, (i, s2) ∈ l1 ++ l2 -> TT' i = TT i;
  sp_rest : forall i s2, (i, s2) ∈ l1 ++ l2 -> untouched w w' s2 (TT i);
  sp_root : TT' id 3%nat 0 = TT id 3%nat 0
}.

Lemma step_refl w TT : step w TT w TT.
Proof. by split. Qed.

Lemma step_trans w1 TT1 w2 TT2 w3 TT3 : step w1 TT1 w2 TT2 -> step w2 TT2 w3 TT3 -> step w1 TT1 w3 TT3.
Proof.
  intros [A1 B1 C1] [A2 B2 C2]. split; [| |congruence].
  - intros i s2 Hin. by rewrite (A2 i s2 Hin), (A1 i s2 Hin).
  - intros i s2 Hin. destruct (B1 i s2 Hin) as [X1 D1], (B2 i s2 Hin) as [X2 D2]. rewrite (A1 i s2 Hin) in X2. split.
    + intros g Hg. destruct (X1 g Hg) as [E1 F1], (X2 g Hg) as [E2 F2]. split; [congruence|]. intros j. by rewrite F2, F1.
    + intros m j Hm. by rewrite D2, D1.
Qed.

Lemma state_good w s TT P : state w s TT P -> good w s (TT id).
Proof. intros [Hok _]. eapply sys_good; [exact Hok|]. apply self_in. Qed.

Lemma state_eq w s TT P P' : (forall pg, page_eq (P pg) (P' pg)) -> state w s TT P -> state w s TT P'.
Proof. intros E [H1 H2]. split; [done|]. intros pg. by rewrite H2. Qed.

(** A local change of the space is a step. *)
Lemma quiet_step w s TT P w' s' T' P' :
  state w s TT P -> local w s (TT id) w' s' T' -> quiet w (l1 ++ (id, s) :: l2) TT s s' -> (forall pg, page_eq (seen w' s' T' pg) (P' pg)) ->
  state w' s' (set_tree TT id T') P' /\ step w TT w' (set_tree TT id T').
Proof.
  intros [Hok Hse] Hlo Hq Hse'. split.
  - split; [by eapply sys_lift|]. intros pg. by rewrite set_tree_eq.
  - split.
    + intros i s2 Hin. rewrite set_tree_ne; [done|]. by eapply (other_ne _ _ _ _ _ _ _ _ Hok).
    + intros i s2 Hin. split; [by eapply lift_agree|]. intros m j Hm. by eapply lift_contents.
    + rewrite set_tree_eq, (tr_root _ _ _ _ (lo_tree _ _ _ _ _ _ _ Hlo)), (lo_root _ _ _ _ _ _ _ Hlo). symmetry.
      apply (tr_root kernel_pml4 w (root s)), (sy_tree _ _ _ _ _ Hok), self_in.
Qed.

Lemma local_step w s TT P w' s' T' P' :
  state w s TT P -> local w s (TT id) w' s' T' -> fresh_only w s s' -> (forall pg, page_eq (seen w' s' T' pg) (P' pg)) ->
  state w' s' (set_tree TT id T') P' /\ step w TT w' (set_tree TT id T').
Proof. intros Hst Hlo Hfr. eapply quiet_step; [done|done|by apply fresh_quiet]. Qed.

Lemma still_step w s TT P w' : state w s TT P -> frames_wf w' -> keeps (fun _ => False) w w' -> state w' s TT P /\ step w TT w' TT.
Proof.
  intros [Hok Hse] Hw' Hk. destruct (sys_agree kernel_pml4 w w' _ _ _ _ Hok Hw' Hk ltac:(by intros g [])) as [Ha Hown].
  assert (Hun : forall i s2, (i, s2) ∈ l1 ++ (id, s) :: l2 -> untouched w w' s2 (TT i)).
  { intros i s2 Hin. split; [by eapply Ha|]. intros m j Hm. by eapply Hown. }
  split.
  - split; [by eapply sys_still|]. intros pg. rewrite <- Hse. eapply untouched_seen; [eapply sys_space; [exact Hok|apply self_in]|]. apply Hun, self_in.
  - split; [done| |done]. intros i s2 Hin. by apply Hun, other_in.
Qed.

(** ** Faults and stores *)

Lemma fault_step w s TT P va :
  state w s TT P -> 0 <= va < 2 ^ 47 ->
  exists r s' w' TT', resolve_cow w s va = Some (r, s', w') /\ state w' s' TT' P /\ step w TT w' TT' /\
    match r with
    | NotCow => has (view w (TT id) (page_of va)) COPY_ON_WRITE = false
    | OutOfMemory => has (view w (TT id) (page_of va)) COPY_ON_WRITE = true
    | Resolved => has (view w (TT id) (page_of va)) COPY_ON_WRITE = true /\ has (view w' (TT' id) (page_of va)) WRITABLE = true
    end.
Proof.
  intros Hst Hva. destruct (resolve_cow_spec kernel_pml4 w s (TT id) va (state_good _ _ _ _ Hst) Hva) as (r & s' & w' & E & Ho).
  destruct r; cbn [fault_outcome] in Ho.
  - destruct Ho as (-> & -> & Hc). exists NotCow, s, w, TT. split; [done|]. split; [done|]. split; [apply step_refl|done].
  - destruct Ho as ([Hlo Hfr Hse] & Hc & Hwr). destruct (local_step w s TT P w' s' (TT id) P Hst Hlo Hfr) as [H1 H2].
    { intros pg. rewrite Hse. apply Hst. }
    eexists _, _, _, _. split; [exact E|]. split; [exact H1|]. split; [exact H2|]. split; [done|]. by rewrite set_tree_eq.
  - destruct Ho as (-> & Hw' & Hk & Hc). destruct (still_step w s TT P w' Hst Hw' Hk). by exists OutOfMemory, s, w', TT.
Qed.

Lemma store_step w s TT P va value w' :
  state w s TT P -> 0 <= va < 2 ^ 47 -> user_store w s va value = Some w' ->
  exists TT', state w' s TT' (set_page P (page_of va) (store_page (va mod 4096 / 8) value (P (page_of va)))) /\ step w TT w' TT'.
Proof.
  intros Hst Hva E. destruct (store_spec kernel_pml4 w s (TT id) va value w' (state_good _ _ _ _ Hst) Hva E) as [Hlo Hse].
  eexists. eapply local_step; [exact Hst|exact Hlo|by apply fresh_same|]. intros pg. rewrite Hse. unfold set_page.
  destruct (Z.eqb_spec pg (page_of va)) as [->|]; [|apply Hst]. pose proof (st_seen _ _ _ _ Hst (page_of va)) as Hp.
  destruct Hp as [|r c c' Hc|]; cbn [store_page]; constructor. intros i. unfold put_word. by rewrite Hc.
Qed.

(** ** Unmapping *)

Lemma unmap_step w s TT P va :
  state w s TT P -> user_page va ->
  exists s' w' TT', unmap_pages w s [va] = Some (s', w') /\ state w' s' TT' (set_page P (page_of va) None) /\ step w TT w' TT'.
Proof.
  intros Hst Hu. pose proof (unmap_spec kernel_pml4 w s (TT id) va (state_good _ _ _ _ Hst) Hu) as Hun. cbn [unmap_pages].
  destruct (has (view w (TT id) (page_of va)) PRESENT) eqn:Hp.
  - destruct Hun as (u & s' & w1 & w2 & T' & -> & -> & Hlo & Hfr & Hse).
    destruct (local_step w s TT P w2 s' T' (set_page P (page_of va) None) Hst Hlo Hfr) as [H1 H2].
    { intros pg. rewrite Hse. unfold set_page. destruct (pg =? page_of va); [done|]. apply Hst. }
    by eexists _, _, _.
  - rewrite Hun. exists s, w, TT. split; [done|]. split; [|apply step_refl]. eapply state_eq; [|exact Hst]. intros pg. unfold set_page.
    destruct (Z.eqb_spec pg (page_of va)) as [->|]; [|done]. rewrite <- (st_seen _ _ _ _ Hst). unfold seen, page_at. by rewrite Hp.
Qed.

(** ** Protecting *)

Lemma set_leaf_step w s TT P va fl :
  state w s TT P -> user_page va -> request fl ->
  match P (page_of va) with
  | None => exists e, set_leaf_flags w s va fl = (Err e, w)
  | Some p => exists w' TT', set_leaf_flags w s va fl = (Ok tt, w') /\
      state w' s TT' (set_page P (page_of va) (Some (protect_page fl p))) /\ step w TT w' TT'
  end.
Proof.
  intros Hst Hu Hrq. pose proof (st_seen _ _ _ _ Hst (page_of va)) as Hse.
  destruct (set_leaf_flags w s va fl) as [r w'] eqn:E. pose proof (set_leaf_flags_spec kernel_pml4 w s (TT id) va fl r w' (state_good _ _ _ _ Hst) Hu Hrq E) as Hsp.
  destruct r as [[]|e].
  - destruct Hsp as (Hlo & _ & (p & Hp & Hp') & Hr). rewrite Hp in Hse. destruct (P (page_of va)) as [q|]; [|by inversion Hse].
    destruct (local_step w s TT P w' s (TT id) (set_page P (page_of va) (Some (protect_page fl q))) Hst Hlo) as [H1 H2]; [by apply fresh_same| |by eexists _, _].
    intros pg. unfold set_page. destruct (Z.eqb_spec pg (page_of va)) as [->|Hne]; [|rewrite Hr by done; apply Hst].
    rewrite Hp'. inversion Hse; subst; constructor; done.
  - destruct Hsp as (-> & -> & Hn). rewrite Hn in Hse. destruct (P (page_of va)); [by inversion Hse|]. by eexists.
Qed.

Lemma protect_step w s TT P va prot :
  state w s TT P -> user_page va ->
  match P (page_of va) with
  | None => exists e, protect_one w s prot va = (Err e, w)
  | Some p => exists w' TT', protect_one w s prot va = (Ok tt, w') /\
      state w' s TT' (set_page P (page_of va) (Some (protect_page (prot_rights prot) p))) /\ step w TT w' TT'
  end.
Proof.
  intros Hst Hu. unfold protect_one, prot_rights. case_bool_decide as E.
  - unfold protect_inaccessible. rewrite (validate_user va Hu). apply set_leaf_step; [done..|apply hidden_request].
  - unfold protect. destruct (page_flags_request prot) as (H1 & H2 & H3 & _). rewrite validate_ok by done. by apply set_leaf_step.
Qed.

(** ** Mapping *)

Lemma alloc_zeroed_source w f w1 : frames_wf w -> alloc_frame_zeroed w = (Some f, w1) -> 
  source w f false w1 /\ refs w f = 0 /\ forall i, memory w1 f i = 0.
Proof.
  intros Hw E. unfold alloc_frame_zeroed in E. destruct (alloc_frame w) as [[f'|] w0] eqn:Ea; [|done]. injection E as -> <-.
  destruct (alloc_frame_spec _ _ _ Hw Ea) as (Hw0 & Hr0 & Hm0 & Hf). destruct (Hf f eq_refl) as [Hma Hz].
  assert (H1 : refs w0 f = 1) by (rewrite Hr0, bool_decide_true; done).
  destruct (fill_correct w0 f (fun _ => 0) Hw0 ltac:(left; lia)) as (Hw1 & Hr1 & Hm1). split; [|split; [done|intros i; by rewrite Hm1, Z.eqb_refl]].
  constructor; [done|done| |].
  - intros g. rewrite Hr1, Hr0. destruct (Z.eqb_spec g f) as [->|]; [rewrite bool_decide_true by done; lia|]. by rewrite bool_decide_false by congruence.
  - intros g i Hl. rewrite Hm1. destruct (Z.eqb_spec g f) as [->|]; [destruct Hl; done|]. by apply Hm0.
Qed.

Lemma alloc_none w w1 : frames_wf w -> alloc_frame_zeroed w = (None, w1) -> frames_wf w1 /\ keeps (fun _ => False) w w1.
Proof.
  intros Hw E. unfold alloc_frame_zeroed in E. destruct (alloc_frame w) as [[f'|] w0] eqn:Ea; [done|]. injection E as <-.
  destruct (alloc_frame_spec _ _ _ Hw Ea) as (Hw0 & Hr0 & Hm0 & _). split; [done|]. intros g _. split; [by rewrite Hr0|]. intros Hl i. by apply Hm0.
Qed.

(** A frame that could not be mapped is given back. *)
Lemma give_back_step w w1 w2 s TT P f :
  state w s TT P -> source w f false w1 -> ~ tables (TT id) f -> frames_wf w2 -> tree kernel_pml4 w2 (root s) (TT id) -> keeps (tables (TT id)) w1 w2 ->
  (forall pg, view w2 (TT id) pg = view w1 (TT id) pg) ->
  exists w3 TT', free_frame w2 f = Some w3 /\ state w3 s TT' P /\ step w TT w3 TT'.
Proof.
  intros Hst Hsrc Hnt Hw2 Ht2 Hk Hv. pose proof (state_good _ _ _ _ Hst) as Hg. pose proof (si_tree _ _ _ _ (go_inv _ _ _ _ Hg)) as Ht.
  pose proof (refs_nonneg w f (go_wf _ _ _ _ Hg)) as Hnn.
  assert (Hr1 : forall g, refs w1 g = if g =? f then refs w f + 1 else refs w g) by (intros g; rewrite (source_refs _ _ _ _ g Hsrc), (Z.eqb_sym f g); cbn [negb andb]; destruct (Z.eqb_spec g f) as [->|]; lia).
  destruct (free_frame_spec w2 f Hw2) as (w3 & E & Hw3 & Hr3 & Hm3); [rewrite (proj1 (Hk f Hnt)), Hr1, Z.eqb_refl; lia|].
  assert (Hag : agree w2 w3 (tables (TT id))).
  { intros g Hx. assert (Hne : g <> f) by (intros ->; done). split; [by rewrite Hr3, (proj2 (Z.eqb_neq g f))|]. intros i. apply Hm3. left.
    rewrite Hr3, (proj2 (Z.eqb_neq g f)) by done. destruct Hx as (k & p & Hx). rewrite (proj2 (tr_frame _ _ _ _ Ht2 _ _ _ Hx)). lia. }
  assert (Hk3 : keeps (tables (TT id)) w w3).
  { intros g Hx. assert (Er : refs w3 g = refs w g).
    { rewrite Hr3. destruct (Z.eqb_spec g f) as [->|Hne]; [rewrite (proj1 (Hk f Hnt)), Hr1, Z.eqb_refl; lia|]. by rewrite (proj1 (Hk g Hx)), Hr1, (proj2 (Z.eqb_neq g f)). }
    split; [done|]. intros Hl i. assert (Hl3 : live w3 g) by (destruct Hl; [left; by rewrite Er|by right]). rewrite Hm3 by done.
    rewrite (proj2 (Hk g Hx)) by (by eapply source_live; [exact Hsrc|apply Hg|]). by eapply source_memory. }
  assert (Hv3 : forall pg, view w3 (TT id) pg = view w (TT id) pg).
  { intros pg. rewrite (view_agree w2 w3 _ pg Hag), Hv. apply view_agree. eapply source_agree; [exact Hsrc| |done].
    intros g (k & p & Hx). by eapply tree_live. }
  destruct (unmapped_local kernel_pml4 w w3 s (TT id) Hg Hw3 ltac:(by eapply tree_agree) Hk3 Hv3) as [Hlo Hse].
  exists w3, (set_tree TT id (TT id)). split; [done|]. eapply local_step; [exact Hst|exact Hlo|by apply fresh_same|]. intros pg. rewrite Hse. apply Hst.
Qed.

(** A failed attempt that left the tables alone. *)
Lemma failed_step w s TT P w2 :
  state w s TT P -> frames_wf w2 -> tree kernel_pml4 w2 (root s) (TT id) -> keeps (tables (TT id)) w w2 ->
  (forall pg, view w2 (TT id) pg = view w (TT id) pg) -> exists TT', state w2 s TT' P /\ step w TT w2 TT'.
Proof.
  intros Hst Hw2 Ht2 Hk2 Hv2. destruct (unmapped_local kernel_pml4 w w2 s (TT id) (state_good _ _ _ _ Hst) Hw2 Ht2 Hk2 Hv2) as [Hlo Hse].
  eexists. eapply local_step; [exact Hst|exact Hlo|by apply fresh_same|]. intros pg. rewrite Hse. apply Hst.
Qed.

(** A page on a frame (or device memory) [f] the reference of which was just
    taken. *)
Lemma map_root_step w w1 s TT P va f d fl :
  state w s TT P -> user_page va -> source w f d w1 -> ~ tables (TT id) f -> leaf_flags fl ->
  (d = false -> forall m, m ∈ owned s -> om_frame m = f -> has (view w (TT id) (page_of (om_address m))) WRITABLE = false) ->
  (d = false -> has fl WRITABLE = true -> refs w f = 0) -> (d = true -> has fl COPY_ON_WRITE = false) ->
  quiet w (l1 ++ (id, s) :: l2) TT s (with_page s d (mkOwned va f)) ->
  exists r w2, map_page_in_root w1 (root s) va f fl = Some (r, w2) /\
  match r with
  | Ok _ => exists TT', state w2 (with_page s d (mkOwned va f)) TT'
      (set_page P (page_of va) (Some (if d then PagingCow.Device (rights fl) f else Private (rights fl) (memory w1 f)))) /\ step w TT w2 TT'
  | Err _ => frames_wf w2 /\ tree kernel_pml4 w2 (root s) (TT id) /\ keeps (tables (TT id)) w1 w2 /\ forall pg, view w2 (TT id) pg = view w1 (TT id) pg
  end.
Proof.
  intros Hst Hu Hsrc Hnt Hfl Hquiet Hpriv Hdev Hq. pose proof (state_good _ _ _ _ Hst) as Hg.
  destruct (mapped_tree kernel_pml4 w w1 s (TT id) d f Hg Hsrc Hnt) as (Ht1 & Hpop1 & Hv1).
  destruct (map_page_spec kernel_pml4 w1 (root s) (TT id) va f fl) as (r & w2 & -> & Ho); try done; [by eapply source_wf|by eapply source_is_frame|by split; apply Hfl|].
  exists r, w2. split; [done|]. inversion Ho as [T' A1 A2 A3 A4 A5 A6 A7 A8|err B1 B2 B3 B4 B5]; subst; [|done].
  pose proof (mapped_local kernel_pml4 w w1 w2 s (TT id) d va f fl Hg Hsrc Hnt Hu Hfl Hquiet Hpriv Hdev T' A1 A2 A3 A4 A5 A6 A7 A8) as Hlo.
  pose proof (mapped_seen kernel_pml4 w w1 w2 s (TT id) d va f fl Hg Hsrc Hnt Hfl Hquiet Hpriv Hdev T' A1 A3 A4 A5 A6 A7) as Hse.
  eexists. eapply quiet_step; [exact Hst|exact Hlo|exact Hq|].
  intros pg. rewrite Hse. unfold set_page, new_page. destruct (pg =? page_of va); [done|]. apply Hst.
Qed.

Lemma map_at_step w w1 s TT P va f d fl :
  state w s TT P -> user_page va -> source w f d w1 -> (d = false -> refs w f = 0) ->
  request fl -> has fl USER = true -> has fl WRITABLE && is_executable fl = false ->
  exists r w2, map_at w1 s va f fl = Some (r, w2) /\
  match r with
  | Ok _ => exists TT', state w2 (with_page s d (mkOwned va f)) TT' (set_page P (page_of va) (Some (if d then PagingCow.Device fl f else Private fl (memory w1 f)))) /\ step w TT w2 TT'
  | Err _ => frames_wf w2 /\ tree kernel_pml4 w2 (root s) (TT id) /\ keeps (tables (TT id)) w1 w2 /\ forall pg, view w2 (TT id) pg = view w1 (TT id) pg
  end.
Proof.
  intros Hst Hu Hsrc Hz Hrq HU HX. pose proof (state_good _ _ _ _ Hst) as Hg. pose proof (si_tree _ _ _ _ (go_inv _ _ _ _ Hg)) as Ht.
  assert (Hnt : ~ tables (TT id) f).
  { intros (k & p & Hf). destruct (tr_frame _ _ _ _ Ht _ _ _ Hf) as [Hma H1]. destruct d; [by inversion Hsrc|]. specialize (Hz eq_refl). lia. }
  unfold map_at. rewrite validate_ok by (done || by eapply source_is_frame).
  pose proof (map_root_step w w1 s TT P va f d fl Hst Hu Hsrc Hnt (request_leaf fl Hrq)) as Hmap. rewrite rights_request in Hmap by apply Hrq. apply Hmap.
  - intros Ed m Hm E. pose proof (go_refs _ _ _ _ Hg m Hm) as H1. rewrite E, (Hz Ed) in H1. lia.
  - auto.
  - intros _. apply Hrq.
  - apply fresh_quiet. intros g Hlt. rewrite with_page_count in Hlt. cbn [om_frame] in Hlt. destruct d; cbn [negb andb] in Hlt; [lia|].
    destruct (Z.eqb_spec f g) as [E|]; [rewrite <- E; auto|lia].
Qed.

Lemma hide_step w s TT P va prot p extra :
  state w s TT P -> user_page va -> P (page_of va) = Some p -> rights_of p = Z.lor (page_flags prot) extra -> Z.land extra CACHE = extra ->
  exists w' TT', hide w s prot va = (Ok tt, w') /\
    state w' s TT' (set_page P (page_of va) (Some (with_rights (Z.lor (prot_rights prot) extra) p))) /\ step w TT w' TT'.
Proof.
  intros Hst Hu Hp Hr Hx. unfold hide, prot_rights. case_bool_decide as E.
  - unfold protect_inaccessible. rewrite (validate_user va Hu). pose proof (set_leaf_step w s TT P va _ Hst Hu hidden_request) as Hs. rewrite Hp in Hs.
    destruct Hs as (w' & TT' & -> & Hst' & Hsp). rewrite protect_page_eq, Hr, flags_extra in Hst' by done. by exists w', TT'.
  - exists w, TT. split; [done|]. split; [|apply step_refl]. eapply state_eq; [|exact Hst]. intros pg. unfold set_page.
    destruct (Z.eqb_spec pg (page_of va)) as [->|]; [|done]. rewrite Hp, <- Hr. by destruct p.
Qed.

Lemma set_page_twice P pg x y : forall p, page_eq (set_page (set_page P pg x) pg y p) (set_page P pg y p).
Proof. intros p. unfold set_page. by destruct (p =? pg). Qed.
Lemma set_page_same P pg x : set_page P pg x pg = x.
Proof. unfold set_page. by rewrite Z.eqb_refl. Qed.

(** A page of [map_span]: a cleared page of the process's own, or nothing. *)
Lemma map_zeroed_step reserve w s TT P va prot :
  state w s TT P -> user_page va -> P (page_of va) = None ->
  exists r s' w' TT', map_zeroed reserve w s va prot = Some (r, s', w') /\ step w TT w' TT' /\
    match r with
    | Ok _ => state w' s' TT' (set_page P (page_of va) (Some (Private (prot_rights prot) (fun _ => 0))))
    | Err e => e = ENOMEM /\ state w' s' TT' P
    end.
Proof.
  intros Hst Hu Hn. pose proof (go_wf _ _ _ _ (state_good _ _ _ _ Hst)) as Hw. unfold map_zeroed.
  destruct (alloc_frame_zeroed w) as [[f|] w1] eqn:Ea.
  2: { destruct (alloc_none w w1 Hw Ea) as [Hw1 Hk]. destruct (still_step w s TT P w1 Hst Hw1 Hk). eexists _, _, _, _. by split; [reflexivity|]. }
  destruct (alloc_zeroed_source w f w1 Hw Ea) as (Hsrc & Hz & Hm0). pose proof (state_good _ _ _ _ Hst) as Hg. pose proof (si_tree _ _ _ _ (go_inv _ _ _ _ Hg)) as Ht.
  assert (Hnt : ~ tables (TT id) f) by (intros (k & p & Hf); pose proof (proj2 (tr_frame _ _ _ _ Ht _ _ _ Hf)); lia). unfold map_owned. destruct reserve; cbn [negb].
  - destruct (page_flags_request prot) as (H1 & H2 & H3 & H4).
    destruct (map_at_step w w1 s TT P va f false (page_flags prot) Hst Hu Hsrc) as (r & w2 & -> & Hr); [done..|]. destruct r as [[]|e].
    + destruct Hr as (TT2 & Hst2 & Hsp2). cbn [with_page] in Hst2.
      destruct (hide_step w2 _ TT2 _ va prot (Private (page_flags prot) (memory w1 f)) 0 Hst2 Hu) as (w3 & TT3 & -> & Hst3 & Hsp3);
        [apply set_page_same|by rewrite Z.lor_0_r|done|].
      eexists _, _, _, TT3. split; [reflexivity|]. split; [by eapply step_trans|]. eapply state_eq; [|exact Hst3]. intros pg. rewrite set_page_twice.
      unfold set_page. destruct (pg =? page_of va); [|done]. cbn [with_rights]. rewrite Z.lor_0_r. by constructor.
    + destruct Hr as (Hw2 & Ht2 & Hk2 & Hv2). destruct (give_back_step w w1 w2 s TT P f Hst Hsrc Hnt Hw2 Ht2 Hk2 Hv2) as (w3 & TT' & -> & Hst3 & Hsp3).
      eexists _, _, _, TT'. by split; [reflexivity|].
  - destruct (mapped_tree kernel_pml4 w w1 s (TT id) false f Hg Hsrc Hnt) as (Ht1 & _ & _).
    destruct (give_back_step w w1 w1 s TT P f Hst Hsrc Hnt ltac:(by eapply source_wf) Ht1) as (w3 & TT' & -> & Hst3 & Hsp3); [apply keeps_refl|done|].
    eexists _, _, _, TT'. by split; [reflexivity|].
Qed.

(** A page of [mmap_device]. *)
Lemma map_device_step reserve w s TT P va f prot :
  state w s TT P -> user_page va -> P (page_of va) = None -> is_frame f -> ~ managed f ->
  exists r s' w' TT', map_device reserve w s va f (with_cache (page_flags prot) true false) = Some (r, s', w') /\ step w TT w' TT' /\
    match r with
    | Ok _ => exists w2 TT2, hide w' s' prot va = (Ok tt, w2) /\ step w' TT' w2 TT2 /\
        state w2 s' TT2 (set_page P (page_of va) (Some (PagingCow.Device (Z.lor (prot_rights prot) PWT) f)))
    | Err _ => state w' s' TT' P
    end.
Proof.
  intros Hst Hu Hn Hf Hnm. pose proof (state_good _ _ _ _ Hst) as Hg. unfold map_device. destruct reserve; cbn [negb].
  2: { eexists _, _, _, TT. split; [reflexivity|]. split; [apply step_refl|done]. }
  assert (Ef : with_cache (page_flags prot) true false = Z.lor (page_flags prot) PWT) by apply Z.lor_0_r. rewrite Ef.
  assert (Hfl : request (Z.lor (page_flags prot) PWT) /\ has (Z.lor (page_flags prot) PWT) USER = true /\
    has (Z.lor (page_flags prot) PWT) WRITABLE && is_executable (Z.lor (page_flags prot) PWT) = false).
  { unfold page_flags. destruct (execute prot); [|destruct (Vma.write prot)]; (split; [split; vm_compute; done|vm_compute; done]). }
  destruct Hfl as (H1 & H2 & H3). assert (Hsrc : source w f true w) by (constructor; [apply Hg|done|done]).
  destruct (map_at_step w w s TT P va f true _ Hst Hu Hsrc ltac:(done) H1 H2 H3) as (r & w2 & -> & Hr). destruct r as [[]|e].
  - destruct Hr as (TT2 & Hst2 & Hsp2). cbn [with_page] in Hst2. eexists _, _, _, TT2. split; [reflexivity|]. split; [done|].
    destruct (hide_step w2 _ TT2 _ va prot _ PWT Hst2 Hu (set_page_same _ _ _)) as (w3 & TT3 & -> & Hst3 & Hsp3); [done|done|].
    exists w3, TT3. split; [done|]. split; [done|]. eapply state_eq; [|exact Hst3]. intros pg. rewrite set_page_twice. done.
  - destruct Hr as (Hw2 & Ht2 & Hk2 & Hv2). destruct (failed_step w s TT P w2 Hst Hw2 Ht2 Hk2 Hv2) as (TT' & ? & ?).
    eexists _, _, _, TT'. by split; [reflexivity|].
Qed.
End One.
End Steps.
End PagingSteps.

(** * Spans of pages

    The loops of [mm/user_memory.rs] over the pages of a span: unmapping one
    cannot fail, mapping one gives every page or takes back what it did, and
    protecting one changes every page. *)

Module UserSpans.
Import Paging UserMemory PagingTree PagingSpaces PagingCow PagingMap PagingSteps.

(** ** The pages of a span *)

Record span_ok (s e : Z) : Prop := mk_span_ok { sn_start : (4096 | s); sn_end : (4096 | e); sn_low : 0 <= s <= e; sn_high : e <= 2 ^ 47 }.
Definition in_span (s e pg : Z) : bool := (page_of s <=? pg) && (pg <? page_of e).

Lemma page_of_mul n : page_of (n * 4096) = n.
Proof. unfold page_of. by rewrite Z.div_mul. Qed.

Lemma pages_count a n : pages (a * 4096) (a * 4096 + 4096 * Z.of_nat n) = map (fun i => a * 4096 + 4096 * Z.of_nat i) (seq 0 n).
Proof.
  unfold pages. change PAGE_SIZE with 4096. replace (a * 4096 + 4096 * Z.of_nat n - a * 4096 + 4096 - 1) with (Z.of_nat n * 4096 + 4095) by lia.
  rewrite Z.div_add_l by lia. change (4095 / 4096) with 0. replace (Z.to_nat (Z.of_nat n + 0)) with n by lia. done.
Qed.

(** The pages from the [k]-th on, [j] of them. *)
Definition run_from (a : Z) (k j : nat) : list Z := map (fun i => a * 4096 + 4096 * Z.of_nat i) (seq k j).

Lemma run_from_S a k j : run_from a k (S j) = (a + Z.of_nat k) * 4096 :: run_from a (S k) j.
Proof. unfold run_from. cbn [seq map]. f_equal. lia. Qed.

Lemma span_run s e : span_ok s e -> exists a n, s = a * 4096 /\ e = a * 4096 + 4096 * Z.of_nat n /\ pages s e = run_from a 0 n /\
  0 <= a /\ a + Z.of_nat n <= PAGES /\ forall pg, in_span s e pg = (a <=? pg) && (pg <? a + Z.of_nat n).
Proof.
  intros [[a ->] [b ->] [H1 H2] H3]. exists a, (Z.to_nat (b - a)). assert (E : b * 4096 = a * 4096 + 4096 * Z.of_nat (Z.to_nat (b - a))) by lia.
  split; [done|]. split; [done|]. split; [rewrite E; apply pages_count|]. unfold PAGES. split; [lia|]. split; [lia|].
  intros pg. unfold in_span. rewrite !page_of_mul. do 2 f_equal. lia.
Qed.

Lemma run_page a k n : 0 <= a -> a + Z.of_nat n <= PAGES -> (k < n)%nat -> user_page ((a + Z.of_nat k) * 4096).
Proof. intros H1 H2 H3. unfold PAGES in H2. split; [lia|]. by rewrite Z.mod_mul. Qed.

Lemma below_S a k pg : (a <=? pg) && (pg <? a + Z.of_nat (S k)) = (pg =? a + Z.of_nat k) || (a <=? pg) && (pg <? a + Z.of_nat k).
Proof. apply eq_true_iff_eq. rewrite orb_true_iff, !andb_true_iff, !Z.leb_le, !Z.ltb_lt, Z.eqb_eq. lia. Qed.

(** Decide comparisons by cases. *)
Ltac zcases := repeat match goal with
  | |- context [?a <=? ?b] => destruct (Z.leb_spec a b)
  | |- context [?a <? ?b] => destruct (Z.ltb_spec a b)
  | |- context [?a =? ?b] => destruct (Z.eqb_spec a b)
  end; cbn [andb orb negb]; try done; try (exfalso; lia).

Section Spans.
Context {W : Type} {HF : Frames W} {HL : FramesLaws W} (kernel_pml4 : Z -> Z).
Context (l1 l2 : list (Z * AddressSpace)) (id : Z) (others : Z -> Z).
Implicit Types (w : W) (P : Z -> option Page) (TT : Z -> nat -> Z -> option Z).
Abbreviation state := (state kernel_pml4 l1 l2 id others).
Abbreviation step := (step l1 l2 id).

(** ** Unmapping *)

Lemma unmap_pages_cons w s va l :
  unmap_pages w s (va :: l) = match unmap_pages w s [va] with Some (s, w) => unmap_pages w s l | None => None end.
Proof.
  cbn [unmap_pages]. destruct (unmap_mapping w s va) as [[[[u|e] s1] w1]|]; [|done|done]. by destruct (drop_reference _ _ _).
Qed.

Lemma unmap_run a n j : forall k w s TT P,
  0 <= a -> a + Z.of_nat n <= PAGES -> (k + j = n)%nat -> state w s TT P ->
  exists s' w' TT', unmap_pages w s (run_from a k j) = Some (s', w') /\ step w TT w' TT' /\
    state w' s' TT' (fun pg => if (a + Z.of_nat k <=? pg) && (pg <? a + Z.of_nat n) then None else P pg).
Proof.
  induction j as [|j IH]; intros k w s TT P H1 H2 Hn Hst.
  - exists s, w, TT. split; [done|]. split; [apply step_refl|]. eapply state_eq; [|exact Hst]. intros pg. cbn beta.
    zcases.
  - rewrite run_from_S, unmap_pages_cons. pose proof (run_page a k n H1 H2 ltac:(lia)) as Hu.
    destruct (unmap_step kernel_pml4 l1 l2 id others w s TT P _ Hst Hu) as (s1 & w1 & TT1 & -> & Hst1 & Hsp1).
    destruct (IH (S k) w1 s1 TT1 _ H1 H2 ltac:(lia) Hst1) as (s2 & w2 & TT2 & -> & Hsp2 & Hst2). exists s2, w2, TT2. split; [done|].
    split; [by eapply step_trans|]. eapply state_eq; [|exact Hst2]. intros pg. cbn beta. rewrite page_of_mul. unfold set_page.
    zcases.
Qed.

Lemma unmap_span_step w s TT P span :
  state w s TT P -> span_ok (span_start span) (span_end span) ->
  exists s' w' TT', unmap_span w s span = Some (s', w') /\ step w TT w' TT' /\
    state w' s' TT' (fun pg => if in_span (span_start span) (span_end span) pg then None else P pg).
Proof.
  intros Hst Hs. destruct (span_run _ _ Hs) as (a & n & E1 & E2 & E3 & H1 & H2 & Hin). unfold unmap_span. rewrite E3.
  destruct (unmap_run a n n 0 w s TT P H1 H2 eq_refl Hst) as (s' & w' & TT' & -> & Hsp & Hst'). exists s', w', TT'. split; [done|]. split; [done|].
  eapply state_eq; [|exact Hst']. intros pg. cbn beta. rewrite Hin. by replace (a + Z.of_nat 0) with a by lia.
Qed.

(** ** Mapping *)

(** [P] with the pages [a, a + k) replaced. *)
Definition over (a k : Z) (f : Z -> option Page) P : Z -> option Page := fun pg => if (a <=? pg) && (pg <? a + k) then f pg else P pg.

Lemma over_0 a f P pg : over a 0 f P pg = P pg.
Proof. unfold over. zcases. Qed.

Lemma over_S a (k : nat) f P pg : set_page (over a (Z.of_nat k) f P) (a + Z.of_nat k) (f (a + Z.of_nat k)) pg = over a (Z.of_nat (S k)) f P pg.
Proof. unfold set_page, over. destruct (Z.eqb_spec pg (a + Z.of_nat k)) as [->|]; zcases. Qed.

Lemma over_undo a k f P pg : (forall p, a <= p < a + k -> P p = None) ->
  (if (a <=? pg) && (pg <? a + k) then None else over a k f P pg) = P pg.
Proof. intros Hn. unfold over. zcases. rewrite Hn by lia. done. Qed.

Definition zero_page (prot : Protection) : Z -> option Page := fun _ => Some (Private (prot_rights prot) (fun _ => 0)).

Lemma map_run reserve a n prot P j : forall k w s TT,
  0 <= a -> a + Z.of_nat n <= PAGES -> (k + j = n)%nat -> (forall pg, a <= pg < a + Z.of_nat n -> P pg = None) ->
  state w s TT (over a (Z.of_nat k) (zero_page prot) P) ->
  exists r s' w' TT', map_pages reserve w s (mkSpan (a * 4096) (a * 4096 + 4096 * Z.of_nat n) prot) (run_from a k j) = Some (r, s', w') /\
    step w TT w' TT' /\
    match r with Ok _ => state w' s' TT' (over a (Z.of_nat n) (zero_page prot) P) | Err e => e = ENOMEM /\ state w' s' TT' P end.
Proof.
  induction j as [|j IH]; intros k w s TT H1 H2 Hn HP Hst.
  - replace n with k by lia. exists (Ok tt), s, w, TT. split; [done|]. split; [apply step_refl|done].
  - rewrite run_from_S. cbn [map_pages span_start span_prot]. pose proof (run_page a k n H1 H2 ltac:(lia)) as Hu.
    assert (Hno : over a (Z.of_nat k) (zero_page prot) P (page_of ((a + Z.of_nat k) * 4096)) = None).
    { rewrite page_of_mul. unfold over. zcases. apply HP. lia. }
    destruct (map_zeroed_step kernel_pml4 l1 l2 id others (reserve ((a + Z.of_nat k) * 4096)) w s TT _ _ prot Hst Hu Hno)
      as (r & s1 & w1 & TT1 & -> & Hsp1 & Hr). destruct r as [[]|e].
    + rewrite page_of_mul in Hr. destruct (IH (S k) w1 s1 TT1 H1 H2 ltac:(lia) HP) as (r & s2 & w2 & TT2 & -> & Hsp2 & Hst2).
      { eapply state_eq; [|exact Hr]. intros pg. by rewrite <- (over_S a k (zero_page prot) P pg). }
      exists r, s2, w2, TT2. split; [done|]. split; [by eapply step_trans|done].
    + destruct Hr as [-> Hst1].
      assert (Hsn : span_ok (a * 4096) ((a + Z.of_nat k) * 4096 + PAGE_SIZE)).
      { unfold PAGES in H2. change PAGE_SIZE with 4096. split; [by exists a|exists (a + Z.of_nat k + 1); lia|lia|lia]. }
      destruct (unmap_span_step w1 s1 TT1 _ (mkSpan (a * 4096) ((a + Z.of_nat k) * 4096 + PAGE_SIZE) prot) Hst1 Hsn) as (s2 & w2 & TT2 & -> & Hsp2 & Hst2).
      exists (Err ENOMEM), s2, w2, TT2. split; [done|]. split; [by eapply step_trans|]. split; [done|]. eapply state_eq; [|exact Hst2].
      intros pg. cbn beta. cbn [span_start span_end]. unfold in_span, over. change PAGE_SIZE with 4096.
      replace ((a + Z.of_nat k) * 4096 + 4096) with ((a + Z.of_nat k + 1) * 4096) by lia. rewrite !page_of_mul. zcases; rewrite HP by lia; done.
Qed.

Lemma map_span_step reserve w s TT P span :
  state w s TT P -> span_ok (span_start span) (span_end span) ->
  (forall pg, in_span (span_start span) (span_end span) pg = true -> P pg = None) ->
  exists r s' w' TT', map_span reserve w s span = Some (r, s', w') /\ step w TT w' TT' /\
    match r with
    | Ok _ => state w' s' TT' (fun pg => if in_span (span_start span) (span_end span) pg then zero_page (span_prot span) pg else P pg)
    | Err e => e = ENOMEM /\ state w' s' TT' P
    end.
Proof.
  destruct span as [ss se prot]. cbn [span_start span_end span_prot]. intros Hst Hs HP.
  destruct (span_run _ _ Hs) as (a & n & -> & -> & E3 & H1 & H2 & Hin). unfold map_span. cbn [span_start span_end]. rewrite E3.
  destruct (map_run reserve a n prot P n 0 w s TT H1 H2 eq_refl) as (r & s' & w' & TT' & -> & Hsp & Hst').
  { intros pg Hpg. apply HP. rewrite Hin. zcases. }
  { eapply state_eq; [|exact Hst]. intros pg. by rewrite over_0. }
  exists r, s', w', TT'. split; [done|]. split; [done|]. destruct r; [|done]. eapply state_eq; [|exact Hst']. intros pg. unfold over. by rewrite Hin.
Qed.

(** ** Devices *)

Definition device_page (prot : Protection) (a f : Z) : Z -> option Page :=
  fun pg => Some (PagingCow.Device (Z.lor (prot_rights prot) PWT) (f + (pg - a) * 4096)).

Lemma map_device_run reserve a n prot f P j : forall k w s TT,
  0 <= a -> a + Z.of_nat n <= PAGES -> (k + j = n)%nat -> (forall pg, a <= pg < a + Z.of_nat n -> P pg = None) ->
  (forall i, 0 <= i < Z.of_nat n -> is_frame (f + i * 4096) /\ ~ managed (f + i * 4096)) ->
  state w s TT (over a (Z.of_nat k) (device_page prot a f) P) ->
  exists r m s' w' TT', map_device_pages reserve w s prot (a * 4096) f ((a + Z.of_nat k) * 4096) (run_from a k j) = Some (r, m, s', w') /\
    step w TT w' TT' /\
    match r with
    | Ok _ => state w' s' TT' (over a (Z.of_nat n) (device_page prot a f) P)
    | Err e => e = ENOMEM /\ exists i : nat, (i <= n)%nat /\ m = (a + Z.of_nat i) * 4096 /\ state w' s' TT' (over a (Z.of_nat i) (device_page prot a f) P)
    end.
Proof.
  induction j as [|j IH]; intros k w s TT H1 H2 Hn HP Hf Hst.
  - replace n with k by lia. eexists (Ok tt), _, s, w, TT. split; [done|]. split; [apply step_refl|done].
  - rewrite run_from_S. cbn [map_device_pages]. pose proof (run_page a k n H1 H2 ltac:(lia)) as Hu.
    assert (Hno : over a (Z.of_nat k) (device_page prot a f) P (page_of ((a + Z.of_nat k) * 4096)) = None).
    { rewrite page_of_mul. unfold over. zcases. apply HP. lia. }
    replace (f + ((a + Z.of_nat k) * 4096 - a * 4096)) with (f + Z.of_nat k * 4096) by lia.
    destruct (Hf (Z.of_nat k) ltac:(lia)) as [Hfr Hnm].
    destruct (map_device_step kernel_pml4 l1 l2 id others (reserve ((a + Z.of_nat k) * 4096)) w s TT _ _ _ prot Hst Hu Hno Hfr Hnm)
      as (r & s1 & w1 & TT1 & -> & Hsp1 & Hr). destruct r as [[]|e].
    + destruct Hr as (w2 & TT2 & -> & Hsp2 & Hst2). rewrite page_of_mul in Hst2.
      replace ((a + Z.of_nat k) * 4096 + PAGE_SIZE) with ((a + Z.of_nat (S k)) * 4096) by (change PAGE_SIZE with 4096; lia).
      destruct (IH (S k) w2 s1 TT2 H1 H2 ltac:(lia) HP Hf) as (r & m & s3 & w3 & TT3 & -> & Hsp3 & Hst3).
      { eapply state_eq; [|exact Hst2]. intros pg. rewrite <- (over_S a k (device_page prot a f) P pg). unfold device_page at 3.
        replace (a + Z.of_nat k - a) with (Z.of_nat k) by lia. done. }
      eexists r, m, s3, w3, TT3. split; [done|]. split; [eapply step_trans; [exact Hsp1|by eapply step_trans]|done].
    + eexists (Err ENOMEM), _, s1, w1, TT1. split; [done|]. split; [done|]. split; [done|]. exists k. split; [lia|]. done.
Qed.

(** ** Protecting *)

Definition protected (prot : Protection) P : Z -> option Page := fun pg => protect_page (prot_rights prot) <$> P pg.

Lemma prot_rights_cache prot : Z.land (prot_rights prot) CACHE = 0.
Proof. unfold prot_rights. case_bool_decide; [done|]. by destruct (page_flags_request prot) as (_ & _ & _ & ?). Qed.

Lemma protected_twice prot P pg : protected prot (protected prot P) pg = protected prot P pg.
Proof.
  unfold protected. destruct (P pg) as [p|]; [|done]. cbn. f_equal.
  assert (E : forall r, Z.land (Z.lor (prot_rights prot) (Z.land r CACHE)) CACHE = Z.land r CACHE).
  { intros r. rewrite Z.land_lor_distr_l, prot_rights_cache, <- Z.land_assoc. done. }
  destruct p; cbn [protect_page]; by rewrite E.
Qed.

(** Protecting page by page stops at a page that is not there; the pages
    before it are protected already. *)
Definition stopped (inside : Z -> bool) (prot : Protection) (P P' : Z -> option Page) : Prop :=
  (exists hole, inside hole = true /\ P hole = None) /\ forall pg, P' pg = P pg \/ inside pg = true /\ P' pg = protected prot P pg.

Lemma stopped_mono (inside inside' : Z -> bool) prot P P' :
  (forall pg, inside pg = true -> inside' pg = true) -> stopped inside prot P P' -> stopped inside' prot P P'.
Proof. intros Hi [(hole & H1 & H2) H3]. split; [exists hole; auto|]. intros pg. destruct (H3 pg) as [?|[? ?]]; [by left|right; auto]. Qed.

Lemma protect_run a n prot P j : forall k w s TT,
  0 <= a -> a + Z.of_nat n <= PAGES -> (k + j = n)%nat ->
  state w s TT (over a (Z.of_nat k) (protected prot P) P) ->
  exists r w' TT', protect_pages w s prot (run_from a k j) = (r, w') /\ step w TT w' TT' /\
    match r with
    | Ok _ => state w' s TT' (over a (Z.of_nat n) (protected prot P) P) /\ forall pg, a + Z.of_nat k <= pg < a + Z.of_nat n -> P pg <> None
    | Err _ => exists i, 0 <= i < Z.of_nat n /\ P (a + i) = None /\ state w' s TT' (over a i (protected prot P) P)
    end.
Proof.
  induction j as [|j IH]; intros k w s TT H1 H2 Hn Hst.
  - replace n with k by lia. exists (Ok tt), w, TT. split; [done|]. split; [apply step_refl|]. split; [done|]. lia.
  - rewrite run_from_S. cbn [protect_pages]. pose proof (run_page a k n H1 H2 ltac:(lia)) as Hu.
    pose proof (protect_step kernel_pml4 l1 l2 id others w s TT _ _ prot Hst Hu) as Hp. rewrite page_of_mul in Hp.
    assert (Ho : over a (Z.of_nat k) (protected prot P) P (a + Z.of_nat k) = P (a + Z.of_nat k)) by (unfold over; zcases).
    rewrite Ho in Hp. destruct (P (a + Z.of_nat k)) as [p|] eqn:Ep.
    + destruct Hp as (w1 & TT1 & -> & Hst1 & Hsp1). destruct (IH (S k) w1 s TT1 H1 H2 ltac:(lia)) as (r & w2 & TT2 & -> & Hsp2 & Hst2).
      { eapply state_eq; [|exact Hst1]. intros pg. rewrite <- (over_S a k (protected prot P) P pg). replace (protected prot P (a + Z.of_nat k)) with (Some (protect_page (prot_rights prot) p)) by (unfold protected; by rewrite Ep). done. }
      exists r, w2, TT2. split; [done|]. split; [by eapply step_trans|]. destruct r as [[]|e]; [|done]. destruct Hst2 as [Hst2 HP]. split; [done|].
      intros pg Hpg. destruct (Z.eq_dec pg (a + Z.of_nat k)) as [->|]; [congruence|]. apply HP. lia.
    + destruct Hp as (e & ->). exists (Err ENOMEM), w, TT. split; [done|]. split; [apply step_refl|]. exists (Z.of_nat k). split; [lia|]. done.
Qed.

Lemma protect_span_step w s TT P span :
  state w s TT P -> span_ok (span_start span) (span_end span) ->
  exists r w' TT' P', protect_span w s span = (r, w') /\ step w TT w' TT' /\ state w' s TT' P' /\
    let inside := in_span (span_start span) (span_end span) in
    match r with
    | Ok _ => (forall pg, inside pg = true -> P pg <> None) /\ forall pg, P' pg = if inside pg then protected (span_prot span) P pg else P pg
    | Err _ => stopped inside (span_prot span) P P'
    end.
Proof.
  destruct span as [ss se prot]. cbn [span_start span_end span_prot]. intros Hst Hs.
  destruct (span_run _ _ Hs) as (a & n & -> & -> & E3 & H1 & H2 & Hin). unfold protect_span. cbn [span_start span_end span_prot]. rewrite E3.
  destruct (protect_run a n prot P n 0 w s TT H1 H2 eq_refl) as (r & w' & TT' & -> & Hsp & Hst').
  { eapply state_eq; [|exact Hst]. intros pg. by rewrite over_0. }
  destruct r as [[]|e]; [destruct Hst' as [Hst' HP]|destruct Hst' as (i & Hi & Ei & Hst')]; eexists _, w', TT', _; (split; [reflexivity|]); (split; [done|]); (split; [exact Hst'|]).
  - split.
    + intros pg Hpg. apply HP. rewrite Hin in Hpg. apply andb_true_iff in Hpg as [?%Z.leb_le ?%Z.ltb_lt]. lia.
    + intros pg. unfold over. by rewrite Hin.
  - split; [exists (a + i); split; [rewrite Hin; zcases|done]|]. intros pg. unfold over. rewrite Hin.
    destruct ((a <=? pg) && (pg <? a + i)) eqn:E; [|by left]. right. split; [|done]. zcases.
Qed.

(** ** Lists of spans *)

Definition in_any (l : list Span) (pg : Z) : bool := existsb (fun x => in_span (span_start x) (span_end x) pg) l.
Definition spans_ok (l : list Span) : Prop := forall x, x ∈ l -> span_ok (span_start x) (span_end x).

Lemma unmap_spans_step l : forall w s TT P,
  state w s TT P -> spans_ok l ->
  exists s' w' TT', unmap_spans w s l = Some (s', w') /\ step w TT w' TT' /\ state w' s' TT' (fun pg => if in_any l pg then None else P pg).
Proof.
  induction l as [|x l IH]; intros w s TT P Hst Hok.
  - exists s, w, TT. split; [done|]. split; [apply step_refl|done].
  - cbn [unmap_spans]. destruct (unmap_span_step w s TT P x Hst) as (s1 & w1 & TT1 & -> & Hsp1 & Hst1); [apply Hok, list_elem_of_here|].
    destruct (IH w1 s1 TT1 _ Hst1) as (s2 & w2 & TT2 & -> & Hsp2 & Hst2); [intros y Hy; apply Hok; apply elem_of_cons; by right|].
    exists s2, w2, TT2. split; [done|]. split; [by eapply step_trans|]. eapply state_eq; [|exact Hst2]. intros pg. cbn beta. unfold in_any. cbn [existsb].
    by destruct (existsb _ l), (in_span _ _ pg).
Qed.

Lemma protect_spans_step prot l : forall w s TT P,
  state w s TT P -> spans_ok l -> (forall x, x ∈ l -> span_prot x = prot) ->
  exists r w' TT' P', protect_spans w s l = (r, w') /\ step w TT w' TT' /\ state w' s TT' P' /\
    match r with
    | Ok _ => (forall pg, in_any l pg = true -> P pg <> None) /\ forall pg, P' pg = if in_any l pg then protected prot P pg else P pg
    | Err _ => stopped (in_any l) prot P P'
    end.
Proof.
  induction l as [|x l IH]; intros w s TT P Hst Hok Hpr.
  - exists (Ok tt), w, TT, P. split; [done|]. split; [apply step_refl|]. done.
  - cbn [protect_spans]. destruct (protect_span_step w s TT P x Hst) as (r & w1 & TT1 & P1 & -> & Hsp1 & Hst1 & Hr); [apply Hok, list_elem_of_here|].
    rewrite (Hpr x ltac:(apply list_elem_of_here)) in Hr. cbv zeta in Hr. destruct r as [[]|e].
    2: { exists (Err e), w1, TT1, P1. split; [done|]. split; [done|]. split; [done|]. eapply stopped_mono; [|exact Hr]. intros pg E. unfold in_any. cbn [existsb]. by rewrite E. }
    destruct Hr as [HP HP1]. destruct (IH w1 s TT1 P1 Hst1) as (r & w2 & TT2 & P2 & -> & Hsp2 & Hst2 & Hr);
      [intros y Hy; apply Hok; apply elem_of_cons; by right|intros y Hy; apply Hpr; apply elem_of_cons; by right|].
    exists r, w2, TT2, P2. split; [done|]. split; [by eapply step_trans|]. split; [done|].
    assert (Hnone : forall pg, P1 pg = None <-> P pg = None) by (intros pg; rewrite HP1; unfold protected; destruct (in_span _ _ pg), (P pg); done).
    assert (Htw : forall pg, in_span (span_start x) (span_end x) pg = true -> protected prot P1 pg = protected prot P pg).
    { intros pg Ex. rewrite <- (protected_twice prot P pg). unfold protected at 1 2. by rewrite HP1, Ex. }
    assert (Hou : forall pg, in_span (span_start x) (span_end x) pg = false -> protected prot P1 pg = protected prot P pg) by (intros pg Ex; unfold protected; by rewrite HP1, Ex).
    destruct r as [[]|e].
    + destruct Hr as [HQ HQ1]. unfold in_any in *. cbn [existsb]. split.
      * intros pg [E|E]%orb_true_iff; [by apply HP|]. intros E2. by apply (HQ pg E), Hnone.
      * intros pg. rewrite HQ1. destruct (in_span _ _ pg) eqn:Ex; cbn [orb]; [rewrite Htw, HP1, Ex by done; by destruct (existsb _ l)|]. rewrite Hou by done. by rewrite HP1, Ex.
    + destruct Hr as [(hole & E1 & E2) HQ]. unfold in_any in *. cbn [existsb]. split; [exists hole; rewrite E1, orb_true_r; split; [done|by apply Hnone]|].
      intros pg. destruct (in_span _ _ pg) eqn:Ex; cbn [orb].
      * right. split; [done|]. destruct (HQ pg) as [->|[_ ->]]; [by rewrite HP1, Ex|by apply Htw].
      * destruct (HQ pg) as [->|[E ->]]; [left; by rewrite HP1, Ex|right; split; [done|by apply Hou]].
Qed.
End Spans.
End UserSpans.
