(* ===== verification/UserMemorySpec.v ===== *)
(** * UserMemorySpec: the page tables follow the memory map

    After every memory call of a process, whether it succeeds or not, its
    pages agree with its memory map: a page is present only in a region, on
    memory of its own or on the device page behind it, and only the heap can
    lack pages. The agreement is exact, with every page there and the region's
    protection on it, as long as [brk] is called on a heap in one piece. *)

From stdpp Require Import base numbers sets list.
From S2P Require Import Prelude Errno Vma VmaSpec Paging UserMemory PagingTree PagingSpaces PagingCow PagingSteps.
Local Open Scope Z_scope.

Module UserMemorySpec.
Import Paging UserMemory PagingTree PagingSpaces PagingCow PagingMap PagingSteps UserSpans.
Abbreviation vview := VmaSpec.view.

(** ** Spans of a map *)

Definition aligned_span (sp : Span) : Prop := (4096 | span_start sp) /\ (4096 | span_end sp) /\ span_start sp < span_end sp.

Lemma remove_aligned lo m s e sp :
  ok_from lo (regions m) -> (4096 | s) -> (4096 | e) -> sp ∈ (Vma.remove m s e).1 -> s < e -> aligned_span sp.
Proof.
  intros Hok Hs He Hsp Hse. unfold Vma.remove in Hsp. cbn [fst] in Hsp. revert lo Hok Hsp.
  induction (regions m) as [|r l IH]; intros lo; cbn; [intros _ H; by apply elem_of_nil in H|].
  intros (E1 & E2 & E3 & E4 & Hok) [Hsp|Hsp]%elem_of_app; [|by eapply IH]. unfold cut in Hsp.
  destruct ((fin r <=? s) || (e <=? start r)) eqn:Hc; cbn [snd] in Hsp; [by apply elem_of_nil in Hsp|]. apply orb_false_iff in Hc as [? ?].
  apply list_elem_of_singleton in Hsp as ->. unfold aligned_span. cbn [span_start span_end].
  split; [destruct (Z.max_spec (start r) s) as [[_ ->]|[_ ->]]; done|]. split; [destruct (Z.min_spec (fin r) e) as [[_ ->]|[_ ->]]; done|]. lia.
Qed.

Lemma insert_Ok m r m' : Vma.insert m r = (Ok tt, m') -> (4096 | start r) /\ (4096 | fin r) /\ start r < fin r.
Proof.
  unfold Vma.insert. destruct ((start r >=? fin r) || negb (aligned (start r)) || negb (aligned (fin r))) eqn:E; [done|]. intros _.
  apply orb_false_iff in E as [E E3]. apply orb_false_iff in E as [E1 E2]. apply negb_false_iff, aligned_iff in E2, E3. split; [done|]. split; [done|]. lia.
Qed.

Lemma reinsert_aligned kinds : forall m s e prot spans m',
  reinsert m s e prot kinds = (Ok spans, m') -> forall sp, sp ∈ spans -> aligned_span sp /\ span_prot sp = prot.
Proof.
  induction kinds as [|r kinds IH]; intros m s e prot spans m'; cbn [reinsert]; [intros [= <- <-] sp Hsp; by apply elem_of_nil in Hsp|].
  destruct (Vma.insert _ _) as [[[]|err] m1] eqn:Ei; [|done]. destruct (reinsert m1 s e prot kinds) as [[sps|err] m2] eqn:Er; [|done].
  intros [= <- <-] sp [->|Hsp]%elem_of_cons; [|by eapply IH]. split; [|done]. by apply insert_Ok in Ei.
Qed.

Lemma mprotect_aligned m s length prot spans m' :
  mprotect m s length prot = (Ok spans, m') -> forall sp, sp ∈ spans -> aligned_span sp /\ span_prot sp = prot.
Proof.
  unfold mprotect. intros E sp Hsp. repeat (case_match; simplify_eq); try (by apply elem_of_nil in Hsp). by eapply reinsert_aligned.
Qed.

Lemma munmap_aligned m s length spans m' :
  map_wf m -> is_u64 length -> munmap m s length = (Ok spans, m') -> forall sp, sp ∈ spans -> aligned_span sp.
Proof.
  intros Hwf Hlen. unfold munmap. destruct (aligned s) eqn:Ha; cbn [negb orb]; [|done]. case_if; [done|].
  destruct (page_up length) as [len|] eqn:Hp; [|done]. destruct (checked_add s len) as [e|] eqn:He; [|done].
  destruct (Vma.remove m s e) as [sps m1] eqn:Er. intros [= <- <-] sp Hsp. apply checked_add_Some in He as [-> _]. apply aligned_iff in Ha.
  destruct (page_up_Some _ _ Hp) as (Hd & Hb & _). assert (Hin : sp ∈ (Vma.remove m s (s + len)).1) by (by rewrite Er).
  unfold is_u64 in Hlen. apply (remove_aligned 0 m s (s + len) sp (wf_regions _ Hwf) Ha (Z.divide_add_r _ _ _ Ha Hd) Hin). lia.
Qed.

Lemma place_aligned m hint length prot fixed k c m' :
  map_wf m -> is_u64 length -> place m hint length prot fixed k = (Ok c, m') -> forall sp, sp ∈ replaced c -> aligned_span sp.
Proof.
  intros Hwf Hlen. unfold place. case_if; [done|]. destruct (page_up length) as [len|] eqn:Hp; [|done].
  destruct (page_up_Some _ _ Hp) as (Hd & Hb & _). unfold is_u64 in Hlen.
  assert (Hfin : forall a spans m1, (let span := mkSpan a (a + len) prot in
    match Vma.insert m1 (mkRegion a (a + len) prot k) with (Ok _, m) => (Ok (mkMmap a spans span), m) | (Err e, m) => (Err e, m) end) = (Ok c, m') -> replaced c = spans).
  { intros a spans m1. cbv zeta. destruct (Vma.insert _ _) as [[?|?] ?]; [|done]. by intros [= <- <-]. }
  destruct fixed; cbn [andb].
  - destruct (aligned hint) eqn:Ha; cbn [negb]; [|done]. destruct (usable_at m len hint); cbn [negb]; [|done]. apply aligned_iff in Ha.
    destruct (Vma.remove m hint (hint + len)) as [spans m1] eqn:Er. intros E sp Hsp. apply Hfin in E. rewrite E in Hsp.
    apply (remove_aligned 0 m hint (hint + len) sp (wf_regions _ Hwf) Ha (Z.divide_add_r _ _ _ Ha Hd)); [by rewrite Er|lia].
  - intros E sp Hsp. assert (Hnil : replaced c = []).
    { destruct (_ && _); [by apply Hfin in E|]. destruct (find_free m len); [by apply Hfin in E|done]. }
    rewrite Hnil in Hsp. by apply elem_of_nil in Hsp.
Qed.

(** ** Agreement *)

(** What the map says of a page and what the process sees of it. A page that
    is there belongs to a region of its kind, a device page to the device's
    memory at that place, and only a page of the heap can be missing. When the
    agreement is [exact], every page of a region is there and with the
    region's protection; [munmap] or [mprotect] of part of the heap followed
    by [brk] leave it without ([VmaSpec.brk_after_munmap]). *)
Definition matches (exact : bool) (a : option (Protection * RegionKind)) (p : option Page) : Prop :=
  match a, p with
  | None, None => True
  | Some (_, Heap), None => exact = false
  | Some (prot, Vma.Device f), Some (PagingCow.Device r f') => f' = f /\ (exact = true -> r = Z.lor (prot_rights prot) PWT)
  | Some (prot, Vma.Device _), Some (Private _ _) => False
  | Some (prot, _), Some (Private r _) => exact = true -> r = prot_rights prot
  | _, _ => False
  end.

Record agreed {exact : bool} (m : MemoryMap) (P : Z -> option Page) : Prop := mk_agreed {
  ag_wf : map_wf m;
  ag_top : mmap_top m <= 2 ^ 47;
  ag_fits : forall x, vview m x <> None -> 0 <= x < 2 ^ 47;
  ag_heap : forall e x p, page_up (brk m) = Some e -> vview m x = Some (p, Heap) -> brk_start m <= x < e;
  ag_break : forall e, page_up (brk m) = Some e -> brk_start m < e -> e <= 2 ^ 47;
  ag_pages : forall pg, 0 <= pg < PAGES -> matches exact (vview m (pg * 4096)) (P pg)
}.
#[global] Arguments agreed exact m P : clear implicits.

Lemma matches_eq exact a p q : page_eq p q -> matches exact a p -> matches exact a q.
Proof. intros E. destruct E; [done| |done]. by destruct a as [[? []]|]. Qed.

Lemma agreed_eq exact m P Q : (forall pg, page_eq (P pg) (Q pg)) -> agreed exact m P -> agreed exact m Q.
Proof. intros E [H1 H2 H3 H4 H5 H6]. split; [done..|]. intros pg Hpg. eapply matches_eq; [apply E|by apply H6]. Qed.

Lemma matches_None exact a p : matches exact a p -> a = None -> p = None.
Proof. intros H ->. by destruct p. Qed.

Lemma matches_present a p : matches true a p -> a <> None -> p <> None.
Proof. by destruct a as [[? []]|], p. Qed.

(** A page of the heap is on memory of the process's own. *)
Lemma matches_heap exact prot p : matches exact (Some (prot, Heap)) p -> forall prot', matches false (Some (prot', Heap)) p.
Proof. by destruct p as [[]|]. Qed.

Lemma matches_loose exact a p : matches exact a p -> matches false a p.
Proof. destruct exact; [|done]. destruct a as [[prot []]|], p as [[]|]; cbn; try done. by intros [-> _]. Qed.

Lemma agreed_exact exact m P : agreed true m P -> agreed exact m P.
Proof. destruct exact; [done|]. intros [H1 H2 H3 H4 H5 H6]. split; [done..|]. intros pg Hpg. by eapply matches_loose, H6. Qed.

Lemma matches_protect exact prot a p : matches exact a p -> matches exact ((fun x => (prot, x.2)) <$> a) (protect_page (prot_rights prot) <$> p).
Proof.
  assert (E : forall p0, Z.lor (prot_rights prot) (Z.land (prot_rights p0) CACHE) = prot_rights prot) by (intros p0; by rewrite prot_rights_cache, Z.lor_0_r).
  assert (E' : forall p0, Z.lor (prot_rights prot) (Z.land (Z.lor (prot_rights p0) PWT) CACHE) = Z.lor (prot_rights prot) PWT).
  { intros p0. rewrite Z.land_lor_distr_l, prot_rights_cache. done. }
  destruct a as [[p0 k]|], p as [[r c|r f]|]; cbn; try done; destruct k; cbn; try done; try (intros Hr Hx; rewrite (Hr Hx); apply E).
  intros [-> Hr]. split; [done|]. intros Hx. rewrite (Hr Hx). apply E'.
Qed.

(** Protecting pages does not change whose they are. *)
Lemma matches_protected a p r : matches false a p -> matches false a (protect_page r <$> p).
Proof. destruct a as [[prot []]|], p as [[]|]; cbn; try done. by intros [-> _]. Qed.

Lemma in_span_iff s e pg : (4096 | s) -> (4096 | e) -> in_span s e pg = in_range s e (pg * 4096).
Proof.
  intros [a ->] [b ->]. unfold in_span, in_range. rewrite !page_of_mul. f_equal; apply eq_true_iff_eq; rewrite ?Z.leb_le, ?Z.ltb_lt; lia.
Qed.

Lemma fit_span exact m P sp : agreed exact m P -> aligned_span sp -> (forall x, span_start sp <= x < span_end sp -> vview m x <> None) -> span_ok (span_start sp) (span_end sp).
Proof.
  intros Ha (H1 & H2 & H3) Hin. pose proof (ag_fits _ _ Ha _ (Hin (span_start sp) ltac:(lia))). pose proof (ag_fits _ _ Ha _ (Hin (span_end sp - 1) ltac:(lia))).
  split; [done|done|lia|lia].
Qed.

Lemma in_any_spans l pg : (forall sp, sp ∈ l -> aligned_span sp) -> in_any l pg = true <-> exists p, in_spans l (pg * 4096) p.
Proof.
  intros Hal. unfold in_any. rewrite existsb_true_exists. unfold in_spans. split.
  - intros (sp & Hsp & E). destruct (Hal sp Hsp) as (H1 & H2 & _). rewrite in_span_iff in E by done. apply in_range_iff in E. by exists (span_prot sp), sp.
  - intros (p & sp & Hsp & Hr & _). exists sp. split; [done|]. destruct (Hal sp Hsp) as (H1 & H2 & _). rewrite in_span_iff by done. by apply in_range_iff.
Qed.

Section Calls.
Context {W : Type} {HF : Frames W} {HL : FramesLaws W} (kernel_pml4 : Z -> Z).
Context (l1 l2 : list (Z * AddressSpace)) (id : Z) (others : Z -> Z) {exact : bool}.
Implicit Types (w : W) (P : Z -> option Page) (TT : Z -> nat -> Z -> option Z).
Abbreviation state := (state kernel_pml4 l1 l2 id others).
Abbreviation step := (step l1 l2 id).
Abbreviation agreed := (agreed exact).

(** What a call leaves: the process's pages follow its map, and nobody else's
    changed. *)
Definition served w TT (o : OwnedSpace) w' (Q : (Z -> option Page) -> Prop) : Prop :=
  exists TT' P', step w TT w' TT' /\ state w' (os_space o) TT' P' /\ agreed (os_map o) P' /\ Q P'.

(** The spans a removal reports are the mapped part of its range. *)
Lemma unmap_range_step w s TT P m spans s0 e0 :
  state w s TT P -> agreed m P -> (forall sp, sp ∈ spans -> aligned_span sp) -> (4096 | s0) -> (4096 | e0) ->
  (forall x p, in_spans spans x p <-> s0 <= x < e0 /\ exists k, vview m x = Some (p, k)) ->
  exists s' w' TT' P', unmap_spans w s spans = Some (s', w') /\ step w TT w' TT' /\ state w' s' TT' P' /\
    forall pg, 0 <= pg < PAGES -> P' pg = if in_range s0 e0 (pg * 4096) then None else P pg.
Proof.
  intros Hst Ha Hal Hs0 He0 Hin. destruct (unmap_spans_step kernel_pml4 l1 l2 id others spans w s TT P Hst) as (s' & w' & TT' & E & Hsp & Hst').
  { intros sp Hsp. apply (fit_span exact m P sp Ha (Hal sp Hsp)). intros x Hx. destruct (proj1 (Hin x (span_prot sp))) as (_ & k & E); [by exists sp|congruence]. }
  eexists s', w', TT', _. split; [done|]. split; [done|]. split; [exact Hst'|]. intros pg Hpg. cbn beta.
  pose proof (in_any_spans spans pg Hal) as Hany. destruct (in_range s0 e0 (pg * 4096)) eqn:Er.
  - apply in_range_iff in Er. pose proof (ag_pages _ _ Ha pg Hpg) as Hm. destruct (vview m (pg * 4096)) as [[p k]|] eqn:Ev.
    + rewrite (proj2 Hany); [done|]. exists p. apply Hin. split; [done|by exists k].
    + rewrite (matches_None _ _ _ Hm) by done. by destruct (in_any spans pg).
  - destruct (in_any spans pg); [|done]. destruct (proj1 Hany eq_refl) as (p & [Hx _]%Hin). apply in_range_iff in Hx. congruence.
Qed.

Lemma removed_agreed m P P' m' s0 e0 :
  agreed m P -> map_wf m' -> mmap_top m' = mmap_top m -> brk m' = brk m -> brk_start m' = brk_start m -> (forall x, vview m' x = if in_range s0 e0 x then None else vview m x) ->
  (forall pg, 0 <= pg < PAGES -> P' pg = if in_range s0 e0 (pg * 4096) then None else P pg) -> agreed m' P'.
Proof.
  intros [H1 H2 H3 H4 H5 H6] Hwf Htop Hb Hbs Hv HP. split; [done|lia| | |by rewrite Hb, Hbs|].
  - intros x. rewrite Hv. destruct (in_range s0 e0 x); [done|]. apply H3.
  - intros e x p. rewrite Hv, Hb, Hbs. destruct (in_range s0 e0 x); [done|]. apply H4.
  - intros pg Hpg. rewrite Hv, HP by done. destruct (in_range s0 e0 (pg * 4096)); [done|]. by apply H6.
Qed.

Lemma munmap_in_spec w o TT P s0 length :
  state w (os_space o) TT P -> agreed (os_map o) P -> is_u64 s0 -> is_u64 length ->
  exists r o' w', munmap_in w o s0 length = Some (r, o', w') /\
    served w TT o' w' (fun P' => forall pg, 0 <= pg < PAGES -> page_eq (P' pg)
      (match r with Ok _ => if in_range s0 (s0 + next_multiple_of length 4096) (pg * 4096) then None else P pg | Err _ => P pg end)).
Proof.
  intros Hst Ha Hs0 Hlen. unfold munmap_in. pose proof (munmap_spec (os_map o) s0 length (ag_wf _ _ Ha) Hs0 Hlen) as Hsp.
  pose proof (munmap_aligned (os_map o) s0 length) as Hal. destruct (munmap (os_map o) s0 length) as [[spans|e] m'] eqn:Em.
  - destruct Hsp as (e & Hp & Hd & _ & Hwf & Hm' & Hv & Hin). specialize (Hal spans m' (ag_wf _ _ Ha) Hlen eq_refl).
    assert (Ee : e = s0 + next_multiple_of length 4096) by (apply checked_next_multiple_of_Some in Hp as [? _]; unfold Vma.PAGE_SIZE in *; lia).
    assert (He : (4096 | e)) by (rewrite Ee; apply Z.divide_add_r; [done|apply next_multiple_of_divide]).
    destruct (unmap_range_step w (os_space o) TT P (os_map o) spans s0 e Hst Ha Hal Hd He Hin) as (s' & w' & TT' & P' & -> & Hst1 & Hst2 & HP).
    eexists _, _, _. split; [reflexivity|]. exists TT', P'. split; [done|]. split; [done|]. cbn [os_map].
    split; [eapply removed_agreed; [exact Ha|done|by rewrite Hm'..|exact Hv|exact HP]|]. intros pg Hpg. rewrite HP, Ee by done. done.
  - destruct Hsp as [_ ->]. eexists _, _, _. split; [reflexivity|]. exists TT, P. split; [apply step_refl|]. destruct o. done.
Qed.

(** ** [mmap] *)

(** The replaced pages are unmapped; the new range is then free. *)
Record vacated w TT P (o : OwnedSpace) (c : MmapChange) (len : Z) s' w' TT' P' : Prop := mk_vacated {
  va_step : step w TT w' TT';
  va_state : state w' s' TT' P';
  va_pages : forall pg, 0 <= pg < PAGES -> P' pg = if in_range (Vma.address c) (Vma.address c + len) (pg * 4096) then None else P pg;
  va_span : span_ok (Vma.address c) (Vma.address c + len);
  va_failed : agreed (Vma.remove (os_map o) (Vma.address c) (Vma.address c + len)).2 P'
}.

Lemma vacate w o TT P hint length prot fixed k c m' (len := next_multiple_of length 4096) :
  state w (os_space o) TT P -> agreed (os_map o) P -> is_u64 hint -> is_u64 length ->
  place (os_map o) hint length prot fixed k = (Ok c, m') ->
  exists s' w' TT' P', unmap_spans w (os_space o) (replaced c) = Some (s', w') /\ vacated w TT P o c len s' w' TT' P' /\
    placed (os_map o) len prot k c m' /\ (fixed = false -> forall pg, in_range (Vma.address c) (Vma.address c + len) (pg * 4096) = true -> vview (os_map o) (pg * 4096) = None).
Proof.
  intros Hst Ha Hh Hl E. pose proof (place_spec (os_map o) hint length prot fixed k (ag_wf _ _ Ha) Hh Hl) as Hp. rewrite E in Hp.
  destruct Hp as (len' & Hlen & Hpos & Hpl & _ & Hfree). destruct (page_up_Some _ _ Hlen) as (Hd & Hb & _).
  assert (El : len = len') by (apply checked_next_multiple_of_Some in Hlen as [-> _]; done). clearbody len. subst len'.
  pose proof (pl_align _ _ _ _ _ _ Hpl) as Hal. pose proof (pl_low _ _ _ _ _ _ Hpl) as Hlow. pose proof (pl_high _ _ _ _ _ _ Hpl) as Hhigh.
  pose proof (ag_top _ _ Ha) as Htop. unfold MIN_ADDRESS in Hlow. assert (Hde : (4096 | Vma.address c + len)) by (by apply Z.divide_add_r).
  pose proof (place_aligned (os_map o) hint length prot fixed k c m' (ag_wf _ _ Ha) Hl E) as Hsp.
  destruct (unmap_range_step w (os_space o) TT P (os_map o) (replaced c) _ _ Hst Ha Hsp Hal Hde (pl_replaced _ _ _ _ _ _ Hpl)) as (s' & w' & TT' & P' & Eu & H1 & H2 & HP).
  exists s', w', TT', P'. split; [done|]. split; [|split; [done|]].
  - split; [done|done|done|split; [done|done|lia|lia]|].
    pose proof (remove_spec (os_map o) (Vma.address c) (Vma.address c + len) 0 (wf_regions _ (ag_wf _ _ Ha)) ltac:(lia) Hal Hde) as Hr.
    destruct (Vma.remove (os_map o) (Vma.address c) (Vma.address c + len)) as [sps m1]. destruct Hr as (R1 & R2 & R3 & _). cbn [snd].
    eapply removed_agreed; [exact Ha|rewrite R1; by apply with_regions_wf; [apply Ha|]|by rewrite R1..|exact R3|exact HP].
  - intros Ef pg Hpg. apply in_range_iff in Hpg. by apply Hfree.
Qed.

Lemma placed_agreed (m m' : MemoryMap) len prot k c P P' :
  agreed m P -> placed m len prot k c m' -> 0 <= len ->
  k <> Heap -> (forall pg, 0 <= pg < PAGES -> matches exact (if in_range (Vma.address c) (Vma.address c + len) (pg * 4096)
     then Some (prot, match k with Vma.Device f => Vma.Device (f + (pg * 4096 - Vma.address c)) | _ => k end) else vview m (pg * 4096)) (P' pg)) -> agreed m' P'.
Proof.
  intros Ha Hpl Hlen Hk Hm. pose proof (pl_same _ _ _ _ _ _ Hpl) as Hs. split.
  - apply Hpl.
  - rewrite Hs. apply Ha.
  - intros x. rewrite (pl_view _ _ _ _ _ _ Hpl). destruct (in_range _ _ x) eqn:Er; [intros _|apply Ha]. apply in_range_iff in Er.
    pose proof (pl_low _ _ _ _ _ _ Hpl) as Hlow. pose proof (pl_high _ _ _ _ _ _ Hpl). pose proof (ag_top _ _ Ha). unfold MIN_ADDRESS in Hlow. lia.
  - intros e x p. rewrite (pl_view _ _ _ _ _ _ Hpl), Hs. cbn [brk brk_start with_regions]. destruct (in_range _ _ x); [intros _ [= _ E]; by destruct k|apply (ag_heap _ _ Ha)].
  - rewrite Hs. apply (ag_break _ _ Ha).
  - intros pg Hpg. rewrite (pl_view _ _ _ _ _ _ Hpl). by apply Hm.
Qed.

(** The outcome of [mmap] and [mmap_device]: new pages exactly in the range
    returned, the length rounded up to pages, or nothing new (a failed fixed mapping may leave a hole). *)
Definition mapped_outcome P (length : Z) (fixed : bool) (new : Z -> Z -> option Page) (r : result Errno Z) (P' : Z -> option Page) : Prop :=
  match r with
  | Ok a => forall pg, 0 <= pg < PAGES -> page_eq (P' pg) (if in_range a (a + next_multiple_of length 4096) (pg * 4096) then new a pg else P pg)
  | Err _ => forall pg, 0 <= pg < PAGES -> page_eq (P' pg) (P pg) \/ fixed = true /\ P' pg = None
  end.

Lemma refused w TT P o length fixed new e : state w (os_space o) TT P -> agreed (os_map o) P -> served w TT o w (mapped_outcome P length fixed new (Err e)).
Proof. intros Hst Ha. exists TT, P. split; [apply step_refl|]. split; [done|]. split; [done|]. intros pg _. by left. Qed.

Lemma hole w TT P o c len s1 w1 TT1 P1 s2 w2 TT2 length fixed new e :
  agreed (os_map o) P -> vacated w TT P o c len s1 w1 TT1 P1 -> step w1 TT1 w2 TT2 -> state w2 s2 TT2 P1 ->
  (fixed = false -> forall pg, in_range (Vma.address c) (Vma.address c + len) (pg * 4096) = true -> vview (os_map o) (pg * 4096) = None) ->
  served w TT (mkOwnedSpace s2 (Vma.remove (os_map o) (Vma.address c) (Vma.address c + len)).2) w2 (mapped_outcome P length fixed new (Err e)).
Proof.
  intros Ha [V1 V2 V3 V4 V5] S1 S2 Hfree. exists TT2, P1. split; [by eapply step_trans|]. split; [exact S2|]. split; [exact V5|]. intros pg Hx.
  rewrite V3 by done. destruct (in_range _ _ (pg * 4096)) eqn:Ein; [|by left]. destruct fixed; [by right|left].
  by rewrite (matches_None _ _ _ (ag_pages _ _ Ha pg Hx) (Hfree eq_refl pg Ein)).
Qed.

Lemma mmap_in_spec reserve w o TT P hint length prot fixed :
  state w (os_space o) TT P -> agreed (os_map o) P -> is_u64 hint -> is_u64 length ->
  exists r o' w', mmap_in reserve w o hint length prot fixed = Some (r, o', w') /\
    served w TT o' w' (mapped_outcome P length fixed (fun _ => zero_page prot) r).
Proof.
  intros Hst Ha Hh Hl. unfold mmap_in. destruct (mmap (os_map o) hint length prot fixed) as [[c|e] m'] eqn:Em.
  2: { pose proof (place_spec (os_map o) hint length prot fixed Anonymous (ag_wf _ _ Ha) Hh Hl) as Hp. unfold mmap in Em. rewrite Em in Hp. destruct Hp as [-> _].
       eexists _, _, _. split; [reflexivity|]. destruct o. by apply (refused w TT P (mkOwnedSpace _ _)). }
  destruct (vacate w o TT P hint length prot fixed Anonymous c m' Hst Ha Hh Hl Em) as (s1 & w1 & TT1 & P1 & -> & HV & Hpl & Hfree).
  set (len := next_multiple_of length 4096) in *. pose proof HV as [V1 V2 V3 V4 V5].
  pose proof (sn_low _ _ V4) as Hlow. rewrite (pl_span _ _ _ _ _ _ Hpl). cbn [span_start span_end].
  assert (Hr : forall pg, in_span (Vma.address c) (Vma.address c + len) pg = in_range (Vma.address c) (Vma.address c + len) (pg * 4096)) by (intros pg; apply in_span_iff; apply V4).
  assert (Hpg : forall pg, in_span (Vma.address c) (Vma.address c + len) pg = true -> 0 <= pg < PAGES).
  { intros pg Hx. rewrite Hr in Hx. apply in_range_iff in Hx. pose proof (sn_high _ _ V4). unfold PAGES. lia. }
  destruct (map_span_step kernel_pml4 l1 l2 id others reserve w1 s1 TT1 P1 (mkSpan (Vma.address c) (Vma.address c + len) prot) V2 V4) as (r & s2 & w2 & TT2 & -> & S1 & S2).
  { cbn [span_start span_end]. intros pg Hx. rewrite V3 by (by apply Hpg). rewrite <- Hr, Hx. done. }
  cbn [span_start span_end span_prot] in S2. destruct r as [[]|e].
  - eexists _, _, _. split; [reflexivity|]. eexists TT2, _. split; [by eapply step_trans|]. split; [exact S2|]. split.
    + cbn [os_map]. eapply placed_agreed; [exact Ha|exact Hpl|lia|done|]. intros pg Hx. rewrite Hr. destruct (in_range _ _ (pg * 4096)) eqn:Ein; [done|].
      rewrite V3, Ein by done. by apply Ha.
    + intros pg Hx. rewrite Hr. fold len. destruct (in_range _ _ (pg * 4096)) eqn:Ein; [done|]. by rewrite V3, Ein.
  - destruct S2 as [-> S2]. eexists _, _, _. split; [reflexivity|]. by apply (hole w TT P o c len s1 w1 TT1 P1 s2 w2 TT2 length).
Qed.

(** ** [mmap] of a device *)

(** The device's pages into a free span, or the span as it was. *)
Lemma map_device_span_step reserve w s TT P prot f s0 e0 :
  state w s TT P -> span_ok s0 e0 -> (forall pg, in_span s0 e0 pg = true -> P pg = None) ->
  (forall i, 0 <= i -> i * 4096 < e0 - s0 -> is_frame (f + i * 4096) /\ ~ managed (f + i * 4096)) ->
  exists r m s' w' TT', map_device_pages reserve w s prot s0 f s0 (pages s0 e0) = Some (r, m, s', w') /\ step w TT w' TT' /\
    match r with
    | Ok _ => state w' s' TT' (fun pg => if in_span s0 e0 pg then device_page prot (page_of s0) f pg else P pg)
    | Err e => e = ENOMEM /\ exists s2 w2 TT2, unmap_span w' s' (mkSpan s0 m prot) = Some (s2, w2) /\ step w' TT' w2 TT2 /\ state w2 s2 TT2 P
    end.
Proof.
  intros Hst Hs HP Hf. destruct (span_run _ _ Hs) as (a & n & -> & -> & E3 & H1 & H2 & Hin). rewrite E3, page_of_mul.
  assert (HP' : forall pg, a <= pg < a + Z.of_nat n -> P pg = None) by (intros pg Hpg; apply HP; rewrite Hin; zcases).
  destruct (map_device_run kernel_pml4 l1 l2 id others reserve a n prot f P n 0 w s TT H1 H2 eq_refl HP') as (r & m & s1 & w1 & TT1 & E & S1 & S2).
  { intros i Hi. apply Hf; lia. }
  { eapply state_eq; [|exact Hst]. intros pg. by rewrite over_0. }
  replace ((a + Z.of_nat 0) * 4096) with (a * 4096) in E by lia. exists r, m, s1, w1, TT1. split; [done|]. split; [done|]. destruct r as [[]|e].
  - eapply state_eq; [|exact S2]. intros pg. unfold over. by rewrite Hin.
  - destruct S2 as (-> & i & Hi & -> & S2). split; [done|].
    assert (Hsn : span_ok (a * 4096) ((a + Z.of_nat i) * 4096)) by (unfold PAGES in H2; split; [by exists a|by eexists|lia|lia]).
    destruct (unmap_span_step kernel_pml4 l1 l2 id others w1 s1 TT1 _ (mkSpan (a * 4096) ((a + Z.of_nat i) * 4096) prot) S2 Hsn) as (s2 & w2 & TT2 & E2 & S3 & S4).
    exists s2, w2, TT2. split; [done|]. split; [done|]. eapply state_eq; [|exact S4]. intros pg. cbn beta. cbn [span_start span_end].
    unfold in_span. rewrite !page_of_mul. rewrite over_undo; [done|]. intros p Hp. apply HP'. lia.
Qed.

Lemma mmap_device_in_spec reserve w o TT P hint length prot f fixed :
  state w (os_space o) TT P -> agreed (os_map o) P -> is_u64 hint -> is_u64 length ->
  (forall i, 0 <= i -> i * 4096 < next_multiple_of length 4096 -> is_frame (f + i * 4096) /\ ~ managed (f + i * 4096)) ->
  exists r o' w', mmap_device_in reserve w o hint length prot f fixed = Some (r, o', w') /\
    served w TT o' w' (mapped_outcome P length fixed (fun a => device_page prot (page_of a) f) r).
Proof.
  intros Hst Ha Hh Hl Hf. unfold mmap_device_in, mmap_device. destruct (negb (aligned f) || execute prot) eqn:Ec.
  { eexists _, _, _. split; [reflexivity|]. destruct o. by apply (refused w TT P (mkOwnedSpace _ _)). }
  destruct (place (os_map o) hint length prot fixed (Vma.Device f)) as [[c|e] m'] eqn:Em.
  2: { pose proof (place_spec (os_map o) hint length prot fixed (Vma.Device f) (ag_wf _ _ Ha) Hh Hl) as Hp. rewrite Em in Hp. destruct Hp as [-> _].
       eexists _, _, _. split; [reflexivity|]. destruct o. by apply (refused w TT P (mkOwnedSpace _ _)). }
  destruct (vacate w o TT P hint length prot fixed (Vma.Device f) c m' Hst Ha Hh Hl Em) as (s1 & w1 & TT1 & P1 & -> & HV & Hpl & Hfree).
  set (len := next_multiple_of length 4096) in *. pose proof HV as [V1 V2 V3 V4 V5].
  pose proof (sn_low _ _ V4) as Hlow. rewrite (pl_span _ _ _ _ _ _ Hpl). cbn [span_start span_end].
  assert (Hr : forall pg, in_span (Vma.address c) (Vma.address c + len) pg = in_range (Vma.address c) (Vma.address c + len) (pg * 4096)) by (intros pg; apply in_span_iff; apply V4).
  assert (Hpg : forall pg, in_span (Vma.address c) (Vma.address c + len) pg = true -> 0 <= pg < PAGES).
  { intros pg Hx. rewrite Hr in Hx. apply in_range_iff in Hx. pose proof (sn_high _ _ V4). unfold PAGES. lia. }
  destruct (map_device_span_step reserve w1 s1 TT1 P1 prot f (Vma.address c) (Vma.address c + len) V2 V4) as (r & m & s2 & w2 & TT2 & -> & S1 & S2).
  { intros pg Hx. rewrite V3 by (by apply Hpg). rewrite <- Hr, Hx. done. }
  { intros i Hi Hlt. apply Hf; [done|]. lia. }
  destruct r as [[]|e].
  - eexists _, _, _. split; [reflexivity|]. eexists TT2, _. split; [by eapply step_trans|]. split; [exact S2|]. split.
    + cbn [os_map]. eapply placed_agreed; [exact Ha|exact Hpl|lia|done|]. intros pg Hx. rewrite Hr. destruct (in_range _ _ (pg * 4096)) eqn:Ein.
      * cbn. split; [|done]. destruct (sn_start _ _ V4) as [q Hq]. rewrite Hq, page_of_mul. lia.
      * rewrite V3, Ein by done. by apply Ha.
    + intros pg Hx. rewrite Hr. fold len. destruct (in_range _ _ (pg * 4096)) eqn:Ein; [done|]. by rewrite V3, Ein.
  - destruct S2 as (-> & s3 & w3 & TT3 & -> & S3 & S4). eexists _, _, _. split; [reflexivity|].
    apply (hole w TT P o c len s1 w1 TT1 P1 s3 w3 TT3 length); [done|done|by eapply step_trans|done|done].
Qed.

(** ** [mprotect] *)

(** A call that succeeds protects the pages of its range. One that fails
    changes nothing, or stopped at a page of the heap that is not there, with
    pages of the range protected already. *)
Definition protected_outcome (m : MemoryMap) P (s0 length : Z) (prot : Protection) (r : result Errno unit) (P' : Z -> option Page) : Prop :=
  let inside pg := in_range s0 (s0 + next_multiple_of length 4096) (pg * 4096) in
  match r with
  | Ok _ => forall pg, 0 <= pg < PAGES -> page_eq (P' pg) (if inside pg then protected prot P pg else P pg)
  | Err _ => (forall pg, 0 <= pg < PAGES -> page_eq (P' pg) (P pg)) \/
      (exists hole p, inside hole = true /\ P hole = None /\ vview m (hole * 4096) = Some (p, Heap)) /\
      forall pg, 0 <= pg < PAGES -> page_eq (P' pg) (P pg) \/ inside pg = true /\ page_eq (P' pg) (protected prot P pg)
  end.

Lemma mprotect_in_spec w o TT P s0 length prot :
  state w (os_space o) TT P -> agreed (os_map o) P -> is_u64 s0 -> is_u64 length ->
  exists r o' w', mprotect_in w o s0 length prot = (r, o', w') /\ served w TT o' w' (protected_outcome (os_map o) P s0 length prot r).
Proof.
  intros Hst Ha Hs0 Hlen. unfold mprotect_in. pose proof (mprotect_spec (os_map o) s0 length prot (ag_wf _ _ Ha) Hs0 Hlen) as Hsp.
  pose proof (mprotect_aligned (os_map o) s0 length prot) as Hal. destruct (mprotect (os_map o) s0 length prot) as [[spans|e] m'].
  2: { destruct Hsp as [-> _]. eexists _, _, _. split; [reflexivity|]. exists TT, P. split; [apply step_refl|]. destruct o. split; [done|]. split; [done|]. by left. }
  destruct Hsp as (e & Hp & Hd & Hwf & Hm' & Hall & _ & Hv & Hin). specialize (Hal spans m' eq_refl).
  assert (Ee : e = s0 + next_multiple_of length 4096) by (apply checked_next_multiple_of_Some in Hp as [? _]; unfold Vma.PAGE_SIZE in *; lia).
  assert (Hany : forall pg, in_any spans pg = in_range s0 e (pg * 4096)).
  { intros pg. apply eq_true_iff_eq. rewrite in_any_spans, in_range_iff by (intros sp Hx; by apply Hal). setoid_rewrite Hin. naive_solver. }
  destruct (protect_spans_step kernel_pml4 l1 l2 id others prot spans w (os_space o) TT P Hst) as (r & w' & TT' & P' & -> & S1 & S2 & Hr).
  { intros sp Hx. apply (fit_span exact (os_map o) P sp Ha); [by apply Hal|]. intros x Hr. apply Hall. apply (Hin x (span_prot sp)). by exists sp. }
  { intros sp Hx. by apply Hal. }
  pose proof Ha as [A1 A2 A3 A4 A5 A6]. destruct r as [[]|err]; eexists _, _, _; (split; [reflexivity|]); exists TT', P'; (split; [exact S1|]); (split; [exact S2|]); cbn [os_map].
  - destruct Hr as [_ HP]. split; [|intros pg _; by rewrite HP, Hany, Ee]. split; [done|by rewrite Hm'| | |by rewrite Hm'|].
    + intros x. rewrite Hv. destruct (in_range s0 e x); [|apply A3]. intros Hx. apply A3. by destruct (vview (os_map o) x).
    + intros e1 x p. rewrite Hv, Hm'. cbn [brk brk_start with_regions]. destruct (in_range s0 e x); [|apply A4].
      destruct (vview (os_map o) x) as [[p1 k]|] eqn:Ex; [|done]. cbn. intros He1 [= _ ->]. by eapply A4.
    + intros pg Hpg. rewrite Hv, HP, Hany. destruct (in_range s0 e (pg * 4096)); [|by apply A6]. by apply matches_protect, A6.
  - destruct Hr as [(hole & H1 & H2) HP]. rewrite Hany in H1. pose proof H1 as H1'%in_range_iff. pose proof (Hall _ H1') as H3. pose proof (A3 _ H3) as H4.
    assert (Hh : 0 <= hole < PAGES) by (unfold PAGES; lia). pose proof (A6 hole Hh) as Hm. rewrite H2 in Hm.
    assert (Hx : exact = false /\ exists p, vview (os_map o) (hole * 4096) = Some (p, Heap)) by (destruct (vview (os_map o) (hole * 4096)) as [[p []]|]; try done; split; [done|by exists p]).
    destruct Hx as [Hx [p Hp']]. split.
    + split; [done..|]. intros pg Hpg. specialize (A6 pg Hpg). rewrite Hx in A6 |- *. destruct (HP pg) as [->|[_ ->]]; [done|]. by apply matches_protected.
    + right. split; [by exists hole, p; rewrite <- Ee|]. intros pg Hpg. rewrite <- Ee, <- Hany. destruct (HP pg) as [->|[? ->]]; [by left|by right].
Qed.

(** ** [brk] *)

(** Split on whether an address is in a range. *)
Ltac range_case s e x := let H := fresh "Hin" in
  destruct (in_range s e x) eqn:H; [apply in_range_iff in H|apply not_true_iff_false in H; rewrite in_range_iff in H].

(** The pages from the old end of the heap to the new one are new, those from
    the new end to the old one go. *)
Definition resized (oe ne : Z) P : Z -> option Page := fun pg =>
  if in_range oe ne (pg * 4096) then zero_page READ_WRITE pg else if in_range ne oe (pg * 4096) then None else P pg.

Lemma set_brk_view m a oe ne m' :
  heap_intact m -> page_up (brk m) = Some oe -> brk_start m <= oe -> brk_start m <= ne ->
  (forall x, vview m' x = if in_range (brk_start m) ne x then Some (READ_WRITE, Heap) else match vview m x with Some (_, Heap) => None | o => o end) ->
  page_up a = Some ne ->
  forall x, vview m' x = if in_range oe ne x then Some (READ_WRITE, Heap) else if in_range ne oe x then None else vview m x.
Proof.
  intros Hint Ho Hs1 Hs2 Hv _ x. destruct (Hint oe Ho) as [Hin Hout]. rewrite Hv.
  range_case (brk_start m) ne x; range_case oe ne x; range_case ne oe x; try done; try (exfalso; lia); try (rewrite Hin by lia; done).
  destruct (vview m x) as [[p k]|] eqn:Ex; [|done]. destruct k; try done. apply Hout in Ex. exfalso. lia.
Qed.

(** The pages of a heap after a move of its end, whatever the heap was: what
    is left of the old pages is memory of the process's own. *)
Lemma resized_matches m m' oe ne P pg :
  (forall e x p, page_up (brk m) = Some e -> vview m x = Some (p, Heap) -> brk_start m <= x < e) -> page_up (brk m) = Some oe -> brk_start m <= oe -> brk_start m <= ne ->
  (forall x p k, brk_start m <= x < Z.max oe ne -> vview m x = Some (p, k) -> k = Heap) ->
  (forall x, vview m' x = if in_range (brk_start m) ne x then Some (READ_WRITE, Heap) else match vview m x with Some (_, Heap) => None | o => o end) ->
  matches false (vview m (pg * 4096)) (P pg) -> matches false (vview m' (pg * 4096)) (resized oe ne P pg).
Proof.
  intros A4 Ho Hs1 Hs2 Hheap Hv Hm. rewrite Hv. unfold resized. pose proof (A4 oe (pg * 4096)) as Hout. pose proof (Hheap (pg * 4096)) as Hin.
  range_case (brk_start m) ne (pg * 4096); range_case oe ne (pg * 4096); range_case ne oe (pg * 4096); try done; try (exfalso; lia).
  - destruct (vview m (pg * 4096)) as [[p k]|]; [|by destruct (P pg)]. rewrite (Hin p k ltac:(lia) eq_refl) in Hm. by eapply matches_heap.
  - destruct (vview m (pg * 4096)) as [[p k]|]; [|done]. by rewrite (Hin p k ltac:(lia) eq_refl).
  - destruct (vview m (pg * 4096)) as [[p k]|]; [|done]. destruct k; try done. specialize (Hout p Ho eq_refl). exfalso. lia.
Qed.

Lemma set_brk_Ok m a change m' P :
  agreed m P -> is_u64 a -> (exact = true -> heap_intact m) -> set_brk m a = (Ok change, m') ->
  exists oe ne, change = (if ne >? oe then MapSpan (mkSpan oe ne READ_WRITE) else if ne <? oe then UnmapSpan (mkSpan ne oe READ_WRITE) else Unchanged) /\
    page_up (brk m) = Some oe /\ page_up a = Some ne /\ brk m' = a /\ (oe <= ne -> span_ok oe ne) /\ (ne <= oe -> ne < oe -> span_ok ne oe) /\ (forall pg, in_range oe ne (pg * 4096) = true -> P pg = None) /\
    forall P', (forall pg, 0 <= pg < PAGES -> P' pg = resized oe ne P pg) -> agreed m' P'.
Proof.
  intros Ha Hu Hint E. pose proof (set_brk_spec m a (ag_wf _ _ Ha) Hu) as Hsp. rewrite E in Hsp.
  destruct Hsp as (oe & ne & Ho & Hn & Hb1 & Hb2 & Hwf & Hbrk & Hbs & Htop & Hheap & -> & Hv). exists oe, ne. split; [done|]. split; [done|]. split; [done|]. split; [done|].
  destruct (page_up_Some _ _ Ho) as (Hod & Hob & _). destruct (page_up_Some _ _ Hn) as (Hnd & Hnb & _). pose proof Ha as [A1 A2 A3 A4 A5 A6]. pose proof (wf_brk _ A1) as Hbrk0.
  assert (Hoe : ne < oe -> oe <= 2 ^ 47) by (intros Hlt; apply A5; [done|lia]).
  split; [intros Hle; split; [done|done|lia|lia]|]. split; [intros _ Hle; split; [done|done|lia|auto]|]. split.
  - intros pg Hpg. apply in_range_iff in Hpg. assert (Hx : vview m (pg * 4096) = None).
    { destruct (vview m (pg * 4096)) as [[p k]|] eqn:Ex; [|done]. pose proof (Hheap (pg * 4096) p k ltac:(lia) Ex) as ->. apply (A4 oe) in Ex; [lia|done]. }
    by apply (matches_None exact _ _ (A6 pg ltac:(unfold PAGES; lia))).
  - intros P' HP'. split; [done|lia| | | |].
    + intros x. rewrite Hv. range_case (brk_start m) ne x; [lia|]. intros Hx. apply A3. by destruct (vview m x).
    + intros e x p. rewrite Hbrk, Hbs, Hn, Hv. intros [= <-]. range_case (brk_start m) ne x; [done|]. destruct (vview m x) as [[? []]|]; done.
    + intros e. rewrite Hbrk, Hbs, Hn. intros [= <-]. lia.
    + intros pg Hpg. rewrite HP' by done. pose proof (A6 pg Hpg) as Hm. destruct exact; [|by eapply resized_matches; try done; lia].
      rewrite (set_brk_view m a oe ne m' (Hint eq_refl) Ho ltac:(lia) ltac:(lia) Hv Hn). unfold resized. destruct (in_range oe ne (pg * 4096)); [done|]. by destruct (in_range ne oe (pg * 4096)).
Qed.

(** The heap grows or shrinks by whole pages at its end; when it cannot, the
    break and the pages stay. A hole that [munmap] made in it is not filled. *)
Definition brk_outcome P a (m m' : MemoryMap) (b : Z) (P' : Z -> option Page) : Prop :=
  b = brk m' /\
  (b = brk m /\ (forall pg, 0 <= pg < PAGES -> page_eq (P' pg) (P pg)) \/
   b = a /\ exists oe ne, page_up (brk m) = Some oe /\ page_up a = Some ne /\ forall pg, 0 <= pg < PAGES -> page_eq (P' pg) (resized oe ne P pg)).

Lemma resized_ranges oe ne P pg : oe <= ne -> resized oe ne P pg = if in_range oe ne (pg * 4096) then zero_page READ_WRITE pg else P pg.
Proof. intros H. unfold resized. range_case oe ne (pg * 4096); [done|]. range_case ne oe (pg * 4096); [lia|done]. Qed.
Lemma resized_down oe ne P pg : ne <= oe -> resized oe ne P pg = if in_range ne oe (pg * 4096) then None else P pg.
Proof. intros H. unfold resized. range_case oe ne (pg * 4096); [lia|]. done. Qed.

Lemma brk_unmoved w TT P o a : state w (os_space o) TT P -> agreed (os_map o) P -> served w TT o w (brk_outcome P a (os_map o) (os_map o) (brk (os_map o))).
Proof. intros Hst Ha. exists TT, P. split; [apply step_refl|]. split; [done|]. split; [done|]. split; [done|]. by left. Qed.

Lemma brk_in_spec reserve w o TT P a :
  state w (os_space o) TT P -> agreed (os_map o) P -> is_u64 a -> (exact = true -> heap_intact (os_map o)) ->
  exists b o' w', brk_in reserve w o a = Some (b, o', w') /\ served w TT o' w' (brk_outcome P a (os_map o) (os_map o') b).
Proof.
  intros Hst Ha Hu Hint. unfold brk_in. case_if; [eexists _, _, _; split; [reflexivity|by apply brk_unmoved]|].
  destruct (set_brk (os_map o) a) as [[c|e] m'] eqn:Es.
  2: { pose proof (set_brk_spec (os_map o) a (ag_wf _ _ Ha) Hu) as Hsp. rewrite Es in Hsp. destruct Hsp as [_ ->]. destruct o.
       eexists _, _, _. split; [reflexivity|by apply (brk_unmoved w TT P (mkOwnedSpace _ _))]. }
  destruct (set_brk_Ok (os_map o) a c m' P Ha Hu Hint Es) as (oe & ne & -> & Ho & Hn & Hb & Hup & Hdown & Hfree & Hag).
  destruct (Z.gtb_spec ne oe) as [Hgt|Hle]; [|destruct (Z.ltb_spec ne oe) as [Hlt|Hge]].
  - destruct (map_span_step kernel_pml4 l1 l2 id others reserve w (os_space o) TT P (mkSpan oe ne READ_WRITE) Hst (Hup ltac:(lia)))
      as (r & s1 & w1 & TT1 & -> & S1 & S2); cbn [span_start span_end span_prot] in *.
    { intros pg Hx. apply Hfree. rewrite <- in_span_iff; [done|apply (Hup ltac:(lia))..]. }
    destruct r as [[]|e]; eexists _, _, _; (split; [reflexivity|]).
    + eexists TT1, _. split; [exact S1|]. split; [exact S2|]. cbn [os_map].
      assert (HP : forall pg, (if in_span oe ne pg then zero_page READ_WRITE pg else P pg) = resized oe ne P pg).
      { intros pg. by rewrite resized_ranges, in_span_iff by (lia || apply (Hup ltac:(lia))). }
      split; [apply Hag; intros pg _; apply HP|]. split; [done|]. right. split; [done|]. exists oe, ne. split; [done|]. split; [done|]. intros pg _. by rewrite HP.
    + destruct S2 as [-> S2]. exists TT1, P. split; [done|]. split; [exact S2|]. split; [done|]. split; [done|]. by left.
  - destruct (unmap_span_step kernel_pml4 l1 l2 id others w (os_space o) TT P (mkSpan ne oe READ_WRITE) Hst (Hdown ltac:(lia) ltac:(lia))) as (s1 & w1 & TT1 & -> & S1 & S2).
    cbn [span_start span_end] in S2. eexists _, _, _. split; [reflexivity|]. eexists TT1, _. split; [exact S1|]. split; [exact S2|]. cbn [os_map].
    assert (HP : forall pg, (if in_span ne oe pg then None else P pg) = resized oe ne P pg).
    { intros pg. by rewrite resized_down, in_span_iff by (lia || apply (Hdown ltac:(lia) ltac:(lia))). }
    split; [apply Hag; intros pg _; apply HP|]. split; [done|]. right. split; [done|]. exists oe, ne. split; [done|]. split; [done|]. intros pg _. by rewrite HP.
  - assert (HP : forall pg, P pg = resized oe ne P pg) by (intros pg; rewrite resized_down by lia; range_case ne oe (pg * 4096); [lia|done]).
    eexists _, _, _. split; [reflexivity|]. exists TT, P. split; [apply step_refl|]. split; [done|]. cbn [os_map].
    split; [apply Hag; intros pg _; apply HP|]. split; [done|]. right. split; [done|]. exists oe, ne. split; [done|]. split; [done|]. intros pg _. by rewrite <- HP.
Qed.
End Calls.
End UserMemorySpec.
