(* ===== verification/PagingFork.v ===== *)
(** * PagingFork: the copy-on-write fork

    [fork_cow] gives the child every page of the parent, on the same frames,
    marked in both spaces so that the first write copies: what the child sees
    is what the parent sees, and the parent and every other process see what
    they saw. A fork that fails drops the child's tables. *)

From stdpp Require Import base numbers sets list.
From S2P Require Import Prelude Paging PagingTree PagingOps PagingSpaces PagingCow PagingSteps.
Local Open Scope Z_scope.

Module PagingFork.
Import Paging PagingTree PagingOps PagingDrop PagingSpaces PagingCow PagingFault PagingMap PagingSteps.

Section Fork.
Context {W : Type} {HF : Frames W} {HL : FramesLaws W} (kernel_pml4 : Z -> Z).
Implicit Types (w : W) (TT : Z -> nat -> Z -> option Z) (P : Z -> option Page).

(** ** Marking a page of the parent *)

Section Parent.
Context (l1 l2 : list (Z * AddressSpace)) (id : Z) (others : Z -> Z).
Abbreviation state := (state kernel_pml4 l1 l2 id others).

Lemma share_step w s TT P m :
  state w s TT P -> m ∈ owned s ->
  exists pt fl w' TT', leaf_slot w s (om_address m) = Ok pt /\ leaf_flags fl /\
    memory w pt (pt_index (om_address m)) = Z.lor (om_frame m) fl /\ is_frame (om_frame m) /\
    w' = (if has fl WRITABLE then write w pt (pt_index (om_address m)) (Z.lor (om_frame m) (share fl)) else w) /\
    state w' s TT' P /\ step l1 l2 id w TT w' TT' /\
    view w' (TT' id) (page_of (om_address m)) = Z.lor (om_frame m) (share fl) /\
    page_eq (P (page_of (om_address m))) (Some (Private (rights fl) (memory w' (om_frame m)))).
Proof.
  intros Hst Hm. pose proof (state_good _ _ _ _ _ _ _ _ _ Hst) as Hg. pose proof (go_inv _ _ _ _ Hg) as Hi.
  assert (Hm' : m ∈ owned s ++ devices s) by (apply elem_of_app; by left).
  destruct (mapping_leaf kernel_pml4 w s (TT id) m Hi Hm') as (fl & pt & Hv & Hfl & Hu & Hf & Hpt & Hmem & Hls).
  assert (Hd : is_device s (page_of (om_address m)) = false).
  { apply not_true_is_false. intros (md & Hmd & E)%is_device_spec. assert (md = m) as ->.
    { apply (same_mapping s (view w (TT id))); [apply Hi|apply elem_of_app; by right|done|done]. }
    pose proof (go_refs _ _ _ _ Hg m Hm). destruct (so_devices _ _ (si_space _ _ _ _ Hi) m Hmd) as [Hn _]. apply Hn, (refs_managed w); [apply Hg|lia]. }
  assert (Hseen : forall w1 T1 fl1, view w1 T1 (page_of (om_address m)) = Z.lor (om_frame m) fl1 -> leaf_flags fl1 ->
    seen w1 s T1 (page_of (om_address m)) = Some (Private (rights fl1) (memory w1 (om_frame m)))).
  { intros w1 T1 fl1 Hv1 Hfl1. unfold seen, page_at, flags_of. rewrite Hd, Hv1, has_entry, address_entry, flags_entry by (done || apply Hfl1). by rewrite (lf_present _ Hfl1). }
  exists pt, fl. destruct (has fl WRITABLE) eqn:Hw.
  2: { exists w, TT. split; [done|]. split; [done|]. rewrite pt_index_eq by apply Hu. split; [done|]. split; [done|]. split; [done|]. split; [done|]. split; [apply step_refl|].
       unfold share. rewrite Hw. split; [done|]. rewrite <- (st_seen _ _ _ _ _ _ _ _ _ Hst). by rewrite (Hseen w (TT id) fl Hv Hfl). }
  destruct (share_flags fl Hfl) as [Hsf Hsw].
  destruct (reflag kernel_pml4 w s (TT id) m (share fl) pt Hg Hm' Hpt Hsf) as (R1 & R2 & R3 & R4 & R5); [congruence| |].
  { intros Hdv. by rewrite (proj2 (is_device_spec s _)) in Hd by (by exists m). }
  rewrite pt_index_eq by apply Hu. set (w' := write w pt _ _) in *.
  assert (Hcm : forall i, memory w' (om_frame m) i = memory w (om_frame m) i).
  { intros i. destruct (owned_apart kernel_pml4 w s (TT id) m pt Hg Hm ltac:(by eexists _, _)). apply R3; [congruence|done]. }
  assert (Hnew : view w' (TT id) (page_of (om_address m)) = Z.lor (om_frame m) (share fl)) by (by rewrite R4, Z.eqb_refl).
  destruct (local_step kernel_pml4 l1 l2 id others w s TT P w' s (TT id) P Hst R1) as [S1 S2]; [by apply fresh_same| |].
  { intros pg. destruct (decide (pg = page_of (om_address m))) as [->|Hne]; [|rewrite R5 by done; apply Hst].
    rewrite <- (st_seen _ _ _ _ _ _ _ _ _ Hst), (Hseen w (TT id) fl Hv Hfl), (Hseen w' (TT id) (share fl) Hnew Hsf), rights_share by done. by constructor. }
  exists w', (set_tree TT id (TT id)). split; [done|]. split; [done|]. split; [done|]. split; [done|]. split; [done|]. split; [done|]. split; [done|].
  rewrite set_tree_eq. split; [done|]. rewrite <- (st_seen _ _ _ _ _ _ _ _ _ Hst), (Hseen w (TT id) fl Hv Hfl). constructor. intros i. by rewrite Hcm.
Qed.
End Parent.

(** ** Frames with more than one owner *)

Lemma count_two g (l : list OwnedMapping) m m' : m ∈ l -> m' ∈ l -> m <> m' -> om_frame m = g -> om_frame m' = g -> 2 <= count g l.
Proof.
  intros Hm Hm' Hne E E'. apply list_elem_of_split in Hm as (a & b & ->). apply elem_mid in Hm' as [->|Hm']; [done|].
  rewrite count_app. cbn [count]. rewrite E, Z.eqb_refl. pose proof (count_elem g _ m' Hm' E') as Hc. rewrite count_app in Hc. lia.
Qed.

(** A frame with an owner that may not write it has none that may. *)
Lemma owners_quiet w l TT others id s m i s2 m2 :
  sys_ok kernel_pml4 w l TT others -> (id, s) ∈ l -> m ∈ owned s -> has (view w (TT id) (page_of (om_address m))) WRITABLE = false ->
  (i, s2) ∈ l -> m2 ∈ owned s2 -> om_frame m2 = om_frame m -> has (view w (TT i) (page_of (om_address m2))) WRITABLE = false.
Proof.
  intros Hok Hin Hm Hnw Hin2 Hm2 E. apply not_true_is_false. intros Hwr. pose proof (sy_private _ _ _ _ _ Hok _ _ Hin2 m2 Hm2 Hwr) as H1.
  assert (Hc : 2 <= count (om_frame m) (all_owned l)).
  { destruct (decide (i = id)) as [->|Hne].
    - assert (s2 = s) as ->.
      { apply list_elem_of_lookup in Hin as [a Ha], Hin2 as [b Hb]. assert (a = b) as ->; [|congruence].
        apply (NoDup_lookup _ a b id (sy_ids _ _ _ _ _ Hok)); rewrite list_lookup_fmap; [by rewrite Ha|by rewrite Hb]. }
      pose proof (count_member (om_frame m) _ _ _ Hin). pose proof (count_two (om_frame m) (owned s) m m2 Hm Hm2) as Hc.
      enough (2 <= count (om_frame m) (owned s)) by lia. apply Hc; [|done|done]. intros ->. congruence.
    - apply list_elem_of_split in Hin as (a & b & ->). apply elem_mid in Hin2 as [[= -> _]|Hin2]; [done|]. rewrite count_all.
      pose proof (count_elem (om_frame m) _ m Hm eq_refl). pose proof (count_elem (om_frame m) _ m2 Hm2 E). pose proof (count_member (om_frame m) _ _ _ Hin2). lia. }
  pose proof (sy_others _ _ _ _ _ Hok (om_frame m)). destruct (owned_refs _ _ _ _ _ (om_frame m) Hok ltac:(lia)) as [Hr _]. rewrite E in H1. lia.
Qed.

(** ** Parent and child *)

Section Loop.
Context (l1 l2 : list (Z * AddressSpace)) (id cid : Z) (others : Z -> Z) (s : AddressSpace) (croot : Z).
Let L := l1 ++ (id, s) :: l2.
Abbreviation child co cd := (mkSpace croot co cd).

Definition listed (l : list OwnedMapping) (pg : Z) : bool := existsb (fun m => page_of (om_address m) =? pg) l.

(** Half way through the fork: the parent sees [P], the child the part of it
    that it has. *)
Record forking w TT P (co cd : list OwnedMapping) : Prop := mk_forking {
  fk_child : state kernel_pml4 L [] cid others w (child co cd) TT (fun pg => if listed (co ++ cd) pg then P pg else None);
  fk_parent : forall pg, page_eq (seen w s (TT id) pg) (P pg)
}.

Lemma split_parent (c : AddressSpace) : L ++ [(cid, c)] = l1 ++ (id, s) :: (l2 ++ [(cid, c)]).
Proof. unfold L. by rewrite <- app_assoc. Qed.

Lemma parent_in : (id, s) ∈ L.
Proof. apply elem_mid. by left. Qed.

Lemma forking_parent w TT P co cd : forking w TT P co cd -> state kernel_pml4 l1 (l2 ++ [(cid, child co cd)]) id others w s TT P.
Proof. intros [[H1 _] H2]. split; [by rewrite <- split_parent|done]. Qed.

Lemma L_rest i s2 : (i, s2) ∈ l1 ++ l2 -> (i, s2) ∈ L.
Proof. intros H. apply elem_mid. by right. Qed.

(** A step of the parent that it does not see. *)
Lemma fork_parent_step w TT P co cd w' TT' :
  forking w TT P co cd -> state kernel_pml4 l1 (l2 ++ [(cid, child co cd)]) id others w' s TT' P -> step l1 (l2 ++ [(cid, child co cd)]) id w TT w' TT' ->
  forking w' TT' P co cd /\ step l1 l2 id w TT w' TT'.
Proof.
  intros [[K1 K2] F2] [S1 S2] [T1 T2 T3]. rewrite <- split_parent in S1.
  assert (Hc : (cid, child co cd) ∈ l1 ++ l2 ++ [(cid, child co cd)]) by (rewrite !elem_of_app, list_elem_of_singleton; tauto).
  assert (Hr : forall x, x ∈ l1 ++ l2 -> x ∈ l1 ++ l2 ++ [(cid, child co cd)]) by (intros x; rewrite !elem_of_app; tauto).
  split; [split; [split; [done|]|done]|split; eauto].
  intros pg. rewrite <- K2, (T1 _ _ Hc). eapply untouched_seen; [|by apply (T2 _ _ Hc)]. eapply sys_space; [exact K1|]. apply elem_of_app. right. by apply list_elem_of_singleton.
Qed.

(** A step of the child: the parent sees nothing of it. *)
Lemma fork_child_step w TT P co cd w' TT' co' cd' :
  forking w TT P co cd -> state kernel_pml4 L [] cid others w' (child co' cd') TT' (fun pg => if listed (co' ++ cd') pg then P pg else None) -> step L [] cid w TT w' TT' ->
  forking w' TT' P co' cd' /\ step l1 l2 id w TT w' TT'.
Proof.
  intros [[K1 K2] F2] S1 [T1 T2 T3]. rewrite app_nil_r in T1, T2. split; [split; [done|]|split].
  - intros pg. rewrite <- F2, (T1 _ _ parent_in). eapply untouched_seen; [|by apply (T2 _ _ parent_in)]. eapply sys_space; [exact K1|]. apply elem_of_app. left. apply parent_in.
  - intros i s2 Hin. by apply (T1 i s2), L_rest.
  - intros i s2 Hin. by apply (T2 i s2), L_rest.
  - by rewrite (T1 _ _ parent_in).
Qed.

Lemma forking_still w TT P co cd w' : forking w TT P co cd -> frames_wf w' -> keeps (fun _ => False) w w' -> forking w' TT P co cd /\ step l1 l2 id w TT w' TT.
Proof. intros F Hw Hk. destruct (still_step kernel_pml4 L [] cid others w _ TT _ w' (fk_child _ _ _ _ _ F) Hw Hk). by eapply fork_child_step. Qed.

Lemma listed_app l m pg : listed (l ++ [m]) pg = listed l pg || (page_of (om_address m) =? pg).
Proof. unfold listed. rewrite existsb_app. cbn. by rewrite orb_false_r. Qed.

(** A frame of the parent is no table of the child. *)
Lemma parent_frame w TT P co cd m : forking w TT P co cd -> m ∈ owned s ->
  ~ tables (TT cid) (om_frame m) /\ 1 <= refs w (om_frame m) /\ managed (om_frame m) /\ 1 <= count (om_frame m) (all_owned (L ++ [(cid, child co cd)])).
Proof.
  intros F Hm. pose proof (st_ok _ _ _ _ _ _ _ _ _ (fk_child _ _ _ _ _ F)) as Hok.
  assert (Hp : (id, s) ∈ L ++ [(cid, child co cd)]) by (apply elem_of_app; left; apply parent_in).
  assert (Hc : 1 <= count (om_frame m) (all_owned (L ++ [(cid, child co cd)]))).
  { pose proof (count_elem (om_frame m) _ m Hm eq_refl). pose proof (count_member (om_frame m) _ _ _ Hp). lia. }
  destruct (owned_refs _ _ _ _ _ _ Hok Hc) as [Hr Hma]. pose proof (sy_others _ _ _ _ _ Hok (om_frame m)).
  split; [|split; [lia|done]]. eapply (owned_no_table _ _ _ _ _ _ Hok Hc cid). apply elem_of_app. right. by apply list_elem_of_singleton.
Qed.

(** The child gets the page, or everything is as it was. *)
Lemma child_map w w1 TT P co m fl :
  forking w TT P co [] -> m ∈ owned s -> listed co (page_of (om_address m)) = false ->
  source w (om_frame m) false w1 -> leaf_flags fl -> has fl WRITABLE = false -> user_page (om_address m) ->
  has (view w (TT id) (page_of (om_address m))) WRITABLE = false ->
  page_eq (P (page_of (om_address m))) (Some (Private (rights fl) (memory w (om_frame m)))) ->
  exists r w2, map_page_in_root w1 croot (om_address m) (om_frame m) fl = Some (r, w2) /\
    match r with
    | Ok _ => exists TT', forking w2 TT' P (co ++ [m]) [] /\ step l1 l2 id w TT w2 TT'
    | Err _ => exists w3 TT', free_frame w2 (om_frame m) = Some w3 /\ forking w3 TT' P co [] /\ step l1 l2 id w TT w3 TT'
    end.
Proof.
  intros F Hm Hl Hsrc Hfl Hnw Hu Hv HP. pose proof (fk_child _ _ _ _ _ F) as Hst. pose proof (st_ok _ _ _ _ _ _ _ _ _ Hst) as Hok.
  destruct (parent_frame w TT P co [] m F Hm) as (Hnt & Hr & Hma & Hc). assert (Em : mkOwned (om_address m) (om_frame m) = m) by (by destruct m).
  assert (Hpar : (id, s) ∈ L ++ [(cid, child co [])]) by (apply elem_of_app; left; apply parent_in).
  assert (Hq : forall i s2 m2, (i, s2) ∈ L ++ [(cid, child co [])] -> m2 ∈ owned s2 -> om_frame m2 = om_frame m -> has (view w (TT i) (page_of (om_address m2))) WRITABLE = false)
    by (intros i s2 m2 Hi Hm2 E; by apply (owners_quiet w _ TT others id s m i s2 m2 Hok Hpar Hm Hv Hi)).
  destruct (map_root_step kernel_pml4 L [] cid others w w1 (child co []) TT _ (om_address m) (om_frame m) false fl Hst Hu Hsrc Hnt Hfl) as (r & w2 & E & Ho).
  { intros _ m2 Hm2 E2. apply (Hq cid (child co [])); [|done|done]. apply elem_of_app. right. by apply list_elem_of_singleton. }
  { congruence. }
  { done. }
  { intros g Hlt. rewrite with_page_count in Hlt. cbn [om_frame negb andb owned] in Hlt. destruct (Z.eqb_spec (om_frame m) g) as [Eg|]; [|lia].
    rewrite <- Eg. right. split; [done|]. intros i m2 s2 Hi Hm2 E2. by apply (Hq i s2). }
  cbn [root] in E, Ho. exists r, w2. split; [done|]. destruct r as [[]|e].
  - destruct Ho as (TT' & Hst' & Hsp). rewrite Em in Hst'. cbn [with_page root owned devices] in Hst'. exists TT'. eapply fork_child_step; [exact F| |exact Hsp].
    eapply state_eq; [|exact Hst']. intros pg. unfold set_page. rewrite !app_nil_r, listed_app, (Z.eqb_sym (page_of _)).
    destruct (Z.eqb_spec pg (page_of (om_address m))) as [->|]; [|by rewrite orb_false_r]. rewrite Hl. cbn [orb]. rewrite HP. constructor. intros i.
    eapply source_memory; [exact Hsrc|]. left. lia.
  - destruct Ho as (Hw2 & Ht2 & Hk2 & Hv2). destruct (give_back_step kernel_pml4 L [] cid others w w1 w2 (child co []) TT _ (om_frame m) Hst Hsrc Hnt Hw2 Ht2 Hk2 Hv2) as (w3 & TT' & E3 & Hst' & Hsp).
    exists w3, TT'. split; [done|]. by eapply fork_child_step.
Qed.

Lemma parent_inv w TT P co cd : forking w TT P co cd -> space_inv kernel_pml4 w s (TT id).
Proof. intros F. eapply sys_space; [apply (fk_child _ _ _ _ _ F)|]. apply elem_of_app. left. apply parent_in. Qed.

Lemma parent_user w TT P co cd m : forking w TT P co cd -> m ∈ owned s ++ devices s -> user_page (om_address m).
Proof. intros F Hm. by apply (so_mapped _ _ (si_space _ _ _ _ (parent_inv _ _ _ _ _ F)) m Hm). Qed.

(** A page of the parent the child does not have yet. *)
Lemma not_listed w TT P co cd done m rest :
  forking w TT P co cd -> owned s ++ devices s = done ++ m :: rest -> listed done (page_of (om_address m)) = false.
Proof.
  intros F E. apply not_true_is_false. unfold listed. rewrite existsb_true_exists. intros (m' & Hm' & Ep%Z.eqb_eq).
  pose proof (so_nodup _ _ (si_space _ _ _ _ (parent_inv _ _ _ _ _ F))) as Hnd.
  assert (m' = m) as ->.
  { eapply (same_mapping s); [apply (parent_inv _ _ _ _ _ F)| | |exact Ep]; rewrite E; [apply elem_of_app; by left|apply elem_mid; by left]. }
  rewrite E, map_app in Hnd. cbn [map] in Hnd. apply NoDup_app in Hnd as (_ & Hx & _).
  apply (Hx (om_address m)); [by apply (list_elem_of_fmap_2 om_address)|]. apply list_elem_of_here.
Qed.

Lemma frame_get_source w f ok w' : frames_wf w -> 1 <= refs w f -> managed f -> frame_get w f = (ok, w') ->
  if ok then source w f false w' else frames_wf w' /\ keeps (fun _ => False) w w'.
Proof.
  intros Hw Hr Hma E. destruct (frame_get_spec w f ok w' Hw ltac:(lia) E) as (Hw' & Hr' & Hm). destruct ok; cbn [andb] in Hr'.
  - by constructor.
  - split; [done|]. intros g _. split; [apply Hr'|]. intros Hl i. by apply Hm.
Qed.

Lemma fork_owned_spec todo : forall co w TT P,
  owned s = co ++ todo -> forking w TT P co [] ->
  exists r w' TT' co', fork_owned w s croot todo co = Some (r, w') /\ step l1 l2 id w TT w' TT' /\ forking w' TT' P co' [] /\
    match r with Ok l => l = owned s /\ co' = owned s | Err (e, l) => l = [] \/ l = co' end.
Proof.
  induction todo as [|m todo IH]; intros co w TT P Eo F; cbn [fork_owned].
  { rewrite app_nil_r in Eo. exists (Ok co), w, TT, co. split; [done|]. split; [apply step_refl|]. by rewrite Eo. }
  assert (Hm : m ∈ owned s) by (rewrite Eo; apply elem_mid; by left).
  assert (Hu : user_page (om_address m)) by (eapply parent_user; [exact F|apply elem_of_app; by left]).
  assert (Hl : listed co (page_of (om_address m)) = false) by (eapply not_listed; [exact F|]; by rewrite Eo, <- app_assoc).
  destruct (share_step l1 (l2 ++ [(cid, child co [])]) id others w s TT P m (forking_parent _ _ _ _ _ F) Hm)
    as (pt & fl & w1 & TT1 & -> & Hfl & Hmem & Hf & Ew1 & S1 & S2 & Hv1 & HP).
  destruct (fork_parent_step w TT P co [] w1 TT1 F S1 S2) as [F1 R1]. destruct (share_flags fl Hfl) as [Hsf Hsw].
  rewrite Hmem, flags_entry, address_entry by (done || apply Hfl).
  assert (Efl : (if has fl WRITABLE then (Z.lor (Z.land fl (Z.lnot WRITABLE)) COPY_ON_WRITE,
      write w pt (pt_index (om_address m)) (Z.lor (om_frame m) (Z.lor (Z.land fl (Z.lnot WRITABLE)) COPY_ON_WRITE))) else (fl, w)) = (share fl, w1)).
  { rewrite Ew1. unfold share. by destruct (has fl WRITABLE). }
  cbv zeta. rewrite Efl. destruct (parent_frame w1 TT1 P co [] m F1 Hm) as (_ & Hr & Hma & _).
  pose proof (go_wf _ _ _ _ (state_good _ _ _ _ _ _ _ _ _ S1)) as Hw1.
  destruct (frame_get w1 (om_frame m)) as [ok w2] eqn:Eg. pose proof (frame_get_source w1 (om_frame m) ok w2 Hw1 Hr Hma Eg) as Hsrc. destruct ok.
  2: { destruct Hsrc as [Hw2 Hk2]. destruct (forking_still w1 TT1 P co [] w2 F1 Hw2 Hk2) as [F2 R2].
       exists (Err (OutOfFrames, [])), w2, TT1, co. split; [done|]. split; [by eapply step_trans|]. split; [done|]. by left. }
  destruct (child_map w1 w2 TT1 P co m (share fl) F1 Hm Hl Hsrc Hsf Hsw Hu) as (r & w3 & -> & Ho).
  { by rewrite Hv1, has_entry. }
  { by rewrite rights_share. }
  destruct r as [[]|e].
  - destruct Ho as (TT3 & F3 & R3). destruct (IH (co ++ [m]) w3 TT3 P ltac:(by rewrite <- app_assoc) F3) as (r & w4 & TT4 & co' & E4 & R4 & F4 & Hr4).
    exists r, w4, TT4, co'. split; [done|]. split; [eapply step_trans; [exact R1|by eapply step_trans]|done].
  - destruct Ho as (w4 & TT4 & -> & F4 & R4). exists (Err (e, co)), w4, TT4, co. split; [done|]. split; [by eapply step_trans|]. split; [done|]. by right.
Qed.

Lemma fork_devices_spec todo : forall cd w TT P,
  devices s = cd ++ todo -> forking w TT P (owned s) cd ->
  exists r w' TT' cd', fork_devices w s croot (owned s) todo cd = Some (r, w') /\ step l1 l2 id w TT w' TT' /\ forking w' TT' P (owned s) cd' /\
    match r with Ok l => l = devices s /\ cd' = devices s | Err (e, l) => l = [] \/ l = owned s end.
Proof.
  induction todo as [|m todo IH]; intros cd w TT P Ed F; cbn [fork_devices].
  { rewrite app_nil_r in Ed. exists (Ok cd), w, TT, cd. split; [done|]. split; [apply step_refl|]. by rewrite Ed. }
  assert (Hm : m ∈ devices s) by (rewrite Ed; apply elem_mid; by left). assert (Hm' : m ∈ owned s ++ devices s) by (apply elem_of_app; by right).
  pose proof (parent_user _ _ _ _ _ _ F Hm') as Hu. pose proof (parent_inv _ _ _ _ _ F) as Hi.
  assert (Hl : listed (owned s ++ cd) (page_of (om_address m)) = false) by (eapply not_listed; [exact F|]; by rewrite Ed, <- app_assoc).
  destruct (mapping_leaf kernel_pml4 w s (TT id) m Hi Hm') as (fl & pt & Hv & Hfl & _ & Hf & Hpt & Hmem & ->).
  destruct (so_devices _ _ (si_space _ _ _ _ Hi) m Hm) as [Hnm Hnc]. rewrite Hv, has_entry in Hnc by done.
  rewrite pt_index_eq by apply Hu. rewrite Hmem, flags_entry by (done || apply Hfl). pose proof (fk_child _ _ _ _ _ F) as Hst.
  assert (Hw : frames_wf w) by apply (st_ok _ _ _ _ _ _ _ _ _ Hst). assert (Hsrc : source w (om_frame m) true w) by (by constructor).
  assert (Hnt : ~ tables (TT cid) (om_frame m)).
  { intros (k & p & Hx). apply Hnm. eapply (tr_frame _ _ _ _ (sy_tree _ _ _ _ _ (st_ok _ _ _ _ _ _ _ _ _ Hst) cid _ ltac:(apply elem_of_app; right; by apply list_elem_of_singleton)) _ _ _ Hx). }
  assert (Em : mkOwned (om_address m) (om_frame m) = m) by (by destruct m).
  destruct (map_root_step kernel_pml4 L [] cid others w w (child (owned s) cd) TT _ (om_address m) (om_frame m) true fl Hst Hu Hsrc Hnt Hfl) as (r & w2 & E & Ho); [done|done|done| |].
  { apply fresh_quiet. intros g Hlt. rewrite with_page_count in Hlt. cbn [negb andb owned] in Hlt. lia. }
  cbn [root] in E, Ho. rewrite E. destruct r as [[]|e].
  - destruct Ho as (TT' & Hst' & Hsp). rewrite Em in Hst'. cbn [with_page root owned devices] in Hst'.
    destruct (fork_child_step w TT P (owned s) cd w2 TT' (owned s) (cd ++ [m]) F) as [F2 R2]; [|exact Hsp|].
    { eapply state_eq; [|exact Hst']. intros pg. unfold set_page. rewrite app_assoc, listed_app, (Z.eqb_sym (page_of _)).
      destruct (Z.eqb_spec pg (page_of (om_address m))) as [->|]; [|by rewrite orb_false_r]. rewrite Hl. cbn [orb].
      rewrite <- (fk_parent _ _ _ _ _ F). unfold seen, page_at, flags_of. rewrite (proj2 (is_device_spec s _)) by (by exists m).
      rewrite Hv, has_entry, address_entry, flags_entry, (lf_present _ Hfl) by (done || apply Hfl). done. }
    destruct (IH (cd ++ [m]) w2 TT' P ltac:(by rewrite <- app_assoc) F2) as (r & w4 & TT4 & cd' & E4 & R4 & F4 & Hr4).
    exists r, w4, TT4, cd'. split; [done|]. split; [by eapply step_trans|done].
  - destruct Ho as (Hw2 & Ht2 & Hk2 & Hv2). destruct (failed_step kernel_pml4 L [] cid others w _ TT _ w2 Hst Hw2 Ht2 Hk2 Hv2) as (TT' & Hst' & Hsp).
    destruct (fork_child_step w TT P (owned s) cd w2 TT' (owned s) cd F Hst' Hsp) as [F2 R2]. exists (Err (e, owned s)), w2, TT', cd. split; [done|]. split; [done|]. split; [done|]. by right.
Qed.

(** The child is dropped with what is on [l] of its list; what it took beyond
    that stays counted. *)
Lemma fork_abort current w TT P co cd l :
  forking w TT P co cd -> current <> croot -> l = [] \/ l = co ->
  exists w' others', drop_space current w (child l []) = Some w' /\ state kernel_pml4 l1 l2 id others' w' s TT P /\ step l1 l2 id w TT w' TT /\
    forall g, others' g = others g + count g co - count g l.
Proof.
  intros F Hcur Hl. pose proof (st_ok _ _ _ _ _ _ _ _ _ (fk_child _ _ _ _ _ F)) as Hok.
  destruct (sys_remove kernel_pml4 current w L [] TT others cid (child co cd) (child l []) Hok eq_refl Hcur) as (w' & E & Hok' & Hun).
  { intros g. cbn [owned]. pose proof (count_nonneg g co). destruct Hl as [->| ->]; [cbn [count]; lia|lia]. }
  rewrite app_nil_r in Hok', Hun. eexists w', _. split; [done|]. split; [|split; [split|]].
  - split; [exact Hok'|]. intros pg. rewrite <- (fk_parent _ _ _ _ _ F). eapply untouched_seen; [by eapply parent_inv|]. apply Hun, parent_in.
  - done.
  - intros i s2 Hin. by apply Hun, L_rest.
  - done.
  - done.
Qed.
End Loop.

(** A new space is the child before the first page. *)
Lemma fork_start w w' l1 l2 id s cid others TT P c :
  state kernel_pml4 l1 l2 id others w s TT P -> cid ∉ map fst (l1 ++ (id, s) :: l2) -> new_space kernel_pml4 w = (Ok c, w') ->
  exists TT', c = mkSpace (root c) [] [] /\ forking l1 l2 id cid others s (root c) w' TT' P [] [] /\ step l1 l2 id w TT w' TT' /\ refs w (root c) = 0 /\ managed (root c).
Proof.
  intros [Hok Hse] Hid E. destruct (new_space_spec kernel_pml4 w _ w' (sy_wf _ _ _ _ _ Hok) E) as (_ & _ & Eo & Ed & Hz & Hma & _).
  destruct (sys_add kernel_pml4 w w' _ TT others cid c Hok Hid E) as [Hok' Hun]. assert (Ec : c = mkSpace (root c) [] []) by (destruct c; cbn in *; congruence).
  assert (Hne : forall i s2, (i, s2) ∈ l1 ++ (id, s) :: l2 -> i <> cid).
  { intros i s2 Hin ->. apply Hid. by apply (list_elem_of_fmap_2 fst) in Hin. }
  exists (set_tree TT cid (root_only (root c))). split; [done|]. split; [split; [split|]|split; [split|done]].
  - by rewrite <- Ec.
  - intros pg. cbn. rewrite set_tree_eq. unfold seen, page_at. by rewrite view_root_only, has_0.
  - intros pg. pose proof (self_in l1 l2 id s) as Hin. rewrite set_tree_ne by (by eapply Hne). rewrite <- Hse. eapply untouched_seen; [by eapply sys_space|]. by apply Hun.
  - intros i s2 Hin. rewrite set_tree_ne; [done|]. eapply Hne. by apply other_in.
  - intros i s2 Hin. by apply Hun, other_in.
  - by rewrite set_tree_ne by (eapply Hne; apply self_in).
Qed.

Definition fork_outcome l1 l2 id s cid others w TT P (r : result AddressSpaceError AddressSpace) w' : Prop :=
  match r with
  | Ok c => exists TT', state kernel_pml4 l1 (l2 ++ [(cid, c)]) id others w' s TT' P /\ step l1 l2 id w TT w' TT' /\ forall pg, page_eq (seen w' c (TT' cid) pg) (P pg)
  | Err _ => exists TT' others', state kernel_pml4 l1 l2 id others' w' s TT' P /\ step l1 l2 id w TT w' TT' /\ forall g, others g <= others' g
  end.

Section Cow.
Context (l1 l2 : list (Z * AddressSpace)) (id cid : Z) (others : Z -> Z) (s : AddressSpace) (croot current : Z) (w0 : W) (TT0 : Z -> nat -> Z -> option Z) (P : Z -> option Page).

(** What a failing fork leaves. *)
Lemma fork_failed w TT co cd l e :
  forking l1 l2 id cid others s croot w TT P co cd -> step l1 l2 id w0 TT0 w TT -> current <> croot -> l = [] \/ l = co ->
  exists r w', match drop_space current w (mkSpace croot l []) with Some w' => Some (@Err AddressSpaceError AddressSpace e, w') | None => None end = Some (r, w') /\
    fork_outcome l1 l2 id s cid others w0 TT0 P r w'.
Proof.
  intros F R Hcur Hl. destruct (fork_abort l1 l2 id cid others s croot current w TT P co cd l F Hcur Hl) as (w' & others' & -> & S1 & S2 & Ho).
  eexists _, _. split; [reflexivity|]. exists TT, others'. split; [done|]. split; [by eapply step_trans|]. intros g. rewrite Ho.
  pose proof (count_nonneg g co). destruct Hl as [->| ->]; [cbn [count]; lia|lia].
Qed.

Lemma listed_all w T pg : space_inv kernel_pml4 w s T -> (forall p, page_eq (seen w s T p) (P p)) -> page_eq (if listed (owned s ++ devices s) pg then P pg else None) (P pg).
Proof.
  intros Hi Hse. destruct (listed (owned s ++ devices s) pg) eqn:El; [done|]. rewrite <- Hse. unfold seen, page_at.
  destruct (has (view w T pg) PRESENT) eqn:Hp; [|done]. exfalso. destruct (so_all _ _ (si_space _ _ _ _ Hi) pg Hp) as (m & Hm & E).
  apply not_true_iff_false in El. apply El. unfold listed. apply existsb_true_exists. exists m. split; [done|]. by apply Z.eqb_eq.
Qed.
End Cow.

Lemma fork_cow_spec current ro rd w s TT P l1 l2 id cid others :
  state kernel_pml4 l1 l2 id others w s TT P -> cid ∉ map fst (l1 ++ (id, s) :: l2) -> live w current ->
  exists r w', fork_cow kernel_pml4 current ro rd w s = Some (r, w') /\ fork_outcome l1 l2 id s cid others w TT P r w'.
Proof.
  intros Hst Hid Hcur. unfold fork_cow. destruct (new_space kernel_pml4 w) as [[c|e] w1] eqn:En.
  2: { destruct (new_space_spec kernel_pml4 w _ w1 (sy_wf _ _ _ _ _ (st_ok _ _ _ _ _ _ _ _ _ Hst)) En) as (_ & Hw1 & Hk).
       destruct (still_step kernel_pml4 l1 l2 id others w s TT P w1 Hst Hw1 Hk). eexists _, _. split; [reflexivity|]. exists TT, others. split; [done|]. split; [done|]. lia. }
  destruct (fork_start w w1 l1 l2 id s cid others TT P c Hst Hid En) as (TT1 & Ec & F1 & R1 & Hz & Hma).
  assert (Hne : current <> root c) by (intros ->; destruct Hcur; done). rewrite Ec. cbn [root].
  destruct ro; cbn [negb]; [|by eapply fork_failed; [..|by left]].
  destruct (fork_owned_spec l1 l2 id cid others s (root c) (owned s) [] w1 TT1 P eq_refl F1) as (r & w2 & TT2 & co & -> & R2 & F2 & Hr).
  pose proof (step_trans _ _ _ _ _ _ _ _ _ R1 R2) as R12. destruct r as [l|[e l]]; [|by eapply fork_failed]. destruct Hr as [-> ->].
  destruct rd; cbn [negb]; [|by eapply fork_failed; [..|by left]].
  destruct (fork_devices_spec l1 l2 id cid others s (root c) (devices s) [] w2 TT2 P eq_refl F2) as (r & w3 & TT3 & cd & -> & R3 & F3 & Hr).
  pose proof (step_trans _ _ _ _ _ _ _ _ _ R12 R3) as R123. destruct r as [l|[e l]]; [|by eapply fork_failed]. destruct Hr as [-> ->].
  eexists _, _. split; [reflexivity|]. exists TT3. split; [by apply forking_parent|]. split; [done|]. intros pg. rewrite (st_seen _ _ _ _ _ _ _ _ _ (fk_child _ _ _ _ _ _ _ _ _ _ _ _ F3)).
  eapply listed_all; [by eapply parent_inv|by apply F3].
Qed.
End Fork.
End PagingFork.
