(* ===== verification/UserSystem.v ===== *)
(** * UserSystem: all processes and their memory

    The calls, faults and stores of all processes over one physical memory,
    and the machine they implement: each process with a memory map and pages
    of its own. [exec] runs the kernel's operations; [allowed] is what each
    may do to that machine. *)

From stdpp Require Import base numbers sets list.
From S2P Require Import Prelude Errno Vma VmaSpec Paging UserMemory PagingTree PagingOps PagingSpaces PagingCow PagingSteps UserMemorySpec PagingFork.
Local Open Scope Z_scope.

Module UserSystem.
Import Paging UserMemory PagingTree PagingOps PagingDrop PagingSpaces PagingCow PagingFault PagingMap PagingSteps UserSpans UserMemorySpec PagingFork.

(** ** Lists by id *)

Definition spaces (l : list (Z * OwnedSpace)) : list (Z * AddressSpace) := map (fun x => (fst x, os_space (snd x))) l.
Definition roots (l : list (Z * OwnedSpace)) : list (Z * Z) := map (fun x => (fst x, root (os_space (snd x)))) l.

Lemma spaces_app l k : spaces (l ++ k) = spaces l ++ spaces k.
Proof. apply map_app. Qed.
Lemma spaces_fst l : map fst (spaces l) = map fst l.
Proof. unfold spaces. by rewrite map_map. Qed.
Lemma roots_fst l : map fst (roots l) = map fst l.
Proof. unfold roots. by rewrite map_map. Qed.
Lemma spaces_elem l id o : (id, o) ∈ l -> (id, os_space o) ∈ spaces l.
Proof. apply (list_elem_of_fmap_2 (fun x => (fst x, os_space (snd x)))). Qed.
Lemma spaces_elem_inv l id s : (id, s) ∈ spaces l -> exists o, (id, o) ∈ l /\ os_space o = s.
Proof. intros ([i o] & [= -> ->] & Hin)%list_elem_of_fmap. by exists o. Qed.

Lemma lookup_id_split {A} (l : list (Z * A)) id x : lookup_id l id = Some x ->
  exists l1 l2, l = l1 ++ (id, x) :: l2 /\ (id ∉ map fst l1) /\ (forall y, update_id l id y = l1 ++ (id, y) :: l2) /\ position_id l id = Some (length l1).
Proof.
  induction l as [|[i y] l IH]; cbn [lookup_id]; [done|]. destruct (Z.eqb_spec i id) as [->|Hne].
  - intros [= ->]. exists [], l. split; [done|]. split; [apply not_elem_of_nil|]. cbn [update_id position_id app length]. by rewrite Z.eqb_refl.
  - intros H. destruct (IH H) as (l1 & l2 & -> & Hn & Hu & Hp). exists ((i, y) :: l1), l2. split; [done|]. cbn [map fst update_id position_id app length].
    rewrite (proj2 (Z.eqb_neq i id)), Hp by done. split; [rewrite not_elem_of_cons; split; congruence|]. split; [|done]. intros z. by rewrite Hu.
Qed.

Lemma lookup_id_None {A} (l : list (Z * A)) id : lookup_id l id = None <-> id ∉ map fst l.
Proof.
  induction l as [|[i y] l IH]; cbn [lookup_id map fst]; [split; [intros _; apply not_elem_of_nil|done]|]. rewrite not_elem_of_cons.
  destruct (Z.eqb_spec i id) as [->|Hne]; [split; [done|by intros [? _]]|]. rewrite IH. naive_solver.
Qed.

Lemma lookup_id_elem {A} (l : list (Z * A)) id x : NoDup (map fst l) -> (lookup_id l id = Some x <-> (id, x) ∈ l).
Proof.
  intros Hnd. split.
  - intros H. destruct (lookup_id_split _ _ _ H) as (l1 & l2 & -> & _). apply elem_mid. by left.
  - intros Hin. induction l as [|[i y] l IH]; [by apply elem_of_nil in Hin|]. cbn [lookup_id]. cbn [map fst] in Hnd. apply NoDup_cons in Hnd as [Hn Hnd].
    apply elem_of_cons in Hin as [[= <- <-]|Hin]; [by rewrite Z.eqb_refl|]. destruct (Z.eqb_spec i id) as [->|]; [|by apply IH].
    exfalso. apply Hn. by apply (list_elem_of_fmap_2 fst) in Hin.
Qed.

Lemma lookup_id_perm {A} (l k : list (Z * A)) id : NoDup (map fst l) -> l ≡ₚ k -> lookup_id l id = lookup_id k id.
Proof.
  intros Hnd Hp. assert (Hnd' : NoDup (map fst k)) by (by rewrite <- Hp). destruct (lookup_id l id) as [x|] eqn:E.
  - symmetry. apply lookup_id_elem; [done|]. rewrite <- Hp. by apply lookup_id_elem.
  - symmetry. apply lookup_id_None. rewrite <- Hp. by apply lookup_id_None.
Qed.

Lemma lookup_id_app {A} (l k : list (Z * A)) id : lookup_id (l ++ k) id = match lookup_id l id with Some x => Some x | None => lookup_id k id end.
Proof. induction l as [|[i y] l IH]; cbn [lookup_id app]; [done|]. by destruct (i =? id). Qed.

Lemma lookup_update {A} (l : list (Z * A)) id x y i : lookup_id l id = Some x -> lookup_id (update_id l id y) i = if i =? id then Some y else lookup_id l i.
Proof.
  intros H. destruct (lookup_id_split _ _ _ H) as (l1 & l2 & El & Hn & Hu & _). rewrite Hu, El, !lookup_id_app. cbn [lookup_id]. rewrite (Z.eqb_sym id i).
  destruct (Z.eqb_spec i id) as [->|]; [|done]. by rewrite (proj2 (lookup_id_None l1 id) Hn).
Qed.

Lemma lookup_roots l id : lookup_id (roots l) id = (fun o => root (os_space o)) <$> lookup_id l id.
Proof. unfold roots. induction l as [|[i o] l IH]; cbn; [done|]. by destruct (i =? id). Qed.

(** ** The machine of processes *)

Abbreviation Machine := (Z -> option (MemoryMap * (Z -> option Page))).

(** The same processes, with the same maps and the same pages. *)
Inductive proc_eq : option (MemoryMap * (Z -> option Page)) -> option (MemoryMap * (Z -> option Page)) -> Prop :=
| proc_none : proc_eq None None
| proc_some m P Q : (forall pg, page_eq (P pg) (Q pg)) -> proc_eq (Some (m, P)) (Some (m, Q)).
Definition machine_eq (A B : Machine) : Prop := forall i, proc_eq (A i) (B i).

#[global] Instance proc_eq_equiv : Equivalence proc_eq.
Proof.
  split.
  - intros [[m P]|]; constructor. done.
  - intros x y []; constructor. intros pg. symmetry. auto.
  - intros x y z H1 H2. destruct H1 as [|m P Q E]; inversion H2 as [|m' P' Q' E']; subst; constructor. intros pg. by rewrite E.
Qed.

#[global] Instance machine_eq_equiv : Equivalence machine_eq.
Proof.
  split.
  - intros A i. reflexivity.
  - intros A B H i. symmetry. apply H.
  - intros A B C H1 H2 i. etransitivity; [apply H1|apply H2].
Qed.

Definition set_proc (A : Machine) (id : Z) (x : option (MemoryMap * (Z -> option Page))) : Machine := fun i => if i =? id then x else A i.

#[global] Instance set_proc_proper : Proper (machine_eq ==> eq ==> proc_eq ==> machine_eq) set_proc.
Proof. intros A B H id ? <- x y Hx i. unfold set_proc. destruct (i =? id); [done|apply H]. Qed.

(** ** Calls *)

Inductive Call : Type :=
| Brk (id address : Z)
| Mmap (id hint length : Z) (prot : Protection) (fixed : bool)
| MmapDevice (id hint length : Z) (prot : Protection) (physical : Z) (fixed : bool)
| Munmap (id start length : Z)
| Mprotect (id start length : Z) (prot : Protection)
| Fork (id : Z)
| Fault (address : Z)
| Store (address value : Z)
| Activate (id : option Z)
| Release (id : Z)
| Spawn (brk_start mmap_top : Z).

Inductive Reply : Type := Value (v : Z) | Failed (e : Errno) | Unresolved (r : CowResolution) | Rejected (e : RegistryError).
Definition reply (r : result Errno Z) : Reply := match r with Ok v => Value v | Err e => Failed e end.

(** What the kernel heap and the locks say meanwhile. *)
Record Env : Type := mkEnv { reserve : Z -> bool; reserve_owned : bool; reserve_devices : bool; busy : bool }.

(** ** What a call may do to the machine *)

Definition changes (A : Machine) (id : Z) (A' : Machine) (Q : MemoryMap -> (Z -> option Page) -> MemoryMap -> (Z -> option Page) -> Prop) : Prop :=
  match A id with
  | None => machine_eq A' A
  | Some (m, P) => exists m' P', machine_eq A' (set_proc A id (Some (m', P'))) /\ Q m P m' P'
  end.

Definition may_write (p : option Page) : bool :=
  match p with Some q => has (rights_of q) USER && has (rights_of q) WRITABLE | None => false end.

Definition allowed (A : Machine) (current : option Z) (c : Call) (r : Reply) (A' : Machine) : Prop :=
  match c with
  | Brk id a => changes A id A' (fun m P m' P' => exists b, r = Value b /\ brk_outcome P a m m' b P')
  | Mmap id _ len prot fixed => changes A id A' (fun _ P _ P' => exists x, r = reply x /\ mapped_outcome P len fixed (fun _ => zero_page prot) x P')
  | MmapDevice id _ len prot f fixed =>
      changes A id A' (fun _ P _ P' => exists x, r = reply x /\ mapped_outcome P len fixed (fun a => device_page prot (page_of a) f) x P')
  | Munmap id s len => changes A id A' (fun _ P _ P' => forall pg, 0 <= pg < PAGES -> page_eq (P' pg)
      (match r with Value _ => if in_range s (s + next_multiple_of len 4096) (pg * 4096) then None else P pg | _ => P pg end))
  | Mprotect id s len prot => changes A id A' (fun m P _ P' => exists x, r = reply (result_map (fun _ => 0) x) /\ protected_outcome m P s len prot x P')
  | Fork id =>
      match r with
      | Value cid => A cid = None /\ exists m P, A id = Some (m, P) /\ machine_eq A' (set_proc A cid (Some (m, P)))
      | _ => machine_eq A' A
      end
  | Fault _ | Activate _ => machine_eq A' A
  | Store va v =>
      match r with
      | Value _ => exists id m P, current = Some id /\ A id = Some (m, P) /\ may_write (P (page_of va)) = true /\
          machine_eq A' (set_proc A id (Some (m, set_page P (page_of va) (store_page (va mod 4096 / 8) v (P (page_of va))))))
      | Unresolved OutOfMemory => machine_eq A' A
      | _ => machine_eq A' A /\ forall id m P, current = Some id -> A id = Some (m, P) -> may_write (P (page_of va)) = false
      end
  | Release id => match r with Value _ => machine_eq A' (set_proc A id None) | _ => machine_eq A' A /\ A id = None end
  | Spawn bs top =>
      match r with
      | Value cid => A cid = None /\ machine_eq A' (set_proc A cid (Some (mkMap [] bs bs top, fun _ => None)))
      | _ => machine_eq A' A
      end
  end.

Section System.
Context {W : Type} {HF : Frames W} {HL : FramesLaws W} (kernel_pml4 : Z -> Z) (kernel_root : Z) {exact : bool}.
Implicit Types (w : W) (TT : Z -> nat -> Z -> option Z).

Definition machine w (m : Manager) TT : Machine := fun id =>
  match lookup_id (owned_spaces m) id with Some o => Some (os_map o, seen w (os_space o) (TT id)) | None => None end.

(** ** What the kernel does *)

Definition with_value {A} (f : A -> Z) (x : option (result Errno A * Manager * W)) : option (Reply * Manager * W) :=
  match x with Some (r, m, w) => Some (reply (result_map f r), m, w) | None => None end.

(** A store by the running process; a fault that was resolved retries it. *)
Definition exec_store (m : Manager) w (va v : Z) : option (Reply * Manager * W) :=
  match active m with
  | None => Some (Unresolved NotCow, m, w)
  | Some id =>
    match lookup_id (owned_spaces m) id with
    | None => Some (Unresolved NotCow, m, w)
    | Some o =>
      match user_store w (os_space o) va v with
      | Some w => Some (Value 0, m, w)
      | None =>
        match resolve_cow_active false w m va with
        | None => None
        | Some (Resolved, m, w) =>
          match lookup_id (owned_spaces m) id with
          | None => Some (Unresolved NotCow, m, w)
          | Some o =>
            match user_store w (os_space o) va v with
            | Some w => Some (Value 0, m, w)
            | None => Some (Unresolved NotCow, m, w)
            end
          end
        | Some (r, m, w) => Some (Unresolved r, m, w)
        end
      end
    end
  end.

Definition exec (e : Env) w (m : Manager) (c : Call) : option (Reply * Manager * W) :=
  match c with
  | Brk id a => match sys_brk (reserve e) w m id a with Some (b, m, w) => Some (Value b, m, w) | None => None end
  | Mmap id hint len prot fixed => with_value (fun a => a) (sys_mmap (reserve e) w m id hint len prot fixed)
  | MmapDevice id hint len prot f fixed => with_value (fun a => a) (sys_mmap_device (reserve e) w m id hint len prot f fixed)
  | Munmap id s len => with_value (fun _ => 0) (sys_munmap w m id s len)
  | Mprotect id s len prot => with_value (fun _ => 0) (sys_mprotect w m id s len prot)
  | Fork id => with_value (fun cid => cid) (fork_space kernel_pml4 (reserve_owned e) (reserve_devices e) w m id)
  | Fault va =>
    match resolve_cow_active (busy e) w m va with
    | Some (Resolved, m, w) => Some (Value 0, m, w)
    | Some (r, m, w) => Some (Unresolved r, m, w)
    | None => None
    end
  | Store va v => exec_store m w va v
  | Activate id =>
    match activate_if_changed kernel_root m id with
    | (Ok changed, m) => Some (Value (Z.b2z changed), m, w)
    | (Err x, m) => Some (Rejected x, m, w)
    end
  | Release id =>
    match release w m id with
    | Some (Ok _, m, w) => Some (Value 0, m, w)
    | Some (Err x, m, w) => Some (Rejected x, m, w)
    | None => None
    end
  | Spawn bs top =>
    match new_space kernel_pml4 w, Vma.new [] bs top with
    | (Ok s, w), Ok map => let '(id, m) := register_owned_with_map m s map in Some (Value id, m, w)
    | (_, w), _ => Some (Failed ENOMEM, m, w)
    end
  end.

(** The arguments a call can come with. The memory of a device is not the
    allocator's. *)
Definition valid w (m : Manager) (c : Call) : Prop :=
  match c with
  | Brk id a => is_u64 a
  | Mmap _ hint len _ _ => is_u64 hint /\ is_u64 len
  | MmapDevice _ hint len _ f _ => is_u64 hint /\ is_u64 len /\
      forall i, 0 <= i -> i * 4096 < next_multiple_of len 4096 -> is_frame (f + i * 4096) /\ ~ managed (f + i * 4096)
  | Munmap _ s len => is_u64 s /\ is_u64 len
  | Mprotect _ s len _ => is_u64 s /\ is_u64 len
  | Fork _ => next_id (registry m) < U64_MAX
  | Fault va | Store va _ => 0 <= va < 2 ^ 47
  | Activate id => id <> Some NO_SPACE
  | Release id => active m <> Some id
  | Spawn bs top => next_id (registry m) < U64_MAX /\ 0 <= bs /\ (4096 | bs) /\ (4096 | top) /\ top <= 2 ^ 47
  end.

(** A [brk] of a process whose heap is in one piece. *)
Definition intact (m : Manager) (c : Call) : Prop :=
  match c with Brk id _ => forall o, lookup_id (owned_spaces m) id = Some o -> heap_intact (os_map o) | _ => True end.

(** The state of the kernel: the page tables and counts are right, every map
    agrees with the tables ([exact]ly or not), and the registry and the processor's root are
    those of the registered spaces. *)
Record system_ok w (m : Manager) TT (others : Z -> Z) : Prop := mk_system_ok {
  sm_sys : sys_ok kernel_pml4 w (spaces (owned_spaces m)) TT others;
  sm_maps : forall id o, (id, o) ∈ owned_spaces m -> agreed exact (os_map o) (seen w (os_space o) (TT id));
  sm_entries : entries (registry m) ≡ₚ roots (owned_spaces m);
  sm_next : forall id, id ∈ map fst (owned_spaces m) -> id < next_id (registry m);
  sm_next_bound : next_id (registry m) <= U64_MAX;
  sm_active : match active m with
              | None => cr3 m = kernel_root
              | Some id => exists o, (id, o) ∈ owned_spaces m /\ cr3 m = root (os_space o)
              end;
  sm_kernel : ~ managed kernel_root
}.

Lemma system_ids w m TT others : system_ok w m TT others -> NoDup (map fst (owned_spaces m)).
Proof. intros H. rewrite <- spaces_fst. apply (sm_sys _ _ _ _ H). Qed.

(** ** One process changes *)

Section Serve.
Context (w w' : W) (m : Manager) (TT TT' : Z -> nat -> Z -> option Z) (others : Z -> Z) (id : Z) (o o' : OwnedSpace) (P : Z -> option Page).
Context (l1 l2 : list (Z * OwnedSpace)) (Hok : system_ok w m TT others) (El : owned_spaces m = l1 ++ (id, o) :: l2).

Lemma serve_state : state kernel_pml4 (spaces l1) (spaces l2) id others w (os_space o) TT (seen w (os_space o) (TT id)).
Proof. pose proof (sm_sys _ _ _ _ Hok) as Hs. rewrite El, spaces_app in Hs. by split. Qed.

Lemma serve_agreed : agreed exact (os_map o) (seen w (os_space o) (TT id)).
Proof. apply (sm_maps _ _ _ _ Hok). rewrite El. apply elem_mid. by left. Qed.

Lemma serve_other i o2 : (i, o2) ∈ l1 ++ l2 -> (i, o2) ∈ owned_spaces m /\ (i, os_space o2) ∈ spaces l1 ++ spaces l2 /\ i <> id.
Proof.
  intros Hin. assert (Hin' : (i, o2) ∈ owned_spaces m) by (rewrite El; apply elem_mid; by right). split; [done|]. split.
  - rewrite <- spaces_app. by apply spaces_elem.
  - intros ->. pose proof (system_ids _ _ _ _ Hok) as Hnd. rewrite El, map_app in Hnd. cbn [map fst] in Hnd. rewrite <- Permutation_middle in Hnd.
    apply NoDup_cons in Hnd as [Hn _]. apply Hn. rewrite <- map_app. by apply (list_elem_of_fmap_2 fst) in Hin.
Qed.

(** The others see what they saw. *)
Lemma serve_others : step (spaces l1) (spaces l2) id w TT w' TT' -> forall i o2, (i, o2) ∈ l1 ++ l2 -> forall pg, page_eq (seen w' (os_space o2) (TT' i) pg) (seen w (os_space o2) (TT i) pg).
Proof.
  intros [S1 S2 _] i o2 Hin pg. destruct (serve_other i o2 Hin) as (Hin' & Hsp & _). rewrite (S1 _ _ Hsp).
  eapply untouched_seen; [|by apply S2]. eapply sys_space; [apply (sm_sys _ _ _ _ Hok)|]. by apply spaces_elem.
Qed.

Lemma machine_others i : step (spaces l1) (spaces l2) id w TT w' TT' -> i <> id ->
  proc_eq (match lookup_id (l1 ++ l2) i with Some o2 => Some (os_map o2, seen w' (os_space o2) (TT' i)) | None => None end) (machine w m TT i).
Proof.
  intros Hsp Hne. unfold machine. rewrite El, !lookup_id_app. cbn [lookup_id]. rewrite (proj2 (Z.eqb_neq id i)) by congruence. rewrite <- lookup_id_app.
  destruct (lookup_id (l1 ++ l2) i) as [o2|] eqn:E; constructor. apply serve_others; [done|].
  destruct (lookup_id_split _ _ _ E) as (a & b & -> & _). apply elem_mid. by left.
Qed.

Context (others' : Z -> Z) (Hst : state kernel_pml4 (spaces l1) (spaces l2) id others' w' (os_space o') TT' P) (Hsp : step (spaces l1) (spaces l2) id w TT w' TT').
Context (Hag : agreed exact (os_map o') P).

Lemma serve_root : root (os_space o') = root (os_space o).
Proof.
  pose proof (sp_root _ _ _ _ _ _ _ Hsp) as E.
  rewrite (tr_root _ _ _ _ (sy_tree _ _ _ _ _ (st_ok _ _ _ _ _ _ _ _ _ Hst) id (os_space o') (self_in _ _ _ _))) in E.
  rewrite (tr_root _ _ _ _ (sy_tree _ _ _ _ _ (st_ok _ _ _ _ _ _ _ _ _ serve_state) id (os_space o) (self_in _ _ _ _))) in E. congruence.
Qed.

Lemma served_system : system_ok w' (set_owned m (l1 ++ (id, o') :: l2)) TT' others'.
Proof.
  pose proof (sm_entries _ _ _ _ Hok) as He. pose proof (sm_active _ _ _ _ Hok) as Hact. pose proof (sm_next _ _ _ _ Hok) as Hnx. rewrite El in *. split; cbn [registry owned_spaces cr3 set_owned].
  - rewrite spaces_app. apply Hst.
  - intros i o2 [[= -> ->]|Hin]%elem_mid.
    + eapply agreed_eq; [|exact Hag]. intros pg. symmetry. apply Hst.
    + eapply agreed_eq; [|apply (sm_maps _ _ _ _ Hok i o2); by apply serve_other]. intros pg. symmetry. by apply serve_others.
  - rewrite He. unfold roots. rewrite !map_app. cbn [map fst snd]. by rewrite serve_root.
  - intros i. rewrite map_app. cbn [map fst]. rewrite map_app in Hnx. apply Hnx.
  - apply Hok.
  - change (active (set_owned m (l1 ++ (id, o') :: l2))) with (active m). destruct (active m) as [a|]; [|done].
    destruct Hact as (oa & Hin & ->). apply elem_mid in Hin as [[= -> ->]|Hin].
    + exists o'. split; [apply elem_mid; by left|]. symmetry. apply serve_root.
    + exists oa. split; [apply elem_mid; by right|done].
  - apply Hok.
Qed.

Lemma served_machine : machine_eq (machine w' (set_owned m (l1 ++ (id, o') :: l2)) TT') (set_proc (machine w m TT) id (Some (os_map o', P))).
Proof.
  intros i. unfold set_proc. destruct (Z.eqb_spec i id) as [->|Hne].
  - unfold machine. cbn [owned_spaces set_owned]. rewrite lookup_id_app. cbn [lookup_id]. rewrite Z.eqb_refl.
    assert (Hn : lookup_id l1 id = None).
    { apply lookup_id_None. intros Hx. pose proof (system_ids _ _ _ _ Hok) as Hnd. rewrite El, map_app in Hnd. apply NoDup_app in Hnd as (_ & Hd & _). apply (Hd _ Hx). apply list_elem_of_here. }
    rewrite Hn. constructor. apply Hst.
  - rewrite <- (machine_others i Hsp Hne). unfold machine. cbn [owned_spaces set_owned]. rewrite !lookup_id_app. cbn [lookup_id].
    rewrite (proj2 (Z.eqb_neq id i)) by congruence. done.
Qed.
End Serve.

(** ** Every call *)

(** What a call promises. Only a failing fork may leave references that
    belong to nobody. *)
Definition good_call w m TT others (c : Call) (r : Reply) m' w' : Prop :=
  exists TT' others', system_ok w' m' TT' others' /\ allowed (machine w m TT) (active m) c r (machine w' m' TT') /\
    (forall g, others g <= others' g) /\ ((forall id, c = Fork id -> exists v, r = Value v) -> others' = others).

Lemma good_same w m TT others c r m' w' TT' :
  system_ok w' m' TT' others -> allowed (machine w m TT) (active m) c r (machine w' m' TT') -> good_call w m TT others c r m' w'.
Proof. intros H1 H2. exists TT', others. split; [done|]. split; [done|]. split; [lia|done]. Qed.

Lemma with_space_step {R} w m TT others id (op : W -> OwnedSpace -> option (result Errno R * OwnedSpace * W))
  (Q : OwnedSpace -> (Z -> option Page) -> result Errno R -> OwnedSpace -> (Z -> option Page) -> Prop) :
  system_ok w m TT others ->
  (forall l1 l2 o, lookup_id (owned_spaces m) id = Some o -> owned_spaces m = l1 ++ (id, o) :: l2 -> exists r o' w', op w o = Some (r, o', w') /\
     served (exact := exact) kernel_pml4 (spaces l1) (spaces l2) id others w TT o' w' (Q o (seen w (os_space o) (TT id)) r o')) ->
  exists r m' w' TT', with_space w m id op = Some (r, m', w') /\ system_ok w' m' TT' others /\
    match lookup_id (owned_spaces m) id with
    | None => machine_eq (machine w' m' TT') (machine w m TT)
    | Some o => exists o' P', machine_eq (machine w' m' TT') (set_proc (machine w m TT) id (Some (os_map o', P'))) /\ Q o (seen w (os_space o) (TT id)) r o' P'
    end.
Proof.
  intros Hok Hop. unfold with_space, with_owned_mut. destruct (lookup_id (owned_spaces m) id) as [o|] eqn:Eo.
  2: { eexists _, _, _, TT. split; [reflexivity|]. done. }
  destruct (lookup_id_split _ _ _ Eo) as (l1 & l2 & El & _ & Hu & _). destruct (Hop l1 l2 o eq_refl El) as (r & o' & w' & -> & TT' & P' & Hsp & Hst & Hag & HQ).
  rewrite Hu. eexists _, _, _, TT'. split; [reflexivity|]. split; [by eapply served_system|]. exists o', P'. split; [by eapply served_machine|done].
Qed.

(** What [with_space_step] says of the machine. *)
Lemma changes_intro w m TT id A' Q :
  match lookup_id (owned_spaces m) id with
  | None => machine_eq A' (machine w m TT)
  | Some o => exists o' P', machine_eq A' (set_proc (machine w m TT) id (Some (os_map o', P'))) /\ Q (os_map o) (seen w (os_space o) (TT id)) (os_map o') P'
  end -> changes (machine w m TT) id A' Q.
Proof.
  unfold changes. replace (machine w m TT id) with (match lookup_id (owned_spaces m) id with Some o => Some (os_map o, seen w (os_space o) (TT id)) | None => None end) by done.
  destruct (lookup_id (owned_spaces m) id) as [o|]; [|done]. intros (o' & P' & H1 & H2). by exists (os_map o'), P'.
Qed.

Section Calls.
Context (e : Env) (w : W) (m : Manager) (TT : Z -> nat -> Z -> option Z) (others : Z -> Z) (Hok : system_ok w m TT others).

Lemma brk_good id a : valid w m (Brk id a) -> (exact = true -> intact m (Brk id a)) -> exists r m' w', exec e w m (Brk id a) = Some (r, m', w') /\ good_call w m TT others (Brk id a) r m' w'.
Proof.
  intros Ha Hh. cbn [valid intact] in Ha, Hh. cbn [exec]. unfold sys_brk.
  destruct (with_space_step w m TT others id (fun w o => match brk_in (reserve e) w o a with Some (b, o, w) => Some (Ok b, o, w) | None => None end)
    (fun o P r o' P' => exists b, r = Ok b /\ brk_outcome P a (os_map o) (os_map o') b P') Hok) as (r & m' & w' & TT' & -> & Hok' & Hm).
  { intros l1 l2 o Eo El. destruct (brk_in_spec kernel_pml4 (spaces l1) (spaces l2) id others (reserve e) w o TT _ a (serve_state w m TT others id o l1 l2 Hok El) (serve_agreed w m TT others id o l1 l2 Hok El) Ha (fun E => Hh E o Eo))
      as (b & o' & w' & -> & TT' & P' & H1 & H2 & H3 & H4). eexists _, _, _. split; [reflexivity|]. exists TT', P'. split; [done|]. split; [done|]. split; [done|]. by exists b. }
  destruct r as [b|err]; eexists _, _, _; (split; [reflexivity|]); apply (good_same _ _ _ _ _ _ _ _ TT' Hok'); cbn [allowed]; apply changes_intro;
    (destruct (lookup_id (owned_spaces m) id); [|done]); destruct Hm as (o' & P' & H1 & b' & E & H2); [|done]. injection E as <-. exists o', P'. split; [done|]. by exists b.
Qed.

Lemma mmap_good id hint len prot fixed :
  valid w m (Mmap id hint len prot fixed) -> exists r m' w', exec e w m (Mmap id hint len prot fixed) = Some (r, m', w') /\ good_call w m TT others (Mmap id hint len prot fixed) r m' w'.
Proof.
  intros [Hh Hl]. cbn [exec]. unfold sys_mmap.
  destruct (with_space_step w m TT others id (fun w o => mmap_in (reserve e) w o hint len prot fixed)
    (fun o P r o' P' => mapped_outcome P len fixed (fun _ => zero_page prot) r P') Hok) as (r & m' & w' & TT' & -> & Hok' & Hm).
  { intros l1 l2 o Eo El. by apply mmap_in_spec; [eapply serve_state|eapply serve_agreed|..]. }
  eexists _, _, _. split; [reflexivity|]. apply (good_same _ _ _ _ _ _ _ _ TT' Hok'). cbn [allowed]. apply changes_intro.
  destruct (lookup_id (owned_spaces m) id); [|done]. destruct Hm as (o' & P' & H1 & H2). exists o', P'. split; [done|]. exists r. split; [by destruct r|done].
Qed.

Lemma mmap_device_good id hint len prot f fixed :
  valid w m (MmapDevice id hint len prot f fixed) ->
  exists r m' w', exec e w m (MmapDevice id hint len prot f fixed) = Some (r, m', w') /\ good_call w m TT others (MmapDevice id hint len prot f fixed) r m' w'.
Proof.
  intros (Hh & Hl & Hf). cbn [exec]. unfold sys_mmap_device.
  destruct (with_space_step w m TT others id (fun w o => mmap_device_in (reserve e) w o hint len prot f fixed)
    (fun o P r o' P' => mapped_outcome P len fixed (fun a => device_page prot (page_of a) f) r P') Hok) as (r & m' & w' & TT' & -> & Hok' & Hm).
  { intros l1 l2 o Eo El. by apply mmap_device_in_spec; [eapply serve_state|eapply serve_agreed|..]. }
  eexists _, _, _. split; [reflexivity|]. apply (good_same _ _ _ _ _ _ _ _ TT' Hok'). cbn [allowed]. apply changes_intro.
  destruct (lookup_id (owned_spaces m) id); [|done]. destruct Hm as (o' & P' & H1 & H2). exists o', P'. split; [done|]. exists r. split; [by destruct r|done].
Qed.

Lemma munmap_good id s0 len :
  valid w m (Munmap id s0 len) -> exists r m' w', exec e w m (Munmap id s0 len) = Some (r, m', w') /\ good_call w m TT others (Munmap id s0 len) r m' w'.
Proof.
  intros [Hs Hl]. cbn [exec]. unfold sys_munmap.
  destruct (with_space_step w m TT others id (fun w o => munmap_in w o s0 len)
    (fun o P r o' P' => forall pg, 0 <= pg < PAGES -> page_eq (P' pg) (match r with Ok _ => if in_range s0 (s0 + next_multiple_of len 4096) (pg * 4096) then None else P pg | Err _ => P pg end)) Hok)
    as (r & m' & w' & TT' & -> & Hok' & Hm).
  { intros l1 l2 o Eo El. by apply munmap_in_spec; [eapply serve_state|eapply serve_agreed|..]. }
  eexists _, _, _. split; [reflexivity|]. apply (good_same _ _ _ _ _ _ _ _ TT' Hok'). cbn [allowed]. apply changes_intro.
  destruct (lookup_id (owned_spaces m) id); [|done]. destruct Hm as (o' & P' & H1 & H2). exists o', P'. split; [done|]. by destruct r.
Qed.

Lemma mprotect_good id s0 len prot :
  valid w m (Mprotect id s0 len prot) -> exists r m' w', exec e w m (Mprotect id s0 len prot) = Some (r, m', w') /\ good_call w m TT others (Mprotect id s0 len prot) r m' w'.
Proof.
  intros [Hs Hl]. cbn [exec]. unfold sys_mprotect.
  destruct (with_space_step w m TT others id (fun w o => Some (mprotect_in w o s0 len prot))
    (fun o P r o' P' => protected_outcome (os_map o) P s0 len prot r P') Hok)
    as (r & m' & w' & TT' & -> & Hok' & Hm).
  { intros l1 l2 o Eo El. destruct (mprotect_in_spec (exact := exact) kernel_pml4 (spaces l1) (spaces l2) id others w o TT (seen w (os_space o) (TT id)) s0 len prot) as (r & o' & w' & -> & Hse);
      [by eapply serve_state|by eapply serve_agreed|done|done|]. eexists _, _, _. split; [reflexivity|done]. }
  eexists _, _, _. split; [reflexivity|]. apply (good_same _ _ _ _ _ _ _ _ TT' Hok'). cbn [allowed]. apply changes_intro.
  destruct (lookup_id (owned_spaces m) id); [|done]. destruct Hm as (o' & P' & H1 & H2). exists o', P'. split; [done|]. by exists r.
Qed.
End Calls.
End System.
End UserSystem.

(** * Forks, faults, and the claims about user memory

    The calls that touch more than one process's entry (fork, spawn, release,
    activate) and the stores with their faults, and then the statements about
    all of them. *)

Module UserSystemSpec.
Import Paging UserMemory PagingTree PagingOps PagingDrop PagingSpaces PagingCow PagingFault PagingMap PagingSteps UserSpans UserMemorySpec PagingFork UserSystem.

Section Spec.
Context {W : Type} {HF : Frames W} {HL : FramesLaws W} (kernel_pml4 : Z -> Z) (kernel_root : Z) {exact : bool}.
Implicit Types (w : W) (TT : Z -> nat -> Z -> option Z).
Abbreviation system_ok := (system_ok (exact := exact) kernel_pml4 kernel_root).
Abbreviation good_call := (good_call (exact := exact) kernel_pml4 kernel_root).
Abbreviation exec := (exec kernel_pml4 kernel_root).

Lemma update_same {A} (l : list (Z * A)) id x : lookup_id l id = Some x -> update_id l id x = l.
Proof. intros H. destruct (lookup_id_split _ _ _ H) as (l1 & l2 & E & _ & Hu & _). by rewrite Hu. Qed.

Lemma set_owned_same m : set_owned m (owned_spaces m) = m.
Proof. by destruct m. Qed.

(** The processor's root is in use, and no fresh frame. *)
Lemma current_live w m TT others : system_ok w m TT others -> live w (cr3 m).
Proof.
  intros Hok. pose proof (sm_active _ _ _ _ _ _ Hok) as Ha. destruct (active m) as [id|].
  - destruct Ha as (o & Hin & ->). pose proof (sy_tree _ _ _ _ _ (sm_sys _ _ _ _ _ _ Hok) _ _ (spaces_elem _ _ _ Hin)) as Ht. eapply tree_live; [exact Ht|apply Ht].
  - rewrite Ha. right. apply Hok.
Qed.

(** A change of the allocator alone. *)
Lemma still_system w m TT others w' : system_ok w m TT others -> frames_wf w' -> keeps (fun _ => False) w w' ->
  system_ok w' m TT others /\ machine_eq (machine w' m TT) (machine w m TT).
Proof.
  intros Hok Hw' Hk. pose proof (sm_sys _ _ _ _ _ _ Hok) as Hs. destruct (sys_agree kernel_pml4 w w' _ _ _ _ Hs Hw' Hk ltac:(by intros g [])) as [Ha Hown].
  assert (Hse : forall id o, (id, o) ∈ owned_spaces m -> forall pg, page_eq (seen w' (os_space o) (TT id) pg) (seen w (os_space o) (TT id) pg)).
  { intros id o Hin pg. pose proof (spaces_elem _ _ _ Hin) as Hin'. eapply untouched_seen; [by eapply sys_space|]. split; [by eapply Ha|]. intros x j Hx. by eapply Hown. }
  split; [split; try apply Hok|].
  - by eapply sys_still.
  - intros id o Hin. eapply agreed_eq; [|by apply (sm_maps _ _ _ _ _ _ Hok id o)]. intros pg. symmetry. by apply Hse.
  - intros i. unfold machine. destruct (lookup_id (owned_spaces m) i) as [o|] eqn:Eo; constructor. apply Hse. apply lookup_id_elem; [by eapply system_ids|done].
Qed.

(** ** New processes *)

Lemma fresh_id w m TT others : system_ok w m TT others -> next_id (registry m) ∉ map fst (owned_spaces m).
Proof. intros Hok Hin. apply (sm_next _ _ _ _ _ _ Hok) in Hin. lia. Qed.

Lemma register_system w m TT others w' TT' others' s mp cid m' :
  system_ok w m TT others -> next_id (registry m) < U64_MAX -> register_owned_with_map m s mp = (cid, m') ->
  sys_ok kernel_pml4 w' (spaces (owned_spaces m) ++ [(cid, s)]) TT' others' ->
  (forall id o, (id, o) ∈ owned_spaces m -> forall pg, page_eq (seen w' (os_space o) (TT' id) pg) (seen w (os_space o) (TT id) pg)) ->
  agreed exact mp (seen w' s (TT' cid)) ->
  system_ok w' m' TT' others' /\ machine w m TT cid = None /\ machine_eq (machine w' m' TT') (set_proc (machine w m TT) cid (Some (mp, seen w' s (TT' cid)))).
Proof.
  intros Hok Hnx E Hs Hse Hag. pose proof (fresh_id _ _ _ _ Hok) as Hfr. unfold register_owned_with_map, register in E. injection E as <- <-.
  pose proof (proj2 (lookup_id_None _ _) Hfr) as Hnone. split; [|split].
  - split; cbn [registry owned_spaces entries next_id cr3].
    + by rewrite spaces_app.
    + intros id o [Hin|Hin]%elem_of_app.
      * eapply agreed_eq; [|by apply (sm_maps _ _ _ _ _ _ Hok id o)]. intros pg. symmetry. by apply Hse.
      * apply list_elem_of_singleton in Hin as [= -> ->]. done.
    + unfold roots. rewrite map_app. cbn [map fst snd os_space]. by rewrite (sm_entries _ _ _ _ _ _ Hok).
    + intros id. rewrite map_app. cbn [map fst]. intros [Hin|Hin]%elem_of_app; [apply (sm_next _ _ _ _ _ _ Hok) in Hin; lia|].
      apply list_elem_of_singleton in Hin as ->. lia.
    + lia.
    + pose proof (sm_active _ _ _ _ _ _ Hok) as Ha. unfold active in *. cbn [active_space]. case_if; [done|]. destruct Ha as (o & Hin & Ec).
      exists o. split; [apply elem_of_app; by left|done].
    + apply Hok.
  - unfold machine. by rewrite Hnone.
  - intros i. unfold set_proc, machine. cbn [owned_spaces]. rewrite lookup_id_app. cbn [lookup_id]. rewrite (Z.eqb_sym (next_id _) i).
    destruct (Z.eqb_spec i (next_id (registry m))) as [->|Hne]; [by rewrite Hnone|]. destruct (lookup_id (owned_spaces m) i) as [o|] eqn:Eo; constructor.
    cbn [os_map]. apply Hse. apply lookup_id_elem; [by eapply system_ids|done].
Qed.

(** An empty space for an empty map. *)
Lemma empty_agreed bs top : 0 <= bs -> (4096 | bs) -> (4096 | top) -> top <= 2 ^ 47 -> agreed exact (mkMap [] bs bs top) (fun _ => None).
Proof.
  intros H1 H2 H3 H4. split; [|done|done|done| |done].
  - split; [done|done|split; [done|]|cbn; lia]. cbn [mmap_top]. unfold U64_MAX, U64_MOD. lia.
  - cbn [brk brk_start]. intros e [-> _]%checked_next_multiple_of_Some. rewrite next_multiple_of_id by done. lia.
Qed.

Lemma spawn_good e w m TT others bs top :
  system_ok w m TT others -> valid w m (Spawn bs top) -> exists r m' w', exec e w m (Spawn bs top) = Some (r, m', w') /\ good_call w m TT others (Spawn bs top) r m' w'.
Proof.
  intros Hok (Hnx & H1 & H2 & H3 & H4). cbn [UserSystem.exec]. destruct (new_space kernel_pml4 w) as [[s|err] w'] eqn:En.
  - change (Vma.new [] bs top) with (@Ok Errno MemoryMap (mkMap [] bs bs top)). destruct (register_owned_with_map m s (mkMap [] bs bs top)) as [cid m'] eqn:Er.
    assert (Ec : cid = next_id (registry m)) by (unfold register_owned_with_map, register in Er; by injection Er).
    assert (Hid : cid ∉ map fst (spaces (owned_spaces m))) by (rewrite spaces_fst, Ec; by eapply fresh_id).
    destruct (sys_add kernel_pml4 w w' (spaces (owned_spaces m)) TT others cid s (sm_sys _ _ _ _ _ _ Hok) Hid En) as [Hs Hun].
    destruct (register_system w m TT others w' _ others s _ cid m' Hok Hnx Er Hs) as (H5 & H6 & H7).
    { intros id o Hin pg. pose proof (spaces_elem _ _ _ Hin) as Hin'. rewrite set_tree_ne.
      - eapply untouched_seen; [eapply sys_space; [apply (sm_sys _ _ _ _ _ _ Hok)|exact Hin']|by apply Hun].
      - intros ->. apply Hid. by apply (list_elem_of_fmap_2 fst) in Hin'. }
    { eapply agreed_eq; [|by apply empty_agreed]. intros pg. rewrite set_tree_eq. unfold seen, page_at. by rewrite view_root_only, has_0. }
    exists (Value cid), m', w'. split; [cbv [register_owned_with_map register] in Er; by injection Er as <- <-|].
    eapply good_same; [exact H5|]. cbn [allowed]. split; [done|]. rewrite H7. intros i. unfold set_proc.
    destruct (i =? cid); [|done]. constructor. intros pg. rewrite set_tree_eq. unfold seen, page_at. by rewrite view_root_only, has_0.
  - destruct (new_space_spec kernel_pml4 w _ w' (sy_wf _ _ _ _ _ (sm_sys _ _ _ _ _ _ Hok)) En) as (_ & Hw' & Hk).
    destruct (still_system _ _ _ _ w' Hok Hw' Hk). eexists _, _, _. split; [reflexivity|]. by eapply good_same.
Qed.

(** ** Fork *)

Lemma fork_good e w m TT others id :
  system_ok w m TT others -> valid w m (Fork id) -> exists r m' w', exec e w m (Fork id) = Some (r, m', w') /\ good_call w m TT others (Fork id) r m' w'.
Proof.
  intros Hok Hnx. cbn [valid] in Hnx. cbn [UserSystem.exec]. unfold fork_space, with_owned_mut. destruct (lookup_id (owned_spaces m) id) as [o|] eqn:Eo.
  2: { eexists _, _, _. split; [reflexivity|]. eapply good_same; [exact Hok|cbn; reflexivity]. }
  destruct (lookup_id_split _ _ _ Eo) as (l1 & l2 & El & _ & Hu & _). set (cid := next_id (registry m)).
  pose proof (serve_state kernel_pml4 kernel_root w m TT others id o l1 l2 Hok El) as Hst. pose proof (serve_agreed kernel_pml4 kernel_root w m TT others id o l1 l2 Hok El) as Hag.
  assert (Esp : spaces l1 ++ (id, os_space o) :: spaces l2 = spaces (owned_spaces m)) by (by rewrite El, spaces_app).
  assert (Hid : cid ∉ map fst (spaces l1 ++ (id, os_space o) :: spaces l2)) by (rewrite Esp, spaces_fst; by eapply fresh_id).
  destruct (fork_cow_spec kernel_pml4 (cr3 m) (reserve_owned e) (reserve_devices e) w (os_space o) TT _ _ _ id cid others Hst Hid (current_live _ _ _ _ Hok)) as (r & w' & -> & Ho).
  assert (Hself : forall TT' P, (forall pg, page_eq (P pg) (seen w (os_space o) (TT id) pg)) -> step (spaces l1) (spaces l2) id w TT w' TT' -> (forall pg, page_eq (seen w' (os_space o) (TT' id) pg) (P pg)) ->
    forall i o2, (i, o2) ∈ owned_spaces m -> forall pg, page_eq (seen w' (os_space o2) (TT' i) pg) (seen w (os_space o2) (TT i) pg)).
  { intros TT' P HP Hsp Hse i o2 Hin pg. rewrite El in Hin. apply elem_mid in Hin as [[= -> ->]|Hin]; [by rewrite Hse|]. by eapply (serve_others kernel_pml4 kernel_root w w' m TT TT' others id o l1 l2 Hok El). }
  destruct r as [c|err]; cbn [fork_outcome] in Ho.
  - rewrite (update_same _ _ _ Eo), set_owned_same. destruct Ho as (TT' & Hst' & Hsp & Hc). destruct (register_owned_with_map m c (os_map o)) as [cid' m'] eqn:Er.
    assert (cid' = cid) as -> by (unfold register_owned_with_map, register in Er; by injection Er).
    destruct (register_system w m TT others w' TT' others c (os_map o) cid m' Hok Hnx Er) as (H5 & H6 & H7).
    { rewrite <- Esp, <- app_assoc. apply Hst'. }
    { by eapply Hself; [..|apply Hst']. }
    { eapply agreed_eq; [|exact Hag]. intros pg. symmetry. apply Hc. }
    eexists _, _, _. split; [reflexivity|]. eapply good_same; [exact H5|]. cbn [allowed result_map reply]. split; [done|].
    exists (os_map o), (seen w (os_space o) (TT id)). split; [unfold machine; by rewrite Eo|]. rewrite H7. intros i. unfold set_proc. destruct (i =? cid); [|done]. by constructor.
  - destruct Ho as (TT' & others' & Hst' & Hsp & Hge).
    pose proof (served_system kernel_pml4 kernel_root w w' m TT TT' others id o o _ l1 l2 Hok El others' Hst' Hsp Hag) as H1.
    pose proof (served_machine kernel_pml4 kernel_root w w' m TT TT' others id o o _ l1 l2 Hok El others' Hst' Hsp) as H2.
    rewrite Hu. eexists _, _, _. split; [reflexivity|]. exists TT', others'. split; [done|]. split; [|split; [done|intros Hx; by destruct (Hx id eq_refl)]].
    cbn [allowed result_map reply]. rewrite H2. intros i. unfold set_proc, machine. destruct (Z.eqb_spec i id) as [->|]; [by rewrite Eo|done].
Qed.

(** ** Switching and ending *)

Lemma activate_good e w m TT others id :
  system_ok w m TT others -> exists r m' w', exec e w m (Activate id) = Some (r, m', w') /\ good_call w m TT others (Activate id) r m' w'.
Proof.
  intros Hok. cbn [UserSystem.exec]. unfold activate_if_changed. case_if; [eexists _, _, _; split; [reflexivity|]; eapply good_same; [exact Hok|cbn; reflexivity]|].
  assert (Hroot : forall i, lookup_id (entries (registry m)) i = (fun o => root (os_space o)) <$> lookup_id (owned_spaces m) i).
  { intros i. rewrite <- lookup_roots. symmetry. apply lookup_id_perm; [rewrite roots_fst; by eapply system_ids|by rewrite (sm_entries _ _ _ _ _ _ Hok)]. }
  assert (Hsame : forall a n c, (match (if a =? NO_SPACE then None else Some a) with None => c = kernel_root | Some i => exists o, (i, o) ∈ owned_spaces m /\ c = root (os_space o) end) ->
    system_ok w (mkManager (registry m) (owned_spaces m) a n c) TT others).
  { intros a n c Hc. destruct Hok. by split. }
  destruct id as [id|]; cbn [default].
  - unfold root_of. rewrite Hroot. destruct (lookup_id (owned_spaces m) id) as [o|] eqn:Eo; cbn [fmap option_fmap option_map].
    + eexists _, _, _. split; [reflexivity|]. eapply (good_same _ _ w m TT others _ _ _ w TT); [|cbn [allowed]; intros ?; unfold machine; reflexivity]. apply Hsame.
      assert (Hin : (id, o) ∈ owned_spaces m) by (apply lookup_id_elem; [by eapply system_ids|done]).
      change (Datatypes.id id) with id. destruct (Z.eqb_spec id NO_SPACE) as [->|]; [|by exists o]. exfalso.
      pose proof (sm_next _ _ _ _ _ _ Hok NO_SPACE (list_elem_of_fmap_2 fst _ _ Hin)). pose proof (sm_next_bound _ _ _ _ _ _ Hok). unfold NO_SPACE in *. lia.
    + eexists _, _, _. split; [reflexivity|]. eapply good_same; [exact Hok|cbn; reflexivity].
  - eexists _, _, _. split; [reflexivity|]. eapply (good_same _ _ w m TT others _ _ _ w TT); [|cbn [allowed]; intros ?; unfold machine; reflexivity]. apply Hsame. by rewrite Z.eqb_refl.
Qed.

Lemma sys_perm w l k TT others : l ≡ₚ k -> sys_ok kernel_pml4 w l TT others -> sys_ok kernel_pml4 w k TT others.
Proof.
  intros Hp [H1 H2 H3 H4 H5 H6 H7 H8 H9 H10].
  assert (Hc : forall g, count g (all_owned k) = count g (all_owned l)) by (intros g; apply count_perm; symmetry; by apply Permutation_flat_map).
  assert (Hin : forall x, x ∈ k -> x ∈ l) by (intros x; by rewrite Hp). split; auto.
  - by rewrite <- Hp.
  - intros id s Hi. apply (H4 id s). auto.
  - intros id s id' s' g Hi Hi'. by apply (H7 id s id' s' g); apply Hin.
  - intros id s g Hi. rewrite Hc. apply (H8 id s g). auto.
  - intros g Hno. rewrite Hc. apply H9. intros id s Hi. apply (Hno id s). by rewrite <- Hp.
Qed.

Lemma position_lookup {A} (l : list (Z * A)) id :
  match position_id l id with Some i => exists x, l !! i = Some (id, x) /\ lookup_id l id = Some x | None => lookup_id l id = None end.
Proof.
  induction l as [|[j y] l IH]; cbn [position_id lookup_id]; [done|]. destruct (Z.eqb_spec j id) as [->|]; [by exists y|].
  destruct (position_id l id) as [i|]; cbn [option_map]; [done|done].
Qed.

(** The space is gone from the registry and from the list. *)
Lemma unregister_spec r id l root : NoDup (map fst (entries r)) -> entries r ≡ₚ (id, root) :: l ->
  exists r', unregister r id = (Ok root, r') /\ entries r' ≡ₚ l /\ next_id r' = next_id r.
Proof.
  intros Hnd Hp. unfold unregister. pose proof (position_lookup (entries r) id) as Hpos.
  assert (Hl : lookup_id (entries r) id = Some root) by (rewrite (lookup_id_perm _ _ id Hnd Hp); cbn; by rewrite Z.eqb_refl).
  destruct (position_id (entries r) id) as [i|]; [|congruence]. destruct Hpos as (x & Hi & Hx). rewrite Hi. assert (x = root) as -> by congruence.
  eexists. split; [reflexivity|]. split; [|done]. cbn [entries]. apply (Permutation_cons_inv (a := (id, root))). rewrite <- Hp. by apply swap_remove_split.
Qed.

Lemma current_other w m TT others id o : system_ok w m TT others -> (id, o) ∈ owned_spaces m -> active m <> Some id -> cr3 m <> root (os_space o).
Proof.
  intros Hok Hin Hna E. pose proof (sm_active _ _ _ _ _ _ Hok) as Ha. pose proof (sm_sys _ _ _ _ _ _ Hok) as Hs.
  pose proof (sy_tree _ _ _ _ _ Hs _ _ (spaces_elem _ _ _ Hin)) as Ht. destruct (active m) as [a|].
  - destruct Ha as (oa & Hina & Ea). pose proof (sy_tree _ _ _ _ _ Hs _ _ (spaces_elem _ _ _ Hina)) as Hta. apply Hna. f_equal.
    apply (sy_apart _ _ _ _ _ Hs a (os_space oa) id (os_space o) (cr3 m)); [by apply spaces_elem..| |].
    + rewrite Ea. exists 3%nat, 0. apply Hta.
    + rewrite E. exists 3%nat, 0. apply Ht.
  - apply (sm_kernel _ _ _ _ _ _ Hok). rewrite <- Ha, E. eapply tree_managed; [exact Ht|apply Ht].
Qed.

Lemma release_good e w m TT others id :
  system_ok w m TT others -> valid w m (Release id) -> exists r m' w', exec e w m (Release id) = Some (r, m', w') /\ good_call w m TT others (Release id) r m' w'.
Proof.
  intros Hok Hna. cbn [valid] in Hna. cbn [UserSystem.exec]. unfold release. rewrite bool_decide_false by done. pose proof (position_lookup (owned_spaces m) id) as Hpos.
  destruct (position_id (owned_spaces m) id) as [i|].
  2: { eexists _, _, _. split; [reflexivity|]. eapply good_same; [exact Hok|]. split; [reflexivity|]. unfold machine. by rewrite Hpos. }
  destruct Hpos as (o & Hi & Eo). rewrite Hi. set (rest := swap_remove (owned_spaces m) i). assert (Hin : (id, o) ∈ owned_spaces m) by (by eapply list_elem_of_lookup_2).
  assert (Hp : (id, o) :: rest ≡ₚ owned_spaces m) by (by apply swap_remove_split).
  destruct (unregister_spec (registry m) id (roots rest) (root (os_space o))) as (reg & -> & Hreg & Hnx).
  { rewrite (sm_entries _ _ _ _ _ _ Hok), roots_fst. by eapply system_ids. }
  { rewrite (sm_entries _ _ _ _ _ _ Hok). unfold roots. by rewrite <- Hp. }
  assert (Hps : spaces (owned_spaces m) ≡ₚ (id, os_space o) :: spaces rest) by (unfold spaces; by rewrite <- Hp).
  pose proof (sys_perm w _ _ TT others Hps (sm_sys _ _ _ _ _ _ Hok)) as Hs.
  destruct (sys_remove kernel_pml4 (cr3 m) w [] (spaces rest) TT others id (os_space o) (os_space o) Hs eq_refl) as (w' & Ed & Hs' & Hun); [by eapply current_other|lia|].
  cbn [cr3]. rewrite Ed. eexists _, _, _. split; [reflexivity|].
  assert (Hnd : NoDup (id :: map fst rest)) by (change (NoDup (map fst ((id, o) :: rest))); rewrite Hp; by eapply system_ids). apply NoDup_cons in Hnd as [Hnid Hndr].
  assert (Hse : forall j o2, (j, o2) ∈ rest -> forall pg, page_eq (seen w' (os_space o2) (TT j) pg) (seen w (os_space o2) (TT j) pg)).
  { intros j o2 Hj pg. pose proof (spaces_elem _ _ _ Hj) as Hj'. eapply untouched_seen; [eapply sys_space; [exact Hs|apply elem_of_cons; by right]|]. by apply Hun. }
  eapply (good_same _ _ w m TT others _ _ _ w' TT).
  - split; cbn [registry owned_spaces cr3].
    + eapply sys_perm; [|]; [reflexivity|]. cbn [app] in Hs'. destruct Hs' as [G1 G2 G3 G4 G5 G6 G7 G8 G9 G10]. split; try done.
      * intros j s2 g Hj Hg. destruct (G8 j s2 g Hj Hg). split; [done|lia].
      * intros g Hno. rewrite (G9 g Hno). lia.
      * apply Hok.
    + intros j o2 Hj. eapply agreed_eq; [|apply (sm_maps _ _ _ _ _ _ Hok j o2)]; [intros pg; symmetry; by apply Hse|]. rewrite <- Hp. apply elem_of_cons. by right.
    + done.
    + intros j Hj. rewrite Hnx. apply (sm_next _ _ _ _ _ _ Hok). rewrite <- Hp. cbn [map fst]. apply elem_of_cons. by right.
    + rewrite Hnx. apply Hok.
    + pose proof (sm_active _ _ _ _ _ _ Hok) as Ha. unfold active in *. cbn [active_space]. case_if; [done|]. destruct Ha as (oa & Hina & Ec). exists oa. split; [|done].
      rewrite <- Hp in Hina. apply elem_of_cons in Hina as [[= E _]|?]; [|done]. destruct Hna. by f_equal.
    + apply Hok.
  - cbn [allowed]. intros j. unfold set_proc, machine. cbn [owned_spaces]. destruct (Z.eqb_spec j id) as [->|Hne]; [by rewrite (proj2 (lookup_id_None rest id) Hnid)|].
    rewrite <- (lookup_id_perm ((id, o) :: rest) (owned_spaces m) j) by (done || (cbn [map fst]; by apply NoDup_cons)). cbn [lookup_id]. rewrite (proj2 (Z.eqb_neq id j)) by congruence.
    destruct (lookup_id rest j) as [o2|] eqn:E2; constructor. apply Hse. by apply lookup_id_elem.
Qed.

(** ** Faults and stores *)

Lemma may_write_eq p q : page_eq p q -> may_write p = may_write q.
Proof. by destruct 1. Qed.

Lemma seen_may_write w s T pg m fl :
  view w T pg = Z.lor (om_frame m) fl -> is_frame (om_frame m) -> leaf_flags fl -> has fl COPY_ON_WRITE = false ->
  may_write (seen w s T pg) = has fl USER && has fl WRITABLE.
Proof.
  intros Hv Hf Hfl Hc. unfold seen, page_at, flags_of. rewrite Hv, has_entry, flags_entry, (lf_present _ Hfl), rights_request by (done || apply Hfl). by destruct (is_device s pg).
Qed.

Lemma store_may_write w s T va v w' :
  space_inv kernel_pml4 w s T -> 0 <= va < 2 ^ 47 -> user_store w s va v = Some w' -> may_write (seen w s T (page_of va)) = true.
Proof.
  intros Hi Hva E. destruct (store_entry kernel_pml4 w s T va v w' Hi Hva E) as (m & fl & Hm & _ & Hv & Hfl & HU & HW & _).
  assert (Hc : has fl COPY_ON_WRITE = false) by (apply not_true_is_false; intros Hx; destruct (lf_cow _ Hfl Hx); congruence).
  destruct (so_mapped _ _ (si_space _ _ _ _ Hi) m Hm) as (_ & Hf & _). rewrite (seen_may_write w s T _ m fl) by done. by rewrite HU, HW.
Qed.

Lemma fault_may_write w s T va v :
  space_inv kernel_pml4 w s T -> 0 <= va < 2 ^ 47 -> user_store w s va v = None -> has (view w T (page_of va)) COPY_ON_WRITE = false ->
  may_write (seen w s T (page_of va)) = false.
Proof.
  intros Hi Hva E Hc. destruct (page_base va Hva) as [Hu Epg]. unfold user_store in E. rewrite (page_entry_spec kernel_pml4 w s T _ (si_tree _ _ _ _ Hi) Hu), Epg in E.
  destruct (has (view w T (page_of va)) PRESENT) eqn:Hp; [|unfold seen, page_at; by rewrite Hp].
  destruct (so_all _ _ (si_space _ _ _ _ Hi) _ Hp) as (m & Hm & Em). destruct (so_mapped _ _ (si_space _ _ _ _ Hi) m Hm) as (_ & Hf & fl & Hv & Hfl). rewrite Em in Hv.
  rewrite Hv, has_entry in Hc by done. rewrite (seen_may_write w s T _ m fl) by done. rewrite Hv, !has_entry in E by done. by destruct (has fl USER && has fl WRITABLE).
Qed.

Section Running.
Context (w : W) (m : Manager) (TT : Z -> nat -> Z -> option Z) (others : Z -> Z) (id : Z) (o : OwnedSpace) (l1 l2 : list (Z * OwnedSpace)).
Context (Hok : system_ok w m TT others) (El : owned_spaces m = l1 ++ (id, o) :: l2) (Eo : lookup_id (owned_spaces m) id = Some o).
Abbreviation P := (seen w (os_space o) (TT id)).

Lemma running_same x : (forall pg, page_eq (x pg) (P pg)) -> machine_eq (set_proc (machine w m TT) id (Some (os_map o, x))) (machine w m TT).
Proof. intros Hx i. unfold set_proc, machine. destruct (Z.eqb_spec i id) as [->|]; [rewrite Eo; by constructor|reflexivity]. Qed.

(** The fault leaves the machine as it is. *)
Lemma running_fault va : 0 <= va < 2 ^ 47 ->
  exists r s' w' TT', resolve_cow w (os_space o) va = Some (r, s', w') /\ step (spaces l1) (spaces l2) id w TT w' TT' /\
    state kernel_pml4 (spaces l1) (spaces l2) id others w' s' TT' P /\ system_ok w' (set_owned m (l1 ++ (id, mkOwnedSpace s' (os_map o)) :: l2)) TT' others /\
    machine_eq (machine w' (set_owned m (l1 ++ (id, mkOwnedSpace s' (os_map o)) :: l2)) TT') (machine w m TT) /\
    match r with
    | NotCow => has (view w (TT id) (page_of va)) COPY_ON_WRITE = false
    | OutOfMemory => has (view w (TT id) (page_of va)) COPY_ON_WRITE = true
    | Resolved => has (view w (TT id) (page_of va)) COPY_ON_WRITE = true /\ has (view w' (TT' id) (page_of va)) WRITABLE = true
    end.
Proof.
  intros Hva. pose proof (serve_state kernel_pml4 kernel_root w m TT others id o l1 l2 Hok El) as Hst. pose proof (serve_agreed kernel_pml4 kernel_root w m TT others id o l1 l2 Hok El) as Hag.
  destruct (fault_step kernel_pml4 _ _ id others w (os_space o) TT _ va Hst Hva) as (r & s' & w' & TT' & E & Hst' & Hsp & Hr). exists r, s', w', TT'. split; [done|]. split; [done|]. split; [done|].
  split; [|split; [|done]].
  - by apply (served_system kernel_pml4 kernel_root w w' m TT TT' others id o (mkOwnedSpace s' (os_map o)) P l1 l2 Hok El others Hst' Hsp).
  - rewrite (served_machine kernel_pml4 kernel_root w w' m TT TT' others id o (mkOwnedSpace s' (os_map o)) P l1 l2 Hok El others Hst' Hsp). by apply running_same.
Qed.
End Running.

Lemma fault_good e w m TT others va :
  system_ok w m TT others -> valid w m (Fault va) -> exists r m' w', exec e w m (Fault va) = Some (r, m', w') /\ good_call w m TT others (Fault va) r m' w'.
Proof.
  intros Hok Hva. cbn [valid] in Hva. cbn [UserSystem.exec]. unfold resolve_cow_active.
  destruct (active m) as [id|]; [|eexists _, _, _; split; [reflexivity|]; eapply good_same; [exact Hok|cbn; reflexivity]].
  destruct (busy e); [eexists _, _, _; split; [reflexivity|]; eapply good_same; [exact Hok|cbn; reflexivity]|].
  destruct (lookup_id (owned_spaces m) id) as [o|] eqn:Eo; [|eexists _, _, _; split; [reflexivity|]; eapply good_same; [exact Hok|cbn; reflexivity]].
  destruct (lookup_id_split _ _ _ Eo) as (l1 & l2 & El & _ & Hu & _).
  destruct (running_fault w m TT others id o l1 l2 Hok El Eo va Hva) as (r & s' & w' & TT' & -> & _ & _ & Hok' & Hm & _). rewrite Hu.
  destruct r; eexists _, _, _; (split; [reflexivity|]); by eapply good_same.
Qed.

(** A store that went through. *)
Lemma stored_good w m TT others id o l1 l2 w1 TT1 s1 va v w2 (P := seen w (os_space o) (TT id)) :
  system_ok w m TT others -> owned_spaces m = l1 ++ (id, o) :: l2 -> lookup_id (owned_spaces m) id = Some o -> active m = Some id -> 0 <= va < 2 ^ 47 ->
  state kernel_pml4 (spaces l1) (spaces l2) id others w1 s1 TT1 P -> step (spaces l1) (spaces l2) id w TT w1 TT1 -> user_store w1 s1 va v = Some w2 ->
  good_call w m TT others (Store va v) (Value 0) (set_owned m (l1 ++ (id, mkOwnedSpace s1 (os_map o)) :: l2)) w2.
Proof.
  intros Hok El Eo Ea Hva Hst Hsp E. destruct (store_step kernel_pml4 _ _ id others w1 s1 TT1 P va v w2 Hst Hva E) as (TT2 & Hst2 & Hsp2).
  pose proof (step_trans _ _ _ _ _ _ _ _ _ Hsp Hsp2) as Hsp3. pose proof (serve_agreed kernel_pml4 kernel_root w m TT others id o l1 l2 Hok El) as Hag.
  assert (Hag2 : agreed exact (os_map o) (set_page P (page_of va) (store_page (va mod 4096 / 8) v (P (page_of va))))).
  { destruct Hag as [A1 A2 A3 A4 A5 A6]. split; [done..|]. intros pg Hpg. unfold set_page. destruct (Z.eqb_spec pg (page_of va)) as [->|]; [|by apply A6]. fold P in A6. specialize (A6 _ Hpg).
    destruct (vview (os_map o) (page_of va * 4096)) as [[? []]|], (P (page_of va)) as [[]|]; cbn in *; done. }
  eapply (good_same _ _ w m TT others _ _ _ w2 TT2).
  - by apply (served_system kernel_pml4 kernel_root w w2 m TT TT2 others id o (mkOwnedSpace s1 (os_map o)) _ l1 l2 Hok El others Hst2 Hsp3).
  - cbn [allowed]. exists id, (os_map o), P. split; [done|]. split; [unfold machine; by rewrite Eo|]. split.
    + rewrite <- (may_write_eq _ _ (st_seen _ _ _ _ _ _ _ _ _ Hst (page_of va))). eapply store_may_write; [|exact Hva|exact E]. apply (go_inv _ _ _ _ (state_good _ _ _ _ _ _ _ _ _ Hst)).
    + apply (served_machine kernel_pml4 kernel_root w w2 m TT TT2 others id o (mkOwnedSpace s1 (os_map o)) _ l1 l2 Hok El others Hst2 Hsp3).
Qed.

Lemma store_good e w m TT others va v :
  system_ok w m TT others -> valid w m (Store va v) -> exists r m' w', exec e w m (Store va v) = Some (r, m', w') /\ good_call w m TT others (Store va v) r m' w'.
Proof.
  intros Hok Hva. cbn [valid] in Hva. cbn [UserSystem.exec]. unfold exec_store, resolve_cow_active.
  destruct (active m) as [id|] eqn:Ea; [|eexists _, _, _; split; [reflexivity|]; eapply good_same; [exact Hok|]; cbn; split; [reflexivity|congruence]].
  destruct (lookup_id (owned_spaces m) id) as [o|] eqn:Eo.
  2: { eexists _, _, _. split; [reflexivity|]. eapply good_same; [exact Hok|]. cbn. split; [reflexivity|]. intros i mp Pg Hi. unfold machine. rewrite Ea in Hi. injection Hi as <-. by rewrite Eo. }
  destruct (lookup_id_split _ _ _ Eo) as (l1 & l2 & El & Hn & Hu & _). pose proof (serve_state kernel_pml4 kernel_root w m TT others id o l1 l2 Hok El) as Hst.
  assert (Hself : set_owned m (l1 ++ (id, mkOwnedSpace (os_space o) (os_map o)) :: l2) = m) by (destruct o; cbn [os_space os_map]; rewrite <- El; apply set_owned_same).
  destruct (user_store w (os_space o) va v) as [w2|] eqn:Es.
  { eexists _, _, _. split; [reflexivity|]. rewrite <- Hself at 2. by eapply stored_good. }
  destruct (running_fault w m TT others id o l1 l2 Hok El Eo va Hva) as (r & s' & w' & TT' & -> & Hsp & Hst' & Hok' & Hm & Hr). rewrite Hu.
  assert (Hno : forall A', machine_eq A' (machine w m TT) -> may_write (seen w (os_space o) (TT id) (page_of va)) = false ->
    allowed (machine w m TT) (active m) (Store va v) (Unresolved NotCow) A').
  { intros A' HA Hmw. cbn [allowed]. split; [done|]. intros i mp Pg Hi. rewrite Ea in Hi. injection Hi as <-. unfold machine. rewrite Eo. by intros [= <- <-]. }
  destruct r.
  - eexists _, _, _. split; [reflexivity|]. eapply good_same; [exact Hok'|]. apply Hno; [done|]. eapply fault_may_write; [|exact Hva|exact Es|exact Hr]. apply (go_inv _ _ _ _ (state_good _ _ _ _ _ _ _ _ _ Hst)).
  - cbn [set_owned owned_spaces]. rewrite lookup_id_app, (proj2 (lookup_id_None l1 id) Hn). cbn [lookup_id]. rewrite Z.eqb_refl. cbn [os_space].
    destruct (user_store w' s' va v) as [w2|] eqn:Es2; eexists _, _, _; (split; [reflexivity|]).
    + by eapply stored_good.
    + eapply good_same; [exact Hok'|]. apply Hno; [done|]. rewrite <- (may_write_eq _ _ (st_seen _ _ _ _ _ _ _ _ _ Hst' (page_of va))).
      pose proof (go_inv _ _ _ _ (state_good _ _ _ _ _ _ _ _ _ Hst')) as Hi. eapply fault_may_write; [exact Hi|exact Hva|exact Es2|].
      apply not_true_is_false. intros Hc. destruct (has (view w' (TT' id) (page_of va)) PRESENT) eqn:Hp; [|by rewrite (view_present kernel_pml4 w' s' (TT' id) _ Hi Hp), has_0 in Hc].
      destruct (so_all _ _ (si_space _ _ _ _ Hi) _ Hp) as (x & Hx & Em). destruct (so_mapped _ _ (si_space _ _ _ _ Hi) x Hx) as (_ & Hf & fl & Hv & Hfl). rewrite Em in Hv.
      destruct Hr as [_ Hw]. rewrite Hv, has_entry in Hc, Hw by done. destruct (lf_cow _ Hfl Hc). congruence.
  - eexists _, _, _. split; [reflexivity|]. by eapply good_same.
Qed.

Lemma exec_good e w m TT others c :
  system_ok w m TT others -> valid w m c -> (exact = true -> intact m c) -> exists r m' w', exec e w m c = Some (r, m', w') /\ good_call w m TT others c r m' w'.
Proof.
  intros Hok Hv Hi. destruct c.
  - by apply brk_good.
  - by apply mmap_good.
  - by apply mmap_device_good.
  - by apply munmap_good.
  - by apply mprotect_good.
  - by apply fork_good.
  - by apply fault_good.
  - by apply store_good.
  - by apply activate_good.
  - by apply release_good.
  - by apply spawn_good.
Qed.
End Spec.
End UserSystemSpec.
