(* ===== verification/UserClaims.v ===== *)
(** * UserClaims: what processes can rely on

    A small concrete memory ([Ram]), the frame allocator of the kernel as an
    instance of the interface ([KernelFrames]), and the theorems about all
    processes' memory with runs on both as witnesses. *)

From stdpp Require Import base numbers sets list.
From S2P Require Import Prelude Buddy BuddyInv FrameMeta FrameAlloc FrameAllocSpec FrameContract Paging PagingTree Errno Vma VmaSpec UserMemory PagingOps PagingSpaces PagingCow PagingSteps UserMemorySpec PagingFork UserSystem.
Local Open Scope Z_scope.

(** * A small counted memory

    An instance of [Frames] and its laws: 64 frames of 512 words, taken first
    fit, counted up to 65535 references as [mm/frame.rs] counts them. *)

Module Ram.
Import Paging PagingTree.

Record Ram : Type := mkRam { words : Z -> Z -> Z; counts : Z -> Z }.

Definition ram_frames : list Z := map (fun k => 4096 * (Z.of_nat k + 1)) (seq 0 64).
Definition is_ram (f : Z) : bool := (4096 <=? f) && (f <=? 262144) && (f mod 4096 =? 0).
Definition set_count (c : Z -> Z) (f n : Z) : Z -> Z := fun g => if g =? f then n else c g.

#[global] Instance ram_ops : Frames Ram := {
  memory := words;
  set_memory w m := mkRam m (counts w);
  alloc_frame w :=
    match List.find (fun f => counts w f =? 0) ram_frames with
    | Some f => (Some f, mkRam (words w) (set_count (counts w) f 1))
    | None => (None, w)
    end;
  free_frame w f := if counts w f <=? 0 then None else Some (mkRam (words w) (set_count (counts w) f (counts w f - 1)));
  frame_get w f :=
    if (counts w f =? 0) || (counts w f =? 65535) then (false, w)
    else (true, mkRam (words w) (set_count (counts w) f (counts w f + 1)));
  frame_refcount w f := if is_ram f then Some (counts w f) else None
}.

Definition ram_wf (w : Ram) : Prop := forall f, 0 <= counts w f /\ (counts w f <> 0 -> is_ram f = true).

Lemma ram_frames_spec f : f ∈ ram_frames -> is_ram f = true.
Proof.
  intros (k & -> & Hk)%list_elem_of_fmap. apply elem_of_seq in Hk. unfold is_ram.
  rewrite Z.mul_comm, Z.mod_mul by lia. rewrite (proj2 (Z.leb_le _ _)), (proj2 (Z.leb_le _ _)) by lia. done.
Qed.

Lemma ram_is_frame f : is_ram f = true -> is_frame f.
Proof.
  unfold is_ram. rewrite !andb_true_iff, Z.eqb_eq, !Z.leb_le. intros [[H1 H2] H3]. unfold is_frame.
  pose proof (Z.div_mod f 4096 ltac:(lia)) as E. rewrite H3, Z.add_0_r in E.
  assert (Hq : 1 <= f / 4096 <= 64) by (split; [apply Z.div_le_lower_bound; lia|apply Z.div_le_upper_bound; lia]).
  assert (Hin : f ∈ ram_frames).
  { apply list_elem_of_fmap. exists (Z.to_nat (f / 4096 - 1)). split; [lia|]. apply elem_of_seq. lia. }
  assert (Hall : forallb (fun f => Z.land f ADDRESS_MASK =? f) ram_frames = true) by (by vm_compute).
  rewrite forallb_forall in Hall. apply Z.eqb_eq, Hall. by apply list_elem_of_In.
Qed.

#[global] Instance ram_laws : FramesLaws Ram.
Proof.
  refine {| frames_wf := ram_wf; managed := fun f => is_ram f = true; refs := fun w f => counts w f |}.
  - apply ram_is_frame.
  - intros w f Hw. apply Hw.
  - intros w f Hw. apply Hw.
  - intros w m Hw _. done.
  - intros w r w' Hw E. cbn [alloc_frame ram_ops] in E. destruct (List.find _ ram_frames) as [f|] eqn:Ef; injection E as <- <-.
    + apply find_some in Ef as [Hin Hz]. apply Z.eqb_eq in Hz. apply list_elem_of_In, ram_frames_spec in Hin.
      split; [|split; [|split; [done|by intros g [= <-]]]].
      * intros g. cbn [counts]. unfold set_count. destruct (Z.eqb_spec g f) as [->|]; [by split|apply Hw].
      * intros g. cbn [counts]. unfold set_count. destruct (Z.eqb_spec g f) as [->|]; [by rewrite bool_decide_true|by rewrite bool_decide_false by congruence].
    + split; [done|]. split; [done|]. split; [done|]. done.
  - intros w f Hw Hr. cbn [free_frame ram_ops]. rewrite (proj2 (Z.leb_gt _ _) Hr). eexists. split; [reflexivity|]. split; [|done].
    intros g. cbn [counts]. unfold set_count. destruct (Z.eqb_spec g f) as [->|]; [|apply Hw]. split; [lia|]. intros _. apply Hw. lia.
  - intros w f ok w' Hw Hr E. cbn [frame_get ram_ops] in E. destruct (_ || _); injection E as <- <-; [done|]. split; [|done].
    intros g. cbn [counts]. unfold set_count. destruct (Z.eqb_spec g f) as [->|]; [|apply Hw]. split; [lia|]. intros _. apply Hw. lia.
  - intros w f Hw Hr. cbn [frame_refcount ram_ops]. by rewrite (proj2 (Hw f) Hr).
  - intros w f Hw Hn. cbn [frame_refcount ram_ops]. destruct (is_ram f); [done|]. cbn. lia.
Defined.

Definition empty_ram : Ram := mkRam (fun _ _ => 0) (fun _ => 0).
Lemma empty_ram_wf : frames_wf empty_ram.
Proof. by intros f. Qed.
End Ram.

(** * The kernel's frames

    The allocator of [mm/frame.rs] ([FrameAlloc]) keeps the promises of
    [FramesLaws] once its counters exist. Its list nodes, which the code
    writes into free frames, are kept in the allocator's own store here and
    the contents of frames in use beside it. The code agrees with that unless
    a frame is released while it holds an image of its own head tag
    ([FrameContract.forged_tag_mistaken_for_head]). *)

Module KernelFrames.
Import PagingTree.

Record Physical : Type := mkPhysical { allocator : Allocator ArenaStore; contents : Z -> Z -> Z }.

(** The address of a [PhysFrame]. *)
Definition is_page (f : Z) : bool := (0 <=? f) && (f mod 4096 =? 0).

#[local] Instance kernel_ops : Frames Physical := {
  Paging.memory := contents;
  Paging.set_memory w m := mkPhysical (allocator w) m;
  Paging.alloc_frame w :=
    match FrameAlloc.allocate (allocator w) 0 0 U64_MAX with
    | Some (Ok f, a) => (Some f, mkPhysical a (contents w))
    | Some (Err _, a) => (None, mkPhysical a (contents w))
    | None => (None, w)
    end;
  Paging.free_frame w f := (fun a => mkPhysical a (contents w)) <$> FrameAlloc.free_frame (allocator w) f;
  Paging.frame_get w f :=
    match FrameAlloc.frame_get (allocator w) f with Ok a => (true, mkPhysical a (contents w)) | Err _ => (false, w) end;
  Paging.frame_refcount w f := if is_page f then FrameAlloc.frame_refcount (allocator w) f else None
}.

Section Laws.
Context (n : Z) (image : list Z).

(** An allocator of [n] frames with its counters; those of the kernel's image
    are reserved for good, and the others it manages. *)
Definition kernel_wf (w : Physical) : Prop :=
  AInv (allocator w) /\ refcounts (allocator w) <> None /\ Buddy.frame_count (store (allocator w)) = n /\ forall x, x ∈ image -> permanent (allocator w) x.
Definition kernel_managed (f : Z) : Prop := is_page f = true /\ f / 4096 < Z.min n (2 ^ 24) /\ f / 4096 ∉ image.
Definition kernel_refs (w : Physical) (f : Z) : Z := if is_page f then default 0 (refs_of (allocator w) (f / 4096)) else 0.

Lemma is_page_spec f : is_page f = true <-> f = f / 4096 * 4096 /\ 0 <= f / 4096.
Proof.
  unfold is_page. rewrite andb_true_iff, Z.leb_le, Z.eqb_eq. pose proof (Z.div_mod f 4096 ltac:(lia)). pose proof (Z.mod_pos_bound f 4096 ltac:(lia)). split; [|lia].
  intros [H1 H2]. split; [lia|]. apply Z.div_pos; lia.
Qed.

Lemma is_page_pos f : is_page f = true -> 0 <= f / 4096.
Proof. intros [_ H]%is_page_spec. done. Qed.

Lemma kernel_managed_frame f : kernel_managed f -> is_frame f.
Proof.
  intros (Hp & Hb & _). apply is_page_spec in Hp as [E H0]. unfold is_frame. rewrite E. change Paging.ADDRESS_MASK with (Z.shiftl (Z.ones 40) 12).
  change 4096 with (2 ^ 12) at 2 4. rewrite <- Z.shiftl_mul_pow2, <- Z.shiftl_land, Z.land_ones by lia. rewrite Z.mod_small; [done|]. lia.
Qed.

Lemma wf_valid w f : kernel_wf w -> kernel_managed f <-> is_page f = true /\ BuddyInv.valid (store (allocator w)) (f / 4096) /\ f / 4096 ∉ image.
Proof.
  intros (I & _ & Hn & _). unfold kernel_managed, BuddyInv.valid. pose proof (c_range _ (a_core _ I)) as Hr. rewrite Hn in *. change (MAX_TRACKED_PHYS / FrameAlloc.PAGE_SIZE) with (2 ^ 24) in Hr.
  rewrite is_page_spec. split; intros (H1 & H2 & H3); (split; [done|]); (split; [lia|done]).
Qed.

(** A frame that is not reserved is not the kernel's image. *)
Lemma not_image w x : kernel_wf w -> fstate (allocator w) x <> Reserved -> x ∉ image.
Proof. intros (_ & _ & _ & Hp) Hs Hx. by destruct (Hp x Hx) as (_ & ? & _). Qed.

Lemma kernel_refs_Some w f v : is_page f = true -> refs_of (allocator w) (f / 4096) = Some v -> kernel_refs w f = v.
Proof. unfold kernel_refs. by intros -> ->. Qed.

(** A frame with references is a frame of the allocator. *)
Lemma kernel_refs_valid w f : kernel_wf w -> kernel_refs w f <> 0 ->
  is_page f = true /\ BuddyInv.valid (store (allocator w)) (f / 4096) /\ refs_of (allocator w) (f / 4096) = Some (kernel_refs w f).
Proof.
  intros (I & _ & Hn & _). unfold kernel_refs. destruct (is_page f) eqn:Hp; [|done]. destruct (refs_of (allocator w) (f / 4096)) as [v|] eqn:E; [|done]. intros _. split; [done|]. split; [|done].
  apply is_page_spec in Hp as [_ H0]. unfold refs_of in E. destruct (refcounts (allocator w)) as [r|] eqn:Er; [|done]. destruct (a_refs _ I r Er) as [_ [Hl _]].
  apply lookup_lt_Some in E. unfold BuddyInv.valid. lia.
Qed.

Lemma kernel_refs_managed w f : kernel_wf w -> kernel_refs w f <> 0 -> kernel_managed f.
Proof.
  intros Hw Hne. destruct (kernel_refs_valid w f Hw Hne) as (Hp & Hv & E). apply (wf_valid w); [done|]. split; [done|]. split; [done|]. apply (not_image w); [done|].
  destruct (refs_of_ok _ _ _ (proj1 Hw) Hv E) as [_ Hz]. intros Hs. apply Hne, Hz. congruence.
Qed.

Lemma kernel_refs_nonneg w f : kernel_wf w -> 0 <= kernel_refs w f.
Proof.
  intros Hw. destruct (Z.eq_dec (kernel_refs w f) 0) as [->|Hne]; [done|]. destruct (kernel_refs_valid w f Hw Hne) as (_ & Hv & E). by apply (refs_of_ok _ _ _ (proj1 Hw) Hv E).
Qed.

Lemma kernel_page_eq f g : is_page f = true -> is_page g = true -> f / 4096 = g / 4096 -> f = g.
Proof. rewrite !is_page_spec. lia. Qed.

Lemma kernel_alloc w r w' : kernel_wf w -> Paging.alloc_frame w = (r, w') ->
  kernel_wf w' /\ (forall g, kernel_refs w' g = if bool_decide (r = Some g) then 1 else kernel_refs w g) /\ (forall f, r = Some f -> kernel_managed f /\ kernel_refs w f = 0).
Proof.
  intros Hw E. pose proof Hw as (I & Hr & Hn & Hk). cbn [Paging.alloc_frame kernel_ops] in E.
  destruct (frame_allocate_spec (allocator w) 0 0 U64_MAX I ltac:(lia) ltac:(lia)) as (x & a' & Ea & I' & _ & _ & Hx). rewrite Ea in E.
  assert (Hk' : forall y, y ∈ image -> permanent a' y) by (intros y Hy; apply (step_keeps (allocator w) a'); [by eapply step_allocate; [..|exact Ea]|done|by apply Hk]). destruct x as [p|e]; injection E as <- <-.
  - destruct Hx as [_ A]. pose proof (al_free _ _ _ _ _ _ A (p / 4096) (in_block_head _ _)) as [Hv Hf]. pose proof (al_page _ _ _ _ _ _ A) as Hp.
    assert (Hpg : is_page p = true) by (apply is_page_spec; unfold BuddyInv.valid in Hv; destruct Hp as [q ->]; change FrameAlloc.PAGE_SIZE with 4096 in *; rewrite Z.div_mul in * by lia; lia).
    destruct (refs_of_total _ _ I Hv Hr) as [v Ev]. destruct (refs_of_ok _ _ _ I Hv Ev) as [_ Hz].
    assert (Hc : forall g, 0 <= g -> refs_of a' g = if bool_decide (g = p / 4096) then Some 1 else refs_of (allocator w) g).
    { intros g Hg. case_bool_decide as Eg; [subst g; rewrite (al_count _ _ _ _ _ _ A) by apply in_block_head; by rewrite Ev|]. apply (al_other _ _ _ _ _ _ A); [done|]. by rewrite in_block_0. }
    split; [|split].
    + split; [done|]. split; [|split; [by rewrite <- Hn; apply (al_marks _ _ _ _ _ _ A)|done]]. intros Hno. specialize (Hc (p / 4096) ltac:(unfold BuddyInv.valid in Hv; lia)). rewrite bool_decide_true in Hc by done. unfold refs_of in Hc. cbn [allocator] in Hno. by rewrite Hno in Hc.
    + intros g. unfold kernel_refs. cbn [allocator]. destruct (is_page g) eqn:Hg; [|rewrite bool_decide_false; [done|congruence]]. rewrite Hc by (by apply is_page_pos).
      destruct (bool_decide_reflect (Some p = Some g)) as [[= <-]|Hne]; [by rewrite bool_decide_true|]. rewrite bool_decide_false; [done|]. intros Eq. apply Hne. f_equal. symmetry. by apply kernel_page_eq.
    + intros f [= <-]. change (p / FrameAlloc.PAGE_SIZE) with (p / 4096) in *. split; [apply (wf_valid w); [done|]; split; [done|]; split; [done|]; apply (not_image w); [done|congruence]|]. rewrite (kernel_refs_Some w p v Hpg Ev). apply Hz. congruence.
  - destruct Hx as (M & Hrc & _). split; [|split; [|done]].
    + split; [done|]. split; [cbn [allocator]; by rewrite Hrc|]. split; [rewrite <- Hn; apply M|done].
    + intros g. rewrite bool_decide_false by done. unfold kernel_refs, refs_of. cbn [allocator]. by rewrite Hrc.
Qed.

Lemma kernel_free w f : kernel_wf w -> 0 < kernel_refs w f ->
  exists w', Paging.free_frame w f = Some w' /\ kernel_wf w' /\ (forall g, kernel_refs w' g = if g =? f then kernel_refs w f - 1 else kernel_refs w g) /\ contents w' = contents w.
Proof.
  intros Hw Hpos. pose proof Hw as (I & Hr & Hn & Hk). destruct (kernel_refs_valid w f Hw ltac:(lia)) as (Hp & Hv & Ev). pose proof Hp as Hp'. apply is_page_spec in Hp' as [Ef H0].
  pose proof (FrameAllocSpec.free_frame_spec (allocator w) (f / 4096) I Hv Hr) as Hs. change FrameAlloc.PAGE_SIZE with 4096 in Hs. rewrite <- Ef in Hs. cbn [Paging.free_frame kernel_ops].
  destruct (refs_of_ok _ _ _ I Hv Ev) as [_ Hz]. destruct (FrameAlloc.free_frame (allocator w) f) as [a'|] eqn:Ea; [|exfalso; apply Hz in Hs; lia].
  destruct Hs as (v & Ev' & _ & _ & I' & _ & Ex & Eo & M). rewrite Ev in Ev'. injection Ev' as <-. eexists. split; [reflexivity|]. split; [|split; [|done]].
  - split; [done|]. split; [|split; [by rewrite <- Hn; apply M|intros y Hy; apply (step_keeps (allocator w) a'); [by eapply (step_free _ (f / 4096)); change FrameAlloc.PAGE_SIZE with 4096; rewrite <- ?Ef|done|by apply Hk]]].
    intros Hno. cbn [allocator] in Hno. unfold refs_of in Ex. by rewrite Hno in Ex.
  - intros g. unfold kernel_refs at 1 3. cbn [allocator]. destruct (Z.eqb_spec g f) as [->|Hne]; [by rewrite Hp, Ex|]. destruct (is_page g) eqn:Hg; [|done]. rewrite Eo; [done| |].
    + by apply is_page_pos.
    + intros E. apply Hne. by apply kernel_page_eq.
Qed.

Lemma kernel_get w f ok w' : kernel_wf w -> 0 < kernel_refs w f -> Paging.frame_get w f = (ok, w') ->
  kernel_wf w' /\ (forall g, kernel_refs w' g = if ok && (g =? f) then kernel_refs w f + 1 else kernel_refs w g) /\ contents w' = contents w.
Proof.
  intros Hw Hpos E. pose proof Hw as (I & Hr & Hn & Hk). destruct (kernel_refs_valid w f Hw ltac:(lia)) as (Hp & Hv & Ev). pose proof Hp as Hp'. apply is_page_spec in Hp' as [Ef H0].
  pose proof (FrameAllocSpec.frame_get_spec (allocator w) (f / 4096) I Hv) as Hs. change FrameAlloc.PAGE_SIZE with 4096 in Hs. rewrite <- Ef in Hs. cbn [Paging.frame_get kernel_ops] in E.
  destruct (FrameAlloc.frame_get (allocator w) f) as [a'|e] eqn:Ea; injection E as <- <-; [|done]. destruct Hs as (I' & v & Ev' & C). rewrite Ev in Ev'. injection Ev' as <-.
  destruct (counts_set_fields _ _ _ _ C) as (Es & _). assert (Ex : refs_of a' (f / 4096) = Some (kernel_refs w f + 1)) by (rewrite (cs_in _ _ _ _ C), Ev by (done || left); done).
  split; [|split; [|done]].
  - split; [done|]. split; [|split; [cbn [allocator]; by rewrite Es|intros y Hy; apply (step_keeps (allocator w) a'); [by eapply (step_get _ (f / 4096)); change FrameAlloc.PAGE_SIZE with 4096; rewrite <- ?Ef|done|by apply Hk]]].
    intros Hno. cbn [allocator] in Hno. unfold refs_of in Ex. by rewrite Hno in Ex.
  - intros g. unfold kernel_refs at 1 3. cbn [allocator andb]. destruct (Z.eqb_spec g f) as [->|Hne]; [by rewrite Hp, Ex|]. destruct (is_page g) eqn:Hg; [|done].
    rewrite (cs_out _ _ _ _ C); [done|by apply is_page_pos|]. rewrite list_elem_of_singleton. intros E. apply Hne. by apply kernel_page_eq.
Qed.

#[local] Instance kernel_laws : FramesLaws Physical.
Proof.
  refine {| frames_wf := kernel_wf; managed := kernel_managed; refs := kernel_refs |}.
  - apply kernel_managed_frame.
  - apply kernel_refs_managed.
  - intros w f. apply kernel_refs_nonneg.
  - intros w m Hw _. done.
  - intros w r w' Hw E. destruct (kernel_alloc w r w' Hw E) as (H1 & H2 & H3). split; [done|]. split; [done|]. split; [|done]. intros g i _.
    cbn [Paging.alloc_frame kernel_ops] in E. by destruct (FrameAlloc.allocate _ _ _ _) as [[[] ?]|]; injection E as <- <-.
  - intros w f Hw Hpos. destruct (kernel_free w f Hw Hpos) as (w' & H1 & H2 & H3 & H4). exists w'. split; [done|]. split; [done|]. split; [done|]. intros g i _. cbn [Paging.memory kernel_ops]. by rewrite H4.
  - intros w f ok w' Hw Hpos E. destruct (kernel_get w f ok w' Hw Hpos E) as (H1 & H2 & H3). split; [done|]. split; [done|]. intros g i _. cbn [Paging.memory kernel_ops]. by rewrite H3.
  - intros w f Hw Hne. destruct (kernel_refs_valid w f Hw Hne) as (Hp & _ & Ev). cbn [Paging.frame_refcount kernel_ops]. rewrite Hp. unfold FrameAlloc.frame_refcount.
    rewrite refcount_slot_eq. change FrameAlloc.PAGE_SIZE with 4096. by rewrite Ev.
  - intros w f Hw Hno. cbn [Paging.frame_refcount kernel_ops]. destruct (is_page f) eqn:Hp; [|cbn; lia]. unfold FrameAlloc.frame_refcount. rewrite refcount_slot_eq. change FrameAlloc.PAGE_SIZE with 4096.
    destruct (refs_of (allocator w) (f / 4096)) as [v|] eqn:E; [|cbn; lia]. cbn. destruct (Z.eq_dec v 0) as [->|Hv]; [cbn; lia|]. exfalso. apply Hno, (kernel_refs_managed w); [done|]. by rewrite (kernel_refs_Some w f v).
Defined.
End Laws.

(** The 64 frames of [FrameContract], all of memory zero; frames 40 to 43 are
    the kernel's image. *)
Definition kernel_memory : Physical := mkPhysical demo_active (fun _ _ => 0).
Definition kernel_image : list Z := [40; 41; 42; 43].

Lemma no_holds t : forallb (fun slot => match slot with Some _ => false | None => true end) (Holds.ranges t) = true -> forall id f, ~ Holds.held t id f.
Proof.
  intros Hh id f (i & r & Hi & _). rewrite forallb_forall in Hh. apply list_elem_of_lookup_2, list_elem_of_In in Hi. by specialize (Hh _ Hi).
Qed.

Lemma demo_facts : Buddy.frame_count (store demo_active) = 64 /\
  forallb (fun slot => match slot with Some _ => false | None => true end) (Holds.ranges (holds demo_active)) = true /\
  forallb (fun x => (0 <=? x) && (x <? 64) && bool_decide (fstate demo_active x = Reserved)) kernel_image = true.
Proof. vm_compute. repeat split. Qed.

Lemma kernel_memory_wf : kernel_wf 64 kernel_image kernel_memory.
Proof.
  destruct demo_facts as (Hn & Hh & Hs). unfold kernel_wf, kernel_memory. cbn [allocator]. pose proof demo_active_inv as I. pose proof demo_active_refs as Hr.
  generalize dependent demo_active. intros a Hn Hh Hs I Hr. split; [done|]. split; [done|]. split; [done|]. intros x Hx.
  rewrite forallb_forall in Hs. apply list_elem_of_In in Hx. specialize (Hs x Hx). apply andb_true_iff in Hs as [Hv%andb_true_iff Hs%bool_decide_eq_true].
  split; [unfold BuddyInv.valid; lia|]. split; [exact Hs|]. intros id. by apply no_holds.
Qed.
End KernelFrames.

(** * What processes can rely on

    Runs of calls, faults and stores of all processes, and what holds of
    them: they refine a machine in which every process has its own memory, a
    process is untouched by what the others do, page tables follow the memory
    maps and share nothing writable, and ended processes leave nothing
    behind. All of them are over the interface of the frame allocator
    ([FramesLaws]): references are counted, a frame is handed out with one,
    and what its holder writes into it is the holder's own. *)

Module UserClaims.
Import Paging UserMemory PagingTree PagingOps PagingDrop PagingSpaces PagingCow PagingFault PagingMap PagingSteps UserSpans UserMemorySpec PagingFork UserSystem UserSystemSpec.

(** ** Runs *)

(** The process that runs after a call. *)
Definition next_current (c : Call) (r : Reply) (current : option Z) : option Z :=
  match c, r with Activate id, Value _ => id | _, _ => current end.

Inductive trace : Machine -> option Z -> list Call -> list Reply -> Machine -> Prop :=
| trace_nil A A' current : machine_eq A' A -> trace A current [] [] A'
| trace_cons A B A' current c cs r rs : allowed A current c r B -> trace B (next_current c r current) cs rs A' -> trace A current (c :: cs) (r :: rs) A'.

(** The processes a call is about. *)
Definition subjects (current : option Z) (c : Call) (r : Reply) : list Z :=
  match c with
  | Brk id _ | Mmap id _ _ _ _ | MmapDevice id _ _ _ _ _ | Munmap id _ _ | Mprotect id _ _ _ | Release id => [id]
  | Fork _ | Spawn _ _ => match r with Value cid => [cid] | _ => [] end
  | Store _ _ => match current with Some id => [id] | None => [] end
  | Fault _ | Activate _ => []
  end.

Fixpoint spares (j : Z) (current : option Z) (cs : list Call) (rs : list Reply) : Prop :=
  match cs, rs with
  | c :: cs, r :: rs => (j ∉ subjects current c r) /\ spares j (next_current c r current) cs rs
  | _, _ => True
  end.

Fixpoint no_failed_fork (cs : list Call) (rs : list Reply) : Prop :=
  match cs, rs with
  | Fork _ :: cs, r :: rs => (exists v, r = Value v) /\ no_failed_fork cs rs
  | _ :: cs, _ :: rs => no_failed_fork cs rs
  | _, _ => True
  end.

Lemma changes_other A id A' Q j : changes A id A' Q -> j <> id -> proc_eq (A' j) (A j).
Proof.
  unfold changes. intros H Hne. destruct (A id) as [[m P]|]; [|apply H]. destruct H as (m' & P' & H & _). rewrite (H j). unfold set_proc. by rewrite (proj2 (Z.eqb_neq j id)).
Qed.

Lemma set_other A A' id x j : machine_eq A' (set_proc A id x) -> j <> id -> proc_eq (A' j) (A j).
Proof. intros H Hne. rewrite (H j). unfold set_proc. by rewrite (proj2 (Z.eqb_neq j id)). Qed.

Lemma allowed_spares A current c r A' j : allowed A current c r A' -> j ∉ subjects current c r -> proc_eq (A' j) (A j).
Proof.
  destruct c; cbn [allowed subjects]; intros H Hj; rewrite ?list_elem_of_singleton in Hj; try (by eapply changes_other); try apply H.
  - destruct r; try apply H. destruct H as (_ & m & P & _ & H). rewrite list_elem_of_singleton in Hj. by eapply set_other.
  - destruct r as [v| |[]|]; try apply H. destruct H as (id & m & P & -> & _ & _ & H). rewrite list_elem_of_singleton in Hj. by eapply set_other.
  - destruct r; try apply H. by eapply set_other.
  - destruct r; try apply H. destruct H as [_ H]. rewrite list_elem_of_singleton in Hj. by eapply set_other.
Qed.

Lemma trace_spares A current cs rs A' j : trace A current cs rs A' -> spares j current cs rs -> proc_eq (A' j) (A j).
Proof.
  induction 1 as [A A' current H|A B A' current c cs r rs H1 H2 IH]; cbn [spares]; [intros _; apply H|].
  intros [Hj Hs]. rewrite (IH Hs). by eapply allowed_spares.
Qed.

Section Claims.
Context {W : Type} {HF : Frames W} {HL : FramesLaws W} (kernel_pml4 : Z -> Z) (kernel_root : Z).
Implicit Types (w : W) (TT : Z -> nat -> Z -> option Z).
Abbreviation system_ok_at exact := (system_ok (exact := exact) kernel_pml4 kernel_root).
Abbreviation system_ok := (system_ok_at false).
Abbreviation exec := (exec kernel_pml4 kernel_root).

Fixpoint run (cs : list (Env * Call)) w (m : Manager) : option (list Reply * Manager * W) :=
  match cs with
  | [] => Some ([], m, w)
  | (e, c) :: cs =>
    match exec e w m c with
    | None => None
    | Some (r, m, w) => match run cs w m with None => None | Some (rs, m, w) => Some (r :: rs, m, w) end
    end
  end.

Fixpoint valid_run (cs : list (Env * Call)) w (m : Manager) : Prop :=
  match cs with
  | [] => True
  | (e, c) :: cs => valid w m c /\ match exec e w m c with Some (_, m, w) => valid_run cs w m | None => True end
  end.

(** Every [brk] of the run finds the heap of its process in one piece. *)
Fixpoint intact_run (cs : list (Env * Call)) w (m : Manager) : Prop :=
  match cs with
  | [] => True
  | (e, c) :: cs => intact m c /\ match exec e w m c with Some (_, m, w) => intact_run cs w m | None => True end
  end.

(** Before the first process. *)
Definition boot : Manager := mkManager new_registry [] NO_SPACE 0 kernel_root.

Lemma boot_ok exact w : frames_wf w -> ~ managed kernel_root -> system_ok_at exact w boot (fun _ _ _ => None) (refs w).
Proof.
  intros Hw Hk. split; try done.
  - split; try done; try (intros id s Hin; by apply elem_of_nil in Hin).
    + apply NoDup_nil_2.
    + intros id s id' s' g Hin. by apply elem_of_nil in Hin.
    + intros id s g Hin. by apply elem_of_nil in Hin.
    + intros g _. cbn. lia.
    + intros g. by apply refs_nonneg.
  - intros id o Hin. by apply elem_of_nil in Hin.
  - intros id Hin. by apply elem_of_nil in Hin.
Qed.

Lemma with_space_active {R} w m id (op : W -> OwnedSpace -> option (result Errno R * OwnedSpace * W)) r m' w' :
  with_space w m id op = Some (r, m', w') -> active m' = active m.
Proof. unfold with_space, with_owned_mut. intros E. repeat case_match; simplify_eq; done. Qed.

Lemma resolve_active b w m va r m' w' : resolve_cow_active b w m va = Some (r, m', w') -> active m' = active m.
Proof. unfold resolve_cow_active. intros E. repeat case_match; simplify_eq; done. Qed.

Lemma exec_active exact e w m TT others c r m' w' :
  system_ok_at exact w m TT others -> valid w m c -> exec e w m c = Some (r, m', w') -> active m' = next_current c r (active m).
Proof.
  intros Hok Hv E. destruct c; cbn [UserSystem.exec] in E; cbn [next_current].
  - unfold sys_brk in E. destruct (with_space _ _ _ _) as [[[[b|e0] m1] w1]|] eqn:Ew; simplify_eq; by eapply with_space_active.
  - unfold with_value, sys_mmap in E. destruct (with_space _ _ _ _) as [[[x m1] w1]|] eqn:Ew; simplify_eq; by eapply with_space_active.
  - unfold with_value, sys_mmap_device in E. destruct (with_space _ _ _ _) as [[[x m1] w1]|] eqn:Ew; simplify_eq; by eapply with_space_active.
  - unfold with_value, sys_munmap in E. destruct (with_space _ _ _ _) as [[[x m1] w1]|] eqn:Ew; simplify_eq; by eapply with_space_active.
  - unfold with_value, sys_mprotect in E. destruct (with_space _ _ _ _) as [[[x m1] w1]|] eqn:Ew; simplify_eq; by eapply with_space_active.
  - unfold with_value, fork_space, with_owned_mut, register_owned_with_map, register in E. repeat (case_match; simplify_eq; try done).
  - destruct (resolve_cow_active _ _ _ _) as [[[x m1] w1]|] eqn:Er; [|done]. apply resolve_active in Er. destruct x; simplify_eq; done.
  - unfold exec_store in E. destruct (active m) as [id|] eqn:Ea; simplify_eq; [|done]. destruct (lookup_id _ _) as [o|]; simplify_eq; [|done].
    destruct (user_store _ _ _ _); simplify_eq; [done|]. destruct (resolve_cow_active _ _ _ _) as [[[x m1] w1]|] eqn:Er; [|done]. apply resolve_active in Er.
    rewrite <- Ea, <- Er. destruct x; simplify_eq; [done| |done]. repeat (case_match; simplify_eq; try done).
  - cbn [valid] in Hv. unfold activate_if_changed in E. destruct (Z.eqb_spec (active_space m) (default NO_SPACE id)) as [Ee|].
    + simplify_eq. unfold active. rewrite Ee. destruct id as [id|]; cbn; [|by rewrite Z.eqb_refl]. destruct (Z.eqb_spec id NO_SPACE) as [->|]; done.
    + destruct id as [id|]; cbn [default] in E.
      * destruct (root_of (registry m) id); simplify_eq; [|done]. unfold active. cbn. change (Datatypes.id id) with id. destruct (Z.eqb_spec id NO_SPACE) as [->|]; done.
      * simplify_eq. done.
  - unfold release in E. repeat (case_match; simplify_eq; try done).
  - unfold register_owned_with_map, register in E. repeat (case_match; simplify_eq; try done).
Qed.

(** A run of the kernel is a run of the machine, and the state stays in
    order. *)
Lemma run_trace exact cs : forall w m TT others,
  system_ok_at exact w m TT others -> valid_run cs w m -> (exact = true -> intact_run cs w m) ->
  exists rs m' w' TT' others', run cs w m = Some (rs, m', w') /\ system_ok_at exact w' m' TT' others' /\
    trace (machine w m TT) (active m) (map snd cs) rs (machine w' m' TT') /\ (no_failed_fork (map snd cs) rs -> others' = others).
Proof.
  induction cs as [|[e c] cs IH]; intros w m TT others Hok Hv Hi.
  - exists [], m, w, TT, others. split; [done|]. split; [done|]. split; [by constructor|done].
  - destruct Hv as [Hv Hrest]. destruct (exec_good kernel_pml4 kernel_root e w m TT others c Hok Hv (fun X => proj1 (Hi X))) as (r & m1 & w1 & E & TT1 & o1 & Hok1 & Hal & Hge & Heq).
    cbn [intact_run] in Hi. rewrite E in Hrest, Hi. destruct (IH w1 m1 TT1 o1 Hok1 Hrest (fun X => proj2 (Hi X))) as (rs & m2 & w2 & TT2 & o2 & E2 & Hok2 & Htr & Hno).
    exists (r :: rs), m2, w2, TT2, o2. cbn [run map snd]. rewrite E, E2. split; [done|]. split; [done|]. split.
    + econstructor; [exact Hal|]. rewrite <- (exec_active exact e w m TT others c r m1 w1 Hok Hv E). exact Htr.
    + intros Hnf. assert (Hc : (forall i, c = Fork i -> exists v, r = Value v) /\ no_failed_fork (map snd cs) rs) by (destruct c; cbn in Hnf; naive_solver).
      destruct Hc as [Hc Hn]. by rewrite (Hno Hn), (Heq Hc).
Qed.

(** ** Claims *)

(** C1. A run of memory calls, faults and stores of all processes never panics
    and does what the machine of separate memories allows: each process has a
    map and pages of its own, a fork duplicates them, a store changes one word
    of one page, and a fault changes nothing; the kernel's copy-on-write
    sharing is not visible. A call that succeeds changes exactly the pages of
    its range ([brk] those between the old end of the heap and the new one).
    One that fails changes nothing, but for two cases: a fixed [mmap] that
    runs out of memory leaves a hole, and [mprotect] stops at a page of the
    heap that an earlier [munmap] took away. Frames are those of the
    allocator's interface, [FramesLaws]; the calls are [valid]: arguments are
    machine words, device memory is not the allocator's, ids do not run out
    and the space the processor runs on is not released. *)
Theorem memory_run_refines w m TT others cs :
  system_ok w m TT others -> valid_run cs w m ->
  exists rs m' w' TT' others', run cs w m = Some (rs, m', w') /\ system_ok w' m' TT' others' /\
    trace (machine w m TT) (active m) (map snd cs) rs (machine w' m' TT').
Proof.
  intros Hok Hv. destruct (run_trace false cs w m TT others Hok Hv ltac:(done)) as (rs & m' & w' & TT' & o' & H1 & H2 & H3 & _). by exists rs, m', w', TT', o'.
Qed.

(** C2. A process keeps its map and every word of its pages through any run of
    calls that are not its own, whoever shares its frames and whatever fails,
    over the frame allocator's interface ([FramesLaws]). *)
Theorem process_isolation w m TT others cs j :
  system_ok w m TT others -> valid_run cs w m ->
  exists rs m' w' TT' others', run cs w m = Some (rs, m', w') /\ system_ok w' m' TT' others' /\
    (spares j (active m) (map snd cs) rs -> proc_eq (machine w' m' TT' j) (machine w m TT j)).
Proof.
  intros Hok Hv. destruct (run_trace false cs w m TT others Hok Hv ltac:(done)) as (rs & m' & w' & TT' & o' & H1 & H2 & H3 & _). exists rs, m', w', TT', o'. split; [done|]. split; [done|]. by eapply trace_spares.
Qed.

(** What the processor finds for a page of a process. *)
Definition mapped_page w (m : Manager) (id va entry : Z) : Prop :=
  exists o, (id, o) ∈ owned_spaces m /\ user_page va /\ page_entry_inner w (os_space o) va = Ok entry.

Lemma mapped_page_entry w m TT others id va entry :
  system_ok w m TT others -> mapped_page w m id va entry ->
  exists o x fl, (id, o) ∈ owned_spaces m /\ x ∈ owned (os_space o) ++ devices (os_space o) /\ om_address x = va /\
    entry = view w (TT id) (page_of va) /\ entry = Z.lor (om_frame x) fl /\ is_frame (om_frame x) /\ leaf_flags fl /\ has entry PRESENT = true.
Proof.
  intros Hok (o & Hin & Hu & E). pose proof (sys_space kernel_pml4 w _ TT others _ _ (sm_sys _ _ _ _ _ _ Hok) (spaces_elem _ _ _ Hin)) as Hi.
  rewrite (page_entry_spec kernel_pml4 w _ _ va (si_tree _ _ _ _ Hi) Hu) in E. destruct (has (view w (TT id) (page_of va)) PRESENT) eqn:Hp; [|done]. injection E as <-.
  destruct (so_all _ _ (si_space _ _ _ _ Hi) _ Hp) as (x & Hx & Ex). destruct (so_mapped _ _ (si_space _ _ _ _ Hi) x Hx) as (Hux & Hf & fl & Hv & Hfl).
  pose proof (page_of_inj _ _ Hux Hu Ex) as <-. by exists o, x, fl.
Qed.

(** Two places with the same frame of memory. *)
Lemma shared_frame w m TT others id va entry id' va' entry' :
  system_ok w m TT others -> mapped_page w m id va entry -> mapped_page w m id' va' entry' -> (id, va) <> (id', va') ->
  address entry = address entry' -> managed (address entry) -> has entry WRITABLE = false.
Proof.
  intros Hok H1 H2 Hne Ea Hma. pose proof (sm_sys _ _ _ _ _ _ Hok) as Hs.
  destruct (mapped_page_entry _ _ _ _ _ _ _ Hok H1) as (o & x & fl & Hin & Hx & Ex & Ev & El & Hf & Hfl & _).
  destruct (mapped_page_entry _ _ _ _ _ _ _ Hok H2) as (o' & x' & fl' & Hin' & Hx' & Ex' & Ev' & El' & Hf' & Hfl' & _).
  rewrite El, El', !address_entry in Ea by (done || apply Hfl || apply Hfl'). rewrite El, address_entry in Hma by (done || apply Hfl).
  assert (Hown : forall i p y, (i, p) ∈ owned_spaces m -> y ∈ owned (os_space p) ++ devices (os_space p) -> managed (om_frame y) -> y ∈ owned (os_space p)).
  { intros i p y Hip Hy Hmy. apply elem_of_app in Hy as [?|Hy]; [done|]. exfalso.
    by apply (so_devices _ _ (sy_space _ _ _ _ _ Hs _ _ (spaces_elem _ _ _ Hip)) y Hy). }
  pose proof (Hown _ _ _ Hin Hx Hma) as Ho. pose proof (Hown _ _ _ Hin' Hx' ltac:(by rewrite <- Ea)) as Ho'.
  apply not_true_is_false. intros Hw. rewrite Ev, <- Ex in Hw. pose proof (sy_private _ _ _ _ _ Hs _ _ (spaces_elem _ _ _ Hin) x Ho Hw) as Hr1.
  assert (Hc : 2 <= count (om_frame x) (all_owned (spaces (owned_spaces m)))).
  { destruct (decide (id = id')) as [<-|Hid].
    - assert (o' = o) as -> by (apply (lookup_id_elem _ _ _ (system_ids _ _ _ _ _ _ Hok)) in Hin, Hin'; congruence).
      pose proof (count_member (om_frame x) _ _ _ (spaces_elem _ _ _ Hin)). enough (2 <= count (om_frame x) (owned (os_space o))) by lia.
      apply (count_two _ _ x x'); [done|done| |done|done]. intros ->. apply Hne. congruence.
    - apply spaces_elem in Hin, Hin'. apply list_elem_of_split in Hin as (a & b & El1). rewrite El1 in Hin' |- *. apply elem_mid in Hin' as [[= -> _]|Hin']; [done|].
      rewrite count_all. pose proof (count_elem (om_frame x) _ x Ho eq_refl). pose proof (count_elem (om_frame x) _ x' Ho' (eq_sym Ea)). pose proof (count_member (om_frame x) _ _ _ Hin'). lia. }
  pose proof (sy_others _ _ _ _ _ Hs (om_frame x)). destruct (owned_refs _ _ _ _ _ (om_frame x) Hs ltac:(lia)) as [Hr _]. lia.
Qed.

(** The processor's view of a page and the process's memory map: a page is
    mapped only in a region, onto the device behind it or onto memory of the
    allocator, and only the heap can lack pages. *)
Definition belongs (a : option (Protection * RegionKind)) (e : result AddressSpaceError Z) : Prop :=
  match a, e with
  | None, Err NotMapped | Some (_, Heap), Err NotMapped => True
  | Some (_, Vma.Device f), Ok entry => address entry = f
  | Some _, Ok entry => managed (address entry)
  | _, _ => False
  end.

(** The bits of an entry (as they will be once shared pages are copied) say
    what a protection allows; one that has both writing and execution, which
    the system calls refuse, does not allow writing. *)
Definition grants (p : Protection) (fl : Z) : Prop :=
  has fl PRESENT = true /\ has fl USER = negb (bool_decide (p = PROT_NONE)) /\
  has fl WRITABLE = Vma.write p && negb (execute p) /\ has fl NO_EXECUTE = negb (execute p).

Lemma prot_rights_grants p : grants p (prot_rights p) /\ grants p (Z.lor (prot_rights p) PWT).
Proof. destruct p as [[] [] []]; vm_compute; repeat split. Qed.

(** Every page of a region is mapped, and with the region's protection; a
    device's page with write-through caching. *)
Definition follows (a : option (Protection * RegionKind)) (e : result AddressSpaceError Z) : Prop :=
  match a, e with
  | None, Err NotMapped => True
  | Some (prot, Vma.Device f), Ok entry => address entry = f /\ grants prot (rights (flags_of entry)) /\ has (rights (flags_of entry)) PWT = true
  | Some (prot, _), Ok entry => grants prot (rights (flags_of entry))
  | _, _ => False
  end.

Lemma page_base_mul va : user_page va -> page_of va * 4096 = va.
Proof. intros [_ Ha]. unfold page_of. pose proof (Z.div_mod va 4096 ltac:(lia)). lia. Qed.

(** The agreement of a page with its entry. *)
Lemma system_matches exact w m TT others id o va :
  system_ok_at exact w m TT others -> (id, o) ∈ owned_spaces m -> user_page va ->
  matches exact (vview (os_map o) va) (page_at w (is_device (os_space o) (page_of va)) (view w (TT id) (page_of va))) /\
  page_entry_inner w (os_space o) va = (if has (view w (TT id) (page_of va)) PRESENT then Ok (view w (TT id) (page_of va)) else Err NotMapped).
Proof.
  intros Hok Hin Hu. pose proof (sys_space kernel_pml4 w _ TT others _ _ (sm_sys _ _ _ _ _ _ Hok) (spaces_elem _ _ _ Hin)) as Hi.
  pose proof (ag_pages _ _ (sm_maps _ _ _ _ _ _ Hok _ _ Hin) (page_of va) (user_page_range va Hu)) as Hm. rewrite page_base_mul in Hm by done.
  split; [exact Hm|]. by rewrite (page_entry_spec kernel_pml4 w _ _ va (si_tree _ _ _ _ Hi) Hu).
Qed.

Lemma system_follows w m TT others id o va :
  system_ok_at true w m TT others -> (id, o) ∈ owned_spaces m -> user_page va -> follows (vview (os_map o) va) (page_entry_inner w (os_space o) va).
Proof.
  intros Hok Hin Hu. destruct (system_matches true w m TT others id o va Hok Hin Hu) as [Hm ->]. unfold page_at in Hm. destruct (has (view w (TT id) (page_of va)) PRESENT).
  - destruct (is_device (os_space o) (page_of va)), (vview (os_map o) va) as [[prot []]|]; cbn in *; try done; try (rewrite (Hm eq_refl); apply prot_rights_grants).
    destruct Hm as [-> Hm]. rewrite (Hm eq_refl). split; [done|]. split; [apply prot_rights_grants|]. destruct prot as [[] [] []]; vm_compute; done.
  - destruct (vview (os_map o) va) as [[prot []]|]; cbn in *; done.
Qed.

Lemma system_belongs w m TT others id o va :
  system_ok w m TT others -> (id, o) ∈ owned_spaces m -> user_page va -> belongs (vview (os_map o) va) (page_entry_inner w (os_space o) va).
Proof.
  intros Hok Hin Hu. destruct (system_matches false w m TT others id o va Hok Hin Hu) as [Hm Ep]. unfold page_at in Hm. destruct (has (view w (TT id) (page_of va)) PRESENT).
  2: { rewrite Ep. destruct (vview (os_map o) va) as [[prot []]|]; cbn in *; done. }
  destruct (mapped_page_entry w m TT others id va _ Hok ltac:(by exists o)) as (o2 & x & fl & Hin2 & Hx & <- & _ & Ev & Hf & Hfl & _).
  assert (o2 = o) as -> by (apply (lookup_id_elem _ _ _ (system_ids _ _ _ _ _ _ Hok)) in Hin, Hin2; congruence).
  assert (Hpriv : is_device (os_space o) (page_of (om_address x)) = false -> managed (address (view w (TT id) (page_of (om_address x))))).
  { intros Hd. pose proof (private_owned _ _ Hx Hd) as Ho. rewrite Ev, address_entry by (done || apply Hfl). pose proof (sm_sys _ _ _ _ _ _ Hok) as Hs.
    pose proof (count_member (om_frame x) _ _ _ (spaces_elem _ _ _ Hin)). pose proof (count_elem (om_frame x) _ x Ho eq_refl).
    pose proof (sy_others _ _ _ _ _ Hs (om_frame x)). destruct (owned_refs _ _ _ _ _ (om_frame x) Hs ltac:(lia)) as [Hr _]. apply (refs_managed w); [apply Hs|lia]. }
  rewrite Ep. destruct (is_device (os_space o) (page_of (om_address x))), (vview (os_map o) (om_address x)) as [[prot []]|]; cbn in *; try done; try (by apply Hpriv). by destruct Hm as [<- _].
Qed.

(** C7. From boot on, whatever the processes do: a page is mapped only where the
    memory map of its process has a region, onto the device behind it or onto
    the allocator's memory; only pages of the heap can be missing; no page is
    writable and executable; and memory that two pages share is writable
    through neither. If every [brk] of the run found its heap in one piece
    (not as [munmap] or [mprotect] of a part leave it,
    [VmaSpec.brk_after_munmap]), then a page is mapped exactly where the map
    has a region and with the region's protection. *)
Theorem user_memory_safe w0 cs :
  frames_wf w0 -> ~ managed kernel_root -> valid_run cs w0 boot ->
  exists rs m w, run cs w0 boot = Some (rs, m, w) /\
    (forall id o va, (id, o) ∈ owned_spaces m -> user_page va -> belongs (vview (os_map o) va) (page_entry_inner w (os_space o) va)) /\
    (forall id va entry, mapped_page w m id va entry -> has entry WRITABLE = true -> has entry NO_EXECUTE = true) /\
    (forall id va entry id' va' entry', mapped_page w m id va entry -> mapped_page w m id' va' entry' -> (id, va) <> (id', va') ->
       address entry = address entry' -> managed (address entry) -> has entry WRITABLE = false) /\
    (intact_run cs w0 boot ->
       forall id o va, (id, o) ∈ owned_spaces m -> user_page va -> follows (vview (os_map o) va) (page_entry_inner w (os_space o) va)).
Proof.
  intros Hw Hk Hv. destruct (run_trace false cs w0 boot _ _ (boot_ok false w0 Hw Hk) Hv ltac:(done)) as (rs & m & w & TT & others & E & Hok & _). exists rs, m, w. split; [done|]. split; [|split; [|split]].
  - intros id o va. by eapply system_belongs.
  - intros id va entry H1 HW. destruct (mapped_page_entry _ _ _ _ _ _ _ Hok H1) as (o & x & fl & _ & _ & _ & _ & -> & Hf & Hfl & _). rewrite has_entry in HW |- * by done. by apply Hfl.
  - intros id va entry id' va' entry'. by eapply shared_frame.
  - intros Hi id o va. destruct (run_trace true cs w0 boot _ _ (boot_ok true w0 Hw Hk) Hv (fun _ => Hi)) as (rs' & m' & w' & TT' & others' & E' & Hok' & _).
    rewrite E in E'. injection E' as <- <- <-. by eapply system_follows.
Qed.

(** C9. When every process has ended and no fork has failed, each frame of
    memory has the references it had at boot: nothing is lost, nothing is
    freed twice. *)
Theorem memory_returned w0 cs rs m w :
  frames_wf w0 -> ~ managed kernel_root -> valid_run cs w0 boot -> run cs w0 boot = Some (rs, m, w) ->
  no_failed_fork (map snd cs) rs -> owned_spaces m = [] -> forall g, refs w g = refs w0 g.
Proof.
  intros Hw Hk Hv Er Hnf He g. destruct (run_trace false cs w0 boot _ _ (boot_ok false w0 Hw Hk) Hv ltac:(done)) as (rs' & m' & w' & TT & others & E & Hok & _ & Ho).
  rewrite Er in E. injection E as <- <- <-. rewrite (sy_counts _ _ _ _ _ (sm_sys _ _ _ _ _ _ Hok) g), (Ho Hnf), He; [cbn; lia|].
  intros id s. rewrite He. intros Hin. by apply elem_of_nil in Hin.
Qed.

(** What mapping a page leaves, [T] the tables before. *)
Definition map_effect w (s : AddressSpace) T (va f fl : Z) (r : result AddressSpaceError unit) w' : Prop :=
  match r with
  | Err e => (e = AlreadyMapped <-> exists entry, page_entry_inner w s va = Ok entry) /\ (e = AlreadyMapped \/ e = OutOfFrames) /\
      (forall g, refs w' g = refs w g) /\ forall a, user_page a -> page_entry_inner w' s a = page_entry_inner w s a
  | Ok _ => page_entry_inner w s va = Err NotMapped /\ page_entry_inner w' s va = Ok (Z.lor f fl) /\
      (forall g, ~ tables T g -> refs w g <> 0 -> refs w' g = refs w g) /\ forall a, user_page a -> a <> va -> page_entry_inner w' s a = page_entry_inner w s a
  end.

(** C10. Mapping a page never panics. It succeeds exactly by making that page
    point at the frame, every other page as before; a failure takes back
    every table it made, so that no frame's count and no page changes. *)
Theorem map_page_atomic w s T va f fl :
  frames_wf w -> tree kernel_pml4 w (root s) T -> populated T (view w T) -> user_page va -> is_frame f -> flags_ok fl ->
  exists r w', map_page_in_root w (root s) va f fl = Some (r, w') /\ map_effect w s T va f fl r w'.
Proof.
  intros Hw Ht Hpop Hu Hf Hfl. destruct (map_page_spec kernel_pml4 w (root s) T va f fl Hw Ht Hpop Hu Hf Hfl) as (r & w' & E & Ho). exists r, w'. split; [done|].
  pose proof (fun a Ha => page_entry_spec kernel_pml4 w s T a Ht Ha) as P0. inversion Ho as [T' A1 A2 A3 A4 A5 A6 A7 A8|err B1 B2 B3 B4 B5]; subst; cbn [map_effect].
  - pose proof (fun a Ha => page_entry_spec kernel_pml4 w' s T' a A3 Ha) as P1. split; [by rewrite P0, A1|]. split; [rewrite P1, A7, Z.eqb_refl by done; destruct Hfl; by rewrite has_entry by done; destruct (has fl PRESENT)|]. split.
    + intros g Hn Hr. apply A6. intros Hx. apply Hr. by apply A5.
    + intros a Ha Hne. rewrite P1, P0, A7 by done. rewrite (proj2 (Z.eqb_neq (page_of a) (page_of va))); [done|]. intros Ep. apply Hne. by apply page_of_inj.
  - pose proof (fun a Ha => page_entry_spec kernel_pml4 w' s T a B3 Ha) as P1. rewrite P0 by done. split; [|split; [naive_solver|split]].
    + destruct B1 as [[-> ->]|[-> ->]]; [split; [done|by intros [? ?]]|split; [by eexists|done]].
    + intros g. destruct (Z.eq_dec (refs w' g) (refs w g)) as [|Hne]; [done|]. exfalso. apply Hne, B4. intros (k & p & Hg). apply Hne.
      by rewrite (proj2 (tr_frame _ _ _ _ B3 _ _ _ Hg)), (proj2 (tr_frame _ _ _ _ Ht _ _ _ Hg)).
    + intros a Ha. by rewrite P1, P0, B5.
Qed.
End Claims.

(** ** The claims on a small memory *)

Import Ram.

(** Checks [valid], and [intact] for maps whose heap has not grown yet. *)
Definition in_u64 (x : Z) : bool := (0 <=? x) && (x <=? U64_MAX).

Definition validb (m : Manager) (c : Call) : bool :=
  match c with
  | Brk id a => in_u64 a
  | Mmap _ hint len _ _ => in_u64 hint && in_u64 len
  | MmapDevice _ _ _ _ _ _ => false
  | Munmap _ s len => in_u64 s && in_u64 len
  | Mprotect _ s len _ => in_u64 s && in_u64 len
  | Fork _ => next_id (registry m) <? U64_MAX
  | Fault va | Store va _ => (0 <=? va) && (va <? 2 ^ 47)
  | Activate id => match id with Some i => negb (i =? NO_SPACE) | None => true end
  | Release id => match active m with Some i => negb (i =? id) | None => true end
  | Spawn bs top => (next_id (registry m) <? U64_MAX) && (0 <=? bs) && (bs mod 4096 =? 0) && (top mod 4096 =? 0) && (top <=? 2 ^ 47)
  end.

Definition no_heap (m : MemoryMap) : bool :=
  (brk m =? brk_start m) && (brk_start m mod 4096 =? 0) && (0 <=? brk_start m) && (brk_start m <=? 2 ^ 47) &&
  forallb (fun r => match Vma.kind r with Heap => false | _ => true end) (Vma.regions m).

Definition intactb (m : Manager) (c : Call) : bool :=
  match c with Brk id _ => match lookup_id (owned_spaces m) id with Some o => no_heap (os_map o) | None => true end | _ => true end.
Lemma in_u64_spec x : in_u64 x = true -> is_u64 x.
Proof. unfold in_u64, is_u64. lia. Qed.

Lemma mod_divide x : (x mod 4096 =? 0) = true -> (4096 | x).
Proof. intros H%Z.eqb_eq. apply Z.mod_divide; [lia|done]. Qed.

Lemma attrs_no_heap l x p : forallb (fun r => match Vma.kind r with Heap => false | _ => true end) l = true -> attrs l x <> Some (p, Heap).
Proof.
  induction l as [|r l IH]; cbn; [done|]. intros [Hr Hl]%andb_true_iff. case_if; [|by apply IH].
  intros E. injection E as _ E. unfold kind_at in E. destruct (Vma.kind r); done.
Qed.

Lemma no_heap_intact m : no_heap m = true -> heap_intact m.
Proof.
  unfold no_heap. rewrite !andb_true_iff. intros [[[[Hb Hm] H0] H1] Hf]. apply Z.eqb_eq in Hb. apply mod_divide in Hm. intros e He.
  assert (e = brk_start m) as ->.
  { apply checked_next_multiple_of_Some in He as [-> _]. rewrite Hb. apply next_multiple_of_id; done. }
  split; [lia|]. intros x p Hx. by apply attrs_no_heap in Hx.
Qed.


Section Checked.
Context {W : Type} {HF : Frames W} {HL : FramesLaws W} (kernel_pml4 : Z -> Z) (kernel_root : Z).
Implicit Types (w : W).
Abbreviation run := (run kernel_pml4 kernel_root).

Fixpoint intact_runb (cs : list (Env * Call)) w (m : Manager) : bool :=
  match cs with
  | [] => true
  | (e, c) :: cs => intactb m c && match exec kernel_pml4 kernel_root e w m c with Some (_, m, w) => intact_runb cs w m | None => true end
  end.

(** A run whose calls are checked on the way. *)
Fixpoint checked_run (cs : list (Env * Call)) w (m : Manager) : option (list Reply * Manager * W) :=
  match cs with
  | [] => Some ([], m, w)
  | (e, c) :: cs =>
    if validb m c then
      match exec kernel_pml4 kernel_root e w m c with
      | Some (r, m, w) => match checked_run cs w m with Some (rs, m, w) => Some (r :: rs, m, w) | None => None end
      | None => None
      end
    else None
  end.

Lemma intact_runb_spec cs : forall w m, intact_runb cs w m = true -> intact_run kernel_pml4 kernel_root cs w m.
Proof.
  induction cs as [|[e c] cs IH]; intros w m; cbn [intact_runb intact_run]; [done|]. intros [H1 H2]%andb_true_iff. split.
  - destruct c; try done. cbn [intactb intact] in *. intros o Eo. rewrite Eo in H1. by apply no_heap_intact.
  - destruct (exec _ _ _ _ _ _) as [[[r m'] w']|]; [|done]. by apply IH.
Qed.

Lemma validb_spec w m c : validb m c = true -> valid w m c.
Proof.
  destruct c; cbn [validb valid]; rewrite ?andb_true_iff; intros H.
  - by apply in_u64_spec.
  - split; apply in_u64_spec; apply H.
  - done.
  - split; apply in_u64_spec; apply H.
  - split; apply in_u64_spec; apply H.
  - lia.
  - lia.
  - lia.
  - destruct id as [i|]; [|done]. intros [= ->]. by rewrite Z.eqb_refl in H.
  - intros E. rewrite E in H. by rewrite Z.eqb_refl in H.
  - destruct H as [[[[H1 H2] H3] H4] H5]. split; [lia|]. split; [lia|]. split; [by apply mod_divide|]. split; [by apply mod_divide|lia].
Qed.

Lemma checked_run_spec cs : forall w m x, checked_run cs w m = Some x -> valid_run kernel_pml4 kernel_root cs w m /\ run cs w m = Some x.
Proof.
  induction cs as [|[e c] cs IH]; intros w m x; cbn [checked_run valid_run UserClaims.run]; [done|]. destruct (validb m c) eqn:Hv; [|done].
  destruct (exec _ _ _ _ _ _) as [[[r m'] w']|]; [|done]. destruct (checked_run cs w' m') as [[[rs m2] w2]|] eqn:E; [|done].
  destruct (IH _ _ _ E) as [H1 ->]. intros [= <-]. split; [|done]. split; [by apply validb_spec|done].
Qed.

End Checked.

Section Demo.
Abbreviation run := (run (fun _ => 0) 0).
Abbreviation boot := (boot 0).
Abbreviation checked_run := (checked_run (fun _ => 0) 0).

(** What a demonstration looks at: the replies, the processes left, and one
    frame's count. *)
Definition outcome (cs : list (Env * Call)) (w : Ram) (m : Manager) : option (list Reply * list Z * Z) :=
  match checked_run cs w m with Some (rs, m, w) => Some (rs, map fst (owned_spaces m), counts w 8192) | None => None end.

Lemma outcome_spec cs w m rs ids n :
  outcome cs w m = Some (rs, ids, n) -> valid_run (fun _ => 0) 0 cs w m /\ exists m' w', run cs w m = Some (rs, m', w') /\ map fst (owned_spaces m') = ids /\ refs w' 8192 = n.
Proof.
  unfold outcome. destruct (checked_run cs w m) as [[[rs' m'] w']|] eqn:E; [|done]. apply (checked_run_spec (fun _ => 0) 0) in E as [Hv E].
  intros [= -> <- <-]. split; [done|]. by exists m', w'.
Qed.

(** One process gets memory, writes, and forks; parent and child write the
    shared page; the parent unmaps and ends. *)
Definition quiet_env : Env := mkEnv (fun _ => true) true true false.
Definition demo : list (Env * Call) := map (fun c => (quiet_env, c))
  [Spawn 0x400000 0x7fff0000; Mmap 1 0 8192 READ_WRITE false; Activate (Some 1); Store 0x7ffee000 42; Fork 1;
   Store 0x7ffee000 43; Activate (Some 2); Fault 0x7ffee000; Store 0x7ffee000 44; Mprotect 2 0x7ffee000 4096 READ; Store 0x7ffee000 45; Brk 2 0x402800].

Lemma demo_outcome : outcome demo empty_ram boot =
  Some ([Value 1; Value 0x7ffee000; Value 1; Value 0; Value 2; Value 0; Value 1; Value 0; Value 0; Value 0; Unresolved NotCow; Value 0x402800], [1; 2], 1).
Proof. vm_compute. reflexivity. Qed.

(** Then the child takes a page out of its heap, grows it, and cannot protect
    it as a whole any more. *)
Definition holes : list (Env * Call) := demo ++ map (fun c => (quiet_env, c)) [Munmap 2 0x401000 4096; Brk 2 0x403800; Mprotect 2 0x400000 0x4000 READ].

Lemma holes_outcome : outcome holes empty_ram boot =
  Some ([Value 1; Value 0x7ffee000; Value 1; Value 0; Value 2; Value 0; Value 1; Value 0; Value 0; Value 0; Unresolved NotCow; Value 0x402800;
         Value 0; Value 0x403800; Failed ENOMEM], [1; 2], 1).
Proof. vm_compute. reflexivity. Qed.

Lemma ram_boot : system_ok (exact := false) (fun _ => 0) 0 empty_ram boot (fun _ _ _ => None) (refs empty_ram).
Proof. apply boot_ok; [apply empty_ram_wf|done]. Qed.

Lemma memory_run_refines_witness : exists rs m' w' TT' others',
  run holes empty_ram boot = Some (rs, m', w') /\ system_ok (exact := false) (fun _ => 0) 0 w' m' TT' others' /\
  trace (machine empty_ram boot (fun _ _ _ => None)) None (map snd holes) rs (machine w' m' TT').
Proof.
  destruct (outcome_spec _ _ _ _ _ _ holes_outcome) as (Hv & _). exact (memory_run_refines (fun _ => 0) 0 empty_ram boot (fun _ _ _ => None) (refs empty_ram) holes ram_boot Hv).
Defined.

(** The first process keeps its memory while the second one writes. *)
Definition first_calls : list (Env * Call) := firstn 6 demo.
Definition later_calls : list (Env * Call) := skipn 6 demo.
Definition middle : Manager * Ram := match checked_run first_calls empty_ram boot with Some (_, m, w) => (m, w) | None => (boot, empty_ram) end.

Lemma middle_ok : exists TT others, system_ok (exact := false) (fun _ => 0) 0 (snd middle) (fst middle) TT others.
Proof.
  unfold middle. destruct (checked_run first_calls empty_ram boot) as [[[rs m] w]|] eqn:E; [|by exists (fun _ _ _ => None), (refs empty_ram); apply ram_boot].
  apply (checked_run_spec (fun _ => 0) 0) in E as [Hv E]. destruct (run_trace (fun _ => 0) 0 false first_calls _ _ _ _ ram_boot Hv ltac:(done)) as (rs' & m' & w' & TT & others & E' & Hok & _).
  rewrite E in E'. injection E' as <- <- <-. by exists TT, others.
Qed.

Lemma later_outcome : outcome later_calls (snd middle) (fst middle) = Some ([Value 1; Value 0; Value 0; Value 0; Unresolved NotCow; Value 0x402800], [1; 2], 1) /\ active (fst middle) = Some 1.
Proof. split; vm_compute; reflexivity. Qed.

Lemma process_isolation_witness : exists TT m' w' TT' others',
  run later_calls (snd middle) (fst middle) = Some ([Value 1; Value 0; Value 0; Value 0; Unresolved NotCow; Value 0x402800], m', w') /\ system_ok (exact := false) (fun _ => 0) 0 w' m' TT' others' /\
  proc_eq (machine w' m' TT' 1) (machine (snd middle) (fst middle) TT 1).
Proof.
  destruct middle_ok as (TT & others & Hok), later_outcome as [Ho Ha]. destruct (outcome_spec _ _ _ _ _ _ Ho) as (Hv & m' & w' & E & _).
  destruct (process_isolation (fun _ => 0) 0 _ _ TT others later_calls 1 Hok Hv) as (rs & m2 & w2 & TT' & o2 & E' & Hok2 & Hsp).
  rewrite E in E'. injection E' as <- <- <-. exists TT, m', w', TT', o2. split; [exact E|]. split; [exact Hok2|]. apply Hsp. rewrite Ha. clear. cbn. rewrite ?list_elem_of_singleton, ?elem_of_nil. lia.
Defined.

Lemma demo_intact : intact_runb (fun _ => 0) 0 demo empty_ram boot = true.
Proof. vm_compute. reflexivity. Qed.

Lemma user_memory_safe_witness : exists m w o, map fst (owned_spaces m) = [1; 2] /\ (2, o) ∈ owned_spaces m /\
  follows (vview (os_map o) 0x7ffee000) (page_entry_inner w (os_space o) 0x7ffee000).
Proof.
  destruct (outcome_spec _ _ _ _ _ _ demo_outcome) as (Hv & m & w & E & Hids & _).
  destruct (user_memory_safe (fun _ => 0) 0 empty_ram demo empty_ram_wf ltac:(discriminate) Hv) as (rs & m' & w' & E' & _ & _ & _ & H). rewrite E in E'. injection E' as <- <- <-.
  specialize (H (intact_runb_spec _ _ _ _ _ demo_intact)).
  assert (Hin : 2 ∈ map fst (owned_spaces m)) by (rewrite Hids; right; left). apply list_elem_of_fmap in Hin as ([i o] & Ei & Hin). cbn in Ei. subst i.
  exists m, w, o. split; [exact Hids|]. split; [exact Hin|]. apply (H 2 o); [exact Hin|]. clear. done.
Defined.

(** Everything ends. *)
Definition whole : list (Env * Call) := map (fun c => (quiet_env, c))
  [Spawn 0x400000 0x7fff0000; Mmap 1 0 4096 READ_WRITE false; Fork 1; Activate (Some 2); Store 0x7ffef000 7; Activate None; Release 1; Release 2].

(** On the kernel's frames, its root table in the image. *)
Definition kernel_root : Z := 163840.
Abbreviation kernel_laws := (KernelFrames.kernel_laws 64 KernelFrames.kernel_image).
Abbreviation kernel_run := (UserClaims.run (HF := KernelFrames.kernel_ops) (fun _ => 0) kernel_root whole KernelFrames.kernel_memory (UserClaims.boot kernel_root)).
Definition whole_replies : list Reply := [Value 1; Value 0x7ffef000; Value 2; Value 1; Value 0; Value 1; Value 0; Value 0].

Lemma whole_outcome :
  match UserClaims.checked_run (HF := KernelFrames.kernel_ops) (fun _ => 0) kernel_root whole KernelFrames.kernel_memory (UserClaims.boot kernel_root) with
  | Some (rs, m, _) => Some (rs, map fst (owned_spaces m))
  | None => None
  end = Some (whole_replies, []).
Proof. vm_compute. reflexivity. Qed.

Lemma whole_run : valid_run (HL := kernel_laws) (fun _ => 0) kernel_root whole KernelFrames.kernel_memory (UserClaims.boot kernel_root) /\
  exists m w, kernel_run = Some (whole_replies, m, w) /\ owned_spaces m = [].
Proof.
  pose proof whole_outcome as Ho. destruct (UserClaims.checked_run _ _ _ _ _) as [[[rs m] w]|] eqn:E; [|discriminate Ho]. injection Ho as -> Hids.
  destruct (checked_run_spec (HL := kernel_laws) (fun _ => 0) kernel_root _ _ _ _ E) as [Hv Hrun]. split; [exact Hv|]. exists m, w. split; [exact Hrun|exact (map_eq_nil _ _ Hids)].
Qed.

Lemma kernel_root_reserved : ~ KernelFrames.kernel_managed 64 KernelFrames.kernel_image kernel_root.
Proof. intros (_ & _ & Hno). apply Hno. vm_compute. left. Qed.

Lemma whole_forks : no_failed_fork (map snd whole) whole_replies.
Proof. cbn. split; [by eexists|done]. Qed.

Lemma memory_returned_witness : exists m w, kernel_run = Some (whole_replies, m, w) /\ forall g, KernelFrames.kernel_refs w g = KernelFrames.kernel_refs KernelFrames.kernel_memory g.
Proof.
  destruct whole_run as (Hv & m & w & E & Hids). exists m, w. split; [exact E|].
  exact (memory_returned (HL := kernel_laws) (fun _ => 0) kernel_root KernelFrames.kernel_memory whole whole_replies m w KernelFrames.kernel_memory_wf kernel_root_reserved Hv E whole_forks Hids).
Defined.

Lemma map_page_atomic_witness : exists s w r w', new_space (fun _ => 0) empty_ram = (Ok s, w) /\
  map_page_in_root w (root s) 0x400000 0x5000 USER_READ = Some (r, w') /\ map_effect w s (root_only (root s)) 0x400000 0x5000 USER_READ r w'.
Proof.
  destruct (new_space (fun _ => 0) empty_ram) as [[s|e] w] eqn:E; [|discriminate E].
  pose proof (new_space_spec (fun _ => 0) _ _ _ empty_ram_wf E) as (Hw & Ht & Ho & Hd & _). exists s, w.
  destruct (map_page_atomic (fun _ => 0) w s (root_only (root s)) 0x400000 0x5000 USER_READ Hw Ht) as (r & w' & E1 & E2); [|done|done|done|by exists r, w'].
  by apply (si_populated _ _ _ _ (empty_space (fun _ => 0) w s Ht Ho Hd)).
Defined.

(** A fork that fails after its loop over the pages keeps the references it
    took: the frame of the ended process is never free again. *)
Definition failing_env : Env := mkEnv (fun _ => true) true false false.
Definition leaky : list (Env * Call) :=
  [(quiet_env, Spawn 0x400000 0x7fff0000); (quiet_env, Mmap 1 0 4096 READ_WRITE false); (failing_env, Fork 1); (quiet_env, Release 1)].

Theorem failed_fork_leaks : valid_run (fun _ => 0) 0 leaky empty_ram boot /\
  exists rs m w f, run leaky empty_ram boot = Some (rs, m, w) /\ owned_spaces m = [] /\ refs empty_ram f = 0 /\ refs w f = 1.
Proof.
  assert (Ho : outcome leaky empty_ram boot = Some ([Value 1; Value 0x7ffef000; Failed ENOMEM; Value 0], [], 1)) by (vm_compute; reflexivity).
  destruct (outcome_spec _ _ _ _ _ _ Ho) as (Hv & m & w & E & Hids & Hn). split; [exact Hv|]. eexists _, m, w, 8192. split; [exact E|]. split; [exact (map_eq_nil _ _ Hids)|split; [reflexivity|exact Hn]].
Qed.
End Demo.
End UserClaims.
