(* ===== verification/Abi.v ===== *)
(** * Abi: the layouts programs and the kernel share

    [kernel/src/syscall/{abi,numbers}.rs] and the pure part of
    [kernel/src/syscall/time.rs]: flags, [struct stat], directory entries,
    status words, times, terminal and screen structures as the kernel writes
    them; beside them the decoders of [userspace/libsaeos/src]: [fs.rs],
    [raw.rs], [time.rs], [errno.rs] and [fb.rs]. The properties are round
    trips between the two. *)

From stdpp Require Import base numbers list.
From S2P Require Import Prelude Errno Text Inode FileTable.
Local Open Scope Z_scope.

Module Abi.

(** [as u64] and [as i64]. *)
Definition wrap64 (v : Z) : Z := v mod 2 ^ 64.
Definition signed64 (v : Z) : Z := if v <? 2 ^ 63 then v else v - 2 ^ 64.

(** [String::from_utf8_lossy]: each longest beginning of a character that is
    not continued becomes U+FFFD. The length of the first piece, and whether it
    is a character. *)
Definition utf8_piece (a : Z) (l : list Z) : nat * bool :=
  let second lo hi := match l with b :: _ => between lo b hi | [] => false end in
  let third := match l with _ :: c :: _ => cont c | _ => false end in
  let fourth := match l with _ :: _ :: d :: _ => cont d | _ => false end in
  if between 0 a 127 then (1%nat, true)
  else if between 194 a 223 then if second 128 191 then (2%nat, true) else (1%nat, false)
  else if between 224 a 239 then
    if negb (second (if a =? 224 then 160 else 128) (if a =? 237 then 159 else 191)) then (1%nat, false)
    else if third then (3%nat, true) else (2%nat, false)
  else if between 240 a 244 then
    if negb (second (if a =? 240 then 144 else 128) (if a =? 244 then 143 else 191)) then (1%nat, false)
    else if negb third then (2%nat, false) else if fourth then (4%nat, true) else (3%nat, false)
  else (1%nat, false).
Fixpoint lossy (fuel : nat) (l : list Z) : list Z :=
  match fuel, l with
  | S fuel, a :: rest =>
      let '(n, good) := utf8_piece a rest in
      (if good then take n l else [239; 191; 189]) ++ lossy fuel (drop n l)
  | _, _ => []
  end.
Definition from_utf8_lossy (l : list Z) : list Z := lossy (length l) l.

(** [bytes[offset..offset + value.len()].copy_from_slice(value)]. *)
Definition put (bytes : list Z) (offset : nat) (value : list Z) : list Z :=
  take offset bytes ++ value ++ drop (offset + length value) bytes.
(** [bytes[offset..offset + n]] as an integer. *)
Definition field (bytes : list Z) (offset n : nat) : Z := from_le (take n (drop offset bytes)).
Definition zeros (n : nat) : list Z := replicate n 0.

(** ** Calls *)

Module Nr.
Definition READ : Z := 0.
Definition WRITE : Z := 1.
Definition OPEN : Z := 2.
Definition CLOSE : Z := 3.
Definition STAT : Z := 4.
Definition FSTAT : Z := 5.
Definition LSEEK : Z := 8.
Definition MMAP : Z := 9.
Definition MPROTECT : Z := 10.
Definition MUNMAP : Z := 11.
Definition BRK : Z := 12.
Definition IOCTL : Z := 16.
Definition DUP : Z := 32.
Definition DUP2 : Z := 33.
Definition NANOSLEEP : Z := 35.
Definition GETPID : Z := 39.
Definition FORK : Z := 57.
Definition EXECVE : Z := 59.
Definition EXIT : Z := 60.
Definition WAIT4 : Z := 61.
Definition GETCWD : Z := 79.
Definition CHDIR : Z := 80.
Definition RENAME : Z := 82.
Definition MKDIR : Z := 83.
Definition RMDIR : Z := 84.
Definition UNLINK : Z := 87.
Definition GETPPID : Z := 110.
Definition ARCH_PRCTL : Z := 158.
Definition GETDENTS64 : Z := 217.
Definition CLOCK_GETTIME : Z := 228.
Definition CLOCK_NANOSLEEP : Z := 230.
Definition EXIT_GROUP : Z := 231.
End Nr.

Definition O_ACCMODE : Z := 3.
Definition O_RDONLY : Z := 0.
Definition O_WRONLY : Z := 1.
Definition O_RDWR : Z := 2.
Definition O_CREAT : Z := 64.
Definition O_EXCL : Z := 128.
Definition O_TRUNC : Z := 512.
Definition O_APPEND : Z := 1024.
Definition O_DIRECTORY : Z := 65536.

Definition open_bits : list (Z * Z) :=
  [(O_CREAT, Flags.CREATE); (O_EXCL, Flags.EXCL); (O_TRUNC, Flags.TRUNC); (O_APPEND, Flags.APPEND); (O_DIRECTORY, Flags.DIRECTORY)].
Definition open_flags (flags : Z) : result Errno Z :=
  let? access :=
    (let mode := Z.land flags O_ACCMODE in
     if mode =? O_RDONLY then Ok Flags.READ
     else if mode =? O_WRONLY then Ok Flags.WRITE
     else if mode =? O_RDWR then Ok Flags.READ_WRITE else Err EINVAL) in
  Ok (fold_left (fun acc '(bit, flag) => if negb (Z.land flags bit =? 0) then Z.lor acc flag else acc) open_bits access).

Definition whence (value : Z) : result Errno Whence :=
  if value =? 0 then Ok SeekSet else if value =? 1 then Ok SeekCurrent else if value =? 2 then Ok SeekEnd else Err EINVAL.

(** ** Files *)

Definition S_IFCHR : Z := 8192.
Definition S_IFDIR : Z := 16384.
Definition S_IFREG : Z := 32768.
Definition mode (kind : InodeKind) : Z :=
  match kind with
  | KFile => Z.lor S_IFREG 420
  | KDirectory => Z.lor S_IFDIR 493
  | KCharDevice => Z.lor S_IFCHR 438
  end.

Definition STAT_SIZE : nat := 144.
Definition div_ceil (a b : Z) : Z := (a + b - 1) / b.
Definition encode_stat (stat : Stat) : list Z :=
  let b := zeros STAT_SIZE in
  let b := put b 0 (le_bytes 8 (st_fs_id stat)) in
  let b := put b 8 (le_bytes 8 (st_ino stat)) in
  let b := put b 16 (le_bytes 8 (st_nlink stat)) in
  let b := put b 24 (le_bytes 4 (mode (st_kind stat))) in
  let b := put b 48 (le_bytes 8 (st_size stat)) in
  let b := put b 56 (le_bytes 8 4096) in
  put b 64 (le_bytes 8 (div_ceil (st_size stat) 512)).

Definition DT_CHR : Z := 2.
Definition DT_DIR : Z := 4.
Definition DT_REG : Z := 8.
Definition dirent_size (name : list Z) : Z := next_multiple_of (19 + len name + 1) 8.
Definition dirent_type (kind : InodeKind) : Z := match kind with KFile => DT_REG | KDirectory => DT_DIR | KCharDevice => DT_CHR end.
(** The bytes one entry adds to the buffer. *)
Definition dirent (entry : DirEntry) (next_offset : Z) : list Z :=
  let body := le_bytes 8 (de_ino entry) ++ le_bytes 8 next_offset ++ le_bytes 2 (dirent_size (de_name entry))
                ++ [dirent_type (de_kind entry)] ++ de_name entry in
  body ++ zeros (Z.to_nat (dirent_size (de_name entry)) - length body).
Definition encode_dirent (buffer : list Z) (entry : DirEntry) (next_offset : Z) : list Z := buffer ++ dirent entry next_offset.

(** ** Processes *)

Definition exit_status_word (status : Z) : Z :=
  if status <? 0 then Z.land (- status) 0x7f else Z.shiftl (Z.land status 0xff) 8.

(** ** ioctl *)

Record IoctlInt : Type := mkIoctlInt { copy_in : bool; copy_out : bool }.
Definition ioctl_int (request : Z) : result Errno (option IoctlInt) :=
  let direction := Z.land (Z.shiftr request 30) 3 in
  let size := Z.land (Z.shiftr request 16) 0x3fff in
  if negb (Z.shiftr request 32 =? 0) then Err ENOTTY
  else if direction =? 0 then Ok None
  else if negb (size =? 4) then Err ENOTTY
  else Ok (Some (mkIoctlInt (negb (Z.land direction 1 =? 0)) (negb (Z.land direction 2 =? 0)))).

Definition TCGETS : Z := 0x5401.
Definition TIOCGWINSZ : Z := 0x5413.
Definition TERMIOS_SIZE : nat := 36.
Definition console_termios : list Z :=
  let b := zeros TERMIOS_SIZE in
  let b := put b 0 (le_bytes 4 256) in
  let b := put b 4 (le_bytes 4 (Z.lor 1 4)) in
  let b := put b 8 (le_bytes 4 (Z.lor (Z.lor 15 48) 128)) in
  let b := put b 12 (le_bytes 4 (Z.lor (Z.lor (Z.lor 2 8) 16) 32)) in
  let b := put b 17 [0x03] in
  let b := put b 18 [0x1c] in
  let b := put b 19 [0x7f] in
  let b := put b 20 [0x15] in
  let b := put b 21 [0x04] in
  let b := put b 23 [1] in
  put b 31 [0x17].
Definition console_window_size : list Z := put (put (zeros 8) 0 (le_bytes 2 25)) 2 (le_bytes 2 80).

Definition FBIOGET_VSCREENINFO : Z := 0x4600.
Definition FBIOGET_FSCREENINFO : Z := 0x4602.
Definition FB_VAR_SCREENINFO_SIZE : nat := 160.
Definition FB_FIX_SCREENINFO_SIZE : nat := 80.
Record ScreenInfo : Type := mkScreenInfo {
  width : Z; height : Z; stride : Z; size : Z; physical : Z; red_offset : Z; green_offset : Z; blue_offset : Z
}.
Definition encode_var_screeninfo (info : ScreenInfo) : list Z :=
  let put32 b offset value := put b offset (le_bytes 4 value) in
  let b := zeros FB_VAR_SCREENINFO_SIZE in
  let b := put32 b 0%nat (width info) in
  let b := put32 b 4%nat (height info) in
  let b := put32 b 8%nat (width info) in
  let b := put32 b 12%nat (height info) in
  let b := put32 b 24%nat 32 in
  fold_left (fun b '(at_, offset) => put32 (put32 b at_ offset) (at_ + 4)%nat 8)
    [(32%nat, red_offset info); (44%nat, green_offset info); (56%nat, blue_offset info)] b.
Definition encode_fix_screeninfo (info : ScreenInfo) : list Z :=
  let b := zeros FB_FIX_SCREENINFO_SIZE in
  let b := put b 0 [115; 97; 101; 111; 115; 45; 102; 98] in
  let b := put b 16 (le_bytes 8 (physical info)) in
  let b := put b 24 (le_bytes 4 (size info)) in
  let b := put b 28 (le_bytes 4 0) in
  let b := put b 36 (le_bytes 4 2) in
  put b 48 (le_bytes 4 (stride info)).

(** ** Time *)

Definition NANOS_PER_SECOND : Z := 1000000000.
Definition encode_timespec (nanoseconds : Z) : list Z :=
  put (put (zeros 16) 0 (le_bytes 8 (nanoseconds / NANOS_PER_SECOND))) 8 (le_bytes 8 (nanoseconds mod NANOS_PER_SECOND)).
Definition decode_timespec (bytes : list Z) : result Errno Z :=
  let seconds := signed64 (field bytes 0 8) in
  let nanoseconds := signed64 (field bytes 8 8) in
  if (seconds <? 0) || negb ((0 <=? nanoseconds) && (nanoseconds <? NANOS_PER_SECOND)) then Err EINVAL
  else Ok (Z.min U64_MAX (Z.min U64_MAX (seconds * NANOS_PER_SECOND) + nanoseconds)).

Definition days_from_civil (year month day : Z) : Z :=
  let year := if month <=? 2 then year - 1 else year in
  let era := year / 400 in
  let year_of_era := year - era * 400 in
  let day_of_year := (153 * (if month >? 2 then month - 3 else month + 9) + 2) / 5 + day - 1 in
  let day_of_era := year_of_era * 365 + year_of_era / 4 - year_of_era / 100 + day_of_year in
  era * 146097 + day_of_era - 719468.
Definition unix_seconds (year month day hour minute second : Z) : Z :=
  days_from_civil year month day * 86400 + hour * 3600 + minute * 60 + second.

(** ** The program's side *)

Inductive FileType : Type := TFile | TDirectory | TCharDevice | TOther.
Definition from_mode (mode : Z) : FileType :=
  let t := Z.land mode 61440 in
  if t =? 32768 then TFile else if t =? 16384 then TDirectory else if t =? 8192 then TCharDevice else TOther.
Definition from_dirent (kind : Z) : FileType :=
  if kind =? 8 then TFile else if kind =? 4 then TDirectory else if kind =? 2 then TCharDevice else TOther.

Record Metadata : Type := mkMetadata { file_type : FileType; m_size : Z; m_inode : Z }.
(** What [metadata] makes of the bytes; [as u32] drops the upper half. *)
Definition decode_stat (stat : list Z) : Metadata :=
  mkMetadata (from_mode (field stat 24 8 mod 2 ^ 32)) (field stat 48 8) (field stat 8 8).

Record UserEntry : Type := mkUserEntry { ue_name : list Z; ue_type : FileType }.

(** [name[..position(0).unwrap_or(len)]]. *)
Fixpoint until_nul (l : list Z) : list Z :=
  match l with [] => [] | b :: l => if b =? 0 then [] else b :: until_nul l end.

(** The loop of [read_dir] over one buffer, [record] being what is left. *)
Fixpoint parse_dirents (fuel : nat) (record : list Z) : list UserEntry :=
  match fuel with
  | O => []
  | S fuel =>
      if len record <? 19 then []
      else
        let reclen := field record 16 2 in
        if (reclen <? 19) || (reclen >? len record) then []
        else
          mkUserEntry (from_utf8_lossy (until_nul (take (Z.to_nat reclen - 19) (drop 19 record)))) (from_dirent (field record 18 1))
            :: parse_dirents fuel (drop (Z.to_nat reclen) record)
  end.

Definition exited_with (status : Z) : option Z :=
  if Z.land status 0x7f =? 0 then Some (Z.land (Z.shiftr status 8) 0xff) else None.
Definition killed_by (status : Z) : option Z :=
  if negb (Z.land status 0x7f =? 0) then Some (Z.land status 0x7f) else None.

(** [Timespec]; its two fields are stored as 64-bit words. *)
Definition from_nanos (nanoseconds : Z) : list Z :=
  le_bytes 8 (nanoseconds / NANOS_PER_SECOND) ++ le_bytes 8 (nanoseconds mod NANOS_PER_SECOND).
Definition nanos (timespec : list Z) : Z := wrap64 (wrap64 (field timespec 0 8 * NANOS_PER_SECOND) + field timespec 8 8).

(** A raw result in [rax], as a signed number. *)
Definition check (raw : Z) : result Z Z := if (-4095 <=? raw) && (raw <? 0) then Err (- raw) else Ok (wrap64 raw).
End Abi.

(** * Programs read what the kernel wrote

    Round trips between the encoders of the kernel and the decoders of the
    user library, and the calendar. *)

Module AbiSpec.
Import Abi.

(** ** Integers *)

Lemma from_le_small n x : 0 <= x < 256 ^ Z.of_nat n -> from_le (le_bytes n x) = x.
Proof. intros Hx. rewrite from_le_le_bytes. by apply Z.mod_small. Qed.

Lemma signed64_small x : 0 <= x < 2 ^ 63 -> signed64 x = x.
Proof. unfold signed64. intros. destruct (Z.ltb_spec x (2 ^ 63)); lia. Qed.

(** ** Text *)

Lemma utf8_piece_spec a l : utf8 (a :: l) = true ->
  exists n, utf8_piece a l = (S n, true) /\ (n <= length l)%nat /\ utf8 (drop n l) = true.
Proof.
  cbn [utf8]. unfold utf8_piece. destruct (between 0 a 127) eqn:E1; [intros H; by exists 0%nat; rewrite drop_0; split_and!; [|lia|]|].
  destruct (between 194 a 223) eqn:E2.
  - destruct l as [|b l]; [done|]. intros [Hb Hl]%andb_true_iff. change (between 128 b 191) with (cont b). rewrite Hb. exists 1%nat. split_and!; [done|simpl; lia|done].
  - destruct (between 224 a 239) eqn:E3.
    + destruct l as [|b [|c l]]; [done|done|]. intros [[Hb Hc]%andb_true_iff Hl]%andb_true_iff.
      assert (Hs : between (if a =? 224 then 160 else 128) b (if a =? 237 then 159 else 191) = true).
      { destruct (Z.eqb_spec a 224) as [Ea|]; [|by destruct (Z.eqb_spec a 237)]. destruct (Z.eqb_spec a 237); [lia|done]. }
      rewrite Hs, Hc. exists 2%nat. split_and!; [done|simpl; lia|done].
    + destruct (between 240 a 244) eqn:E4; [|done]. destruct l as [|b [|c [|d l]]]; [done..|].
      intros [[[Hb Hc]%andb_true_iff Hd]%andb_true_iff Hl]%andb_true_iff.
      assert (Hs : between (if a =? 240 then 144 else 128) b (if a =? 244 then 143 else 191) = true).
      { destruct (Z.eqb_spec a 240) as [Ea|]; [|by destruct (Z.eqb_spec a 244)]. destruct (Z.eqb_spec a 244); [lia|done]. }
      rewrite Hs, Hc, Hd. exists 3%nat. split_and!; [done|simpl; lia|done].
Qed.

Lemma lossy_utf8 fuel : forall l, (length l <= fuel)%nat -> utf8 l = true -> lossy fuel l = l.
Proof.
  induction fuel as [|fuel IH]; intros l Hl Hu; [by destruct l; [|simpl in Hl; lia]|]. destruct l as [|a l]; [done|].
  destruct (utf8_piece_spec a l Hu) as (n & E & Hn & Hd). cbn [lossy]. rewrite E. cbn [take drop]. rewrite IH; [|rewrite length_drop; simpl in Hl; lia|done].
  cbn [app]. by rewrite take_drop.
Qed.

(** Valid text is not changed. *)
Lemma from_utf8_lossy_id l : utf8 l = true -> from_utf8_lossy l = l.
Proof. by apply lossy_utf8. Qed.

Lemma until_nul_app name n rest : (0 ∉ name) -> until_nul (name ++ zeros (S n) ++ rest) = name.
Proof.
  intros Hn. induction name as [|b name IH]; [done|]. apply not_elem_of_cons in Hn as [Hb Hn]. cbn [until_nul app].
  rewrite (proj2 (Z.eqb_neq b 0)) by congruence. by rewrite IH.
Qed.

(** ** Directory entries *)

Definition valid_entry (e : DirEntry) : Prop := (0 ∉ de_name e) /\ utf8 (de_name e) = true /\ len (de_name e) <= NAME_MAX.
Definition user_type (k : InodeKind) : FileType := match k with KFile => TFile | KDirectory => TDirectory | KCharDevice => TCharDevice end.
Definition user_entry (e : DirEntry) : UserEntry := mkUserEntry (de_name e) (user_type (de_kind e)).

Lemma dirent_size_bounds name : len name <= NAME_MAX -> 20 + len name <= dirent_size name <= 280.
Proof.
  intros Hn. unfold dirent_size. pose proof (next_multiple_of_ge (19 + len name + 1) 8 ltac:(lia)). unfold NAME_MAX in Hn.
  pose proof (next_multiple_of_le (19 + len name + 1) 8 280 ltac:(lia) ltac:(by exists 35) ltac:(lia)). lia.
Qed.

Lemma dirent_split e n : exists pad, dirent e n = le_bytes 8 (de_ino e) ++ le_bytes 8 n ++ le_bytes 2 (dirent_size (de_name e)) ++ [dirent_type (de_kind e)] ++ de_name e ++ zeros (S pad) /\
  Z.of_nat (19 + length (de_name e) + S pad) = dirent_size (de_name e).
Proof.
  set (size := dirent_size (de_name e)). exists (Z.to_nat size - length (de_name e) - 20)%nat.
  assert (Hs : 20 + len (de_name e) <= size) by (unfold size, dirent_size; pose proof (next_multiple_of_ge (19 + len (de_name e) + 1) 8 ltac:(lia)); lia).
  unfold len in Hs. split; [|lia]. unfold dirent. fold size. rewrite <- !app_assoc. do 5 f_equal.
  unfold zeros. f_equal. rewrite !length_app, !length_le_bytes. simpl length. lia.
Qed.

Lemma length_dirent e n : len (dirent e n) = dirent_size (de_name e).
Proof.
  destruct (dirent_split e n) as (pad & -> & <-). unfold len, zeros. rewrite !length_app, !length_le_bytes, length_replicate. simpl. lia.
Qed.

(** The library finds the entry at the head of the buffer. *)
Lemma parse_dirent fuel e n rest : valid_entry e ->
  parse_dirents (S fuel) (dirent e n ++ rest) = user_entry e :: parse_dirents fuel rest.
Proof.
  intros (Hn & Hu & Hl). pose proof (length_dirent e n) as Hlen. pose proof (dirent_size_bounds _ Hl) as Hb. pose proof (len_nonneg rest) as Hr. pose proof (len_nonneg (de_name e)).
  destruct (dirent_split e n) as (pad & E & Hsz). cbn [parse_dirents]. rewrite len_app, Hlen.
  assert (Ef : field (dirent e n ++ rest) 16 2 = dirent_size (de_name e)).
  { rewrite E. unfold field. rewrite <- !app_assoc. rewrite (app_assoc (le_bytes 8 _) (le_bytes 8 _)). rewrite drop_app_length' by (by rewrite length_app, !length_le_bytes).
    rewrite take_app_length' by (by rewrite length_le_bytes). apply from_le_small. simpl. lia. }
  assert (Et : field (dirent e n ++ rest) 18 1 = dirent_type (de_kind e)).
  { rewrite E. unfold field. rewrite <- !app_assoc. rewrite (app_assoc (le_bytes 8 _) (le_bytes 8 _)), (app_assoc (_ ++ _) (le_bytes 2 _)).
    rewrite drop_app_length' by (by rewrite !length_app, !length_le_bytes). by destruct (de_kind e). }
  assert (En : drop 19 (dirent e n ++ rest) = de_name e ++ zeros (S pad) ++ rest).
  { rewrite E, <- !app_assoc. rewrite (app_assoc (le_bytes 8 _) (le_bytes 8 _)), (app_assoc (_ ++ _) (le_bytes 2 _)), (app_assoc (_ ++ _) [_]).
    apply drop_app_length'. by rewrite !length_app, !length_le_bytes. }
  rewrite Ef, Et. destruct (Z.ltb_spec (dirent_size (de_name e) + len rest) 19); [lia|]. destruct (Z.ltb_spec (dirent_size (de_name e)) 19); [lia|].
  destruct (Z.gtb_spec (dirent_size (de_name e)) (dirent_size (de_name e) + len rest)); [lia|]. cbn [orb]. f_equal.
  - unfold user_entry. f_equal.
    + replace (Z.to_nat (dirent_size (de_name e)) - 19)%nat with (length (de_name e) + S pad)%nat by lia.
      rewrite En, app_assoc. rewrite take_app_length' by (rewrite length_app; unfold zeros; by rewrite length_replicate).
      rewrite <- (app_nil_r (zeros _)), until_nul_app by done. by apply from_utf8_lossy_id.
    + by destruct (de_kind e).
  - f_equal. apply drop_app_length'. unfold len in Hlen. lia.
Qed.

(** The entries of one buffer, from position [pos] on. *)
Fixpoint dirents (pos : Z) (l : list DirEntry) : list Z :=
  match l with [] => [] | e :: l => dirent e (pos + 1) ++ dirents (pos + 1) l end.

Lemma parse_dirents_spec l : forall pos fuel, Forall valid_entry l -> (length l < fuel)%nat -> parse_dirents fuel (dirents pos l) = map user_entry l.
Proof.
  induction l as [|e l IH]; intros pos fuel Hv Hf; cbn [dirents map]; [by destruct fuel|]. apply Forall_cons in Hv as [He Hv].
  destruct fuel as [|fuel]; [simpl in Hf; lia|]. rewrite parse_dirent by done. f_equal. apply IH; [done|simpl in Hf; lia].
Qed.

(** ** Other structures *)

Definition valid_stat (st : Stat) : Prop := is_u64 (st_ino st) /\ is_u64 (st_size st).

Lemma stat_roundtrip st : valid_stat st -> decode_stat (encode_stat st) = mkMetadata (user_type (st_kind st)) (st_size st) (st_ino st).
Proof.
  intros [H1 H2]. unfold decode_stat.
  change (field (encode_stat st) 48 8) with (from_le (le_bytes 8 (st_size st))). change (field (encode_stat st) 8 8) with (from_le (le_bytes 8 (st_ino st))).
  rewrite !from_le_u64 by done. f_equal. destruct (st_kind st) eqn:E; unfold field, encode_stat; rewrite E; done.
Qed.

(** An exit code or a signal arrives as such. *)
Definition wait_result (status : Z) : option Z * option Z :=
  if status <? 0 then (None, Some (- status)) else (Some (Z.land status 0xff), None).

Lemma land_ones8 x : Z.land x 255 = x mod 256.
Proof. change 255 with (Z.ones 8). apply Z.land_ones. lia. Qed.
Lemma land_ones7 x : Z.land x 127 = x mod 128.
Proof. change 127 with (Z.ones 7). apply Z.land_ones. lia. Qed.

Lemma status_roundtrip status : -127 <= status -> (exited_with (exit_status_word status), killed_by (exit_status_word status)) = wait_result status.
Proof.
  intros Hs. unfold exited_with, killed_by, exit_status_word, wait_result. rewrite !land_ones7, !land_ones8. destruct (Z.ltb_spec status 0).
  - assert (E : (- status) mod 128 = - status) by (apply Z.mod_small; lia). rewrite E, E. destruct (Z.eqb_spec (- status) 0); [lia|]. cbn [negb]. done.
  - assert (E : Z.shiftl (status mod 256) 8 mod 128 = 0). { rewrite Z.shiftl_mul_pow2 by lia. replace (status mod 256 * 2 ^ 8) with (status mod 256 * 2 * 128) by lia. apply Z.mod_mul. lia. }
    rewrite E. cbn [Z.eqb negb]. rewrite Z.shiftr_shiftl_l by lia. change (8 - 8) with 0. rewrite Z.shiftl_0_r. do 2 f_equal. apply Z.mod_mod. lia.
Qed.

Lemma timespec_bytes t : encode_timespec t = from_nanos t.
Proof. reflexivity. Qed.

Lemma timespec_fields t : is_u64 t -> field (from_nanos t) 0 8 = t / NANOS_PER_SECOND /\ field (from_nanos t) 8 8 = t mod NANOS_PER_SECOND.
Proof.
  intros Ht. unfold is_u64, U64_MAX in Ht. assert (0 <= t / NANOS_PER_SECOND <= t) by (split; [apply Z.div_pos|apply Z.div_le_upper_bound]; unfold NANOS_PER_SECOND; lia).
  pose proof (Z.mod_pos_bound t NANOS_PER_SECOND ltac:(done)) as Hm. unfold NANOS_PER_SECOND in *.
  split; [change (from_le (le_bytes 8 (t / 1000000000)) = t / 1000000000)|change (from_le (le_bytes 8 (t mod 1000000000)) = t mod 1000000000)]; apply from_le_u64; unfold is_u64, U64_MAX; lia.
Qed.

(** Times survive both ways. *)
Lemma timespec_roundtrip t : is_u64 t -> nanos (encode_timespec t) = t /\ decode_timespec (from_nanos t) = Ok t.
Proof.
  intros Ht. rewrite timespec_bytes. destruct (timespec_fields t Ht) as [E1 E2]. unfold nanos, decode_timespec. rewrite E1, E2.
  pose proof (Z.div_mod t NANOS_PER_SECOND ltac:(done)) as Hdm. pose proof (Z.mod_pos_bound t NANOS_PER_SECOND ltac:(done)) as Hm. unfold is_u64, U64_MAX in *.
  assert (Hs : 0 <= t / NANOS_PER_SECOND < 2 ^ 63) by (split; [apply Z.div_pos|apply Z.div_lt_upper_bound]; unfold NANOS_PER_SECOND; lia).
  unfold NANOS_PER_SECOND in *. split.
  - unfold wrap64. rewrite (Z.mod_small (t / 1000000000 * 1000000000)) by lia. rewrite Z.mod_small; lia.
  - rewrite !signed64_small by lia. destruct (Z.ltb_spec (t / 1000000000) 0); [lia|]. destruct (Z.leb_spec 0 (t mod 1000000000)); [|lia].
    destruct (Z.ltb_spec (t mod 1000000000) 1000000000); [|lia]. cbn [orb andb negb]. f_equal. lia.
Qed.

(** ** The calendar *)

Definition leap (year : Z) : bool := ((year mod 4 =? 0) && negb (year mod 100 =? 0)) || (year mod 400 =? 0).
Definition month_days (year month : Z) : Z :=
  if month =? 2 then (if leap year then 29 else 28)
  else if (month =? 4) || (month =? 6) || (month =? 9) || (month =? 11) then 30 else 31.
Definition valid_date (year month day : Z) : Prop := 1 <= month <= 12 /\ 1 <= day <= month_days year month.
Definition next_date (year month day : Z) : Z * Z * Z :=
  if day <? month_days year month then (year, month, day + 1)
  else if month <? 12 then (year, month + 1, 1) else (year + 1, 1, 1).

(** The length of a year from March on, in the formula's terms. *)
Lemma year_length y : (y + 1) / 400 * 146097 + ((y + 1) - (y + 1) / 400 * 400) * 365 + ((y + 1) - (y + 1) / 400 * 400) / 4 - ((y + 1) - (y + 1) / 400 * 400) / 100
  = y / 400 * 146097 + (y - y / 400 * 400) * 365 + (y - y / 400 * 400) / 4 - (y - y / 400 * 400) / 100 + (if leap (y + 1) then 366 else 365).
Proof.
  assert (E : leap (y + 1) = ((((y + 1) mod 4 =? 0) && negb ((y + 1) mod 100 =? 0)) || ((y + 1) mod 400 =? 0))) by done.
  revert E. destruct (leap (y + 1)); intros E; symmetry in E; bool_to_prop; Z.to_euclidean_division_equations; lia.
Qed.

(** From one day to the next. *)
Lemma next_day year month day : valid_date year month day ->
  let '(y, m, d) := next_date year month day in valid_date y m d /\ days_from_civil y m d = days_from_civil year month day + 1.
Proof.
  intros [Hm Hd]. pose proof (year_length (year - 1)) as Hy. replace (year - 1 + 1) with year in Hy by lia. unfold next_date, valid_date.
  assert (Hc : month = 1 \/ month = 2 \/ month = 3 \/ month = 4 \/ month = 5 \/ month = 6 \/ month = 7 \/ month = 8 \/ month = 9 \/ month = 10 \/ month = 11 \/ month = 12) by lia.
  destruct Hc as [->|[->|[->|[->|[->|[->|[->|[->|[->|[->|[->| ->]]]]]]]]]]]; unfold month_days, days_from_civil in *;
    cbn [Z.eqb Pos.eqb orb Z.leb Z.gtb Z.ltb Z.compare Pos.compare Pos.compare_cont] in *;
    revert Hd Hy; destruct (leap year) eqn:El; intros Hd Hy; repeat (case_if; try lia; try congruence);
    replace (year + 1 - 1) with year by lia; (split; [lia|]); Z.to_euclidean_division_equations; lia.
Qed.
End AbiSpec.
