(* ===== verification/Uaccess.v ===== *)
(** * Uaccess: the kernel's access to user memory

    [kernel/src/mm/uaccess.rs]: the range check, the trait [UserMemory] as a
    class, and its [read_cstr]. [UserMemoryLaws] is what the trait's
    documentation promises: bytes are readable page by page, a read succeeds
    exactly when every byte is readable, a write only when every byte is
    writable (it may also fail for want of memory to copy a shared page), and
    a failed write may have stored a part. The theorem compares the chunked [read_cstr] with reading
    byte by byte. *)

From stdpp Require Import base numbers list.
From S2P Require Import Prelude Errno Text.
Local Open Scope Z_scope.

Module Uaccess.

Definition USER_TOP : Z := 0x00007ffffffff000.
Definition PAGE_SIZE : Z := 4096.

Definition check_range (address length : Z) : result Errno unit :=
  match checked_add address length with
  | None => Err EFAULT
  | Some e => if e >? USER_TOP then Err EFAULT else Ok ()
  end.

Class UserMemory (M : Type) : Type := {
  um_read : M -> Z -> Z -> result Errno (list Z);
  um_write : M -> Z -> list Z -> result Errno unit * M
}.

(** [position(|&byte| byte == 0)]. *)
Fixpoint position_nul (l : list Z) : option nat :=
  match l with [] => None | b :: l => if b =? 0 then Some O else S <$> position_nul l end.

Section ReadCstr.
Context {M : Type} `{!UserMemory M}.

(** The loop, with what is read so far; [None] if the fuel runs out or a
    subtraction underflows. *)
Fixpoint read_cstr_loop (fuel : nat) (m : M) (cursor max : Z) (bytes : list Z) : option (result Errno (list Z)) :=
  match fuel with
  | O => None
  | S fuel =>
      if saturating_add max 1 <? len bytes then None else
      let to_page_end := PAGE_SIZE - cursor mod PAGE_SIZE in
      let wanted := Z.min (Z.min to_page_end 256) (saturating_add max 1 - len bytes) in
      match um_read m cursor wanted with
      | Err e => Some (Err e)
      | Ok chunk =>
          match position_nul chunk with
          | Some e =>
              let bytes := bytes ++ take e chunk in
              Some (if utf8 bytes then Ok bytes else Err EINVAL)
          | None =>
              let bytes := bytes ++ chunk in
              if len bytes >? max then Some (Err ENAMETOOLONG) else
              match checked_add cursor wanted with
              | None => Some (Err EFAULT)
              | Some cursor => read_cstr_loop fuel m cursor max bytes
              end
          end
      end
  end.
Definition read_cstr (m : M) (address max : Z) : option (result Errno (list Z)) :=
  read_cstr_loop (S (S (Z.to_nat max))) m address max [].
End ReadCstr.

(** ** What a user memory promises *)

Class UserMemoryLaws (M : Type) `{!UserMemory M} : Type := {
  (** The byte a program would read there, if it may. *)
  um_byte : M -> Z -> option Z;
  um_writable : M -> Z -> bool;
  um_bytes : forall m a b, um_byte m a = Some b -> 0 <= b <= 255 /\ 0 <= a < USER_TOP;
  um_pages : forall m a a', 0 <= a -> 0 <= a' -> a / PAGE_SIZE = a' / PAGE_SIZE -> um_byte m a = None -> um_byte m a' = None;
  um_read_ok : forall m a n bytes, 0 <= a -> 0 <= n ->
    um_read m a n = Ok bytes <-> check_range a n = Ok () /\ len bytes = n /\ forall i b, bytes !! i = Some b -> um_byte m (a + Z.of_nat i) = Some b;
  um_read_err : forall m a n e, um_read m a n = Err e -> e = EFAULT;
  um_writable_readable : forall m a, um_writable m a = true -> um_byte m a <> None;
  um_write_ok : forall m a data, 0 <= a ->
    fst (um_write m a data) = Ok () -> check_range a (len data) = Ok () /\ forall i, 0 <= i < len data -> um_writable m (a + i) = true;
  um_write_err : forall m a data e, fst (um_write m a data) = Err e -> e = EFAULT;
  um_write_bytes : forall m a data x, Forall (fun b => 0 <= b <= 255) data -> fst (um_write m a data) = Ok () ->
    um_byte (snd (um_write m a data)) x = if (a <=? x) && (x <? a + len data) then data !! Z.to_nat (x - a) else um_byte m x;
  um_write_frame : forall m a data x, ~ (a <= x < a + len data) -> um_byte (snd (um_write m a data)) x = um_byte m x;
  um_write_rights : forall m a data x, um_writable (snd (um_write m a data)) x = um_writable m x /\ (um_byte (snd (um_write m a data)) x = None <-> um_byte m x = None)
}.

Section Spec.
Context {M : Type} `{!UserMemory M} {HL : UserMemoryLaws M}.

(** Byte by byte, [n] bytes at most before the NUL. *)
Fixpoint c_string (n : nat) (m : M) (a : Z) : result Errno (list Z) :=
  match um_byte m a with
  | None => Err EFAULT
  | Some b =>
      if b =? 0 then Ok [] else
      match n with
      | O => Err ENAMETOOLONG
      | S n => result_map (cons b) (c_string n m (a + 1))
      end
  end.

Definition text_or_einval (r : result Errno (list Z)) : result Errno (list Z) :=
  let? s := r in if utf8 s then Ok s else Err EINVAL.

Lemma same_page a i : 0 <= a -> 0 <= i < PAGE_SIZE - a mod PAGE_SIZE -> (a + i) / PAGE_SIZE = a / PAGE_SIZE.
Proof.
  unfold PAGE_SIZE. intros Ha Hi. pose proof (Z.mod_pos_bound a 4096 ltac:(lia)). rewrite (Z.div_mod a 4096 ltac:(lia)) at 1.
  replace (4096 * (a / 4096) + a mod 4096 + i) with ((a mod 4096 + i) + a / 4096 * 4096) by lia. rewrite Z.div_add by lia. rewrite (Z.div_small (a mod 4096 + i)); lia.
Qed.

(** A chunk of a page is readable when its first byte is. *)
Lemma read_chunk m a n : 0 <= a -> 0 < n <= PAGE_SIZE - a mod PAGE_SIZE ->
  match um_read m a n with
  | Err e => e = EFAULT /\ um_byte m a = None
  | Ok bytes => len bytes = n /\ forall i b, bytes !! i = Some b -> um_byte m (a + Z.of_nat i) = Some b
  end.
Proof.
  intros Ha Hn. destruct (um_read m a n) as [bytes|e] eqn:E; [apply um_read_ok in E as (_ & ? & ?); [done|lia..]|].
  split; [by eapply um_read_err|]. destruct (um_byte m a) as [b|] eqn:Eb; [|done]. exfalso.
  assert (Hall : forall i, 0 <= i < n -> exists b, um_byte m (a + i) = Some b).
  { intros i Hi. destruct (um_byte m (a + i)) as [b'|] eqn:Ei; [by eexists|]. exfalso.
    apply (um_pages m (a + i) a) in Ei; [congruence|lia..|]. apply same_page; lia. }
  assert (Hb : exists bytes, len bytes = n /\ forall i b, bytes !! i = Some b -> um_byte m (a + Z.of_nat i) = Some b).
  { exists (map (fun i => default 0 (um_byte m (a + Z.of_nat i))) (seq 0 (Z.to_nat n))). split; [unfold len; rewrite length_map, length_seq; lia|].
    intros i x Hi. apply list_lookup_fmap_Some in Hi as (j & -> & Hj). apply lookup_seq in Hj as [-> Hj]. destruct (Hall (Z.of_nat i) ltac:(lia)) as [y Hy].
    cbn. by rewrite Hy. }
  destruct Hb as (bytes & H1 & H2). assert (Ho : um_read m a n = Ok bytes); [|congruence]. apply um_read_ok; [lia|lia|]. split; [|done].
  destruct (Hall (n - 1) ltac:(lia)) as [y Hy]. apply um_bytes in Hy as [_ Hy]. unfold check_range, checked_add, USER_TOP, U64_MAX in *.
  destruct (Z.leb_spec (a + n) (2 ^ 64 - 1)); [|lia]. destruct (Z.gtb_spec (a + n) 0x00007ffffffff000); [lia|done].
Qed.

(** The bytes from [a] on. *)
Definition holds m a (bytes : list Z) : Prop := forall i b, bytes !! i = Some b -> um_byte m (a + Z.of_nat i) = Some b.

Lemma holds_cons m a b bytes : holds m a (b :: bytes) -> um_byte m a = Some b /\ holds m (a + 1) bytes.
Proof.
  intros H. split; [rewrite <- (Z.add_0_r a); by apply (H O)|]. intros i x Hi. replace (a + 1 + Z.of_nat i) with (a + Z.of_nat (S i)) by lia. by apply H.
Qed.

Lemma c_string_chunk m chunk : forall a n, holds m a chunk ->
  match position_nul chunk with
  | Some e => (e <= n)%nat -> c_string n m a = Ok (take e chunk)
  | None => c_string n m a = if (length chunk <=? n)%nat then result_map (app chunk) (c_string (n - length chunk) m (a + len chunk)) else Err ENAMETOOLONG
  end.
Proof.
  induction chunk as [|b chunk IH]; intros a n Hh; cbn [position_nul].
  - rewrite Nat.sub_0_r, Z.add_0_r. cbn. by destruct (c_string n m a).
  - apply holds_cons in Hh as [Hb Hh]. destruct (Z.eqb_spec b 0) as [->|Hz]; [intros _; by destruct n; cbn [c_string]; rewrite Hb|].
    specialize (fun n => IH (a + 1) n Hh). destruct (position_nul chunk) as [e|] eqn:E; cbn [fmap option_fmap option_map].
    + intros He. destruct n as [|n]; [lia|]. cbn [c_string]. rewrite Hb, (proj2 (Z.eqb_neq b 0)) by done. rewrite IH by lia. done.
    + destruct n as [|n]; cbn [c_string]; rewrite Hb, (proj2 (Z.eqb_neq b 0)) by done; [done|]. rewrite IH. cbn [length Nat.leb Nat.sub].
      replace (a + len (b :: chunk)) with (a + 1 + len chunk) by (unfold len; simpl length; lia). destruct (length chunk <=? n)%nat; [|done].
      by destruct (c_string _ _ _).
Qed.

Lemma position_nul_lt l e : position_nul l = Some e -> (e < length l)%nat.
Proof.
  revert e. induction l as [|b l IH]; intros e; cbn [position_nul length]; [done|]. destruct (b =? 0); [intros [= <-]; lia|].
  destruct (position_nul l) as [k|]; [|done]. intros [= <-]. specialize (IH k eq_refl). lia.
Qed.

Lemma result_map_app {E} (l k : list Z) (r : result E (list Z)) : result_map (app (l ++ k)) r = result_map (app l) (result_map (app k) r).
Proof. destruct r; cbn; [by rewrite app_assoc|done]. Qed.

Lemma read_cstr_loop_spec m max fuel : forall cursor bytes, 0 <= cursor -> len bytes <= max < U64_MAX -> max - len bytes + 2 <= Z.of_nat fuel ->
  read_cstr_loop fuel m cursor max bytes = Some (text_or_einval (result_map (app bytes) (c_string (Z.to_nat (max - len bytes)) m cursor))).
Proof.
  induction fuel as [|fuel IH]; intros cursor bytes Hc Hb Hf; [lia|]. cbn [read_cstr_loop].
  assert (Hs : saturating_add max 1 = max + 1) by (unfold saturating_add; lia). rewrite Hs. destruct (Z.ltb_spec (max + 1) (len bytes)); [lia|].
  pose proof (Z.mod_pos_bound cursor PAGE_SIZE ltac:(done)) as Hp.
  set (wanted := Z.min (Z.min (PAGE_SIZE - cursor mod PAGE_SIZE) 256) (max + 1 - len bytes)). assert (Hw : 0 < wanted <= PAGE_SIZE - cursor mod PAGE_SIZE) by lia.
  pose proof (read_chunk m cursor wanted Hc Hw) as Hr. destruct (um_read m cursor wanted) as [chunk|e] eqn:Er.
  2: { destruct Hr as [-> Hn]. by destruct (Z.to_nat (max - len bytes)); cbn [c_string]; rewrite Hn. }
  destruct Hr as [Hl Hh]. pose proof (c_string_chunk m chunk cursor (Z.to_nat (max - len bytes)) Hh) as Hcs. destruct (position_nul chunk) as [e|] eqn:Ep.
  - apply position_nul_lt in Ep. unfold len in Hl at 1. rewrite Hcs by lia. done.
  - rewrite Hcs, len_app, Hl. unfold len in Hl. destruct (Z.gtb_spec (len bytes + wanted) max).
    + by rewrite (proj2 (Nat.leb_gt _ _)) by lia.
    + rewrite (proj2 (Nat.leb_le _ _)) by lia. apply um_read_ok in Er as (Hcr & _); [|lia..]. unfold check_range in Hcr. destruct (checked_add cursor wanted) as [c'|] eqn:Ec; [|done].
      assert (c' = cursor + wanted) as -> by (unfold checked_add in Ec; destruct (_ <=? _); congruence).
      rewrite IH; [|lia|rewrite len_app; unfold len at 2; lia|rewrite len_app; unfold len at 2; lia].
      rewrite len_app. change (len chunk) with (Z.of_nat (length chunk)). rewrite Hl. replace (Z.to_nat (max - (len bytes + wanted))) with (Z.to_nat (max - len bytes) - length chunk)%nat by lia.
      do 2 f_equal. apply result_map_app.
Qed.

(** Reading in chunks is reading byte by byte. *)
Lemma read_cstr_spec m a max : 0 <= a -> 0 <= max < U64_MAX -> read_cstr m a max = Some (text_or_einval (c_string (Z.to_nat max) m a)).
Proof.
  intros Ha Hm. unfold read_cstr. rewrite read_cstr_loop_spec; [|done|unfold len; simpl; lia|unfold len; simpl length; lia].
  change (len []) with 0. rewrite Z.sub_0_r. by destruct (c_string _ _ _).
Qed.
End Spec.
End Uaccess.
