(* ===== verification/Syscall.v ===== *)
(** * Syscall: the table of system calls

    [kernel/src/syscall/{mod,memory,time}.rs]: [dispatch] and every handler,
    over the VFS, the user memory ([UserMemory]), the process side
    ([ProcessOps]) and the methods of inodes that only devices have
    ([DeviceInodes]). The state is the files of all processes and everything
    else; a handler is a function from the state to a result and the state,
    [None] standing for a panic. *)

From stdpp Require Import base gmap numbers list.
From S2P Require Import Prelude Errno Text Inode FileTable Vfs Vma Abi Uaccess.
Local Open Scope Z_scope.

(** The rest of the [Inode] trait. *)
Class DeviceInodes (W I : Type) : Type := {
  i_is_terminal : W -> I -> bool;
  i_ioctl_out : W -> I -> Z -> result Errno (option (list Z));
  i_ioctl : W -> I -> Z -> Z -> result Errno unit * Z * W;
  i_mmap : W -> I -> Z -> Z -> result Errno Z
}.

Module Syscall.
Import Abi Uaccess.

Section State.
Context {W I U : Type}.

Record State : Type := mkState { fs : Vfs.Fs W I; user : U }.
Definition with_fs (st : State) (f : Vfs.Fs W I) : State := mkState f (user st).
Definition with_user (st : State) (u : U) : State := mkState (fs st) u.
End State.
Arguments State : clear implicits.

(** What the process side provides. A clock may have moved on when it is read
    again. *)
Class ProcessOps (S : Type) : Type := {
  getpid : S -> Z;
  getppid : S -> Z;
  wait : S -> option Z -> bool -> result Errno (option (Z * Z)) * S;
  fork : S -> result Errno Z * S;
  p_execve : S -> list Z -> list (list Z) -> list (list Z) -> result Errno unit * S;
  cwd : S -> list Z;
  set_cwd : S -> list Z -> S;
  p_brk : S -> Z -> Z * S;
  p_mmap : S -> Z -> Z -> Protection -> bool -> result Errno Z * S;
  p_mmap_device : S -> Z -> Z -> Protection -> Z -> bool -> result Errno Z * S;
  p_munmap : S -> Z -> Z -> result Errno unit * S;
  p_mprotect : S -> Z -> Z -> Protection -> result Errno unit * S;
  set_fs_base : S -> Z -> S;
  fs_base : S -> Z;
  monotonic_ns : S -> Z * S;
  realtime_ns : S -> option Z * S;
  sleep_until_ns : S -> Z -> S
}.

Inductive Outcome : Type := Return (value : Z) | Exit (code : Z).

Definition PATH_MAX : Z := 4096.
Definition MAX_TRANSFER : Z := 64 * 1024.
Definition MAX_ARGUMENTS : nat := 1024.
Definition MAX_ARGUMENT_BYTES : Z := 32 * 1024.
Definition WNOHANG : Z := 1.
Definition MAP_SHARED : Z := 0x01.
Definition MAP_PRIVATE : Z := 0x02.
Definition MAP_FIXED : Z := 0x10.
Definition MAP_ANONYMOUS : Z := 0x20.
Definition MAP_FIXED_NOREPLACE : Z := 0x100000.
Definition ARCH_SET_FS : Z := 0x1002.
Definition ARCH_GET_FS : Z := 0x1003.
Definition CLOCK_REALTIME : Z := 0.
Definition CLOCK_MONOTONIC : Z := 1.
Definition CLOCK_BOOTTIME : Z := 7.
Definition TIMER_ABSTIME : Z := 1.

(** ** Calls *)

Section Monad.
Context {S : Type}.

(** A call that may panic ([None]), fail or succeed, in the state it leaves. *)
Definition call (A : Type) : Type := S -> option (result Errno A * S).
Definition ret {A} (a : A) : call A := fun st => Some (Ok a, st).
Definition lift {A} (r : result Errno A) : call A := fun st => Some (r, st).
Definition bind {A B} (c : call A) (k : A -> call B) : call B := fun st =>
  match c st with
  | None => None
  | Some (Err e, st) => Some (Err e, st)
  | Some (Ok a, st) => k a st
  end.
Definition map_err {A} (f : Errno -> Errno) (c : call A) : call A := fun st =>
  match c st with Some (Err e, st) => Some (Err (f e), st) | r => r end.
Definition get {A} (f : S -> A) : call A := fun st => Some (Ok (f st), st).
Definition act {A} (f : S -> result Errno A * S) : call A := fun st => Some (f st).
Definition tick {A} (f : S -> A * S) : call A := fun st => let '(a, st) := f st in Some (Ok a, st).
Definition modify (f : S -> S) : call unit := fun st => Some (Ok (), f st).
End Monad.
Arguments call : clear implicits.

Declare Scope call_scope.
Delimit Scope call_scope with call.
Notation "'let!' x := e 'in' k" := (bind e (fun x => k)) (at level 10, x name, e at level 100, k at level 200) : call_scope.
Notation "'let!' ' p := e 'in' k" := (bind e (fun x => match x with p => k end)) (at level 10, p pattern, e at level 100, k at level 200) : call_scope.
Local Open Scope call_scope.

Section Calls.
Context {W I U : Type} `{!Inodes W I} `{!DeviceInodes W I} `{!UserMemory U} `{!ProcessOps (State W I U)}.
(** The process the call is for: its table of descriptors. *)
Context (pid : Z).
Abbreviation call := (call (State W I U)).

(** [context.vfs] and [context.files]. *)
Definition on_fs {A} (f : Vfs.Fs W I -> result Errno A * Vfs.Fs W I) : call A := act (fun st => let '(r, x) := f (fs st) in (r, with_fs st x)).
Definition in_fs {A} (f : Vfs.Fs W I -> result Errno A) : call A := fun st => Some (f (fs st), st).
(** [context.memory]. *)
Definition mem_read (address count : Z) : call (list Z) := fun st => Some (um_read (user st) address count, st).
Definition mem_write (address : Z) (data : list Z) : call unit := act (fun st => let '(r, u) := um_write (user st) address data in (r, with_user st u)).
Definition mem_cstr (address max : Z) : call (list Z) := fun st =>
  match read_cstr (user st) address max with None => None | Some r => Some (r, st) end.

Definition fd (value : Z) : result Errno nat := if value <? 2 ^ 32 then Ok (Z.to_nat value) else Err EBADF.

Definition path (address : Z) : call (list Z) :=
  let! p := mem_cstr address (PATH_MAX - 1) in
  if bool_decide (p = []) then lift (Err ENOENT) else
  let! dir := get cwd in
  ret (Path.resolve dir p).

(** [for index in 0..=MAX_ARGUMENTS], [n] of them left. *)
Fixpoint read_strings (n : nat) (address budget : Z) (strings : list (list Z)) : call (list (list Z) * Z) :=
  match n with
  | O => lift (Err E2BIG)
  | S n =>
      let place := address + Z.of_nat (MAX_ARGUMENTS - S n) * 8 in
      if place >? U64_MAX then (fun _ => None) else
      let! word := mem_read place 8 in
      let pointer := from_le word in
      if pointer =? 0 then ret (strings, budget) else
      let! string := map_err (fun e => if bool_decide (e = ENAMETOOLONG) then E2BIG else e) (mem_cstr pointer (Z.min budget (PATH_MAX * 8))) in
      let! budget := lift (ok_or (checked_sub budget (len string + 1)) E2BIG) in
      read_strings n address budget (strings ++ [string])
  end.
Definition read_string_array (address budget : Z) : call (list (list Z) * Z) :=
  if address =? 0 then ret ([], budget) else read_strings MAX_ARGUMENTS address budget [].

Definition execve (path_address argv envp : Z) : call Z :=
  let! p := path path_address in
  let! '(argv, budget) := read_string_array argv MAX_ARGUMENT_BYTES in
  let! '(envp, budget) := read_string_array envp budget in
  let! _ := act (fun st => p_execve st p argv envp) in
  ret 0.

Definition get_file (value : Z) : call (nat * Vfs.OpenFile I) :=
  let! n := lift (fd value) in in_fs (fun x => Vfs.get_file x pid n).

(** [file.inode.ioctl(request, &mut value)]: the value comes back too. *)
Definition inode_ioctl (inode : I) (request value : Z) : call Z := fun st =>
  let '(r, v, w) := i_ioctl (Vfs.world (fs st)) inode request value in
  Some (result_map (fun _ => v) r, with_fs st (Vfs.set_world (fs st) w)).

Definition signed32 (v : Z) : Z := if v <? 2 ^ 31 then v else v - 2 ^ 32.

Definition ioctl (fd_value request argument : Z) : call Z :=
  let! '(_, file) := get_file fd_value in
  let inode := Vfs.of_inode file in
  let! terminal := get (fun st => i_is_terminal (Vfs.world (fs st)) inode) in
  if negb terminal then
    let! out := in_fs (fun x => i_ioctl_out (Vfs.world x) inode request) in
    match out with
    | Some bytes => let! _ := mem_write argument bytes in ret 0
    | None =>
        let! copies := lift (ioctl_int request) in
        let! value :=
          (if match copies with Some c => copy_in c | None => false end then mem_read argument 4 else ret (zeros 4)) in
        let! value := inode_ioctl inode request (signed32 (from_le value)) in
        let! _ := (if match copies with Some c => copy_out c | None => false end then mem_write argument (le_bytes 4 value) else ret ()) in
        ret 0
    end
  else
    let! _ :=
      (if request =? TCGETS then mem_write argument console_termios
       else if request =? TIOCGWINSZ then mem_write argument console_window_size
       else lift (Err ENOTTY)) in
    ret 0.

Definition getcwd (buffer size : Z) : call Z :=
  let! dir := get cwd in
  let bytes := dir ++ [0] in
  if len bytes >? size then lift (Err ERANGE) else
  let! _ := mem_write buffer bytes in
  ret (len bytes).

Definition chdir (path_address : Z) : call Z :=
  let! p := path path_address in
  let! stat := in_fs (fun x => Vfs.stat x p) in
  if negb (bool_decide (st_kind stat = KDirectory)) then lift (Err ENOTDIR) else
  let! _ := modify (fun st => set_cwd st p) in
  ret 0.

(** After a failed copy the position goes back; what [lseek] says is ignored. *)
Definition give_back (n : nat) (count : Z) (e : Errno) : call Z := fun st =>
  let '(_, x) := Vfs.lseek (fs st) pid n (- count) SeekCurrent in Some (Err e, with_fs st x).

Definition read (fd_value buffer count : Z) : call Z :=
  let! n := lift (fd fd_value) in
  let count := Z.min count MAX_TRANSFER in
  let! _ := lift (check_range buffer count) in
  let! data := on_fs (fun x => Vfs.read x pid n count) in
  fun st =>
    match mem_write buffer data st with
    | None => None
    | Some (Ok _, st) => Some (Ok (len data), st)
    | Some (Err e, st) => give_back n (len data) e st
    end.

Definition write (fd_value buffer count : Z) : call Z :=
  let! n := lift (fd fd_value) in
  let count := Z.min count MAX_TRANSFER in
  let! _ := lift (check_range buffer count) in
  let! data := mem_read buffer count in
  on_fs (fun x => Vfs.write x pid n data).

Definition open (path_address flags : Z) : call Z :=
  let! flags := lift (open_flags flags) in
  let! p := path path_address in
  let! n := on_fs (fun x => Vfs.open x pid p flags) in
  ret (Z.of_nat n).

Definition stat (path_address buffer : Z) : call Z :=
  let! p := path path_address in
  let! stat := in_fs (fun x => Vfs.stat x p) in
  let! _ := mem_write buffer (encode_stat stat) in
  ret 0.

Definition fstat (fd_value buffer : Z) : call Z :=
  let! n := lift (fd fd_value) in
  let! stat := in_fs (fun x => Vfs.fstat x pid n) in
  let! _ := mem_write buffer (encode_stat stat) in
  ret 0.

Definition lseek (fd_value offset whence_value : Z) : call Z :=
  let! n := lift (fd fd_value) in
  let! whence := lift (whence whence_value) in
  on_fs (fun x => Vfs.lseek x pid n (signed64 offset) whence).

Definition wait4 (target status options : Z) : call Z :=
  if negb (Z.ldiff options WNOHANG =? 0) then lift (Err EINVAL) else
  let! target :=
    lift (let target := signed64 target in if target =? -1 then Ok None else if target >? 0 then Ok (Some target) else Err EINVAL) in
  let! _ := (if negb (status =? 0) then lift (check_range status 4) else ret ()) in
  let! ready := act (fun st => wait st target (negb (Z.land options WNOHANG =? 0))) in
  match ready with
  | None => ret 0
  | Some (child, code) =>
      let! _ := (if negb (status =? 0) then mem_write status (le_bytes 4 (exit_status_word code)) else ret ()) in
      ret child
  end.

(** What the closure of [getdents64] keeps: the bytes so far and [too_small]. *)
Definition take_entry (count : Z) (s : list Z * bool) (position : Z) (entry : DirEntry) : bool * (list Z * bool) :=
  let '(encoded, too_small) := s in
  if len encoded + dirent_size (de_name entry) >? count then (false, (encoded, bool_decide (encoded = [])))
  else (true, (encode_dirent encoded entry (position + 1), too_small)).

Definition getdents64 (fd_value buffer count : Z) : call Z :=
  let! n := lift (fd fd_value) in
  let count := Z.min count MAX_TRANSFER in
  let! _ := lift (check_range buffer count) in
  let! '(encoded, too_small) := (fun st =>
    let '(r, s, x) := Vfs.readdir_with (fs st) pid n (take_entry count) ([], false) in
    Some (result_map (fun _ => s) r, with_fs st x)) in
  if too_small : bool then lift (Err EINVAL) else
  let! _ := mem_write buffer encoded in
  ret (len encoded).

(** ** Memory *)

Definition mmap (hint length protection flags fd_value offset : Z) : call Z :=
  let! protection := lift (from_linux protection) in
  let fixed := negb (Z.land flags MAP_FIXED =? 0) in
  let kind := Z.land flags (Z.lor MAP_SHARED MAP_PRIVATE) in
  if Z.land flags MAP_ANONYMOUS =? 0 then
    if negb (is_multiple_of offset 4096) || (length =? 0) then lift (Err EINVAL) else
    let! '(_, file) := get_file fd_value in
    let! physical := in_fs (fun x => i_mmap (Vfs.world x) (Vfs.of_inode file) offset length) in
    if negb (kind =? MAP_SHARED) || negb (Z.land flags MAP_FIXED_NOREPLACE =? 0) then lift (Err EINVAL) else
    if negb (Flags.contains (Vfs.of_flags file) Flags.READ)
       || (Vma.write protection && negb (Flags.contains (Vfs.of_flags file) Flags.WRITE)) then lift (Err EACCES) else
    act (fun st => p_mmap_device st hint length protection physical fixed)
  else
    if negb (kind =? MAP_PRIVATE) || negb (Z.land flags MAP_FIXED_NOREPLACE =? 0) then lift (Err EINVAL) else
    if negb (is_multiple_of offset 4096) then lift (Err EINVAL) else
    act (fun st => p_mmap st hint length protection fixed).

Definition munmap (start length : Z) : call Z := let! _ := act (fun st => p_munmap st start length) in ret 0.

Definition mprotect (start length protection : Z) : call Z :=
  let! protection := lift (from_linux protection) in
  let! _ := act (fun st => p_mprotect st start length protection) in
  ret 0.

Definition arch_prctl (code address : Z) : call Z :=
  if code =? ARCH_SET_FS then
    let! _ := map_err (fun _ => EPERM) (lift (check_range address 0)) in
    let! _ := modify (fun st => set_fs_base st address) in
    ret 0
  else if code =? ARCH_GET_FS then
    let! base := get fs_base in
    let! _ := mem_write address (le_bytes 8 base) in
    ret 0
  else lift (Err EINVAL).

(** ** Time *)

Definition now (clock : Z) : call Z :=
  if (clock =? CLOCK_MONOTONIC) || (clock =? CLOCK_BOOTTIME) then tick monotonic_ns
  else if clock =? CLOCK_REALTIME then let! t := tick realtime_ns in lift (ok_or t EINVAL)
  else lift (Err EINVAL).

Definition read_timespec (address : Z) : call Z :=
  let! bytes := mem_read address 16 in lift (decode_timespec bytes).

Definition clock_gettime (clock address : Z) : call Z :=
  let! time := now clock in
  let! _ := mem_write address (encode_timespec time) in
  ret 0.

Definition nanosleep (request : Z) : call Z :=
  let! duration := read_timespec request in
  let! t := tick monotonic_ns in
  let! _ := modify (fun st => sleep_until_ns st (saturating_add t duration)) in
  ret 0.

Definition clock_nanosleep (clock flags request : Z) : call Z :=
  if negb (Z.ldiff flags TIMER_ABSTIME =? 0) then lift (Err EINVAL) else
  let! value := read_timespec request in
  let! clock_now := now clock in
  let! monotonic_now := tick monotonic_ns in
  let remaining := if negb (Z.land flags TIMER_ABSTIME =? 0) then saturating_sub value clock_now else value in
  let! _ := modify (fun st => sleep_until_ns st (saturating_add monotonic_now remaining)) in
  ret 0.

(** ** Dispatch *)

Definition with_path {A} (f : Vfs.Fs W I -> list Z -> result Errno A * Vfs.Fs W I) (address : Z) : call Z :=
  let! p := path address in let! _ := on_fs (fun x => f x p) in ret 0.

(** The arms of the [match] that yield a value. *)
Definition handle (number a0 a1 a2 a3 a4 a5 : Z) : call Z :=
  if number =? Nr.READ then read a0 a1 a2
  else if number =? Nr.WRITE then write a0 a1 a2
  else if number =? Nr.OPEN then open a0 a1
  else if number =? Nr.CLOSE then let! n := lift (fd a0) in let! _ := on_fs (fun x => Vfs.close x pid n) in ret 0
  else if number =? Nr.STAT then stat a0 a1
  else if number =? Nr.FSTAT then fstat a0 a1
  else if number =? Nr.LSEEK then lseek a0 a1 a2
  else if number =? Nr.MMAP then mmap a0 a1 a2 a3 a4 a5
  else if number =? Nr.MPROTECT then mprotect a0 a1 a2
  else if number =? Nr.MUNMAP then munmap a0 a1
  else if number =? Nr.BRK then tick (fun st => p_brk st a0)
  else if number =? Nr.IOCTL then ioctl a0 a1 a2
  else if number =? Nr.ARCH_PRCTL then arch_prctl a0 a1
  else if number =? Nr.GETPID then get getpid
  else if number =? Nr.GETPPID then get getppid
  else if number =? Nr.DUP then let! n := lift (fd a0) in let! n := on_fs (fun x => Vfs.dup x pid n) in ret (Z.of_nat n)
  else if number =? Nr.DUP2 then
    let! old := lift (fd a0) in let! new := lift (fd a1) in let! n := on_fs (fun x => Vfs.dup2 x pid old new) in ret (Z.of_nat n)
  else if number =? Nr.FORK then act fork
  else if number =? Nr.EXECVE then execve a0 a1 a2
  else if number =? Nr.GETCWD then getcwd a0 a1
  else if number =? Nr.CHDIR then chdir a0
  else if number =? Nr.WAIT4 then wait4 a0 a1 a2
  else if number =? Nr.RENAME then
    let! old := path a0 in let! new := path a1 in let! _ := on_fs (fun x => Vfs.rename x old new) in ret 0
  else if number =? Nr.MKDIR then with_path Vfs.mkdir a0
  else if number =? Nr.RMDIR then with_path Vfs.rmdir a0
  else if number =? Nr.UNLINK then with_path Vfs.unlink a0
  else if number =? Nr.GETDENTS64 then getdents64 a0 a1 a2
  else if number =? Nr.NANOSLEEP then nanosleep a0
  else if number =? Nr.CLOCK_GETTIME then clock_gettime a0 a1
  else if number =? Nr.CLOCK_NANOSLEEP then clock_nanosleep a0 a1 a2
  else lift (Err ENOSYS).

Definition encode_result (value : result Errno Z) : Outcome :=
  Return (match value with Ok value => signed64 value | Err error => - code error end).

Definition dispatch (number a0 a1 a2 a3 a4 a5 : Z) (st : State W I U) : option (Outcome * State W I U) :=
  if (number =? Nr.EXIT) || (number =? Nr.EXIT_GROUP) then Some (Exit (Z.land a0 0xff), st)
  else
    match handle number a0 a1 a2 a3 a4 a5 st with
    | None => None
    | Some (r, st) => Some (encode_result r, st)
    end.
End Calls.
End Syscall.
