(* ===== verification/SyscallSpec.v ===== *)
(** * SyscallSpec: the system calls on files, whatever their arguments

    [good] is what a handler guarantees from any sound state: it does not
    panic, leaves a sound state and returns a value in range. The handlers of
    the calls on files are composed of parts that are [good]; the calls on
    processes, memory and time ([PROCESS_CALLS]) end in [ProcessOps], which is
    not assumed to be. [Computer] has the memory and the current directory of
    every process. *)

From stdpp Require Import base gmap numbers list.
From S2P Require Import Prelude Errno Text Inode FileTable Vfs VfsSpec Vma Abi Uaccess Syscall.
Local Open Scope Z_scope.

(** What the calls need of the filesystems beyond [InodeLaws]. *)
Class TransferLaws (W I : Type) `{!Inodes W I} `{!InodeLaws W I} `{!DeviceInodes W I} : Prop := {
  law_read_count : forall w i o n bytes w', 0 <= n -> i_read_at w i o n = (Ok bytes, w') -> len bytes <= n;
  law_write_count : forall w i o buf n w', i_write_at w i o buf = (Ok n, w') -> n <= len buf;
  law_ioctl : forall w l i request value, world_ok w l ->
    let w' := snd (i_ioctl w i request value) in world_ok w' l /\ forall j, permanent w j -> permanent w' j
}.

Module SyscallSpec.
Import Abi AbiSpec Uaccess Syscall VfsSpec.

(** ** Paths *)

Lemma resolve_loop_good components acc :
  (forall c, c ∈ components -> SLASH ∉ c) -> Forall good_component acc -> Forall good_component (Path.resolve_loop components acc).
Proof.
  revert acc. induction components as [|c components IH]; intros acc Hc Ha; cbn [Path.resolve_loop]; [done|].
  assert (Hc' : forall x, x ∈ components -> SLASH ∉ x) by (intros x Hx; apply Hc; by right).
  case_if; [by apply IH|]. case_if; [by apply IH, Forall_removelast|]. apply IH; [done|]. apply Forall_app. split; [done|]. constructor; [|constructor].
  split; [done|]. split; [done|]. split; [done|]. apply Hc. left.
Qed.

(** What a path argument means is always a normal absolute path. *)
Lemma resolve_normal dir p : normal (Path.resolve dir p).
Proof.
  eexists. split; [reflexivity|]. apply resolve_loop_good; [|constructor]. intros c [Hc|Hc]%elem_of_app; by eapply split_no_sep.
Qed.

Section Spec.
Context {W I U : Type} `{!Inodes W I} `{!InodeLaws W I} `{!DeviceInodes W I} `{!TransferLaws W I} `{!UserMemory U} {HU : UserMemoryLaws U} `{!ProcessOps (State W I U)}.
Implicit Types (st : State W I U).

Definition word (v : Z) : Prop := 0 <= v < 2 ^ 63.

(** A process's current directory is a variable of its own. *)
Class DirectoryLaws : Prop := {
  law_cwd : forall st p, fs (set_cwd st p) = fs st /\ cwd (set_cwd st p) = p;
  law_cwd_fs : forall st x, cwd (with_fs st x) = cwd st;
  law_cwd_user : forall st a data, cwd (with_user st (snd (um_write (user st) a data))) = cwd st
}.
Context {HD : DirectoryLaws}.

Definition state_ok st : Prop := fs_inv (fs st) /\ normal (cwd st).
Definition good {A} (Q : A -> Prop) (c : call (State W I U) A) : Prop :=
  forall st, state_ok st -> exists r st', c st = Some (r, st') /\ state_ok st' /\ match r with Ok a => Q a | Err _ => True end.

(** ** The monad *)

Lemma good_ret {A} (Q : A -> Prop) a : Q a -> good Q (ret a).
Proof. intros H st Hst. by exists (Ok a), st. Qed.
Lemma good_lift {A} (Q : A -> Prop) r : (forall a, r = Ok a -> Q a) -> good Q (lift r).
Proof. intros H st Hst. exists r, st. split; [done|]. split; [done|]. destruct r; [by apply H|done]. Qed.
Lemma good_err {A} (Q : A -> Prop) e : good Q (lift (Err e)).
Proof. by apply good_lift. Qed.
Lemma good_bind {A B} (P : A -> Prop) (Q : B -> Prop) c k : good P c -> (forall a, P a -> good Q (k a)) -> good Q (bind c k).
Proof.
  intros Hc Hk st Hst. destruct (Hc st Hst) as (r & st1 & E & Hst1 & Hr). unfold bind. rewrite E. destruct r as [a|e]; [by apply Hk|]. by exists (Err e), st1.
Qed.
Lemma good_map_err {A} (Q : A -> Prop) f c : good Q c -> good Q (map_err f c).
Proof. intros H st Hst. destruct (H st Hst) as (r & st1 & E & Hst1 & Hr). unfold map_err. rewrite E. destruct r as [a|e]; eexists _, st1; by split. Qed.
Lemma good_get {A} (Q : A -> Prop) f : (forall st, state_ok st -> Q (f st)) -> good Q (get f).
Proof. intros H st Hst. exists (Ok (f st)), st. split; [done|]. split; [done|]. by apply H. Qed.
Lemma good_modify f : (forall st, state_ok st -> state_ok (f st)) -> good (fun _ => True) (modify f).
Proof. intros H st Hst. exists (Ok ()), (f st). split; [done|]. split; [by apply H|done]. Qed.
Lemma good_act {A} (Q : A -> Prop) f :
  (forall st r st', state_ok st -> f st = (r, st') -> state_ok st' /\ match r with Ok a => Q a | Err _ => True end) -> good Q (act f).
Proof. intros H st Hst. unfold act. destruct (f st) as [r st'] eqn:E. exists r, st'. split; [done|]. by eapply H. Qed.
Lemma good_tick {A} (Q : A -> Prop) f : (forall st, state_ok st -> state_ok (snd (f st)) /\ Q (fst (f st))) -> good Q (tick f).
Proof. intros H st Hst. unfold tick. specialize (H st Hst). destruct (f st) as [a st']. exists (Ok a), st'. by split. Qed.
Lemma good_weaken {A} (P Q : A -> Prop) c : good P c -> (forall a, P a -> Q a) -> good Q c.
Proof. intros Hc H st Hst. destruct (Hc st Hst) as (r & st' & E & Hst' & Hr). exists r, st'. split; [done|]. split; [done|]. destruct r; auto. Qed.

(** ** Files and memory *)

Lemma good_on_fs {A} (Q : A -> Prop) f :
  (forall x, fs_inv x -> fs_inv (snd (f x)) /\ match fst (f x) with Ok a => Q a | Err _ => True end) -> good Q (on_fs f).
Proof.
  intros H. apply good_act. intros st r st' [Hi Hn] E. specialize (H _ Hi). destruct (f (fs st)) as [r0 x]. injection E as <- <-. destruct H as [H1 H2].
  split; [|done]. split; [done|]. by rewrite law_cwd_fs.
Qed.
Lemma good_in_fs {A} (Q : A -> Prop) f : (forall x a, fs_inv x -> f x = Ok a -> Q a) -> good Q (in_fs f).
Proof. intros H st Hst. exists (f (fs st)), st. split; [done|]. split; [done|]. destruct (f (fs st)) eqn:E; [|done]. eapply H; [apply Hst|exact E]. Qed.
Lemma good_mem_write a data : good (fun _ => True) (mem_write a data).
Proof.
  apply good_act. intros st r st' [Hi Hn] E. pose proof (law_cwd_user st a data) as Hc. destruct (um_write (user st) a data) as [r0 u].
  injection E as <- <-. split; [|by destruct r0]. split; [done|]. cbn in Hc. by rewrite Hc.
Qed.
Lemma check_range_Ok a n : 0 <= a -> 0 <= n -> check_range a n = Ok () <-> a + n <= USER_TOP.
Proof.
  intros Ha Hn. unfold check_range, checked_add, USER_TOP, U64_MAX. destruct (Z.leb_spec (a + n) (2 ^ 64 - 1)); [|split; [done|lia]].
  destruct (Z.gtb_spec (a + n) 0x00007ffffffff000); split; done || lia.
Qed.

(** Bytes that were read. *)
Definition bytes_of a n (bytes : list Z) : Prop := len bytes = n /\ a + n <= USER_TOP /\ Forall (fun b => 0 <= b <= 255) bytes.

Lemma good_mem_read a n : 0 <= a -> 0 <= n -> good (bytes_of a n) (mem_read a n).
Proof.
  intros Ha Hn st Hst. eexists _, st. split; [reflexivity|]. split; [done|]. destruct (um_read (user st) a n) as [bytes|] eqn:E; [|done].
  apply um_read_ok in E as (Hc & Hl & Hb); [|done..]. apply check_range_Ok in Hc; [|done..]. split; [done|]. split; [done|].
  apply Forall_lookup. intros i b Hi. apply Hb, um_bytes in Hi. lia.
Qed.

Lemma from_le_bytes bytes : Forall (fun b => 0 <= b <= 255) bytes -> 0 <= from_le bytes.
Proof. induction 1 as [|b bytes Hb _ IH]; cbn [from_le]; lia. Qed.

Lemma c_string_len n m a s : c_string n m a = Ok s -> (length s <= n)%nat.
Proof.
  revert a s. induction n as [|n IH]; intros a s; cbn [c_string]; (destruct (um_byte m a) as [b|]; [|done]); (destruct (b =? 0); [by intros [= <-]; simpl; lia|]); [done|].
  destruct (c_string n m (a + 1)) as [s'|] eqn:E; [|done]. intros [= <-]. apply IH in E. simpl. lia.
Qed.
Lemma good_mem_cstr a max : 0 <= a -> 0 <= max < U64_MAX -> good (fun s => len s <= max) (mem_cstr a max).
Proof.
  intros Ha Hm st Hst. unfold mem_cstr. rewrite read_cstr_spec by done. eexists _, st. split; [reflexivity|]. split; [done|].
  destruct (c_string _ _ _) as [s|] eqn:E; cbn; [|done]. destruct (utf8 s); [|done]. apply c_string_len in E. unfold len. lia.
Qed.

Lemma good_path a : 0 <= a -> good normal (path a).
Proof.
  intros Ha. eapply good_bind; [apply good_mem_cstr; [done|by unfold PATH_MAX, U64_MAX]|]. intros p _. case_if; [apply good_err|].
  eapply (good_bind (fun _ => True)); [by apply good_get|]. intros dir _. apply good_ret, resolve_normal.
Qed.

(** ** Values *)

Lemma word_0 : word 0.
Proof. by unfold word. Qed.
Lemma word_small v : 0 <= v <= MAX_TRANSFER -> word v.
Proof. unfold word, MAX_TRANSFER. lia. Qed.

Lemma insert_bound {F} (slots : list (option F)) file n t : (length slots <= FileTable.MAX_FDS)%nat -> FileTable.insert slots file = (Ok n, t) -> word (Z.of_nat n).
Proof.
  intros Hl. unfold FileTable.insert. destruct (FileTable.position_none slots) as [i|] eqn:E.
  - intros [= <- _]. apply FileTable.position_none_Some in E as [E _]. apply lookup_lt_Some in E. unfold word, FileTable.MAX_FDS in *. lia.
  - destruct (_ <=? _)%nat eqn:El; [done|]. intros [= <- _]. apply Nat.leb_gt in El. unfold word, FileTable.MAX_FDS in *. lia.
Qed.

Lemma open_bound x p path flags : fs_inv x -> match fst (Vfs.open x p path flags) with Ok n => word (Z.of_nat n) | Err _ => True end.
Proof.
  intros Hi. unfold Vfs.open. case_if; [done|]. pose proof (open_inode_inv x path flags Hi) as H1.
  destruct (Vfs.open_inode x path flags) as [[inode|] x1]; [|done]. destruct H1 as [H1 Hv]. specialize (Hv inode eq_refl).
  pose proof (open_check_inv x1 inode flags H1 Hv) as H2. destruct (Vfs.open_check x1 inode flags) as [[u|] x2]; [|done]. destruct H2 as [H2 _].
  pose proof (step_inv x2 _ H2 (step_open _ inode flags)) as H3. destruct (i_open (Vfs.world x2) inode flags) as [[o|] w]; [|done]. cbn [snd] in H3.
  unfold Vfs.install. pose proof (table_length _ p H3) as Ht. destruct (FileTable.insert _ _) as [[n|] t] eqn:E; [|done]. by eapply insert_bound.
Qed.

Lemma dup_bound x p n : fs_inv x -> match fst (Vfs.dup x p n) with Ok n => word (Z.of_nat n) | Err _ => True end.
Proof.
  intros Hi. unfold Vfs.dup, FileTable.dup. pose proof (table_length _ p Hi). destruct (FileTable.get _ _) as [file|]; [|done].
  destruct (FileTable.insert _ _) as [[k|] t] eqn:E; [|done]. by eapply insert_bound.
Qed.

Lemma dup2_bound x p old new : 0 <= Z.of_nat new < 2 ^ 32 -> match fst (Vfs.dup2 x p old new) with Ok n => word (Z.of_nat n) | Err _ => True end.
Proof.
  intros Hn. unfold Vfs.dup2, FileTable.dup2. destruct (FileTable.get _ _) as [file|]; [|done]. assert (word (Z.of_nat new)) by (unfold word; lia).
  destruct (old =? new)%nat; [|destruct (FileTable.MAX_FDS <=? new)%nat]; by destruct (mjoin (Vfs.table x p !! new)).
Qed.

Lemma read_bound x p n count : 0 <= count -> match fst (Vfs.read x p n count) with Ok bytes => len bytes <= count | Err _ => True end.
Proof.
  intros Hc. unfold Vfs.read. destruct (Vfs.get_file x p n) as [[id f]|]; [|done]. case_if; [done|]. case_if; [done|].
  destruct (i_read_at _ _ _ _) as [[bytes|] w] eqn:E; [|done]. by eapply law_read_count.
Qed.

Lemma write_bound x p n buf : match fst (Vfs.write x p n buf) with Ok count => 0 <= count <= len buf | Err _ => True end.
Proof.
  unfold Vfs.write. destruct (Vfs.get_file x p n) as [[id f]|]; [|done]. case_if; [done|].
  match goal with |- context [i_write_at ?w ?i ?o ?b] => destruct (i_write_at w i o b) as [[count|] w'] eqn:E end; [|done]. split; [by eapply law_count|by eapply law_write_count].
Qed.

Lemma lseek_bound x p n offset whence : match fst (Vfs.lseek x p n offset whence) with Ok v => word v | Err _ => True end.
Proof.
  unfold Vfs.lseek. destruct (Vfs.get_file x p n) as [[id f]|]; [|done]. case_if; [done|].
  match goal with |- context [Vfs.checked_add_i64 ?a ?b] => destruct (Vfs.checked_add_i64 a b) as [t|] eqn:E end; [|done]. case_if; [done|]. cbn.
  unfold Vfs.checked_add_i64, Vfs.I64_MAX in E. destruct (_ && _) eqn:Eb in E; [|done]. injection E as <-. unfold word. bool_to_prop. lia.
Qed.

(** ** Directories *)

Lemma offer_position {S} (take : S -> Z -> DirEntry -> bool * S) l : forall s pos, pos <= snd (Vfs.offer take s pos l).
Proof.
  induction l as [|e l IH]; intros s pos; cbn [Vfs.offer]; [done|]. destruct (take s pos e) as [[] s']; [|done]. specialize (IH s' (pos + 1)). lia.
Qed.

Lemma readdir_with_inv {S} x p n (take : S -> Z -> DirEntry -> bool * S) s : fs_inv x -> fs_inv (snd (Vfs.readdir_with x p n take s)).
Proof.
  intros Hi. unfold Vfs.readdir_with. destruct (Vfs.get_file x p n) as [[id f]|] eqn:Hg; [|done]. apply get_file_Some in Hg as [Hf _].
  case_if; [done|]. destruct (i_entries _ _) as [l|]; [|done]. pose proof (offer_position take (drop (Z.to_nat (Vfs.of_offset f)) l) s (Vfs.of_offset f)) as Ho.
  destruct (Vfs.offer _ _ _ _) as [s' pos]. cbn [snd] in *. eapply set_file_inv; [done|exact Hf|done|]. simpl. pose proof (v_offset _ Hi _ _ Hf). lia.
Qed.

Lemma take_entry_bound count s pos e : len (fst s) <= count -> len (fst (snd (take_entry count s pos e))) <= count.
Proof.
  destruct s as [encoded small]. cbn [fst]. intros Hl. unfold take_entry. destruct (Z.gtb_spec (len encoded + dirent_size (de_name e)) count); [done|].
  cbn [snd fst]. unfold encode_dirent. rewrite len_app, length_dirent. lia.
Qed.

Lemma offer_bound count l : forall s pos, len (fst s) <= count -> len (fst (fst (Vfs.offer (take_entry count) s pos l))) <= count.
Proof.
  induction l as [|e l IH]; intros s pos Hs; cbn [Vfs.offer]; [done|]. pose proof (take_entry_bound count s pos e Hs) as Ht.
  destruct (take_entry count s pos e) as [[] s']; [by apply IH|done].
Qed.

Lemma readdir_bound x p n count : 0 <= count ->
  match fst (fst (Vfs.readdir_with x p n (take_entry count) ([], false))) with Ok _ => len (fst (snd (fst (Vfs.readdir_with x p n (take_entry count) ([], false))))) <= count | Err _ => True end.
Proof.
  intros Hc. unfold Vfs.readdir_with. destruct (Vfs.get_file x p n) as [[id f]|]; [|done]. case_if; [done|]. destruct (i_entries _ _) as [l|]; [|done].
  pose proof (offer_bound count (drop (Z.to_nat (Vfs.of_offset f)) l) ([], false) (Vfs.of_offset f) ltac:(done)) as Ho. by destruct (Vfs.offer _ _ _ _).
Qed.

(** ** Handlers *)

Lemma good_fd v : 0 <= v -> good (fun n => 0 <= Z.of_nat n < 2 ^ 32) (lift (fd v)).
Proof. intros Hv. apply good_lift. unfold fd. intros n. destruct (Z.ltb_spec v (2 ^ 32)); [|done]. intros [= <-]. lia. Qed.

Lemma good_range a n : good (fun _ => True) (lift (check_range a n)).
Proof. by apply good_lift. Qed.

Lemma good_fs_unit {A} f : (forall x, fs_inv x -> fs_inv (snd (f x))) -> good (fun _ => True) (on_fs (A := A) f).
Proof. intros H. apply good_on_fs. intros x Hx. split; [by apply H|by destruct (fst (f x))]. Qed.

(** A part whose value does not matter. *)
Lemma good_any {A} (Q : A -> Prop) c : good Q c -> good (fun _ => True) c.
Proof. intros H. by eapply good_weaken. Qed.

Lemma good_read p a0 a1 a2 : 0 <= a0 -> 0 <= a2 -> good word (read p a0 a1 a2).
Proof.
  intros H0 H2. eapply good_bind; [by apply good_fd|]. intros n _. eapply good_bind; [apply good_range|]. intros _ _.
  set (count := Z.min a2 MAX_TRANSFER). assert (Hc : 0 <= count <= MAX_TRANSFER) by (unfold MAX_TRANSFER in *; lia).
  eapply (good_bind (fun data => len data <= count)).
  { apply good_on_fs. intros x Hx. split; [by apply read_inv|apply read_bound; lia]. }
  intros data Hd st Hst. destruct (good_mem_write a1 data st Hst) as (r & st1 & -> & Hst1 & _). destruct r as [u|e].
  - exists (Ok (len data)), st1. split; [done|]. split; [done|]. apply word_small. pose proof (len_nonneg data). lia.
  - unfold give_back. pose proof (lseek_inv (fs st1) p n (- len data) SeekCurrent (proj1 Hst1)) as Hl. destruct (Vfs.lseek _ _ _ _ _) as [r x].
    eexists _, _. split; [reflexivity|]. split; [|done]. split; [exact Hl|]. rewrite law_cwd_fs. apply Hst1.
Qed.

Lemma good_write p a0 a1 a2 : 0 <= a0 -> 0 <= a1 -> 0 <= a2 -> good word (write p a0 a1 a2).
Proof.
  intros H0 H1 H2. eapply good_bind; [by apply good_fd|]. intros n _. eapply good_bind; [apply good_range|]. intros _ _.
  eapply good_bind; [apply good_mem_read; [done|unfold MAX_TRANSFER; lia]|]. intros data [Hd _]. apply good_on_fs. intros x Hx. split; [by apply write_inv|].
  pose proof (write_bound x p n data) as Hb. destruct (fst (Vfs.write x p n data)); [|done]. apply word_small. unfold MAX_TRANSFER in *. lia.
Qed.

Lemma good_open p a0 a1 : 0 <= a0 -> good word (open p a0 a1).
Proof.
  intros H0. eapply (good_bind (fun _ => True)); [by apply good_lift|]. intros flags _. eapply good_bind; [by apply good_path|]. intros q _.
  eapply (good_bind (fun n => word (Z.of_nat n))); [|intros n Hn; by apply good_ret]. apply good_on_fs. intros x Hx. split; [by apply open_inv|by apply open_bound].
Qed.

Lemma good_then {A} (Q : A -> Prop) c v : good Q c -> word v -> good word (bind c (fun _ => ret v)).
Proof. intros Hc Hv. eapply good_bind; [exact Hc|]. intros _ _. by apply good_ret. Qed.

Lemma good_stat a0 a1 : 0 <= a0 -> good word (stat a0 a1).
Proof.
  intros H0. eapply good_bind; [by apply good_path|]. intros q _. eapply (good_bind (fun _ => True)); [by apply good_in_fs|]. intros s _.
  eapply good_then; [apply good_mem_write|apply word_0].
Qed.

Lemma good_fstat p a0 a1 : 0 <= a0 -> good word (fstat p a0 a1).
Proof.
  intros H0. eapply good_bind; [by apply good_fd|]. intros n _. eapply (good_bind (fun _ => True)); [by apply good_in_fs|]. intros s _.
  eapply good_then; [apply good_mem_write|apply word_0].
Qed.

Lemma good_lseek p a0 a1 a2 : 0 <= a0 -> good word (lseek p a0 a1 a2).
Proof.
  intros H0. eapply good_bind; [by apply good_fd|]. intros n _. eapply (good_bind (fun _ => True)); [by apply good_lift|]. intros wh _.
  apply good_on_fs. intros x Hx. split; [by apply lseek_inv|apply lseek_bound].
Qed.

Lemma good_get_file p a0 : 0 <= a0 -> good (fun _ => True) (get_file p a0).
Proof. intros H0. eapply good_bind; [by apply good_fd|]. intros n _. by apply good_in_fs. Qed.

Lemma good_inode_ioctl inode request value : good (fun _ => True) (inode_ioctl inode request value).
Proof.
  intros st [Hi Hn]. unfold inode_ioctl. pose proof (law_ioctl (Vfs.world (fs st)) _ inode request value (v_world _ Hi)) as Hl. destruct (i_ioctl _ _ _ _) as [[r v] w].
  eexists _, _. split; [reflexivity|]. split; [|by destruct r]. split; [|by rewrite law_cwd_fs]. cbn [fs with_fs]. cbn in Hl. apply set_world_inv; [done|intros _; apply Hl|apply Hl].
Qed.

Lemma good_ioctl p a0 a1 a2 : 0 <= a0 -> 0 <= a2 -> good word (ioctl p a0 a1 a2).
Proof.
  intros H0 H2. eapply good_bind; [by apply good_get_file|]. intros [id file] _. eapply (good_bind (fun _ => True)); [by apply good_get|]. intros terminal _. destruct (negb terminal).
  - eapply (good_bind (fun _ => True)); [by apply good_in_fs|]. intros [bytes|] _; [eapply good_then; [apply good_mem_write|apply word_0]|].
    eapply (good_bind (fun _ => True)); [by apply good_lift|]. intros copies _. eapply (good_bind (fun _ => True)).
    { destruct (match copies with Some c => copy_in c | None => false end); [by eapply good_any, good_mem_read|by apply good_ret]. }
    intros value _. eapply (good_bind (fun _ => True)); [apply good_inode_ioctl|]. intros v _. eapply (good_then (fun _ => True)); [|apply word_0].
    destruct (match copies with Some c => copy_out c | None => false end); [apply good_mem_write|by apply good_ret].
  - eapply (good_then (fun _ => True)); [|apply word_0]. destruct (a1 =? TCGETS); [apply good_mem_write|]. destruct (a1 =? TIOCGWINSZ); [apply good_mem_write|apply good_err].
Qed.

Lemma good_mem_write_len a data : 0 <= a -> good (fun _ => word (len data)) (mem_write a data).
Proof.
  intros Ha st Hst. destruct (good_mem_write a data st Hst) as (r & st' & E & Hst' & _). exists r, st'. split; [done|]. split; [done|]. destruct r as [u|]; [|done].
  unfold mem_write, act in E. destruct (um_write (user st) a data) as [r0 u0] eqn:Eu. injection E as -> _. destruct u.
  assert (Hw : fst (um_write (user st) a data) = Ok ()) by (by rewrite Eu). pose proof (len_nonneg data).
  apply um_write_ok in Hw as [Hc%check_range_Ok _]; [|done..]. unfold word, USER_TOP in *. lia.
Qed.

Lemma good_getcwd a0 a1 : 0 <= a0 -> good word (getcwd a0 a1).
Proof.
  intros H0. eapply (good_bind (fun _ => True)); [by apply good_get|]. intros dir _. cbv zeta. destruct (Z.gtb_spec (len (dir ++ [0])) a1); [apply good_err|].
  eapply good_bind; [by apply good_mem_write_len|]. intros u Hl. by apply good_ret.
Qed.

Lemma good_chdir a0 : 0 <= a0 -> good word (chdir a0).
Proof.
  intros H0. eapply good_bind; [by apply good_path|]. intros q Hq. eapply (good_bind (fun _ => True)); [by apply good_in_fs|]. intros s _. case_if; [apply good_err|].
  eapply good_then; [|apply word_0]. apply good_modify. intros st [Hi Hn]. destruct (law_cwd st q) as [E1 E2]. split; [by rewrite E1|by rewrite E2].
Qed.

Lemma good_read_strings n : forall address budget strings, is_u64 address -> 0 <= budget <= MAX_ARGUMENT_BYTES -> (n <= MAX_ARGUMENTS)%nat ->
  address <= USER_TOP \/ n = MAX_ARGUMENTS -> good (fun r => 0 <= snd r <= MAX_ARGUMENT_BYTES) (read_strings n address budget strings).
Proof.
  induction n as [|n IH]; intros address budget strings Ha Hb Hn Hu; cbn [read_strings]; [apply good_err|]. cbv zeta.
  set (place := address + Z.of_nat (MAX_ARGUMENTS - S n) * 8). assert (Hp : address <= place <= U64_MAX).
  { unfold place, is_u64, U64_MAX, USER_TOP, MAX_ARGUMENTS in *. destruct Hu as [Hu|Hu]; [|injection Hu as ->]; lia. }
  destruct (Z.gtb_spec place U64_MAX); [lia|]. unfold is_u64 in Ha. eapply good_bind; [apply good_mem_read; lia|]. intros w (_ & Ht & Hw). apply from_le_bytes in Hw.
  destruct (from_le w =? 0); [apply good_ret; simpl; lia|]. eapply good_bind; [apply good_map_err, good_mem_cstr; [done|unfold PATH_MAX, MAX_ARGUMENT_BYTES, U64_MAX in *; lia]|].
  intros s Hs. eapply (good_bind (fun b => 0 <= b <= budget)).
  { apply good_lift. intros b. unfold checked_sub. destruct (Z.leb_spec (len s + 1) budget); [|done]. intros [= <-]. pose proof (len_nonneg s). lia. }
  intros b Hb'. apply IH; [done|lia|lia|]. left. lia.
Qed.

Lemma good_string_array address budget : is_u64 address -> 0 <= budget <= MAX_ARGUMENT_BYTES -> good (fun r => 0 <= snd r <= MAX_ARGUMENT_BYTES) (read_string_array address budget).
Proof. intros Ha Hb. unfold read_string_array. destruct (address =? 0); [by apply good_ret|]. apply good_read_strings; [done|done|lia|by right]. Qed.

Lemma good_getdents p a0 a1 a2 : 0 <= a0 -> 0 <= a2 -> good word (getdents64 p a0 a1 a2).
Proof.
  intros H0 H2. eapply good_bind; [by apply good_fd|]. intros n _. cbv zeta. eapply good_bind; [apply good_range|]. intros _ _.
  set (count := Z.min a2 MAX_TRANSFER). assert (Hc : 0 <= count <= MAX_TRANSFER) by (unfold MAX_TRANSFER in *; lia).
  eapply (good_bind (fun s => len (fst s) <= count)).
  { intros st [Hi Hn]. pose proof (readdir_with_inv (fs st) p n (take_entry count) ([], false) Hi) as Hr.
    pose proof (readdir_bound (fs st) p n count ltac:(lia)) as Hb. destruct (Vfs.readdir_with _ _ _ _ _) as [[r s] x]. eexists _, _. split; [reflexivity|].
    split; [split; [exact Hr|by rewrite law_cwd_fs]|]. destruct r; done. }
  intros [encoded small] He. cbn [fst] in He. destruct small; [apply good_err|]. eapply good_bind; [apply good_mem_write|]. intros _ _. apply good_ret, word_small.
  pose proof (len_nonneg encoded). lia.
Qed.

Lemma good_with_path {A} f a : 0 <= a -> (forall x p, fs_inv x -> fs_inv (snd (f x p))) -> good word (with_path (A := A) f a).
Proof.
  intros Ha Hf. eapply good_bind; [by apply good_path|]. intros q _. eapply good_then; [|apply word_0]. apply good_fs_unit. intros x Hx. by apply Hf.
Qed.

(** ** Calls on files *)

(** The calls that are about processes, memory and time. *)
Definition PROCESS_CALLS : list Z :=
  [Nr.MMAP; Nr.MPROTECT; Nr.MUNMAP; Nr.BRK; Nr.ARCH_PRCTL; Nr.GETPID; Nr.GETPPID; Nr.FORK; Nr.EXECVE; Nr.WAIT4; Nr.NANOSLEEP; Nr.CLOCK_GETTIME; Nr.CLOCK_NANOSLEEP].

Lemma good_handle p number a0 a1 a2 a3 a4 a5 :
  number ∉ PROCESS_CALLS -> is_u64 a0 -> is_u64 a1 -> is_u64 a2 -> good word (handle p number a0 a1 a2 a3 a4 a5).
Proof.
  intros Hno H0 H1 H2. unfold handle.
  assert (Hn : forall k, k ∈ PROCESS_CALLS -> (number =? k) = false) by (intros k Hk; apply Z.eqb_neq; by intros ->).
  rewrite (Hn Nr.MMAP), (Hn Nr.MPROTECT), (Hn Nr.MUNMAP), (Hn Nr.BRK), (Hn Nr.ARCH_PRCTL), (Hn Nr.GETPID), (Hn Nr.GETPPID), (Hn Nr.FORK), (Hn Nr.EXECVE), (Hn Nr.WAIT4), (Hn Nr.NANOSLEEP), (Hn Nr.CLOCK_GETTIME), (Hn Nr.CLOCK_NANOSLEEP)
    by (unfold PROCESS_CALLS; rewrite !elem_of_cons; tauto).
  case_if; [apply good_read; (apply H0 || apply H2)|].
  case_if; [apply good_write; (apply H0 || apply H1 || apply H2)|].
  case_if; [apply good_open, H0|].
  case_if; [eapply good_bind; [apply good_fd, H0|intros n _; eapply good_then; [apply good_fs_unit; intros x Hx; by apply close_inv|apply word_0]]|].
  case_if; [apply good_stat, H0|]. case_if; [apply good_fstat, H0|]. case_if; [apply good_lseek, H0|].
  case_if; [apply good_ioctl; (apply H0 || apply H2)|].
  case_if; [eapply good_bind; [apply good_fd, H0|intros n _; eapply (good_bind (fun n => word (Z.of_nat n))); [apply good_on_fs; intros x Hx; split; [by apply dup_inv|by apply dup_bound]|intros; by apply good_ret]]|].
  case_if; [eapply good_bind; [apply good_fd, H0|intros n _]; eapply good_bind; [apply good_fd, H1|intros n2 Hn2];
    eapply (good_bind (fun n => word (Z.of_nat n))); [apply good_on_fs; intros x Hx; split; [by apply dup2_inv|by apply dup2_bound]|intros; by apply good_ret]|].
  case_if; [apply good_getcwd, H0|]. case_if; [apply good_chdir, H0|].
  case_if; [eapply good_bind; [apply good_path, H0|intros q _]; eapply good_bind; [apply good_path, H1|intros q2 _]; eapply good_then; [apply good_fs_unit; intros x Hx; by apply vfs_rename_inv|apply word_0]|].
  case_if; [apply good_with_path; [apply H0|intros; by apply mkdir_inv]|]. case_if; [apply good_with_path; [apply H0|intros; by apply vfs_rmdir_inv]|].
  case_if; [apply good_with_path; [apply H0|intros; by apply vfs_unlink_inv]|]. case_if; [apply good_getdents; (apply H0 || apply H2)|apply good_err].
Qed.

(** A result as the program sees it. *)
Lemma check_value v : word v -> check (signed64 v) = Ok v.
Proof.
  unfold word. intros Hv. rewrite signed64_small by lia. unfold check. destruct (Z.leb_spec (-4095) v); [|lia]. destruct (Z.ltb_spec v 0); [lia|]. cbn [andb].
  f_equal. apply Z.mod_small. lia.
Qed.
Lemma check_code e : check (- code e) = Err (code e).
Proof. by destruct e. Qed.

(** A call as a program makes it: process, number, arguments. *)
Record Trap : Type := mkTrap { t_pid : Z; t_number : Z; t_args : Z * Z * Z * Z * Z * Z }.
Definition args_ok (t : Trap) : Prop := let '(a0, a1, a2, a3, a4, a5) := t_args t in is_u64 a0 /\ is_u64 a1 /\ is_u64 a2 /\ is_u64 a3 /\ is_u64 a4 /\ is_u64 a5.
Definition trap (t : Trap) st : option (Outcome * State W I U) := let '(a0, a1, a2, a3, a4, a5) := t_args t in dispatch (t_pid t) (t_number t) a0 a1 a2 a3 a4 a5 st.

(** What the library makes of a result is what the handler returned. *)
Definition faithful (t : Trap) st (o : Outcome) : Prop :=
  let '(a0, a1, a2, a3, a4, a5) := t_args t in
  match o with
  | Exit c => (t_number t = Nr.EXIT \/ t_number t = Nr.EXIT_GROUP) /\ c = a0 mod 256
  | Return raw => exists r st', handle (t_pid t) (t_number t) a0 a1 a2 a3 a4 a5 st = Some (r, st') /\ check raw = match r with Ok v => Ok v | Err e => Err (code e) end
  end.

Definition file_call (t : Trap) : Prop := t_number t ∉ PROCESS_CALLS.

Lemma trap_ok t st : state_ok st -> args_ok t -> file_call t -> exists o st', trap t st = Some (o, st') /\ state_ok st' /\ faithful t st o.
Proof.
  unfold trap, args_ok, faithful. destruct (t_args t) as [[[[[a0 a1] a2] a3] a4] a5]. intros Hst (H0 & H1 & H2 & H3 & H4 & H5) Hn. unfold dispatch. case_if.
  - eexists _, _. split; [reflexivity|]. split; [done|]. split; [destruct Hif as [H|H]; apply Z.eqb_eq in H; auto|]. apply land_ones8.
  - destruct (good_handle (t_pid t) (t_number t) a0 a1 a2 a3 a4 a5 Hn H0 H1 H2 st Hst) as (r & st' & E & Hst' & Hr). rewrite E.
    eexists _, _. split; [reflexivity|]. split; [done|]. exists r, st'. split; [done|]. destruct r as [v|e]; [by apply check_value|apply check_code].
Qed.

(** The machine: the files, and what else each process has. *)
Record Computer : Type := mkComputer { files : Vfs.Fs W I; programs : Z -> U }.
Definition running (m : Computer) (pid : Z) : State W I U := mkState (files m) (programs m pid).
(** A process makes a call: what is changed is the files and its own. *)
Definition machine_trap (t : Trap) (m : Computer) : option (Outcome * Computer) :=
  match trap t (running m (t_pid t)) with
  | Some (o, st) => Some (o, mkComputer (fs st) (fun pid => if pid =? t_pid t then user st else programs m pid))
  | None => None
  end.
Fixpoint traps (ts : list Trap) (m : Computer) : option (list Outcome * Computer) :=
  match ts with
  | [] => Some ([], m)
  | t :: ts =>
      match machine_trap t m with
      | None => None
      | Some (o, m) => match traps ts m with None => None | Some (os, m) => Some (o :: os, m) end
      end
  end.

Definition machine_ok (m : Computer) : Prop := forall pid, state_ok (running m pid).

Lemma machine_trap_ok t m :
  machine_ok m -> args_ok t -> file_call t -> exists o m', machine_trap t m = Some (o, m') /\ machine_ok m' /\ faithful t (running m (t_pid t)) o.
Proof.
  intros Hm Ha Hf. destruct (trap_ok t _ (Hm (t_pid t)) Ha Hf) as (o & st & E & [H1 H2] & Hfa). unfold machine_trap. rewrite E.
  eexists _, _. split; [reflexivity|]. split; [|done]. intros pid. split; [done|]. unfold running. cbn [files programs].
  destruct (Z.eqb_spec pid (t_pid t)) as [->|Hne]; [by destruct st|]. pose proof (law_cwd_fs (running m pid) (fs st)) as Hc.
  change (with_fs (running m pid) (fs st)) with (mkState (fs st) (programs m pid)) in Hc. rewrite Hc. apply Hm.
Qed.

End Spec.
End SyscallSpec.
