(* ===== verification/UserLib.v ===== *)
(** * UserLib: reading and writing in the user library

    [userspace/libsaeos/src/lines.rs] ([LineReader]), the loops of [io.rs]
    ([write_all], [read_to_end]), [c_path], and the loop of [read_dir] in
    [fs.rs], each over the raw call it makes. Raw results are the kernel's
    signed numbers; [check] tells errors from values. *)

From stdpp Require Import base numbers gmap list.
From S2P Require Import Prelude Errno Text Inode Abi FileTable Vfs VfsSpec Vma Uaccess Syscall SyscallSpec.
Local Open Scope Z_scope.

Module UserLib.
Import Abi.

(** ** Lines *)

Definition NEWLINE : Z := 10.
Definition BUFFER : Z := 4096.

Fixpoint position_newline (l : list Z) : option nat :=
  match l with [] => None | b :: l => if b =? NEWLINE then Some O else S <$> position_newline l end.

Section Lines.
Context {S E : Type} (read : S -> Z -> result E (list Z) * S).

Record LineReader : Type := mkReader { buffer : list Z; start : nat }.
Definition new_reader : LineReader := mkReader [] 0.

(** [line] starts as the caller's; the result is the length appended. [None]
    when the fuel runs out. *)
Fixpoint read_line_loop (fuel : nat) (r : LineReader) (line : list Z) (before : Z) (s : S) : option (result E Z * list Z * LineReader * S) :=
  match fuel with
  | O => None
  | Datatypes.S fuel =>
      let pending := drop (start r) (buffer r) in
      match position_newline pending with
      | Some newline =>
          let line := line ++ take (Datatypes.S newline) pending in
          Some (Ok (len line - before), line, mkReader (buffer r) (start r + newline + 1), s)
      | None =>
          let line := line ++ pending in
          match read s BUFFER with
          | (Err e, s) => Some (Err e, line, mkReader [] 0, s)
          | (Ok bytes, s) =>
              let r := mkReader bytes 0 in
              if len bytes =? 0 then Some (Ok (len line - before), line, r, s) else read_line_loop fuel r line before s
          end
      end
  end.
Definition read_line (fuel : nat) (r : LineReader) (line : list Z) (s : S) := read_line_loop fuel r line (len line) s.
End Lines.

(** ** Files *)

(** A NUL in a path cannot be passed on. *)
Definition c_path (path : list Z) : result Z (list Z) := if bool_decide (0 ∈ path) then Err 22 else Ok (path ++ [0]).

Section Io.
Context {S : Type}.

(** [write_all] over [raw::write]; [bytes[written..]] panics past the end. *)
Fixpoint write_all (raw_write : S -> list Z -> Z * S) (fuel : nat) (bytes : list Z) (s : S) : option (result Z unit * S) :=
  match bytes with
  | [] => Some (Ok (), s)
  | _ =>
      match fuel with
      | O => None
      | Datatypes.S fuel =>
          let '(raw, s) := raw_write s bytes in
          match check raw with
          | Err e => Some (Err e, s)
          | Ok written =>
              if written =? 0 then Some (Err 5, s)
              else if written >? len bytes then None
              else write_all raw_write fuel (drop (Z.to_nat written) bytes) s
          end
      end
  end.

(** [read_to_end] over [raw::read] into a chunk of 4096 bytes: the raw result
    and the chunk. *)
Fixpoint read_to_end (raw_read : S -> Z -> Z * list Z * S) (fuel : nat) (out : list Z) (s : S) : option (result Z (list Z) * S) :=
  match fuel with
  | O => None
  | Datatypes.S fuel =>
      let '(raw, chunk, s) := raw_read s 4096 in
      match check raw with
      | Err e => Some (Err e, s)
      | Ok count =>
          if count =? 0 then Some (Ok out, s)
          else if count >? 4096 then None
          else read_to_end raw_read fuel (out ++ take (Z.to_nat count) chunk) s
      end
  end.

(** The loop of [read_dir] over [raw::getdents64] with a buffer of 4096. *)
Fixpoint read_dir_loop (raw_getdents : S -> Z -> Z * list Z * S) (fuel : nat) (entries : list UserEntry) (s : S) : option (result Z (list UserEntry) * S) :=
  match fuel with
  | O => None
  | Datatypes.S fuel =>
      let '(raw, buffer, s) := raw_getdents s 4096 in
      match check raw with
      | Err e => Some (Err e, s)
      | Ok count =>
          if count =? 0 then Some (Ok entries, s)
          else if count >? 4096 then None
          else
            let record := take (Z.to_nat count) buffer in
            read_dir_loop raw_getdents fuel (entries ++ parse_dirents (length record) record) s
      end
  end.
End Io.
End UserLib.

(** * The library's loops

    Whatever the sizes of the pieces the kernel hands out, lines come out as
    they are in the input, everything is written in order, and a file is read
    to its end. *)

Module UserLibSpec.
Import Abi AbiSpec UserLib.

(** ** Lines *)

(** The text up to and with its first newline, and the rest. *)
Fixpoint first_line (l : list Z) : list Z * list Z :=
  match l with
  | [] => ([], [])
  | b :: l => if b =? NEWLINE then ([b], l) else let '(line, rest) := first_line l in (b :: line, rest)
  end.

Lemma first_line_app l : fst (first_line l) ++ snd (first_line l) = l.
Proof. induction l as [|b l IH]; cbn [first_line]; [done|]. destruct (b =? NEWLINE); [done|]. destruct (first_line l). cbn in *. by rewrite IH. Qed.

Lemma first_line_nil l : fst (first_line l) = [] -> l = [].
Proof. destruct l as [|b l]; cbn [first_line]; [done|]. destruct (b =? NEWLINE); [done|]. by destruct (first_line l). Qed.

Lemma first_line_found l n rest : position_newline l = Some n -> first_line (l ++ rest) = (take (S n) l, drop (S n) l ++ rest).
Proof.
  revert n. induction l as [|b l IH]; intros n; cbn [position_newline first_line app]; [done|]. destruct (b =? NEWLINE); [by intros [= <-]|].
  destruct (position_newline l) as [k|]; [|done]. intros [= <-]. by rewrite (IH k eq_refl).
Qed.

Lemma first_line_skip l rest : position_newline l = None -> first_line (l ++ rest) = (l ++ fst (first_line rest), snd (first_line rest)).
Proof.
  induction l as [|b l IH]; cbn [position_newline first_line app]; [by destruct (first_line rest)|]. destruct (b =? NEWLINE); [done|].
  destruct (position_newline l); [done|]. intros _. by rewrite IH.
Qed.

Section Lines.
Context {S E : Type} (read : S -> Z -> result E (list Z) * S) (stream : S -> list Z).
(** The file delivers its bytes in order, at least one unless it is at its
    end. *)
Context (Hread : forall s n, 0 < n -> exists bytes s', read s n = (Ok bytes, s') /\ stream s = bytes ++ stream s' /\ (bytes = [] -> stream s = [])).

(** What has not been returned yet. *)
Definition unread (r : LineReader) (s : S) : list Z := drop (start r) (buffer r) ++ stream s.

Lemma read_line_loop_spec fuel : forall r line before s, (length (stream s) < fuel)%nat ->
  exists r' s', read_line_loop read (Datatypes.S fuel) r line before s = Some (Ok (len (line ++ fst (first_line (unread r s))) - before), line ++ fst (first_line (unread r s)), r', s') /\
    unread r' s' = snd (first_line (unread r s)) /\ (length (stream s') <= length (stream s))%nat.
Proof.
  induction fuel as [|fuel IH]; intros r line before s Hf; [lia|]. cbn [read_line_loop]. unfold unread. destruct (position_newline _) as [n|] eqn:En.
  - rewrite (first_line_found _ n (stream s) En). cbn [fst snd]. eexists _, s. split; [reflexivity|]. split; [|lia]. cbn [start buffer]. rewrite drop_drop. do 2 f_equal. lia.
  - rewrite (first_line_skip _ (stream s) En). cbn [fst snd]. destruct (Hread s BUFFER ltac:(done)) as (bytes & s1 & Er & Hs & He). rewrite Er.
    destruct (Z.eqb_spec (len bytes) 0) as [Hz|Hz].
    + assert (bytes = []) as -> by (by destruct bytes). rewrite (He eq_refl) in *. cbn in Hs. cbn [first_line fst snd]. rewrite app_nil_r. eexists _, s1. split; [reflexivity|].
      unfold unread. cbn. rewrite <- Hs. by split.
    + assert (Hl : (length (stream s1) < length (stream s))%nat) by (rewrite Hs, length_app; destruct bytes; [done|simpl; lia]).
      destruct (IH (mkReader bytes 0) (line ++ drop (start r) (buffer r)) before s1 ltac:(lia)) as (r' & s' & E1 & E2 & E3).
      unfold unread in E1. cbn [start buffer] in E1. rewrite drop_0, <- Hs, <- app_assoc in E1. exists r', s'. split; [exact E1|]. split; [|lia].
      etransitivity; [exact E2|]. unfold unread. cbn [start buffer]. by rewrite drop_0, <- Hs.
Qed.

(** A program that reads lines until there are none. *)
Fixpoint read_lines (fuel n : nat) (r : LineReader) (s : S) : option (list (list Z)) :=
  match n with
  | O => None
  | Datatypes.S n =>
      match read_line read fuel r [] s with
      | Some (Ok count, line, r, s) => if count =? 0 then Some [] else (cons line) <$> read_lines fuel n r s
      | _ => None
      end
  end.

(** A line: ends at its first newline, or at the end of the input. *)
Definition ends_line (l : list Z) : Prop := exists body, l = body ++ [NEWLINE] /\ NEWLINE ∉ body.
Fixpoint lines_of (ls : list (list Z)) : Prop :=
  match ls with
  | [] => True
  | [l] => l <> [] /\ (ends_line l \/ NEWLINE ∉ l)
  | l :: ls => ends_line l /\ lines_of ls
  end.

Lemma first_line_ends l : ends_line (fst (first_line l)) \/ ((NEWLINE ∉ fst (first_line l)) /\ snd (first_line l) = []).
Proof.
  induction l as [|b l IH]; cbn [first_line]; [right; split; [apply not_elem_of_nil|done]|]. destruct (Z.eqb_spec b NEWLINE) as [->|Hb].
  - left. exists []. split; [done|apply not_elem_of_nil].
  - destruct (first_line l) as [line rest]. cbn [fst snd] in *. destruct IH as [(body & -> & Hn)|[Hn ->]]; [left|right].
    + exists (b :: body). split; [done|]. apply not_elem_of_cons. by split.
    + split; [|done]. apply not_elem_of_cons. by split.
Qed.

Lemma read_lines_spec n : forall fuel r s, (length (unread r s) < n)%nat -> (length (stream s) < fuel)%nat ->
  exists ls, read_lines (Datatypes.S fuel) n r s = Some ls /\ concat ls = unread r s /\ lines_of ls.
Proof.
  induction n as [|n IH]; intros fuel r s Hn Hf; [lia|]. cbn [read_lines]. unfold read_line.
  destruct (read_line_loop_spec fuel r [] (len []) s Hf) as (r' & s' & -> & Hu & Hl). cbn [app]. change (len []) with 0. rewrite Z.sub_0_r.
  set (l := unread r s) in *. pose proof (first_line_app l) as Ha. destruct (Z.eqb_spec (len (fst (first_line l))) 0) as [Hz|Hz].
  - assert (El : l = []) by (apply first_line_nil; by destruct (fst (first_line l))). exists []. by rewrite El.
  - assert (Hlt : (length (unread r' s') < n)%nat). { rewrite Hu. apply (f_equal length) in Ha. rewrite length_app in Ha. unfold len in Hz. lia. }
    destruct (IH fuel r' s' Hlt ltac:(lia)) as (ls & -> & Hc & Hls). exists (fst (first_line l) :: ls). split; [done|]. cbn [concat]. rewrite Hc, Hu. split; [done|].
    destruct (first_line_ends l) as [He|[He Hrest]].
    + destruct ls as [|l2 ls]; [|by split]. split; [|by left]. intros Eq. by rewrite Eq in Hz.
    + destruct ls as [|l2 ls]; [|exfalso; rewrite Hu, Hrest in Hc; destruct l2 as [|]; [|done]; cbn [lines_of] in Hls; destruct ls; [by destruct Hls|]; destruct Hls as [(b & Hb & _) _]; by destruct b].
      split; [|by right]. intros Eq. by rewrite Eq in Hz.
Qed.
End Lines.

(** ** Writing and reading everything *)

Section Io.
Context {S : Type}.

(** [raw_write] takes a part of the bytes, possibly none, or fails. *)
Definition takes_some (raw_write : S -> list Z -> Z * S) (sink : S -> list Z) : Prop :=
  forall s bytes, bytes <> [] -> let '(raw, s') := raw_write s bytes in
    (exists n, raw = n /\ 0 <= n <= len bytes /\ n < 2 ^ 63 /\ sink s' = sink s ++ take (Z.to_nat n) bytes) \/ (-4095 <= raw < 0 /\ sink s' = sink s).

Lemma check_count n : 0 <= n < 2 ^ 63 -> check n = Ok n.
Proof.
  intros Hn. unfold check. destruct (Z.leb_spec (-4095) n); [|lia]. destruct (Z.ltb_spec n 0); [lia|]. cbn [andb]. f_equal. apply Z.mod_small. lia.
Qed.
Lemma check_negative n : -4095 <= n < 0 -> check n = Err (- n).
Proof. intros Hn. unfold check. destruct (Z.leb_spec (-4095) n); [|lia]. by destruct (Z.ltb_spec n 0); [|lia]. Qed.

Lemma write_all_spec raw_write sink : takes_some raw_write sink -> forall fuel bytes s, (length bytes <= fuel)%nat ->
  exists r s' done, write_all raw_write fuel bytes s = Some (r, s') /\ sink s' = sink s ++ take done bytes /\ (r = Ok () -> (length bytes <= done)%nat).
Proof.
  intros Hw. induction fuel as [|fuel IH]; intros bytes s Hf; (destruct bytes as [|b bytes]; [exists (Ok ()), s, O; split; [done|]; by rewrite app_nil_r|]); [simpl in Hf; lia|].
  cbn [write_all]. specialize (Hw s (b :: bytes) ltac:(done)). destruct (raw_write s (b :: bytes)) as [raw s1]. destruct Hw as [(n & -> & Hn & Hn' & Hs)|[Hraw Hs]].
  - rewrite check_count by lia. destruct (Z.eqb_spec n 0) as [->|Hz]; [by exists (Err 5), s1, O|]. destruct (Z.gtb_spec n (len (b :: bytes))); [lia|].
    destruct (IH (drop (Z.to_nat n) (b :: bytes)) s1) as (r & s' & k & E & Hk & Hr). { rewrite length_drop. simpl in *. lia. }
    exists r, s', (Z.to_nat n + k)%nat. split; [done|]. rewrite Hk, Hs, <- app_assoc. split.
    + f_equal. apply take_take_drop.
    + intros Hok. specialize (Hr Hok). rewrite length_drop in Hr. lia.
  - rewrite check_negative by done. eexists _, s1, O. split; [reflexivity|]. split; [by rewrite app_nil_r|done].
Qed.
End Io.
End UserLibSpec.

(** * Listing a directory, from the program to the filesystem

    The library's [read_dir] loop over [getdents64]: the kernel packs the
    entries that fit into the program's buffer and moves the position; the
    library unpacks them. *)

Module SyscallDir.
Import Abi AbiSpec Uaccess Syscall SyscallSpec VfsSpec UserLib UserLibSpec.

(** ** What fits *)

Lemma len_dirents pos l : len (dirents pos l) = fold_right (fun e n => dirent_size (de_name e) + n) 0 l.
Proof. revert pos. induction l as [|e l IH]; intros pos; cbn [dirents fold_right]; [done|]. by rewrite len_app, length_dirent, IH. Qed.

Lemma dirents_app pos l k : dirents pos (l ++ k) = dirents pos l ++ dirents (pos + Z.of_nat (length l)) k.
Proof.
  revert pos. induction l as [|e l IH]; intros pos; cbn [dirents app length]; [by rewrite Z.add_0_r|]. rewrite IH, <- app_assoc. do 3 f_equal. lia.
Qed.

(** The closure takes a prefix, and stops only where the next does not fit. *)
Lemma offer_spec count l : forall encoded small pos,
  exists l1 l2, l = l1 ++ l2 /\
    Vfs.offer (take_entry count) (encoded, small) pos l =
      ((encoded ++ dirents pos l1, match l2 with [] => small | _ => bool_decide (encoded ++ dirents pos l1 = []) end), pos + Z.of_nat (length l1)) /\
    match l2 with [] => True | e :: _ => count < len (encoded ++ dirents pos l1) + dirent_size (de_name e) end.
Proof.
  induction l as [|e l IH]; intros encoded small pos; cbn [Vfs.offer].
  - exists [], []. split; [done|]. cbn. by rewrite app_nil_r, Z.add_0_r.
  - unfold take_entry at 1. destruct (Z.gtb_spec (len encoded + dirent_size (de_name e)) count) as [Hg|Hg].
    + exists [], (e :: l). split; [done|]. cbn [dirents length]. by rewrite app_nil_r, Z.add_0_r.
    + destruct (IH (encode_dirent encoded e (pos + 1)) small (pos + 1)) as (l1 & l2 & -> & E & Hn). exists (e :: l1), l2. split; [done|].
      unfold encode_dirent in *. rewrite <- app_assoc in E, Hn. cbn [dirents length]. rewrite E. split; [|exact Hn]. f_equal. lia.
Qed.

(** In a buffer that holds any entry, at least one is taken. *)
Lemma offer_progress count l pos : 280 <= count -> Forall valid_entry l ->
  exists l1 l2, l = l1 ++ l2 /\ Vfs.offer (take_entry count) ([], false) pos l = ((dirents pos l1, false), pos + Z.of_nat (length l1)) /\ (l1 = [] -> l = []) /\ len (dirents pos l1) <= count.
Proof.
  intros Hc Hv. destruct (offer_spec count l [] false pos) as (l1 & l2 & -> & E & Hn). cbn [app] in *. exists l1, l2. split; [done|].
  assert (Hb : l1 = [] -> l2 = []).
  { intros ->. destruct l2 as [|e l2]; [done|]. exfalso. apply Forall_app in Hv as [_ Hv]. apply Forall_cons in Hv as [(_ & _ & He) _]. apply dirent_size_bounds in He. cbn in Hn. unfold len in Hn. simpl in Hn. lia. }
  pose proof (offer_bound count (l1 ++ l2) ([], false) pos ltac:(unfold len; simpl; lia)) as Hlen. rewrite E in Hlen |- *. cbn [fst] in Hlen.
  split; [|split; [intros H1; by rewrite H1, (Hb H1)|done]]. do 2 f_equal. destruct l2 as [|e l2]; [done|]. apply bool_decide_eq_false. intros Hd. apply (f_equal len) in Hd. destruct l1 as [|e1 l1]; [by specialize (Hb eq_refl)|].
  cbn [dirents] in Hd. rewrite len_app, length_dirent in Hd. apply Forall_app in Hv as [Hv _]. apply Forall_cons in Hv as [(_ & _ & He) _]. apply dirent_size_bounds in He.
  pose proof (len_nonneg (dirents (pos + 1) l1)). pose proof (len_nonneg (de_name e1)). unfold len in Hd at 2. simpl in Hd. lia.
Qed.

Section Dir.
Context {W I U : Type} `{!Inodes W I} `{!InodeLaws W I} `{!DeviceInodes W I} `{!TransferLaws W I} `{!UserMemory U} {HU : UserMemoryLaws U} `{!ProcessOps (State W I U)}.
Implicit Types (st : State W I U).

(** A raw call by a program. *)
Definition sys (pid number a0 a1 a2 : Z) st : Z * State W I U :=
  match dispatch pid number a0 a1 a2 0 0 0 st with Some (Return raw, st) => (raw, st) | _ => (0, st) end.
(** [raw::getdents64] and [raw::read] with the program's buffer at [buf]. *)
Definition contents (buf count : Z) st : list Z := match um_read (user st) buf count with Ok bytes => bytes | Err _ => [] end.
Definition raw_into (pid number fd buf : Z) st (count : Z) : Z * list Z * State W I U :=
  let '(raw, st) := sys pid number fd buf count st in (raw, contents buf count st, st).

(** The buffer can be written, now and after what the calls write into it. *)
Definition same_rights (u u' : U) : Prop := forall x, um_writable u' x = um_writable u x /\ (um_byte u' x = None <-> um_byte u x = None).
Definition writable_buffer (u : U) (buf size : Z) : Prop :=
  0 <= buf /\ buf + size <= USER_TOP /\ (forall x, buf <= x < buf + size -> um_writable u x = true) /\
  forall u' data, same_rights u u' -> len data <= size -> Forall (fun b => 0 <= b <= 255) data -> fst (um_write u' buf data) = Ok ().

Lemma writable_kept u u' buf size : writable_buffer u buf size -> same_rights u u' -> writable_buffer u' buf size.
Proof.
  intros (H1 & H2 & H3 & H4) Hs. split; [done|]. split; [done|]. split; [intros x Hx; rewrite (proj1 (Hs x)); by apply H3|].
  intros u2 data Hs2. apply H4. intros x. destruct (Hs x) as [A1 A2], (Hs2 x) as [B1 B2]. split; [congruence|by rewrite B2, A2].
Qed.

Lemma write_rights (u : U) a data : same_rights u (snd (um_write u a data)).
Proof. intros x. apply um_write_rights. Qed.

(** What was written is what the program finds in its buffer. *)
Lemma contents_written (u : U) buf size data : writable_buffer u buf size -> len data <= size -> Forall (fun b => 0 <= b <= 255) data ->
  exists bytes, um_read (snd (um_write u buf data)) buf size = Ok bytes /\ take (length data) bytes = data.
Proof.
  intros Hw Hl Hb. pose proof Hw as (H1 & H2 & H3 & H4). pose proof (len_nonneg data). set (u' := snd (um_write u buf data)).
  assert (Hok : fst (um_write u buf data) = Ok ()) by (apply H4; [by intros x|done|done]).
  assert (Hread : forall i, 0 <= i < size -> exists b, um_byte u' (buf + i) = Some b).
  { intros i Hi. destruct (um_byte u' (buf + i)) as [b|] eqn:E; [by eexists|]. exfalso. apply (write_rights u buf data) in E. revert E. apply um_writable_readable, H3. lia. }
  exists (map (fun i => default 0 (um_byte u' (buf + Z.of_nat i))) (seq 0 (Z.to_nat size))). split.
  - apply um_read_ok; [lia|lia|]. split; [apply check_range_Ok; lia|]. split; [unfold len; rewrite length_map, length_seq; lia|].
    intros i b Hi. apply list_lookup_fmap_Some in Hi as (j & -> & Hj). apply lookup_seq in Hj as [-> Hj]. destruct (Hread (Z.of_nat i) ltac:(lia)) as [y Hy]. cbn. by rewrite Hy.
  - apply list_eq. intros i. destruct (decide (i < length data)%nat) as [Hi|Hi].
    + rewrite lookup_take_lt by done. rewrite list_lookup_fmap, lookup_seq_lt by (unfold len in *; lia). cbn [fmap option_fmap option_map].
      unfold u'. rewrite um_write_bytes by done. cbn [Nat.add]. destruct (Z.leb_spec buf (buf + Z.of_nat i)); [|lia]. destruct (Z.ltb_spec (buf + Z.of_nat i) (buf + len data)); [|unfold len in *; lia].
      cbn [andb]. replace (Z.to_nat (buf + Z.of_nat i - buf)) with i by lia. by destruct (lookup_lt_is_Some_2 data i Hi) as [y ->].
    + rewrite lookup_take_ge, lookup_ge_None_2 by lia. done.
Qed.

Lemma contents_take (u : U) buf size data : writable_buffer u buf size -> len data <= size -> Forall (fun b => 0 <= b <= 255) data ->
  take (length data) (match um_read (snd (um_write u buf data)) buf size with Ok bytes => bytes | Err _ => [] end) = data.
Proof. intros H1 H2 H3. by destruct (contents_written u buf size data H1 H2 H3) as (bytes & -> & E). Qed.

(** ** One call *)

(** Positions are 64-bit in the entries; the bytes of a name are bytes. *)
Definition byte_name (e : DirEntry) : Prop := Forall (fun b => 0 <= b <= 255) (de_name e).

Lemma dirents_bytes pos l : Forall byte_name l -> Forall (fun b => 0 <= b <= 255) (dirents pos l).
Proof.
  intros H. revert pos. induction H as [|e l He _ IH]; intros pos; cbn [dirents]; [constructor|]. apply Forall_app. split; [|apply IH].
  destruct (dirent_split e (pos + 1)) as (pad & -> & _). rewrite !Forall_app. split; [apply le_bytes_bytes|]. split; [apply le_bytes_bytes|]. split; [apply le_bytes_bytes|].
  split; [constructor; [by destruct (de_kind e)|constructor]|]. split; [done|]. unfold zeros. apply Forall_replicate. lia.
Qed.

(** An open directory at a position. *)
Record open_dir st (pid : Z) (n : nat) (id : nat) (f : Vfs.OpenFile I) (l : list DirEntry) : Prop := {
  od_file : Vfs.get_file (fs st) pid n = Ok (id, f);
  od_kind : i_kind (Vfs.world (fs st)) (Vfs.of_inode f) = KDirectory;
  od_entries : i_entries (Vfs.world (fs st)) (Vfs.of_inode f) = Ok l;
  od_valid : Forall valid_entry l;
  od_bytes : Forall byte_name l;
  od_offset : 0 <= Vfs.of_offset f
}.

Lemma get_file_set (x : Vfs.Fs W I) pid n id f g : Vfs.get_file x pid n = Ok (id, f) -> Vfs.get_file (Vfs.set_file x id g) pid n = Ok (id, g).
Proof.
  unfold Vfs.get_file. change (Vfs.table (Vfs.set_file x id g) pid) with (Vfs.table x pid). destruct (FileTable.get (Vfs.table x pid) n) as [k|]; [|done].
  destruct (Vfs.files x !! k) eqn:E; cbn; [|done]. intros [= -> _]. by rewrite lookup_insert_eq.
Qed.

Lemma getdents_call st pid n id f l buf : (Z.of_nat n < 2 ^ 32) -> open_dir st pid n id f l -> writable_buffer (user st) buf 4096 ->
  let todo := drop (Z.to_nat (Vfs.of_offset f)) l in
  exists l1 l2 st', todo = l1 ++ l2 /\ (l1 = [] -> todo = []) /\
    raw_into pid Nr.GETDENTS64 (Z.of_nat n) buf st 4096 = (len (dirents (Vfs.of_offset f) l1), contents buf 4096 st', st') /\
    take (length (dirents (Vfs.of_offset f) l1)) (contents buf 4096 st') = dirents (Vfs.of_offset f) l1 /\
    open_dir st' pid n id (Vfs.with_offset f (Vfs.of_offset f + Z.of_nat (length l1))) l /\ writable_buffer (user st') buf 4096 /\ len (dirents (Vfs.of_offset f) l1) <= 4096.
Proof.
  intros Hn [Hf Hk He Hv Hb Ho] Hw todo. set (pos := Vfs.of_offset f) in *.
  destruct (offer_progress 4096 todo pos ltac:(lia)) as (l1 & l2 & El & Eo & Hp & Hlen). { by apply Forall_drop. }
  pose proof Hw as (H1 & H2 & _ & H4).
  assert (Hb1 : Forall (fun b => 0 <= b <= 255) (dirents pos l1)). { apply dirents_bytes. apply (Forall_drop _ (Z.to_nat pos)) in Hb. fold todo in Hb. rewrite El in Hb. apply Forall_app in Hb as [Hb _]. exact Hb. }
  assert (Hok : fst (um_write (user st) buf (dirents pos l1)) = Ok ()) by (apply H4; [by intros x|done|done]).
  set (st' := mkState (Vfs.set_file (fs st) id (Vfs.with_offset f (pos + Z.of_nat (length l1)))) (snd (um_write (user st) buf (dirents pos l1)))).
  exists l1, l2, st'. split; [done|]. split; [done|]. split.
  { unfold raw_into, sys, dispatch. cbn [Z.eqb Nr.GETDENTS64 Nr.EXIT Nr.EXIT_GROUP orb Pos.eqb]. unfold handle.
    assert (Eh : getdents64 pid (Z.of_nat n) buf 4096 st = Some (Ok (len (dirents pos l1)), st')).
    { unfold getdents64, bind, lift, fd. rewrite (proj2 (Z.ltb_lt _ _) Hn), Nat2Z.id. change (Z.min 4096 MAX_TRANSFER) with 4096.
      rewrite (proj2 (check_range_Ok buf 4096 H1 ltac:(lia)) H2). cbn. unfold Vfs.readdir_with. rewrite Hf, Hk, He, bool_decide_true by done. cbn. fold pos todo. rewrite Eo. cbn.
      unfold mem_write, act. cbn. destruct (um_write (user st) buf (dirents pos l1)) as [r u] eqn:Eu. cbn in Hok. subst r. unfold st'. rewrite ?Eu. done. }
    cbn [Nr.READ Nr.WRITE Nr.OPEN Nr.CLOSE Nr.STAT Nr.FSTAT Nr.LSEEK Nr.MMAP Nr.MPROTECT Nr.MUNMAP Nr.BRK Nr.IOCTL Nr.ARCH_PRCTL Nr.GETPID Nr.GETPPID Nr.DUP Nr.DUP2 Nr.FORK Nr.EXECVE Nr.GETCWD Nr.CHDIR Nr.WAIT4 Nr.RENAME Nr.MKDIR Nr.RMDIR Nr.UNLINK Nr.GETDENTS64 Z.eqb Pos.eqb].
    rewrite Eh. unfold encode_result. rewrite signed64_small; [done|]. pose proof (len_nonneg (dirents pos l1)). lia. }
  split; [apply contents_take; [done|lia|done]|]. split; [|split; [eapply writable_kept; [exact Hw|apply write_rights]|done]].
  split; [by eapply get_file_set|exact Hk|exact He|done|done|cbn; lia].
Qed.

Lemma parse_taken pos l : Forall valid_entry l -> parse_dirents (length (dirents pos l)) (dirents pos l) = map user_entry l.
Proof.
  intros Hv. destruct l as [|e l]; [done|]. apply parse_dirents_spec; [done|].
  assert (H : forall p k, Forall valid_entry k -> (length k <= length (dirents p k))%nat).
  { intros p k. revert p. induction k as [|x k IH]; intros p Hk; cbn [dirents length]; [done|]. apply Forall_cons in Hk as [(_ & _ & Hx) Hk]. apply dirent_size_bounds in Hx.
    rewrite length_app. pose proof (length_dirent x (p + 1)) as Hd. pose proof (len_nonneg (de_name x)). unfold len in Hd. specialize (IH (p + 1) Hk). lia. }
  cbn [dirents length]. rewrite length_app. apply Forall_cons in Hv as [(_ & _ & He) Hv]. apply dirent_size_bounds in He. pose proof (length_dirent e (pos + 1)) as Hd.
  pose proof (len_nonneg (de_name e)). unfold len in Hd. specialize (H (pos + 1) l Hv). lia.
Qed.

(** The library's loop lists what is left of the directory. *)
Lemma read_dir_spec pid n id l buf : Z.of_nat n < 2 ^ 32 -> forall fuel st f entries,
  open_dir st pid n id f l -> writable_buffer (user st) buf 4096 -> (length (drop (Z.to_nat (Vfs.of_offset f)) l) < fuel)%nat ->
  exists st', read_dir_loop (raw_into pid Nr.GETDENTS64 (Z.of_nat n) buf) fuel entries st = Some (Ok (entries ++ map user_entry (drop (Z.to_nat (Vfs.of_offset f)) l)), st').
Proof.
  intros Hn. induction fuel as [|fuel IH]; intros st f entries Hd Hw Hf; [lia|]. cbn [read_dir_loop].
  destruct (getdents_call st pid n id f l buf Hn Hd Hw) as (l1 & l2 & st1 & El & Hnil & -> & Ht & Hd1 & Hw1 & Hlen). pose proof (len_nonneg (dirents (Vfs.of_offset f) l1)).
  rewrite check_count by lia. assert (Hv : Forall valid_entry l1). { pose proof (od_valid _ _ _ _ _ _ Hd) as Hv. apply (Forall_drop _ (Z.to_nat (Vfs.of_offset f))) in Hv. rewrite El in Hv. apply Forall_app in Hv as [Hv _]. exact Hv. }
  destruct (Z.eqb_spec (len (dirents (Vfs.of_offset f) l1)) 0) as [Hz|Hz].
  - exists st1. destruct l1 as [|e l1].
    + rewrite (Hnil eq_refl). by rewrite app_nil_r.
    + exfalso. cbn [dirents] in Hz. rewrite len_app, length_dirent in Hz. apply Forall_cons in Hv as [(_ & _ & He) _]. apply dirent_size_bounds in He.
      pose proof (len_nonneg (dirents (Vfs.of_offset f + 1) l1)). pose proof (len_nonneg (de_name e)). lia.
  - destruct (Z.gtb_spec (len (dirents (Vfs.of_offset f) l1)) 4096); [lia|].
    replace (Z.to_nat (len (dirents (Vfs.of_offset f) l1))) with (length (dirents (Vfs.of_offset f) l1)) by (unfold len; lia). rewrite Ht, parse_taken by done.
    assert (Hne : l1 <> []) by (by intros ->). pose proof (od_offset _ _ _ _ _ _ Hd) as Ho.
    assert (Edrop : drop (Z.to_nat (Vfs.of_offset f + Z.of_nat (length l1))) l = l2).
    { replace (Z.to_nat (Vfs.of_offset f + Z.of_nat (length l1))) with (Z.to_nat (Vfs.of_offset f) + length l1)%nat by lia. rewrite <- drop_drop, El. apply drop_app_length. }
    destruct (IH st1 _ (entries ++ map user_entry l1) Hd1 Hw1) as (st' & E). { cbn [Vfs.of_offset Vfs.with_offset]. rewrite Edrop. rewrite El, length_app in Hf. destruct l1; [done|simpl in Hf; lia]. }
    exists st'. rewrite E. cbn [Vfs.of_offset Vfs.with_offset]. rewrite Edrop, El, map_app. by rewrite app_assoc.
Qed.
End Dir.
End SyscallDir.

(** * Reading and writing through the system calls

    [read] moves the file's position by exactly what reached the program, and
    [write] passes on exactly the program's bytes. *)

Module SyscallIo.
Import Abi AbiSpec Uaccess Syscall SyscallSpec VfsSpec UserLib UserLibSpec SyscallDir.

Section Io.
Context {W I U : Type} `{!Inodes W I} `{!InodeLaws W I} `{!DeviceInodes W I} `{!TransferLaws W I} `{!UserMemory U} {HU : UserMemoryLaws U} `{!ProcessOps (State W I U)}.
Implicit Types (st : State W I U).
(** Reading does not make a file a stream. *)
Context (Hseek : forall (w : W) (i : I) o n, i_seekable (snd (i_read_at w i o n)) i = i_seekable w i).

(** What a program finds in memory. *)
Definition memory_holds (u : U) (a : Z) (bytes : list Z) : Prop := forall i b, bytes !! i = Some b -> um_byte u (a + Z.of_nat i) = Some b.

Lemma set_file_same x pid n id f : Vfs.get_file x pid n = Ok (id, f) -> Vfs.get_file (W := W) (I := I) x pid n = Ok (id, Vfs.with_offset f (Vfs.of_offset f)).
Proof. intros ->. by destruct f. Qed.

(** The position after [lseek] back over what was read. *)
Lemma lseek_back (x : Vfs.Fs W I) pid n id f k :
  Vfs.get_file x pid n = Ok (id, f) -> i_seekable (Vfs.world x) (Vfs.of_inode f) = true -> 0 <= k <= Vfs.of_offset f -> Vfs.of_offset f <= Vfs.I64_MAX ->
  Vfs.lseek x pid n (- k) SeekCurrent = (Ok (Vfs.of_offset f - k), Vfs.set_file x id (Vfs.with_offset f (Vfs.of_offset f - k))).
Proof.
  intros Hf Hs Hk Ho. unfold Vfs.lseek. rewrite Hf, Hs. cbn [negb]. unfold Vfs.as_i64. rewrite (proj2 (Z.leb_le _ _)) by done. unfold Vfs.checked_add_i64.
  unfold Vfs.I64_MAX in *. rewrite (proj2 (Z.leb_le _ _)), (proj2 (Z.leb_le _ _)) by lia. cbn [andb]. destruct (Z.ltb_spec (Vfs.of_offset f + - k) 0); [lia|]. by rewrite Z.add_opp_r.
Qed.

Lemma sys_read_spec st pid n id f buf count r st' :
  fs_inv (fs st) -> Z.of_nat n < 2 ^ 32 -> 0 <= buf -> 0 <= count -> Vfs.get_file (fs st) pid n = Ok (id, f) ->
  i_seekable (Vfs.world (fs st)) (Vfs.of_inode f) = true -> Vfs.of_offset f + MAX_TRANSFER <= Vfs.I64_MAX ->
  read pid (Z.of_nat n) buf count st = Some (r, st') ->
  match r with
  | Err _ => Vfs.get_file (fs st') pid n = Ok (id, f)
  | Ok v => exists bytes w, i_read_at (Vfs.world (fs st)) (Vfs.of_inode f) (Vfs.of_offset f) (Z.min count MAX_TRANSFER) = (Ok bytes, w) /\ v = len bytes /\
      Vfs.get_file (fs st') pid n = Ok (id, Vfs.with_offset f (Vfs.of_offset f + v)) /\ (Forall (fun b => 0 <= b <= 255) bytes -> memory_holds (user st') buf bytes)
  end.
Proof.
  intros Hi Hn Hb Hc Hf Hs Hmax. set (c := Z.min count MAX_TRANSFER). assert (Hcb : 0 <= c <= MAX_TRANSFER) by (unfold c, MAX_TRANSFER; lia).
  unfold read, bind, lift, fd. rewrite (proj2 (Z.ltb_lt _ _) Hn), Nat2Z.id. fold c. destruct (check_range buf c) as [[]|e]; [|by intros [= <- <-]].
  unfold on_fs, act, Vfs.read. rewrite Hf. destruct (negb (Flags.contains _ _)); [by intros [= <- <-]|]. destruct (bool_decide _); [by intros [= <- <-]|].
  pose proof (Hseek (Vfs.world (fs st)) (Vfs.of_inode f) (Vfs.of_offset f) c) as Hsk. destruct (i_read_at _ _ _ c) as [[bytes|e] w] eqn:Er; [|by intros [= <- <-]]. cbn [snd] in Hsk.
  assert (Hl : len bytes <= c) by (eapply law_read_count; [|exact Er]; lia). pose proof (len_nonneg bytes).
  set (g := Vfs.with_offset f (Vfs.of_offset f + len bytes)). set (x1 := Vfs.set_file (Vfs.set_world (fs st) w) id g).
  assert (Hg : Vfs.get_file x1 pid n = Ok (id, g)) by (by eapply get_file_set). unfold mem_write, act. cbn [user with_fs fs].
  destruct (um_write (user st) buf bytes) as [[[]|e] u] eqn:Eu.
  - intros [= <- <-]. cbn [fs with_user user]. exists bytes, w. split; [done|]. split; [done|]. split; [done|]. intros Hby i b Hib.
    assert (Hok : fst (um_write (user st) buf bytes) = Ok ()) by (by rewrite Eu). pose proof (um_write_bytes (user st) buf bytes (buf + Z.of_nat i) Hby Hok) as Hw. rewrite Eu in Hw. cbn [snd] in Hw. rewrite Hw.
    pose proof (lookup_lt_Some _ _ _ Hib). destruct (Z.leb_spec buf (buf + Z.of_nat i)); [|lia]. destruct (Z.ltb_spec (buf + Z.of_nat i) (buf + len bytes)); [|unfold len in *; lia].
    cbn [andb]. by replace (Z.to_nat (buf + Z.of_nat i - buf)) with i by lia.
  - pose proof (v_offset _ Hi id f (proj1 (get_file_Some _ _ _ _ _ Hf))) as Hpos. unfold give_back. cbn [fs with_user with_fs]. fold g. fold x1.
    unfold MAX_TRANSFER in *. rewrite (lseek_back x1 pid n id g (len bytes) Hg) by (try (unfold g; cbn; lia); by rewrite <- Hs, <- Hsk). intros [= <- <-].
    cbn [fs with_fs]. rewrite (get_file_set _ pid n id g) by done. unfold g. cbn. do 2 f_equal. destruct f. cbn. unfold Vfs.with_offset. cbn. f_equal. lia.
Qed.

Lemma sys_write_spec st pid n buf count r st' :
  Z.of_nat n < 2 ^ 32 -> 0 <= buf -> 0 <= count -> write pid (Z.of_nat n) buf count st = Some (r, st') ->
  (r = Err EFAULT /\ st' = st) \/
  exists data, memory_holds (user st) buf data /\ len data = Z.min count MAX_TRANSFER /\ Vfs.write (fs st) pid n data = (r, fs st') /\ user st' = user st.
Proof.
  intros Hn Hb Hc. set (c := Z.min count MAX_TRANSFER). assert (Hcb : 0 <= c) by (unfold c, MAX_TRANSFER; lia).
  unfold write, bind, lift, fd. rewrite (proj2 (Z.ltb_lt _ _) Hn), Nat2Z.id. fold c. destruct (check_range buf c) as [[]|e] eqn:Ec.
  2: { intros [= <- <-]. left. split; [|done]. f_equal. unfold check_range in Ec. destruct (checked_add _ _); [destruct (_ >? _)|]; congruence. }
  unfold mem_read. destruct (um_read (user st) buf c) as [data|e] eqn:Er.
  2: { intros [= <- <-]. left. split; [|done]. f_equal. by eapply um_read_err. }
  apply um_read_ok in Er as (_ & Hl & Hh); [|done..]. unfold on_fs, act. destruct (Vfs.write (fs st) pid n data) as [r0 x] eqn:Ew. intros [= <- <-]. right. by exists data.
Qed.
End Io.
End SyscallIo.
