(* ===== verification/SyscallClaims.v ===== *)
(** * SyscallClaims: what a program can rely on

    A small program memory and process side that compute ([SmallProcess]), and
    the theorems about system calls with runs on them as witnesses. *)

From stdpp Require Import base gmap numbers list.
From S2P Require Import Prelude Errno Text Inode FileTable Vfs VfsSpec Vma Abi Uaccess Syscall SyscallSpec FsTree Ramfs RamfsInv PseudoFs World FsClaims UserLib.
Local Open Scope Z_scope.

(** * A program memory and a process side that compute

    One writable range of user memory, a current directory, no children, no
    memory calls and a clock that stands still: instances of [UserMemory] and
    [ProcessOps] with their laws, to run system calls on. *)

Module SmallProcess.
Import Abi Uaccess Syscall SyscallSpec VfsSpec.

Definition BASE : Z := 65536.
Definition LIMIT : Z := 131072.

Record Program : Type := mkProgram { cells : Z -> Z; dir : list Z }.

Definition mapped (a : Z) : bool := (BASE <=? a) && (a <? LIMIT).
Definition byte_at (p : Program) (a : Z) : option Z := if mapped a then Some (cells p a mod 256) else None.
Definition addresses (a : Z) (n : nat) : list Z := map (fun i => a + Z.of_nat i) (seq 0 n).

Definition area_read (p : Program) (a n : Z) : result Errno (list Z) :=
  match check_range a n with
  | Err e => Err e
  | Ok _ => match mapM (byte_at p) (addresses a (Z.to_nat n)) with Some bytes => Ok bytes | None => Err EFAULT end
  end.

Definition store (p : Program) (a : Z) (data : list Z) : Program :=
  mkProgram (fun x => if (a <=? x) && (x <? a + len data) then default 0 (data !! Z.to_nat (x - a)) else cells p x) (dir p).
Definition area_write (p : Program) (a : Z) (data : list Z) : result Errno unit * Program :=
  match check_range a (len data) with
  | Err e => (Err e, p)
  | Ok _ => if forallb mapped (addresses a (length data)) then (Ok (), store p a data) else (Err EFAULT, p)
  end.

#[global] Instance area_memory : UserMemory Program := { um_read := area_read; um_write := area_write }.

Lemma mapped_spec a : mapped a = true <-> BASE <= a < LIMIT.
Proof. unfold mapped. rewrite andb_true_iff, Z.leb_le, Z.ltb_lt. done. Qed.
Lemma byte_at_None p a : byte_at p a = None <-> mapped a = false.
Proof. unfold byte_at. by destruct (mapped a). Qed.

Lemma mapM_addresses p a n bytes : mapM (byte_at p) (addresses a n) = Some bytes <->
  length bytes = n /\ forall i b, bytes !! i = Some b -> byte_at p (a + Z.of_nat i) = Some b.
Proof.
  rewrite mapM_Some, Forall2_lookup. unfold addresses. split.
  - intros H. assert (Hl : length bytes = n).
    { apply Nat.le_antisymm; apply Nat.nlt_ge; intros Hn.
      - pose proof (H n) as H1. destruct (lookup_lt_is_Some_2 bytes n Hn) as [b Hb]. rewrite Hb, lookup_ge_None_2 in H1 by (rewrite length_map, length_seq; lia). inversion H1.
      - pose proof (H (length bytes)) as H1. rewrite (lookup_ge_None_2 bytes) in H1 by lia. rewrite list_lookup_fmap, lookup_seq_lt in H1 by done. inversion H1. }
    split; [done|]. intros i b Hb. specialize (H i). rewrite Hb in H. inversion H as [x y Hxy Ex|]. subst y. rewrite list_lookup_fmap in Ex.
    rewrite lookup_seq_lt in Ex by (rewrite <- Hl; by eapply lookup_lt_Some). cbn in Ex. injection Ex as <-. done.
  - intros [Hl H] i. rewrite list_lookup_fmap. destruct (decide (i < n)%nat) as [Hi|Hi].
    + rewrite lookup_seq_lt by done. destruct (lookup_lt_is_Some_2 bytes i ltac:(lia)) as [b Hb]. rewrite Hb. constructor. by apply H.
    + rewrite lookup_ge_None_2 by (rewrite length_seq; lia). rewrite lookup_ge_None_2 by lia. constructor.
Qed.

Lemma forallb_addresses a n : forallb mapped (addresses a n) = true <-> forall i, (i < n)%nat -> mapped (a + Z.of_nat i) = true.
Proof.
  rewrite forallb_forall. unfold addresses. split.
  - intros H i Hi. apply H, in_map_iff. exists i. split; [done|]. apply in_seq. lia.
  - intros H x (i & <- & Hi%in_seq)%in_map_iff. apply H. lia.
Qed.

Lemma check_range_err a n e : check_range a n = Err e -> e = EFAULT.
Proof. unfold check_range. destruct (checked_add a n); [case_if|]; congruence. Qed.

Lemma area_pages a a' : 0 <= a -> 0 <= a' -> a / PAGE_SIZE = a' / PAGE_SIZE -> mapped a = mapped a'.
Proof.
  unfold PAGE_SIZE. intros Ha Ha' He. apply eq_true_iff_eq. rewrite !mapped_spec. unfold BASE, LIMIT.
  Z.to_euclidean_division_equations. lia.
Qed.

#[global] Instance area_laws : UserMemoryLaws Program.
Proof.
  refine {| um_byte := byte_at; um_writable := fun _ => mapped |}.
  - intros p a b. unfold byte_at. destruct (mapped a) eqn:E; [|done]. intros [= <-]. apply mapped_spec in E. unfold BASE, LIMIT, USER_TOP in *.
    pose proof (Z.mod_pos_bound (cells p a) 256 ltac:(lia)). lia.
  - intros p a a' Ha Ha' He. rewrite !byte_at_None. by rewrite (area_pages a a').
  - intros p a n bytes Ha Hn. cbn. unfold area_read. destruct (check_range a n) as [[]|e].
    + destruct (mapM _ _) as [bs|] eqn:E.
      * apply mapM_addresses in E as [E1 E2]. split; [intros [= <-]; split; [done|]; split; [unfold len; lia|done]|]. intros (_ & Hl & Hb). f_equal.
        assert (Some bs = Some bytes) as [= ->]; [|done]. rewrite <- (proj2 (mapM_addresses p a (Z.to_nat n) bytes)) by (unfold len in Hl; split; [lia|done]).
        symmetry. apply mapM_addresses. by split.
      * split; [done|]. intros (_ & Hl & Hb). rewrite (proj2 (mapM_addresses p a (Z.to_nat n) bytes)) in E; [done|]. unfold len in Hl. split; [lia|done].
    + split; [done|]. by intros [? _].
  - intros p a n e. cbn. unfold area_read. destruct (check_range a n) as [[]|e'] eqn:E; [by destruct (mapM _ _); congruence|]. intros [= <-]. by eapply check_range_err.
  - intros p a. unfold byte_at. by intros ->.
  - intros p a data Ha. cbn. unfold area_write. destruct (check_range _ _) as [[]|e]; [|done]. destruct (forallb _ _) eqn:E; [|done]. intros _. split; [done|].
    rewrite forallb_addresses in E. intros i Hi. specialize (E (Z.to_nat i)). rewrite Z2Nat.id in E by lia. apply E. unfold len in Hi. lia.
  - intros p a data e. cbn. unfold area_write. destruct (check_range _ _) as [[]|e'] eqn:E; [by destruct (forallb _ _); intros [= <-]|]. intros [= <-]. by eapply check_range_err.
  - intros p a data x Hb. cbn. unfold area_write. destruct (check_range _ _) as [[]|e]; [|done]. destruct (forallb _ _) eqn:E; [|done]. intros _. cbn [snd]. unfold byte_at, store. cbn [cells].
    destruct (_ && _) eqn:Ex; [|done]. apply andb_true_iff in Ex as [H1%Z.leb_le H2%Z.ltb_lt]. rewrite forallb_addresses in E. unfold len in H2.
    specialize (E (Z.to_nat (x - a)) ltac:(lia)). rewrite Z2Nat.id, Zplus_minus in E by lia. rewrite E. destruct (lookup_lt_is_Some_2 data (Z.to_nat (x - a)) ltac:(lia)) as [b Hx]. rewrite Hx. cbn. f_equal.
    rewrite Forall_lookup in Hb. specialize (Hb _ _ Hx). cbn in Hb. apply Z.mod_small. lia.
  - intros p a data x Hx. cbn. unfold area_write. destruct (check_range _ _) as [[]|e]; [|done]. destruct (forallb _ _); [|done]. cbn [snd]. unfold byte_at, store. cbn [cells].
    destruct (_ && _) eqn:Ex; [|done]. apply andb_true_iff in Ex as [H1%Z.leb_le H2%Z.ltb_lt]. lia.
  - intros p a data x. split; [done|]. by rewrite !byte_at_None.
Defined.

(** ** The process side *)

Section Process.
Context {W I : Type}.
Implicit Types (st : State W I Program).

#[global] Instance small_process : ProcessOps (State W I Program) := {
  getpid _ := 1;
  getppid _ := 0;
  wait st _ _ := (Err ECHILD, st);
  fork st := (Err ENOMEM, st);
  p_execve st _ _ _ := (Err ENOEXEC, st);
  cwd st := dir (user st);
  set_cwd st p := with_user st (mkProgram (cells (user st)) p);
  p_brk st _ := (LIMIT, st);
  p_mmap st _ _ _ _ := (Err ENOMEM, st);
  p_mmap_device st _ _ _ _ _ := (Err ENOMEM, st);
  p_munmap st _ _ := (Err EINVAL, st);
  p_mprotect st _ _ _ := (Err EINVAL, st);
  set_fs_base st _ := st;
  fs_base _ := 0;
  monotonic_ns st := (1000, st);
  realtime_ns st := (None, st);
  sleep_until_ns st _ := st
}.

Context `{!Inodes W I} `{!InodeLaws W I}.

#[global] Instance small_process_laws : DirectoryLaws (W := W) (I := I) (U := Program).
Proof.
  split; intros; cbn in *; [done|done|]. unfold area_write. destruct (check_range _ _) as [[]|]; [|done]. by destruct (forallb _ _).
Qed.
End Process.
End SmallProcess.

(** * What a program can rely on

    The theorems about system calls and the library on top of them, with the
    kernel's filesystems as the inodes, and a small program memory and process
    side to show the theorems at work. *)

Module SyscallClaims.
Import Abi AbiSpec Uaccess Syscall SyscallSpec VfsSpec UserLib UserLibSpec SyscallDir SyscallIo.

(** ** The kernel's filesystems *)

Section Devices.
Context {C : Type} `{!Machine C}.

#[global] Instance world_devices : DeviceInodes (World.World C) (World.Handle C) := {
  i_is_terminal _ i := match i with World.HDev n => DevFs.is_terminal (DevFs.device n) | _ => false end;
  i_ioctl_out _ _ _ := Ok None;
  i_ioctl w _ _ value := (Err ENOTTY, value, w);
  i_mmap _ _ _ _ := Err ENODEV
}.

(** A console does not return more than it was asked for. *)
Class PoliteConsole : Prop := console_polite : forall (c : C) n, 0 <= n -> len (fst (console_read c n)) <= n.

Lemma world_read_count `{!PoliteConsole} (w : World.World C) i o n bytes w' : 0 <= n -> World.read_at w i o n = (Ok bytes, w') -> len bytes <= n.
Proof.
  intros Hn. destruct i as [fsid ino|fsid|node|d|f]; cbn [World.read_at]; try done.
  - unfold World.in_ram. destruct (World.ram w !! fsid) as [st|]; [|done]. unfold Ramfs.read_at. destruct (Ramfs.nodes st !! ino) as [[data|]|]; [|done..].
    case_if; intros [= <- _]; unfold len; [done|]. rewrite length_take. lia.
  - destruct (DevFs.device node); cbn [DevFs.read_at]; try done.
    + by intros [= <- _].
    + intros [= <- _]. rewrite len_replicate. lia.
    + destruct (negb has_rdrand); [done|]. pose proof (DevFs.fill_urandom_spec next_word (Z.to_nat n) n [] (World.console w)) as Hu.
      specialize (Hu ltac:(unfold len; simpl; lia) ltac:(unfold len; simpl length; lia)). destruct (DevFs.fill_urandom _ _ _ _) as [[out|e] c]; [|done]. intros [= <- _]. apply Hu.
    + pose proof (console_polite (World.console w) n Hn) as Hu. destruct (console_read (World.console w) n) as [bs c]. intros [= <- _]. exact Hu.
  - intros [= <- _]. unfold ProcFs.read_at. case_if; [|done]. unfold len. rewrite length_take. lia.
Qed.

#[global] Instance world_transfer `{!PoliteConsole} : TransferLaws (World.World C) (World.Handle C).
Proof.
  split.
  - intros w i o n bytes w' Hn. by apply world_read_count.
  - intros w i o buf n w'. cbn. destruct i as [fsid ino|fsid|node|d|f]; cbn [World.write_at]; try done.
    + unfold World.on_ram. destruct (World.ram w !! fsid) as [st|]; [|done]. destruct (Ramfs.write_at _ _ _ _ _) as [r st'] eqn:E. intros [= -> _]. apply Stable.write_count in E. lia.
    + unfold DevFs.write_at. case_if; [done|]. by intros [= <- _].
  - intros w l i request value Hw. cbn. done.
Qed.
End Devices.

(** ** Claims *)

Section Claims.
Context {W I U : Type} `{!Inodes W I} `{!InodeLaws W I} `{!DeviceInodes W I} `{!TransferLaws W I} `{!UserMemory U} {HU : UserMemoryLaws U} `{!ProcessOps (State W I U)} {HD : DirectoryLaws (W := W) (I := I) (U := U)}.
Implicit Types (st : State W I U).

(** Each outcome is what the handler of its call returned. *)
Fixpoint all_faithful (ts : list Trap) (os : list Outcome) (m : Computer) : Prop :=
  match ts, os with
  | [], [] => True
  | t :: ts, o :: os => faithful t (running m (t_pid t)) o /\ match machine_trap t m with Some (_, m) => all_faithful ts os m | None => False end
  | _, _ => False
  end.

(** C11. No call on files panics the kernel, whatever numbers, pointers and sizes
    any processes pass in whatever order: every number but those of [PROCESS_CALLS]
    (memory, processes and time), unknown ones too.  Each process has its own memory
    and current directory; the files stay sound and every current directory a normal
    path, and the library's [check] tells each program exactly what its call
    returned, a value or an error. *)
Theorem syscalls_sound ts (m : Computer) :
  machine_ok m -> Forall args_ok ts -> Forall file_call ts ->
  exists os m', traps ts m = Some (os, m') /\ machine_ok m' /\ all_faithful ts os m.
Proof.
  intros Hm Hts Hfs. revert m Hm. induction Hts as [|t ts Ht _ IH]; intros m Hm; cbn [traps]; [by exists [], m|]. apply Forall_cons in Hfs as [Hf Hfs].
  destruct (machine_trap_ok t m Hm Ht Hf) as (o & m1 & E & Hm1 & Hfa). destruct (IH Hfs m1 Hm1) as (os & m2 & E2 & Hm2 & Hall). rewrite E, E2.
  exists (o :: os), m2. split; [done|]. split; [done|]. cbn [all_faithful]. by rewrite E.
Qed.

(** C12. Listing a directory through the library, the system call and the VFS
    returns exactly the directory's entries, each once, with names and types,
    in order, however many buffers it takes. *)
Theorem read_dir_exact st pid n id f l buf :
  Z.of_nat n < 2 ^ 32 -> open_dir st pid n id f l -> Vfs.of_offset f = 0 -> writable_buffer (user st) buf 4096 ->
  exists st', read_dir_loop (raw_into pid Nr.GETDENTS64 (Z.of_nat n) buf) (S (length l)) [] st = Some (Ok (map user_entry l), st').
Proof.
  intros Hn Hd Ho Hw. destruct (read_dir_spec pid n id l buf Hn (S (length l)) st f [] Hd Hw) as (st' & E); [rewrite Ho; change (Z.to_nat 0) with 0%nat; rewrite drop_0; lia|].
  exists st'. by rewrite E, Ho.
Qed.

(** A [read] that succeeds has moved the file's position by exactly the
    bytes that are now in the program's buffer, and those are the file's; a
    [read] that fails, for whatever reason, has not moved it. *)
Theorem read_moves_by_what_arrives st pid n id f buf count r st' :
  (forall (w : W) (i : I) o k, i_seekable (snd (i_read_at w i o k)) i = i_seekable w i) ->
  state_ok st -> Z.of_nat n < 2 ^ 32 -> 0 <= buf -> 0 <= count -> Vfs.get_file (fs st) pid n = Ok (id, f) ->
  i_seekable (Vfs.world (fs st)) (Vfs.of_inode f) = true -> Vfs.of_offset f + MAX_TRANSFER <= Vfs.I64_MAX ->
  read pid (Z.of_nat n) buf count st = Some (r, st') ->
  match r with
  | Err _ => Vfs.get_file (fs st') pid n = Ok (id, f)
  | Ok v => exists bytes w, i_read_at (Vfs.world (fs st)) (Vfs.of_inode f) (Vfs.of_offset f) (Z.min count MAX_TRANSFER) = (Ok bytes, w) /\ v = len bytes /\
      Vfs.get_file (fs st') pid n = Ok (id, Vfs.with_offset f (Vfs.of_offset f + v)) /\ (Forall (fun b => 0 <= b <= 255) bytes -> memory_holds (user st') buf bytes)
  end.
Proof. intros Hs [Hi _]. by apply sys_read_spec. Qed.

(** A path or argument string is what the program's memory holds byte by
    byte up to its NUL: too long, not readable and not text are told apart as
    in reading byte by byte, although the kernel reads in chunks. *)
Theorem read_cstr_is_c_string (m : U) a max :
  0 <= a -> 0 <= max < U64_MAX -> read_cstr m a max = Some (text_or_einval (c_string (Z.to_nat max) m a)).
Proof. apply read_cstr_spec. Qed.
End Claims.

(** Programs read what the kernel encodes: sizes, numbers and types of
    files, exit codes and signals of children, and times in both
    directions. *)
Theorem abi_roundtrip stat status t :
  valid_stat stat -> -127 <= status -> is_u64 t ->
  decode_stat (encode_stat stat) = mkMetadata (user_type (st_kind stat)) (st_size stat) (st_ino stat) /\
  (exited_with (exit_status_word status), killed_by (exit_status_word status)) = wait_result status /\
  nanos (encode_timespec t) = t /\ decode_timespec (from_nanos t) = Ok t.
Proof. intros Hs Hc Ht. split; [by apply stat_roundtrip|]. split; [by apply status_roundtrip|]. by apply timespec_roundtrip. Qed.

(** The days of the calendar are counted from 1970 one by one, through all
    months and leap years, before and after. *)
Theorem calendar_exact : days_from_civil 1970 1 1 = 0 /\
  forall year month day, valid_date year month day ->
    let '(y, m, d) := next_date year month day in valid_date y m d /\ days_from_civil y m d = days_from_civil year month day + 1.
Proof. split; [done|]. apply next_day. Qed.

(** Lines read from any file that delivers its bytes in pieces of any sizes
    are the lines of its contents: nothing lost, nothing split, each ending at
    its newline. *)
Theorem lines_exact {S E : Type} (read : S -> Z -> result E (list Z) * S) (stream : S -> list Z) s :
  (forall s n, 0 < n -> exists bytes s', read s n = (Ok bytes, s') /\ stream s = bytes ++ stream s' /\ (bytes = [] -> stream s = [])) ->
  exists ls, read_lines read (Datatypes.S (Datatypes.S (length (stream s)))) (Datatypes.S (length (stream s))) new_reader s = Some ls /\ concat ls = stream s /\ lines_of ls.
Proof. intros Hread. by apply (read_lines_spec read stream Hread); [cbn; lia|lia]. Qed.

(** [write_all] ends; it has written a prefix of the bytes, in order and
    once, and all of them when it reports success. *)
Theorem write_all_exact {S : Type} (raw_write : S -> list Z -> Z * S) (sink : S -> list Z) bytes s :
  takes_some raw_write sink ->
  exists r s' k, write_all raw_write (length bytes) bytes s = Some (r, s') /\ sink s' = sink s ++ take k bytes /\ (r = Ok () -> (length bytes <= k)%nat).
Proof. intros Hw. by apply write_all_spec. Qed.

(** ** The theorems at work

    The filesystem of [FsClaims] with its root open as descriptor 1, and a
    program with the path [/a] in its memory. *)

#[global] Instance quiet_console : PoliteConsole (C := unit).
Proof. intros c n Hn. exact Hn. Qed.

Definition listing : Vfs.Fs (World.World unit) (World.Handle unit) := run_op FsClaims.booted (OOpen 1 ROOT Flags.READ).
Definition program : SmallProcess.Program :=
  SmallProcess.mkProgram (fun a => if a =? 65536 then SLASH else if a =? 65537 then 97 else 0) ROOT.
Definition running : State (World.World unit) (World.Handle unit) SmallProcess.Program := mkState listing program.

Lemma listing_inv : fs_inv listing.
Proof.
  apply (reachable_inv FsClaims.boot_world); [apply FsClaims.fresh_world_ok, FsClaims.boot_world_fresh|].
  apply (reach_op _ FsClaims.booted (OOpen 1 ROOT Flags.READ)); [exact FsClaims.boot_reachable|exact Logic.I].
Qed.
Lemma running_ok : state_ok running.
Proof. split; [exact listing_inv|]. exists []. by split. Qed.

(** Process 1 opens and reads; process 2, whose memory is empty, fails to. *)
Definition open_then_read : list Trap :=
  [mkTrap 1 Nr.OPEN (65536, 0, 0, 0, 0, 0); mkTrap 2 Nr.OPEN (65536, 0, 0, 0, 0, 0); mkTrap 1 Nr.READ (2, 70000, 100, 0, 0, 0); mkTrap 1 Nr.READ (9, 0, 0, 0, 0, 0)].
Definition two_programs : Computer :=
  mkComputer (U := SmallProcess.Program) listing (fun pid => if pid =? 1 then program else SmallProcess.mkProgram (fun _ => 0) ROOT).

Lemma two_programs_ok : machine_ok two_programs.
Proof. intros pid. split; [exact listing_inv|]. exists []. split; [|constructor]. cbn. by destruct (pid =? 1). Qed.

Lemma syscalls_sound_witness : exists os m', traps open_then_read two_programs = Some (os, m') /\ os = [Return 2; Return (-2); Return 3; Return (-9)] /\ machine_ok m'.
Proof.
  destruct (syscalls_sound open_then_read two_programs) as (os & m' & E & Hm & _).
  - exact two_programs_ok.
  - by repeat constructor.
  - repeat constructor; unfold file_call; cbn [t_number]; apply (bool_decide_unpack _); vm_compute; exact Logic.I.
  - exists os, m'. split; [exact E|]. split; [|exact Hm]. apply (f_equal (fmap fst)) in E. vm_compute in E. injection E as <-. reflexivity.
Defined.

Definition root_entries : list DirEntry := match i_entries (Vfs.world listing) (World.HRam 1 1) with Ok l => l | Err _ => [] end.
Definition root_file : Vfs.OpenFile (World.Handle unit) := match Vfs.get_file listing 1 1 with Ok (_, f) => f | Err _ => Vfs.mkOpenFile (World.HRam 0 0) 0 0 end.
Definition root_id : nat := match Vfs.get_file listing 1 1 with Ok (id, _) => id | Err _ => 0%nat end.

Lemma area_buffer (p : SmallProcess.Program) buf size :
  SmallProcess.BASE <= buf -> 0 <= size -> buf + size <= SmallProcess.LIMIT -> writable_buffer p buf size.
Proof.
  unfold SmallProcess.BASE, SmallProcess.LIMIT. intros H1 H2 H3. split; [lia|]. split; [unfold USER_TOP; lia|].
  split; [intros x Hx; apply SmallProcess.mapped_spec; unfold SmallProcess.BASE, SmallProcess.LIMIT; lia|].
  intros p' data _ Hl _. cbn. unfold SmallProcess.area_write. pose proof (len_nonneg data).
  rewrite (proj2 (check_range_Ok buf (len data) ltac:(lia) ltac:(lia))) by (unfold USER_TOP; lia).
  rewrite (proj2 (SmallProcess.forallb_addresses buf (length data))); [done|].
  intros i Hi. apply SmallProcess.mapped_spec. unfold SmallProcess.BASE, SmallProcess.LIMIT, len in *. lia.
Qed.

Lemma root_listed : open_dir running 1 1 root_id root_file root_entries.
Proof.
  assert (E : root_entries = [mkDirEntry [97] 3 KFile; mkDirEntry [100] 2 KDirectory]) by (vm_compute; reflexivity).
  split; try (vm_compute; reflexivity); rewrite ?E.
  - apply Forall_cons_2; [|apply Forall_cons_2; [|constructor]]; (split; [by intros [[=]|Hin%elem_of_nil]%elem_of_cons|by split]).
  - apply Forall_cons_2; [|apply Forall_cons_2; [|constructor]]; (apply Forall_cons_2; [done|constructor]).
  - by vm_compute.
Qed.

Lemma read_dir_exact_witness : exists st',
  read_dir_loop (raw_into 1 Nr.GETDENTS64 1 70000) 3 [] running = Some (Ok [mkUserEntry [97] TFile; mkUserEntry [100] TDirectory], st').
Proof.
  destruct (read_dir_exact running 1 1 root_id root_file root_entries 70000) as (st' & E).
  - reflexivity.
  - exact root_listed.
  - vm_compute. reflexivity.
  - apply area_buffer; unfold SmallProcess.BASE, SmallProcess.LIMIT; lia.
  - exists st'. exact E.
Defined.

(** When the copy to the program fails, [getdents64] has moved past entries it
    did not return: the next call finds the directory at its end. *)
Theorem getdents_fault_skips :
  let r := getdents64 1 1 4096 4096 running in
  fst <$> r = Some (Err EFAULT) /\ (fst <$> (r ≫= fun o => getdents64 1 1 70000 4096 (snd o))) = Some (Ok 0) /\ root_entries <> [].
Proof. by vm_compute. Qed.

(** The file, its position back at its start. *)
Definition rewound : State (World.World unit) (World.Handle unit) SmallProcess.Program := mkState (run_op listing (OSeek 1 0 0 SeekSet)) program.
Definition small_file : Vfs.OpenFile (World.Handle unit) := Vfs.mkOpenFile (World.HRam 1 3) 7 0.

Lemma rewound_ok : state_ok rewound.
Proof.
  split; [|exists []; by split]. apply (reachable_inv FsClaims.boot_world); [apply FsClaims.fresh_world_ok, FsClaims.boot_world_fresh|].
  apply (reach_op _ listing (OSeek 1 0 0 SeekSet)); [|exact Logic.I].
  apply (reach_op _ FsClaims.booted (OOpen 1 ROOT Flags.READ)); [exact FsClaims.boot_reachable|exact Logic.I].
Qed.

(** Three bytes into memory that is there, then into memory that is not. *)
Lemma read_moves_by_what_arrives_witness :
  (exists st', read 1 0 70000 10 rewound = Some (Ok 3, st') /\ Vfs.get_file (fs st') 1 0 = Ok (0%nat, Vfs.with_offset small_file 3)) /\
  (exists st', read 1 0 4096 10 rewound = Some (Err EFAULT, st') /\ Vfs.get_file (fs st') 1 0 = Ok (0%nat, small_file)).
Proof.
  assert (Hs : forall (w : World.World unit) (i : World.Handle unit) o k, i_seekable (snd (i_read_at w i o k)) i = i_seekable w i) by (intros w i o k; by destruct i).
  assert (Hf : Vfs.get_file (fs rewound) 1 0 = Ok (0%nat, small_file)) by (vm_compute; reflexivity).
  split.
  - destruct (read 1 0 70000 10 rewound) as [[r st']|] eqn:E; [|vm_compute in E; discriminate E]. exists st'.
    assert (Er : r = Ok 3) by (apply (f_equal (fmap fst)) in E; vm_compute in E; injection E as <-; reflexivity). subst r. split; [reflexivity|].
    destruct (read_moves_by_what_arrives rewound 1 0 0 small_file 70000 10 (Ok 3) st' Hs rewound_ok eq_refl ltac:(lia) ltac:(lia) Hf eq_refl ltac:(vm_compute; discriminate) E) as (_ & _ & _ & _ & Hg & _).
    exact Hg.
  - destruct (read 1 0 4096 10 rewound) as [[r st']|] eqn:E; [|vm_compute in E; discriminate E]. exists st'.
    assert (Er : r = Err EFAULT) by (apply (f_equal (fmap fst)) in E; vm_compute in E; injection E as <-; reflexivity). subst r. split; [reflexivity|].
    exact (read_moves_by_what_arrives rewound 1 0 0 small_file 4096 10 (Err EFAULT) st' Hs rewound_ok eq_refl ltac:(lia) ltac:(lia) Hf eq_refl ltac:(vm_compute; discriminate) E).
Defined.

Lemma read_cstr_is_c_string_witness : read_cstr program 65536 4095 = Some (Ok [SLASH; 97]).
Proof. rewrite (read_cstr_is_c_string program 65536 4095) by (unfold U64_MAX; lia). vm_compute. reflexivity. Defined.

Lemma abi_roundtrip_witness :
  decode_stat (encode_stat (mkStat 3 0 KFile 100 1)) = mkMetadata TFile 100 3 /\ killed_by (exit_status_word (-9)) = Some 9 /\ nanos (encode_timespec 1500000000) = 1500000000.
Proof.
  destruct (abi_roundtrip (mkStat 3 0 KFile 100 1) (-9) 1500000000) as (H1 & H2 & H3 & _); [by split|lia|by split|].
  split; [exact H1|]. split; [exact (f_equal snd H2)|exact H3].
Defined.

(** A file that hands out two bytes at a time. *)
Definition two_at_a_time (s : list Z) (n : Z) : result Errno (list Z) * list Z := let k := Z.to_nat (Z.min 2 n) in (Ok (take k s), drop k s).
Definition one_at_a_time (s : list Z) (bytes : list Z) : Z * list Z := match bytes with [] => (0, s) | b :: _ => (1, s ++ [b]) end.

Lemma lines_exact_witness : exists ls, read_lines two_at_a_time 7 6 new_reader [1; 2; 3; 10; 4] = Some ls /\ ls = [[1; 2; 3; 10]; [4]].
Proof.
  destruct (lines_exact two_at_a_time (fun s => s) [1; 2; 3; 10; 4]) as (ls & E & _ & _).
  - intros s n Hn. eexists _, _. split; [reflexivity|]. split; [symmetry; apply take_drop|]. intros Ht. destruct s as [|b s]; [reflexivity|].
    assert (exists k, Z.to_nat (Z.min 2 n) = S k) as [k Ek] by (exists (pred (Z.to_nat (Z.min 2 n))); lia). rewrite Ek in Ht. discriminate Ht.
  - exists ls. split; [exact E|]. vm_compute in E. injection E as <-. reflexivity.
Defined.

Lemma write_all_exact_witness : exists s', write_all one_at_a_time 3 [7; 8; 9] [] = Some (Ok (), s') /\ s' = [7; 8; 9].
Proof.
  destruct (write_all_exact one_at_a_time (fun s => s) [7; 8; 9] []) as (r & s' & k & E & Hs & Hk).
  - intros s bytes Hb. destruct bytes as [|b bytes]; [contradiction|]. cbn.
    left. exists 1. pose proof (len_nonneg bytes). unfold len in *. cbn [length]. split; [reflexivity|]. split; [lia|]. split; [lia|reflexivity].
  - exists s'. vm_compute in E. injection E as <- <-. split; reflexivity.
Defined.
End SyscallClaims.
