(* ===== verification/Exec.v ===== *)
(** * Exec: loading a program

    [kernel/src/exec/mod.rs]: [prepare] reads the file through the VFS, plans
    it ([Elf]), builds an address space with its pages and its initial stack
    ([Paging], [ExecStack]) and its memory map ([Vma]); [install_current] puts
    it in the place of the running program. The time stamp counter that seeds
    [AT_RANDOM] is an argument, and so is what the kernel heap answers when
    the space's list grows ([reserve], by page). A panic is [None]. *)

From stdpp Require Import base numbers sets list.
From S2P Require Import Prelude Errno Text Inode Vfs Vma Elf ExecStack Paging UserMemory Uaccess VmaSpec PagingTree PagingOps PagingSpaces PagingCow PagingSteps UserMemorySpec PagingFork UserSystem.
Local Open Scope Z_scope.

Module Exec.
Import Paging UserMemory.

Definition PAGE : Z := Elf.PAGE_SIZE.
Definition USER_STACK_TOP : Z := Uaccess.USER_TOP - PAGE.
Definition USER_STACK_PAGES : Z := 32.
Definition USER_STACK_GUARD : Z := USER_STACK_TOP - (USER_STACK_PAGES + 1) * PAGE.
Definition ARGUMENT_LIMIT : Z := USER_STACK_PAGES * PAGE / 4.
Definition MAX_PROGRAM_SIZE : Z := 64 * 1024 * 1024.

Record PreparedImage : Type := mkImage { space : AddressSpace; image_map : MemoryMap; image_entry : Z; image_stack : Z }.

(** ** The memory map *)

Definition segment_protection (s : Elf.Segment) : Protection := mkProt true (Elf.write (Elf.flags s)) (Elf.execute (Elf.flags s)).
Definition segment_region (s : Elf.Segment) : Region := mkRegion (Elf.start s) (Elf.fin s) (segment_protection s) Image.
Definition stack_bottom : Z := USER_STACK_TOP - USER_STACK_PAGES * PAGE.
Definition stack_region : Region := mkRegion stack_bottom USER_STACK_TOP READ_WRITE Vma.Stack.

(** [Iterator::max]. *)
Definition iter_max (l : list Z) : option Z := match l with [] => None | x :: l => Some (fold_left Z.max l x) end.

Definition memory_map (plan : Elf.LoadPlan) : result Errno MemoryMap :=
  let regions := map segment_region (Elf.segments plan) ++ [stack_region] in
  let brk_start := default MIN_ADDRESS (iter_max (map Elf.fin (Elf.segments plan))) in
  match Vma.new regions brk_start USER_STACK_GUARD with Ok m => Ok m | Err _ => Err ENOEXEC end.

(** ** Reading the file *)

Section Program.
Context {W I : Type} `{!Inodes W I}.

(** The loop, [file] being the part that is filled; [None] when the fuel runs
    out. *)
Fixpoint read_loop (fuel : nat) (w : W) (inode : I) (size : Z) (file : list Z) : option (result Errno (list Z) * W) :=
  if len file <? size then
    match fuel with
    | O => None
    | S fuel =>
      match i_read_at w inode (len file) (size - len file) with
      | (Err e, w) => Some (Err e, w)
      | (Ok [], w) => Some (Ok file, w)
      | (Ok bytes, w) => read_loop fuel w inode size (file ++ bytes)
      end
    end
  else Some (Ok file, w).

Definition read_program (fs : Vfs.Fs W I) (path : list Z) : option (result Errno (list Z) * Vfs.Fs W I) :=
  match Vfs.lookup fs path with
  | Err e => Some (Err e, fs)
  | Ok inode =>
    if negb (bool_decide (i_kind (Vfs.world fs) inode = KFile)) then Some (Err EACCES, fs) else
    let size := st_size (i_stat (Vfs.world fs) inode) in
    if size >? MAX_PROGRAM_SIZE then Some (Err ENOEXEC, fs) else
    match read_loop (Z.to_nat size) (Vfs.world fs) inode size [] with
    | None => None
    | Some (r, w) => Some (r, Vfs.set_world fs w)
    end
  end.
End Program.

(** ** Pages *)

Definition segment_page_flags (flags : Elf.SegmentFlags) : Z :=
  if Elf.execute flags then USER_READ_EXECUTE else if Elf.write flags then USER_READ_WRITE else USER_READ.

(** A page's 4096 bytes as the words of its frame. *)
Definition page_words (bytes : list Z) : Z -> Z := fun i => from_le (take 8 (drop (8 * Z.to_nat i) bytes)).

(** The share of the stack's bytes in a page; [None] is a slice out of
    bounds. *)
Definition stack_page (stack : list Z) (page : Z) : option (list Z) :=
  let bytes_start := USER_STACK_TOP - len stack in
  let out := replicate (Z.to_nat PAGE) 0 in
  let from := Z.max page bytes_start in
  let to := Z.min (page + PAGE) USER_STACK_TOP in
  if from <? to then
    match Elf.get_range stack (from - bytes_start) (to - from) with
    | Some bytes =>
        if to - page <=? PAGE
        then Some (take (Z.to_nat (from - page)) out ++ bytes ++ drop (Z.to_nat (to - page)) out) else None
    | None => None
    end
  else Some out.

(** [state ^= state << 13; state ^= state >> 7; state ^= state << 17]. *)
Definition xorshift (state : Z) : Z :=
  let state := Z.lxor state (Z.shiftl state 13 mod 2 ^ 64) in
  let state := Z.lxor state (Z.shiftr state 7) in
  Z.lxor state (Z.shiftl state 17 mod 2 ^ 64).
Definition random_bytes (tsc : Z) : list Z :=
  let first := xorshift (Z.lxor tsc 0x9e3779b97f4a7c15) in
  le_bytes 8 first ++ le_bytes 8 (xorshift first).

Section Load.
Context {W : Type} `{Frames W}.

Definition map_page (reserve : bool) (w : W) (s : AddressSpace) (address frame flags : Z) : option (result Errno unit * AddressSpace * W) :=
  match map_owned reserve w s address frame flags with
  | None => None
  | Some (Ok _, s, w) => Some (Ok tt, s, w)
  | Some (Err _, s, w) => match free_frame w frame with Some w => Some (Err ENOMEM, s, w) | None => None end
  end.

(** [new_page], its contents, [map_page]. *)
Definition load_page (reserve : bool) (w : W) (s : AddressSpace) (address : Z) (contents : option (list Z)) (flags : Z)
  : option (result Errno unit * AddressSpace * W) :=
  match alloc_frame_zeroed w with
  | (None, w) => Some (Err ENOMEM, s, w)
  | (Some frame, w) =>
    match contents with
    | None => None
    | Some bytes => map_page reserve (fill w frame (page_words bytes)) s address frame flags
    end
  end.

Fixpoint load_pages (reserve : Z -> bool) (w : W) (s : AddressSpace) (contents : Z -> option (list Z)) (flags : Z) (l : list Z)
  : option (result Errno unit * AddressSpace * W) :=
  match l with
  | [] => Some (Ok tt, s, w)
  | page :: l =>
    match load_page (reserve page) w s page (contents page) flags with
    | None => None
    | Some (Err e, s, w) => Some (Err e, s, w)
    | Some (Ok _, s, w) => load_pages reserve w s contents flags l
    end
  end.

Fixpoint load_segments (reserve : Z -> bool) (w : W) (s : AddressSpace) (file : list Z) (segments : list Elf.Segment)
  : option (result Errno unit * AddressSpace * W) :=
  match segments with
  | [] => Some (Ok tt, s, w)
  | segment :: segments =>
    match load_pages reserve w s (Elf.page_contents segment file) (segment_page_flags (Elf.flags segment)) (pages (Elf.start segment) (Elf.fin segment)) with
    | None => None
    | Some (Err e, s, w) => Some (Err e, s, w)
    | Some (Ok _, s, w) => load_segments reserve w s file segments
    end
  end.

(** The space is dropped on the way out. *)
Definition abandon (current : Z) (w : W) (s : AddressSpace) (e : Errno) : option (result Errno PreparedImage * W) :=
  match drop_space current w s with Some w => Some (Err e, w) | None => None end.

(** [prepare] once the file is read; [current] is the processor's root. *)
Definition load (kernel_pml4 : Z -> Z) (current : Z) (reserve : Z -> bool) (tsc : Z) (w : W) (file : list Z) (argv envp : list (list Z))
  : option (result Errno PreparedImage * W) :=
  match Elf.plan file USER_STACK_GUARD with
  | Err e => Some (Err e, w)
  | Ok plan =>
    match memory_map plan with
    | Err e => Some (Err e, w)
    | Ok m =>
      match new_space kernel_pml4 w with
      | (Err _, w) => Some (Err ENOMEM, w)
      | (Ok s, w) =>
        match load_segments reserve w s file (Elf.segments plan) with
        | None => None
        | Some (Err e, s, w) => abandon current w s e
        | Some (Ok _, s, w) =>
          match Stack.build USER_STACK_TOP argv envp
                  [(Stack.AT_PHDR, Elf.phdr_vaddr plan); (Stack.AT_PHENT, 56); (Stack.AT_PHNUM, Elf.phnum plan); (Stack.AT_PAGESZ, PAGE); (Stack.AT_ENTRY, Elf.entry plan)]
                  (random_bytes tsc) ARGUMENT_LIMIT with
          | Err e => abandon current w s e
          | Ok stack =>
            match load_pages reserve w s (stack_page (Stack.bytes stack)) USER_READ_WRITE (pages stack_bottom USER_STACK_TOP) with
            | None => None
            | Some (Err e, s, w) => abandon current w s e
            | Some (Ok _, s, w) => Some (Ok (mkImage s m (Elf.entry plan) (Stack.stack_pointer stack)), w)
            end
          end
        end
      end
    end
  end.

Definition prepare {V I : Type} `{!Inodes V I} (kernel_pml4 : Z -> Z) (current : Z) (reserve : Z -> bool) (tsc : Z) (w : W) (fs : Vfs.Fs V I) (path : list Z) (argv envp : list (list Z))
  : option (result Errno PreparedImage * W * Vfs.Fs V I) :=
  match read_program fs path with
  | None => None
  | Some (Err e, fs) => Some (Err e, w, fs)
  | Some (Ok file, fs) =>
    match load kernel_pml4 current reserve tsc w file argv envp with
    | None => None
    | Some (r, w) => Some (r, w, fs)
    end
  end.

(** The program replaces the one of the running task, whose space is
    [previous]: the id of the new space, and where the program starts. *)
Definition install_current (kernel_root : Z) (w : W) (m : Manager) (previous : option Z) (image : PreparedImage)
  : option (Z * (Z * Z) * Manager * W) :=
  let '(id, m) := register_owned_with_map m (space image) (image_map image) in
  match activate_if_changed kernel_root m (Some id) with
  | (Err _, _) => None
  | (Ok _, m) =>
    match previous with
    | None => Some (id, (image_entry image, image_stack image), m, w)
    | Some p =>
      match release w m p with
      | None => None
      | Some (_, m, w) => Some (id, (image_entry image, image_stack image), m, w)
      end
    end
  end.
End Load.
End Exec.

(** * What loading does

    The pages of the new space hold the bytes of the plan and of the stack,
    its map has a region for each of them, and a failure leaves the memory of
    all processes as it was. *)

Module ExecSpec.
Import Paging UserMemory PagingTree PagingSpaces PagingCow PagingMap PagingSteps UserSpans UserMemorySpec UserSystem UserSystemSpec Exec.

(** ** The map *)

Definition covers (r : Region) (x : Z) : bool := VmaSpec.has r x.

Lemma insert_all_view rs m : ok_from 0 (regions m) -> Forall (fun r => 0 <= Vma.start r) rs ->
  match insert_all m rs with
  | (Ok _, m') => m' = with_regions m (regions m') /\ ok_from 0 (regions m') /\
      (forall r x, r ∈ rs -> covers r x = true -> VmaSpec.view m' x = Some (attr r x)) /\
      (forall x, (forall r, r ∈ rs -> covers r x = false) -> VmaSpec.view m' x = VmaSpec.view m x) /\
      (forall x, VmaSpec.view m x <> None -> VmaSpec.view m' x = VmaSpec.view m x)
  | (Err _, _) => True
  end.
Proof.
  intros Hok Hall. revert m Hok. induction Hall as [|r rs Hr Hall IH]; intros m Hok; cbn [insert_all].
  { split; [by destruct m|]. split; [done|]. split; [|done]. intros r x Hin. by apply elem_of_nil in Hin. }
  pose proof (insert_spec m r 0 Hok Hr) as Hi. destruct (Vma.insert m r) as [[[]|e] m1]; [|done].
  destruct Hi as (_ & I2 & I3 & _ & _ & _ & I4 & I5). specialize (IH m1 I3). destruct (insert_all m1 rs) as [[[]|e] m2]; [|done].
  destruct IH as (J1 & J2 & J3 & J4 & J5). split; [rewrite J1, I2; done|]. split; [done|]. split; [|split].
  - intros q x [->|Hq]%elem_of_cons Hx; [|by apply J3]. rewrite J5; rewrite I5; unfold covers in Hx; by rewrite Hx.
  - intros x Hx. rewrite J4 by (intros q Hq; apply Hx; by right). rewrite I5. specialize (Hx r ltac:(left)). unfold covers in Hx. by rewrite Hx.
  - intros x Hx. assert (E : VmaSpec.view m1 x = VmaSpec.view m x).
    { rewrite I5. destruct (VmaSpec.has r x) eqn:Eh; [|done]. exfalso. apply Hx, I4. by apply has_iff in Eh. }
    rewrite J5 by congruence. exact E.
Qed.

Lemma iter_max_spec l d : exists x, default d (iter_max l) = x /\ (l = [] /\ x = d \/ x ∈ l).
Proof.
  eexists. split; [reflexivity|]. destruct l as [|a l]; [by left|right]. cbn [iter_max default]. change (Datatypes.id ?x) with x. revert a.
  induction l as [|b l IH]; intros a; cbn [fold_left]; [left|]. destruct (Z.max_spec a b) as [[_ ->]|[_ ->]].
  - right. apply IH.
  - specialize (IH a). apply elem_of_cons in IH as [->|IH]; [left|]. right. by right.
Qed.

(** Segments below the guard, in whole pages, apart. *)
Record segments_ok (file : list Z) (segs : list Elf.Segment) : Prop := {
  sg_ok : Forall (Elf.segment_ok file USER_STACK_GUARD) segs;
  sg_apart : Elf.disjoint_segments segs
}.

Lemma plan_segments file p : Forall Elf.byte file -> Elf.plan file USER_STACK_GUARD = Ok p -> segments_ok file (Elf.segments p).
Proof. intros Hb Hp. destruct (Elf.plan_ok _ _ _ Hb Hp) as (H1 & H2 & _). by split. Qed.

Definition in_segment (s : Elf.Segment) (x : Z) : bool := (Elf.start s <=? x) && (x <? Elf.fin s).
Definition in_stack (x : Z) : bool := (stack_bottom <=? x) && (x <? USER_STACK_TOP).

Lemma memory_map_spec file p m : segments_ok file (Elf.segments p) -> memory_map p = Ok m ->
  map_wf m /\ mmap_top m = USER_STACK_GUARD /\ brk m = brk_start m /\
  (forall s x, s ∈ Elf.segments p -> in_segment s x = true -> VmaSpec.view m x = Some (segment_protection s, Image)) /\
  (forall x, in_stack x = true -> VmaSpec.view m x = Some (READ_WRITE, Vma.Stack)) /\
  (forall x, (forall s, s ∈ Elf.segments p -> in_segment s x = false) -> in_stack x = false -> VmaSpec.view m x = None).
Proof.
  intros [Hok Hd]. rewrite Forall_forall in Hok. unfold memory_map. set (rs := map segment_region (Elf.segments p) ++ [stack_region]).
  destruct (iter_max_spec (map Elf.fin (Elf.segments p)) MIN_ADDRESS) as (bs & Eb & Hb). rewrite Eb.
  destruct (Vma.new rs bs USER_STACK_GUARD) as [m'|] eqn:En; [|done]. intros [= ->].
  assert (Hall : Forall (fun r => 0 <= Vma.start r) rs).
  { apply Forall_app. split; [|constructor; [done|constructor]]. apply Forall_forall. intros r (s & -> & Hs)%list_elem_of_fmap. cbn [segment_region Vma.start].
    pose proof (Elf.so_low _ _ _ (Hok s Hs)). unfold Elf.PAGE_SIZE in *. lia. }
  assert (Hbs : (Vma.PAGE_SIZE | bs) /\ 0 <= bs).
  { destruct Hb as [[_ ->]|(s & -> & Hs)%list_elem_of_fmap]; [split; [by exists 16|done]|]. split; [apply (Elf.so_fin _ _ _ (Hok s Hs))|].
    destruct (Hok s Hs) as [? [? ?] ? ? ? ? ? ?]. unfold Elf.PAGE_SIZE in *. lia. }
  split; [|].
  { eapply new_wf; [exact Hall|apply Hbs|apply Hbs|by exists 0x7ffffffdd|done|exact En]. }
  unfold Vma.new in En. pose proof (insert_all_view rs (mkMap [] bs bs USER_STACK_GUARD) ltac:(done) Hall) as Hi.
  destruct (insert_all _ rs) as [[[]|e] m2]; [|done]. injection En as ->. destruct Hi as (I1 & I2 & I3 & I4 & I5).
  split; [by rewrite I1|]. split; [by rewrite I1|]. split; [|split].
  - intros s x Hs Hx. rewrite (I3 (segment_region s) x); [done| |exact Hx]. apply elem_of_app. left. by apply list_elem_of_fmap_2.
  - intros x Hx. rewrite (I3 stack_region x); [done| |exact Hx]. apply elem_of_app. right. left.
  - intros x Hs Hx. rewrite I4; [done|]. intros r [(s & -> & Hin)%list_elem_of_fmap|Hin]%elem_of_app; [by apply Hs|]. apply list_elem_of_singleton in Hin as ->. exact Hx.
Qed.

(** ** Pages *)

Section Pages.
Context {W : Type} {HF : Frames W} {HL : FramesLaws W} (kernel_pml4 : Z -> Z).
Context (l1 l2 : list (Z * AddressSpace)) (id : Z) (others : Z -> Z).
Implicit Types (w : W) (P : Z -> option Page) (TT : Z -> nat -> Z -> option Z).
Abbreviation state := (state kernel_pml4 l1 l2 id others).
Abbreviation step := (step l1 l2 id).

(** A new frame with contents of its own. *)
Lemma fill_source w f w1 words : refs w f = 0 -> source w f false w1 ->
  source w f false (fill w1 f words) /\ forall i, memory (fill w1 f words) f i = words i.
Proof.
  intros Hz Hs. inversion Hs as [|w1' Hw1 Hma Hr Hm]; subst. assert (Hf : refs w1 f = refs w f + 1) by (by rewrite Hr, Z.eqb_refl).
  destruct (fill_correct w1 f words Hw1 ltac:(left; lia)) as (H1 & H2 & H3). split; [|intros i; by rewrite H3, Z.eqb_refl].
  constructor; [done|done|intros g; by rewrite H2, Hr|]. intros g i Hl. rewrite H3. destruct (Z.eqb_spec g f) as [->|]; [|by apply Hm]. destruct Hl; [lia|done].
Qed.

Definition page_of_bytes (fl : Z) (bytes : list Z) : option Page := Some (Private fl (page_words bytes)).

Lemma load_page_step reserve w s TT P va bytes fl :
  state w s TT P -> user_page va -> request fl -> Paging.has fl USER = true -> Paging.has fl WRITABLE && is_executable fl = false ->
  exists r s' w' TT', load_page reserve w s va (Some bytes) fl = Some (r, s', w') /\ step w TT w' TT' /\
    match r with
    | Ok _ => state w' s' TT' (set_page P (page_of va) (page_of_bytes fl bytes))
    | Err e => e = ENOMEM /\ state w' s' TT' P
    end.
Proof.
  intros Hst Hu H1 H2 H3. pose proof (state_good _ _ _ _ _ _ _ _ _ Hst) as Hg. pose proof (go_wf _ _ _ _ Hg) as Hw. unfold load_page.
  destruct (alloc_frame_zeroed w) as [[f|] w1] eqn:Ea.
  2: { destruct (alloc_none w w1 Hw Ea) as [Hw1 Hk]. destruct (still_step _ _ _ _ _ w s TT P w1 Hst Hw1 Hk). eexists _, _, _, _. by split; [reflexivity|]. }
  destruct (alloc_zeroed_source w f w1 Hw Ea) as (Hsrc & Hz & _). destruct (fill_source w f w1 (page_words bytes) Hz Hsrc) as [Hsrc2 Hm2].
  pose proof (si_tree _ _ _ _ (go_inv _ _ _ _ Hg)) as Ht.
  assert (Hnt : ~ tables (TT id) f) by (intros (k & p & Hf); pose proof (proj2 (tr_frame _ _ _ _ Ht _ _ _ Hf)); lia).
  set (w2 := fill w1 f (page_words bytes)) in *. unfold map_page, map_owned. destruct reserve; cbn [negb].
  - destruct (map_at_step _ _ _ _ _ w w2 s TT P va f false fl Hst Hu Hsrc2) as (r & w3 & -> & Hr); [done..|]. destruct r as [[]|e].
    + destruct Hr as (TT2 & Hst2 & Hsp2). eexists _, _, _, TT2. split; [reflexivity|]. split; [done|]. eapply state_eq; [|exact Hst2].
      intros pg. unfold set_page. destruct (pg =? page_of va); [|done]. by constructor.
    + destruct Hr as (Hw2 & Ht2 & Hk2 & Hv2). destruct (give_back_step _ _ _ _ _ w w2 w3 s TT P f Hst Hsrc2 Hnt Hw2 Ht2 Hk2 Hv2) as (w4 & TT' & -> & Hst3 & Hsp3).
      eexists _, _, _, TT'. by split; [reflexivity|].
  - destruct (mapped_tree kernel_pml4 w w2 s (TT id) false f Hg Hsrc2 Hnt) as (Ht1 & _ & _).
    destruct (give_back_step _ _ _ _ _ w w2 w2 s TT P f Hst Hsrc2 Hnt ltac:(by eapply source_wf) Ht1) as (w3 & TT' & -> & Hst3 & Hsp3); [apply keeps_refl|done|].
    eexists _, _, _, TT'. by split; [reflexivity|].
Qed.

(** The pages of a span with the contents of each. *)
Definition contents_page (fl : Z) (contents : Z -> option (list Z)) : Z -> option Page := fun pg => page_of_bytes fl (default [] (contents (pg * 4096))).

Section Run.
Context (reserve : Z -> bool) (fl : Z) (contents : Z -> option (list Z)).
Context (Hrq : request fl) (HU : Paging.has fl USER = true) (HX : Paging.has fl WRITABLE && is_executable fl = false).

Lemma load_run a n P j : forall k w s TT,
  0 <= a -> a + Z.of_nat n <= PAGES -> (k + j = n)%nat -> (forall i, (i < n)%nat -> contents ((a + Z.of_nat i) * 4096) <> None) ->
  state w s TT (over a (Z.of_nat k) (contents_page fl contents) P) ->
  exists r s' w' TT', load_pages reserve w s contents fl (run_from a k j) = Some (r, s', w') /\ step w TT w' TT' /\
    match r with
    | Ok _ => state w' s' TT' (over a (Z.of_nat n) (contents_page fl contents) P)
    | Err e => e = ENOMEM /\ exists P', state w' s' TT' P'
    end.
Proof.
  induction j as [|j IH]; intros k w s TT H1 H2 Hn HC Hst.
  - replace n with k by lia. exists (Ok tt), s, w, TT. split; [done|]. split; [apply step_refl|done].
  - rewrite run_from_S. cbn [load_pages]. pose proof (run_page a k n H1 H2 ltac:(lia)) as Hu.
    destruct (contents ((a + Z.of_nat k) * 4096)) as [bytes|] eqn:Ec; [|by destruct (HC k ltac:(lia))].
    destruct (load_page_step (reserve ((a + Z.of_nat k) * 4096)) w s TT _ _ bytes fl Hst Hu Hrq HU HX) as (r & s1 & w1 & TT1 & -> & Hsp1 & Hr). destruct r as [[]|e].
    + rewrite page_of_mul in Hr. destruct (IH (S k) w1 s1 TT1 H1 H2 ltac:(lia) HC) as (r & s2 & w2 & TT2 & -> & Hsp2 & Hst2).
      { eapply state_eq; [|exact Hr]. intros pg. rewrite <- (over_S a k (contents_page fl contents) P pg).
        replace (contents_page fl contents (a + Z.of_nat k)) with (page_of_bytes fl bytes) by (unfold contents_page; by rewrite Ec). reflexivity. }
      exists r, s2, w2, TT2. split; [done|]. split; [by eapply step_trans|done].
    + destruct Hr as [-> Hst1]. eexists _, s1, w1, TT1. split; [reflexivity|]. split; [done|]. split; [done|]. by eexists.
Qed.

Lemma load_span_step w s TT P b e : span_ok b e -> (forall pg, in_span b e pg = true -> contents (pg * 4096) <> None) -> state w s TT P ->
  exists r s' w' TT', load_pages reserve w s contents fl (pages b e) = Some (r, s', w') /\ step w TT w' TT' /\
    match r with
    | Ok _ => state w' s' TT' (fun pg => if in_span b e pg then contents_page fl contents pg else P pg)
    | Err e => e = ENOMEM /\ exists P', state w' s' TT' P'
    end.
Proof.
  intros Hs HC Hst. destruct (span_run _ _ Hs) as (a & n & _ & _ & -> & H1 & H2 & Hin).
  destruct (load_run a n P n 0 w s TT H1 H2 eq_refl) as (r & s' & w' & TT' & -> & Hsp & Hst').
  { intros i Hi. apply HC. rewrite Hin. zcases. }
  { eapply state_eq; [|exact Hst]. intros pg. by rewrite over_0. }
  exists r, s', w', TT'. split; [done|]. split; [done|]. destruct r; [|done]. eapply state_eq; [|exact Hst']. intros pg. unfold over. by rewrite Hin.
Qed.
End Run.

(** ** Segments *)

Lemma segment_flags_request f : request (segment_page_flags f) /\ Paging.has (segment_page_flags f) USER = true /\
  Paging.has (segment_page_flags f) WRITABLE && is_executable (segment_page_flags f) = false.
Proof. unfold segment_page_flags. destruct (Elf.execute f); [|destruct (Elf.write f)]; (split; [split; done|done]). Qed.

Lemma segment_span file s : Elf.segment_ok file USER_STACK_GUARD s -> span_ok (Elf.start s) (Elf.fin s).
Proof.
  intros [[H1 H2] [H3 H4] H5 H6 H7 _ _ _]. split; [done|done| |]; unfold Elf.PAGE_SIZE in *; [lia|]. unfold USER_STACK_GUARD, USER_STACK_TOP, USER_STACK_PAGES, PAGE, Elf.PAGE_SIZE, Uaccess.USER_TOP in H6. lia.
Qed.

Lemma span_in_segment file s pg : Elf.segment_ok file USER_STACK_GUARD s -> in_span (Elf.start s) (Elf.fin s) pg = in_segment s (pg * 4096).
Proof. intros [[H1 _] [H2 _] _ _ _ _ _ _]. by apply in_span_iff. Qed.

(** What the page of a segment holds. *)
Definition segment_page (file : list Z) (s : Elf.Segment) : Z -> option Page := contents_page (segment_page_flags (Elf.flags s)) (Elf.page_contents s file).

Lemma load_segments_step reserve file segs : segments_ok file segs -> forall w s TT P, state w s TT P ->
  exists r s' w' TT', load_segments reserve w s file segs = Some (r, s', w') /\ step w TT w' TT' /\
    match r with
    | Ok _ => exists P', state w' s' TT' P' /\ (forall x pg, x ∈ segs -> in_segment x (pg * 4096) = true -> P' pg = segment_page file x pg) /\
        forall pg, (forall x, x ∈ segs -> in_segment x (pg * 4096) = false) -> P' pg = P pg
    | Err e => e = ENOMEM /\ exists P', state w' s' TT' P'
    end.
Proof.
  induction segs as [|seg segs IH]; intros [Hok Hd] w s TT P Hst.
  - exists (Ok tt), s, w, TT. split; [done|]. split; [apply step_refl|]. exists P. split; [done|]. split; [|done]. intros x pg Hx. by apply elem_of_nil in Hx.
  - apply Forall_cons in Hok as [Hseg Hok]. cbn [load_segments]. destruct (segment_flags_request (Elf.flags seg)) as (H1 & H2 & H3).
    destruct (load_span_step reserve _ (Elf.page_contents seg file) H1 H2 H3 w s TT P _ _ (segment_span _ _ Hseg)) as (r & s1 & w1 & TT1 & -> & Hsp1 & Hr); [|done|].
    { intros pg _. destruct (Elf.page_contents_spec file _ seg (pg * 4096) Hseg) as (out & -> & _). done. }
    destruct r as [[]|e]; [|eexists _, _, _, _; split; [reflexivity|]; by split].
    destruct (IH ltac:(split; [done|]; intros i j x y Hi Hj Hne; by apply (Hd (S i) (S j) x y); [..|lia]) w1 s1 TT1 _ Hr) as (r & s2 & w2 & TT2 & -> & Hsp2 & Hr2).
    eexists r, s2, w2, TT2. split; [reflexivity|]. split; [by eapply step_trans|]. destruct r as [[]|e]; [|done]. destruct Hr2 as (P' & Hst2 & Ha & Hb). exists P'. split; [done|]. split.
    + intros x pg [->|Hx]%elem_of_cons Hin; [|by apply Ha]. rewrite Hb; [by rewrite (span_in_segment file _ _ Hseg), Hin|].
      intros y Hy. apply list_elem_of_lookup in Hy as [i Hi]. destruct (Hd 0%nat (S i) seg y eq_refl Hi ltac:(lia)); unfold in_segment in *; lia.
    + intros pg Hno. rewrite Hb by (intros x Hx; apply Hno; by right). by rewrite (span_in_segment file _ _ Hseg), (Hno seg ltac:(left)).
Qed.
End Pages.
End ExecSpec.
