(* ===== verification/ExecClaims.v ===== *)
(** * ExecClaims: from a file to a running program

    The bytes a program starts with and the ways loading fails ([ExecLoad]),
    and the theorem about [prepare] and [install_current]. *)

From stdpp Require Import base numbers sets gmap list.
From S2P Require Import Prelude Errno Text Inode Vfs Vma VmaSpec Elf ExecStack Paging UserMemory PagingTree PagingOps PagingSpaces PagingCow PagingSteps UserMemorySpec PagingFork UserSystem Uaccess Exec FsTree Ramfs RamfsInv PseudoFs FileTable VfsSpec World FsClaims UserClaims.
Local Open Scope Z_scope.

(** * A program in memory, byte by byte

    What a program finds at its addresses when it starts, and [load] as a
    whole: every way it fails and what it leaves when it succeeds. *)

Module ExecLoad.
Import Paging UserMemory PagingTree PagingSpaces PagingCow PagingMap PagingSteps UserSpans UserMemorySpec UserSystem UserSystemSpec Exec ExecSpec.

(** ** Bytes *)

(** The byte a program reads. *)
Definition byte_of (P : Z -> option Page) (a : Z) : option Z :=
  match P (page_of a) with
  | Some (Private _ c) => Some (c (a mod 4096 / 8) / 256 ^ (a mod 4096 mod 8) mod 256)
  | _ => None
  end.

Lemma from_le_nth l k : Forall Elf.byte l -> (k < length l)%nat -> from_le l / 256 ^ Z.of_nat k mod 256 = default 0 (l !! k).
Proof.
  intros Hl. revert k. induction Hl as [|b l Hb Hl IH]; intros k Hk; [simpl in Hk; lia|]. unfold Elf.byte in Hb. cbn [from_le]. destruct k as [|k].
  - change (256 ^ Z.of_nat 0) with 1. rewrite Z.div_1_r, Z.mul_comm, Z.mod_add by lia. cbn. by apply Z.mod_small.
  - rewrite Nat2Z.inj_succ, Z.pow_succ_r by lia. rewrite <- Z.div_div by lia.
    rewrite (Z.mul_comm 256 (from_le l)), Z.div_add, (Z.div_small b 256), Z.add_0_l by lia. rewrite IH by (simpl in Hk; lia). done.
Qed.

Lemma page_words_nth bytes i : length bytes = Z.to_nat 4096 -> Forall Elf.byte bytes -> 0 <= i < 4096 ->
  page_words bytes (i / 8) / 256 ^ (i mod 8) mod 256 = default 0 (bytes !! Z.to_nat i).
Proof.
  intros Hl Hb Hi. pose proof (Z.div_mod i 8 ltac:(lia)) as Hd. pose proof (Z.mod_pos_bound i 8 ltac:(lia)). assert (0 <= i / 8) by (apply Z.div_pos; lia).
  unfold page_words. rewrite <- (Z2Nat.id (i mod 8)) by lia. rewrite from_le_nth.
  - rewrite lookup_take_lt, lookup_drop by lia. f_equal. f_equal. lia.
  - by apply Forall_take, Forall_drop.
  - rewrite length_take, length_drop. lia.
Qed.

Lemma page_byte fl bytes P a : P (page_of a) = page_of_bytes fl bytes -> length bytes = Z.to_nat 4096 -> Forall Elf.byte bytes ->
  byte_of P a = Some (default 0 (bytes !! Z.to_nat (a mod 4096))).
Proof. intros E Hl Hb. unfold byte_of. rewrite E. cbn [page_of_bytes]. rewrite page_words_nth; [done..|]. apply Z.mod_pos_bound. lia. Qed.

Lemma byte_of_eq P Q a : (forall pg, page_eq (P pg) (Q pg)) -> byte_of P a = byte_of Q a.
Proof. intros E. unfold byte_of. destruct (E (page_of a)) as [|r c c' Hc|]; [done| |done]. by rewrite Hc. Qed.

(** ** The stack's bytes *)

Lemma stack_page_spec stack page : len stack <= USER_STACK_PAGES * PAGE -> (4096 | page) -> in_stack page = true ->
  exists out, stack_page stack page = Some out /\ length out = Z.to_nat 4096 /\
    forall i, 0 <= i < 4096 -> out !! Z.to_nat i = Some (if USER_STACK_TOP - len stack <=? page + i then default 0 (stack !! Z.to_nat (page + i - (USER_STACK_TOP - len stack))) else 0).
Proof.
  intros Hl Hp Hin. pose proof (len_nonneg stack). unfold in_stack in Hin. apply andb_true_iff in Hin as [H1%Z.leb_le H2%Z.ltb_lt].
  assert (Hto : page + 4096 <= USER_STACK_TOP).
  { destruct Hp as [k ->]. change USER_STACK_TOP with (0x7fffffffe * 4096) in *. lia. }
  unfold stack_page. change PAGE with 4096. set (b := USER_STACK_TOP - len stack). rewrite (Z.min_l (page + 4096)) by done.
  assert (Hrep : forall i, 0 <= i < 4096 -> replicate (Z.to_nat 4096) 0 !! Z.to_nat i = Some 0) by (intros i Hi; apply lookup_replicate_2; lia).
  destruct (Z.ltb_spec (Z.max page b) (page + 4096)) as [Hlt|Hge].
  - destruct (Elf.get_range_Some stack (Z.max page b - b) (page + 4096 - Z.max page b)) as (bytes & -> & Hlb & Hb); [lia|lia|unfold b; lia|].
    destruct (Z.leb_spec (page + 4096 - page) 4096); [|lia]. eexists. split; [reflexivity|].
    assert (Hpg : length (replicate (Z.to_nat 4096) 0) = Z.to_nat 4096) by apply length_replicate.
    replace (Z.to_nat (page + 4096 - page)) with (Z.to_nat (Z.max page b - page) + length bytes)%nat by lia. split; [rewrite !length_app, length_take, length_drop, Hpg; lia|].
    intros i Hi. rewrite splice_lookup by (rewrite Hpg; lia). case_bool_decide as Hin; destruct (Z.leb_spec b (page + i)); try (exfalso; lia).
    + rewrite Hb by lia. replace (Z.to_nat (Z.max page b - b) + (Z.to_nat i - Z.to_nat (Z.max page b - page)))%nat with (Z.to_nat (page + i - b)) by lia.
      destruct (lookup_lt_is_Some_2 stack (Z.to_nat (page + i - b))) as [y ->]; [unfold b, len in *; lia|done].
    + by apply Hrep.
  - eexists. split; [reflexivity|]. split; [apply length_replicate|]. intros i Hi. rewrite Hrep by done. destruct (Z.leb_spec b (page + i)); [lia|done].
Qed.

Lemma bytes_small (lo : Z) l : 0 <= lo -> Forall (fun b => lo <= b <= 255) l -> Forall Elf.byte l.
Proof. intros Hlo Hl. eapply Forall_impl; [exact Hl|]. intros b Hb. cbn beta in Hb. unfold Elf.byte. lia. Qed.

Lemma words_bytes_bytes ws : Forall Elf.byte (Stack.words_bytes ws).
Proof. unfold Stack.words_bytes. apply Forall_flat_map, Forall_forall. intros x _. apply (bytes_small 0); [done|apply le_bytes_bytes]. Qed.

Lemma strings_bytes_bytes l : Forall Stack.c_text l -> Forall Elf.byte (Stack.strings_bytes l).
Proof.
  intros Hl. unfold Stack.strings_bytes. apply Forall_flat_map. eapply Forall_impl; [exact Hl|]. intros v Hv. apply Forall_app. split; [|by repeat constructor].
  eapply Forall_impl; [exact Hv|]. intros b Hb. cbn beta in Hb. unfold Elf.byte. lia.
Qed.

Lemma random_bytes_bytes tsc : Forall Elf.byte (random_bytes tsc).
Proof. unfold random_bytes. apply Forall_app. split; (apply (bytes_small 0); [done|apply le_bytes_bytes]). Qed.

Lemma built_bytes top argv envp auxv tsc limit s : 0 <= top -> Forall Stack.c_text argv -> Forall Stack.c_text envp ->
  Stack.build top argv envp auxv (random_bytes tsc) limit = Ok s ->
  Forall Elf.byte (Stack.bytes s) /\ len (Stack.bytes s) <= limit /\ Stack.stack_pointer s + len (Stack.bytes s) = top.
Proof.
  intros Ht Ha He Hb. destruct (Stack.build_laid_out _ _ _ _ _ _ _ Ht Hb) as (Hlim & base & ao & eo & HL). destruct (Stack.lo_pad _ _ _ _ _ _ _ _ _ HL) as [pad E].
  pose proof (Stack.lo_top _ _ _ _ _ _ _ _ _ HL) as Htop. split; [|split; [lia|done]]. rewrite E. rewrite !Forall_app. split; [apply words_bytes_bytes|].
  split; [apply Forall_replicate; unfold Elf.byte; lia|]. split; [by apply strings_bytes_bytes|]. split; [by apply strings_bytes_bytes|apply random_bytes_bytes].
Qed.

(** ** A space that is not registered yet *)

Section Load.
Context {W : Type} {HF : Frames W} {HL : FramesLaws W} (kernel_pml4 : Z -> Z) (kernel_root : Z) {exact : bool}.
Implicit Types (w : W) (TT : Z -> nat -> Z -> option Z).
Abbreviation system_ok := (system_ok (exact := exact) kernel_pml4 kernel_root).

Lemma sys_others w l TT o1 o2 : (forall g, o1 g = o2 g) -> sys_ok kernel_pml4 w l TT o1 -> sys_ok kernel_pml4 w l TT o2.
Proof.
  intros E [H1 H2 H3 H4 H5 H6 H7 H8 H9 H10]. split; try done.
  - intros id s g Hi Hg. rewrite <- E. by apply (H8 id s g).
  - intros g Hno. rewrite <- E. by apply H9.
  - intros g. by rewrite <- E.
Qed.

Section Fresh.
Context (w : W) (m : Manager) (TT : Z -> nat -> Z -> option Z) (others : Z -> Z) (Hok : system_ok w m TT others).
Abbreviation cid := (next_id (registry m)).
Abbreviation l := (spaces (owned_spaces m)).

Lemma cid_fresh : cid ∉ map fst l.
Proof. rewrite spaces_fst. by eapply fresh_id. Qed.
Lemma cid_other i s : (i, s) ∈ l -> i <> cid.
Proof. intros Hi ->. apply cid_fresh. by apply (list_elem_of_fmap_2 fst) in Hi. Qed.

(** What the new space's steps did to the others. *)
Lemma others_seen w' TT' T i o : step l [] cid w (set_tree TT cid T) w' TT' -> (i, o) ∈ owned_spaces m ->
  TT' i = TT i /\ forall pg, page_eq (seen w' (os_space o) (TT' i) pg) (seen w (os_space o) (TT i) pg).
Proof.
  intros [H1 H2 _] Hin. pose proof (spaces_elem _ _ _ Hin) as Hin'. pose proof (cid_other _ _ Hin') as Hne. assert (Hin2 : (i, os_space o) ∈ l ++ []) by (by rewrite app_nil_r).
  assert (E : TT' i = TT i) by (rewrite (H1 i (os_space o) Hin2); by apply set_tree_ne). split; [done|]. intros pg. rewrite E.
  specialize (H2 i _ Hin2). rewrite set_tree_ne in H2 by done. eapply untouched_seen; [|exact H2]. eapply sys_space; [apply (sm_sys _ _ _ _ _ _ Hok)|done].
Qed.

(** The space is gone again. *)
Lemma abandoned w' TT' T : step l [] cid w (set_tree TT cid T) w' TT' -> sys_ok kernel_pml4 w' l TT' others ->
  system_ok w' m TT' others /\ machine_eq (machine w' m TT') (machine w m TT).
Proof.
  intros Hsp Hs. split.
  - split; try apply Hok; [done|]. intros i o Hin. eapply agreed_eq; [|by apply (sm_maps _ _ _ _ _ _ Hok i o)]. intros pg. symmetry. by eapply others_seen.
  - intros i. unfold machine. destruct (lookup_id (owned_spaces m) i) as [o|] eqn:Eo; constructor. eapply others_seen; [exact Hsp|]. apply lookup_id_elem; [by eapply system_ids|done].
Qed.

Context (s0 : AddressSpace) (w0 : W) (En : new_space kernel_pml4 w = (Ok s0, w0)).
Abbreviation TT0 := (set_tree TT cid (root_only (root s0))).

Lemma fresh_state : state kernel_pml4 l [] cid others w0 s0 TT0 (fun _ => None) /\ step l [] cid w TT0 w0 TT0.
Proof.
  destruct (sys_add kernel_pml4 w w0 l TT others cid s0 (sm_sys _ _ _ _ _ _ Hok) cid_fresh En) as [Hs Hun]. split.
  - split; [done|]. intros pg. rewrite set_tree_eq. unfold seen, page_at. by rewrite view_root_only, has_0.
  - split; [done| |done]. intros i s2. rewrite app_nil_r. intros Hin. rewrite set_tree_ne by (by eapply cid_other). by apply Hun.
Qed.

(** Dropping the unfinished space gives everything back. *)
Lemma abandon_spec e w1 s1 TT1 P : state kernel_pml4 l [] cid others w1 s1 TT1 P -> step l [] cid w TT0 w1 TT1 ->
  exists w2, abandon (cr3 m) w1 s1 e = Some (Err e, w2) /\ system_ok w2 m TT1 others /\ machine_eq (machine w2 m TT1) (machine w m TT).
Proof.
  intros Hst Hsp. destruct (new_space_spec kernel_pml4 w _ w0 (sy_wf _ _ _ _ _ (sm_sys _ _ _ _ _ _ Hok)) En) as (_ & _ & _ & _ & Hz & Hma & _).
  assert (Hroot : root s1 = root s0).
  { pose proof (tr_root _ _ _ _ (si_tree _ _ _ _ (go_inv _ _ _ _ (state_good _ _ _ _ _ _ _ _ _ Hst)))) as Hr.
    rewrite (sp_root _ _ _ _ _ _ _ Hsp), set_tree_eq in Hr. unfold root_only in Hr. rewrite decide_True in Hr by done. congruence. }
  assert (Hcur : cr3 m <> root s1).
  { rewrite Hroot. intros E. destruct (current_live kernel_pml4 kernel_root w m TT others Hok) as [Hl|Hl]; rewrite E in Hl; [lia|done]. }
  destruct (sys_remove kernel_pml4 (cr3 m) w1 l [] TT1 others cid s1 s1 (st_ok _ _ _ _ _ _ _ _ _ Hst) eq_refl Hcur ltac:(lia)) as (w2 & Ed & Hs2 & Hun).
  exists w2. unfold abandon. rewrite Ed. split; [done|]. rewrite app_nil_r in Hs2, Hun.
  apply (abandoned w2 TT1 (root_only (root s0))); [|eapply sys_others; [|exact Hs2]; intros g; cbn beta; lia].
  eapply step_trans; [exact Hsp|]. split; [done| |done]. intros i s2. rewrite app_nil_r. apply Hun.
Qed.
End Fresh.

(** ** What a program starts with *)

(** At the addresses of a segment the bytes of the file, or zeros past them,
    with the rights of the segment; the stack that was built; nothing else. *)
Record loaded (file : list Z) (plan : Elf.LoadPlan) (stack : Stack.InitialStack) (P : Z -> option Page) : Prop := {
  ld_segment : forall s a, s ∈ Elf.segments plan -> in_segment s a = true ->
    byte_of P a = Some (Elf.image_byte s file a) /\ exists c, P (page_of a) = Some (Private (prot_rights (segment_protection s)) c);
  ld_stack : forall a, in_stack a = true ->
    byte_of P a = Some (default 0 (Stack.memory_of stack a)) /\ exists c, P (page_of a) = Some (Private (prot_rights READ_WRITE) c);
  ld_nothing : forall pg, (forall s, s ∈ Elf.segments plan -> in_segment s (pg * 4096) = false) -> in_stack (pg * 4096) = false -> P pg = None
}.

Lemma page_start a : a = page_of a * 4096 + a mod 4096 /\ 0 <= a mod 4096 < 4096.
Proof. unfold page_of. pose proof (Z.div_mod a 4096 ltac:(lia)). pose proof (Z.mod_pos_bound a 4096 ltac:(lia)). lia. Qed.

Lemma in_segment_page file s a : Elf.segment_ok file USER_STACK_GUARD s -> in_segment s a = in_segment s (page_of a * 4096).
Proof.
  intros [[[k1 E1] _] [[k2 E2] _] _ _ _ _ _ _]. destruct (page_start a) as [Ha Hr]. unfold in_segment. unfold Elf.PAGE_SIZE in *. apply eq_true_iff_eq. rewrite !andb_true_iff, !Z.leb_le, !Z.ltb_lt. lia.
Qed.
Lemma in_stack_page a : in_stack a = in_stack (page_of a * 4096).
Proof.
  destruct (page_start a) as [Ha Hr]. unfold in_stack. change stack_bottom with (0x7ffffffde * 4096). change USER_STACK_TOP with (0x7fffffffe * 4096).
  apply eq_true_iff_eq. rewrite !andb_true_iff, !Z.leb_le, !Z.ltb_lt. lia.
Qed.
Lemma segment_not_stack file s a : Elf.segment_ok file USER_STACK_GUARD s -> in_segment s a = true -> in_stack a = false.
Proof.
  intros [_ _ _ Ht _ _ _ _]. unfold in_segment, in_stack. rewrite andb_true_iff, Z.leb_le, Z.ltb_lt. intros [_ H].
  apply andb_false_iff. left. apply Z.leb_gt. change stack_bottom with (0x7ffffffde * 4096). change USER_STACK_GUARD with (0x7ffffffdd * 4096) in Ht. lia.
Qed.

Lemma segment_rights s : prot_rights (segment_protection s) = segment_page_flags (Elf.flags s).
Proof. unfold prot_rights. rewrite bool_decide_false by done. done. Qed.

Lemma image_byte_byte s file a : Forall Elf.byte file -> Elf.byte (Elf.image_byte s file a).
Proof.
  intros Hf. unfold Elf.image_byte. destruct (_ && _); [|by unfold Elf.byte]. destruct (file !! _) as [b|] eqn:E; [|by unfold Elf.byte]. cbn. rewrite Forall_lookup in Hf. by eapply Hf.
Qed.

(** The pages the loops leave are those of the program. *)
Lemma pages_loaded file plan stack P1 :
  Forall Elf.byte file -> segments_ok file (Elf.segments plan) ->
  Forall Elf.byte (Stack.bytes stack) -> len (Stack.bytes stack) <= ARGUMENT_LIMIT -> Stack.stack_pointer stack + len (Stack.bytes stack) = USER_STACK_TOP ->
  (forall x pg, x ∈ Elf.segments plan -> in_segment x (pg * 4096) = true -> P1 pg = segment_page file x pg) ->
  (forall pg, (forall x, x ∈ Elf.segments plan -> in_segment x (pg * 4096) = false) -> P1 pg = None) ->
  loaded file plan stack (fun pg => if in_span stack_bottom USER_STACK_TOP pg then contents_page USER_READ_WRITE (stack_page (Stack.bytes stack)) pg else P1 pg).
Proof.
  intros Hf [Hs _] Hb Hl Hsp HP1 HP2. rewrite Forall_forall in Hs. set (P := fun pg => _).
  assert (Hspan : forall pg, in_span stack_bottom USER_STACK_TOP pg = in_stack (pg * 4096)) by (intros pg; apply in_span_iff; [by exists 0x7ffffffde|by exists 0x7fffffffe]).
  split.
  - intros s a Hin Ha. assert (Hpg : P (page_of a) = segment_page file s (page_of a)).
    { unfold P. rewrite Hspan, <- in_stack_page, (segment_not_stack file s a (Hs s Hin) Ha). apply HP1; [done|]. by rewrite <- (in_segment_page file s a (Hs s Hin)). }
    destruct (Elf.page_contents_spec file _ s (page_of a * 4096) (Hs s Hin)) as (out & Eo & Hlo & Hout). destruct (page_start a) as [Ea Hr].
    unfold segment_page, contents_page in Hpg. rewrite Eo in Hpg. cbn [default] in Hpg. change (Datatypes.id out) with out in Hpg. split; [|rewrite Hpg, segment_rights; by eexists].
    rewrite (page_byte _ out P a Hpg Hlo).
    + rewrite (Hout (a mod 4096)) by done. cbn. do 2 f_equal. lia.
    + apply Forall_lookup. intros i b Hi. pose proof (lookup_lt_Some _ _ _ Hi) as Hlt. rewrite Hlo in Hlt. specialize (Hout (Z.of_nat i) ltac:(unfold Elf.PAGE_SIZE in *; lia)). rewrite Nat2Z.id in Hout.
      assert (b = Elf.image_byte s file (page_of a * 4096 + Z.of_nat i)) as -> by congruence. by apply image_byte_byte.
  - intros a Ha. assert (Hpg : P (page_of a) = contents_page USER_READ_WRITE (stack_page (Stack.bytes stack)) (page_of a)) by (unfold P; by rewrite Hspan, <- in_stack_page, Ha).
    destruct (stack_page_spec (Stack.bytes stack) (page_of a * 4096)) as (out & Eo & Hlo & Hout); [change ARGUMENT_LIMIT with 32768 in Hl; change (USER_STACK_PAGES * PAGE) with 131072; lia|by exists (page_of a)|by rewrite <- in_stack_page|].
    destruct (page_start a) as [Ea Hr]. unfold contents_page in Hpg. rewrite Eo in Hpg. cbn [default] in Hpg. change (Datatypes.id out) with out in Hpg. split; [|rewrite Hpg; by eexists].
    assert (Hsb : USER_STACK_TOP - len (Stack.bytes stack) = Stack.stack_pointer stack) by lia. rewrite Hsb in Hout.
    rewrite (page_byte _ out P a Hpg Hlo).
    + rewrite (Hout (a mod 4096)) by done. rewrite <- Ea. unfold Stack.memory_of. by destruct (_ <=? a).
    + apply Forall_lookup. intros i b Hi. pose proof (lookup_lt_Some _ _ _ Hi) as Hlt. rewrite Hlo in Hlt. specialize (Hout (Z.of_nat i) ltac:(lia)). rewrite Nat2Z.id, Hi in Hout. injection Hout as ->.
      destruct (_ <=? _); [|by unfold Elf.byte]. destruct (Stack.bytes stack !! _) as [y|] eqn:Ey; [|by unfold Elf.byte]. cbn. rewrite Forall_lookup in Hb. by eapply Hb.
  - intros pg Hno Hst. unfold P. rewrite Hspan, Hst. by apply HP2.
Qed.

(** The map says what the pages are. *)
Lemma loaded_agreed file plan stack P m : segments_ok file (Elf.segments plan) -> memory_map plan = Ok m -> loaded file plan stack P -> agreed true m P.
Proof.
  intros Hso Hm [H1 H2 H3]. pose proof Hso as [Hs _]. rewrite Forall_forall in Hs. destruct (memory_map_spec file plan m Hso Hm) as (Hwf & Ht & Hbrk & Hv1 & Hv2 & Hv3).
  assert (Hdec : forall x, (exists s, s ∈ Elf.segments plan /\ in_segment s x = true) \/ (forall s, s ∈ Elf.segments plan -> in_segment s x = false)).
  { intros x. destruct (existsb (fun s => in_segment s x) (Elf.segments plan)) eqn:E.
    - left. apply existsb_exists in E as (s & Hin & E). exists s. by rewrite list_elem_of_In.
    - right. intros s Hin. rewrite existsb_false_forall in E. by apply E. }
  split; [done|rewrite Ht; done| | | |].
  - intros x Hx. destruct (Hdec x) as [(s & Hin & E)|Hno].
    + destruct (segment_span file s (Hs s Hin)) as [_ _ Hlo Hhi]. unfold in_segment in E. lia.
    + destruct (in_stack x) eqn:E; [|by rewrite (Hv3 x Hno E) in Hx]. unfold in_stack in E. apply andb_true_iff in E as [E1%Z.leb_le E2%Z.ltb_lt].
      change stack_bottom with (0x7ffffffde * 4096) in E1. change USER_STACK_TOP with (0x7fffffffe * 4096) in E2. lia.
  - intros e x p _ Hx. destruct (Hdec x) as [(s & Hin & E)|Hno]; [by rewrite (Hv1 s x Hin E) in Hx|]. destruct (in_stack x) eqn:E; [by rewrite (Hv2 x E) in Hx|by rewrite (Hv3 x Hno E) in Hx].
  - intros e He. rewrite Hbrk in He. apply checked_next_multiple_of_Some in He as [-> _]. rewrite next_multiple_of_id by (done || apply Hwf). lia.
  - intros pg Hpg. destruct (Hdec (pg * 4096)) as [(s & Hin & E)|Hno].
    + rewrite (Hv1 s _ Hin E). destruct (H1 s _ Hin E) as [_ [c Hc]]. rewrite page_of_mul in Hc. by rewrite Hc.
    + destruct (in_stack (pg * 4096)) eqn:E.
      * rewrite (Hv2 _ E). destruct (H2 _ E) as [_ [c Hc]]. rewrite page_of_mul in Hc. by rewrite Hc.
      * by rewrite (Hv3 _ Hno E), (H3 pg Hno E).
Qed.

(** ** Loading *)

Definition initial_stack (plan : Elf.LoadPlan) (argv envp : list (list Z)) (tsc : Z) : result Errno Stack.InitialStack :=
  Stack.build USER_STACK_TOP argv envp
    [(Stack.AT_PHDR, Elf.phdr_vaddr plan); (Stack.AT_PHENT, 56); (Stack.AT_PHNUM, Elf.phnum plan); (Stack.AT_PAGESZ, PAGE); (Stack.AT_ENTRY, Elf.entry plan)]
    (random_bytes tsc) ARGUMENT_LIMIT.

Section Outcome.
Context (w : W) (m : Manager) (TT : Z -> nat -> Z -> option Z) (others : Z -> Z) (Hok : system_ok w m TT others).
Abbreviation cid := (next_id (registry m)).
Abbreviation l := (spaces (owned_spaces m)).

(** A failure leaves every process as it was and no frame taken; a success is
    a space beside the others with the program in it. *)
Definition load_outcome (file : list Z) (argv envp : list (list Z)) (tsc : Z) (r : result Errno PreparedImage) (w' : W) : Prop :=
  match r with
  | Err _ => exists TT', system_ok w' m TT' others /\ machine_eq (machine w' m TT') (machine w m TT)
  | Ok image => exists plan stack P TT' T, Elf.plan file USER_STACK_GUARD = Ok plan /\ initial_stack plan argv envp tsc = Ok stack /\
      image_entry image = Elf.entry plan /\ image_stack image = Stack.stack_pointer stack /\ loaded file plan stack P /\ agreed true (image_map image) P /\
      state kernel_pml4 l [] cid others w' (space image) TT' P /\ step l [] cid w (set_tree TT cid T) w' TT'
  end.

Lemma load_spec reserve tsc file argv envp : Forall Elf.byte file -> Forall Stack.c_text argv -> Forall Stack.c_text envp ->
  exists r w', load kernel_pml4 (cr3 m) reserve tsc w file argv envp = Some (r, w') /\ load_outcome file argv envp tsc r w'.
Proof.
  intros Hf Ha He. unfold load. destruct (Elf.plan file USER_STACK_GUARD) as [plan|e] eqn:Ep; [|eexists _, _; split; [reflexivity|]; exists TT; by split].
  pose proof (plan_segments file plan Hf Ep) as Hso. destruct (memory_map plan) as [mp|e] eqn:Em; [|eexists _, _; split; [reflexivity|]; exists TT; by split].
  destruct (new_space kernel_pml4 w) as [[s0|e] w0] eqn:En.
  2: { destruct (new_space_spec kernel_pml4 w _ w0 (sy_wf _ _ _ _ _ (sm_sys _ _ _ _ _ _ Hok)) En) as (_ & Hw' & Hk).
       eexists _, _. split; [reflexivity|]. exists TT. by apply (still_system kernel_pml4 kernel_root w m TT others w0 Hok). }
  destruct (fresh_state w m TT others Hok s0 w0 En) as [Hst0 Hsp0].
  assert (Hab : forall e w1 s1 TT1 P, state kernel_pml4 l [] cid others w1 s1 TT1 P -> step l [] cid w (set_tree TT cid (root_only (root s0))) w1 TT1 ->
    exists r w', abandon (cr3 m) w1 s1 e = Some (r, w') /\ load_outcome file argv envp tsc r w').
  { intros e w1 s1 TT1 P H1 H2. destruct (abandon_spec w m TT others Hok s0 w0 En e w1 s1 TT1 P H1 H2) as (w2 & E & H3 & H4). eexists _, _. split; [exact E|]. by exists TT1. }
  destruct (load_segments_step kernel_pml4 l [] cid others reserve file (Elf.segments plan) Hso w0 s0 _ _ Hst0) as (r1 & s1 & w1 & TT1 & -> & Hsp1 & Hr1).
  pose proof (step_trans _ _ _ _ _ _ _ _ _ Hsp0 Hsp1) as Hsp01. destruct r1 as [[]|e1]; [|destruct Hr1 as (_ & P' & Hst1); by eapply Hab].
  destruct Hr1 as (P1 & Hst1 & HP1 & HP2). fold (initial_stack plan argv envp tsc). destruct (initial_stack plan argv envp tsc) as [stack|e2] eqn:Es; [|by eapply Hab].
  destruct (built_bytes USER_STACK_TOP argv envp _ tsc ARGUMENT_LIMIT stack ltac:(done) Ha He Es) as (Hb & Hl & Htop).
  destruct (load_span_step kernel_pml4 l [] cid others reserve USER_READ_WRITE (stack_page (Stack.bytes stack)) ltac:(by split) eq_refl eq_refl w1 s1 TT1 P1 stack_bottom USER_STACK_TOP)
    as (r2 & s2 & w2 & TT2 & -> & Hsp2 & Hr2); [split; [by exists 0x7ffffffde|by exists 0x7fffffffe|done|done]| |exact Hst1|].
  { intros pg Hin. rewrite in_span_iff in Hin by (by exists 0x7ffffffde + by exists 0x7fffffffe).
    destruct (stack_page_spec (Stack.bytes stack) (pg * 4096)) as (out & -> & _); [change ARGUMENT_LIMIT with 32768 in Hl; change (USER_STACK_PAGES * PAGE) with 131072; lia|by exists pg|exact Hin|done]. }
  pose proof (step_trans _ _ _ _ _ _ _ _ _ Hsp01 Hsp2) as Hsp. destruct r2 as [[]|e2]; [|destruct Hr2 as (_ & P' & Hst2); by eapply Hab].
  eexists _, _. split; [reflexivity|]. pose proof (pages_loaded file plan stack P1 Hf Hso Hb Hl Htop HP1 HP2) as Hld.
  eexists plan, stack, _, TT2, _. split; [exact Ep|]. split; [exact Es|]. split; [done|]. split; [done|]. split; [exact Hld|]. split; [by eapply loaded_agreed|]. split; [exact Hr2|exact Hsp].
Qed.
End Outcome.
End Load.
End ExecLoad.

(** * From a file to a running program

    [read_program] over the kernel's filesystems, [install_current] over the
    processes' memory, and [prepare] with both: the program that runs is the
    one in the file, with its arguments on its stack. *)

Module ExecClaims.
Import Exec.

(** ** The file *)

Section File.
Context {C : Type} `{!Machine C}.
Abbreviation Fs := (Vfs.Fs (World.World C) (World.Handle C)).

(** A path leads to a file of a ramfs with this data. *)
Definition file_at (fs : Fs) (path data : list Z) : Prop :=
  exists fsid ino st, Vfs.lookup fs path = Ok (World.HRam fsid ino) /\ World.ram (Vfs.world fs) !! fsid = Some st /\ Ramfs.nodes st !! ino = Some (Ramfs.File data).

Lemma read_program_exact (fs : Fs) path data : file_at fs path data -> len data <= MAX_PROGRAM_SIZE -> read_program fs path = Some (Ok data, fs).
Proof.
  intros (fsid & ino & st & Hl & Hr & Hn) Hsz. pose proof (len_nonneg data) as H0. unfold read_program. rewrite Hl.
  assert (Hk : i_kind (Vfs.world fs) (World.HRam fsid ino) = KFile) by (cbn; rewrite Hr; unfold Ramfs.kind; by rewrite Hn).
  assert (Hs : st_size (i_stat (Vfs.world fs) (World.HRam fsid ino)) = len data) by (cbn; rewrite Hr; unfold Ramfs.stat; by rewrite Hn).
  rewrite Hk, Hs, bool_decide_true by done. cbn [negb]. destruct (Z.gtb_spec (len data) MAX_PROGRAM_SIZE); [lia|].
  assert (Hset : Vfs.set_world fs (Vfs.world fs) = fs) by (by destruct fs).
  destruct data as [|b data]; [change (Some (Ok (E := Errno) (@nil Z), Vfs.set_world fs (Vfs.world fs)) = Some (Ok [], fs)); by rewrite Hset|].
  assert (Hrd : i_read_at (Vfs.world fs) (World.HRam fsid ino) 0 (len (b :: data)) = (Ok (b :: data), Vfs.world fs)).
  { change (i_read_at (Vfs.world fs) (World.HRam fsid ino) 0 (len (b :: data))) with (World.in_ram (Vfs.world fs) fsid (fun st => Ramfs.read_at st ino 0 (len (b :: data))), Vfs.world fs).
    unfold World.in_ram. rewrite Hr. unfold Ramfs.read_at. rewrite Hn. destruct (0 >=? len (b :: data)) eqn:Eg; [apply Z.geb_le in Eg; unfold len in Eg; cbn [length] in Eg; lia|].
    rewrite Z.sub_0_r, Z.min_id. cbn [Z.to_nat drop]. do 2 f_equal. apply take_ge. unfold len. lia. }
  replace (Z.to_nat (len (b :: data))) with (S (length data)) by (unfold len; cbn [length]; lia). cbn [read_loop].
  change (len []) with 0. destruct (Z.ltb_spec 0 (len (b :: data))); [|unfold len in *; cbn [length] in *; lia]. rewrite Z.sub_0_r, Hrd. cbn [app].
  destruct (length data); cbn [read_loop]; rewrite Z.ltb_irrefl; by rewrite Hset.
Qed.
End File.

Import Paging UserMemory PagingTree PagingSpaces PagingCow PagingMap PagingSteps UserMemorySpec UserSystem UserSystemSpec UserClaims Exec ExecSpec ExecLoad.

(** ** The running program is replaced *)

Section Install.
Context {W : Type} {HF : Frames W} {HL : FramesLaws W} (kernel_pml4 : Z -> Z) (kernel_root : Z) {exact : bool}.
Implicit Types (w : W) (TT : Z -> nat -> Z -> option Z).
Abbreviation system_ok := (system_ok (exact := exact) kernel_pml4 kernel_root).
Abbreviation exec := (exec kernel_pml4 kernel_root).

Definition without (previous : option Z) (A : Machine) : Machine := match previous with Some p => set_proc A p None | None => A end.

(** A space that is registered can be made current. *)
Lemma activate_registered m s mp cid m' : register_owned_with_map m s mp = (cid, m') ->
  exists changed m2, activate_if_changed kernel_root m' (Some cid) = (Ok changed, m2).
Proof.
  intros E. unfold activate_if_changed. case_if; [by eexists _, _|]. cbn [default]. change (Datatypes.id cid) with cid.
  unfold register_owned_with_map, register in E. injection E as <- <-. cbn [registry]. unfold root_of. cbn [entries].
  assert (Hl : lookup_id (entries (registry m) ++ [(next_id (registry m), root s)]) (next_id (registry m)) <> None).
  { rewrite lookup_id_app. destruct (lookup_id (entries (registry m)) _); [done|]. cbn [lookup_id]. by rewrite Z.eqb_refl. }
  destruct (lookup_id _ _); [by eexists _, _|done].
Qed.

Lemma activate_step w m TT others id changed m2 : system_ok w m TT others -> id <> NO_SPACE -> activate_if_changed kernel_root m (Some id) = (Ok changed, m2) ->
  exists TT' others', system_ok w m2 TT' others' /\ machine_eq (machine w m2 TT') (machine w m TT) /\ active m2 = Some id /\ others' = others.
Proof.
  intros Hok Hne E. pose (e := mkEnv (fun _ => true) true true false).
  destruct (activate_good kernel_pml4 kernel_root e w m TT others (Some id) Hok) as (r & m' & w' & Ex & TT' & o' & H1 & H2 & H3 & H4).
  pose proof Ex as Ex'. cbn [UserSystem.exec] in Ex. rewrite E in Ex. injection Ex as <- <- <-. exists TT', o'. split; [done|]. split; [exact H2|]. split.
  - by apply (exec_active kernel_pml4 kernel_root exact e w m TT others (Activate (Some id)) _ m2 w Hok ltac:(cbn; congruence) Ex').
  - apply H4. done.
Qed.

Lemma release_step w m TT others p : system_ok w m TT others -> active m <> Some p ->
  exists r m' w' TT' , release w m p = Some (r, m', w') /\ system_ok w' m' TT' others /\ machine_eq (machine w' m' TT') (set_proc (machine w m TT) p None) /\ active m' = active m.
Proof.
  intros Hok Hne. pose (e := mkEnv (fun _ => true) true true false).
  destruct (release_good kernel_pml4 kernel_root e w m TT others p Hok Hne) as (r & m' & w' & Ex & TT' & o' & H1 & H2 & H3 & H4).
  pose proof (exec_active kernel_pml4 kernel_root exact e w m TT others (Release p) r m' w' Hok Hne Ex) as Ha. cbn [next_current] in Ha.
  rewrite (H4 ltac:(done)) in H1. cbn [UserSystem.exec] in Ex. destruct (release w m p) as [[[[x|x] m1] w1]|]; [| |done]; injection Ex as <- <- <-; (eexists _, _, _, TT'; split; [reflexivity|]; split; [done|]; split; [|done]).
  - exact H2.
  - destruct H2 as [H2 Hn]. rewrite H2. intros i. unfold set_proc. destruct (Z.eqb_spec i p) as [->|]; [by rewrite Hn|done].
Qed.

(** Registered, current, and the old one gone. *)
Lemma install_spec w0 w m TT TT' T others previous image P :
  system_ok w0 m TT others -> next_id (registry m) < U64_MAX -> (forall p, previous = Some p -> p < next_id (registry m)) ->
  agreed true (image_map image) P -> state kernel_pml4 (spaces (owned_spaces m)) [] (next_id (registry m)) others w (space image) TT' P ->
  step (spaces (owned_spaces m)) [] (next_id (registry m)) w0 (set_tree TT (next_id (registry m)) T) w TT' ->
  exists id m2 w2 TT2, install_current kernel_root w m previous image = Some (id, (image_entry image, image_stack image), m2, w2) /\
    system_ok w2 m2 TT2 others /\ active m2 = Some id /\ machine w0 m TT id = None /\
    machine_eq (machine w2 m2 TT2) (set_proc (without previous (machine w0 m TT)) id (Some (image_map image, P))).
Proof.
  intros Hok Hnx Hprev Hag [Hs Hseen] Hsp. set (cid := next_id (registry m)) in *. unfold install_current.
  destruct (register_owned_with_map m (space image) (image_map image)) as [c m1] eqn:Er.
  assert (Ec : c = cid) by (unfold register_owned_with_map, register in Er; by injection Er). subst c.
  destruct (register_system kernel_pml4 kernel_root w0 m TT others w TT' others (space image) (image_map image) cid m1 Hok Hnx Er Hs) as (Hok1 & Hnone & Hm1).
  { intros i o Hin. by eapply (others_seen kernel_pml4 kernel_root w0 m TT others Hok). }
  { eapply agreed_eq; [|exact (agreed_exact exact _ _ Hag)]. intros pg. symmetry. apply Hseen. }
  destruct (activate_registered m _ _ cid m1 Er) as (changed & m2 & Ea). rewrite Ea.
  assert (Hcn : cid <> NO_SPACE) by (unfold NO_SPACE; lia).
  destruct (activate_step w m1 TT' others cid changed m2 Hok1 Hcn Ea) as (TT2 & o2 & Hok2 & Hm2 & Hac & ->).
  assert (HM : machine_eq (machine w m2 TT2) (set_proc (machine w0 m TT) cid (Some (image_map image, P)))).
  { rewrite Hm2, Hm1. intros i. unfold set_proc. destruct (i =? cid); [|reflexivity]. by constructor. }
  destruct previous as [p|]; cbn [without].
  - specialize (Hprev p eq_refl). destruct (release_step w m2 TT2 others p Hok2) as (r & m3 & w3 & TT3 & -> & Hok3 & Hm3 & Ha3); [rewrite Hac; intros [= E]; lia|].
    eexists cid, m3, w3, TT3. split; [reflexivity|]. split; [done|]. split; [congruence|]. split; [done|]. rewrite Hm3, HM. intros i. unfold set_proc.
    destruct (Z.eqb_spec i p) as [->|]; [|reflexivity]. rewrite (proj2 (Z.eqb_neq p cid)) by lia. reflexivity.
  - eexists cid, m2, w, TT2. split; [reflexivity|]. done.
Qed.

(** ** Claim *)

Context {C : Type} `{!World.Machine C}.
Abbreviation Fs := (Vfs.Fs (World.World C) (World.Handle C)).

(** C13. [execve] runs the program in the file: [prepare] never panics; when it
    fails, every process and every frame's count is as before; when it
    succeeds, installing the image replaces the old program by one whose
    memory holds, byte by byte, the segments of the file with their rights and
    the stack with the arguments, and nothing else, and leaves all other
    processes alone. *)
Theorem exec_runs_program w m TT others (fs : Fs) path data argv envp previous reserve tsc :
  system_ok w m TT others -> next_id (registry m) < U64_MAX -> (forall p, previous = Some p -> p < next_id (registry m)) ->
  file_at fs path data -> len data <= MAX_PROGRAM_SIZE -> Forall Elf.byte data -> Forall Stack.c_text argv -> Forall Stack.c_text envp ->
  exists r w', prepare kernel_pml4 (cr3 m) reserve tsc w fs path argv envp = Some (r, w', fs) /\
    match r with
    | Err _ => exists TT', system_ok w' m TT' others /\ machine_eq (machine w' m TT') (machine w m TT)
    | Ok image => exists plan stack P id m2 w2 TT2, Elf.plan data USER_STACK_GUARD = Ok plan /\ initial_stack plan argv envp tsc = Ok stack /\ loaded data plan stack P /\
        install_current kernel_root w' m previous image = Some (id, (Elf.entry plan, Stack.stack_pointer stack), m2, w2) /\
        system_ok w2 m2 TT2 others /\ active m2 = Some id /\ machine w m TT id = None /\
        machine_eq (machine w2 m2 TT2) (set_proc (without previous (machine w m TT)) id (Some (image_map image, P)))
    end.
Proof.
  intros Hok Hnx Hprev Hfile Hsz Hb Ha He. unfold prepare. rewrite (read_program_exact fs path data Hfile Hsz).
  destruct (load_spec kernel_pml4 kernel_root w m TT others Hok reserve tsc data argv envp Hb Ha He) as (r & w' & -> & Ho). exists r, w'. split; [done|].
  destruct r as [image|e]; [|exact Ho]. destruct Ho as (plan & stack & P & TT' & T & H1 & H2 & H3 & H4 & H5 & H6 & H7 & H8).
  destruct (install_spec w w' m TT TT' T others previous image P Hok Hnx Hprev H6 H7 H8) as (id & m2 & w2 & TT2 & G1 & G2 & G3 & G4 & G5).
  exists plan, stack, P, id, m2, w2, TT2. rewrite <- H3, <- H4. done.
Qed.
End Install.

(** ** A program that runs

    The executable of [Elf] as the file [/a], started by the first process. *)

Definition program_ops : list (VfsSpec.op (I := World.Handle unit)) :=
  [VfsSpec.OMount ROOT (World.HRam 1 1) []; VfsSpec.OOpen 1 [SLASH; 97] FsClaims.rw_create; VfsSpec.OWrite 1 0 Elf.tiny].
Definition program_fs : Vfs.Fs (World.World unit) (World.Handle unit) := foldl VfsSpec.run_op FsClaims.boot program_ops.

Lemma program_file : file_at program_fs [SLASH; 97] Elf.tiny.
Proof.
  destruct (World.ram (Vfs.world program_fs) !! 1) as [st|] eqn:E; [|vm_compute in E; discriminate E]. exists 1, 2, st.
  split; [vm_compute; reflexivity|]. split; [exact E|].
  assert (H : (fun x => x ≫= fun st => Ramfs.nodes st !! 2) (World.ram (Vfs.world program_fs) !! 1) = Some (Ramfs.File Elf.tiny)) by (vm_compute; reflexivity).
  rewrite E in H. exact H.
Qed.

Definition started : option (result Errno PreparedImage * Ram.Ram * Vfs.Fs (World.World unit) (World.Handle unit)) :=
  prepare (fun _ => 0) 0 (fun _ => true) 12345 Ram.empty_ram program_fs [SLASH; 97] [[SLASH; 97]] [].

Lemma started_ok : exists image w', started = Some (Ok image, w', program_fs).
Proof.
  assert (H : match started with Some (Ok i, _, _) => image_entry i | _ => 0 end = 4194424) by (vm_compute; reflexivity).
  destruct started as [[[[image|e] w'] fs]|] eqn:E; [|discriminate H..]. exists image, w'. 
  unfold started, prepare in E. rewrite (read_program_exact program_fs _ _ program_file) in E by (vm_compute; discriminate).
  destruct (load _ _ _ _ _ _ _ _) as [[r w1]|]; [|discriminate E]. injection E as -> -> <-. reflexivity.
Qed.

Lemma tiny_bytes : Forall Elf.byte Elf.tiny.
Proof. apply Forall_forall. intros b Hb. assert (H : forallb (fun b => (0 <=? b) && (b <? 256)) Elf.tiny = true) by (vm_compute; reflexivity).
  rewrite forallb_forall in H. apply list_elem_of_In in Hb. specialize (H b Hb). unfold Elf.byte. lia. Qed.

Lemma exec_runs_program_witness : exists image w' P m2 w2 sp, started = Some (Ok image, w', program_fs) /\
  install_current 0 w' (boot 0) None image = Some (1, (4194424, sp), m2, w2) /\ active m2 = Some 1 /\ byte_of P 4194424 = Some 235 /\
  exists TT2, proc_eq (machine w2 m2 TT2 1) (Some (image_map image, P)).
Proof.
  destruct started_ok as (image & w' & E).
  destruct (exec_runs_program (exact := true) (fun _ => 0) 0 Ram.empty_ram (boot 0) (fun _ _ _ => None) (refs Ram.empty_ram) program_fs [SLASH; 97] Elf.tiny [[SLASH; 97]] [] None (fun _ => true) 12345)
    as (r & w1 & E1 & Hr).
  - exact (boot_ok (fun _ => 0) 0 true Ram.empty_ram Ram.empty_ram_wf ltac:(discriminate)).
  - reflexivity.
  - discriminate.
  - exact program_file.
  - vm_compute. discriminate.
  - exact tiny_bytes.
  - repeat constructor; vm_compute; discriminate.
  - constructor.
  - change (started = Some (r, w1, program_fs)) in E1. rewrite E in E1. injection E1 as <- <-. cbv beta iota in Hr.
    destruct Hr as (plan & stack & P & id & m2 & w2 & TT2 & H1 & _ & H3 & H4 & _ & H5 & _ & H6).
    assert (Ep : plan = Elf.tiny_plan). { assert (H : Elf.plan Elf.tiny USER_STACK_GUARD = Ok Elf.tiny_plan) by (vm_compute; reflexivity). rewrite H in H1. injection H1 as <-. reflexivity. }
    subst plan. assert (Eid : id = 1). { unfold install_current in H4. cbn in H4. injection H4 as <- _ _ _. reflexivity. }
    subst id. exists image, w', P, m2, w2, (Stack.stack_pointer stack). split; [exact E|]. split; [exact H4|]. split; [exact H5|]. split.
    + destruct (ld_segment _ _ _ _ H3 Elf.tiny_segment 4194424) as [H _]; [apply list_elem_of_singleton; reflexivity|reflexivity|]. rewrite H. vm_compute. reflexivity.
    + exists TT2. specialize (H6 1). exact H6.
Defined.
End ExecClaims.
