(* ===== verification/ShellParse.v ===== *)
(** * ShellParse: the shell's command lines ([userspace/sh/src/parse.rs])

    A line is the list of its characters (scalar values).  The [Peekable]
    iterator of the source is the list of the characters left.  [tokenize] and
    the loop over a double-quoted part carry fuel ([None] when it runs out);
    every round takes at least one character, so one more than the length of
    the line is enough ([parse_total]).

    Proved: printing commands with every word in single quotes and parsing the
    line gives the commands back, whatever the words and the variables; and
    the commands, words and redirections a line has do not depend on what the
    variables hold, as long as it is not empty: a value is never split,
    redirected or executed. *)

From stdpp Require Import base numbers list.
From S2P Require Import Prelude.
Local Open Scope Z_scope.

Module Parse.

Inductive RedirectKind := Output | Append | Input.

Record Redirect := mkRedirect { kind : RedirectKind; target : list Z }.

Record Command := mkCommand { words : list (list Z); redirects : list Redirect }.

Inductive ParseError := UnterminatedQuote | MissingRedirectTarget | BadSubstitution.

Inductive Token :=
| Word (text : list Z) (quoted : bool)
| TRedirect (k : RedirectKind)
| Separator.

#[global] Instance RedirectKind_eq_dec : EqDecision RedirectKind.
Proof. solve_decision. Defined.
#[global] Instance Redirect_eq_dec : EqDecision Redirect.
Proof. solve_decision. Defined.
#[global] Instance Command_eq_dec : EqDecision Command.
Proof. solve_decision. Defined.

(** The characters the syntax is made of. *)
Definition TAB := 9.
Definition LF := 10.
Definition CR := 13.
Definition SPACE := 32.
Definition DQUOTE := 34.
Definition HASH := 35.
Definition DOLLAR := 36.
Definition QUOTE := 39.
Definition SEMI := 59.
Definition LESS := 60.
Definition GREATER := 62.
Definition QUESTION := 63.
Definition BACKSLASH := 92.
Definition UNDERSCORE := 95.
Definition LBRACE := 123.
Definition RBRACE := 125.

Definition is_ascii_alphabetic (c : Z) : bool :=
  ((65 <=? c) && (c <=? 90)) || ((97 <=? c) && (c <=? 122)).
Definition is_ascii_digit (c : Z) : bool := (48 <=? c) && (c <=? 57).
Definition is_ascii_alphanumeric (c : Z) : bool := is_ascii_alphabetic c || is_ascii_digit c.

Definition is_name_start (c : Z) : bool := (c =? UNDERSCORE) || is_ascii_alphabetic c.
Definition is_name (c : Z) : bool := (c =? UNDERSCORE) || is_ascii_alphanumeric c.

Section Lookup.
Context (lookup : list Z -> option (list Z)).

Definition unwrap_or_default (o : option (list Z)) : list Z := default [] o.

(** The loop of [${NAME}]: up to the brace. *)
Fixpoint braced (name cs : list Z) : result ParseError (list Z * list Z) :=
  match cs with
  | [] => Err BadSubstitution
  | c :: cs =>
      if c =? RBRACE then Ok (name, cs)
      else if is_name c then braced (name ++ [c]) cs else Err BadSubstitution
  end.

(** The loop of [$NAME]: the longest name. *)
Fixpoint longest (name cs : list Z) : list Z * list Z :=
  match cs with
  | [] => (name, [])
  | c :: rest => if is_name c then longest (name ++ [c]) rest else (name, cs)
  end.

(** The value of the reference after a [$], and the characters left. *)
Definition expand (cs : list Z) : result ParseError (list Z * list Z) :=
  match cs with
  | [] => Ok ([DOLLAR], cs)
  | c :: rest =>
      if c =? QUESTION then Ok (unwrap_or_default (lookup [QUESTION]), rest)
      else if c =? LBRACE then
        let? '(name, rest) := braced [] rest in
        (if bool_decide (name = []) then Err BadSubstitution
         else Ok (unwrap_or_default (lookup name), rest))
      else if is_name_start c then
        let '(name, rest) := longest [] cs in Ok (unwrap_or_default (lookup name), rest)
      else Ok ([DOLLAR], cs)
  end.

(** The local variables of [tokenize]. *)
Record Lexer := mkLexer { tokens : list Token; word : list Z; in_word : bool; quoted : bool }.

Definition finish (s : Lexer) : Lexer :=
  mkLexer
    (if in_word s && (negb (bool_decide (word s = [])) || quoted s)
     then tokens s ++ [Word (word s) (quoted s)] else tokens s)
    [] false false.

Definition push_token (t : Token) (s : Lexer) : Lexer :=
  mkLexer (tokens s ++ [t]) (word s) (in_word s) (quoted s).
Definition push_str (text : list Z) (s : Lexer) : Lexer :=
  mkLexer (tokens s) (word s ++ text) true (quoted s).
Definition start_quoted (s : Lexer) : Lexer := mkLexer (tokens s) (word s) true true.

Fixpoint single_quoted (cs : list Z) (s : Lexer) : result ParseError (Lexer * list Z) :=
  match cs with
  | [] => Err UnterminatedQuote
  | c :: cs => if c =? QUOTE then Ok (s, cs) else single_quoted cs (push_str [c] s)
  end.

Fixpoint double_quoted (fuel : nat) (cs : list Z) (s : Lexer) : option (result ParseError (Lexer * list Z)) :=
  match fuel with
  | O => None
  | S fuel =>
      match cs with
      | [] => Some (Err UnterminatedQuote)
      | c :: cs =>
          if c =? DQUOTE then Some (Ok (s, cs))
          else if c =? BACKSLASH then
            match cs with
            | [] => Some (Err UnterminatedQuote)
            | c :: cs =>
                if (c =? DQUOTE) || (c =? BACKSLASH) || (c =? DOLLAR)
                then double_quoted fuel cs (push_str [c] s)
                else double_quoted fuel cs (push_str [BACKSLASH; c] s)
            end
          else if c =? DOLLAR then
            match expand cs with
            | Ok (value, cs) => double_quoted fuel cs (push_str value s)
            | Err e => Some (Err e)
            end
          else double_quoted fuel cs (push_str [c] s)
      end
  end.

Fixpoint tokenize_loop (fuel : nat) (cs : list Z) (s : Lexer) : option (result ParseError (list Token)) :=
  match fuel with
  | O => None
  | S fuel =>
      match cs with
      | [] => Some (Ok (tokens (finish s)))
      | c :: cs =>
          if (c =? SPACE) || (c =? TAB) || (c =? LF) || (c =? CR) then tokenize_loop fuel cs (finish s)
          else if (c =? HASH) && negb (in_word s) then Some (Ok (tokens (finish s)))
          else if c =? SEMI then tokenize_loop fuel cs (push_token Separator (finish s))
          else if c =? LESS then tokenize_loop fuel cs (push_token (TRedirect Input) (finish s))
          else if c =? GREATER then
            match cs with
            | d :: rest =>
                if d =? GREATER then tokenize_loop fuel rest (push_token (TRedirect Append) (finish s))
                else tokenize_loop fuel cs (push_token (TRedirect Output) (finish s))
            | [] => tokenize_loop fuel cs (push_token (TRedirect Output) (finish s))
            end
          else if c =? QUOTE then
            match single_quoted cs (start_quoted s) with
            | Ok (s, cs) => tokenize_loop fuel cs s
            | Err e => Some (Err e)
            end
          else if c =? DQUOTE then
            match double_quoted fuel cs (start_quoted s) with
            | Some (Ok (s, cs)) => tokenize_loop fuel cs s
            | Some (Err e) => Some (Err e)
            | None => None
            end
          else if c =? BACKSLASH then
            match cs with
            | c :: cs => tokenize_loop fuel cs (push_str [c] (start_quoted s))
            | [] => tokenize_loop fuel cs (start_quoted s)
            end
          else if c =? DOLLAR then
            match expand cs with
            | Ok (value, cs) => tokenize_loop fuel cs (push_str value s)
            | Err e => Some (Err e)
            end
          else tokenize_loop fuel cs (push_str [c] s)
      end
  end.

Definition tokenize (line : list Z) : option (result ParseError (list Token)) :=
  tokenize_loop (S (length line)) line (mkLexer [] [] false false).

Definition empty_command : Command := mkCommand [] [].
Definition is_empty_command (c : Command) : bool :=
  bool_decide (words c = []) && bool_decide (redirects c = []).
Definition push_command (c : Command) (commands : list Command) : list Command :=
  if negb (is_empty_command c) then commands ++ [c] else commands.

Fixpoint parse_loop (ts : list Token) (current : Command) (commands : list Command) : result ParseError (list Command) :=
  match ts with
  | [] => Ok (push_command current commands)
  | Word w _ :: ts => parse_loop ts (mkCommand (words current ++ [w]) (redirects current)) commands
  | TRedirect k :: Word t _ :: ts =>
      parse_loop ts (mkCommand (words current) (redirects current ++ [mkRedirect k t])) commands
  | TRedirect _ :: _ => Err MissingRedirectTarget
  | Separator :: ts => parse_loop ts empty_command (push_command current commands)
  end.

Definition parse (line : list Z) : option (result ParseError (list Command)) :=
  match tokenize line with
  | Some (Ok ts) => Some (parse_loop ts empty_command [])
  | Some (Err e) => Some (Err e)
  | None => None
  end.

End Lookup.

(** ** Fuel *)

Lemma braced_shorter name cs n rest : braced name cs = Ok (n, rest) -> (length rest < length cs)%nat.
Proof.
  revert name. induction cs as [|c cs IH]; intros name; cbn [braced]; [done|].
  case_if; [intros [= <- <-]; simpl; lia|]. case_if; [|done]. intros Hlt%IH. simpl. lia.
Qed.

Lemma longest_shorter name cs : (length (longest name cs).2 <= length cs)%nat.
Proof.
  revert name. induction cs as [|c cs IH]; intros name; cbn [longest]; [done|].
  case_if; [|done]. specialize (IH (name ++ [c])). simpl. lia.
Qed.

Section Fuel.
Context (lookup : list Z -> option (list Z)).

Lemma expand_shorter cs value rest : expand lookup cs = Ok (value, rest) -> (length rest <= length cs)%nat.
Proof.
  unfold expand. destruct cs as [|c cs]; [by intros [= <- <-]|].
  case_if; [intros [= <- <-]; simpl; lia|]. case_if.
  { destruct (braced [] cs) as [[name r]|] eqn:Hb; [|done]. case_if; [done|]. intros [= <- <-].
    apply braced_shorter in Hb. simpl. lia. }
  case_if; [|by intros [= <- <-]].
  pose proof (longest_shorter [] (c :: cs)) as Hl. destruct (longest [] (c :: cs)). by intros [= <- <-].
Qed.

Lemma single_quoted_shorter cs s s' rest : single_quoted cs s = Ok (s', rest) -> (length rest < length cs)%nat.
Proof.
  revert s. induction cs as [|c cs IH]; intros s; cbn [single_quoted]; [done|].
  case_if; [intros [= <- <-]; simpl; lia|]. intros Hlt%IH. simpl. lia.
Qed.

Lemma double_quoted_shorter n cs s s' rest :
  double_quoted lookup n cs s = Some (Ok (s', rest)) -> (length rest < length cs)%nat.
Proof.
  revert cs s. induction n as [|n IH]; intros cs s; cbn [double_quoted]; [done|].
  destruct cs as [|c cs]; [done|]. case_if; [intros [= <- <-]; simpl; lia|]. case_if.
  { destruct cs as [|d cs]; [done|]. case_if; intros Hlt%IH; simpl; lia. }
  case_if; [|intros Hlt%IH; simpl; lia].
  destruct (expand lookup cs) as [[value cs']|] eqn:Hx; [|done]. apply expand_shorter in Hx.
  intros Hlt%IH. simpl. lia.
Qed.

Lemma double_quoted_total n cs s : (length cs < n)%nat -> is_Some (double_quoted lookup n cs s).
Proof.
  revert cs s. induction n as [|n IH]; intros cs s Hn; [lia|]. cbn [double_quoted].
  destruct cs as [|c cs]; [eauto|]. simpl in Hn. case_if; [eauto|]. case_if.
  { destruct cs as [|d cs]; [eauto|]. simpl in Hn. case_if; apply IH; lia. }
  case_if; [|apply IH; lia].
  destruct (expand lookup cs) as [[value cs']|] eqn:Hx; [|eauto]. apply expand_shorter in Hx. apply IH. lia.
Qed.

Lemma double_quoted_mono n m cs s r :
  (n <= m)%nat -> double_quoted lookup n cs s = Some r -> double_quoted lookup m cs s = Some r.
Proof.
  revert m cs s. induction n as [|n IH]; intros [|m] cs s Hm; [done|done|lia|]. cbn [double_quoted].
  destruct cs as [|c cs]; [done|]. case_if; [done|]. case_if.
  { destruct cs as [|d cs]; [done|]. case_if; apply IH; lia. }
  case_if; [|apply IH; lia]. destruct (expand lookup cs) as [[value cs']|]; [apply IH; lia|done].
Qed.

Lemma tokenize_loop_total n cs s : (length cs < n)%nat -> is_Some (tokenize_loop lookup n cs s).
Proof.
  revert cs s. induction n as [|n IH]; intros cs s Hn; [lia|]. cbn [tokenize_loop].
  destruct cs as [|c cs]; [eauto|]. simpl in Hn.
  do 4 (case_if; [try (apply IH; lia); eauto|]). case_if.
  { destruct cs as [|d cs]; simpl in Hn; [|case_if]; apply IH; simpl; lia. }
  case_if.
  { destruct (single_quoted _ _) as [[s' cs']|] eqn:Hq; [|eauto]. apply single_quoted_shorter in Hq. apply IH. lia. }
  case_if.
  { destruct (double_quoted_total n cs (start_quoted s)) as [r Hr]; [lia|]. rewrite Hr.
    destruct r as [[s' cs']|]; [|eauto]. apply double_quoted_shorter in Hr. apply IH. lia. }
  case_if; [destruct cs; simpl in Hn; apply IH; simpl; lia|].
  case_if; [|apply IH; lia].
  destruct (expand lookup cs) as [[value cs']|] eqn:Hx; [|eauto]. apply expand_shorter in Hx. apply IH. lia.
Qed.

Lemma tokenize_loop_mono n m cs s r :
  (n <= m)%nat -> tokenize_loop lookup n cs s = Some r -> tokenize_loop lookup m cs s = Some r.
Proof.
  revert m cs s. induction n as [|n IH]; intros [|m] cs s Hm; [done|done|lia|]. cbn [tokenize_loop].
  destruct cs as [|c cs]; [done|].
  do 4 (case_if; [try (apply IH; lia); done|]). case_if.
  { destruct cs as [|d cs]; [|case_if]; apply IH; lia. }
  case_if; [destruct (single_quoted _ _) as [[s' cs']|]; [apply IH; lia|done]|].
  case_if.
  { destruct (double_quoted lookup n cs (start_quoted s)) as [d|] eqn:Hd; [|done].
    rewrite (double_quoted_mono n m _ _ d) by (done || lia). destruct d as [[s' cs']|]; [apply IH; lia|done]. }
  case_if; [destruct cs; apply IH; lia|].
  case_if; [|apply IH; lia]. destruct (expand lookup cs) as [[value cs']|]; [apply IH; lia|done].
Qed.

(** What the loop computes, whatever the fuel. *)
Definition lexes (cs : list Z) (s : Lexer) (r : result ParseError (list Token)) : Prop :=
  exists n, tokenize_loop lookup n cs s = Some r.

Lemma tokenize_lexes line r : lexes line (mkLexer [] [] false false) r <-> tokenize lookup line = Some r.
Proof.
  split; [|by intros H; exists (S (length line))].
  intros [n Hn]. unfold tokenize.
  destruct (tokenize_loop_total (S (length line)) line (mkLexer [] [] false false)) as [r' Hr']; [lia|].
  rewrite Hr'. pose proof (tokenize_loop_mono n (n + S (length line))%nat _ _ _ ltac:(lia) Hn) as H1.
  pose proof (tokenize_loop_mono (S (length line)) (n + S (length line))%nat _ _ _ ltac:(lia) Hr') as H2. congruence.
Qed.

Lemma parse_is_total line : is_Some (parse lookup line).
Proof.
  unfold parse, tokenize.
  destruct (tokenize_loop_total (S (length line)) line (mkLexer [] [] false false)) as [[ts|e] ->]; eauto.
Qed.

End Fuel.

(** ** Printing with quotes *)

(** A word in single quotes; a quote in it closes them, is escaped, and opens
    them again. *)
Definition quote (w : list Z) : list Z :=
  [QUOTE] ++ mbind (fun c => if c =? QUOTE then [QUOTE; BACKSLASH; QUOTE; QUOTE] else [c]) w ++ [QUOTE].

Definition operator (k : RedirectKind) : list Z :=
  match k with Output => [GREATER] | Append => [GREATER; GREATER] | Input => [LESS] end.

Definition print_redirect (r : Redirect) : list Z := operator (kind r) ++ [SPACE] ++ quote (target r) ++ [SPACE].
Definition print_command (c : Command) : list Z :=
  mbind (fun w => quote w ++ [SPACE]) (words c) ++ mbind print_redirect (redirects c) ++ [SEMI].
Definition print (cs : list Command) : list Z := mbind print_command cs.

Section Print.
Context (lookup : list Z -> option (list Z)).
Local Abbreviation lexes := (lexes lookup).

Lemma lexes_step n cs s cs' s' r :
  (forall n, tokenize_loop lookup (S n) cs s = tokenize_loop lookup n cs' s') ->
  tokenize_loop lookup n cs' s' = Some r -> lexes cs s r.
Proof. intros Hs Hn. exists (S n). by rewrite Hs. Qed.

Lemma lexes_space cs s r : lexes cs (finish s) r -> lexes (SPACE :: cs) s r.
Proof. intros [n Hn]. by eapply lexes_step. Qed.

Lemma lexes_semi cs s r : lexes cs (push_token Separator (finish s)) r -> lexes (SEMI :: cs) s r.
Proof. intros [n Hn]. by eapply lexes_step. Qed.

Lemma lexes_operator k cs s r :
  lexes (SPACE :: cs) (push_token (TRedirect k) (finish s)) r -> lexes (operator k ++ SPACE :: cs) s r.
Proof. intros [n Hn]. by destruct k; eapply lexes_step. Qed.

Lemma lexes_escaped_quote cs s r :
  lexes cs (push_str [QUOTE] (start_quoted s)) r -> lexes (BACKSLASH :: QUOTE :: cs) s r.
Proof. intros [n Hn]. by eapply lexes_step. Qed.

Lemma lexes_single cs s s' cs' r :
  single_quoted cs (start_quoted s) = Ok (s', cs') -> lexes cs' s' r -> lexes (QUOTE :: cs) s r.
Proof. intros Hq [n Hn]. exists (S n). cbn [tokenize_loop]. simpl. by rewrite Hq. Qed.

Lemma push_str_app a b s : push_str b (push_str a s) = push_str (a ++ b) s.
Proof. unfold push_str. simpl. by rewrite (assoc_L (++)). Qed.

Lemma start_quoted_push a s : start_quoted s = s -> start_quoted (push_str a s) = push_str a s.
Proof. destruct s. unfold start_quoted, push_str. simpl. by intros [= <- <-]. Qed.

Lemma push_str_nil s : start_quoted s = s -> push_str [] s = s.
Proof. destruct s. unfold start_quoted, push_str. simpl. rewrite (right_id_L [] (++)). by intros [= <- <-]. Qed.

(** From inside the quotes of a printed word to the end of it. *)
Lemma lexes_quoted w cs s r :
  start_quoted s = s -> lexes cs (push_str w s) r ->
  exists s' cs', single_quoted (mbind (fun c => if c =? QUOTE then [QUOTE; BACKSLASH; QUOTE; QUOTE] else [c]) w ++ QUOTE :: cs) s = Ok (s', cs') /\ lexes cs' s' r.
Proof.
  revert s. induction w as [|c w IH]; intros s Hs Hr.
  { exists s, cs. split; [done|]. by rewrite push_str_nil in Hr. }
  change (c :: w) with ([c] ++ w) in Hr. rewrite <- push_str_app in Hr. apply IH in Hr; [|by apply start_quoted_push].
  destruct Hr as (s' & cs' & Hq & Hl). cbn [mbind list_bind]. destruct (Z.eqb_spec c QUOTE) as [->|Hne].
  - exists s. eexists. split; [done|]. apply lexes_escaped_quote. rewrite Hs.
    eapply lexes_single; [|done]. by rewrite start_quoted_push.
  - exists s', cs'. split; [|done]. cbn [app single_quoted]. by rewrite (proj2 (Z.eqb_neq c QUOTE) Hne).
Qed.

(** A printed word and the space after it are one token. *)
Lemma lexes_word w cs ts r :
  lexes cs (mkLexer (ts ++ [Word w true]) [] false false) r ->
  lexes (quote w ++ SPACE :: cs) (mkLexer ts [] false false) r.
Proof.
  intros Hr. unfold quote. rewrite <- !(assoc_L (++)). cbn [app].
  destruct (lexes_quoted w (SPACE :: cs) (mkLexer ts [] true true) r) as (s' & cs' & Hq & Hl); [done| |].
  - apply lexes_space. unfold finish, push_str. simpl. by destruct (bool_decide _).
  - by eapply lexes_single.
Qed.

Lemma lexes_words ws cs ts r :
  lexes cs (mkLexer (ts ++ ((fun w => Word w true) <$> ws)) [] false false) r ->
  lexes (mbind (fun w => quote w ++ [SPACE]) ws ++ cs) (mkLexer ts [] false false) r.
Proof.
  revert ts. induction ws as [|w ws IH]; intros ts Hr; [cbn in Hr; by rewrite (right_id_L [] (++)) in Hr|].
  cbn [mbind list_bind]. rewrite <- !(assoc_L (++)). apply lexes_word, IH. by rewrite <- (assoc_L (++)).
Qed.

Definition redirect_tokens (rs : list Redirect) : list Token :=
  mbind (fun r => [TRedirect (kind r); Word (target r) true]) rs.

Lemma lexes_redirects rs cs ts r :
  lexes cs (mkLexer (ts ++ redirect_tokens rs) [] false false) r ->
  lexes (mbind print_redirect rs ++ cs) (mkLexer ts [] false false) r.
Proof.
  revert ts. induction rs as [|d rs IH]; intros ts Hr; [cbn in Hr; by rewrite (right_id_L [] (++)) in Hr|].
  cbn [mbind list_bind]. unfold print_redirect at 1. rewrite <- !(assoc_L (++)). apply lexes_operator, lexes_space.
  change (finish _) with (mkLexer (ts ++ [TRedirect (kind d)]) [] false false). apply lexes_word, IH. rewrite <- !(assoc_L (++)). exact Hr.
Qed.

Definition command_tokens (c : Command) : list Token :=
  ((fun w => Word w true) <$> words c) ++ redirect_tokens (redirects c) ++ [Separator].

Lemma lexes_print cs ts :
  lexes (print cs) (mkLexer ts [] false false) (Ok (ts ++ mbind command_tokens cs)).
Proof.
  revert ts. induction cs as [|c cs IH]; intros ts.
  { exists 1%nat. cbn; by rewrite (right_id_L [] (++)). }
  unfold print. cbn [mbind list_bind]. unfold print_command at 1. rewrite <- !(assoc_L (++)).
  apply lexes_words, lexes_redirects, lexes_semi. specialize (IH (ts ++ command_tokens c)).
  unfold command_tokens in IH at 1 2. rewrite <- !(assoc_L (++)) in IH.
  change (finish (mkLexer ?ts [] false false)) with (mkLexer ts [] false false). unfold push_token.
  cbn [tokens word in_word quoted mbind list_bind]. unfold command_tokens at 1. rewrite <- !(assoc_L (++)). exact IH.
Qed.

Lemma parse_words ws ts c cs :
  parse_loop (((fun w => Word w true) <$> ws) ++ ts) c cs = parse_loop ts (mkCommand (words c ++ ws) (redirects c)) cs.
Proof.
  revert c. induction ws as [|w ws IH]; intros c; simpl; [rewrite (right_id_L [] (++)); by destruct c|].
  rewrite IH. simpl. by rewrite <- (assoc_L (++)).
Qed.

Lemma parse_redirects rs ts c cs :
  parse_loop (redirect_tokens rs ++ ts) c cs = parse_loop ts (mkCommand (words c) (redirects c ++ rs)) cs.
Proof.
  revert c. induction rs as [|d rs IH]; intros c; simpl; [rewrite (right_id_L [] (++)); by destruct c|].
  unfold redirect_tokens in IH. rewrite IH. simpl. rewrite <- (assoc_L (++)). by destruct d.
Qed.

Lemma parse_tokens cs acc :
  Forall (fun c => c <> empty_command) cs -> parse_loop (mbind command_tokens cs) empty_command acc = Ok (acc ++ cs).
Proof.
  revert acc. induction cs as [|c cs IH]; intros acc Hf; [by rewrite (right_id_L [] (++))|].
  apply Forall_cons in Hf as [Hc Hf]. cbn [mbind list_bind]. unfold command_tokens at 1.
  rewrite <- !(assoc_L (++)), parse_words, parse_redirects. cbn -[mbind]. 
  replace (push_command _ acc) with (acc ++ [c]); [rewrite (IH (acc ++ [c])) by done; by rewrite <- (assoc_L (++))|].
  unfold push_command, is_empty_command. destruct c as [[|w ws] [|d rs]]; done.
Qed.

End Print.

(** ** Expansion does not change the shape of a line *)

Definition result_rel {A B : Type} (R : A -> B -> Prop) (r1 : result ParseError A) (r2 : result ParseError B) : Prop :=
  match r1, r2 with
  | Ok a, Ok b => R a b
  | Err e, Err e' => e = e'
  | _, _ => False
  end.

(** Both are empty or none is. *)
Definition alike (a b : list Z) : Prop := a = [] <-> b = [].

Definition same_token (t1 t2 : Token) : Prop :=
  match t1, t2 with
  | Word _ q1, Word _ q2 => q1 = q2
  | TRedirect k1, TRedirect k2 => k1 = k2
  | Separator, Separator => True
  | _, _ => False
  end.

(** As many words, and the same redirections but for their targets. *)
Definition same_command (c1 c2 : Command) : Prop :=
  length (words c1) = length (words c2) /\ (kind <$> redirects c1) = (kind <$> redirects c2).

Definition same_lexer (s1 s2 : Lexer) : Prop :=
  Forall2 same_token (tokens s1) (tokens s2) /\ alike (word s1) (word s2) /\
  in_word s1 = in_word s2 /\ quoted s1 = quoted s2.

Section Shape.
Context (l1 l2 : list Z -> option (list Z)).
Context (Hl : forall name, alike (unwrap_or_default (l1 name)) (unwrap_or_default (l2 name))).

Lemma alike_app a b a' b' : alike a b -> alike a' b' -> alike (a ++ a') (b ++ b').
Proof. unfold alike. intros H1 H2. rewrite !app_nil. tauto. Qed.

Lemma expand_shape cs : result_rel (fun p q => p.2 = q.2 /\ alike p.1 q.1) (expand l1 cs) (expand l2 cs).
Proof.
  unfold expand. destruct cs as [|c cs]; [done|]. case_if; [by split; [|apply Hl]|]. case_if.
  { destruct (braced [] cs) as [[name r]|]; [|done]. case_if; [done|]. by split; [|apply Hl]. }
  case_if; [|done]. destruct (longest [] (c :: cs)). by split; [|apply Hl].
Qed.

Lemma push_str_shape v1 v2 s1 s2 : alike v1 v2 -> same_lexer s1 s2 -> same_lexer (push_str v1 s1) (push_str v2 s2).
Proof. intros Hv (Ht & Hw & Hi & Hq). repeat split; try done; apply (alike_app _ _ _ _ Hw Hv). Qed.

Lemma start_quoted_shape s1 s2 : same_lexer s1 s2 -> same_lexer (start_quoted s1) (start_quoted s2).
Proof. intros (Ht & Hw & Hi & Hq). by repeat split; try apply Hw. Qed.

Lemma finish_shape s1 s2 : same_lexer s1 s2 -> same_lexer (finish s1) (finish s2).
Proof.
  intros (Ht & Hw & Hi & Hq). unfold finish. repeat split; simpl; try done. rewrite <- Hi, <- Hq.
  rewrite (bool_decide_ext _ _ Hw). case_if; [|done]. apply Forall2_app; [done|]. by constructor.
Qed.

Lemma push_token_shape t s1 s2 : same_token t t -> same_lexer s1 s2 -> same_lexer (push_token t s1) (push_token t s2).
Proof.
  intros Hself (Ht & Hw & Hi & Hq). repeat split; try done; try apply Hw. apply Forall2_app; [done|]. by constructor.
Qed.

Lemma single_quoted_shape cs s1 s2 :
  same_lexer s1 s2 ->
  result_rel (fun p q => same_lexer p.1 q.1 /\ p.2 = q.2) (single_quoted cs s1) (single_quoted cs s2).
Proof.
  revert s1 s2. induction cs as [|c cs IH]; intros s1 s2 Hs; cbn [single_quoted]; [done|].
  case_if; [done|]. apply IH. by apply push_str_shape.
Qed.

Lemma double_quoted_shape n cs s1 s2 :
  same_lexer s1 s2 ->
  option_Forall2 (result_rel (fun p q => same_lexer p.1 q.1 /\ p.2 = q.2)) (double_quoted l1 n cs s1) (double_quoted l2 n cs s2).
Proof.
  revert cs s1 s2. induction n as [|n IH]; intros cs s1 s2 Hs; cbn [double_quoted]; [constructor|].
  destruct cs as [|c cs]; [by constructor|]. case_if; [by constructor|]. case_if.
  { destruct cs as [|d cs]; [by constructor|]. case_if; by apply IH, push_str_shape. }
  case_if; [|by apply IH, push_str_shape].
  pose proof (expand_shape cs) as Hx. destruct (expand l1 cs) as [[v1 r1]|], (expand l2 cs) as [[v2 r2]|]; try done.
  - simpl in Hx. destruct Hx as [-> Hv]. by apply IH, push_str_shape.
  - constructor. exact Hx.
Qed.

Lemma tokenize_loop_shape n cs s1 s2 :
  same_lexer s1 s2 ->
  option_Forall2 (result_rel (Forall2 same_token)) (tokenize_loop l1 n cs s1) (tokenize_loop l2 n cs s2).
Proof.
  revert cs s1 s2. induction n as [|n IH]; intros cs s1 s2 Hs; cbn [tokenize_loop]; [constructor|].
  pose proof (finish_shape _ _ Hs) as Hf. pose proof (proj1 (proj2 (proj2 Hs))) as Hi. rewrite <- Hi.
  destruct cs as [|c cs]; [constructor; apply Hf|]. case_if; [by apply IH|]. case_if; [constructor; apply Hf|].
  do 2 (case_if; [by apply IH, push_token_shape|]). case_if.
  { destruct cs; [|case_if]; by apply IH, push_token_shape. }
  case_if.
  { pose proof (single_quoted_shape cs _ _ (start_quoted_shape _ _ Hs)) as Hq.
    destruct (single_quoted cs (start_quoted s1)) as [[a ra]|], (single_quoted cs (start_quoted s2)) as [[b rb]|]; try done.
    - simpl in Hq. destruct Hq as [Hab ->]. by apply IH.
    - by constructor. }
  case_if.
  { pose proof (double_quoted_shape n cs _ _ (start_quoted_shape _ _ Hs)) as Hq.
    inversion Hq as [[[a ra]|] [[b rb]|] Hr|]; subst; try done; try constructor.
    - simpl in Hr. destruct Hr as [Hab ->]. by apply IH.
    - exact Hr. }
  case_if; [destruct cs; apply IH; [|apply push_str_shape; [done|]]; by apply start_quoted_shape|].
  case_if; [|by apply IH, push_str_shape].
  pose proof (expand_shape cs) as Hx. destruct (expand l1 cs) as [[v1 r1]|], (expand l2 cs) as [[v2 r2]|]; try done.
  - simpl in Hx. destruct Hx as [-> Hv]. by apply IH, push_str_shape.
  - constructor. exact Hx.
Qed.

Lemma push_command_shape c1 c2 cs1 cs2 :
  same_command c1 c2 -> Forall2 same_command cs1 cs2 -> Forall2 same_command (push_command c1 cs1) (push_command c2 cs2).
Proof.
  intros [Hw Hr] Hcs. unfold push_command, is_empty_command.
  assert (words c1 = [] <-> words c2 = []) as Hww by (rewrite <- !length_zero_iff_nil; lia).
  assert (redirects c1 = [] <-> redirects c2 = []) as Hrr.
  { apply (f_equal length) in Hr. rewrite !length_fmap in Hr. rewrite <- !length_zero_iff_nil. lia. }
  rewrite (bool_decide_ext _ _ Hww), (bool_decide_ext _ _ Hrr).
  case_if; [|done]. apply Forall2_app; [done|]. by repeat constructor.
Qed.

Lemma parse_loop_shape n ts1 ts2 c1 c2 cs1 cs2 :
  (length ts1 <= n)%nat -> Forall2 same_token ts1 ts2 -> same_command c1 c2 -> Forall2 same_command cs1 cs2 ->
  result_rel (Forall2 same_command) (parse_loop ts1 c1 cs1) (parse_loop ts2 c2 cs2).
Proof.
  revert ts1 ts2 c1 c2 cs1 cs2. induction n as [|n IH]; intros ts1 ts2 c1 c2 cs1 cs2 Hn Ht Hc Hcs;
    (destruct Ht as [|t1 t2 ts1 ts2 Ht Hts]; [by apply push_command_shape|]); simpl in Hn; [lia|].
  destruct Hc as [Hw Hr]. destruct t1 as [w1 q1|k1|], t2 as [w2 q2|k2|]; try done; simpl in Ht; cbn [parse_loop].
  - apply IH; [lia|done| |done]. split; simpl; [rewrite !length_app; simpl; lia|done].
  - subst k2. destruct Hts as [|t1 t2 ts1 ts2 Ht Hts]; [done|].
    destruct t1 as [w1 q1|k1'|], t2 as [w2 q2|k2|]; try done.
    apply IH; [simpl in Hn; lia|done| |done]. split; simpl; [done|]. rewrite !fmap_app, Hr. done.
  - apply IH; [lia|done|done|]. by apply push_command_shape.
Qed.

Lemma parse_shape line :
  exists r1 r2, parse l1 line = Some r1 /\ parse l2 line = Some r2 /\ result_rel (Forall2 same_command) r1 r2.
Proof.
  destruct (parse_is_total l1 line) as [r1 H1], (parse_is_total l2 line) as [r2 H2].
  exists r1, r2. split; [done|]. split; [done|]. revert H1 H2. unfold parse, tokenize.
  pose proof (tokenize_loop_shape (S (length line)) line (mkLexer [] [] false false) (mkLexer [] [] false false)) as Ht.
  destruct Ht as [[ts1|e1] [ts2|e2] Hts|]; try done.
  - intros [= <-] [= <-]. by apply (parse_loop_shape (length ts1)).
  - intros [= <-] [= <-]. exact Hts.
Qed.

End Shape.

Lemma parse_print lookup commands :
  Forall (fun c => c <> empty_command) commands -> parse lookup (print commands) = Some (Ok commands).
Proof.
  intros Hc. unfold parse. rewrite (proj1 (tokenize_lexes lookup _ _) (lexes_print lookup commands [])).
  f_equal. by apply (parse_tokens commands []).
Qed.

(** ** Theorems *)

(** C25. Quoting is exact: every list of commands can be written as a line,
    each word in single quotes, and the shell parses that line back to these
    commands, whatever characters the words hold (spaces, quotes, operators,
    [$], comments) and whatever the variables are.  (A command without words
    and redirections is the one that no line denotes.) *)
Theorem quoting_exact lookup commands :
  Forall (fun c => c <> empty_command) commands ->
  parse lookup (print commands) = Some (Ok commands).
Proof. apply parse_print. Qed.

(** C26. The parser ends on every line, and what it makes of a line depends on
    the variables only in which of them are empty: with other values the same
    error arises or the same commands, with as many words and the same
    redirections.  So the value of a variable is never split into words, read
    as an operator or quote, or expanded again. *)
Theorem expansion_never_splits l1 l2 line :
  (forall name, unwrap_or_default (l1 name) = [] <-> unwrap_or_default (l2 name) = []) ->
  exists r1 r2, parse l1 line = Some r1 /\ parse l2 line = Some r2 /\
    match r1, r2 with
    | Ok cs1, Ok cs2 =>
        Forall2 (fun c1 c2 => length (words c1) = length (words c2) /\
                              (kind <$> redirects c1) = (kind <$> redirects c2)) cs1 cs2
    | Err e1, Err e2 => e1 = e2
    | _, _ => False
    end.
Proof.
  intros Hl. destruct (parse_shape l1 l2 Hl line) as (r1 & r2 & H1 & H2 & Hr).
  exists r1, r2. split; [done|]. split; [done|]. exact Hr.
Qed.

(** ** Witnesses *)

(** [it's] with a space and an operator in it, and a target [$HOME]. *)
Definition sample_command : Command :=
  mkCommand [[101; 99; 104; 111]; [105; 116; 39; 115; 32; 62; 120]; []] [mkRedirect Append [36; 72; 79; 77; 69]].

Lemma quoting_exact_witness :
  print [sample_command] <> [] /\
  parse (fun _ => Some [59]) (print [sample_command]) = Some (Ok [sample_command]).
Proof.
  split; [done|]. apply (quoting_exact (fun _ => Some [59]) [sample_command]).
  repeat constructor. discriminate.
Defined.

(** [a $X > f], with a value full of syntax and with a plain one. *)
Lemma expansion_never_splits_witness :
  parse (fun _ => Some [59; 32; 62; 39]) [97; 32; 36; 88; 32; 62; 32; 102] =
    Some (Ok [mkCommand [[97]; [59; 32; 62; 39]] [mkRedirect Output [102]]]) /\
  exists r1 r2, parse (fun _ => Some [59; 32; 62; 39]) [97; 32; 36; 88; 32; 62; 32; 102] = Some r1 /\
    parse (fun _ => Some [121]) [97; 32; 36; 88; 32; 62; 32; 102] = Some r2 /\
    match r1, r2 with
    | Ok cs1, Ok cs2 =>
        Forall2 (fun c1 c2 => length (words c1) = length (words c2) /\
                              (kind <$> redirects c1) = (kind <$> redirects c2)) cs1 cs2
    | Err e1, Err e2 => e1 = e2
    | _, _ => False
    end.
Proof. split; [reflexivity|]. apply expansion_never_splits. intros name. simpl. done. Defined.

End Parse.
