(* ===== verification/Shell.v ===== *)
(** * Shell: the shell [/bin/sh] ([userspace/sh/src/main.rs])

    The shell's own state is [Shell]; the buffered standard output of
    [libsaeos/src/io.rs] is [out]; what the kernel does for it is the class
    [Os] over a type of worlds, with the laws of descriptors in [OsLaws].  A
    fork runs the child's part of [run_program] from the same state and gives
    the parent the status it waits for.  Strings are lists of characters;
    [as_bytes] is their UTF-8 encoding.

    Proved: a line is executed as the commands it denotes; a program gets
    exactly its words, the variables as environment and its standard
    descriptors where the redirections say, and no other descriptor; and two
    divergences: a line's variables and [$?] are those at its start, and text
    without a newline is printed after the output of a program run later. *)

From Stdlib Require Import String Ascii.
From stdpp Require Import base gmap numbers list.
From S2P Require Import Prelude Text Abi ShellParse.
Import Parse.
Local Open Scope Z_scope.

Module Sh.

(** ** Text *)

Definition text (s : string) : list Z := (fun a => Z.of_N (N_of_ascii a)) <$> list_ascii_of_string s.
Arguments text s%_string.

(** [char::encode_utf8]. *)
Definition encode_char (c : Z) : list Z :=
  if c <? 128 then [c]
  else if c <? 2048 then [192 + c / 64; 128 + c mod 64]
  else if c <? 65536 then [224 + c / 4096; 128 + c / 64 mod 64; 128 + c mod 64]
  else [240 + c / 262144; 128 + c / 4096 mod 64; 128 + c / 64 mod 64; 128 + c mod 64].
Definition as_bytes (s : list Z) : list Z := mbind encode_char s.

(** [i32::to_string]. *)
Fixpoint digits (fuel : nat) (n : Z) : list Z :=
  match fuel with
  | O => []
  | S fuel => if n <? 10 then [48 + n] else digits fuel (n / 10) ++ [48 + n mod 10]
  end.
Definition to_string (n : Z) : list Z := if n <? 0 then 45 :: digits 11 (- n) else digits 11 n.

(** [str::parse::<i32>]: digits after an optional sign, within the range. *)
Fixpoint parse_digits (ds : list Z) (n : Z) : option Z :=
  match ds with
  | [] => Some n
  | d :: ds => if is_ascii_digit d then parse_digits ds (10 * n + (d - 48)) else None
  end.
Definition parse_i32 (s : list Z) : option Z :=
  let number sign ds :=
    match ds with
    | [] => None
    | _ =>
        match parse_digits ds 0 with
        | Some n => if (- 2147483648 <=? sign * n) && (sign * n <=? 2147483647) then Some (sign * n) else None
        | None => None
        end
    end in
  match s with
  | c :: ds => if c =? 45 then number (-1) ds else if c =? 43 then number 1 ds else number 1 s
  | [] => None
  end.

Fixpoint trim_start_matches (c : Z) (s : list Z) : list Z :=
  match s with
  | d :: s' => if d =? c then trim_start_matches c s' else s
  | [] => []
  end.
Definition trim_end_matches (c : Z) (s : list Z) : list Z := rev (trim_start_matches c (rev s)).

(** [slice::join]. *)
Fixpoint join (sep : list Z) (ws : list (list Z)) : list Z :=
  match ws with
  | [] => []
  | [w] => w
  | w :: ws => w ++ sep ++ join sep ws
  end.

(** [str::lines]: without the line ends; a last empty line is none. *)
Definition strip_cr (s : list Z) : list Z :=
  match last s with Some 13 => removelast s | _ => s end.
Fixpoint drop_last_empty (ls : list (list Z)) : list (list Z) :=
  match ls with
  | [] => []
  | [[]] => []
  | l :: ls => l :: drop_last_empty ls
  end.
Definition lines (s : list Z) : list (list Z) := strip_cr <$> drop_last_empty (split LF s).

(** ** [BTreeMap<String, String>]: an association list in the order of the names *)

Fixpoint str_cmp (a b : list Z) : comparison :=
  match a, b with
  | [], [] => Eq
  | [], _ => Lt
  | _, [] => Gt
  | x :: a, y :: b => match x ?= y with Eq => str_cmp a b | c => c end
  end.

Definition BTreeMap := list (list Z * list Z).

Fixpoint get (name : list Z) (m : BTreeMap) : option (list Z) :=
  match m with
  | [] => None
  | (n, v) :: m => match str_cmp name n with Lt => None | Eq => Some v | Gt => get name m end
  end.
Fixpoint insert (name value : list Z) (m : BTreeMap) : BTreeMap :=
  match m with
  | [] => [(name, value)]
  | (n, v) :: rest =>
      match str_cmp name n with
      | Lt => (name, value) :: m
      | Eq => (n, value) :: rest
      | Gt => (n, v) :: insert name value rest
      end
  end.
Fixpoint remove (name : list Z) (m : BTreeMap) : BTreeMap :=
  match m with
  | [] => []
  | (n, v) :: rest =>
      match str_cmp name n with Lt => m | Eq => rest | Gt => (n, v) :: remove name rest end
  end.
Definition entry_or_default (name : list Z) (m : BTreeMap) : BTreeMap :=
  match get name m with Some _ => m | None => insert name [] m end.

(** ** The operating system *)

Inductive OpenMode := ModeRead | ModeCreate | ModeAppend.
#[global] Instance OpenMode_eq_dec : EqDecision OpenMode.
Proof. solve_decision. Defined.

(** How the code of a child process ends: it exits, or the program it executes
    takes its place. *)
Inductive ChildEnd :=
| ChildExit (code : Z)
| ChildRuns (path : list Z) (args environment : list (list Z)).

Inductive Waited :=
| ForkFailed (error : Z)
| WaitFailed (error : Z)
| Ended (status : Z).

Class Os (W : Type) := {
  os_chdir : list Z -> W -> result Z unit * W;
  os_current_dir : W -> result Z (list Z) * W;
  (** [fs::metadata(path).is_ok_and(|metadata| metadata.file_type == File)] *)
  os_is_program : list Z -> W -> bool;
  os_open : OpenMode -> list Z -> W -> result Z Z * W;
  os_close : Z -> W -> W;
  os_dup2 : Z -> Z -> W -> bool * W;
  os_write_all : Z -> list Z -> W -> result Z unit * W;
  (** [execve]: [None] if the program takes over. *)
  os_exec : list Z -> list (list Z) -> list (list Z) -> W -> option Z;
  os_fork_wait : (W -> ChildEnd * W) -> W -> Waited * W;
  os_read_line : W -> result Z (list Z) * W;
  os_read_to_string : list Z -> W -> result Z (list Z) * W;
  os_is_terminal : W -> bool;
}.

(** [libsaeos/src/errno.rs]: [Errno::description]. *)
Definition description (e : Z) : list Z :=
  match e with
  | 1 => text "Operation not permitted"
  | 2 => text "No such file or directory"
  | 5 => text "Input/output error"
  | 7 => text "Argument list too long"
  | 8 => text "Exec format error"
  | 9 => text "Bad file descriptor"
  | 10 => text "No child processes"
  | 12 => text "Cannot allocate memory"
  | 13 => text "Permission denied"
  | 14 => text "Bad address"
  | 16 => text "Device or resource busy"
  | 17 => text "File exists"
  | 19 => text "No such device"
  | 20 => text "Not a directory"
  | 21 => text "Is a directory"
  | 22 => text "Invalid argument"
  | 25 => text "Inappropriate ioctl for device"
  | 28 => text "No space left on device"
  | 34 => text "Numerical result out of range"
  | 36 => text "File name too long"
  | 38 => text "Function not implemented"
  | 39 => text "Directory not empty"
  | _ => text "Unknown error"
  end.

Definition message (e : ParseError) : list Z :=
  match e with
  | UnterminatedQuote => text "unterminated quote"
  | MissingRedirectTarget => text "redirection without a file name"
  | BadSubstitution => text "bad ${...} substitution"
  end.

Definition signal_name (signal : Z) : list Z :=
  match signal with
  | 4 => text "SIGILL"
  | 5 => text "SIGTRAP"
  | 7 => text "SIGBUS"
  | 8 => text "SIGFPE"
  | 11 => text "SIGSEGV"
  | _ => text "a signal"
  end.

Record Shell := mkShell { variables : BTreeMap; status : Z; exit : option Z }.

(** [Stdout]: the first [length] bytes of its buffer. *)
Definition STDOUT_CAPACITY : nat := 1024.

Section Run.
Context {W : Type} {os : Os W}.

Record St := mkSt { shell : Shell; out : list Z; world : W }.

Definition M (A : Type) := St -> A * St.
Definition ret {A} (a : A) : M A := fun s => (a, s).
Definition bind {A B} (m : M A) (f : A -> M B) : M B := fun s => let '(a, s) := m s in f a s.
Local Notation "x <-- m ; k" := (bind m (fun x => k)) (at level 100, m at level 90, k at level 200, right associativity).
Local Notation "m ;; k" := (bind m (fun _ => k)) (at level 100, k at level 200, right associativity).

Definition the_shell : M Shell := fun s => (shell s, s).
Definition modify (f : Shell -> Shell) : M unit := fun s => (tt, mkSt (f (shell s)) (out s) (world s)).
Definition ask {A} (f : W -> A) : M A := fun s => (f (world s), s).
Definition call {A} (f : W -> A * W) : M A :=
  fun s => let '(a, w) := f (world s) in (a, mkSt (shell s) (out s) w).
Definition close (fd : Z) : M unit := call (fun w => (tt, os_close fd w)).
(** Dropping an [Option<File>]. *)
Definition drop_file (file : option Z) : M unit :=
  match file with Some fd => close fd | None => ret tt end.

(** ** Standard output and error ([libsaeos/src/io.rs]) *)

Definition flush : M unit :=
  fun s => let '(_, w) := os_write_all 1 (out s) (world s) in (tt, mkSt (shell s) [] w).

Fixpoint write_str (bytes : list Z) : M unit :=
  match bytes with
  | [] => ret tt
  | byte :: bytes =>
      (fun s => if bool_decide (List.length (out s) = STDOUT_CAPACITY) then flush s else (tt, s)) ;;
      (fun s => (tt, mkSt (shell s) (out s ++ [byte]) (world s))) ;;
      (if byte =? LF then flush else ret tt) ;;
      write_str bytes
  end.
Definition print (s : list Z) : M unit := write_str (as_bytes s).

Definition eprintln (s : list Z) : M unit :=
  flush ;; (_ <-- call (os_write_all 2 (as_bytes (s ++ [LF]))); ret tt).

(** ** Redirections *)

Fixpoint open_redirects (rs : list Redirect) (output : option Z) : M (option (option Z)) :=
  match rs with
  | [] => ret (Some output)
  | r :: rs =>
      let opened mode :=
        file <-- call (os_open mode (target r));
        match file with
        | Ok fd => drop_file output ;; open_redirects rs (Some fd)
        | Err e => eprintln (text "sh: " ++ target r ++ text ": " ++ description e) ;; (drop_file output ;; ret None)
        end in
      match kind r with
      | Output => opened ModeCreate
      | Append => opened ModeAppend
      | Input => open_redirects rs output
      end
  end.
(** [Ok(output)] is [Some output], [Err(())] is [None]. *)
Definition open_output (command : Command) : M (option (option Z)) := open_redirects (redirects command) None.

Definition redirect_mode (k : RedirectKind) : OpenMode :=
  match k with Output => ModeCreate | Append => ModeAppend | Input => ModeRead end.
Definition redirect_fd (k : RedirectKind) : Z := match k with Output | Append => 1 | Input => 0 end.

Fixpoint redirect_child (rs : list Redirect) : M bool :=
  match rs with
  | [] => ret true
  | r :: rs =>
      file <-- call (os_open (redirect_mode (kind r)) (target r));
      match file with
      | Err e => eprintln (text "sh: " ++ target r ++ text ": " ++ description e) ;; ret false
      | Ok fd =>
          moved <-- call (os_dup2 fd (redirect_fd (kind r)));
          (if moved : bool then close fd ;; redirect_child rs
           else eprintln (text "sh: " ++ target r ++ text ": cannot redirect") ;; (close fd ;; ret false))
      end
  end.

(** ** Builtins and programs *)

Definition HELP : list Z :=
  text "builtins: cd [DIR], pwd, echo [-n] ARGS, export NAME=VALUE, unset NAME," ++ [LF] ++
  text "          exit [CODE], help" ++ [LF] ++
  text "programs in $PATH run with fork + exec; redirect with > >> <, chain with ;" ++ [LF] ++
  text "quote with '...' or " ++ [DQUOTE] ++ text "..." ++ [DQUOTE] ++ text "; $NAME and $? expand" ++ [LF].

Definition write_output (output : option Z) (s : list Z) : M Z :=
  match output with
  | Some fd => written <-- call (os_write_all fd (as_bytes s)); ret (match written with Ok _ => 0 | Err _ => 1 end)
  | None => print s ;; ret 0
  end.

Definition output_builtin (command : Command) (name : list Z) (arguments : list (list Z)) : M Z :=
  opened <-- open_output command;
  match opened with
  | None => ret 1
  | Some output =>
      if bool_decide (name = text "echo") then
        let '(newline, ws) :=
          match arguments with
          | a :: rest => if bool_decide (a = text "-n") then (false, rest) else (true, arguments)
          | [] => (true, arguments)
          end in
        let s := join [SPACE] ws in
        code <-- write_output output (if newline : bool then s ++ [LF] else s); (drop_file output ;; ret code)
      else if bool_decide (name = text "pwd") then
        cwd <-- call os_current_dir;
        match cwd with
        | Ok cwd => code <-- write_output output (cwd ++ [LF]); (drop_file output ;; ret code)
        | Err e => eprintln (text "sh: pwd: " ++ description e) ;; (drop_file output ;; ret 1)
        end
      else code <-- write_output output HELP; (drop_file output ;; ret code)
  end.

Definition candidates (name path : list Z) : list (list Z) :=
  (fun directory => trim_end_matches SLASH directory ++ [SLASH] ++ name)
    <$> filter (fun directory => directory <> []) (split 58 path).

Definition find_program (name : list Z) (sh : Shell) (w : W) : option (list Z) :=
  if bool_decide (SLASH ∈ name) then (if os_is_program name w then Some name else None)
  else
    let path := default (text "/bin:/sbin") (get (text "PATH") (variables sh)) in
    List.find (fun candidate => os_is_program candidate w) (candidates name path).

Definition environment (sh : Shell) : list (list Z) := (fun '(name, value) => name ++ [61] ++ value) <$> variables sh.

(** [process::exit]: flush, then end. *)
Definition exit_child (code : Z) : M ChildEnd := flush ;; ret (ChildExit code).

Definition child (command : Command) (name path : list Z) (env : list (list Z)) : M ChildEnd :=
  redirected <-- redirect_child (redirects command);
  (if redirected : bool then
     failed <-- ask (os_exec path (words command) env);
     match failed with
     | Some e => eprintln (text "sh: " ++ name ++ text ": " ++ description e) ;; exit_child 126
     | None => ret (ChildRuns path (words command) env)
     end
   else exit_child 1).

(** The parent's side keeps its state; the child starts from a copy of it. *)
Definition fork_wait (c : M ChildEnd) : M Waited :=
  fun s => call (os_fork_wait (fun w => let '(e, s') := c (mkSt (shell s) (out s) w) in (e, world s'))) s.

Definition run_program (command : Command) (name : list Z) : M Z :=
  sh <-- the_shell;
  path <-- ask (find_program name sh);
  match path with
  | None => eprintln (text "sh: " ++ name ++ text ": not found") ;; ret 127
  | Some path =>
      waited <-- fork_wait (child command name path (environment sh));
      match waited with
      | Ended st =>
          match Abi.exited_with st, Abi.killed_by st with
          | Some code, _ => ret code
          | None, Some signal =>
              eprintln (text "sh: " ++ name ++ text ": killed by " ++ signal_name signal) ;; ret (128 + signal)
          | None, None => ret 1
          end
      | WaitFailed e => eprintln (text "sh: wait: " ++ description e) ;; ret 1
      | ForkFailed e => eprintln (text "sh: fork: " ++ description e) ;; ret 1
      end
  end.

Definition export (arguments : list (list Z)) (m : BTreeMap) : BTreeMap :=
  fold_left (fun m assignment =>
    match split_once 61 assignment with
    | Some (name, value) => insert name value m
    | None => entry_or_default assignment m
    end) arguments m.

Definition set_variables (f : BTreeMap -> BTreeMap) : M unit :=
  modify (fun sh => mkShell (f (variables sh)) (status sh) (exit sh)).

Definition run (command : Command) : M Z :=
  match words command with
  | [] =>
      opened <-- open_output command;
      match opened with Some output => drop_file output ;; ret 0 | None => ret 1 end
  | name :: arguments =>
      if bool_decide (name = text "cd") then
        sh <-- the_shell;
        let home := default (text "/") (get (text "HOME") (variables sh)) in
        let target := match arguments with a :: _ => a | [] => home end in
        moved <-- call (os_chdir target);
        match moved with
        | Ok _ => ret 0
        | Err e => eprintln (text "sh: cd: " ++ target ++ text ": " ++ description e) ;; ret 1
        end
      else if bool_decide (name = text "exit") then
        sh <-- the_shell;
        let code := match arguments with [] => status sh | a :: _ => default 2 (parse_i32 a) end in
        modify (fun sh => mkShell (variables sh) (status sh) (Some code)) ;; ret code
      else if bool_decide (name = text "export") then set_variables (export arguments) ;; ret 0
      else if bool_decide (name = text "unset") then
        set_variables (fun m => fold_left (fun m n => remove n m) arguments m) ;; ret 0
      else if bool_decide (name ∈ [text "echo"; text "pwd"; text "help"]) then output_builtin command name arguments
      else run_program command name
  end.

(** ** Lines *)

Definition lookup (sh : Shell) (name : list Z) : option (list Z) :=
  if bool_decide (name = [QUESTION]) then Some (to_string (status sh)) else get name (variables sh).

Definition set_status (code : Z) : M unit := modify (fun sh => mkShell (variables sh) code (exit sh)).

Fixpoint run_commands (commands : list Command) : M unit :=
  match commands with
  | [] => ret tt
  | command :: commands =>
      code <-- run command;
      set_status code ;;
      (sh <-- the_shell; match exit sh with Some _ => ret tt | None => run_commands commands end)
  end.

(** [None] would be a parser that does not end ([parse_is_total]). *)
Definition run_line (line : list Z) : M unit :=
  sh <-- the_shell;
  match parse (lookup sh) line with
  | Some (Ok commands) => run_commands commands
  | Some (Err e) => eprintln (text "sh: " ++ message e) ;; set_status 2
  | None => ret tt
  end.

Fixpoint run_script (ls : list (list Z)) : M unit :=
  match ls with
  | [] => ret tt
  | line :: ls => run_line line ;; (sh <-- the_shell; match exit sh with Some _ => ret tt | None => run_script ls end)
  end.

(** The prompt loop, for at most [fuel] lines ([false] when they are used up:
    the input decides how many there are). *)
Fixpoint interactive (fuel : nat) (prompt : bool) : M bool :=
  match fuel with
  | O => ret false
  | S fuel =>
      (if prompt then
         cwd <-- call os_current_dir;
         let cwd := match cwd with Ok cwd => cwd | Err _ => text "?" end in
         print (text "saeos:" ++ cwd ++ text "$ ") ;; flush
       else ret tt) ;;
      flush ;;
      (line <-- call os_read_line;
       match line with
       | Ok [] => (if prompt then print [LF] else ret tt) ;; ret true
       | Ok line => run_line line ;; (sh <-- the_shell; match exit sh with Some _ => ret true | None => interactive fuel prompt end)
       | Err e => eprintln (text "sh: reading input: " ++ description e) ;; ret true
       end)
  end.

(** [None] while the prompt loop has not ended. *)
Definition main (fuel : nat) (arguments : list (list Z)) : M (option Z) :=
  let finished := (sh <-- the_shell; ret (Some (default (status sh) (exit sh)))) in
  match arguments with
  | _ :: a :: rest =>
      if bool_decide (a = text "-c") then
        match rest with
        | line :: _ => run_line line ;; finished
        | [] => eprintln (text "sh: -c needs a command") ;; ret (Some 2)
        end
      else
        script <-- call (os_read_to_string a);
        match script with
        | Ok script => run_script (lines script) ;; finished
        | Err e => eprintln (text "sh: " ++ a ++ text ": " ++ description e) ;; ret (Some 127)
        end
  | _ =>
      prompt <-- ask os_is_terminal;
      ended <-- interactive fuel prompt;
      (if ended : bool then finished else ret None)
  end.

End Run.

(** ** Descriptors *)

(** What each descriptor leads to, said by how and by which name it was opened. *)
Class OsLaws (W : Type) `{os : Os W} := {
  fds : W -> Z -> option (OpenMode * list Z);
  law_open mode name w fd w' :
    os_open mode name w = (Ok fd, w') ->
    fds w fd = None /\ forall f, fds w' f = if f =? fd then Some (mode, name) else fds w f;
  law_dup2 old new w w' :
    os_dup2 old new w = (true, w') -> forall f, fds w' f = if f =? new then fds w old else fds w f;
  law_close fd w f : fds (os_close fd w) f = if f =? fd then None else fds w f;
}.

(** The last redirection of a descriptor decides. *)
Definition deciding (rs : list Redirect) (f : Z) : option Redirect :=
  last (filter (fun r => redirect_fd (kind r) = f) rs).

Definition redirected (rs : list Redirect) (before : Z -> option (OpenMode * list Z)) (f : Z) : option (OpenMode * list Z) :=
  match deciding rs f with Some r => Some (redirect_mode (kind r), target r) | None => before f end.

Definition is_builtin (name : list Z) : bool :=
  bool_decide (name ∈ [text "cd"; text "exit"; text "export"; text "unset"; text "echo"; text "pwd"; text "help"]).

Section Laws.
Context {W : Type} {os : Os W} {laws : OsLaws W}.

Lemma redirected_cons r rs before f :
  redirected (r :: rs) before f =
  redirected rs (fun f => if f =? redirect_fd (kind r) then Some (redirect_mode (kind r), target r) else before f) f.
Proof.
  unfold redirected, deciding. rewrite filter_cons. destruct (Z.eqb_spec f (redirect_fd (kind r))) as [->|Hne].
  - rewrite decide_True by done. destruct (filter _ rs) as [|r' rs']; [done|].
    rewrite last_cons_cons. destruct (last (r' :: rs')) eqn:Hl; [done|]. by apply last_None in Hl.
  - by rewrite decide_False by done.
Qed.

Lemma redirected_ext rs b b' f : (forall f, b f = b' f) -> redirected rs b f = redirected rs b' f.
Proof. intros Hb. unfold redirected. by destruct (deciding rs f). Qed.

(** A successful [redirect_child] leaves each standard descriptor at the last
    file it was redirected to and every other descriptor as it was. *)
Lemma redirect_child_spec rs (s s' : St) :
  is_Some (fds (world s) 0) -> is_Some (fds (world s) 1) ->
  redirect_child rs s = (true, s') ->
  shell s' = shell s /\ forall f, fds (world s') f = redirected rs (fds (world s)) f.
Proof.
  revert s. induction rs as [|r rs IH]; intros s H0 H1; [by intros [= <-]|].
  cbn [redirect_child]. unfold bind at 1, call at 1.
  destruct (os_open _ _ (world s)) as [[fd|e] w1] eqn:Ho; [|by unfold eprintln, bind, flush, call, ret; repeat destruct (os_write_all _ _ _)].
  apply law_open in Ho as [Hfree Ho]. unfold bind at 1, call at 1. cbn [world shell out].
  destruct (os_dup2 fd _ w1) as [[] w2] eqn:Hd; [|by unfold eprintln, bind, flush, close, call, ret; cbn; repeat destruct (os_write_all _ _ _)].
  pose proof (law_dup2 _ _ _ _ Hd) as Hf. unfold bind at 1, close, call at 1. cbn [world shell out]. intros Hr.
  assert (forall f, fds (os_close fd w2) f = if f =? redirect_fd (kind r) then Some (redirect_mode (kind r), target r) else fds (world s) f) as Hw.
  { intros f. rewrite law_close, Hf, !Ho, Z.eqb_refl.
    assert (redirect_fd (kind r) <> fd) as Hne by (intros He; destruct (kind r); simpl in He; subst fd; rewrite Hfree in *; by destruct H0, H1).
    destruct (Z.eqb_spec f fd), (Z.eqb_spec f (redirect_fd (kind r))); subst; try done; by rewrite Hfree. }
  apply IH in Hr as [Hs Hr]; cbn [world shell] in *.
  - split; [done|]. intros f. rewrite Hr, redirected_cons. by apply redirected_ext.
  - rewrite Hw. case_if; [eauto|done].
  - rewrite Hw. case_if; [eauto|done].
Qed.

Lemma run_line_print commands (s : St) :
  Forall (fun c => c <> empty_command) commands -> run_line (Parse.print commands) s = run_commands commands s.
Proof.
  intros Hc. unfold run_line, bind, the_shell. by rewrite (parse_print (lookup (shell s)) commands Hc).
Qed.

End Laws.

(** ** Theorems *)

Section Theorems.
Context {W : Type} {os : Os W} {laws : OsLaws W}.

Lemma run_is_run_program cmd name args (s : St) :
  words cmd = name :: args -> is_builtin name = false -> run cmd s = run_program cmd name s.
Proof.
  intros Hw Hb. unfold is_builtin in Hb. apply bool_decide_eq_false in Hb.
  rewrite !not_elem_of_cons in Hb. destruct Hb as (H1 & H2 & H3 & H4 & H5 & H6 & H7 & H8).
  unfold run. rewrite Hw, !bool_decide_eq_false_2; try done.
  rewrite !not_elem_of_cons. by split_and!.
Qed.

(** C27. A program run from the shell gets what the line says.  Take any command
    that is not a builtin and any words, quoted on a line, and let the program
    be found in the path.  The shell forks a child; if the program takes over
    there, it is the one found, its arguments are exactly the words, its
    environment the shell's variables in order, standard input and output lead
    to the last file they were redirected to, and every other descriptor is as
    the shell had it: none is leaked and none is lost.  When the program exits
    with a code, that is the shell's status, and nothing else of the shell has
    changed. *)
Theorem program_gets_its_words (s : St) cmd name args path :
  words cmd = name :: args -> is_builtin name = false ->
  find_program name (shell s) (world s) = Some path ->
  exists body : W -> ChildEnd * W,
    (forall w p a e w',
       is_Some (fds w 0) -> is_Some (fds w 1) -> body w = (ChildRuns p a e, w') ->
       p = path /\ a = words cmd /\ e = environment (shell s) /\
       forall f, fds w' f = redirected (redirects cmd) (fds w) f) /\
    forall st w' code,
      os_fork_wait body (world s) = (Ended st, w') -> Abi.exited_with st = Some code ->
      run_line (Parse.print [cmd]) s = (tt, mkSt (mkShell (variables (shell s)) code (exit (shell s))) (out s) w').
Proof.
  intros Hw Hb Hp.
  exists (fun w => let '(e, s') := child cmd name path (environment (shell s)) (mkSt (shell s) (out s) w) in (e, world s')).
  split.
  - intros w p a e w' H0 H1. unfold child, bind at 1.
    destruct (redirect_child (redirects cmd) (mkSt (shell s) (out s) w)) as [[] s1] eqn:Hr.
    + unfold bind, ask. destruct (os_exec _ _ _ _).
      * unfold exit_child, bind, eprintln, flush, bind, call, ret. by repeat destruct (os_write_all _ _ _).
      * intros [= <- <- <- <-]. apply redirect_child_spec in Hr as [_ Hr]; [done|done|done].
    + unfold exit_child, bind, flush, ret. by destruct (os_write_all _ _ _).
  - intros st w' code Hf Hc. rewrite run_line_print by (repeat constructor; intros ->; discriminate).
    cbn [run_commands]. unfold bind at 1. rewrite (run_is_run_program cmd name args) by done.
    unfold run_program, bind, the_shell, ask. rewrite Hp. unfold fork_wait, call. rewrite Hf, Hc.
    simpl. by destruct (exit (shell s)).
Qed.

End Theorems.

(** ** A small system *)

(** Descriptors in a list, and a log of what is written to which of them. *)
Record Small := mkSmall { table : list (option (OpenMode * list Z)); log : list (Z * list Z) }.

Definition small_fds (w : Small) (f : Z) : option (OpenMode * list Z) :=
  if f <? 0 then None else mjoin (table w !! Z.to_nat f).

(** The program [/p] writes a [P]; it is the only one. *)
#[global] Instance small_os : Os Small := {
  os_chdir _ w := (Ok tt, w);
  os_current_dir w := (Ok (text "/"), w);
  os_is_program name _ := bool_decide (name = text "/p");
  os_open mode name w := (Ok (Z.of_nat (List.length (table w))), mkSmall (table w ++ [Some (mode, name)]) (log w));
  os_close fd w := mkSmall (if fd <? 0 then table w else <[Z.to_nat fd := None]> (table w)) (log w);
  os_dup2 old new w :=
    if bool_decide (0 <= new < Z.of_nat (List.length (table w)))
    then (true, mkSmall (<[Z.to_nat new := small_fds w old]> (table w)) (log w)) else (false, w);
  os_write_all fd bytes w :=
    (Ok tt, match bytes with [] => w | _ => mkSmall (table w) (log w ++ [(fd, bytes)]) end);
  os_exec path _ _ _ := if bool_decide (path = text "/p") then None else Some 2;
  os_fork_wait body w :=
    match body w with
    | (ChildExit code, w') => (Ended (256 * code), mkSmall (table w) (log w'))
    | (ChildRuns _ _ _, w') => (Ended 0, mkSmall (table w) (log w' ++ [(1, text "P")]))
    end;
  os_read_line w := (Ok [], w);
  os_read_to_string _ w := (Err 2, w);
  os_is_terminal _ := true;
}.

Lemma small_insert w f fd h :
  (Z.to_nat fd < List.length (table w))%nat -> 0 <= fd ->
  small_fds (mkSmall (<[Z.to_nat fd := h]> (table w)) (log w)) f = if f =? fd then h else small_fds w f.
Proof.
  intros Hl H0. unfold small_fds. cbn [table]. case_if; [case_if; [lia|done]|]. destruct (Z.eqb_spec f fd) as [->|Hne].
  - by rewrite list_lookup_insert_eq.
  - by rewrite list_lookup_insert_ne by lia.
Qed.

#[global] Program Instance small_laws : OsLaws Small := {| fds := small_fds |}.
Next Obligation.
  intros mode name w fd w' [= <- <-]. unfold small_fds. cbn [table]. split.
  - case_if; [lia|]. by rewrite Nat2Z.id, lookup_ge_None_2.
  - intros f. case_if; [destruct (Z.eqb_spec f (Z.of_nat (List.length (table w)))); [lia|done]|].
    destruct (Z.eqb_spec f (Z.of_nat (List.length (table w)))) as [->|Hne].
    + by rewrite Nat2Z.id, list_lookup_middle.
    + destruct (decide (Z.to_nat f < List.length (table w))%nat); [by rewrite lookup_app_l|].
      rewrite !lookup_ge_None_2; [done|lia|rewrite length_app; simpl; lia].
Qed.
Next Obligation.
  intros old new w w'. simpl. case_bool_decide as Hb; [|done]. intros [= <-] f. apply small_insert; lia.
Qed.
Next Obligation.
  intros fd w f. simpl. destruct (Z.ltb_spec fd 0).
  - unfold small_fds. cbn [table]. destruct (Z.eqb_spec f fd); [|done]. by destruct (Z.ltb_spec f 0); [|lia].
  - destruct (decide (Z.to_nat fd < List.length (table w))%nat); [by apply small_insert|].
    rewrite list_insert_ge by lia. unfold small_fds. cbn [table]. destruct (Z.eqb_spec f fd); [|done]. subst f.
    case_if; [done|]. by rewrite lookup_ge_None_2 by lia.
Qed.

Definition small_start (vars : BTreeMap) : St :=
  mkSt (mkShell vars 0 None) [] (mkSmall [Some (ModeRead, text "tty"); Some (ModeAppend, text "tty"); Some (ModeAppend, text "tty")] []).

(** [/p a > f < g > h]: run, with the status it exits with. *)
Definition small_command : Command :=
  mkCommand [text "/p"; text "a b"] [mkRedirect Output (text "f"); mkRedirect Input (text "g"); mkRedirect Output (text "h")].

Lemma program_gets_its_words_witness :
  exists body : Small -> ChildEnd * Small,
    (forall w p a e w',
       is_Some (fds w 0) -> is_Some (fds w 1) -> body w = (ChildRuns p a e, w') ->
       p = text "/p" /\ a = [text "/p"; text "a b"] /\ e = [text "X=1"] /\
       forall f, fds w' f = redirected (redirects small_command) (fds w) f) /\
    forall st w' code,
      os_fork_wait body (world (small_start [(text "X", text "1")])) = (Ended st, w') -> Abi.exited_with st = Some code ->
      run_line (Parse.print [small_command]) (small_start [(text "X", text "1")]) =
        (tt, mkSt (mkShell [(text "X", text "1")] code None) [] w').
Proof.
  apply (program_gets_its_words (small_start [(text "X", text "1")]) small_command (text "/p") [text "a b"] (text "/p"));
    reflexivity.
Defined.

(** A line is expanded before any of it runs: [$?] and the variables in the
    second command are those before the first. *)
Theorem line_expands_first :
  log (world (run_line (text "export X=new; echo $X") (small_start [(text "X", text "old")])).2) = [(1, text "old" ++ [LF])] /\
  log (world (run_line (text "nothing; echo $?") (small_start [])).2) =
    [(2, text "sh: nothing: not found" ++ [LF]); (1, text "0" ++ [LF])].
Proof. split; vm_compute; reflexivity. Qed.

(** Text without a newline stays in the buffer while a program runs, and is
    printed after the program's output. *)
Theorem buffered_text_misplaced :
  log (world (flush (run_line (text "echo -n hi; /p") (small_start [])).2).2) = [(1, text "P"); (1, text "hi")].
Proof. vm_compute. reflexivity. Qed.

End Sh.
