(* ===== verification/UserHeap.v ===== *)
(** * UserHeap: the allocator of user programs
      ([libsaeos/src/heap.rs], [libsaeos/src/allocator.rs])

    Size classes over a heap that grows, and mappings for large blocks.  The
    trait [Source] is a class; its state is the process, with its memory, so
    that the links the allocator writes into free blocks and the bytes it
    copies are kept.  [Raw] stands for the system calls behind it, from which
    [SyscallSource] is built.  Pointers are addresses, null is 0.

    Proved: whatever a program allocates, frees, resizes and writes, its live
    blocks are aligned, in memory the process owns and pairwise apart, keep
    their contents, and a resized block keeps what fits; an allocation fails
    only when the kernel refuses memory or the request cannot be met at all. *)

From stdpp Require Import base gmap sorting numbers list.
From S2P Require Import Prelude Heap.
Local Open Scope Z_scope.

Module UserHeap.

Definition MIN_BLOCK : Z := 16.
Definition LARGE : Z := 64 * 1024.
Definition CLASSES : nat := 13.
Definition PAGE : Z := 4096.
Definition GROWTH : Z := 64 * 1024.

(** The trait [Source], and the memory of the process byte by byte. *)
Class Source (S : Type) := {
  grow : Z -> S -> option Z * S;
  map : Z -> S -> option Z * S;
  unmap : Z -> Z -> S -> S;
  peek : S -> Z -> Z;
  poke : Z -> Z -> S -> S;
}.

(** [usize::checked_next_power_of_two] of a positive number. *)
Definition checked_next_power_of_two (x : Z) : option Z :=
  if 2 ^ Z.log2_up x <=? U64_MAX then Some (2 ^ Z.log2_up x) else None.

Definition class (l : Layout) : option nat :=
  let size := Z.max (Z.max (l_size l) (l_align l)) MIN_BLOCK in
  match checked_next_power_of_two size with
  | Some block => if block <=? LARGE then Some (Z.to_nat (trailing_zeros (block / MIN_BLOCK))) else None
  | None => None
  end.

Definition block_size (c : nat) : Z := Z.shiftl MIN_BLOCK (Z.of_nat c).

Definition large_size (l : Layout) : option Z := checked_next_multiple_of (l_size l) PAGE.

Record Heap (S : Type) := mkHeap { source : S; free : list Z; bump : Z; end_ : Z }.
Arguments mkHeap {S} source free bump end_.
Arguments source {S} h.
Arguments free {S} h.
Arguments bump {S} h.
Arguments end_ {S} h.

Definition new {S} (s : S) : Heap S := mkHeap s (replicate CLASSES 0) 0 0.

Section Ops.
Context {S : Type} {src : Source S}.

(** ** Memory *)

Fixpoint read_bytes (s : S) (a : Z) (n : nat) : list Z :=
  match n with O => [] | Datatypes.S n => peek s a :: read_bytes s (a + 1) n end.
Fixpoint write_bytes (s : S) (a : Z) (bytes : list Z) : S :=
  match bytes with [] => s | b :: bytes => write_bytes (poke a b s) (a + 1) bytes end.
Definition read_ptr (s : S) (a : Z) : Z := from_le (read_bytes s a 8).
Definition write_ptr (s : S) (a v : Z) : S := write_bytes s a (le_bytes 8 v).
Definition copy_nonoverlapping (s : S) (from to n : Z) : S := write_bytes s to (read_bytes s from (Z.to_nat n)).

(** ** Operations *)

(** Where the next block starts after the heap has grown. *)
Definition regrow (h : Heap S) (wanted new : Z) (s : S) : Heap S :=
  mkHeap s (free h) (if negb (new =? end_ h) then new else bump h) (new + wanted).

Definition take_block (h : Heap S) (size : Z) : Z * Heap S :=
  let start := next_multiple_of (bump h) size in
  (start, mkHeap (source h) (free h) (start + size) (end_ h)).

Definition carve (c : nat) (h : Heap S) : Z * Heap S :=
  let size := block_size c in
  let start := next_multiple_of (bump h) size in
  if match checked_add start size with None => true | Some e => e >? end_ h end then
    let wanted := Z.max (2 * size) GROWTH in
    match grow wanted (source h) with
    | (None, s) => (0, mkHeap s (free h) (bump h) (end_ h))
    | (Some new, s) => take_block (regrow h wanted new s) size
    end
  else take_block h size.

Definition alloc (l : Layout) (h : Heap S) : Z * Heap S :=
  match class l with
  | Some c =>
      let head := nth c (free h) 0 in
      if head =? 0 then carve c h
      else (head, mkHeap (source h) (<[c := read_ptr (source h) head]> (free h)) (bump h) (end_ h))
  | None =>
      if l_align l >? PAGE then (0, h)
      else
        match large_size l with
        | Some bytes => let '(a, s) := map bytes (source h) in (default 0 a, mkHeap s (free h) (bump h) (end_ h))
        | None => (0, h)
        end
  end.

Definition dealloc (block : Z) (l : Layout) (h : Heap S) : Heap S :=
  match class l with
  | Some c => mkHeap (write_ptr (source h) block (nth c (free h) 0)) (<[c := block]> (free h)) (bump h) (end_ h)
  | None =>
      match large_size l with
      | Some bytes => mkHeap (unmap block bytes (source h)) (free h) (bump h) (end_ h)
      | None => h
      end
  end.

Definition realloc (block : Z) (l : Layout) (new_size : Z) (h : Heap S) : Z * Heap S :=
  match from_size_align new_size (l_align l) with
  | None => (0, h)
  | Some new_layout =>
      if bool_decide (is_Some (class l)) && bool_decide (class l = class new_layout) then (block, h)
      else
        let '(new, h) := alloc new_layout h in
        if negb (new =? 0) then
          let s := copy_nonoverlapping (source h) block new (Z.min (l_size l) new_size) in
          (new, dealloc block l (mkHeap s (free h) (bump h) (end_ h)))
        else (new, h)
  end.

End Ops.

(** ** The laws of a source *)

Class SourceLaws (S : Type) `{src : Source S} := {
  (** The bytes the process has. *)
  owns : S -> Z -> Prop;
  law_range s x : owns s x -> 0 < x < 2 ^ 47;
  law_poke_owns s a v x : owns (poke a v s) x <-> owns s x;
  law_poke s a v x : owns s a -> owns s x -> peek (poke a v s) x = if x =? a then v else peek s x;
  law_grow s n a s' :
    0 < n -> grow n s = (Some a, s') ->
    0 < a /\ a + n <= 2 ^ 47 /\ (forall x, holds (a, n) x -> ~ owns s x) /\
    (forall x, owns s' x <-> owns s x \/ holds (a, n) x) /\ forall x, owns s x -> peek s' x = peek s x;
  law_grow_none s n s' : 0 < n -> grow n s = (None, s') -> forall x, owns s x -> owns s' x /\ peek s' x = peek s x;
  law_map s n a s' :
    0 < n -> (PAGE | n) -> map n s = (Some a, s') ->
    0 < a /\ (PAGE | a) /\ (forall x, holds (a, n) x -> ~ owns s x) /\
    (forall x, owns s' x <-> owns s x \/ holds (a, n) x) /\ forall x, owns s x -> peek s' x = peek s x;
  law_map_none s n s' : 0 < n -> (PAGE | n) -> map n s = (None, s') -> forall x, owns s x -> owns s' x /\ peek s' x = peek s x;
  law_unmap s a n :
    0 < n -> (forall x, holds (a, n) x -> owns s x) ->
    (forall x, owns (unmap a n s) x <-> owns s x /\ ~ holds (a, n) x) /\
    forall x, owns s x -> ~ holds (a, n) x -> peek (unmap a n s) x = peek s x;
}.

(** ** Size classes *)

Lemma block_size_pow c : block_size c = 2 ^ (4 + Z.of_nat c).
Proof. unfold block_size, MIN_BLOCK. rewrite Z.shiftl_mul_pow2, Z.pow_add_r by lia. lia. Qed.

Lemma block_size_pos c : 16 <= block_size c.
Proof. rewrite block_size_pow. change 16 with (2 ^ 4). apply Z.pow_le_mono_r; lia. Qed.

Lemma block_size_max c : (c < CLASSES)%nat -> block_size c <= LARGE.
Proof.
  intros Hc. rewrite block_size_pow. change LARGE with (2 ^ 16). apply Z.pow_le_mono_r; unfold CLASSES in Hc; lia.
Qed.

Lemma trailing_zeros_pow2 k : 0 <= k -> trailing_zeros (2 ^ k) = k.
Proof.
  intros Hk. pose proof (pow2_pos k Hk) as Hp.
  pose proof (trailing_zeros_max (2 ^ k) k Hp Hk (Z.divide_refl _)).
  destruct (Z.eq_dec (trailing_zeros (2 ^ k)) k) as [|Hne]; [done|exfalso].
  assert (2 ^ (k + 1) | 2 ^ k) as Hd by (apply trailing_zeros_divide; lia).
  apply Z.divide_pos_le in Hd; [|lia]. rewrite Z.pow_add_r in Hd by lia. lia.
Qed.

(** The class of a layout exists, and its blocks are large and aligned enough. *)
Lemma class_Some l c :
  layout_ok l -> class l = Some c ->
  (c < CLASSES)%nat /\ l_size l <= block_size c /\ (l_align l | block_size c).
Proof.
  intros [Hs (k & Hk & Ha)]. unfold class, checked_next_power_of_two. set (size := Z.max (Z.max (l_size l) (l_align l)) MIN_BLOCK).
  assert (16 <= size /\ l_size l <= size /\ l_align l <= size) as (Hs1 & Hs2 & Hs3) by (unfold size, MIN_BLOCK; lia).
  pose proof (Z.log2_up_spec size ltac:(lia)) as [_ Hup]. set (e := Z.log2_up size) in *.
  assert (4 <= e) as He by (change 4 with (Z.log2_up 16); apply Z.log2_up_le_mono; lia).
  case_if; [|done]. case_if; [|done]. intros [= <-].
  assert (2 ^ e / MIN_BLOCK = 2 ^ (e - 4)) as Hdiv.
  { unfold MIN_BLOCK. change 16 with (2 ^ 4). replace e with ((e - 4) + 4) at 1 by lia. rewrite Z.pow_add_r by lia. apply Z.div_mul. lia. }
  rewrite Hdiv, trailing_zeros_pow2 by lia. rewrite block_size_pow, Z2Nat.id by lia. replace (4 + (e - 4)) with e by lia.
  assert (e <= 16) as He' by (change LARGE with (2 ^ 16) in *; apply (Z.pow_le_mono_r_iff 2); lia).
  split_and!; [unfold CLASSES; lia|lia|]. rewrite Ha. apply pow2_divide. split; [lia|].
  apply (Z.pow_le_mono_r_iff 2); lia.
Qed.

Lemma class_None l :
  layout_ok l -> class l = None -> LARGE < Z.max (l_size l) (l_align l).
Proof.
  intros [Hs (k & Hk & Ha)]. unfold class, checked_next_power_of_two. set (size := Z.max (Z.max (l_size l) (l_align l)) MIN_BLOCK).
  intros Hn. destruct (Z.lt_ge_cases LARGE (Z.max (l_size l) (l_align l))) as [|Hle]; [done|exfalso].
  assert (size <= 2 ^ 16) as Hsz by (unfold size, MIN_BLOCK, LARGE in *; lia).
  assert (Z.log2_up size <= 16) as Hlog.
  { transitivity (Z.log2_up (2 ^ 16)); [by apply Z.log2_up_le_mono|]. by rewrite Z.log2_up_pow2. }
  assert (2 ^ Z.log2_up size <= LARGE) as Hpow by (change LARGE with (2 ^ 16); apply Z.pow_le_mono_r; lia).
  rewrite !(proj2 (Z.leb_le _ _)) in Hn; [done|done|]. unfold LARGE, U64_MAX in *. lia.
Qed.

Lemma large_size_Some l n : large_size l = Some n -> l_size l <= n /\ (PAGE | n).
Proof.
  unfold large_size, checked_next_multiple_of. case_if; [|done]. intros [= <-].
  split; [by apply next_multiple_of_ge|apply next_multiple_of_divide].
Qed.

(** ** Free lists *)

Definition on_class (c : nat) (fr : list (nat * Z)) : list Z :=
  omap (fun '(d, a) => if bool_decide (c = d) then Some a else None) fr.

Lemma on_class_pop c fr a l :
  on_class c fr = a :: l ->
  exists fr1 fr2, fr = fr1 ++ (c, a) :: fr2 /\ on_class c (fr1 ++ fr2) = l /\
    forall d, d <> c -> on_class d (fr1 ++ fr2) = on_class d fr.
Proof.
  unfold on_class. induction fr as [|[d b] fr IH]; [done|]. cbn [omap list_omap]. case_bool_decide as Hd.
  - intros [= <- <-]. subst d. exists [], fr. split_and!; [done|done|]. intros d Hne. simpl.
    by rewrite bool_decide_eq_false_2.
  - intros (fr1 & fr2 & -> & Hl & Hd')%IH. exists ((d, b) :: fr1), fr2. split_and!; [done| |].
    + simpl. by rewrite bool_decide_eq_false_2.
    + intros d' Hne. simpl. by rewrite Hd'.
Qed.

Definition fblock (f : nat * Z) : Block := (f.2, block_size f.1).

Section Proofs.
Context {S : Type} {src : Source S} {laws : SourceLaws S}.
Implicit Types (s : S) (h : Heap S).

Fixpoint chain (s : S) (p : Z) (l : list Z) : Prop :=
  match l with
  | [] => p = 0
  | a :: l => p = a /\ a <> 0 /\ chain s (read_ptr s a) l
  end.

(** ** Reading and writing memory *)

Definition owned s (b : Block) : Prop := 0 < b.2 /\ forall x, holds b x -> owns s x.

Lemma write_bytes_owns s a bytes x : owns (write_bytes s a bytes) x <-> owns s x.
Proof. revert s a. induction bytes as [|b bytes IH]; intros s a; simpl; [done|]. by rewrite IH, law_poke_owns. Qed.

Lemma write_bytes_peek s a bytes x :
  (forall y, a <= y < a + Z.of_nat (length bytes) -> owns s y) -> owns s x ->
  peek (write_bytes s a bytes) x =
  if bool_decide (a <= x < a + Z.of_nat (length bytes)) then nth (Z.to_nat (x - a)) bytes 0 else peek s x.
Proof.
  revert s a. induction bytes as [|b bytes IH]; intros s a Ho Hx; [by rewrite bool_decide_eq_false_2 by (simpl; lia)|].
  cbn [write_bytes]. cbn [length] in *. rewrite IH; [|intros y Hy; apply law_poke_owns, Ho; lia|by apply law_poke_owns].
  rewrite law_poke by (done || apply Ho; lia).
  case_bool_decide as H1; [rewrite bool_decide_eq_true_2 by lia|].
  - replace (Z.to_nat (x - a)) with (Datatypes.S (Z.to_nat (x - (a + 1)))) by lia. done.
  - destruct (Z.eqb_spec x a) as [->|Hne]; [rewrite bool_decide_eq_true_2 by lia; by rewrite Z.sub_diag|].
    by rewrite bool_decide_eq_false_2 by lia.
Qed.

Lemma read_bytes_ext s s' a n :
  (forall x, a <= x < a + Z.of_nat n -> peek s' x = peek s x) -> read_bytes s' a n = read_bytes s a n.
Proof.
  revert a. induction n as [|n IH]; intros a Hx; [done|]. cbn [read_bytes]. rewrite (Hx a) by lia. f_equal.
  apply IH. intros x Hr. apply Hx. lia.
Qed.

Lemma length_read_bytes s a n : length (read_bytes s a n) = n.
Proof. revert a. induction n as [|n IH]; intros a; [done|]. cbn [read_bytes length]. by rewrite IH. Qed.

Lemma nth_read_bytes s a n i : (i < n)%nat -> nth i (read_bytes s a n) 0 = peek s (a + Z.of_nat i).
Proof.
  revert a i. induction n as [|n IH]; intros a [|i] Hi; [lia|lia|cbn; by rewrite Z.add_0_r|].
  cbn [read_bytes nth]. rewrite IH by lia. f_equal. lia.
Qed.

Lemma uh_read_written s a bytes :
  (forall y, a <= y < a + Z.of_nat (length bytes) -> owns s y) ->
  read_bytes (write_bytes s a bytes) a (length bytes) = bytes.
Proof.
  intros Ho. apply (nth_ext _ _ 0 0); [apply length_read_bytes|]. rewrite length_read_bytes. intros i Hi.
  rewrite nth_read_bytes by done. rewrite write_bytes_peek; [|done|apply Ho; lia].
  rewrite bool_decide_eq_true_2 by lia. f_equal. lia.
Qed.

Lemma read_ptr_written s a v :
  is_u64 v -> (forall y, a <= y < a + 8 -> owns s y) -> read_ptr (write_ptr s a v) a = v.
Proof.
  intros Hv Ho. unfold read_ptr, write_ptr. pose proof (uh_read_written s a (le_bytes 8 v)) as Hr.
  rewrite length_le_bytes in Hr. rewrite Hr by done. by apply from_le_u64.
Qed.

Lemma chain_ext s s' p l :
  (forall a x, a ∈ l -> a <= x < a + 8 -> peek s' x = peek s x) -> chain s p l -> chain s' p l.
Proof.
  revert p. induction l as [|a l IH]; intros p Hx; simpl; [done|]. intros (-> & Ha & Hl).
  split; [done|]. split; [done|]. unfold read_ptr. rewrite (read_bytes_ext s s' a 8).
  - apply IH; [|done]. intros b x Hb. apply Hx. by right.
  - intros x Hr. apply (Hx a); [left|lia].
Qed.

(** ** The invariant *)

Lemma apart_holds b c : 0 < b.2 -> 0 < c.2 -> apart b c <-> forall x, holds b x -> ~ holds c x.
Proof.
  intros Hb Hc. unfold apart, holds, block_end. split; [intros [H|H] x; lia|]. intros H.
  destruct (Z.le_gt_cases (b.1 + b.2) c.1) as [|H1]; [by left|right].
  destruct (Z.le_gt_cases (c.1 + c.2) b.1) as [|H2]; [done|exfalso].
  apply (H (Z.max b.1 c.1)); lia.
Qed.

Definition tail h : list Block := if bump h <? end_ h then [(bump h, end_ h - bump h)] else [].

(** Blocks handed out, free blocks, and the unused part of the heap. *)
Definition blocks h (bs : list Block) (fr : list (nat * Z)) : list Block := bs ++ (fblock <$> fr) ++ tail h.

Record ok h (bs : list Block) (fr : list (nat * Z)) : Prop := {
  ok_free : length (free h) = CLASSES;
  ok_chain c : (c < CLASSES)%nat -> chain (source h) (nth c (free h) 0) (on_class c fr);
  ok_class : Forall (fun f => (f.1 < CLASSES)%nat /\ (block_size f.1 | f.2)) fr;
  ok_apart : all_apart (blocks h bs fr);
  ok_owned : Forall (owned (source h)) (blocks h bs fr);
  ok_bump : 0 <= bump h <= end_ h;
  ok_end : end_ h <= 2 ^ 47;
}.

Lemma on_class_elem c fr a : a ∈ on_class c fr -> (c, a) ∈ fr.
Proof.
  unfold on_class. rewrite list_elem_of_omap. intros ([d b] & Hin & Hb). case_bool_decide; [|done].
  injection Hb as <-. by subst.
Qed.

Lemma fblock_elem h bs fr f : f ∈ fr -> fblock f ∈ blocks h bs fr.
Proof. intros Hf. unfold blocks. rewrite !elem_of_app, list_elem_of_fmap. right. left. by exists f. Qed.

Lemma ok_owns h bs fr b x : ok h bs fr -> b ∈ blocks h bs fr -> holds b x -> owns (source h) x.
Proof. intros [_ _ _ _ Ho _ _] Hb. rewrite Forall_forall in Ho. by apply Ho. Qed.

(** The heap does not depend on the source but for its own bytes. *)
Lemma ok_source h bs fr s' :
  ok h bs fr ->
  (forall b x, b ∈ blocks h bs fr -> holds b x -> owns s' x) ->
  (forall f x, f ∈ fr -> holds (fblock f) x -> peek s' x = peek (source h) x) ->
  ok (mkHeap s' (free h) (bump h) (end_ h)) bs fr.
Proof.
  intros [Hf Hc Hcl Ha Ho Hb He] Howns Hpeek. constructor; try done.
  - intros c Hlt. apply (chain_ext (source h)); [|by apply Hc]. intros a x Hin%on_class_elem Hx.
    apply (Hpeek _ _ Hin). pose proof (block_size_pos c). unfold holds, block_end, fblock. simpl. lia.
  - rewrite Forall_forall in *. intros b Hin. split; [by apply Ho|]. intros x Hx. by apply (Howns b).
Qed.

(** Null is not in the heap. *)
Lemma bump_pos h bs fr : ok h bs fr -> bump h < end_ h -> 0 < bump h.
Proof.
  intros [_ _ _ _ Ho Hb _] Hlt. unfold blocks, tail in Ho. rewrite (proj2 (Z.ltb_lt _ _) Hlt) in Ho.
  apply Forall_app in Ho as [_ Ho]. apply Forall_app in Ho as [_ Ho]. apply Forall_inv in Ho as [_ Ho].
  specialize (Ho (bump h)). apply law_range in Ho; [lia|]. unfold holds, block_end. simpl. lia.
Qed.

Lemma all_apart_inside rest T subs :
  all_apart (rest ++ [T]) -> all_apart subs ->
  Forall (fun b => T.1 <= b.1 /\ block_end b <= block_end T) subs -> all_apart (subs ++ rest).
Proof.
  intros (Hr & _ & HT)%all_apart_app Hs Hin. apply all_apart_app. split; [done|]. split; [done|].
  rewrite Forall_forall in *. intros b Hb. apply Forall_forall. intros c Hc. specialize (HT c Hc).
  apply Forall_inv in HT. specialize (Hin b Hb). cbn beta in Hin, HT. unfold apart, block_end in *.
  lia.
Qed.

Lemma take_block_ok h bs fr c a h' :
  ok h bs fr -> next_multiple_of (bump h) (block_size c) + block_size c <= end_ h -> 0 < bump h ->
  take_block h (block_size c) = (a, h') ->
  source h' = source h /\ 0 < a /\ (block_size c | a) /\ ok h' ((a, block_size c) :: bs) fr.
Proof.
  intros [Hf Hc Hcl Ha Ho Hb He] Hfit Hpos [= <- <-]. cbn [source].
  pose proof (block_size_pos c) as Hsz. set (size := block_size c) in *.
  pose proof (next_multiple_of_ge (bump h) size ltac:(lia)) as Hge. set (start := next_multiple_of (bump h) size) in *.
  split; [done|]. split; [lia|]. split; [apply next_multiple_of_divide|].
  assert (tail h = [(bump h, end_ h - bump h)]) as Htail by (unfold tail; case_if; [done|lia]).
  set (h' := mkHeap _ _ _ _). set (rest := bs ++ (fblock <$> fr)).
  assert (blocks h bs fr = rest ++ [(bump h, end_ h - bump h)]) as Hbl by (unfold blocks; rewrite Htail; unfold rest; by rewrite (assoc_L (++))).
  assert (blocks h' ((start, size) :: bs) fr ≡ₚ ((start, size) :: tail h') ++ rest) as Hbl'.
  { unfold blocks, rest. simpl. constructor. rewrite (assoc_L (++)). apply Permutation_app_comm. }
  rewrite Hbl in Ha, Ho. apply Forall_app in Ho as [Ho HT]. apply Forall_inv in HT as [_ HT].
  constructor; try done; [..|unfold h'; cbn [bump end_]; lia].
  - rewrite Hbl'. apply (all_apart_inside rest (bump h, end_ h - bump h)); [done| |];
      unfold tail, h', block_end; cbn [bump end_ fst snd]; case_if; repeat constructor; unfold apart, block_end; simpl; lia.
  - rewrite Hbl'. apply Forall_app. split; [|done]. unfold tail, h'. cbn [bump end_ source].
    constructor; [|case_if; constructor; [|constructor]]; (split; [simpl; lia|]); intros x Hx; apply HT;
      unfold holds, block_end in *; simpl in *; lia.
Qed.

(** A fresh region takes the place of the tail, or extends it. *)
Lemma regrow_ok h bs fr wanted new s' :
  ok h bs fr -> 0 < wanted -> grow wanted (source h) = (Some new, s') ->
  ok (regrow h wanted new s') bs fr /\ 0 < bump (regrow h wanted new s') /\
  (forall x, owns (source h) x -> peek s' x = peek (source h) x).
Proof.
  intros Hok Hw Hg. destruct (law_grow _ _ _ _ Hw Hg) as (Hn & Hmax & Hfresh & Howns & Hpeek).
  split; [|split; [|done]]; cycle 1.
  { unfold regrow. cbn [bump]. case_if; [lia|]. destruct (Z.eq_dec (bump h) 0) as [H0|]; [|pose proof (ok_bump _ _ _ Hok); lia].
    apply (bump_pos h bs fr Hok). lia. }
  assert (forall b x, b ∈ blocks h bs fr -> holds b x -> owns (source h) x) as Hbo by (intros b x; by apply ok_owns).
  destruct Hok as [Hf Hc Hcl Ha Ho Hb He]. set (rest := bs ++ (fblock <$> fr)).
  assert (blocks h bs fr = rest ++ tail h) as Hbl by (unfold blocks, rest; by rewrite (assoc_L (++))).
  rewrite Hbl in Ha, Ho, Hbo. apply all_apart_app in Ha as (Ha & _ & HaT). apply Forall_app in Ho as [Ho HoT].
  rewrite Forall_forall in HaT, Ho.
  set (h' := regrow h wanted new s'). set (T := (bump h', end_ h' - bump h')).
  assert (0 <= bump h' < end_ h' /\ end_ h' = new + wanted) as (Hbe & He') by (unfold h', regrow; cbn [bump end_]; case_if; lia).
  assert (forall x, holds T x -> (exists b, b ∈ tail h /\ holds b x) \/ holds (new, wanted) x) as HT.
  { intros x. unfold T, h', regrow, holds, block_end. cbn [bump end_ fst snd].
    destruct (Z.eqb_spec new (end_ h)) as [->|]; simpl; [|intros; right; lia].
    intros Hx. destruct (Z.lt_ge_cases x (end_ h)) as [Hlt|]; [left|right; lia].
    unfold tail. case_if; [|lia]. eexists. split; [by left|]. simpl. lia. }
  assert (tail h' = [T]) as Ht' by (unfold tail, T; case_if; [done|lia]).
  assert (blocks h' bs fr = rest ++ [T]) as Hbl' by (unfold blocks, rest; rewrite Ht'; by rewrite (assoc_L (++))).
  constructor; try done.
  - intros c Hlt. apply (chain_ext (source h)); [|by apply Hc]. intros a x Hin%on_class_elem Hx. apply Hpeek.
    apply (Hbo (fblock (c, a)) x).
    + rewrite <- Hbl. by apply fblock_elem.
    + pose proof (block_size_pos c). unfold holds, block_end, fblock. simpl. lia.
  - rewrite Hbl'. apply all_apart_app. split; [done|]. split; [by repeat constructor|].
    apply Forall_forall. intros b Hin. apply Forall_singleton.
    apply apart_holds; [by apply Ho|change (0 < end_ h' - bump h'); lia|]. intros x Hx [(c & Hc1 & Hc2)|Hc1]%HT.
    + specialize (HaT b Hin). rewrite Forall_forall in HaT. specialize (HaT c Hc1). unfold apart, holds in *. lia.
    + apply (Hfresh x Hc1). apply (Hbo b); [apply elem_of_app; by left|done].
  - rewrite Hbl'. apply Forall_app. split.
    + apply Forall_forall. intros b Hin. split; [by apply Ho|]. intros x Hx. apply Howns. left. by apply (Ho b Hin).
    + apply Forall_singleton. split; [change (0 < end_ h' - bump h'); lia|]. intros x [(c & Hc1 & Hc2)|Hc1]%HT; apply Howns; [left|by right].
      apply (Hbo c); [apply elem_of_app; by right|done].
  - lia.
Qed.

(** ** The operations *)

(** The contents of some blocks stay. *)
Definition kept (bs : list Block) s s' : Prop := forall b x, b ∈ bs -> holds b x -> peek s' x = peek s x.

Lemma uh_carve_spec h bs fr c a h' :
  ok h bs fr -> (c < CLASSES)%nat -> carve c h = (a, h') ->
  kept bs (source h) (source h') /\
  (a = 0 /\ ok h' bs fr \/ 0 < a /\ (block_size c | a) /\ ok h' ((a, block_size c) :: bs) fr).
Proof.
  intros Hok Hc. unfold carve. pose proof (block_size_pos c) as Hp. pose proof (block_size_max c Hc) as Hm.
  pose proof (ok_bump _ _ _ Hok) as Hb. pose proof (ok_end _ _ _ Hok) as He.
  assert (forall b x, b ∈ bs -> holds b x -> owns (source h) x) as Hbs.
  { intros b x Hin. apply (ok_owns h bs fr b x Hok). unfold blocks. apply elem_of_app. by left. }
  set (size := block_size c) in *. set (wanted := Z.max (2 * size) GROWTH). assert (0 < wanted) as Hw by (unfold wanted, GROWTH; lia).
  pose proof (next_multiple_of_lt (bump h) size ltac:(lia)) as Hlt.
  pose proof (next_multiple_of_ge (bump h) size ltac:(lia)) as Hge.
  case_if.
  - destruct (grow wanted (source h)) as [[new|] s'] eqn:Hg.
    + destruct (regrow_ok h bs fr wanted new s' Hok Hw Hg) as (Hok' & Hpos & Hk). intros Ht.
      apply (take_block_ok (regrow h wanted new s') bs fr) in Ht as (Hs & H1 & H2 & H3); [|done| |done].
      * split; [|by right]. rewrite Hs. intros b x Hin Hx. apply Hk. by apply (Hbs b).
      * pose proof (next_multiple_of_lt (bump (regrow h wanted new s')) size ltac:(lia)) as Hlt'. unfold regrow in *. cbn [bump end_] in *.
        fold size. revert Hlt'. destruct (Z.eqb_spec new (end_ h)); simpl; unfold wanted; lia.
    + intros [= <- <-]. split; [|left; split; [done|]].
      * intros b x Hin Hx. apply (law_grow_none _ _ _ Hw Hg). by apply (Hbs b).
      * apply ok_source; [done| |].
        -- intros b x Hin Hx. apply (law_grow_none _ _ _ Hw Hg). by apply (ok_owns h bs fr b).
        -- intros f x Hin Hx. apply (law_grow_none _ _ _ Hw Hg). apply (ok_owns h bs fr (fblock f)); [done|by apply fblock_elem|done].
  - intros Ht. assert (next_multiple_of (bump h) size + size <= end_ h) as Hfit.
    { revert Hif. unfold checked_add. case_if; [intros; bool_to_prop; lia|done]. }
    apply (take_block_ok h bs fr) in Ht as (Hs & H1 & H2 & H3); [|done|done|apply (bump_pos h bs fr Hok); lia].
    split; [|by right]. by rewrite Hs.
Qed.

(** What a layout takes, and what is known of its live block. *)
Definition block_bytes (l : Layout) : Z :=
  match class l with Some c => block_size c | None => default 0 (large_size l) end.

Definition live_ok (b : Z * Layout) : Prop :=
  layout_ok b.2 /\ 0 < b.1 /\ (l_align b.2 | b.1) /\
  match class b.2 with
  | Some c => (c < CLASSES)%nat /\ (block_size c | b.1)
  | None => is_Some (large_size b.2)
  end.

Lemma block_bytes_size l : layout_ok l -> (class l = None -> is_Some (large_size l)) -> l_size l <= block_bytes l.
Proof.
  intros Hl Hn. unfold block_bytes. destruct (class l) as [c|] eqn:Hc; [by apply class_Some|].
  destruct Hn as [n Hn]; [done|]. rewrite Hn. simpl. apply (large_size_Some l n Hn).
Qed.

Lemma nth_insert_eq c v (l : list Z) : (c < length l)%nat -> nth c (<[c := v]> l) 0 = v.
Proof. intros Hc. rewrite nth_lookup, list_lookup_insert_eq by done. done. Qed.
Lemma nth_insert_ne c d v (l : list Z) : c <> d -> nth d (<[c := v]> l) 0 = nth d l 0.
Proof. intros Hc. by rewrite !nth_lookup, list_lookup_insert_ne. Qed.

Lemma pop_ok h bs fr c head l :
  ok h bs fr -> (c < CLASSES)%nat -> on_class c fr = head :: l ->
  0 < head /\ (block_size c | head) /\
  exists fr', ok (mkHeap (source h) (<[c := read_ptr (source h) head]> (free h)) (bump h) (end_ h)) ((head, block_size c) :: bs) fr'.
Proof.
  intros [Hf Hc Hcl Ha Ho Hb He] Hlt Hon. pose proof (Hc c Hlt) as Hch. rewrite Hon in Hch. destruct Hch as (Hh & H0 & Hch).
  destruct (on_class_pop c fr head l Hon) as (fr1 & fr2 & Hfr & Hl & Hother).
  assert (blocks h bs fr ≡ₚ ((head, block_size c) :: bs) ++ (fblock <$> fr1 ++ fr2) ++ tail h) as Hbl.
  { unfold blocks. rewrite Hfr, !fmap_app, fmap_cons. change (fblock (c, head)) with (head, block_size c).
    rewrite <- !(assoc_L (++)). cbn [app]. symmetry. etrans; [apply Permutation_middle|]. apply Permutation_app_head, Permutation_middle. }
  rewrite Hbl in Ha, Ho. rewrite Hfr in Hcl. apply Forall_app in Hcl as [Hcl1 Hcl2]. apply Forall_cons in Hcl2 as [[_ Hdiv] Hcl2].
  split; [|split; [done|]].
  { apply Forall_inv in Ho as [_ Ho]. specialize (Ho head). apply law_range in Ho; [lia|].
    pose proof (block_size_pos c). unfold holds, block_end. simpl. lia. }
  exists (fr1 ++ fr2). constructor; try done; cbn [free source].
  - by rewrite length_insert.
  - intros d Hd. destruct (decide (c = d)) as [<-|Hne].
    + by rewrite nth_insert_eq, Hl by (rewrite Hf; done).
    + rewrite nth_insert_ne, Hother by done. by apply Hc.
  - by apply Forall_app.
Qed.

Lemma large_ok h bs fr n a s' :
  ok h bs fr -> 0 < n -> (PAGE | n) -> map n (source h) = (a, s') ->
  kept bs (source h) s' /\
  match a with
  | Some b => 0 < b /\ (PAGE | b) /\ ok (mkHeap s' (free h) (bump h) (end_ h)) ((b, n) :: bs) fr
  | None => ok (mkHeap s' (free h) (bump h) (end_ h)) bs fr
  end.
Proof.
  intros Hok Hpos Hpg Hm.
  assert (forall c x, c ∈ bs -> holds c x -> owns (source h) x) as Hbs.
  { intros c x Hin Hx. apply (ok_owns h bs fr c); [done|unfold blocks; apply elem_of_app; by left|done]. }
  assert (forall f x, f ∈ fr -> holds (fblock f) x -> owns (source h) x) as Hfr.
  { intros f x Hin Hx. by apply (ok_owns h bs fr (fblock f)); [done|apply fblock_elem|]. }
  destruct a as [b|].
  - destruct (law_map _ _ _ _ Hpos Hpg Hm) as (Hb0 & Hbp & Hfresh & Howns & Hpeek).
    assert (ok (mkHeap s' (free h) (bump h) (end_ h)) bs fr) as [Hf Hc Hcls Ha Ho Hb He].
    { apply ok_source; [done| |].
      - intros c x Hin Hx. apply Howns. left. by apply (ok_owns h bs fr c).
      - intros f x Hin Hx. apply Hpeek. by apply (Hfr f). }
    split; [intros c x Hin Hx; apply Hpeek; by apply (Hbs c)|]. split; [done|]. split; [done|].
    pose proof (ok_owned _ _ _ Hok) as Hpos'. rewrite Forall_forall in Hpos'. constructor; try done.
    + split; [|done]. apply Forall_forall. intros c Hin. apply apart_holds; [done|by apply (Hpos' c)|].
      intros x Hx Hx'. apply (Hfresh x Hx). by apply (ok_owns h bs fr c).
    + constructor; [|done]. split; [done|]. intros x Hx. apply Howns. by right.
  - split; [intros c x Hin Hx; apply (law_map_none _ _ _ Hpos Hpg Hm); by apply (Hbs c)|]. apply ok_source; [done| |].
    + intros c x Hin Hx. apply (law_map_none _ _ _ Hpos Hpg Hm). by apply (ok_owns h bs fr c).
    + intros f x Hin Hx. apply (law_map_none _ _ _ Hpos Hpg Hm). by apply (Hfr f).
Qed.

Lemma uh_alloc_spec h bs fr l a h' :
  ok h bs fr -> layout_ok l -> alloc l h = (a, h') ->
  kept bs (source h) (source h') /\
  (a = 0 /\ ok h' bs fr \/
   live_ok (a, l) /\ exists fr', ok h' ((a, block_bytes l) :: bs) fr').
Proof.
  intros Hok Hl. unfold alloc, live_ok, block_bytes. cbn [fst snd]. destruct (class l) as [c|] eqn:Hcl.
  - destruct (class_Some l c Hl Hcl) as (Hc & Hsz & Hal). case_if.
    + intros Hcv. destruct (uh_carve_spec h bs fr c a h' Hok Hc Hcv) as [Hk [[Ha Hr]|(Ha & Hd & Hr)]]; (split; [done|]); [by left|right].
      split_and!; try done; [by etrans|by exists fr].
    + intros [= <- <-]. cbn [source]. split; [done|right].
      pose proof (ok_chain _ _ _ Hok c Hc) as Hch. destruct (on_class c fr) as [|head tl] eqn:Hon; [done|].
      destruct Hch as (-> & _ & _). destruct (pop_ok h bs fr c head tl Hok Hc Hon) as (H1 & H2 & H3).
      split_and!; try done. by etrans.
  - case_if; [intros [= <- <-]; split; [done|by left]|].
    destruct (large_size l) as [n|] eqn:Hn; [|intros [= <- <-]; split; [done|by left]].
    destruct (large_size_Some l n Hn) as [Hsz Hpg].
    assert (0 < n) as Hpos by (pose proof (class_None l Hl Hcl); unfold PAGE, LARGE in *; lia).
    destruct (map n (source h)) as [b s'] eqn:Hm. intros [= <- <-]. cbn [source].
    destruct (large_ok h bs fr n b s' Hok Hpos Hpg Hm) as [Hk Hr]. split; [done|].
    destruct b as [b|]; [right|by left]. destruct Hr as (Hb0 & Hbp & Hr). split; [|by exists fr].
    split_and!; try done. etrans; [|exact Hbp]. destruct Hl as [_ (k & Hk' & Hal)]. rewrite Hal.
    change PAGE with (2 ^ 12). apply pow2_divide. split; [lia|]. apply (Z.pow_le_mono_r_iff 2); [lia|lia|].
    rewrite <- Hal. unfold PAGE in *. lia.
Qed.

(** Writing into a block handed out leaves the heap and the other blocks. *)
Lemma uh_write_ok h bs fr b a bytes :
  ok h (b :: bs) fr -> b.1 <= a -> a + Z.of_nat (length bytes) <= block_end b ->
  ok (mkHeap (write_bytes (source h) a bytes) (free h) (bump h) (end_ h)) (b :: bs) fr /\
  kept (bs ++ (fblock <$> fr)) (source h) (write_bytes (source h) a bytes).
Proof.
  intros Hok H1 H2.
  assert (forall c x, c ∈ bs ++ (fblock <$> fr) -> holds c x -> peek (write_bytes (source h) a bytes) x = peek (source h) x) as Hk.
  { intros c x Hin Hx.
    assert (c ∈ bs ++ (fblock <$> fr) ++ tail h) as Hin' by (rewrite (assoc_L (++)); apply elem_of_app; by left).
    assert (owns (source h) x) as Hown by (apply (ok_owns h (b :: bs) fr c); [done|by right|done]).
    rewrite write_bytes_peek; [|intros y Hy; apply (ok_owns h (b :: bs) fr b); [done|left|unfold holds; lia]|done].
    rewrite bool_decide_eq_false_2; [done|]. intros Hr. destruct (ok_apart _ _ _ Hok) as [Ha _].
    rewrite Forall_forall in Ha. specialize (Ha c Hin'). unfold apart, holds in *. lia. }
  split; [|done]. apply ok_source; [done| |].
  - intros c x Hin Hx. apply write_bytes_owns. by apply (ok_owns h (b :: bs) fr c).
  - intros f x Hin. apply Hk. apply elem_of_app. right. by apply list_elem_of_fmap_2.
Qed.

Lemma head_u64 h bs fr c : ok h bs fr -> (c < CLASSES)%nat -> is_u64 (nth c (free h) 0).
Proof.
  intros Hok Hc. pose proof (ok_chain _ _ _ Hok c Hc) as Hch. destruct (on_class c fr) as [|a l] eqn:Hon.
  - simpl in Hch. rewrite Hch. unfold is_u64, U64_MAX. lia.
  - destruct Hch as (-> & _ & _). assert ((c, a) ∈ fr) as Hin by (apply on_class_elem; rewrite Hon; left).
    assert (owns (source h) a) as Ho.
    { apply (ok_owns h bs fr (fblock (c, a))); [done|by apply fblock_elem|].
      pose proof (block_size_pos c). unfold holds, block_end, fblock. simpl. lia. }
    apply law_range in Ho. unfold is_u64, U64_MAX. lia.
Qed.

Lemma push_ok h bs fr c a :
  ok h ((a, block_size c) :: bs) fr -> (c < CLASSES)%nat -> 0 < a -> (block_size c | a) ->
  let s' := write_ptr (source h) a (nth c (free h) 0) in
  ok (mkHeap s' (<[c := a]> (free h)) (bump h) (end_ h)) bs ((c, a) :: fr) /\ kept bs (source h) s'.
Proof.
  intros Hok Hc Ha Hd s'. pose proof (block_size_pos c) as Hp. pose proof (head_u64 _ _ _ c Hok Hc) as Hu.
  destruct (uh_write_ok h bs fr (a, block_size c) a (le_bytes 8 (nth c (free h) 0)) Hok) as [Hok' Hk];
    [simpl; lia|rewrite length_le_bytes; unfold block_end; simpl; lia|].
  split; [|intros b x Hin; apply Hk; apply elem_of_app; by left].
  assert (read_ptr s' a = nth c (free h) 0) as Hread.
  { apply read_ptr_written; [done|]. intros y Hy. apply (ok_owns h ((a, block_size c) :: bs) fr (a, block_size c)); [done|left|].
    unfold holds, block_end. simpl. lia. }
  destruct Hok' as [Hf Hch Hcl Hap Ho Hb He]. cbn [free source bump end_] in *. fold (write_ptr (source h) a (nth c (free h) 0)) in *. fold s' in Hch, Ho.
  assert (blocks (mkHeap s' (<[c := a]> (free h)) (bump h) (end_ h)) bs ((c, a) :: fr) ≡ₚ
          blocks (mkHeap s' (free h) (bump h) (end_ h)) ((a, block_size c) :: bs) fr) as Hbl.
  { unfold blocks. rewrite fmap_cons. symmetry. apply Permutation_middle. }
  constructor; cbn [free source bump end_]; try done.
  - by rewrite length_insert.
  - intros d Hd'. unfold on_class. cbn [omap list_omap]. case_bool_decide as Hcd.
    + subst d. rewrite nth_insert_eq by (by rewrite Hf). split; [done|]. split; [lia|]. rewrite Hread. by apply Hch.
    + rewrite nth_insert_ne by done. by apply Hch.
  - by constructor.
  - by rewrite Hbl.
  - by rewrite Hbl.
Qed.

Lemma uh_dealloc_spec h bs fr a l :
  ok h ((a, block_bytes l) :: bs) fr -> live_ok (a, l) ->
  kept bs (source h) (source (dealloc a l h)) /\ exists fr', ok (dealloc a l h) bs fr'.
Proof.
  intros Hok (Hl & Ha & Hal & Hcls). unfold dealloc, block_bytes in *. cbn [fst snd] in *.
  destruct (class l) as [c|] eqn:Hc.
  - destruct (push_ok h bs fr c a Hok) as [Hr Hk]; [by apply Hcls|done|by apply Hcls|]. split; [done|by eexists].
  - destruct Hcls as [n Hn]. rewrite Hn in *. cbn [default] in Hok. cbn [source].
    pose proof (ok_owned _ _ _ Hok) as Ho. apply Forall_cons in Ho as [[Hpos Hown] Ho]. cbn [snd] in Hpos.
    destruct (law_unmap (source h) a n Hpos Hown) as [Howns Hpeek].
    pose proof (ok_apart _ _ _ Hok) as [Hap Hap']. rewrite Forall_forall in Hap, Ho.
    assert (forall c x, c ∈ bs ++ (fblock <$> fr) ++ tail h -> holds c x -> owns (source h) x /\ ~ holds (a, n) x) as Hother.
    { intros c x Hin Hx. split; [by apply (Ho c Hin)|]. specialize (Hap c Hin). unfold apart, holds, block_end in *. simpl in *. lia. }
    split; [intros c x Hin Hx; destruct (Hother c x) as [? ?]; [apply elem_of_app; by left|done|by apply Hpeek]|].
    exists fr. destruct Hok as [Hf Hch Hcl _ _ Hb He]. constructor; cbn [free source bump end_]; try done.
    + intros d Hd. apply (chain_ext (source h)); [|by apply Hch]. intros b x Hin%on_class_elem Hx.
      pose proof (block_size_pos d). destruct (Hother (fblock (d, b)) x) as [? ?]; [|unfold holds, block_end, fblock; simpl; lia|by apply Hpeek].
      apply (fblock_elem h bs fr (d, b) Hin).
    + apply Forall_forall. intros c Hin. split; [by apply Ho|]. intros x Hx. apply Howns. by apply (Hother c x).
Qed.

Lemma from_size_align_ok n l nl :
  layout_ok l -> 0 < n -> from_size_align n (l_align l) = Some nl -> nl = mkLayout n (l_align l) /\ layout_ok nl.
Proof.
  intros [_ Hk] Hn. unfold from_size_align. case_if; [|done]. intros [= <-]. split; [done|]. split; [simpl; lia|done].
Qed.

(** The contents of a block move with it. *)
Definition moved s (a : Z) s' (a' n : Z) : Prop := forall i, 0 <= i < n -> peek s' (a' + i) = peek s (a + i).

Lemma copy_ok h bs fr (old new : Block) n :
  ok h (new :: old :: bs) fr -> 0 <= n -> n <= old.2 -> n <= new.2 ->
  let s' := copy_nonoverlapping (source h) old.1 new.1 n in
  ok (mkHeap s' (free h) (bump h) (end_ h)) (new :: old :: bs) fr /\
  kept (old :: bs) (source h) s' /\ moved (source h) old.1 s' new.1 n.
Proof.
  intros Hok H0 Ho Hn s'. assert (Z.of_nat (length (read_bytes (source h) old.1 (Z.to_nat n))) = n) as Hlen by (rewrite length_read_bytes; lia).
  destruct (uh_write_ok h (old :: bs) fr new new.1 (read_bytes (source h) old.1 (Z.to_nat n)) Hok) as [Hok' Hk];
    [lia|unfold block_end; lia|].
  split; [done|]. split; [intros b x Hin; apply Hk; apply elem_of_app; by left|].
  intros i Hi. unfold s', copy_nonoverlapping.
  assert (forall y, new.1 <= y < new.1 + n -> owns (source h) y) as Hown.
  { intros y Hy. apply (ok_owns h (new :: old :: bs) fr new); [done|left|unfold holds, block_end; lia]. }
  rewrite write_bytes_peek; [|intros y Hy; apply Hown; lia|apply Hown; lia].
  rewrite bool_decide_eq_true_2 by lia. rewrite nth_read_bytes by lia. f_equal. lia.
Qed.

Lemma uh_realloc_spec h bs fr a l n a' h' :
  ok h ((a, block_bytes l) :: bs) fr -> live_ok (a, l) -> 0 < n -> realloc a l n h = (a', h') ->
  kept bs (source h) (source h') /\ exists fr',
  (a' = 0 /\ ok h' ((a, block_bytes l) :: bs) fr' /\ kept [(a, block_bytes l)] (source h) (source h') \/
   0 < a' /\ live_ok (a', mkLayout n (l_align l)) /\ ok h' ((a', block_bytes (mkLayout n (l_align l))) :: bs) fr' /\
   moved (source h) a (source h') a' (Z.min (l_size l) n)).
Proof.
  intros Hok Hlive Hn. pose proof Hlive as (Hl & Ha & Hal & Hcls). cbn [fst snd] in *. unfold realloc.
  destruct (from_size_align n (l_align l)) as [nl|] eqn:Hf; [|intros [= <- <-]; split; [done|]; exists fr; by left].
  destruct (from_size_align_ok n l nl Hl Hn Hf) as [-> Hnl]. set (nl := mkLayout n (l_align l)) in *.
  destruct (bool_decide (is_Some (class l)) && bool_decide (class l = class nl)) eqn:Hsame.
  { apply andb_prop in Hsame as [Hs He]. apply bool_decide_eq_true in Hs as [c Hc], He.
    intros [= <- <-]. split; [done|]. exists fr. right. unfold live_ok, block_bytes in *. cbn [fst snd] in *.
    rewrite <- He, Hc in *. split_and!; try done; apply Hcls. }
  destruct (alloc nl h) as [new h1] eqn:Halloc.
  destruct (uh_alloc_spec h _ fr nl new h1 Hok Hnl Halloc) as [Hk [[-> Hr]|[Hnew [fr1 Hr]]]].
  { intros [= <- <-]. split; [intros b x Hb; apply Hk; by right|]. exists fr. left. split_and!; try done.
    intros b x ->%list_elem_of_singleton. apply Hk. left. }
  pose proof Hnew as (_ & Hpos & _ & Hcls'). cbn [fst snd] in *. rewrite (proj2 (Z.eqb_neq new 0)) by lia.
  intros [= <- <-]. destruct Hl as [Hl0 Hl1].
  assert (l_size l <= block_bytes l) as Hsz by (apply block_bytes_size; [done|intros E; by rewrite E in Hcls]).
  assert (n <= block_bytes nl) as Hsz' by (apply (block_bytes_size nl); [done|intros E; by rewrite E in Hcls']).
  destruct (copy_ok h1 bs fr1 (a, block_bytes l) (new, block_bytes nl) (Z.min (l_size l) n) Hr) as (Hc & Hck & Hmv);
    [lia|simpl; lia|simpl; lia|]. cbn [fst snd] in *. set (s2 := copy_nonoverlapping _ _ _ _) in *.
  set (h2 := mkHeap s2 (free h1) (bump h1) (end_ h1)) in *.
  assert (ok h2 ((a, block_bytes l) :: (new, block_bytes nl) :: bs) fr1) as Hc'.
  { destruct Hc as [H1 H2 H3 H4 H5 H6 H7]. constructor; try done; unfold blocks in *; cbn [app] in *; by rewrite perm_swap. }
  destruct (uh_dealloc_spec h2 ((new, block_bytes nl) :: bs) fr1 a l Hc' Hlive) as [Hdk [fr2 Hd]].
  split; [|exists fr2; right; split_and!; try done].
  - intros b x Hb Hx. rewrite (Hdk b x); [|by right|done]. change (source h2) with s2. rewrite (Hck b x); [|by right|done]. apply (Hk b x); [by right|done].
  - intros i Hi. rewrite (Hdk (new, block_bytes nl)); [|left|unfold holds, block_end; simpl; lia]. change (source h2) with s2.
    rewrite Hmv by done. apply (Hk (a, block_bytes l)); [left|unfold holds, block_end; simpl; lia].
Qed.

Lemma uh_new_ok s : ok (new s) [] [].
Proof.
  constructor; try done. intros c Hc. change (nth c (replicate CLASSES 0) 0 = 0).
  rewrite nth_lookup. destruct (replicate CLASSES 0 !! c) eqn:E; [|done]. by apply lookup_replicate in E as [-> _].
Qed.

End Proofs.

(** ** Programs *)

Record Prog (S : Type) := mkProg { heap : Heap S; live : list (Z * Layout) }.
Arguments mkProg {S} heap live.
Arguments heap {S} p.
Arguments live {S} p.

(** What a program may do with its heap: the indices are of its live blocks. *)
Inductive Op :=
| OpAlloc (l : Layout)
| OpDealloc (i : nat)
| OpRealloc (i : nat) (new_size : Z)
| OpWrite (i : nat) (offset byte : Z).

(** The live block an operation is about, the others being kept. *)
Definition subject (o : Op) : option nat :=
  match o with OpAlloc _ => None | OpDealloc i | OpRealloc i _ | OpWrite i _ _ => Some i end.

Section Programs.
Context {S : Type} {src : Source S}.

(** [None] where the contract of [GlobalAlloc] is not kept (and for a block
    aligned to half the address space, of which there is none). *)
Definition perform (o : Op) (p : Prog S) : option (Prog S) :=
  match o with
  | OpAlloc l =>
      if bool_decide (from_size_align (l_size l) (l_align l) = Some l) && ((0 <=? l_size l) && (l_align l <? 2 ^ 63)) then
        let '(a, h) := alloc l (heap p) in
        Some (mkProg h (if a =? 0 then live p else (a, l) :: live p))
      else None
  | OpDealloc i =>
      match live p !! i with
      | Some (a, l) => Some (mkProg (dealloc a l (heap p)) (delete i (live p)))
      | None => None
      end
  | OpRealloc i n =>
      match live p !! i with
      | Some (a, l) =>
          if 0 <? n then
            let '(a', h) := realloc a l n (heap p) in
            Some (mkProg h (if a' =? 0 then live p else (a', mkLayout n (l_align l)) :: delete i (live p)))
          else None
      | None => None
      end
  | OpWrite i k v =>
      match live p !! i with
      | Some (a, l) =>
          if (0 <=? k) && (k <? l_size l) then
            let h := heap p in
            Some (mkProg (mkHeap (poke (a + k) v (source h)) (free h) (bump h) (end_ h)) (live p))
          else None
      | None => None
      end
  end.

Fixpoint perform_all (os : list Op) (p : Prog S) : option (Prog S) :=
  match os with
  | [] => Some p
  | o :: os => match perform o p with Some p => perform_all os p | None => None end
  end.

Definition start (s : S) : Prog S := mkProg (new s) [].

Definition lblock (b : Z * Layout) : Block := (b.1, block_bytes b.2).

Context {laws : SourceLaws S}.

(** The invariant of programs. *)
Definition sound (p : Prog S) : Prop :=
  Forall live_ok (live p) /\ exists fr, ok (heap p) (lblock <$> live p) fr.

(** The contents of the other live blocks are kept, and a block that moves
    takes its contents with it. *)
Definition faithful (o : Op) (p p' : Prog S) : Prop :=
  (forall i b, live p !! i = Some b -> subject o <> Some i -> b ∈ live p' /\ kept [lblock b] (source (heap p)) (source (heap p'))) /\
  match o with
  | OpRealloc i n =>
      forall a l, live p !! i = Some (a, l) ->
      ((a, l) ∈ live p' /\ kept [lblock (a, l)] (source (heap p)) (source (heap p'))) \/
      exists a', (a', mkLayout n (l_align l)) ∈ live p' /\ moved (source (heap p)) a (source (heap p')) a' (Z.min (l_size l) n)
  | _ => True
  end.

Lemma ok_permutation (h : Heap S) bs bs' fr : bs ≡ₚ bs' -> ok h bs fr -> ok h bs' fr.
Proof.
  intros Hp [H1 H2 H3 H4 H5 H6 H7]. constructor; try done; unfold blocks in *; by rewrite <- Hp.
Qed.

Lemma kept_elem bs s s' b : kept bs s s' -> b ∈ bs -> kept [b] s s'.
Proof. intros Hk Hb c x ->%list_elem_of_singleton. by apply Hk. Qed.

Lemma live_split (l : list (Z * Layout)) i b : l !! i = Some b -> l ≡ₚ b :: delete i l.
Proof. intros Hi. by apply delete_Permutation. Qed.

Lemma lblock_split (l : list (Z * Layout)) i a y :
  l !! i = Some (a, y) -> (lblock <$> l) ≡ₚ (a, block_bytes y) :: (lblock <$> delete i l).
Proof. intros Hi. apply (fmap_Permutation lblock _ _ (live_split _ _ _ Hi)). Qed.

Lemma other_elem (l : list (Z * Layout)) i j b : l !! j = Some b -> i <> j -> b ∈ delete i l.
Proof.
  intros Hj Hne. destruct (decide (j < i)%nat).
  - apply (list_elem_of_lookup_2 _ j). by rewrite list_lookup_delete_lt.
  - apply (list_elem_of_lookup_2 _ (j - 1)). rewrite list_lookup_delete_ge by lia. by replace (Datatypes.S (j - 1)) with j by lia.
Qed.

Lemma perform_alloc l p p' : sound p -> perform (OpAlloc l) p = Some p' -> sound p' /\ faithful (OpAlloc l) p p'.
Proof.
  intros [Hl [fr Hok]]. cbn [perform].
  destruct (bool_decide (from_size_align (l_size l) (l_align l) = Some l) && ((0 <=? l_size l) && (l_align l <? 2 ^ 63))) eqn:Hc; [|done].
  apply andb_prop in Hc as [Hc H0]. apply bool_decide_eq_true in Hc. apply andb_prop in H0 as [H0 H63]. apply Z.leb_le in H0. apply Z.ltb_lt in H63. destruct (alloc l (heap p)) as [a h'] eqn:Ha. intros [= <-].
  assert (layout_ok l) as Hlay.
  { unfold from_size_align in Hc. destruct (is_power_of_two (l_align l)) eqn:Hp; [|done]. cbn [andb] in Hc. case_if_in Hc; [|done].
    apply is_power_of_two_iff in Hp as (k & Hk & Hk'). split; [lia|].
    exists k. split; [|done]. split; [done|]. apply (Z.pow_lt_mono_r_iff 2); [lia|lia|]. by rewrite <- Hk'. }
  destruct (uh_alloc_spec _ _ fr l a h' Hok Hlay Ha) as [Hk [[-> Hr]|[Hlive [fr' Hr]]]]; cbn [heap live].
  - split; [split; [done|by exists fr]|]. split; [|done]. intros i b Hi _. split; [by eapply list_elem_of_lookup_2|].
    apply (kept_elem _ _ _ _ Hk). apply list_elem_of_fmap_2. by eapply list_elem_of_lookup_2.
  - rewrite (proj2 (Z.eqb_neq a 0)) by (destruct Hlive as (_ & ? & _); simpl in *; lia).
    split; [split; [by constructor|by exists fr']|]. split; [|done]. intros i b Hi _.
    apply list_elem_of_lookup_2 in Hi. split; [by right|]. apply (kept_elem _ _ _ _ Hk). by apply list_elem_of_fmap_2.
Qed.

Lemma sound_split p i a l :
  sound p -> live p !! i = Some (a, l) ->
  live_ok (a, l) /\ Forall live_ok (delete i (live p)) /\
  exists fr, ok (heap p) ((a, block_bytes l) :: (lblock <$> delete i (live p))) fr.
Proof.
  intros [Hl [fr Hok]] Hi. rewrite (live_split _ _ _ Hi) in Hl. apply Forall_cons in Hl as [H1 H2].
  split; [done|]. split; [done|]. exists fr. eapply ok_permutation; [|exact Hok]. by apply lblock_split.
Qed.

Lemma perform_dealloc i p p' : sound p -> perform (OpDealloc i) p = Some p' -> sound p' /\ faithful (OpDealloc i) p p'.
Proof.
  intros Hs. cbn [perform]. destruct (live p !! i) as [[a l]|] eqn:Hi; [|done]. intros [= <-].
  destruct (sound_split p i a l Hs Hi) as (H1 & H2 & fr & Hok).
  destruct (uh_dealloc_spec (heap p) _ fr a l Hok H1) as [Hk Hr].
  split; [by split|]. split; [|done]. intros j b Hj Hne. cbn [live heap subject] in *.
  assert (b ∈ delete i (live p)) as Hb by (eapply other_elem; [done|congruence]).
  split; [done|]. apply (kept_elem _ _ _ _ Hk). by apply list_elem_of_fmap_2.
Qed.

Lemma perform_realloc i n p p' : sound p -> perform (OpRealloc i n) p = Some p' -> sound p' /\ faithful (OpRealloc i n) p p'.
Proof.
  intros Hs. cbn [perform]. destruct (live p !! i) as [[a l]|] eqn:Hi; [|done]. case_if; [|done].
  destruct (realloc a l n (heap p)) as [a' h'] eqn:Hr. intros [= <-].
  destruct (sound_split p i a l Hs Hi) as (H1 & H2 & fr & Hok).
  destruct (uh_realloc_spec (heap p) _ fr a l n a' h' Hok H1 Hif Hr) as [Hk [fr' [(-> & Hok' & Hk')|(Hpos & Hlive & Hok' & Hmv)]]];
    cbn [live heap subject].
  - split; [split; [by apply Hs|]|split; cbn [live heap subject]].
    + exists fr'. eapply ok_permutation; [|exact Hok']. symmetry. by apply lblock_split.
    + intros j b Hj Hne. split; [by eapply list_elem_of_lookup_2|]. apply (kept_elem _ _ _ _ Hk).
      apply list_elem_of_fmap_2. eapply other_elem; [done|congruence].
    + intros a1 l1 Hi1. rewrite Hi in Hi1. injection Hi1 as <- <-. left. split; [by eapply list_elem_of_lookup_2|done].
  - rewrite (proj2 (Z.eqb_neq a' 0)) by lia. split; [split; [by constructor|by exists fr']|split; cbn [live heap subject]].
    + intros j b Hj Hne. assert (b ∈ delete i (live p)) as Hb by (eapply other_elem; [done|congruence]).
      split; [by right|]. apply (kept_elem _ _ _ _ Hk). by apply list_elem_of_fmap_2.
    + intros a1 l1 Hi1. rewrite Hi in Hi1. injection Hi1 as <- <-. right. exists a'. split; [left|done].
Qed.

Lemma perform_write i k v p p' : sound p -> perform (OpWrite i k v) p = Some p' -> sound p' /\ faithful (OpWrite i k v) p p'.
Proof.
  intros Hs. cbn [perform]. destruct (live p !! i) as [[a l]|] eqn:Hi; [|done]. case_if; [|done]. intros [= <-].
  destruct (sound_split p i a l Hs Hi) as (H1 & H2 & fr & Hok). pose proof H1 as (Hl & _ & _ & Hcls). cbn [fst snd] in *.
  assert (l_size l <= block_bytes l) as Hsz by (apply block_bytes_size; [done|intros E; by rewrite E in Hcls]).
  destruct (uh_write_ok (heap p) _ fr (a, block_bytes l) (a + k) [v] Hok) as [Hok' Hk]; [simpl; lia|unfold block_end; simpl; lia|].
  split; [split; [by apply Hs|]|split; [|done]]; cbn [live heap subject].
  - exists fr. eapply ok_permutation; [|exact Hok']. symmetry. by apply lblock_split.
  - intros j b Hj Hne. split; [by eapply list_elem_of_lookup_2|]. apply (kept_elem _ _ _ _ Hk). apply elem_of_app. left.
    apply list_elem_of_fmap_2. eapply other_elem; [done|congruence].
Qed.

Lemma perform_sound o p p' : sound p -> perform o p = Some p' -> sound p' /\ faithful o p p'.
Proof. destruct o; [apply perform_alloc|apply perform_dealloc|apply perform_realloc|apply perform_write]. Qed.

Lemma perform_all_sound os p p' : sound p -> perform_all os p = Some p' -> sound p'.
Proof.
  revert p. induction os as [|o os IH]; intros p Hs; cbn [perform_all]; [by intros [= <-]|].
  destruct (perform o p) as [p1|] eqn:Ho; [|done]. apply IH. by eapply perform_sound.
Qed.

Lemma start_sound s : sound (start s).
Proof. split; [constructor|]. exists []. apply uh_new_ok. Qed.

End Programs.

(** ** The system calls behind the heap ([allocator.rs]) *)

(** [raw::brk], [raw::mmap_anonymous] for reading and writing, [raw::munmap],
    and memory. *)
Class Raw (P : Type) := {
  raw_brk : Z -> P -> Z * P;
  raw_mmap : Z -> P -> Z * P;
  raw_munmap : Z -> Z -> P -> P;
  raw_peek : P -> Z -> Z;
  raw_poke : Z -> Z -> P -> P;
}.

Section Syscalls.
Context {P : Type} {raw : Raw P}.

Definition syscall_grow (bytes : Z) (p : P) : option Z * P :=
  let '(start, p) := raw_brk 0 p in
  match checked_add start bytes with
  | None => (None, p)
  | Some wanted => let '(moved, p) := raw_brk wanted p in if negb (moved =? wanted) then (None, p) else (Some start, p)
  end.

Definition syscall_map (bytes : Z) (p : P) : option Z * P :=
  let '(address, p) := raw_mmap bytes p in (if address >? 0 then Some address else None, p).

#[export] Instance SyscallSource : Source P := {
  grow := syscall_grow;
  map := syscall_map;
  unmap := raw_munmap;
  peek := raw_peek;
  poke := raw_poke;
}.

End Syscalls.

(** What the kernel promises: [brk(0)] asks; a larger break is reached with the
    new bytes fresh, or the old one is returned and nothing changes; a mapping
    is a fresh range of whole pages, or an error and no change. *)
Class RawLaws (P : Type) `{raw : Raw P} := {
  has : P -> Z -> Prop;
  break : P -> Z;
  raw_range p x : has p x -> 0 < x < 2 ^ 47;
  raw_break p : 0 < break p <= 2 ^ 47;
  raw_ask p : raw_brk 0 p = (break p, p);
  raw_move p w b p' :
    break p < w -> raw_brk w p = (b, p') ->
    b <> w /\ p' = p \/
    b = w /\ w <= 2 ^ 47 /\ (forall x, break p <= x < w -> ~ has p x) /\
    (forall x, has p' x <-> has p x \/ break p <= x < w) /\ forall x, has p x -> raw_peek p' x = raw_peek p x;
  raw_mapped p n a p' :
    0 < n -> (PAGE | n) -> raw_mmap n p = (a, p') ->
    a <= 0 /\ p' = p \/
    0 < a /\ (PAGE | a) /\ (forall x, a <= x < a + n -> ~ has p x) /\
    (forall x, has p' x <-> has p x \/ a <= x < a + n) /\ forall x, has p x -> raw_peek p' x = raw_peek p x;
  raw_unmapped p a n :
    0 < n -> (forall x, a <= x < a + n -> has p x) ->
    (forall x, has (raw_munmap a n p) x <-> has p x /\ ~ (a <= x < a + n)) /\
    forall x, has p x -> ~ (a <= x < a + n) -> raw_peek (raw_munmap a n p) x = raw_peek p x;
  raw_poke_has p a v x : has (raw_poke a v p) x <-> has p x;
  raw_poke_peek p a v x : has p a -> has p x -> raw_peek (raw_poke a v p) x = if x =? a then v else raw_peek p x;
}.

(** The system calls are a source as the heap needs it. *)
#[export] Program Instance syscall_laws `{laws : RawLaws P} : SourceLaws P := {| owns := has |}.
Next Obligation. intros P raw laws p x. apply raw_range. Qed.
Next Obligation. intros P raw laws p a v x. apply raw_poke_has. Qed.
Next Obligation. intros P raw laws p a v x. apply raw_poke_peek. Qed.
Next Obligation.
  intros P raw laws p n a p' Hn. simpl. unfold syscall_grow. rewrite raw_ask. pose proof (raw_break p) as Hb.
  unfold checked_add. case_if; [|done]. destruct (raw_brk (break p + n) p) as [b p1] eqn:Hm. case_if; [done|].
  intros [= <- <-]. apply raw_move in Hm as [[? ?]|(_ & Hmax & Hm)]; [done| |lia]. by split_and!; [lia|lia|apply Hm..].
Qed.
Next Obligation.
  intros P raw laws p n p' Hn. simpl. unfold syscall_grow. rewrite raw_ask. pose proof (raw_break p) as Hb.
  unfold checked_add. case_if; [|by intros [= <-]]. destruct (raw_brk (break p + n) p) as [b p1] eqn:Hm. case_if; [|done].
  intros [= <-]. apply raw_move in Hm as [[? ->]|[? _]]; [done|done|lia].
Qed.
Next Obligation.
  intros P raw laws p n a p' Hn Hpg. simpl. unfold syscall_map. destruct (raw_mmap n p) as [b p1] eqn:Hm. case_if; [|done].
  intros [= <- <-]. apply raw_mapped in Hm as [[? _]|Hm]; [lia|done|done|done].
Qed.
Next Obligation.
  intros P raw laws p n p' Hn Hpg. simpl. unfold syscall_map. destruct (raw_mmap n p) as [b p1] eqn:Hm. case_if; [done|].
  intros [= <-]. apply raw_mapped in Hm as [[_ ->]|[? _]]; [done|lia|done|done].
Qed.
Next Obligation. intros P raw laws p a n. apply raw_unmapped. Qed.

(** ** A small process *)

(** Heap bytes below the break, mappings from 2 GiB on; what was given and
    taken back, last first. *)
Record Proc := mkProc { at_break : Z; history : list (bool * Block); bytes : gmap Z Z }.

Fixpoint granted (hs : list (bool * Block)) (x : Z) : Prop :=
  match hs with
  | [] => False
  | (true, b) :: hs => holds b x \/ granted hs x
  | (false, b) :: hs => ~ holds b x /\ granted hs x
  end.
Definition top (hs : list (bool * Block)) : Z := foldr (fun h m => Z.max (block_end h.2) m) (2 ^ 31) hs.

Definition proc_break (p : Proc) : Z := Z.max PAGE (Z.min (at_break p) (2 ^ 31)).
Definition proc_has (p : Proc) (x : Z) : Prop :=
  0 < x < 2 ^ 47 /\ (x < 2 ^ 31 -> x < proc_break p) /\ granted (history p) x.

#[export] Instance proc_raw : Raw Proc := {
  raw_brk w p :=
    if (proc_break p <? w) && (w <=? 2 ^ 31)
    then (w, mkProc w ((true, (proc_break p, w - proc_break p)) :: history p) (bytes p)) else (proc_break p, p);
  raw_mmap n p :=
    let a := next_multiple_of (top (history p)) PAGE in
    if a + n <=? 2 ^ 47 then (a, mkProc (at_break p) ((true, (a, n)) :: history p) (bytes p)) else (-12, p);
  raw_munmap a n p := mkProc (at_break p) ((false, (a, n)) :: history p) (bytes p);
  raw_peek p x := default 0 (bytes p !! x);
  raw_poke a v p := mkProc (at_break p) (history p) (<[a := v]> (bytes p));
}.

Lemma granted_top hs x : granted hs x -> x < top hs.
Proof.
  induction hs as [|[[] b] hs IH]; simpl; [done|intros [H|H%IH]; [unfold holds in H; lia|lia]|intros [_ H%IH]; lia].
Qed.

Lemma top_ge hs : 2 ^ 31 <= top hs.
Proof. induction hs; simpl in *; lia. Qed.

#[export] Program Instance proc_laws : RawLaws Proc := {| has := proc_has; break := proc_break |}.
Next Obligation. by intros p x [H _]. Qed.
Next Obligation. intros p. unfold proc_break, PAGE. lia. Qed.
Next Obligation. intros p. simpl. case_if; [unfold proc_break, PAGE in *; lia|done]. Qed.
Next Obligation.
  intros p w b p' Hw. simpl. case_if; intros [= <- <-]; [right|left; split; [lia|done]].
  split; [done|]. split; [lia|]. unfold proc_has, proc_break, holds, block_end, PAGE in *. cbn [at_break history granted fst snd].
  split; [intros x Hx (_ & Hb & _); lia|]. split; [|done]. unfold holds, block_end. simpl. intros x. split.
  - intros (H1 & H2 & [H3|H3]); [right; lia|]. destruct (Z.lt_ge_cases x (Z.max 4096 (Z.min (at_break p) (2 ^ 31)))); [left; split_and!; [lia..|done]|].
    destruct (Z.lt_ge_cases x (2 ^ 31)); [right; lia|left; split_and!; [lia..|done]].
  - intros [(H1 & H2 & H3)|H1]; [split_and!; [lia..|by right]|split_and!; [lia..|left; lia]].
Qed.
Next Obligation.
  intros p n a p' Hn Hpg. simpl. case_if; intros [= <- <-]; [right|left; split; [lia|done]].
  pose proof (top_ge (history p)) as Ht. pose proof (next_multiple_of_ge (top (history p)) PAGE ltac:(done)) as Hge.
  split; [lia|]. split; [apply next_multiple_of_divide|]. split; [intros x Hx (_ & _ & Hg%granted_top); lia|].
  split; [|done]. unfold proc_has, proc_break, holds, block_end. cbn [at_break history granted fst snd]. unfold holds, block_end. simpl.
  intros x. split; [intros (H1 & H2 & [H3|H3]); [right; lia|by left]|].
  intros [(H1 & H2 & H3)|H1]; [split_and!; [lia..|done|by right]|split_and!; [lia..|left; lia]].
Qed.
Next Obligation.
  intros p a n Hn Ho. split; [|done]. unfold proc_has, proc_break. simpl. unfold holds, block_end. simpl. intros x. tauto.
Qed.
Next Obligation. done. Qed.
Next Obligation.
  intros p a v x _ _. simpl. destruct (Z.eqb_spec x a) as [->|Hne]; [by rewrite lookup_insert_eq|by rewrite lookup_insert_ne].
Qed.

(** ** Theorems *)

Section Theorems.
Context {S : Type} {src : Source S} {laws : SourceLaws S}.

(** No free block of a class, and no room for another in the current piece. *)
Definition out_of_blocks (c : nat) (h : Heap S) : Prop :=
  nth c (free h) 0 = 0 /\ end_ h < next_multiple_of (bump h) (block_size c) + block_size c.

Lemma alloc_refused l (p : Prog S) h' :
  sound p -> layout_ok l -> alloc l (heap p) = (0, h') ->
  match class l with
  | Some c => out_of_blocks c (heap p) /\ (grow (Z.max (2 * block_size c) GROWTH) (source (heap p))).1 = None
  | None => PAGE < l_align l \/ large_size l = None \/ exists n, large_size l = Some n /\ (map n (source (heap p))).1 = None
  end.
Proof.
  intros [_ [fr Hok]] Hl. unfold alloc. destruct (class l) as [c|] eqn:Hc.
  - destruct (class_Some l c Hl Hc) as (Hlt & _ & _). case_if; [|by intros [= Hh _]]. intros Hcv.
    destruct (uh_carve_spec _ _ _ c 0 h' Hok Hlt Hcv) as [_ [_|[? _]]]; [|lia]. revert Hcv. unfold carve.
    pose proof (block_size_pos c) as Hp. case_if.
    + assert (out_of_blocks c (heap p)) as Hout.
      { split; [bool_to_prop; lia|]. pose proof (ok_end _ _ _ Hok). revert Hif0. unfold checked_add. case_if; intros; bool_to_prop; unfold U64_MAX in *; lia. }
      set (wanted := Z.max (2 * block_size c) GROWTH). assert (0 < wanted) as Hw by (unfold wanted, GROWTH; lia).
      destruct (grow wanted (source (heap p))) as [[new|] s'] eqn:Hg; [|intros _; split; [exact Hout|done]].
      destruct (regrow_ok _ _ fr wanted new s' Hok Hw Hg) as (_ & Hpos & _). intros Hs. apply (f_equal fst) in Hs. change (next_multiple_of (bump (regrow (heap p) wanted new s')) (block_size c) = 0) in Hs.
      pose proof (next_multiple_of_ge (bump (regrow (heap p) wanted new s')) (block_size c) ltac:(lia)). lia.
    + intros [= Hs _]. exfalso. pose proof (next_multiple_of_ge (bump (heap p)) (block_size c) ltac:(lia)).
      pose proof (ok_bump _ _ _ Hok). assert (bump (heap p) < end_ (heap p)) as Hlt2.
      { revert Hif0. unfold checked_add. case_if; [intros; bool_to_prop; lia|done]. }
      pose proof (bump_pos _ _ _ Hok Hlt2). lia.
  - case_if; [intros _; left; lia|]. destruct (large_size l) as [n|] eqn:Hn; [|by intros _; right; left].
    destruct (large_size_Some l n Hn) as [Hsz Hpg].
    assert (0 < n) as Hpos by (pose proof (class_None l Hl Hc); unfold PAGE, LARGE in *; lia).
    destruct (map n (source (heap p))) as [[b|] s'] eqn:Hm; [|intros _; right; right; exists n; by rewrite Hm].
    destruct (law_map _ _ _ _ Hpos Hpg Hm) as (Hb0 & _). intros [= Hb _]. simpl in Hb. lia.
Qed.

(** C28. A program may allocate, free, resize and write its blocks in any order.
    At every moment each live block is at a non-null address with the
    alignment asked for, in memory the process has, and apart from every other
    live block.  No operation changes the contents of a block it is not about;
    a resize keeps the contents up to the smaller size, or fails and leaves
    the block.  An allocation fails only when the kernel refuses memory, or
    when the request is for a large block aligned to more than a page. *)
Theorem user_heap_sound (s : S) os (p : Prog S) :
  perform_all os (start s) = Some p ->
  (forall i a l, live p !! i = Some (a, l) ->
     0 < a /\ (l_align l | a) /\ forall x, a <= x < a + l_size l -> owns (source (heap p)) x) /\
  (forall i j a l b k, i <> j -> live p !! i = Some (a, l) -> live p !! j = Some (b, k) ->
     a + l_size l <= b \/ b + l_size k <= a) /\
  (forall o p', perform o p = Some p' ->
     (forall i a l, live p !! i = Some (a, l) -> subject o <> Some i ->
        (a, l) ∈ live p' /\ forall x, a <= x < a + l_size l -> peek (source (heap p')) x = peek (source (heap p)) x) /\
     (forall i n a l, o = OpRealloc i n -> live p !! i = Some (a, l) ->
        exists a' l', (a', l') ∈ live p' /\ (l' = mkLayout n (l_align l) \/ (a', l') = (a, l)) /\
        forall x, 0 <= x < Z.min (l_size l) (l_size l') -> peek (source (heap p')) (a' + x) = peek (source (heap p)) (a + x))) /\
  (forall l h', layout_ok l -> alloc l (heap p) = (0, h') ->
     match class l with
     | Some c => out_of_blocks c (heap p) /\ (grow (Z.max (2 * block_size c) GROWTH) (source (heap p))).1 = None
     | None => PAGE < l_align l \/ large_size l = None \/ exists n, large_size l = Some n /\ (map n (source (heap p))).1 = None
     end).
Proof.
  intros Hr. apply perform_all_sound in Hr; [|apply start_sound]. pose proof Hr as [Hl [fr Hok]].
  assert (forall i a l, live p !! i = Some (a, l) -> live_ok (a, l) /\ l_size l <= block_bytes l) as Hlive.
  { intros i a l Hi. rewrite Forall_forall in Hl. specialize (Hl _ (list_elem_of_lookup_2 _ _ _ Hi)). split; [done|].
    destruct Hl as (H1 & _ & _ & H2). cbn [fst snd] in *. apply block_bytes_size; [done|]. intros E. by rewrite E in H2. }
  split_and!.
  - intros i a l Hi. destruct (Hlive i a l Hi) as [(_ & H1 & H2 & _) H3]. split; [done|]. split; [done|]. intros x Hx.
    apply (ok_owns _ _ _ (lblock (a, l)) x Hok); [|unfold holds, lblock, block_end; simpl; lia].
    unfold blocks. apply elem_of_app. left. apply list_elem_of_fmap_2. by eapply list_elem_of_lookup_2.
  - intros i j a l b k Hne Hi Hj. destruct (Hlive i a l Hi) as [_ H1], (Hlive j b k Hj) as [_ H2].
    destruct (sound_split p i a l Hr Hi) as (_ & _ & fr' & Hok'). destruct (ok_apart _ _ _ Hok') as [Ha _].
    assert (lblock (b, k) ∈ lblock <$> delete i (live p)) as Hin by (apply list_elem_of_fmap_2; by eapply other_elem).
    apply Forall_app in Ha as [Ha _]. rewrite Forall_forall in Ha. specialize (Ha _ Hin). unfold apart, lblock, block_end in Ha. simpl in Ha. lia.
  - intros o p' Ho. destruct (perform_sound o p p' Hr Ho) as [_ [Hk Hm]]. split.
    + intros i a l Hi Hs. destruct (Hk i (a, l) Hi Hs) as [H1 H2]. split; [done|]. intros x Hx.
      destruct (Hlive i a l Hi) as [_ Hsz]. apply (H2 (lblock (a, l))); [left|unfold holds, lblock, block_end; simpl; lia].
    + intros i n a l -> Hi. destruct (Hlive i a l Hi) as [_ Hsz]. destruct (Hm a l Hi) as [[H1 H2]|[a' [H1 H2]]].
      * exists a, l. split; [done|]. split; [by right|]. intros x Hx.
        apply (H2 (lblock (a, l))); [left|unfold holds, lblock, block_end; simpl; lia].
      * exists a', (mkLayout n (l_align l)). split; [done|]. split; [by left|]. exact H2.
  - intros l h' Hlay Ha. by apply (alloc_refused l p h').
Qed.

End Theorems.

(** Blocks of several classes and a mapping, written, resized and freed. *)
Definition sample_ops : list Op :=
  [OpAlloc (mkLayout 40 8); OpAlloc (mkLayout 100000 16); OpAlloc (mkLayout 10 4096); OpWrite 0 3 77;
   OpRealloc 0 1000; OpDealloc 1; OpAlloc (mkLayout 60 8)].

Lemma user_heap_sound_witness :
  exists p : Prog Proc,
    perform_all sample_ops (start (mkProc PAGE [] ∅)) = Some p /\ length (live p) = 3%nat /\
    forall i j a l b k, i <> j -> live p !! i = Some (a, l) -> live p !! j = Some (b, k) ->
      a + l_size l <= b \/ b + l_size k <= a.
Proof.
  eexists. split; [vm_compute; reflexivity|]. split; [reflexivity|].
  apply (user_heap_sound (mkProc PAGE [] ∅) sample_ops). vm_compute. reflexivity.
Defined.

End UserHeap.
