(* ===== verification/SoundFormat.v ===== *)
(** * SoundFormat: sample formats and rates
      ([sound/format.rs], [sound/resample.rs])

    Bytes a program writes become frames of two signed 16-bit samples, and
    frames at the program's rate become frames at the card's.  Samples are
    integers; [wrap_i16] is the cast to [i16].  The carry is the list of the
    bytes in use of the source's array.  The loop of [convert] carries fuel
    ([None] when it runs out): every round takes a byte of the input or makes a
    frame, so their sum is enough.

    Proved: whatever the writes are split into and however much room each call
    has, the frames played are exactly those the whole input defines: frame [k]
    is the interpolation of the input at [k] times the ratio of the rates,
    without drift; a call that leaves room has taken all its input and played
    everything there is. *)

From stdpp Require Import base numbers list.
From S2P Require Import Prelude.
Local Open Scope Z_scope.

Module Format.

(** ** Resampling *)

Abbreviation Frame := (Z * Z)%type.

Definition ONE : Z := Z.shiftl 1 32.

Record Resampler := mkResampler { step : Z; position : Z; previous : option Frame; next : option Frame }.

Definition new_resampler (input_rate output_rate : Z) : Resampler :=
  mkResampler (Z.shiftl input_rate 32 / Z.max output_rate 1) 0 None None.

Definition wants_input (r : Resampler) : bool := match next r with None => true | Some _ => false end.

Definition feed (r : Resampler) (f : Frame) : Resampler :=
  match previous r with
  | None => mkResampler (step r) (position r) (Some f) (next r)
  | Some _ => mkResampler (step r) (position r) (previous r) (Some f)
  end.

(** The cast [as i16]. *)
Definition wrap_i16 (x : Z) : Z := (x + 2 ^ 15) mod 2 ^ 16 - 2 ^ 15.

Definition mix (fraction from to : Z) : Z := wrap_i16 (from + Z.shiftr ((to - from) * fraction) 32).

Definition produce (r : Resampler) : option Frame * Resampler :=
  match previous r, next r with
  | Some p, Some n =>
      if position r >=? ONE then (None, mkResampler (step r) (position r - ONE) (Some n) None)
      else (Some (mix (position r) p.1 n.1, mix (position r) p.2 n.2),
            mkResampler (step r) (position r + step r) (previous r) (next r))
  | _, _ => (None, r)
  end.

(** ** Formats *)

Definition AFMT_U8 : Z := 8.
Definition AFMT_S16_LE : Z := 16.
Definition OUTPUT_FRAME : nat := 4.

Inductive Sample := U8 | S16.

Definition from_oss (code : Z) : option Sample :=
  if code =? AFMT_U8 then Some U8 else if code =? AFMT_S16_LE then Some S16 else None.
Definition oss (s : Sample) : Z := match s with U8 => AFMT_U8 | S16 => AFMT_S16_LE end.
Definition sample_bytes (s : Sample) : nat := match s with U8 => 1 | S16 => 2 end.

Record Format := mkFormat { rate : Z; sample : Sample; channels : nat }.

Definition DEFAULT : Format := mkFormat 48000 S16 2.

Definition frame_bytes (f : Format) : nat := (sample_bytes (sample f) * channels f)%nat.

(** ** Conversion *)

Record Converter := mkConverter {
  format : Format;
  card_rate : Z;
  resampler : option Resampler;
  carry : list Z
}.

Definition new (f : Format) (card : Z) : Converter :=
  mkConverter f card (if negb (rate f =? card) then Some (new_resampler (rate f) card) else None) [].

(** [i16::from_le_bytes]. *)
Definition i16_from_le (bytes : list Z) : Z := wrap_i16 (from_le bytes).

Definition decode (s : Sample) (bytes : list Z) : Z :=
  match s with
  | U8 => Z.shiftl (nth 0 bytes 0 - 128) 8
  | S16 => i16_from_le [nth 0 bytes 0; nth 1 bytes 0]
  end.

Definition decode_frame (f : Format) (frame : list Z) : Frame :=
  let size := sample_bytes (sample f) in
  let left := decode (sample f) (take size frame) in
  (left, if bool_decide (channels f = 2%nat) then decode (sample f) (take size (drop size frame)) else left).

Definition with_carry (c : Converter) (bytes : list Z) : Converter := mkConverter (format c) (card_rate c) (resampler c) bytes.
Definition with_resampler (c : Converter) (r : Resampler) : Converter := mkConverter (format c) (card_rate c) (Some r) (carry c).

(** The next whole frame of the carry and the input left, and what is left then. *)
Definition next_frame (c : Converter) (rest : list Z) : option (Frame * Converter * list Z) :=
  let size := frame_bytes (format c) in
  if (0 <? Z.of_nat (length (carry c))) then
    let needed := (size - length (carry c))%nat in
    if bool_decide (length rest < needed)%nat then None
    else Some (decode_frame (format c) (carry c ++ take needed rest), with_carry c [], drop needed rest)
  else if bool_decide (length rest < size)%nat then None
  else Some (decode_frame (format c) (take size rest), c, drop size rest).

(** [i16::to_le_bytes] of both samples. *)
Definition encode_frame (f : Frame) : list Z := le_bytes 2 (f.1 mod 2 ^ 16) ++ le_bytes 2 (f.2 mod 2 ^ 16).

Fixpoint convert_loop (fuel : nat) (c : Converter) (rest out : list Z) (room : nat) : option (Converter * list Z * list Z) :=
  match fuel with
  | O => None
  | S fuel =>
      if bool_decide (room < length out + OUTPUT_FRAME)%nat then Some (c, rest, out)
      else
        match resampler c with
        | Some r =>
            match produce r with
            | (Some f, r) => convert_loop fuel (with_resampler c r) rest (out ++ encode_frame f) room
            | (None, r) =>
                if negb (wants_input r) then convert_loop fuel (with_resampler c r) rest out room
                else
                  match next_frame (with_resampler c r) rest with
                  | Some (f, c, rest) => convert_loop fuel (with_resampler c (feed r f)) rest out room
                  | None => Some (with_resampler c r, rest, out)
                  end
            end
        | None =>
            match next_frame c rest with
            | Some (f, c, rest) => convert_loop fuel c rest (out ++ encode_frame f) room
            | None => Some (c, rest, out)
            end
        end
  end.

(** The converter after the call, how many bytes of the input it has taken, and
    the output. *)
Definition convert (c : Converter) (input : list Z) (room : nat) : option (Converter * nat * list Z) :=
  match convert_loop (S (length input + room)) c input [] room with
  | Some (c, rest, out) =>
      if bool_decide (length (carry c) + length rest < frame_bytes (format c))%nat
      then Some (with_carry c (carry c ++ rest), length input, out)
      else Some (c, (length input - length rest)%nat, out)
  | None => None
  end.

(** ** What should be played *)

(** The whole frames of some bytes. *)
Definition frames (f : Format) (bytes : list Z) : list Frame :=
  (fun i => decode_frame f (take (frame_bytes f) (drop (i * frame_bytes f) bytes))) <$> seq 0 (length bytes / frame_bytes f).

(** A point on the line from one sample to the next. *)
Definition interpolate (fraction from to : Z) : Z := from + (to - from) * fraction / 2 ^ 32.

(** Frame [k] at the card's rate: at [k] steps into the input. *)
Definition resampled_frame (st : Z) (fs : list Frame) (k : nat) : option Frame :=
  let place := Z.of_nat k * st in
  match fs !! Z.to_nat (place / 2 ^ 32), fs !! S (Z.to_nat (place / 2 ^ 32)) with
  | Some a, Some b => Some (interpolate (place mod 2 ^ 32) a.1 b.1, interpolate (place mod 2 ^ 32) a.2 b.2)
  | _, _ => None
  end.

Definition rate_step (input_rate output_rate : Z) : Z := input_rate * 2 ^ 32 / Z.max output_rate 1.

Definition played_frame (f : Format) (card : Z) (fs : list Frame) (k : nat) : option Frame :=
  if rate f =? card then fs !! k else resampled_frame (rate_step (rate f) card) fs k.

(** ** Samples *)

Definition is_i16 (x : Z) : Prop := - 2 ^ 15 <= x < 2 ^ 15.
Definition is_byte (x : Z) : Prop := 0 <= x < 256.

Lemma wrap_i16_range x : is_i16 (wrap_i16 x).
Proof. unfold is_i16, wrap_i16. pose proof (Z.mod_pos_bound (x + 2 ^ 15) (2 ^ 16) ltac:(lia)). lia. Qed.

Lemma wrap_i16_id x : is_i16 x -> wrap_i16 x = x.
Proof. intros Hx. unfold is_i16, wrap_i16 in *. rewrite Z.mod_small; lia. Qed.

(** Between its neighbours, so the cast loses nothing. *)
Lemma interpolate_between fraction from to :
  0 <= fraction < 2 ^ 32 -> Z.min from to <= interpolate fraction from to <= Z.max from to.
Proof.
  intros Hf. unfold interpolate. destruct (Z.le_ge_cases from to).
  - assert (0 <= (to - from) * fraction / 2 ^ 32 <= to - from); [|lia].
    split; [apply Z.div_pos; nia|]. apply Z.div_le_upper_bound; nia.
  - assert (to - from <= (to - from) * fraction / 2 ^ 32 <= 0); [|lia].
    split; [apply Z.div_le_lower_bound; nia|]. apply Z.lt_succ_r. apply Z.div_lt_upper_bound; nia.
Qed.

Lemma mix_interpolates fraction from to :
  0 <= fraction < 2 ^ 32 -> is_i16 from -> is_i16 to -> mix fraction from to = interpolate fraction from to.
Proof.
  intros Hf H1 H2. unfold mix. rewrite Z.shiftr_div_pow2 by lia. fold (interpolate fraction from to). apply wrap_i16_id.
  pose proof (interpolate_between fraction from to Hf). unfold is_i16 in *. lia.
Qed.

Lemma decode_range s bytes : Forall is_byte bytes -> is_i16 (decode s bytes).
Proof.
  intros Hb. destruct s; [|apply wrap_i16_range]. unfold decode, is_i16. rewrite Z.shiftl_mul_pow2 by lia.
  destruct Hb as [|b bytes Hb]; simpl; [lia|]. unfold is_byte in Hb. lia.
Qed.

Lemma decode_frame_range f bytes : Forall is_byte bytes -> is_i16 (decode_frame f bytes).1 /\ is_i16 (decode_frame f bytes).2.
Proof.
  intros Hb. unfold decode_frame. cbn [fst snd]. split; [by apply decode_range, Forall_take|].
  case_if; apply decode_range, Forall_take; [by apply Forall_drop|done].
Qed.

Lemma frames_range f bytes : Forall is_byte bytes -> Forall (fun x : Frame => is_i16 x.1 /\ is_i16 x.2) (frames f bytes).
Proof.
  intros Hb. unfold frames. apply Forall_fmap, Forall_forall. intros i _. apply decode_frame_range. by apply Forall_take, Forall_drop.
Qed.

(** ** Frames of growing input *)

Lemma length_frames f bytes : length (frames f bytes) = (length bytes / frame_bytes f)%nat.
Proof. unfold frames. by rewrite length_fmap, length_seq. Qed.

(** What does not make a whole frame. *)
Definition leftover (f : Format) (bytes : list Z) : list Z := drop (length bytes / frame_bytes f * frame_bytes f) bytes.

Lemma leftover_length f bytes : (0 < frame_bytes f)%nat -> (length (leftover f bytes) < frame_bytes f)%nat.
Proof.
  intros Hn. unfold leftover. rewrite length_drop.
  pose proof (Nat.div_mod_eq (length bytes) (frame_bytes f)). pose proof (Nat.mod_upper_bound (length bytes) (frame_bytes f) ltac:(lia)). nia.
Qed.

Section Grow.
Context (f : Format) (B t : list Z).
Hypothesis Hn : (0 < frame_bytes f)%nat.
Local Abbreviation n := (frame_bytes f).
Local Abbreviation q := (length B / n)%nat.

Lemma whole_le : (q * n + length (leftover f B) = length B)%nat.
Proof.
  unfold leftover. rewrite length_drop. pose proof (Nat.div_mod_eq (length B) n) as Hd.
  rewrite (Nat.mul_comm n) in Hd. pose proof (Nat.Div0.mul_div_le (length B) n). rewrite (Nat.mul_comm n) in H. lia.
Qed.

(** Bytes that complete a frame add it. *)
Lemma frames_complete :
  (length (leftover f B) + length t = n)%nat ->
  frames f (B ++ t) = frames f B ++ [decode_frame f (leftover f B ++ t)] /\ leftover f (B ++ t) = [].
Proof.
  intros Ht. pose proof whole_le as Hw.
  assert (length (B ++ t) = (q + 1) * n)%nat as Hlen by (rewrite length_app; lia).
  assert (length (B ++ t) / n = q + 1)%nat as Hq by (rewrite Hlen; apply Nat.div_mul; lia).
  split; [|unfold leftover; rewrite Hq, <- Hlen; apply drop_all].
  unfold frames. rewrite Hq, seq_app, fmap_app. f_equal.
  - apply list_fmap_ext. intros j i Hi%lookup_seq. f_equal.
    assert ((i + 1) * n <= q * n)%nat by (apply Nat.mul_le_mono_r; lia).
    rewrite drop_app_le by lia. rewrite take_app_le; [done|]. rewrite length_drop. lia.
  - cbn. f_equal. f_equal. rewrite drop_app_le by lia. fold (leftover f B). rewrite take_ge; [done|]. rewrite length_app. lia.
Qed.

(** Frames once complete stay. *)
Lemma frames_prefix : exists gs, frames f (B ++ t) = frames f B ++ gs.
Proof.
  pose proof whole_le as Hw. assert (q <= length (B ++ t) / n)%nat as Hq by (apply Nat.Div0.div_le_mono; rewrite length_app; lia).
  unfold frames. replace (length (B ++ t) / n)%nat with (q + (length (B ++ t) / n - q))%nat by lia.
  rewrite seq_app, fmap_app. eexists. f_equal. apply list_fmap_ext. intros j i Hi%lookup_seq. f_equal.
  assert ((i + 1) * n <= q * n)%nat by (apply Nat.mul_le_mono_r; lia).
  rewrite drop_app_le by lia. rewrite take_app_le; [done|]. rewrite length_drop. lia.
Qed.

(** Fewer do not. *)
Lemma frames_partial :
  (length (leftover f B) + length t < n)%nat ->
  frames f (B ++ t) = frames f B /\ leftover f (B ++ t) = leftover f B ++ t.
Proof.
  intros Ht. pose proof whole_le as Hw.
  assert (length (B ++ t) / n = q)%nat as Hq.
  { rewrite length_app. symmetry. apply (Nat.div_unique _ _ _ (length (leftover f B) + length t)); [done|]. lia. }
  split.
  - unfold frames. rewrite Hq. apply list_fmap_ext. intros j i Hi%lookup_seq. f_equal.
    assert ((i + 1) * n <= q * n)%nat by (apply Nat.mul_le_mono_r; lia).
    rewrite drop_app_le by lia. rewrite take_app_le; [done|]. rewrite length_drop. lia.
  - unfold leftover at 1. rewrite Hq. rewrite drop_app_le by lia. done.
Qed.

End Grow.

(** ** The invariant *)

(** A resampler that has been fed [fs] and has made [n] frames has passed [m]
    of them. *)
Inductive feeding (r : Resampler) (fs : list Frame) (n : nat) : Prop :=
| feeding_start : fs = [] -> previous r = None -> next r = None -> n = 0%nat -> position r = 0 -> feeding r fs n
| feeding_one m a :
    length fs = S m -> fs !! m = Some a -> previous r = Some a -> next r = None ->
    position r + Z.of_nat m * ONE = Z.of_nat n * step r -> 0 <= position r < ONE + step r -> feeding r fs n
| feeding_two m a b :
    length fs = S (S m) -> fs !! m = Some a -> fs !! S m = Some b -> previous r = Some a -> next r = Some b ->
    position r + Z.of_nat m * ONE = Z.of_nat n * step r -> 0 <= position r < ONE + step r -> feeding r fs n.

Lemma ONE_pow : ONE = 2 ^ 32.
Proof. done. Qed.

Lemma feed_feeding r fs n f : 0 <= step r -> feeding r fs n -> wants_input r = true -> feeding (feed r f) (fs ++ [f]) n.
Proof.
  intros Hst Hr Hw. unfold feed. destruct Hr as [-> Hp Hx -> H0|m a Hl Ha Hp Hx Hpos Hb|m a b Hl Ha Hb Hp Hx Hpos Hbd].
  - rewrite Hp. apply (feeding_one _ _ _ 0%nat f); simpl; try done; rewrite ?ONE_pow; lia.
  - rewrite Hp. apply (feeding_two _ _ _ m a f); simpl; try done.
    + rewrite length_app. simpl. lia.
    + rewrite lookup_app_l by lia. done.
    + rewrite lookup_app_r by lia. by rewrite Hl, Nat.sub_diag.
  - unfold wants_input in Hw. by rewrite Hx in Hw.
Qed.

(** [produce] makes the next frame, or asks for input and none is possible. *)
Lemma produce_feeding r (fs : list Frame) n o r' :
  0 <= step r -> Forall (fun x : Frame => is_i16 x.1 /\ is_i16 x.2) fs -> feeding r fs n -> produce r = (o, r') ->
  step r' = step r /\
  match o with
  | Some f => resampled_frame (step r) fs n = Some f /\ feeding r' fs (S n)
  | None => wants_input r' = true /\ feeding r' fs n
  end.
Proof.
  intros Hst Hfs Hr. unfold produce, wants_input. rewrite ONE_pow.
  destruct Hr as [-> Hp Hx -> H0|m a Hl Ha Hp Hx Hpos Hb|m a b Hl Ha Hb Hp Hx Hpos Hbd]; rewrite Hp, ?Hx; rewrite ?ONE_pow in *.
  - intros [= <- <-]. rewrite Hx. split; [done|]. split; [done|]. by apply feeding_start.
  - intros [= <- <-]. rewrite Hx. split; [done|]. split; [done|]. by apply (feeding_one _ _ _ m a).
  - case_if; intros [= <- <-]; cbn [step next]; (split; [done|]).
    + split; [done|]. apply (feeding_one _ _ _ (S m) b); cbn [previous next position step]; rewrite ?ONE_pow; try done; lia.
    + assert (Z.of_nat n * step r / 2 ^ 32 = Z.of_nat m /\ Z.of_nat n * step r mod 2 ^ 32 = position r) as [Hdiv Hmod].
      { rewrite <- Hpos. rewrite Z.div_add, Z_mod_plus_full by lia. rewrite Z.div_small, Z.mod_small by lia. lia. }
      split.
      * unfold resampled_frame. cbv zeta. rewrite Hdiv, Hmod, Nat2Z.id, Ha, Hb. rewrite Forall_forall in Hfs.
        destruct (Hfs a) as [Ha1 Ha2]; [by eapply list_elem_of_lookup_2|]. destruct (Hfs b) as [Hb1 Hb2]; [by eapply list_elem_of_lookup_2|].
        by rewrite !mix_interpolates by (done || lia).
      * apply (feeding_two _ _ _ m a b); cbn [previous next position step]; rewrite ?ONE_pow; try done; lia.
Qed.

(** With no frame to the right, nothing more can be made. *)
Lemma feeding_exhausted r fs n : 0 <= step r -> feeding r fs n -> wants_input r = true -> resampled_frame (step r) fs n = None.
Proof.
  intros Hst Hr Hw. unfold resampled_frame.
  destruct Hr as [-> Hp Hx -> H0|m a Hl Ha Hp Hx Hpos Hb|m a b Hl Ha Hb Hp Hx Hpos Hbd].
  - by rewrite lookup_nil.
  - assert (Z.of_nat m <= Z.of_nat n * step r / 2 ^ 32) by (apply Z.div_le_lower_bound; rewrite ?ONE_pow in *; lia).
    rewrite (lookup_ge_None_2 _ (S _)) by lia. by repeat case_match.
  - unfold wants_input in Hw. by rewrite Hx in Hw.
Qed.

(** Whatever the frames but the last one determine has been played. *)
Lemma feeding_almost r (fs : list Frame) n : 0 <= step r -> feeding r fs n -> resampled_frame (step r) (take (length fs - 1) fs) n = None.
Proof.
  intros Hst Hr. unfold resampled_frame.
  destruct Hr as [-> Hp Hx -> H0|m a Hl Ha Hp Hx Hpos Hb|m a b Hl Ha Hb Hp Hx Hpos Hbd]; [by rewrite take_nil, lookup_nil|..];
    (assert (Z.of_nat m <= Z.of_nat n * step r / 2 ^ 32) by (apply Z.div_le_lower_bound; rewrite ?ONE_pow in *; lia);
     rewrite (lookup_ge_None_2 _ (S _)) by (rewrite length_take; lia); by repeat case_match).
Qed.

Lemma resampled_frame_app st fs gs k f : resampled_frame st fs k = Some f -> resampled_frame st (fs ++ gs) k = Some f.
Proof.
  unfold resampled_frame. destruct (fs !! Z.to_nat _) as [a|] eqn:Ha; [|done]. destruct (fs !! S _) as [b|] eqn:Hb; [|done].
  rewrite (lookup_app_l_Some _ _ _ _ Ha), (lookup_app_l_Some _ _ _ _ Hb). done.
Qed.

Lemma played_frame_app f card fs gs k x : played_frame f card fs k = Some x -> played_frame f card (fs ++ gs) k = Some x.
Proof. unfold played_frame. case_if; [apply lookup_app_l_Some|apply resampled_frame_app]. Qed.

(** A converter that has taken the bytes [B] and played [n] frames. *)
Definition converting (f : Format) (card : Z) (c : Converter) (B : list Z) (n : nat) : Prop :=
  format c = f /\ card_rate c = card /\ carry c = leftover f B /\
  match resampler c with
  | None => rate f = card /\ n = length (frames f B)
  | Some r => rate f <> card /\ step r = rate_step (rate f) card /\ feeding r (frames f B) n
  end.

Section Convert.
Context (f : Format) (card : Z).
Hypothesis Hf : (0 < frame_bytes f)%nat.
Hypothesis Hrate : 0 <= rate f.

Lemma step_nonneg : 0 <= rate_step (rate f) card.
Proof. unfold rate_step. apply Z.div_pos; lia. Qed.

(** Bytes taken by [next_frame] complete exactly one frame. *)
Lemma next_frame_spec c B rest :
  format c = f -> carry c = leftover f B ->
  match next_frame c rest with
  | Some (x, c', rest') =>
      exists t, rest = t ++ rest' /\ t <> [] /\ frames f (B ++ t) = frames f B ++ [x] /\
        c' = with_carry c [] /\ leftover f (B ++ t) = []
  | None => (length (leftover f B) + length rest < frame_bytes f)%nat
  end.
Proof.
  intros Hc Hcarry. unfold next_frame. rewrite Hc, Hcarry. pose proof (leftover_length f B Hf) as Hlt. case_if.
  - case_bool_decide as Hb; [lia|]. set (needed := (frame_bytes f - length (leftover f B))%nat) in *.
    assert (length (take needed rest) = needed) as Hl by (rewrite length_take; lia).
    exists (take needed rest). split; [by rewrite take_drop|]. split; [intros E; rewrite E in Hl; simpl in Hl; lia|].
    destruct (frames_complete f B (take needed rest) Hf) as [H1 H2]; [lia|]. done.
  - assert (leftover f B = []) as Hnil by (destruct (leftover f B); [done|simpl in *; lia]).
    case_bool_decide as Hb; [rewrite Hnil; simpl; lia|].
    assert (length (take (frame_bytes f) rest) = frame_bytes f) as Hl by (rewrite length_take; lia).
    exists (take (frame_bytes f) rest). split; [by rewrite take_drop|]. split; [intros E; rewrite E in Hl; simpl in Hl; lia|].
    destruct (frames_complete f B (take (frame_bytes f) rest) Hf) as [H1 H2]; [rewrite Hnil; simpl; lia|].
    rewrite Hnil in H1. split; [done|]. split; [|done]. unfold with_carry. destruct c. simpl in *. by rewrite Hcarry, Hnil.
Qed.

Definition plays (B : list Z) (n : nat) (os : list Frame) : Prop :=
  forall k x, os !! k = Some x -> played_frame f card (frames f B) (n + k) = Some x.

Lemma plays_cons B t n x os :
  played_frame f card (frames f B) n = Some x -> plays (B ++ t) (S n) os -> plays (B ++ t) n (x :: os).
Proof.
  intros Hx Hos [|k] y Hy; simpl in Hy.
  - injection Hy as <-. rewrite Nat.add_0_r. destruct (frames_prefix f B t Hf) as [gs ->]. by apply played_frame_app.
  - rewrite Nat.add_succ_r. apply (Hos k y Hy).
Qed.

Lemma played_none B n r :
  rate f <> card -> step r = rate_step (rate f) card -> feeding r (frames f B) n -> wants_input r = true ->
  played_frame f card (frames f B) n = None.
Proof.
  intros Hne Hst Hr Hw. unfold played_frame. rewrite (proj2 (Z.eqb_neq _ _) Hne), <- Hst.
  apply (feeding_exhausted r); [rewrite Hst; apply step_nonneg|done|done].
Qed.

Lemma converting_almost c B n :
  converting f card c B n -> played_frame f card (take (length (frames f B) - 1) (frames f B)) n = None.
Proof.
  intros (_ & _ & _ & Hr). unfold played_frame. destruct (resampler c) as [r|].
  - destruct Hr as (Hne & Hst & Hr). rewrite (proj2 (Z.eqb_neq _ _) Hne), <- Hst. apply feeding_almost; [rewrite Hst; apply step_nonneg|done].
  - destruct Hr as [He ->]. rewrite (proj2 (Z.eqb_eq _ _) He). apply lookup_ge_None_2. rewrite length_take. lia.
Qed.

(** What the loop does from any point: it takes some of the input and plays the
    next frames, and stops for want of room or with nothing left to play. *)
Definition loop_does (c : Converter) (B rest out : list Z) (n room : nat) (r : option (Converter * list Z * list Z)) : Prop :=
  exists c' t rest' os, r = Some (c', rest', out ++ mbind encode_frame os) /\ rest = t ++ rest' /\
    converting f card c' (B ++ t) (n + length os) /\ plays (B ++ t) n os /\
    ((length out + 4 * length os + OUTPUT_FRAME <= room)%nat ->
     (length (leftover f (B ++ t)) + length rest' < frame_bytes f)%nat /\
     played_frame f card (frames f (B ++ t)) (n + length os) = None).

Lemma loop_stops c B rest out n room :
  converting f card c B n ->
  ((length out + OUTPUT_FRAME <= room)%nat ->
   (length (leftover f B) + length rest < frame_bytes f)%nat /\ played_frame f card (frames f B) n = None) ->
  loop_does c B rest out n room (Some (c, rest, out)).
Proof.
  intros Hc Hend. exists c, [], rest, []. cbn [mbind list_bind length]. rewrite !(right_id_L [] (++)), Nat.add_0_r.
  split_and!; try done. intros H. apply Hend. lia.
Qed.

Lemma loop_plays c c' B t rest' out n x room r :
  played_frame f card (frames f (B ++ t)) n = Some x ->
  loop_does c' (B ++ t) rest' (out ++ encode_frame x) (S n) room r -> loop_does c B (t ++ rest') out n room r.
Proof.
  intros Hx (c2 & t2 & rest2 & os & -> & -> & Hc & Hp & Hend). exists c2, (t ++ t2), rest2, (x :: os).
  cbn [mbind list_bind length]. rewrite <- !(assoc_L (++)) in *. rewrite <- Nat.add_succ_comm in *. split_and!; try done.
  - rewrite (assoc_L (++) B). apply plays_cons; [done|]. by rewrite <- (assoc_L (++)).
  - intros H. apply Hend. rewrite length_app. unfold OUTPUT_FRAME in *. unfold encode_frame. rewrite length_app, !length_le_bytes. lia.
Qed.

Lemma loop_takes c c' B t rest' out n room r :
  loop_does c' (B ++ t) rest' out n room r -> loop_does c B (t ++ rest') out n room r.
Proof.
  intros (c2 & t2 & rest2 & os & -> & -> & Hc & Hp & Hend). exists c2, (t ++ t2), rest2, os.
  rewrite <- !(assoc_L (++)) in *. by split_and!.
Qed.

Lemma step_feed r x : step (feed r x) = step r.
Proof. unfold feed. by destruct (previous r). Qed.

Lemma length_nonzero (l : list Z) : l <> [] -> (0 < length l)%nat.
Proof. destruct l; [done|simpl; lia]. Qed.

Lemma convert_loop_spec fuel c B rest out n room :
  converting f card c B n -> Forall is_byte (B ++ rest) -> (length rest + (room - length out) < fuel)%nat ->
  loop_does c B rest out n room (convert_loop fuel c rest out room).
Proof.
  revert c B rest out n. induction fuel as [|fuel IH]; intros c B rest out n Hc Hb Hfuel; [lia|]. cbn [convert_loop].
  case_bool_decide as Hroom; [apply loop_stops; [done|unfold OUTPUT_FRAME in *; lia]|].
  pose proof Hc as (Hfmt & Hcard & Hcarry & Hres). pose proof (next_frame_spec c B rest Hfmt Hcarry) as Hnext.
  assert (forall x, length (out ++ encode_frame x) = length out + 4)%nat as Hlen.
  { intros x. rewrite length_app. unfold encode_frame. by rewrite length_app, !length_le_bytes. }
  unfold OUTPUT_FRAME in Hroom. destruct (resampler c) as [r|] eqn:Er.
  - destruct Hres as (Hne & Hst & Hfeed). destruct (produce r) as [o r'] eqn:Hp.
    apply (produce_feeding r (frames f B) n) in Hp; [|rewrite Hst; apply step_nonneg|apply frames_range, (proj1 (proj1 (Forall_app _ _ _) Hb))|done].
    destruct Hp as [Hst' Ho]. rewrite Hst in Hst'. destruct o as [x|].
    + destruct Ho as [Hx Hr']. apply (loop_plays c (with_resampler c r') B [] rest out n x); rewrite !(right_id_L [] (++)).
      * unfold played_frame. by rewrite (proj2 (Z.eqb_neq _ _) Hne), <- Hst.
      * apply IH; [|done|rewrite Hlen; lia]. done.
    + destruct Ho as [Hw Hr']. rewrite Hw. cbn [negb].
      pose proof (next_frame_spec (with_resampler c r') B rest Hfmt Hcarry) as Hnext'.
      destruct (next_frame (with_resampler c r') rest) as [[[x c'] rest']|].
      * destruct Hnext' as (t & -> & Ht & Hfr & -> & Hlo). apply (loop_takes c (with_resampler (with_carry (with_resampler c r') []) (feed r' x))).
        apply IH; [|by rewrite <- (assoc_L (++))|rewrite length_app in Hfuel; apply length_nonzero in Ht; lia].
        refine (conj Hfmt (conj Hcard (conj (eq_sym Hlo) _))). cbn [resampler with_resampler]. rewrite step_feed, Hfr. split; [done|]. split; [done|].
        apply feed_feeding; [rewrite Hst'; apply step_nonneg|done|done].
      * apply loop_stops; [done|]. intros _. split; [done|]. by apply (played_none B n r').
  - destruct Hres as [Hrt ->]. destruct (next_frame c rest) as [[[x c'] rest']|].
    + destruct Hnext as (t & -> & Ht & Hfr & -> & Hlo). apply (loop_plays c (with_carry c []) B t rest' out _ x).
      * unfold played_frame. rewrite (proj2 (Z.eqb_eq _ _) Hrt), Hfr. by rewrite lookup_app_r, Nat.sub_diag by lia.
      * apply IH; [|by rewrite <- (assoc_L (++))|rewrite Hlen; rewrite length_app in Hfuel; apply length_nonzero in Ht; lia].
        refine (conj Hfmt (conj Hcard (conj (eq_sym Hlo) _))). cbn [resampler with_carry]. rewrite Er, Hfr, length_app. simpl. split; [done|lia].
    + apply loop_stops; [done|]. intros _. split; [done|]. unfold played_frame. rewrite (proj2 (Z.eqb_eq _ _) Hrt).
      by apply lookup_ge_None_2.
Qed.

Lemma convert_spec c B input n room :
  converting f card c B n -> Forall is_byte (B ++ input) ->
  exists c' k os, convert c input room = Some (c', k, mbind encode_frame os) /\
    converting f card c' (B ++ take k input) (n + length os) /\ plays (B ++ take k input) n os /\
    ((4 * length os + OUTPUT_FRAME <= room)%nat ->
     k = length input /\ played_frame f card (frames f (B ++ input)) (n + length os) = None).
Proof.
  intros Hc Hb. unfold convert.
  destruct (convert_loop_spec (S (length input + room)) c B input [] n room Hc Hb) as (c' & t & rest & os & -> & -> & Hc' & Hp & Hend); [simpl; lia|].
  pose proof Hc' as (Hfmt & Hcard & Hcarry & Hres). rewrite Hfmt, Hcarry. cbn [app]. case_bool_decide as Hlt.
  - destruct (frames_partial f (B ++ t) rest Hf Hlt) as [H1 H2].
    assert (B ++ t ++ rest = (B ++ t) ++ rest) as Hassoc by apply (assoc_L (++)).
    exists (with_carry c' (leftover f (B ++ t) ++ rest)), (length (t ++ rest)), os. rewrite take_ge, Hassoc by done.
    split; [done|]. split; [|split].
    + refine (conj Hfmt (conj Hcard (conj _ _))); [by rewrite H2|]. cbn [resampler with_carry]. by rewrite H1.
    + intros k x. rewrite H1. apply Hp.
    + intros Hroom. split; [done|]. rewrite H1. by apply Hend.
  - exists c', (length (t ++ rest) - length rest)%nat, os.
    assert (take (length (t ++ rest) - length rest) (t ++ rest) = t) as ->.
    { rewrite length_app, Nat.add_sub. apply take_app_length. }
    split; [done|]. split; [done|]. split; [done|]. intros Hroom. exfalso. apply Hlt. by apply Hend.
Qed.

End Convert.

(** ** Theorems *)

(** The calls of a stream: each with its input and room; the bytes taken and the
    bytes played, all together. *)
Fixpoint stream (c : Converter) (calls : list (list Z * nat)) : option (Converter * list Z * list Z) :=
  match calls with
  | [] => Some (c, [], [])
  | (input, room) :: calls =>
      match convert c input room with
      | Some (c, k, out) =>
          match stream c calls with
          | Some (c, taken, played) => Some (c, take k input ++ taken, out ++ played)
          | None => None
          end
      | None => None
      end
  end.

Lemma new_converting f card : converting f card (new f card) [] 0.
Proof.
  unfold new. refine (conj eq_refl (conj eq_refl (conj _ _))); [unfold leftover; by rewrite drop_nil|]. cbn [resampler].
  assert (length (frames f []) = 0%nat) as H0 by (rewrite length_frames; apply Nat.Div0.div_0_l).
  destruct (Z.eqb_spec (rate f) card); cbn [negb]; [done|]. split; [done|]. split; [|apply feeding_start; try done; by apply length_zero_iff_nil].
  unfold rate_step. cbn [step new_resampler]. by rewrite Z.shiftl_mul_pow2 by lia.
Qed.

Lemma stream_spec f card c B n calls :
  (0 < frame_bytes f)%nat -> 0 <= rate f ->
  converting f card c B n -> Forall is_byte B -> Forall (fun call => Forall is_byte call.1) calls ->
  exists c' taken os, stream c calls = Some (c', taken, mbind encode_frame os) /\
    converting f card c' (B ++ taken) (n + length os) /\ plays f card (B ++ taken) n os /\ Forall is_byte taken.
Proof.
  intros Hf Hr. revert c B n. induction calls as [|[input room] calls IH]; intros c B n Hc HB Hcalls.
  { exists c, [], []. rewrite (right_id_L [] (++)), Nat.add_0_r. by split_and!. }
  apply Forall_cons in Hcalls as [Hin Hcalls]. cbn [fst] in Hin. cbn [stream].
  destruct (convert_spec f card Hf Hr c B input n room Hc) as (c1 & k & os1 & -> & Hc1 & Hp1 & _); [by apply Forall_app|].
  assert (Forall is_byte (B ++ take k input)) as HB1 by (apply Forall_app; split; [done|by apply Forall_take]).
  destruct (IH c1 (B ++ take k input) (n + length os1)%nat Hc1 HB1 Hcalls) as (c2 & taken & os2 & -> & Hc2 & Hp2 & Ht).
  exists c2, (take k input ++ taken), (os1 ++ os2). rewrite bind_app, length_app, (assoc_L (++) B). split; [done|].
  split; [by rewrite Nat.add_assoc|]. split; [|apply Forall_app; split; [by apply Forall_take|done]].
  intros j x Hx. apply lookup_app_Some in Hx as [Hx|[Hj Hx]].
  - destruct (frames_prefix f (B ++ take k input) taken Hf) as [gs ->]. apply played_frame_app. by apply Hp1.
  - replace (n + j)%nat with (n + length os1 + (j - length os1))%nat by lia. by apply Hp2.
Qed.

(** C29. What is played does not depend on how it is written.  Over any sequence
    of writes, cut anywhere and with any room in each call, every call ends;
    frame [k] of all the output is the one the bytes taken so far define: the
    input's frame [k] at the card's own rate, otherwise the interpolation of
    the two input frames around [k] times the ratio of the rates in 32.32
    fixed point (no drift, no overflow of the position, no sample out of
    range).  A further call that leaves room for a frame has taken all of its
    input and played everything the input allows. *)
Theorem conversion_exact f card calls :
  (0 < frame_bytes f)%nat -> 0 <= rate f < 2 ^ 32 -> Forall (fun call => Forall is_byte call.1) calls ->
  exists c taken os, stream (new f card) calls = Some (c, taken, mbind encode_frame os) /\
    (forall k x, os !! k = Some x -> played_frame f card (frames f taken) k = Some x) /\
    match resampler c with Some r => 0 <= position r < 2 ^ 64 | None => rate f = card end /\
    forall input room, Forall is_byte input ->
      exists c' k os', convert c input room = Some (c', k, mbind encode_frame os') /\
        ((4 * length os' + OUTPUT_FRAME <= room)%nat ->
         k = length input /\ played_frame f card (frames f (taken ++ input)) (length os + length os') = None).
Proof.
  intros Hf [Hr Hr'] Hcalls.
  destruct (stream_spec f card (new f card) [] 0 calls Hf Hr (new_converting f card)) as (c & taken & os & Hs & Hc & Hp & Ht); [done|done|].
  exists c, taken, os. split; [done|]. split; [done|]. split.
  - destruct Hc as (_ & _ & _ & Hres). destruct (resampler c) as [r|]; [|by destruct Hres].
    destruct Hres as (_ & Hst & Hfeed). assert (0 <= step r <= (2 ^ 32 - 1) * 2 ^ 32).
    { rewrite Hst. unfold rate_step. split; [apply Z.div_pos; lia|]. apply Z.div_le_upper_bound; nia. }
    destruct Hfeed; rewrite ?ONE_pow in *; lia.
  - intros input room Hin. destruct (convert_spec f card Hf Hr c taken input (length os) room Hc) as (c' & k & os' & H1 & _ & _ & H2); [by apply Forall_app|].
    by exists c', k, os'.
Qed.

(** ** Witness *)

(** Mono bytes at 24 kHz on a card at 48 kHz, a frame at a time, then at once. *)
Definition voice : Format := mkFormat 24000 U8 1.

Lemma conversion_exact_witness :
  stream (new voice 48000) [([128], 16%nat); ([138], 16%nat)] =
    Some (with_resampler (new voice 48000) (mkResampler (2 ^ 31) 0 (Some (2560, 2560)) None), [128; 138], [0; 0; 0; 0; 0; 5; 0; 5]) /\
  exists c taken os, stream (new voice 48000) [([128], 16%nat); ([138], 16%nat)] = Some (c, taken, mbind encode_frame os) /\
    (forall k x, os !! k = Some x -> played_frame voice 48000 (frames voice taken) k = Some x) /\
    match resampler c with Some r => 0 <= position r < 2 ^ 64 | None => rate voice = 48000 end /\
    forall input room, Forall is_byte input ->
      exists c' k os', convert c input room = Some (c', k, mbind encode_frame os') /\
        ((4 * length os' + OUTPUT_FRAME <= room)%nat ->
         k = length input /\ played_frame voice 48000 (frames voice (taken ++ input)) (length os + length os') = None).
Proof.
  split; [reflexivity|]. apply conversion_exact; [cbn; lia|cbn; lia|].
  repeat constructor; unfold is_byte; simpl; lia.
Defined.

End Format.
