(* ===== verification/Unpack.v ===== *)
(** * Unpack: filling the root filesystem ([fs/initramfs.rs], [unpack])

    [unpack] is generic in the inodes, as the source is in [dyn Inode]; the
    theorem is about the in-memory filesystem it is called on.  A filesystem is
    seen as a map from paths to contents ([tree]); unpacking replays the
    archive's entries on that map, one after the other: each makes the
    directories on its way and puts a directory, a file with its data, or, when
    the filesystem cannot take it, nothing in its place, and changes no other
    path. *)

From stdpp Require Import base gmap numbers list.
From S2P Require Import Prelude Errno Text Inode FsTree Ramfs RamfsInv RamfsSpec Cpio.
Local Open Scope Z_scope.

Module Unpack.
#[local] Existing Instance Cpio.EntryKind_eq_dec.

Record Unpacked := mkUnpacked { files : Z; bytes : Z; skipped : list (list Z * Errno * Z) }.

Definition nothing : Unpacked := mkUnpacked 0 0 [].

Section Unpack.
Context {W I : Type} {inodes : Inodes W I}.

(** The file a name is to be: an existing one emptied, or a new one. *)
Definition target_file (w : W) (directory : I) (component : Name) : result Cpio.CpioError I * W :=
  match i_lookup w directory component with
  | Ok existing =>
      if bool_decide (i_kind w existing = KFile) then
        match i_truncate w existing 0 with
        | (Ok _, w) => (Ok existing, w)
        | (Err e, w) => (Err (Cpio.Filesystem e), w)
        end
      else (Err (Cpio.Filesystem EISDIR), w)
  | Err ENOENT =>
      match i_create w directory component KFile with
      | (Ok file, w) => (Ok file, w)
      | (Err e, w) => (Err (Cpio.Filesystem e), w)
      end
  | Err e => (Err (Cpio.Filesystem e), w)
  end.

(** The directory a name is to be: an existing one, or a new one. *)
Definition target_directory (w : W) (directory : I) (component : Name) : result Cpio.CpioError I * W :=
  match i_lookup w directory component with
  | Ok existing =>
      if bool_decide (i_kind w existing = KDirectory) then (Ok existing, w) else (Err (Cpio.Filesystem ENOTDIR), w)
  | Err ENOENT =>
      match i_create w directory component KDirectory with
      | (Ok d, w) => (Ok d, w)
      | (Err e, w) => (Err (Cpio.Filesystem e), w)
      end
  | Err e => (Err (Cpio.Filesystem e), w)
  end.

Fixpoint unpack_entry (e : Cpio.Entry) (w : W) (directory : I) (components : list Name) (u : Unpacked)
  : result Cpio.CpioError Unpacked * W :=
  match components with
  | [] => (Ok u, w)
  | component :: rest =>
      if bool_decide (rest = []) && bool_decide (Cpio.kind e = Cpio.File) then
        match target_file w directory component with
        | (Err err, w) => (Err err, w)
        | (Ok file, w) =>
            match i_write_at w file 0 (Cpio.data e) with
            | (Err err, w) =>
                let '(_, w) := i_unlink w directory component in
                (Ok (mkUnpacked (files u) (bytes u) (skipped u ++ [(Cpio.path e, err, len (Cpio.data e))])), w)
            | (Ok _, w) => (Ok (mkUnpacked (files u + 1) (bytes u + len (Cpio.data e)) (skipped u)), w)
            end
        end
      else
        match target_directory w directory component with
        | (Err err, w) => (Err err, w)
        | (Ok d, w) => unpack_entry e w d rest u
        end
  end.

Fixpoint unpack_entries (es : list Cpio.Entry) (w : W) (root : I) (u : Unpacked) : result Cpio.CpioError Unpacked * W :=
  match es with
  | [] => (Ok u, w)
  | e :: es =>
      match unpack_entry e w root (split SLASH (Cpio.path e)) u with
      | (Ok u, w) => unpack_entries es w root u
      | (Err err, w) => (Err err, w)
      end
  end.

(** [None] would be the parser out of fuel or out of range. *)
Definition unpack (w : W) (root : I) (archive : list Z) : option (result Cpio.CpioError Unpacked * W) :=
  match Cpio.parse archive with
  | Some (Ok es) => Some (unpack_entries es w root nothing)
  | Some (Err err) => Some (Err err, w)
  | None => None
  end.

End Unpack.

(** ** Paths and contents *)

Inductive Content := FileC (data : list Z) | DirC.

Definition content (n : Ramfs.Node) : Content := match n with Ramfs.File data => FileC data | Ramfs.Dir _ => DirC end.

Definition at_path (st : Ramfs.Ramfs) (p : list Name) : option Z := RamfsSpec.resolve (edge_of st) (Ramfs.root st) p.

Definition tree (st : Ramfs.Ramfs) (p : list Name) : option Content :=
  at_path st p ≫= fun i => content <$> Ramfs.nodes st !! i.

(** One path set, the others as they were. *)
Definition put {A} (m : list Name -> option A) (q : list Name) (c : option A) (p : list Name) : option A :=
  if decide (p = q) then c else m p.

Lemma resolve_snoc edge d p x : RamfsSpec.resolve edge d (p ++ [x]) = RamfsSpec.resolve edge d p ≫= fun c => edge c x.
Proof.
  revert d. induction p as [|y p IH]; intros d; simpl; [by destruct (edge d x)|]. by destruct (edge d y).
Qed.

(** In a tree a node has one path. *)
Lemma resolve_unique root edge meta node p q c :
  tree_ok root edge meta node -> RamfsSpec.resolve edge root p = Some c -> RamfsSpec.resolve edge root q = Some c -> p = q.
Proof.
  intros Ht. revert q c. induction p as [|x p IH] using rev_ind; intros q c Hp Hq; destruct q as [|y q _] using rev_ind; [done|..].
  - simpl in Hp. injection Hp as <-. rewrite resolve_snoc in Hq. apply bind_Some in Hq as (d & _ & Hd).
    by destruct (t_child _ _ _ _ Ht _ _ _ Hd).
  - simpl in Hq. injection Hq as <-. rewrite resolve_snoc in Hp. apply bind_Some in Hp as (d & _ & Hd).
    by destruct (t_child _ _ _ _ Ht _ _ _ Hd).
  - rewrite resolve_snoc in Hp, Hq. apply bind_Some in Hp as (d & Hd & Hx), Hq as (d' & Hd' & Hy).
    destruct (t_unique _ _ _ _ Ht _ _ _ _ _ Hx Hy) as [<- <-]. by rewrite (IH q d).
Qed.

Lemma resolve_node root edge meta node p c :
  tree_ok root edge meta node -> RamfsSpec.resolve edge root p = Some c -> node c.
Proof.
  intros Ht. destruct p as [|x p _] using rev_ind.
  - intros [= <-]. by eapply t_node, t_root.
  - rewrite resolve_snoc. intros (d & _ & Hd)%bind_Some. by destruct (t_child _ _ _ _ Ht _ _ _ Hd) as (_ & _ & ? & _).
Qed.

(** A leaf added at one path. *)
Lemma resolve_add root edge meta node q d x c p :
  tree_ok root edge meta node -> RamfsSpec.resolve edge root q = Some d -> edge d x = None -> ~ node c ->
  RamfsSpec.resolve (add_edge edge d x c) root p = put (RamfsSpec.resolve edge root) (q ++ [x]) (Some c) p.
Proof.
  intros Ht Hq Hx Hc. unfold put.
  assert (Hleaf : forall y, edge c y = None).
  { intros y. destruct (edge c y) eqn:Hy; [|done]. destruct (t_child _ _ _ _ Ht _ _ _ Hy) as (_ & _ & _ & [m Hm]). by destruct Hc; eapply t_node. }
  assert (Hcd : c <> d) by (intros ->; by apply Hc, (resolve_node root edge meta node q)).
  induction p as [|y p IH] using rev_ind; [rewrite decide_False; [done|by destruct q]|].
  rewrite !resolve_snoc, IH. destruct (decide (p = q ++ [x])) as [->|Hne]; cbn [mbind option_bind].
  - rewrite decide_False by (intros E; apply (f_equal length) in E; rewrite !length_app in E; simpl in E; lia).
    rewrite resolve_snoc, Hq. cbn [mbind option_bind]. rewrite Hx. unfold add_edge. by rewrite decide_False by naive_solver.
  - destruct (RamfsSpec.resolve edge root p) as [j|] eqn:Hj; cbn [mbind option_bind].
    + unfold add_edge. destruct (decide (j = d /\ y = x)) as [[-> ->]|Hn].
      * assert (p = q) as -> by (by eapply resolve_unique). by rewrite decide_True.
      * rewrite decide_False; [done|]. intros [-> ->]%app_inj_tail. naive_solver.
    + rewrite decide_False; [done|]. intros [-> ->]%app_inj_tail. naive_solver.
Qed.

(** A leaf removed. *)
Lemma resolve_cut root edge meta node q d x c p :
  tree_ok root edge meta node -> RamfsSpec.resolve edge root q = Some d -> edge d x = Some c -> (forall y, edge c y = None) ->
  RamfsSpec.resolve (cut_edge edge d x) root p = put (RamfsSpec.resolve edge root) (q ++ [x]) None p.
Proof.
  intros Ht Hq Hx Hleaf. unfold put. induction p as [|y p IH] using rev_ind; [rewrite decide_False; [done|by destruct q]|].
  rewrite !resolve_snoc, IH. destruct (decide (p = q ++ [x])) as [->|Hne]; cbn [mbind option_bind].
  - rewrite resolve_snoc, Hq. cbn [mbind option_bind]. rewrite Hx. cbn [mbind option_bind]. rewrite Hleaf. by case_decide.
  - destruct (RamfsSpec.resolve edge root p) as [j|] eqn:Hj; cbn [mbind option_bind].
    + unfold cut_edge. destruct (decide (j = d /\ y = x)) as [[-> ->]|Hn].
      * assert (p = q) as -> by (by eapply resolve_unique). by rewrite decide_True.
      * rewrite decide_False; [done|]. intros [-> ->]%app_inj_tail. naive_solver.
    + rewrite decide_False; [done|]. intros [-> ->]%app_inj_tail. naive_solver.
Qed.

Lemma resolve_ext edge edge' root p :
  (forall d x, edge' d x = edge d x) -> RamfsSpec.resolve edge' root p = RamfsSpec.resolve edge root p.
Proof. intros He. revert root. induction p as [|x p IH]; intros root; simpl; [done|]. rewrite He. by destruct (edge root x). Qed.

(** ** Operations of the filesystem on its tree *)

Section Ram.
Import Ramfs RamfsSpec.
Implicit Types st : Ramfs.

Lemma at_path_node st p i : inv st -> at_path st p = Some i -> node_of st i.
Proof. intros Hinv. apply (resolve_node _ _ _ _ _ _ (i_tree _ _ Hinv)). Qed.

Lemma at_path_unique st p q i : inv st -> at_path st p = Some i -> at_path st q = Some i -> p = q.
Proof. intros Hinv. apply (resolve_unique _ _ _ _ _ _ _ (i_tree _ _ Hinv)). Qed.

Lemma tree_dir st q d : at_path st q = Some d -> is_Some (dir_at st d) -> tree st q = Some DirC.
Proof. intros Hq [dd Hd%dir_node]. unfold tree. rewrite Hq. cbn [mbind option_bind]. by rewrite Hd. Qed.

(** Every directory on the way to an inode is one. *)
Lemma tree_prefix st p q : inv st -> is_Some (tree st q) -> p `prefix_of` q -> p <> q -> tree st p = Some DirC.
Proof.
  intros Hinv Hq [k ->] Hne. destruct k as [|x k]; [by rewrite (right_id_L [] (++)) in Hne|].
  destruct Hq as [c Hc]. unfold tree, at_path in Hc. apply bind_Some in Hc as (i & Hi & _).
  assert (exists d, at_path st p = Some d /\ is_Some (edge_of st d x)) as (d & Hd & [e He]).
  { unfold at_path. clear -Hi. revert Hi. generalize (root st). induction p as [|y p IH]; intros r; simpl.
    - intros Hi. exists r. split; [done|]. destruct (edge_of st r x); [by eexists|done].
    - destruct (edge_of st r y); [apply IH|done]. }
  eapply tree_dir; [exact Hd|]. unfold edge_of, get_entry in He. destruct (dir_at st d); [by eexists|done].
Qed.

(** A file's contents replaced. *)
Lemma set_file_tree st i q data data' u :
  inv st -> at_path st q = Some i -> nodes st !! i = Some (File data) ->
  let st' := set_used (set_node st i (File data')) u in
  (forall p, at_path st' p = at_path st p) /\ forall p, tree st' p = put (tree st) q (Some (FileC data')) p.
Proof.
  intros Hinv Hq Hi st'.
  assert (Hedge : forall d x, edge_of st' d x = edge_of st d x).
  { intros d x. unfold edge_of, get_entry. change (dir_at st' d) with (dir_at (set_node st i (File data')) d).
    rewrite dir_at_set_node. case_decide; [subst; by rewrite (file_dir _ _ _ Hi)|done]. }
  assert (Hat : forall p, at_path st' p = at_path st p) by (intros p; by apply resolve_ext).
  split; [done|]. intros p. unfold tree, put. rewrite Hat. case_decide as Hp.
  - subst p. rewrite Hq. cbn [mbind option_bind]. unfold st'. cbn [nodes set_used set_node set_nodes]. by rewrite lookup_insert_eq.
  - destruct (at_path st p) as [j|] eqn:Hj; [|done]. cbn [mbind option_bind]. unfold st'. cbn [nodes set_used set_node set_nodes].
    rewrite lookup_insert_ne; [done|]. intros ->. by apply Hp, (at_path_unique st p q j).
Qed.

(** The node of a created inode. *)
Definition fresh_node (k : InodeKind) (d : Z) : Node :=
  match k with KDirectory => Dir (mkDir (Some d) ∅ false) | _ => File [] end.

Lemma create_tree st q d name k c st' :
  inv st -> at_path st q = Some d -> create st d name k = (Ok c, st') ->
  inv st' /\ root st' = root st /\ nodes st' !! c = Some (fresh_node k d) /\ tree st q = Some DirC /\
  (forall p, at_path st' p = put (at_path st) (q ++ [name]) (Some c) p) /\
  forall p, tree st' p = put (tree st) (q ++ [name]) (Some (content (fresh_node k d))) p.
Proof.
  intros Hinv Hq Hcr. pose proof (create_inv st d name k Hinv) as Hinv'. rewrite Hcr in Hinv'. cbn [snd] in Hinv'.
  revert Hcr. unfold create. destruct (dir_at st d) as [dd|] eqn:Hd; [|done]. destruct (check_name name); [|done].
  destruct (dead dd); [done|]. case_bool_decide as Hx; [done|]. apply eq_None_not_Some in Hx.
  assert (Hfresh : ~ node_of st (next_ino st)) by (intros H%(i_fresh _ _ Hinv); lia).
  assert (Hdn : d <> next_ino st) by (intros ->; by apply Hfresh, (dir_node_of _ _ _ Hd)).
  assert (Hst : (match k with KCharDevice => (Err EINVAL, st) | _ => let '(child, st) := allocate_ino st in
      (Ok child, set_entries (set_node st child (fresh_node k d)) d (<[name := child]> (entries dd))) end) = (Ok c, st') ->
    c = next_ino st /\ st' = set_node (set_node (snd (allocate_ino st)) c (fresh_node k d)) d (Dir (with_entries dd (<[name := c]> (entries dd))))).
  { unfold set_entries. cbn [allocate_ino snd]. rewrite dir_at_set_node, decide_False by done. change (dir_at (mkRamfs _ _ _ _ _ _ _) d) with (dir_at st d).
    rewrite Hd. by destruct k; intros [= <- <-]. }
  intros Hcr. destruct Hst as [Hc Hst]; [by destruct k|]. clear Hcr.
  assert (Hnodes : nodes st' = <[d := Dir (with_entries dd (<[name := c]> (entries dd)))]> (<[c := fresh_node k d]> (nodes st))) by (by rewrite Hst).
  assert (Hroot : root st' = root st) by (by rewrite Hst).
  assert (Hedge : forall j x, edge_of st' j x = add_edge (edge_of st) d name c j x).
  { intros j x. unfold edge_of, get_entry, add_edge. rewrite !dir_at_eq, Hnodes. destruct (decide (j = d)) as [->|Hj].
    - rewrite lookup_insert_eq. simpl. apply dir_node in Hd. rewrite Hd. simpl. destruct (decide (x = name)) as [->|].
      + rewrite lookup_insert_eq. by rewrite decide_True.
      + rewrite lookup_insert_ne by done. by rewrite decide_False by naive_solver.
    - rewrite (decide_False (P := _ /\ _)) by naive_solver. rewrite lookup_insert_ne by done. destruct (decide (j = c)) as [->|].
      + rewrite lookup_insert_eq. rewrite Hc. assert (nodes st !! next_ino st = None) as -> by (by apply eq_None_not_Some). by destruct k.
      + by rewrite lookup_insert_ne. }
  assert (Hat : forall p, at_path st' p = put (at_path st) (q ++ [name]) (Some c) p).
  { intros p. unfold at_path. rewrite Hroot, (resolve_ext _ _ _ _ Hedge).
    apply (resolve_add _ _ _ _ q d name c p (i_tree _ _ Hinv)); [done| |by rewrite Hc]. by rewrite (edge_of_dir _ _ _ _ Hd). }
  assert (Hcn : nodes st' !! c = Some (fresh_node k d)) by (rewrite Hnodes, lookup_insert_ne by congruence; apply lookup_insert_eq).
  split; [done|]. split; [done|]. split; [done|]. split; [by eapply tree_dir; [done|eexists]|]. split; [done|].
  intros p. unfold tree, put. rewrite Hat. unfold put. case_decide; [cbn [mbind option_bind]; by rewrite Hcn|].
  destruct (at_path st p) as [j|] eqn:Hj; [|done]. cbn [mbind option_bind]. rewrite Hnodes.
  destruct (decide (j = d)) as [->|Hjd]; [rewrite lookup_insert_eq; apply dir_node in Hd; by rewrite Hd|].
  rewrite !lookup_insert_ne; [done| |done]. intros ->. apply Hfresh. rewrite <- Hc. by eapply at_path_node.
Qed.

Lemma unlink_tree st q d name c data :
  inv st -> at_path st q = Some d -> at_path st (q ++ [name]) = Some c -> nodes st !! c = Some (File data) ->
  inv (snd (unlink st d name)) /\ root (snd (unlink st d name)) = root st /\
  forall p, tree (snd (unlink st d name)) p = put (tree st) (q ++ [name]) None p.
Proof.
  intros Hinv Hq Hc Hn. split; [by apply ram_unlink_inv|]. pose proof (file_dir _ _ _ Hn) as Hcd.
  unfold at_path in Hc. rewrite resolve_snoc in Hc. change (resolve _ _ q) with (at_path st q) in Hc. rewrite Hq in Hc. cbn [mbind option_bind] in Hc.
  pose proof Hc as Hx. unfold edge_of, get_entry in Hx. destruct (dir_at st d) as [dd|] eqn:Hd; [|done]. simpl in Hx.
  unfold unlink. rewrite Hd, Hx. rewrite bool_decide_eq_false_2 by (rewrite kind_dir, Hcd; by intros []). cbn [snd].
  set (st1 := set_entries st d (delete name (entries dd))).
  assert (Hup : inv_upto (Some c) st1).
  { unfold st1. rewrite <- (bury_file st c) at 1 by done. apply detach_inv; [done..|]. intros y. by apply not_dir_leaf. }
  assert (Hedge : forall j x, edge_of (drop_ref st1 c) j x = cut_edge (edge_of st) d name j x).
  { intros j x. rewrite drop_ref_edge by done. unfold st1. rewrite (set_entries_edge _ _ _ _ Hd). unfold cut_edge.
    case_decide as Hj; [subst j|by rewrite decide_False by naive_solver]. case_decide as Hxx; [destruct Hxx as [_ ->]; apply lookup_delete_eq|].
    rewrite lookup_delete_ne by naive_solver. by rewrite (edge_of_dir _ _ _ _ Hd). }
  assert (Hroot : root (drop_ref st1 c) = root st).
  { assert (root st1 = root st) as <- by (unfold st1, set_entries; by rewrite Hd).
    unfold drop_ref. destruct (referenced st1 c); [done|]. by destruct (nodes st1 !! c) as [[]|]. }
  assert (Hnodes : forall j, j <> c -> content <$> nodes (drop_ref st1 c) !! j = content <$> nodes st !! j).
  { intros j Hj. assert (nodes (drop_ref st1 c) !! j = nodes st1 !! j) as ->.
    { unfold drop_ref. destruct (referenced st1 c); [done|]. destruct (nodes st1 !! c) as [[]|]; simpl; by rewrite lookup_delete_ne. }
    unfold st1, set_entries. rewrite Hd. cbn [nodes set_node set_nodes]. destruct (decide (j = d)) as [->|]; [|by rewrite lookup_insert_ne].
    rewrite lookup_insert_eq. apply dir_node in Hd. by rewrite Hd. }
  split; [done|]. intros p. unfold tree, at_path, put. rewrite Hroot, (resolve_ext _ _ _ _ Hedge).
  rewrite (resolve_cut _ _ _ _ q d name c p (i_tree _ _ Hinv) Hq Hc) by (intros y; by apply not_dir_leaf). unfold put.
  case_decide as Hp; [done|]. destruct (resolve (edge_of st) (root st) p) as [j|] eqn:Hj; [|done]. cbn [mbind option_bind].
  apply Hnodes. intros ->. apply Hp. apply (at_path_unique st p (q ++ [name]) c Hinv Hj).
  unfold at_path. rewrite resolve_snoc. change (resolve _ _ q) with (at_path st q). by rewrite Hq.
Qed.

(** ** Unpacking into it *)

Section Unpacking.
Context (try_reserve : Z -> bool).

#[local] Instance ram_inodes : Inodes Ramfs Z := {
  i_stat := stat;
  i_kind := kind;
  i_read_at st i offset count := (read_at st i offset count, st);
  i_write_at := write_at try_reserve;
  i_truncate := truncate try_reserve;
  i_lookup := lookup;
  i_create := create;
  i_unlink := unlink;
  i_rmdir := rmdir;
  i_rename st i old target new := default (Err EINVAL, st) (rename st i old target new);
  i_entries := list_entries;
  i_seekable _ _ := true;
  i_open st _ _ := (Ok None, st);
  i_hold := hold;
  i_release := unhold;
}.

Lemma put_self {A} (m : list Name -> option A) q c p : m q = c -> put m q c p = m p.
Proof. intros <-. unfold put. case_decide; by subst. Qed.

Lemma put_put {A} (m : list Name -> option A) q c c' p : put (put m q c) q c' p = put m q c' p.
Proof. unfold put. by case_decide. Qed.

Lemma put_ext {A} (m m' : list Name -> option A) q c p : (forall p, m p = m' p) -> put m q c p = put m' q c p.
Proof. intros H. unfold put. by rewrite H. Qed.

Lemma snoc_ne (q : list Name) x : q <> q ++ [x].
Proof. intros E. apply (f_equal length) in E. rewrite length_app in E. simpl in E. lia. Qed.

(** What has become of the state when the place for a component is ready. *)
Definition ready st q d name st' f (c : Content) (n : Z) : Prop :=
  inv st' /\ root st' = root st /\ limit st' = limit st /\ used st' = n /\ at_path st' q = Some d /\ at_path st' (q ++ [name]) = Some f /\
  (content <$> nodes st' !! f) = Some c /\ forall p, tree st' p = put (tree st) (q ++ [name]) (Some c) p.

Lemma tree_dir_at st q d : at_path st q = Some d -> tree st q = Some DirC -> is_Some (dir_at st d).
Proof.
  intros Hq. unfold tree. rewrite Hq, dir_at_eq. cbn [mbind option_bind]. destruct (nodes st !! d) as [[data|dd]|]; [done|by eexists|done].
Qed.

(** A name looked up in a directory of the tree. *)
Lemma lookup_path st q d name :
  inv st -> at_path st q = Some d -> tree st q = Some DirC ->
  match tree st (q ++ [name]) with
  | Some c => exists f, lookup st d name = Ok f /\ at_path st (q ++ [name]) = Some f /\ content <$> nodes st !! f = Some c
  | None => lookup st d name = Err ENOENT
  end.
Proof.
  intros Hinv Hq Hdir. destruct (tree_dir_at st q d Hq Hdir) as [dd Hd]. unfold lookup. rewrite Hd.
  assert (Hat : at_path st (q ++ [name]) = entries dd !! name).
  { unfold at_path. rewrite resolve_snoc. change (resolve _ _ q) with (at_path st q). rewrite Hq. simpl. by apply edge_of_dir. }
  unfold tree. rewrite Hat. destruct (entries dd !! name) as [i|] eqn:Hi; cbn [mbind option_bind ok_or]; [|done].
  destruct (at_path_node st (q ++ [name]) i Hinv Hat) as [n Hn]. rewrite Hn. cbn. exists i. by rewrite Hn.
Qed.

Lemma dir_alive st q d dd : inv st -> at_path st q = Some d -> dir_at st d = Some dd -> dead dd = false.
Proof.
  intros Hinv Hq Hd. pose proof (i_tree _ _ Hinv) as Ht. assert (Hm : meta_of st d = Some (parent dd, dead dd)) by (unfold meta_of; by rewrite Hd).
  destruct q as [|x q _] using rev_ind; [injection Hq as <-; rewrite (t_root _ _ _ _ Ht) in Hm; congruence|].
  unfold at_path in Hq. rewrite resolve_snoc in Hq. apply bind_Some in Hq as (e & _ & He). by destruct (t_up _ _ _ _ Ht _ _ _ _ _ He Hm).
Qed.

Lemma create_room st d name k c st' : create st d name k = (Ok c, st') -> limit st' = limit st /\ used st' = used st.
Proof.
  unfold create. destruct (dir_at st d); [|done]. destruct (check_name name); [|done]. destruct (dead _); [done|]. case_bool_decide; [done|].
  unfold set_entries. by destruct k; cbn [allocate_ino]; [..|done]; intros [= <- <-]; destruct (dir_at _ d).
Qed.

Lemma create_ready st q d name k :
  inv st -> at_path st q = Some d -> tree st q = Some DirC -> tree st (q ++ [name]) = None -> k = KFile \/ k = KDirectory ->
  match check_name name with
  | Ok _ => exists c st', create st d name k = (Ok c, st') /\ ready st q d name st' c (content (fresh_node k d)) (used st)
  | Err e => create st d name k = (Err e, st)
  end.
Proof.
  intros Hinv Hq Hdir Hnone Hk. pose proof (lookup_path st q d name Hinv Hq Hdir) as Hl. rewrite Hnone in Hl.
  destruct (create st d name k) as [r st'] eqn:Hcr. pose proof Hcr as Hcr'. unfold create in Hcr'. unfold lookup in Hl.
  destruct (dir_at st d) as [dd|] eqn:Hd; [|done]. destruct (check_name name); [|congruence]. rewrite (dir_alive st q d dd Hinv Hq Hd) in Hcr'.
  destruct (entries dd !! name) eqn:Hx; [done|]. rewrite bool_decide_eq_false_2 in Hcr' by (by intros []).
  assert (exists c, r = Ok c) as [c ->] by (destruct Hk as [-> | ->]; cbn [allocate_ino] in Hcr'; injection Hcr' as <- _; by eexists). clear Hcr'.
  exists c, st'. split; [done|]. destruct (create_room st d name k c st' Hcr) as [Hlim Hus].
  destruct (create_tree st q d name k c st' Hinv Hq Hcr) as (H1 & H2 & H3 & H4 & H5 & H6).
  unfold ready. rewrite !H5, H3. unfold put at 1 2. rewrite (decide_False (P := q = _)) by apply snoc_ne. rewrite decide_True by done.
  by split_and!.
Qed.

(** The bytes of the file at a path. *)
Definition old_len (m : list Name -> option Content) (path : list Name) : Z := match m path with Some (FileC data) => len data | _ => 0 end.

Lemma target_file_spec st q d name :
  inv st -> at_path st q = Some d -> tree st q = Some DirC ->
  match tree st (q ++ [name]), check_name name with
  | Some DirC, _ => target_file st d name = (Err (Cpio.Filesystem EISDIR), st)
  | None, Err e => target_file st d name = (Err (Cpio.Filesystem e), st)
  | _, _ => exists f st', target_file st d name = (Ok f, st') /\ ready st q d name st' f (FileC []) (used st - old_len (tree st) (q ++ [name]))
  end.
Proof.
  intros Hinv Hq Hdir. unfold target_file, old_len. cbn [i_lookup i_kind i_truncate i_create ram_inodes].
  pose proof (lookup_path st q d name Hinv Hq Hdir) as Hl. destruct (tree st (q ++ [name])) as [c|] eqn:Htree.
  2:{ rewrite Hl. pose proof (create_ready st q d name KFile Hinv Hq Hdir Htree ltac:(by left)) as Hc. rewrite Z.sub_0_r.
      destruct (check_name name); [|by rewrite Hc]. destruct Hc as (f & st' & -> & Hr). by exists f, st'. }
  destruct Hl as (i & -> & Hat & Hn). destruct (nodes st !! i) as [n|] eqn:Hi; [|done]. cbn in Hn. injection Hn as <-. unfold kind. rewrite Hi.
  destruct n as [data|dd]; cbn [content]; [|done]. rewrite bool_decide_eq_true_2 by done. unfold truncate. rewrite Hi.
  assert (Hgoal : exists f st', match resize try_reserve st i data 0 with (Ok _, w) => (Ok i, w) | (Err e, w) => (@Err Cpio.CpioError Z (Cpio.Filesystem e), w) end = (Ok f, st')
    /\ ready st q d name st' f (FileC []) (used st - len data)).
  { pose proof (resize_inv try_reserve None st i data 0 Hinv Hi ltac:(done)) as Hinv'. pose proof (len_nonneg data).
    assert (Hr : resize try_reserve st i data 0 = (Ok (), set_used (set_node st i (File (resized data 0))) (used st - len data + 0))).
    { unfold resize. case_if; [lia|]. unfold release, set_used. simpl. do 2 f_equal. lia. }
    rewrite Hr in *. exists i. eexists. split; [done|]. cbn [snd] in Hinv'.
    assert (resized data 0 = []) as E by (unfold resized; simpl; done). rewrite E in *.
    destruct (set_file_tree st i (q ++ [name]) data [] (used st - len data + 0) Hinv Hat Hi) as [H1 H2].
    unfold ready. rewrite !H1. split_and!; try done; [simpl; lia|]. simpl. by rewrite lookup_insert_eq. }
  exact Hgoal.
Qed.

Lemma target_directory_spec st q d name :
  inv st -> at_path st q = Some d -> tree st q = Some DirC ->
  match tree st (q ++ [name]), check_name name with
  | Some (FileC _), _ => target_directory st d name = (Err (Cpio.Filesystem ENOTDIR), st)
  | None, Err e => target_directory st d name = (Err (Cpio.Filesystem e), st)
  | _, _ => exists f st', target_directory st d name = (Ok f, st') /\ ready st q d name st' f DirC (used st)
  end.
Proof.
  intros Hinv Hq Hdir. unfold target_directory. cbn [i_lookup i_kind i_create ram_inodes].
  pose proof (lookup_path st q d name Hinv Hq Hdir) as Hl. destruct (tree st (q ++ [name])) as [c|] eqn:Htree.
  2:{ rewrite Hl. pose proof (create_ready st q d name KDirectory Hinv Hq Hdir Htree ltac:(by right)) as Hc.
      destruct (check_name name); [|by rewrite Hc]. destruct Hc as (f & st' & -> & Hr). by exists f, st'. }
  destruct Hl as (i & -> & Hat & Hn). destruct (nodes st !! i) as [n|] eqn:Hi; [|done]. cbn in Hn. injection Hn as <-. unfold kind. rewrite Hi.
  destruct n as [data|dd]; cbn [content]; [done|]. rewrite bool_decide_eq_true_2 by done. exists i, st. split; [done|].
  unfold ready. rewrite Hi. split_and!; try done. intros p. symmetry. by apply put_self.
Qed.

(** What an entry makes of a tree: directories on the way and [c] at the end. *)
Definition installed (m : list Name -> option Content) (path : list Name) (c : option Content) (p : list Name) : option Content :=
  if decide (p = path) then c else if decide (p `prefix_of` path) then Some DirC else m p.

Definition at_end (e : Cpio.Entry) (taken : bool) : option Content :=
  match Cpio.kind e with
  | Cpio.Directory => Some DirC
  | Cpio.File => if taken then Some (FileC (Cpio.data e)) else None
  end.

(** Counting an entry. *)
Definition counted (e : Cpio.Entry) (taken : bool) (u : Unpacked) : Unpacked :=
  match Cpio.kind e with
  | Cpio.Directory => u
  | Cpio.File =>
      if taken then mkUnpacked (files u + 1) (bytes u + len (Cpio.data e)) (skipped u)
      else mkUnpacked (files u) (bytes u) (skipped u ++ [(Cpio.path e, ENOSPC, len (Cpio.data e))])
  end.

(** A filesystem of [limit] bytes of which [n] are used has room for [bytes] more,
    and so has memory. *)
Definition fits (limit n bytes : Z) : bool := (n + bytes <=? limit) && ((bytes =? 0) || try_reserve bytes).

(** The bytes used after an entry. *)
Definition used_after (e : Cpio.Entry) (taken : bool) (n : Z) : Z :=
  match Cpio.kind e with Cpio.Directory => n | Cpio.File => if taken then n + len (Cpio.data e) else n end.

(** Why nothing can be put at [q ++ components]: a file where a directory is
    needed, a directory where a file is, or a name that cannot be given. *)
Fixpoint obstacle (m : list Name -> option Content) (file : bool) (q components : list Name) : option Errno :=
  match components with
  | [] => None
  | x :: rest =>
      let last := bool_decide (rest = []) && file in
      match m (q ++ [x]) with
      | Some DirC => if last then Some EISDIR else obstacle m file (q ++ [x]) rest
      | Some (FileC _) => if last then None else Some ENOTDIR
      | None => match check_name x with Err e => Some e | Ok _ => obstacle m file (q ++ [x]) rest end
      end
  end.

Lemma obstacle_ext m m' file comps : forall q, (forall p, length q < length p -> m p = m' p)%nat -> obstacle m file q comps = obstacle m' file q comps.
Proof.
  induction comps as [|x comps IH]; intros q Hm; cbn [obstacle]; [done|].
  rewrite (Hm (q ++ [x])) by (rewrite length_app; cbn; lia).
  rewrite (IH (q ++ [x])); [done|]. intros p. rewrite length_app. cbn. intros Hp. apply Hm. lia.
Qed.

Lemma installed_put m q x path c p :
  (q ++ [x]) `prefix_of` path -> installed (put m (q ++ [x]) (Some DirC)) path c p = installed m path c p.
Proof.
  intros Hp. unfold installed, put. case_decide; [done|]. case_decide; [done|]. case_decide as E; [by subst p|done].
Qed.

Lemma installed_ext m m' path c p : (forall p, m p = m' p) -> installed m path c p = installed m' path c p.
Proof. intros H. unfold installed. by rewrite H. Qed.

(** The directories on the way are there already. *)
Lemma installed_below st q x c p : inv st -> tree st q = Some DirC -> installed (tree st) (q ++ [x]) c p = put (tree st) (q ++ [x]) c p.
Proof.
  intros Hinv Hq. unfold installed, put. case_decide as Hne; [done|]. case_decide as Hp; [|done]. symmetry.
  destruct Hp as [k Hk]. destruct k as [|y k _] using rev_ind; [by rewrite (right_id_L [] (++)) in Hk|].
  rewrite (assoc_L (++)) in Hk. apply app_inj_tail in Hk as [Hk _]. destruct (decide (p = q)) as [->|]; [done|].
  apply (tree_prefix st p q Hinv); [by rewrite Hq|by exists k|done].
Qed.

Lemma installed_dir st q p : inv st -> tree st q = Some DirC -> installed (tree st) q (Some DirC) p = tree st p.
Proof.
  intros Hinv Hq. unfold installed. case_decide as Hne; [by subst|]. case_decide as Hp; [|done]. symmetry.
  apply (tree_prefix st p q Hinv); [by rewrite Hq|done|done].
Qed.

(** Writing an empty file succeeds exactly when it fits. *)
Lemma write_fits st f data :
  inv st -> limit st <= U64_MAX -> len data <= U64_MAX -> nodes st !! f = Some (File []) ->
  write_at try_reserve st f 0 data =
  if fits (limit st) (used st) (len data) then (Ok (len data), set_used (set_node st f (File data)) (used st + len data)) else (Err ENOSPC, st).
Proof.
  intros Hinv Hlim Hlen Hf. pose proof (len_nonneg data) as H0. pose proof (i_limit _ _ Hinv) as Hu. unfold write_at, fits. rewrite Hf.
  unfold checked_add at 1. rewrite Z.add_0_l. replace (len data <=? U64_MAX) with true by lia.
  change (len (@nil Z)) with 0. destruct (Z.eqb_spec (len data) 0) as [Hz|Hz].
  - assert (data = []) as -> by (destruct data; [done|unfold len in Hz; cbn in Hz; lia]). cbn [Z.gtb]. change (len (@nil Z)) with 0.
    cbn. replace (used st + 0 <=? limit st) with true by lia. cbn [andb]. rewrite Hf. do 2 f_equal. by rewrite Z.add_0_r.
  - replace (len data >? 0) with true by lia. unfold resize. change (len (@nil Z)) with 0. replace (len data >? 0) with true by lia.
    rewrite Z.sub_0_r. unfold reserve, checked_add. cbn [orb]. destruct (Z.leb_spec (used st + len data) (limit st)) as [Hle|Hgt].
    + replace (used st + len data <=? U64_MAX) with true by lia. replace (used st + len data <=? limit st) with true by lia.
      cbn [andb]. destruct (try_reserve (len data)); cbn [negb].
      * cbn [nodes set_node set_nodes set_used]. rewrite lookup_insert_eq. do 2 f_equal.
        unfold set_node, set_nodes, set_used. cbn. f_equal. rewrite insert_insert_eq. do 2 f_equal.
        unfold overwrite, resized. rewrite take_nil. cbn [app length]. rewrite drop_ge; [by rewrite (right_id_L [] (++))|].
        rewrite length_replicate. unfold len in *. lia.
      * unfold release. rewrite set_used_twice. cbn [used set_used]. rewrite Z.add_simpl_r. by rewrite set_used_id.
    + cbn [andb]. destruct (used st + len data <=? U64_MAX); [|done]. by replace (used st + len data <=? limit st) with false by lia.
Qed.

Lemma unlink_room st d name : limit (unlink st d name).2 = limit st /\
  ((forall c data, edge_of st d name = Some c -> nodes st !! c = Some (File data) -> data = []) -> (forall c, edge_of st d name = Some c -> exists data, nodes st !! c = Some (File data)) -> used (unlink st d name).2 = used st).
Proof.
  unfold unlink. destruct (dir_at st d) as [dd|] eqn:Hd; [|done]. rewrite (edge_of_dir _ _ _ _ Hd). destruct (entries dd !! name) as [c|] eqn:Hc; [|done].
  case_bool_decide; [done|]. cbn [snd]. unfold drop_ref, set_entries. rewrite Hd. set (st1 := set_node _ _ _). destruct (referenced st1 c); [done|].
  split; [by destruct (nodes st1 !! c) as [[]|]|]. intros He Hf. destruct (Hf c eq_refl) as [data Hn]. rewrite (He c data eq_refl Hn) in Hn.
  assert (nodes st1 !! c = Some (File [])) as ->; [|cbn; unfold len; cbn; lia].
  cbn. rewrite lookup_insert_ne; [done|]. intros ->. apply dir_node in Hd. congruence.
Qed.

(** The last component of a file. *)
Lemma write_leaf e st q d x f st1 u n :
  Cpio.kind e = Cpio.File -> ready st q d x st1 f (FileC []) n -> inv st -> tree st q = Some DirC ->
  limit st <= U64_MAX -> len (Cpio.data e) <= U64_MAX ->
  let taken := fits (limit st) n (len (Cpio.data e)) in
  exists st', match write_at try_reserve st1 f 0 (Cpio.data e) with
    | (Err err, w) => let '(_, w) := unlink w d x in (Ok (mkUnpacked (files u) (bytes u) (skipped u ++ [(Cpio.path e, err, len (Cpio.data e))])), w)
    | (Ok _, w) => (@Ok Cpio.CpioError _ (mkUnpacked (files u + 1) (bytes u + len (Cpio.data e)) (skipped u)), w)
    end = (Ok (counted e taken u), st') /\
  inv st' /\ root st' = root st /\ limit st' = limit st /\ used st' = used_after e taken n /\
  forall p, tree st' p = installed (tree st) (q ++ [x]) (at_end e taken) p.
Proof.
  intros Hk (Hinv1 & Hroot & Hlim & Hn & Hd & Hf & Hc & Ht) Hinv Hdir HL Hlen taken. unfold counted, at_end, used_after. rewrite Hk.
  destruct (nodes st1 !! f) as [[data|dd]|] eqn:Hnode; [|done..]. simpl in Hc. injection Hc as ->.
  pose proof (write_at_inv try_reserve st1 f 0 (Cpio.data e) Hinv1 ltac:(done)) as Hinv2.
  rewrite (write_fits st1 f (Cpio.data e)) in * by (done || by rewrite Hlim). rewrite Hlim, Hn in *. fold taken in Hinv2 |- *. destruct taken.
  - eexists. split; [done|]. cbn [snd] in Hinv2. split_and!; try done.
    destruct (set_file_tree st1 f (q ++ [x]) [] (Cpio.data e) (n + len (Cpio.data e)) Hinv1 Hf Hnode) as [_ H2].
    intros p. rewrite installed_below, H2, (put_ext _ _ _ _ _ Ht) by done. apply put_put.
  - destruct (unlink_tree st1 q d x f [] Hinv1 Hd Hf Hnode) as (H1 & H2 & H3). destruct (unlink_room st1 d x) as [H4 H5].
    assert (He : forall c, edge_of st1 d x = Some c -> c = f).
    { intros c Hc. unfold at_path in Hf, Hd. rewrite resolve_snoc, Hd in Hf. cbn [mbind option_bind] in Hf. congruence. }
    destruct (unlink st1 d x) as [r st2]. cbn [snd] in *.
    exists st2. split; [done|]. split_and!; [done|congruence|congruence| |].
    + rewrite H5; [done| |]; [intros c data Hc%He; congruence|intros c Hc%He; subst c; by exists []].
    + intros p. rewrite installed_below, H3, (put_ext _ _ _ _ _ Ht) by done. apply put_put.
Qed.

(** Whether the file of an entry is taken. *)
Definition takes (limit : Z) (m : list Name -> option Content) (n : Z) (path : list Name) (e : Cpio.Entry) : bool :=
  fits limit (n - old_len m path) (len (Cpio.data e)).
Definition is_file (e : Cpio.Entry) : bool := bool_decide (Cpio.kind e = Cpio.File).
(** The bytes used once the file that is replaced has been emptied. *)
Definition emptied (m : list Name -> option Content) (n : Z) (path : list Name) (e : Cpio.Entry) : Z := if is_file e then n - old_len m path else n.

(** What unpacking an entry does to [st], below [q]. *)
Definition entry_done e st q comps u (r : result Cpio.CpioError Unpacked) st' : Prop :=
  inv st' /\ root st' = root st /\ limit st' = limit st /\
  match obstacle (tree st) (is_file e) q comps with
  | Some err => r = Err (Cpio.Filesystem err)
  | None =>
      let taken := takes (limit st) (tree st) (used st) (q ++ comps) e in
      r = Ok (counted e taken u) /\ used st' = used_after e taken (emptied (tree st) (used st) (q ++ comps) e) /\
      forall p, tree st' p = installed (tree st) (q ++ comps) (at_end e taken) p
  end.

Lemma entry_done_below e st st1 q x f comps u r st' d :
  ready st q d x st1 f DirC (used st) -> (is_file e = true -> comps <> []) ->
  (tree st (q ++ [x]) = Some DirC \/ tree st (q ++ [x]) = None /\ check_name x = Ok ()) ->
  entry_done e st1 (q ++ [x]) comps u r st' -> entry_done e st q (x :: comps) u r st'.
Proof.
  intros (Hinv1 & Hroot & Hlim & Hus & _ & _ & _ & Ht) Hne Hx (H1 & H2 & H3 & H4). split; [done|]. split; [congruence|]. split; [congruence|].
  assert (Hlast : bool_decide (comps = []) && is_file e = false).
  { destruct (is_file e); [|by rewrite andb_false_r]. rewrite bool_decide_eq_false_2; [done|by apply Hne]. }
  cbn [obstacle]. rewrite Hlast.
  assert (Ho : obstacle (tree st) (is_file e) (q ++ [x]) comps = obstacle (tree st1) (is_file e) (q ++ [x]) comps).
  { apply obstacle_ext. intros p Hp. rewrite Ht. unfold put. rewrite decide_False; [done|]. intros ->. lia. }
  replace (match tree st (q ++ [x]) with Some (FileC _) => _ | Some DirC => _ | None => _ end) with (obstacle (tree st1) (is_file e) (q ++ [x]) comps)
    by (destruct Hx as [-> |[-> ->]]; done).
  destruct (obstacle (tree st1) (is_file e) (q ++ [x]) comps); [done|]. rewrite <- (assoc_L (++)) in H4. cbn [app] in H4.
  assert (Hold : is_file e = true -> old_len (tree st1) (q ++ x :: comps) = old_len (tree st) (q ++ x :: comps)).
  { intros Hf. unfold old_len. rewrite Ht. unfold put. rewrite decide_False; [done|]. intros E. apply (Hne Hf).
    rewrite (cons_middle x q), (assoc_L (++)) in E. apply (f_equal length) in E. rewrite length_app in E. destruct comps; [done|cbn in E; lia]. }
  rewrite Hus, Hlim in H4. unfold takes, emptied, counted, used_after, at_end, is_file in *.
  assert (Hins : forall c p, installed (tree st1) (q ++ x :: comps) c p = installed (tree st) (q ++ x :: comps) c p).
  { intros c p. rewrite (installed_ext _ _ _ _ _ Ht). apply installed_put. exists comps. by rewrite <- (assoc_L (++)). }
  destruct (Cpio.kind e) eqn:Hk.
  - rewrite Hold in H4 by done. destruct H4 as (-> & -> & H4). split_and!; try done. intros p. by rewrite H4, Hins.
  - destruct H4 as (-> & -> & H4). split_and!; try done. intros p. by rewrite H4, Hins.
Qed.

Lemma unpack_entry_spec e comps : forall st d q u,
  inv st -> at_path st q = Some d -> tree st q = Some DirC -> limit st <= U64_MAX -> len (Cpio.data e) <= U64_MAX ->
  (is_file e = true -> comps <> []) ->
  exists r st', unpack_entry e st d comps u = (r, st') /\ entry_done e st q comps u r st'.
Proof.
  induction comps as [|x comps IH]; intros st d q u Hinv Hq Hdir HL Hlen Hne; cbn [unpack_entry].
  - exists (Ok u), st. split; [done|]. unfold entry_done, counted, at_end, used_after, emptied, is_file in *. cbn [obstacle].
    destruct (Cpio.kind e); [by destruct Hne|]. split_and!; try done. intros p. rewrite (right_id_L [] (++)). symmetry. by apply installed_dir.
  - destruct (bool_decide (comps = []) && bool_decide (Cpio.kind e = Cpio.File)) eqn:Hlast.
    + pose proof Hlast as Hl2. apply andb_prop in Hl2 as [Hnil Hk]. apply bool_decide_eq_true in Hnil as ->. apply bool_decide_eq_true in Hk.
      pose proof (target_file_spec st q d x Hinv Hq Hdir) as Htf. unfold entry_done. cbn [obstacle].
      change (bool_decide (Cpio.kind e = Cpio.File)) with (is_file e) in Hlast. rewrite Hlast.
      assert (Hok : forall f st1, target_file st d x = (Ok f, st1) -> ready st q d x st1 f (FileC []) (used st - old_len (tree st) (q ++ [x])) ->
        exists r st', match target_file st d x with (Ok file, w) => match i_write_at w file 0 (Cpio.data e) with
          | (Ok _, w0) => (Ok (mkUnpacked (files u + 1) (bytes u + len (Cpio.data e)) (skipped u)), w0)
          | (Err err, w0) => let '(_, w1) := i_unlink w0 d x in (Ok (mkUnpacked (files u) (bytes u) (skipped u ++ [(Cpio.path e, err, len (Cpio.data e))])), w1) end
          | (Err err, w) => (Err err, w) end = (r, st') /\ inv st' /\ root st' = root st /\ limit st' = limit st /\
          let taken := takes (limit st) (tree st) (used st) (q ++ [x]) e in
          r = Ok (counted e taken u) /\ used st' = used_after e taken (emptied (tree st) (used st) (q ++ [x]) e) /\
          forall p, tree st' p = installed (tree st) (q ++ [x]) (at_end e taken) p).
      { intros f st1 -> Hr. destruct (write_leaf e st q d x f st1 u _ Hk Hr Hinv Hdir HL Hlen) as (st' & Hw & H1 & H2 & H3 & H4 & H5).
        exists (Ok (counted e (takes (limit st) (tree st) (used st) (q ++ [x]) e) u)), st'. split; [exact Hw|]. split_and!; try done.
        cbn zeta. unfold emptied, is_file. rewrite Hk. by split_and!. }
      destruct (tree st (q ++ [x])) as [[data|]|] eqn:Hx.
      * destruct (check_name x); destruct Htf as (f & st1 & Ht & Hr); exact (Hok f st1 Ht Hr).
      * rewrite Htf. by exists (Err (Cpio.Filesystem EISDIR)), st.
      * destruct (check_name x) as [[]|err]; [|rewrite Htf; by exists (Err (Cpio.Filesystem err)), st].
        destruct Htf as (f & st1 & Ht & Hr). exact (Hok f st1 Ht Hr).
    + pose proof (target_directory_spec st q d x Hinv Hq Hdir) as Htd.
      assert (Hne' : is_file e = true -> comps <> []).
      { unfold is_file. intros Hk ->. by rewrite Hk, bool_decide_eq_true_2 in Hlast. }
      assert (Hok : forall f st1, ready st q d x st1 f DirC (used st) -> (tree st (q ++ [x]) = Some DirC \/ tree st (q ++ [x]) = None /\ check_name x = Ok ()) ->
        exists r st', unpack_entry e st1 f comps u = (r, st') /\ entry_done e st q (x :: comps) u r st').
      { intros f st1 Hr Hx. pose proof Hr as (Hinv1 & Hroot & Hlim & _ & _ & Hf & Hn & Ht).
        destruct (IH st1 f (q ++ [x]) u Hinv1 Hf) as (r & st' & Hu & Hd'); [unfold tree; by rewrite Hf|by rewrite Hlim|done|done|].
        exists r, st'. split; [done|]. by apply (entry_done_below e st st1 q x f comps u r st' d). }
      destruct (tree st (q ++ [x])) as [[data|]|] eqn:Hx.
      * exists (Err (Cpio.Filesystem ENOTDIR)), st. rewrite Htd. split; [done|]. split_and!; try done. cbn [obstacle]. rewrite Hx. unfold is_file. by rewrite Hlast.
      * destruct (check_name x); destruct Htd as (f & st1 & -> & Hr); apply Hok; try done; by left.
      * destruct (check_name x) as [[]|err] eqn:Hcn; [|exists (Err (Cpio.Filesystem err)), st; rewrite Htd; split; [done|]; split_and!; try done; cbn [obstacle]; by rewrite Hx, Hcn].
        destruct Htd as (f & st1 & -> & Hr). apply Hok; [done|by right].
Qed.

(** ** The theorem *)

(** The entries of an archive, one after the other, on a tree of paths with [n]
    bytes used. *)
Fixpoint replay (limit : Z) (es : list Cpio.Entry) (m : list Name -> option Content) (n : Z) (u : Unpacked)
  : result Errno ((list Name -> option Content) * Z * Unpacked) :=
  match es with
  | [] => Ok (m, n, u)
  | e :: es =>
      let path := split SLASH (Cpio.path e) in
      match obstacle m (is_file e) [] path with
      | Some err => Err err
      | None =>
          let taken := takes limit m n path e in
          replay limit es (installed m path (at_end e taken)) (used_after e taken (emptied m n path e)) (counted e taken u)
      end
  end.

(** The same answer, with trees equal at every path. *)
Definition same_answer (a b : result Errno ((list Name -> option Content) * Z * Unpacked)) : Prop :=
  match a, b with
  | Ok (m, n, u), Ok (m', n', u') => (forall p, m p = m' p) /\ n = n' /\ u = u'
  | Err e, Err e' => e = e'
  | _, _ => False
  end.

Lemma replay_ext limit es : forall m m' n u, (forall p, m p = m' p) -> same_answer (replay limit es m n u) (replay limit es m' n u).
Proof.
  induction es as [|e es IH]; intros m m' n u Hm; cbn [replay]; [done|].
  rewrite (obstacle_ext m m') by (intros p _; apply Hm). destruct (obstacle m' _ _ _); [done|].
  unfold takes, emptied, old_len. rewrite Hm. apply IH. intros p. by apply installed_ext.
Qed.

Lemma unpack_entries_spec es : forall st u,
  inv st -> limit st <= U64_MAX -> Forall (fun e => len (Cpio.data e) <= U64_MAX) es ->
  exists r st', unpack_entries es st (root st) u = (r, st') /\ inv st' /\
  match replay (limit st) es (tree st) (used st) u with
  | Err err => r = Err (Cpio.Filesystem err)
  | Ok (m, n, u') => r = Ok u' /\ used st' = n /\ forall p, tree st' p = m p
  end.
Proof.
  induction es as [|e es IH]; intros st u Hinv HL Hlen; cbn [unpack_entries replay]; [by exists (Ok u), st|].
  apply Forall_cons in Hlen as [He Hes].
  destruct (unpack_entry_spec e (split SLASH (Cpio.path e)) st (root st) [] u Hinv eq_refl) as (r & st1 & Hu & H1 & H2 & H3 & H4); [|done|done|intros _; apply split_nonempty|].
  { pose proof (t_root _ _ _ _ (i_tree _ _ Hinv)) as Hr. unfold meta_of in Hr. eapply tree_dir; [done|]. destruct (dir_at st (root st)); [by eexists|done]. }
  rewrite Hu. cbn [app] in H4. destruct (obstacle (tree st) (is_file e) [] _) as [err|]; [subst r; by exists (Err (Cpio.Filesystem err)), st1|].
  cbn zeta in H4. destruct H4 as (-> & Hn & Ht). rewrite <- H2. destruct (IH st1 (counted e (takes (limit st) (tree st) (used st) (split SLASH (Cpio.path e)) e) u) H1) as (r & st' & Hr & H5 & H6); [by rewrite H3|done|].
  exists r, st'. split; [done|]. split; [done|]. rewrite H3, Hn in H6.
  pose proof (replay_ext (limit st) es _ _ (used_after e (takes (limit st) (tree st) (used st) (split SLASH (Cpio.path e)) e) (emptied (tree st) (used st) (split SLASH (Cpio.path e)) e))
    (counted e (takes (limit st) (tree st) (used st) (split SLASH (Cpio.path e)) e) u) Ht) as Hs.
  unfold same_answer in Hs. destruct (replay (limit st) es (tree st1) _ _) as [[[m n] u1]|err1], (replay _ es (installed _ _ _) _ _) as [[[m' n'] u1']|err1']; try done.
  - destruct Hs as (Hm & <- & <-), H6 as (-> & <- & H6). split_and!; try done. intros p. by rewrite H6.
  - by subst.
Qed.

Lemma parse_data_len archive es : Cpio.parse archive = Some (Ok es) -> len archive <= U64_MAX -> Forall (fun e => len (Cpio.data e) <= U64_MAX) es.
Proof.
  intros Hp Hl. destruct (CpioSpec.parse_loop_spec archive (S (length archive)) 0 []) as (r & Hr & He); [lia|apply len_nonneg|unfold len; lia|done|].
  change (Cpio.parse archive = Some r) in Hr. rewrite Hp in Hr. injection Hr as <-. eapply Forall_impl; [exact (He es eq_refl)|].
  intros e (_ & (pre & post & ->) & _). rewrite !len_app in Hl. pose proof (len_nonneg pre). pose proof (len_nonneg post). lia.
Qed.

End Unpacking.

(** C30. The root filesystem is what the archive says.  Whatever the bytes,
    [unpack] ends; bytes that are not an archive are refused and leave the
    filesystem as it was.  An archive is unpacked as replaying its entries in
    order on the tree of paths does: an entry makes the directories on its way;
    its file has exactly its data, in place of what was there, if the bytes used
    without the replaced file and its data are within the limit and memory can be
    had, and is otherwise absent and reported with [ENOSPC]; no other path changes;
    the files, bytes and skipped files counted are those.  Unpacking fails only at
    an entry with an [obstacle], with its error: a file where a directory is
    needed, a directory in a file's place or a name that cannot be given. *)
Theorem unpack_installs try_reserve (st : Ramfs) archive :
  inv st -> limit st <= U64_MAX -> len archive <= U64_MAX ->
  exists r st', unpack (inodes := ram_inodes try_reserve) st (root st) archive = Some (r, st') /\ inv st' /\
  match Cpio.parse archive with
  | Some (Ok es) =>
      match replay try_reserve (limit st) es (tree st) (used st) nothing with
      | Ok (m, n, u) => r = Ok u /\ used st' = n /\ forall p, tree st' p = m p
      | Err err => r = Err (Cpio.Filesystem err)
      end
  | Some (Err e) => r = Err e /\ st' = st
  | None => False
  end.
Proof.
  intros Hinv HL Hlen. unfold unpack. destruct (CpioSpec.parse_ends archive) as [[es|e] Hp]; rewrite Hp; [|by do 2 eexists].
  destruct (unpack_entries_spec try_reserve es st nothing Hinv HL (parse_data_len archive es Hp Hlen)) as (r & st' & -> & H1 & H2).
  by exists r, st'.
Qed.

(** ** Witness *)

(** [etc], [etc/motd] and [etc/big], which does not fit into five bytes. *)
Definition sample_archive : list Z :=
  default [] (Cpio.write [Cpio.mkMember [101; 116; 99] 16877 []; Cpio.mkMember [101; 116; 99; 47; 109] 33188 [104; 105];
                          Cpio.mkMember [101; 116; 99; 47; 98] 33188 [1; 2; 3; 4; 5; 6]]).

Lemma sample_unpacked :
  match unpack (inodes := ram_inodes (fun _ => true)) (with_limit 1 5) (root (with_limit 1 5)) sample_archive with
  | Some (Ok u, st') =>
      u = mkUnpacked 1 2 [([101; 116; 99; 47; 98], ENOSPC, 6)] /\
      tree st' [[101; 116; 99]; [109]] = Some (FileC [104; 105]) /\ tree st' [[101; 116; 99]; [98]] = None
  | _ => False
  end.
Proof. vm_compute. done. Qed.

Lemma sample_replayed : exists es m, Cpio.parse sample_archive = Some (Ok es) /\
  replay (fun _ => true) 5 es (tree (with_limit 1 5)) 0 nothing = Ok (m, 2, mkUnpacked 1 2 [([101; 116; 99; 47; 98], ENOSPC, 6)]) /\
  m [[101; 116; 99]; [109]] = Some (FileC [104; 105]).
Proof. do 2 eexists. split; [vm_compute; reflexivity|]. split; [vm_compute; reflexivity|]. vm_compute. reflexivity. Qed.

Lemma unpack_installs_witness :
  exists st', unpack (inodes := ram_inodes (fun _ => true)) (with_limit 1 5) (root (with_limit 1 5)) sample_archive
    = Some (Ok (mkUnpacked 1 2 [([101; 116; 99; 47; 98], ENOSPC, 6)]), st') /\ tree st' [[101; 116; 99]; [109]] = Some (FileC [104; 105]).
Proof.
  destruct (unpack_installs (fun _ => true) (with_limit 1 5) sample_archive) as (r & st' & Hu & _ & Hr); [apply with_limit_inv; lia|done|by vm_compute|].
  destruct sample_replayed as (es & m & Hp & Hm & Hx). rewrite Hp in Hr. change (limit (with_limit 1 5)) with 5 in Hr. change (used (with_limit 1 5)) with 0 in Hr.
  rewrite Hm in Hr. destruct Hr as (Hr & _ & Ht). exists st'. split; [by rewrite Hu, Hr|]. by rewrite Ht.
Defined.

End Ram.

End Unpack.
