(* ===== verification/Cmdline.v ===== *)
(** * Cmdline: the kernel command line
      ([cmdline.rs], [Cmdline] of [boot/boot_info.rs], the choice of [init.rs])

    A line is the list of its characters; the boot loader's copy is a list of
    bytes.  The array of parameters is the list of those in use.  The loop over
    words carries fuel; every round takes at least one character, so one more
    than the length is enough ([parse_total]).  The kernel is the one without
    the debug shell, for which [saeos.kshell] only logs a warning.

    Proved: parameters printed with quotes are parsed back from the copy made at
    boot, the first 64 of them, with the rest counted and the words after [--]
    kept for init ([boot_parameters_arrive]); that copy is always text
    ([boot_copy_text]). *)

From Stdlib Require Import String Ascii.
From stdpp Require Import base numbers list.
From S2P Require Import Prelude Errno Text.
Local Open Scope Z_scope.

Module Cmdline.

Definition text (s : string) : list Z := (fun a => Z.of_N (N_of_ascii a)) <$> list_ascii_of_string s.
Arguments text s%_string.

(** ** The copy made at boot *)

Definition COMMAND_LINE_SIZE : nat := 2048.

Definition is_ascii_whitespace (b : Z) : bool := (b =? 32) || (b =? 9) || (b =? 10) || (b =? 12) || (b =? 13).
Definition is_ascii_control (b : Z) : bool := between 0 b 31 || (b =? 127).

Fixpoint until_zero (bytes : list Z) : list Z :=
  match bytes with [] => [] | b :: bytes => if b =? 0 then [] else b :: until_zero bytes end.

Fixpoint trim_by (space : Z -> bool) (s : list Z) : list Z :=
  match s with c :: s' => if space c then trim_by space s' else s | [] => [] end.
Definition trim_both (space : Z -> bool) (s : list Z) : list Z := rev (trim_by space (rev (trim_by space s))).

(** [Utf8Error::valid_up_to]: the longest beginning that is whole characters. *)
Fixpoint valid_prefix (l : list Z) : list Z :=
  match l with
  | [] => []
  | a :: l =>
      if between 0 a 127 then a :: valid_prefix l
      else if between 194 a 223 then match l with b :: l => if cont b then a :: b :: valid_prefix l else [] | _ => [] end
      else if between 224 a 239 then
        match l with
        | b :: c :: l =>
            if (if a =? 224 then between 160 b 191 else if a =? 237 then between 128 b 159 else cont b) && cont c
            then a :: b :: c :: valid_prefix l else []
        | _ => []
        end
      else if between 240 a 244 then
        match l with
        | b :: c :: d :: l =>
            if (if a =? 240 then between 144 b 191 else if a =? 244 then between 128 b 143 else cont b) && cont c && cont d
            then a :: b :: c :: d :: valid_prefix l else []
        | _ => []
        end
      else []
  end.

(** [Cmdline::new]: the bytes of the line. *)
Definition boot_copy (bytes : list Z) : list Z :=
  (fun b => if is_ascii_control b then 32 else b)
    <$> valid_prefix (take COMMAND_LINE_SIZE (trim_both is_ascii_whitespace (until_zero bytes))).

(** ** The parser *)

Definition MAX_PARAMS : nat := 64.
Definition QUOTE : Z := 34.
Definition EQUALS : Z := 61.

(** [char::is_whitespace]: Unicode [White_Space]. *)
Definition is_whitespace (c : Z) : bool :=
  between 9 c 13 || (c =? 32) || (c =? 133) || (c =? 160) || (c =? 5760) || between 8192 c 8202
  || (c =? 8232) || (c =? 8233) || (c =? 8239) || (c =? 8287) || (c =? 12288).

Definition trim_start : list Z -> list Z := trim_by is_whitespace.
Definition trim : list Z -> list Z := trim_both is_whitespace.

Definition Param : Type := list Z * option (list Z).

Record Params := mkParams { raw : list Z; params : list Param; dropped : Z; init_text : list Z }.

Definition strip_prefix (s : list Z) : option (list Z) :=
  match s with c :: s => if c =? QUOTE then Some s else None | [] => None end.
Definition strip_suffix (s : list Z) : option (list Z) :=
  match last s with Some c => if c =? QUOTE then Some (removelast s) else None | None => None end.

Definition unquote (s : list Z) : list Z :=
  let s := default s (strip_prefix s) in default s (strip_suffix s).

(** A word ends at whitespace outside double quotes. *)
Fixpoint split_word (quoted : bool) (s : list Z) : list Z * list Z :=
  match s with
  | [] => ([], [])
  | c :: s' =>
      let quoted := if c =? QUOTE then negb quoted else quoted in
      if is_whitespace c && negb quoted then ([], s)
      else let '(w, rest) := split_word quoted s' in (c :: w, rest)
  end.

(** The parameter a word is. *)
Definition word_param (word : list Z) : Param :=
  let word := match strip_prefix word with Some inner => default inner (strip_suffix inner) | None => word end in
  match split_once EQUALS word with
  | Some (key, value) => (key, Some (unquote value))
  | None => (word, None)
  end.

Definition add_param (p : Param) (r : Params) : Params :=
  if bool_decide (p.1 = []) then r
  else if bool_decide (List.length (params r) = MAX_PARAMS) then mkParams (raw r) (params r) (dropped r + 1) (init_text r)
  else mkParams (raw r) (params r ++ [p]) (dropped r) (init_text r).

Fixpoint parse_loop (fuel : nat) (rest : list Z) (r : Params) : option Params :=
  match fuel with
  | O => None
  | S fuel =>
      let rest := trim_start rest in
      if bool_decide (rest = []) then Some r
      else
        let '(word, rest) := split_word false rest in
        if bool_decide (word = text "--") then Some (mkParams (raw r) (params r) (dropped r) (trim rest))
        else parse_loop fuel rest (add_param (word_param word) r)
  end.

Definition parse (line : list Z) : option Params := parse_loop (S (List.length line)) line (mkParams line [] 0 []).

Definition get (key : list Z) (r : Params) : option (list Z) :=
  last (omap (fun p : Param => if bool_decide (p.1 = key) then p.2 else None) (params r)).
Definition flag (name : list Z) (r : Params) : bool := bool_decide (Exists (fun p : Param => p = (name, None)) (params r)).

(** [str::split_whitespace]. *)
Fixpoint split_whitespace (word s : list Z) : list (list Z) :=
  match s with
  | [] => match word with [] => [] | _ => [word] end
  | c :: s =>
      if is_whitespace c then match word with [] => split_whitespace [] s | _ => word :: split_whitespace [] s end
      else split_whitespace (word ++ [c]) s
  end.
Definition init_args (r : Params) : list (list Z) := split_whitespace [] (init_text r).

(** ** What the kernel does with it *)

Inductive Level := Error | Warn | Info | Debug.

(** [str::parse::<u8>]. *)
Fixpoint parse_digits (ds : list Z) (n : Z) : option Z :=
  match ds with
  | [] => Some n
  | d :: ds => if between 48 d 57 then parse_digits ds (10 * n + (d - 48)) else None
  end.
Definition parse_u8 (s : list Z) : option Z :=
  match (match s with c :: ds => if c =? 43 then ds else s | [] => s end) with
  | [] => None
  | ds => match parse_digits ds 0 with Some n => if n <=? 255 then Some n else None | None => None end
  end.

Definition level_name (value : list Z) : option (list Z) :=
  if bool_decide (value ∈ [text "error"; text "warn"; text "info"; text "debug"]) then Some value
  else
    match parse_u8 value with
    | None => None
    | Some n => Some (if n <=? 4 then text "error" else if n <=? 6 then text "warn" else if n =? 7 then text "info" else text "debug")
    end.

Definition parse_level (name : list Z) : option Level :=
  if bool_decide (name = text "error") then Some Error else if bool_decide (name = text "warn") then Some Warn
  else if bool_decide (name = text "info") then Some Info else if bool_decide (name = text "debug") then Some Debug else None.

(** The log threshold after [init]. *)
Definition init_level (r : Params) (level : Level) : Level :=
  let level := if flag (text "quiet") r then Warn else level in
  match get (text "loglevel") r with
  | Some value => match (match level_name value with Some n => parse_level n | None => None end) with Some l => l | None => level end
  | None => level
  end.

(** [kernel_init]: which programs are tried, in order; [run_init] gives the
    error of a program that could not start and does not return otherwise. *)
Definition DEFAULT_INITS : list (list Z) := [text "/sbin/init"; text "/etc/init"; text "/bin/init"; text "/bin/sh"].

Fixpoint try_inits (run_init : list Z -> list (list Z) -> option Errno) (args : list (list Z)) (paths : list (list Z)) : option (list Z) :=
  match paths with
  | [] => None
  | path :: paths => match run_init path args with None => Some path | Some _ => try_inits run_init args paths end
  end.

(** The program that runs, or [None] for the panic. *)
Definition kernel_init (run_init : list Z -> list (list Z) -> option Errno) (r : Params) : option (list Z) :=
  match get (text "init") r with
  | Some path => try_inits run_init (init_args r) [path]
  | None => try_inits run_init (init_args r) DEFAULT_INITS
  end.

(** ** Printing parameters *)

Definition plain (c : Z) : Prop := is_whitespace c = false /\ c <> QUOTE.

Definition good_param (p : Param) : Prop :=
  p.1 <> [] /\ Forall plain p.1 /\ (EQUALS ∉ p.1) /\
  match p.2 with None => p.1 <> text "--" | Some v => (QUOTE ∉ v) end.

Definition print_param (p : Param) : list Z :=
  p.1 ++ match p.2 with None => [] | Some v => EQUALS :: QUOTE :: v ++ [QUOTE] end.
Definition print_params (ps : list Param) : list Z := concat ((fun p => print_param p ++ [32]) <$> ps).
(** A line: parameters, then perhaps [--] and what init is given. *)
Definition print_line (ps : list Param) (args : option (list Z)) : list Z :=
  print_params ps ++ match args with Some a => text "--" ++ 32 :: a | None => [] end.

(** ** Words *)

Lemma split_word_plain w s : Forall plain w -> split_word false (w ++ s) = let '(w', r) := split_word false s in (w ++ w', r).
Proof.
  induction 1 as [|c w [Hc Hq] _ IH]; simpl; [by destruct (split_word false s)|].
  apply Z.eqb_neq in Hq. rewrite Hq, Hc, IH. simpl. by destruct (split_word false s).
Qed.

Lemma split_word_quoted v s :
  (QUOTE ∉ v) -> split_word true (v ++ QUOTE :: s) = let '(w, r) := split_word false s in (v ++ QUOTE :: w, r).
Proof.
  induction v as [|c v IH]; intros Hv; [done|]. apply not_elem_of_cons in Hv as [Hc Hv].
  cbn [app split_word]. destruct (Z.eqb_spec c QUOTE); [done|]. rewrite andb_false_r, IH by done.
  by destruct (split_word false s).
Qed.

Lemma split_word_print p s : good_param p -> split_word false (print_param p ++ 32 :: s) = (print_param p, 32 :: s).
Proof.
  destruct p as [k [v|]]; intros (_ & Hk & _ & Hv); unfold print_param; cbn [fst snd] in *.
  - rewrite <- app_assoc, split_word_plain by done. cbn [app]. rewrite <- app_assoc. cbn [app].
    cbn [split_word]. cbn -[split_word]. by rewrite split_word_quoted.
  - rewrite app_nil_r, split_word_plain by done. cbn. by rewrite app_nil_r.
Qed.

Lemma word_param_print p : good_param p -> word_param (print_param p) = p.
Proof.
  destruct p as [[|c k] v]; intros (Hne & Hk & Heq & Hv); [done|]. cbn [fst snd] in *.
  assert (Hs : forall t, strip_prefix ((c :: k) ++ t) = None).
  { intros t. simpl. apply Forall_cons in Hk as [[_ Hq] _]. by apply Z.eqb_neq in Hq as ->. }
  unfold word_param, print_param. cbn [fst snd]. rewrite Hs. destruct v as [v|].
  - rewrite split_once_app by done. unfold unquote, strip_suffix. cbn. by rewrite last_snoc, Z.eqb_refl, removelast_last.
  - by rewrite app_nil_r, split_once_none.
Qed.

Lemma print_param_starts p : good_param p -> exists c w, print_param p = c :: w /\ is_whitespace c = false.
Proof.
  destruct p as [[|c k] v]; intros (Hne & Hk & _); [done|]. cbn [fst snd] in *.
  apply Forall_cons in Hk as [[Hc _] _]. by eexists c, _.
Qed.

Lemma print_param_not_end p : good_param p -> print_param p <> text "--".
Proof.
  destruct p as [k [v|]]; intros (_ & Hk & Heq & Hv); unfold print_param; cbn [fst snd] in *; [|by rewrite app_nil_r].
  intros H. assert (Hin : EQUALS ∈ text "--"); [rewrite <- H; apply elem_of_app; right; left|].
  revert Hin. change (text "--") with [45; 45]. unfold EQUALS. rewrite !elem_of_cons, elem_of_nil. lia.
Qed.

(** ** The loop *)

Definition add_params (ps : list Param) (r : Params) : Params := foldl (fun r p => add_param p r) r ps.

Lemma add_params_spec ps r :
  Forall good_param ps -> (List.length (params r) <= MAX_PARAMS)%nat ->
  add_params ps r = mkParams (raw r) (take MAX_PARAMS (params r ++ ps))
                      (dropped r + Z.of_nat (List.length (params r) + List.length ps - MAX_PARAMS)) (init_text r).
Proof.
  intros Hps. revert r. induction Hps as [|p ps Hp Hps IH]; intros r Hr.
  - rewrite app_nil_r, take_ge by done. destruct r. cbn in *. f_equal. lia.
  - change (add_params (p :: ps) r) with (add_params ps (add_param p r)). unfold add_param.
    rewrite bool_decide_eq_false_2 by apply Hp. case_bool_decide as Hl; rewrite IH; cbn [raw params dropped init_text].
    + f_equal; [|cbn [List.length]; lia]. by rewrite !take_app_le by lia.
    + done.
    + rewrite <- app_assoc. f_equal. rewrite length_app. cbn [List.length]. lia.
    + rewrite length_app. cbn [List.length]. lia.
Qed.

Lemma parse_loop_space fuel s r : parse_loop fuel (32 :: s) r = parse_loop fuel s r.
Proof. by destruct fuel. Qed.

Lemma parse_loop_print ps fuel s r :
  Forall good_param ps -> parse_loop (List.length ps + fuel) (print_params ps ++ s) r = parse_loop fuel s (add_params ps r).
Proof.
  intros Hps. revert r. induction Hps as [|p ps Hp Hps IH]; intros r; [done|].
  change (print_params (p :: ps)) with ((print_param p ++ [32]) ++ print_params ps).
  rewrite <- !app_assoc. cbn [List.length Nat.add app].
  cbn [parse_loop]. destruct (print_param_starts p Hp) as (c & w & Hw & Hc).
  assert (Htr : trim_start (print_param p ++ 32 :: print_params ps ++ s) = print_param p ++ 32 :: print_params ps ++ s).
  { rewrite Hw. cbn. by rewrite Hc. }
  rewrite Htr, bool_decide_eq_false_2 by (rewrite Hw; done). rewrite split_word_print by done.
  rewrite bool_decide_eq_false_2 by by apply print_param_not_end. rewrite parse_loop_space, IH.
  by rewrite word_param_print.
Qed.

Lemma length_print_params ps : (List.length ps <= List.length (print_params ps))%nat.
Proof.
  induction ps as [|p ps IH]; [done|]. change (print_params (p :: ps)) with ((print_param p ++ [32]) ++ print_params ps).
  rewrite !length_app. cbn [List.length]. lia.
Qed.

(** Every line is parsed: each round of the loop takes a character. *)
Lemma trim_start_length s : (List.length (trim_start s) <= List.length s)%nat.
Proof. induction s as [|c s IH]; [done|]. change (trim_start (c :: s)) with (if is_whitespace c then trim_start s else c :: s). destruct (is_whitespace c); cbn [List.length]; lia. Qed.

Lemma trim_start_head s c t : trim_start s = c :: t -> is_whitespace c = false.
Proof.
  induction s as [|d s IH]; [done|]. change (trim_start (d :: s)) with (if is_whitespace d then trim_start s else d :: s).
  destruct (is_whitespace d) eqn:Hd; [apply IH|]. by intros [= -> ->].
Qed.

Lemma split_word_length q s : (List.length (split_word q s).2 <= List.length s)%nat.
Proof.
  revert q. induction s as [|c s IH]; intros q; [done|]. cbn [split_word]. destruct (is_whitespace c && _); [done|].
  specialize (IH (if c =? QUOTE then negb q else q)). destruct (split_word _ s). cbn in *. lia.
Qed.

Lemma split_word_takes c s : is_whitespace c = false -> (List.length (split_word false (c :: s)).2 < List.length (c :: s))%nat.
Proof.
  intros Hc. cbn [split_word]. rewrite Hc, andb_false_l.
  pose proof (split_word_length (if c =? QUOTE then negb false else false) s). destruct (split_word _ s). cbn in *. lia.
Qed.

Lemma parse_loop_total fuel s r : (List.length s < fuel)%nat -> is_Some (parse_loop fuel s r).
Proof.
  revert s r. induction fuel as [|fuel IH]; intros s r Hl; [lia|]. cbn [parse_loop]. pose proof (trim_start_length s) as Ht.
  case_bool_decide as He; [done|].
  assert (Hw : (List.length (split_word false (trim_start s)).2 < List.length (trim_start s))%nat).
  { destruct (trim_start s) as [|c t] eqn:Hs; [done|]. by eapply split_word_takes, trim_start_head. }
  destruct (split_word false (trim_start s)) as [w rest]. cbn [snd] in Hw. case_bool_decide; [done|]. apply IH. lia.
Qed.

Lemma parse_total line : is_Some (parse line).
Proof. apply parse_loop_total. lia. Qed.

(** Parameters printed on a line are parsed back. *)
Lemma params_parse_print ps args :
  Forall good_param ps ->
  parse (print_line ps args) =
  Some (mkParams (print_line ps args) (take MAX_PARAMS ps) (Z.of_nat (List.length ps - MAX_PARAMS)) (default [] (trim <$> args))).
Proof.
  intros Hps. unfold parse. pose proof (length_print_params ps) as Hlen.
  set (tail := match args with Some a => text "--" ++ 32 :: a | None => [] end).
  set (r0 := mkParams (print_line ps args) [] 0 []).
  assert (Hf : exists f, S (List.length (print_line ps args)) = (List.length ps + S f)%nat).
  { exists (List.length (print_line ps args) - List.length ps)%nat. unfold print_line. rewrite length_app. lia. }
  destruct Hf as [f ->]. change (print_line ps args) with (print_params ps ++ tail) at 1.
  rewrite parse_loop_print by done. rewrite add_params_spec by (done || (cbn; lia)).
  destruct args as [a|]; [|done]. subst tail. cbn [app parse_loop].
  change (trim_start (text "--" ++ 32 :: a)) with (45 :: 45 :: 32 :: a). done.
Qed.

(** The last value given for a key is the one it has. *)
Lemma get_last key v before after r :
  params r = before ++ (key, Some v) :: after -> Forall (fun p : Param => p.1 = key -> p.2 = None) after -> get key r = Some v.
Proof.
  intros Hp Ha. unfold get. rewrite Hp, omap_app. cbn. rewrite bool_decide_eq_true_2 by done.
  assert (Hn : omap (fun p : Param => if bool_decide (p.1 = key) then p.2 else None) after = []).
  { clear Hp. induction Ha as [|p after Hpk _ IH]; [done|]. cbn. case_bool_decide as Hk; [rewrite (Hpk Hk)|]; exact IH. }
  rewrite Hn. apply last_snoc.
Qed.

(** ** The copy made at boot is text *)

Definition printable (b : Z) : Z := if is_ascii_control b then 32 else b.

Lemma printable_high b : 128 <= b -> printable b = b.
Proof. unfold printable, is_ascii_control, between. intros. destruct (Z.leb_spec b 31), (Z.eqb_spec b 127); rewrite ?andb_false_r; cbn; lia. Qed.

Lemma printable_low b : between 0 b 127 = true -> 32 <= printable b <= 126.
Proof. unfold printable, is_ascii_control, between. intros. destruct (Z.leb_spec 0 b), (Z.leb_spec b 31), (Z.eqb_spec b 127); cbn in *; lia. Qed.

Lemma between_true lo b hi : between lo b hi = true <-> lo <= b <= hi.
Proof. unfold between. rewrite andb_true_iff, !Z.leb_le. done. Qed.

Lemma cont_high b : cont b = true -> printable b = b.
Proof. intros [Hb _]%between_true. apply printable_high. lia. Qed.

Lemma second_high a b x y lo hi lo' hi' :
  (if a =? x then between lo b hi else if a =? y then between lo' b hi' else cont b) = true ->
  128 <= lo -> 128 <= lo' -> printable b = b.
Proof.
  intros Hb Hlo Hlo'. destruct (a =? x); [|destruct (a =? y); [|by apply cont_high]]; apply between_true in Hb as [Hb _]; apply printable_high; lia.
Qed.

Lemma utf8_printable n l : (List.length l <= n)%nat -> utf8 (printable <$> valid_prefix l) = true.
Proof.
  revert l. induction n as [|n IH]; intros [|a l] Hl; [done|cbn in Hl; lia|done|]. cbn [List.length] in Hl. cbn [valid_prefix].
  destruct (between 0 a 127) eqn:H1.
  { cbn [fmap list_fmap utf8]. pose proof (printable_low _ H1). destruct (between 0 (printable a) 127) eqn:E.
    - apply IH. lia.
    - exfalso. assert (between 0 (printable a) 127 = true) by (apply between_true; lia). congruence. }
  assert (Ha : printable a = a \/ (between 194 a 223 = false /\ between 224 a 239 = false /\ between 240 a 244 = false)).
  { destruct (Z.le_gt_cases 128 a); [left; by apply printable_high|right]. unfold between.
    repeat split; apply andb_false_iff; left; apply Z.leb_gt; lia. }
  destruct Ha as [Ha|(-> & -> & ->)]; [|done].
  destruct (between 194 a 223) eqn:H2.
  { destruct l as [|b l]; [done|]. destruct (cont b) eqn:Hb; [|done]. cbn [fmap list_fmap utf8].
    rewrite Ha, H1, H2, (cont_high b Hb), Hb. apply IH. cbn in Hl. lia. }
  destruct (between 224 a 239) eqn:H3.
  { destruct l as [|b [|c l]]; [done|done|]. destruct (_ && cont c) eqn:Hbc; [|done]. apply andb_prop in Hbc as [Hb Hc].
    cbn [fmap list_fmap utf8]. rewrite Ha, H1, H2, H3, (cont_high c Hc), (second_high _ _ _ _ _ _ _ _ Hb ltac:(lia) ltac:(lia)), Hb, Hc.
    apply IH. cbn in Hl. lia. }
  destruct (between 240 a 244) eqn:H4; [|done].
  destruct l as [|b [|c [|d l]]]; [done|done|done|]. destruct (_ && cont c && cont d) eqn:Hbc; [|done].
  apply andb_prop in Hbc as [[Hb Hc]%andb_prop Hd].
  cbn [fmap list_fmap utf8].
  rewrite Ha, H1, H2, H3, H4, (cont_high c Hc), (cont_high d Hd), (second_high _ _ _ _ _ _ _ _ Hb ltac:(lia) ltac:(lia)), Hb, Hc, Hd.
  apply IH. cbn in Hl. lia.
Qed.

Lemma valid_prefix_prefix n l : (List.length l <= n)%nat -> valid_prefix l `prefix_of` l.
Proof.
  revert l. induction n as [|n IH]; intros [|a l] Hl; [done|cbn in Hl; lia|done|]. cbn [List.length] in Hl. cbn [valid_prefix].
  destruct (between 0 a 127); [apply prefix_cons, IH; lia|].
  destruct (between 194 a 223).
  { destruct l as [|b l]; [apply prefix_nil|]. destruct (cont b); [|apply prefix_nil].
    do 2 apply prefix_cons. apply IH. cbn in Hl. lia. }
  destruct (between 224 a 239).
  { destruct l as [|b [|c l]]; [apply prefix_nil..|]. destruct (_ && cont c); [|apply prefix_nil].
    do 3 apply prefix_cons. apply IH. cbn in Hl. lia. }
  destruct (between 240 a 244); [|apply prefix_nil].
  destruct l as [|b [|c [|d l]]]; [apply prefix_nil..|]. destruct (_ && cont c && cont d); [|apply prefix_nil].
  do 4 apply prefix_cons. apply IH. cbn in Hl. lia.
Qed.

Lemma printable_control b : is_ascii_control (printable b) = false.
Proof. unfold printable. destruct (is_ascii_control b) eqn:Hb; [done|done]. Qed.

(** Text that needs no change is copied as it is. *)
Lemma valid_prefix_utf8 n l : (List.length l <= n)%nat -> utf8 l = true -> valid_prefix l = l.
Proof.
  revert l. induction n as [|n IH]; intros [|a l] Hl; [done|cbn in Hl; lia|done|]. cbn [List.length] in Hl. cbn [valid_prefix utf8].
  destruct (between 0 a 127); [intros; f_equal; apply IH; [lia|done]|].
  destruct (between 194 a 223).
  { destruct l as [|b l]; [done|]. intros [-> H]%andb_prop. do 2 f_equal. apply IH; [cbn in Hl; lia|done]. }
  destruct (between 224 a 239).
  { destruct l as [|b [|c l]]; [done..|]. intros [-> H]%andb_prop. do 3 f_equal. apply IH; [cbn in Hl; lia|done]. }
  destruct (between 240 a 244); [|done].
  destruct l as [|b [|c [|d l]]]; [done..|]. intros [-> H]%andb_prop. do 4 f_equal. apply IH; [cbn in Hl; lia|done].
Qed.

(** Whatever the boot loader left, the copy is text of bounded length with no control characters. *)
Lemma boot_copy_text bytes :
  utf8 (boot_copy bytes) = true /\ (List.length (boot_copy bytes) <= COMMAND_LINE_SIZE)%nat /\
  Forall (fun b => is_ascii_control b = false) (boot_copy bytes).
Proof.
  unfold boot_copy. change (fun b => if is_ascii_control b then 32 else b) with printable.
  set (l := take COMMAND_LINE_SIZE _). split; [by eapply utf8_printable|]. split.
  - rewrite length_fmap. etransitivity; [apply prefix_length, (valid_prefix_prefix (List.length l)); done|].
    subst l. rewrite length_take. lia.
  - apply Forall_fmap, Forall_true. intros b. apply printable_control.
Qed.

Definition ascii_text (l : list Z) : Prop := Forall (fun b => 32 <= b <= 126) l.

Lemma until_zero_app l junk : ascii_text l -> until_zero (l ++ 0 :: junk) = l.
Proof.
  induction 1 as [|b l Hb _ IH]; [done|]. cbn [app until_zero]. destruct (Z.eqb_spec b 0); [cbn in Hb; lia|]. by rewrite IH.
Qed.

Lemma trim_by_id space s : (forall c, head s = Some c -> space c = false) -> trim_by space s = s.
Proof. destruct s as [|c s]; [done|]. intros H. simpl. by rewrite H. Qed.

Lemma trim_both_id space s :
  (forall c, head s = Some c -> space c = false) -> (forall c, last s = Some c -> space c = false) -> trim_both space s = s.
Proof.
  intros Hh Hl. unfold trim_both. rewrite (trim_by_id space s Hh), trim_by_id; [apply rev_involutive|].
  intros c. destruct s as [|b s _] using rev_ind; [done|]. rewrite rev_app_distr. cbn. intros [= ->]. apply Hl. apply last_snoc.
Qed.

(** A line that is plain text already is copied as it is. *)
Lemma boot_copy_id l junk :
  ascii_text l -> (List.length l <= COMMAND_LINE_SIZE)%nat -> (forall c, head l = Some c -> is_ascii_whitespace c = false) ->
  (forall c, last l = Some c -> is_ascii_whitespace c = false) -> boot_copy (l ++ 0 :: junk) = l.
Proof.
  intros Ha Hn Hh Hl. unfold boot_copy. rewrite until_zero_app, trim_both_id, take_ge by done.
  erewrite valid_prefix_utf8; [|done|apply utf8_ascii; eapply Forall_impl; [exact Ha|cbn; lia]].
  clear Hn Hh Hl. induction Ha as [|b l Hb _ IH]; [done|]. cbn [fmap list_fmap]. f_equal; [|exact IH].
  change (printable b = b). unfold printable, is_ascii_control, between.
  destruct (Z.leb_spec b 31), (Z.eqb_spec b 127); rewrite ?andb_false_r; cbn in *; lia.
Qed.

Lemma ascii_whitespace_is c : is_whitespace c = false -> is_ascii_whitespace c = false.
Proof.
  unfold is_whitespace, is_ascii_whitespace. rewrite !orb_false_iff. intros H. destruct_and! H. unfold between in *.
  repeat split; apply Z.eqb_neq; intros ->; done.
Qed.

Lemma print_line_head ps a c : Forall good_param ps -> head (print_line ps (Some a)) = Some c -> is_ascii_whitespace c = false.
Proof.
  intros [|p ps' Hp _]; [by intros [= <-]|]. destruct (print_param_starts p Hp) as (d & w & Hw & Hd).
  unfold print_line, print_params. cbn [fmap list_fmap concat]. rewrite Hw. intros [= <-]. by apply ascii_whitespace_is.
Qed.

Lemma print_line_last ps a c : last (print_line ps (Some a)) = Some c -> a = [] \/ last a = Some c.
Proof.
  destruct a as [|x a _] using rev_ind; [by left|right]. revert H. unfold print_line.
  change (32 :: a ++ [x]) with ((32 :: a) ++ [x]). rewrite !app_assoc, !last_snoc. done.
Qed.

(** C31. Parameters written on the boot line reach the kernel: the line is copied
    out of the boot loader's memory up to its end, the first 64 parameters are
    parsed back with their values whatever spaces these hold, the others are
    counted, and what follows [--] is kept for init; a key has the last value
    given for it, and the program [init] names is the only one tried. *)
Theorem boot_parameters_arrive ps a junk :
  Forall good_param ps -> a <> [] -> (forall c, last a = Some c -> is_ascii_whitespace c = false) ->
  ascii_text (print_line ps (Some a)) -> (List.length (print_line ps (Some a)) <= COMMAND_LINE_SIZE)%nat ->
  exists r,
    parse (boot_copy (print_line ps (Some a) ++ 0 :: junk)) = Some r /\
    params r = take MAX_PARAMS ps /\ dropped r = Z.of_nat (List.length ps - MAX_PARAMS) /\ init_text r = trim a /\
    (forall before key v after, params r = before ++ (key, Some v) :: after ->
       Forall (fun p : Param => p.1 = key -> p.2 = None) after ->
       get key r = Some v /\
       (key = text "init" -> forall run_init,
          kernel_init run_init r = match run_init v (split_whitespace [] (trim a)) with None => Some v | Some _ => None end)).
Proof.
  intros Hps Hne Hl Ha Hn. eexists. rewrite boot_copy_id; [|done..| |].
  - split; [by apply params_parse_print|]. do 3 (split; [done|]). intros before key v after Hp Haf.
    pose proof (get_last _ _ _ _ _ Hp Haf) as Hg. split; [done|]. intros ->. intros run. unfold kernel_init. by rewrite Hg.
  - intros c. by apply print_line_head.
  - intros c [|H]%print_line_last; [done|by apply Hl].
Qed.

(** Two parameters and two words for init, with what follows the end of the line. *)
Lemma boot_parameters_arrive_witness :
  exists r, parse (boot_copy (print_line [(text "quiet", None); (text "init", Some (text "/bin/a b"))] (Some (text "x y")) ++ [0; 255])) = Some r
            /\ init_text r = text "x y" /\ kernel_init (fun _ _ => None) r = Some (text "/bin/a b").
Proof.
  destruct (boot_parameters_arrive [(text "quiet", None); (text "init", Some (text "/bin/a b"))] (text "x y") [255]) as (r & Hr & Hp & _ & Hi & Hg).
  - repeat constructor; cbn; try done; try (vm_compute; intros H; discriminate H); try by apply (bool_decide_unpack _).
  - done.
  - intros c H. vm_compute in H. injection H as <-. done.
  - vm_compute. repeat constructor; intros H; discriminate H.
  - apply Nat.leb_le. vm_compute. done.
  - exists r. split; [exact Hr|]. split; [rewrite Hi; vm_compute; done|]. 
    destruct (Hg [(text "quiet", None)] (text "init") (text "/bin/a b") []) as [_ Hk]; [rewrite Hp; done|constructor|].
    rewrite (Hk eq_refl). done.
Defined.

End Cmdline.
