(* ===== verification/SoundCard.v ===== *)
(** * SoundCard: the sound core
      ([sound/mod.rs])

    [Card] with its buffer, its ring ([SoundRing]) and the period being staged,
    over the class [AudioDevice]; [DspHandle]'s writes convert samples
    ([SoundFormat]) into the staged period.  The buffer is the list of its
    bytes.  [None] is a failed assertion or a slice out of range.  The time is an
    argument.  What the source runs under the card's lock is a step: the card
    plays on between the steps, not within one.

    The class states the driver's obligation (the card plays what was submitted,
    in order, and stops after it) by the hardware [Sound.Card] that a driver's
    state shows.

    Proved: buffer, ring and staging are a queue of periods: what is heard, what
    is queued and what is staged are, in this order, the bytes written; whatever
    is not queued is silence; over any writes, polls and progress of the card,
    what is heard is the beginning of the exact conversion of what was written. *)

From stdpp Require Import base numbers list.
From S2P Require Import Prelude Text SoundRing SoundFormat.
Local Open Scope nat_scope.

Module SoundCard.
Import Sound.

(** ** The device *)

Class AudioDevice (D : Type) := {
  rate_for : D -> Z -> Z;
  set_rate : D -> Z -> Z * D;
  dev_start : D -> nat -> D;
  dev_submit : D -> nat -> D;
  dev_status : D -> Status * D;
  dev_stop : D -> D }.

(** What drivers promise: the device is a card that plays what it is given; [play] is the end of a period. *)
Class AudioLaws (D : Type) (dev : AudioDevice D) := {
  hardware : D -> Sound.Card;
  play : D -> D;
  play_law : forall d, hardware (play d) = card_advance (hardware d);
  start_law : forall d last, hardware (dev_start d last) = Sound.mkCard 0 last false;
  submit_law : forall d last, hardware (dev_submit d last) = Sound.mkCard (cur (hardware d)) last (halted (hardware d));
  status_law : forall d, (dev_status d).1 = Sound.status (hardware d) /\ hardware (dev_status d).2 = hardware d;
  stop_law : forall d, hardware (dev_stop d) = Sound.mkCard (cur (hardware d)) (last_valid (hardware d)) true }.

Definition STALL_MS : Z := 1000.

Section Core.
Context {D : Type} {dev : AudioDevice D}.

Record Card := mkCard {
  device : D; buffer : list Z; ring : Ring; rate : Z; requested_rate : Z; is_open : bool; draining : bool; quiet : bool;
  underruns : Z; staging : list Z; progress_at : Z; stalls : Z }.

Definition with_device (c : Card) (d : D) : Card :=
  mkCard d (buffer c) (ring c) (rate c) (requested_rate c) (is_open c) (draining c) (quiet c) (underruns c) (staging c) (progress_at c) (stalls c).
Definition with_ring (c : Card) (r : Ring) : Card :=
  mkCard (device c) (buffer c) r (rate c) (requested_rate c) (is_open c) (draining c) (quiet c) (underruns c) (staging c) (progress_at c) (stalls c).
Definition with_buffer (c : Card) (b : list Z) : Card :=
  mkCard (device c) b (ring c) (rate c) (requested_rate c) (is_open c) (draining c) (quiet c) (underruns c) (staging c) (progress_at c) (stalls c).
Definition with_staging (c : Card) (b : list Z) : Card :=
  mkCard (device c) (buffer c) (ring c) (rate c) (requested_rate c) (is_open c) (draining c) (quiet c) (underruns c) b (progress_at c) (stalls c).
Definition with_quiet (c : Card) (q : bool) : Card :=
  mkCard (device c) (buffer c) (ring c) (rate c) (requested_rate c) (is_open c) (draining c) q (underruns c) (staging c) (progress_at c) (stalls c).
Definition with_progress (c : Card) (now : Z) : Card :=
  mkCard (device c) (buffer c) (ring c) (rate c) (requested_rate c) (is_open c) (draining c) (quiet c) (underruns c) (staging c) now (stalls c).
Definition with_open (c : Card) (o : bool) : Card :=
  mkCard (device c) (buffer c) (ring c) (rate c) (requested_rate c) o (draining c) (quiet c) (underruns c) (staging c) (progress_at c) (stalls c).

(** Bytes copied over the middle of others. *)
Definition splice (out : list Z) (at_ : nat) (bytes : list Z) : list Z := take at_ out ++ bytes ++ drop (at_ + length bytes) out.

Definition silence (n : nat) : list Z := replicate n 0%Z.

Definition apply (a : Action) (c : Card) : Card :=
  match a with
  | ActNone => c
  | Start last => with_device c (dev_start (device c) last)
  | Submit last => with_device c (dev_submit (device c) last)
  end.

Definition reset (now : Z) (c : Card) : Card :=
  mkCard (dev_stop (device c)) (silence (length (buffer c))) (Sound.reset (ring c)) (rate c) (requested_rate c) (is_open c) (draining c) false
    (underruns c) (staging c) now (stalls c).

(** The periods [first..first + count], each modulo [PERIODS], are silenced. *)
Fixpoint silence_periods (first count : nat) (b : list Z) : list Z :=
  match count with
  | O => b
  | S count => silence_periods (S first) count (splice b ((first mod PERIODS) * PERIOD_BYTES) (silence PERIOD_BYTES))
  end.

Definition poll (now : Z) (c : Card) : Card :=
  let '(status, d) := dev_status (device c) in
  let '(u, r) := update (ring c) status in
  let c := with_ring (with_device c d) r in
  let moved := (match finished u with Some _ => true | None => false end) || negb (running r) in
  if negb moved && (STALL_MS <? Z.max 0 (now - progress_at c))%Z
  then let c := reset now c in
       mkCard (device c) (buffer c) (ring c) (rate c) (requested_rate c) (is_open c) (draining c) (quiet c) (underruns c) (staging c) (progress_at c) (stalls c + 1)
  else
    let c := if moved then with_progress c now else c in
    let c := if up_halted u
             then mkCard (device c) (buffer c) (ring c) (rate c) (requested_rate c) (is_open c) (draining c) true
                    (if is_open c && negb (draining c) then underruns c + 1 else underruns c)%Z (staging c) (progress_at c) (stalls c)
             else c in
    match finished u with Some (first, count) => with_buffer c (silence_periods first count (buffer c)) | None => c end.

Definition commit_staged (offset produced : nat) (c : Card) : option Card :=
  let period := offset / PERIOD_BYTES in let within := offset mod PERIOD_BYTES in
  let c :=
    if within + produced =? PERIOD_BYTES then
      let c := if quiet c then with_device (with_quiet c false) (dev_stop (device c)) else c in
      with_buffer c (splice (buffer c) (period * PERIOD_BYTES) (staging c))
    else c in
  match commit (ring c) produced with
  | Some (action, r) => Some (apply action (with_ring c r))
  | None => None
  end.

(** Bytes of the program's format not yet heard, and how long to wait for some of them. *)
Definition delay (c : Card) (f : Format.Format) : Z :=
  let card_bytes := (queued (ring c) * PERIOD_BYTES + fill_bytes (ring c)) in
  let card_frames := Z.of_nat (card_bytes / Format.OUTPUT_FRAME) in
  (card_frames * Format.rate f / Z.max (rate c) 1 * Z.of_nat (Format.frame_bytes f))%Z.

Definition wait_ms (c : Card) : Z :=
  Z.max (Z.of_nat (PERIOD_BYTES / Format.OUTPUT_FRAME) * 1000 / Z.max (rate c) 1 / 2) 1.

Definition flush (c : Card) : option Card :=
  let c :=
    match padding (ring c) with
    | Some (offset, length) => commit_staged offset length (with_staging c (splice (staging c) (offset mod PERIOD_BYTES) (silence length)))
    | None => Some c
    end in
  match c with
  | Some c => let '(action, r) := start (ring c) in Some (apply action (with_ring c r))
  | None => None
  end.

(** A round of [drain]: the card, and whether it is still busy. *)
Definition drain_round (now : Z) (c : Card) : option (Card * bool) :=
  match flush (poll now c) with
  | Some c => Some (c, running (ring c) || (0 <? queued (ring c)) || (0 <? fill_bytes (ring c)))
  | None => None
  end.

Definition close (now : Z) (c : Card) : option Card :=
  match flush (poll now c) with Some c => Some (with_open c false) | None => None end.

(** [register]: the card as the first open finds it. *)
Definition register (d : D) : Card :=
  let '(hz, d) := set_rate d (rate_for d (Format.rate Format.DEFAULT)) in
  mkCard d (silence RING_BYTES) new hz (Format.rate Format.DEFAULT) false false false 0 (silence PERIOD_BYTES) 0 0.

(** ** Writing *)

(** The inner loop of [write_at]: the card, the converter and the input left. *)
Fixpoint write_loop (fuel : nat) (c : Card) (conv : Format.Converter) (input : list Z) : option (Card * Format.Converter * list Z) :=
  match fuel with
  | O => None
  | S fuel =>
      if bool_decide (input = []) then Some (c, conv, [])
      else
        match space (ring c) with
        | None => Some (c, conv, input)
        | Some (offset, room) =>
            let within := offset mod PERIOD_BYTES in
            match Format.convert conv input room with
            | None => None
            | Some (conv, taken, out) =>
                let c := with_staging c (splice (staging c) within out) in
                let input := drop taken input in
                if 0 <? length out then
                  match commit_staged offset (length out) c with
                  | Some c => write_loop fuel c conv input
                  | None => None
                  end
                else if taken =? 0 then Some (c, conv, input)
                else write_loop fuel c conv input
            end
        end
  end.

(** A round: the fuel is the number of periods and two more ([write_round_spec]). *)
Definition write_round (now : Z) (c : Card) (conv : Format.Converter) (input : list Z) : option (Card * Format.Converter * list Z) :=
  let c := poll now c in
  let conv := if (Format.card_rate conv =? rate c)%Z then conv else Format.new (Format.format conv) (rate c) in
  write_loop (PERIODS + 2) c conv input.

(** ** The buffer *)

Definition period (b : list Z) (p : nat) : list Z := take PERIOD_BYTES (drop (p * PERIOD_BYTES) b).

#[local] Opaque PERIOD_BYTES.

Lemma bytes_pos : 0 < PERIOD_BYTES.
Proof. rewrite <- (Nat.mod_small 0 PERIOD_BYTES) at 1; [|by apply Nat.ltb_lt]. by apply Nat.ltb_lt. Qed.

Lemma lookup_period b p i : i < PERIOD_BYTES -> period b p !! i = b !! (p * PERIOD_BYTES + i).
Proof. intros Hi. unfold period. rewrite lookup_take_lt by done. apply lookup_drop. Qed.

Lemma length_period b p : length b = RING_BYTES -> p < PERIODS -> length (period b p) = PERIOD_BYTES.
Proof. intros Hb Hp. unfold period. rewrite length_take, length_drop, Hb. unfold RING_BYTES. nia. Qed.

Lemma length_splice out d bytes : d + length bytes <= length out -> length (splice out d bytes) = length out.
Proof. intros H. unfold splice. rewrite !length_app, length_take, length_drop. lia. Qed.

Lemma period_splice b p q bytes :
  length b = RING_BYTES -> length bytes = PERIOD_BYTES -> p < PERIODS -> q < PERIODS ->
  period (splice b (p * PERIOD_BYTES) bytes) q = if decide (q = p) then bytes else period b q.
Proof.
  intros Hb Hl Hp Hq. assert (Hfit : p * PERIOD_BYTES + length bytes <= length b) by (rewrite Hb, Hl; unfold RING_BYTES; nia).
  apply list_eq_same_length with (n := PERIOD_BYTES).
  - destruct (decide (q = p)); [done|by apply length_period].
  - apply length_period; [|done]. by rewrite length_splice.
  - intros i x y Hi. rewrite lookup_period by done. unfold splice.
    rewrite splice_lookup by (try done; rewrite Hb; unfold RING_BYTES; nia). rewrite Hl.
    destruct (decide (q = p)) as [->|Hne].
    + rewrite bool_decide_eq_true_2 by nia. replace (p * PERIOD_BYTES + i - p * PERIOD_BYTES) with i by lia. congruence.
    + rewrite bool_decide_eq_false_2 by nia. rewrite lookup_period by done. congruence.
Qed.

Lemma silence_periods_spec count first b :
  length b = RING_BYTES -> count <= PERIODS ->
  length (silence_periods first count b) = RING_BYTES /\
  forall q, q < PERIODS ->
    ((exists i, i < count /\ q = (first + i) mod PERIODS) -> period (silence_periods first count b) q = silence PERIOD_BYTES) /\
    ((forall i, i < count -> q <> (first + i) mod PERIODS) -> period (silence_periods first count b) q = period b q).
Proof.
  assert (Hm : forall n, n mod PERIODS < PERIODS) by (intros n; apply Nat.mod_upper_bound; unfold PERIODS; lia).
  assert (Hs : length (silence PERIOD_BYTES) = PERIOD_BYTES) by apply length_replicate.
  revert first b. induction count as [|count IH]; intros first b Hb Hc; cbn [silence_periods].
  { split; [done|]. intros q Hq. split; [intros (i & Hi & _); lia|done]. }
  set (b1 := splice b _ _).
  assert (Hb1 : length b1 = RING_BYTES).
  { subst b1. rewrite length_splice; [done|]. rewrite Hs, Hb. pose proof (Hm first). unfold RING_BYTES. nia. }
  destruct (IH (S first) b1 Hb1 ltac:(lia)) as [Hlen Hq]. split; [done|]. intros q Hlt. destruct (Hq q Hlt) as [Hin Hout].
  pose proof (period_splice b (first mod PERIODS) q (silence PERIOD_BYTES) Hb Hs (Hm first) Hlt) as Hp. fold b1 in Hp. split.
  - intros (i & Hi & Hqi). destruct i as [|i].
    + rewrite Nat.add_0_r in Hqi. rewrite Hout, Hp by (intros j Hj; subst q; intros He; apply mod_eq_iff in He; lia). by rewrite decide_True.
    + apply Hin. exists i. split; [lia|]. rewrite Hqi. f_equal. lia.
  - intros Hne. rewrite Hout.
    + rewrite Hp, decide_False; [done|]. intros ->. apply (Hne 0); [lia|]. by rewrite Nat.add_0_r.
    + intros i Hi ->. apply (Hne (S i)); [lia|]. f_equal. lia.
Qed.

End Core.

Arguments Card : clear implicits.

#[local] Opaque PERIOD_BYTES.

Section Laws.
Context {D : Type} {dev : AudioDevice D} {laws : AudioLaws D dev}.
Implicit Types (c : Card D) (qs heard : list (list Z)).

(** How many of the queued periods the card has finished. *)
Definition passed (r : Ring) (h : Sound.Card) : nat :=
  if running r then if halted h then queued r else (cur h + PERIODS - first_queued r) mod PERIODS else 0.

(** [qs] are the periods in the queue; everything else in the buffer is silence. *)
Record holds c qs : Prop := {
  ho_ring : ring_ok (ring c);
  ho_card : card_ok (ring c) (hardware (device c));
  ho_buffer : length (buffer c) = RING_BYTES;
  ho_staging : length (staging c) = PERIOD_BYTES;
  ho_queued : length qs = queued (ring c);
  ho_periods : forall i x, qs !! i = Some x -> period (buffer c) ((first_queued (ring c) + i) mod PERIODS) = x;
  ho_silent : forall p, p < PERIODS -> (forall i, i < queued (ring c) -> p <> (first_queued (ring c) + i) mod PERIODS) ->
                period (buffer c) p = silence PERIOD_BYTES;
  ho_idle : running (ring c) = false -> halted (hardware (device c)) = true;
  ho_quiet : quiet c = true -> running (ring c) = false /\ queued (ring c) = 0;
  ho_full : queued (ring c) = MAX_QUEUED -> fill_bytes (ring c) = 0 }.

(** What was heard, what is queued and what is staged are what was written. *)
Definition carries c heard (written : list Z) : Prop :=
  exists h0 qs, holds c qs /\ heard = h0 ++ take (passed (ring c) (hardware (device c))) qs /\
    written = concat (h0 ++ qs) ++ take (fill_bytes (ring c)) (staging c).

Definition live c : Prop := running (ring c) = true -> halted (hardware (device c)) = false.

Lemma passed_lt r h : ring_ok r -> card_ok r h -> running r = true -> halted h = false ->
  passed r h < queued r /\ cur h = (first_queued r + passed r h) mod PERIODS.
Proof.
  intros Hr Hc Hrun Hh. unfold passed. rewrite Hrun, Hh. destruct (Hc Hrun) as (d & Hd & Hcur & _).
  pose proof (ro_queued _ Hr). pose proof (ro_first _ Hr). unfold MAX_QUEUED, PERIODS in *.
  rewrite Hcur. change 32 with PERIODS. rewrite done_eq by (unfold PERIODS; lia). done.
Qed.

Lemma slot_inj f a b : a < PERIODS -> b < PERIODS -> (f + a) mod PERIODS = (f + b) mod PERIODS -> a = b.
Proof.
  intros Ha Hb He. destruct (Nat.le_ge_cases a b); [apply mod_eq_iff in He|symmetry in He; apply mod_eq_iff in He]; lia.
Qed.

(** ** The card plays on *)

Definition hear c : list (list Z) := if halted (hardware (device c)) then [] else [period (buffer c) (cur (hardware (device c)))].

Lemma advance_carries c d heard written :
  carries c heard written -> hardware d = card_advance (hardware (device c)) -> carries (with_device c d) (heard ++ hear c) written.
Proof.
  intros (h0 & qs & H & -> & ->) Hd. exists h0, qs. pose proof H as [H1 H2 H3 H4 H5 H6 H7 H8 H9 H10].
  assert (Hidle : running (ring c) = false -> halted (hardware d) = true).
  { intros Hrun. rewrite Hd. unfold card_advance. rewrite (H8 Hrun). by apply H8. }
  split; [split; cbn [ring device buffer staging quiet with_device]; try done; rewrite Hd; by apply advance_ok|].
  split; [|done]. cbn [ring device with_device]. rewrite Hd. unfold hear.
  destruct (halted (hardware (device c))) eqn:Hh.
  { unfold card_advance. rewrite Hh. by rewrite app_nil_r. }
  destruct (running (ring c)) eqn:Hrun; [|by specialize (H8 eq_refl)].
  destruct (passed_lt _ _ H1 H2 Hrun Hh) as [Hlt Hcur]. set (d0 := passed _ _) in *.
  destruct (lookup_lt_is_Some_2 qs d0 ltac:(lia)) as [x Hx]. rewrite Hcur, (H6 _ _ Hx).
  rewrite <- app_assoc, <- (take_S_r _ _ _ Hx). do 2 f_equal.
  pose proof (advance_ok _ _ H1 H2) as Hc'. destruct (halted (card_advance (hardware (device c)))) eqn:Hh'.
  - unfold passed. rewrite Hrun, Hh'. destruct (Hc' Hrun) as (d1 & Hd1 & Hcur1 & _ & Hend). specialize (Hend Hh').
    unfold card_advance in Hcur1, Hh'. rewrite Hh in Hcur1, Hh'. destruct (cur _ =? last_valid _); [|done]. cbn in Hcur1.
    rewrite Hcur1 in Hcur. pose proof (ro_queued _ H1) as Hq. unfold MAX_QUEUED in Hq. apply slot_inj in Hcur; lia.
  - destruct (passed_lt _ _ H1 Hc' Hrun Hh') as [Hlt' Hcur'].
    unfold card_advance in Hcur' at 1, Hh'. rewrite Hh in Hcur', Hh'. destruct (cur _ =? last_valid _); [done|]. cbn [cur] in Hcur'.
    rewrite Hcur, add_mod_wrap in Hcur'.
    set (d1 := passed _ (card_advance _)) in *. pose proof (ro_queued _ H1) as Hq. unfold MAX_QUEUED in Hq.
    rewrite <- Nat.add_assoc in Hcur'. apply slot_inj in Hcur'; [lia| |lia].
    (* the last queued period is where the card stops *)
    destruct (Nat.lt_ge_cases (d0 + 1) PERIODS); [done|]. lia.
Qed.

(** ** Catching up *)

(** Only these parts of a card matter. *)
Lemma carries_parts c c' heard written :
  hardware (device c') = hardware (device c) -> buffer c' = buffer c -> ring c' = ring c -> staging c' = staging c -> quiet c' = quiet c ->
  carries c heard written -> carries c' heard written.
Proof.
  intros E1 E2 E3 E4 E5 (h0 & qs & [H1 H2 H3 H4 H5 H6 H7 H8 H9 H10] & Hh & Hw). exists h0, qs.
  rewrite E1, E3, E4. split; [|done]. split; rewrite ?E1, ?E2, ?E3, ?E4, ?E5; done.
Qed.

Lemma drop_queue c c' qs n first' :
  holds c qs -> n <= queued (ring c) ->
  length (buffer c') = RING_BYTES -> length (staging c') = PERIOD_BYTES ->
  (forall q, q < PERIODS ->
    ((exists i, i < n /\ q = (first_queued (ring c) + i) mod PERIODS) -> period (buffer c') q = silence PERIOD_BYTES) /\
    ((forall i, i < n -> q <> (first_queued (ring c) + i) mod PERIODS) -> period (buffer c') q = period (buffer c) q)) ->
  first_queued (ring c') = first' -> queued (ring c') = queued (ring c) - n ->
  (forall i, i < queued (ring c) - n -> (first' + i) mod PERIODS = (first_queued (ring c) + n + i) mod PERIODS) ->
  ring_ok (ring c') -> card_ok (ring c') (hardware (device c')) -> (running (ring c') = false -> halted (hardware (device c')) = true) ->
  (quiet c' = true -> running (ring c') = false /\ queued (ring c') = 0) ->
  (queued (ring c') = MAX_QUEUED -> fill_bytes (ring c') = 0) -> holds c' (drop n qs).
Proof.
  intros [H1 H2 H3 H4 H5 H6 H7 H8 H9 H10] Hn Hb Hs Hper Hf Hq Hshift Hr Hc Hidle Hqt Hfull. split; try done.
  - rewrite length_drop. lia.
  - intros i x Hx. rewrite lookup_drop in Hx. pose proof (lookup_lt_Some _ _ _ Hx) as Hlt. rewrite Hf, Hshift by lia.
    assert (Hm : (first_queued (ring c) + n + i) mod PERIODS < PERIODS) by (apply Nat.mod_upper_bound; unfold PERIODS; lia).
    destruct (Hper _ Hm) as [_ Hkeep]. rewrite Hkeep.
    + rewrite <- Nat.add_assoc. by apply H6.
    + intros j Hj He. rewrite <- Nat.add_assoc in He. pose proof (ro_queued _ H1) as Hmax. unfold MAX_QUEUED in Hmax. apply slot_inj in He; unfold PERIODS in *; lia.
  - intros p Hp Hout. destruct (Hper p Hp) as [Hin Hkeep].
    assert (Hdec : (exists i, i < n /\ p = (first_queued (ring c) + i) mod PERIODS) \/ (forall i, i < n -> p <> (first_queued (ring c) + i) mod PERIODS)).
    { clear -n. induction n as [|n IH]; [right; lia|]. destruct IH as [(i & Hi & He)|Hno]; [left; exists i; split; [lia|done]|].
      destruct (decide (p = (first_queued (ring c) + n) mod PERIODS)) as [He|Hne]; [left; by exists n; split; [lia|]|right].
      intros i Hi. destruct (decide (i = n)) as [->|]; [done|]. apply Hno. lia. }
    destruct Hdec as [Hd|Hd]; [by apply Hin|]. rewrite Hkeep by done. apply H7; [done|]. intros i Hi. destruct (decide (i < n)); [by apply Hd|].
    intros ->. apply (Hout (i - n)); [lia|]. rewrite Hf, Hshift by lia. f_equal. lia.
Qed.

Lemma period_silence p : p < PERIODS -> period (silence RING_BYTES) p = silence PERIOD_BYTES.
Proof. intros Hp. unfold period, silence. rewrite drop_replicate, take_replicate. f_equal. unfold RING_BYTES. nia. Qed.

(** A card that is stopped drops what was queued and staged. *)
Lemma reset_carries c heard :
  length (staging c) = PERIOD_BYTES -> buffer c = silence RING_BYTES ->
  halted (hardware (device c)) = true -> quiet c = false -> (exists r, ring c = Sound.reset r) -> carries c heard (concat heard).
Proof.
  intros Hs Hb Hh Hq [r Hr]. exists heard, []. rewrite Hr. unfold Sound.reset. cbn [fill_bytes]. rewrite take_nil, take_0, !app_nil_r. split; [|done].
  assert (Hrok : ring_ok (Sound.reset r)) by (constructor; unfold Sound.reset; fields; try done; unfold PERIODS, MAX_QUEUED, START_PERIODS; try lia; apply bytes_pos).
  split; rewrite ?Hr; unfold Sound.reset; cbn [running queued first_queued fill_bytes]; try done; [rewrite Hb; apply length_replicate|].
  intros p Hp _. rewrite Hb. by apply period_silence.
Qed.

(** Nothing is lost by catching up, unless the card is found stuck. *)
Lemma poll_spec now c heard written :
  carries c heard written ->
  ((stalls (poll now c) = stalls c + 1)%Z /\ carries (poll now c) heard (concat heard) /\ live (poll now c) /\ rate (poll now c) = rate c /\
   fill_bytes (ring (poll now c)) = 0) \/
  (stalls (poll now c) = stalls c /\ carries (poll now c) heard written /\ live (poll now c) /\ rate (poll now c) = rate c /\
   fill_bytes (ring (poll now c)) = fill_bytes (ring c)).
Proof.
  intros C. unfold poll. destruct (status_law (device c)) as [Hst Hhw]. destruct (dev_status (device c)) as [st d]. cbn [fst snd] in Hst, Hhw. subst st.
  destruct (update (ring c) (status (hardware (device c)))) as [u r'] eqn:Hu.
  set (moved := _ || negb (running r')). destruct (negb moved && _) eqn:Hstall.
  { left. split; [done|]. split; [|by split_and!]. destruct C as (h0 & qs & [H1 H2 H3 H4 _ _ _ _ _ _] & _).
    apply reset_carries; cbn; [done|by rewrite H3|by rewrite stop_law|done|by eexists]. }
  right.
  set (c1 := with_ring (with_device c d) r'). set (c2 := if moved then with_progress c1 now else c1).
  set (c3 := if up_halted u then _ else c2).
  assert (E3 : hardware (device c3) = hardware (device c) /\ buffer c3 = buffer c /\ ring c3 = r' /\ staging c3 = staging c /\ rate c3 = rate c /\ stalls c3 = stalls c /\
               quiet c3 = up_halted u || quiet c).
  { subst c3 c2 c1. destruct (up_halted u), moved; by rewrite ?orb_true_l, ?orb_false_l. }
  clearbody c3. destruct E3 as (E1 & E2 & E3 & E4 & E5 & E6 & E7).
  set (c4 := match finished u with Some (first, count) => _ | None => c3 end).
  assert (F : hardware (device c4) = hardware (device c) /\ ring c4 = r' /\ staging c4 = staging c /\ rate c4 = rate c /\ stalls c4 = stalls c /\
              quiet c4 = up_halted u || quiet c /\ buffer c4 = match finished u with Some (first, count) => silence_periods first count (buffer c) | None => buffer c end).
  { subst c4. destruct (finished u) as [[first count]|]; cbn; by rewrite ?E2. }
  clearbody c4. destruct F as (F1 & F2 & F3 & F4 & F5 & F6 & F7). split; [done|].
  destruct C as (h0 & qs & H & -> & ->). pose proof H as [H1 H2 H3 H4 H5 H6 H7 H8 H9 H10].
  pose proof (update_ok _ _ H1 H2) as [U1 U2]. rewrite Hu in U1, U2. cbn [snd] in U1, U2.
  pose proof (ro_queued _ H1) as Hmax. unfold MAX_QUEUED in Hmax. unfold update in Hu.
  destruct (running (ring c)) eqn:Hrun; cbn [negb] in Hu.
  2: { injection Hu as <- <-. cbn in F6, F7. split; [|split; [|by rewrite F2]; intros Hr; rewrite F2 in Hr; congruence].
       exists h0, qs. rewrite F1, F2, F3. split; [|split; [|done]].
       - split; rewrite ?F1, ?F2, ?F3, ?F6, ?F7; try done; by rewrite Hrun.
       - unfold passed. by rewrite Hrun. }
  cbn [status st_halted st_current] in Hu. unfold passed at 1. rewrite Hrun.
  destruct (halted (hardware (device c))) eqn:Hh.
  - injection Hu as <- <-. pose proof (ro_running _ H1 Hrun) as Hpos. apply Nat.ltb_lt in Hpos as Hpos'. cbn [finished up_halted] in F6, F7. rewrite Hpos' in F7.
    destruct (silence_periods_spec (queued (ring c)) (first_queued (ring c)) (buffer c) H3 ltac:(unfold PERIODS in *; lia)) as [Hlen Hper]. rewrite <- F7 in Hlen, Hper.
    split; [|split; [|by rewrite F2]; intros Hr; rewrite F2 in Hr; done].
    exists (h0 ++ qs), []. rewrite (take_ge qs) by lia. rewrite F2, F3. split; [|by rewrite take_nil, !app_nil_r].
    rewrite <- (drop_ge qs (queued (ring c))) by lia. eapply drop_queue; try done; rewrite ?F1, ?F2, ?F3; try done; cbn [queued]; lia.
  - injection Hu as <- <-. destruct (passed_lt _ _ H1 H2 Hrun Hh) as [Hlt Hcur]. unfold passed in Hlt, Hcur. rewrite Hrun, Hh in Hlt, Hcur.
    set (k := (cur (hardware (device c)) + PERIODS - first_queued (ring c)) mod PERIODS) in *. rewrite (Nat.min_l k) in * by lia.
    cbn [finished up_halted orb] in F6, F7.
    assert (Hper : length (buffer c4) = RING_BYTES /\ forall q, q < PERIODS ->
       ((exists i, i < k /\ q = (first_queued (ring c) + i) mod PERIODS) -> period (buffer c4) q = silence PERIOD_BYTES) /\
       ((forall i, i < k -> q <> (first_queued (ring c) + i) mod PERIODS) -> period (buffer c4) q = period (buffer c) q)).
    { rewrite F7. destruct (Nat.ltb_spec 0 k); [apply silence_periods_spec; [done|unfold PERIODS in *; lia]|].
      split; [done|]. intros q Hq. split; [intros (i & Hi & _); lia|done]. }
    destruct Hper as [Hlen Hper]. split; [|split; [|by rewrite F2]; intros _; by rewrite F1].
    exists (h0 ++ take k qs), (drop k qs). rewrite F2, F3, <- !app_assoc, take_drop. split; [|split; [|done]].
    + apply (drop_queue c c4 qs k ((first_queued (ring c) + k) mod PERIODS)); try done; rewrite ?F1, ?F2, ?F3; try done; cbn [first_queued queued running].
      * lia.
      * intros i Hi. by rewrite add_mod_wrap.
      * rewrite F6. intros Hq. by destruct (H9 Hq).
      * cbn [fill_bytes]. intros Hq. apply H10. unfold MAX_QUEUED in *. lia.
    + set (r' := mkRing _ _ _ _ true _).
      assert (Hz : passed r' (hardware (device c4)) = 0).
      { change r' with (mkRing (fill_period (ring c)) (fill_bytes (ring c)) ((first_queued (ring c) + k) mod PERIODS) (queued (ring c) - k) true (played (ring c) + k)).
        unfold passed. cbn [running queued first_queued]. rewrite F1, Hh, Hcur.
        set (m := (first_queued (ring c) + k) mod PERIODS). assert (m < PERIODS) by (apply Nat.mod_upper_bound; unfold PERIODS; lia).
        replace (m + PERIODS - m) with PERIODS by lia. apply Nat.Div0.mod_same. }
      by rewrite Hz, take_0, app_nil_r.
Qed.

(** The card is found stuck only when it has not finished a period for a second. *)
Lemma poll_stall now c qs :
  holds c qs -> stalls (poll now c) <> stalls c ->
  running (ring c) = true /\ passed (ring c) (hardware (device c)) = 0 /\ (STALL_MS < now - progress_at c)%Z.
Proof.
  intros H. unfold poll. destruct (status_law (device c)) as [Hst Hhw]. destruct (dev_status (device c)) as [st d]. cbn [fst snd] in Hst, Hhw. subst st.
  destruct (update (ring c) (status (hardware (device c)))) as [u r'] eqn:Hu. set (moved := _ || negb (running r')).
  destruct (negb moved && _) eqn:Hstall.
  2:{ intros Hne. exfalso. apply Hne. destruct moved, (up_halted u), (finished u) as [[]|]; done. }
  intros _. apply andb_prop in Hstall as [Hm%negb_true_iff Ht%Z.ltb_lt]. subst moved. apply orb_false_elim in Hm as [Hfin Hrun%negb_false_iff].
  cbn [progress_at with_ring with_device] in Ht. unfold STALL_MS in *. unfold update in Hu. destruct (running (ring c)) eqn:Hr; cbn [negb] in Hu; [|by injection Hu as <- <-; congruence].
  cbn [status st_halted st_current] in Hu. unfold passed. rewrite Hr. destruct (halted (hardware (device c))) eqn:Hh; [by injection Hu as <- <-|].
  destruct (passed_lt _ _ (ho_ring _ _ H) (ho_card _ _ H) Hr Hh) as [Hlt _]. unfold passed in Hlt. rewrite Hr, Hh in Hlt.
  set (k := (_ + PERIODS - _) mod PERIODS) in *. clearbody k. injection Hu as <- _. cbn [finished] in Hfin. rewrite Nat.min_l in Hfin by lia.
  destruct (Nat.ltb_spec 0 k); [done|]. split_and!; [done|lia|lia].
Qed.

(** What is written and not heard. *)
Lemma carries_missing c heard written :
  carries c heard written ->
  concat heard `prefix_of` written /\ length written <= length (concat heard) + RING_BYTES /\
  (halted (hardware (device c)) = true -> length written < length (concat heard) + START_PERIODS * PERIOD_BYTES).
Proof.
  intros (h0 & qs & H & -> & ->). set (k := passed _ _).
  assert (Hsplit : concat qs = concat (take k qs) ++ concat (drop k qs)) by (by rewrite <- concat_app, take_drop).
  rewrite !concat_app, Hsplit. pose proof (ro_bytes _ (ho_ring _ _ H)). pose proof (ro_queued _ (ho_ring _ _ H)) as Hq.
  assert (Hlen : length (concat (drop k qs)) = (queued (ring c) - k) * PERIOD_BYTES).
  { rewrite <- (ho_queued _ _ H), <- length_drop.
    assert (Hall : Forall (fun q => length q = PERIOD_BYTES) (drop k qs)).
    { apply Forall_drop, Forall_forall. intros q Hq'. apply list_elem_of_lookup in Hq' as [i Hi]. rewrite <- (ho_periods _ _ H i q Hi).
      apply length_period; [apply (ho_buffer _ _ H)|]. apply Nat.mod_upper_bound. unfold PERIODS. lia. }
    clear -Hall. induction Hall as [|q l Hl _ IH]; [done|]. cbn [concat length]. rewrite length_app. lia. }
  split; [rewrite <- !app_assoc; apply prefix_app, prefix_app_r; done|]. rewrite !length_app, length_take, Hlen. split.
  - unfold MAX_QUEUED in Hq. unfold RING_BYTES, PERIODS in *. nia.
  - intros Hh. subst k. unfold passed. destruct (running (ring c)) eqn:Hrun.
    + rewrite Hh, Nat.sub_diag. unfold START_PERIODS. nia.
    + destruct (ro_idle _ (ho_ring _ _ H) Hrun) as [_ Hs]. nia.
Qed.

(** ** Staging *)

Lemma take_splice (l bytes : list Z) n : n + length bytes <= length l -> take (n + length bytes) (splice l n bytes) = take n l ++ bytes.
Proof.
  intros H. unfold splice. rewrite app_assoc. assert (Hl : length (take n l ++ bytes) = n + length bytes) by (rewrite length_app, length_take; lia).
  rewrite <- Hl. apply take_app_length.
Qed.

Lemma space_offset r offset room :
  ring_ok r -> space r = Some (offset, room) ->
  offset / PERIOD_BYTES = fill_period r /\ offset mod PERIOD_BYTES = fill_bytes r /\ room = PERIOD_BYTES - fill_bytes r /\ queued r < MAX_QUEUED /\
  fill_period r < PERIODS.
Proof.
  intros Hr. unfold space. destruct (Nat.ltb_spec (queued r) MAX_QUEUED); [|done]. intros [= <- <-]. pose proof (ro_bytes _ Hr).
  rewrite Nat.add_comm, Nat.div_add, Nat.Div0.mod_add, Nat.div_small, Nat.mod_small by lia. split_and!; try done.
  rewrite (ro_fill _ Hr). apply Nat.mod_upper_bound. unfold PERIODS. lia.
Qed.

(** What the ring does when a period is complete. *)
Definition completed (r : Ring) : Ring := mkRing ((fill_period r + 1) mod PERIODS) 0 (first_queued r) (queued r + 1) (running r) (played r).

Lemma commit_complete r :
  queued r < MAX_QUEUED -> fill_bytes r <= PERIOD_BYTES ->
  exists a r', commit r (PERIOD_BYTES - fill_bytes r) = Some (a, r') /\
    fill_bytes r' = 0 /\ first_queued r' = first_queued r /\ queued r' = queued r + 1 /\
    match a with
    | ActNone => r' = completed r /\ running r' = false
    | Start last => running r = false /\ running r' = true /\ last = queued r
    | Submit last => running r = true /\ running r' = true
    end.
Proof.
  intros Hq Hb. unfold commit. apply Nat.ltb_lt in Hq as Hq'. rewrite Hq'.
  assert (Hsum : fill_bytes r + (PERIOD_BYTES - fill_bytes r) = PERIOD_BYTES) by lia. rewrite Hsum, Nat.leb_refl, Nat.ltb_irrefl. cbn [andb negb].
  destruct (running r) eqn:Hrun; cbn [running].
  - do 2 eexists. split; [done|]. done.
  - cbn [queued]. destruct (START_PERIODS <=? queued r + 1) eqn:Hs.
    + unfold start. cbn [running queued orb]. destruct (Nat.eqb_spec (queued r + 1) 0); [lia|]. do 2 eexists. split; [done|]. cbn. split_and!; try done. lia.
    + do 2 eexists. split; [done|]. cbn. unfold completed. by rewrite Hrun.
Qed.

Lemma commit_partial r k :
  queued r < MAX_QUEUED -> fill_bytes r + k < PERIOD_BYTES ->
  commit r k = Some (ActNone, mkRing (fill_period r) (fill_bytes r + k) (first_queued r) (queued r) (running r) (played r)).
Proof.
  intros Hq Hb. unfold commit. apply Nat.ltb_lt in Hq, Hb as Hb'. rewrite Hq, Hb'.
  destruct (Nat.leb_spec (fill_bytes r + k) PERIOD_BYTES); [done|lia].
Qed.

(** The hardware after the ring's orders. *)
Lemma apply_hardware a c :
  hardware (device (apply a c)) = perform a (hardware (device c)) /\ buffer (apply a c) = buffer c /\ ring (apply a c) = ring c /\
  staging (apply a c) = staging c /\ quiet (apply a c) = quiet c /\ rate (apply a c) = rate c /\ stalls (apply a c) = stalls c.
Proof. destruct a; cbn; rewrite ?start_law, ?submit_law; by split_and!. Qed.

Lemma passed_le c qs : holds c qs -> passed (ring c) (hardware (device c)) <= length qs.
Proof.
  intros H. rewrite (ho_queued _ _ H). unfold passed. destruct (running (ring c)) eqn:Hrun; [|lia]. destruct (halted _) eqn:Hh; [lia|].
  destruct (passed_lt _ _ (ho_ring _ _ H) (ho_card _ _ H) Hrun Hh) as [Hlt _]. unfold passed in Hlt. rewrite Hrun, Hh in Hlt. lia.
Qed.

(** A complete period goes from the staging area to the end of the queue. *)
Lemma commit_full c qs offset room :
  holds c qs -> live c -> space (ring c) = Some (offset, room) ->
  exists c', commit_staged offset room c = Some c' /\ holds c' (qs ++ [staging c]) /\ live c' /\
    passed (ring c') (hardware (device c')) = passed (ring c) (hardware (device c)) /\
    fill_bytes (ring c') = 0 /\ queued (ring c') = queued (ring c) + 1 /\ staging c' = staging c /\ rate c' = rate c /\ stalls c' = stalls c.
Proof.
  intros H Hlive Hsp. pose proof H as [H1 H2 H3 H4 H5 H6 H7 H8 H9 H10].
  destruct (space_offset _ _ _ H1 Hsp) as (Hdiv & Hmod & -> & Hq & Hfp). pose proof (ro_bytes _ H1) as Hfb.
  unfold commit_staged. rewrite Hdiv, Hmod. replace (fill_bytes (ring c) + (PERIOD_BYTES - fill_bytes (ring c))) with PERIOD_BYTES by lia. rewrite Nat.eqb_refl.
  set (c2 := if quiet c then _ else c).
  assert (E : buffer c2 = buffer c /\ ring c2 = ring c /\ staging c2 = staging c /\ quiet c2 = false /\ rate c2 = rate c /\ stalls c2 = stalls c /\
              (running (ring c) = true -> hardware (device c2) = hardware (device c)) /\ (running (ring c) = false -> halted (hardware (device c2)) = true)).
  { subst c2. destruct (quiet c) eqn:Hqt; cbn; [|by split_and!]. destruct (H9 eq_refl) as [Hr _]. rewrite stop_law. split_and!; try done. intros; congruence. }
  clearbody c2. destruct E as (E1 & E2 & E3 & E4 & E5 & E6 & E7 & E8). cbn [ring with_buffer]. rewrite E2.
  destruct (commit_complete (ring c) Hq ltac:(lia)) as (a & r' & Hc & R1 & R2 & R3 & R4). rewrite Hc.
  set (c3 := with_ring (with_buffer c2 _) r'). destruct (apply_hardware a c3) as (A1 & A2 & A3 & A4 & A5 & A6 & A7).
  exists (apply a c3). split; [done|].
  assert (B : hardware (device c3) = hardware (device c2) /\ buffer c3 = splice (buffer c) (fill_period (ring c) * PERIOD_BYTES) (staging c) /\ ring c3 = r' /\
              staging c3 = staging c /\ quiet c3 = false /\ rate c3 = rate c /\ stalls c3 = stalls c) by (subst c3; cbn; by rewrite E1, E3).
  clearbody c3. destruct B as (B1 & B2 & B3 & B4 & B5 & B6 & B7).
  rewrite A3, A4, A6, A7, B3, B4, B6, B7.
  assert (Hcard2 : card_ok (ring c) (hardware (device c2))) by (intros Hr; rewrite (E7 Hr); by apply H2).
  destruct (commit_ok (ring c) (hardware (device c2)) _ a r' H1 Hcard2 Hc) as [K1 K2].
  { intros last ->. destruct R4 as [Hr _]. rewrite (E7 Hr). by apply Hlive. }
  assert (Hper : forall q, q < PERIODS -> period (buffer (apply a c3)) q = if decide (q = fill_period (ring c)) then staging c else period (buffer c) q).
  { intros q Hlt. rewrite A2, B2. by apply period_splice. }
  pose proof (ro_fill _ H1) as Hfill. unfold MAX_QUEUED in Hq.
  assert (Hm : forall n, n mod PERIODS < PERIODS) by (intros n; apply Nat.mod_upper_bound; unfold PERIODS; lia).
  split; [split|split_and!].
  - by rewrite A3, B3.
  - by rewrite A1, A3, B1, B3.
  - rewrite A2, B2, length_splice; [done|]. rewrite H3, H4. unfold RING_BYTES. nia.
  - by rewrite A4, B4.
  - rewrite length_app, A3, B3, R3, H5. done.
  - intros i x Hx. rewrite A3, B3, R2, Hper by apply Hm. apply lookup_app_Some in Hx as [Hx|[Hi Hx]].
    + pose proof (lookup_lt_Some _ _ _ Hx). rewrite decide_False; [by apply H6|]. rewrite Hfill. intros He. apply slot_inj in He; unfold PERIODS in *; lia.
    + apply list_lookup_singleton_Some in Hx as [Hz <-]. rewrite decide_True; [done|]. rewrite Hfill. f_equal. lia.
  - intros p Hp. rewrite A3, B3, R2, R3, Hper by done. intros Hout. rewrite decide_False.
    + apply H7; [done|]. intros i Hi. apply Hout. lia.
    + rewrite Hfill. apply Hout. lia.
  - rewrite A1, A3, B1, B3. destruct a; [intros Hr; destruct R4 as [-> _]; cbn in Hr |- *; by apply E8|intros Hr; destruct R4 as (_ & ? & _); congruence|intros Hr; destruct R4; congruence].
  - rewrite A5, B5. done.
  - by rewrite A3, B3.
  - unfold live. rewrite A1, A3, B1, B3. destruct a; cbn; [intros Hr; destruct R4; congruence|done|]. destruct R4 as [Hr _]. intros _. rewrite (E7 Hr). by apply Hlive.
  - rewrite A1, B1. unfold passed. destruct a; cbn [perform halted cur].
    + destruct R4 as [Hr' Hf]. rewrite Hf. rewrite Hr' in Hf. cbn in Hf. by rewrite Hf.
    + destruct R4 as (Hr & -> & _). rewrite Hr, R2. destruct (ro_idle _ H1 Hr) as [-> _]. done.
    + destruct R4 as (Hr & ->). rewrite Hr, R2, (E7 Hr), (Hlive Hr). done.
  - done.
  - done.
  - done.
  - done.
  - done.
Qed.

(** Bytes staged after the others are written. *)
Lemma stage_spec c heard written offset room bytes :
  carries c heard written -> live c -> space (ring c) = Some (offset, room) -> length bytes <= room ->
  exists c', commit_staged offset (length bytes) (with_staging c (splice (staging c) (offset mod PERIOD_BYTES) bytes)) = Some c' /\
    carries c' heard (written ++ bytes) /\ live c' /\ rate c' = rate c /\ stalls c' = stalls c /\
    (fill_bytes (ring c'), queued (ring c')) =
      if decide (length bytes = room) then (0, queued (ring c) + 1) else (fill_bytes (ring c) + length bytes, queued (ring c)).
Proof.
  intros (h0 & qs & H & -> & ->) Hlive Hsp Hlen. pose proof H as [H1 H2 H3 H4 H5 H6 H7 H8 H9 H10].
  destruct (space_offset _ _ _ H1 Hsp) as (Hdiv & Hmod & Hroom & Hq & Hfp). pose proof (ro_bytes _ H1) as Hfb.
  rewrite Hmod. set (st := splice (staging c) (fill_bytes (ring c)) bytes).
  assert (Hst : length st = PERIOD_BYTES) by (subst st; rewrite length_splice; lia).
  assert (Htake : take (fill_bytes (ring c) + length bytes) st = take (fill_bytes (ring c)) (staging c) ++ bytes) by (apply take_splice; lia).
  assert (Hc1 : holds (with_staging c st) qs) by (by split).
  destruct (decide (length bytes = room)) as [Hfull|Hpart].
  - destruct (commit_full (with_staging c st) qs offset room Hc1 Hlive Hsp) as (c' & Hc & H' & Hl' & Hp & F1 & F2 & F3 & F4 & F5).
    rewrite Hfull. exists c'. split; [done|]. split; [|by rewrite F1, F2, F4, F5]. exists h0, (qs ++ [st]). split; [done|]. split.
    + rewrite Hp, take_app_le; [done|]. apply (passed_le _ _ Hc1).
    + rewrite F1, take_0, app_nil_r, <- app_assoc, <- Htake, (app_assoc h0), (concat_app (h0 ++ qs) [st]). cbn [concat]. rewrite app_nil_r. f_equal.
      apply take_ge. rewrite Hst. lia.
  - assert (Hlt : fill_bytes (ring c) + length bytes < PERIOD_BYTES) by lia. unfold commit_staged. rewrite Hmod.
    destruct (Nat.eqb_spec (fill_bytes (ring c) + length bytes) PERIOD_BYTES); [lia|]. cbn [ring with_staging].
    rewrite (commit_partial _ _ Hq Hlt). cbn [apply]. eexists. split; [done|]. split; [|done].
    exists h0, qs. cbn [ring device with_ring with_staging staging fill_bytes]. split; [|split; [done|by rewrite Htake, app_assoc]].
    split; cbn [ring device with_ring with_staging staging buffer quiet]; try done; [destruct H1; by constructor|].
    cbn [queued fill_bytes]. intros Hmax. lia.
Qed.

Lemma start_spec c heard written :
  carries c heard written -> live c ->
  let c' := apply (start (ring c)).1 (with_ring c (start (ring c)).2) in
  carries c' heard written /\ live c' /\ rate c' = rate c /\ stalls c' = stalls c.
Proof.
  intros C Hlive. cbv zeta. pose proof C as (h0 & qs & H & -> & ->). pose proof H as [H1 H2 H3 H4 H5 H6 H7 H8 H9 H10].
  destruct (start_ok _ _ H1 H2) as [K1 K2]. unfold start in *. destruct (running (ring c) || (queued (ring c) =? 0)) eqn:Hgo; cbn [fst snd] in *.
  { split; [by apply (carries_parts c)|by split_and!]. }
  apply orb_false_elim in Hgo as [Hrun Hz%Nat.eqb_neq].
  destruct (apply_hardware (Start (queued (ring c) - 1)) (with_ring c (mkRing (fill_period (ring c)) (fill_bytes (ring c)) (first_queued (ring c)) (queued (ring c)) true (played (ring c)))))
    as (A1 & A2 & A3 & A4 & A5 & A6 & A7).
  split; [|split_and!; [|done..]; intros _; by rewrite A1]. exists h0, qs. rewrite A1, A3, A4. cbn [ring with_ring staging fill_bytes].
  split; [|split; [|done]].
  - split; rewrite ?A1, ?A2, ?A3, ?A4, ?A5; cbn [ring with_ring buffer staging quiet device queued first_queued running]; try done.
    intros Hq. destruct (H9 Hq) as [_ ?]. lia.
  - unfold passed. cbn [running perform halted cur first_queued]. rewrite Hrun. destruct (ro_idle _ H1 Hrun) as [-> _]. done.
Qed.

(** Flushing pads the staged period with silence; nothing else is added. *)
Lemma flush_spec c heard written :
  carries c heard written -> live c ->
  exists c' n, flush c = Some c' /\ carries c' heard (written ++ silence n) /\ live c' /\ rate c' = rate c /\ stalls c' = stalls c /\ fill_bytes (ring c') = 0.
Proof.
  intros C Hlive. unfold flush, padding. destruct (Nat.ltb_spec 0 (fill_bytes (ring c))) as [Hf|Hf].
  - destruct (space (ring c)) as [[offset room]|] eqn:Hsp; [|].
    2: { destruct C as (h0 & qs & H & _). pose proof (ro_queued _ (ho_ring _ _ H)). pose proof (ho_full _ _ H).
         unfold space in Hsp. destruct (Nat.ltb_spec (queued (ring c)) MAX_QUEUED); [done|]. lia. }
    destruct (stage_spec c heard written offset room (silence room) C Hlive Hsp) as (c1 & Hc & C1 & L1 & R1 & S1 & F); [unfold silence; by rewrite length_replicate|].
    unfold silence in Hc at 1. rewrite length_replicate in Hc. unfold silence at 1. fold (silence room). rewrite Hc.
    destruct (start_spec c1 heard _ C1 L1) as (C2 & L2 & R2 & S2). destruct (start (ring c1)) as [a r'] eqn:Hst. cbn [fst snd] in *.
    exists (apply a (with_ring c1 r')), room. split; [done|]. split_and!; try done; [congruence..|].
    destruct (apply_hardware a (with_ring c1 r')) as (_ & _ & -> & _). cbn [ring with_ring].
    unfold silence in F. rewrite length_replicate, decide_True in F by done. injection F as F1 _.
    unfold start in Hst. destruct (running (ring c1) || _); injection Hst as <- <-; done.
  - destruct (start_spec c heard written C Hlive) as (C2 & L2 & R2 & S2). destruct (start (ring c)) as [a r'] eqn:Hst. cbn [fst snd] in *.
    exists (apply a (with_ring c r')), 0. cbn [silence replicate]. rewrite app_nil_r. split_and!; try done.
    destruct (apply_hardware a (with_ring c r')) as (_ & _ & -> & _). cbn [ring with_ring].
    unfold start in Hst. destruct (running (ring c) || _); injection Hst as <- <-; cbn; lia.
Qed.

(** ** Writing *)

Abbreviation encode := (mbind Format.encode_frame : list Format.Frame -> list Z).

Lemma length_encode_frame x : length (Format.encode_frame x) = 4.
Proof. done. Qed.

Lemma length_encode os : length (encode os) = 4 * length os.
Proof. induction os as [|x os IH]; [done|]. rewrite bind_cons, length_app, IH, length_encode_frame. cbn [length]. lia. Qed.

Lemma convert_loop_room fuel conv rest out room conv' rest' out' :
  Format.convert_loop fuel conv rest out room = Some (conv', rest', out') -> length out <= room -> length out' <= room.
Proof.
  revert conv rest out. induction fuel as [|fuel IH]; intros conv rest out; [done|]. cbn [Format.convert_loop]. intros Hl Hr. revert Hl.
  case_bool_decide as Hfull; [by intros [= <- <- <-]|].
  assert (Hmore : forall x, length (out ++ Format.encode_frame x) <= room).
  { intros x. rewrite length_app, length_encode_frame. unfold Format.OUTPUT_FRAME in Hfull. lia. }
  destruct (Format.resampler conv) as [r|].
  - destruct (Format.produce r) as [[x|] r']; [intros Hl; by eapply IH|]. destruct (negb _); [intros Hl; by eapply IH|].
    destruct (Format.next_frame _ _) as [[[x conv1] rest1]|]; [intros Hl; by eapply IH|by intros [= <- <- <-]].
  - destruct (Format.next_frame _ _) as [[[x conv1] rest1]|]; [intros Hl; by eapply IH|by intros [= <- <- <-]].
Qed.

Lemma convert_room conv input room conv' k out : Format.convert conv input room = Some (conv', k, out) -> length out <= room.
Proof.
  unfold Format.convert. destruct (Format.convert_loop _ _ _ _ _) as [[[conv1 rest] out1]|] eqn:Hl; [|done].
  apply convert_loop_room in Hl; [|cbn; lia]. case_bool_decide; by intros [= _ _ <-].
Qed.

Lemma period_frames : exists n, PERIOD_BYTES = 4 * n.
Proof. exists 512. apply Nat.eqb_eq. vm_compute. done. Qed.

Section Write.
Context (f : Format.Format) (card : Z).
Hypothesis Hf : 0 < Format.frame_bytes f.
Hypothesis Hrate : (0 <= Format.rate f)%Z.

Lemma plays_app B t n os1 os2 :
  Format.plays f card B n os1 -> Format.plays f card (B ++ t) (n + length os1) os2 -> Format.plays f card (B ++ t) n (os1 ++ os2).
Proof.
  intros H1 H2 k x Hx. apply lookup_app_Some in Hx as [Hx|[Hk Hx]].
  - destruct (Format.frames_prefix f B t Hf) as [gs ->]. apply Format.played_frame_app. by apply H1.
  - replace (n + k) with (n + length os1 + (k - length os1)) by lia. by apply H2.
Qed.

Definition aligned c : Prop := exists n, fill_bytes (ring c) = 4 * n.

Lemma write_loop_spec fuel c conv input heard written B n :
  carries c heard written -> live c -> aligned c -> Format.converting f card conv B n -> Forall Format.is_byte (B ++ input) ->
  MAX_QUEUED - queued (ring c) + 2 <= fuel ->
  exists c' conv' taken rest os, write_loop fuel c conv input = Some (c', conv', rest) /\ input = taken ++ rest /\
    carries c' heard (written ++ encode os) /\ live c' /\ aligned c' /\ rate c' = rate c /\ stalls c' = stalls c /\
    Format.converting f card conv' (B ++ taken) (n + length os) /\ Format.plays f card (B ++ taken) n os /\
    (rest = [] \/ space (ring c') = None).
Proof.
  revert c conv input written B n. induction fuel as [|fuel IH]; intros c conv input written B n C L A Hconv Hb Hfuel; [lia|].
  assert (Hstop : forall rest, input = rest -> (rest = [] \/ space (ring c) = None) ->
    exists c' conv' taken rest' os, Some (c, conv, rest) = Some (c', conv', rest') /\ input = taken ++ rest' /\
      carries c' heard (written ++ encode os) /\ live c' /\ aligned c' /\ rate c' = rate c /\ stalls c' = stalls c /\
      Format.converting f card conv' (B ++ taken) (n + length os) /\ Format.plays f card (B ++ taken) n os /\ (rest' = [] \/ space (ring c') = None)).
  { intros rest -> Hr. exists c, conv, [], rest, []. cbn. rewrite !app_nil_r, Nat.add_0_r. split_and!; try done. }
  cbn [write_loop]. case_bool_decide as Hin; [by apply Hstop; [|left]|].
  destruct (space (ring c)) as [[offset room]|] eqn:Hsp; [|by apply Hstop; [|right]].
  pose proof C as (h0 & qs & H & _). destruct (space_offset _ _ _ (ho_ring _ _ H) Hsp) as (_ & Hmod & Hroom & Hq & _).
  pose proof (ro_bytes _ (ho_ring _ _ H)) as Hfb. clear H h0 qs.
  destruct (Format.convert_spec f card Hf Hrate conv B input n room Hconv Hb) as (conv1 & k & os & Hcv & Hconv1 & Hp1 & Hend).
  rewrite Hcv. apply convert_room in Hcv as Hlen. change (@mbind list list_bind Format.Frame Z Format.encode_frame os) with (encode os) in *.
  assert (Htake : take k input ++ drop k input = input) by apply take_drop.
  assert (Hb1 : Forall Format.is_byte ((B ++ take k input) ++ drop k input)) by (by rewrite <- app_assoc, Htake).
  (* the rest of the loop, after some of the output was staged *)
  assert (Hgo : forall c1, carries c1 heard (written ++ encode os) -> live c1 -> aligned c1 -> rate c1 = rate c -> stalls c1 = stalls c ->
    MAX_QUEUED - queued (ring c1) + 2 <= fuel \/ (drop k input = [] /\ 1 <= fuel) ->
    exists c' conv' taken rest os', write_loop fuel c1 conv1 (drop k input) = Some (c', conv', rest) /\ input = taken ++ rest /\
      carries c' heard (written ++ encode os') /\ live c' /\ aligned c' /\ rate c' = rate c /\ stalls c' = stalls c /\
      Format.converting f card conv' (B ++ taken) (n + length os') /\ Format.plays f card (B ++ taken) n os' /\ (rest = [] \/ space (ring c') = None)).
  { intros c1 C1 L1 A1 R1 S1 [Hfu|[Hnil Hfu]].
    - destruct (IH c1 conv1 (drop k input) _ _ _ C1 L1 A1 Hconv1 Hb1 Hfu) as (c' & conv' & t & rest & os' & Hw & Hi & C' & L' & A' & R' & S' & Hc' & Hp' & Hr).
      exists c', conv', (take k input ++ t), rest, (os ++ os'). rewrite Hw, bind_app, length_app, (app_assoc B). split_and!; try done.
      + by rewrite <- app_assoc, <- Hi, Htake.
      + by rewrite app_assoc.
      + congruence.
      + congruence.
      + by rewrite Nat.add_assoc.
      + by apply plays_app.
    - destruct fuel as [|fuel']; [lia|]. rewrite Hnil in Htake |- *. cbn [write_loop]. rewrite bool_decide_eq_true_2 by done.
      exists c1, conv1, (take k input), [], os. split_and!; try done. by left. }
  destruct (decide (4 * length os + 4 <= room)) as [Hroomy|Htight].
  - destruct (Hend Hroomy) as [Hk _]. assert (Hnil : drop k input = []) by (apply drop_ge; lia).
    destruct (Nat.ltb_spec 0 (length (encode os))) as [Hpos|Hpos].
    + destruct (stage_spec c heard written offset room (encode os) C L Hsp Hlen) as (c1 & -> & C1 & L1 & R1 & S1 & F).
      apply Hgo; try done; [|right; split; [done|lia]]. rewrite decide_False in F by (rewrite length_encode; lia). injection F as F _.
      destruct A as [a Ha]. exists (a + length os). rewrite F, Ha, length_encode. lia.
    + destruct os as [|x os]; [|rewrite length_encode in Hpos; cbn in Hpos; lia].
      destruct (Nat.eqb_spec k 0) as [->|Hk0]; [by destruct input|].
      assert (Hsame : splice (staging c) (offset mod PERIOD_BYTES) [] = staging c) by (unfold splice; cbn; by rewrite Nat.add_0_r, take_drop).
      change (encode []) with (@nil Z) in *. rewrite Hsame. apply Hgo; try done; [|right; split; [done|lia]].
      rewrite app_nil_r. by apply (carries_parts c).
  - destruct period_frames as [m Hm]. destruct A as [a Ha]. rewrite length_encode in Hlen.
    assert (Hfull : length (encode os) = room) by (rewrite length_encode; lia).
    destruct (Nat.ltb_spec 0 (length (encode os))) as [Hpos|Hpos]; [|lia].
    destruct (stage_spec c heard written offset room (encode os) C L Hsp ltac:(lia)) as (c1 & -> & C1 & L1 & R1 & S1 & F).
    rewrite decide_True in F by done. injection F as F1 F2. apply Hgo; try done; [exists 0; lia|]. left. lia.
Qed.

(** ** Runs *)

Record Sys := mkSys { card_of : Card D; converter : Format.Converter; heard_of : list (list Z); unwritten : list Z }.

(** A program writes, the write goes on for a round, the poller polls, the card plays a period. *)
Inductive Event := Write (bytes : list Z) | Round (now : Z) | Poll (now : Z) | Play.

Definition sys_step (s : Sys) (e : Event) : option Sys :=
  match e with
  | Write bytes => Some (if bool_decide (unwritten s = []) then mkSys (card_of s) (converter s) (heard_of s) bytes else s)
  | Round now =>
      match write_round now (card_of s) (converter s) (unwritten s) with
      | Some (c, conv, rest) => Some (mkSys c conv (heard_of s) rest)
      | None => None
      end
  | Poll now => Some (mkSys (poll now (card_of s)) (converter s) (heard_of s) (unwritten s))
  | Play => Some (mkSys (with_device (card_of s) (play (device (card_of s)))) (converter s) (heard_of s ++ hear (card_of s)) (unwritten s))
  end.

(** The bytes that were written, with those of a write that is going on. *)
Definition offered (s : Sys) (e : Event) : list Z :=
  match e with Write bytes => if bool_decide (unwritten s = []) then bytes else [] | _ => [] end.

Fixpoint sys_run (s : Sys) (es : list Event) : option (Sys * list Z) :=
  match es with
  | [] => Some (s, [])
  | e :: es =>
      match sys_step s e with
      | Some s' => match sys_run s' es with Some (s'', bytes) => Some (s'', offered s e ++ bytes) | None => None end
      | None => None
      end
  end.

Definition sys_inv (s : Sys) (given : list Z) : Prop :=
  exists B n written, carries (card_of s) (heard_of s) written /\ aligned (card_of s) /\ rate (card_of s) = card /\
    Format.converting f card (converter s) B n /\ Forall Format.is_byte given /\ given = B ++ unwritten s /\ (0 <= stalls (card_of s))%Z /\
    (stalls (card_of s) = 0%Z -> exists os, written = encode os /\ n = length os /\ Format.plays f card B 0 os).

Lemma sys_step_inv s e given :
  sys_inv s given -> Forall Format.is_byte (offered s e) -> exists s', sys_step s e = Some s' /\ sys_inv s' (given ++ offered s e).
Proof.
  intros (B & n & written & C & A & R & Hconv & Hb & Hg & Hs0 & Hex) Ho. destruct e as [bytes|now|now|]; cbn [sys_step offered] in *.
  - eexists. split; [done|]. case_bool_decide as Hu.
    + exists B, n, written. cbn. rewrite Hg, Hu, app_nil_r. split_and!; try done. apply Forall_app. split; [|done]. rewrite Hg, Hu, app_nil_r in Hb. done.
    + rewrite app_nil_r. by exists B, n, written.
  - rewrite app_nil_r. unfold write_round.
    assert (Hpoll : exists w', carries (poll now (card_of s)) (heard_of s) w' /\ live (poll now (card_of s)) /\ aligned (poll now (card_of s)) /\
              rate (poll now (card_of s)) = card /\ (0 <= stalls (poll now (card_of s)))%Z /\
              (stalls (poll now (card_of s)) = 0%Z -> exists os, w' = encode os /\ n = length os /\ Format.plays f card B 0 os)).
    { destruct (poll_spec now _ _ _ C) as [(S1 & C1 & L1 & R1 & F1)|(S1 & C1 & L1 & R1 & F1)].
      - eexists. split_and!; [done|done|by exists 0; rewrite F1|congruence|lia|lia].
      - exists written. split_and!; [done|done|unfold aligned; by rewrite F1|congruence|lia|]. by rewrite S1. }
    destruct Hpoll as (w' & C1 & L1 & A1 & R1 & S1 & Hex1). rewrite R1.
    destruct Hconv as (Hc1 & Hc2 & Hc3). rewrite Hc2, Z.eqb_refl. assert (Hconv : Format.converting f card (converter s) B n) by done.
    destruct (write_loop_spec (PERIODS + 2) (poll now (card_of s)) (converter s) (unwritten s) _ _ B n C1 L1 A1 Hconv)
      as (c' & conv' & taken & rest & os & -> & Hi & C2 & _ & A2 & R2 & S2 & Hconv2 & Hp & _); [by rewrite <- Hg|unfold MAX_QUEUED, PERIODS; lia|].
    eexists. split; [done|]. exists (B ++ taken), (n + length os), (w' ++ encode os). cbn. split_and!; try done.
    + congruence.
    + by rewrite Hg, Hi, app_assoc.
    + lia.
    + rewrite S2. intros Hz. destruct (Hex1 Hz) as (os1 & -> & -> & Hp1). exists (os1 ++ os). rewrite bind_app, length_app. split_and!; try done.
      by apply plays_app.
  - rewrite app_nil_r. eexists. split; [done|]. destruct (poll_spec now _ _ _ C) as [(S1 & C1 & L1 & R1 & F1)|(S1 & C1 & L1 & R1 & F1)].
    + exists B, n, (concat (heard_of s)). cbn. split_and!; try done; [by exists 0; rewrite F1|congruence|lia|lia].
    + exists B, n, written. cbn. split_and!; try done; [unfold aligned; by rewrite F1|congruence|lia|by rewrite S1].
  - rewrite app_nil_r. eexists. split; [done|]. exists B, n, written. cbn. split_and!; try done. apply advance_carries; [done|]. apply play_law.
Qed.

(** A round of a write ends with everything taken or a full queue. *)
Lemma round_progress s given now :
  sys_inv s given -> exists s', sys_step s (Round now) = Some s' /\ (unwritten s' = [] \/ queued (ring (card_of s')) = MAX_QUEUED).
Proof.
  intros (B & n & written & C & A & R & Hconv & Hb & Hg & Hs0 & Hex). cbn [sys_step]. unfold write_round.
  assert (Hpoll : exists w', carries (poll now (card_of s)) (heard_of s) w' /\ live (poll now (card_of s)) /\ aligned (poll now (card_of s)) /\ rate (poll now (card_of s)) = card).
  { destruct (poll_spec now _ _ _ C) as [(S1 & C1 & L1 & R1 & F1)|(S1 & C1 & L1 & R1 & F1)]; eexists;
      (split_and!; [done|done|unfold aligned; rewrite F1; first [exact A|by exists 0]|congruence]). }
  destruct Hpoll as (w' & C1 & L1 & A1 & R1). rewrite R1. destruct Hconv as (Hc1 & Hc2 & Hc3). rewrite Hc2, Z.eqb_refl.
  assert (Hconv : Format.converting f card (converter s) B n) by done.
  destruct (write_loop_spec (PERIODS + 2) (poll now (card_of s)) (converter s) (unwritten s) _ _ B n C1 L1 A1 Hconv)
    as (c' & conv' & taken & rest & os & -> & _ & C2 & _ & _ & _ & _ & _ & _ & Hend); [by rewrite <- Hg|unfold MAX_QUEUED, PERIODS; lia|].
  eexists. split; [done|]. cbn. destruct Hend as [->|Hsp]; [by left|right]. destruct C2 as (h0 & qs & H & _). pose proof (ro_queued _ (ho_ring _ _ H)).
  unfold space in Hsp. destruct (Nat.ltb_spec (queued (ring c')) MAX_QUEUED); [done|]. by apply Nat.le_antisymm.
Qed.

Lemma sys_run_inv es s given :
  sys_inv s given -> Forall (fun e => match e with Write bytes => Forall Format.is_byte bytes | _ => True end) es ->
  exists s' bytes, sys_run s es = Some (s', bytes) /\ sys_inv s' (given ++ bytes).
Proof.
  intros I Hes. revert s given I. induction Hes as [|e es He _ IH]; intros s given I; cbn [sys_run].
  { exists s, []. by rewrite app_nil_r. }
  destruct (sys_step_inv s e given I) as (s1 & -> & I1); [destruct e; cbn; try case_bool_decide; done|].
  destruct (IH s1 _ I1) as (s' & bytes & -> & I'). exists s', (offered s e ++ bytes). by rewrite app_assoc.
Qed.

End Write.

(** The card after [register] and an open, and a program with its format. *)
Definition opened (d : D) (f : Format.Format) : Sys :=
  let c := with_open (register d) true in mkSys c (Format.new f (rate c)) [] [].

Lemma opened_inv d f : halted (hardware (device (register d))) = true -> sys_inv f (rate (register d)) (opened d f) [].
Proof.
  intros Hh. exists [], 0, []. unfold opened. cbn [card_of converter heard_of unwritten].
  assert (E : buffer (register d) = silence RING_BYTES /\ ring (register d) = new /\ staging (register d) = silence PERIOD_BYTES /\ quiet (register d) = false /\ stalls (register d) = 0%Z).
  { unfold register. destruct (set_rate _ _). done. }
  destruct E as (E1 & E2 & E3 & E4 & E5). split_and!.
  - apply (reset_carries (with_open (register d) true) []); cbn; rewrite ?E1, ?E2, ?E3; [apply length_replicate|done|done|done|]. exists new. done.
  - exists 0. cbn. by rewrite E2.
  - done.
  - apply Format.new_converting.
  - constructor.
  - done.
  - cbn. by rewrite E5.
  - intros _. exists []. split_and!; try done.
Qed.

End Laws.

(** C35. What is heard is what was written.  Over any writes of a program, rounds
    of them, polls at any times and progress of a card that plays what it is
    given, nothing panics, a round takes all of the write unless the queue is full,
    and a poll gives the card up only if it is running and no period has finished
    for more than a second.  As long as that has not happened, the frames [os] made
    of the bytes taken so far are their exact conversion (frame [k] is the input at
    [k] times the ratio of the rates), with no frame missing that the input but its
    last frame determines; the bytes heard are a beginning of them; at most the ring
    is not heard yet, and when the card does not play, fewer than the four periods
    it starts with: nothing is lost, repeated or invented, also across underruns. *)
Theorem sound_heard_is_written {D : Type} {dev : AudioDevice D} {laws : AudioLaws D dev} (d : D) (f : Format.Format) es :
  halted (hardware (device (register d))) = true -> 0 < Format.frame_bytes f -> (0 <= Format.rate f)%Z ->
  Forall (fun e => match e with Write bytes => Forall Format.is_byte bytes | _ => True end) es ->
  exists s given, sys_run (opened d f) es = Some (s, given) /\
    (forall now, exists s', sys_step s (Round now) = Some s' /\ (unwritten s' = [] \/ queued (ring (card_of s')) = MAX_QUEUED)) /\
    (forall now, stalls (poll now (card_of s)) <> stalls (card_of s) ->
       running (ring (card_of s)) = true /\ passed (ring (card_of s)) (hardware (device (card_of s))) = 0 /\
       (STALL_MS < now - progress_at (card_of s))%Z) /\
    (stalls (card_of s) = 0%Z ->
     exists taken os, given = taken ++ unwritten s /\
       let input := Format.frames f taken in let card := rate (register d) in
       (forall k x, os !! k = Some x -> Format.played_frame f card input k = Some x) /\
       Format.played_frame f card (take (length input - 1) input) (length os) = None /\
       let out := mbind Format.encode_frame os in
       concat (heard_of s) `prefix_of` out /\
       length out <= length (concat (heard_of s)) + RING_BYTES /\
       (halted (hardware (device (card_of s))) = true -> length out < length (concat (heard_of s)) + START_PERIODS * PERIOD_BYTES)).
Proof.
  intros Hh Hf Hr Hes. destruct (sys_run_inv f (rate (register d)) Hf Hr es (opened d f) [] (opened_inv d f Hh) Hes) as (s & given & Hrun & I).
  exists s, given. split; [done|]. split; [intros now; by apply (round_progress f (rate (register d)) Hf Hr s _ now I)|].
  destruct I as (B & n & written & C & _ & _ & Hconv & _ & Hg & _ & Hex).
  split; [intros now; destruct C as (h0 & qs & H & _); by apply (poll_stall now _ qs)|].
  intros Hz. destruct (Hex Hz) as (os & He & Hn & Hp). exists B, os. split; [done|]. cbn zeta. split; [exact Hp|]. subst n written.
  split; [by apply (Format.converting_almost f (rate (register d)) Hf Hr (converter s))|]. by apply carries_missing.
Qed.

(** ** Witness *)

(** The hardware itself as a device, at any rate. *)
#[local] Instance plain_device : AudioDevice Sound.Card := {
  rate_for := fun _ hz => hz; set_rate := fun d hz => (hz, d);
  dev_start := fun d last => Sound.mkCard 0 last false; dev_submit := fun d last => Sound.mkCard (cur d) last (halted d);
  dev_status := fun d => (Sound.status d, d); dev_stop := fun d => Sound.mkCard (cur d) (last_valid d) true }.
#[local] Program Instance plain_laws : AudioLaws Sound.Card plain_device := { hardware := fun d => d; play := card_advance }.
Solve All Obligations with done.

Definition demo_events : list Event := [Write (replicate (4 * PERIOD_BYTES) 7%Z); Round 3; Play; Poll 20].

Lemma card_demo_run : (fun r : Sys * list Z => (stalls (card_of r.1), length (heard_of r.1))) <$> sys_run (opened (Sound.mkCard 0 0 true) Format.DEFAULT) demo_events = Some (0%Z, 1).
Proof. vm_compute. done. Qed.

(** Four periods start the card; one of them has been heard. *)
Lemma sound_heard_is_written_witness :
  exists s given, sys_run (opened (Sound.mkCard 0 0 true) Format.DEFAULT) demo_events = Some (s, given) /\ length (heard_of s) = 1 /\
    exists taken os, given = taken ++ unwritten s /\ concat (heard_of s) `prefix_of` mbind Format.encode_frame os.
Proof.
  destruct (sound_heard_is_written (Sound.mkCard 0 0 true) Format.DEFAULT demo_events) as (s & given & Hrun & _ & _ & H).
  - done.
  - cbn. lia.
  - cbn. lia.
  - apply Forall_cons_2; [apply Forall_replicate; unfold Format.is_byte; lia|]. by repeat (apply Forall_cons_2; [done|]).
  - pose proof card_demo_run as Hd. rewrite Hrun in Hd. change (Some (stalls (card_of s), length (heard_of s)) = Some (0%Z, 1)) in Hd. injection Hd as Hst Hlen.
    exists s, given. split; [exact Hrun|]. split; [exact Hlen|]. destruct (H Hst) as (taken & os & Hg & _ & _ & Hp & _). exists taken, os. split; [exact Hg|exact Hp].
Defined.

End SoundCard.
