(* ===== verification/Clock.v ===== *)
(** * Clock: the time of day and the time since boot
      ([time/{mod,tsc}.rs], and [realtime_ns] and [sleep_until_ns] of
      [syscall/mod.rs])

    The clock chip and the cycle counter are the class [Devices], each access a step
    that returns the new state; the kernel's variables are the record [Time], passed
    explicitly.  The loop that waits for the chip carries the source's own bound.

    The class [Behaviour] says what the devices do as time goes by: the chip shows
    the present second while it is calm, which six readings after a clear
    update-in-progress bit are.

    Proved: two equal readings are the date of one moment, in binary and in BCD;
    the first [CLOCK_REALTIME] is less than a second behind, but for the hours of
    noon and midnight in 12-hour mode, which are read as each other; later ones
    advance exactly as the monotonic clock, which never goes back; a sleep ends, and
    not early. *)

From stdpp Require Import base numbers list.
From S2P Require Import Prelude Abi.
Local Open Scope Z_scope.

Module Clock.
Import Abi AbiSpec.

(** ** The clock chip *)

Definition STATUS_A : Z := 0x0A.
Definition STATUS_B : Z := 0x0B.
Definition STATUS_A_UIP : Z := Z.shiftl 1 7.
Definition STATUS_B_24_HOUR : Z := Z.shiftl 1 1.
Definition STATUS_B_BINARY : Z := Z.shiftl 1 2.

Record RtcTime := mkRtcTime { year : Z; month : Z; day : Z; hour : Z; minute : Z; second : Z }.
Record RawRtc := mkRaw { raw_second : Z; raw_minute : Z; raw_hour : Z; raw_day : Z; raw_month : Z; raw_year : Z; status_b : Z }.
#[global] Instance RawRtc_eq_dec : EqDecision RawRtc.
Proof. solve_decision. Defined.

(** [read_register] of the chip and [rdtsc] of the processor. *)
Class Devices (S : Type) := { read_register : S -> Z -> Z * S; rdtsc : S -> Z * S }.

Section Rtc.
Context {S : Type} {devices : Devices S}.

Fixpoint wait_for_update (rounds : nat) (s : S) : bool * S :=
  match rounds with
  | O => (false, s)
  | Datatypes.S rounds => let '(a, s) := read_register s STATUS_A in if Z.land a STATUS_A_UIP =? 0 then (true, s) else wait_for_update rounds s
  end.

Definition WAIT_ROUNDS : nat := Z.to_nat 100000.

Definition read_raw (s : S) : option RawRtc * S :=
  let '(ready, s) := wait_for_update WAIT_ROUNDS s in
  if ready then
    let '(second, s) := read_register s 0x00 in
    let '(minute, s) := read_register s 0x02 in
    let '(hour, s) := read_register s 0x04 in
    let '(day, s) := read_register s 0x07 in
    let '(month, s) := read_register s 0x08 in
    let '(year, s) := read_register s 0x09 in
    let '(status_b, s) := read_register s STATUS_B in
    (Some (mkRaw second minute hour day month year status_b), s)
  else (None, s).

Definition bcd (value : Z) : Z := Z.land value 0x0F + Z.shiftr value 4 * 10.

Definition convert (raw : RawRtc) : RtcTime :=
  let binary := negb (Z.land (status_b raw) STATUS_B_BINARY =? 0) in
  let decode value := if binary then value else bcd value in
  let hour := decode (Z.land (raw_hour raw) 0x7F) in
  let hour := if (Z.land (status_b raw) STATUS_B_24_HOUR =? 0) && negb (Z.land (raw_hour raw) 0x80 =? 0)
              then if hour =? 12 then 0 else hour + 12 else hour in
  mkRtcTime (2000 + decode (raw_year raw)) (decode (raw_month raw)) (decode (raw_day raw)) hour (decode (raw_minute raw)) (decode (raw_second raw)).

Fixpoint read_rounds (rounds : nat) (s : S) : option RtcTime * S :=
  match rounds with
  | O => (None, s)
  | Datatypes.S rounds =>
      match read_raw s with
      | (Some first, s) =>
          match read_raw s with
          | (Some second, s) => if bool_decide (first = second) then (Some (convert first), s) else read_rounds rounds s
          | (None, s) => (None, s)
          end
      | (None, s) => (None, s)
      end
  end.
Definition read (s : S) : option RtcTime * S := read_rounds 4 s.

(** ** Time since boot *)

Definition TICK_HZ : Z := 1000.

Record Time := mkTime { ticks : Z; need_reschedule : bool; use_tsc : bool; tsc_base : Z; tsc_hz : Z; boot_epoch_ns : Z }.

Definition on_timer_interrupt (t : Time) : Time := mkTime (wrap64 (ticks t + 1)) (need_reschedule t) (use_tsc t) (tsc_base t) (tsc_hz t) (boot_epoch_ns t).
Definition request_reschedule (t : Time) : Time := mkTime (ticks t) true (use_tsc t) (tsc_base t) (tsc_hz t) (boot_epoch_ns t).
Definition take_reschedule_request (t : Time) : bool * Time := (need_reschedule t, mkTime (ticks t) false (use_tsc t) (tsc_base t) (tsc_hz t) (boot_epoch_ns t)).
Definition uptime_ms (t : Time) : option Z := Some (Z.min U64_MAX (ticks t * 1000) / TICK_HZ).

Definition cycles_to_nanos (hz cycles : Z) : Z := if hz =? 0 then 0 else wrap64 (cycles * 1000000000 / hz).
Definition cycles_to_micros (hz cycles : Z) : Z := if hz =? 0 then 0 else wrap64 (cycles * 1000000 / hz).

(** What calibration stores: [counted] when the reference timer ran out. *)
Definition calibrated (counted : bool) (tsc_start tsc_end : Z) : Z :=
  if counted && (tsc_start <? tsc_end) then Z.min U64_MAX ((tsc_end - tsc_start) * 1193182) / 11932 else 2000000000.

(** The end of [init]. *)
Definition init_tsc (hz : Z) (t : Time) (s : S) : Time * S :=
  if hz =? 0 then (t, s)
  else let '(base, s) := rdtsc s in (mkTime (ticks t) (need_reschedule t) true base hz (boot_epoch_ns t), s).

Definition now_ns (t : Time) (s : S) : Z * S :=
  if use_tsc t then
    let '(tsc, s) := rdtsc s in (cycles_to_nanos (tsc_hz t) (Z.max 0 (tsc - tsc_base t)), s)
  else (Z.min U64_MAX (ticks t * (1000000000 / TICK_HZ)), s).

(** ** The calls *)

Definition realtime_ns (t : Time) (s : S) : option Z * Time * S :=
  let '(monotonic, s) := now_ns t s in
  if boot_epoch_ns t =? 0 then
    match read s with
    | (None, s) => (None, t, s)
    | (Some rtc, s) =>
        let seconds := unix_seconds (year rtc) (month rtc) (day rtc) (hour rtc) (minute rtc) (second rtc) in
        if seconds <? 0 then (None, t, s)
        else
          let epoch := Z.max (Z.max 0 (Z.min U64_MAX (seconds * 1000000000) - monotonic)) 1 in
          (Some (Z.min U64_MAX (epoch + monotonic)), mkTime (ticks t) (need_reschedule t) (use_tsc t) (tsc_base t) (tsc_hz t) epoch, s)
    end
  else (Some (Z.min U64_MAX (boot_epoch_ns t + monotonic)), t, s).

Definition NANOS_PER_TICK : Z := 1000000000 / TICK_HZ.

(** [sleep] is the scheduler's [sleep_until]: back when that many ticks have passed. *)
Fixpoint sleep_until_ns (rounds : nat) (sleep : Z -> Time -> S -> Time * S) (deadline : Z) (t : Time) (s : S) : option (Time * S) :=
  match rounds with
  | O => None
  | Datatypes.S rounds =>
      let '(now, s) := now_ns t s in
      if deadline <=? now then Some (t, s)
      else
        let ticks' := (deadline - now + NANOS_PER_TICK - 1) / NANOS_PER_TICK in
        let '(t, s) := sleep (Z.min U64_MAX (ticks t + ticks')) t s in sleep_until_ns rounds sleep deadline t s
  end.

End Rtc.

(** ** What the devices do *)

Definition is_24_hour (mode : Z) : bool := negb (Z.land mode STATUS_B_24_HOUR =? 0).
Definition is_binary (mode : Z) : bool := negb (Z.land mode STATUS_B_BINARY =? 0).

Definition digits (mode v : Z) : Z := if is_binary mode then v else v / 10 * 16 + v mod 10.
Definition hour_digits (mode h : Z) : Z :=
  if is_24_hour mode then digits mode h
  else Z.lor (digits mode (if h mod 12 =? 0 then 12 else h mod 12)) (if h <? 12 then 0 else 0x80).

(** What the chip shows at a date. *)
Definition raw_of (mode : Z) (t : RtcTime) : RawRtc :=
  mkRaw (digits mode (second t)) (digits mode (minute t)) (hour_digits mode (hour t)) (digits mode (day t)) (digits mode (month t)) (digits mode (year t - 2000)) mode.

Definition valid_time (t : RtcTime) : Prop :=
  valid_date (year t) (month t) (day t) /\ 2000 <= year t < 2100 /\ 0 <= hour t < 24 /\ 0 <= minute t < 60 /\ 0 <= second t < 60.
Definition unix (t : RtcTime) : Z := unix_seconds (year t) (month t) (day t) (hour t) (minute t) (second t).

(** From 2000 to 2099. *)
Definition century (sec : Z) : Prop := 946684800 <= sec < 4102444800.

Class Behaviour (S : Type) (devices : Devices S) := {
  moment : S -> Z; (* nanoseconds since 1970 *)
  counter : S -> Z; (* of cycles *)
  calm : S -> nat; (* readings before the chip may update itself *)
  mode : Z; (* status register B *)
  shown : Z -> RtcTime; (* the date of a second *)
  shown_date : forall sec, century sec -> valid_time (shown sec) /\ unix (shown sec) = sec;
  register_moment : forall s r, moment s <= moment (read_register s r).2;
  register_counter : forall s r, counter s <= counter (read_register s r).2;
  register_calm : forall s r, (calm s <= Datatypes.S (calm (read_register s r).2))%nat;
  clear_calm : forall s, Z.land (read_register s STATUS_A).1 STATUS_A_UIP = 0 -> (6 <= calm (read_register s STATUS_A).2)%nat;
  register_shows : forall s, century (moment s / 1000000000) -> (0 < calm s)%nat ->
    let raw := raw_of mode (shown (moment s / 1000000000)) in
    ((read_register s 0x00).1, (read_register s 0x02).1, (read_register s 0x04).1, (read_register s 0x07).1, (read_register s 0x08).1, (read_register s 0x09).1)
    = (raw_second raw, raw_minute raw, raw_hour raw, raw_day raw, raw_month raw, raw_year raw);
  register_mode : forall s, (read_register s STATUS_B).1 = mode;
  rdtsc_value : forall s, (rdtsc s).1 = counter s;
  rdtsc_moment : forall s, moment s <= moment (rdtsc s).2;
  rdtsc_counter : forall s, counter s <= counter (rdtsc s).2 }.

(** ** What is shown can be read back *)

Lemma digits_back m v : 0 <= v < 100 -> (if is_binary m then digits m v else bcd (digits m v)) = v.
Proof.
  intros Hv. unfold digits. destruct (is_binary m); [done|].
  assert (Hx : forallb (fun v => bcd (v / 10 * 16 + v mod 10) =? v) (seqZ 0 100) = true) by (by vm_compute).
  rewrite forallb_forall in Hx. apply Z.eqb_eq, Hx, list_elem_of_In, elem_of_seqZ. lia.
Qed.

Lemma digits_inj m v w : 0 <= v < 100 -> 0 <= w < 100 -> digits m v = digits m w -> v = w.
Proof. intros Hv Hw E. rewrite <- (digits_back m v Hv), <- (digits_back m w Hw), E. done. Qed.

(** What [convert] makes of the hour shown at hour [h]. *)
Definition hour_read (m h : Z) : Z :=
  if is_24_hour m then h else if h =? 0 then 12 else if h =? 12 then 0 else h.

Lemma convert_hour (b h24 : bool) h : 0 <= h < 24 ->
  let dig v := if b then v else v / 10 * 16 + v mod 10 in
  let raw := if h24 then dig h else Z.lor (dig (if h mod 12 =? 0 then 12 else h mod 12)) (if h <? 12 then 0 else 0x80) in
  let x := if b then Z.land raw 0x7F else bcd (Z.land raw 0x7F) in
  (if negb h24 && negb (Z.land raw 0x80 =? 0) then if x =? 12 then 0 else x + 12 else x)
  = if h24 then h else if h =? 0 then 12 else if h =? 12 then 0 else h.
Proof.
  intros Hh. cbv zeta. assert (Hx : forallb (fun h => forallb (fun b : bool => forallb (fun h24 : bool =>
    let dig v := if b then v else v / 10 * 16 + v mod 10 in
    let raw := if h24 then dig h else Z.lor (dig (if h mod 12 =? 0 then 12 else h mod 12)) (if h <? 12 then 0 else 0x80) in
    let x := if b then Z.land raw 0x7F else bcd (Z.land raw 0x7F) in
    (if negb h24 && negb (Z.land raw 0x80 =? 0) then if x =? 12 then 0 else x + 12 else x)
    =? if h24 then h else if h =? 0 then 12 else if h =? 12 then 0 else h) [true; false]) [true; false]) (seqZ 0 24) = true) by (by vm_compute).
  rewrite forallb_forall in Hx. specialize (Hx h ltac:(apply list_elem_of_In, elem_of_seqZ; lia)). rewrite forallb_forall in Hx.
  specialize (Hx b ltac:(destruct b; cbn; auto)). rewrite forallb_forall in Hx. specialize (Hx h24 ltac:(destruct h24; cbn; auto)). by apply Z.eqb_eq in Hx.
Qed.

Lemma convert_raw_of m t :
  valid_time t -> convert (raw_of m t) = mkRtcTime (year t) (month t) (day t) (hour_read m (hour t)) (minute t) (second t).
Proof.
  intros ([Hmo Hd] & Hy & Hh & Hm & Hs). assert (Hd31 : day t < 32) by (unfold month_days in Hd; repeat case_match; lia).
  unfold convert, raw_of. cbn [raw_second raw_minute raw_hour raw_day raw_month raw_year status_b]. fold (is_binary m).
  f_equal; try (apply digits_back; lia).
  - rewrite digits_back by lia. lia.
  - pose proof (convert_hour (is_binary m) (is_24_hour m) (hour t) Hh) as Hx. cbv zeta in Hx. unfold hour_read. rewrite <- Hx.
    unfold hour_digits, digits, is_24_hour. destruct (Z.land m STATUS_B_24_HOUR =? 0); cbn [negb andb]; done.
Qed.

(** Noon and midnight are exchanged when the chip counts to twelve. *)
Theorem twelve_hour_noon_is_midnight m t :
  is_24_hour m = false -> valid_time t -> hour t = 12 \/ hour t = 0 -> hour (convert (raw_of m t)) = 12 - hour t.
Proof. intros Hm Ht Hh. rewrite convert_raw_of by done. cbn. unfold hour_read. rewrite Hm. by destruct Hh as [-> | ->]. Qed.

Section Reading.
Context {S : Type} {devices : Devices S} {behaviour : Behaviour S devices}.
Implicit Types (s : S).

Definition sec s : Z := moment s / 1000000000.

Lemma sec_mono s s' : moment s <= moment s' -> sec s <= sec s'.
Proof. intros. apply Z.div_le_mono; lia. Qed.
Lemma register_sec s r : sec s <= sec (read_register s r).2.
Proof. apply sec_mono, register_moment. Qed.

Lemma wait_for_update_spec rounds s ready s' :
  wait_for_update rounds s = (ready, s') -> moment s <= moment s' /\ counter s <= counter s' /\ (ready = true -> (6 <= calm s')%nat).
Proof.
  revert s. induction rounds as [|rounds IH]; intros s E; [by injection E as <- <-|]. cbn [wait_for_update] in E.
  pose proof (register_moment s STATUS_A). pose proof (register_counter s STATUS_A). pose proof (clear_calm s) as Hc.
  destruct (read_register s STATUS_A) as [a s1]. cbn [fst snd] in *. destruct (_ =? 0) eqn:Ea.
  - injection E as <- <-. apply Z.eqb_eq in Ea. split; [done|]. split; [done|]. intros _. by apply Hc.
  - apply IH in E as (? & ? & ?). split; [lia|]. split; [lia|done].
Qed.

(** A raw reading: each register at its own moment. *)
Lemma read_raw_spec s raw s' :
  read_raw s = (Some raw, s') -> century (sec s) -> century (sec s') ->
  exists t0 t1 t2 t3 t4 t5, sec s <= t0 /\ t0 <= t1 <= t2 /\ t2 <= t3 <= t4 /\ t4 <= t5 <= sec s' /\
    raw = mkRaw (digits mode (second (shown t0))) (digits mode (minute (shown t1))) (hour_digits mode (hour (shown t2)))
            (digits mode (day (shown t3))) (digits mode (month (shown t4))) (digits mode (year (shown t5) - 2000)) mode.
Proof.
  unfold read_raw. destruct (wait_for_update WAIT_ROUNDS s) as [ready s0] eqn:Ew. apply wait_for_update_spec in Ew as (Hm & _ & Hcalm).
  destruct ready; [|done]. specialize (Hcalm eq_refl). pose proof (sec_mono _ _ Hm) as Hs0.
  assert (Step : forall x r v x', read_register x r = (v, x') -> sec x <= sec x' /\ (calm x <= Datatypes.S (calm x'))%nat).
  { intros x r v x' E. pose proof (register_sec x r). pose proof (register_calm x r). rewrite E in *. done. }
  destruct (read_register s0 0x00) as [v0 s1] eqn:E0. destruct (Step _ _ _ _ E0). destruct (read_register s1 0x02) as [v1 s2] eqn:E1. destruct (Step _ _ _ _ E1).
  destruct (read_register s2 0x04) as [v2 s3] eqn:E2. destruct (Step _ _ _ _ E2). destruct (read_register s3 0x07) as [v3 s4] eqn:E3. destruct (Step _ _ _ _ E3).
  destruct (read_register s4 0x08) as [v4 s5] eqn:E4. destruct (Step _ _ _ _ E4). destruct (read_register s5 0x09) as [v5 s6] eqn:E5. destruct (Step _ _ _ _ E5).
  destruct (read_register s6 STATUS_B) as [v6 s7] eqn:E6. destruct (Step _ _ _ _ E6). intros [= <- <-] Hc Hc'.
  assert (Hall : forall x, sec s <= sec x -> sec x <= sec s7 -> century (moment x / 1000000000)) by (intros x Hx1 Hx2; unfold century, sec in *; lia).
  exists (sec s0), (sec s1), (sec s2), (sec s3), (sec s4), (sec s5). do 4 (split; [lia|]).
  pose proof (register_shows s0 ltac:(apply Hall; lia) ltac:(lia)) as R0. pose proof (register_shows s1 ltac:(apply Hall; lia) ltac:(lia)) as R1.
  pose proof (register_shows s2 ltac:(apply Hall; lia) ltac:(lia)) as R2. pose proof (register_shows s3 ltac:(apply Hall; lia) ltac:(lia)) as R3.
  pose proof (register_shows s4 ltac:(apply Hall; lia) ltac:(lia)) as R4. pose proof (register_shows s5 ltac:(apply Hall; lia) ltac:(lia)) as R5.
  pose proof (register_mode s6) as R6. rewrite E0 in R0. rewrite E1 in R1. rewrite E2 in R2. rewrite E3 in R3. rewrite E4 in R4. rewrite E5 in R5. rewrite E6 in R6.
  cbn [fst raw_of raw_second raw_minute raw_hour raw_day raw_month raw_year] in *. unfold sec. f_equal; congruence.
Qed.

Lemma read_raw_moment s r s' : read_raw s = (r, s') -> moment s <= moment s' /\ counter s <= counter s'.
Proof.
  unfold read_raw. destruct (wait_for_update WAIT_ROUNDS s) as [ready s0] eqn:Ew. apply wait_for_update_spec in Ew as (Hm & Hc & _).
  destruct ready; [|intros [= <- <-]; lia].
  assert (Step : forall x r v x', read_register x r = (v, x') -> moment x <= moment x' /\ counter x <= counter x').
  { intros x r0 v x' E. pose proof (register_moment x r0). pose proof (register_counter x r0). rewrite E in *. done. }
  repeat match goal with |- context [read_register ?x ?k] => destruct (read_register x k) as [? ?] eqn:?E; match goal with H : read_register x k = _ |- _ => destruct (Step _ _ _ _ H) end end.
  intros [= <- <-]. lia.
Qed.

Lemma read_rounds_moment rounds s r s' : read_rounds rounds s = (r, s') -> moment s <= moment s' /\ counter s <= counter s'.
Proof.
  revert s. induction rounds as [|rounds IH]; intros s E; [by injection E as <- <-|]. cbn [read_rounds] in E.
  destruct (read_raw s) as [[first|] s1] eqn:E1; apply read_raw_moment in E1; [|by injection E as <- <-].
  destruct (read_raw s1) as [[again|] s2] eqn:E2; apply read_raw_moment in E2; [|injection E as <- <-; lia].
  destruct (bool_decide (first = again)); [injection E as <- <-; lia|]. apply IH in E. lia.
Qed.

(** The same second twice within a minute is the same moment. *)
Lemma same_second a b : century a -> century b -> a <= b < a + 60 -> digits mode (second (shown a)) = digits mode (second (shown b)) -> a = b.
Proof.
  intros Ha Hb Hab E. destruct (shown_date a Ha) as [(_ & _ & _ & _ & Hsa) Ua], (shown_date b Hb) as [(_ & _ & _ & _ & Hsb) Ub].
  apply digits_inj in E; [|lia|lia]. unfold unix, unix_seconds in *. lia.
Qed.

Lemma read_rounds_spec rounds s t s' :
  read_rounds rounds s = (Some t, s') -> century (sec s) -> century (sec s') -> sec s' < sec s + 60 ->
  exists now, sec s <= now <= sec s' /\ t = convert (raw_of mode (shown now)).
Proof.
  revert s. induction rounds as [|rounds IH]; intros s E Hc Hc' Hmin; [done|]. cbn [read_rounds] in E.
  destruct (read_raw s) as [[first|] s1] eqn:E1; [|done]. destruct (read_raw s1) as [[again|] s2] eqn:E2; [|done].
  destruct (read_raw_moment _ _ _ E1) as [M1%sec_mono _], (read_raw_moment _ _ _ E2) as [M2%sec_mono _].
  destruct (bool_decide_reflect (first = again)) as [<-|Hne].
  - injection E as <- <-. assert (Hc1 : century (sec s1)) by (unfold century in *; lia).
    destruct (read_raw_spec _ _ _ E1 Hc Hc1) as (a0 & a1 & a2 & a3 & a4 & a5 & ? & ? & ? & ? & R1).
    destruct (read_raw_spec _ _ _ E2 Hc1 Hc') as (b0 & b1 & b2 & b3 & b4 & b5 & ? & ? & ? & ? & R2).
    assert (Hab : a0 = b0) by (apply same_second; [unfold century in *; lia|unfold century in *; lia|lia|congruence]).
    exists a0. split; [lia|]. f_equal. rewrite R1. assert (a1 = a0 /\ a2 = a0 /\ a3 = a0 /\ a4 = a0 /\ a5 = a0) as (-> & -> & -> & -> & ->) by lia. done.
  - destruct (read_rounds_moment _ _ _ _ E) as [M3%sec_mono _]. destruct (IH s2 E) as (now & Hn & ->); [unfold century in *; lia|done|lia|].
    exists now. split; [lia|done].
Qed.

(** What is read of a date: in 12-hour mode the hours of noon and midnight are exchanged. *)
Definition as_read (t : RtcTime) : RtcTime := mkRtcTime (year t) (month t) (day t) (hour_read mode (hour t)) (minute t) (second t).
(** By how many seconds the time read at [now] is off. *)
Definition hour_error (now : Z) : Z :=
  if is_24_hour mode then 0 else if hour (shown now) =? 0 then 43200 else if hour (shown now) =? 12 then - 43200 else 0.

Lemma convert_shown now : century now ->
  convert (raw_of mode (shown now)) = as_read (shown now) /\ unix (as_read (shown now)) = now + hour_error now.
Proof.
  intros Hc. destruct (shown_date now Hc) as [Hv Hu]. rewrite convert_raw_of by done. split; [done|]. revert Hu.
  unfold unix, as_read, unix_seconds, hour_error, hour_read. cbn [year month day hour minute second].
  destruct (is_24_hour mode); [lia|]. repeat case_if; lia.
Qed.

Lemma hour_error_small now : - 43200 <= hour_error now <= 43200.
Proof. unfold hour_error. repeat case_if; lia. Qed.

(** A date read from the clock chip is the date of a moment during the reading,
    although its registers are read one by one, in binary and in BCD; in 12-hour mode
    the hours of noon and midnight are exchanged. *)
Theorem rtc_reads_a_moment s t s' :
  read s = (Some t, s') -> century (sec s) -> century (sec s') -> sec s' < sec s + 60 ->
  exists now, sec s <= now <= sec s' /\ t = as_read (shown now) /\ unix t = now + hour_error now.
Proof.
  intros E Hc Hc' Hmin. destruct (read_rounds_spec 4 s t s' E Hc Hc' Hmin) as (now & Hn & ->). exists now. split; [done|].
  assert (Hcn : century now) by (unfold century in *; lia). destruct (convert_shown now Hcn) as [-> ?]. done.
Qed.

(** A chip that is not updating and stays within a second is read. *)
Lemma quiet_chip_is_read (quiet : S -> Prop) now s :
  (forall x r, quiet x -> quiet (read_register x r).2) -> (forall x, quiet x -> Z.land (read_register x STATUS_A).1 STATUS_A_UIP = 0) ->
  (forall x, quiet x -> sec x = now) -> century now -> quiet s -> exists s', read s = (Some (as_read (shown now)), s').
Proof.
  intros Hq Hu Hn Hc Hs.
  assert (Raw : forall x, quiet x -> exists x', read_raw x = (Some (raw_of mode (shown now)), x') /\ quiet x').
  { intros x Hx. destruct (read_raw x) as [r x'] eqn:E.
    assert (Hr : quiet x' /\ exists raw, r = Some raw).
    { revert E. unfold read_raw. change (wait_for_update WAIT_ROUNDS x) with (wait_for_update (Datatypes.S (Nat.pred WAIT_ROUNDS)) x). cbn [wait_for_update].
      pose proof (Hq x STATUS_A Hx) as H0. pose proof (Hu x Hx) as H1. destruct (read_register x STATUS_A) as [a x0]. cbn [fst snd] in *. rewrite H1. cbn [Z.eqb].
      assert (Step : forall y k v y', read_register y k = (v, y') -> quiet y -> quiet y') by (intros y k v y' Ey Hy; pose proof (Hq y k Hy); by rewrite Ey in *).
      repeat match goal with |- context [read_register ?y ?k] => destruct (read_register y k) as [? ?] eqn:?E; match goal with H : read_register y k = _ |- _ => apply Step in H; [|done] end end.
      intros [= <- <-]. eauto. }
    destruct Hr as [Hx' [raw ->]]. exists x'. split; [|done]. pose proof (Hn x Hx) as Ex. pose proof (Hn x' Hx') as Ex'.
    destruct (read_raw_spec x raw x' E) as (t0 & t1 & t2 & t3 & t4 & t5 & ? & ? & ? & ? & ->); [by rewrite Ex|by rewrite Ex'|].
    assert (t0 = now /\ t1 = now /\ t2 = now /\ t3 = now /\ t4 = now /\ t5 = now) as (-> & -> & -> & -> & -> & ->) by lia. done. }
  destruct (Raw s Hs) as (s1 & E1 & H1). destruct (Raw s1 H1) as (s2 & E2 & H2). exists s2. unfold read. cbn [read_rounds]. rewrite E1, E2.
  rewrite bool_decide_eq_true_2 by done. by rewrite (proj1 (convert_shown now Hc)).
Qed.

(** ** Clocks *)

Lemma now_ns_step t s : moment s <= moment (now_ns t s).2 /\ counter s <= counter (now_ns t s).2.
Proof.
  unfold now_ns. destruct (use_tsc t); [|done]. pose proof (rdtsc_moment s). pose proof (rdtsc_counter s). by destruct (rdtsc s).
Qed.

Lemma now_ns_value t s :
  (now_ns t s).1 = if use_tsc t then cycles_to_nanos (tsc_hz t) (Z.max 0 (counter s - tsc_base t)) else Z.min U64_MAX (ticks t * NANOS_PER_TICK).
Proof. unfold now_ns. destruct (use_tsc t); [|done]. pose proof (rdtsc_value s) as E. destruct (rdtsc s) as [c s']. cbn [fst] in *. by subst. Qed.

(** The monotonic clock never goes back, until its nanoseconds no longer fit. *)
Theorem now_ns_monotonic t s t' s' :
  counter s <= counter s' -> ticks t <= ticks t' -> (use_tsc t', tsc_base t', tsc_hz t') = (use_tsc t, tsc_base t, tsc_hz t) ->
  0 <= tsc_hz t -> (counter s' - tsc_base t) * 1000000000 < 2 ^ 64 * tsc_hz t \/ use_tsc t = false \/ tsc_hz t = 0 -> (now_ns t s).1 <= (now_ns t' s').1.
Proof.
  intros Hc Ht [= Eu Eb Eh] Hz Hfit. rewrite !now_ns_value, Eu, Eb, Eh. destruct (use_tsc t) eqn:Ut.
  2:{ change NANOS_PER_TICK with 1000000. lia. }
  unfold cycles_to_nanos. destruct (tsc_hz t =? 0) eqn:E0; [lia|]. apply Z.eqb_neq in E0.
  destruct Hfit as [Hfit|[|]]; [|done|done]. set (c := Z.max 0 (counter s - tsc_base t)). set (c' := Z.max 0 (counter s' - tsc_base t)).
  assert (Hcc : 0 <= c <= c') by lia. assert (Hdiv : c * 1000000000 / tsc_hz t <= c' * 1000000000 / tsc_hz t) by (apply Z.div_le_mono; lia).
  assert (Hpos : 0 <= c * 1000000000 / tsc_hz t) by (apply Z.div_pos; lia).
  assert (Hlt : c' * 1000000000 / tsc_hz t < 2 ^ 64).
  { destruct (Z.max_spec 0 (counter s' - tsc_base t)) as [[_ E]|[_ E]]; subst c'; rewrite E; [apply Z.div_lt_upper_bound; lia|rewrite Z.mul_0_l, Z.div_0_l by done; lia]. }
  unfold wrap64. rewrite !Z.mod_small by lia. done.
Qed.

(** C39. The first [CLOCK_REALTIME], read from the chip within a minute between 2000
    and 2099 and in the first 28 years after boot, is the time of day: less than a
    second behind the time of the call and not ahead of the time of its return, but for
    [hour_error], which is zero when the chip counts 24 hours and when it counts 12
    makes the hour of noon twelve hours early and that of midnight twelve hours late.
    From then on the clock advances exactly as the monotonic one, without the chip. *)
Theorem realtime_is_the_time t s r t' s' :
  realtime_ns t s = (Some r, t', s') -> boot_epoch_ns t = 0 -> 0 <= (now_ns t s).1 < 900000000 * 1000000000 ->
  century (sec s) -> century (sec s') -> sec s' < sec s + 60 ->
  (exists now, sec s <= now <= sec s' /\ r = (now + hour_error now) * 1000000000 /\ moment s - 1000000000 < now * 1000000000 <= moment s') /\
  forall t2 s2, boot_epoch_ns t2 = boot_epoch_ns t' ->
    let monotonic := (now_ns t2 s2).1 in
    realtime_ns t2 s2 = (Some (Z.min U64_MAX (r + (monotonic - (now_ns t s).1))), t2, (now_ns t2 s2).2).
Proof.
  intros E He Hm Hc Hc' Hmin. unfold realtime_ns in E. destruct (now_ns_step t s) as [Hs1%sec_mono _]. destruct (now_ns t s) as [mono s1]. cbn [fst snd] in *.
  rewrite He in E. cbn [Z.eqb] in E. destruct (read s1) as [[rtc|] s2] eqn:Er; [|done].
  fold (unix rtc) in E. destruct (unix rtc <? 0) eqn:Eneg; [done|]. injection E as Er' <- <-.
  destruct (read_rounds_moment 4 _ _ _ Er) as [M%sec_mono _].
  destruct (read_rounds_spec 4 s1 rtc s2 Er) as (now & Hn & ->); [unfold century in *; lia|done|lia|].
  assert (Hcn : century now) by (unfold century in *; lia). destruct (convert_shown now Hcn) as [Hcv Hu]. rewrite Hcv, Hu in *.
  pose proof (hour_error_small now) as Hsm. unfold century in *. unfold U64_MAX in *. set (v := now + hour_error now) in *.
  rewrite (Z.min_r _ (v * 1000000000)) in * by lia. rewrite (Z.max_r 0 (v * 1000000000 - mono)) in * by lia. rewrite (Z.max_l _ 1) in * by lia.
  assert (Hr : r = v * 1000000000) by lia. split.
  - exists now. split; [lia|]. split; [done|]. unfold sec in Hn, Hs1. pose proof (Z.div_mod (moment s) 1000000000 ltac:(lia)).
    pose proof (Z.mod_pos_bound (moment s) 1000000000 ltac:(lia)). pose proof (Z.div_mod (moment s2) 1000000000 ltac:(lia)).
    pose proof (Z.mod_pos_bound (moment s2) 1000000000 ltac:(lia)). nia.
  - intros t2 x Ht2. cbn [boot_epoch_ns] in Ht2. unfold realtime_ns. destruct (now_ns t2 x) as [mono2 x2]. cbn [fst snd].
    replace (boot_epoch_ns t2 =? 0) with false by (symmetry; apply Z.eqb_neq; lia). rewrite Ht2, Hr. do 4 f_equal. lia.
Qed.

(** ** Sleeping *)

(** A sleep that ends does not end early, whichever clock it reads. *)
Lemma sleep_not_early rounds sleep deadline t s t' s' :
  sleep_until_ns rounds sleep deadline t s = Some (t', s') -> exists x, (now_ns t' x).2 = s' /\ deadline <= (now_ns t' x).1.
Proof.
  revert t s. induction rounds as [|rounds IH]; intros t s E; [done|]. cbn [sleep_until_ns] in E. destruct (now_ns t s) as [now s1] eqn:En.
  destruct (Z.leb_spec deadline now).
  - injection E as <- <-. exists s. by rewrite En.
  - destruct (sleep _ t s1) as [t1 s2]. by apply IH in E.
Qed.

(** On ticks one sleep is enough. *)
Theorem sleep_ends sleep deadline t s :
  use_tsc t = false -> 0 <= ticks t -> deadline <= U64_MAX ->
  (forall d t s, d <= ticks (sleep d t s).1 /\ use_tsc (sleep d t s).1 = use_tsc t) ->
  exists t' s', sleep_until_ns 2 sleep deadline t s = Some (t', s') /\ deadline <= (now_ns t' s').1.
Proof.
  intros Hu Ht Hd Hsleep. cbn [sleep_until_ns]. unfold now_ns at 1. rewrite Hu. destruct (Z.leb_spec deadline (Z.min U64_MAX (ticks t * (1000000000 / TICK_HZ)))) as [Hle|Hlt].
  { exists t, s. split; [done|]. by rewrite now_ns_value, Hu. }
  set (k := (_ - _ + NANOS_PER_TICK - 1) / NANOS_PER_TICK). destruct (Hsleep (Z.min U64_MAX (ticks t + k)) t s) as [H1 H2].
  destruct (sleep _ t s) as [t1 s1]. cbn [fst] in *. unfold now_ns. rewrite H2, Hu. change (1000000000 / TICK_HZ) with 1000000 in *.
  assert (Hk : deadline <= (ticks t + k) * 1000000 /\ 0 < k /\ ticks t + k <= U64_MAX).
  { subst k. change NANOS_PER_TICK with 1000000. unfold U64_MAX in *. set (gap := deadline - Z.min (2 ^ 64 - 1) (ticks t * 1000000)). pose proof (Z.div_mod (gap + 1000000 - 1) 1000000 ltac:(lia)).
    pose proof (Z.mod_pos_bound (gap + 1000000 - 1) 1000000 ltac:(lia)). lia. }
  destruct Hk as (Hk1 & Hk2 & Hk3). rewrite Z.min_r in H1 by done.
  destruct (Z.leb_spec deadline (Z.min U64_MAX (ticks t1 * 1000000))); [|lia]. exists t1, s1. split; [done|]. rewrite H2, Hu. done.
Qed.

End Reading.

(** ** Devices that behave *)

Module Chip.

Definition tomorrow (d : Z * Z * Z) : Z * Z * Z := let '(y, m, d) := d in next_date y m d.
Definition good_date (days : Z) (d : Z * Z * Z) : bool :=
  let '(y, m, d) := d in (2000 <=? y) && (y <? 2100) && (1 <=? m) && (m <=? 12) && (1 <=? d) && (d <=? month_days y m) && (days_from_civil y m d =? days).
Fixpoint good_dates (n : nat) (days : Z) (d : Z * Z * Z) : bool :=
  match n with O => true | S n => good_date days d && good_dates n (days + 1) (tomorrow d) end.

Lemma good_dates_iter n days d : good_dates n days d = true -> forall i, (i < n)%nat -> good_date (days + Z.of_nat i) (Nat.iter i tomorrow d) = true.
Proof.
  revert days d. induction n as [|n IH]; intros days d H i Hi; [lia|]. cbn [good_dates] in H. apply andb_prop in H as [H1 H2].
  destruct i as [|i]; [cbn; by rewrite Z.add_0_r|]. specialize (IH _ _ H2 i ltac:(lia)). rewrite Nat.iter_succ_r. replace (days + Z.of_nat (S i)) with (days + 1 + Z.of_nat i) by lia. done.
Qed.

Lemma century_dates : good_dates (Z.to_nat 36525) 10957 (2000, 1, 1) = true.
Proof. by vm_compute. Qed.

(** The calendar, counted from 2000. *)
Definition date_of (sec : Z) : RtcTime :=
  let '(y, m, d) := Nat.iter (Z.to_nat (sec / 86400 - 10957)) tomorrow (2000, 1, 1) in
  mkRtcTime y m d (sec mod 86400 / 3600) (sec mod 3600 / 60) (sec mod 60).

Lemma date_of_spec sec : century sec -> valid_time (date_of sec) /\ unix (date_of sec) = sec.
Proof.
  intros Hc. unfold century in Hc. assert (Hd : 10957 <= sec / 86400 < 47482) by (split; [apply Z.div_le_lower_bound|apply Z.div_lt_upper_bound]; lia).
  pose proof (good_dates_iter _ _ _ century_dates (Z.to_nat (sec / 86400 - 10957)) ltac:(lia)) as Hg. rewrite Z2Nat.id in Hg by lia.
  unfold date_of. destruct (Nat.iter _ _ _) as [[y m] d]. unfold good_date in Hg. rewrite !andb_true_iff, !Z.leb_le, Z.ltb_lt, Z.eqb_eq in Hg.
  unfold valid_time, valid_date, unix, unix_seconds. cbn [year month day hour minute second]. destruct Hg as ((((((? & ?) & ?) & ?) & ?) & ?) & ->).
  Z.to_euclidean_division_equations. lia.
Qed.

(** The time in nanoseconds and the counter; an access takes a microsecond. *)
Definition later (s : Z * Z) : Z * Z := (s.1 + 1000, s.2 + 2000).
Definition show (s : Z * Z) (r : Z) : Z :=
  let raw := raw_of 2 (date_of (s.1 / 1000000000)) in
  if r =? 0 then raw_second raw else if r =? 2 then raw_minute raw else if r =? 4 then raw_hour raw else if r =? 7 then raw_day raw
  else if r =? 8 then raw_month raw else if r =? 9 then raw_year raw else if r =? STATUS_B then 2 else 0.

#[export] Instance chip : Devices (Z * Z) := { read_register s r := (show s r, later s); rdtsc s := (s.2, later s) }.
#[export] Program Instance chip_behaviour : Behaviour (Z * Z) chip := {
  moment s := s.1; counter s := s.2; calm _ := 6%nat; mode := 2; shown := date_of }.
Next Obligation. exact date_of_spec. Qed.
Next Obligation. intros s r. cbn. lia. Qed.
Next Obligation. intros s r. cbn. lia. Qed.
Next Obligation. intros s r. cbn. lia. Qed.
Next Obligation. intros s _. cbn. lia. Qed.
Next Obligation. done. Qed.
Next Obligation. done. Qed.
Next Obligation. done. Qed.
Next Obligation. intros s. cbn. lia. Qed.
Next Obligation. intros s. cbn. lia. Qed.

(** The 29th of February 2024, half past twelve. *)
Definition start : Z * Z := (1709209800 * 1000000000, 7000).
Definition booted : Time := mkTime 0 false true 5000 2000000000 0.
Definition leap_day : RtcTime := mkRtcTime 2024 2 29 12 30 0.

Lemma leap_day_read : read start = (Some leap_day, (1709209800000016000, 39000)).
Proof. by vm_compute. Qed.

Lemma start_realtime :
  realtime_ns booted start = (Some 1709209800000000000, mkTime 0 false true 5000 2000000000 1709209799999999000, (1709209800000017000, 41000)).
Proof. by vm_compute. Qed.

Lemma rtc_reads_a_moment_witness : exists now, sec start <= now /\ leap_day = date_of now.
Proof.
  destruct (rtc_reads_a_moment start leap_day _ leap_day_read) as (now & Hn & Ht & _);
    [by vm_compute|by vm_compute|by vm_compute|]. exists now. split; [exact (proj1 Hn)|]. rewrite Ht. cbn. by destruct (date_of now).
Defined.

Lemma realtime_is_the_time_witness :
  (exists now, sec start <= now <= 1709209800 /\ 1709209800000000000 = now * 1000000000) /\
  realtime_ns (mkTime 9 true true 5000 2000000000 1709209799999999000) (0, 4000005000)
  = (Some 1709209801999999000, mkTime 9 true true 5000 2000000000 1709209799999999000, (1000, 4000007000)).
Proof.
  destruct (realtime_is_the_time booted start _ _ _ start_realtime) as [(now & Hn & Hr & _) H2];
    [reflexivity|by vm_compute|by vm_compute|by vm_compute|by vm_compute|].
  split; [|rewrite H2; [|reflexivity]; by vm_compute]. exists now. split; [exact Hn|].
  rewrite Hr. change (hour_error now) with 0. by rewrite Z.add_0_r.
Defined.

End Chip.

End Clock.
