(* ===== verification/Pci.v ===== *)
(** * Pci: finding PCI functions
      ([drivers/pci/{config,device,scan,msi}.rs])

    Configuration space is the class [ConfigSpace], read and written in aligned
    words of 32 bits; the narrower accesses are the trait's own methods.  Values
    are [Z]; [not32] is the complement of a word.  A scan carries fuel: every
    round takes a bus off the list of those to visit, and a bus adds to it only
    the first time, so the fuel given is enough ([scan_total]).

    The class [Hardware] states how registers behave: a write changes the bits
    that can be written, and a base address register may only be relied on while
    the function does not decode addresses.

    Proved: sizing gives every base address register's range and leaves every
    register as it was, but for sticky error bits of the status register, which
    writing the command register's word clears ([clearable]); a scan ends and lists
    exactly the functions on the buses that can be reached, each once and in order;
    while an MSI message is changed it is never enabled half written.  [Machine] is
    a small machine that satisfies [Hardware]. *)

From stdpp Require Import base numbers sets sorting list.
From S2P Require Import Prelude.
Local Open Scope Z_scope.

Module Pci.

(** ** Configuration space *)

Record Address := mkAddress { bus : Z; device : Z; function : Z }.
#[global] Instance Address_eq_dec : EqDecision Address.
Proof. solve_decision. Defined.

Class ConfigSpace (S : Type) := { read32 : S -> Address -> Z -> Z; write32 : S -> Address -> Z -> Z -> S }.

Definition not32 (x : Z) : Z := Z.ldiff (Z.ones 32) x.
Definition not16 (x : Z) : Z := Z.ldiff (Z.ones 16) x.
Definition aligned (offset : Z) : Z := Z.ldiff offset 3.

Definition VENDOR_ID : Z := 0x00.
Definition DEVICE_ID : Z := 0x02.
Definition COMMAND : Z := 0x04.
Definition STATUS : Z := 0x06.
Definition REVISION : Z := 0x08.
Definition PROG_IF : Z := 0x09.
Definition SUBCLASS : Z := 0x0a.
Definition CLASS : Z := 0x0b.
Definition HEADER_TYPE : Z := 0x0e.
Definition BAR0 : Z := 0x10.
Definition SECONDARY_BUS : Z := 0x19.
Definition CAPABILITIES : Z := 0x34.
Definition INTERRUPT_LINE : Z := 0x3c.
Definition INTERRUPT_PIN : Z := 0x3d.
Definition COMMAND_IO : Z := 1.
Definition COMMAND_MEMORY : Z := 2.
Definition COMMAND_INTX_DISABLE : Z := Z.shiftl 1 10.
Definition STATUS_CAPABILITIES : Z := Z.shiftl 1 4.
Definition NO_DEVICE : Z := 0xffff.
Definition HEADER_BRIDGE : Z := 1.

Section Config.
Context {S : Type} {config : ConfigSpace S}.

Definition read16 (s : S) (a : Address) (offset : Z) : Z :=
  Z.land (Z.shiftr (read32 s a (aligned offset)) (Z.land offset 2 * 8)) 0xffff.
Definition read8 (s : S) (a : Address) (offset : Z) : Z :=
  Z.land (Z.shiftr (read32 s a (aligned offset)) (Z.land offset 3 * 8)) 0xff.
Definition write16 (s : S) (a : Address) (offset value : Z) : S :=
  let shift := Z.land offset 2 * 8 in
  let old := read32 s a (aligned offset) in
  write32 s a (aligned offset) (Z.lor (Z.land old (not32 (Z.shiftl 0xffff shift))) (Z.shiftl value shift)).

(** ** One function *)

Inductive Bar := Io (port size : Z) | Memory (address size : Z) (prefetchable wide : bool).

Record PciDevice := mkDevice {
  address : Address; vendor : Z; device_id : Z; class : Z; subclass : Z; prog_if : Z; revision : Z; header_type : Z;
  multifunction : bool; bars : list (option Bar); interrupt_line : Z; interrupt_pin : Z; capabilities : list (Z * Z) }.

Definition is_bridge (d : PciDevice) : bool := header_type d =? HEADER_BRIDGE.
Definition has_capability (d : PciDevice) (id : Z) : option Z := snd <$> List.find (fun e => e.1 =? id) (capabilities d).

(** Write all ones, read what stuck, restore. *)
Definition probe (s : S) (a : Address) (offset : Z) : Z * Z * S :=
  let original := read32 s a offset in
  let s := write32 s a offset (Z.ones 32) in
  let mask := read32 s a offset in
  (original, mask, write32 s a offset original).

Definition size_bar (s : S) (a : Address) (offset : Z) (last_slot : bool) : option Bar * nat * S :=
  let '(original, mask, s) := probe s a offset in
  if Z.land original 1 =? 1 then
    let mask := Z.land mask (not32 3) in
    let size := Z.land ((not32 mask + 1) mod 2 ^ 32) 0xffff in
    if (mask =? 0) || (size =? 0) then (None, 1%nat, s)
    else (Some (Io (Z.land original (not32 3) mod 2 ^ 16) size), 1%nat, s)
  else
    let wide := Z.land (Z.shiftr original 1) 3 =? 2 in
    let prefetchable := negb (Z.land original 8 =? 0) in
    if wide && negb last_slot then
      let '(original_upper, mask_upper, s) := probe s a (offset + 4) in
      let mask := Z.lor (Z.shiftl mask_upper 32) (Z.land mask (not32 0xf)) in
      if mask =? 0 then (None, 2%nat, s)
      else (Some (Memory (Z.lor (Z.shiftl original_upper 32) (Z.land original (not32 0xf)))
                    ((Z.ldiff (Z.ones 64) mask + 1) mod 2 ^ 64) prefetchable true), 2%nat, s)
    else
      let mask := Z.land mask (not32 0xf) in
      if mask =? 0 then (None, 1%nat, s)
      else (Some (Memory (Z.land original (not32 0xf)) ((not32 mask + 1) mod 2 ^ 32) prefetchable false), 1%nat, s).

(** The loop over slots; each takes one or two, so [count] rounds are enough. *)
Fixpoint bar_loop (fuel slot count : nat) (a : Address) (bars : list (option Bar)) (s : S) : list (option Bar) * S :=
  match fuel with
  | O => (bars, s)
  | Datatypes.S fuel =>
      if (slot <? count)%nat then
        let '(bar, used, s) := size_bar s a (BAR0 + Z.of_nat slot * 4) (slot + 1 =? count)%nat in
        bar_loop fuel (slot + used) count a (<[slot := bar]> bars) s
      else (bars, s)
  end.

Definition read_bars (s : S) (a : Address) (count : nat) : list (option Bar) * S :=
  let command := read16 s a COMMAND in
  let s := write16 s a COMMAND (Z.land command (not16 (Z.lor COMMAND_IO COMMAND_MEMORY))) in
  let '(bars, s) := bar_loop count 0 count a (replicate 6 None) s in
  (bars, write16 s a COMMAND command).

Fixpoint capability_loop (rounds : nat) (s : S) (a : Address) (offset : Z) (l : list (Z * Z)) : list (Z * Z) :=
  match rounds with
  | O => l
  | Datatypes.S rounds =>
      if offset <? 0x40 then l
      else capability_loop rounds s a (Z.ldiff (read8 s a (offset + 1)) 3) (l ++ [(read8 s a offset, offset)])
  end.

Definition read_capabilities (s : S) (a : Address) : list (Z * Z) :=
  if Z.land (read16 s a STATUS) STATUS_CAPABILITIES =? 0 then []
  else capability_loop 48 s a (Z.ldiff (read8 s a CAPABILITIES) 3) [].

Definition read_device (s : S) (a : Address) : option PciDevice * S :=
  let vendor := read16 s a VENDOR_ID in
  if vendor =? NO_DEVICE then (None, s)
  else
    let header := read8 s a HEADER_TYPE in
    let header_type := Z.land header 0x7f in
    let count := if header_type =? 0 then 6%nat else if header_type =? HEADER_BRIDGE then 2%nat else 0%nat in
    let device_id := read16 s a DEVICE_ID in
    let class := read8 s a CLASS in
    let subclass := read8 s a SUBCLASS in
    let prog_if := read8 s a PROG_IF in
    let revision := read8 s a REVISION in
    let '(bars, s) := read_bars s a count in
    (Some (mkDevice a vendor device_id class subclass prog_if revision header_type (negb (Z.land header 0x80 =? 0)) bars
             (read8 s a INTERRUPT_LINE) (read8 s a INTERRUPT_PIN) (read_capabilities s a)), s).

(** ** The hierarchy *)

(** Functions [fs] of a slot that exist. *)
Fixpoint read_functions (b d : Z) (fs : list Z) (s : S) : list PciDevice * S :=
  match fs with
  | [] => ([], s)
  | f :: fs =>
      let '(r, s) := read_device s (mkAddress b d f) in
      let '(rest, s) := read_functions b d fs s in (option_list r ++ rest, s)
  end.

Definition is_pci_bridge (d : PciDevice) : bool := is_bridge d && (class d =? 0x06) && (subclass d =? 0x04).

(** The buses behind the bridges among some functions of bus [b]. *)
Definition bridge_targets (s : S) (b : Z) (found : list PciDevice) : list Z :=
  omap (fun d => if is_pci_bridge d then
                   let secondary := read8 s (address d) SECONDARY_BUS in
                   if negb (secondary =? 0) && negb (secondary =? b) then Some secondary else None
                 else None) found.

Fixpoint scan_slots (b : Z) (slots : list Z) (devices : list PciDevice) (pending : list Z) (s : S) : list PciDevice * list Z * S :=
  match slots with
  | [] => (devices, pending, s)
  | d :: slots =>
      let '(first, s) := read_device s (mkAddress b d 0) in
      match first with
      | None => scan_slots b slots devices pending s
      | Some first =>
          let '(rest, s) := read_functions b d (if multifunction first then seqZ 1 7 else []) s in
          let found := first :: rest in
          scan_slots b slots (devices ++ found) (pending ++ bridge_targets s b found) s
      end
  end.

(** [pending.pop()] takes the last one. *)
Fixpoint scan_loop (fuel : nat) (visited pending : list Z) (devices : list PciDevice) (s : S) : option (list PciDevice * S) :=
  match fuel with
  | O => None
  | Datatypes.S fuel =>
      match last pending with
      | None => Some (devices, s)
      | Some b =>
          let pending := removelast pending in
          if bool_decide (b ∈ visited) then scan_loop fuel visited pending devices s
          else
            let '(devices, pending, s) := scan_slots b (seqZ 0 32) devices pending s in
            scan_loop fuel (b :: visited) pending devices s
      end
  end.

Definition address_le (x y : Address) : bool :=
  (bus x <? bus y) || ((bus x =? bus y) && ((device x <? device y) || ((device x =? device y) && (function x <=? function y)))).

Fixpoint insert_device (d : PciDevice) (l : list PciDevice) : list PciDevice :=
  match l with [] => [d] | e :: l' => if address_le (address d) (address e) then d :: l else e :: insert_device d l' end.
Definition sort_devices (l : list PciDevice) : list PciDevice := foldr insert_device [] l.

(** A bus adds at most 256 buses, and there are 256 buses. *)
Definition SCAN_FUEL : nat := 256 * 257 + 10.

Definition scan (s : S) : option (list PciDevice * S) :=
  let '(host, s) := read_device s (mkAddress 0 0 0) in
  let '(hosts, s) :=
    match host with
    | Some h => if multifunction h then let '(ds, s) := read_functions 0 0 (seqZ 1 7) s in ((fun d => function (address d)) <$> ds, s) else ([], s)
    | None => ([], s)
    end in
  match scan_loop SCAN_FUEL [] (0 :: hosts) [] s with
  | Some (devices, s) => Some (sort_devices devices, s)
  | None => None
  end.

(** ** Message signalled interrupts *)

Definition CONTROL_ENABLE : Z := 1.
Definition CONTROL_ENABLED_VECTORS : Z := Z.shiftl 0x7 4.
Definition CONTROL_64_BIT : Z := Z.shiftl 1 7.
Definition CONTROL_PER_VECTOR_MASK : Z := Z.shiftl 1 8.
Definition MESSAGE_BASE : Z := 0xfee00000.

Record MsiCapability := mkMsi { offset : Z; msi_wide : bool; per_vector_mask : bool; vectors : Z }.

Definition read_msi (s : S) (a : Address) (off : Z) : MsiCapability :=
  let control := read16 s a (off + 2) in
  mkMsi off (negb (Z.land control CONTROL_64_BIT =? 0)) (negb (Z.land control CONTROL_PER_VECTOR_MASK =? 0))
    (Z.shiftl 1 (Z.min (Z.land (Z.shiftr control 1) 7) 5)).

Definition control_register (m : MsiCapability) : Z := offset m + 2.
Definition address_low (m : MsiCapability) : Z := offset m + 4.
Definition address_high (m : MsiCapability) : option Z := if msi_wide m then Some (offset m + 8) else None.
Definition data_register (m : MsiCapability) : Z := offset m + if msi_wide m then 0x0c else 0x08.
Definition mask_register (m : MsiCapability) : option Z := if per_vector_mask m then Some (offset m + if msi_wide m then 0x10 else 0x0c) else None.
Definition is_enabled (s : S) (a : Address) (m : MsiCapability) : bool := negb (Z.land (read16 s a (control_register m)) CONTROL_ENABLE =? 0).

Definition message_address (destination : Z) : Z := Z.lor MESSAGE_BASE (Z.shiftl destination 12).

(** [program]: the states after its writes, in order, the last one at the end. *)
Definition program (s : S) (a : Address) (m : MsiCapability) (destination vector : Z) : list S :=
  let control := Z.land (read16 s a (control_register m)) (not16 (Z.lor CONTROL_ENABLE CONTROL_ENABLED_VECTORS)) in
  let s1 := write16 s a (control_register m) control in
  let s2 := write32 s1 a (address_low m) (message_address destination) in
  let s3 := match address_high m with Some high => write32 s2 a high 0 | None => s2 end in
  let s4 := write16 s3 a (data_register m) vector in
  let s5 := match mask_register m with Some mask => write32 s4 a mask (Z.land (read32 s4 a mask) (not32 1)) | None => s4 end in
  let s6 := write16 s5 a COMMAND (Z.lor (read16 s5 a COMMAND) COMMAND_INTX_DISABLE) in
  [s1; s2; s3; s4; s5; s6; write16 s6 a (control_register m) (Z.lor control CONTROL_ENABLE)].

Definition disable (s : S) (a : Address) (m : MsiCapability) : S :=
  let s := write16 s a (control_register m) (Z.land (read16 s a (control_register m)) (not16 CONTROL_ENABLE)) in
  write16 s a COMMAND (Z.land (read16 s a COMMAND) (not16 COMMAND_INTX_DISABLE)).

End Config.

(** ** How registers behave *)

Definition word (o : Z) : Prop := 0 <= o < 256 /\ (4 | o).
Lemma word_check o : (0 <=? o) && (o <? 256) && (o mod 4 =? 0) = true -> word o.
Proof.
  intros [[H1%Z.leb_le H2%Z.ltb_lt]%andb_prop H3%Z.eqb_eq]%andb_prop. split; [lia|]. apply Z.mod_divide; [lia|done].
Qed.

Definition is_bar (o : Z) : bool := (BAR0 <=? o) && (o <? 0x28).

(** The error bits of the status register are cleared by writing ones to them. *)
Definition clearable (o : Z) : Z := if o =? COMMAND then 0xf9000000 else 0.
Definition written (w clear old v : Z) : Z := Z.ldiff (Z.lor (Z.ldiff old w) (Z.land v w)) (Z.land v clear).

Definition decoding {S} {config : ConfigSpace S} (s : S) (a : Address) : bool :=
  negb (Z.land (read32 s a COMMAND) (Z.lor COMMAND_IO COMMAND_MEMORY) =? 0).

Class Hardware (S : Type) (config : ConfigSpace S) := {
  writable : Address -> Z -> Z;
  writable_range : forall a o, 0 <= writable a o < 2 ^ 32;
  writable_command : forall a, writable a COMMAND < 2 ^ 16;
  read_range : forall s a o, 0 <= read32 s a o < 2 ^ 32;
  write_same : forall s a o v, word o -> (is_bar o = true -> decoding s a = false) ->
    read32 (write32 s a o v) a o = written (writable a o) (clearable o) (read32 s a o) v;
  write_other : forall s a o v a' o', word o -> word o' -> (is_bar o = true -> decoding s a = false) -> (a', o') <> (a, o) ->
    read32 (write32 s a o v) a' o' = read32 s a' o';
  (* a function can be told not to decode: bits that cannot be written are zero *)
  decoding_optional : forall s a, read16 s a VENDOR_ID <> NO_DEVICE ->
    Z.land (Z.ldiff (read32 s a COMMAND) (writable a COMMAND)) (Z.lor COMMAND_IO COMMAND_MEMORY) = 0 }.

Ltac bits :=
  apply Z.bits_inj'; intros bit Hbit;
  rewrite ?Z.lor_spec, ?Z.land_spec, ?Z.ldiff_spec, ?Z.lor_spec, ?Z.land_spec, ?Z.ldiff_spec, ?Z.bits_0;
  repeat match goal with |- context [Z.testbit ?x bit] => destruct (Z.testbit x bit) end; try done.

Lemma high_bit x k n : 0 <= x < 2 ^ k -> k <= n -> Z.testbit x n = false.
Proof.
  intros Hx Hn. destruct (decide (x = 0)) as [->|]; [apply Z.bits_0|]. assert (0 < k) by (destruct (Z.lt_ge_cases 0 k); [done|]; destruct (decide (k = 0)) as [->|]; [cbn in Hx; lia|rewrite Z.pow_neg_r in Hx by lia; lia]).
  apply Z.bits_above_log2; [lia|]. assert (Z.log2 x < k) by (apply Z.log2_lt_pow2; lia). lia.
Qed.

Lemma written_back w old v : written w 0 (written w 0 old v) old = old.
Proof. unfold written. rewrite !Z.land_0_r, !Z.ldiff_0_r. bits. Qed.

Lemma land_ones_id x k : 0 <= k -> 0 <= x < 2 ^ k -> Z.land (Z.ones k) x = x.
Proof. intros Hk Hx. rewrite Z.land_comm, Z.land_ones by done. by apply Z.mod_small. Qed.

Lemma land_low v m k : 0 <= k -> 0 <= v < 2 ^ k -> 0 <= Z.land v m < 2 ^ k.
Proof.
  intros Hk Hv. rewrite <- (land_ones_id v k) by done. rewrite <- Z.land_assoc, Z.land_comm, Z.land_ones by done. apply Z.mod_pos_bound. lia.
Qed.

Definition stuck (old w : Z) : Z := Z.lor (Z.ldiff old w) w.

(** ** What base address registers encode *)

(** Bits [k] to [n - 1]. *)
Definition field_bits (n k : Z) : Z := Z.shiftl (Z.ones (n - k)) k.

(** The contents and writable bits of a range of [2 ^ k] bytes or ports at [base]. *)
Inductive encodes : Z * Z -> option Bar -> Prop :=
| encodes_none : encodes (0, 0) None
| encodes_io base k top :
    2 <= k < 16 -> 0 <= base < 2 ^ 16 -> (2 ^ k | base) -> top = 16 \/ top = 32 ->
    encodes (Z.lor base 1, field_bits top k) (Some (Io base (2 ^ k)))
| encodes_memory base k flags :
    4 <= k < 32 -> 0 <= base < 2 ^ 32 -> (2 ^ k | base) -> flags ∈ [0; 2; 8; 10] ->
    encodes (Z.lor base flags, field_bits 32 k) (Some (Memory base (2 ^ k) (negb (Z.land flags 8 =? 0)) false)).
Inductive encodes_wide : Z * Z -> Z * Z -> option Bar -> Prop :=
| encodes_memory64 base k flags :
    4 <= k < 64 -> 0 <= base < 2 ^ 64 -> (2 ^ k | base) -> flags ∈ [4; 12] ->
    encodes_wide (Z.lor (Z.land base (Z.ones 32)) flags, Z.land (field_bits 64 k) (Z.ones 32)) (Z.shiftr base 32, Z.shiftr (field_bits 64 k) 32)
      (Some (Memory base (2 ^ k) (negb (Z.land flags 8 =? 0)) true)).

Inductive laid_out (reg : nat -> Z * Z) (count : nat) : nat -> list (option Bar) -> Prop :=
| laid_out_end : laid_out reg count count []
| laid_out_one slot b l : (slot < count)%nat -> encodes (reg slot) b -> laid_out reg count (slot + 1) l -> laid_out reg count slot (b :: l)
| laid_out_two slot b l :
    (slot + 1 < count)%nat -> encodes_wide (reg slot) (reg (slot + 1)%nat) b -> laid_out reg count (slot + 2) l -> laid_out reg count slot (b :: None :: l).

Lemma field_bit n k i : 0 <= k <= n -> 0 <= i -> Z.testbit (field_bits n k) i = (k <=? i) && (i <? n).
Proof.
  intros Hk Hi. unfold field_bits. rewrite Z.shiftl_spec by done. destruct (Z.leb_spec k i); [|apply Z.testbit_neg_r; lia].
  rewrite Z.testbit_ones_nonneg by lia. cbn [andb]. destruct (Z.ltb_spec (i - k) (n - k)), (Z.ltb_spec i n); (done || lia).
Qed.

Lemma low_bit x k i : (2 ^ k | x) -> 0 <= i < k -> Z.testbit x i = false.
Proof. intros [c ->] Hi. apply Z.mul_pow2_bits_low. lia. Qed.

Lemma field_value n k : 0 <= k <= n -> field_bits n k = 2 ^ n - 2 ^ k.
Proof. intros Hk. unfold field_bits. rewrite Z.shiftl_mul_pow2, Z.ones_equiv by lia. rewrite Z.mul_pred_l, <- Z.pow_add_r by lia. f_equal. f_equal. lia. Qed.

Lemma ones_complement n x : 0 <= n -> 0 <= x < 2 ^ n -> Z.ldiff (Z.ones n) x = 2 ^ n - 1 - x.
Proof.
  intros Hn Hx. rewrite <- Z.sub_nocarry_ldiff; [rewrite Z.ones_equiv; lia|]. apply Z.bits_inj'. intros i Hi. rewrite Z.ldiff_spec, Z.bits_0.
  destruct (Z.lt_ge_cases i n); [rewrite Z.testbit_ones_nonneg by lia|by rewrite (high_bit x n i) by lia].
  replace (i <? n) with true by (symmetry; apply Z.ltb_lt; lia). by rewrite andb_false_r.
Qed.

Lemma ones_field_size n k : 0 <= k < n -> (Z.ldiff (Z.ones n) (field_bits n k) + 1) mod 2 ^ n = 2 ^ k.
Proof.
  intros Hk. assert (0 < 2 ^ k < 2 ^ n) by (split; [apply Z.pow_pos_nonneg; lia|apply Z.pow_lt_mono_r; lia]).
  rewrite field_value, ones_complement by lia. rewrite Z.mod_small; lia.
Qed.

Lemma base_bit base flags low n k i :
  0 <= base < 2 ^ n -> (2 ^ k | base) -> 0 <= low <= k -> 0 <= flags < 2 ^ low -> 0 <= i ->
  Z.testbit (Z.lor base flags) i = if i <? low then Z.testbit flags i else Z.testbit base i.
Proof.
  intros Hb Hd Hl Hf Hi. rewrite Z.lor_spec. destruct (Z.ltb_spec i low); [by rewrite (low_bit base k i) by (done || lia)|].
  rewrite (high_bit flags low i) by lia. apply orb_false_r.
Qed.

Lemma clear_low base flags low n k :
  0 <= base < 2 ^ n -> n <= 32 -> (2 ^ k | base) -> 0 <= low <= k -> 0 <= flags < 2 ^ low -> Z.land (Z.lor base flags) (not32 (Z.ones low)) = base.
Proof.
  intros Hb Hn Hd Hl Hf. apply Z.bits_inj'. intros i Hi. rewrite Z.land_spec, (base_bit base flags low n k) by done. unfold not32.
  rewrite Z.ldiff_spec, !Z.testbit_ones_nonneg by lia. destruct (Z.ltb_spec i low); cbn [negb].
  - rewrite !andb_false_r. by rewrite (low_bit base k i) by (done || lia).
  - rewrite andb_true_r. destruct (Z.ltb_spec i 32); [apply andb_true_r|]. rewrite (high_bit base n i) by lia. done.
Qed.

(** The bits that stick are the writable ones. *)
Lemma stuck_field base flags low n k top :
  0 <= base < 2 ^ n -> (2 ^ k | base) -> 0 <= low <= k -> 0 <= flags < 2 ^ low -> k <= n <= top -> top <= 32 ->
  Z.land (stuck (Z.lor base flags) (field_bits top k)) (not32 (Z.ones low)) = field_bits top k.
Proof.
  intros Hb Hd Hl Hf Hn Ht. apply Z.bits_inj'. intros i Hi. unfold stuck, not32.
  rewrite Z.land_spec, Z.lor_spec, !Z.ldiff_spec, (base_bit base flags low n k), field_bit, !Z.testbit_ones_nonneg by (done || lia).
  destruct (Z.ltb_spec i low), (Z.leb_spec k i), (Z.ltb_spec i top), (Z.ltb_spec i 32); cbn [negb andb orb]; rewrite ?andb_false_r, ?andb_true_r; try (done || lia).
  - by rewrite (high_bit base n i) by lia.
  - rewrite (low_bit base k i) by (done || lia). done.
Qed.

(** What sizing makes of a register's contents and writable bits, and those of
    the register after it. *)
Definition bar_of (lo hi : Z * Z) (last_slot : bool) : option Bar * nat :=
  let '(original, w) := lo in
  let mask := stuck original w in
  if Z.land original 1 =? 1 then
    let mask := Z.land mask (not32 3) in
    let size := Z.land ((not32 mask + 1) mod 2 ^ 32) 0xffff in
    if (mask =? 0) || (size =? 0) then (None, 1%nat) else (Some (Io (Z.land original (not32 3) mod 2 ^ 16) size), 1%nat)
  else
    let wide := Z.land (Z.shiftr original 1) 3 =? 2 in
    let prefetchable := negb (Z.land original 8 =? 0) in
    if wide && negb last_slot then
      let mask := Z.lor (Z.shiftl (stuck hi.1 hi.2) 32) (Z.land mask (not32 0xf)) in
      if mask =? 0 then (None, 2%nat)
      else (Some (Memory (Z.lor (Z.shiftl hi.1 32) (Z.land original (not32 0xf))) ((Z.ldiff (Z.ones 64) mask + 1) mod 2 ^ 64) prefetchable true), 2%nat)
    else
      let mask := Z.land mask (not32 0xf) in
      if mask =? 0 then (None, 1%nat)
      else (Some (Memory (Z.land original (not32 0xf)) ((not32 mask + 1) mod 2 ^ 32) prefetchable false), 1%nat).

Lemma flag_test base flags low n k m :
  0 <= base < 2 ^ n -> (2 ^ k | base) -> 0 <= low <= k -> 0 <= flags < 2 ^ low -> 0 <= m < 2 ^ low -> Z.land (Z.lor base flags) m = Z.land flags m.
Proof.
  intros Hb Hd Hl Hf Hm. apply Z.bits_inj'. intros i Hi. rewrite !Z.land_spec, (base_bit base flags low n k) by done.
  destruct (Z.ltb_spec i low); [done|]. by rewrite (high_bit m low i), !andb_false_r by lia.
Qed.

Lemma kind_test x : Z.land (Z.shiftr x 1) 3 = Z.shiftr (Z.land x 6) 1.
Proof. by rewrite Z.shiftr_land. Qed.

Lemma field_positive n k : 0 <= k < n -> (field_bits n k =? 0) = false.
Proof. intros Hk. apply Z.eqb_neq. rewrite field_value by lia. assert (2 ^ k < 2 ^ n) by (apply Z.pow_lt_mono_r; lia). lia. Qed.

Lemma io_size top k : 2 <= k < 16 -> top = 16 \/ top = 32 -> Z.land ((not32 (field_bits top k) + 1) mod 2 ^ 32) 0xffff = 2 ^ k.
Proof.
  intros Hk Ht. assert (Hx : forallb (fun k => (Z.land ((not32 (field_bits 16 k) + 1) mod 2 ^ 32) 0xffff =? 2 ^ k) && (Z.land ((not32 (field_bits 32 k) + 1) mod 2 ^ 32) 0xffff =? 2 ^ k)) (seqZ 2 14) = true) by (by vm_compute).
  rewrite forallb_forall in Hx. destruct (andb_prop _ _ (Hx k ltac:(apply list_elem_of_In, elem_of_seqZ; lia))) as [H1%Z.eqb_eq H2%Z.eqb_eq]. by destruct Ht as [->| ->].
Qed.

Lemma encodes_bar lo hi last_slot b : encodes lo b -> bar_of lo hi last_slot = (b, 1%nat).
Proof.
  intros [|base k top Hk Hb Hd Ht|base k flags Hk Hb Hd Hf].
  - unfold bar_of. cbn. done.
  - unfold bar_of. rewrite (flag_test base 1 2 16 k 1) by (done || lia). change (Z.land 1 1 =? 1) with true. cbv zeta. cbn iota. change 3 with (Z.ones 2).
    rewrite (stuck_field base 1 2 16 k top) by (done || lia). rewrite (clear_low base 1 2 16 k), io_size, field_positive by (done || lia).
    assert (0 < 2 ^ k) by (apply Z.pow_pos_nonneg; lia). replace (2 ^ k =? 0) with false by (symmetry; apply Z.eqb_neq; lia).
    by rewrite Z.mod_small by done.
  - assert (Hr : 0 <= flags < 2 ^ 4) by (rewrite !elem_of_cons, elem_of_nil in Hf; lia).
    assert (Hbits : Z.land flags 1 = 0 /\ Z.land (Z.shiftr flags 1) 3 <> 2) by (rewrite !elem_of_cons, elem_of_nil in Hf; destruct Hf as [->|[->|[->|[->|[]]]]]; done).
    destruct Hbits as [H1 H2]. unfold bar_of. rewrite (kind_test (Z.lor base flags)). rewrite (flag_test base flags 4 32 k 1), (flag_test base flags 4 32 k 6), (flag_test base flags 4 32 k 8) by (done || lia). rewrite <- kind_test, H1. change (0 =? 1) with false. cbv zeta. cbn iota.
    apply Z.eqb_neq in H2.
    rewrite H2. cbn [andb]. change 15 with (Z.ones 4).
    rewrite (stuck_field base flags 4 32 k 32), (clear_low base flags 4 32 k), field_positive by (done || lia). unfold not32. by rewrite ones_field_size by lia.
Qed.

(** The two halves of a 64-bit register. *)
Lemma wide_halves base k flags :
  4 <= k < 64 -> 0 <= base < 2 ^ 64 -> (2 ^ k | base) -> 0 <= flags < 2 ^ 4 ->
  Z.lor (Z.shiftl (stuck (Z.shiftr base 32) (Z.shiftr (field_bits 64 k) 32)) 32)
    (Z.land (stuck (Z.lor (Z.land base (Z.ones 32)) flags) (Z.land (field_bits 64 k) (Z.ones 32))) (not32 (Z.ones 4))) = field_bits 64 k /\
  Z.lor (Z.shiftl (Z.shiftr base 32) 32) (Z.land (Z.lor (Z.land base (Z.ones 32)) flags) (not32 (Z.ones 4))) = base.
Proof.
  intros Hk Hb Hd Hf. unfold stuck, not32. split; apply Z.bits_inj'; intros i Hi.
  - rewrite field_bit by lia. rewrite Z.lor_spec, Z.shiftl_spec, Z.land_spec, !Z.lor_spec, !Z.ldiff_spec, Z.lor_spec, !Z.land_spec, field_bit by lia.
    rewrite !Z.testbit_ones_nonneg by lia. destruct (Z.lt_ge_cases i 32) as [Hlt|Hge].
    + rewrite !(Z.testbit_neg_r _ (i - 32)) by lia. replace (i <? 32) with true by (symmetry; apply Z.ltb_lt; lia). replace (i <? 64) with true by (symmetry; apply Z.ltb_lt; lia).
      destruct (Z.leb_spec k i); [destruct (Z.ltb_spec i 4); [lia|]; cbn [negb andb orb]; by rewrite ?andb_false_r, ?orb_true_r|].
      rewrite (low_bit base k i) by (done || lia). destruct (Z.ltb_spec i 4); [by rewrite !andb_false_r|]. by rewrite (high_bit flags 4 i) by lia.
    + replace (i <? 32) with false by (symmetry; apply Z.ltb_ge; lia). rewrite !andb_false_r, !orb_false_r. rewrite !Z.shiftr_spec by lia. replace (i - 32 + 32) with i by lia. rewrite field_bit by lia.
      destruct (Z.leb_spec k i), (Z.ltb_spec i 64); cbn [negb andb orb]; rewrite ?andb_false_r, ?andb_true_r, ?orb_true_r, ?orb_false_r; try done.
      * by apply (high_bit base 64); lia.
      * by apply (low_bit base k).
      * by apply (low_bit base k).
  - rewrite Z.lor_spec, Z.shiftl_spec, Z.land_spec, Z.lor_spec, Z.land_spec, Z.ldiff_spec, !Z.testbit_ones_nonneg by lia.
    destruct (Z.lt_ge_cases i 32) as [Hlt|Hge].
    + rewrite (Z.testbit_neg_r _ (i - 32)) by lia. replace (i <? 32) with true by (symmetry; apply Z.ltb_lt; lia).
      destruct (Z.ltb_spec i 4); cbn [negb andb orb]; [rewrite !andb_false_r; by rewrite (low_bit base k i) by (done || lia)|].
      rewrite (high_bit flags 4 i) by lia. by rewrite !andb_true_r, orb_false_r.
    + replace (i <? 32) with false by (symmetry; apply Z.ltb_ge; lia). rewrite !andb_false_r, !orb_false_r. rewrite Z.shiftr_spec by lia. f_equal. lia.
Qed.

Lemma encodes_wide_bar lo hi b : encodes_wide lo hi b -> bar_of lo hi false = (b, 2%nat).
Proof.
  intros [base k flags Hk Hb Hd Hf].
  assert (Hr : 0 <= flags < 2 ^ 4) by (rewrite !elem_of_cons, elem_of_nil in Hf; lia).
  assert (Hbits : Z.land flags 1 = 0 /\ Z.land (Z.shiftr flags 1) 3 = 2) by (rewrite !elem_of_cons, elem_of_nil in Hf; destruct Hf as [->|[->|[]]]; done).
  destruct Hbits as [H1 H2].
  assert (Hlow : 0 <= Z.land base (Z.ones 32) < 2 ^ 32 /\ (2 ^ 4 | Z.land base (Z.ones 32))).
  { rewrite Z.land_ones by done. split; [apply Z.mod_pos_bound; lia|]. assert ((2 ^ 4 | base)) as [c ->].
    { etrans; [|exact Hd]. exists (2 ^ (k - 4)). rewrite <- Z.pow_add_r by lia. f_equal. lia. }
    change (2 ^ 32) with (2 ^ 28 * 2 ^ 4). rewrite Zmult_mod_distr_r. by exists (c mod 2 ^ 28). }
  destruct Hlow as [Hl1 Hl2]. destruct (wide_halves base k flags Hk Hb Hd Hr) as [W1 W2]. unfold bar_of. cbn [fst snd].
  rewrite (kind_test (Z.lor _ flags)). rewrite (flag_test (Z.land base (Z.ones 32)) flags 4 32 4 1), (flag_test (Z.land base (Z.ones 32)) flags 4 32 4 6), (flag_test (Z.land base (Z.ones 32)) flags 4 32 4 8) by (done || lia).
  rewrite <- kind_test, H1, H2. change (0 =? 1) with false. change (2 =? 2) with true. cbv zeta. cbn [negb andb]. change 15 with (Z.ones 4).
  rewrite W1, W2, field_positive by lia. by rewrite ones_field_size by lia.
Qed.

(** The registers of a function, sized one after the other. *)
Fixpoint bars_of (fuel slot count : nat) (reg : nat -> Z * Z) (bars : list (option Bar)) : list (option Bar) :=
  match fuel with
  | O => bars
  | Datatypes.S fuel =>
      if (slot <? count)%nat then
        let '(bar, used) := bar_of (reg slot) (reg (slot + 1)%nat) (slot + 1 =? count)%nat in
        bars_of fuel (slot + used) count reg (<[slot := bar]> bars)
      else bars
  end.

Lemma bars_of_ext fuel slot count reg reg' l :
  (count <= 6)%nat -> (forall k, (k < count)%nat -> reg k = reg' k) -> bars_of fuel slot count reg l = bars_of fuel slot count reg' l.
Proof.
  intros Hc H. revert slot l. induction fuel as [|fuel IH]; intros slot l; [done|]. cbn [bars_of].
  destruct (slot <? count)%nat eqn:E; [|done]. apply Nat.ltb_lt in E. rewrite (H slot) by done.
  destruct (decide (slot + 1 = count)%nat) as [Hl|Hl].
  - apply Nat.eqb_eq in Hl. rewrite Hl. unfold bar_of at 1 2. destruct (reg' slot) as [lo w]. cbn [negb].
    rewrite !andb_false_r. repeat case_match; simplify_eq; apply IH.
  - rewrite (H (slot + 1)%nat) by lia. destruct (bar_of _ _ _); apply IH.
Qed.

Lemma insert_middle {A} (pre : list A) x y rest : <[length pre := y]> (pre ++ x :: rest) = (pre ++ [y]) ++ rest.
Proof. rewrite <- app_assoc. replace (length pre) with (length pre + 0)%nat by lia. by rewrite insert_app_r. Qed.

Lemma laid_out_bars reg count slot l :
  laid_out reg count slot l -> (count <= 6)%nat -> forall fuel pre, (count <= slot + fuel)%nat -> length pre = slot ->
  bars_of fuel slot count reg (pre ++ replicate (6 - slot) None) = pre ++ l ++ replicate (6 - count) None.
Proof.
  intros Hl Hc. induction Hl as [|slot b l Hs He Hl IH|slot b l Hs He Hl IH]; intros fuel pre Hf Hp.
  - by destruct fuel as [|fuel]; cbn [bars_of]; rewrite ?Nat.ltb_irrefl.
  - destruct fuel as [|fuel]; [lia|]. cbn [bars_of]. replace (slot <? count)%nat with true by (symmetry; apply Nat.ltb_lt; lia).
    rewrite (encodes_bar _ _ _ b) by done. replace (6 - slot)%nat with (Datatypes.S (6 - (slot + 1))) by lia. cbn [replicate].
    rewrite <- Hp, insert_middle, Hp, IH by (rewrite ?length_app; cbn; lia). by rewrite <- !app_assoc.
  - destruct fuel as [|fuel]; [lia|]. cbn [bars_of]. replace (slot <? count)%nat with true by (symmetry; apply Nat.ltb_lt; lia).
    replace (slot + 1 =? count)%nat with false by (symmetry; apply Nat.eqb_neq; lia).
    rewrite (encodes_wide_bar _ _ b) by done. replace (6 - slot)%nat with (Datatypes.S (Datatypes.S (6 - (slot + 2)))) by lia. cbn [replicate].
    rewrite <- Hp, insert_middle, Hp. replace ((pre ++ [b]) ++ None :: replicate (6 - (slot + 2)) None) with ((pre ++ [b; None]) ++ replicate (6 - (slot + 2)) None) by (by rewrite <- !app_assoc).
    rewrite IH by (rewrite ?length_app; cbn; lia). by rewrite <- !app_assoc.
Qed.

Section Registers.
Context {S : Type} {config : ConfigSpace S} {hw : Hardware S config}.
Implicit Types (s : S) (a : Address).

(** The same registers, but for errors that were cleared. *)
Definition same s s' : Prop :=
  forall a o, word o -> Z.ldiff (read32 s' a o) (clearable o) = Z.ldiff (read32 s a o) (clearable o).

#[local] Instance same_equivalence : Equivalence same.
Proof. split; [done|by intros s s' H a o Ho; rewrite H|]. intros x y z H1 H2 a o Ho. by rewrite H2, H1. Qed.

Lemma same_read s s' a o : same s s' -> word o -> o <> COMMAND -> read32 s' a o = read32 s a o.
Proof.
  intros H Ho Hne. specialize (H a o Ho). unfold clearable in H. apply Z.eqb_neq in Hne. rewrite Hne, !Z.ldiff_0_r in H. done.
Qed.

Lemma same_land s s' a mask : same s s' -> Z.land mask 0xf9000000 = 0 -> Z.land (read32 s' a COMMAND) mask = Z.land (read32 s a COMMAND) mask.
Proof.
  intros H Hm. specialize (H a COMMAND (word_check COMMAND eq_refl)). change (clearable COMMAND) with 0xf9000000 in H.
  assert (Hx : forall x, Z.land x mask = Z.land (Z.ldiff x 0xf9000000) mask).
  { intros x. apply Z.bits_inj'. intros n Hn. rewrite !Z.land_spec, Z.ldiff_spec. destruct (Z.testbit mask n) eqn:Em; [|by rewrite !andb_false_r].
    assert (Hz : Z.testbit (Z.land mask 0xf9000000) n = false) by (rewrite Hm; apply Z.bits_0). rewrite Z.land_spec, Em in Hz. cbn [andb] in Hz. rewrite Hz. by rewrite !andb_true_r. }
  rewrite (Hx (read32 s' a COMMAND)), (Hx (read32 s a COMMAND)). by rewrite H.
Qed.


(** ** Sizing *)

Lemma probe_spec s a o :
  word o -> is_bar o = true -> decoding s a = false ->
  exists s', probe s a o = (read32 s a o, stuck (read32 s a o) (writable a o), s') /\ same s s' /\ decoding s' a = false.
Proof.
  intros Ho Hb Hd. unfold probe. set (old := read32 s a o). set (s1 := write32 s a o (Z.ones 32)).
  assert (Hne : o <> COMMAND) by (intros ->; done). assert (Hcl : clearable o = 0) by (unfold clearable; by apply Z.eqb_neq in Hne as ->).
  assert (E1 : read32 s1 a o = written (writable a o) 0 old (Z.ones 32)) by (subst s1 old; rewrite write_same, Hcl; done).
  assert (O1 : forall a' o', word o' -> (a', o') <> (a, o) -> read32 s1 a' o' = read32 s a' o') by (intros; by apply write_other).
  assert (Hd1 : decoding s1 a = false).
  { unfold decoding. rewrite O1; [done|by apply word_check|congruence]. }
  exists (write32 s1 a o old). split.
  { rewrite E1. do 2 f_equal. unfold written, stuck. rewrite land_ones_id by (lia || apply writable_range). by rewrite Z.land_0_r, Z.ldiff_0_r. }
  assert (Hall : forall a' o', word o' -> read32 (write32 s1 a o old) a' o' = read32 s a' o').
  { intros a' o' Ho'. destruct (decide ((a', o') = (a, o))) as [[= -> ->]|Hx]; [|rewrite write_other by done; by apply O1].
    rewrite write_same, Hcl, E1 by done. apply written_back. }
  split; [intros a' o' Ho'; by rewrite Hall|]. unfold decoding. rewrite Hall; [done|by apply word_check].
Qed.

Definition register s a (o : Z) : Z * Z := (read32 s a o, writable a o).

Definition bar_offset (slot : nat) : Z := BAR0 + Z.of_nat slot * 4.

Lemma bar_slot slot : (slot < 6)%nat -> word (bar_offset slot) /\ is_bar (bar_offset slot) = true /\ bar_offset slot <> COMMAND.
Proof. intros H. do 6 (destruct slot as [|slot]; [split; [by apply word_check|done]|]). lia. Qed.

Lemma same_register s s' a slot : same s s' -> (slot < 6)%nat -> register s' a (bar_offset slot) = register s a (bar_offset slot).
Proof. intros H [Hw [_ Hc]]%bar_slot. unfold register. by rewrite (same_read s s'). Qed.

Lemma size_bar_spec s a slot count :
  (slot < count <= 6)%nat -> decoding s a = false ->
  exists s', same s s' /\ decoding s' a = false /\
    size_bar s a (bar_offset slot) (slot + 1 =? count)%nat
    = (bar_of (register s a (bar_offset slot)) (register s a (bar_offset (slot + 1))) (slot + 1 =? count)%nat, s').
Proof.
  intros Hs Hd. destruct (bar_slot slot) as (Hw & Hb & _); [lia|].
  destruct (probe_spec s a (bar_offset slot) Hw Hb Hd) as (s1 & E1 & H1 & Hd1).
  unfold size_bar, bar_of, register. rewrite E1. cbv zeta.
  destruct (Z.land _ 1 =? 1); [destruct (_ || _); by exists s1|].
  destruct (_ && negb _) eqn:Ewide; [|destruct (_ =? 0); by exists s1].
  apply andb_prop in Ewide as [_ Elast%negb_true_iff%Nat.eqb_neq].
  replace (bar_offset slot + 4) with (bar_offset (slot + 1)) by (unfold bar_offset; lia).
  destruct (bar_slot (slot + 1)) as (Hw' & Hb' & Hc'); [lia|].
  destruct (probe_spec s1 a (bar_offset (slot + 1)) Hw' Hb' Hd1) as (s2 & E2 & H2 & Hd2).
  rewrite E2, (same_read s s1) by done. cbn [fst snd]. exists s2. split; [by trans s1|]. destruct (_ =? 0); done.
Qed.

Lemma bar_loop_spec fuel slot count a l s :
  (count <= 6)%nat -> decoding s a = false ->
  exists s', same s s' /\ decoding s' a = false /\
    bar_loop fuel slot count a l s = (bars_of fuel slot count (fun k => register s a (bar_offset k)) l, s').
Proof.
  intros Hc. revert slot l s. induction fuel as [|fuel IH]; intros slot l s Hd; [by exists s|]. cbn [bar_loop bars_of].
  destruct (slot <? count)%nat eqn:E; [|by exists s]. apply Nat.ltb_lt in E.
  destruct (size_bar_spec s a slot count) as (s1 & H1 & Hd1 & Es); [lia|done|]. unfold bar_offset at 1 in Es. rewrite Es.
  destruct (bar_of _ _ _) as [bar used]. destruct (IH (slot + used)%nat (<[slot:=bar]> l) s1 Hd1) as (s2 & H2 & Hd2 & E2).
  exists s2. split; [by trans s1|]. split; [done|]. rewrite E2. f_equal. apply bars_of_ext; [done|]. intros k Hk.
  apply (same_register s s1); [done|lia].
Qed.

(** *** The command register *)

Lemma command_write s a v n :
  0 <= v < 2 ^ 16 -> 0 <= n ->
  Z.testbit (read32 (write16 s a COMMAND v) a COMMAND) n
  = if Z.testbit (writable a COMMAND) n then Z.testbit v n else Z.testbit (read32 s a COMMAND) n && negb (Z.testbit 0xf9000000 n).
Proof.
  intros Hv Hn. unfold write16. change (aligned COMMAND) with COMMAND. change (Z.land COMMAND 2 * 8) with 0.
  rewrite write_same by (done || by apply word_check). change (clearable COMMAND) with 0xf9000000. unfold written.
  rewrite !Z.shiftl_0_r. change (not32 0xffff) with (Z.shiftl (Z.ones 16) 16).
  rewrite !Z.ldiff_spec, !Z.lor_spec, !Z.ldiff_spec, !Z.land_spec, !Z.lor_spec, !Z.land_spec, Z.shiftl_spec by done.
  pose proof (writable_range a COMMAND). pose proof (writable_command a). pose proof (read_range s a COMMAND).
  destruct (Z.lt_ge_cases n 16) as [Hlt|Hge].
  - rewrite (Z.testbit_neg_r (Z.ones 16)) by lia. rewrite andb_false_r. assert (Hc : Z.testbit 0xf9000000 n = false).
    { assert (Hx : forallb (fun k => negb (Z.testbit 0xf9000000 k)) (seqZ 0 16) = true) by (by vm_compute).
      rewrite forallb_forall in Hx. apply negb_true_iff, Hx. apply list_elem_of_In, elem_of_seqZ. lia. }
    rewrite Hc, !andb_false_r. repeat match goal with |- context [Z.testbit ?x n] => destruct (Z.testbit x n) end; done.
  - rewrite (high_bit (writable a COMMAND) 16 n), (high_bit v 16 n) by lia. cbn [negb andb]. rewrite !andb_true_r, !andb_false_r, !orb_false_r.
    destruct (Z.lt_ge_cases n 32); [|by rewrite (high_bit (read32 s a COMMAND) 32 n) by lia].
    rewrite Z.testbit_ones_nonneg by lia. replace (n - 16 <? 16) with true by (symmetry; apply Z.ltb_lt; lia).
    by destruct (Z.testbit (read32 s a COMMAND) n), (Z.testbit _ n).
Qed.

Lemma command_write_other s a v a' o : word o -> (a', o) <> (a, COMMAND) -> read32 (write16 s a COMMAND v) a' o = read32 s a' o.
Proof. intros Ho Hne. unfold write16. change (aligned COMMAND) with COMMAND. by apply write_other; [apply word_check| | |]. Qed.

Lemma read16_low s a : read16 s a COMMAND = Z.land (read32 s a COMMAND) (Z.ones 16).
Proof. unfold read16. change (aligned COMMAND) with COMMAND. change (Z.land COMMAND 2 * 8) with 0. by rewrite Z.shiftr_0_r. Qed.

Lemma read16_range s a o : 0 <= read16 s a o < 2 ^ 16.
Proof. unfold read16. change 0xffff with (Z.ones 16). rewrite Z.land_ones by done. apply Z.mod_pos_bound. lia. Qed.

Lemma command_restored s s1 a : same (write16 s a COMMAND (Z.land (read16 s a COMMAND) (not16 3))) s1 -> same s (write16 s1 a COMMAND (read16 s a COMMAND)).
Proof.
  intros H a' o Ho. set (c := read16 s a COMMAND) in *. assert (Hc : 0 <= c < 2 ^ 16) by apply read16_range.
  destruct (decide ((a', o) = (a, COMMAND))) as [[= -> ->]|Hne].
  2:{ rewrite command_write_other by done. rewrite (H a' o Ho). by rewrite command_write_other. }
  specialize (H a COMMAND Ho). change (clearable COMMAND) with 0xf9000000 in *. apply Z.bits_inj'. intros n Hn.
  apply (f_equal (fun x => Z.testbit x n)) in H. rewrite !Z.ldiff_spec, command_write in H |- * by
    (done || by apply land_low).
  subst c. rewrite read16_low, !Z.land_spec in *.
  destruct (Z.testbit (writable a COMMAND) n) eqn:Ew; [|by destruct (Z.testbit 0xf9000000 n); rewrite ?andb_true_r, ?andb_false_r in *].
  destruct (Z.lt_ge_cases n 16) as [Hlt|Hge].
  - rewrite Z.testbit_ones_nonneg by lia. replace (n <? 16) with true by (symmetry; apply Z.ltb_lt; lia). by rewrite andb_true_r.
  - pose proof (writable_range a COMMAND). pose proof (writable_command a). by rewrite (high_bit (writable a COMMAND) 16 n) in Ew by lia.
Qed.

Definition present s a : Prop := read16 s a VENDOR_ID <> NO_DEVICE.

Lemma decoding_off s a : present s a -> decoding (write16 s a COMMAND (Z.land (read16 s a COMMAND) (not16 3))) a = false.
Proof.
  intros Hp. unfold decoding. apply negb_false_iff, Z.eqb_eq, Z.bits_inj'. intros n Hn. rewrite Z.bits_0, Z.land_spec.
  rewrite command_write by (done || (apply land_low; [done|]; apply read16_range)).
  change (Z.lor COMMAND_IO COMMAND_MEMORY) with 3. destruct (Z.testbit 3 n) eqn:E3; [|by rewrite andb_false_r]. rewrite andb_true_r.
  destruct (Z.testbit (writable a COMMAND) n) eqn:Ew.
  - unfold not16. by rewrite Z.land_spec, Z.ldiff_spec, E3, !andb_false_r.
  - pose proof (f_equal (fun x => Z.testbit x n) (decoding_optional s a Hp)) as Hx. cbv beta in Hx. rewrite Z.land_spec, Z.ldiff_spec, Ew, Z.bits_0 in Hx.
    change (Z.lor COMMAND_IO COMMAND_MEMORY) with 3 in Hx. rewrite E3, !andb_true_r in Hx. by rewrite Hx.
Qed.

Lemma read_bars_spec s a count :
  present s a -> (count <= 6)%nat ->
  exists s', same s s' /\ read_bars s a count = (bars_of count 0 count (fun k => register s a (bar_offset k)) (replicate 6 None), s').
Proof.
  intros Hp Hc. unfold read_bars. change (Z.lor COMMAND_IO COMMAND_MEMORY) with 3. set (s1 := write16 s a COMMAND _).
  destruct (bar_loop_spec count 0 count a (replicate 6 None) s1 Hc) as (s2 & H2 & _ & E2); [by apply decoding_off|]. rewrite E2.
  exists (write16 s2 a COMMAND (read16 s a COMMAND)). split; [by apply command_restored|]. f_equal. apply bars_of_ext; [done|]. intros k Hk.
  destruct (bar_slot k) as (Hw & _ & Hne); [lia|]. unfold register. f_equal. apply command_write_other; [done|congruence].
Qed.

(** *** Identity *)

Lemma same_read8 s s' a o : same s s' -> word (aligned o) -> aligned o <> COMMAND -> read8 s' a o = read8 s a o.
Proof. intros. unfold read8. by rewrite (same_read s s'). Qed.
Lemma same_read16 s s' a o : same s s' -> word (aligned o) -> aligned o <> COMMAND -> read16 s' a o = read16 s a o.
Proof. intros. unfold read16. by rewrite (same_read s s'). Qed.

Definition header s a : Z := read8 s a HEADER_TYPE.
Definition is_multi s a : bool := negb (Z.land (header s a) 0x80 =? 0).
Definition bar_count s a : nat :=
  let header_type := Z.land (header s a) 0x7f in
  if header_type =? 0 then 6%nat else if header_type =? HEADER_BRIDGE then 2%nat else 0%nat.

(** A function as its registers describe it. *)
Definition describes s (d : PciDevice) : Prop :=
  let a := address d in
  present s a /\ vendor d = read16 s a VENDOR_ID /\ device_id d = read16 s a DEVICE_ID /\
  (class d, subclass d, prog_if d, revision d) = (read8 s a CLASS, read8 s a SUBCLASS, read8 s a PROG_IF, read8 s a REVISION) /\
  header_type d = Z.land (header s a) 0x7f /\ multifunction d = is_multi s a /\
  bars d = bars_of (bar_count s a) 0 (bar_count s a) (fun k => register s a (bar_offset k)) (replicate 6 None) /\
  interrupt_line d = read8 s a INTERRUPT_LINE /\ interrupt_pin d = read8 s a INTERRUPT_PIN /\ capabilities d = read_capabilities s a.

Lemma same_status s s' a : same s s' -> Z.land (read16 s' a STATUS) STATUS_CAPABILITIES = Z.land (read16 s a STATUS) STATUS_CAPABILITIES.
Proof.
  intros H. unfold read16. change (aligned STATUS) with COMMAND. change (Z.land STATUS 2 * 8) with 16.
  assert (Hx : forall x, Z.land (Z.land (Z.shiftr x 16) 0xffff) STATUS_CAPABILITIES = Z.shiftr (Z.land x (Z.shiftl STATUS_CAPABILITIES 16)) 16).
  { intros x. rewrite Z.shiftr_land, <- Z.land_assoc. done. }
  rewrite !Hx. f_equal. by apply same_land.
Qed.

Lemma byte_word v : 0 <= v < 256 -> word (Z.ldiff v 3).
Proof.
  intros Hv. assert (Hx : forallb (fun v => (0 <=? Z.ldiff v 3) && (Z.ldiff v 3 <? 256) && (Z.ldiff v 3 mod 4 =? 0)) (seqZ 0 256) = true) by (by vm_compute).
  apply word_check. rewrite forallb_forall in Hx. apply Hx. apply list_elem_of_In, elem_of_seqZ. lia.
Qed.

Lemma read8_range s a o : 0 <= read8 s a o < 256.
Proof. unfold read8. change 0xff with (Z.ones 8). rewrite Z.land_ones by done. apply Z.mod_pos_bound. lia. Qed.

Lemma same_capability_loop rounds s s' a v l :
  same s s' -> 0 <= v < 256 -> capability_loop rounds s' a (Z.ldiff v 3) l = capability_loop rounds s a (Z.ldiff v 3) l.
Proof.
  intros H. revert v l. induction rounds as [|rounds IH]; intros v l Hv; [done|]. cbn [capability_loop].
  destruct (Z.ldiff v 3 <? 64) eqn:E; [done|]. apply Z.ltb_ge in E.
  assert (Hb : aligned (Z.ldiff v 3) = Z.ldiff v 3 /\ aligned (Z.ldiff v 3 + 1) = Z.ldiff v 3).
  { assert (Hx : forallb (fun v => (aligned (Z.ldiff v 3) =? Z.ldiff v 3) && (aligned (Z.ldiff v 3 + 1) =? Z.ldiff v 3)) (seqZ 0 256) = true) by (by vm_compute).
    rewrite forallb_forall in Hx. destruct (andb_prop _ _ (Hx v ltac:(apply list_elem_of_In, elem_of_seqZ; lia))) as [?%Z.eqb_eq ?%Z.eqb_eq]. done. }
  destruct Hb as [Hb1 Hb2]. pose proof (byte_word v Hv). unfold COMMAND in *.
  rewrite (same_read8 s s' a (Z.ldiff v 3)), (same_read8 s s' a (Z.ldiff v 3 + 1)) by (rewrite ?Hb1, ?Hb2; unfold COMMAND; (done || lia)).
  apply IH, read8_range.
Qed.

Ltac fixed_register := first [by apply word_check | done].

Lemma same_capabilities s s' a : same s s' -> read_capabilities s' a = read_capabilities s a.
Proof.
  intros H. unfold read_capabilities. rewrite (same_status s s') by done. destruct (_ =? 0); [done|].
  rewrite (same_read8 s s' a CAPABILITIES) by fixed_register. by apply same_capability_loop, read8_range.
Qed.

Lemma read_device_absent s a : ~ present s a -> read_device s a = (None, s).
Proof. intros H. unfold read_device, present in *. destruct (_ =? NO_DEVICE) eqn:E; [done|]. by apply Z.eqb_neq in E. Qed.

Lemma read_device_present s a : present s a -> exists d s', read_device s a = (Some d, s') /\ same s s' /\ address d = a /\ describes s d.
Proof.
  intros Hp. unfold read_device. destruct (_ =? NO_DEVICE) eqn:E; [by apply Z.eqb_eq in E|]. fold (header s a). fold (bar_count s a).
  assert (Hc : (bar_count s a <= 6)%nat) by (unfold bar_count; repeat case_match; lia).
  destruct (read_bars_spec s a (bar_count s a) Hp Hc) as (s1 & H1 & ->). do 2 eexists. split; [done|]. split; [done|]. split; [done|].
  unfold describes. cbn [address vendor device_id class subclass prog_if revision header_type multifunction bars interrupt_line interrupt_pin capabilities].
  rewrite (same_read8 s s1 a INTERRUPT_LINE), (same_read8 s s1 a INTERRUPT_PIN), (same_capabilities s s1) by fixed_register. done.
Qed.

(** ** Walking the hierarchy *)

#[local] Instance present_dec s a : Decision (present s a).
Proof. unfold present. apply _. Defined.

Lemma same_present s s' a : same s s' -> present s' a <-> present s a.
Proof. intros H. unfold present. by rewrite (same_read16 s s') by fixed_register. Qed.
Lemma same_multi s s' a : same s s' -> is_multi s' a = is_multi s a.
Proof. intros H. unfold is_multi, header. by rewrite (same_read8 s s') by fixed_register. Qed.

Lemma same_describes s s' d : same s s' -> describes s' d -> describes s d.
Proof.
  intros H. unfold describes. intros (Hp & Hv & Hi & Hk & Ht & Hm & Hb & Hl & Hn & Hc). split; [by apply (same_present s s')|].
  rewrite (same_multi s s') in Hm by done. rewrite (same_capabilities s s') in Hc by done. unfold bar_count, header in *.
  rewrite !(same_read16 s s') in Hv, Hi by fixed_register. rewrite !(same_read8 s s') in Ht, Hl, Hn, Hb by fixed_register.
  do 2 (split; [done|]). split; [by rewrite Hk, !(same_read8 s s') by fixed_register|]. do 2 (split; [done|]). split; [|done]. rewrite Hb. apply bars_of_ext; [repeat case_match; lia|]. intros k Hk'.
  apply (same_register s s'); [done|]. repeat case_match; lia.
Qed.

Definition slot_of a : Address := mkAddress (bus a) (device a) 0.

(** A function exists: function 0 decides whether the others are looked at. *)
Definition listed s a : Prop :=
  0 <= device a < 32 /\ 0 <= function a < 8 /\ present s (slot_of a) /\ (function a = 0 \/ is_multi s (slot_of a) = true /\ present s a).

Definition slot_addresses s (b d : Z) : list Address :=
  if decide (present s (mkAddress b d 0)) then
    mkAddress b d 0 :: if is_multi s (mkAddress b d 0) then filter (present s) (mkAddress b d <$> seqZ 1 7) else []
  else [].

Lemma elem_of_functions b d lo len a : a ∈ mkAddress b d <$> seqZ lo len <-> bus a = b /\ device a = d /\ lo <= function a < lo + len.
Proof.
  rewrite list_elem_of_fmap. split; [intros (f & -> & Hf%elem_of_seqZ); cbn; lia|]. intros (<- & <- & Hf). exists (function a). split; [by destruct a|by apply elem_of_seqZ].
Qed.

Lemma elem_of_slot s b d a : 0 <= d < 32 -> a ∈ slot_addresses s b d <-> bus a = b /\ device a = d /\ listed s a.
Proof.
  intros Hd. unfold slot_addresses, listed, slot_of. destruct (decide (present s (mkAddress b d 0))) as [Hp|Hp].
  - rewrite elem_of_cons. destruct (is_multi s (mkAddress b d 0)) eqn:Em.
    + rewrite list_elem_of_filter, elem_of_functions. split.
      * intros [->|(Hpa & <- & <- & Hf)]; cbn [bus device function]; [by repeat split; auto; lia|]. do 2 (split; [done|]).
        split; [done|]. split; [lia|]. split; [done|]. by right.
      * intros (<- & <- & _ & Hf & _ & [Hz|[_ Hpa]]); [left; destruct a; cbn in *; by subst|]. destruct (decide (function a = 0)); [left; destruct a; cbn in *; by subst|]. right. repeat split; auto; lia.
    + split.
      * intros [->|[]%not_elem_of_nil]. cbn [bus device function]. repeat split; auto; lia.
      * intros (<- & <- & _ & _ & _ & [Hz|[Hm _]]); [left; destruct a; cbn in *; by subst|congruence].
  - split; [intros []%not_elem_of_nil|]. by intros (<- & <- & _ & _ & Hp' & _).
Qed.

Definition bus_addresses s (b : Z) (slots : list Z) : list Address := slots ≫= slot_addresses s b.

Lemma slot_NoDup s b d : NoDup (slot_addresses s b d).
Proof.
  unfold slot_addresses. destruct (decide _); [|constructor]. destruct (is_multi _ _); [|apply NoDup_singleton].
  constructor; [|apply NoDup_filter, NoDup_fmap_2; [by intros x y [=]|apply NoDup_seqZ]].
  rewrite list_elem_of_filter, elem_of_functions. cbn. lia.
Qed.

Lemma bus_NoDup s b slots : NoDup slots -> Forall (fun d => 0 <= d < 32) slots -> NoDup (bus_addresses s b slots).
Proof.
  intros Hn Hr. induction slots as [|d slots IH]; [constructor|]. inversion Hn as [|? ? Hd Hn']; inversion Hr as [|? ? Hd32 Hr']; subst.
  cbn. apply NoDup_app. split; [apply slot_NoDup|]. split; [|by apply IH]. intros a Ha Ha'. apply elem_of_slot in Ha as (_ & <- & _); [|done].
  apply list_elem_of_bind in Ha' as (d' & Ha' & Hd'). rewrite Forall_forall in Hr'. apply elem_of_slot in Ha' as (_ & <- & _); [done|by apply Hr'].
Qed.

Lemma read_functions_spec b d fs s :
  exists ds s', read_functions b d fs s = (ds, s') /\ same s s' /\ Forall (describes s) ds /\ address <$> ds = filter (present s) (mkAddress b d <$> fs).
Proof.
  revert s. induction fs as [|f fs IH]; intros s; [by exists [], s|]. cbn [read_functions fmap list_fmap]. rewrite filter_cons.
  destruct (decide (present s (mkAddress b d f))) as [Hp|Hp].
  - destruct (read_device_present s _ Hp) as (x & s1 & -> & H1 & Hx & Hdx). destruct (IH s1) as (ds & s2 & -> & H2 & Hd & Ha).
    exists (x :: ds), s2. split; [done|]. split; [by trans s1|]. split.
    + constructor; [done|]. eapply Forall_impl; [exact Hd|]. intros y. by apply same_describes.
    + cbn [fmap list_fmap]. fold (address <$> ds). rewrite Hx, Ha. f_equal. apply list_filter_iff. intros a. by apply same_present.
  - rewrite (read_device_absent s _ Hp). destruct (IH s) as (ds & s2 & -> & H2 & Hd & Ha). exists ds, s2. done.
Qed.

(** A bridge at [a] leads to bus [t]. *)
Definition bridge_to s a (t : Z) : Prop :=
  Z.land (header s a) 0x7f = HEADER_BRIDGE /\ read8 s a CLASS = 6 /\ read8 s a SUBCLASS = 4 /\
  t = read8 s a SECONDARY_BUS /\ t <> 0 /\ t <> bus a.

Lemma is_pci_bridge_spec s d : describes s d ->
  is_pci_bridge d = true <-> Z.land (header s (address d)) 0x7f = HEADER_BRIDGE /\ read8 s (address d) CLASS = 6 /\ read8 s (address d) SUBCLASS = 4.
Proof.
  intros (_ & _ & _ & Hk & Ht & _). injection Hk as Hc Hs _ _. unfold is_pci_bridge, is_bridge. rewrite Ht, Hc, Hs, !andb_true_iff, !Z.eqb_eq. tauto.
Qed.

Lemma targets_spec s s' b found t :
  same s s' -> Forall (fun d => describes s d /\ bus (address d) = b) found ->
  t ∈ bridge_targets s' b found <-> exists a, a ∈ address <$> found /\ bridge_to s a t.
Proof.
  intros H Hf. rewrite Forall_forall in Hf. unfold bridge_targets. rewrite list_elem_of_omap. setoid_rewrite list_elem_of_fmap. split.
  - intros (d & Hd & E). destruct (Hf d Hd) as [Hdes Hb]. exists (address d). split; [by exists d|].
    destruct (is_pci_bridge d) eqn:Eb; [|done]. apply (is_pci_bridge_spec s) in Eb as (H1 & H2 & H3); [|done].
    rewrite (same_read8 s s') in E by fixed_register. case_match eqn:Ec; [|done]. simplify_eq E. intros <-.
    apply andb_prop in Ec as [Ec1%negb_true_iff%Z.eqb_neq Ec2%negb_true_iff%Z.eqb_neq]. unfold bridge_to. rewrite Hb. done.
  - intros (a & (d & -> & Hd) & H1 & H2 & H3 & Ht & Hz & Hne). destruct (Hf d Hd) as [Hdes Hb]. exists d. split; [done|].
    rewrite (proj2 (is_pci_bridge_spec s d Hdes)) by done. rewrite (same_read8 s s') by fixed_register. rewrite <- Ht.
    apply Z.eqb_neq in Hz. rewrite Hb in Hne. apply Z.eqb_neq in Hne. by rewrite Hz, Hne.
Qed.

Lemma targets_length s b found : (length (bridge_targets s b found) <= length found)%nat.
Proof. unfold bridge_targets. induction found as [|d found IH]; [done|]. cbn [omap list_omap length]. case_match; cbn [length]; lia. Qed.

Lemma same_slot_addresses s s' b d : same s s' -> slot_addresses s' b d = slot_addresses s b d.
Proof.
  intros H. unfold slot_addresses. rewrite (same_multi s s') by done. rewrite (list_filter_iff (present s') (present s)) by (intros; by apply same_present).
  pose proof (same_present s s' (mkAddress b d 0) H). repeat case_decide; tauto.
Qed.

Lemma same_bridge s s' a t : same s s' -> bridge_to s' a t <-> bridge_to s a t.
Proof. intros H. unfold bridge_to, header. by rewrite !(same_read8 s s' a HEADER_TYPE), (same_read8 s s' a CLASS), (same_read8 s s' a SUBCLASS), (same_read8 s s' a SECONDARY_BUS) by fixed_register. Qed.

Lemma slot_length s b d : (length (slot_addresses s b d) <= 8)%nat.
Proof.
  unfold slot_addresses. destruct (decide _); [|cbn; lia]. cbn [length]. destruct (is_multi _ _); [|cbn; lia].
  etrans; [apply le_n_S, length_filter|]. rewrite length_fmap, length_seqZ. lia.
Qed.

(** One slot: every function of it, and the buses its bridges lead to. *)
Lemma scan_slot s b d slots devices pending :
  0 <= d < 32 ->
  exists found targets s', scan_slots b (d :: slots) devices pending s = scan_slots b slots (devices ++ found) (pending ++ targets) s' /\ same s s' /\
    Forall (describes s) found /\ address <$> found = slot_addresses s b d /\ (length targets <= 8)%nat /\
    forall t, t ∈ targets <-> exists a, a ∈ slot_addresses s b d /\ bridge_to s a t.
Proof.
  intros Hd. cbn [scan_slots]. destruct (decide (present s (mkAddress b d 0))) as [Hp|Hp].
  2:{ rewrite (read_device_absent s _ Hp). exists [], [], s. rewrite !app_nil_r. unfold slot_addresses. rewrite decide_False by done.
      do 5 (split; [done || (cbn; lia)|]). set_solver. }
  destruct (read_device_present s _ Hp) as (x & s1 & -> & H1 & Hx & Hdx).
  assert (Hm : multifunction x = is_multi s (mkAddress b d 0)) by (destruct Hdx as (_ & _ & _ & _ & _ & Hm & _); by rewrite Hm, Hx). rewrite Hm.
  destruct (read_functions_spec b d (if is_multi s (mkAddress b d 0) then seqZ 1 7 else []) s1) as (ds & s2 & -> & H2 & Hds & Ha).
  assert (H12 : same s s2) by (by trans s1).
  assert (Hfound : Forall (describes s) (x :: ds)) by (constructor; [done|]; eapply Forall_impl; [exact Hds|]; intros y; by apply same_describes).
  assert (Haddr : address <$> x :: ds = slot_addresses s b d).
  { unfold slot_addresses. rewrite decide_True by done. cbn [fmap list_fmap]. fold (address <$> ds). rewrite Hx, Ha. f_equal.
    rewrite (list_filter_iff (present s1) (present s)) by (intros; by apply same_present). by destruct (is_multi _ _). }
  exists (x :: ds), (bridge_targets s2 b (x :: ds)), s2. split; [done|]. split; [done|]. split; [done|]. split; [done|]. split.
  - etrans; [apply targets_length|]. rewrite <- (length_fmap address), Haddr. apply slot_length.
  - intros t. rewrite (targets_spec s s2), Haddr; [done|done|]. apply Forall_forall. intros y Hy. split; [by eapply Forall_forall in Hy|].
    apply (list_elem_of_fmap_2 address) in Hy. rewrite Haddr in Hy. by apply elem_of_slot in Hy as [? _].
Qed.

Lemma scan_slots_spec b slots devices pending s :
  Forall (fun d => 0 <= d < 32) slots ->
  exists found targets s', scan_slots b slots devices pending s = (devices ++ found, pending ++ targets, s') /\ same s s' /\
    Forall (describes s) found /\ address <$> found = bus_addresses s b slots /\ (length targets <= 8 * length slots)%nat /\
    forall t, t ∈ targets <-> exists a, a ∈ bus_addresses s b slots /\ bridge_to s a t.
Proof.
  revert devices pending s. induction slots as [|d slots IH]; intros devices pending s Hr.
  { exists [], [], s. rewrite !app_nil_r. do 5 (split; [done|]). set_solver. }
  inversion Hr as [|? ? Hd Hr']; subst.
  destruct (scan_slot s b d slots devices pending Hd) as (f1 & t1 & s1 & -> & H1 & Hf1 & Ha1 & Hl1 & Ht1).
  destruct (IH (devices ++ f1) (pending ++ t1) s1 Hr') as (f2 & t2 & s2 & -> & H2 & Hf2 & Ha2 & Hl2 & Ht2).
  assert (Hbus : bus_addresses s1 b slots = bus_addresses s b slots).
  { unfold bus_addresses. apply list_bind_ext; [|done]. intros x. by apply same_slot_addresses. }
  exists (f1 ++ f2), (t1 ++ t2), s2. rewrite !app_assoc. split; [done|]. split; [by trans s1|]. split.
  { apply Forall_app. split; [done|]. eapply Forall_impl; [exact Hf2|]. intros y. by apply same_describes. }
  split; [by rewrite fmap_app, Ha1, Ha2, Hbus|]. split; [rewrite length_app; cbn [length]; lia|]. intros t. rewrite elem_of_app, Ht1, Ht2, Hbus.
  change (bus_addresses s b (d :: slots)) with (slot_addresses s b d ++ bus_addresses s b slots). split.
  - intros [(a & Ha & Hb)|(a & Ha & Hb)]; exists a; rewrite elem_of_app; [by auto|]. split; [by right|]. exact (proj1 (same_bridge s s1 a t H1) Hb).
  - intros (a & [Ha|Ha]%elem_of_app & Hb); [by left; exists a|]. right. exists a. split; [exact Ha|]. exact (proj2 (same_bridge s s1 a t H1) Hb).
Qed.

(** The buses a scan must visit. *)
Definition root s (b : Z) : Prop :=
  b = 0 \/ 1 <= b < 8 /\ present s (mkAddress 0 0 0) /\ is_multi s (mkAddress 0 0 0) = true /\ present s (mkAddress 0 0 b).
Inductive reachable s : Z -> Prop :=
| reachable_root b : root s b -> reachable s b
| reachable_bridge a t : reachable s (bus a) -> listed s a -> bridge_to s a t -> reachable s t.

Lemma elem_of_bus s b a : a ∈ bus_addresses s b (seqZ 0 32) <-> bus a = b /\ listed s a.
Proof.
  unfold bus_addresses. rewrite list_elem_of_bind. setoid_rewrite elem_of_seqZ. split.
  - intros (d & Ha & Hd). apply elem_of_slot in Ha as (? & _ & ?); [done|lia].
  - intros [<- Hl]. exists (device a). assert (Hd : 0 <= device a < 32) by apply Hl. split; [by apply elem_of_slot|lia].
Qed.

Record walk s0 (visited pending : list Z) (devices : list PciDevice) s : Prop := {
  walk_same : same s0 s;
  walk_visited : NoDup visited;
  walk_range : Forall (fun b => 0 <= b < 256) (visited ++ pending);
  walk_reachable : Forall (reachable s0) (visited ++ pending);
  walk_root : forall b, root s0 b -> b ∈ visited ++ pending;
  walk_closed : forall a t, bus a ∈ visited -> listed s0 a -> bridge_to s0 a t -> t ∈ visited ++ pending;
  walk_describes : Forall (describes s0) devices;
  walk_addresses : forall a, a ∈ address <$> devices <-> bus a ∈ visited /\ listed s0 a;
  walk_unique : NoDup (address <$> devices) }.

(** A bus already visited. *)
Lemma walk_again s0 visited pending b devices s : walk s0 visited (pending ++ [b]) devices s -> b ∈ visited -> walk s0 visited pending devices s.
Proof.
  intros [Hs Hv Hr Hre Hro Hc Hd Ha Hu] Hb.
  assert (Hsub : forall x, x ∈ visited ++ pending ++ [b] -> x ∈ visited ++ pending) by (intros x; rewrite !elem_of_app, list_elem_of_singleton; intros [?|[?| ->]]; auto).
  rewrite app_assoc in Hr, Hre. apply Forall_app in Hr as [Hr _]. apply Forall_app in Hre as [Hre _].
  split; [exact Hs|exact Hv|exact Hr|exact Hre|by auto|by eauto|exact Hd|exact Ha|exact Hu].
Qed.

(** A new bus. *)
Lemma walk_bus s0 visited pending b devices s found targets s' :
  walk s0 visited (pending ++ [b]) devices s -> b ∉ visited -> same s s' -> Forall (describes s) found ->
  address <$> found = bus_addresses s b (seqZ 0 32) ->
  (forall t, t ∈ targets <-> exists a, a ∈ bus_addresses s b (seqZ 0 32) /\ bridge_to s a t) ->
  walk s0 (b :: visited) (pending ++ targets) (devices ++ found) s'.
Proof.
  intros [Hs Hv Hr Hre Hro Hc Hd Ha Hu] Hb Hs' Hf Haf Ht.
  assert (Hbus : bus_addresses s b (seqZ 0 32) = bus_addresses s0 b (seqZ 0 32)).
  { unfold bus_addresses. apply list_bind_ext; [|done]. intros x. by apply same_slot_addresses. }
  rewrite Hbus in Haf, Ht. rewrite Forall_app, Forall_app, Forall_singleton in Hr, Hre. destruct Hr as (Hr1 & Hr2 & Hr3), Hre as (Hre1 & Hre2 & Hre3).
  assert (Htr : forall t, t ∈ targets <-> exists a, bus a = b /\ listed s0 a /\ bridge_to s0 a t).
  { intros t. rewrite Ht. split.
    - intros (a & [Hba Hla]%elem_of_bus & Hbr). exists a. split; [done|]. split; [done|]. exact (proj1 (same_bridge s0 s a t Hs) Hbr).
    - intros (a & Hba & Hla & Hbr). exists a. split; [by apply elem_of_bus|]. exact (proj2 (same_bridge s0 s a t Hs) Hbr). }
  assert (Hgrow : forall x, x ∈ visited ++ pending ++ [b] -> x ∈ (b :: visited) ++ pending ++ targets) by (intros x; rewrite !elem_of_app, list_elem_of_singleton, elem_of_cons; tauto).
  split.
  - by trans s.
  - by constructor.
  - rewrite !Forall_app, Forall_cons. split; [done|]. split; [done|]. apply Forall_forall. intros t (a & _ & _ & (_ & _ & _ & -> & _))%Htr. apply read8_range.
  - rewrite !Forall_app, Forall_cons. split; [done|]. split; [done|]. apply Forall_forall. intros t (a & <- & Hla & Hbr)%Htr. by apply (reachable_bridge s0 a).
  - by auto.
  - intros a t [Hba|Hva]%elem_of_cons Hla Hbr; [|by apply Hgrow, (Hc a)]. rewrite !elem_of_app. right. right. apply Htr. by exists a.
  - apply Forall_app. split; [done|]. eapply Forall_impl; [exact Hf|]. intros y. by apply same_describes.
  - intros a. rewrite fmap_app, elem_of_app, Haf, Ha, elem_of_bus, elem_of_cons. tauto.
  - rewrite fmap_app. apply NoDup_app. split; [done|]. split.
    + intros a [Hva _]%Ha. rewrite Haf, elem_of_bus. by intros [<- _].
    + rewrite Haf. apply bus_NoDup; [apply NoDup_seqZ|]. apply Forall_forall. intros x Hx%elem_of_seqZ. lia.
Qed.

Lemma walk_bounded s0 visited pending devices s : walk s0 visited pending devices s -> (length visited <= 256)%nat.
Proof.
  intros W. apply walk_range in W as Hr. apply walk_visited in W as Hv. change 256%nat with (length (seqZ 0 256)).
  apply submseteq_length, NoDup_submseteq; [done|]. intros x Hx. rewrite Forall_app, Forall_forall in Hr. apply elem_of_seqZ. by apply Hr.
Qed.

Lemma scan_loop_spec fuel s0 visited pending devices s :
  walk s0 visited pending devices s -> (length pending + 256 * (256 - length visited) < fuel)%nat ->
  exists visited' devices' s', scan_loop fuel visited pending devices s = Some (devices', s') /\ walk s0 visited' [] devices' s'.
Proof.
  revert visited pending devices s. induction fuel as [|fuel IH]; intros visited pending devices s W Hf; [lia|]. cbn [scan_loop].
  destruct pending as [|b pending _] using rev_ind; [by exists visited, devices, s|]. rewrite last_snoc, removelast_last, length_app in *. cbn [length] in Hf.
  destruct (bool_decide_reflect (b ∈ visited)) as [Hb|Hb]; [apply IH; [by eapply walk_again|lia]|].
  destruct (scan_slots_spec b (seqZ 0 32) devices pending s) as (found & targets & s' & -> & Hs & Hd & Ha & Hl & Ht).
  { apply Forall_forall. intros x Hx%elem_of_seqZ. lia. }
  assert (W' : walk s0 (b :: visited) (pending ++ targets) (devices ++ found) s') by (by eapply walk_bus).
  apply walk_bounded in W' as Hlen. cbn [length] in Hlen. apply IH; [done|]. rewrite length_app. cbn [length]. rewrite length_seqZ in Hl. lia.
Qed.

(** *** In order *)

Definition before (x y : Address) : Prop := address_le x y = true /\ x <> y.

Lemma address_le_spec x y :
  address_le x y = true <-> bus x < bus y \/ bus x = bus y /\ (device x < device y \/ device x = device y /\ function x <= function y).
Proof. unfold address_le. rewrite !orb_true_iff, !andb_true_iff, !orb_true_iff, !andb_true_iff, !Z.ltb_lt, !Z.eqb_eq, Z.leb_le. done. Qed.
Lemma address_le_total x y : address_le x y = false -> address_le y x = true.
Proof. intros H. assert (Hn : ~ address_le x y = true) by (by rewrite H). rewrite address_le_spec in *. lia. Qed.
Lemma address_le_trans x y z : address_le x y = true -> address_le y z = true -> address_le x z = true.
Proof. rewrite !address_le_spec. lia. Qed.

Lemma insert_device_perm d l : insert_device d l ≡ₚ d :: l.
Proof. induction l as [|e l IH]; [done|]. cbn. destruct (address_le _ _); [done|]. rewrite IH. apply Permutation_swap. Qed.
Lemma sort_devices_perm l : sort_devices l ≡ₚ l.
Proof. unfold sort_devices. induction l as [|d l IH]; [done|]. cbn. by rewrite insert_device_perm, IH. Qed.

Lemma insert_device_sorted d l :
  StronglySorted (fun x y => address_le x y = true) (address <$> l) -> StronglySorted (fun x y => address_le x y = true) (address <$> insert_device d l).
Proof.
  induction l as [|e l IH]; intros Hl; [by repeat constructor|]. apply StronglySorted_inv in Hl as [Hl He]. cbn [insert_device].
  destruct (address_le (address d) (address e)) eqn:E; cbn [fmap list_fmap].
  - constructor; [by constructor|]. constructor; [done|]. eapply Forall_impl; [exact He|]. intros y. by apply address_le_trans.
  - constructor; [by apply IH|]. fold (address <$> insert_device d l). rewrite insert_device_perm. constructor; [by apply address_le_total|done].
Qed.

Lemma sort_devices_sorted l : NoDup (address <$> l) -> StronglySorted before (address <$> sort_devices l).
Proof.
  intros Hn. rewrite <- sort_devices_perm in Hn.
  assert (Hs : StronglySorted (fun x y => address_le x y = true) (address <$> sort_devices l)).
  { unfold sort_devices. induction l as [|d l IH]; [constructor|]. cbn [foldr]. apply insert_device_sorted, IH.
    unfold sort_devices in Hn. cbn [foldr] in Hn. rewrite insert_device_perm in Hn. by inversion Hn. }
  induction Hs as [|x l' Hs IH Hx]; [constructor|]. inversion Hn as [|? ? Hnx Hn']; subst. constructor; [by apply IH|].
  rewrite Forall_forall in *. intros y Hy. split; [by apply Hx|]. by intros ->.
Qed.

Lemma walk_start s hosts s' :
  same s s' -> (forall b, b ∈ hosts <-> 1 <= b < 8 /\ present s (mkAddress 0 0 0) /\ is_multi s (mkAddress 0 0 0) = true /\ present s (mkAddress 0 0 b)) ->
  walk s [] (0 :: hosts) [] s'.
Proof.
  intros Hs Hh. assert (Hall : forall b, b ∈ 0 :: hosts <-> root s b) by (intros b; rewrite elem_of_cons, Hh; done).
  split; cbn [app fmap list_fmap].
  - done.
  - constructor.
  - apply Forall_forall. intros b Hb%Hall. destruct Hb as [->|[? _]]; lia.
  - apply Forall_forall. intros b Hb%Hall. by apply reachable_root.
  - intros b Hb. by apply Hall.
  - intros a t []%not_elem_of_nil.
  - constructor.
  - intros a. rewrite !elem_of_nil. tauto.
  - constructor.
Qed.

Lemma walk_end s visited devices s' : walk s visited [] devices s' -> forall b, b ∈ visited <-> reachable s b.
Proof.
  intros W. destruct W as [_ _ _ Hre Hro Hc _ _ _]. rewrite app_nil_r in *. intros b. split; [by rewrite Forall_forall in Hre; auto|].
  induction 1 as [b Hb|a t _ IH Hl Hb]; [by apply Hro|by apply (Hc a)].
Qed.

(** The buses of the host bridges. *)
Lemma hosts_spec s :
  exists hosts s',
    (let '(host, s) := read_device s (mkAddress 0 0 0) in
     match host with
     | Some h => if multifunction h then let '(ds, s) := read_functions 0 0 (seqZ 1 7) s in ((fun d => function (address d)) <$> ds, s) else ([], s)
     | None => ([], s)
     end) = (hosts, s') /\ walk s [] (0 :: hosts) [] s' /\ (length hosts <= 7)%nat.
Proof.
  destruct (decide (present s (mkAddress 0 0 0))) as [Hp|Hp].
  2:{ rewrite (read_device_absent s _ Hp). exists [], s. split; [done|]. split; [|cbn; lia]. apply walk_start; [done|]. intros b. rewrite elem_of_nil. tauto. }
  destruct (read_device_present s _ Hp) as (h & s1 & -> & H1 & Hx & Hd).
  assert (Hm : multifunction h = is_multi s (mkAddress 0 0 0)) by (destruct Hd as (_ & _ & _ & _ & _ & Hm & _); by rewrite Hm, Hx). rewrite Hm.
  destruct (is_multi s _) eqn:Em.
  2:{ exists [], s1. split; [done|]. split; [|cbn; lia]. apply walk_start; [done|]. intros b. rewrite elem_of_nil. intuition congruence. }
  destruct (read_functions_spec 0 0 (seqZ 1 7) s1) as (ds & s2 & -> & H2 & _ & Ha). exists ((fun d => function (address d)) <$> ds), s2.
  split; [done|]. split.
  - apply walk_start; [by trans s1|]. intros b. rewrite (list_fmap_compose address function), Ha, list_elem_of_fmap. split.
    + intros (a & -> & [Hpa Hfa]%list_elem_of_filter). apply elem_of_functions in Hfa as (Hb & Hdv & Hf). split; [lia|]. split; [done|]. split; [done|].
      apply (same_present s s1); [done|]. destruct a; cbn in *. by subst.
    + intros (Hb & _ & _ & Hpb). exists (mkAddress 0 0 b). split; [done|]. apply list_elem_of_filter. split; [by apply (same_present s s1)|].
      apply elem_of_functions. cbn. lia.
  - rewrite length_fmap, <- (length_fmap address), Ha. etrans; [apply length_filter|]. rewrite length_fmap, length_seqZ. lia.
Qed.

Lemma scan_total s :
  exists visited devices s', scan s = Some (sort_devices devices, s') /\ walk s visited [] devices s'.
Proof.
  destruct (hosts_spec s) as (hosts & s1 & E & W & Hl). unfold scan. destruct (read_device s (mkAddress 0 0 0)) as [host s0]. rewrite E.
  destruct (scan_loop_spec SCAN_FUEL s [] (0 :: hosts) [] s1 W) as (visited & devices & s' & -> & W'); [unfold SCAN_FUEL; cbn [length]; lia|].
  by exists visited, devices, s'.
Qed.

(** C36. A scan of the PCI hierarchy ends and lists exactly the functions that exist
    on the buses reachable from the host bridges, through loops of bridges too, each
    once, in order of bus, device and function and as its registers describe it,
    and leaves every register as it was but for error bits that were set. *)
Theorem scan_lists_functions s :
  exists devices s', scan s = Some (devices, s') /\ same s s' /\ Forall (describes s) devices /\ StronglySorted before (address <$> devices) /\
    forall a, a ∈ address <$> devices <-> reachable s (bus a) /\ listed s a.
Proof.
  destruct (scan_total s) as (visited & devices & s' & -> & W). pose proof (walk_end _ _ _ _ W) as Hv. destruct W as [Hs _ _ _ _ _ Hd Ha Hu].
  exists (sort_devices devices), s'. split; [done|]. split; [done|]. split; [by rewrite sort_devices_perm|]. split; [by apply sort_devices_sorted|].
  intros a. rewrite sort_devices_perm, Ha, Hv. done.
Qed.

(** C37. A function whose base address registers encode ranges of ports or memory of
    power-of-two size, 32 or 64 bits wide, is read with exactly those ranges in
    their slots, whatever writing a base address register would do while the function
    decodes addresses.  Afterwards every word of configuration space reads as before
    but the one of the command and status registers, where the command register reads
    as before and so does the status register except for its error bits: those that
    were set may have been cleared. *)
Theorem bars_are_exact s a l :
  present s a -> laid_out (fun k => register s a (bar_offset k)) (bar_count s a) 0 l ->
  exists d s', read_device s a = (Some d, s') /\ bars d = l ++ replicate (6 - bar_count s a) None /\
    (forall a' o, word o -> o <> COMMAND -> read32 s' a' o = read32 s a' o) /\
    (forall a', read16 s' a' COMMAND = read16 s a' COMMAND) /\
    (forall a', Z.ldiff (read32 s' a' COMMAND) (clearable COMMAND) = Z.ldiff (read32 s a' COMMAND) (clearable COMMAND)).
Proof.
  intros Hp Hl. destruct (read_device_present s a Hp) as (d & s' & E & Hs & Ha & Hd). exists d, s'. split; [done|]. split.
  - destruct Hd as (_ & _ & _ & _ & _ & _ & Hb & _). rewrite Hb, Ha.
    apply (laid_out_bars _ _ 0 l Hl) with (pre := []); [unfold bar_count; repeat case_match; lia|lia|done].
  - split; [intros a' o; by apply same_read|]. split; intros a'; [|apply Hs; by apply word_check].
    rewrite !read16_low. by apply (same_land s s').
Qed.

(** ** Messages *)

(** What a device with an MSI capability lets be written: the enable bit, the
    message and its mask, and the bit that turns off its interrupt line. *)
Record msi_hardware s a (m : MsiCapability) : Prop := {
  msi_word : word (offset m);
  msi_place : 0x40 <= offset m <= 256 - 0x18;
  msi_enable_bit : Z.testbit (writable a (offset m)) 16 = true;
  msi_address_bits : writable a (address_low m) = 0xfffffffc /\ Z.land (read32 s a (address_low m)) 3 = 0;
  msi_high_bits : forall h, address_high m = Some h -> writable a h = Z.ones 32;
  msi_data_bits : Z.land (writable a (data_register m)) 0xffff = 0xffff;
  msi_mask_bit : forall k, mask_register m = Some k -> Z.testbit (writable a k) 0 = true;
  msi_intx_bit : Z.testbit (writable a COMMAND) 10 = true }.

(** The message a device would send. *)
Definition message s a (m : MsiCapability) : Z * Z * Z :=
  (read32 s a (address_low m), match address_high m with Some h => read32 s a h | None => 0 end, read16 s a (data_register m)).
Definition masked s a (m : MsiCapability) : bool := match mask_register m with Some k => Z.testbit (read32 s a k) 0 | None => false end.
Definition intx_off s a : bool := Z.testbit (read32 s a COMMAND) 10.

Lemma word_add o k : word o -> 0x40 <= o <= 256 - 0x18 -> k ∈ [0; 4; 8; 12; 16] -> word (o + k) /\ is_bar (o + k) = false /\ o + k <> COMMAND /\ clearable (o + k) = 0.
Proof.
  intros [Ho [c ->]] Hr Hk. assert (Hk' : 0 <= k <= 16 /\ (4 | k)).
  { rewrite !elem_of_cons, elem_of_nil in Hk. destruct Hk as [->|[->|[->|[->|[->|[]]]]]]; (split; [lia|]); by apply Z.mod_divide. }
  destruct Hk' as [Hk1 Hk2]. split; [split; [lia|]; apply Z.divide_add_r; [by exists c|done]|].
  split; [unfold is_bar, BAR0; apply andb_false_iff; right; apply Z.ltb_ge; lia|]. split; [unfold COMMAND; lia|].
  unfold clearable, COMMAND. replace (c * 4 + k =? 4) with false; [done|]. symmetry. apply Z.eqb_neq. lia.
Qed.

Lemma aligned_word o : word o -> aligned o = o /\ aligned (o + 2) = o /\ Z.land o 2 = 0 /\ Z.land (o + 2) 2 = 2.
Proof.
  intros [Ho [c ->]]. assert (Hx : forallb (fun c => (aligned (c * 4) =? c * 4) && (aligned (c * 4 + 2) =? c * 4) && (Z.land (c * 4) 2 =? 0) && (Z.land (c * 4 + 2) 2 =? 2)) (seqZ 0 64) = true) by (by vm_compute).
  rewrite forallb_forall in Hx. specialize (Hx c ltac:(apply list_elem_of_In, elem_of_seqZ; lia)). rewrite !andb_true_iff, !Z.eqb_eq in Hx. tauto.
Qed.

(** A plain word: not the command, not a base address. *)
Definition plain (o : Z) : Prop := word o /\ is_bar o = false /\ o <> COMMAND /\ clearable o = 0.

Lemma plain_write s a o v : plain o -> read32 (write32 s a o v) a o = Z.lor (Z.ldiff (read32 s a o) (writable a o)) (Z.land v (writable a o)).
Proof. intros (Hw & Hb & _ & Hc). rewrite write_same, Hc by (done || by rewrite Hb). unfold written. by rewrite Z.land_0_r, Z.ldiff_0_r. Qed.
Lemma plain_write_other s a o v a' o' : plain o -> word o' -> (a', o') <> (a, o) -> read32 (write32 s a o v) a' o' = read32 s a' o'.
Proof. intros (Hw & Hb & _) Hw' Hne. apply write_other; [done|done|by rewrite Hb|done]. Qed.

(** Writing the upper half of a word. *)
Lemma upper_write s a o v n :
  plain o -> 0 <= v < 2 ^ 16 -> 16 <= n < 32 ->
  Z.testbit (read32 (write16 s a (o + 2) v) a o) n = if Z.testbit (writable a o) n then Z.testbit v (n - 16) else Z.testbit (read32 s a o) n.
Proof.
  intros Hp Hv Hn. destruct (aligned_word o) as (_ & Ha & _ & Hs); [apply Hp|]. unfold write16. rewrite Ha, Hs. change (2 * 8) with 16.
  rewrite plain_write by done. rewrite Z.lor_spec, Z.ldiff_spec, Z.land_spec, Z.lor_spec, Z.land_spec, Z.shiftl_spec by lia.
  change (not32 (Z.shiftl 0xffff 16)) with (Z.ones 16). rewrite Z.testbit_ones_nonneg by lia. replace (n <? 16) with false by (symmetry; apply Z.ltb_ge; lia).
  destruct (Z.testbit (writable a o) n), (Z.testbit (read32 s a o) n), (Z.testbit v _); done.
Qed.

(** Writing the lower half. *)
Lemma lower_write s a o v :
  plain o -> 0 <= v < 2 ^ 16 -> Z.land (writable a o) 0xffff = 0xffff -> read16 (write16 s a o v) a o = v.
Proof.
  intros Hp Hv Hw. destruct (aligned_word o) as (Ha & _ & Hs & _); [apply Hp|]. unfold read16, write16. rewrite Ha, Hs. change (0 * 8) with 0.
  rewrite Z.shiftr_0_r, !Z.shiftl_0_r, plain_write by done. change 0xffff with (Z.ones 16) in *. apply Z.bits_inj'. intros n Hn.
  apply (f_equal (fun x => Z.testbit x n)) in Hw. change (not32 (Z.ones 16)) with (Z.shiftl (Z.ones 16) 16). rewrite !Z.land_spec, !Z.lor_spec, !Z.ldiff_spec, !Z.land_spec, !Z.lor_spec, !Z.land_spec in *. rewrite Z.shiftl_spec by lia.
  rewrite (Z.testbit_ones_nonneg 16 n) in Hw |- * by lia. destruct (Z.ltb_spec n 16); [|by rewrite (high_bit v 16 n), andb_false_r by lia].
  rewrite andb_true_r in *. rewrite Hw. rewrite (Z.testbit_neg_r (Z.ones 16)) by lia. cbn [negb]. by rewrite !andb_false_r, andb_true_r.
Qed.

Lemma write16_other s a o half v a' o' : plain o -> half = 0 \/ half = 2 -> word o' -> (a', o') <> (a, o) -> read32 (write16 s a (o + half) v) a' o' = read32 s a' o'.
Proof.
  intros Hp Hh Hw Hne. destruct (aligned_word o) as (Ha0 & Ha & _ & _); [apply Hp|]. unfold write16.
  destruct Hh as [->| ->]; rewrite ?Z.add_0_r, ?Ha0, ?Ha; by apply plain_write_other.
Qed.

Lemma is_enabled_bit s a m : word (offset m) -> is_enabled s a m = Z.testbit (read32 s a (offset m)) 16.
Proof.
  intros Hw. destruct (aligned_word _ Hw) as (_ & Ha & _ & Hs). unfold is_enabled, control_register, read16. rewrite Ha, Hs. change (2 * 8) with 16.
  rewrite <- Z.land_assoc. change (Z.land 0xffff CONTROL_ENABLE) with (Z.ones 1). rewrite Z.land_ones by done. change (2 ^ 1) with 2.
  rewrite <- Z.bit0_mod, Z.shiftr_spec by done. by destruct (Z.testbit _ _).
Qed.

Section Program.
Context (s : S) (a : Address) (m : MsiCapability) (destination vector : Z).
Hypothesis (device : msi_hardware s a m) (Hdestination : 0 <= destination < 256) (Hvector : 0 <= vector < 256).

Lemma register_plain k : k ∈ [0; 4; 8; 12; 16] -> plain (offset m + k).
Proof. destruct device. by apply word_add. Qed.
Lemma control_plain : plain (offset m).
Proof. rewrite <- (Z.add_0_r (offset m)). apply register_plain. set_solver. Qed.
Lemma data_plain : plain (data_register m).
Proof. unfold data_register. destruct (msi_wide m); apply register_plain; set_solver. Qed.

(** The write to the control register that leaves the message as it is. *)
Lemma control_write_frame x v o : word o -> o <> offset m -> read32 (write16 x a (control_register m) v) a o = read32 x a o.
Proof. intros Hw Hne. apply write16_other; [apply control_plain|by right|done|congruence]. Qed.
Lemma control_write_enabled x v :
  0 <= v < 2 ^ 16 -> is_enabled (write16 x a (control_register m) v) a m = Z.testbit v 0.
Proof.
  intros Hv. rewrite is_enabled_bit by apply control_plain. unfold control_register. rewrite upper_write by (lia || apply control_plain).
  by rewrite (msi_enable_bit _ _ _ device).
Qed.
Lemma enabled_frame x y : read32 y a (offset m) = read32 x a (offset m) -> is_enabled y a m = is_enabled x a m.
Proof. intros H. rewrite !is_enabled_bit by apply control_plain. by rewrite H. Qed.

(** The writes of the message, each with the words it leaves alone. *)
Lemma address_step x :
  Z.land (read32 x a (address_low m)) 3 = 0 ->
  let y := write32 x a (address_low m) (message_address destination) in
  read32 y a (address_low m) = message_address destination /\ forall o, word o -> o <> address_low m -> read32 y a o = read32 x a o.
Proof.
  intros H3. destruct (msi_address_bits _ _ _ device) as [Hw _]. assert (Hp : plain (address_low m)) by (apply register_plain; set_solver). split.
  - rewrite plain_write, Hw by done. replace (Z.ldiff (read32 x a (address_low m)) 0xfffffffc) with 0.
    + rewrite Z.lor_0_l. unfold message_address, MESSAGE_BASE.
      assert (Hx : forallb (fun d => Z.land (Z.lor 0xfee00000 (Z.shiftl d 12)) 0xfffffffc =? Z.lor 0xfee00000 (Z.shiftl d 12)) (seqZ 0 256) = true) by (by vm_compute).
      rewrite forallb_forall in Hx. apply Z.eqb_eq, Hx, list_elem_of_In, elem_of_seqZ. lia.
    + symmetry. apply Z.bits_inj'. intros n Hn. apply (f_equal (fun x => Z.testbit x n)) in H3. rewrite Z.land_spec, Z.bits_0 in H3. rewrite Z.ldiff_spec, Z.bits_0.
      change 0xfffffffc with (Z.ldiff (Z.ones 32) 3). rewrite Z.ldiff_spec. destruct (Z.testbit 3 n); [rewrite andb_true_r in H3; by rewrite H3|]. cbn [negb]. rewrite andb_true_r.
      destruct (Z.lt_ge_cases n 32); [|by rewrite (high_bit _ 32 n) by (apply read_range || lia)]. rewrite Z.testbit_ones_nonneg by lia.
      replace (n <? 32) with true by (symmetry; apply Z.ltb_lt; lia). apply andb_false_r.
  - intros o Ho Hne. apply plain_write_other; [done|done|congruence].
Qed.

Lemma high_step x h :
  address_high m = Some h -> read32 (write32 x a h 0) a h = 0 /\ forall o, word o -> o <> h -> read32 (write32 x a h 0) a o = read32 x a o.
Proof.
  intros Hh. assert (Hp : plain h) by (unfold address_high in Hh; destruct (msi_wide m); simplify_eq; apply register_plain; set_solver). split.
  - rewrite plain_write, (msi_high_bits _ _ _ device h Hh) by done. rewrite Z.land_0_l, Z.lor_0_r. rewrite Z.ldiff_ones_r by done. rewrite Z.shiftr_div_pow2 by done.
    rewrite Z.div_small by apply read_range. done.
  - intros o Ho Hne. apply plain_write_other; [done|done|congruence].
Qed.

Lemma mask_step x k :
  mask_register m = Some k -> let y := write32 x a k (Z.land (read32 x a k) (not32 1)) in
  Z.testbit (read32 y a k) 0 = false /\ forall o, word o -> o <> k -> read32 y a o = read32 x a o.
Proof.
  intros Hk. assert (Hp : plain k) by (unfold mask_register in Hk; destruct (per_vector_mask m), (msi_wide m); simplify_eq; apply register_plain; set_solver). split.
  - rewrite plain_write by done. rewrite Z.lor_spec, Z.ldiff_spec, !Z.land_spec, (msi_mask_bit _ _ _ device k Hk).
    change (Z.testbit (not32 1) 0) with false. by rewrite !andb_false_r.
  - intros o Ho Hne. apply plain_write_other; [done|done|congruence].
Qed.

Lemma data_step x :
  let y := write16 x a (data_register m) vector in
  read16 y a (data_register m) = vector /\ forall o, word o -> o <> data_register m -> read32 y a o = read32 x a o.
Proof.
  split; [apply lower_write; [apply data_plain|lia|apply (msi_data_bits _ _ _ device)]|].
  intros o Ho Hne. rewrite <- (Z.add_0_r (data_register m)). apply write16_other; [apply data_plain|by left|done|congruence].
Qed.

Lemma intx_step x :
  let y := write16 x a COMMAND (Z.lor (read16 x a COMMAND) COMMAND_INTX_DISABLE) in
  intx_off y a = true /\ forall o, word o -> o <> COMMAND -> read32 y a o = read32 x a o.
Proof.
  split; [|intros o Ho Hne; apply command_write_other; [done|congruence]]. unfold intx_off. rewrite command_write; [|split|done].
  - rewrite (msi_intx_bit _ _ _ device), Z.lor_spec. change (Z.testbit COMMAND_INTX_DISABLE 10) with true. apply orb_true_r.
  - apply Z.lor_nonneg. split; [apply read16_range|done].
  - pose proof (read16_range x a COMMAND). destruct (Z.lt_ge_cases 0 (Z.lor (read16 x a COMMAND) COMMAND_INTX_DISABLE)); [|lia].
    apply Z.log2_lt_pow2; [done|]. rewrite Z.log2_lor by (done || lia). apply Z.max_lub_lt; [|done].
    destruct (decide (read16 x a COMMAND = 0)) as [->|]; [done|]. apply Z.log2_lt_pow2; lia.
Qed.

Lemma high_frame x o :
  word o -> (forall h, address_high m = Some h -> o <> h) ->
  read32 (match address_high m with Some h => write32 x a h 0 | None => x end) a o = read32 x a o.
Proof. intros Ho Hne. destruct (address_high m) as [h|] eqn:E; [|done]. apply (high_step x h E); [done|]. by apply Hne. Qed.
Lemma mask_frame x o :
  word o -> (forall k, mask_register m = Some k -> o <> k) ->
  read32 (match mask_register m with Some k => write32 x a k (Z.land (read32 x a k) (not32 1)) | None => x end) a o = read32 x a o.
Proof. intros Ho Hne. destruct (mask_register m) as [k|] eqn:E; [|done]. apply (mask_step x k E); [done|]. by apply Hne. Qed.

(** Where the registers are: different words. *)
Ltac apart :=
  first [ apply control_plain | apply data_plain | apply register_plain; set_solver | by apply word_check
        | intros ? ?; unfold address_high, mask_register, address_low, data_register, COMMAND in *; pose proof (msi_place _ _ _ device);
          destruct (msi_wide m), (per_vector_mask m); simplify_eq; lia
        | unfold address_high, mask_register, address_low, data_register, COMMAND in *; pose proof (msi_place _ _ _ device);
          destruct (msi_wide m), (per_vector_mask m); simplify_eq; lia ].

Lemma high_word h : address_high m = Some h -> word h.
Proof. unfold address_high. destruct (msi_wide m); intros; simplify_eq; apply register_plain; set_solver. Qed.
Lemma mask_word k : mask_register m = Some k -> word k.
Proof. unfold mask_register. destruct (per_vector_mask m), (msi_wide m); intros; simplify_eq; apply register_plain; set_solver. Qed.

(** The states of the writes between the first and the last: off. *)
Lemma off_while_written x : x ∈ removelast (program s a m destination vector) -> is_enabled x a m = false.
Proof.
  unfold program. set (ctl := Z.land _ (not16 (Z.lor CONTROL_ENABLE CONTROL_ENABLED_VECTORS))). set (s1 := write16 s a (control_register m) ctl).
  set (s2 := write32 s1 a _ _). set (s3 := match address_high m with Some _ => _ | None => _ end). set (s4 := write16 s3 a _ _).
  set (s5 := match mask_register m with Some _ => _ | None => _ end). set (s6 := write16 s5 a _ _). cbn [removelast].
  assert (E1 : is_enabled s1 a m = false).
  { subst s1. rewrite control_write_enabled by (apply land_low; [done|apply read16_range]). subst ctl. rewrite Z.land_spec. change (Z.testbit (not16 _) 0) with false. apply andb_false_r. }
  assert (H1 : Z.land (read32 s1 a (address_low m)) 3 = 0).
  { subst s1. rewrite control_write_frame by apart. apply (msi_address_bits _ _ _ device). }
  assert (E2 : is_enabled s2 a m = false) by (rewrite <- E1; apply enabled_frame, (address_step s1 H1); apart).
  assert (E3 : is_enabled s3 a m = false) by (rewrite <- E2; apply enabled_frame, high_frame; apart).
  assert (E4 : is_enabled s4 a m = false) by (rewrite <- E3; apply enabled_frame, (data_step s3); apart).
  assert (E5 : is_enabled s5 a m = false) by (rewrite <- E4; apply enabled_frame, mask_frame; apart).
  assert (E6 : is_enabled s6 a m = false) by (rewrite <- E5; apply enabled_frame, (intx_step s5); apart).
  rewrite !elem_of_cons, elem_of_nil. intros [->|[->|[->|[->|[->|[->|[]]]]]]]; done.
Qed.

Lemma message_written :
  exists x, last (program s a m destination vector) = Some x /\ is_enabled x a m = true /\
    message x a m = (message_address destination, 0, vector) /\ masked x a m = false /\ intx_off x a = true.
Proof.
  unfold program. set (ctl := Z.land _ (not16 (Z.lor CONTROL_ENABLE CONTROL_ENABLED_VECTORS))). set (s1 := write16 s a (control_register m) ctl).
  set (s2 := write32 s1 a _ _). set (s3 := match address_high m with Some _ => _ | None => _ end). set (s4 := write16 s3 a _ _).
  set (s5 := match mask_register m with Some _ => _ | None => _ end). set (s6 := write16 s5 a _ _). eexists. split; [done|].
  assert (Hc : 0 <= ctl < 2 ^ 16) by (apply land_low; [done|apply read16_range]).
  assert (Hc1 : 0 <= Z.lor ctl CONTROL_ENABLE < 2 ^ 16).
  { split; [apply Z.lor_nonneg; split; [lia|done]|]. destruct (Z.lt_ge_cases 0 (Z.lor ctl CONTROL_ENABLE)); [|lia]. apply Z.log2_lt_pow2; [done|].
    rewrite Z.log2_lor by (done || lia). apply Z.max_lub_lt; [|done]. destruct (decide (ctl = 0)) as [->|]; [done|]. apply Z.log2_lt_pow2; lia. }
  assert (H1 : Z.land (read32 s1 a (address_low m)) 3 = 0).
  { subst s1. rewrite control_write_frame by apart. apply (msi_address_bits _ _ _ device). }
  assert (F6 : forall o, word o -> o <> COMMAND -> o <> offset m -> read32 (write16 s6 a (control_register m) (Z.lor ctl CONTROL_ENABLE)) a o = read32 s5 a o).
  { intros o Ho Hc' Hm. rewrite control_write_frame by done. by apply (intx_step s5). }
  split; [rewrite control_write_enabled by done; rewrite Z.lor_spec; apply orb_true_r|]. split; [|split].
  - unfold message. f_equal; [f_equal|].
    + rewrite F6 by apart. unfold s5. rewrite mask_frame by apart. etrans; [apply (data_step s3); apart|]. unfold s3. rewrite high_frame by apart. apply (address_step s1 H1).
    + destruct (address_high m) as [h|] eqn:Eh; [|done]. rewrite F6 by (first [by apply high_word | apart]). unfold s5. rewrite mask_frame by (first [by apply high_word | apart]).
      etrans; [apply (data_step s3); first [by apply high_word | apart]|]. by apply (high_step s2 h).
    + rewrite <- (proj1 (data_step s3)). destruct (aligned_word (data_register m)) as (Ha & _); [apply data_plain|]. unfold read16. rewrite Ha.
      rewrite F6 by apart. unfold s5. by rewrite mask_frame by apart.
  - unfold masked. destruct (mask_register m) as [k|] eqn:Ek; [|done]. rewrite F6 by (first [by apply mask_word | apart]). by apply (mask_step s4 k).
  - unfold intx_off. rewrite control_write_frame by apart. apply (intx_step s5).
Qed.

(** Switched off again, the device has its interrupt line back. *)
Lemma disable_gives_line_back : is_enabled (disable s a m) a m = false /\ intx_off (disable s a m) a = false.
Proof.
  unfold disable. set (x := write16 s a (control_register m) _).
  assert (E : is_enabled x a m = false).
  { subst x. rewrite control_write_enabled by (apply land_low; [done|apply read16_range]). rewrite Z.land_spec. apply andb_false_r. }
  split.
  - rewrite <- E. apply enabled_frame, command_write_other; [apply control_plain|]. pose proof (msi_place _ _ _ device). unfold COMMAND. intros [= Ho]. lia.
  - unfold intx_off. rewrite command_write by (done || (apply land_low; [done|]; apply read16_range)). rewrite (msi_intx_bit _ _ _ device), Z.land_spec. apply andb_false_r.
Qed.

End Program.

(** C38. While a device's MSI message is changed the device never holds it enabled and
    half written: in every state of [program] in which MSI is on, the message is the
    vector at the destination's address, unmasked, with the interrupt line off, and
    the last state is such a one. *)
Theorem message_never_half_written s a m destination vector :
  msi_hardware s a m -> 0 <= destination < 256 -> 0 <= vector < 256 ->
  (forall x, x ∈ program s a m destination vector -> is_enabled x a m = true ->
     message x a m = (message_address destination, 0, vector) /\ masked x a m = false /\ intx_off x a = true) /\
  exists x, last (program s a m destination vector) = Some x /\ is_enabled x a m = true.
Proof.
  intros Hd Hdest Hvec. destruct (message_written s a m destination vector Hd Hdest Hvec) as (y & Hl & He & Hm). split; [|by exists y].
  intros x Hx Hex. pose proof (off_while_written s a m destination vector Hd Hdest Hvec x) as Hoff. apply last_Some in Hl as [l El]. rewrite El in *.
  rewrite removelast_last in Hoff. apply elem_of_app in Hx as [Hx|Hx%list_elem_of_singleton]; [|by subst]. rewrite Hoff in Hex by done. done.
Qed.

End Registers.

(** ** A machine *)

Module Machine.

(** A host bridge, a bridge to bus 1, and behind it a sound controller with a
    64-bit memory range, a range of ports and an MSI capability. *)
Definition host : Address := mkAddress 0 0 0.
Definition bridge : Address := mkAddress 0 1 0.
Definition sound : Address := mkAddress 1 0 0.

Definition initial (a : Address) (o : Z) : Z :=
  if decide (a = host) then if o =? 0 then 0x12378086 else if o =? 8 then 0x06000000 else 0
  else if decide (a = bridge) then if o =? 0 then 0x00011b36 else if o =? 8 then 0x06040000 else if o =? 0xc then 0x00010000 else if o =? 0x18 then 0x00010100 else 0
  else if decide (a = sound) then
    if o =? 0 then 0x26688086 else if o =? 4 then 0x00100006 else if o =? 8 then 0x04030001
    else if o =? 0x10 then 0xfebf0004 else if o =? 0x14 then 8 else if o =? 0x18 then 0xc041 else if o =? 0x34 then 0x50 else if o =? 0x3c then 0x010b
    else if o =? 0x50 then 0x00800005 else 0
  else Z.ones 32.

Definition wires (a : Address) (o : Z) : Z :=
  if o =? COMMAND then 0x407
  else if decide (a = sound) then
    if o =? 0x10 then Z.land (field_bits 64 14) (Z.ones 32) else if o =? 0x14 then Z.shiftr (field_bits 64 14) 32 else if o =? 0x18 then field_bits 16 6
    else if o =? 0x50 then 0x00710000 else if o =? 0x54 then 0xfffffffc else if o =? 0x58 then Z.ones 32 else if o =? 0x5c then 0xffff else 0
  else 0.

#[export] Instance machine : ConfigSpace (Address -> Z -> Z) := {
  read32 s a o := s a o mod 2 ^ 32;
  write32 s a o v := fun a' o' => if decide ((a', o') = (a, o)) then written (wires a o) (clearable o) (s a o mod 2 ^ 32) v else s a' o' }.

Lemma wires_range a o : 0 <= wires a o < 2 ^ 32.
Proof. unfold wires. repeat case_match; (split; [by apply Z.leb_le; vm_compute|by apply Z.ltb_lt; vm_compute]). Qed.

Lemma written_range w c old v : 0 <= w < 2 ^ 32 -> 0 <= old < 2 ^ 32 -> written w c old v mod 2 ^ 32 = written w c old v.
Proof.
  intros Hw Ho. apply Z.bits_inj'. intros n Hn. destruct (Z.lt_ge_cases n 32); [by rewrite Z.mod_pow2_bits_low by lia|].
  rewrite Z.mod_pow2_bits_high by lia. unfold written. rewrite Z.ldiff_spec, Z.lor_spec, Z.ldiff_spec, Z.land_spec, (high_bit w 32 n), (high_bit old 32 n) by lia.
  cbn [andb orb]. by rewrite andb_false_r.
Qed.

#[export] Program Instance machine_hardware : Hardware (Address -> Z -> Z) machine := { writable := wires }.
Next Obligation. apply wires_range. Qed.
Next Obligation. intros a. done. Qed.
Next Obligation. intros s a o. apply Z.mod_pos_bound. lia. Qed.
Next Obligation.
  intros s a o v _ _. cbn [read32 write32 machine]. rewrite decide_True by done. apply written_range; [apply wires_range|apply Z.mod_pos_bound; lia].
Qed.
Next Obligation. intros s a o v a' o' _ _ _ Hne. cbn [read32 write32 machine]. by rewrite decide_False by done. Qed.
Next Obligation. intros s a _. change (wires a COMMAND) with 0x407. apply Z.bits_inj'. intros n Hn. rewrite Z.land_spec, Z.ldiff_spec, Z.bits_0.
  change 0x407 with (Z.lor 3 0x404). rewrite Z.lor_spec. change (Z.lor COMMAND_IO COMMAND_MEMORY) with 3. destruct (Z.testbit 3 n); cbn [orb negb]; by rewrite !andb_false_r. Qed.

Definition scanned : list Address := match scan initial with Some (devices, _) => address <$> devices | None => [] end.

Lemma scanned_addresses : scanned = [host; bridge; sound].
Proof. by vm_compute. Qed.

Lemma sound_scanned devices s' : scan initial = Some (devices, s') -> sound ∈ address <$> devices.
Proof.
  intros E. assert (Hs : address <$> devices = scanned) by (unfold scanned; by rewrite E). rewrite Hs, scanned_addresses, !elem_of_cons.
  exact (or_intror (or_intror (or_introl eq_refl))).
Qed.

Lemma scan_lists_functions_witness : scanned = [host; bridge; sound] /\ reachable initial 1.
Proof.
  split; [exact scanned_addresses|]. destruct (scan_lists_functions initial) as (devices & s' & E & _ & _ & _ & Hall).
  apply (Hall sound). by apply (sound_scanned devices s').
Defined.

Lemma sound_present : present initial sound.
Proof. unfold present. by vm_compute. Qed.

Lemma sound_bars : laid_out (fun k => register initial sound (bar_offset k)) (bar_count initial sound) 0
    [Some (Memory 0x8febf0000 0x4000 false true); None; Some (Io 0xc040 0x40); None; None; None].
Proof.
  change (bar_count initial sound) with 6%nat. apply laid_out_two; [lia| |].
  { change 0x4000 with (2 ^ 14). change false with (negb (Z.land 4 8 =? 0)). apply (encodes_memory64 0x8febf0000 14 4); [lia|lia|by apply Z.mod_divide|set_solver]. }
  apply laid_out_one; [lia| |]. { change 0x40 with (2 ^ 6). apply (encodes_io 0xc040 6 16); [lia|lia|by apply Z.mod_divide|by left]. }
  do 3 (apply laid_out_one; [lia|apply encodes_none|]). apply laid_out_end.
Qed.

Lemma bars_are_exact_witness : exists d s', read_device initial sound = (Some d, s') /\
    bars d = [Some (Memory 0x8febf0000 0x4000 false true); None; Some (Io 0xc040 0x40); None; None; None] /\ read16 s' sound COMMAND = read16 initial sound COMMAND.
Proof.
  destruct (bars_are_exact initial sound _ sound_present sound_bars) as (d & s' & E & Hb & _ & Hd & _). exists d, s'.
  split; [exact E|]. split; [exact Hb|]. exact (Hd sound).
Defined.

Lemma sound_msi : msi_hardware initial sound (read_msi initial sound 0x50).
Proof.
  split; [by apply word_check|by vm_compute|done|done| |done| |done].
  - intros h [= <-]. done.
  - intros k [=].
Qed.

Lemma message_never_half_written_witness :
  exists x, last (program initial sound (read_msi initial sound 0x50) 0 0x41) = Some x /\ message x sound (read_msi initial sound 0x50) = (0xfee00000, 0, 0x41).
Proof.
  destruct (message_never_half_written initial sound (read_msi initial sound 0x50) 0 0x41 sound_msi ltac:(lia) ltac:(lia)) as [Hall (x & Hl & He)].
  exists x. split; [exact Hl|]. apply (Hall x); [|exact He]. by apply last_Some_elem_of.
Defined.

End Machine.

End Pci.
