(* ===== verification/HdaCodec.v ===== *)
(** * HdaCodec: finding and wiring the outputs of a sound codec
      ([drivers/hda/codec.rs])

    The codec is reached through the class [CodecLink], whose state is whatever
    the controller and the codec keep; the operations thread it and return a
    [result].  Registers and nodes are [Z]; a range of nodes ends at 255 as
    [saturating_add] makes it.  The breadth-first search carries fuel: every
    round takes a path out of the queue, and a path enters it only for a widget
    not seen before, so two more than the number of widgets is enough
    ([paths_to_dacs_total]).

    Proved: [discover] reads back any codec whose registers describe it; the
    search finds a shortest path to every DAC a pin can play and nothing else;
    the plan gives every usable pin a path, an unused DAC whenever it can reach
    one, and rates all DACs play; after [configure] and [set_stream] every
    output of the plan carries the stream, although later outputs may have
    switched widgets that earlier ones use. *)

From stdpp Require Import base gmap sorting numbers list.
From S2P Require Import Prelude.
Local Open Scope Z_scope.

Module HdaCodec.

(** ** Verbs *)

Definition verb12 (verb payload : Z) : Z := Z.lor (Z.shiftl verb 8) payload.
Definition verb4 (verb payload : Z) : Z := Z.lor (Z.shiftl verb 16) payload.

Definition GET_PARAMETER : Z := 0xf00.
Definition GET_CONNECTION_LIST : Z := 0xf02.
Definition GET_CONFIG_DEFAULT : Z := 0xf1c.
Definition SET_CONNECTION_SELECT : Z := 0x701.
Definition SET_POWER_STATE : Z := 0x705.
Definition SET_CHANNEL_STREAM : Z := 0x706.
Definition SET_PIN_CONTROL : Z := 0x707.
Definition SET_EAPD : Z := 0x70c.
Definition SET_CONVERTER_FORMAT : Z := 0x2.
Definition SET_AMP_GAIN_MUTE : Z := 0x3.

Definition PARAMETER_VENDOR : Z := 0x00.
Definition PARAMETER_NODE_COUNT : Z := 0x04.
Definition PARAMETER_FUNCTION_TYPE : Z := 0x05.
Definition PARAMETER_WIDGET_CAPS : Z := 0x09.
Definition PARAMETER_PCM : Z := 0x0a.
Definition PARAMETER_PIN_CAPS : Z := 0x0c.
Definition PARAMETER_AMP_IN : Z := 0x0d.
Definition PARAMETER_CONNECTIONS : Z := 0x0e.
Definition PARAMETER_AMP_OUT : Z := 0x12.

(** Bits of the capabilities, by their position. *)
Definition CAPS_IN_AMP : Z := 1.
Definition CAPS_OUT_AMP : Z := 2.
Definition CAPS_AMP_OVERRIDE : Z := 3.
Definition CAPS_FORMAT_OVERRIDE : Z := 4.
Definition CAPS_CONNECTIONS : Z := 8.
Definition CAPS_DIGITAL : Z := 9.
Definition CAPS_POWER : Z := 10.
Definition PIN_HEADPHONE_DRIVE : Z := 3.
Definition PIN_OUTPUT : Z := 4.
Definition PIN_HDMI : Z := 6.
Definition PIN_EAPD : Z := 16.
Definition PIN_DISPLAY_PORT : Z := 24.
Definition PCM_16_BIT : Z := 17.

Definition PIN_CONTROL_OUT : Z := 0x40.
Definition PIN_CONTROL_HEADPHONE : Z := 0x80.
Definition EAPD_ENABLE : Z := 0x02.

Definition RATES : list Z := [8000; 11025; 16000; 22050; 32000; 44100; 48000; 88200; 96000; 176400; 192000; 384000].

(** ** Widgets *)

Inductive WidgetType := Output | Input | Mixer | Selector | Pin | Other (kind : Z).
#[global] Instance WidgetType_eq_dec : EqDecision WidgetType.
Proof. solve_decision. Defined.

Definition from_caps (caps : Z) : WidgetType :=
  let kind := Z.land (Z.shiftr caps 20) 0xf in
  if kind =? 0 then Output else if kind =? 1 then Input else if kind =? 2 then Mixer
  else if kind =? 3 then Selector else if kind =? 4 then Pin else Other kind.

Inductive PinDevice := LineOut | Speaker | Headphone.
#[global] Instance PinDevice_eq_dec : EqDecision PinDevice.
Proof. solve_decision. Defined.

Record Widget := mkWidget {
  node : Z; kind : WidgetType; caps : Z; pin_caps : Z; pin_default : Z;
  amp_in : Z; amp_out : Z; pcm : Z; connections_of : list Z }.

Definition digital (w : Widget) : bool := Z.testbit (caps w) CAPS_DIGITAL.

Definition output_device (w : Widget) : option PinDevice :=
  if negb (bool_decide (kind w = Pin)) || negb (Z.testbit (pin_caps w) PIN_OUTPUT)
     || Z.testbit (pin_caps w) PIN_HDMI || Z.testbit (pin_caps w) PIN_DISPLAY_PORT
     || digital w || (Z.shiftr (pin_default w) 30 =? 1)
  then None
  else
    let device := Z.land (Z.shiftr (pin_default w) 20) 0xf in
    if device =? 0 then Some LineOut else if device =? 1 then Some Speaker
    else if device =? 2 then Some Headphone else None.

Record Codec := mkCodec { address : Z; vendor : Z; function_group : Z; widgets : list Widget }.

Definition widget (c : Codec) (n : Z) : option Widget := snd <$> list_find (fun w => node w = n) (widgets c).

Inductive CodecError := NoResponse | NoAudioFunction | NoOutputs | NoFormat.

Record OutputPath := mkOutputPath { device : PinDevice; nodes : list Z }.

(** [nodes] is never empty in a plan ([plan_paths]); the source indexes it. *)
Definition pin (o : OutputPath) : Z := default 0 (head (nodes o)).
Definition dac (o : OutputPath) : Z := default 0 (last (nodes o)).

Record OutputPlan := mkOutputPlan {
  plan_address : Z; plan_vendor : Z; plan_group : Z; outputs : list OutputPath; dacs : list Z; rates : list Z }.

(** ** Reading a codec *)

Class CodecLink (S : Type) := command : Z -> Z -> Z -> S -> option Z * S.

Section Discover.
Context {S : Type} {link : CodecLink S}.

Definition parameter (codec n p : Z) (s : S) : result CodecError Z * S :=
  let '(answer, s) := command codec n (verb12 GET_PARAMETER p) s in (ok_or answer NoResponse, s).

(** One entry of a connection list. *)
Definition add_connection (entry range_bit : Z) (l : list Z) : list Z :=
  let target := Z.land entry (range_bit - 1) `mod` 256 in
  match last l with
  | Some previous =>
      if negb (Z.land entry range_bit =? 0) && (previous <? target)
      then l ++ seqZ (previous + 1) (target - previous) else l ++ [target]
  | None => l ++ [target]
  end.

Fixpoint add_word (slots : list Z) (bits range_bit index length word : Z) (l : list Z) : list Z :=
  match slots with
  | [] => l
  | slot :: slots =>
      if length <=? index + slot then l
      else add_word slots bits range_bit index length word
             (add_connection (Z.land (Z.shiftr word (slot * bits)) (Z.shiftl 1 bits - 1)) range_bit l)
  end.

(** The loop runs at most [length] times; the fuel is 127, the most [length] can be. *)
Fixpoint read_connections (fuel : nat) (codec n per_word bits range_bit index length : Z) (l : list Z) (s : S) : result CodecError (list Z) * S :=
  match fuel with
  | O => (Ok l, s)
  | Datatypes.S fuel =>
      if length <=? index then (Ok l, s)
      else
        let '(answer, s) := command codec n (verb12 GET_CONNECTION_LIST index) s in
        match answer with
        | None => (Err NoResponse, s)
        | Some word =>
            read_connections fuel codec n per_word bits range_bit (index + per_word) length
              (add_word (seqZ 0 per_word) bits range_bit index length word l) s
        end
  end.

Definition connections (codec n : Z) (s : S) : result CodecError (list Z) * S :=
  let '(info, s) := parameter codec n PARAMETER_CONNECTIONS s in
  match info with
  | Err e => (Err e, s)
  | Ok info =>
      let length := Z.land info 0x7f in
      if negb (Z.land info 0x80 =? 0) then read_connections 127 codec n 2 16 (Z.shiftl 1 15) 0 length [] s
      else read_connections 127 codec n 4 8 (Z.shiftl 1 7) 0 length [] s
  end.

(** [first..first.saturating_add(count)] on bytes. *)
Definition node_range (count : Z) : list Z :=
  let first := Z.land (Z.shiftr count 16) 0xff in let n := Z.land count 0xff in
  seqZ first (Z.min 255 (first + n) - first).

Fixpoint find_group (codec : Z) (ns : list Z) (s : S) : option Z * S :=
  match ns with
  | [] => (None, s)
  | n :: ns =>
      let '(kind, s) := parameter codec n PARAMETER_FUNCTION_TYPE s in
      match kind with
      | Ok k => if Z.land k 0xff =? 1 then (Some n, s) else find_group codec ns s
      | Err _ => find_group codec ns s
      end
  end.

(** The amplifier capabilities of a widget, its own or those of the group. *)
Definition read_amp (codec n caps which : Z) (present : bool) (default : Z) (s : S) : result CodecError Z * S :=
  if negb present then (Ok 0, s)
  else if Z.testbit caps CAPS_AMP_OVERRIDE then parameter codec n which s
  else (Ok default, s).

Notation "'let*' x := e 'on' s 'in' k" :=
  (let '(r, s) := e in match r with Ok x => k | Err err => (Err err, s) end)
  (at level 10, x name, s name, e at level 100, k at level 200).

Definition read_widget (codec default_pcm default_in default_out n : Z) (s : S) : result CodecError Widget * S :=
  let* caps := parameter codec n PARAMETER_WIDGET_CAPS s on s in
  let kind := from_caps caps in
  let* amp_in := read_amp codec n caps PARAMETER_AMP_IN (Z.testbit caps CAPS_IN_AMP) default_in s on s in
  let* amp_out := read_amp codec n caps PARAMETER_AMP_OUT (Z.testbit caps CAPS_OUT_AMP) default_out s on s in
  let* pcm := if bool_decide (kind = Output) && Z.testbit caps CAPS_FORMAT_OVERRIDE
              then parameter codec n PARAMETER_PCM s else (Ok default_pcm, s) on s in
  let* pin_caps := if bool_decide (kind = Pin) then parameter codec n PARAMETER_PIN_CAPS s else (Ok 0, s) on s in
  let* pin_default := if bool_decide (kind = Pin)
                      then let '(a, s) := command codec n (verb12 GET_CONFIG_DEFAULT 0) s in (ok_or a NoResponse, s)
                      else (Ok 0, s) on s in
  let* connections := if Z.testbit caps CAPS_CONNECTIONS then connections codec n s else (Ok [], s) on s in
  (Ok (mkWidget n kind caps pin_caps pin_default amp_in amp_out pcm connections), s).

Fixpoint read_widgets (codec default_pcm default_in default_out : Z) (ns : list Z) (ws : list Widget) (s : S) : result CodecError (list Widget) * S :=
  match ns with
  | [] => (Ok ws, s)
  | n :: ns =>
      let* w := read_widget codec default_pcm default_in default_out n s on s in
      read_widgets codec default_pcm default_in default_out ns (ws ++ [w]) s
  end.

Definition discover (codec : Z) (s : S) : result CodecError Codec * S :=
  let* vendor := parameter codec 0 PARAMETER_VENDOR s on s in
  let* groups := parameter codec 0 PARAMETER_NODE_COUNT s on s in
  let '(group, s) := find_group codec (node_range groups) s in
  match group with
  | None => (Err NoAudioFunction, s)
  | Some group =>
      let* default_pcm := parameter codec group PARAMETER_PCM s on s in
      let* default_in := parameter codec group PARAMETER_AMP_IN s on s in
      let* default_out := parameter codec group PARAMETER_AMP_OUT s on s in
      let* nodes := parameter codec group PARAMETER_NODE_COUNT s on s in
      let* widgets := read_widgets codec default_pcm default_in default_out (node_range nodes) [] s on s in
      (Ok (mkCodec codec vendor group widgets), s)
  end.

End Discover.

(** ** Paths *)

Definition passes (w : Widget) : bool := match kind w with Mixer | Selector => true | _ => false end.
Definition analog_dac (w : Widget) : bool := bool_decide (kind w = Output) && negb (digital w).

(** The sources of one widget: what was visited, the queue, what was found. *)
Fixpoint visit_sources (c : Codec) (path sources visited : list Z) (queue found : list (list Z)) : list Z * list (list Z) * list (list Z) :=
  match sources with
  | [] => (visited, queue, found)
  | source :: sources =>
      if bool_decide (source ∈ visited) then visit_sources c path sources visited queue found
      else
        let visited := visited ++ [source] in
        match widget c source with
        | None => visit_sources c path sources visited queue found
        | Some next =>
            let longer := path ++ [source] in
            if analog_dac next then visit_sources c path sources visited queue (found ++ [longer])
            else if passes next then visit_sources c path sources visited (queue ++ [longer]) found
            else visit_sources c path sources visited queue found
        end
  end.

Fixpoint search (fuel : nat) (c : Codec) (visited : list Z) (queue found : list (list Z)) : option (list (list Z)) :=
  match fuel with
  | O => None
  | S fuel =>
      match queue with
      | [] => Some found
      | path :: queue =>
          match widget c (default 0 (last path)) with
          | None => search fuel c visited queue found
          | Some w =>
              let '(visited, queue, found) := visit_sources c path (connections_of w) visited queue found in
              search fuel c visited queue found
          end
      end
  end.

Definition paths_to_dacs (c : Codec) (pin : Z) : option (list (list Z)) :=
  search (S (S (length (widgets c)))) c [pin] [[pin]] [].

(** ** The plan *)

(** Stable sorting by a key, as [sort_by_key]. *)
Fixpoint insert_by {A} (le : A -> A -> bool) (x : A) (l : list A) : list A :=
  match l with [] => [x] | y :: l' => if le x y then x :: l else y :: insert_by le x l' end.
Definition sort_by {A} (le : A -> A -> bool) (l : list A) : list A := foldr (insert_by le) [] l.

Fixpoint dedup (l : list Z) : list Z :=
  match l with
  | x :: (y :: _) as l' => if x =? y then dedup l' else x :: dedup l'
  | _ => l
  end.

Definition pin_before (a b : Widget * PinDevice) : bool :=
  let key := fun w => Z.land (pin_default w) 0xff in
  (key a.1 <? key b.1) || ((key a.1 =? key b.1) && (node a.1 <=? node b.1)).

Definition output_pins (c : Codec) : list (Widget * PinDevice) :=
  sort_by pin_before (omap (fun w => (fun d => (w, d)) <$> output_device w) (widgets c)).

Definition taken (outputs : list OutputPath) (path : list Z) : bool :=
  existsb (fun o => dac o =? default 0 (last path)) outputs.

Definition choose_path (outputs : list OutputPath) (paths : list (list Z)) : option (list Z) :=
  match List.find (fun p => negb (taken outputs p)) paths with Some p => Some p | None => head paths end.

Fixpoint choose_outputs (c : Codec) (pins : list (Widget * PinDevice)) (outputs : list OutputPath) : option (list OutputPath) :=
  match pins with
  | [] => Some outputs
  | (w, d) :: pins =>
      match paths_to_dacs c (node w) with
      | None => None
      | Some paths =>
          match choose_path outputs paths with
          | Some nodes => choose_outputs c pins (outputs ++ [mkOutputPath d nodes])
          | None => choose_outputs c pins outputs
          end
      end
  end.

Definition stream_format (rate channels : Z) : option Z :=
  let word := fun base_44k multiply divide =>
    if negb ((1 <=? channels) && (channels <=? 16)) then None
    else Some (Z.lor (Z.lor (Z.lor (Z.lor (Z.shiftl base_44k 14) (Z.shiftl (multiply - 1) 11)) (Z.shiftl (divide - 1) 8)) (Z.shiftl 1 4)) (channels - 1)) in
  if rate =? 8000 then word 0 1 6 else if rate =? 11025 then word 1 1 4 else if rate =? 16000 then word 0 1 3
  else if rate =? 22050 then word 1 1 2 else if rate =? 32000 then word 0 2 3 else if rate =? 44100 then word 1 1 1
  else if rate =? 48000 then word 0 1 1 else if rate =? 88200 then word 1 2 1 else if rate =? 96000 then word 0 2 1
  else if rate =? 176400 then word 1 4 1 else if rate =? 192000 then word 0 4 1 else None.

Definition common_pcm (c : Codec) (dacs : list Z) : Z :=
  foldl (fun rates dac => Z.land (match widget c dac with Some w => pcm w | None => 0 end) rates) (2 ^ 32 - 1) dacs.

Definition common_rates (common : Z) : list Z :=
  filter (fun rate => is_Some (stream_format rate 2))
    (snd <$> filter (fun br : nat * Z => Z.testbit common (Z.of_nat br.1) = true) (imap pair RATES)).

(** The outer [option] is the search's fuel, which always suffices ([plan_outputs_total]). *)
Definition plan_outputs (c : Codec) : option (result CodecError OutputPlan) :=
  match choose_outputs c (output_pins c) [] with
  | None => None
  | Some outputs =>
      Some (if bool_decide (outputs = []) then Err NoOutputs
            else
              let dacs := dedup (sort_by Z.leb (dac <$> outputs)) in
              let common := common_pcm c dacs in
              if negb (Z.testbit common PCM_16_BIT) then Err NoFormat
              else
                let rates := common_rates common in
                if bool_decide (rates = []) then Err NoFormat
                else Ok (mkOutputPlan (address c) (vendor c) (function_group c) outputs dacs rates))
  end.

(** ** Wiring *)

Definition amp (output : bool) (index gain : Z) (mute : bool) : Z :=
  let direction := if output then Z.shiftl 1 15 else Z.shiftl 1 14 in
  verb4 SET_AMP_GAIN_MUTE
    (Z.lor (Z.lor (Z.lor (Z.lor direction (Z.shiftl 3 12)) (Z.shiftl (Z.land index 0xf) 8)) (Z.shiftl (if mute then 1 else 0) 7)) (Z.land gain 0x7f)).

Definition position (n : Z) (l : list Z) : option nat := fst <$> list_find (eq n) l.

Section Configure.
Context {S : Type} {link : CodecLink S}.

Definition send (codec n verb : Z) (s : S) : S := (command codec n verb s).2.

(** One widget of a path and the widget that feeds it there. *)
Definition configure_widget (codec : Z) (w : Widget) (upstream : option Z) (s : S) : S :=
  let n := node w in
  let s := if Z.testbit (caps w) CAPS_POWER then send codec n (verb12 SET_POWER_STATE 0) s else s in
  let s :=
    match upstream with
    | Some up =>
        match position up (connections_of w) with
        | Some index =>
            match kind w with
            | Mixer => if Z.testbit (caps w) CAPS_IN_AMP
                       then send codec n (amp false (Z.of_nat index `mod` 256) (Z.land (amp_in w) 0x7f) false) s else s
            | _ => if (1 <? length (connections_of w))%nat
                   then send codec n (verb12 SET_CONNECTION_SELECT (Z.of_nat index `mod` 256)) s else s
            end
        | None => s
        end
    | None => s
    end in
  if Z.testbit (caps w) CAPS_OUT_AMP then send codec n (amp true 0 (Z.land (amp_out w) 0x7f) false) s else s.

Fixpoint configure_path (c : Codec) (ns : list Z) (s : S) : S :=
  match ns with
  | [] => s
  | n :: ns =>
      configure_path c ns
        (match widget c n with Some w => configure_widget (address c) w (head ns) s | None => s end)
  end.

Definition configure_pin (c : Codec) (o : OutputPath) (s : S) : S :=
  match widget c (pin o) with
  | None => s
  | Some w =>
      let control := if bool_decide (device o = Headphone) && Z.testbit (pin_caps w) PIN_HEADPHONE_DRIVE
                     then Z.lor PIN_CONTROL_OUT PIN_CONTROL_HEADPHONE else PIN_CONTROL_OUT in
      let s := send (address c) (pin o) (verb12 SET_PIN_CONTROL control) s in
      if Z.testbit (pin_caps w) PIN_EAPD then send (address c) (pin o) (verb12 SET_EAPD EAPD_ENABLE) s else s
  end.

Definition configure (c : Codec) (plan : OutputPlan) (s : S) : S :=
  foldl (fun s o => configure_pin c o (configure_path c (nodes o) s))
    (send (address c) (function_group c) (verb12 SET_POWER_STATE 0) s) (outputs plan).

Definition set_stream (plan : OutputPlan) (tag format : Z) (s : S) : S :=
  foldl (fun s dac => send (plan_address plan) dac (verb12 SET_CHANNEL_STREAM (Z.shiftl tag 4 `mod` 256))
                        (send (plan_address plan) dac (verb4 SET_CONVERTER_FORMAT format) s)) s (dacs plan).

End Configure.

Definition choose_rate (supported : list Z) (wanted : Z) : Z :=
  if bool_decide (wanted ∈ supported) then wanted
  else
    match List.find (fun rate => negb (wanted =? 0) && (rate mod wanted =? 0)) supported with
    | Some rate => rate
    | None => match List.find (fun rate => wanted <? rate) supported with
              | Some rate => rate
              | None => default 48000 (last supported)
              end
    end.

(** ** The search *)

Lemma widget_node c n w : widget c n = Some w -> node w = n /\ w ∈ widgets c.
Proof.
  unfold widget. destruct (list_find _ _) as [[i w']|] eqn:E; [|done]. intros [= ->].
  apply list_find_Some in E as (Hi & Hn & _). split; [done|]. by eapply list_elem_of_lookup_2.
Qed.

Definition feeds (c : Codec) (u v : Z) : Prop := exists w, widget c u = Some w /\ v ∈ connections_of w.
Definition passing (c : Codec) (u : Z) : Prop := exists w, widget c u = Some w /\ passes w = true.
Definition is_dac (c : Codec) (u : Z) : Prop := exists w, widget c u = Some w /\ analog_dac w = true.

(** The ways sound can take to [p0], from it backwards: through mixers and selectors. *)
Inductive path (c : Codec) (p0 : Z) : list Z -> Prop :=
| path_one : path c p0 [p0]
| path_more p u v : path c p0 (p ++ [u]) -> p = [] \/ passing c u -> feeds c u v -> path c p0 ((p ++ [u]) ++ [v]).

Definition no_longer (p q : list Z) : Prop := (length p <= length q)%nat.

Section Search.
Context (c : Codec) (p0 : Z).
Implicit Types (visited looked : list Z) (queue found : list (list Z)).

Lemma path_head q : path c p0 q -> head q = Some p0.
Proof. induction 1 as [|p u v _ IH _ _]; [done|]. by destruct p. Qed.

Lemma path_single u : path c p0 ([] ++ [u]) -> u = p0.
Proof. intros H%path_head. by injection H. Qed.

(** What holds between the steps: [looked] are the nodes whose sources were all
    looked at, [pend] the one that is being looked at. *)
Record search_inv (looked pend visited : list Z) (queue found : list (list Z)) : Prop := {
  si_start : p0 ∈ visited;
  si_queue : Forall (fun p => path c p0 p /\ NoDup p /\ p ⊆ visited /\ exists q u, p = q ++ [u] /\ (q = [] \/ passing c u)) queue;
  si_found : Forall (fun p => path c p0 p /\ NoDup p /\ p ⊆ visited /\ exists q u, p = q ++ [u] /\ q <> [] /\ is_dac c u) found;
  si_best : forall p q u, p ∈ queue ++ found -> last p = Some u -> path c p0 q -> last q = Some u -> no_longer p q;
  si_open : forall v, v ∈ visited -> v = p0 \/ passing c v -> v ∈ looked \/ v ∈ pend \/ exists p, p ∈ queue /\ last p = Some v;
  si_dacs : forall v, v ∈ visited -> v <> p0 -> is_dac c v -> exists p, p ∈ found /\ last p = Some v;
  si_done : forall u v, u ∈ looked -> feeds c u v -> v ∈ visited;
  si_sorted : StronglySorted no_longer queue;
  si_order : StronglySorted no_longer found;
  si_close : forall p q, p ∈ queue -> q ∈ queue ++ found -> (length q <= length p + 1)%nat }.

(** Every end of a path of at most [d] nodes was visited. *)
Definition level (d : nat) (visited : list Z) : Prop :=
  forall q v, path c p0 q -> (length q <= d)%nat -> last q = Some v -> v ∈ visited.

Lemma dac_not_passing w : analog_dac w = true -> passes w = false.
Proof. unfold analog_dac, passes. intros [H _]%andb_prop. apply bool_decide_eq_true in H. by rewrite H. Qed.

Lemma path_last q : path c p0 q -> exists q' u, q = q' ++ [u].
Proof. intros [|p u v _ _ _]; [by exists [], p0|by eexists _, _]. Qed.

Lemma sorted_snoc (l : list (list Z)) p : StronglySorted no_longer l -> (forall q, q ∈ l -> no_longer q p) -> StronglySorted no_longer (l ++ [p]).
Proof.
  intros Hl Hp. apply StronglySorted_app_2; [|done|by repeat constructor].
  intros q r Hq ->%list_elem_of_singleton. by apply Hp.
Qed.

(** While a path of [d] nodes is looked at, all shorter ways are known. *)
Lemma search_level looked visited queue found p u :
  search_inv looked [u] visited queue found -> last p = Some u ->
  (forall q, path c p0 q -> last q = Some u -> no_longer p q) -> (forall q, q ∈ queue -> no_longer p q) ->
  level (length p) visited.
Proof.
  intros I Hp Hbest Hq q v Hpath. revert v. induction Hpath as [|q u' v' Hpath IH Hcarry Hfeeds]; intros v Hl.
  - intros [= <-]. apply (si_start _ _ _ _ _ I).
  - rewrite last_snoc. intros [= <-]. rewrite length_app in Hl. cbn in Hl.
    assert (Hu : u' ∈ visited) by (apply IH; [lia|by rewrite last_snoc]).
    assert (Hc : u' = p0 \/ passing c u') by (destruct Hcarry as [->|?]; [left; by apply path_single|by right]).
    destruct (si_open _ _ _ _ _ I u' Hu Hc) as [Hd|[Hd%list_elem_of_singleton|(r & Hr & Hlr)]].
    + by apply (si_done _ _ _ _ _ I u').
    + subst u'. specialize (Hbest _ Hpath). rewrite last_snoc in Hbest. specialize (Hbest eq_refl). unfold no_longer in Hbest. lia.
    + specialize (Hq _ Hr). assert (no_longer r (q ++ [u'])).
      { eapply (si_best _ _ _ _ _ I); [apply elem_of_app; by left|done|done|by rewrite last_snoc]. }
      unfold no_longer in *. lia.
Qed.

(** The path that was taken out of the queue. *)
Record current (p : list Z) (u : Z) visited queue found : Prop := {
  cu_path : path c p0 p;
  cu_nodup : NoDup p;
  cu_visited : p ⊆ visited;
  cu_last : exists q, p = q ++ [u] /\ (q = [] \/ passing c u);
  cu_first : forall q, q ∈ queue -> no_longer p q;
  cu_close : forall q, q ∈ queue ++ found -> (length q <= length p + 1)%nat;
  cu_level : level (length p) visited }.

Lemma level_mono d visited visited' : visited ⊆ visited' -> level d visited -> level d visited'.
Proof. intros Hsub Hl q v Hq Hd Hv. by eapply Hsub, Hl. Qed.

Lemma current_extend p u visited queue found v :
  current p u visited queue found -> feeds c u v -> (v ∉ visited) ->
  path c p0 (p ++ [v]) /\ NoDup (p ++ [v]) /\ p ++ [v] ⊆ visited ++ [v] /\
  (forall q, path c p0 q -> last q = Some v -> no_longer (p ++ [v]) q).
Proof.
  intros [Hp Hn Hv (q & Hq & Hc) Hf _ Hl] Hfeeds Hnew. split; [rewrite Hq in Hp |- *; by apply path_more|]. split.
  { apply NoDup_app. split; [done|]. split; [|apply NoDup_singleton]. intros x Hx Hxv%list_elem_of_singleton. subst. by apply Hnew, Hv. }
  split. { intros x. rewrite !elem_of_app. intros [Hx|Hx]; [left; by apply Hv|by right]. }
  intros r Hr Hlast. unfold no_longer. rewrite length_app. cbn. destruct (decide (length p + 1 <= length r)%nat); [done|].
  destruct Hnew. apply (Hl r); [done|lia|done].
Qed.

Lemma current_mono p u visited queue found visited' queue' found' :
  current p u visited queue found -> visited ⊆ visited' ->
  (forall q, q ∈ queue' -> q ∈ queue \/ length q = (length p + 1)%nat) ->
  (forall q, q ∈ found' -> q ∈ found \/ length q = (length p + 1)%nat) ->
  current p u visited' queue' found'.
Proof.
  intros [Hp Hn Hv Hq Hf Hc Hl] Hsub HQ HF. split; try done.
  - by etransitivity.
  - intros q [Hin|Hlen]%HQ; [by apply Hf|]. unfold no_longer. lia.
  - intros q [[Hin|Hlen]%HQ|[Hin|Hlen]%HF]%elem_of_app; try lia; apply Hc, elem_of_app; first [by left|by right].
  - by eapply level_mono.
Qed.

(** A node not seen before: [newq] and [newf] are what it adds to the queue and to what was found. *)
Lemma search_add looked p u v visited queue found newq newf :
  search_inv looked [u] visited queue found -> current p u visited queue found -> feeds c u v -> (v ∉ visited) ->
  (newq = [] \/ newq = [p ++ [v]] /\ passing c v) -> (newf = [] \/ newf = [p ++ [v]] /\ is_dac c v) ->
  (passing c v -> newq = [p ++ [v]]) -> (is_dac c v -> newf = [p ++ [v]]) ->
  search_inv looked [u] (visited ++ [v]) (queue ++ newq) (found ++ newf) /\
  current p u (visited ++ [v]) (queue ++ newq) (found ++ newf).
Proof.
  intros I C Hfe Hnew Hq Hf Hpass Hdac. destruct (current_extend _ _ _ _ _ _ C Hfe Hnew) as (Epath & Edup & Evis & Ebest).
  assert (Hsub : visited ⊆ visited ++ [v]) by (intros x Hx; apply elem_of_app; by left).
  assert (Hl : length (p ++ [v]) = (length p + 1)%nat) by (by rewrite length_app).
  assert (HQ : forall r, r ∈ newq -> r = p ++ [v]) by (intros r; destruct Hq as [->|[-> _]]; [by intros ?%elem_of_nil|by intros ->%list_elem_of_singleton]).
  assert (HF : forall r, r ∈ newf -> r = p ++ [v]) by (intros r; destruct Hf as [->|[-> _]]; [by intros ?%elem_of_nil|by intros ->%list_elem_of_singleton]).
  assert (C' : current p u (visited ++ [v]) (queue ++ newq) (found ++ newf)).
  { eapply current_mono; [exact C|done|intros q [?|Hin%HQ]%elem_of_app; [by left|right; by subst]|intros q [?|Hin%HF]%elem_of_app; [by left|right; by subst]]. }
  split; [|done]. destruct I as [I1 I2 I3 I4 I5 I6 I7 I8 I9 I10]. split.
  - by apply Hsub.
  - apply Forall_app; split; [|destruct Hq as [->|[-> Hv]]; [constructor|apply Forall_singleton]].
    + eapply Forall_impl; [exact I2|]. intros r (? & ? & Hr & ?). split_and!; try done. by etransitivity.
    + split_and!; try done. exists p, v. split; [done|]. by right.
  - apply Forall_app; split; [|destruct Hf as [->|[-> Hv]]; [constructor|apply Forall_singleton]].
    + eapply Forall_impl; [exact I3|]. intros r (? & ? & Hr & ?). split_and!; try done. by etransitivity.
    + split_and!; try done. exists p, v. split_and!; [done| |done]. intros ->. destruct (cu_last _ _ _ _ _ C) as (q & ? & _). by destruct q.
  - intros r q x. rewrite !elem_of_app. intros Hr Hx Hpq Hlq.
    assert (Hr' : r ∈ queue ++ found \/ r = p ++ [v]).
    { destruct Hr as [[?|?%HQ]|[?|?%HF]]; [left; apply elem_of_app; by left|by right|left; apply elem_of_app; by right|by right]. }
    destruct Hr' as [?| ->]; [by eapply I4|]. rewrite last_snoc in Hx. injection Hx as <-. by apply Ebest.
  - intros x [Hx| ->%list_elem_of_singleton]%elem_of_app Hc.
    + destruct (I5 x Hx Hc) as [?|[?|(r & Hr & Hlr)]]; [by left|right; by left|]. right. right. exists r. split; [apply elem_of_app; by left|done].
    + destruct Hc as [->|Hc]; [done|]. rewrite (Hpass Hc). right. right. exists (p ++ [v]).
      split; [apply elem_of_app; right; by apply list_elem_of_singleton|by rewrite last_snoc].
  - intros x [Hx| ->%list_elem_of_singleton]%elem_of_app Hne Hd.
    + destruct (I6 x Hx Hne Hd) as (r & Hr & Hlr). exists r. split; [apply elem_of_app; by left|done].
    + rewrite (Hdac Hd). exists (p ++ [v]). split; [apply elem_of_app; right; by apply list_elem_of_singleton|by rewrite last_snoc].
  - intros x y Hx Hxy. by eapply Hsub, I7.
  - destruct Hq as [->|[-> _]]; [by rewrite app_nil_r|]. apply sorted_snoc; [done|]. intros q Hq. unfold no_longer. rewrite Hl.
    apply (cu_close _ _ _ _ _ C). apply elem_of_app. by left.
  - destruct Hf as [->|[-> _]]; [by rewrite app_nil_r|]. apply sorted_snoc; [done|]. intros q Hq'. unfold no_longer. rewrite Hl.
    apply (cu_close _ _ _ _ _ C). apply elem_of_app. by right.
  - intros a b Ha Hb. pose proof (cu_first _ _ _ _ _ C' _ Ha). pose proof (cu_close _ _ _ _ _ C' _ Hb). unfold no_longer in *. lia.
Qed.

Lemma passing_widget v w : widget c v = Some w -> passing c v <-> passes w = true.
Proof. intros Hw. split; [intros (w' & Hw' & H); congruence|by exists w]. Qed.
Lemma is_dac_widget v w : widget c v = Some w -> is_dac c v <-> analog_dac w = true.
Proof. intros Hw. split; [intros (w' & Hw' & H); congruence|by exists w]. Qed.

Lemma visit_sources_spec looked p u sources visited queue found visited' queue' found' :
  search_inv looked [u] visited queue found -> current p u visited queue found -> (forall v, v ∈ sources -> feeds c u v) ->
  visit_sources c p sources visited queue found = (visited', queue', found') ->
  search_inv looked [u] visited' queue' found' /\ current p u visited' queue' found' /\ visited ⊆ visited' /\ sources ⊆ visited'.
Proof.
  revert visited queue found. induction sources as [|v sources IH]; intros visited queue found I C Hfe; cbn [visit_sources].
  { intros [= <- <- <-]. split_and!; try done. by intros x ?%elem_of_nil. }
  assert (Hfe' : forall x, x ∈ sources -> feeds c u x) by (intros x Hx; apply Hfe; by right).
  assert (Hv : feeds c u v) by (apply Hfe; left). case_bool_decide as Hin.
  { intros Hs. destruct (IH _ _ _ I C Hfe' Hs) as (I' & C' & Hsub & Hsrc). split_and!; try done.
    intros x [->|Hx]%elem_of_cons; [by apply Hsub|by apply Hsrc]. }
  assert (Hstep : forall newq newf,
    (newq = [] \/ newq = [p ++ [v]] /\ passing c v) -> (newf = [] \/ newf = [p ++ [v]] /\ is_dac c v) ->
    (passing c v -> newq = [p ++ [v]]) -> (is_dac c v -> newf = [p ++ [v]]) ->
    visit_sources c p sources (visited ++ [v]) (queue ++ newq) (found ++ newf) = (visited', queue', found') ->
    search_inv looked [u] visited' queue' found' /\ current p u visited' queue' found' /\ visited ⊆ visited' /\ v :: sources ⊆ visited').
  { intros newq newf H1 H2 H3 H4 Hs. destruct (search_add _ _ _ _ _ _ _ _ _ I C Hv Hin H1 H2 H3 H4) as [I1 C1].
    destruct (IH _ _ _ I1 C1 Hfe' Hs) as (I' & C' & Hsub & Hsrc).
    split_and!; try done; [|intros x [->|Hx]%elem_of_cons; [|by apply Hsrc]]; [intros x Hx|]; apply Hsub, elem_of_app; [by left|].
    right. by apply list_elem_of_singleton. }
  destruct (widget c v) as [w|] eqn:Hw.
  - pose proof (passing_widget _ _ Hw) as Hp. pose proof (is_dac_widget _ _ Hw) as Hd. destruct (analog_dac w) eqn:Ea.
    + pose proof (dac_not_passing _ Ea) as En. intros Hs. apply (Hstep [] [p ++ [v]]); [by left|right; split; [done|by apply Hd]|rewrite Hp, En; done|done|].
      by rewrite app_nil_r.
    + destruct (passes w) eqn:Ep; intros Hs.
      * apply (Hstep [p ++ [v]] []); [right; split; [done|by apply Hp]|by left|done|by intros ?%Hd|by rewrite app_nil_r].
      * apply (Hstep [] []); [by left|by left|by intros ?%Hp|by intros ?%Hd|by rewrite !app_nil_r].
  - intros Hs. apply (Hstep [] []); [by left|by left|intros (w & Hw' & _); congruence|intros (w & Hw' & _); congruence|by rewrite !app_nil_r].
Qed.

Lemma search_pop looked visited p queue found :
  search_inv looked [] visited (p :: queue) found ->
  exists u, last p = Some u /\ search_inv looked [u] visited queue found /\ current p u visited queue found.
Proof.
  intros I. pose proof I as [I1 I2 I3 I4 I5 I6 I7 I8 I9 I10]. apply Forall_cons in I2 as [(Hp & Hn & Hv & q & u & Hq & Hc) I2].
  assert (Hlast : last p = Some u) by (rewrite Hq; apply last_snoc). apply StronglySorted_inv in I8 as [I8 Hfirst]. rewrite Forall_forall in Hfirst.
  assert (Inv : search_inv looked [u] visited queue found).
  { split; try done.
    - intros a b x Ha. apply I4. by right.
    - intros x Hx Hcx. destruct (I5 x Hx Hcx) as [?|[[]%elem_of_nil|(r & [->|Hr]%elem_of_cons & Hl)]]; [by left| |right; right; by exists r].
      rewrite Hlast in Hl. injection Hl as ->. right. left. by apply list_elem_of_singleton.
    - intros a b Ha Hb. apply I10; by right. }
  exists u. split_and!; try done. split; try done.
  - by exists q.
  - intros b Hb. apply I10; [left|by right].
  - eapply search_level; [exact Inv|done| |done]. intros r Hr Hl. eapply I4; [left|done..].
Qed.

Lemma search_close looked visited queue found u :
  search_inv looked [u] visited queue found -> (forall v, feeds c u v -> v ∈ visited) -> search_inv (u :: looked) [] visited queue found.
Proof.
  intros [I1 I2 I3 I4 I5 I6 I7 I8 I9 I10] Hu. split; try done.
  - intros x Hx Hcx. destruct (I5 x Hx Hcx) as [?|[->%list_elem_of_singleton|?]]; [left; by right|left; left|right; by right].
  - intros x y [->|Hx]%elem_of_cons; [apply Hu|by apply I7].
Qed.

Lemma search_sound fuel looked visited queue found r :
  search_inv looked [] visited queue found -> search fuel c visited queue found = Some r ->
  exists looked visited, search_inv looked [] visited [] r.
Proof.
  revert looked visited queue found. induction fuel as [|fuel IH]; intros looked visited queue found I; [done|]. cbn [search].
  destruct queue as [|p queue]; [intros [= <-]; by eexists _, _|].
  destruct (search_pop _ _ _ _ _ I) as (u & Hu & I' & C). rewrite Hu. change (default 0 (Some u)) with u.
  destruct (widget c u) as [w|] eqn:Hw.
  - destruct (visit_sources _ _ _ _ _ _) as [[visited' queue'] found'] eqn:Hs.
    destruct (visit_sources_spec _ _ _ _ _ _ _ _ _ _ I' C ltac:(intros v Hv; by exists w) Hs) as (I1 & _ & _ & Hsrc).
    apply (IH (u :: looked)). apply search_close; [done|]. intros v (w' & Hw' & Hv). apply Hsrc. congruence.
  - apply (IH (u :: looked)). apply search_close; [done|]. intros v (w' & Hw' & _). congruence.
Qed.

Definition unvisited (visited : list Z) : nat := length (filter (fun w => node w ∉ visited) (widgets c)).

Lemma filter_length_le {A} (P Q : A -> Prop) `{!forall x, Decision (P x), !forall x, Decision (Q x)} (l : list A) :
  (forall x, P x -> Q x) -> (length (filter P l) <= length (filter Q l))%nat.
Proof.
  intros Hpq. induction l as [|x l IH]; [done|]. rewrite !filter_cons. destruct (decide (P x)), (decide (Q x)); cbn [length]; try lia.
  exfalso. auto.
Qed.

Lemma filter_length_lt {A} (P Q : A -> Prop) `{!forall x, Decision (P x), !forall x, Decision (Q x)} (l : list A) y :
  (forall x, P x -> Q x) -> y ∈ l -> Q y -> ~ P y -> (length (filter P l) < length (filter Q l))%nat.
Proof.
  intros Hpq Hy HQ HP. induction Hy as [y l|y x l Hy IH]; rewrite !filter_cons.
  - pose proof (filter_length_le P Q l Hpq). destruct (decide (P y)), (decide (Q y)); try done. cbn [length]. lia.
  - specialize (IH HQ HP). destruct (decide (P x)), (decide (Q x)); cbn [length]; try lia. exfalso. auto.
Qed.

Lemma unvisited_le visited v : (unvisited (visited ++ [v]) <= unvisited visited)%nat.
Proof. apply filter_length_le. intros w Hw Hin. apply Hw, elem_of_app. by left. Qed.

Lemma unvisited_lt visited v w : widget c v = Some w -> (v ∉ visited) -> (unvisited (visited ++ [v]) < unvisited visited)%nat.
Proof.
  intros [Hn Hw]%widget_node Hv. apply (filter_length_lt _ _ _ w); [|done|by rewrite Hn|].
  - intros x Hx Hin. apply Hx, elem_of_app. by left.
  - intros Hx. apply Hx, elem_of_app. right. by apply list_elem_of_singleton.
Qed.

Lemma visit_sources_measure p sources visited queue found visited' queue' found' :
  visit_sources c p sources visited queue found = (visited', queue', found') ->
  (length queue' + unvisited visited' <= length queue + unvisited visited)%nat.
Proof.
  revert visited queue found. induction sources as [|v sources IH]; intros visited queue found; cbn [visit_sources]; [by intros [= <- <- <-]|].
  case_bool_decide as Hin; [apply IH|]. pose proof (unvisited_le visited v). destruct (widget c v) as [w|] eqn:Hw; [|intros ?%IH; lia].
  pose proof (unvisited_lt _ _ _ Hw Hin). destruct (analog_dac w), (passes w); intros Hs%IH; rewrite ?length_app in Hs; cbn [length] in Hs; lia.
Qed.

Lemma search_total fuel visited queue found :
  (length queue + unvisited visited < fuel)%nat -> is_Some (search fuel c visited queue found).
Proof.
  revert visited queue found. induction fuel as [|fuel IH]; intros visited queue found Hf; [lia|]. cbn [search].
  destruct queue as [|p queue]; [done|]. cbn [length] in Hf. destruct (widget c _) as [w|]; [|apply IH; lia].
  destruct (visit_sources _ _ _ _ _ _) as [[visited' queue'] found'] eqn:Hs. apply visit_sources_measure in Hs. apply IH. lia.
Qed.

Lemma paths_to_dacs_total : is_Some (paths_to_dacs c p0).
Proof.
  apply search_total. cbn [length]. unfold unvisited.
  assert (length (filter (fun w => node w ∉ [p0]) (widgets c)) <= length (widgets c))%nat by apply length_filter. lia.
Qed.

Lemma search_start : search_inv [] [] [p0] [[p0]] [].
Proof.
  assert (Hin : forall x : Z, x ∈ [p0] -> x = p0) by (by intros x ->%list_elem_of_singleton).
  split.
  - by apply list_elem_of_singleton.
  - apply Forall_singleton. split_and!; [constructor|apply NoDup_singleton|done|]. exists [], p0. split; [done|by left].
  - constructor.
  - intros p q u ->%list_elem_of_singleton [= <-] Hq Hl. unfold no_longer. destruct (path_last _ Hq) as (q' & v & ->). rewrite length_app. cbn. lia.
  - intros v ->%Hin _. right. right. exists [p0]. split; [by apply list_elem_of_singleton|done].
  - intros v ->%Hin Hne. done.
  - intros u v []%elem_of_nil.
  - by repeat constructor.
  - constructor.
  - intros p q ->%list_elem_of_singleton ->%list_elem_of_singleton. lia.
Qed.

(** The search finds a shortest path to every DAC that can be heard on [p0], the nearest first. *)
Definition nearest_paths (found : list (list Z)) : Prop :=
  Forall (fun p => path c p0 p /\ NoDup p /\ exists q u, p = q ++ [u] /\ q <> [] /\ is_dac c u /\
            forall r, path c p0 r -> last r = Some u -> no_longer p r) found /\
  (forall q u, path c p0 q -> last q = Some u -> u <> p0 -> is_dac c u -> exists p, p ∈ found /\ last p = Some u) /\
  StronglySorted no_longer found.

Lemma search_complete looked visited found q u :
  search_inv looked [] visited [] found -> path c p0 q -> last q = Some u -> u ∈ visited.
Proof.
  intros I Hq. revert u. induction Hq as [|q u' v' Hq IH Hc Hf]; intros u.
  - intros [= <-]. apply (si_start _ _ _ _ _ I).
  - rewrite last_snoc. intros [= <-].
    assert (Hu : u' ∈ visited) by (apply IH; by rewrite last_snoc).
    assert (Hc' : u' = p0 \/ passing c u') by (destruct Hc as [->|?]; [left; by apply path_single|by right]).
    destruct (si_open _ _ _ _ _ I u' Hu Hc') as [Hd|[[]%elem_of_nil|(r & []%elem_of_nil & _)]]. by apply (si_done _ _ _ _ _ I u').
Qed.

Lemma paths_to_dacs_spec : exists found, paths_to_dacs c p0 = Some found /\ nearest_paths found.
Proof.
  destruct paths_to_dacs_total as [found Hf]. exists found. split; [done|].
  destruct (search_sound _ _ _ _ _ _ search_start Hf) as (looked & visited & I). split; [|split].
  - pose proof (si_found _ _ _ _ _ I) as HF. pose proof (si_best _ _ _ _ _ I) as HB. rewrite Forall_forall in HF |- *.
    intros p Hp. destruct (HF p Hp) as (H1 & H2 & _ & q & u & Hq & Hne & Hd). split_and!; try done. exists q, u. split_and!; try done.
    intros r Hr Hl. apply (HB p r u); [done|by rewrite Hq, last_snoc|done..].
  - intros q u Hq Hl Hne Hd. apply (si_dacs _ _ _ _ _ I); [by eapply search_complete|done..].
  - apply (si_order _ _ _ _ _ I).
Qed.

End Search.

(** ** The plan *)

Definition distinct (c : Codec) : Prop := NoDup (node <$> widgets c).

Lemma widget_self c w : distinct c -> w ∈ widgets c -> widget c (node w) = Some w.
Proof.
  unfold distinct, widget. induction (widgets c) as [|x ws IH]; [by intros _ ?%elem_of_nil|].
  rewrite fmap_cons, NoDup_cons. intros [Hx Hn] [->|Hw]%elem_of_cons; cbn [list_find].
  - by rewrite decide_True.
  - rewrite decide_False by (intros Heq; apply Hx; rewrite Heq; by apply list_elem_of_fmap_2).
    specialize (IH Hn Hw). destruct (list_find _ ws) as [[? ?]|]; [|done]. by injection IH as ->.
Qed.

Lemma insert_by_perm {A} le (x : A) l : insert_by le x l ≡ₚ x :: l.
Proof. induction l as [|y l IH]; simpl; [done|]. destruct (le x y); [done|]. rewrite IH. constructor. Qed.

Lemma sort_by_perm {A} le (l : list A) : sort_by le l ≡ₚ l.
Proof. induction l as [|x l IH]; simpl; [done|]. unfold sort_by in *. simpl. by rewrite insert_by_perm, IH. Qed.

Definition hears (c : Codec) (n d : Z) : Prop := d <> n /\ is_dac c d /\ exists q, path c n q /\ last q = Some d.

Lemma taken_iff os p u : last p = Some u -> taken os p = true <-> u ∈ dac <$> os.
Proof.
  intros Hp. unfold taken. rewrite existsb_exists, Hp, list_elem_of_fmap. split.
  - intros (o & Ho & He%Z.eqb_eq). exists o. split; [done|]. by apply list_elem_of_In.
  - intros (o & -> & Ho). exists o. split; [by apply list_elem_of_In|]. by apply Z.eqb_refl.
Qed.

Lemma choose_path_some os paths p :
  choose_path os paths = Some p -> p ∈ paths /\ (taken os p = true -> forall p', p' ∈ paths -> taken os p' = true).
Proof.
  unfold choose_path. destruct (List.find _ paths) as [q|] eqn:Hf.
  - intros [= <-]. apply List.find_some in Hf as [Hin Ht%negb_true_iff]. split; [by apply list_elem_of_In|congruence].
  - intros Hh. split; [destruct paths; [done|injection Hh as ->; left]|]. intros _ p' Hp'%list_elem_of_In.
    by apply negb_false_iff, (List.find_none _ _ Hf).
Qed.

Lemma choose_path_none os paths : choose_path os paths = None -> paths = [].
Proof. unfold choose_path. destruct (List.find _ paths); [done|]. by destruct paths. Qed.

(** What the outputs chosen for [pins] are: *)
Record chosen (c : Codec) (pins : list (Widget * PinDevice)) (os : list OutputPath) : Prop := {
  (* each has a shortest way from its pin to its DAC, *)
  ch_paths : Forall (fun o => (exists w, (w, device o) ∈ pins /\ node w = pin o) /\ path c (pin o) (nodes o) /\ NoDup (nodes o) /\
               hears c (pin o) (dac o) /\ last (nodes o) = Some (dac o) /\
               forall r, path c (pin o) r -> last r = Some (dac o) -> no_longer (nodes o) r) os;
  (* every pin on which a DAC can be heard has one, in order, *)
  ch_pins : pin <$> os `sublist_of` (node ∘ fst) <$> pins;
  ch_all : forall w d, (w, d) ∈ pins -> (exists u, hears c (node w) u) -> node w ∈ pin <$> os;
  (* and a DAC is shared only by a pin for which all DACs were taken. *)
  ch_share : forall i o, os !! i = Some o -> dac o ∈ dac <$> take i os -> forall u, hears c (pin o) u -> u ∈ dac <$> take i os }.

Lemma nearest_hears c n paths u : nearest_paths c n paths -> hears c n u -> exists p, p ∈ paths /\ last p = Some u.
Proof. intros (_ & Hall & _) (Hne & Hd & q & Hq & Hl). by eapply Hall. Qed.

Lemma choose_step c pins os w d paths p :
  chosen c pins os -> nearest_paths c (node w) paths -> choose_path os paths = Some p ->
  chosen c (pins ++ [(w, d)]) (os ++ [mkOutputPath d p]).
Proof.
  intros [C1 C2 C3 C4] Hn Hc. apply choose_path_some in Hc as [Hin Ht]. pose proof Hn as (Hp & _ & _).
  rewrite Forall_forall in Hp. destruct (Hp p Hin) as (Hpath & Hnd & q & u & Hq & Hne & Hd & Hbest).
  assert (Hlast : last p = Some u) by (rewrite Hq; apply last_snoc).
  assert (Hpin : pin (mkOutputPath d p) = node w) by (unfold pin; cbn; by rewrite (path_head _ _ _ Hpath)).
  assert (Hdac : dac (mkOutputPath d p) = u) by (unfold dac; cbn; by rewrite Hlast).
  assert (Hu : hears c (node w) u).
  { split_and!; [|done|by exists p]. intros ->. apply path_head in Hpath. destruct q as [|x q]; [done|]. rewrite Hq in Hpath. injection Hpath as ->.
    rewrite Hq in Hnd. apply (NoDup_app (node w :: q)) in Hnd as (_ & Hnd & _). apply (Hnd (node w)); [left|by apply list_elem_of_singleton]. }
  split.
  - apply Forall_app. split.
    + eapply Forall_impl; [exact C1|]. intros o ((w' & Hw' & ?) & ?). split; [|done]. exists w'. split; [apply elem_of_app; by left|done].
    + apply Forall_singleton. rewrite Hpin, Hdac. cbn [device nodes]. split_and!; try done.
      exists w. split; [apply elem_of_app; right; by apply list_elem_of_singleton|done].
  - rewrite !fmap_app. apply sublist_app; [done|]. cbn. rewrite Hpin. by apply sublist_skip.
  - intros w' d' [Hw'|Heq%list_elem_of_singleton]%elem_of_app Hh; rewrite fmap_app, elem_of_app; [left; by eapply C3|].
    injection Heq as -> ->. right. cbn. rewrite Hpin. by apply list_elem_of_singleton.
  - intros i o Hi. destruct (decide (i < length os)%nat).
    + rewrite lookup_app_l in Hi by done. rewrite take_app_le by lia. by apply C4.
    + apply lookup_app_Some in Hi as [Hi|[_ Hi]]; [by apply lookup_lt_Some in Hi|]. apply list_lookup_singleton_Some in Hi as [Hi <-].
      replace i with (length os) by lia. rewrite take_app_length, Hdac, Hpin. intros Hsh v Hv.
      destruct (nearest_hears _ _ _ _ Hn Hv) as (p' & Hp' & Hl'). apply (taken_iff _ p'); [done|]. apply Ht; [|done]. by apply (taken_iff _ _ u).
Qed.

Lemma choose_skip c pins os w d : chosen c pins os -> (forall u, ~ hears c (node w) u) -> chosen c (pins ++ [(w, d)]) os.
Proof.
  intros [C1 C2 C3 C4] Hn. split; [| | |done].
  - eapply Forall_impl; [exact C1|]. intros o ((w' & Hw' & ?) & ?). split; [|done]. exists w'. split; [apply elem_of_app; by left|done].
  - rewrite fmap_app. by apply sublist_inserts_r.
  - intros w' d' [Hw'|Heq%list_elem_of_singleton]%elem_of_app Hh; [by eapply C3|]. injection Heq as -> ->. destruct Hh as [u Hu]. by destruct (Hn u).
Qed.

Lemma choose_outputs_spec c pins seen os : chosen c seen os -> exists r, choose_outputs c pins os = Some r /\ chosen c (seen ++ pins) r.
Proof.
  revert seen os. induction pins as [|[w d] pins IH]; intros seen os C; cbn [choose_outputs].
  { exists os. by rewrite app_nil_r. }
  destruct (paths_to_dacs_spec c (node w)) as (paths & -> & Hn). rewrite (cons_middle (w, d) seen pins), app_assoc.
  destruct (choose_path os paths) as [p|] eqn:Hc.
  - apply IH. by eapply choose_step.
  - apply IH, choose_skip; [done|]. intros u Hu. apply choose_path_none in Hc as ->.
    destruct (nearest_hears _ _ _ _ Hn Hu) as (p & []%elem_of_nil & _).
Qed.

Lemma insert_by_sorted x l : StronglySorted Z.le l -> StronglySorted Z.le (insert_by Z.leb x l).
Proof.
  induction 1 as [|y l Hl IH Hy]; simpl; [by repeat constructor|]. destruct (Z.leb_spec x y).
  - constructor; [by constructor|]. constructor; [done|]. eapply Forall_impl; [exact Hy|]. cbn. lia.
  - constructor; [done|]. rewrite insert_by_perm. constructor; [lia|done].
Qed.

Lemma sort_by_sorted l : StronglySorted Z.le (sort_by Z.leb l).
Proof. induction l as [|x l IH]; [constructor|]. by apply insert_by_sorted. Qed.

Lemma dedup_cons a b l : dedup (a :: b :: l) = if a =? b then dedup (b :: l) else a :: dedup (b :: l).
Proof. done. Qed.

Lemma dedup_elem x l : x ∈ dedup l <-> x ∈ l.
Proof.
  induction l as [|a [|b l] IH]; [done|done|]. rewrite dedup_cons. destruct (Z.eqb_spec a b) as [->|Hne].
  - rewrite IH, !elem_of_cons. tauto.
  - rewrite (elem_of_cons _ _ a), IH. by rewrite (elem_of_cons (b :: l) x a).
Qed.

Lemma dedup_sorted l : StronglySorted Z.le l -> StronglySorted Z.lt (dedup l).
Proof.
  induction l as [|a [|b l] IH]; intros Hs; [constructor|by repeat constructor|]. apply StronglySorted_inv in Hs as [Hs Ha].
  rewrite dedup_cons. destruct (Z.eqb_spec a b) as [->|Hne]; [by apply IH|]. constructor; [by apply IH|].
  apply Forall_forall. intros x Hx. rewrite dedup_elem in Hx. apply StronglySorted_inv in Hs as [_ Hb]. rewrite Forall_forall in Ha, Hb.
  specialize (Ha b ltac:(left)). apply elem_of_cons in Hx as [->|Hx]; [lia|]. specialize (Hb x Hx). lia.
Qed.

Definition supports (c : Codec) (d bit : Z) : Prop := exists w, widget c d = Some w /\ Z.testbit (pcm w) bit = true.

Lemma common_pcm_bit c ds bit : 0 <= bit < 32 -> Z.testbit (common_pcm c ds) bit = true <-> Forall (fun d => supports c d bit) ds.
Proof.
  intros Hb. unfold common_pcm.
  assert (Hgen : forall acc, Z.testbit (foldl (fun rates d => Z.land (match widget c d with Some w => pcm w | None => 0 end) rates) acc ds) bit = true
                  <-> Z.testbit acc bit = true /\ Forall (fun d => supports c d bit) ds).
  { induction ds as [|d ds IH]; intros acc; simpl; [by rewrite Forall_nil; tauto|].
    rewrite IH, Z.land_spec, andb_true_iff, Forall_cons. unfold supports at 2. destruct (widget c d) as [w|].
    - split; [intros [[? ?] ?]; split_and!; try done; by exists w|intros (? & (w' & [= <-] & ?) & ?); done].
    - rewrite Z.bits_0. split; [by intros [[? ?] ?]|by intros (_ & (w' & ? & _) & _)]. }
  rewrite Hgen. change (2 ^ 32 - 1) with (Z.ones 32). rewrite Z.ones_spec_low by lia. tauto.
Qed.

Lemma common_rates_elem common rate :
  rate ∈ common_rates common <-> exists i : nat, RATES !! i = Some rate /\ Z.testbit common (Z.of_nat i) = true /\ is_Some (stream_format rate 2).
Proof.
  unfold common_rates. rewrite list_elem_of_filter, list_elem_of_fmap. split.
  - intros [Hf ([i r] & -> & [Ht Hin]%list_elem_of_filter)]. cbn [fst snd] in *. exists i. split_and!; [|done|done].
    apply list_elem_of_lookup in Hin as [j Hj]. rewrite list_lookup_imap in Hj. destruct (RATES !! j) as [x|] eqn:Hx; [|done].
    change (Some (j, x) = Some (i, r)) in Hj. by injection Hj as <- <-.
  - intros (i & Hi & Ht & Hf). split; [done|]. exists (i, rate). split; [done|]. apply list_elem_of_filter. split; [done|].
    apply list_elem_of_lookup. exists i. by rewrite list_lookup_imap, Hi.
Qed.

Definition plays (c : Codec) (os : list OutputPath) (rate : Z) : Prop :=
  exists i : nat, RATES !! i = Some rate /\ is_Some (stream_format rate 2) /\
    Forall (fun o => supports c (dac o) (Z.of_nat i) /\ supports c (dac o) PCM_16_BIT) os.

Record planned (c : Codec) (plan : OutputPlan) : Prop := {
  pl_chosen : chosen c (output_pins c) (outputs plan);
  pl_some : outputs plan <> [];
  pl_dacs : forall d, d ∈ dacs plan <-> d ∈ dac <$> outputs plan;
  pl_once : StronglySorted Z.lt (dacs plan);
  pl_rates : forall rate, rate ∈ rates plan <-> plays c (outputs plan) rate;
  pl_rate : rates plan <> [];
  pl_of : plan_address plan = address c /\ plan_vendor plan = vendor c /\ plan_group plan = function_group c }.

Lemma rates_index_bound (i : nat) rate : RATES !! i = Some rate -> 0 <= Z.of_nat i < 32.
Proof. intros Hi%lookup_lt_Some. cbn in Hi. lia. Qed.

Lemma all_dacs (P : Z -> Prop) os : Forall P (dedup (sort_by Z.leb (dac <$> os))) <-> Forall (fun o => P (dac o)) os.
Proof.
  rewrite <- (Forall_fmap dac P). rewrite !Forall_forall. split; intros H d Hd; apply H.
  - apply dedup_elem. by rewrite sort_by_perm.
  - rewrite dedup_elem in Hd. by rewrite sort_by_perm in Hd.
Qed.

Lemma common_plays c os rate :
  let common := common_pcm c (dedup (sort_by Z.leb (dac <$> os))) in
  plays c os rate <-> rate ∈ common_rates common /\ Z.testbit common PCM_16_BIT = true.
Proof.
  cbn zeta. rewrite common_rates_elem, common_pcm_bit, all_dacs by (unfold PCM_16_BIT; lia). split.
  - intros (i & Hi & Hf & Ha). apply Forall_and in Ha as [Ha Hb]. split; [|done]. exists i. split_and!; try done.
    apply common_pcm_bit; [by eapply rates_index_bound|]. by apply all_dacs.
  - intros [(i & Hi & Ht & Hf) Hb]. exists i. split_and!; try done. apply Forall_and. split; [|done].
    apply common_pcm_bit in Ht; [|by eapply rates_index_bound]. by apply (all_dacs (fun d => supports c d (Z.of_nat i))) in Ht.
Qed.

Lemma plan_outputs_spec c :
  exists r, plan_outputs c = Some r /\
    match r with
    | Ok plan => planned c plan
    | Err NoOutputs => forall w d, (w, d) ∈ output_pins c -> forall u, ~ hears c (node w) u
    | Err NoFormat => exists os, chosen c (output_pins c) os /\ os <> [] /\ forall rate, ~ plays c os rate
    | Err _ => False
    end.
Proof.
  assert (C0 : chosen c [] []) by (split; [constructor|done|by intros ? ? ?%elem_of_nil|by intros ? ?]).
  destruct (choose_outputs_spec c (output_pins c) [] [] C0) as (os & Hos & C). unfold plan_outputs. rewrite Hos.
  eexists. split; [done|]. case_bool_decide as He.
  { intros w d Hin u Hu. subst. pose proof (ch_all _ _ _ C w d Hin ltac:(by exists u)) as []%elem_of_nil. }
  pose proof (common_plays c os) as Hc. cbn zeta in Hc. set (common := common_pcm c _) in *.
  destruct (Z.testbit common PCM_16_BIT) eqn:Hb; cbn [negb].
  2: { exists os. split_and!; try done. intros rate [_ ?]%Hc. done. }
  case_bool_decide as Hr.
  { exists os. split_and!; try done. intros rate [Hin _]%Hc. rewrite Hr in Hin. by apply elem_of_nil in Hin. }
  split; cbn [outputs dacs rates plan_address plan_vendor plan_group]; try done.
  - intros d. rewrite dedup_elem. by rewrite sort_by_perm.
  - apply dedup_sorted, sort_by_sorted.
  - intros rate. rewrite Hc. tauto.
Qed.

(** ** What the verbs do

    The settings of a codec and how the [SET] verbs of the HD Audio
    specification change them. *)

Record Settings := mkSettings {
  power : gmap Z Z; select : gmap Z Z; out_amp : gmap Z Z; in_amp : gmap (Z * Z) Z;
  control : gmap Z Z; eapd : gmap Z Z; stream : gmap Z Z; format : gmap Z Z }.

Definition nothing_set : Settings := mkSettings ∅ ∅ ∅ ∅ ∅ ∅ ∅ ∅.

Definition set_amp (n payload : Z) (st : Settings) : Settings :=
  let value := Z.land payload 0xff in
  if negb (Z.land (Z.shiftr payload 12) 3 =? 3) then st
  else if Z.testbit payload 15 then mkSettings (power st) (select st) (<[n := value]> (out_amp st)) (in_amp st) (control st) (eapd st) (stream st) (format st)
  else if Z.testbit payload 14 then mkSettings (power st) (select st) (out_amp st) (<[(n, Z.land (Z.shiftr payload 8) 0xf) := value]> (in_amp st)) (control st) (eapd st) (stream st) (format st)
  else st.

Definition apply_verb (n verb : Z) (st : Settings) : Settings :=
  let '(mkSettings po se oa ia co ea sr fo) := st in
  let v := Z.shiftr verb 8 in let payload := Z.land verb 0xff in
  if v =? SET_POWER_STATE then mkSettings (<[n := payload]> po) se oa ia co ea sr fo
  else if v =? SET_CONNECTION_SELECT then mkSettings po (<[n := payload]> se) oa ia co ea sr fo
  else if v =? SET_PIN_CONTROL then mkSettings po se oa ia (<[n := payload]> co) ea sr fo
  else if v =? SET_EAPD then mkSettings po se oa ia co (<[n := payload]> ea) sr fo
  else if v =? SET_CHANNEL_STREAM then mkSettings po se oa ia co ea (<[n := payload]> sr) fo
  else if Z.shiftr verb 16 =? SET_CONVERTER_FORMAT then mkSettings po se oa ia co ea sr (<[n := Z.land verb 0xffff]> fo)
  else if Z.shiftr verb 16 =? SET_AMP_GAIN_MUTE then set_amp n (Z.land verb 0xffff) st
  else st.

(** A field of [k] bits below another. *)
Lemma lor_field v p k : 0 <= k -> 0 <= p < 2 ^ k -> Z.lor (Z.shiftl v k) p = v * 2 ^ k + p.
Proof.
  intros Hk Hp. rewrite Z.shiftl_mul_pow2 by lia. pose proof (Z.add_lor_land (v * 2 ^ k) p) as H.
  assert (Z.land (v * 2 ^ k) p = 0) as Hz; [|by rewrite Hz, Z.add_0_r in H]. apply Z.bits_inj'. intros b Hb. rewrite Z.land_spec, Z.bits_0.
  destruct (Z.lt_ge_cases b k); [by rewrite Z.mul_pow2_bits_low|].
  destruct (decide (p = 0)) as [->|]; [by rewrite Z.bits_0, andb_false_r|].
  rewrite (Z.bits_above_log2 p b), andb_false_r; [done|lia|]. assert (Z.log2 p < k); [apply Z.log2_lt_pow2|]; lia.
Qed.

Lemma field_high v p k : 0 <= k -> 0 <= p < 2 ^ k -> Z.shiftr (Z.lor (Z.shiftl v k) p) k = v.
Proof. intros Hk Hp. rewrite lor_field, Z.shiftr_div_pow2 by lia. rewrite Z.div_add_l by lia. rewrite Z.div_small by lia. lia. Qed.

Lemma field_low v p k : 0 <= k -> 0 <= p < 2 ^ k -> Z.land (Z.lor (Z.shiftl v k) p) (Z.ones k) = p.
Proof. intros Hk Hp. rewrite lor_field, Z.land_ones by lia. rewrite Z.add_comm, Z.mod_add by lia. apply Z.mod_small. lia. Qed.

Lemma apply_verb12 n v p st :
  0 <= p < 256 ->
  apply_verb n (verb12 v p) st =
  let '(mkSettings po se oa ia co ea sr fo) := st in
  if v =? SET_POWER_STATE then mkSettings (<[n := p]> po) se oa ia co ea sr fo
  else if v =? SET_CONNECTION_SELECT then mkSettings po (<[n := p]> se) oa ia co ea sr fo
  else if v =? SET_PIN_CONTROL then mkSettings po se oa ia (<[n := p]> co) ea sr fo
  else if v =? SET_EAPD then mkSettings po se oa ia co (<[n := p]> ea) sr fo
  else if v =? SET_CHANNEL_STREAM then mkSettings po se oa ia co ea (<[n := p]> sr) fo
  else apply_verb n (verb12 v p) st.
Proof.
  intros Hp. unfold apply_verb, verb12. rewrite (field_high v p 8) by lia. change 0xff with (Z.ones 8). rewrite (field_low v p 8) by lia.
  destruct st. by repeat case_if.
Qed.

Lemma apply_stream n p st :
  0 <= p < 256 ->
  apply_verb n (verb12 SET_CHANNEL_STREAM p) st =
  mkSettings (power st) (select st) (out_amp st) (in_amp st) (control st) (eapd st) (<[n := p]> (stream st)) (format st).
Proof. intros Hp. rewrite apply_verb12 by done. by destruct st. Qed.

Lemma apply_format n f st :
  0 <= f < 65536 ->
  apply_verb n (verb4 SET_CONVERTER_FORMAT f) st =
  mkSettings (power st) (select st) (out_amp st) (in_amp st) (control st) (eapd st) (stream st) (<[n := f]> (format st)).
Proof.
  intros Hf. unfold apply_verb, verb4. rewrite (field_high _ f 16) by lia. change 0xffff with (Z.ones 16). rewrite (field_low _ f 16) by lia.
  assert (Hv : 0x200 <= Z.shiftr (Z.lor (Z.shiftl SET_CONVERTER_FORMAT 16) f) 8 < 0x300).
  { rewrite lor_field, Z.shiftr_div_pow2 by lia. unfold SET_CONVERTER_FORMAT. change (2 ^ 16) with 65536. change (2 ^ 8) with 256.
    pose proof (Z.div_mod (2 * 65536 + f) 256 ltac:(lia)). pose proof (Z.mod_pos_bound (2 * 65536 + f) 256 ltac:(lia)). lia. }
  unfold SET_POWER_STATE, SET_CONNECTION_SELECT, SET_PIN_CONTROL, SET_EAPD, SET_CHANNEL_STREAM. destruct st.
  repeat (match goal with |- context [?a =? ?b] => destruct (Z.eqb_spec a b); [try lia|] end); done.
Qed.

(** The payloads of [amp], by evaluation on every index and gain. *)
Definition amp_fields (output : bool) (index gain : Z) : bool :=
  let verb := amp output index gain false in let payload := Z.land verb 0xffff in
  (Z.shiftr verb 16 =? SET_AMP_GAIN_MUTE) && (Z.shiftr verb 8 <? 0x400) && (Z.land (Z.shiftr payload 12) 3 =? 3)
  && Bool.eqb (Z.testbit payload 15) output && Bool.eqb (Z.testbit payload 14) (negb output)
  && (Z.land (Z.shiftr payload 8) 0xf =? index) && (Z.land payload 0xff =? gain).

Lemma amp_fields_all output index gain : 0 <= index < 16 -> 0 <= gain < 128 -> amp_fields output index gain = true.
Proof.
  assert (H : forallb (fun o => forallb (fun i => forallb (amp_fields o i) (seqZ 0 128)) (seqZ 0 16)) [true; false] = true) by (vm_compute; done).
  intros Hi Hg. rewrite forallb_forall in H. specialize (H output ltac:(destruct output; cbn; tauto)). rewrite forallb_forall in H.
  specialize (H index ltac:(apply list_elem_of_In, elem_of_seqZ; lia)). rewrite forallb_forall in H.
  apply H, list_elem_of_In, elem_of_seqZ. lia.
Qed.

Lemma apply_amp n output index gain st :
  0 <= index < 16 -> 0 <= gain < 128 ->
  apply_verb n (amp output index gain false) st =
  if output then mkSettings (power st) (select st) (<[n := gain]> (out_amp st)) (in_amp st) (control st) (eapd st) (stream st) (format st)
  else mkSettings (power st) (select st) (out_amp st) (<[(n, index) := gain]> (in_amp st)) (control st) (eapd st) (stream st) (format st).
Proof.
  intros Hi Hg. pose proof (amp_fields_all output index gain Hi Hg) as H. unfold amp_fields in H. cbv zeta in H.
  repeat (apply andb_prop in H as [H ?]). unfold apply_verb, set_amp. set (verb := amp output index gain false) in *.
  repeat match goal with E : (_ =? _) = true |- _ => apply Z.eqb_eq in E | E : Bool.eqb _ _ = true |- _ => apply eqb_prop in E end.
  rewrite H. destruct st. cbn [power select out_amp in_amp control eapd stream format].
  unfold SET_POWER_STATE, SET_CONNECTION_SELECT, SET_PIN_CONTROL, SET_EAPD, SET_CHANNEL_STREAM.
  assert (Z.shiftr verb 8 < 0x400) by (by apply Z.ltb_lt).
  repeat (match goal with |- context [Z.shiftr verb 8 =? ?b] => destruct (Z.eqb_spec (Z.shiftr verb 8) b); [lia|] end).
  change (SET_AMP_GAIN_MUTE =? SET_CONVERTER_FORMAT) with false. change (SET_AMP_GAIN_MUTE =? SET_AMP_GAIN_MUTE) with true. cbv iota.
  repeat match goal with E : _ = ?x |- context [?t] => rewrite E end.
  by destruct output.
Qed.

(** ** Sound arrives

    A widget lets sound through when it is powered and its output amplifier is
    open; it takes it from the source it has selected, a mixer from a source
    whose input is open. *)

Definition lets_out (st : Settings) (w : Widget) : Prop :=
  (Z.testbit (caps w) CAPS_POWER = true -> power st !! node w = Some 0) /\
  (Z.testbit (caps w) CAPS_OUT_AMP = true -> out_amp st !! node w = Some (Z.land (amp_out w) 0x7f)).

Definition takes_in (st : Settings) (w : Widget) (i : nat) : Prop :=
  match kind w with
  | Mixer => Z.testbit (caps w) CAPS_IN_AMP = true -> in_amp st !! (node w, Z.of_nat i) = Some (Z.land (amp_in w) 0x7f)
  | _ => (1 < length (connections_of w))%nat -> select st !! node w = Some (Z.of_nat i)
  end.

Inductive carries (c : Codec) (ds : list Z) (st : Settings) : Z -> Prop :=
| carries_dac n w : widget c n = Some w -> analog_dac w = true -> n ∈ ds -> lets_out st w -> carries c ds st n
| carries_from n w i src :
    widget c n = Some w -> lets_out st w -> connections_of w !! i = Some src -> takes_in st w i ->
    carries c ds st src -> carries c ds st n.

(** The settings at a node agree. *)
Record same_at (n : Z) (st st' : Settings) : Prop := {
  sa_power : power st' !! n = power st !! n;
  sa_select : select st' !! n = select st !! n;
  sa_out : out_amp st' !! n = out_amp st !! n;
  sa_in : forall i, in_amp st' !! (n, i) = in_amp st !! (n, i) }.

#[global] Instance same_at_preorder n : PreOrder (same_at n).
Proof.
  split; [done|]. intros a b d [H1 H2 H3 H4] [K1 K2 K3 K4]. split; congruence.
Qed.

Lemma lets_out_same st st' w : same_at (node w) st st' -> lets_out st w -> lets_out st' w.
Proof. intros [H1 _ H3 _] [L1 L2]. split; [by rewrite H1|by rewrite H3]. Qed.
Lemma takes_in_same st st' w i : same_at (node w) st st' -> takes_in st w i -> takes_in st' w i.
Proof. intros [_ H2 _ H4]. unfold takes_in. rewrite H2, H4. done. Qed.

(** Wiring a path keeps what sounds, if it wires all it changes. *)
Lemma carries_change c ds st st' n :
  (forall m, same_at m st st' \/ carries c ds st' m) -> carries c ds st n -> carries c ds st' n.
Proof.
  intros H. induction 1 as [n w Hw Hd Hin Hl|n w i src Hw Hl Hc Ht _ IH]; (destruct (H n) as [Hs|?]; [|done]).
  - pose proof (widget_node _ _ _ Hw) as [Hn _]. subst n. eapply carries_dac; [done..|]. by eapply lets_out_same.
  - pose proof (widget_node _ _ _ Hw) as [Hn _]. subst n. eapply carries_from; [done|by eapply lets_out_same|done|by eapply takes_in_same|done].
Qed.

(** The link shows the settings of one codec. *)
Class CodecHardware (S : Type) (link : CodecLink S) (codec : Z) := {
  settings : S -> Settings;
  settings_command : forall n verb s, settings (command codec n verb s).2 = apply_verb n verb (settings s) }.

Section Wiring.
Context {S : Type} {link : CodecLink S} (c : Codec) {hw : CodecHardware S link (address c)}.

(** Fields of the verbs: eight bits of a connection index, four of an amplifier's. *)
Definition small : Prop :=
  Forall (fun w => (length (connections_of w) <= 256)%nat /\ (kind w = Mixer -> (length (connections_of w) <= 16)%nat)) (widgets c).

Lemma settings_send n verb s : settings (send (address c) n verb s) = apply_verb n verb (settings s).
Proof. apply settings_command. Qed.

Lemma gain_range x : 0 <= Z.land x 0x7f < 128.
Proof. change 0x7f with (Z.ones 7). rewrite Z.land_ones by lia. apply Z.mod_pos_bound. lia. Qed.

Lemma apply_verb_frame n m verb st : n <> m -> same_at n st (apply_verb m verb st).
Proof.
  intros Hn. assert (Hi : forall i j : Z, (n, i) <> (m, j)) by congruence. unfold apply_verb, set_amp. destruct st.
  repeat match goal with |- context [if ?b then _ else _] => destruct b end; split; cbn; intros; by rewrite ?lookup_insert_ne.
Qed.

Lemma send_frame n m verb s : n <> m -> same_at n (settings s) (settings (send (address c) m verb s)).
Proof. intros Hn. rewrite settings_send. by apply apply_verb_frame. Qed.

Lemma configure_widget_frame w up s n : n <> node w -> same_at n (settings s) (settings (configure_widget (address c) w up s)).
Proof.
  intros Hn. unfold configure_widget. set (s1 := if Z.testbit (caps w) CAPS_POWER then _ else s).
  assert (H1 : same_at n (settings s) (settings s1)) by (subst s1; destruct (Z.testbit _ _); [by apply send_frame|done]).
  set (s2 := match up with Some _ => _ | None => s1 end).
  assert (H2 : same_at n (settings s1) (settings s2)).
  { subst s2. destruct up as [u|]; [|done]. destruct (position u _) as [i|]; [|done].
    destruct (kind w), (Z.testbit (caps w) CAPS_IN_AMP), (1 <? length (connections_of w))%nat; try done; by apply send_frame. }
  destruct (Z.testbit (caps w) CAPS_OUT_AMP); [etransitivity; [|by apply send_frame]|]; by etransitivity.
Qed.

Lemma position_found n l : n ∈ l -> exists i, position n l = Some i /\ l !! i = Some n.
Proof.
  intros Hn. unfold position. destruct (list_find_elem_of (eq n) l n Hn eq_refl) as [[i x] Hi]. rewrite Hi. exists i.
  apply list_find_Some in Hi as (Hi & <- & _). done.
Qed.

(** What is fed to a widget is small enough for the verbs. *)
Definition fed (w : Widget) (up : option Z) : Prop :=
  forall u, up = Some u -> exists i, position u (connections_of w) = Some i /\ Z.of_nat i < 256 /\ (kind w = Mixer -> Z.of_nat i < 16).

Lemma configure_widget_sets w up s :
  fed w up ->
  let st := settings (configure_widget (address c) w up s) in
  lets_out st w /\ (forall u i, up = Some u -> position u (connections_of w) = Some i -> takes_in st w i).
Proof.
  intros Hf. cbv zeta. unfold configure_widget. set (s1 := if Z.testbit (caps w) CAPS_POWER then _ else s).
  assert (H1 : Z.testbit (caps w) CAPS_POWER = true -> power (settings s1) !! node w = Some 0).
  { subst s1. intros ->. rewrite settings_send, apply_verb12 by lia. destruct (settings s). cbn. by rewrite lookup_insert_eq. }
  clearbody s1. set (s2 := match up with Some _ => _ | None => s1 end).
  assert (H2 : power (settings s2) = power (settings s1) /\ (forall u i, up = Some u -> position u (connections_of w) = Some i -> takes_in (settings s2) w i)).
  { subst s2. destruct up as [u|]; [|done]. destruct (Hf u eq_refl) as (i & Hpos & Hi & Hm). rewrite Hpos.
    assert (Hj : forall u' j, Some u = Some u' -> position u' (connections_of w) = Some j -> j = i) by (intros u' j [= <-]; congruence).
    unfold takes_in.
    rewrite !(Z.mod_small (Z.of_nat i) 256) by lia. destruct (kind w) eqn:Hk.
    3: { destruct (Z.testbit (caps w) CAPS_IN_AMP); [|by split].
         rewrite settings_send, apply_amp by (try apply gain_range; specialize (Hm eq_refl); lia).
         cbn [power select in_amp]. split; [done|]. intros u' j Hu Hp _. rewrite (Hj u' j Hu Hp). by rewrite lookup_insert_eq. }
    all: destruct (Nat.ltb_spec 1 (length (connections_of w))); [|split; [done|intros; lia]];
         rewrite settings_send, apply_verb12 by lia; destruct (settings s1); cbn; split; [done|];
         intros u' j Hu Hp _; rewrite (Hj u' j Hu Hp); by rewrite lookup_insert_eq. }
  clearbody s2. destruct H2 as [Hp Ht]. destruct (Z.testbit (caps w) CAPS_OUT_AMP) eqn:Ho.
  - rewrite settings_send, apply_amp by (try apply gain_range; lia). split; [split|].
    + cbn. rewrite Hp. done.
    + intros _. cbn [out_amp]. by rewrite lookup_insert_eq.
    + intros u i Hu Hi. specialize (Ht u i Hu Hi). unfold takes_in in *. by destruct (kind w).
  - split; [split; [by rewrite Hp|congruence]|done].
Qed.

Fixpoint chain (ns : list Z) : Prop :=
  match ns with u :: (v :: _) as t => feeds c u v /\ chain t | _ => True end.

Lemma chain_snoc ns u v : chain (ns ++ [u]) -> feeds c u v -> chain ((ns ++ [u]) ++ [v]).
Proof. induction ns as [|x [|y ns] IH]; cbn; [done|intros [? _] ?; done|]. intros [? ?] ?. split; [done|]. by apply IH. Qed.

Lemma path_chain p0 ns : path c p0 ns -> chain ns.
Proof. induction 1 as [|p u v _ IH _ Hf]; [done|]. by apply chain_snoc. Qed.

Lemma configure_path_frame ns s n : (n ∉ ns) -> same_at n (settings s) (settings (configure_path c ns s)).
Proof.
  revert s. induction ns as [|m ns IH]; intros s Hn; [done|]. apply not_elem_of_cons in Hn as [Hm Hn]. cbn [configure_path].
  etransitivity; [|by apply IH]. destruct (widget c m) as [w|] eqn:Hw; [|done]. apply configure_widget_frame.
  by apply widget_node in Hw as [-> _].
Qed.

Lemma configure_path_carries ds ns s d :
  small -> NoDup ns -> chain ns -> last ns = Some d -> is_dac c d -> d ∈ ds ->
  Forall (carries c ds (settings (configure_path c ns s))) ns.
Proof.
  intros Hsm Hnd Hch Hl Hd Hin. revert s Hnd Hch Hl. induction ns as [|n ns IH]; intros s Hnd Hch Hl; [constructor|].
  apply NoDup_cons in Hnd as [Hn Hnd]. cbn [configure_path]. destruct ns as [|m ns].
  - injection Hl as ->. destruct Hd as (w & Hw & Ha). rewrite Hw. constructor; [|constructor]. eapply carries_dac; [done..|].
    apply widget_node in Hw as [Hnode _]. apply configure_widget_sets. by intros u.
  - destruct Hch as [(w & Hw & Hm) Hch]. rewrite Hw.
    set (s1 := configure_widget _ _ _ _). specialize (IH s1 Hnd Hch Hl). constructor; [|exact IH].
    pose proof (widget_node _ _ _ Hw) as [Hnode Hwin]. destruct (position_found m (connections_of w) Hm) as (i & Hi & Hlook).
    assert (Hf : fed w (Some m)).
    { intros u [= <-]. exists i. split; [done|]. apply lookup_lt_Some in Hlook. unfold small in Hsm. rewrite Forall_forall in Hsm.
      destruct (Hsm w Hwin) as [H1 H2]. split; [lia|]. intros Hk%H2. lia. }
    destruct (configure_widget_sets w (Some m) s Hf) as [Hlets Htakes]. specialize (Htakes m i eq_refl Hi).
    assert (Hsame : same_at (node w) (settings s1) (settings (configure_path c (m :: ns) s1))) by (apply configure_path_frame; by rewrite Hnode).
    eapply carries_from; [done|by eapply lets_out_same|done|by eapply takes_in_same|]. by apply Forall_inv in IH.
Qed.

Lemma amp_index output index gain mute : amp output index gain mute = amp output (Z.land index 0xf) gain mute.
Proof. unfold amp. by rewrite <- Z.land_assoc. Qed.

Lemma index_range x : 0 <= Z.land x 0xf < 16.
Proof. change 0xf with (Z.ones 4). rewrite Z.land_ones by lia. apply Z.mod_pos_bound. lia. Qed.

(** Pins are switched by verbs of their own. *)
Definition same_pins (st st' : Settings) : Prop := control st' = control st /\ eapd st' = eapd st.

#[local] Instance same_pins_preorder : PreOrder same_pins.
Proof. split; [done|]. intros a b d [? ?] [? ?]. split; congruence. Qed.

Lemma send_pins12 n v p s :
  0 <= p < 256 -> v = SET_POWER_STATE \/ v = SET_CONNECTION_SELECT \/ v = SET_CHANNEL_STREAM ->
  same_pins (settings s) (settings (send (address c) n (verb12 v p) s)).
Proof. intros Hp Hv. rewrite settings_send, apply_verb12 by done. destruct (settings s). by destruct Hv as [->|[->| ->]]. Qed.

Lemma send_pins_amp n o i g s : same_pins (settings s) (settings (send (address c) n (amp o i (Z.land g 0x7f) false) s)).
Proof. rewrite settings_send, amp_index, apply_amp by (apply index_range || apply gain_range). by destruct o. Qed.

Lemma configure_widget_pins w up s : same_pins (settings s) (settings (configure_widget (address c) w up s)).
Proof.
  unfold configure_widget. set (s1 := if Z.testbit (caps w) CAPS_POWER then _ else s).
  assert (H1 : same_pins (settings s) (settings s1)) by (subst s1; destruct (Z.testbit _ _); [apply send_pins12; [lia|tauto]|done]).
  set (s2 := match up with Some _ => _ | None => s1 end).
  assert (H2 : same_pins (settings s1) (settings s2)).
  { subst s2. destruct up as [u|]; [|done]. destruct (position u _) as [i|]; [|done]. pose proof (Z.mod_pos_bound (Z.of_nat i) 256 ltac:(lia)).
    destruct (kind w), (Z.testbit (caps w) CAPS_IN_AMP), (1 <? length (connections_of w))%nat; try done;
      first [apply send_pins_amp|apply send_pins12; [done|tauto]]. }
  destruct (Z.testbit (caps w) CAPS_OUT_AMP); [etransitivity; [|apply send_pins_amp]|]; by etransitivity.
Qed.

Lemma configure_path_pins ns s : same_pins (settings s) (settings (configure_path c ns s)).
Proof.
  revert s. induction ns as [|m ns IH]; intros s; [done|]. cbn [configure_path]. etransitivity; [|apply IH].
  destruct (widget c m); [apply configure_widget_pins|done].
Qed.

Definition pin_word (o : OutputPath) (w : Widget) : Z :=
  if bool_decide (device o = Headphone) && Z.testbit (pin_caps w) PIN_HEADPHONE_DRIVE then 0xc0 else 0x40.

Definition pin_on (st : Settings) (o : OutputPath) : Prop :=
  exists w, widget c (pin o) = Some w /\ control st !! pin o = Some (pin_word o w) /\
    (Z.testbit (pin_caps w) PIN_EAPD = true -> eapd st !! pin o = Some EAPD_ENABLE).

Lemma pin_on_same st st' o : same_pins st st' -> pin_on st o -> pin_on st' o.
Proof. intros [H1 H2] (w & Hw & Hc & He). exists w. by rewrite H1, H2. Qed.

Lemma configure_pin_spec o s w :
  widget c (pin o) = Some w ->
  let st := settings s in let st' := settings (configure_pin c o s) in
  (forall n, same_at n st st') /\ pin_on st' o /\ (forall o', pin o' <> pin o -> pin_on st o' -> pin_on st' o').
Proof.
  intros Hw. cbv zeta. unfold configure_pin. rewrite Hw.
  assert (Hword : forall b : bool, (if b then Z.lor PIN_CONTROL_OUT PIN_CONTROL_HEADPHONE else PIN_CONTROL_OUT) = if b then 0xc0 else 0x40) by (by intros []).
  rewrite Hword. fold (pin_word o w). assert (0 <= pin_word o w < 256) by (unfold pin_word; case_if; lia).
  set (s1 := send _ _ _ s).
  assert (E1 : settings s1 = let '(mkSettings po se oa ia co ea sr fo) := settings s in mkSettings po se oa ia (<[pin o := pin_word o w]> co) ea sr fo).
  { subst s1. rewrite settings_send, apply_verb12 by done. by destruct (settings s). }
  destruct (Z.testbit (pin_caps w) PIN_EAPD) eqn:He;
    [rewrite settings_send, apply_verb12 by (unfold EAPD_ENABLE; lia)|]; rewrite E1; destruct (settings s) as [po se oa ia co ea sr fo]; cbn -[pin_on pin_word];
    (split; [done|]; split; [exists w; cbn [control eapd]; rewrite ?lookup_insert_eq; split_and!; [done|done|congruence]|]);
    intros o' Hne (w' & Hw' & Hc & Heo); exists w'; cbn [control eapd] in *; by rewrite ?lookup_insert_ne by done.
Qed.

(** What wiring needs to know of an output. *)
Definition wirable (ds : list Z) (o : OutputPath) : Prop :=
  NoDup (nodes o) /\ chain (nodes o) /\ last (nodes o) = Some (dac o) /\ is_dac c (dac o) /\ dac o ∈ ds /\ is_Some (widget c (pin o)).

Lemma configure_outputs ds os s :
  small -> Forall (wirable ds) os -> NoDup (pin <$> os) ->
  let st := settings (foldl (fun s o => configure_pin c o (configure_path c (nodes o) s)) s os) in
  Forall (fun o => Forall (carries c ds st) (nodes o) /\ pin_on st o) os.
Proof.
  intros Hsm. cbv zeta. induction os as [|o os IH] using rev_ind; intros Hw Hnd; [constructor|].
  apply Forall_app in Hw as [Hw Ho]. apply Forall_inv in Ho as (Hn & Hch & Hl & Hd & Hin & [w Hpw]).
  rewrite fmap_app, NoDup_app in Hnd. destruct Hnd as (Hnd & Hne & _). specialize (IH Hw Hnd). rewrite foldl_app. cbn [foldl].
  set (s0 := foldl _ s os) in *. set (s1 := configure_path c (nodes o) s0).
  destruct (configure_pin_spec o s1 w Hpw) as (Hsame & Hon & Hkeep).
  pose proof (configure_path_carries ds (nodes o) s0 (dac o) Hsm Hn Hch Hl Hd Hin) as Hpath. fold s1 in Hpath.
  assert (Hstep : forall n, carries c ds (settings s1) n -> carries c ds (settings (configure_pin c o s1)) n).
  { intros n. apply carries_change. intros m. by left. }
  apply Forall_app. split; [|apply Forall_singleton; split; [by eapply Forall_impl|done]].
  rewrite Forall_forall in IH |- *. intros o' Ho'. destruct (IH o' Ho') as [Hc Hp]. split.
  - eapply Forall_impl; [exact Hc|]. intros n Hcn. apply Hstep. eapply carries_change; [|exact Hcn].
    intros m. destruct (decide (m ∈ nodes o)); [right|left; by apply configure_path_frame]. rewrite Forall_forall in Hpath. by apply Hpath.
  - apply Hkeep; [|eapply pin_on_same; [apply configure_path_pins|done]].
    intros Heq. apply (Hne (pin o')); [by apply list_elem_of_fmap_2|]. rewrite Heq. cbn. by apply list_elem_of_singleton.
Qed.

(** Pointing DACs at the stream changes nothing else. *)
Definition same_wiring (st st' : Settings) : Prop := (forall n, same_at n st st') /\ same_pins st st'.

Lemma set_stream_spec plan tag f s :
  plan_address plan = address c -> 0 <= tag < 16 -> 0 <= f < 65536 ->
  let st := settings (set_stream plan tag f s) in
  same_wiring (settings s) st /\ Forall (fun d => stream st !! d = Some (Z.shiftl tag 4) /\ format st !! d = Some f) (dacs plan).
Proof.
  intros Ha Ht Hf. cbv zeta. unfold set_stream. rewrite Ha.
  assert (Htag : Z.shiftl tag 4 `mod` 256 = Z.shiftl tag 4) by (rewrite Z.shiftl_mul_pow2 by lia; apply Z.mod_small; lia).
  assert (Hrange : 0 <= Z.shiftl tag 4 < 256) by (rewrite Z.shiftl_mul_pow2 by lia; lia). rewrite Htag.
  induction (dacs plan) as [|d ds IH] using rev_ind; [done|]. rewrite foldl_app. cbn [foldl].
  set (s0 := foldl _ s ds) in *. destruct IH as [[IH1 IH2] IH3].
  rewrite settings_send, apply_stream, settings_send, apply_format by done.
  destruct (settings s0) as [po se oa ia co ea sr fo]. cbn [power select out_amp in_amp control eapd stream format] in *.
  split; [split; [intros n; destruct (IH1 n) as [? ? ? ?]; by split|by destruct IH2]|].
  apply Forall_app. split; [|apply Forall_singleton; cbn; by rewrite !lookup_insert_eq].
  eapply Forall_impl; [exact IH3|]. intros x [Hx1 Hx2]. cbn in *.
  destruct (decide (x = d)) as [->|]; [by rewrite !lookup_insert_eq|by rewrite !lookup_insert_ne].
Qed.

Lemma output_pins_elem w d : (w, d) ∈ output_pins c -> w ∈ widgets c /\ output_device w = Some d.
Proof.
  unfold output_pins. rewrite sort_by_perm, list_elem_of_omap. intros (x & Hx & Hd).
  destruct (output_device x) as [e|] eqn:E; [|done]. by injection Hd as -> ->.
Qed.

Lemma output_pins_distinct : distinct c -> NoDup ((node ∘ fst) <$> output_pins c).
Proof.
  unfold distinct, output_pins. intros Hd. rewrite sort_by_perm. eapply sublist_NoDup; [exact Hd|]. clear Hd.
  induction (widgets c) as [|w ws IH]; [done|]. cbn. destruct (output_device w); cbn; [by apply sublist_skip|by apply sublist_cons].
Qed.

Lemma planned_wirable plan : distinct c -> planned c plan -> Forall (wirable (dacs plan)) (outputs plan) /\ NoDup (pin <$> outputs plan).
Proof.
  intros Hd P. destruct (pl_chosen _ _ P) as [C1 C2 _ _]. split; [|by eapply sublist_NoDup; [apply output_pins_distinct|]].
  rewrite Forall_forall in C1 |- *. intros o Ho. destruct (C1 o Ho) as ((w & Hw & Hn) & Hp & Hnd & (_ & Hdac & _) & Hl & _).
  split_and!; try done; [by eapply path_chain|apply (pl_dacs _ _ P); by apply list_elem_of_fmap_2|].
  apply output_pins_elem in Hw as [Hw _]. exists w. rewrite <- Hn. by apply widget_self.
Qed.

End Wiring.

(** C32. Outputs of the plan play: after [configure] and [set_stream] every pin
    of the plan is switched to output (to its headphone driver and its external
    amplifier where it has them) and carries sound from a DAC of the plan through
    powered widgets with open amplifiers, although widgets shared by several
    outputs were switched several times; every DAC of the plan plays the stream. *)
Theorem planned_outputs_play {S : Type} {link : CodecLink S} (c : Codec) {hw : CodecHardware S link (address c)} plan tag f (s : S) :
  distinct c -> small c -> plan_outputs c = Some (Ok plan) -> 0 <= tag < 16 -> 0 <= f < 65536 ->
  let st := settings (set_stream plan tag f (configure c plan s)) in
  outputs plan <> [] /\
  Forall (fun o => carries c (dacs plan) st (pin o) /\ pin_on c st o) (outputs plan) /\
  Forall (fun d => stream st !! d = Some (Z.shiftl tag 4) /\ format st !! d = Some f) (dacs plan).
Proof.
  intros Hd Hsm Hplan Ht Hf. cbv zeta. destruct (plan_outputs_spec c) as (r & Hr & P). rewrite Hplan in Hr. injection Hr as <-.
  destruct (planned_wirable c plan Hd P) as [Hw Hnd].
  destruct (set_stream_spec c plan tag f (configure c plan s) (proj1 (pl_of _ _ P)) Ht Hf) as [[Hsame Hpins] Hstream].
  split; [apply (pl_some _ _ P)|]. split; [|done].
  pose proof (configure_outputs c (dacs plan) (outputs plan) (send (address c) (function_group c) (verb12 SET_POWER_STATE 0) s) Hsm Hw Hnd) as Hout.
  cbv zeta in Hout. change (foldl _ _ (outputs plan)) with (configure c plan s) in Hout.
  rewrite Forall_forall in Hout, Hw |- *. intros o Ho. destruct (Hout o Ho) as [Hc Hp]. split; [|by eapply pin_on_same].
  eapply carries_change; [intros m; left; apply Hsame|]. rewrite Forall_forall in Hc. apply Hc.
  destruct (Hw o Ho) as (_ & _ & Hl & _). unfold pin. destruct (nodes o); [done|]. left.
Qed.

(** C33. The plan, for every codec: the search ends; every usable pin on which an
    analog DAC can be heard gets an output, in the order the firmware gives, with a
    shortest path to its DAC; a DAC is shared only when every DAC the pin reaches
    was taken; the DACs are listed once and the rates are exactly those all of
    them play with 16-bit samples.  Without a plan there is no such pin, or no
    such rate. *)
Theorem outputs_chosen c :
  exists r, plan_outputs c = Some r /\
    match r with
    | Ok plan => planned c plan
    | Err NoOutputs => forall w d, (w, d) ∈ output_pins c -> forall u, ~ hears c (node w) u
    | Err NoFormat => exists os, chosen c (output_pins c) os /\ os <> [] /\ forall rate, ~ plays c os rate
    | Err _ => False
    end.
Proof. exact (plan_outputs_spec c). Qed.

(** ** A codec that shares a selector *)

#[local] Instance settings_link : CodecLink Settings := fun codec n verb st => (Some 0, apply_verb n verb st).
#[local] Instance settings_hardware codec : CodecHardware Settings settings_link codec := { settings := fun st => st; settings_command := fun _ _ _ => eq_refl }.

Definition example_dac (n : Z) : Widget := mkWidget n Output 0x405 0 0 0 0x57 0x20070 [].
Definition example_codec : Codec :=
  mkCodec 0 0x10ec0257 1
    [example_dac 2; example_dac 3; mkWidget 11 Selector 0x300501 0 0 0 0 0 [2; 3];
     mkWidget 20 Pin 0x400501 0x10010 0x90170110 0 0 0 [11]; mkWidget 33 Pin 0x400501 0x1c 0x04211020 0 0 0 [11]].
Definition example_plan : OutputPlan :=
  mkOutputPlan 0 0x10ec0257 1 [mkOutputPath Speaker [20; 11; 2]; mkOutputPath Headphone [33; 11; 3]] [2; 3] [32000; 44100; 48000].

Lemma example_planned : plan_outputs example_codec = Some (Ok example_plan).
Proof. vm_compute. done. Qed.

(** The selector ends at the second DAC; the speaker, planned for the first, plays it too. *)
Lemma planned_outputs_play_witness :
  let st := set_stream example_plan 1 0x11 (configure example_codec example_plan nothing_set) in
  select st !! 11 = Some 1 /\ carries example_codec [2; 3] st 20 /\ carries example_codec [2; 3] st 33.
Proof.
  destruct (planned_outputs_play example_codec example_plan 1 0x11 nothing_set) as (_ & H & _).
  - unfold distinct. apply (bool_decide_unpack _). vm_compute. done.
  - unfold small. repeat constructor; cbn; lia || done.
  - apply example_planned.
  - lia.
  - lia.
  - cbv zeta. split; [vm_compute; done|]. split.
    + exact (proj1 (Forall_inv H)).
    + exact (proj1 (Forall_inv (Forall_inv_tail H))).
Defined.

(** ** Reading a codec *)

Section Reading.
Context {S : Type} {link : CodecLink S} (codec : Z) (answer : Z -> Z -> option Z).
(** The codec answers the same questions the same way. *)
Hypothesis answers : forall n verb s, (command codec n verb s).1 = answer n verb.

Definition tells (n p x : Z) : Prop := answer n (verb12 GET_PARAMETER p) = Some x.

Lemma parameter_tells n p x s : tells n p x -> exists s', parameter codec n p s = (Ok x, s').
Proof.
  intros Ht. unfold parameter. pose proof (answers n (verb12 GET_PARAMETER p) s) as Ha. destruct (command _ _ _ s) as [a s']. cbn in Ha.
  exists s'. by rewrite Ha, Ht.
Qed.

(** A connection list is stored as words of [per_word] entries. *)
Definition stores (n per_word bits : Z) (entries : list Z) : Prop :=
  forall index, 0 <= index < Z.of_nat (length entries) -> (per_word | index) ->
  exists word, answer n (verb12 GET_CONNECTION_LIST index) = Some word /\
    forall slot e, 0 <= slot < per_word -> entries !! Z.to_nat (index + slot) = Some e ->
      Z.land (Z.shiftr word (slot * bits)) (Z.shiftl 1 bits - 1) = e.

Definition expand (range_bit : Z) (entries : list Z) : list Z := foldl (fun l e => add_connection e range_bit l) [] entries.

Lemma add_word_spec k slot bits range_bit index entries word (l : list Z) :
  0 <= slot -> 0 <= index ->
  (forall j e, slot <= j < slot + Z.of_nat k -> entries !! Z.to_nat (index + j) = Some e ->
     Z.land (Z.shiftr word (j * bits)) (Z.shiftl 1 bits - 1) = e) ->
  add_word (seqZ slot (Z.of_nat k)) bits range_bit index (Z.of_nat (length entries)) word l =
  foldl (fun l e => add_connection e range_bit l) l (take k (drop (Z.to_nat (index + slot)) entries)).
Proof.
  revert slot l. induction k as [|k IH]; intros slot l Hs Hi He; [done|].
  rewrite seqZ_cons by lia. cbn [add_word]. destruct (Z.leb_spec (Z.of_nat (length entries)) (index + slot)).
  - by rewrite drop_ge by lia.
  - destruct (lookup_lt_is_Some_2 entries (Z.to_nat (index + slot)) ltac:(lia)) as [e Hl].
    rewrite (He slot e) by (lia || done). rewrite (drop_S _ _ _ Hl). cbn [take foldl].
    replace (Z.pred (Z.of_nat (Datatypes.S k))) with (Z.of_nat k) by lia. rewrite IH.
    + do 3 f_equal. lia.
    + lia.
    + done.
    + intros j e' Hj. apply He. lia.
Qed.

Lemma read_connections_spec fuel n per_word bits range_bit index entries s :
  2 <= per_word -> 0 <= index -> (per_word | index) -> Z.of_nat (length entries) <= index + per_word * Z.of_nat fuel ->
  stores n per_word bits entries ->
  exists s', read_connections fuel codec n per_word bits range_bit index (Z.of_nat (length entries))
               (expand range_bit (take (Z.to_nat index) entries)) s = (Ok (expand range_bit entries), s').
Proof.
  intros Hp. revert index s. induction fuel as [|fuel IH]; intros index s Hi Hdiv Hlen Hst; cbn [read_connections].
  { exists s. by rewrite take_ge by lia. }
  destruct (Z.leb_spec (Z.of_nat (length entries)) index); [exists s; by rewrite take_ge by lia|].
  destruct (Hst index ltac:(lia) Hdiv) as (word & Hw & Hent). pose proof (answers n (verb12 GET_CONNECTION_LIST index) s) as Ha.
  destruct (command _ _ _ s) as [a s1]. cbn in Ha. rewrite Ha, Hw.
  replace (seqZ 0 per_word) with (seqZ 0 (Z.of_nat (Z.to_nat per_word))) by (f_equal; lia). rewrite add_word_spec.
  - unfold expand. rewrite <- foldl_app, Z.add_0_r. rewrite (take_take_drop entries (Z.to_nat index) (Z.to_nat per_word)).
    rewrite <- Z2Nat.inj_add by lia. apply IH; [lia| |lia|done]. apply Z.divide_add_r; [done|apply Z.divide_refl].
  - lia.
  - done.
  - intros j e Hj. apply Hent. lia.
Qed.

(** ** What a codec says about itself *)

Definition amp_reports (n caps which : Z) (present : bool) (default x : Z) : Prop :=
  if present then if Z.testbit caps CAPS_AMP_OVERRIDE then tells n which x else x = default else x = 0.

Definition connections_report (n : Z) (l : list Z) : Prop :=
  exists info entries, tells n PARAMETER_CONNECTIONS info /\ Z.land info 0x7f = Z.of_nat (length entries) /\
    if Z.land info 0x80 =? 0 then stores n 4 8 entries /\ l = expand (Z.shiftl 1 7) entries
    else stores n 2 16 entries /\ l = expand (Z.shiftl 1 15) entries.

Definition widget_reports (default_pcm default_in default_out : Z) (w : Widget) : Prop :=
  let n := node w in
  tells n PARAMETER_WIDGET_CAPS (caps w) /\ kind w = from_caps (caps w) /\
  amp_reports n (caps w) PARAMETER_AMP_IN (Z.testbit (caps w) CAPS_IN_AMP) default_in (amp_in w) /\
  amp_reports n (caps w) PARAMETER_AMP_OUT (Z.testbit (caps w) CAPS_OUT_AMP) default_out (amp_out w) /\
  (if bool_decide (kind w = Output) && Z.testbit (caps w) CAPS_FORMAT_OVERRIDE then tells n PARAMETER_PCM (pcm w) else pcm w = default_pcm) /\
  (if bool_decide (kind w = Pin) then tells n PARAMETER_PIN_CAPS (pin_caps w) /\ answer n (verb12 GET_CONFIG_DEFAULT 0) = Some (pin_default w)
   else pin_caps w = 0 /\ pin_default w = 0) /\
  (if Z.testbit (caps w) CAPS_CONNECTIONS then connections_report n (connections_of w) else connections_of w = []).

Definition reports (c : Codec) : Prop :=
  tells 0 PARAMETER_VENDOR (vendor c) /\
  (exists count before after k, tells 0 PARAMETER_NODE_COUNT count /\ node_range count = before ++ function_group c :: after /\
     Forall (fun n => forall k, tells n PARAMETER_FUNCTION_TYPE k -> Z.land k 0xff <> 1) before /\
     tells (function_group c) PARAMETER_FUNCTION_TYPE k /\ Z.land k 0xff = 1) /\
  (exists default_pcm default_in default_out count,
     tells (function_group c) PARAMETER_PCM default_pcm /\ tells (function_group c) PARAMETER_AMP_IN default_in /\
     tells (function_group c) PARAMETER_AMP_OUT default_out /\ tells (function_group c) PARAMETER_NODE_COUNT count /\
     node_range count = node <$> widgets c /\ Forall (widget_reports default_pcm default_in default_out) (widgets c)).

Lemma find_group_spec before g after k s :
  Forall (fun n => forall k, tells n PARAMETER_FUNCTION_TYPE k -> Z.land k 0xff <> 1) before ->
  tells g PARAMETER_FUNCTION_TYPE k -> Z.land k 0xff = 1 -> exists s', find_group codec (before ++ g :: after) s = (Some g, s').
Proof.
  intros Hb Hg Hk. revert s. induction Hb as [|n before Hn _ IH]; intros s; cbn [app find_group].
  - destruct (parameter_tells _ _ _ s Hg) as [s' ->]. rewrite Hk. by exists s'.
  - unfold parameter. pose proof (answers n (verb12 GET_PARAMETER PARAMETER_FUNCTION_TYPE) s) as Ha.
    destruct (command _ _ _ s) as [[a|] s1]; cbn in Ha |- *; [|apply IH]. destruct (Z.eqb_spec (Z.land a 0xff) 1) as [He|]; [|apply IH].
    by destruct (Hn a).
Qed.

Lemma read_amp_spec n cs which present def x s : amp_reports n cs which present def x -> exists s', read_amp codec n cs which present def s = (Ok x, s').
Proof.
  unfold amp_reports, read_amp. destruct present; cbn [negb]; [|intros ->; by exists s].
  destruct (Z.testbit _ _); [apply parameter_tells|intros ->; by exists s].
Qed.

Lemma connections_spec n l s : connections_report n l -> exists s', connections codec n s = (Ok l, s').
Proof.
  intros (info & entries & Hi & Hlen & Hst). unfold connections. destruct (parameter_tells _ _ _ s Hi) as [s1 ->]. rewrite Hlen.
  assert (Hmax : Z.of_nat (length entries) <= 127).
  { pose proof (gain_range info). lia. }
  destruct (Z.land info 0x80 =? 0); cbn [negb]; destruct Hst as [Hst ->].
  - apply (read_connections_spec 127 n 4 8 (Z.shiftl 1 7) 0 entries s1); try lia; [apply Z.divide_0_r|done].
  - apply (read_connections_spec 127 n 2 16 (Z.shiftl 1 15) 0 entries s1); try lia; [apply Z.divide_0_r|done].
Qed.

Lemma read_widget_spec dp di od w s : widget_reports dp di od w -> exists s', read_widget codec dp di od (node w) s = (Ok w, s').
Proof.
  destruct w as [n k cs pc pd ai ao pm cn]. unfold widget_reports. cbn [node kind caps pin_caps pin_default amp_in amp_out pcm connections_of].
  intros (Hc & Hk & Hi & Ho & Hp & Hpin & Hcn). unfold read_widget.
  destruct (parameter_tells _ _ _ s Hc) as [s1 ->]. rewrite <- Hk.
  destruct (read_amp_spec _ _ _ _ _ _ s1 Hi) as [s2 ->]. destruct (read_amp_spec _ _ _ _ _ _ s2 Ho) as [s3 ->].
  assert (E : exists s4, (if bool_decide (k = Output) && Z.testbit cs CAPS_FORMAT_OVERRIDE then parameter codec n PARAMETER_PCM s3 else (Ok dp, s3)) = (Ok pm, s4)).
  { destruct (bool_decide (k = Output) && _); [by apply parameter_tells|subst; by exists s3]. }
  destruct E as [s4 ->].
  assert (E : exists s5, (if bool_decide (k = Pin) then parameter codec n PARAMETER_PIN_CAPS s4 else (Ok 0, s4)) = (Ok pc, s5)).
  { destruct (bool_decide (k = Pin)); [apply parameter_tells, Hpin|destruct Hpin as [-> _]; by exists s4]. }
  destruct E as [s5 ->].
  assert (E : exists s6, (if bool_decide (k = Pin) then let '(a, s) := command codec n (verb12 GET_CONFIG_DEFAULT 0) s5 in (ok_or a NoResponse, s)
                          else (@Ok CodecError Z 0, s5)) = (Ok pd, s6)).
  { destruct (bool_decide (k = Pin)); [|destruct Hpin as [_ ->]; by exists s5]. destruct Hpin as [_ Hd].
    pose proof (answers n (verb12 GET_CONFIG_DEFAULT 0) s5) as Ha. destruct (command _ _ _ s5) as [a s6]. cbn in Ha. exists s6. by rewrite Ha, Hd. }
  destruct E as [s6 ->].
  assert (E : exists s7, (if Z.testbit cs CAPS_CONNECTIONS then connections codec n s6 else (Ok [], s6)) = (Ok cn, s7)).
  { destruct (Z.testbit cs CAPS_CONNECTIONS); [by apply connections_spec|subst; by exists s6]. }
  destruct E as [s7 ->]. by exists s7.
Qed.

Lemma read_widgets_spec dp di od ws acc s :
  Forall (widget_reports dp di od) ws -> exists s', read_widgets codec dp di od (node <$> ws) acc s = (Ok (acc ++ ws), s').
Proof.
  intros Hws. revert acc s. induction Hws as [|w ws Hw _ IH]; intros acc s; cbn [fmap list_fmap read_widgets].
  - exists s. by rewrite app_nil_r.
  - destruct (read_widget_spec _ _ _ _ s Hw) as [s1 ->]. destruct (IH (acc ++ [w]) s1) as [s2 ->]. exists s2. by rewrite <- app_assoc.
Qed.

Lemma discover_spec c s : address c = codec -> reports c -> exists s', discover codec s = (Ok c, s').
Proof.
  destruct c as [ad ve fg ws]. cbn [address]. intros -> (Hv & (count & before & after & k & Hn & Hr & Hb & Hk & H1) & dp & di & od & count' & Hp & Hi & Ho & Hn' & Hr' & Hws).
  cbn [vendor function_group widgets] in *. unfold discover.
  destruct (parameter_tells _ _ _ s Hv) as [s1 ->]. destruct (parameter_tells _ _ _ s1 Hn) as [s2 ->]. rewrite Hr.
  destruct (find_group_spec before fg after k s2 Hb Hk H1) as [s3 ->].
  destruct (parameter_tells _ _ _ s3 Hp) as [s4 ->]. destruct (parameter_tells _ _ _ s4 Hi) as [s5 ->].
  destruct (parameter_tells _ _ _ s5 Ho) as [s6 ->]. destruct (parameter_tells _ _ _ s6 Hn') as [s7 ->]. rewrite Hr'.
  destruct (read_widgets_spec dp di od ws [] s7 Hws) as [s8 ->]. by exists s8.
Qed.

End Reading.

(** Plain entries are the list; a marked entry stands for the nodes from the one before it up to it. *)
Definition plain_entry (range_bit e : Z) : bool := (Z.land e range_bit =? 0) && (Z.land e (range_bit - 1) `mod` 256 =? e).

Lemma expand_snoc range_bit entries e : expand range_bit (entries ++ [e]) = add_connection e range_bit (expand range_bit entries).
Proof. unfold expand. by rewrite foldl_app. Qed.

Lemma expand_plain range_bit entries : Forall (fun e => plain_entry range_bit e = true) entries -> expand range_bit entries = entries.
Proof.
  induction entries as [|e entries IH] using rev_ind; intros He; [done|]. apply Forall_app in He as [He Hp%Forall_inv].
  rewrite expand_snoc, IH by done. apply andb_prop in Hp as [H1 H2%Z.eqb_eq]. unfold add_connection. rewrite H1, H2. by destruct (last entries).
Qed.

Lemma plain_entries : forallb (plain_entry (Z.shiftl 1 7)) (seqZ 0 128) && forallb (plain_entry (Z.shiftl 1 15)) (seqZ 0 256) = true.
Proof. vm_compute. done. Qed.

Lemma expand_range entries a b :
  0 <= a < b -> b < 128 -> last (expand 128 entries) = Some a -> expand 128 (entries ++ [128 + b]) = expand 128 entries ++ seqZ (a + 1) (b - a).
Proof.
  intros Ha Hb Hl. rewrite expand_snoc. unfold add_connection. rewrite Hl.
  assert (Hm : Z.land (128 + b) (128 - 1) `mod` 256 = b).
  { change (128 - 1) with (Z.ones 7). rewrite Z.land_ones, (Z.add_comm 128 b) by lia. change (2 ^ 7) with 128.
    rewrite <- (Z.mul_1_l 128) at 1. rewrite Z.mod_add by lia. rewrite (Z.mod_small b 128), Z.mod_small; lia. }
  rewrite Hm. assert (Hr : Z.land (128 + b) 128 <> 0).
  { intros Hz. assert (Hbit : Z.testbit (Z.land (128 + b) 128) 7 = false) by (rewrite Hz; apply Z.bits_0). rewrite Z.land_spec in Hbit.
    change (Z.testbit 128 7) with true in Hbit. rewrite andb_true_r, Z.testbit_false in Hbit by lia. change (2 ^ 7) with 128 in Hbit.
    rewrite <- (Z.mul_1_l 128), Z.div_add_l, Z.div_small in Hbit by lia. done. }
  apply Z.eqb_neq in Hr. rewrite Hr. destruct (Z.ltb_spec a b); [done|lia].
Qed.

(** A codec that answers with its registers is read back as it is: the first
    audio function group, every widget with its own capabilities or those of the
    group, and the connection lists in words of two or four entries with their
    ranges expanded. *)
Theorem codec_read_back {S : Type} {link : CodecLink S} (c : Codec) (answer : Z -> Z -> option Z) (s : S) :
  (forall n verb s, (command (address c) n verb s).1 = answer n verb) -> reports answer c ->
  exists s', discover (address c) s = (Ok c, s').
Proof. intros Ha Hr. by apply (discover_spec (address c) answer Ha c). Qed.

(** A DAC, a mixer fed by two nodes and a third, and no pin. *)
Definition tiny_codec : Codec := mkCodec 2 7 1 [mkWidget 3 Output 0x4 0 0 0 5 0x20060 []; mkWidget 4 Mixer 0x200100 0 0 0 0 0x20060 [3; 7; 8; 9]].
Definition tiny_answer (n verb : Z) : option Z :=
  if verb =? verb12 GET_PARAMETER PARAMETER_VENDOR then Some 7
  else if verb =? verb12 GET_PARAMETER PARAMETER_NODE_COUNT then Some (if n =? 0 then 0x10001 else 0x30002)
  else if verb =? verb12 GET_PARAMETER PARAMETER_FUNCTION_TYPE then Some 1
  else if verb =? verb12 GET_PARAMETER PARAMETER_PCM then Some 0x20060
  else if verb =? verb12 GET_PARAMETER PARAMETER_AMP_IN then Some 6
  else if verb =? verb12 GET_PARAMETER PARAMETER_AMP_OUT then Some 5
  else if verb =? verb12 GET_PARAMETER PARAMETER_WIDGET_CAPS then Some (if n =? 3 then 0x4 else 0x200100)
  else if verb =? verb12 GET_PARAMETER PARAMETER_CONNECTIONS then Some 3
  else if verb =? verb12 GET_CONNECTION_LIST 0 then Some 0x890703 else None.

#[local] Instance tiny_link : CodecLink unit := fun codec n verb st => (tiny_answer n verb, st).

Lemma tiny_stores : stores tiny_answer 4 4 8 [3; 7; 0x89].
Proof.
  intros index Hi [k ->]. cbn in Hi. assert (k = 0) as -> by lia. exists 0x890703. split; [done|]. intros slot e Hs.
  assert (Hcase : slot = 0 \/ slot = 1 \/ slot = 2 \/ slot = 3) by lia. by destruct Hcase as [->|[->|[->| ->]]]; intros [= <-].
Qed.

Lemma codec_read_back_witness : exists s', discover 2 tt = (Ok tiny_codec, s').
Proof.
  apply (codec_read_back tiny_codec tiny_answer tt); [done|]. split; [done|]. split.
  - exists 0x10001, [], [], 1. by repeat split.
  - exists 0x20060, 6, 5, 0x30002. split_and!; try done. repeat constructor; try done.
    exists 3, [3; 7; 0x89]. split; [done|]. split; [done|]. split; [apply tiny_stores|done].
Defined.

End HdaCodec.
