(* ===== verification/Lock.v ===== *)
(** * Lock: spin locks and interrupts ([sync/spinlock.rs])

    Two kinds of lock: [SpinMutex], for data interrupt handlers never touch, and
    [IrqSpinMutex], whose guard also keeps interrupts off.  The processor is its
    interrupt flag, the bits of the locks and the mark of the fatal path; [try_lock],
    [force_lock] and dropping a guard are functions on it.  A failed attempt of [lock]
    is a step of its own, so anything may happen between attempts.

    [System] puts threads, interrupt handlers, guards and windows around them: [step]
    lets the running activity take and drop locks and turn interrupts off and back on
    itself ([disable], [restore], as [scheduler/wait.rs] and [lifecycle.rs] do), an
    interrupt arrive when the flag is set, a handler return, and threads switch,
    start and end.  Its premises are the rules callers follow, which are assumed
    here: guards and windows go in reverse order, an activity does not take a lock it
    holds, handlers take no [SpinMutex], and a thread is not put aside while it holds
    an [IrqSpinMutex] (the source asserts it for the scheduler's and the process
    table's, [assert_switch_boundary_unlocked]).  The fatal path, which takes locks by
    force, is not entered.

    Proved: a lock has one holder; an [IrqSpinMutex] the caller does not hold is free,
    so [lock] succeeds at once; while one is held no interrupt comes and nothing else
    runs, which is why a locked operation is one step in the other files; the
    interrupt flag is restored when the last guard and window go. *)

From stdpp Require Import base list.
From S2P Require Import Prelude.

Module Lock.

(** ** The locks *)

(** Which static lock. *)
Inductive Lock := Irq (n : nat) | Spin (n : nat).
#[global] Instance Lock_eq_dec : EqDecision Lock.
Proof. solve_decision. Defined.

Record Cpu := mkCpu { interrupts : bool; bits : Lock -> bool; panicking : bool }.

Definition cli (c : Cpu) : Cpu := mkCpu false (bits c) (panicking c).
Definition sti (c : Cpu) : Cpu := mkCpu true (bits c) (panicking c).
Definition store (l : Lock) (v : bool) (c : Cpu) : Cpu :=
  mkCpu (interrupts c) (fun l' => if decide (l' = l) then v else bits c l') (panicking c).

(** [compare_exchange(false, true)]. *)
Definition compare_exchange (l : Lock) (c : Cpu) : bool * Cpu := if bits c l then (false, c) else (true, store l true c).

(** A guard: the lock, and for an [IrqSpinMutex] the flag to restore. *)
Inductive Guard := IrqMutexGuard (n : nat) (interrupts_enabled : bool) | MutexGuard (n : nat).

Definition is_locked (l : Lock) (c : Cpu) : bool := bits c l.

Definition irq_try_lock (n : nat) (c : Cpu) : option Guard * Cpu :=
  let interrupts_enabled := interrupts c in
  let c := cli c in
  let '(taken, c) := compare_exchange (Irq n) c in
  if taken then (Some (IrqMutexGuard n interrupts_enabled), c) else (None, if interrupts_enabled then sti c else c).

Definition irq_force_lock (n : nat) (c : Cpu) : Guard * Cpu := (IrqMutexGuard n (interrupts c), store (Irq n) true (cli c)).

Definition spin_try_lock (n : nat) (c : Cpu) : option Guard * Cpu :=
  let '(taken, c) := compare_exchange (Spin n) c in (if taken then Some (MutexGuard n) else None, c).

Definition spin_force_lock (n : nat) (c : Cpu) : Guard * Cpu := (MutexGuard n, store (Spin n) true c).

Definition try_lock (l : Lock) : Cpu -> option Guard * Cpu := match l with Irq n => irq_try_lock n | Spin n => spin_try_lock n end.
Definition force_lock (l : Lock) : Cpu -> Guard * Cpu := match l with Irq n => irq_force_lock n | Spin n => spin_force_lock n end.

(** One round of [lock]: a guard, by force on the fatal path, or another round. *)
Definition lock_round (l : Lock) (c : Cpu) : option Guard * Cpu :=
  match try_lock l c with
  | (Some g, c) => (Some g, c)
  | (None, c) => if panicking c then let '(g, c) := force_lock l c in (Some g, c) else (None, c)
  end.

Definition drop (g : Guard) (c : Cpu) : Cpu :=
  match g with
  | IrqMutexGuard n interrupts_enabled => let c := store (Irq n) false c in if interrupts_enabled then sti c else c
  | MutexGuard n => store (Spin n) false c
  end.

(** A stretch of code without interrupts and without a lock: the flag is read, then
    turned off, and turned on again at the end if it was on. *)
Definition disable (c : Cpu) : bool * Cpu := (interrupts c, cli c).
Definition restore (interrupts_were_enabled : bool) (c : Cpu) : Cpu := if interrupts_were_enabled then sti c else c.

(** ** Threads and interrupts *)

Definition lock_of (g : Guard) : Lock := match g with IrqMutexGuard n _ => Irq n | MutexGuard n => Spin n end.
Definition is_irq (l : Lock) : bool := match l with Irq _ => true | Spin _ => false end.

(** What an activity has to undo: a guard, or a window with the flag it found. *)
Inductive Undo := Held (g : Guard) | Window (interrupts_were_enabled : bool).

Definition lock_held (x : Undo) : option Lock := match x with Held g => Some (lock_of g) | Window _ => None end.
Definition locks (xs : list Undo) : list Lock := omap lock_held xs.
(** What keeps interrupts off. *)
Definition disables (x : Undo) : bool := match x with Held (IrqMutexGuard _ _) => true | Held (MutexGuard _) => false | Window _ => true end.

(** A thread's own code or an interrupt handler, with what it has to undo, the newest
    first. *)
Record Activity := mkActivity { handler : bool; undo : list Undo }.
(** Code starts with interrupts on, a handler with interrupts off. *)
Definition start_flag (a : Activity) : bool := negb (handler a).

(** The running thread, the newest activity first; the threads put aside, with
    their flags. *)
Record System := mkSystem { cpu : Cpu; running : list Activity; aside : list (bool * list Activity) }.

Definition irq_free (xs : list Undo) : Prop := forall l, l ∈ locks xs -> is_irq l = false.

Inductive step : System -> System -> Prop :=
| step_lock c a rest others l g c' :
    l ∉ locks (undo a) -> (is_irq l = false -> handler a = false) -> lock_round l c = (Some g, c') ->
    step (mkSystem c (a :: rest) others) (mkSystem c' (mkActivity (handler a) (Held g :: undo a) :: rest) others)
| step_spin c a rest others l c' :
    l ∉ locks (undo a) -> (is_irq l = false -> handler a = false) -> lock_round l c = (None, c') ->
    step (mkSystem c (a :: rest) others) (mkSystem c' (a :: rest) others)
| step_drop c h g xs rest others :
    step (mkSystem c (mkActivity h (Held g :: xs) :: rest) others) (mkSystem (drop g c) (mkActivity h xs :: rest) others)
| step_disable c a rest others :
    step (mkSystem c (a :: rest) others) (mkSystem (disable c).2 (mkActivity (handler a) (Window (disable c).1 :: undo a) :: rest) others)
| step_restore c h enabled xs rest others :
    step (mkSystem c (mkActivity h (Window enabled :: xs) :: rest) others) (mkSystem (restore enabled c) (mkActivity h xs :: rest) others)
| step_interrupt c running others :
    interrupts c = true -> step (mkSystem c running others) (mkSystem (cli c) (mkActivity true [] :: running) others)
| step_return c a rest others :
    step (mkSystem c (mkActivity true [] :: a :: rest) others) (mkSystem (sti c) (a :: rest) others)
| step_switch c a rest before flag thread after :
    irq_free (undo a) ->
    step (mkSystem c (a :: rest) (before ++ (flag, thread) :: after))
      (mkSystem (mkCpu flag (bits c) (panicking c)) thread (before ++ (interrupts c, a :: rest) :: after))
| step_spawn c running others :
    step (mkSystem c running others) (mkSystem c running ((true, [mkActivity false []]) :: others))
| step_exit c xs before flag thread after :
    locks xs = [] ->
    step (mkSystem c [mkActivity false xs] (before ++ (flag, thread) :: after)) (mkSystem (mkCpu flag (bits c) (panicking c)) thread (before ++ after)).

(** One thread, no lock taken, interrupts on. *)
Definition boot : System := mkSystem (mkCpu true (fun _ => false) false) [mkActivity false []] [].

Inductive reachable : System -> Prop :=
| reachable_boot : reachable boot
| reachable_step s s' : reachable s -> step s s' -> reachable s'.

(** ** The invariant *)

(** The flag while guards and windows are open: each that turns it off remembers it. *)
Fixpoint flags_ok (start : bool) (xs : list Undo) (flag : bool) : Prop :=
  match xs with
  | [] => flag = start
  | Held (IrqMutexGuard _ enabled) :: xs | Window enabled :: xs => flag = false /\ flags_ok start xs enabled
  | Held (MutexGuard _) :: xs => flags_ok start xs flag
  end.

Lemma handler_flag xs flag : flags_ok false xs flag -> flag = false.
Proof. revert flag. induction xs as [|[[n e|n]|e] xs IH]; intros flag; cbn; [done|by intros [-> _]|apply IH|by intros [-> _]]. Qed.

(** With interrupts on, nothing keeps them off. *)
Lemma flag_on_enabled start xs : flags_ok start xs true -> (forall x, x ∈ xs -> disables x = false) /\ start = true.
Proof.
  induction xs as [|[[n e|n]|e] xs IH]; cbn; [intros <-; by split; [intros g []%not_elem_of_nil|]|by intros [[=] _]| |by intros [[=] _]].
  intros [H ->]%IH. split; [|done]. intros g [->|Hg]%elem_of_cons; [done|by apply H].
Qed.

Lemma locks_irq xs l : l ∈ locks xs -> is_irq l = true -> exists x, x ∈ xs /\ disables x = true.
Proof.
  intros ([g|e] & Hx & Hl)%list_elem_of_omap Hi; [|done]. injection Hl as <-. exists (Held g). split; [done|]. by destruct g.
Qed.

Lemma flag_on_irq_free start xs : flags_ok start xs true -> irq_free xs.
Proof.
  intros [H _]%flag_on_enabled l Hl. destruct (is_irq l) eqn:E; [|done]. destruct (locks_irq xs l Hl E) as (x & Hx & Hd). by rewrite (H x Hx) in Hd.
Qed.

Lemma enabled_flag start xs flag : (forall x, x ∈ xs -> disables x = false) -> flags_ok start xs flag -> flag = start.
Proof.
  induction xs as [|x xs IH]; intros Hf H; [done|]. pose proof (Hf x ltac:(by left)) as Hx. destruct x as [[n e|n]|e]; [done| |done].
  apply IH; [|done]. intros y Hy. apply Hf. by right.
Qed.

Lemma disabled_flag start xs flag x : flags_ok start xs flag -> x ∈ xs -> disables x = true -> flag = false.
Proof.
  intros H Hx Hd. destruct flag; [|done]. apply flag_on_enabled in H as [H _]. by rewrite (H x Hx) in Hd.
Qed.

(** A thread: its own code, under at most one handler, which can only have
    interrupted it with interrupts on. *)
Definition thread_ok (flag : bool) (acts : list Activity) : Prop :=
  match acts with
  | [a] => handler a = false /\ flags_ok true (undo a) flag
  | [h; a] => handler h = true /\ handler a = false /\ flags_ok false (undo h) flag /\ flags_ok true (undo a) true
  | _ => False
  end.

Definition held (acts : list Activity) : list Lock := acts ≫= fun a => locks (undo a).
Definition all_held (s : System) : list Lock := held (running s) ++ (aside s ≫= fun t => held t.2).

Definition put_aside (t : bool * list Activity) : Prop := thread_ok t.1 t.2 /\ forall l, l ∈ held t.2 -> is_irq l = false.

Record sound (s : System) : Prop := {
  sound_running : thread_ok (interrupts (cpu s)) (running s);
  sound_aside : Forall put_aside (aside s);
  sound_unique : NoDup (all_held s);
  sound_bits : forall l, bits (cpu s) l = true <-> l ∈ all_held s;
  sound_calm : panicking (cpu s) = false }.

Lemma locks_held g xs : locks (Held g :: xs) = lock_of g :: locks xs.
Proof. done. Qed.
Lemma locks_window e xs : locks (Window e :: xs) = locks xs.
Proof. done. Qed.

Lemma held_cons a rest : held (a :: rest) = (locks (undo a)) ++ held rest.
Proof. done. Qed.

(** Only the running activity can hold an [IrqSpinMutex]. *)
Lemma irq_holder flag a rest l : thread_ok flag (a :: rest) -> l ∈ held (a :: rest) -> is_irq l = true -> l ∈ locks (undo a).
Proof.
  intros Ht Hl Hi. rewrite held_cons in Hl. apply elem_of_app in Hl as [|Hl]; [done|]. destruct rest as [|b [|]]; [by apply elem_of_nil in Hl| |done].
  destruct Ht as (_ & _ & _ & Hb). apply flag_on_irq_free in Hb. rewrite held_cons, app_nil_r in Hl.
  by rewrite (Hb l Hl) in Hi.
Qed.

Lemma aside_irq_free others l : Forall put_aside others -> l ∈ others ≫= (fun t => held t.2) -> is_irq l = false.
Proof. intros Hf (t & Hl & Ht)%list_elem_of_bind. rewrite Forall_forall in Hf. by apply (Hf t Ht). Qed.

(** An [IrqSpinMutex] that is taken is taken by the running activity. *)
Lemma irq_taken c a rest others n :
  sound (mkSystem c (a :: rest) others) -> bits c (Irq n) = true -> Irq n ∈ locks (undo a).
Proof.
  intros [Ht Ha _ Hb _] H. apply Hb in H. unfold all_held in H. cbn in *. apply elem_of_app in H as [H|H].
  - by eapply irq_holder.
  - by apply (aside_irq_free others) in H.
Qed.

(** ** Attempts *)

Lemma store_bits l v c l' : bits (store l v c) l' = if decide (l' = l) then v else bits c l'.
Proof. done. Qed.

(** Away from the fatal path a lock that is free is taken at once. *)
Lemma lock_round_free l c :
  panicking c = false -> bits c l = false ->
  exists g c', lock_round l c = (Some g, c') /\ lock_of g = l /\ panicking c' = false /\
    (forall l', bits c' l' = if decide (l' = l) then true else bits c l') /\
    forall start xs, flags_ok start xs (interrupts c) -> flags_ok start (Held g :: xs) (interrupts c').
Proof.
  intros Hp Hl. unfold lock_round. destruct l as [n|n]; cbn [try_lock]; unfold irq_try_lock, spin_try_lock, compare_exchange; cbn [bits cli]; rewrite Hl.
  - do 2 eexists. split; [done|]. split; [done|]. split; [done|]. split; [done|]. intros start xs H. cbn. done.
  - do 2 eexists. split; [done|]. split; [done|]. split; [done|]. split; [done|]. intros start xs H. cbn. done.
Qed.

(** A taken one leaves the processor as it was. *)
Lemma lock_round_taken l c : panicking c = false -> bits c l = true -> lock_round l c = (None, c).
Proof.
  intros Hp Hl. unfold lock_round. destruct c as [i b q]. cbn in Hp, Hl. subst q. destruct l as [n|n]; cbn [try_lock]; unfold irq_try_lock, spin_try_lock, compare_exchange; cbn [bits cli interrupts]; rewrite Hl; cbn.
  - by destruct i.
  - done.
Qed.

Lemma drop_bits g c l : bits (drop g c) l = if decide (l = lock_of g) then false else bits c l.
Proof. destruct g as [n e|n]; [destruct e|]; done. Qed.
Lemma drop_calm g c : panicking (drop g c) = panicking c.
Proof. destruct g as [n e|n]; [destruct e|]; done. Qed.
Lemma drop_flags start g xs c : flags_ok start (Held g :: xs) (interrupts c) -> flags_ok start xs (interrupts (drop g c)).
Proof. destruct g as [n e|n]; cbn; [|done]. intros [Hi H]. destruct e; cbn; [done|by rewrite Hi]. Qed.

(** ** Steps keep the invariant *)

Lemma thread_replace flag flag' a a' rest :
  handler a' = handler a -> (forall start, flags_ok start (undo a) flag -> flags_ok start (undo a') flag') ->
  thread_ok flag (a :: rest) -> thread_ok flag' (a' :: rest).
Proof.
  intros Hh Hf. destruct rest as [|b [|]]; cbn; [| |done].
  - intros [H1 H2]. rewrite Hh. auto.
  - intros (H1 & H2 & H3 & H4). rewrite Hh. auto.
Qed.

Lemma all_held_cons c a rest others : all_held (mkSystem c (a :: rest) others) = (locks (undo a)) ++ held rest ++ (others ≫= fun t => held t.2).
Proof. unfold all_held. cbn [running aside]. by rewrite held_cons, <- app_assoc. Qed.

Lemma sound_lock c a rest others l g c' :
  sound (mkSystem c (a :: rest) others) -> lock_round l c = (Some g, c') ->
  sound (mkSystem c' (mkActivity (handler a) (Held g :: undo a) :: rest) others).
Proof.
  intros [Ht Ha Hu Hb Hp] E. cbn [cpu running aside] in *. destruct (bits c l) eqn:El; [by rewrite lock_round_taken in E|].
  destruct (lock_round_free l c Hp El) as (g' & c'' & E' & Hg & Hp' & Hb' & Hf). rewrite E in E'. injection E' as <- <-.
  assert (Hl : l ∉ all_held (mkSystem c (a :: rest) others)) by (intros H%Hb; cbn in H; congruence).
  split; cbn [cpu running aside].
  - eapply thread_replace; [| |exact Ht]; [done|]. intros start. apply Hf.
  - done.
  - rewrite all_held_cons in *. cbn [undo]. rewrite locks_held, Hg. by constructor.
  - intros l'. rewrite Hb', all_held_cons. cbn [undo]. rewrite locks_held, Hg.
    specialize (Hb l'). rewrite all_held_cons in Hb. cbn [cpu] in Hb. cbn [app]. rewrite elem_of_cons, <- Hb. destruct (decide (l' = l)); [tauto|]. intuition.
  - done.
Qed.

Lemma sound_drop c h g xs rest others :
  sound (mkSystem c (mkActivity h (Held g :: xs) :: rest) others) -> sound (mkSystem (drop g c) (mkActivity h xs :: rest) others).
Proof.
  intros [Ht Ha Hu Hb Hp]. cbn [cpu running aside] in *. rewrite all_held_cons in Hu, Hb. cbn [undo] in *. rewrite locks_held in Hu, Hb.
  apply NoDup_cons in Hu as [Hg Hu]. split; cbn [cpu running aside].
  - eapply thread_replace; [| |exact Ht]; [done|]. intros start. apply drop_flags.
  - done.
  - by rewrite all_held_cons.
  - intros l. rewrite drop_bits, all_held_cons. cbn [undo]. specialize (Hb l). cbn [app] in Hb. rewrite elem_of_cons in Hb.
    destruct (decide (l = lock_of g)) as [->|]; [done|]. rewrite Hb. intuition.
  - by rewrite drop_calm.
Qed.

(** Moves of threads: the locks held are the same. *)
Lemma sound_moved c c' r r' o o' :
  sound (mkSystem c r o) -> all_held (mkSystem c' r' o') ≡ₚ all_held (mkSystem c r o) -> bits c' = bits c -> panicking c' = panicking c ->
  thread_ok (interrupts c') r' -> Forall put_aside o' -> sound (mkSystem c' r' o').
Proof.
  intros [Ht Ha Hu Hb Hp] Hperm Hbits Hpan Ht' Ha'. split; cbn [cpu running aside] in *; [done|done|by rewrite Hperm| |by rewrite Hpan].
  intros l. rewrite Hbits, Hb. by rewrite Hperm.
Qed.

Lemma top_irq_free flag a rest : thread_ok flag (a :: rest) -> irq_free (undo a) -> forall l, l ∈ held (a :: rest) -> is_irq l = false.
Proof.
  intros Ht Hf l Hl. destruct (is_irq l) eqn:E; [|done]. apply (irq_holder flag a rest) in Hl; [|done|done].
  rewrite <- E. by apply Hf.
Qed.

Lemma exchange_perm {A} (x y z w : list A) : x ++ y ++ z ++ w ≡ₚ z ++ y ++ x ++ w.
Proof. rewrite (Permutation_app_swap_app x y), (Permutation_app_swap_app x z). apply Permutation_app_swap_app. Qed.

Lemma lock_step_sound s s' : sound s -> step s s' -> sound s'.
Proof.
  intros Hs Hstep. destruct Hstep as [c a rest others l g c' _ _ E|c a rest others l c' _ _ E|c h g xs rest others|c a rest others|c h e xs rest others|c r others Hi|c a rest others
    |c a rest before flag thread after Hf|c r others|c xs before flag thread after Hxs].
  - by eapply sound_lock.
  - destruct (bits c l) eqn:El; [|destruct (lock_round_free l c (sound_calm _ Hs) El) as (? & ? & E' & _); congruence].
    rewrite (lock_round_taken l c (sound_calm _ Hs) El) in E. by injection E as <-.
  - by apply sound_drop.
  - eapply sound_moved; [exact Hs|done|done|done| |apply Hs]. eapply thread_replace; [| |apply Hs]; [done|]. intros start Hf. by split.
  - eapply sound_moved; [exact Hs|done|by destruct e|by destruct e| |apply Hs]. eapply thread_replace; [| |apply Hs]; [done|]. cbn. intros start [Hi Hf]. destruct e; cbn; [done|]. by rewrite <- Hi in Hf at 1.
  - eapply sound_moved; [exact Hs|done|done|done| |apply Hs]. pose proof (sound_running _ Hs) as Ht. cbn in Ht. rewrite Hi in Ht.
    destruct r as [|a [|b [|]]]; [done| | |done]; cbn in *; [by destruct Ht|]. destruct Ht as (_ & _ & H%handler_flag & _). done.
  - eapply sound_moved; [exact Hs|done|done|done| |apply Hs]. pose proof (sound_running _ Hs) as Ht. cbn in Ht. destruct rest; [|done]. cbn. by destruct Ht as (_ & ? & _ & ?).
  - pose proof (sound_aside _ Hs) as Ha. pose proof (sound_running _ Hs) as Ht. cbn [cpu running aside] in *. apply Forall_app in Ha as [Ha1 Ha2]. apply Forall_cons in Ha2 as [[Ht1 Ht2] Ha2].
    eapply sound_moved; [exact Hs| |done|done|done|].
    + unfold all_held. cbn [running aside]. rewrite !bind_app, !bind_cons. apply exchange_perm.
    + apply Forall_app. split; [done|]. constructor; [|done]. split; [done|]. cbn [snd]. by eapply top_irq_free.
  - eapply sound_moved; [exact Hs| |done|done|apply Hs|]. { done. }
    constructor; [|apply Hs]. split; [done|]. intros l []%elem_of_nil.
  - pose proof (sound_aside _ Hs) as Ha. cbn [aside] in *. apply Forall_app in Ha as [Ha1 Ha2]. apply Forall_cons in Ha2 as [[Ht1 Ht2] Ha2].
    eapply sound_moved; [exact Hs| |done|done|done|by apply Forall_app].
    unfold all_held. cbn [running aside]. rewrite held_cons. cbn [undo]. rewrite Hxs, !bind_app, !bind_cons. cbn [snd app]. rewrite !app_assoc. apply Permutation_app_tail, Permutation_app_comm.
Qed.

Lemma reachable_sound s : reachable s -> sound s.
Proof.
  induction 1 as [|s s' _ IH Hs]; [|by eapply lock_step_sound]. split; [done|constructor|constructor| |done].
  intros l. cbn. split; [done|]. by intros ?%elem_of_nil.
Qed.

(** ** What the locks promise *)

Lemma thread_flag flag a rest : thread_ok flag (a :: rest) -> flags_ok (start_flag a) (undo a) flag.
Proof. unfold start_flag. destruct rest as [|b [|]]; cbn; [intros [-> H]; done|intros (-> & _ & H & _); done|done]. Qed.

Lemma held_step c a rest others l s' :
  sound (mkSystem c (a :: rest) others) -> l ∈ locks (undo a) -> is_irq l = true -> step (mkSystem c (a :: rest) others) s' ->
  exists a', running s' = a' :: rest /\ handler a' = handler a /\ others `suffix_of` aside s'.
Proof.
  intros Hs Hl Hi Hstep. destruct (locks_irq _ _ Hl Hi) as (x & Hx & Hd).
  pose proof (disabled_flag _ _ _ x (thread_flag _ _ _ (sound_running _ Hs)) Hx Hd) as Hoff. cbn [cpu running] in Hoff.
  inversion Hstep as [? ? ? ? ? ? ? _ _ E|? ? ? ? ? ? _ _ E| | | |? ? ? Hon| |? ? ? ? ? ? ? Hf| |? ? ? ? ? ? Hxs]; subst; cbn [running aside undo] in *;
    try (by eexists).
  - congruence.
  - by apply elem_of_nil in Hx.
  - by rewrite (Hf l Hl) in Hi.
  - eexists. split; [done|]. split; [done|]. by apply suffix_cons_r.
  - rewrite Hxs in Hl. by apply elem_of_nil in Hl.
Qed.

Lemma spin_holder c a rest others n :
  sound (mkSystem c (a :: rest) others) -> handler a = false -> Spin n ∉ locks (undo a) -> bits c (Spin n) = true ->
  exists t, t ∈ others /\ Spin n ∈ held t.2.
Proof.
  intros [Ht _ _ Hb _] Hh Hn H. apply Hb in H. rewrite all_held_cons, !elem_of_app in H. destruct H as [|[H|H]]; [done| |].
  - destruct rest as [|b [|]]; [by apply elem_of_nil in H| |done]. cbn in Ht. destruct Ht as [Ht _]. congruence.
  - apply list_elem_of_bind in H as (t & Hl & Hin). by exists t.
Qed.

(** C40. In every state reached by threads and handlers that follow the rules of
    [step] (guards and windows go in reverse order, a lock is not taken twice by an
    activity, a handler takes no [SpinMutex], a thread that holds an [IrqSpinMutex] does
    not give the processor up, the kernel is not on its fatal path) a lock has one
    holder.  An [IrqSpinMutex] the running activity does not hold is taken at the first
    attempt, so no interrupt handler waits for the code it interrupted; while the
    activity holds one, or has turned interrupts off itself, they are off, and while it
    holds one every step is its own; once all that is undone they are as the activity
    found them.  A [SpinMutex] that must be waited for is held by another thread. *)
Theorem locked_operation_is_one_step s a rest :
  reachable s -> running s = a :: rest ->
  NoDup (all_held s) /\
  (forall n, Irq n ∉ locks (undo a) -> exists c', lock_round (Irq n) (cpu s) = (Some (IrqMutexGuard n (interrupts (cpu s))), c')) /\
  (forall x, x ∈ undo a -> disables x = true -> interrupts (cpu s) = false) /\
  (forall n, Irq n ∈ locks (undo a) -> interrupts (cpu s) = false /\
     forall s', step s s' -> exists a', running s' = a' :: rest /\ handler a' = handler a /\ aside s `suffix_of` aside s') /\
  ((forall x, x ∈ undo a -> disables x = false) -> interrupts (cpu s) = start_flag a) /\
  (forall n c', handler a = false -> Spin n ∉ locks (undo a) -> lock_round (Spin n) (cpu s) = (None, c') -> exists t, t ∈ aside s /\ Spin n ∈ held t.2).
Proof.
  intros Hr Hrun. pose proof (reachable_sound s Hr) as Hs. destruct s as [c r others]. cbn [cpu running aside] in *. subst r.
  pose proof (thread_flag _ _ _ (sound_running _ Hs)) as Hflag. pose proof (sound_calm _ Hs) as Hp. cbn [cpu] in *. split; [apply Hs|]. split_and!.
  - intros n Hn. destruct (bits c (Irq n)) eqn:E; [by apply (irq_taken c a rest others) in E|]. unfold lock_round. cbn [try_lock]. unfold irq_try_lock, compare_exchange. cbn [bits cli]. rewrite E. by eexists.
  - intros x Hx Hd. by eapply disabled_flag.
  - intros n Hn. split; [|intros s' Hstep; by eapply held_step]. destruct (locks_irq _ _ Hn eq_refl) as (x & Hx & Hd). by eapply disabled_flag.
  - intros Hf. by eapply enabled_flag.
  - intros n c' Hh Hn E. destruct (bits c (Spin n)) eqn:Eb; [by eapply spin_holder|]. destruct (lock_round_free (Spin n) c Hp Eb) as (? & ? & E' & _). congruence.
Qed.

(** A thread that turned interrupts off and took lock 0, as [wait_event] does with its
    queue. *)
Definition waiting : System := mkSystem (store (Irq 0) true (cli (cli (cpu boot)))) [mkActivity false [Held (IrqMutexGuard 0 false); Window true]] [].

Lemma waiting_reachable : reachable waiting.
Proof.
  eapply reachable_step; [eapply reachable_step; [apply reachable_boot|apply (step_disable _ (mkActivity false []))]|].
  by apply (step_lock _ (mkActivity false [Window true]) [] [] (Irq 0)); [apply not_elem_of_nil| |].
Qed.

Lemma locked_operation_is_one_step_witness :
  interrupts (cpu waiting) = false /\ exists c', lock_round (Irq 1) (cpu waiting) = (Some (IrqMutexGuard 1 false), c').
Proof.
  destruct (locked_operation_is_one_step waiting (mkActivity false [Held (IrqMutexGuard 0 false); Window true]) [] waiting_reachable eq_refl) as (_ & H2 & _ & H4 & _).
  split; [apply (H4 0%nat); by left|]. apply (H2 1%nat). cbn. by intros [?|[]%elem_of_nil]%elem_of_cons.
Defined.

(** Guards must go in reverse order: dropped the other way round, interrupts come
    back on while the second lock is still held. *)
Lemma crossed_drops_open_a_window c :
  interrupts c = true -> bits c (Irq 0) = false -> bits c (Irq 1) = false ->
  let '(first, c1) := irq_try_lock 0 c in let '(second, c2) := irq_try_lock 1 c1 in
  exists g, first = Some g /\ interrupts (drop g c2) = true /\ bits (drop g c2) (Irq 1) = true.
Proof. intros Hi H0 H1. unfold irq_try_lock, compare_exchange. cbn. rewrite H0. cbn. rewrite H1. cbn. rewrite Hi. by eexists. Qed.

End Lock.
